(* ===== verification/_CoqProject ===== *)
-Q . S2P
Prelude.v
StLogic.v
SchedModel.v
Timing.v
ReadyQueue.v
Actor.v
Engine.v
EngineFrames.v
RunIds.v
Demo.v
Slots.v
Capacity.v
Management.v
Outcomes.v
Reconcile.v
Runs.v
Rotation.v
Credential.v
AgentState.v
StateFile.v
KeyRotation.v
Keyring.v
Registration.v
Onboarding.v
Registry.v
Proto.v
Outbox.v
Catalog.v
JobEvents.v
Paging.v
Reports.v
WebStore.v
WebGate.v
WebMetrics.v
Policy.v
Compiler.v
SchedulerPort.v
RemoteJobs.v
RemoteTheorems.v
RemoteSafety.v
WebOps.v
WebLife.v
WebJson.v
WebApi.v
WebAccess.v
Delivery.v
Session.v
SessionDemo.v
SessionTheorems.v
SessionJobs.v
SessionSync.v
WorkerFrames.v
PlusSchema.v
SchemaStore.v
RuntimeStore.v
PluginCatalog.v
WorkerProtocol.v
WorkerLoop.v
PluginManager.v
NoiseSession.v
NoiseSync.v
Handshake.v
Enrollment.v
WebStream.v
