(* ===== verification/Prelude.v ===== *)
(** * Smalux: a verification library

    Smalux is a Rust workspace: an Agent that runs scheduled jobs on a machine
    and a Server that registers Agents, tells them which jobs to run and collects
    their reports, over a Noise-encrypted gRPC stream.  This library models its
    core logic as executable functions and proves the theorems listed below.
    This file is the root; it holds what all the others share.

    ** The program and its parts

    - The scheduler of the Agent ([crates/smalux-agent/src/scheduler]) is one actor:
      a [select!] loop that owns the job table, a queue of due executions, a
      [DelayQueue] of timers and the set of running tasks, and handles commands,
      timers and completions one at a time.
    - The outboxes of the Agent ([smalux-agent/src/outbox.rs]) keep reports,
      events and command results over short disconnections.
    - The remote jobs of the Agent ([smalux-agent/src/remote_jobs.rs] and its
      submodules) translate the Server's job catalogue into scheduler jobs, under a
      local policy, and reconcile it with the scheduler.
    - The client of the Agent ([smalux-agent/src/client]) registers, stores its
      identity, connects and follows key rotations.
    - The protocol library ([crates/smalux-protocol]) has the key state machines,
      credentials and transport both sides share.
    - The Server ([crates/smalux-server]) keeps tokens, registrations, Agents and its
      own key ring in a database that several processes may use, serves the sessions
      of the Agents, stores job catalogs, commands, events and reports, and offers a web
      API to the browsers of its users.

    ** Files

    Shared:
    - [Prelude.v]: machine integers, [result], the state monad [ST] ([None] is a
      panic), tactics ([bools], [split_if], [inv_result]) and generic lemmas.
    - [StLogic.v]: inversion of [ST] code, [follows R m] (every return of [m] relates
      the states by [R]) with its hint database, and [yields] (total correctness).

    Scheduler, modules of [scheduler/]:
    - [SchedModel.v]: [model.rs], [config.rs], [event.rs], [task.rs] as types.
    - [Timing.v]: [runtime/timing.rs]; calendar crates are the class [Chrono].
    - [ReadyQueue.v]: [queue.rs]; hash iteration order is the class [HashOrder].
    - [Actor.v]: the records of [runtime/engine.rs]; clocks, UUIDs, [DelayQueue]
      limits are the class [Runtime].
    - [Engine.v]: every method of [SchedulerActor] ([engine.rs], [timers.rs],
      [scheduling.rs], [execution.rs], [management.rs]) under its own name.
    - [EngineFrames.v], [RunIds.v], [Slots.v], [Capacity.v], [Management.v],
      [Outcomes.v], [Reconcile.v]: theorems; [Demo.v]: a concrete environment for the
      witnesses; [Runs.v]: recorded runs that exhibit defects.

    Keys, registration and connection:
    - [Rotation.v]: [smalux-protocol/src/noise/identity.rs], [rotation.rs].
    - [Credential.v]: [tonic_transport.rs] (errors, credentials).
    - [AgentState.v]: [client/state/model.rs], [client/connection.rs], the announcements of
      [client/supervisor.rs]; every call to store and network is recorded in a trace.
    - [KeyRotation.v]: the rotation protocol of Server ring and Agent together.
    - [Keyring.v]: [database/keyring.rs], [service/agent/keyring_manager.rs].
    - [Registration.v]: [database/agent_registration.rs], the changes of
      [database/management.rs]; [Onboarding.v]: Agent and Server registration together.

    Jobs from the Server to the scheduler, and back:
    - [Proto.v]: the messages of [smalux-protocol/proto], as far as jobs need them.
    - [Outbox.v]: [smalux-agent/src/outbox.rs] and the drain of [main.rs].
    - [Catalog.v]: [database/agent_job.rs] on tables shared with the next files.
    - [JobEvents.v]: the emission of events in the Agent's [main.rs] and their storage
      in [database/job_event.rs].
    - [Policy.v], [Compiler.v]: [remote_jobs/policy.rs], [remote_jobs/compiler.rs]; the
      constructors of tasks are the class [TaskBuilders].
    - [SchedulerPort.v]: the handle of [scheduler/runtime.rs] as the interface
      [SchedulerPort] with its laws, and the actor of [Engine.v] as an instance.
    - [RemoteJobs.v]: [remote_jobs.rs], every operation of the controller, over any
      [SchedulerPort]; [RemoteTheorems.v], [RemoteSafety.v]: its theorems.
    - [WebOps.v]: [database/web_job_operations.rs], [database/job_command.rs];
      [WebLife.v]: the life of web operations; [Delivery.v]: Server tables, messages and
      Agent controller together.
    - [Session.v]: [transport/session/business.rs], a function per branch of the loop, and the
      pause registry of [service/agent/state.rs]; [SessionDemo.v]: a session to evaluate;
      [SessionTheorems.v], [SessionJobs.v], [SessionSync.v]: its theorems.

    Sessions of Agents, and the web API:
    - [Registry.v]: [service/agent/session_registry.rs], the permits of
      [service/agent/transport.rs] and the life of a session in [transport/session.rs].
    - [Paging.v]: the cursors of lists, and the query and page that [report.list] and
      [event.list] share, for any table of class [Listed].
    - [Reports.v]: [database/task_report.rs] and the queries of [database/job_event.rs].
    - [WebStore.v]: [web_auth/store.rs], users, sessions and audit events of the browser.
    - [WebGate.v]: the gates, the cookie, the names, passwords and the login limiter of
      [web_auth.rs]; [WebMetrics.v]: [web_metrics.rs].
    - [WebJson.v]: parameters, views and permissions of [web_auth.rs]; [WebApi.v]: its
      handlers, in a monad over the tables whose database calls may fail;
      [WebAccess.v]: their theorems; [WebStream.v]: [web_auth/ws.rs], the web sockets with
      their directory, requests, pushes, guard and writer.

    Plugins, and the files of the Agent:
    - [StateFile.v]: [smalux-agent/src/client/state/file_store.rs], every step of a save
      with its possible failure or the death of the process.
    - [WorkerFrames.v]: the pipe to a worker, [smalux-plus-core/src/framing.rs].
    - [PlusSchema.v]: [smalux-plus-core/src/schema.rs], validation, normal form and hash.
    - [SchemaStore.v]: [database/plugin_schema.rs] and
      [service/agent/plugin_schema_registry.rs], one table and the cache of each process.
    - [RuntimeStore.v]: [database/plugin_runtime.rs], [database/agent_snapshot.rs] and the
      gate of [smalux-agent/src/plugins/runtime.rs].
    - [PluginCatalog.v]: [smalux-plus-core/src/manifest.rs] and
      [smalux-agent/src/plugins/catalog.rs], discovery over a file system.
    - [WorkerProtocol.v]: the messages of [smalux-plus-core/src/protocol.rs] and the start of
      a worker, both sides ([smalux-plus-core/src/worker.rs], [plugins/worker.rs]).
    - [WorkerLoop.v]: the loop of a worker as a machine over events, and the client that
      waits for its answers ([plugins/worker.rs], [plugins/task.rs]).
    - [PluginManager.v]: [plugins/manager.rs], workers, restarts, pauses and their notices.

    The encrypted session:
    - [NoiseSession.v]: [smalux-protocol/src/noise/session.rs] and
      [tonic_transport/session.rs] with [control.rs], [driver_loop.rs], [policy.rs] and
      [driver.rs]: encryption, heartbeats, rekeying and the driver.
    - [NoiseSync.v]: Agent and Server at the two ends of ordered channels.
    - [Handshake.v]: [noise/client.rs], [noise/server.rs], the acceptor of
      [tonic_transport/server.rs] and the connecting half of [tonic_transport/client.rs].
    - [Enrollment.v]: the messages of a registration, [session/registration.rs] and
      [session/authorization.rs] of the Server and the Agent's side of them, over the
      tables of [Registration.v].

    ** What the theorems show

    - Scheduler state: the slot counter, the running map and the spawned tasks agree in
      every reachable state, a slot being lost only by a [JoinError] ([slot_accounting],
      [join_error_leaks_slot]), a run id is never in two places
      ([run_ids_unique]), waiting and running executions stay within the limits
      ([pending_within_limit], [dispatch_ready_limits]) and no slot stays free while a
      reachable execution may run ([dispatch_ready_work_conserving]).
    - Scheduler operations: what [update_job], [disable_job], [delete_job], [add_job],
      [reconcile_jobs] and [handle_completion] do to the whole state, on success and on
      every error; the occurrences a due timer yields; retry delays.
    - Keys: an Agent is not locked out by rotations ([no_lockout]); processes on one
      database agree on the ring of a revision ([managers_coherent]).
    - Registration: tokens are single-use, revocation is final, commit is atomic and
      repeatable; the Agent stores before it commits or acknowledges, at every
      interruption ([establish_initial_safe], [process_announcement_safe]).
    - Remote jobs: the controller refines an abstract catalog ([directory_refines]),
      applies a command once ([command_applied_once]), leaves exactly the jobs of a
      replacement ([replace_all_exact]), never gets around the local policy
      ([commands_respect_policy]), and reports a digest that decides whether it is in
      step ([digest_decides_resync]); compiled jobs are well typed.
    - Server tables: revisions move forward ([job_revisions_move_forward], with the
      exception of an unconditional replacement that is overtaken,
      [unguarded_replacement_moves_back]), replacements are compare-and-swap and repeatable, web operations follow their life ([web_operation_life]), and an operation
      shown as applied is installed on the Agent ([applied_means_installed]).
    - Events and reports: the outbox is a lossy FIFO with an exact count
      ([outbox_refines_lossy_fifo]), gap flags are exact ([gap_detection_exact]).
    - Business session: it never panics, sends only jobs the Agent is entitled to and
      none of a paused plugin, answers repeated requests once, accepts every policy of
      an Agent ([SessionTheorems.v], [SessionJobs.v], [SessionSync.v]).
    - Directory of sessions: a revoked Agent is cut off whatever is under way
      ([revoked_agent_disconnected]), permits bound the sessions ([session_capacity]).
    - Lists and reports: following the cursors gives every row once
      ([walk_pages_complete]; a row from before 1970 may end the walk), an execution has one report ([task_report_once]), a metric is
      the newest sample ([metric_value_sound]).
    - Web API: only a live session of an operator with its CSRF token changes jobs
      ([web_mutation_authorized]), answers keep to the role
      ([web_answers_respect_role], [permissions_enforced]), logins are sound and bounded
      ([login_sound], [login_rate_bounded]), sessions end ([session_lifetime],
      [revoked_session_stays_out]), cookies and definitions survive their encodings; a
      browser that follows a web socket holds what the Server holds ([stream_follows]), and
      nothing is read for a session that ended or an Agent that is gone, nor written after
      the guard or a logout noticed it ([stream_authorized]).
    - Plugins: frames arrive whole and in order up to a write that broke off
      ([frames_arrive_in_order], [frame_after_broken_write_misread]), the hash of a
      schema is that of its content ([schema_hash_canonical]), accepted schemas are typed
      ([accepted_schema_typed]), a Server asks for what it does not have
      ([missing_schemas_exact]) and binds a version once ([schema_binding_permanent]); the
      gate of an Agent follows the stored runtimes ([runtime_gate_follows_store]).
    - Plugin processes: discovery finds exactly the installed plugins
      ([discovered_plugins_exact]) and their schemas are accepted by the Server
      ([agent_schema_answer_stored]); a worker is taken into service exactly when both
      sides agree, protocol versions included ([worker_start_exact]), answers every request once
      ([plugin_requests_resolved]), keeps to its concurrency and comes to its end
      ([worker_concurrency_bounded], [worker_shutdown_completes]); the manager accounts for
      every process, over any events, unless a snapshot was malformed
      ([worker_processes_accounted], [refused_snapshot_leaves_process]) and keeps a plugin paused that crashes
      repeatedly ([crash_answered], [paused_until_new_snapshot]).
    - Encrypted session: through all rekeys every frame can be read by the end it reaches
      and messages arrive once and in order ([session_stays_readable]), except for a
      heartbeat during a rekey and a call dropped while it sends
      ([heartbeat_during_rekey_breaks_session], [dropped_answer_breaks_session]).
    - Opening a session: an IK handshake succeeds exactly with an active key of the ring
      ([ik_connection_refines_serve]) and its two ends agree ([ik_agreement]); a
      registration session needs the pre-shared key of its token
      ([registration_session_opens], [registration_session_authentic]); Agent and Server
      agree on who is registered whatever gets lost ([enrollment_agreement]).
    - State file: a save is atomic unless the backup is the only copy ([save_is_atomic],
      [second_interruption_loses_state]) and the document is read back
      ([state_document_roundtrip]).
    - Defects: theorems whose comment starts with Defect evaluate a concrete run (or
      prove a general fact) that shows behaviour the code does not intend.

    ** Fuel

    Loops that are not structural run on fuel that is proved or evidently enough:
    [pop_loop] on the length of the heap (each round removes a key), [dispatch_loop] on
    the number of waiting executions (each round starts one), [restore_loop] on the
    length of the blocked list (each round takes one), [draw_job_id] on one more than the
    number of jobs (UUIDs do not repeat), [catch_up_loop] on the catch-up limit.  The
    theorems on these functions show that they return, not only what holds if they do.
    In the second part: [evict] on the length of the cache order, [flush_loop] on the
    length of the queue, the drain on its number of rounds, [search_window] on the size of
    the slice, [blank_loop] on the length of the text.
    ** Not modelled

    - Cryptography (snow, BLAKE2s), protobuf encoding, gRPC and HTTP transport, SQL
      execution and the operating system: parameters, or answers of an environment
      that the theorems quantify over.  Hypotheses on them are classes named [...Laws],
      each with a concrete instance.
    - Log output, metrics of the processes, command lines and configuration files.
    - Database transactions are atomic and serial, except where a theorem is about the
      statements between which other processes run ([mutate_race]).
    - A catalog replacement and a web mutation are split at the statements between which
      other transactions can commit (before the revision is claimed, and for a replacement
      without a revision also between its checks and its writes); a turn of the business session sees what others
      committed before it, not during it.
    - Task constructors and collectors (they read the operating system), processes and
      pipes themselves, gRPC and web sockets themselves, the management sockets, configuration and command lines. The cryptography of a Noise
      handshake is a class with the properties of its specification.
    - In the web API the requests of one browser are modelled one at a time; what other
      requests commit between two statements of a session query is an arbitrary function
      on the tables. JSON text, Argon2, SHA-256 and Protobuf are parameters.
    ** Plan

    Next: the management service and the configuration. *)

From stdpp Require Import base gmap strings list pretty sorting.

Declare Scope smalux_scope.
Delimit Scope smalux_scope with smalux.
Open Scope Z_scope.

(** ** Machine integers

    Rust integers are kept as [Z]; every operation that can leave the width of
    its type is written out. *)

Definition u8_max : Z := 2 ^ 8 - 1.
Definition u32_max : Z := 2 ^ 32 - 1.
Definition u64_max : Z := 2 ^ 64 - 1.
Definition i64_min : Z := - 2 ^ 63.
Definition i64_max : Z := 2 ^ 63 - 1.
Definition i128_min : Z := - 2 ^ 127.
Definition i128_max : Z := 2 ^ 127 - 1.

(** [usize] on the 64-bit targets the project is built for. *)
Definition usize_max : Z := u64_max.

Definition in_u32 (x : Z) : Prop := 0 ≤ x ≤ u32_max.
Definition in_u64 (x : Z) : Prop := 0 ≤ x ≤ u64_max.

(** [u64::wrapping_add]. *)
Definition wrapping_add_u64 (x y : Z) : Z := (x + y) `mod` 2 ^ 64.

(** [checked_add] of the unsigned and signed types. *)
Definition checked_add_u64 (x y : Z) : option Z :=
  if bool_decide (x + y ≤ u64_max) then Some (x + y) else None.

Definition checked_i128 (x : Z) : option Z :=
  if bool_decide (i128_min ≤ x ≤ i128_max) then Some x else None.

Definition checked_i64 (x : Z) : option Z :=
  if bool_decide (i64_min ≤ x ≤ i64_max) then Some x else None.

(** [saturating_add]/[saturating_mul]/[saturating_sub] of the unsigned types. *)
Definition saturating_add (max x y : Z) : Z := Z.min max (x + y).
Definition saturating_mul (max x y : Z) : Z := Z.min max (x * y).
Definition saturating_sub (x y : Z) : Z := Z.max 0 (x - y).

(** [i128::saturating_sub]. *)
Definition saturating_sub_i128 (x y : Z) : Z := Z.max i128_min (Z.min i128_max (x - y)).

(** The length of a Rust collection as the [usize] the code compares with. *)
Definition zlen {A} (l : list A) : Z := Z.of_nat (length l).
Definition zsize {K A} `{Countable K} (m : gmap K A) : Z := Z.of_nat (size m).

(** ** Results

    [Result<A, E>]; [E] comes first so that [result E] is a monad. *)
Inductive result (E A : Type) : Type :=
| Ok (a : A)
| Err (e : E).
Arguments Ok {E A} a.
Arguments Err {E A} e.

Global Instance result_ret {E} : MRet (result E) := λ A a, Ok a.
Global Instance result_bind {E} : MBind (result E) := λ A B f r,
  match r with Ok a => f a | Err e => Err e end.
Global Instance result_fmap {E} : FMap (result E) := λ A B f r,
  match r with Ok a => Ok (f a) | Err e => Err e end.

(** [Option::ok_or]. *)
Definition ok_or {E A} (e : E) (o : option A) : result E A :=
  match o with Some a => Ok a | None => Err e end.

(** [Result::map_err]. *)
Definition map_err {E E' A} (f : E → E') (r : result E A) : result E' A :=
  match r with Ok a => Ok a | Err e => Err (f e) end.

Definition is_ok {E A} (r : result E A) : bool :=
  match r with Ok _ => true | Err _ => false end.
Definition is_err {E A} (r : result E A) : bool := negb (is_ok r).

(** [Result::ok]. *)
Definition to_option {E A} (r : result E A) : option A :=
  match r with Ok a => Some a | Err _ => None end.

(** ** Stateful code

    A method with [&mut self] is a function from the state before the call to
    the value returned and the state after it; [None] is a panic, after which
    the task that owned the state is gone. *)
Definition ST (S A : Type) : Type := S → option (A * S).

Global Instance st_ret {S} : MRet (ST S) := λ A a s, Some (a, s).
Global Instance st_bind {S} : MBind (ST S) := λ A B f m s,
  match m s with Some (a, s') => f a s' | None => None end.

Definition st_get {S} : ST S S := λ s, Some (s, s).
Definition st_gets {S A} (f : S → A) : ST S A := λ s, Some (f s, s).
Definition st_modify {S} (f : S → S) : ST S unit := λ s, Some (tt, f s).
Definition st_panic {S A} : ST S A := λ _, None.

(** [Option::expect], and indexing a map: a panic when there is no value. *)
Definition st_expect {S A} (o : option A) : ST S A :=
  match o with Some a => mret a | None => st_panic end.

(** A [for] loop over a list of values. *)
Fixpoint st_for {S A} (l : list A) (body : A → ST S unit) : ST S unit :=
  match l with
  | [] => mret tt
  | a :: l => body a ;; st_for l body
  end.

(** The [?] operator inside a stateful method that returns a [Result]: an error
    leaves the method at once, with the state as it is at that point. *)
Definition st_try {S E A B} (m : ST S (result E A)) (k : A → ST S (result E B)) :
    ST S (result E B) :=
  r ← m; match r with Ok a => k a | Err e => mret (Err e) end.

Notation "x ?← m ; k" := (st_try m (λ x, k))
  (at level 20, m at level 100, k at level 200, right associativity) : stdpp_scope.

(** A [for] loop whose body may leave the method with [?]. *)
Fixpoint st_for_try {S E A} (l : list A) (body : A → ST S (result E unit)) :
    ST S (result E unit) :=
  match l with
  | [] => mret (Ok tt)
  | a :: l => _ ?← body a; st_for_try l body
  end.

(** ** Automation *)

(** The facts that turn the boolean tests of the code into propositions. *)
Ltac bools :=
  repeat match goal with
  | H : bool_decide _ = true |- _ => apply bool_decide_eq_true_1 in H
  | H : bool_decide _ = false |- _ => apply bool_decide_eq_false_1 in H
  | H : _ || _ = false |- _ => apply orb_false_iff in H as [? ?]
  | H : _ && _ = true |- _ => apply andb_true_iff in H as [? ?]
  | H : negb _ = true |- _ => apply negb_true_iff in H
  | H : negb _ = false |- _ => apply negb_false_iff in H
  end.

(** Case analysis on the next test or match of the goal, keeping the equation. *)
Ltac split_if :=
  match goal with
  | |- context [if bool_decide ?P then _ else _] =>
      let E := fresh "Hb" in destruct (bool_decide P) eqn:E; bools
  | |- context [if ?b then _ else _] =>
      let E := fresh "Hb" in destruct b eqn:E; bools
  end.

Ltac decide_true := rewrite bool_decide_eq_true_2 by (first [done | lia]).
Ltac decide_false := rewrite bool_decide_eq_false_2 by (first [done | lia]).

Create HintDb smalux.

(** ** Generic lemmas *)

Lemma result_bind_Ok {E A B} (f : A → result E B) (r : result E A) b :
  r ≫= f = Ok b ↔ ∃ a, r = Ok a ∧ f a = Ok b.
Proof. destruct r; cbv [mbind result_bind]; naive_solver. Qed.

Lemma ok_or_Ok {E A} (e : E) (o : option A) a : ok_or e o = Ok a ↔ o = Some a.
Proof. destruct o; cbn; naive_solver. Qed.

Lemma map_err_Ok {E E' A} (f : E → E') (r : result E A) a : map_err f r = Ok a ↔ r = Ok a.
Proof. destruct r; cbn; naive_solver. Qed.

Lemma checked_add_u64_Some x y z : checked_add_u64 x y = Some z ↔ z = x + y ∧ x + y ≤ u64_max.
Proof. unfold checked_add_u64. case_bool_decide; naive_solver. Qed.

Lemma alter_Some {A} (f : A → A) (m : gmap Z A) i x :
  m !! i = Some x → alter f i m = <[i := f x]> m.
Proof.
  intros Hi. apply map_eq. intros k. destruct (decide (k = i)) as [->|Hne].
  - by rewrite lookup_alter_eq, lookup_insert_eq, Hi.
  - by rewrite lookup_alter_ne, lookup_insert_ne by done.
Qed.

Lemma alter_None {A} (f : A → A) (m : gmap Z A) i : m !! i = None → alter f i m = m.
Proof.
  intros Hi. apply map_eq. intros k. destruct (decide (k = i)) as [->|Hne].
  - by rewrite lookup_alter_eq, Hi.
  - by rewrite lookup_alter_ne by done.
Qed.

Lemma filter_fmap_list {A B} (f : A → B) (P : B → Prop) `{∀ b, Decision (P b)} (l : list A) :
  filter P (f <$> l) = f <$> filter (λ a, P (f a)) l.
Proof.
  induction l as [|a l IH]; [done|]. rewrite fmap_cons, !filter_cons, IH. by case_decide.
Qed.

Lemma filter_all_list {A} (P : A → Prop) `{∀ a, Decision (P a)} (l : list A) :
  (∀ a, a ∈ l → P a) → filter P l = l.
Proof.
  intros Hl. induction l as [|a l IH]; [done|].
  rewrite filter_cons_True, IH by (intros; apply Hl; set_solver). done.
Qed.

(** Opening a chain of [result] binds in a hypothesis. *)
Ltac inv_result :=
  repeat match goal with
  | H : _ ≫= _ = Ok _ |- _ => apply result_bind_Ok in H as (? & ? & ?)
  | H : ok_or _ _ = Ok _ |- _ => apply ok_or_Ok in H
  | H : map_err _ _ = Ok _ |- _ => apply map_err_Ok in H
  | H : Ok _ = Ok _ |- _ => injection H as H
  | H : Err _ = Ok _ |- _ => discriminate H
  end; simplify_eq.
