(* ===== verification/StLogic.v ===== *)
(** * Reasoning about stateful code

    Inversion of the combinators of [ST], and [follows R m]: every normal return
    of [m] relates the state before to the state after by [R].  With a preorder
    [R] the rule of each combinator only asks for its parts, so a fact about all
    the operations of a component is proved operation by operation with the
    tactic [follow], which reads the lemmas of the operations called from the
    hint database [follows]. *)

From stdpp Require Import base gmap strings list.
From S2P Require Import Prelude.

(** ** Inversion *)

Section Inversion.
Context {S : Type}.

Lemma st_bind_Some {A B} (m : ST S A) (f : A → ST S B) s b s' :
  (m ≫= f) s = Some (b, s') ↔ ∃ a s1, m s = Some (a, s1) ∧ f a s1 = Some (b, s').
Proof. unfold mbind, st_bind. destruct (m s) as [[a s1]|]; naive_solver. Qed.

Lemma st_ret_Some {A} (a b : A) (s s' : S) :
  (mret a : ST S A) s = Some (b, s') ↔ b = a ∧ s' = s.
Proof. unfold mret, st_ret. naive_solver. Qed.

Lemma st_get_Some (s a s' : S) : st_get s = Some (a, s') ↔ a = s ∧ s' = s.
Proof. unfold st_get. naive_solver. Qed.

Lemma st_gets_Some {A} (f : S → A) s a s' : st_gets f s = Some (a, s') ↔ a = f s ∧ s' = s.
Proof. unfold st_gets. naive_solver. Qed.

Lemma st_modify_Some (f : S → S) s a s' : st_modify f s = Some (a, s') ↔ s' = f s.
Proof. unfold st_modify. destruct a. naive_solver. Qed.

Lemma st_expect_Some {A} (o : option A) (s : S) a s' :
  st_expect o s = Some (a, s') ↔ o = Some a ∧ s' = s.
Proof. destruct o; cbn; cbv [mret st_ret st_panic]; naive_solver. Qed.

Lemma st_try_Some {E A B} (m : ST S (result E A)) (k : A → ST S (result E B)) s r s' :
  st_try m k s = Some (r, s') ↔
  (∃ a s1, m s = Some (Ok a, s1) ∧ k a s1 = Some (r, s')) ∨
  (∃ e, m s = Some (Err e, s') ∧ r = Err e).
Proof.
  unfold st_try. rewrite st_bind_Some. split.
  - intros ([a|e] & s1 & Hm & Hk); [naive_solver|]. apply st_ret_Some in Hk as [-> ->]. naive_solver.
  - intros [(a & s1 & ? & ?)|(e & ? & ->)]; [by exists (Ok a), s1|]. exists (Err e), s'. done.
Qed.

End Inversion.

(** Opens one or all the combinators of hypotheses [m s = Some (a, s')]. *)
Ltac st_open1 :=
  match goal with
  | H : (mbind _ _) _ = Some _ |- _ => apply st_bind_Some in H as (? & ? & ? & ?)
  | H : (mret _) _ = Some _ |- _ => apply st_ret_Some in H as [? ?]
  | H : st_get _ = Some _ |- _ => apply st_get_Some in H as [? ?]
  | H : st_gets _ _ = Some _ |- _ => apply st_gets_Some in H as [? ?]
  | H : st_modify _ _ = Some _ |- _ => apply st_modify_Some in H
  | H : st_expect _ _ = Some _ |- _ => apply st_expect_Some in H as [? ?]
  | H : st_panic _ = Some _ |- _ => discriminate H
  end; subst.
Ltac st_open := repeat st_open1.

(** Splits the next test or match at the head of such a hypothesis. *)
Ltac st_case :=
  match goal with
  | H : (if ?b then _ else _) _ = Some _ |- _ =>
      let E := fresh "Hb" in destruct b eqn:E; bools
  | H : (match ?x with _ => _ end) _ = Some _ |- _ =>
      let E := fresh "Hm" in destruct x eqn:E
  end.

(** ** Relations followed by a computation *)

Section Follows.
Context {S : Type} (R : relation S) `{!PreOrder R}.

Definition follows {A} (m : ST S A) : Prop := ∀ s a s', m s = Some (a, s') → R s s'.

Lemma follows_ret {A} (a : A) : follows (mret a).
Proof. intros s b s' [-> ->]%st_ret_Some. reflexivity. Qed.

Lemma follows_get : follows st_get.
Proof. intros s b s' [-> ->]%st_get_Some. reflexivity. Qed.

Lemma follows_gets {A} (f : S → A) : follows (st_gets f).
Proof. intros s b s' [-> ->]%st_gets_Some. reflexivity. Qed.

Lemma follows_panic {A} : follows (st_panic : ST S A).
Proof. intros s a s' [=]. Qed.

Lemma follows_expect {A} (o : option A) : follows (st_expect o).
Proof. intros s b s' [_ ->]%st_expect_Some. reflexivity. Qed.

Lemma follows_modify f : (∀ s, R s (f s)) → follows (st_modify f).
Proof. intros Hf s a s' ->%st_modify_Some. apply Hf. Qed.

Lemma follows_bind {A B} (m : ST S A) (f : A → ST S B) :
  follows m → (∀ a, follows (f a)) → follows (m ≫= f).
Proof. intros Hm Hf s b s' (a & s1 & ?%Hm & ?%Hf)%st_bind_Some. by etrans. Qed.

(** The continuation of [st_get] may use that the value read is the state. *)
Lemma follows_bind_get {B} (f : S → ST S B) :
  (∀ s a s', f s s = Some (a, s') → R s s') → follows (st_get ≫= f).
Proof. intros Hf s b s' (a & s1 & [-> ->]%st_get_Some & ?%Hf)%st_bind_Some. done. Qed.

Lemma follows_try {E A B} (m : ST S (result E A)) (k : A → ST S (result E B)) :
  follows m → (∀ a, follows (k a)) → follows (st_try m k).
Proof. intros Hm Hk. apply follows_bind; [done|]. intros [a|e]; [done|apply follows_ret]. Qed.

Lemma follows_for {A} (l : list A) (body : A → ST S unit) :
  (∀ a, follows (body a)) → follows (st_for l body).
Proof.
  intros Hb. induction l as [|a l IH]; cbn; [apply follows_ret|].
  apply follows_bind; [done|]. intros []. done.
Qed.

Lemma follows_for_try {E A} (l : list A) (body : A → ST S (result E unit)) :
  (∀ a, follows (body a)) → follows (st_for_try l body).
Proof.
  intros Hb. induction l as [|a l IH]; cbn; [apply follows_ret|]. apply follows_try; auto.
Qed.

End Follows.

Create HintDb follows.

(** One syntactic step; the lemmas of the operations called come from [follows]. *)
Ltac follow1 :=
  first
    [ solve [eauto 3 with follows]
    | apply follows_ret; apply _ | apply follows_get; apply _ | apply follows_gets; apply _
    | apply follows_panic | apply follows_expect; apply _
    | apply follows_bind; [apply _| |intros ?]
    | apply follows_try; [apply _| |intros ?]
    | apply follows_for; [apply _|intros ?]
    | apply follows_for_try; [apply _|intros ?]
    | match goal with
      | |- follows _ (if ?b then _ else _) => destruct b
      | |- follows _ (match ?x with _ => _ end) => destruct x
      end
    | apply follows_modify; intros ?; cbn; try done ].
Ltac follow := repeat (cbv beta zeta; follow1).

(** [keeps f m]: a normal return leaves the observation [f] of the state as it was. *)
Abbreviation keeps f := (follows (λ s s', f s' = f s)) (only parsing).

Global Instance keeps_preorder {S T} (f : S → T) : PreOrder (λ s s', f s' = f s).
Proof. split; [done|]. intros s1 s2 s3 H1 H2. by rewrite H2, H1. Qed.

(** Two relations followed at once. *)
Global Instance conj_preorder {S} (R1 R2 : relation S) `{!PreOrder R1, !PreOrder R2} :
  PreOrder (λ s s', R1 s s' ∧ R2 s s').
Proof. split; [split; reflexivity|]. intros s1 s2 s3 [? ?] [? ?]. split; by etrans. Qed.

(** ** Computations that always return *)

Lemma st_for_total {S A} (P : S → Prop) (l : list A) (body : A → ST S unit) s :
  (∀ a s, P s → ∃ s', body a s = Some (tt, s') ∧ P s') → P s →
  ∃ s', st_for l body s = Some (tt, s') ∧ P s'.
Proof.
  intros Hb. revert s. induction l as [|a l IH]; intros s Hs; cbn; [by exists s|].
  destruct (Hb a s Hs) as (s1 & H1 & Hs1). destruct (IH s1 Hs1) as (s2 & H2 & Hs2).
  exists s2. split; [|done]. apply st_bind_Some. eauto.
Qed.

(** [yields m s Q]: from [s], [m] returns normally, with a value and a state in [Q]. *)
Definition yields {S A} (m : ST S A) (s : S) (Q : A → S → Prop) : Prop :=
  ∃ a s', m s = Some (a, s') ∧ Q a s'.

Section Returns.
Context {S : Type}.

Lemma yields_ret {A} (a : A) (s : S) (Q : A → S → Prop) : Q a s → yields (mret a) s Q.
Proof. intros HQ. by exists a, s. Qed.

Lemma yields_gets {A} (f : S → A) s (Q : A → S → Prop) : Q (f s) s → yields (st_gets f) s Q.
Proof. intros HQ. by exists (f s), s. Qed.

Lemma yields_modify (f : S → S) s (Q : unit → S → Prop) : Q tt (f s) → yields (st_modify f) s Q.
Proof. intros HQ. by exists tt, (f s). Qed.

Lemma yields_bind {A B} (m : ST S A) (f : A → ST S B) s (Q : B → S → Prop) :
  yields m s (λ a s', yields (f a) s' Q) → yields (m ≫= f) s Q.
Proof.
  intros (a & s1 & H1 & b & s2 & H2 & HQ). exists b, s2. split; [|done].
  apply st_bind_Some. eauto.
Qed.

Lemma yields_try {E A B} (m : ST S (result E A)) (k : A → ST S (result E B)) s
    (Q : result E B → S → Prop) :
  yields m s (λ r s', match r with Ok a => yields (k a) s' Q | Err e => Q (Err e) s' end) →
  yields (st_try m k) s Q.
Proof.
  intros (r & s1 & H1 & H2). apply yields_bind. exists r, s1. split; [done|].
  destruct r; [done|]. by apply yields_ret.
Qed.

Lemma yields_mono {A} (m : ST S A) s (P Q : A → S → Prop) :
  yields m s P → (∀ a s', P a s' → Q a s') → yields m s Q.
Proof. intros (a & s' & H & HP) HPQ. exists a, s'. auto. Qed.

End Returns.
