(* ===== verification/SchedModel.v ===== *)
(** * Scheduler data model

    The types of [crates/smalux-agent/src/scheduler]: triggers, policies, patches
    and snapshots ([model.rs]), the configuration and the error type
    ([config.rs]), the events ([event.rs]) and the results a task run hands back
    ([task.rs]).  [DateTime<Utc>] and [Duration] are nanosecond counts in [Z],
    [NonZeroU32] and [NonZeroUsize] are [positive], a [Uuid] is the 128-bit
    number its bytes spell (its [Ord] compares the bytes in that order). *)

From stdpp Require Import base gmap strings list pretty.
From S2P Require Import Prelude.

Abbreviation Uuid := Z (only parsing).
Abbreviation JobId := Z (only parsing).
Abbreviation RunId := Z (only parsing).
Abbreviation DateTime := Z (only parsing).
Abbreviation Duration := Z (only parsing).
Abbreviation Instant := Z (only parsing).

(** ** [model.rs] *)

(** [Schedule]. *)
Inductive Schedule : Type :=
| Once (at_ : DateTime)
| Interval (every : Duration) (start_at : option DateTime)
| Cron (expression : string) (timezone : string).

(** [MisfirePolicy]. *)
Inductive MisfirePolicy : Type :=
| Skip
| FireOnce
| CatchUp (max_runs : positive).

(** [Trigger]. *)
Record Trigger : Type := mkTrigger {
  schedule : Schedule;
  misfire : MisfirePolicy;
  timeout : option Duration;
}.

Definition is_once (s : Schedule) : bool :=
  match s with Once _ => true | _ => false end.

Definition nanos_per_sec : Z := 1000000000.
Definition from_secs (s : Z) : Duration := s * nanos_per_sec.
Definition from_millis (ms : Z) : Duration := ms * 1000000.

(** [Trigger::once], [Trigger::interval], [Trigger::cron]. *)
Definition Trigger_once (at_ : DateTime) : Trigger :=
  mkTrigger (Once at_) FireOnce (Some (from_secs 30)).

Definition Trigger_interval (every : Duration) : Trigger :=
  mkTrigger (Interval every None) Skip (Some (from_secs 30)).

Definition Trigger_cron (expression : string) : Trigger :=
  mkTrigger (Cron expression "UTC") Skip (Some (from_secs 30)).

Definition with_timeout (t : Trigger) (timeout : option Duration) : Trigger :=
  mkTrigger (schedule t) (misfire t) timeout.

Definition with_timezone (t : Trigger) (tz : string) : Trigger :=
  match schedule t with
  | Cron e _ => mkTrigger (Cron e tz) (misfire t) (timeout t)
  | _ => t
  end.

(** [JobPriority]: the number it wraps. *)
Abbreviation JobPriority := Z (only parsing).

Definition priority_lowest : JobPriority := 0.
Definition priority_low : JobPriority := 3.
Definition priority_normal : JobPriority := 5.
Definition priority_high : JobPriority := 7.
Definition priority_critical : JobPriority := 10.

(** [TriggerCoalescing] and [CapacityPolicy]. *)
Inductive TriggerCoalescing : Type := KeepAll | KeepLatest.
Inductive CapacityPolicy : Type := Backpressure | SkipNewest | ReplaceOldestTrigger.

(** [RetryCondition]. *)
Record RetryCondition : Type := mkRetryCondition {
  retry_transient_error : bool;
  retry_timeout : bool;
  retry_panic : bool;
}.

Definition default_retry_condition : RetryCondition := mkRetryCondition true true false.

(** [ExecutionRetryPolicy]. *)
Inductive ExecutionRetryPolicy : Type :=
| RetryNone
| Exponential (max_attempts : positive) (initial_delay max_delay : Duration)
    (retry_on : RetryCondition).

(** [FailurePolicy]. *)
Record FailurePolicy : Type := mkFailurePolicy {
  disable_after_consecutive_failures : option positive;
  count_timeout : bool;
  count_panic : bool;
}.

Definition default_failure_policy : FailurePolicy := mkFailurePolicy (Some 5%positive) true true.

(** [JobOptions]. *)
Record JobOptions : Type := mkJobOptions {
  opt_concurrency : option positive;
  opt_max_pending : option Z;
  opt_priority : JobPriority;
  opt_coalescing : option TriggerCoalescing;
  opt_capacity : option CapacityPolicy;
  opt_retry : ExecutionRetryPolicy;
  opt_failure : FailurePolicy;
}.

Definition default_job_options : JobOptions :=
  mkJobOptions None None priority_normal None None RetryNone default_failure_policy.

(** [PatchValue]. *)
Inductive PatchValue (T : Type) : Type :=
| Keep
| Set_ (value : T)
| Inherit.
Arguments Keep {T}.
Arguments Set_ {T} value.
Arguments Inherit {T}.

(** [RescheduleMode]. *)
Inductive RescheduleMode : Type := Preserve | Recalculate | RunNowMode.

(** [TaskCancellationMode] ([task.rs]). *)
Inductive TaskCancellationMode : Type := Cooperative | NonCancellable.

(** [TaskBinding] ([task.rs]): the adapter behind [Arc<dyn ScheduledTask>] is
    seen by the scheduler through its [kind] and the mode captured at binding. *)
Record TaskBinding : Type := mkTaskBinding {
  task_kind : string;
  cancellation_mode : TaskCancellationMode;
}.

(** [JobPatch] and [JobPatch::new]. *)
Record JobPatch : Type := mkJobPatch {
  patch_task : option TaskBinding;
  patch_trigger : option Trigger;
  patch_concurrency : PatchValue positive;
  patch_max_pending : PatchValue Z;
  patch_priority : option JobPriority;
  patch_coalescing : option TriggerCoalescing;
  patch_capacity : option CapacityPolicy;
  patch_retry : option ExecutionRetryPolicy;
  patch_failure : option FailurePolicy;
  patch_reschedule : RescheduleMode;
}.

Definition new_job_patch : JobPatch :=
  mkJobPatch None None Keep Keep None None None None None Preserve.

(** [SchedulerReconcileUpdate], [SchedulerReconcileAddition] and
    [SchedulerReconcilePlan]. *)
Record SchedulerReconcileUpdate : Type := mkReconcileUpdate {
  upd_job_id : JobId;
  upd_expected_version : Z;
  upd_patch : JobPatch;
  upd_enabled : bool;
}.

Record SchedulerReconcileAddition : Type := mkReconcileAddition {
  addn_job_id : JobId;
  addn_enabled : bool;
  addn_trigger : Trigger;
  addn_task : TaskBinding;
  addn_options : JobOptions;
}.

Record SchedulerReconcilePlan : Type := mkReconcilePlan {
  plan_updates : list SchedulerReconcileUpdate;
  plan_additions : list SchedulerReconcileAddition;
  plan_deletions : list (JobId * Z);
}.

(** [JobState]. *)
Inductive JobState : Type :=
| Enabled
| Completed
| Disabled (reason : string).

(** [JobSnapshot]. *)
Record JobSnapshot : Type := mkJobSnapshot {
  snap_id : JobId;
  snap_version : Z;
  snap_task_kind : string;
  snap_state : JobState;
  snap_trigger : Trigger;
  snap_priority : JobPriority;
  snap_concurrency : Z;
  snap_max_pending : Z;
  snap_running_count : Z;
  snap_pending_count : Z;
  snap_consecutive_failures : Z;
  snap_next_run_at : option DateTime;
  snap_last_started_at : option DateTime;
  snap_last_finished_at : option DateTime;
  snap_last_outcome : option string;
  snap_created_at : DateTime;
  snap_updated_at : DateTime;
}.

(** ** [config.rs] *)

(** [SchedulerConfig]. *)
Record SchedulerConfig : Type := mkSchedulerConfig {
  global_concurrency : positive;
  default_job_concurrency : positive;
  global_max_pending : Z;
  default_job_max_pending : Z;
  due_batch_size : positive;
  max_jobs : Z;
  event_channel_capacity : Z;
  command_channel_capacity : Z;
  shutdown_timeout : Duration;
  minimum_interval : Duration;
  minimum_retry_delay : Duration;
  maximum_catch_up : Z;
  maximum_retry_attempts : Z;
}.

(** [SchedulerConfig::default] on a machine with [cpu_count] logical CPUs. *)
Definition default_scheduler_config (cpu_count : positive) : SchedulerConfig :=
  mkSchedulerConfig
    (Z.to_pos (saturating_mul usize_max (Z.pos cpu_count) 4)) 1
    8192 1024 256 1024 1024 256
    (from_secs 30) (from_millis 100) (from_millis 100) 1000 1000.

(** [SchedulerConfigSnapshot]. *)
Record SchedulerConfigSnapshot : Type := mkConfigSnapshot {
  csnap_revision : Z;
  csnap_config : SchedulerConfig;
}.

(** [SchedulerConfigPatch]. *)
Record SchedulerConfigPatch : Type := mkConfigPatch {
  cp_global_concurrency : option positive;
  cp_default_job_concurrency : option positive;
  cp_global_max_pending : option Z;
  cp_default_job_max_pending : option Z;
  cp_due_batch_size : option positive;
  cp_max_jobs : option Z;
  cp_shutdown_timeout : option Duration;
  cp_minimum_interval : option Duration;
  cp_minimum_retry_delay : option Duration;
  cp_maximum_catch_up : option Z;
  cp_maximum_retry_attempts : option Z;
}.

(** [SchedulerStatus]. *)
Inductive SchedulerStatus : Type :=
| StatusRunning
| StatusStopping
| StatusStopped
| StatusFailed (message : string).

(** [SchedulerError]. *)
Inductive SchedulerError : Type :=
| ErrClosed
| ErrStopping
| JobNotFound (job_id : JobId)
| JobAlreadyExists (job_id : JobId)
| VersionConflict (job_id : JobId) (expected actual : Z)
| ConfigRevisionConflict (expected actual : Z)
| MaximumJobsReached (limit : Z)
| InvalidTrigger (message : string)
| InvalidRetry (message : string)
| InvalidPriority (value : Z)
| VersionOverflow (job_id : JobId)
| ConfigRevisionOverflow
| ErrActor (message : string)
| ErrJoin (message : string).

(** [JobPriority::new] and [TryFrom<u8>]. *)
Definition JobPriority_new (value : Z) : result SchedulerError JobPriority :=
  if bool_decide (value ≤ 10) then Ok value else Err (InvalidPriority value).

(** ** [event.rs] *)

(** [SchedulerEventKind]. *)
Inductive SchedulerEventKind : Type :=
| SchedulerStarted
| SchedulerConfigUpdated (revision : Z)
| SchedulerStopping
| SchedulerStopped
| SchedulerFailed (message : string)
| JobAdded (job_id : JobId) (version : Z)
| JobUpdated (job_id : JobId) (version : Z)
| JobEnabled (job_id : JobId) (version : Z)
| JobDisabled (job_id : JobId) (version : Z) (reason : string)
| JobDeleted (job_id : JobId) (version : Z)
| TriggerScheduled (job_id : JobId) (version : Z) (run_at : DateTime)
| TriggerSkipped (job_id : JobId) (version : Z) (scheduled_at : DateTime) (reason : string)
| ExecutionQueued (job_id : JobId) (version : Z) (run_id : RunId) (pending_count : Z)
| ExecutionStarted (job_id : JobId) (version : Z) (run_id : RunId) (attempt : Z)
    (scheduled_at : DateTime)
| ExecutionSucceeded (job_id : JobId) (version : Z) (run_id : RunId) (attempt : Z)
    (duration_ms : Z)
| ExecutionFailed (job_id : JobId) (version : Z) (run_id : RunId) (attempt : Z)
    (error : string) (will_retry : bool)
| ExecutionTimedOut (job_id : JobId) (version : Z) (run_id : RunId) (attempt : Z)
| ExecutionPanicked (job_id : JobId) (version : Z) (run_id : RunId) (attempt : Z)
    (message : string)
| ExecutionCancelled (job_id : JobId) (version : Z) (run_id : RunId)
| RetryScheduled (job_id : JobId) (version : Z) (run_id : RunId) (attempt : Z)
    (run_at : DateTime)
| OutputDeliveredEvent (job_id : JobId) (version : Z) (run_id : RunId)
| CallbackFailed (job_id : JobId) (version : Z) (run_id : RunId) (error : string)
| OutputChannelClosed (job_id : JobId) (version : Z) (run_id : RunId)
| PendingReplaced (job_id : JobId) (removed_run_id replacement_run_id : RunId)
| BackpressureApplied (job_id : JobId) (version : Z).

(** [SchedulerEvent]. *)
Record SchedulerEvent : Type := mkSchedulerEvent {
  ev_sequence : Z;
  ev_emitted_at : DateTime;
  ev_kind : SchedulerEventKind;
}.

(** ** [task.rs]: how one run of a task ends *)

(** [TaskError] and [CallbackError]; the payload is the text of the error chain. *)
Inductive TaskError : Type :=
| TaskErrTransient (error : string)
| TaskErrPermanent (error : string).

Inductive CallbackError : Type :=
| CallbackErrTransient (error : string)
| CallbackErrPermanent (error : string).

(** [TaskRunResult]. *)
Inductive TaskRunResult : Type :=
| RunCompleted
| OutputDelivered
| TaskTransient (error : string)
| TaskPermanent (error : string)
| CallbackTransient (error : string)
| CallbackPermanent (error : string)
| ChannelClosed.

(** [map_task_error]. *)
Definition map_task_error (e : TaskError) : TaskRunResult :=
  match e with
  | TaskErrTransient m => TaskTransient m
  | TaskErrPermanent m => TaskPermanent m
  end.

(** [task_outcome_name]. *)
Definition task_outcome_name (r : TaskRunResult) : string :=
  match r with
  | RunCompleted => "completed"
  | OutputDelivered => "output_delivered"
  | TaskTransient _ => "task_transient"
  | TaskPermanent _ => "task_permanent"
  | CallbackTransient _ => "callback_transient"
  | CallbackPermanent _ => "callback_permanent"
  | ChannelClosed => "channel_closed"
  end.

(** ** Decidable equality *)

Global Instance Schedule_eq_dec : EqDecision Schedule.
Proof. solve_decision. Defined.
Global Instance MisfirePolicy_eq_dec : EqDecision MisfirePolicy.
Proof. solve_decision. Defined.
Global Instance Trigger_eq_dec : EqDecision Trigger.
Proof. solve_decision. Defined.
Global Instance TriggerCoalescing_eq_dec : EqDecision TriggerCoalescing.
Proof. solve_decision. Defined.
Global Instance CapacityPolicy_eq_dec : EqDecision CapacityPolicy.
Proof. solve_decision. Defined.
Global Instance RescheduleMode_eq_dec : EqDecision RescheduleMode.
Proof. solve_decision. Defined.
Global Instance TaskCancellationMode_eq_dec : EqDecision TaskCancellationMode.
Proof. solve_decision. Defined.
Global Instance JobState_eq_dec : EqDecision JobState.
Proof. solve_decision. Defined.
