(* ===== verification/Timing.v ===== *)
(** * Trigger validation, misfires and time conversion

    [crates/smalux-agent/src/scheduler/runtime/timing.rs].  The calendar crates
    (chrono, chrono-tz, croner) are the class [Chrono], with what the code relies
    on of them in [ChronoLaws].

    Results: the constant-time jump over a backlog is the first instant of the
    trigger's phase after [now] and agrees with stepping one period at a time;
    what each misfire policy produces; which policies pass validation; and the
    deadline search of [to_instant] finds the last representable second. *)

From stdpp Require Import base gmap strings list pretty sorting.
From S2P Require Import Prelude SchedModel.

(** ** The calendar crates *)

Class Chrono : Type := {
  (** [DateTime::<Utc>::MIN_UTC] and [MAX_UTC]. *)
  utc_min : DateTime;
  utc_max : DateTime;
  (** [DateTime::from_timestamp(secs, nsecs)]. *)
  from_timestamp : Z → Z → option DateTime;
  (** [DateTime::checked_add_signed]. *)
  checked_add_signed : DateTime → Z → option DateTime;
  (** [TimeDelta::from_std] and [TimeDelta::MAX]; the error is its text. *)
  timedelta_from_std : Duration → result string Z;
  timedelta_max : Z;
  (** [Cron::from_str] and [Cron::find_next_occurrence(_, false)] in a timezone. *)
  CronExpr : Type;
  cron_from_str : string → result string CronExpr;
  cron_find_next : CronExpr → string → DateTime → result string DateTime;
  (** [{:?}] of a [Duration]. *)
  fmt_duration : Duration → string;
}.

Class ChronoLaws (C : Chrono) : Prop := {
  utc_range_epoch : utc_min ≤ 0 ≤ utc_max;
  utc_range_i64 : i64_min * nanos_per_sec ≤ utc_min ∧ utc_max ≤ i64_max * nanos_per_sec;
  from_timestamp_spec s n :
    0 ≤ n < nanos_per_sec →
    from_timestamp s n =
      if bool_decide (utc_min ≤ s * nanos_per_sec + n ≤ utc_max)
      then Some (s * nanos_per_sec + n) else None;
  checked_add_signed_spec t d :
    checked_add_signed t d =
      if bool_decide (utc_min ≤ t + d ≤ utc_max) then Some (t + d) else None;
  timedelta_from_std_Ok d x : timedelta_from_std d = Ok x → x = d;
  timedelta_from_std_small d : 0 ≤ d ≤ utc_max - utc_min → timedelta_from_std d = Ok d;
  (** croner's [inclusive = false]: the occurrence found is later than the start. *)
  cron_find_next_later c tz t t' : cron_find_next c tz t = Ok t' → t < t';
}.

(** ** Definitions *)

(** [DateTime::timestamp] and [timestamp_subsec_nanos]. *)
Definition timestamp (t : DateTime) : Z := t `div` nanos_per_sec.
Definition timestamp_subsec_nanos (t : DateTime) : Z := t `mod` nanos_per_sec.

(** [effective_queue_policies]. *)
Definition effective_queue_policies (trigger : Trigger) (options : JobOptions) :
    TriggerCoalescing * CapacityPolicy :=
  let lossless :=
    match schedule trigger, misfire trigger with
    | Once _, _ => true
    | _, CatchUp _ => true
    | _, _ => false
    end in
  let coalescing := default (if lossless then KeepAll else KeepLatest) (opt_coalescing options) in
  let capacity :=
    default (if lossless then Backpressure else ReplaceOldestTrigger) (opt_capacity options) in
  (coalescing, capacity).

(** [validate_config]. *)
Definition validate_config (config : SchedulerConfig) : result SchedulerError unit :=
  if bool_decide (global_max_pending config = 0)
     || bool_decide (default_job_max_pending config = 0)
     || bool_decide (max_jobs config = 0)
     || bool_decide (event_channel_capacity config = 0)
     || bool_decide (command_channel_capacity config = 0)
     || bool_decide (minimum_interval config = 0)
     || bool_decide (minimum_retry_delay config = 0)
     || bool_decide (maximum_catch_up config = 0)
     || bool_decide (maximum_retry_attempts config = 0)
  then Err (ErrActor "scheduler capacities and safety limits must be greater than zero")
  else Ok tt.

Section Timing.
Context `{C : Chrono}.

(** The schedule part of [validate_trigger]. *)
Definition validate_schedule (s : Schedule) (config : SchedulerConfig) :
    result SchedulerError unit :=
  match s with
  | Interval every _ =>
      if bool_decide (every < minimum_interval config) then
        Err (InvalidTrigger ("interval must be at least " +:+ fmt_duration (minimum_interval config)))
      else Ok tt
  | Cron expression _ =>
      _ ← map_err InvalidTrigger (cron_from_str expression); Ok tt
  | Once _ => Ok tt
  end.

(** The [CatchUp] part of [validate_trigger]. *)
Definition validate_misfire (trigger : Trigger) (options : JobOptions) (config : SchedulerConfig) :
    result SchedulerError unit :=
  match misfire trigger with
  | CatchUp max_runs =>
      if bool_decide (maximum_catch_up config < Z.pos max_runs) then
        Err (InvalidTrigger ("catch-up count exceeds " +:+ pretty (maximum_catch_up config)))
      else
        let '(coalescing, capacity) := effective_queue_policies trigger options in
        if bool_decide (coalescing ≠ KeepAll) || bool_decide (capacity ≠ Backpressure) then
          Err (InvalidTrigger "catch-up requires keep-all coalescing and backpressure capacity")
        else Ok tt
  | _ => Ok tt
  end.

(** The retry part of [validate_trigger]. *)
Definition validate_retry (retry : ExecutionRetryPolicy) (config : SchedulerConfig) :
    result SchedulerError unit :=
  match retry with
  | Exponential max_attempts initial_delay max_delay _ =>
      if bool_decide (maximum_retry_attempts config < Z.pos max_attempts)
         || bool_decide (initial_delay < minimum_retry_delay config)
         || bool_decide (max_delay < initial_delay)
      then Err (InvalidRetry "retry attempts or delays violate scheduler limits")
      else Ok tt
  | RetryNone => Ok tt
  end.

(** [validate_trigger]. *)
Definition validate_trigger (trigger : Trigger) (options : JobOptions) (config : SchedulerConfig) :
    result SchedulerError unit :=
  if bool_decide (opt_max_pending options = Some 0) then
    Err (InvalidTrigger "job pending capacity must be greater than zero")
  else
    _ ← validate_schedule (schedule trigger) config;
    _ ← validate_misfire trigger options config;
    validate_retry (opt_retry options) config.

(** [next_after]. *)
Definition next_after (s : Schedule) (after : DateTime) :
    result SchedulerError (option DateTime) :=
  match s with
  | Once _ => Ok None
  | Interval every _ =>
      delta ← map_err InvalidTrigger (timedelta_from_std every);
      t ← ok_or (InvalidTrigger "next interval occurrence overflowed")
            (checked_add_signed after delta);
      Ok (Some t)
  | Cron expression timezone =>
      cron ← map_err InvalidTrigger (cron_from_str expression);
      t ← map_err InvalidTrigger (cron_find_next cron timezone after);
      Ok (Some t)
  end.

(** [first_run_at]. *)
Definition first_run_at (trigger : Trigger) (now : DateTime) : result SchedulerError DateTime :=
  match schedule trigger with
  | Once at_ => Ok (Z.max at_ now)
  | Interval _ start_at => Ok (default now start_at)
  | Cron _ _ =>
      next ← next_after (schedule trigger) now;
      ok_or (InvalidTrigger "cron has no future occurrence") next
  end.

(** [datetime_nanos]. *)
Definition datetime_nanos (value : DateTime) : Z :=
  timestamp value * 1000000000 + timestamp_subsec_nanos value.

(** [datetime_from_nanos]. *)
Definition datetime_from_nanos (value : Z) : result SchedulerError DateTime :=
  let seconds := value `div` 1000000000 in
  let nanoseconds := value `mod` 1000000000 in
  seconds ← ok_or (InvalidTrigger "future interval occurrence overflowed") (checked_i64 seconds);
  ok_or (InvalidTrigger "future interval occurrence is out of range")
    (from_timestamp seconds nanoseconds).

(** [next_future_occurrence]. *)
Definition next_future_occurrence (s : Schedule) (anchor now : DateTime) :
    result SchedulerError (option DateTime) :=
  match s with
  | Once _ => Ok None
  | Cron _ _ => next_after s now
  | Interval every _ =>
      interval_nanos ← ok_or (InvalidTrigger "interval is too large") (checked_i128 every);
      if bool_decide (interval_nanos = 0) then
        Err (InvalidTrigger "interval must be greater than zero")
      else
        let anchor_nanos := datetime_nanos anchor in
        let now_nanos := datetime_nanos now in
        let elapsed_nanos := Z.max 0 (saturating_sub_i128 now_nanos anchor_nanos) in
        let steps := Z.quot elapsed_nanos interval_nanos + 1 in
        product ← ok_or (InvalidTrigger "future interval occurrence overflowed")
                    (checked_i128 (steps * interval_nanos));
        target_nanos ← ok_or (InvalidTrigger "future interval occurrence overflowed")
                         (checked_i128 (anchor_nanos + product));
        t ← datetime_from_nanos target_nanos;
        Ok (Some t)
  end.

(** [next.is_some_and(|value| value <= now)]. *)
Definition due_by (next : option DateTime) (now : DateTime) : bool :=
  match next with Some value => bool_decide (value ≤ now) | None => false end.

(** [DueSchedule]. *)
Record DueSchedule : Type := mkDueSchedule {
  due_list : list DateTime;
  due_next : option DateTime;
}.

(** The [while] loop of the [CatchUp] arm; [room] is [limit - occurrences.len()]. *)
Fixpoint catch_up_loop (s : Schedule) (now : DateTime) (room : nat)
    (occurrences : list DateTime) (next : option DateTime) :
    result SchedulerError (list DateTime * option DateTime) :=
  match room with
  | O => Ok (occurrences, next)
  | S room =>
      match next with
      | Some value =>
          if bool_decide (value ≤ now) then
            next' ← next_after s value;
            catch_up_loop s now room (occurrences ++ [value]) next'
          else Ok (occurrences, next)
      | None => Ok (occurrences, next)
      end
  end.

(** [due_occurrences]. *)
Definition due_occurrences (trigger : Trigger) (scheduled_at now : DateTime) (maximum : Z) :
    result SchedulerError DueSchedule :=
  if is_once (schedule trigger) then Ok (mkDueSchedule [scheduled_at] None)
  else
    next ← next_after (schedule trigger) scheduled_at;
    if negb (due_by next now) then Ok (mkDueSchedule [scheduled_at] next)
    else
      match misfire trigger with
      | Skip =>
          next ← next_future_occurrence (schedule trigger) scheduled_at now;
          Ok (mkDueSchedule [] next)
      | FireOnce =>
          next ← next_future_occurrence (schedule trigger) scheduled_at now;
          Ok (mkDueSchedule [now] next)
      | CatchUp max_runs =>
          let limit := Z.min (Z.pos max_runs) maximum in
          r ← catch_up_loop (schedule trigger) now (Z.to_nat limit - 1) [scheduled_at] next;
          let '(occurrences, next) := r in
          if due_by next now then
            next ← next_future_occurrence (schedule trigger) scheduled_at now;
            Ok (mkDueSchedule occurrences next)
          else Ok (mkDueSchedule occurrences next)
      end.

End Timing.

(** ** Deadlines

    [Instant::checked_add] fails past the last instant of the platform,
    [instant_max]. *)
Definition instant_checked_add (instant_max now : Instant) (d : Duration) : option Instant :=
  if bool_decide (now + d ≤ instant_max) then Some (now + d) else None.

(** The [while] loop of [latest_supported_instant]; the interval halves on every
    turn, so 64 turns are enough for a [u64] of seconds. *)
Fixpoint latest_loop (instant_max now : Instant) (fuel : nat) (lower upper : Z) : Z :=
  match fuel with
  | O => lower
  | S fuel =>
      if bool_decide (lower < upper) then
        let middle := lower + (upper - lower + 1) `div` 2 in
        match instant_checked_add instant_max now (from_secs middle) with
        | Some _ => latest_loop instant_max now fuel middle upper
        | None => latest_loop instant_max now fuel lower (middle - 1)
        end
      else lower
  end.

(** [latest_supported_instant]. *)
Definition latest_supported_instant (instant_max now : Instant) (requested : Duration) : Instant :=
  let lower := latest_loop instant_max now 64 0 (requested `div` nanos_per_sec) in
  default now (instant_checked_add instant_max now (from_secs lower)).

(** [to_instant], given the readings of [Utc::now] and [Instant::now] it takes. *)
Definition to_instant (instant_max : Instant) (utc_now : DateTime) (now : Instant)
    (run_at : DateTime) : Instant :=
  let delay := Z.max 0 (run_at - utc_now) in
  match instant_checked_add instant_max now delay with
  | Some deadline => deadline
  | None => latest_supported_instant instant_max now delay
  end.

(** ** A concrete calendar, for the examples

    chrono's own range, and a cron expression that fires every minute. *)
Definition demo_chrono : Chrono := {|
  utc_min := -8334601228800 * nanos_per_sec;
  utc_max := 8210266876799 * nanos_per_sec + 999999999;
  from_timestamp := λ s n,
    if bool_decide (0 ≤ n < nanos_per_sec) && bool_decide (-8334601228800 ≤ s ≤ 8210266876799)
    then Some (s * nanos_per_sec + n) else None;
  checked_add_signed := λ t d,
    if bool_decide (-8334601228800 * nanos_per_sec ≤ t + d
                    ≤ 8210266876799 * nanos_per_sec + 999999999)
    then Some (t + d) else None;
  timedelta_from_std := λ d,
    if bool_decide (d ≤ i64_max * 1000000) then Ok d
    else Err "Source duration value is out of range for the target type";
  timedelta_max := i64_max * 1000000;
  CronExpr := unit;
  cron_from_str := λ s, if bool_decide (s = "") then Err "empty pattern" else Ok tt;
  cron_find_next := λ _ _ t, Ok ((t `div` (60 * nanos_per_sec) + 1) * (60 * nanos_per_sec));
  fmt_duration := λ d, pretty d +:+ "ns";
|}.

Global Instance demo_chrono_laws : ChronoLaws demo_chrono.
Proof.
  split; cbn -[Z.mul]; unfold i64_min, i64_max, nanos_per_sec.
  - lia.
  - lia.
  - intros s n ?. repeat case_bool_decide; naive_solver lia.
  - done.
  - intros d x. case_bool_decide; naive_solver.
  - intros d ?. case_bool_decide; naive_solver lia.
  - intros _ _ t t' [= <-].
    pose proof (Z.div_mod t (60 * 1000000000) ltac:(lia)).
    pose proof (Z.mod_pos_bound t (60 * 1000000000) ltac:(lia)). lia.
Qed.

(** ** Calendar arithmetic *)

Lemma datetime_nanos_id (t : DateTime) : datetime_nanos t = t.
Proof.
  unfold datetime_nanos, timestamp, timestamp_subsec_nanos, nanos_per_sec.
  pose proof (Z.div_mod t 1000000000 ltac:(lia)). lia.
Qed.

Section Calendar.
Context `{L : !ChronoLaws C}.

Definition in_calendar (t : DateTime) : Prop := utc_min ≤ t ≤ utc_max.

(** [datetime_from_nanos] accepts exactly the instants of the calendar. *)
Lemma datetime_from_nanos_spec (n : Z) :
  utc_min ≤ n →
  datetime_from_nanos n =
    if bool_decide (n ≤ utc_max) then Ok n
    else if bool_decide (n `div` 1000000000 ≤ i64_max)
         then Err (InvalidTrigger "future interval occurrence is out of range")
         else Err (InvalidTrigger "future interval occurrence overflowed").
Proof.
  intros Hmin. unfold datetime_from_nanos, checked_i64.
  destruct utc_range_i64 as [Hlo Hhi]. unfold i64_min, i64_max, nanos_per_sec in *.
  pose proof (Z.div_mod n 1000000000 ltac:(lia)) as Hdm.
  pose proof (Z.mod_pos_bound n 1000000000 ltac:(lia)) as Hm.
  assert (Heq : n `div` 1000000000 * 1000000000 + n `mod` 1000000000 = n) by lia.
  destruct (decide (n `div` 1000000000 ≤ 2 ^ 63 - 1)).
  - decide_true. cbn. rewrite from_timestamp_spec by (unfold nanos_per_sec; lia).
    unfold nanos_per_sec. rewrite Heq. repeat case_bool_decide; naive_solver lia.
  - decide_false. decide_false. by decide_false.
Qed.

(** The target of the jump over a backlog: the first instant of the phase of
    [anchor] that is later than [now]. *)
Definition phase_target (every anchor now : Z) : Z :=
  anchor + (Z.max 0 (now - anchor) `div` every + 1) * every.

Lemma phase_target_bounds every anchor now :
  0 < every → anchor ≤ now →
  now < phase_target every anchor now ≤ now + every ∧
  (phase_target every anchor now - anchor) `mod` every = 0.
Proof.
  intros He Ha. unfold phase_target. rewrite Z.max_r by lia.
  pose proof (Z.div_mod (now - anchor) every ltac:(lia)).
  pose proof (Z.mod_pos_bound (now - anchor) every He).
  split; [lia|].
  replace (anchor + ((now - anchor) `div` every + 1) * every - anchor)
    with (((now - anchor) `div` every + 1) * every) by lia.
  apply Z.mod_mul. lia.
Qed.

(** The largest [Duration] of the standard library, in nanoseconds. *)
Definition duration_max : Z := u64_max * nanos_per_sec + 999999999.

Lemma next_future_interval_eq every st anchor now :
  0 < every ≤ duration_max → in_calendar anchor → in_calendar now →
  next_future_occurrence (Interval every st) anchor now =
    (if bool_decide (phase_target every anchor now ≤ utc_max)
     then Ok (Some (phase_target every anchor now))
     else if bool_decide (phase_target every anchor now `div` 1000000000 ≤ i64_max)
          then Err (InvalidTrigger "future interval occurrence is out of range")
          else Err (InvalidTrigger "future interval occurrence overflowed")).
Proof.
  intros He [Ha Ha'] [Hn Hn']. destruct utc_range_i64 as [Hlo Hhi].
  unfold duration_max, u64_max, i64_min, i64_max, nanos_per_sec in *.
  unfold next_future_occurrence. rewrite !datetime_nanos_id.
  assert (checked_i128 every = Some every) as ->.
  { unfold checked_i128, i128_min, i128_max. by rewrite bool_decide_eq_true_2 by lia. }
  cbn. rewrite (bool_decide_eq_false_2 (every = 0)) by lia.
  unfold saturating_sub_i128, i128_min, i128_max.
  replace (Z.max (- 2 ^ 127) (Z.min (2 ^ 127 - 1) (now - anchor))) with (now - anchor) by lia.
  rewrite Z.quot_div_nonneg by lia.
  set (k := Z.max 0 (now - anchor) `div` every).
  assert (Hk : 0 ≤ k * every ≤ Z.max 0 (now - anchor)).
  { unfold k. pose proof (Z.div_mod (Z.max 0 (now - anchor)) every ltac:(lia)).
    pose proof (Z.mod_pos_bound (Z.max 0 (now - anchor)) every ltac:(lia)).
    pose proof (Z.div_pos (Z.max 0 (now - anchor)) every ltac:(lia) ltac:(lia)).
    split; [apply Z.mul_nonneg_nonneg; lia | lia]. }
  unfold checked_i128, i128_min, i128_max.
  rewrite bool_decide_eq_true_2 by lia. cbn. rewrite bool_decide_eq_true_2 by lia. cbn.
  fold (phase_target every anchor now).
  replace (anchor + (k + 1) * every) with (phase_target every anchor now) by reflexivity.
  rewrite datetime_from_nanos_spec by (unfold phase_target; fold k; lia).
  unfold i64_max. by repeat case_bool_decide.
Qed.

(** *** The reference the jump is compared with

    Step one period at a time, as [next_after] does, until the instant is later
    than [now]. *)
Fixpoint next_after_until (s : Schedule) (now : DateTime) (fuel : nat) (t : DateTime) :
    result SchedulerError (option DateTime) :=
  match fuel with
  | O => Ok None
  | S fuel =>
      next ← next_after s t;
      match next with
      | Some t' => if bool_decide (t' ≤ now) then next_after_until s now fuel t' else Ok (Some t')
      | None => Ok None
      end
  end.

Lemma next_after_interval every st t :
  0 ≤ every ≤ utc_max - utc_min → utc_min ≤ t →
  next_after (Interval every st) t =
    if bool_decide (t + every ≤ utc_max) then Ok (Some (t + every))
    else Err (InvalidTrigger "next interval occurrence overflowed").
Proof.
  intros He Ht. unfold next_after. rewrite timedelta_from_std_small by lia. cbn.
  rewrite checked_add_signed_spec. repeat case_bool_decide; naive_solver lia.
Qed.

Lemma next_after_until_interval every st now fuel t :
  0 < every → every ≤ utc_max - utc_min → utc_min ≤ t ≤ now →
  phase_target every t now ≤ utc_max →
  (Z.to_nat ((now - t) `div` every) < fuel)%nat →
  next_after_until (Interval every st) now fuel t = Ok (Some (phase_target every t now)).
Proof.
  intros He He'. revert t. induction fuel as [|fuel IH]; intros t Ht Hmax Hf; [lia|].
  assert (Hstep : now < t + every ∧ phase_target every t now = t + every ∨
                  t + every ≤ now ∧ phase_target every t now = phase_target every (t + every) now
                  ∧ (now - t) `div` every = (now - (t + every)) `div` every + 1).
  { unfold phase_target. rewrite Z.max_r by lia.
    destruct (decide (now < t + every)); [left|right].
    - rewrite Z.div_small by lia. lia.
    - rewrite Z.max_r by lia.
      replace (now - t) with (now - (t + every) + 1 * every) by lia.
      rewrite Z.div_add by lia. lia. }
  cbn [next_after_until]. rewrite next_after_interval by lia.
  pose proof (phase_target_bounds every t now He ltac:(lia)) as [[??] _].
  destruct Hstep as [[? Heq]|(? & Heq & Hdiv)].
  - rewrite bool_decide_eq_true_2 by lia. cbn. rewrite bool_decide_eq_false_2 by lia. congruence.
  - rewrite bool_decide_eq_true_2 by lia. cbn. rewrite bool_decide_eq_true_2 by lia.
    rewrite Heq. apply IH; [lia|lia|].
    pose proof (Z.div_pos (now - (t + every)) every ltac:(lia) ltac:(lia)). lia.
Qed.

End Calendar.

(** ** What a due timer produces *)

(** An [Interval] with a positive period: what [validate_trigger] lets through
    once [validate_config] has refused a zero minimum. *)
Definition positive_period (s : Schedule) : Prop :=
  match s with Interval every _ => 0 < every ≤ duration_max | _ => True end.

Section Due.
Context `{L : !ChronoLaws C}.

Lemma next_after_later s t t' :
  positive_period s → next_after s t = Ok (Some t') → t < t'.
Proof.
  destruct s as [|every st|e tz]; cbn [next_after positive_period]; intros Hp H; [done| |].
  - apply result_bind_Ok in H as (delta & Hd%map_err_Ok%timedelta_from_std_Ok & H).
    apply result_bind_Ok in H as (t2 & Ht%ok_or_Ok & [= ->]).
    rewrite checked_add_signed_spec in Ht. case_bool_decide; naive_solver lia.
  - apply result_bind_Ok in H as (c & _ & H).
    apply result_bind_Ok in H as (t2 & Ht%map_err_Ok & [= ->]). by eapply cron_find_next_later.
Qed.

Lemma next_future_occurrence_later s anchor now t' :
  positive_period s → in_calendar anchor → in_calendar now → anchor ≤ now →
  next_future_occurrence s anchor now = Ok (Some t') → now < t'.
Proof.
  intros Hp Ha Hn Hle H. destruct s as [|every st|e tz]; [done| |by eapply next_after_later].
  rewrite next_future_interval_eq in H by done.
  pose proof (phase_target_bounds every anchor now ltac:(cbn in Hp; lia) Hle).
  repeat case_bool_decide; naive_solver.
Qed.

(** What holds of the occurrences collected so far and the next candidate. *)
Definition due_chain (from now : DateTime) (l : list DateTime) (next : option DateTime) : Prop :=
  Forall (λ t, from ≤ t ≤ now) l ∧ StronglySorted Z.lt l ∧
  (∀ t n, t ∈ l → next = Some n → t < n).

Lemma due_chain_snoc from now l v next :
  from ≤ v ≤ now → due_chain from now l (Some v) → (∀ n, next = Some n → v < n) →
  due_chain from now (l ++ [v]) next.
Proof.
  intros Hv (Hl & Hs & Hlt) Hn. split_and!.
  - apply Forall_app; auto.
  - apply StronglySorted_app_2; [|done|by repeat constructor].
    intros x y Hx Hy%list_elem_of_singleton. subst. eauto.
  - intros t n [Ht| ->%list_elem_of_singleton]%elem_of_app Heq; [|eauto].
    specialize (Hn n Heq). specialize (Hlt t v Ht eq_refl). lia.
Qed.

Lemma catch_up_loop_sound s from now room l next l' next' :
  positive_period s → due_chain from now l next → (∀ n, next = Some n → from ≤ n) →
  catch_up_loop s now room l next = Ok (l', next') →
  due_chain from now l' next' ∧ (length l' ≤ length l + room)%nat.
Proof.
  intros Hp. revert l next. induction room as [|room IH]; intros l next Hc Hf H; cbn in H.
  - inv_result. split; [done|lia].
  - destruct next as [v|]; [|inv_result; split; [done|lia]].
    case_bool_decide; [|inv_result; split; [done|lia]].
    apply result_bind_Ok in H as (next2 & Hna & H).
    apply IH in H as [? Hlen].
    + rewrite length_app in Hlen. cbn in Hlen. split; [done|lia].
    + apply due_chain_snoc; [by split; [apply Hf|]|done|].
      intros n ->. by eapply next_after_later.
    + intros n ->. apply next_after_later in Hna; [|done]. specialize (Hf v eq_refl). lia.
Qed.

Lemma due_chain_singleton from now next :
  from ≤ now → (∀ n, next = Some n → from < n) → due_chain from now [from] next.
Proof.
  intros Hle Hn. split_and!; [by repeat constructor; lia|by repeat constructor|].
  intros t n ->%list_elem_of_singleton. apply Hn.
Qed.

(** A repeating schedule always has a next instant (or an error). *)
Lemma next_after_repeats s t : is_once s = false → next_after s t ≠ Ok None.
Proof.
  destruct s; cbn; intros ? H; [done| |];
    apply result_bind_Ok in H as (? & _ & H); by apply result_bind_Ok in H as (? & _ & ?).
Qed.

Lemma next_future_occurrence_repeats s a n :
  is_once s = false → next_future_occurrence s a n ≠ Ok None.
Proof.
  destruct s as [|every st|]; intros Ho H; [done| |by eapply next_after_repeats].
  unfold next_future_occurrence in H.
  apply result_bind_Ok in H as (? & _ & H). case_bool_decide; [done|].
  do 3 apply result_bind_Ok in H as (? & _ & H). done.
Qed.

Lemma catch_up_loop_repeats s now room l next l' next' :
  is_once s = false → next ≠ None →
  catch_up_loop s now room l next = Ok (l', next') → next' ≠ None.
Proof.
  intros Ho. revert l next. induction room as [|room IH]; intros l next Hn H; cbn in H.
  { by inv_result. }
  destruct next as [v|]; [|done]. case_bool_decide; [|by inv_result].
  apply result_bind_Ok in H as (o & Hna & H). eapply IH, H.
  intros ->. by eapply next_after_repeats.
Qed.

(** The bound on the number of occurrences one expiry produces. *)
Definition due_limit (trigger : Trigger) (maximum : Z) : Z :=
  match misfire trigger with CatchUp n => Z.max 1 (Z.min (Z.pos n) maximum) | _ => 1 end.

(** What a batch promises to its consumer. *)
Definition due_batch_ok (trigger : Trigger) (maximum scheduled_at now : Z) (d : DueSchedule) : Prop :=
  Forall (λ t, scheduled_at ≤ t ≤ now) (due_list d) ∧
  StronglySorted Z.lt (due_list d) ∧
  zlen (due_list d) ≤ due_limit trigger maximum ∧
  (∀ n, due_next d = Some n → now < n) ∧
  (due_next d = None → is_once (schedule trigger) = true).

(** A batch whose next instant was computed by the jump. *)
Lemma due_batch_jump trigger maximum scheduled_at now l next :
  positive_period (schedule trigger) → is_once (schedule trigger) = false →
  in_calendar scheduled_at → in_calendar now → scheduled_at ≤ now →
  Forall (λ t, scheduled_at ≤ t ≤ now) l → StronglySorted Z.lt l →
  zlen l ≤ due_limit trigger maximum →
  next_future_occurrence (schedule trigger) scheduled_at now = Ok next →
  due_batch_ok trigger maximum scheduled_at now (mkDueSchedule l next).
Proof.
  intros Hp Ho Hs Hn Hle Hl Hsort Hlen Hnext. split_and!; cbn; [done..| |].
  - intros n ->. by eapply (next_future_occurrence_later _ scheduled_at).
  - intros ->. exfalso. by eapply next_future_occurrence_repeats.
Qed.

Lemma due_limit_pos trigger maximum : 1 ≤ due_limit trigger maximum.
Proof. unfold due_limit. destruct (misfire trigger); lia. Qed.

(** The [CatchUp] arm. *)
Lemma due_batch_catch_up trigger maximum max_runs scheduled_at now next d :
  positive_period (schedule trigger) → is_once (schedule trigger) = false →
  misfire trigger = CatchUp max_runs →
  in_calendar scheduled_at → in_calendar now → scheduled_at ≤ now →
  next_after (schedule trigger) scheduled_at = Ok next →
  (r ← catch_up_loop (schedule trigger) now (Z.to_nat (Z.min (Z.pos max_runs) maximum) - 1)
         [scheduled_at] next;
   let '(occurrences, next) := r in
   if due_by next now then
     next ← next_future_occurrence (schedule trigger) scheduled_at now;
     Ok (mkDueSchedule occurrences next)
   else Ok (mkDueSchedule occurrences next)) = Ok d →
  due_batch_ok trigger maximum scheduled_at now d.
Proof.
  intros Hp Ho Hm Hs Hn Hle Hna H.
  assert (Hlater : ∀ n, next = Some n → scheduled_at < n)
    by (intros ? ->; by eapply next_after_later).
  apply result_bind_Ok in H as ([l next'] & Hloop & H).
  assert (Hnn : next' ≠ None).
  { eapply catch_up_loop_repeats, Hloop; [done|]. intros ->. by eapply next_after_repeats. }
  apply (catch_up_loop_sound _ scheduled_at) in Hloop as [(Hl & Hsort & Hlt) Hlen];
    [|done|by apply due_chain_singleton|intros n Hn'; specialize (Hlater n Hn'); lia].
  cbn in Hlen.
  assert (Hlim : zlen l ≤ due_limit trigger maximum)
    by (unfold zlen, due_limit; rewrite Hm; lia).
  destruct (due_by next' now) eqn:Hdue.
  - apply result_bind_Ok in H as (n2 & Hn2 & [= <-]). by apply due_batch_jump.
  - injection H as <-. split_and!; cbn; try done.
    intros n ->. cbn in Hdue. bools. lia.
Qed.

(** whatever the schedule and misfire policy, a due timer yields a strictly
    increasing batch of occurrences between the planned instant and [now], no
    longer than the catch-up limit, and the next planned instant (absent only
    for a one-shot schedule) lies strictly in the future. *)
Theorem due_occurrences_sound trigger scheduled_at now maximum d :
  positive_period (schedule trigger) →
  in_calendar scheduled_at → in_calendar now → scheduled_at ≤ now →
  due_occurrences trigger scheduled_at now maximum = Ok d →
  due_batch_ok trigger maximum scheduled_at now d.
Proof.
  intros Hp Hs Hn Hle H. unfold due_occurrences in H.
  pose proof (due_limit_pos trigger maximum).
  destruct (is_once (schedule trigger)) eqn:Honce.
  { injection H as <-. split_and!; cbn; try done; repeat constructor; lia. }
  apply result_bind_Ok in H as (next & Hna & H).
  destruct (due_by next now) eqn:Hdue; cbn [negb] in H.
  - destruct (misfire trigger) as [| |max_runs] eqn:Hm.
    1,2: apply result_bind_Ok in H as (n & Hnf & [= <-]);
      apply due_batch_jump; try done; unfold zlen; cbn; repeat constructor; lia.
    by eapply due_batch_catch_up.
  - injection H as <-. split_and!; cbn; try done; try (repeat constructor; lia).
    + intros n ->. cbn in Hdue. bools. lia.
    + intros ->. exfalso. by eapply next_after_repeats.
Qed.

End Due.

(** ** Validation *)

Section Validation.
Context `{C : Chrono}.

(** The conditions [validate_trigger] is meant to enforce. *)
Definition trigger_admissible (trigger : Trigger) (options : JobOptions) (config : SchedulerConfig) :
    Prop :=
  opt_max_pending options ≠ Some 0 ∧
  match schedule trigger with
  | Interval every _ => minimum_interval config ≤ every
  | Cron e _ => is_ok (cron_from_str e) = true
  | Once _ => True
  end ∧
  match misfire trigger with
  | CatchUp n =>
      Z.pos n ≤ maximum_catch_up config ∧
      effective_queue_policies trigger options = (KeepAll, Backpressure)
  | _ => True
  end ∧
  match opt_retry options with
  | Exponential n initial max _ =>
      Z.pos n ≤ maximum_retry_attempts config ∧
      minimum_retry_delay config ≤ initial ∧ initial ≤ max
  | RetryNone => True
  end.

Lemma validate_schedule_iff s config :
  validate_schedule s config = Ok tt ↔
  match s with
  | Interval every _ => minimum_interval config ≤ every
  | Cron e _ => is_ok (cron_from_str e) = true
  | Once _ => True
  end.
Proof.
  destruct s as [|every st|e tz]; cbn; [done| |].
  - case_bool_decide; naive_solver lia.
  - destruct (cron_from_str e); cbn; naive_solver.
Qed.

Lemma validate_misfire_iff trigger options config :
  validate_misfire trigger options config = Ok tt ↔
  match misfire trigger with
  | CatchUp n =>
      Z.pos n ≤ maximum_catch_up config ∧
      effective_queue_policies trigger options = (KeepAll, Backpressure)
  | _ => True
  end.
Proof.
  unfold validate_misfire. destruct (misfire trigger) as [| |n]; [done..|].
  destruct (effective_queue_policies trigger options) as [co ca].
  repeat (case_bool_decide; cbn); naive_solver lia.
Qed.

Lemma validate_retry_iff retry config :
  validate_retry retry config = Ok tt ↔
  match retry with
  | Exponential n initial max _ =>
      Z.pos n ≤ maximum_retry_attempts config ∧
      minimum_retry_delay config ≤ initial ∧ initial ≤ max
  | RetryNone => True
  end.
Proof.
  destruct retry as [|n initial max on]; cbn; [done|].
  repeat (case_bool_decide; cbn); naive_solver lia.
Qed.

(** validation accepts exactly the admissible triggers. *)
Theorem validate_trigger_iff trigger options config :
  validate_trigger trigger options config = Ok tt ↔ trigger_admissible trigger options config.
Proof.
  unfold validate_trigger, trigger_admissible.
  rewrite <-validate_schedule_iff, <-validate_misfire_iff, <-validate_retry_iff.
  case_bool_decide; [naive_solver|]. rewrite result_bind_Ok.
  setoid_rewrite result_bind_Ok. split.
  - intros ([] & ? & [] & ? & ?). done.
  - intros (_ & ? & ? & ?). by repeat (eexists; split; [done|]).
Qed.

End Validation.

(** ** The last representable deadline *)

Lemma instant_checked_add_Some m now d : is_Some (instant_checked_add m now d) ↔ now + d ≤ m.
Proof. unfold instant_checked_add. case_bool_decide; split; naive_solver. Qed.

(** [k] is the largest number of seconds up to [upper] that can be added. *)
Definition is_latest (m now upper k : Z) : Prop :=
  0 ≤ k ≤ upper ∧ now + from_secs k ≤ m ∧ ∀ k', k < k' ≤ upper → m < now + from_secs k'.

Lemma latest_loop_correct m now bound fuel lower upper :
  0 ≤ lower ≤ upper → upper ≤ bound → upper - lower < 2 ^ Z.of_nat fuel →
  now + from_secs lower ≤ m → (∀ k, upper < k ≤ bound → m < now + from_secs k) →
  is_latest m now bound (latest_loop m now fuel lower upper).
Proof.
  revert lower upper. induction fuel as [|fuel IH]; intros lower upper Hlu Hub Hf Hlow Hup.
  { cbn in *. split_and!; [lia|lia|done|]. intros k Hk. apply Hup. lia. }
  cbn [latest_loop]. rewrite Nat2Z.inj_succ, Z.pow_succ_r in Hf by lia.
  case_bool_decide as Hlt.
  2:{ split_and!; [lia|lia|done|]. intros k Hk. apply Hup. lia. }
  set (middle := lower + (upper - lower + 1) `div` 2).
  assert (Hm : lower < middle ≤ upper ∧ upper - middle < 2 ^ Z.of_nat fuel ∧
               middle - 1 - lower < 2 ^ Z.of_nat fuel).
  { pose proof (Z.div_mod (upper - lower + 1) 2 ltac:(lia)).
    pose proof (Z.mod_pos_bound (upper - lower + 1) 2 ltac:(lia)). unfold middle. lia. }
  unfold instant_checked_add. case_bool_decide as Hc.
  - apply IH; [lia|done|lia|done|done].
  - apply IH; [lia|lia|lia|done|]. intros k Hk. destruct (decide (upper < k)); [apply Hup; lia|].
    unfold from_secs, nanos_per_sec in *. lia.
Qed.

Lemma latest_supported_instant_spec m now requested :
  0 ≤ requested ≤ duration_max → now ≤ m →
  ∃ k, is_latest m now (requested `div` nanos_per_sec) k ∧
       latest_supported_instant m now requested = now + from_secs k.
Proof.
  intros [Hr0 Hr] Hnow. unfold latest_supported_instant.
  assert (Hk : is_latest m now (requested `div` nanos_per_sec)
                 (latest_loop m now 64 0 (requested `div` nanos_per_sec))).
  { unfold duration_max, u64_max, nanos_per_sec in *.
    assert (0 ≤ requested `div` 1000000000 < 2 ^ 64).
    { split; [apply Z.div_pos; lia | apply Z.div_lt_upper_bound; lia]. }
    apply latest_loop_correct; [lia|lia|lia|unfold from_secs; lia|lia]. }
  revert Hk. generalize (latest_loop m now 64 0 (requested `div` nanos_per_sec)). intros k Hk.
  exists k. split; [done|]. destruct Hk as (_ & Hle & _).
  unfold instant_checked_add. by rewrite bool_decide_eq_true_2.
Qed.

(** the deadline of a planned instant is the current instant plus the time
    left (none for an instant already past) when the platform can represent it;
    otherwise the search ends (the interval halves, so 64 turns suffice for a
    [u64]) at the largest number of whole seconds that can be added, so the
    deadline never exceeds the last instant. *)
Theorem to_instant_saturates m utc_now now run_at :
  now ≤ m → run_at - utc_now ≤ duration_max →
  let delay := Z.max 0 (run_at - utc_now) in
  if decide (now + delay ≤ m)
  then to_instant m utc_now now run_at = now + delay
  else ∃ k, is_latest m now (delay `div` nanos_per_sec) k ∧
            to_instant m utc_now now run_at = now + from_secs k.
Proof.
  intros Hn Hd delay. unfold to_instant. fold delay.
  assert (0 ≤ delay ≤ duration_max).
  { unfold delay, duration_max, u64_max, nanos_per_sec in *. lia. }
  pose proof (instant_checked_add_Some m now delay) as Hadd.
  destruct (instant_checked_add m now delay) as [i|] eqn:Hi; case_decide.
  - unfold instant_checked_add in Hi. by case_bool_decide; simplify_eq.
  - naive_solver.
  - destruct Hadd as [_ []]; done.
  - by apply latest_supported_instant_spec.
Qed.

(** the jump over a backlog agrees with stepping the interval one period at a
    time: it is the unique instant of the anchor's phase in [(now, now + every]]. *)
Theorem next_future_occurrence_is_stepping `{L : !ChronoLaws C} every st anchor now :
  0 < every → every ≤ utc_max - utc_min →
  utc_min ≤ anchor ≤ now → now + every ≤ utc_max →
  ∃ t fuel0,
    next_future_occurrence (Interval every st) anchor now = Ok (Some t) ∧
    (∀ fuel, (fuel0 ≤ fuel)%nat →
       next_after_until (Interval every st) now fuel anchor = Ok (Some t)) ∧
    now < t ≤ now + every ∧ (t - anchor) `mod` every = 0.
Proof.
  intros He He' Ha Hm. destruct utc_range_i64 as [Hlo Hhi].
  pose proof (phase_target_bounds every anchor now He ltac:(lia)) as [Hb Hph].
  exists (phase_target every anchor now), (S (Z.to_nat ((now - anchor) `div` every))).
  split_and!; [|intros fuel Hf|lia|lia|done].
  - rewrite next_future_interval_eq.
    + by rewrite bool_decide_eq_true_2 by lia.
    + unfold duration_max, u64_max, i64_min, i64_max, nanos_per_sec in *. lia.
    + split; lia.
    + split; lia.
  - apply next_after_until_interval; lia.
Qed.

(** the two conversions between calendar instants and [i128] nanoseconds are
    inverse to each other. *)
Theorem datetime_nanos_roundtrip `{L : !ChronoLaws C} t :
  in_calendar t → datetime_from_nanos (datetime_nanos t) = Ok t.
Proof.
  intros [Hlo Hhi]. rewrite datetime_nanos_id, datetime_from_nanos_spec by done. by decide_true.
Qed.

(** ** Witnesses *)

(** Three of four missed ten-second periods are caught up; the next is at 40 s. *)
Definition demo_catch_up : Trigger := mkTrigger (Interval (from_secs 10) None) (CatchUp 3) None.

Definition demo_due : DueSchedule :=
  mkDueSchedule [0; from_secs 10; from_secs 20] (Some (from_secs 40)).

Lemma due_occurrences_sound_witness :
  due_occurrences (C := demo_chrono) demo_catch_up 0 (from_secs 35) 1000 = Ok demo_due ∧
  due_batch_ok demo_catch_up 1000 0 (from_secs 35) demo_due.
Proof.
  split; [vm_compute; reflexivity|].
  apply (due_occurrences_sound (C := demo_chrono)).
  - vm_compute. split; [reflexivity|discriminate].
  - vm_compute. split; discriminate.
  - vm_compute. split; discriminate.
  - vm_compute. discriminate.
  - vm_compute. reflexivity.
Defined.

Lemma to_instant_saturates_witness :
  let delay := Z.max 0 (from_secs 100 - 0) in
  if decide (0 + delay ≤ from_secs 60 + 5)
  then to_instant (from_secs 60 + 5) 0 0 (from_secs 100) = 0 + delay
  else ∃ k, is_latest (from_secs 60 + 5) 0 (delay `div` nanos_per_sec) k ∧
            to_instant (from_secs 60 + 5) 0 0 (from_secs 100) = 0 + from_secs k.
Proof.
  apply (to_instant_saturates (from_secs 60 + 5) 0 0 (from_secs 100)); vm_compute; discriminate.
Defined.

Lemma next_future_occurrence_is_stepping_witness :
  ∃ t fuel0,
    next_future_occurrence (C := demo_chrono) (Interval 10 None) 3 47 = Ok (Some t) ∧
    (∀ fuel, (fuel0 ≤ fuel)%nat →
       next_after_until (C := demo_chrono) (Interval 10 None) 47 fuel 3 = Ok (Some t)) ∧
    47 < t ≤ 47 + 10 ∧ (t - 3) `mod` 10 = 0.
Proof.
  apply (next_future_occurrence_is_stepping (C := demo_chrono) 10 None 3 47).
  - reflexivity.
  - vm_compute. discriminate.
  - split; vm_compute; discriminate.
  - vm_compute. discriminate.
Defined.

Lemma datetime_nanos_roundtrip_witness :
  datetime_from_nanos (C := demo_chrono) (datetime_nanos (-1)) = Ok (-1).
Proof.
  apply (datetime_nanos_roundtrip (C := demo_chrono) (-1)). split; vm_compute; discriminate.
Defined.
