(* ===== verification/ReadyQueue.v ===== *)
(** * The queue of due executions

    [crates/smalux-agent/src/scheduler/queue.rs]: the timer entries, the records
    of executions waiting for a slot and [ReadyQueue], a binary heap of sort keys
    beside the map that holds the records (a record removed from the map leaves
    its key behind).  [std]'s [BinaryHeap] is the multiset of its keys, [pop]
    taking a greatest one; the iteration order of a [HashMap] is the class
    [HashOrder], of which only that every entry is visited once is used.

    Results: the key order is total; an insertion keeps every waiting execution
    reachable from the heap and the heap within its bound; [pop_dispatchable]
    hands out the first execution in queue order that may run, and when none may
    run it leaves the heap empty, so that every execution then waiting is out of
    reach of later calls. *)

From stdpp Require Import base gmap strings list sorting.
From S2P Require Import Prelude SchedModel.

(** ** Iteration order of a [HashMap] *)

Class HashOrder : Type := hash_iter : ∀ {V : Type}, gmap Z V → list (Z * V).

Class HashOrderLaws (H : HashOrder) : Prop :=
  hash_iter_perm : ∀ {V} (m : gmap Z V), hash_iter m ≡ₚ map_to_list m.

Definition hash_values `{HashOrder} {V} (m : gmap Z V) : list V := (hash_iter m).*2.
Definition hash_keys `{HashOrder} {V} (m : gmap Z V) : list Z := (hash_iter m).*1.

(** The order in which stdpp enumerates a map is one such order. *)
Definition demo_hash_order : HashOrder := λ V m, map_to_list m.

Global Instance demo_hash_order_laws : HashOrderLaws demo_hash_order.
Proof. intros V m. reflexivity. Qed.

(** ** Data *)

(** [TimerKind]. *)
Inductive TimerKind : Type :=
| TimerNormal
| TimerRunNow
| TimerRetry (run_id : RunId) (scheduled_at : DateTime) (attempt : Z).

(** [TimerEntry]. *)
Record TimerEntry : Type := mkTimerEntry {
  te_job_id : JobId;
  te_version : Z;
  te_run_at : DateTime;
  te_kind : TimerKind;
}.

(** [PendingKind] and [is_replaceable_trigger]. *)
Inductive PendingKind : Type := PendingNormal | PendingOnce | PendingRunNow | PendingRetry.

Global Instance PendingKind_eq_dec : EqDecision PendingKind.
Proof. solve_decision. Defined.

Definition is_replaceable_trigger (k : PendingKind) : bool :=
  match k with PendingNormal => true | _ => false end.

(** [PendingExecution]. *)
Record PendingExecution : Type := mkPending {
  pe_job_id : JobId;
  pe_version : Z;
  pe_run_id : RunId;
  pe_attempt : Z;
  pe_scheduled_at : DateTime;
  pe_kind : PendingKind;
  pe_priority : JobPriority;
  pe_batch_id : Z;
}.

Definition set_pe_version_priority (version : Z) (priority : JobPriority) (p : PendingExecution) :
    PendingExecution :=
  mkPending (pe_job_id p) version (pe_run_id p) (pe_attempt p) (pe_scheduled_at p) (pe_kind p)
    priority (pe_batch_id p).

(** [ReadyKey]. *)
Record ReadyKey : Type := mkReadyKey {
  key_batch_id : Z;
  key_priority : JobPriority;
  key_scheduled_at : DateTime;
  key_sequence : Z;
  key_run_id : RunId;
}.

(** [Ordering::then_with]. *)
Definition then_with (c d : comparison) : comparison :=
  match c with Eq => d | _ => c end.

(** [<ReadyKey as Ord>::cmp]. *)
Definition key_cmp (self other : ReadyKey) : comparison :=
  then_with (key_batch_id other ?= key_batch_id self)
   (then_with (key_priority self ?= key_priority other)
     (then_with (key_scheduled_at other ?= key_scheduled_at self)
       (then_with (key_sequence other ?= key_sequence self)
         (key_run_id self ?= key_run_id other)))).

(** [BinaryHeap::pop] on the multiset of keys: a greatest key and the rest. *)
Fixpoint heap_pop (h : list ReadyKey) : option (ReadyKey * list ReadyKey) :=
  match h with
  | [] => None
  | k :: h =>
      match heap_pop h with
      | None => Some (k, [])
      | Some (m, rest) =>
          match key_cmp k m with
          | Lt => Some (m, k :: rest)
          | _ => Some (k, m :: rest)
          end
      end
  end.

(** [ReadyQueue]. *)
Record ReadyQueue : Type := mkReadyQueue {
  rq_heap : list ReadyKey;
  rq_pending : gmap Z PendingExecution;
  rq_sequence : Z;
}.

(** ** Operations *)

Section Operations.
Context `{H : HashOrder}.

(** [ReadyQueue::new], [len], [is_empty]. *)
Definition new_ready_queue : ReadyQueue := mkReadyQueue [] ∅ 0.
Definition rq_len (q : ReadyQueue) : Z := zsize (rq_pending q).
Definition rq_is_empty (q : ReadyQueue) : bool := bool_decide (rq_pending q = ∅).

(** [count_job]. *)
Definition count_job (q : ReadyQueue) (job_id : JobId) : Z :=
  zlen (filter (λ p, pe_job_id p = job_id) (hash_values (rq_pending q))).

(** The sort key pushed for a run and its record, with a given sequence number. *)
Definition key_of (run_id : RunId) (p : PendingExecution) (sequence : Z) : ReadyKey :=
  mkReadyKey (pe_batch_id p) (pe_priority p) (pe_scheduled_at p) sequence run_id.

(** The heap and sequence number after pushing keys for the given runs. *)
Fixpoint push_keys (ps : list (RunId * PendingExecution)) (heap : list ReadyKey) (sequence : Z) :
    list ReadyKey * Z :=
  match ps with
  | [] => (heap, sequence)
  | (r, p) :: ps =>
      let sequence := wrapping_add_u64 sequence 1 in
      push_keys ps (key_of r p sequence :: heap) sequence
  end.

(** [compact_if_needed]. *)
Definition compact_if_needed (q : ReadyQueue) : ReadyQueue :=
  if bool_decide (zlen (rq_heap q)
       ≤ saturating_add usize_max (saturating_mul usize_max (rq_len q) 2) 64)
  then q
  else
    let '(heap, sequence) := push_keys ((λ p, (pe_run_id p, p)) <$> hash_values (rq_pending q)) [] (rq_sequence q) in
    mkReadyQueue heap (rq_pending q) sequence.

(** [insert]. *)
Definition rq_insert (q : ReadyQueue) (p : PendingExecution) : ReadyQueue :=
  let sequence := wrapping_add_u64 (rq_sequence q) 1 in
  compact_if_needed
    (mkReadyQueue (key_of (pe_run_id p) p sequence :: rq_heap q)
       (<[pe_run_id p := p]> (rq_pending q)) sequence).

(** The [loop] of [pop_dispatchable]; every turn pops a key, so as many turns as
    there are keys are enough.  When the heap runs out, [heap.pop()?] returns from
    the whole function and [blocked] is dropped. *)
Fixpoint pop_loop (can_run : PendingExecution → bool) (pending : gmap Z PendingExecution)
    (fuel : nat) (heap blocked : list ReadyKey) :
    option (PendingExecution * list ReadyKey * gmap Z PendingExecution) :=
  match fuel with
  | O => None
  | S fuel =>
      match heap_pop heap with
      | None => None
      | Some (key, heap) =>
          match pending !! key_run_id key with
          | None => pop_loop can_run pending fuel heap blocked
          | Some p =>
              if can_run p
              then Some (p, blocked ++ heap, delete (key_run_id key) pending)
              else pop_loop can_run pending fuel heap (blocked ++ [key])
          end
      end
  end.

(** [pop_dispatchable]. *)
Definition pop_dispatchable (can_run : PendingExecution → bool) (q : ReadyQueue) :
    option PendingExecution * ReadyQueue :=
  match pop_loop can_run (rq_pending q) (length (rq_heap q)) (rq_heap q) [] with
  | Some (p, heap, pending) => (Some p, mkReadyQueue heap pending (rq_sequence q))
  | None => (None, mkReadyQueue [] (rq_pending q) (rq_sequence q))
  end.

(** [Iterator::min_by_key]: the first of the least elements. *)
Fixpoint min_by_scheduled (l : list PendingExecution) : option PendingExecution :=
  match l with
  | [] => None
  | p :: l =>
      match min_by_scheduled l with
      | None => Some p
      | Some m =>
          if bool_decide (pe_scheduled_at p ≤ pe_scheduled_at m) then Some p else Some m
      end
  end.

(** The test shared by the removal functions below. *)
Definition replaceable_of (job_id : JobId) (p : PendingExecution) : Prop :=
  pe_job_id p = job_id ∧ is_replaceable_trigger (pe_kind p) = true.

Global Instance replaceable_of_dec job_id p : Decision (replaceable_of job_id p).
Proof. unfold replaceable_of. apply _. Defined.

(** [remove_oldest_trigger]. *)
Definition remove_oldest_trigger (q : ReadyQueue) (job_id : JobId) :
    option PendingExecution * ReadyQueue :=
  match min_by_scheduled (filter (replaceable_of job_id) (hash_values (rq_pending q))) with
  | None => (None, q)
  | Some p =>
      (rq_pending q !! pe_run_id p,
       mkReadyQueue (rq_heap q) (delete (pe_run_id p) (rq_pending q)) (rq_sequence q))
  end.

(** [HashMap::extract_if] with a test on the record: those taken out, and the map left. *)
Definition extract_if (P : PendingExecution → Prop) `{∀ p, Decision (P p)} (q : ReadyQueue) :
    list PendingExecution * ReadyQueue :=
  (filter P (hash_values (rq_pending q)),
   mkReadyQueue (rq_heap q) (filter (λ kp, ¬ P kp.2) (rq_pending q)) (rq_sequence q)).

(** [remove_normal_triggers] and [remove_job]. *)
Definition remove_normal_triggers (q : ReadyQueue) (job_id : JobId) :
    list PendingExecution * ReadyQueue :=
  extract_if (replaceable_of job_id) q.

Definition remove_job (q : ReadyQueue) (job_id : JobId) : list PendingExecution * ReadyQueue :=
  extract_if (λ p, pe_job_id p = job_id) q.

(** [migrate_job]. *)
Definition migrate_job (q : ReadyQueue) (job_id : JobId) (version : Z) (priority : JobPriority) :
    ReadyQueue :=
  let touched := filter (λ p, pe_job_id p = job_id) (hash_values (rq_pending q)) in
  let pending :=
    (λ p, if bool_decide (pe_job_id p = job_id)
          then set_pe_version_priority version priority p else p) <$> rq_pending q in
  let run_ids := pe_run_id <$> touched in
  let '(heap, sequence) :=
    push_keys (omap (λ r, pair r <$> pending !! r) run_ids) (rq_heap q) (rq_sequence q) in
  compact_if_needed (mkReadyQueue heap pending sequence).

(** [clear]. *)
Definition rq_clear (q : ReadyQueue) : ReadyQueue := mkReadyQueue [] ∅ (rq_sequence q).

End Operations.

(** ** The key order *)

Lemma key_cmp_Lt a b :
  key_cmp a b = Lt ↔
  key_batch_id b < key_batch_id a ∨ key_batch_id b = key_batch_id a ∧
  (key_priority a < key_priority b ∨ key_priority a = key_priority b ∧
  (key_scheduled_at b < key_scheduled_at a ∨ key_scheduled_at b = key_scheduled_at a ∧
  (key_sequence b < key_sequence a ∨ key_sequence b = key_sequence a ∧
   key_run_id a < key_run_id b))).
Proof.
  unfold key_cmp, then_with.
  repeat match goal with |- context [?x ?= ?y] => destruct (Z.compare_spec x y) end;
    split; (done || lia).
Qed.

Lemma key_cmp_Eq a b : key_cmp a b = Eq ↔ a = b.
Proof.
  split.
  - destruct a, b. unfold key_cmp, then_with. cbn.
    repeat match goal with |- context [?x ?= ?y] => destruct (Z.compare_spec x y) end;
      intros; simplify_eq/=; done.
  - intros ->. unfold key_cmp, then_with. by rewrite !Z.compare_refl.
Qed.

Lemma key_cmp_antisym a b : key_cmp b a = CompOpp (key_cmp a b).
Proof.
  unfold key_cmp, then_with.
  rewrite (Z.compare_antisym (key_batch_id b)), (Z.compare_antisym (key_priority a)),
    (Z.compare_antisym (key_scheduled_at b)), (Z.compare_antisym (key_sequence b)),
    (Z.compare_antisym (key_run_id a)).
  by repeat match goal with |- context [?x ?= ?y] => destruct (x ?= y) end.
Qed.

(** [k] comes no later than [m] out of the heap, or is [m]. *)
Definition key_le (k m : ReadyKey) : Prop := key_cmp k m ≠ Gt.

Lemma key_le_alt k m : key_le k m ↔ key_cmp k m = Lt ∨ k = m.
Proof. unfold key_le. rewrite <-key_cmp_Eq. destruct (key_cmp k m); naive_solver. Qed.

Lemma key_le_trans a b c : key_le a b → key_le b c → key_le a c.
Proof. rewrite !key_le_alt, !key_cmp_Lt. intros [?| ->] [?| ->]; try (by left); auto. left. lia. Qed.

Lemma key_le_total a b : key_cmp a b ≠ Lt → key_le b a.
Proof. unfold key_le. rewrite (key_cmp_antisym a b). by destruct (key_cmp a b). Qed.

Lemma heap_pop_None h : heap_pop h = None → h = [].
Proof. destruct h as [|k h]; cbn; [done|]. destruct (heap_pop h) as [[m r]|]; [destruct (key_cmp k m)|]; done. Qed.

Lemma heap_pop_Some h m rest :
  heap_pop h = Some (m, rest) → h ≡ₚ m :: rest ∧ ∀ k, k ∈ h → key_le k m.
Proof.
  revert m rest. induction h as [|k h IH]; intros m rest H; cbn in H; [done|].
  destruct (heap_pop h) as [[m' rest']|] eqn:Hp.
  - destruct (IH m' rest' eq_refl) as [Hperm Hmax]. destruct (key_cmp k m') eqn:Hc; simplify_eq.
    + split; [by rewrite Hperm|]. intros x [->|Hx]%elem_of_cons; [by apply key_le_alt; right|].
      eapply key_le_trans; [by apply Hmax|]. apply key_cmp_Eq in Hc as ->. by apply key_le_alt; right.
    + split; [by rewrite Hperm, Permutation_swap|].
      intros x [->|Hx]%elem_of_cons; [|by apply Hmax]. unfold key_le. by rewrite Hc.
    + split; [by rewrite Hperm|]. intros x [->|Hx]%elem_of_cons; [by apply key_le_alt; right|].
      eapply key_le_trans; [by apply Hmax|]. apply key_le_total. by rewrite Hc.
  - apply heap_pop_None in Hp as ->. simplify_eq. split; [done|].
    intros x ->%list_elem_of_singleton. by apply key_le_alt; right.
Qed.

Lemma heap_pop_length h m rest : heap_pop h = Some (m, rest) → length h = S (length rest).
Proof. intros [->%Permutation_length _]%heap_pop_Some. done. Qed.

(** ** Selecting an execution *)

Section Pop.
Context (can_run : PendingExecution → bool) (pending : gmap Z PendingExecution).

(** A key whose record is waiting and may run. *)
Definition dispatchable (k : ReadyKey) : Prop :=
  ∃ p, pending !! key_run_id k = Some p ∧ can_run p = true.

Lemma pop_loop_None fuel heap blocked :
  (length heap ≤ fuel)%nat → pop_loop can_run pending fuel heap blocked = None →
  ∀ k, k ∈ heap → ¬ dispatchable k.
Proof.
  revert heap blocked. induction fuel as [|fuel IH]; intros heap blocked Hf H k Hk.
  { destruct heap; cbn in *; [set_solver|lia]. }
  cbn in H. destruct (heap_pop heap) as [[m rest]|] eqn:Hp.
  2:{ apply heap_pop_None in Hp as ->. set_solver. }
  pose proof (heap_pop_length _ _ _ Hp). apply heap_pop_Some in Hp as [Hperm _].
  rewrite Hperm in Hk. apply elem_of_cons in Hk.
  intros (p & Hlk & Hrun).
  destruct (pending !! key_run_id m) as [p'|] eqn:Hm.
  - destruct (can_run p') eqn:Hc; [done|]. destruct Hk as [->|Hk]; [congruence|].
    eapply (IH rest); [lia|exact H|exact Hk|]. by exists p.
  - destruct Hk as [->|Hk]; [congruence|].
    eapply (IH rest); [lia|exact H|exact Hk|]. by exists p.
Qed.

Lemma pop_loop_Some fuel heap blocked p heap' pending' :
  pop_loop can_run pending fuel heap blocked = Some (p, heap', pending') →
  ∃ key, key ∈ heap ∧ pending !! key_run_id key = Some p ∧ can_run p = true ∧
    pending' = delete (key_run_id key) pending ∧
    (∀ k, k ∈ heap → dispatchable k → key_le k key) ∧
    (∀ k, k ∈ blocked ++ heap → is_Some (pending !! key_run_id k) →
       key_run_id k ≠ key_run_id key → k ∈ heap').
Proof.
  revert heap blocked. induction fuel as [|fuel IH]; intros heap blocked H; [done|].
  cbn in H. destruct (heap_pop heap) as [[m rest]|] eqn:Hp; [|done].
  apply heap_pop_Some in Hp as [Hperm Hmax].
  assert (Hin : ∀ k, k ∈ heap ↔ k = m ∨ k ∈ rest) by (intros k; by rewrite Hperm, elem_of_cons).
  destruct (pending !! key_run_id m) as [p'|] eqn:Hm; [destruct (can_run p') eqn:Hc|].
  - simplify_eq. exists m. split_and!; [set_solver|done..| |].
    + auto.
    + intros k [?|[->|?]%Hin]%elem_of_app; set_solver.
  - apply IH in H as (key & ? & ? & ? & ? & Hle & Hkeep). exists key.
    split_and!; [set_solver|done..| |].
    + intros k [->|?]%Hin Hd; [|by apply Hle]. destruct Hd as (? & ? & ?). congruence.
    + intros k [?|[->|?]%Hin]%elem_of_app; apply Hkeep; set_solver.
  - apply IH in H as (key & ? & ? & ? & ? & Hle & Hkeep). exists key.
    split_and!; [set_solver|done..| |].
    + intros k [->|?]%Hin Hd; [|by apply Hle]. destruct Hd as (? & ? & ?). congruence.
    + intros k [?|[->|?]%Hin]%elem_of_app Hs; [|rewrite Hm in Hs; by destruct Hs|];
        apply Hkeep; set_solver.
Qed.

End Pop.

(** ** Well-formed queues *)

(** Every record sits under its own run id, and its key is in the heap. *)
Record rq_wf (q : ReadyQueue) : Prop := {
  rq_ids : ∀ r p, rq_pending q !! r = Some p → pe_run_id p = r;
  rq_keyed : ∀ r p, rq_pending q !! r = Some p → ∃ k, k ∈ rq_heap q ∧ key_run_id k = r;
}.

(** The bound [compact_if_needed] keeps on the heap. *)
Definition heap_bounded (q : ReadyQueue) : Prop :=
  zlen (rq_heap q) ≤ saturating_add usize_max (saturating_mul usize_max (rq_len q) 2) 64.

Lemma push_keys_elem ps heap sequence k :
  k ∈ heap → k ∈ (push_keys ps heap sequence).1.
Proof. revert heap sequence. induction ps as [|[r p] ps IH]; cbn; intros; [done|]. apply IH. set_solver. Qed.

Lemma push_keys_pushed ps heap sequence r p :
  (r, p) ∈ ps → ∃ k, k ∈ (push_keys ps heap sequence).1 ∧ key_run_id k = r.
Proof.
  revert heap sequence. induction ps as [|[r' p'] ps IH]; intros heap sequence Hin.
  { set_solver. }
  cbn. apply elem_of_cons in Hin as [[= -> ->]|Hin]; [|by apply IH].
  eexists. split; [apply push_keys_elem, elem_of_cons; by left|done].
Qed.

Lemma push_keys_length ps heap sequence :
  length (push_keys ps heap sequence).1 = (length ps + length heap)%nat.
Proof. revert heap sequence. induction ps as [|[r p] ps IH]; cbn; intros; [done|]. rewrite IH. cbn. lia. Qed.

Section Wf.
Context `{HL : !HashOrderLaws H}.

Lemma elem_of_hash_values {V} (m : gmap Z V) v : v ∈ hash_values m ↔ ∃ k, m !! k = Some v.
Proof.
  unfold hash_values. rewrite hash_iter_perm, list_elem_of_fmap. split.
  - intros ([k v'] & -> & Hk%elem_of_map_to_list). eauto.
  - intros [k Hk]. exists (k, v). by rewrite elem_of_map_to_list.
Qed.

Lemma elem_of_hash_keys {V} (m : gmap Z V) k : k ∈ hash_keys m ↔ is_Some (m !! k).
Proof.
  unfold hash_keys. rewrite hash_iter_perm, list_elem_of_fmap. split.
  - intros ([k' v'] & -> & Hk%elem_of_map_to_list). eauto.
  - intros [v Hk]. exists (k, v). by rewrite elem_of_map_to_list.
Qed.

Lemma NoDup_hash_keys {V} (m : gmap Z V) : NoDup (hash_keys m).
Proof. unfold hash_keys. rewrite hash_iter_perm. apply NoDup_fst_map_to_list. Qed.

Lemma length_hash_values {V} (m : gmap Z V) : length (hash_values m) = size m.
Proof. unfold hash_values. by rewrite length_fmap, hash_iter_perm, length_map_to_list. Qed.

(** Counting values of a map does not depend on the iteration order. *)
Lemma filter_hash_values (P : PendingExecution → Prop) `{∀ p, Decision (P p)}
    (m : gmap Z PendingExecution) :
  length (filter P (hash_values m)) = size (filter (λ kp, P kp.2) m).
Proof.
  unfold hash_values. rewrite hash_iter_perm. induction m as [|i x m Hi IH] using map_ind.
  - by rewrite map_filter_empty, map_to_list_empty.
  - rewrite map_to_list_insert by done. rewrite fmap_cons. cbn [snd]. rewrite filter_cons.
    destruct (decide (P x)) as [Hx|Hx].
    + rewrite map_filter_insert_True by done. cbn.
      rewrite map_size_insert_None by (apply map_lookup_filter_None; by left). by rewrite IH.
    + rewrite map_filter_insert_False by done. by rewrite delete_id.
Qed.

Lemma count_job_size q job_id :
  count_job q job_id = zsize (filter (λ kp, pe_job_id kp.2 = job_id) (rq_pending q)).
Proof. unfold count_job, zlen, zsize. by rewrite filter_hash_values. Qed.

Lemma compact_pending q : rq_pending (compact_if_needed q) = rq_pending q.
Proof. unfold compact_if_needed. split_if; [done|]. by destruct (push_keys _ _ _). Qed.

Lemma compact_wf q : rq_wf q → rq_wf (compact_if_needed q).
Proof.
  intros [Hid Hk]. unfold compact_if_needed. split_if; [done|].
  destruct (push_keys _ _ _) as [heap sequence] eqn:Hp. split; cbn; [done|].
  intros r p Hr. change heap with (heap, sequence).1. rewrite <-Hp.
  apply push_keys_pushed with p. apply list_elem_of_fmap. exists p.
  rewrite (Hid r p) by done. split; [done|]. apply elem_of_hash_values. eauto.
Qed.

Lemma compact_bounded q : zsize (rq_pending q) ≤ usize_max → heap_bounded (compact_if_needed q).
Proof.
  intros Hs. unfold heap_bounded, rq_len. rewrite compact_pending.
  unfold compact_if_needed. split_if; [done|].
  destruct (push_keys _ _ _) as [heap sequence] eqn:Hp. cbn.
  pose proof (f_equal (λ x, length x.1) Hp) as Hlen. cbn in Hlen.
  rewrite push_keys_length, length_fmap, length_hash_values in Hlen. cbn in Hlen.
  unfold zlen, zsize, saturating_add, saturating_mul in *. lia.
Qed.

Lemma rq_insert_pending q p : rq_pending (rq_insert q p) = <[pe_run_id p := p]> (rq_pending q).
Proof. unfold rq_insert. by rewrite compact_pending. Qed.

Lemma rq_insert_wf q p : rq_wf q → rq_wf (rq_insert q p).
Proof.
  intros [Hid Hk]. apply compact_wf. split; cbn.
  - intros r p'. rewrite lookup_insert. case_decide; naive_solver.
  - intros r p'. rewrite lookup_insert. case_decide as Hr.
    + intros _. eexists. split; [by apply elem_of_cons; left|]. done.
    + intros (k & ? & ?)%Hk. exists k. set_solver.
Qed.

(** inserting an execution records it under its run id, leaves every other
    waiting execution as it was, keeps every waiting execution reachable from the
    heap, and keeps the heap within twice the waiting executions plus 64. *)
Theorem rq_insert_correct q p :
  rq_wf q → rq_len q < usize_max →
  rq_wf (rq_insert q p) ∧ heap_bounded (rq_insert q p) ∧
  rq_pending (rq_insert q p) = <[pe_run_id p := p]> (rq_pending q).
Proof.
  intros Hwf Hlen. split_and!; [by apply rq_insert_wf| |apply rq_insert_pending].
  apply compact_bounded. cbn. unfold rq_len, zsize in *.
  rewrite map_size_insert. case_match; unfold id; lia.
Qed.

End Wf.

(** ** Removals and migration *)

Lemma extract_if_pending `{HashOrder} (P : PendingExecution → Prop) `{∀ p, Decision (P p)} q r p :
  rq_pending (extract_if P q).2 !! r = Some p ↔ rq_pending q !! r = Some p ∧ ¬ P p.
Proof. cbn. apply map_lookup_filter_Some. Qed.

Lemma extract_if_wf `{HashOrder} (P : PendingExecution → Prop) `{∀ p, Decision (P p)} q :
  rq_wf q → rq_wf (extract_if P q).2.
Proof.
  intros [Hid Hk]. split.
  - intros r p [? _]%extract_if_pending. eauto.
  - intros r p [? _]%extract_if_pending. cbn. eauto.
Qed.

Section Removal.
Context `{HL : !HashOrderLaws H}.

Lemma min_by_scheduled_Some l m :
  min_by_scheduled l = Some m → m ∈ l ∧ ∀ p, p ∈ l → pe_scheduled_at m ≤ pe_scheduled_at p.
Proof.
  revert m. induction l as [|p l IH]; intros m Hm; cbn in Hm; [done|].
  destruct (min_by_scheduled l) as [m'|] eqn:Hl.
  - destruct (IH m' eq_refl) as [Hin Hmin]. case_bool_decide; simplify_eq.
    + split; [set_solver|]. intros p' [->|Hp]%elem_of_cons; [lia|]. specialize (Hmin p' Hp). lia.
    + split; [set_solver|]. intros p' [->|Hp]%elem_of_cons; [lia|]. auto.
  - simplify_eq. destruct l as [|p' l]; [|cbn in Hl; by repeat case_match].
    split; [set_solver|]. intros p' ->%list_elem_of_singleton. lia.
Qed.

Lemma min_by_scheduled_None l : min_by_scheduled l = None → l = [].
Proof. destruct l; cbn; [done|]. by repeat case_match. Qed.

(** [remove_oldest_trigger] takes out a replaceable trigger of the job with
    the least planned instant if there is one, and otherwise changes nothing. *)
Theorem remove_oldest_trigger_correct q job_id :
  rq_wf q →
  match remove_oldest_trigger q job_id with
  | (Some p, q') =>
      rq_pending q !! pe_run_id p = Some p ∧ replaceable_of job_id p ∧
      (∀ r p', rq_pending q !! r = Some p' → replaceable_of job_id p' →
         pe_scheduled_at p ≤ pe_scheduled_at p') ∧
      rq_pending q' = delete (pe_run_id p) (rq_pending q) ∧ rq_wf q'
  | (None, q') =>
      q' = q ∧ ∀ r p', rq_pending q !! r = Some p' → ¬ replaceable_of job_id p'
  end.
Proof.
  intros Hwf. unfold remove_oldest_trigger.
  destruct (min_by_scheduled _) as [p|] eqn:Hmin.
  - apply min_by_scheduled_Some in Hmin as [Hin Hleast].
    apply list_elem_of_filter in Hin as [Hrep [r Hr]%elem_of_hash_values].
    pose proof (rq_ids q Hwf r p Hr) as Hid. rewrite Hid, Hr. rewrite Hid.
    split_and!; [done|done| |done|].
    + intros r' p' Hr' Hrep'. apply Hleast, list_elem_of_filter. split; [done|].
      apply elem_of_hash_values. eauto.
    + destruct Hwf as [Hids Hk]. split; cbn; intros r' p' [_ ?]%lookup_delete_Some; eauto.
  - split; [done|]. intros r p' Hr Hrep. apply min_by_scheduled_None in Hmin.
    enough (p' ∈ (@nil PendingExecution)) by set_solver. rewrite <-Hmin.
    apply list_elem_of_filter. split; [done|]. apply elem_of_hash_values. eauto.
Qed.

Lemma migrate_job_pending q job_id version priority :
  rq_pending (migrate_job q job_id version priority) =
    (λ p, if bool_decide (pe_job_id p = job_id)
          then set_pe_version_priority version priority p else p) <$> rq_pending q.
Proof. unfold migrate_job. destruct (push_keys _ _ _) eqn:?. by rewrite compact_pending. Qed.

Lemma migrate_job_wf q job_id version priority :
  rq_wf q → rq_wf (migrate_job q job_id version priority).
Proof.
  intros [Hid Hk]. unfold migrate_job. destruct (push_keys _ _ _) as [heap sequence] eqn:Hp.
  apply compact_wf. split; cbn; intros r p; rewrite lookup_fmap_Some;
    intros (p0 & <- & Hr).
  - case_bool_decide; cbn; eauto.
  - destruct (Hk r p0 Hr) as (k & Hin & Heq). exists k. split; [|done].
    change heap with (heap, sequence).1. rewrite <-Hp. by apply push_keys_elem.
Qed.

End Removal.

(** ** Dispatch *)

(** when some waiting execution may run, [pop_dispatchable] hands out the one
    whose key is greatest among those that may run, removes exactly it from the
    waiting executions and keeps all the others reachable; executions that may
    not run yet never hold it back. *)
Theorem pop_dispatchable_selects can_run q r0 p0 :
  rq_wf q → rq_pending q !! r0 = Some p0 → can_run p0 = true →
  ∃ p q' key,
    pop_dispatchable can_run q = (Some p, q') ∧ can_run p = true ∧
    rq_pending q !! pe_run_id p = Some p ∧
    key ∈ rq_heap q ∧ key_run_id key = pe_run_id p ∧
    (∀ k, k ∈ rq_heap q → dispatchable can_run (rq_pending q) k → key_le k key) ∧
    rq_pending q' = delete (pe_run_id p) (rq_pending q) ∧ rq_wf q'.
Proof.
  intros Hwf Hr0 Hc0. destruct (rq_keyed q Hwf r0 p0 Hr0) as (k0 & Hk0 & Hk0r).
  unfold pop_dispatchable.
  destruct (pop_loop _ _ _ _ _) as [[[p heap'] pending']|] eqn:Hpop.
  2:{ exfalso. eapply pop_loop_None in Hpop; [|done|exact Hk0]. apply Hpop. exists p0. by rewrite Hk0r. }
  apply pop_loop_Some in Hpop as (key & Hin & Hlk & Hrun & -> & Hle & Hkeep).
  pose proof (rq_ids q Hwf _ _ Hlk) as Hid.
  exists p, (mkReadyQueue heap' (delete (key_run_id key) (rq_pending q)) (rq_sequence q)), key.
  rewrite Hid. split_and!; try done.
  destruct Hwf as [Hids Hkd]. split; cbn.
  - intros r p' [_ ?]%lookup_delete_Some. eauto.
  - intros r p' [Hne Hr]%lookup_delete_Some. destruct (Hkd r p' Hr) as (k & Hk & <-).
    exists k. split; [|done]. apply Hkeep; [set_solver|by eexists|done].
Qed.

(** (a defect): when no waiting execution may run, [heap.pop()?] leaves the
    function with the keys it had set aside still in [blocked], so they are lost:
    the heap is empty, the executions are still waiting, and no later call returns
    one of them, even once all of them may run. *)
Theorem pop_dispatchable_strands can_run q :
  (∀ r p, rq_pending q !! r = Some p → can_run p = false) →
  ∃ q', pop_dispatchable can_run q = (None, q') ∧
    rq_heap q' = [] ∧ rq_pending q' = rq_pending q ∧
    ∀ can_run', pop_dispatchable can_run' q' = (None, q').
Proof.
  intros Hno. unfold pop_dispatchable at 1.
  destruct (pop_loop _ _ _ _ _) as [[[p heap'] pending']|] eqn:Hpop.
  { apply pop_loop_Some in Hpop as (key & _ & Hlk & Hrun & _). apply Hno in Hlk. congruence. }
  eexists. split_and!; [done..|]. intros can_run'. done.
Qed.

(** ** Witnesses *)

Definition demo_pending (job run batch priority : Z) (kind : PendingKind) : PendingExecution :=
  mkPending job 1 run 1 0 kind priority batch.

Definition demo_queue : ReadyQueue :=
  let I := demo_hash_order in
  rq_insert (rq_insert new_ready_queue (demo_pending 7 100 2 10 PendingNormal))
    (demo_pending 8 101 1 3 PendingNormal).

Lemma new_ready_queue_wf : rq_wf new_ready_queue.
Proof. by split. Qed.

Lemma demo_queue_wf : rq_wf demo_queue.
Proof.
  unfold demo_queue. do 2 apply (rq_insert_wf (H := demo_hash_order)). apply new_ready_queue_wf.
Qed.

Lemma rq_insert_correct_witness :
  let I := demo_hash_order in
  rq_wf (rq_insert demo_queue (demo_pending 7 102 3 5 PendingRetry)) ∧
  heap_bounded (rq_insert demo_queue (demo_pending 7 102 3 5 PendingRetry)) ∧
  rq_pending (rq_insert demo_queue (demo_pending 7 102 3 5 PendingRetry)) =
    <[102 := demo_pending 7 102 3 5 PendingRetry]> (rq_pending demo_queue).
Proof.
  intros I.
  apply (rq_insert_correct (H := demo_hash_order) demo_queue (demo_pending 7 102 3 5 PendingRetry)).
  - apply demo_queue_wf.
  - vm_compute. reflexivity.
Defined.

Lemma remove_oldest_trigger_correct_witness :
  match remove_oldest_trigger (H := demo_hash_order) demo_queue 8 with
  | (Some p, q') =>
      rq_pending demo_queue !! pe_run_id p = Some p ∧ replaceable_of 8 p ∧
      (∀ r p', rq_pending demo_queue !! r = Some p' → replaceable_of 8 p' →
         pe_scheduled_at p ≤ pe_scheduled_at p') ∧
      rq_pending q' = delete (pe_run_id p) (rq_pending demo_queue) ∧ rq_wf q'
  | (None, q') =>
      q' = demo_queue ∧ ∀ r p', rq_pending demo_queue !! r = Some p' → ¬ replaceable_of 8 p'
  end.
Proof.
  apply (remove_oldest_trigger_correct (H := demo_hash_order) demo_queue 8), demo_queue_wf.
Defined.

(** The older batch goes first whatever the priorities; job 8 at its limit does
    not hold back job 7. *)
Lemma pop_dispatchable_selects_witness :
  ∃ p q' key,
    pop_dispatchable (λ p, bool_decide (pe_job_id p ≠ 8)) demo_queue = (Some p, q') ∧
    bool_decide (pe_job_id p ≠ 8) = true ∧
    rq_pending demo_queue !! pe_run_id p = Some p ∧
    key ∈ rq_heap demo_queue ∧ key_run_id key = pe_run_id p ∧
    (∀ k, k ∈ rq_heap demo_queue →
       dispatchable (λ p, bool_decide (pe_job_id p ≠ 8)) (rq_pending demo_queue) k → key_le k key) ∧
    rq_pending q' = delete (pe_run_id p) (rq_pending demo_queue) ∧ rq_wf q'.
Proof.
  apply (pop_dispatchable_selects (λ p, bool_decide (pe_job_id p ≠ 8)) demo_queue
           100 (demo_pending 7 100 2 10 PendingNormal)).
  - apply demo_queue_wf.
  - vm_compute. reflexivity.
  - vm_compute. reflexivity.
Defined.

Example demo_queue_order :
  fst <$> Some (pop_dispatchable (λ _, true) demo_queue) =
    Some (Some (demo_pending 8 101 1 3 PendingNormal)).
Proof. vm_compute. reflexivity. Qed.

Lemma pop_dispatchable_strands_witness :
  ∃ q', pop_dispatchable (λ _, false) demo_queue = (None, q') ∧
    rq_heap q' = [] ∧ rq_pending q' = rq_pending demo_queue ∧
    ∀ can_run', pop_dispatchable can_run' q' = (None, q').
Proof. apply (pop_dispatchable_strands (λ _, false) demo_queue). done. Defined.
