(* ===== verification/Actor.v ===== *)
(** * State of the scheduler actor

    The records of [crates/smalux-agent/src/scheduler/runtime/engine.rs]
    ([JobEntry], [RunningExecution], [RetryTimer], [TaskCompletion],
    [SchedulerActor]) with a setter for each field the code assigns, and the
    environment the actor runs in.

    Three components of [SchedulerActor] stand for what the code reaches through
    a library: [ac_timers] is the content of the [DelayQueue], [ac_tasks] the
    executions inside the [JoinSet], and [ac_events] the events sent on the
    broadcast channel, newest first.  [ac_ticks] and [ac_uuids] count how many
    times the clocks were read and a random UUID was drawn.  A cancellation token
    is the flag [run_cancelled] of the running execution that shares it. *)

From stdpp Require Import base gmap strings list.
From S2P Require Import Prelude SchedModel Timing ReadyQueue.

(** ** The environment *)

Class Runtime : Type := {
  (** The [n]-th readings of [Utc::now] and [Instant::now]. *)
  utc_clock : nat → DateTime;
  mono_clock : nat → Instant;
  (** The last [Instant] of the platform. *)
  instant_max : Instant;
  (** The [n]-th result of [Uuid::new_v4]. *)
  new_v4 : nat → Uuid;
  (** The key [DelayQueue::insert_at] returns when the given keys are in use, and
      whether it (and [reset_at]) accepts a deadline at a given moment. *)
  delay_key : gset Z → Z;
  delay_in_range : Instant → Instant → bool;
  (** [Display] of a [Uuid]. *)
  fmt_uuid : Uuid → string;
}.

Class RuntimeLaws (R : Runtime) : Prop := {
  (** Random UUIDs are pairwise different. *)
  new_v4_inj : Inj (=) (=) new_v4;
  (** A key handed out is not one still in use. *)
  delay_key_fresh X : delay_key X ∉ X;
}.

(** ** Records *)

(** [JobEntry]. *)
Record JobEntry : Type := mkJobEntry {
  job_id : JobId;
  job_version : Z;
  job_task : string;
  job_cancellation_mode : TaskCancellationMode;
  job_trigger : Trigger;
  job_concurrency : option positive;
  job_max_pending : option Z;
  job_priority : JobPriority;
  job_coalescing : TriggerCoalescing;
  job_capacity : CapacityPolicy;
  job_retry : ExecutionRetryPolicy;
  job_failure : FailurePolicy;
  job_state : JobState;
  job_normal_timer_key : option Z;
  job_next_run_at : option DateTime;
  job_blocked : list PendingExecution;
  job_running_count : Z;
  job_consecutive_failures : Z;
  job_last_started_at : option DateTime;
  job_last_finished_at : option DateTime;
  job_last_outcome : option string;
  job_last_fired_at : option DateTime;
  job_created_at : DateTime;
  job_updated_at : DateTime;
}.

(** [RunningExecution]. *)
Record RunningExecution : Type := mkRunning {
  run_job_id : JobId;
  run_version : Z;
  run_cancelled : bool;
}.

(** [RetryTimer]. *)
Record RetryTimer : Type := mkRetryTimer {
  rt_job_id : JobId;
  rt_key : Z;
  rt_run_at : DateTime;
}.

(** [ExecutionMetadata]. *)
Record ExecutionMetadata : Type := mkMetadata {
  md_job_id : JobId;
  md_version : Z;
  md_run_id : RunId;
  md_attempt : Z;
  md_scheduled_at : DateTime;
}.

(** A future inside the [JoinSet]: what [spawn_execution] captured. *)
Record InFlight : Type := mkInFlight {
  fl_metadata : ExecutionMetadata;
  fl_started_at : DateTime;
  fl_timeout : option Duration;
  fl_cancellation_mode : TaskCancellationMode;
}.

Definition fl_run_id (f : InFlight) : RunId := md_run_id (fl_metadata f).

(** [CompletionOutcome]. *)
Inductive CompletionOutcome : Type :=
| Finished (r : TaskRunResult)
| TimedOut
| Panicked (message : string)
| Cancelled.

(** [TaskCompletion] and [TaskCompletion::metadata]. *)
Record TaskCompletion : Type := mkCompletion {
  tc_job_id : JobId;
  tc_version : Z;
  tc_run_id : RunId;
  tc_attempt : Z;
  tc_scheduled_at : DateTime;
  tc_elapsed : Duration;
  tc_outcome : CompletionOutcome;
}.

Definition tc_metadata (c : TaskCompletion) : ExecutionMetadata :=
  mkMetadata (tc_job_id c) (tc_version c) (tc_run_id c) (tc_attempt c) (tc_scheduled_at c).

(** [FailureClass]. *)
Inductive FailureClass : Type := ClassTransient | ClassPermanent | ClassTimeout | ClassPanic.

Global Instance FailureClass_eq_dec : EqDecision FailureClass.
Proof. solve_decision. Defined.

(** [SchedulerActor]. *)
Record SchedulerActor : Type := mkActor {
  ac_config : SchedulerConfig;
  ac_config_revision : Z;
  ac_jobs : gmap Z JobEntry;
  ac_timers : gmap Z (TimerEntry * Instant);
  ac_retry_timers : gmap Z RetryTimer;
  ac_ready : ReadyQueue;
  ac_tasks : list InFlight;
  ac_running : gmap Z RunningExecution;
  ac_total_running : Z;
  ac_event_sequence : Z;
  ac_batch_sequence : Z;
  ac_status : SchedulerStatus;
  ac_shutdown_response : bool;
  ac_events : list SchedulerEvent;
  ac_ticks : nat;
  ac_uuids : nat;
}.

(** ** Field assignment *)

Definition set_job_version (v : Z) (j : JobEntry) : JobEntry :=
  mkJobEntry (job_id j) v (job_task j) (job_cancellation_mode j) (job_trigger j)
    (job_concurrency j) (job_max_pending j) (job_priority j) (job_coalescing j) (job_capacity j)
    (job_retry j) (job_failure j) (job_state j) (job_normal_timer_key j) (job_next_run_at j)
    (job_blocked j) (job_running_count j) (job_consecutive_failures j) (job_last_started_at j)
    (job_last_finished_at j) (job_last_outcome j) (job_last_fired_at j) (job_created_at j)
    (job_updated_at j).
Definition set_job_task (v : string) (j : JobEntry) : JobEntry :=
  mkJobEntry (job_id j) (job_version j) v (job_cancellation_mode j) (job_trigger j)
    (job_concurrency j) (job_max_pending j) (job_priority j) (job_coalescing j) (job_capacity j)
    (job_retry j) (job_failure j) (job_state j) (job_normal_timer_key j) (job_next_run_at j)
    (job_blocked j) (job_running_count j) (job_consecutive_failures j) (job_last_started_at j)
    (job_last_finished_at j) (job_last_outcome j) (job_last_fired_at j) (job_created_at j)
    (job_updated_at j).
Definition set_job_cancellation_mode (v : TaskCancellationMode) (j : JobEntry) : JobEntry :=
  mkJobEntry (job_id j) (job_version j) (job_task j) v (job_trigger j) (job_concurrency j)
    (job_max_pending j) (job_priority j) (job_coalescing j) (job_capacity j) (job_retry j)
    (job_failure j) (job_state j) (job_normal_timer_key j) (job_next_run_at j) (job_blocked j)
    (job_running_count j) (job_consecutive_failures j) (job_last_started_at j)
    (job_last_finished_at j) (job_last_outcome j) (job_last_fired_at j) (job_created_at j)
    (job_updated_at j).
Definition set_job_trigger (v : Trigger) (j : JobEntry) : JobEntry :=
  mkJobEntry (job_id j) (job_version j) (job_task j) (job_cancellation_mode j) v
    (job_concurrency j) (job_max_pending j) (job_priority j) (job_coalescing j) (job_capacity j)
    (job_retry j) (job_failure j) (job_state j) (job_normal_timer_key j) (job_next_run_at j)
    (job_blocked j) (job_running_count j) (job_consecutive_failures j) (job_last_started_at j)
    (job_last_finished_at j) (job_last_outcome j) (job_last_fired_at j) (job_created_at j)
    (job_updated_at j).
Definition set_job_concurrency (v : option positive) (j : JobEntry) : JobEntry :=
  mkJobEntry (job_id j) (job_version j) (job_task j) (job_cancellation_mode j) (job_trigger j) v
    (job_max_pending j) (job_priority j) (job_coalescing j) (job_capacity j) (job_retry j)
    (job_failure j) (job_state j) (job_normal_timer_key j) (job_next_run_at j) (job_blocked j)
    (job_running_count j) (job_consecutive_failures j) (job_last_started_at j)
    (job_last_finished_at j) (job_last_outcome j) (job_last_fired_at j) (job_created_at j)
    (job_updated_at j).
Definition set_job_max_pending (v : option Z) (j : JobEntry) : JobEntry :=
  mkJobEntry (job_id j) (job_version j) (job_task j) (job_cancellation_mode j) (job_trigger j)
    (job_concurrency j) v (job_priority j) (job_coalescing j) (job_capacity j) (job_retry j)
    (job_failure j) (job_state j) (job_normal_timer_key j) (job_next_run_at j) (job_blocked j)
    (job_running_count j) (job_consecutive_failures j) (job_last_started_at j)
    (job_last_finished_at j) (job_last_outcome j) (job_last_fired_at j) (job_created_at j)
    (job_updated_at j).
Definition set_job_priority (v : JobPriority) (j : JobEntry) : JobEntry :=
  mkJobEntry (job_id j) (job_version j) (job_task j) (job_cancellation_mode j) (job_trigger j)
    (job_concurrency j) (job_max_pending j) v (job_coalescing j) (job_capacity j) (job_retry j)
    (job_failure j) (job_state j) (job_normal_timer_key j) (job_next_run_at j) (job_blocked j)
    (job_running_count j) (job_consecutive_failures j) (job_last_started_at j)
    (job_last_finished_at j) (job_last_outcome j) (job_last_fired_at j) (job_created_at j)
    (job_updated_at j).
Definition set_job_coalescing (v : TriggerCoalescing) (j : JobEntry) : JobEntry :=
  mkJobEntry (job_id j) (job_version j) (job_task j) (job_cancellation_mode j) (job_trigger j)
    (job_concurrency j) (job_max_pending j) (job_priority j) v (job_capacity j) (job_retry j)
    (job_failure j) (job_state j) (job_normal_timer_key j) (job_next_run_at j) (job_blocked j)
    (job_running_count j) (job_consecutive_failures j) (job_last_started_at j)
    (job_last_finished_at j) (job_last_outcome j) (job_last_fired_at j) (job_created_at j)
    (job_updated_at j).
Definition set_job_capacity (v : CapacityPolicy) (j : JobEntry) : JobEntry :=
  mkJobEntry (job_id j) (job_version j) (job_task j) (job_cancellation_mode j) (job_trigger j)
    (job_concurrency j) (job_max_pending j) (job_priority j) (job_coalescing j) v (job_retry j)
    (job_failure j) (job_state j) (job_normal_timer_key j) (job_next_run_at j) (job_blocked j)
    (job_running_count j) (job_consecutive_failures j) (job_last_started_at j)
    (job_last_finished_at j) (job_last_outcome j) (job_last_fired_at j) (job_created_at j)
    (job_updated_at j).
Definition set_job_retry (v : ExecutionRetryPolicy) (j : JobEntry) : JobEntry :=
  mkJobEntry (job_id j) (job_version j) (job_task j) (job_cancellation_mode j) (job_trigger j)
    (job_concurrency j) (job_max_pending j) (job_priority j) (job_coalescing j) (job_capacity j) v
    (job_failure j) (job_state j) (job_normal_timer_key j) (job_next_run_at j) (job_blocked j)
    (job_running_count j) (job_consecutive_failures j) (job_last_started_at j)
    (job_last_finished_at j) (job_last_outcome j) (job_last_fired_at j) (job_created_at j)
    (job_updated_at j).
Definition set_job_failure (v : FailurePolicy) (j : JobEntry) : JobEntry :=
  mkJobEntry (job_id j) (job_version j) (job_task j) (job_cancellation_mode j) (job_trigger j)
    (job_concurrency j) (job_max_pending j) (job_priority j) (job_coalescing j) (job_capacity j)
    (job_retry j) v (job_state j) (job_normal_timer_key j) (job_next_run_at j) (job_blocked j)
    (job_running_count j) (job_consecutive_failures j) (job_last_started_at j)
    (job_last_finished_at j) (job_last_outcome j) (job_last_fired_at j) (job_created_at j)
    (job_updated_at j).
Definition set_job_state (v : JobState) (j : JobEntry) : JobEntry :=
  mkJobEntry (job_id j) (job_version j) (job_task j) (job_cancellation_mode j) (job_trigger j)
    (job_concurrency j) (job_max_pending j) (job_priority j) (job_coalescing j) (job_capacity j)
    (job_retry j) (job_failure j) v (job_normal_timer_key j) (job_next_run_at j) (job_blocked j)
    (job_running_count j) (job_consecutive_failures j) (job_last_started_at j)
    (job_last_finished_at j) (job_last_outcome j) (job_last_fired_at j) (job_created_at j)
    (job_updated_at j).
Definition set_job_normal_timer_key (v : option Z) (j : JobEntry) : JobEntry :=
  mkJobEntry (job_id j) (job_version j) (job_task j) (job_cancellation_mode j) (job_trigger j)
    (job_concurrency j) (job_max_pending j) (job_priority j) (job_coalescing j) (job_capacity j)
    (job_retry j) (job_failure j) (job_state j) v (job_next_run_at j) (job_blocked j)
    (job_running_count j) (job_consecutive_failures j) (job_last_started_at j)
    (job_last_finished_at j) (job_last_outcome j) (job_last_fired_at j) (job_created_at j)
    (job_updated_at j).
Definition set_job_next_run_at (v : option DateTime) (j : JobEntry) : JobEntry :=
  mkJobEntry (job_id j) (job_version j) (job_task j) (job_cancellation_mode j) (job_trigger j)
    (job_concurrency j) (job_max_pending j) (job_priority j) (job_coalescing j) (job_capacity j)
    (job_retry j) (job_failure j) (job_state j) (job_normal_timer_key j) v (job_blocked j)
    (job_running_count j) (job_consecutive_failures j) (job_last_started_at j)
    (job_last_finished_at j) (job_last_outcome j) (job_last_fired_at j) (job_created_at j)
    (job_updated_at j).
Definition set_job_blocked (v : list PendingExecution) (j : JobEntry) : JobEntry :=
  mkJobEntry (job_id j) (job_version j) (job_task j) (job_cancellation_mode j) (job_trigger j)
    (job_concurrency j) (job_max_pending j) (job_priority j) (job_coalescing j) (job_capacity j)
    (job_retry j) (job_failure j) (job_state j) (job_normal_timer_key j) (job_next_run_at j) v
    (job_running_count j) (job_consecutive_failures j) (job_last_started_at j)
    (job_last_finished_at j) (job_last_outcome j) (job_last_fired_at j) (job_created_at j)
    (job_updated_at j).
Definition set_job_running_count (v : Z) (j : JobEntry) : JobEntry :=
  mkJobEntry (job_id j) (job_version j) (job_task j) (job_cancellation_mode j) (job_trigger j)
    (job_concurrency j) (job_max_pending j) (job_priority j) (job_coalescing j) (job_capacity j)
    (job_retry j) (job_failure j) (job_state j) (job_normal_timer_key j) (job_next_run_at j)
    (job_blocked j) v (job_consecutive_failures j) (job_last_started_at j)
    (job_last_finished_at j) (job_last_outcome j) (job_last_fired_at j) (job_created_at j)
    (job_updated_at j).
Definition set_job_consecutive_failures (v : Z) (j : JobEntry) : JobEntry :=
  mkJobEntry (job_id j) (job_version j) (job_task j) (job_cancellation_mode j) (job_trigger j)
    (job_concurrency j) (job_max_pending j) (job_priority j) (job_coalescing j) (job_capacity j)
    (job_retry j) (job_failure j) (job_state j) (job_normal_timer_key j) (job_next_run_at j)
    (job_blocked j) (job_running_count j) v (job_last_started_at j) (job_last_finished_at j)
    (job_last_outcome j) (job_last_fired_at j) (job_created_at j) (job_updated_at j).
Definition set_job_last_started_at (v : option DateTime) (j : JobEntry) : JobEntry :=
  mkJobEntry (job_id j) (job_version j) (job_task j) (job_cancellation_mode j) (job_trigger j)
    (job_concurrency j) (job_max_pending j) (job_priority j) (job_coalescing j) (job_capacity j)
    (job_retry j) (job_failure j) (job_state j) (job_normal_timer_key j) (job_next_run_at j)
    (job_blocked j) (job_running_count j) (job_consecutive_failures j) v (job_last_finished_at j)
    (job_last_outcome j) (job_last_fired_at j) (job_created_at j) (job_updated_at j).
Definition set_job_last_finished_at (v : option DateTime) (j : JobEntry) : JobEntry :=
  mkJobEntry (job_id j) (job_version j) (job_task j) (job_cancellation_mode j) (job_trigger j)
    (job_concurrency j) (job_max_pending j) (job_priority j) (job_coalescing j) (job_capacity j)
    (job_retry j) (job_failure j) (job_state j) (job_normal_timer_key j) (job_next_run_at j)
    (job_blocked j) (job_running_count j) (job_consecutive_failures j) (job_last_started_at j) v
    (job_last_outcome j) (job_last_fired_at j) (job_created_at j) (job_updated_at j).
Definition set_job_last_outcome (v : option string) (j : JobEntry) : JobEntry :=
  mkJobEntry (job_id j) (job_version j) (job_task j) (job_cancellation_mode j) (job_trigger j)
    (job_concurrency j) (job_max_pending j) (job_priority j) (job_coalescing j) (job_capacity j)
    (job_retry j) (job_failure j) (job_state j) (job_normal_timer_key j) (job_next_run_at j)
    (job_blocked j) (job_running_count j) (job_consecutive_failures j) (job_last_started_at j)
    (job_last_finished_at j) v (job_last_fired_at j) (job_created_at j) (job_updated_at j).
Definition set_job_last_fired_at (v : option DateTime) (j : JobEntry) : JobEntry :=
  mkJobEntry (job_id j) (job_version j) (job_task j) (job_cancellation_mode j) (job_trigger j)
    (job_concurrency j) (job_max_pending j) (job_priority j) (job_coalescing j) (job_capacity j)
    (job_retry j) (job_failure j) (job_state j) (job_normal_timer_key j) (job_next_run_at j)
    (job_blocked j) (job_running_count j) (job_consecutive_failures j) (job_last_started_at j)
    (job_last_finished_at j) (job_last_outcome j) v (job_created_at j) (job_updated_at j).
Definition set_job_updated_at (v : DateTime) (j : JobEntry) : JobEntry :=
  mkJobEntry (job_id j) (job_version j) (job_task j) (job_cancellation_mode j) (job_trigger j)
    (job_concurrency j) (job_max_pending j) (job_priority j) (job_coalescing j) (job_capacity j)
    (job_retry j) (job_failure j) (job_state j) (job_normal_timer_key j) (job_next_run_at j)
    (job_blocked j) (job_running_count j) (job_consecutive_failures j) (job_last_started_at j)
    (job_last_finished_at j) (job_last_outcome j) (job_last_fired_at j) (job_created_at j) v.

Definition set_ac_config (v : SchedulerConfig) (s : SchedulerActor) : SchedulerActor :=
  mkActor v (ac_config_revision s) (ac_jobs s) (ac_timers s) (ac_retry_timers s) (ac_ready s)
    (ac_tasks s) (ac_running s) (ac_total_running s) (ac_event_sequence s) (ac_batch_sequence s)
    (ac_status s) (ac_shutdown_response s) (ac_events s) (ac_ticks s) (ac_uuids s).
Definition set_ac_config_revision (v : Z) (s : SchedulerActor) : SchedulerActor :=
  mkActor (ac_config s) v (ac_jobs s) (ac_timers s) (ac_retry_timers s) (ac_ready s) (ac_tasks s)
    (ac_running s) (ac_total_running s) (ac_event_sequence s) (ac_batch_sequence s) (ac_status s)
    (ac_shutdown_response s) (ac_events s) (ac_ticks s) (ac_uuids s).
Definition set_ac_jobs (v : gmap Z JobEntry) (s : SchedulerActor) : SchedulerActor :=
  mkActor (ac_config s) (ac_config_revision s) v (ac_timers s) (ac_retry_timers s) (ac_ready s)
    (ac_tasks s) (ac_running s) (ac_total_running s) (ac_event_sequence s) (ac_batch_sequence s)
    (ac_status s) (ac_shutdown_response s) (ac_events s) (ac_ticks s) (ac_uuids s).
Definition set_ac_timers (v : gmap Z (TimerEntry * Instant)) (s : SchedulerActor) : SchedulerActor :=
  mkActor (ac_config s) (ac_config_revision s) (ac_jobs s) v (ac_retry_timers s) (ac_ready s)
    (ac_tasks s) (ac_running s) (ac_total_running s) (ac_event_sequence s) (ac_batch_sequence s)
    (ac_status s) (ac_shutdown_response s) (ac_events s) (ac_ticks s) (ac_uuids s).
Definition set_ac_retry_timers (v : gmap Z RetryTimer) (s : SchedulerActor) : SchedulerActor :=
  mkActor (ac_config s) (ac_config_revision s) (ac_jobs s) (ac_timers s) v (ac_ready s)
    (ac_tasks s) (ac_running s) (ac_total_running s) (ac_event_sequence s) (ac_batch_sequence s)
    (ac_status s) (ac_shutdown_response s) (ac_events s) (ac_ticks s) (ac_uuids s).
Definition set_ac_ready (v : ReadyQueue) (s : SchedulerActor) : SchedulerActor :=
  mkActor (ac_config s) (ac_config_revision s) (ac_jobs s) (ac_timers s) (ac_retry_timers s) v
    (ac_tasks s) (ac_running s) (ac_total_running s) (ac_event_sequence s) (ac_batch_sequence s)
    (ac_status s) (ac_shutdown_response s) (ac_events s) (ac_ticks s) (ac_uuids s).
Definition set_ac_tasks (v : list InFlight) (s : SchedulerActor) : SchedulerActor :=
  mkActor (ac_config s) (ac_config_revision s) (ac_jobs s) (ac_timers s) (ac_retry_timers s)
    (ac_ready s) v (ac_running s) (ac_total_running s) (ac_event_sequence s) (ac_batch_sequence s)
    (ac_status s) (ac_shutdown_response s) (ac_events s) (ac_ticks s) (ac_uuids s).
Definition set_ac_running (v : gmap Z RunningExecution) (s : SchedulerActor) : SchedulerActor :=
  mkActor (ac_config s) (ac_config_revision s) (ac_jobs s) (ac_timers s) (ac_retry_timers s)
    (ac_ready s) (ac_tasks s) v (ac_total_running s) (ac_event_sequence s) (ac_batch_sequence s)
    (ac_status s) (ac_shutdown_response s) (ac_events s) (ac_ticks s) (ac_uuids s).
Definition set_ac_total_running (v : Z) (s : SchedulerActor) : SchedulerActor :=
  mkActor (ac_config s) (ac_config_revision s) (ac_jobs s) (ac_timers s) (ac_retry_timers s)
    (ac_ready s) (ac_tasks s) (ac_running s) v (ac_event_sequence s) (ac_batch_sequence s)
    (ac_status s) (ac_shutdown_response s) (ac_events s) (ac_ticks s) (ac_uuids s).
Definition set_ac_event_sequence (v : Z) (s : SchedulerActor) : SchedulerActor :=
  mkActor (ac_config s) (ac_config_revision s) (ac_jobs s) (ac_timers s) (ac_retry_timers s)
    (ac_ready s) (ac_tasks s) (ac_running s) (ac_total_running s) v (ac_batch_sequence s)
    (ac_status s) (ac_shutdown_response s) (ac_events s) (ac_ticks s) (ac_uuids s).
Definition set_ac_batch_sequence (v : Z) (s : SchedulerActor) : SchedulerActor :=
  mkActor (ac_config s) (ac_config_revision s) (ac_jobs s) (ac_timers s) (ac_retry_timers s)
    (ac_ready s) (ac_tasks s) (ac_running s) (ac_total_running s) (ac_event_sequence s) v
    (ac_status s) (ac_shutdown_response s) (ac_events s) (ac_ticks s) (ac_uuids s).
Definition set_ac_status (v : SchedulerStatus) (s : SchedulerActor) : SchedulerActor :=
  mkActor (ac_config s) (ac_config_revision s) (ac_jobs s) (ac_timers s) (ac_retry_timers s)
    (ac_ready s) (ac_tasks s) (ac_running s) (ac_total_running s) (ac_event_sequence s)
    (ac_batch_sequence s) v (ac_shutdown_response s) (ac_events s) (ac_ticks s) (ac_uuids s).
Definition set_ac_shutdown_response (v : bool) (s : SchedulerActor) : SchedulerActor :=
  mkActor (ac_config s) (ac_config_revision s) (ac_jobs s) (ac_timers s) (ac_retry_timers s)
    (ac_ready s) (ac_tasks s) (ac_running s) (ac_total_running s) (ac_event_sequence s)
    (ac_batch_sequence s) (ac_status s) v (ac_events s) (ac_ticks s) (ac_uuids s).
Definition set_ac_events (v : list SchedulerEvent) (s : SchedulerActor) : SchedulerActor :=
  mkActor (ac_config s) (ac_config_revision s) (ac_jobs s) (ac_timers s) (ac_retry_timers s)
    (ac_ready s) (ac_tasks s) (ac_running s) (ac_total_running s) (ac_event_sequence s)
    (ac_batch_sequence s) (ac_status s) (ac_shutdown_response s) v (ac_ticks s) (ac_uuids s).
Definition set_ac_ticks (v : nat) (s : SchedulerActor) : SchedulerActor :=
  mkActor (ac_config s) (ac_config_revision s) (ac_jobs s) (ac_timers s) (ac_retry_timers s)
    (ac_ready s) (ac_tasks s) (ac_running s) (ac_total_running s) (ac_event_sequence s)
    (ac_batch_sequence s) (ac_status s) (ac_shutdown_response s) (ac_events s) v (ac_uuids s).
Definition set_ac_uuids (v : nat) (s : SchedulerActor) : SchedulerActor :=
  mkActor (ac_config s) (ac_config_revision s) (ac_jobs s) (ac_timers s) (ac_retry_timers s)
    (ac_ready s) (ac_tasks s) (ac_running s) (ac_total_running s) (ac_event_sequence s)
    (ac_batch_sequence s) (ac_status s) (ac_shutdown_response s) (ac_events s) (ac_ticks s) v.

(** [SchedulerActor::new]. *)
Definition new_actor (config : SchedulerConfig) : SchedulerActor :=
  mkActor config 0 ∅ ∅ ∅ new_ready_queue [] ∅ 0 0 0 StatusRunning false [] 0 0.
