(* ===== verification/Engine.v ===== *)
(** * Operations of the scheduler actor

    Every method of [SchedulerActor] in
    [crates/smalux-agent/src/scheduler/runtime/engine.rs] and its submodules
    [timers.rs], [scheduling.rs], [execution.rs] and [management.rs], as a
    stateful function on the record of [Actor.v].  A panic (an indexing or
    [expect] that fails, [DateTime] addition out of range, [DelayQueue] refusing
    a deadline or a key) is [None]; a [Result] error is a value, and the state
    keeps what was written before it.  Log statements are left out. *)

From stdpp Require Import base gmap strings list pretty.
From S2P Require Import Prelude SchedModel Timing ReadyQueue Actor.

Abbreviation M := (ST SchedulerActor) (only parsing).
Abbreviation MR A := (ST SchedulerActor (result SchedulerError A)) (only parsing).

(** ** Environment calls and small accessors *)

Section Basics.
Context `{C : Chrono} `{H : HashOrder} `{R : Runtime}.

(** [Utc::now] and [Instant::now]. *)
Definition utc_now : M DateTime := λ s,
  Some (utc_clock (ac_ticks s), set_ac_ticks (S (ac_ticks s)) s).

Definition mono_now : M Instant := λ s,
  Some (mono_clock (ac_ticks s), set_ac_ticks (S (ac_ticks s)) s).

(** [Uuid::new_v4]. *)
Definition draw_uuid : M Uuid := λ s,
  Some (new_v4 (ac_uuids s), set_ac_uuids (S (ac_uuids s)) s).

(** [self.jobs.get], [self.jobs.get_mut] followed by a change, [self.jobs[..]]. *)
Definition get_job (job_id : JobId) : M (option JobEntry) := st_gets (λ s, ac_jobs s !! job_id).

Definition modify_job (job_id : JobId) (f : JobEntry → JobEntry) : M unit :=
  st_modify (λ s, set_ac_jobs (alter f job_id (ac_jobs s)) s).

Definition index_job (job_id : JobId) : M JobEntry :=
  j ← get_job job_id; st_expect j.

Definition modify_ready (f : ReadyQueue → ReadyQueue) : M unit :=
  st_modify (λ s, set_ac_ready (f (ac_ready s)) s).

(** [emit]. *)
Definition emit (kind : SchedulerEventKind) : M unit :=
  st_modify (λ s, set_ac_event_sequence (wrapping_add_u64 (ac_event_sequence s) 1) s) ;;
  now ← utc_now;
  st_modify (λ s,
    set_ac_events (mkSchedulerEvent (ac_event_sequence s) now kind :: ac_events s) s).

(** [DelayQueue::insert_at(entry, to_instant(run_at))]. *)
Definition timers_insert_at (entry : TimerEntry) (run_at : DateTime) : M Z :=
  utc ← utc_now;
  now ← mono_now;
  let deadline := to_instant instant_max utc now run_at in
  if delay_in_range now deadline then
    s ← st_get;
    let key := delay_key (dom (ac_timers s)) in
    st_modify (λ s, set_ac_timers (<[key := (entry, deadline)]> (ac_timers s)) s) ;;
    mret key
  else st_panic.

(** [DelayQueue::try_remove]. *)
Definition timers_try_remove (key : Z) : M unit :=
  st_modify (λ s, set_ac_timers (delete key (ac_timers s)) s).

(** [DelayQueue::reset_at(key, to_instant(run_at))]. *)
Definition timers_reset_at (key : Z) (run_at : DateTime) : M unit :=
  utc ← utc_now;
  now ← mono_now;
  let deadline := to_instant instant_max utc now run_at in
  s ← st_get;
  match ac_timers s !! key with
  | Some (entry, _) =>
      if delay_in_range now deadline
      then st_modify (λ s, set_ac_timers (<[key := (entry, deadline)]> (ac_timers s)) s)
      else st_panic
  | None => st_panic
  end.

End Basics.

(** ** [engine/timers.rs] *)

Section Timers.
Context `{C : Chrono} `{H : HashOrder} `{R : Runtime}.

(** [if let Some(key) = job.normal_timer_key.take() { timers.try_remove(&key) }]. *)
Definition take_normal_timer (job_id : JobId) (job : JobEntry) : M unit :=
  match job_normal_timer_key job with
  | Some key =>
      modify_job job_id (set_job_normal_timer_key None) ;;
      timers_try_remove key
  | None => mret tt
  end.

(** [schedule_normal]. *)
Definition schedule_normal (job_id : JobId) (run_at : DateTime) (kind : TimerKind) : M unit :=
  j ← get_job job_id;
  match j with
  | None => mret tt
  | Some job =>
      take_normal_timer job_id job ;;
      let version := job_version job in
      key ← timers_insert_at (mkTimerEntry job_id version run_at kind) run_at;
      modify_job job_id (λ j, set_job_next_run_at (Some run_at) (set_job_normal_timer_key (Some key) j)) ;;
      emit (TriggerScheduled job_id version run_at)
  end.

(** [schedule_retry]. *)
Definition schedule_retry (job_id : JobId) (version : Z) (run_id : RunId)
    (scheduled_at : DateTime) (attempt : Z) (run_at : DateTime) : M unit :=
  previous ← st_gets (λ s, ac_retry_timers s !! run_id);
  match previous with
  | Some previous =>
      st_modify (λ s, set_ac_retry_timers (delete run_id (ac_retry_timers s)) s) ;;
      timers_try_remove (rt_key previous)
  | None => mret tt
  end ;;
  key ← timers_insert_at
          (mkTimerEntry job_id version run_at (TimerRetry run_id scheduled_at attempt)) run_at;
  st_modify (λ s,
    set_ac_retry_timers (<[run_id := mkRetryTimer job_id key run_at]> (ac_retry_timers s)) s) ;;
  emit (RetryScheduled job_id version run_id attempt run_at).

(** [clear_retry_timers]. *)
Definition clear_retry_timers (job_id : JobId) : M unit :=
  s ← st_get;
  let run_ids := (filter (λ rt, rt_job_id rt.2 = job_id) (hash_iter (ac_retry_timers s))).*1 in
  st_for run_ids (λ run_id,
    timer ← st_gets (λ s, ac_retry_timers s !! run_id);
    match timer with
    | Some timer =>
        st_modify (λ s, set_ac_retry_timers (delete run_id (ac_retry_timers s)) s) ;;
        timers_try_remove (rt_key timer)
    | None => mret tt
    end).

(** [reanchor_timers]. *)
Definition reanchor_timers : M unit :=
  s ← st_get;
  st_for (hash_values (ac_jobs s)) (λ job,
    match job_normal_timer_key job, job_next_run_at job with
    | Some key, Some run_at => timers_reset_at key run_at
    | _, _ => mret tt
    end) ;;
  st_for (hash_values (ac_retry_timers s)) (λ timer,
    timers_reset_at (rt_key timer) (rt_run_at timer)).

End Timers.

(** ** [engine.rs]: disabling and cancelling *)

(** [Display] of [SchedulerError]. *)
Definition error_text `{R : Runtime} (e : SchedulerError) : string :=
  match e with
  | ErrClosed => "scheduler is closed"
  | ErrStopping => "scheduler is stopping"
  | JobNotFound id => "job `" +:+ fmt_uuid id +:+ "` was not found"
  | JobAlreadyExists id => "job `" +:+ fmt_uuid id +:+ "` already exists"
  | VersionConflict id expected actual =>
      "job `" +:+ fmt_uuid id +:+ "` version conflict: expected " +:+ pretty expected
        +:+ ", actual " +:+ pretty actual
  | ConfigRevisionConflict expected actual =>
      "scheduler config revision conflict: expected " +:+ pretty expected
        +:+ ", actual " +:+ pretty actual
  | MaximumJobsReached n => "maximum job count " +:+ pretty n +:+ " has been reached"
  | InvalidTrigger m => "invalid trigger: " +:+ m
  | InvalidRetry m => "invalid retry policy: " +:+ m
  | InvalidPriority v => "priority " +:+ pretty v +:+ " is outside 0..=10"
  | VersionOverflow id => "job `" +:+ fmt_uuid id +:+ "` version overflow"
  | ConfigRevisionOverflow => "scheduler config revision overflow"
  | ErrActor m => "scheduler actor failed: " +:+ m
  | ErrJoin m => "scheduler actor join failed: " +:+ m
  end.

Section Disable.
Context `{C : Chrono} `{H : HashOrder} `{R : Runtime}.

(** The effect of [cancel_job_version] on one running execution. *)
Definition cancel_if (job_id : JobId) (version : Z) (r : RunningExecution) : RunningExecution :=
  if bool_decide (run_job_id r = job_id) && bool_decide (run_version r = version)
  then mkRunning (run_job_id r) (run_version r) true else r.

(** [cancel_job_version]. *)
Definition cancel_job_version (job_id : JobId) (version : Z) : M unit :=
  st_modify (λ s, set_ac_running (cancel_if job_id version <$> ac_running s) s).

(** [force_disable]. *)
Definition force_disable (job_id : JobId) (reason : string) : MR unit :=
  j ← get_job job_id;
  match j with
  | None => mret (Err (JobNotFound job_id))
  | Some job =>
      let old_version := job_version job in
      match checked_add_u64 (job_version job) 1 with
      | None => mret (Err (VersionOverflow job_id))
      | Some version =>
          modify_job job_id (set_job_version version) ;;
          take_normal_timer job_id job ;;
          modify_job job_id (λ j,
            set_job_state (Disabled reason) (set_job_blocked [] (set_job_next_run_at None j))) ;;
          now ← utc_now;
          modify_job job_id (set_job_updated_at now) ;;
          clear_retry_timers job_id ;;
          modify_ready (λ q, (remove_job q job_id).2) ;;
          cancel_job_version job_id old_version ;;
          emit (JobDisabled job_id version reason) ;;
          mret (Ok tt)
      end
  end.

End Disable.

(** ** [engine/scheduling.rs] *)

(** [Admission]. *)
Inductive Admission : Type := Accepted | Skipped | Blocked.

Global Instance Admission_eq_dec : EqDecision Admission.
Proof. solve_decision. Defined.

Section Scheduling.
Context `{C : Chrono} `{H : HashOrder} `{R : Runtime}.

(** [block]. *)
Definition block (pending : PendingExecution) : M unit :=
  modify_job (pe_job_id pending) (λ j, set_job_blocked (job_blocked j ++ [pending]) j) ;;
  emit (BackpressureApplied (pe_job_id pending) (pe_version pending)).

(** The [KeepLatest] part of [admit]. *)
Definition coalesce_latest (pending : PendingExecution) : M unit :=
  let job_id := pe_job_id pending in
  s ← st_get;
  let '(removed, ready) := remove_normal_triggers (ac_ready s) job_id in
  modify_ready (λ _, ready) ;;
  j ← get_job job_id;
  removed_blocked ←
    match j with
    | Some job =>
        let gone := filter (λ p, is_replaceable_trigger (pe_kind p) = true) (job_blocked job) in
        let kept := filter (λ p, is_replaceable_trigger (pe_kind p) ≠ true) (job_blocked job) in
        modify_job job_id (set_job_blocked kept) ;;
        mret (pe_run_id <$> gone)
    | None => mret []
    end;
  st_for ((pe_run_id <$> removed) ++ removed_blocked) (λ removed_run_id,
    emit (PendingReplaced job_id removed_run_id (pe_run_id pending))).

(** The end of [admit]: the execution enters the queue. *)
Definition admit_insert (pending : PendingExecution) : M Admission :=
  let job_id := pe_job_id pending in
  modify_ready (λ q, rq_insert q pending) ;;
  pending_count ← st_gets (λ s, count_job (ac_ready s) job_id);
  emit (ExecutionQueued job_id (pe_version pending) (pe_run_id pending) pending_count) ;;
  mret Accepted.

(** [admit]. *)
Definition admit_execution (pending : PendingExecution) (force_backpressure : bool) : M Admission :=
  let job_id := pe_job_id pending in
  j ← get_job job_id;
  match j with
  | None => mret Skipped
  | Some job =>
      let version := pe_version pending in
      let replaceable := is_replaceable_trigger (pe_kind pending) in
      let capacity := if force_backpressure || negb replaceable then Backpressure
                      else job_capacity job in
      s ← st_get;
      let job_limit := default (default_job_max_pending (ac_config s)) (job_max_pending job) in
      (if bool_decide (job_coalescing job = KeepLatest) && replaceable
       then coalesce_latest pending else mret tt) ;;
      s ← st_get;
      let global_full := bool_decide (global_max_pending (ac_config s) ≤ rq_len (ac_ready s)) in
      let job_full := bool_decide (job_limit ≤ count_job (ac_ready s) job_id) in
      if global_full || job_full then
        match capacity with
        | SkipNewest =>
            emit (TriggerSkipped job_id version (pe_scheduled_at pending)
                    "pending capacity reached") ;;
            mret Skipped
        | ReplaceOldestTrigger =>
            match remove_oldest_trigger (ac_ready s) job_id with
            | (Some old, ready) =>
                modify_ready (λ _, ready) ;;
                emit (PendingReplaced job_id (pe_run_id old) (pe_run_id pending)) ;;
                admit_insert pending
            | (None, ready) =>
                modify_ready (λ _, ready) ;;
                block pending ;;
                mret Blocked
            end
        | Backpressure =>
            block pending ;;
            mret Blocked
        end
      else admit_insert pending
  end.

(** The [for] loop of [handle_normal_trigger]; the value is [blocked]. *)
Fixpoint admit_occurrences (job_id : JobId) (version : Z) (kind : PendingKind) (priority : JobPriority)
    (batch_id : Z) (once : bool) (occurrences : list DateTime) (blocked : bool) : M bool :=
  match occurrences with
  | [] => mret blocked
  | occurrence :: occurrences =>
      run_id ← draw_uuid;
      a ← admit_execution (mkPending job_id version run_id 1 occurrence kind priority batch_id) once;
      admit_occurrences job_id version kind priority batch_id once occurrences
        (blocked || bool_decide (a = Blocked))
  end.

(** [handle_normal_trigger] after the due batch is known. *)
Definition run_due_batch (job_id : JobId) (job : JobEntry) (scheduled_at : DateTime) (batch_id : Z)
    (run_now : bool) (due : DueSchedule) : M unit :=
  let once := is_once (schedule (job_trigger job)) in
  let version := job_version job in
  (if bool_decide (due_list due = [])
   then emit (TriggerSkipped job_id version scheduled_at
                "misfire policy skipped expired occurrences")
   else mret tt) ;;
  let kind := if once then PendingOnce else if run_now then PendingRunNow else PendingNormal in
  blocked ← admit_occurrences job_id version kind (job_priority job) batch_id once
              (due_list due) false;
  match due_next due with
  | Some next => if (blocked : bool) then mret tt else schedule_normal job_id next TimerNormal
  | None => mret tt
  end.

(** [handle_normal_trigger]. *)
Definition handle_normal_trigger (job_id : JobId) (scheduled_at : DateTime) (batch_id : Z)
    (run_now : bool) : M unit :=
  now ← utc_now;
  j ← get_job job_id;
  match j with
  | None => mret tt
  | Some job =>
      if run_now then
        let next := mjoin (to_option (next_after (schedule (job_trigger job)) now)) in
        run_due_batch job_id job scheduled_at batch_id true (mkDueSchedule [now] next)
      else
        s ← st_get;
        match due_occurrences (job_trigger job) scheduled_at now
                (maximum_catch_up (ac_config s)) with
        | Ok due => run_due_batch job_id job scheduled_at batch_id false due
        | Err error => _ ← force_disable job_id (error_text error); mret tt
        end
  end.

(** [handle_timer]. *)
Definition handle_timer (entry : TimerEntry) (batch_id : Z) : M unit :=
  let job_id := te_job_id entry in
  j ← get_job job_id;
  match j with
  | None => mret tt
  | Some job =>
      if bool_decide (job_version job ≠ te_version entry) || bool_decide (job_state job ≠ Enabled)
      then mret tt
      else
        match te_kind entry with
        | TimerRetry run_id scheduled_at attempt =>
            st_modify (λ s, set_ac_retry_timers (delete run_id (ac_retry_timers s)) s) ;;
            _ ← admit_execution (mkPending job_id (te_version entry) run_id attempt scheduled_at PendingRetry
                         (job_priority job) batch_id) true;
            mret tt
        | TimerNormal =>
            modify_job job_id (λ j, set_job_next_run_at None (set_job_normal_timer_key None j)) ;;
            handle_normal_trigger job_id (te_run_at entry) batch_id false
        | TimerRunNow =>
            modify_job job_id (λ j, set_job_next_run_at None (set_job_normal_timer_key None j)) ;;
            handle_normal_trigger job_id (te_run_at entry) batch_id true
        end
  end.

(** The [while] loop of [handle_expired_batch]: [expired] are the keys the
    [DelayQueue] yields without waiting, in its order. *)
Fixpoint collect_expired (expired : list Z) (room : nat) (entries : list TimerEntry) :
    M (list TimerEntry) :=
  match room, expired with
  | S room, key :: expired =>
      e ← st_gets (λ s, ac_timers s !! key);
      match e with
      | Some (entry, _) =>
          timers_try_remove key ;;
          collect_expired expired room (entries ++ [entry])
      | None => mret entries
      end
  | _, _ => mret entries
  end.

(** [handle_expired_batch]. *)
Definition handle_expired_batch (first : TimerEntry) (expired : list Z) : M unit :=
  st_modify (λ s, set_ac_batch_sequence (wrapping_add_u64 (ac_batch_sequence s) 1) s) ;;
  s ← st_get;
  let batch_id := ac_batch_sequence s in
  entries ← collect_expired expired (Pos.to_nat (due_batch_size (ac_config s)) - 1) [first];
  st_for entries (λ entry, handle_timer entry batch_id).

(** One turn of the [while] loop of [restore_blocked]: the record taken from the
    job's [blocked] queue, if any. *)
Definition pop_blocked (job_id : JobId) : M (option PendingExecution) :=
  j ← get_job job_id;
  match j with
  | Some job =>
      match job_blocked job with
      | p :: rest => modify_job job_id (set_job_blocked rest) ;; mret (Some p)
      | [] => mret None
      end
  | None => mret None
  end.

(** The [while] loop of [restore_blocked]; every turn shortens [blocked], so its
    length is enough fuel.  The value is [resume_from]. *)
Fixpoint restore_loop (job_id : JobId) (job_limit : Z) (fuel : nat) (resume_from : option DateTime) :
    M (option DateTime) :=
  match fuel with
  | O => mret resume_from
  | S fuel =>
      s ← st_get;
      if bool_decide (rq_len (ac_ready s) < global_max_pending (ac_config s))
         && bool_decide (count_job (ac_ready s) job_id < job_limit)
      then
        p ← pop_blocked job_id;
        match p with
        | None => mret resume_from
        | Some pending =>
            job ← index_job job_id;
            if bool_decide (job_version job = pe_version pending) then
              let resume_from :=
                if bool_decide (pe_kind pending = PendingNormal)
                   || bool_decide (pe_kind pending = PendingRunNow)
                then Some (pe_scheduled_at pending) else resume_from in
              modify_ready (λ q, rq_insert q pending) ;;
              n ← st_gets (λ s, count_job (ac_ready s) job_id);
              emit (ExecutionQueued job_id (pe_version pending) (pe_run_id pending) n) ;;
              restore_loop job_id job_limit fuel resume_from
            else restore_loop job_id job_limit fuel resume_from
        end
      else mret resume_from
  end.

(** The body of the [for] loop of [restore_blocked]. *)
Definition restore_job (job_id : JobId) : M unit :=
  s ← st_get;
  job ← index_job job_id;
  let job_limit := default (default_job_max_pending (ac_config s)) (job_max_pending job) in
  resume_from ← restore_loop job_id job_limit (length (job_blocked job)) None;
  job ← index_job job_id;
  if bool_decide (job_blocked job = []) && bool_decide (job_next_run_at job = None)
     && bool_decide (job_state job = Enabled) && negb (is_once (schedule (job_trigger job)))
  then
    match resume_from with
    | Some resume_from =>
        match next_after (schedule (job_trigger job)) resume_from with
        | Ok (Some next) => schedule_normal job_id next TimerNormal
        | _ => mret tt
        end
    | None => mret tt
    end
  else mret tt.

(** [restore_blocked]. *)
Definition restore_blocked : M unit :=
  s ← st_get;
  if bool_decide (global_max_pending (ac_config s) ≤ rq_len (ac_ready s)) then mret tt
  else st_for (hash_keys (ac_jobs s)) restore_job.

End Scheduling.

(** ** [engine/execution.rs] *)

(** [duration_ms]. *)
Definition duration_ms (d : Duration) : Z := Z.min u64_max (d `div` 1000000).

Section Execution.
Context `{C : Chrono} `{H : HashOrder} `{R : Runtime}.

(** The closure [dispatch_ready] passes to [pop_dispatchable]. *)
Definition can_dispatch (s : SchedulerActor) (pending : PendingExecution) : bool :=
  match ac_jobs s !! pe_job_id pending with
  | Some job =>
      bool_decide (job_version job = pe_version pending)
      && bool_decide (job_state job = Enabled)
      && bool_decide (job_running_count job
           < Z.pos (default (default_job_concurrency (ac_config s)) (job_concurrency job)))
  | None => false
  end.

(** [spawn_execution]. *)
Definition spawn_execution (pending : PendingExecution) : M unit :=
  let job_id := pe_job_id pending in
  j ← get_job job_id;
  match j with
  | None => mret tt
  | Some job =>
      if bool_decide (job_version job ≠ pe_version pending) then mret tt
      else
        started_at ← utc_now;
        modify_job job_id (λ j,
          set_job_last_fired_at (Some (pe_scheduled_at pending))
            (set_job_last_started_at (Some started_at)
              (set_job_running_count (job_running_count j + 1) j))) ;;
        st_modify (λ s, set_ac_total_running (ac_total_running s + 1) s) ;;
        st_modify (λ s,
          set_ac_running
            (<[pe_run_id pending := mkRunning job_id (pe_version pending) false]> (ac_running s)) s) ;;
        emit (ExecutionStarted job_id (pe_version pending) (pe_run_id pending)
                (pe_attempt pending) (pe_scheduled_at pending)) ;;
        st_modify (λ s,
          set_ac_tasks
            (mkInFlight
               (mkMetadata job_id (pe_version pending) (pe_run_id pending) (pe_attempt pending)
                  (pe_scheduled_at pending))
               started_at (timeout (job_trigger job)) (job_cancellation_mode job)
             :: ac_tasks s) s)
  end.

(** The outcomes the wrapped future of [spawn_execution] can end with: a timeout
    only when one is configured, a cancellation only when the task cooperates and
    its token has been cancelled. *)
Definition outcome_possible (f : InFlight) (cancelled : bool) (o : CompletionOutcome) : Prop :=
  match o with
  | Finished _ | Panicked _ => True
  | TimedOut => is_Some (fl_timeout f)
  | Cancelled => fl_cancellation_mode f = Cooperative ∧ cancelled = true
  end.

(** The [while] loop of [dispatch_ready]; every turn takes an execution out of the
    queue, so their number is enough fuel. *)
Fixpoint dispatch_loop (fuel : nat) : M unit :=
  match fuel with
  | O => mret tt
  | S fuel =>
      s ← st_get;
      if bool_decide (ac_total_running s < Z.pos (global_concurrency (ac_config s)))
         && negb (rq_is_empty (ac_ready s))
      then
        match pop_dispatchable (can_dispatch s) (ac_ready s) with
        | (Some pending, ready) =>
            modify_ready (λ _, ready) ;;
            spawn_execution pending ;;
            dispatch_loop fuel
        | (None, ready) => modify_ready (λ _, ready)
        end
      else mret tt
  end.

(** [dispatch_ready]. *)
Definition dispatch_ready : M unit :=
  s ← st_get; dispatch_loop (size (rq_pending (ac_ready s))).

(** The part of [release_execution_resources] that updates the job. *)
Definition release_job (job_id : JobId) : M unit :=
  j ← get_job job_id;
  match j with
  | Some _ =>
      modify_job job_id (λ j, set_job_running_count (saturating_sub (job_running_count j) 1) j) ;;
      now ← utc_now;
      modify_job job_id (set_job_last_finished_at (Some now))
  | None => mret tt
  end.

(** [release_execution_resources]; the value says whether the version is still current. *)
Definition release_execution_resources (completion : TaskCompletion) : M bool :=
  st_modify (λ s, set_ac_running (delete (tc_run_id completion) (ac_running s)) s) ;;
  st_modify (λ s, set_ac_total_running (saturating_sub (ac_total_running s) 1) s) ;;
  release_job (tc_job_id completion) ;;
  j ← get_job (tc_job_id completion);
  mret (match j with
        | Some job => bool_decide (job_version job = tc_version completion)
        | None => false
        end).

(** [record_execution_success]. *)
Definition record_execution_success (execution : ExecutionMetadata) (elapsed : Duration)
    (output_delivered : bool) : M unit :=
  modify_job (md_job_id execution) (λ j,
    let j := set_job_last_outcome (Some "success") (set_job_consecutive_failures 0 j) in
    if is_once (schedule (job_trigger j)) then set_job_state Completed j else j) ;;
  emit (ExecutionSucceeded (md_job_id execution) (md_version execution) (md_run_id execution)
          (md_attempt execution) (duration_ms elapsed)) ;;
  if output_delivered
  then emit (OutputDeliveredEvent (md_job_id execution) (md_version execution) (md_run_id execution))
  else mret tt.

(** [record_final_failure]. *)
Definition record_final_failure (job_id : JobId) (error : string) (count : bool) : M unit :=
  modify_job job_id (λ j,
    let j := set_job_last_outcome (Some error) j in
    if count
    then set_job_consecutive_failures (saturating_add u32_max (job_consecutive_failures j) 1) j
    else j) ;;
  j ← get_job job_id;
  match j with
  | None => mret tt
  | Some job =>
      let disable :=
        match disable_after_consecutive_failures (job_failure job) with
        | Some limit => bool_decide (Z.pos limit ≤ job_consecutive_failures job)
        | None => false
        end in
      if disable then _ ← force_disable job_id error; mret tt
      else if is_once (schedule (job_trigger job)) then
        modify_job job_id (set_job_state Completed) ;;
        now ← utc_now;
        modify_job job_id (set_job_updated_at now)
      else mret tt
  end.

(** [record_callback_failure]. *)
Definition record_callback_failure (execution : ExecutionMetadata) (error : string)
    (permanent : bool) : M unit :=
  emit (CallbackFailed (md_job_id execution) (md_version execution) (md_run_id execution) error) ;;
  if permanent then _ ← force_disable (md_job_id execution) error; mret tt
  else record_final_failure (md_job_id execution) error false.

(** [retry_delay]. *)
Definition class_retried (retry_on : RetryCondition) (class : FailureClass) : bool :=
  match class with
  | ClassTransient => retry_transient_error retry_on
  | ClassTimeout => retry_timeout retry_on
  | ClassPanic => retry_panic retry_on
  | ClassPermanent => false
  end.

Definition retry_delay (j : option JobEntry) (attempt : Z) (class : FailureClass) :
    option Duration :=
  match j with
  | None => None
  | Some job =>
      match job_retry job with
      | RetryNone => None
      | Exponential max_attempts initial_delay max_delay retry_on =>
          if bool_decide (Z.pos max_attempts ≤ attempt) then None
          else if negb (class_retried retry_on class) then None
          else
            let exponent := Z.min (saturating_sub attempt 1) 31 in
            Some (Z.min (saturating_mul duration_max initial_delay (Z.shiftl 1 exponent)) max_delay)
      end
  end.

(** [DateTime + TimeDelta], which panics when the sum is out of range. *)
Definition datetime_add (t : DateTime) (d : Z) : M DateTime := st_expect (checked_add_signed t d).

(** [handle_execution_failure]. *)
Definition handle_execution_failure (execution : ExecutionMetadata) (error : string)
    (class : FailureClass) : M unit :=
  let job_id := md_job_id execution in
  let version := md_version execution in
  let run_id := md_run_id execution in
  let attempt := md_attempt execution in
  if bool_decide (class = ClassPermanent) then
    emit (ExecutionFailed job_id version run_id attempt error false) ;;
    _ ← force_disable job_id error; mret tt
  else
    j ← get_job job_id;
    let retry := retry_delay j attempt class in
    emit (ExecutionFailed job_id version run_id attempt error (bool_decide (is_Some retry))) ;;
    match retry with
    | Some delay =>
        now ← utc_now;
        run_at ← datetime_add now
                   (match timedelta_from_std delay with Ok d => d | Err _ => timedelta_max end);
        schedule_retry job_id version run_id (md_scheduled_at execution) (attempt + 1) run_at
    | None =>
        count ←
          match class with
          | ClassTimeout => job ← index_job job_id; mret (count_timeout (job_failure job))
          | ClassPanic => job ← index_job job_id; mret (count_panic (job_failure job))
          | _ => mret true
          end;
        record_final_failure job_id error count
    end.

(** [handle_execution_timeout] and [handle_execution_panic]. *)
Definition handle_execution_timeout (execution : ExecutionMetadata) : M unit :=
  emit (ExecutionTimedOut (md_job_id execution) (md_version execution) (md_run_id execution)
          (md_attempt execution)) ;;
  handle_execution_failure execution "task execution timed out" ClassTimeout.

Definition handle_execution_panic (execution : ExecutionMetadata) (message : string) : M unit :=
  emit (ExecutionPanicked (md_job_id execution) (md_version execution) (md_run_id execution)
          (md_attempt execution) message) ;;
  handle_execution_failure execution message ClassPanic.

(** [record_execution_cancelled]. *)
Definition record_execution_cancelled (execution : ExecutionMetadata) : M unit :=
  emit (ExecutionCancelled (md_job_id execution) (md_version execution) (md_run_id execution)).

End Execution.

(** ** [engine/management.rs] *)

(** [apply_patch_value]. *)
Definition apply_patch_value {T} (target : option T) (patch : PatchValue T) : option T :=
  match patch with
  | Keep => target
  | Set_ value => Some value
  | Inherit => None
  end.

(** [apply_config_patch]. *)
Definition apply_config_patch (config : SchedulerConfig) (patch : SchedulerConfigPatch) :
    SchedulerConfig :=
  mkSchedulerConfig
    (default (global_concurrency config) (cp_global_concurrency patch))
    (default (default_job_concurrency config) (cp_default_job_concurrency patch))
    (default (global_max_pending config) (cp_global_max_pending patch))
    (default (default_job_max_pending config) (cp_default_job_max_pending patch))
    (default (due_batch_size config) (cp_due_batch_size patch))
    (default (max_jobs config) (cp_max_jobs patch))
    (event_channel_capacity config)
    (command_channel_capacity config)
    (default (shutdown_timeout config) (cp_shutdown_timeout patch))
    (default (minimum_interval config) (cp_minimum_interval patch))
    (default (minimum_retry_delay config) (cp_minimum_retry_delay patch))
    (default (maximum_catch_up config) (cp_maximum_catch_up patch))
    (default (maximum_retry_attempts config) (cp_maximum_retry_attempts patch)).

(** [job_options_from_entry]. *)
Definition job_options_from_entry (job : JobEntry) : JobOptions :=
  mkJobOptions (job_concurrency job) (job_max_pending job) (job_priority job)
    (Some (job_coalescing job)) (Some (job_capacity job)) (job_retry job) (job_failure job).

(** [patched_job_options]. *)
Definition patched_job_options (job : JobEntry) (patch : JobPatch) : JobOptions :=
  mkJobOptions
    (apply_patch_value (job_concurrency job) (patch_concurrency patch))
    (apply_patch_value (job_max_pending job) (patch_max_pending patch))
    (default (job_priority job) (patch_priority patch))
    (Some (default (job_coalescing job) (patch_coalescing patch)))
    (Some (default (job_capacity job) (patch_capacity patch)))
    (default (job_retry job) (patch_retry patch))
    (default (job_failure job) (patch_failure patch)).

(** [validate_task_cancellation_mode]. *)
Definition validate_task_cancellation_mode (trigger : Trigger) (mode : TaskCancellationMode) :
    result SchedulerError unit :=
  if bool_decide (mode = NonCancellable) && bool_decide (is_Some (timeout trigger)) then
    Err (InvalidTrigger "a wait-for-completion task cannot use scheduler timeout")
  else Ok tt.

(** [JobUpdatePlan]. *)
Record JobUpdatePlan : Type := mkUpdatePlan {
  up_next_version : Z;
  up_next_run_at : option DateTime;
  up_reschedule : RescheduleMode;
  up_trigger_changed : bool;
  up_task_changed : bool;
}.

Section Management.
Context `{C : Chrono} `{H : HashOrder} `{R : Runtime}.

(** [check_version]. *)
Definition check_version (job_id : JobId) (expected : Z) : MR unit :=
  j ← get_job job_id;
  mret (match j with
        | None => Err (JobNotFound job_id)
        | Some job =>
            if bool_decide (job_version job = expected) then Ok tt
            else Err (VersionConflict job_id expected (job_version job))
        end).

(** [snapshot]. *)
Definition snapshot (s : SchedulerActor) (job : JobEntry) : JobSnapshot :=
  mkJobSnapshot (job_id job) (job_version job) (job_task job) (job_state job) (job_trigger job)
    (job_priority job)
    (Z.pos (default (default_job_concurrency (ac_config s)) (job_concurrency job)))
    (default (default_job_max_pending (ac_config s)) (job_max_pending job))
    (job_running_count job)
    (count_job (ac_ready s) (job_id job) + zlen (job_blocked job))
    (job_consecutive_failures job) (job_next_run_at job) (job_last_started_at job)
    (job_last_finished_at job) (job_last_outcome job) (job_created_at job) (job_updated_at job).

(** [self.snapshot(&self.jobs[&job_id])]. *)
Definition snapshot_of (job_id : JobId) : M JobSnapshot :=
  job ← index_job job_id; st_gets (λ s, snapshot s job).

(** The [next_run_at] of [plan_job_update]. *)
Definition plan_next_run_at (job : JobEntry) (trigger : Trigger) (reschedule : RescheduleMode)
    (now : DateTime) : result SchedulerError (option DateTime) :=
  match reschedule with
  | Preserve =>
      match job_next_run_at job with
      | Some next => Ok (Some next)
      | None =>
          if bool_decide (job_state job = Enabled) then Some <$> first_run_at trigger now
          else Ok None
      end
  | Recalculate => Some <$> first_run_at trigger now
  | RunNowMode => Ok (Some now)
  end.

(** [plan_job_update]. *)
Definition plan_job_update (job_id : JobId) (expected_version : Z) (patch : JobPatch) :
    MR JobUpdatePlan :=
  s ← st_get;
  match ac_jobs s !! job_id with
  | None => mret (Err (JobNotFound job_id))
  | Some job =>
      if bool_decide (job_version job ≠ expected_version) then
        mret (Err (VersionConflict job_id expected_version (job_version job)))
      else
        let trigger := default (job_trigger job) (patch_trigger patch) in
        let mode := default (job_cancellation_mode job) (cancellation_mode <$> patch_task patch) in
        let options := patched_job_options job patch in
        _ ?← mret (validate_trigger trigger options (ac_config s));
        _ ?← mret (validate_task_cancellation_mode trigger mode);
        next_version ?← mret (ok_or (VersionOverflow job_id) (checked_add_u64 (job_version job) 1));
        let trigger_changed := bool_decide (is_Some (patch_trigger patch)) in
        let task_changed := bool_decide (is_Some (patch_task patch)) in
        let reschedule :=
          if trigger_changed && bool_decide (patch_reschedule patch = Preserve)
          then Recalculate else patch_reschedule patch in
        now ← utc_now;
        next_run_at ?← mret (plan_next_run_at job trigger reschedule now);
        mret (Ok (mkUpdatePlan next_version next_run_at reschedule trigger_changed task_changed))
  end.

(** The fields [update_job] writes into the job it took out of the map. *)
Definition patch_job (patch : JobPatch) (next_version : Z) (job : JobEntry) : JobEntry :=
  let job := set_job_trigger (default (job_trigger job) (patch_trigger patch)) job in
  let job := set_job_task (default (job_task job) (task_kind <$> patch_task patch)) job in
  let job := set_job_cancellation_mode
               (default (job_cancellation_mode job) (cancellation_mode <$> patch_task patch)) job in
  let job := set_job_concurrency
               (apply_patch_value (job_concurrency job) (patch_concurrency patch)) job in
  let job := set_job_max_pending
               (apply_patch_value (job_max_pending job) (patch_max_pending patch)) job in
  let job := set_job_priority (default (job_priority job) (patch_priority patch)) job in
  let job := set_job_coalescing (default (job_coalescing job) (patch_coalescing patch)) job in
  let job := set_job_capacity (default (job_capacity job) (patch_capacity patch)) job in
  let job := set_job_retry (default (job_retry job) (patch_retry patch)) job in
  let job := set_job_failure (default (job_failure job) (patch_failure patch)) job in
  set_job_version next_version job.

(** What [update_job] does with the executions that wait: dropped when the trigger
    or the task changed, moved to the new version otherwise. *)
Definition migrate_pending (job_id : JobId) (changed : bool) (job : JobEntry) : M JobEntry :=
  if changed then
    modify_ready (λ q, (remove_job q job_id).2) ;;
    mret (set_job_consecutive_failures 0 (set_job_blocked [] job))
  else
    modify_ready (λ q, migrate_job q job_id (job_version job) (job_priority job)) ;;
    (if bool_decide (job_coalescing job = KeepLatest)
     then modify_ready (λ q, (remove_normal_triggers q job_id).2) else mret tt) ;;
    mret (set_job_blocked
            (set_pe_version_priority (job_version job) (job_priority job) <$> job_blocked job) job).

(** [update_job] once the plan is accepted. *)
Definition apply_job_update (job_id : JobId) (expected_version : Z) (patch : JobPatch)
    (plan : JobUpdatePlan) : M JobSnapshot :=
  j ← get_job job_id;
  job ← st_expect j;
  st_modify (λ s, set_ac_jobs (delete job_id (ac_jobs s)) s) ;;
  let job := patch_job patch (up_next_version plan) job in
  now ← utc_now;
  let job := set_job_updated_at now job in
  match job_normal_timer_key job with
  | Some key => timers_try_remove key
  | None => mret tt
  end ;;
  let job := set_job_normal_timer_key None job in
  clear_retry_timers job_id ;;
  let job := set_job_next_run_at None job in
  let changed := up_trigger_changed plan || up_task_changed plan in
  job ← migrate_pending job_id changed job;
  let kind := if bool_decide (up_reschedule plan = RunNowMode) then TimerRunNow else TimerNormal in
  let version := job_version job in
  let should_schedule := bool_decide (job_state job = Enabled) in
  st_modify (λ s, set_ac_jobs (<[job_id := job]> (ac_jobs s)) s) ;;
  match up_next_run_at plan with
  | Some next => if should_schedule then schedule_normal job_id next kind else mret tt
  | None => mret tt
  end ;;
  (if changed then cancel_job_version job_id expected_version else mret tt) ;;
  emit (JobUpdated job_id version) ;;
  snapshot_of job_id.

(** [update_job]. *)
Definition update_job (job_id : JobId) (expected_version : Z) (patch : JobPatch) :
    MR JobSnapshot :=
  plan ?← plan_job_update job_id expected_version patch;
  snap ← apply_job_update job_id expected_version patch plan;
  mret (Ok snap).

(** [enable_job]. *)
Definition enable_job (job_id : JobId) (expected_version : Z) : MR JobSnapshot :=
  _ ?← check_version job_id expected_version;
  job ← index_job job_id;
  if bool_decide (job_state job = Enabled) then snap ← snapshot_of job_id; mret (Ok snap)
  else
    modify_ready (λ q, (remove_job q job_id).2) ;;
    clear_retry_timers job_id ;;
    now ← utc_now;
    job ← index_job job_id;
    next ?← mret (first_run_at (job_trigger job) now);
    next_version ?← mret (ok_or (VersionOverflow job_id) (checked_add_u64 (job_version job) 1));
    modify_job job_id (λ j,
      set_job_updated_at now
        (set_job_consecutive_failures 0 (set_job_state Enabled (set_job_version next_version j)))) ;;
    schedule_normal job_id next TimerNormal ;;
    job ← index_job job_id;
    emit (JobEnabled job_id (job_version job)) ;;
    snap ← snapshot_of job_id;
    mret (Ok snap).

(** [disable_job]. *)
Definition disable_job (job_id : JobId) (expected_version : Z) (reason : string) :
    MR JobSnapshot :=
  _ ?← check_version job_id expected_version;
  _ ?← force_disable job_id reason;
  snap ← snapshot_of job_id;
  mret (Ok snap).

(** [delete_job]. *)
Definition delete_job (job_id : JobId) (expected_version : Z) (cancel_running : bool) : MR unit :=
  _ ?← check_version job_id expected_version;
  job ← index_job job_id;
  st_modify (λ s, set_ac_jobs (delete job_id (ac_jobs s)) s) ;;
  match job_normal_timer_key job with
  | Some key => timers_try_remove key
  | None => mret tt
  end ;;
  clear_retry_timers job_id ;;
  modify_ready (λ q, (remove_job q job_id).2) ;;
  (if cancel_running then cancel_job_version job_id expected_version else mret tt) ;;
  emit (JobDeleted job_id expected_version) ;;
  mret (Ok tt).

(** The [loop] that draws a [JobId] in [add_job]; [None] on lack of fuel. *)
Fixpoint draw_job_id (fuel : nat) : M JobId :=
  match fuel with
  | O => st_panic
  | S fuel =>
      id ← draw_uuid;
      j ← get_job id;
      match j with
      | None => mret id
      | Some _ => draw_job_id fuel
      end
  end.

(** The id of a new job in [add_job]: the one requested if it is free, or a drawn one. *)
Definition choose_job_id (requested_id : option JobId) : MR JobId :=
  match requested_id with
  | Some id =>
      j ← get_job id;
      mret (match j with Some _ => Err (JobAlreadyExists id) | None => Ok id end)
  | None =>
      s ← st_get;
      id ← draw_job_id (S (size (ac_jobs s)));
      mret (Ok id)
  end.

(** The [JobEntry] of a new job. *)
Definition new_job_entry (id : JobId) (generation : Z) (enabled : bool) (trigger : Trigger)
    (task : TaskBinding) (options : JobOptions) (now : DateTime) : JobEntry :=
  let '(coalescing, capacity) := effective_queue_policies trigger options in
  mkJobEntry id generation (task_kind task) (cancellation_mode task) trigger
    (opt_concurrency options) (opt_max_pending options) (opt_priority options)
    coalescing capacity (opt_retry options) (opt_failure options)
    (if enabled then Enabled else Disabled "installed disabled")
    None None [] 0 0 None None None None now now.

(** [add_job]. *)
Definition add_job (requested_id : option JobId) (generation : Z) (enabled : bool)
    (trigger : Trigger) (task : TaskBinding) (options : JobOptions) : MR JobId :=
  s ← st_get;
  if bool_decide (max_jobs (ac_config s) ≤ zsize (ac_jobs s)) then
    mret (Err (MaximumJobsReached (max_jobs (ac_config s))))
  else
    _ ?← mret (validate_trigger trigger options (ac_config s));
    _ ?← mret (validate_task_cancellation_mode trigger (cancellation_mode task));
    now ← utc_now;
    id ?← choose_job_id requested_id;
    next_run ?← mret (first_run_at trigger now);
    st_modify (λ s,
      set_ac_jobs
        (<[id := new_job_entry id generation enabled trigger task options now]> (ac_jobs s)) s) ;;
    (if enabled then schedule_normal id next_run TimerNormal else mret tt) ;;
    emit (JobAdded id generation) ;;
    mret (Ok id).

(** [disable_jobs_violating_limits]. *)
Definition violates_limits (config : SchedulerConfig) (job : JobEntry) : bool :=
  is_err (validate_trigger (job_trigger job) (job_options_from_entry job) config)
  || is_err (validate_task_cancellation_mode (job_trigger job) (job_cancellation_mode job)).

Definition disable_jobs_violating_limits : M unit :=
  s ← st_get;
  let invalid :=
    (filter (λ ij, violates_limits (ac_config s) ij.2 = true) (hash_iter (ac_jobs s))).*1 in
  st_for invalid (λ id,
    _ ← force_disable id "scheduler safety limits changed"; mret tt).

(** [update_config]. *)
Definition update_config (expected_revision : Z) (patch : SchedulerConfigPatch) :
    MR SchedulerConfigSnapshot :=
  s ← st_get;
  if bool_decide (ac_config_revision s ≠ expected_revision) then
    mret (Err (ConfigRevisionConflict expected_revision (ac_config_revision s)))
  else
    let config := apply_config_patch (ac_config s) patch in
    _ ?← mret (validate_config config);
    revision ?← mret (ok_or ConfigRevisionOverflow (checked_add_u64 (ac_config_revision s) 1));
    st_modify (λ s, set_ac_config config (set_ac_config_revision revision s)) ;;
    disable_jobs_violating_limits ;;
    emit (SchedulerConfigUpdated revision) ;;
    s ← st_get;
    mret (Ok (mkConfigSnapshot (ac_config_revision s) (ac_config s))).

End Management.

(** ** [engine/management.rs]: batch reconciliation *)

Section Reconcile.
Context `{C : Chrono} `{H : HashOrder} `{R : Runtime}.

(** The preliminary pass over the updates; [touched] is the [HashSet] it fills. *)
Fixpoint precheck_updates (touched : gset Z) (updates : list SchedulerReconcileUpdate) :
    MR (gset Z) :=
  match updates with
  | [] => mret (Ok touched)
  | update :: updates =>
      if bool_decide (upd_job_id update ∈ touched) then
        mret (Err (ErrActor "Job appears more than once in reconcile plan"))
      else
        _ ?← plan_job_update (upd_job_id update) (upd_expected_version update) (upd_patch update);
        precheck_updates ({[upd_job_id update]} ∪ touched) updates
  end.

(** The preliminary pass over the additions. *)
Fixpoint precheck_additions (touched : gset Z) (additions : list SchedulerReconcileAddition) :
    MR unit :=
  match additions with
  | [] => mret (Ok tt)
  | addition :: additions =>
      s ← st_get;
      if bool_decide (addn_job_id addition ∈ touched)
         || bool_decide (is_Some (ac_jobs s !! addn_job_id addition))
      then mret (Err (JobAlreadyExists (addn_job_id addition)))
      else
        _ ?← mret (validate_trigger (addn_trigger addition) (addn_options addition) (ac_config s));
        _ ?← mret (validate_task_cancellation_mode (addn_trigger addition)
                     (cancellation_mode (addn_task addition)));
        precheck_additions ({[addn_job_id addition]} ∪ touched) additions
  end.

(** All the checks [reconcile_jobs] makes before it changes anything. *)
Definition precheck (plan : SchedulerReconcilePlan) : MR unit :=
  let deleted : gset Z := list_to_set (plan_deletions plan).*1 in
  if bool_decide (Z.of_nat (size deleted) ≠ zlen (plan_deletions plan)) then
    mret (Err (ErrActor "duplicate Job deletion in reconcile plan"))
  else
    touched ?← precheck_updates deleted (plan_updates plan);
    _ ?← precheck_additions touched (plan_additions plan);
    s ← st_get;
    let final_count :=
      saturating_add usize_max (saturating_sub (zsize (ac_jobs s)) (zlen (plan_deletions plan)))
        (zlen (plan_additions plan)) in
    if bool_decide (max_jobs (ac_config s) < final_count) then
      mret (Err (MaximumJobsReached (max_jobs (ac_config s))))
    else st_for_try (plan_deletions plan) (λ d, check_version d.1 d.2).

(** The body of the loop that applies the updates. *)
Definition apply_update (update : SchedulerReconcileUpdate) : MR unit :=
  snap ?← update_job (upd_job_id update) (upd_expected_version update) (upd_patch update);
  if upd_enabled update && bool_decide (snap_state snap ≠ Enabled) then
    _ ?← enable_job (snap_id snap) (snap_version snap); mret (Ok tt)
  else if negb (upd_enabled update) && bool_decide (snap_state snap = Enabled) then
    _ ?← disable_job (snap_id snap) (snap_version snap)
           "disabled by authoritative remote Job snapshot"; mret (Ok tt)
  else mret (Ok tt).

(** The body of the loop that applies the additions. *)
Definition apply_addition (addition : SchedulerReconcileAddition) : MR unit :=
  _ ?← add_job (Some (addn_job_id addition)) 1 (addn_enabled addition) (addn_trigger addition)
         (addn_task addition) (addn_options addition);
  mret (Ok tt).

(** [reconcile_jobs]. *)
Definition reconcile_jobs (plan : SchedulerReconcilePlan) : MR (list JobSnapshot) :=
  let target_ids := (upd_job_id <$> plan_updates plan) ++ (addn_job_id <$> plan_additions plan) in
  _ ?← precheck plan;
  _ ?← st_for_try (plan_updates plan) apply_update;
  _ ?← st_for_try (plan_deletions plan) (λ d, delete_job d.1 d.2 true);
  _ ?← st_for_try (plan_additions plan) apply_addition;
  s ← st_get;
  mret (Ok (omap (λ id, snapshot s <$> ac_jobs s !! id) target_ids)).

End Reconcile.

(** ** [engine.rs] and [engine/execution.rs]: completions, commands, the main loop *)

(** [Command] of [runtime.rs], without the channel for the response. *)
Inductive Command : Type :=
| CmdAdd (job_id : option JobId) (generation : Z) (enabled : bool) (trigger : Trigger)
    (task : TaskBinding) (options : JobOptions)
| CmdUpdate (job_id : JobId) (expected_version : Z) (patch : JobPatch)
| CmdGet (job_id : JobId)
| CmdList
| CmdEnable (job_id : JobId) (expected_version : Z)
| CmdDisable (job_id : JobId) (expected_version : Z) (reason : string)
| CmdDelete (job_id : JobId) (expected_version : Z)
| CmdReconcile (plan : SchedulerReconcilePlan)
| CmdGetConfig
| CmdUpdateConfig (expected_revision : Z) (patch : SchedulerConfigPatch)
| CmdShutdown.

(** What is sent back on the channel of the command. *)
Inductive Response : Type :=
| RespId (r : result SchedulerError JobId)
| RespSnapshot (r : result SchedulerError JobSnapshot)
| RespGet (r : option JobSnapshot)
| RespList (r : list JobSnapshot)
| RespUnit (r : result SchedulerError unit)
| RespReconcile (r : result SchedulerError (list JobSnapshot))
| RespConfig (r : result SchedulerError SchedulerConfigSnapshot)
| RespPending.

Section Loop.
Context `{C : Chrono} `{H : HashOrder} `{R : Runtime}.

(** [handle_closed_output_channel]. *)
Definition handle_closed_output_channel (execution : ExecutionMetadata) : M unit :=
  emit (OutputChannelClosed (md_job_id execution) (md_version execution) (md_run_id execution)) ;;
  cancel_job_version (md_job_id execution) (md_version execution) ;;
  _ ← delete_job (md_job_id execution) (md_version execution) true;
  mret tt.

(** The [match] of [handle_completion]. *)
Definition record_outcome (completion : TaskCompletion) : M unit :=
  let metadata := tc_metadata completion in
  match tc_outcome completion with
  | Finished RunCompleted => record_execution_success metadata (tc_elapsed completion) false
  | Finished OutputDelivered => record_execution_success metadata (tc_elapsed completion) true
  | Finished (TaskTransient error) => handle_execution_failure metadata error ClassTransient
  | Finished (TaskPermanent error) => handle_execution_failure metadata error ClassPermanent
  | Finished (CallbackTransient error) => record_callback_failure metadata error false
  | Finished (CallbackPermanent error) => record_callback_failure metadata error true
  | Finished ChannelClosed => handle_closed_output_channel metadata
  | TimedOut => handle_execution_timeout metadata
  | Panicked message => handle_execution_panic metadata message
  | Cancelled => record_execution_cancelled metadata
  end.

(** [handle_completion]. *)
Definition handle_completion (completion : TaskCompletion) : M unit :=
  current ← release_execution_resources completion;
  if (current : bool) then
    _ ← index_job (tc_job_id completion);
    record_outcome completion
  else mret tt.

(** [handle_command]; [true] asks the main loop to shut down. *)
Definition handle_command (command : Command) : M (Response * bool) :=
  match command with
  | CmdAdd job_id generation enabled trigger task options =>
      r ← add_job job_id generation enabled trigger task options; mret (RespId r, false)
  | CmdUpdate job_id expected_version patch =>
      r ← update_job job_id expected_version patch; mret (RespSnapshot r, false)
  | CmdGet job_id =>
      s ← st_get; mret (RespGet (snapshot s <$> ac_jobs s !! job_id), false)
  | CmdList =>
      s ← st_get; mret (RespList (snapshot s <$> hash_values (ac_jobs s)), false)
  | CmdEnable job_id expected_version =>
      r ← enable_job job_id expected_version; mret (RespSnapshot r, false)
  | CmdDisable job_id expected_version reason =>
      r ← disable_job job_id expected_version reason; mret (RespSnapshot r, false)
  | CmdDelete job_id expected_version =>
      r ← delete_job job_id expected_version true; mret (RespUnit r, false)
  | CmdReconcile plan => r ← reconcile_jobs plan; mret (RespReconcile r, false)
  | CmdGetConfig =>
      s ← st_get;
      mret (RespConfig (Ok (mkConfigSnapshot (ac_config_revision s) (ac_config s))), false)
  | CmdUpdateConfig expected_revision patch =>
      r ← update_config expected_revision patch; mret (RespConfig r, false)
  | CmdShutdown => st_modify (set_ac_shutdown_response true) ;; mret (RespPending, true)
  end.

(** [graceful_shutdown]: by its end every task was joined or aborted. *)
Definition graceful_shutdown : M unit :=
  st_modify (set_ac_status StatusStopping) ;;
  emit SchedulerStopping ;;
  modify_ready rq_clear ;;
  st_modify (set_ac_timers ∅) ;;
  st_modify (set_ac_retry_timers ∅) ;;
  st_modify (λ s,
    set_ac_running ((λ r, mkRunning (run_job_id r) (run_version r) true) <$> ac_running s) s) ;;
  st_modify (set_ac_tasks []) ;;
  st_modify (set_ac_running ∅) ;;
  st_modify (set_ac_total_running 0) ;;
  st_modify (set_ac_status StatusStopped) ;;
  emit SchedulerStopped ;;
  st_modify (set_ac_shutdown_response false).

(** What the [select!] of the main loop can receive. *)
Inductive LoopEvent : Type :=
| EvCommand (command : Command)
| EvCompletion (completion : TaskCompletion)
| EvExpired (first : Z) (more : list Z)
| EvMaintenance
| EvJoinError (run_id : RunId).

(** The future with this run id leaves the [JoinSet]. *)
Definition join_task (run_id : RunId) : M unit :=
  st_modify (λ s, set_ac_tasks (filter (λ f, fl_run_id f ≠ run_id) (ac_tasks s)) s).

(** One arm of the [select!]; [true] ends the loop.  A [JoinError] (the wrapper of an
    execution panicked) is only logged. *)
Definition handle_event (ev : LoopEvent) : M bool :=
  match ev with
  | EvCommand command => r ← handle_command command; mret r.2
  | EvCompletion completion =>
      join_task (tc_run_id completion) ;; handle_completion completion ;; mret false
  | EvExpired first more =>
      e ← st_gets (λ s, ac_timers s !! first);
      match e with
      | Some (entry, _) =>
          timers_try_remove first ;; handle_expired_batch entry more ;; mret false
      | None => mret false
      end
  | EvMaintenance => reanchor_timers ;; mret false
  | EvJoinError run_id => join_task run_id ;; mret false
  end.

(** One turn of the loop of [run]: restore, dispatch, then one event. *)
Definition loop_turn (ev : LoopEvent) : M bool :=
  restore_blocked ;; dispatch_ready ;; handle_event ev.

(** [run] on a finite sequence of events. *)
Fixpoint run_events (evs : list LoopEvent) : M unit :=
  match evs with
  | [] => mret tt
  | ev :: evs =>
      stop ← loop_turn ev;
      if (stop : bool) then graceful_shutdown else run_events evs
  end.

Definition run (evs : list LoopEvent) : M unit := emit SchedulerStarted ;; run_events evs.

(** An event that can occur: a completion comes from a future in the [JoinSet]
    and carries an outcome that future can end with. *)
Definition event_possible (s : SchedulerActor) (ev : LoopEvent) : Prop :=
  match ev with
  | EvCompletion c =>
      ∃ f, f ∈ ac_tasks s ∧ fl_metadata f = tc_metadata c ∧
        outcome_possible f
          (match ac_running s !! tc_run_id c with Some r => run_cancelled r | None => true end)
          (tc_outcome c)
  | EvExpired first _ => is_Some (ac_timers s !! first)
  | EvJoinError run_id => ∃ f, f ∈ ac_tasks s ∧ fl_run_id f = run_id
  | _ => True
  end.

(** The transitions of the actor, and the states it can reach. *)
Inductive actor_step : SchedulerActor → SchedulerActor → Prop :=
| step_restore s s' : restore_blocked s = Some (tt, s') → actor_step s s'
| step_dispatch s s' : dispatch_ready s = Some (tt, s') → actor_step s s'
| step_event s s' ev stop :
    event_possible s ev → handle_event ev s = Some (stop, s') → actor_step s s'
| step_shutdown s s' : graceful_shutdown s = Some (tt, s') → actor_step s s'.

Definition reachable (config : SchedulerConfig) (s : SchedulerActor) : Prop :=
  rtc actor_step (new_actor config) s.

End Loop.
