(* ===== verification/EngineFrames.v ===== *)
(** * What the operations of the actor leave alone

    Facts about every operation of [Engine.v] that hold whatever the state is:
    which of them touch the slots of running executions, that the events sent
    carry consecutive sequence numbers, and how far the waiting queue can grow. *)

From stdpp Require Import base gmap strings list.
From S2P Require Import Prelude StLogic SchedModel Timing ReadyQueue Actor Engine.

(** ** Inversion of the small accessors *)

Section Accessors.
Context `{C : Chrono} `{H : HashOrder} `{R : Runtime}.

Lemma get_job_Some id s j s' : get_job id s = Some (j, s') ↔ j = ac_jobs s !! id ∧ s' = s.
Proof. unfold get_job. by rewrite st_gets_Some. Qed.

Lemma index_job_Some id s j s' : index_job id s = Some (j, s') ↔ ac_jobs s !! id = Some j ∧ s' = s.
Proof.
  unfold index_job. rewrite st_bind_Some. split.
  - intros (? & ? & [-> ->]%get_job_Some & [? ->]%st_expect_Some). done.
  - intros [Hj ->]. exists (Some j), s. rewrite <-Hj, get_job_Some, st_expect_Some. done.
Qed.

Lemma modify_job_Some id f s a s' :
  modify_job id f s = Some (a, s') ↔ s' = set_ac_jobs (alter f id (ac_jobs s)) s.
Proof. unfold modify_job. by rewrite st_modify_Some. Qed.

Lemma modify_ready_Some f s a s' :
  modify_ready f s = Some (a, s') ↔ s' = set_ac_ready (f (ac_ready s)) s.
Proof. unfold modify_ready. by rewrite st_modify_Some. Qed.

Lemma emit_eq kind s :
  emit kind s = Some (tt,
    let n := wrapping_add_u64 (ac_event_sequence s) 1 in
    set_ac_events (mkSchedulerEvent n (utc_clock (ac_ticks s)) kind :: ac_events s)
      (set_ac_ticks (S (ac_ticks s)) (set_ac_event_sequence n s))).
Proof. done. Qed.

End Accessors.

(** [st_open] with these accessors. *)
Ltac act_open :=
  repeat first
    [ st_open1
    | match goal with
      | H : get_job _ _ = Some _ |- _ => apply get_job_Some in H as [? ?]
      | H : index_job _ _ = Some _ |- _ => apply index_job_Some in H as [? ?]
      | H : modify_job _ _ _ = Some _ |- _ => apply modify_job_Some in H
      | H : modify_ready _ _ = Some _ |- _ => apply modify_ready_Some in H
      | H : timers_try_remove _ _ = Some _ |- _ => apply st_modify_Some in H
      | H : cancel_job_version _ _ _ = Some _ |- _ => apply st_modify_Some in H
      | H : utc_now _ = Some _ |- _ => injection H as ? ?
      | H : mono_now _ = Some _ |- _ => injection H as ? ?
      end; subst ].

(** ** Observations *)

(** The executions in their slots, without the cancellation flags. *)
Definition slots (s : SchedulerActor) : list InFlight * Z * gmap Z (JobId * Z) :=
  (ac_tasks s, ac_total_running s, (λ r, (run_job_id r, run_version r)) <$> ac_running s).

(** The events sent so far are numbered 1, 2, 3, ... modulo [2^64]. *)
Fixpoint numbered (l : list SchedulerEvent) : Prop :=
  match l with
  | [] => True
  | e :: l => ev_sequence e = zlen (e :: l) `mod` 2 ^ 64 ∧ numbered l
  end.

Definition log_wf (s : SchedulerActor) : Prop :=
  numbered (ac_events s) ∧ ac_event_sequence s = zlen (ac_events s) `mod` 2 ^ 64.

(** Slots as they were, the event log extended consistently, UUIDs only drawn. *)
Record steady (s s' : SchedulerActor) : Prop := {
  steady_slots : slots s' = slots s;
  steady_log : log_wf s → log_wf s';
  steady_uuids : (ac_uuids s ≤ ac_uuids s')%nat;
}.

Global Instance steady_preorder : PreOrder steady.
Proof.
  split.
  - intros s. by split.
  - intros s1 s2 s3 [H1 H2 H3] [H4 H5 H6]. split; [congruence|auto|lia].
Qed.

Lemma zlen_cons {A} (a : A) l : zlen (a :: l) = zlen l + 1.
Proof. unfold zlen. cbn. lia. Qed.

Section Steady.
Context `{C : Chrono} `{H : HashOrder} `{R : Runtime}.

Lemma utc_now_steady : follows steady utc_now.
Proof. intros s a s' [= <- <-]. by split. Qed.

Lemma mono_now_steady : follows steady mono_now.
Proof. intros s a s' [= <- <-]. by split. Qed.

Lemma draw_uuid_steady : follows steady draw_uuid.
Proof. intros s a s' [= <- <-]. split; cbn; [done..|lia]. Qed.

Lemma emit_steady kind : follows steady (emit kind).
Proof.
  intros s a s'. rewrite emit_eq. intros [= <- <-]. split; [done| |done].
  intros [Hn Hs]. unfold log_wf. cbn [ac_events ac_event_sequence set_ac_events set_ac_ticks
    set_ac_event_sequence numbered ev_sequence].
  unfold wrapping_add_u64. rewrite Hs, zlen_cons, Zplus_mod_idemp_l. done.
Qed.

Lemma modify_job_steady id f : follows steady (modify_job id f).
Proof. apply follows_modify. by split. Qed.

Lemma modify_ready_steady f : follows steady (modify_ready f).
Proof. apply follows_modify. by split. Qed.

Lemma get_job_steady id : follows steady (get_job id).
Proof. apply follows_gets, _. Qed.

Lemma set_retry_timers_steady f :
  follows steady (st_modify (λ s, set_ac_retry_timers (f s) s)).
Proof. apply follows_modify. by split. Qed.

Lemma set_timers_steady f : follows steady (st_modify (λ s, set_ac_timers (f s) s)).
Proof. apply follows_modify. by split. Qed.

Lemma set_jobs_steady f : follows steady (st_modify (λ s, set_ac_jobs (f s) s)).
Proof. apply follows_modify. by split. Qed.

Lemma cancel_slots job_id version s :
  slots (set_ac_running (cancel_if job_id version <$> ac_running s) s) = slots s.
Proof.
  unfold slots. cbn. f_equal. rewrite <-map_fmap_compose. apply map_fmap_ext.
  intros i r _. cbn. unfold cancel_if. by destruct (_ && _).
Qed.

Lemma cancel_job_version_steady id v : follows steady (cancel_job_version id v).
Proof. apply follows_modify. intros s. split; [apply cancel_slots|done|done]. Qed.

Hint Resolve utc_now_steady mono_now_steady draw_uuid_steady emit_steady modify_job_steady
  modify_ready_steady get_job_steady set_retry_timers_steady set_timers_steady set_jobs_steady
  cancel_job_version_steady : follows.

Lemma timers_insert_at_steady e t : follows steady (timers_insert_at e t).
Proof. unfold timers_insert_at. follow. Qed.

Lemma timers_try_remove_steady k : follows steady (timers_try_remove k).
Proof. unfold timers_try_remove. follow. Qed.

Lemma timers_reset_at_steady k t : follows steady (timers_reset_at k t).
Proof. unfold timers_reset_at. follow. Qed.

Hint Resolve timers_insert_at_steady timers_try_remove_steady timers_reset_at_steady : follows.

Lemma schedule_normal_steady id t k : follows steady (schedule_normal id t k).
Proof. unfold schedule_normal, take_normal_timer. follow. Qed.

Lemma schedule_retry_steady id v r sa at_ t : follows steady (schedule_retry id v r sa at_ t).
Proof. unfold schedule_retry. follow. Qed.

Lemma clear_retry_timers_steady id : follows steady (clear_retry_timers id).
Proof. unfold clear_retry_timers. follow. Qed.

Hint Resolve schedule_normal_steady schedule_retry_steady clear_retry_timers_steady : follows.

Lemma reanchor_timers_steady : follows steady reanchor_timers.
Proof. unfold reanchor_timers. follow. Qed.

Lemma force_disable_steady id reason : follows steady (force_disable id reason).
Proof. unfold force_disable, take_normal_timer. follow. Qed.

Hint Resolve reanchor_timers_steady force_disable_steady : follows.

Lemma block_steady p : follows steady (block p).
Proof. unfold block. follow. Qed.

Lemma coalesce_latest_steady p : follows steady (coalesce_latest p).
Proof. unfold coalesce_latest. follow. Qed.

Lemma admit_insert_steady p : follows steady (admit_insert p).
Proof. unfold admit_insert. follow. Qed.

Hint Resolve block_steady coalesce_latest_steady admit_insert_steady : follows.

Lemma admit_steady p b : follows steady (admit_execution p b).
Proof. unfold admit_execution. follow. Qed.

Hint Resolve admit_steady : follows.

Lemma admit_occurrences_steady id v k pr b o l bl :
  follows steady (admit_occurrences id v k pr b o l bl).
Proof. revert bl. induction l as [|t l IH]; intros bl; cbn; follow. Qed.

Hint Resolve admit_occurrences_steady : follows.

Lemma run_due_batch_steady id j sa b rn d : follows steady (run_due_batch id j sa b rn d).
Proof. unfold run_due_batch. follow. Qed.

Hint Resolve run_due_batch_steady : follows.

Lemma handle_normal_trigger_steady id sa b rn : follows steady (handle_normal_trigger id sa b rn).
Proof. unfold handle_normal_trigger. follow. Qed.

Hint Resolve handle_normal_trigger_steady : follows.

Lemma handle_timer_steady e b : follows steady (handle_timer e b).
Proof. unfold handle_timer. follow. Qed.

Hint Resolve handle_timer_steady : follows.

Lemma collect_expired_steady l n es : follows steady (collect_expired l n es).
Proof. revert n es. induction l as [|k l IH]; intros [|n] es; cbn; follow. Qed.

Hint Resolve collect_expired_steady : follows.

Lemma handle_expired_batch_steady e l : follows steady (handle_expired_batch e l).
Proof.
  unfold handle_expired_batch. apply follows_bind; [typeclasses eauto|apply follows_modify; by split|].
  intros _. follow.
Qed.

Lemma restore_loop_steady id lim fuel rf : follows steady (restore_loop id lim fuel rf).
Proof.
  revert rf. induction fuel as [|fuel IH]; intros rf; cbn; unfold pop_blocked, index_job; follow.
Qed.

Hint Resolve restore_loop_steady handle_expired_batch_steady : follows.

Lemma restore_blocked_steady : follows steady restore_blocked.
Proof. unfold restore_blocked, restore_job, index_job. follow. Qed.

Hint Resolve restore_blocked_steady : follows.

Lemma release_job_steady id : follows steady (release_job id).
Proof. unfold release_job. follow. Qed.

Lemma record_execution_success_steady md e d : follows steady (record_execution_success md e d).
Proof. unfold record_execution_success. follow. Qed.

Lemma record_final_failure_steady id e c : follows steady (record_final_failure id e c).
Proof. unfold record_final_failure. follow. Qed.

Hint Resolve record_execution_success_steady record_final_failure_steady : follows.

Lemma record_callback_failure_steady md e p : follows steady (record_callback_failure md e p).
Proof. unfold record_callback_failure. follow. Qed.

Lemma handle_execution_failure_steady md e c : follows steady (handle_execution_failure md e c).
Proof. unfold handle_execution_failure, datetime_add, index_job. follow. Qed.

Hint Resolve record_callback_failure_steady handle_execution_failure_steady : follows.

Lemma check_version_steady id v : follows steady (check_version id v).
Proof. unfold check_version. follow. Qed.

Lemma snapshot_of_steady id : follows steady (snapshot_of id).
Proof. unfold snapshot_of, index_job. follow. Qed.

Lemma plan_job_update_steady id v p : follows steady (plan_job_update id v p).
Proof. unfold plan_job_update. follow. Qed.

Hint Resolve check_version_steady snapshot_of_steady plan_job_update_steady : follows.

Lemma update_job_steady id v p : follows steady (update_job id v p).
Proof. unfold update_job, apply_job_update, migrate_pending. follow. Qed.

Lemma enable_job_steady id v : follows steady (enable_job id v).
Proof. unfold enable_job, index_job. follow. Qed.

Lemma disable_job_steady id v r : follows steady (disable_job id v r).
Proof. unfold disable_job. follow. Qed.

Lemma delete_job_steady id v c : follows steady (delete_job id v c).
Proof. unfold delete_job, index_job. follow. Qed.

Lemma draw_job_id_steady n : follows steady (draw_job_id n).
Proof. induction n; cbn; follow. Qed.

Hint Resolve update_job_steady enable_job_steady disable_job_steady delete_job_steady
  draw_job_id_steady : follows.

Lemma add_job_steady id g e t b o : follows steady (add_job id g e t b o).
Proof. unfold add_job, choose_job_id. follow. Qed.

Lemma precheck_updates_steady t l : follows steady (precheck_updates t l).
Proof. revert t. induction l; intros t; cbn; follow. Qed.

Lemma precheck_additions_steady t l : follows steady (precheck_additions t l).
Proof. revert t. induction l; intros t; cbn; follow. Qed.

Hint Resolve add_job_steady precheck_updates_steady precheck_additions_steady : follows.

Lemma reconcile_jobs_steady plan : follows steady (reconcile_jobs plan).
Proof. unfold reconcile_jobs, precheck, apply_update, apply_addition. follow. Qed.

Lemma update_config_steady r p : follows steady (update_config r p).
Proof.
  unfold update_config, disable_jobs_violating_limits. follow.
Qed.

Hint Resolve reconcile_jobs_steady update_config_steady : follows.

Lemma handle_command_steady c : follows steady (handle_command c).
Proof. unfold handle_command. follow. Qed.

Lemma record_outcome_steady c : follows steady (record_outcome c).
Proof.
  unfold record_outcome, handle_closed_output_channel, handle_execution_timeout,
    handle_execution_panic, record_execution_cancelled. follow.
Qed.

End Steady.

#[export] Hint Resolve handle_command_steady record_outcome_steady restore_blocked_steady
  handle_expired_batch_steady reanchor_timers_steady emit_steady get_job_steady : follows.
