(* ===== verification/RunIds.v ===== *)
(** * Where a run id can be

    An execution waits in the ready queue, waits in the [blocked] list of its job,
    sleeps in the [DelayQueue] until its retry, or occupies a slot.  [occ r s]
    counts the places that hold the run id [r]; [moves inn out s s'] says that
    from [s] to [s'] run ids only moved between places, left, were freshly drawn,
    or came from the ids [inn] handed in, with the ids [out] handed out.  Every
    operation of the actor is shown to move run ids, which gives
    [run_ids_unique]: no run id is ever in two places. *)

From stdpp Require Import base gmap strings list.
From S2P Require Import Prelude StLogic SchedModel Timing ReadyQueue Actor Engine EngineFrames.

(** ** Sums over finite maps *)

Section MapSum.
Context {A : Type} (f : A → nat).

Definition msum (m : gmap Z A) : nat := map_fold (λ _ x n, (f x + n)%nat) O m.

Lemma msum_empty : msum ∅ = O.
Proof. apply map_fold_empty. Qed.

Lemma msum_insert_new m i x : m !! i = None → msum (<[i := x]> m) = (f x + msum m)%nat.
Proof. intros Hi. unfold msum. rewrite map_fold_insert_L; [done| |done]. intros. lia. Qed.

Lemma msum_delete m i x : m !! i = Some x → msum m = (f x + msum (delete i m))%nat.
Proof. intros Hi. unfold msum. rewrite (map_fold_delete_L _ _ i x m); [done| |done]. intros. lia. Qed.

Lemma msum_delete_le m i : (msum (delete i m) ≤ msum m)%nat.
Proof.
  destruct (m !! i) as [x|] eqn:Hi; [rewrite (msum_delete m i x Hi); lia|]. by rewrite delete_id.
Qed.

Lemma msum_insert m i x : msum (<[i := x]> m) = (f x + msum (delete i m))%nat.
Proof.
  rewrite <-insert_delete_eq, msum_insert_new; [done|]. apply lookup_delete_eq.
Qed.

Lemma msum_alter m g i x :
  m !! i = Some x → (msum (alter g i m) + f x = msum m + f (g x))%nat.
Proof.
  intros Hi. rewrite (alter_Some g m i x Hi), msum_insert, (msum_delete m i x Hi). lia.
Qed.

Lemma msum_alter_le m g i :
  (∀ x, f (g x) ≤ f x)%nat → (msum (alter g i m) ≤ msum m)%nat.
Proof.
  intros Hg. destruct (m !! i) as [x|] eqn:Hi.
  - pose proof (msum_alter m g i x Hi). specialize (Hg x). lia.
  - by rewrite alter_None.
Qed.

End MapSum.

(** ** Counting *)

(** How often [r] occurs in a list, and whether it is a key of a map. *)
Fixpoint cnt (r : Z) (l : list Z) : nat :=
  match l with
  | [] => O
  | x :: l => (if decide (x = r) then 1 else 0) + cnt r l
  end.

Definition n_in {A} (r : Z) (m : gmap Z A) : nat := if decide (is_Some (m !! r)) then 1 else 0.

Definition timer_ids (e : TimerEntry) : list Z :=
  match te_kind e with TimerRetry r _ _ => [r] | _ => [] end.

Definition blocked_cnt (r : Z) (j : JobEntry) : nat := cnt r (pe_run_id <$> job_blocked j).
Definition timer_cnt (r : Z) (t : TimerEntry * Instant) : nat := cnt r (timer_ids t.1).

Definition occ (r : Z) (s : SchedulerActor) : nat :=
  n_in r (rq_pending (ac_ready s)) + msum (blocked_cnt r) (ac_jobs s)
  + msum (timer_cnt r) (ac_timers s) + n_in r (ac_running s).

(** Every waiting execution sits under its own run id. *)
Definition ids_ok (q : ReadyQueue) : Prop :=
  ∀ r p, rq_pending q !! r = Some p → pe_run_id p = r.

Lemma cnt_app r l k : cnt r (l ++ k) = (cnt r l + cnt r k)%nat.
Proof. induction l; cbn; lia. Qed.

Lemma cnt_elem r l : (1 ≤ cnt r l)%nat ↔ r ∈ l.
Proof.
  induction l as [|x l IH]; cbn; [split; [lia|set_solver]|].
  rewrite elem_of_cons, <-IH. case_decide; split; [auto|lia|intros ?; right; lia|].
  intros [->|?]; [done|lia].
Qed.

Lemma cnt_filter {A} r (f : A → Z) (P : A → Prop) `{∀ a, Decision (P a)} l :
  (cnt r (f <$> filter P l) ≤ cnt r (f <$> l))%nat.
Proof. induction l as [|a l IH]; [done|]. rewrite filter_cons. case_decide; cbn in *; lia. Qed.

Lemma n_in_delete {A} r i (m : gmap Z A) : (n_in r (delete i m) ≤ n_in r m)%nat.
Proof. unfold n_in. repeat case_decide; try lia. rewrite lookup_delete_is_Some in *. tauto. Qed.

Lemma n_in_delete_out {A} r i (m : gmap Z A) :
  is_Some (m !! i) → (n_in r (delete i m) + cnt r [i] = n_in r m)%nat.
Proof.
  intros Hi. unfold n_in. cbn. destruct (decide (i = r)) as [->|Hne].
  - rewrite lookup_delete_eq. rewrite decide_False by (by intros [? ?]). by rewrite decide_True.
  - rewrite lookup_delete_ne by done. lia.
Qed.

Lemma n_in_insert {A} r i x (m : gmap Z A) :
  (n_in r (<[i := x]> m) ≤ n_in r m + cnt r [i])%nat.
Proof.
  unfold n_in. cbn. destruct (decide (i = r)) as [->|Hne]; [repeat case_decide; lia|].
  rewrite lookup_insert_ne by done. lia.
Qed.

Lemma n_in_fmap {A B} r (g : A → B) (m : gmap Z A) : n_in r (g <$> m) = n_in r m.
Proof. unfold n_in. rewrite lookup_fmap. do 2 case_decide; try done; rewrite fmap_is_Some in *; tauto. Qed.

Lemma n_in_sub {A B} r (m' : gmap Z A) (m : gmap Z B) :
  (∀ i, is_Some (m' !! i) → is_Some (m !! i)) → (n_in r m' ≤ n_in r m)%nat.
Proof. intros Hs. unfold n_in. repeat case_decide; try lia. naive_solver. Qed.

(** ** Moves *)

Section Moves.
Context `{C : Chrono} `{H : HashOrder} `{HL : !HashOrderLaws H} `{R : Runtime}.

(** The UUIDs drawn between two states. *)
Definition drawn (s s' : SchedulerActor) : list Z :=
  new_v4 <$> seq (ac_uuids s) (ac_uuids s' - ac_uuids s).

Record moves (inn out : list Z) (s s' : SchedulerActor) : Prop := {
  mv_ids : ids_ok (ac_ready s) → ids_ok (ac_ready s');
  mv_uuids : (ac_uuids s ≤ ac_uuids s')%nat;
  mv_occ : ids_ok (ac_ready s) → ∀ r,
    (occ r s' + cnt r out ≤ occ r s + cnt r inn + cnt r (drawn s s'))%nat;
}.

Lemma drawn_app s1 s2 s3 :
  (ac_uuids s1 ≤ ac_uuids s2)%nat → (ac_uuids s2 ≤ ac_uuids s3)%nat →
  drawn s1 s3 = drawn s1 s2 ++ drawn s2 s3.
Proof.
  intros H1 H2. unfold drawn. rewrite <-fmap_app. f_equal.
  replace (ac_uuids s3 - ac_uuids s1)%nat
    with ((ac_uuids s2 - ac_uuids s1) + (ac_uuids s3 - ac_uuids s2))%nat by lia.
  rewrite seq_app. do 2 f_equal. lia.
Qed.

Lemma moves_trans i1 o1 i2 o2 inn out s1 s2 s3 :
  moves i1 o1 s1 s2 → moves i2 o2 s2 s3 →
  (∀ r, cnt r i1 + cnt r i2 + cnt r out ≤ cnt r inn + cnt r o1 + cnt r o2)%nat →
  moves inn out s1 s3.
Proof.
  intros [H1 H2 H3] [H4 H5 H6] Hbal. split; [auto|lia|].
  intros Hids r. rewrite (drawn_app s1 s2 s3), cnt_app by done.
  specialize (H3 Hids r). specialize (H6 (H1 Hids) r). specialize (Hbal r). lia.
Qed.

Lemma moves_weaken i o inn out s s' :
  moves i o s s' → (∀ r, cnt r i + cnt r out ≤ cnt r inn + cnt r o)%nat → moves inn out s s'.
Proof.
  intros [H1 H2 H3] Hbal. split; [auto|lia|]. intros Hids r.
  specialize (H3 Hids r). specialize (Hbal r). lia.
Qed.

Global Instance moves_preorder : PreOrder (moves [] []).
Proof.
  split; [intros s; split; [done..|]|].
  - intros _ r. unfold drawn. lia.
  - intros s1 s2 s3 H1 H2. eapply moves_trans; [done..|]. done.
Qed.

Lemma moves_l inn out s1 s2 s3 : moves [] [] s1 s2 → moves inn out s2 s3 → moves inn out s1 s3.
Proof. intros H1 H2. eapply moves_trans; [done..|]. intros r. cbn. lia. Qed.

Lemma moves_r inn out s1 s2 s3 : moves inn out s1 s2 → moves [] [] s2 s3 → moves inn out s1 s3.
Proof. intros H1 H2. eapply moves_trans; [done..|]. intros r. cbn. lia. Qed.

(** A change of the state that draws nothing. *)
Lemma moves_intro inn out s s' :
  (ids_ok (ac_ready s) → ids_ok (ac_ready s')) → ac_uuids s' = ac_uuids s →
  (ids_ok (ac_ready s) → ∀ r, occ r s' + cnt r out ≤ occ r s + cnt r inn)%nat →
  moves inn out s s'.
Proof. intros H1 H2 H3. split; [done|lia|]. intros Hids r. specialize (H3 Hids r). lia. Qed.

(** *** Primitives *)

Ltac mv_frame :=
  intros ? ? ? [= <- <-]; apply moves_intro; [done|done|intros _ ?; unfold occ; cbn; lia].

Lemma utc_now_moves : follows (moves [] []) utc_now.
Proof. mv_frame. Qed.

Lemma mono_now_moves : follows (moves [] []) mono_now.
Proof. mv_frame. Qed.

Lemma emit_moves kind : follows (moves [] []) (emit kind).
Proof. intros s a s'. rewrite emit_eq. revert s a s'. mv_frame. Qed.

Lemma set_retry_timers_moves f :
  follows (moves [] []) (st_modify (λ s, set_ac_retry_timers (f s) s)).
Proof. mv_frame. Qed.

Lemma set_batch_sequence_moves f :
  follows (moves [] []) (st_modify (λ s, set_ac_batch_sequence (f s) s)).
Proof. mv_frame. Qed.

Lemma set_config_moves c r :
  follows (moves [] []) (st_modify (λ s, set_ac_config c (set_ac_config_revision r s))).
Proof. mv_frame. Qed.

Lemma set_shutdown_response_moves b : follows (moves [] []) (st_modify (set_ac_shutdown_response b)).
Proof. mv_frame. Qed.

Lemma draw_uuid_moves s a s' : draw_uuid s = Some (a, s') → moves [] [a] s s'.
Proof.
  intros [= <- <-]. split; [done|cbn; lia|]. intros _ r. unfold drawn.
  replace (ac_uuids _ - ac_uuids s)%nat with 1%nat by (cbn; lia). unfold occ. cbn. lia.
Qed.

Lemma modify_job_moves id f :
  (∀ j r, blocked_cnt r (f j) ≤ blocked_cnt r j)%nat → follows (moves [] []) (modify_job id f).
Proof.
  intros Hf s a s' ->%st_modify_Some. apply moves_intro; [done|done|].
  intros _ r. unfold occ. cbn. pose proof (msum_alter_le (blocked_cnt r) (ac_jobs s) f id). naive_solver lia.
Qed.

Lemma modify_ready_moves f :
  (∀ q, ids_ok q → ids_ok (f q)) →
  (∀ q i, is_Some (rq_pending (f q) !! i) → is_Some (rq_pending q !! i)) →
  follows (moves [] []) (modify_ready f).
Proof.
  intros Hf Hsub s a s' ->%st_modify_Some. apply moves_intro; [apply Hf|done|].
  intros _ r. unfold occ. cbn. pose proof (n_in_sub r _ _ (Hsub (ac_ready s))). lia.
Qed.

Lemma delete_job_entry_moves id :
  follows (moves [] []) (st_modify (λ s, set_ac_jobs (delete id (ac_jobs s)) s)).
Proof.
  intros s a s' ->%st_modify_Some. apply moves_intro; [done|done|].
  intros _ r. unfold occ. cbn. pose proof (msum_delete_le (blocked_cnt r) (ac_jobs s) id). lia.
Qed.

Lemma timers_try_remove_moves k : follows (moves [] []) (timers_try_remove k).
Proof.
  intros s a s' ->%st_modify_Some. apply moves_intro; [done|done|].
  intros _ r. unfold occ. cbn. pose proof (msum_delete_le (timer_cnt r) (ac_timers s) k). lia.
Qed.

Lemma set_timer_moves k e t :
  ∀ s, moves (timer_ids e) [] s (set_ac_timers (<[k := (e, t)]> (ac_timers s)) s).
Proof.
  intros s. apply moves_intro; [done|done|]. intros _ r. unfold occ. cbn.
  rewrite msum_insert. unfold timer_cnt at 1. cbn.
  pose proof (msum_delete_le (timer_cnt r) (ac_timers s) k). lia.
Qed.

Lemma cancel_job_version_moves id v : follows (moves [] []) (cancel_job_version id v).
Proof.
  intros s a s' ->%st_modify_Some. apply moves_intro; [done|done|].
  intros _ r. unfold occ. cbn. rewrite n_in_fmap. lia.
Qed.

Lemma timers_insert_at_moves e t s k s' :
  timers_insert_at e t s = Some (k, s') → moves (timer_ids e) [] s s'.
Proof.
  unfold timers_insert_at. intros H1. st_open. st_case; st_open.
  eapply moves_l; [eapply utc_now_moves; eassumption|].
  eapply moves_l; [eapply mono_now_moves; eassumption|]. apply set_timer_moves.
Qed.

Lemma timers_reset_at_moves k t : follows (moves [] []) (timers_reset_at k t).
Proof.
  intros s a s'. unfold timers_reset_at. intros H1. st_open. repeat st_case; st_open; try done.
  etrans; [eapply utc_now_moves; eassumption|]. etrans; [eapply mono_now_moves; eassumption|].
  apply moves_intro; [done|done|]. intros _ r. unfold occ. cbn.
  rewrite msum_insert. erewrite (msum_delete (timer_cnt r) (ac_timers _)) by eassumption.
  unfold timer_cnt at 1 3. cbn. lia.
Qed.

Lemma get_job_moves id : follows (moves [] []) (get_job id).
Proof. apply follows_gets, _. Qed.

Lemma index_job_moves id : follows (moves [] []) (index_job id).
Proof. unfold index_job, get_job. follow. Qed.

(** *** Operations *)

Lemma mv_bind_l {A B} inn out (m : ST SchedulerActor A) (f : A → ST SchedulerActor B) :
  follows (moves [] []) m → (∀ a, follows (moves inn out) (f a)) →
  follows (moves inn out) (m ≫= f).
Proof. intros Hm Hf s b s' (a & s1 & ?%Hm & ?%Hf)%st_bind_Some. by eapply moves_l. Qed.

Lemma mv_bind_r {A B} inn out (m : ST SchedulerActor A) (f : A → ST SchedulerActor B) :
  follows (moves inn out) m → (∀ a, follows (moves [] []) (f a)) →
  follows (moves inn out) (m ≫= f).
Proof. intros Hm Hf s b s' (a & s1 & ?%Hm & ?%Hf)%st_bind_Some. by eapply moves_r. Qed.

Lemma mv_drop {A} inn (m : ST SchedulerActor A) :
  follows (moves [] []) m → follows (moves inn []) m.
Proof. intros Hm s a s' ?%Hm. eapply moves_weaken; [done|]. intros r. cbn. lia. Qed.

(** The drawn id is used in the rest of the computation. *)
Lemma mv_draw {B} inn (f : Z → ST SchedulerActor B) :
  (∀ a, follows (moves (a :: inn) []) (f a)) → follows (moves inn []) (draw_uuid ≫= f).
Proof.
  intros Hf s b s' (a & s1 & ?%draw_uuid_moves & ?%Hf)%st_bind_Some.
  eapply moves_trans; [done..|]. intros r. cbn. lia.
Qed.

Ltac blocked_same :=
  intros; unfold blocked_cnt; cbn; repeat case_match; cbn; try lia; apply cnt_filter.

Ltac mv1 :=
  first
    [ solve [eauto 3 with follows]
    | apply mv_drop; solve [follow]
    | apply mv_bind_l; [solve [follow]|intros ?]
    | apply mv_bind_r; [|intros ?; solve [follow]]
    | match goal with
      | |- follows _ (if ?b then _ else _) => destruct b
      | |- follows _ (match ?x with _ => _ end) => destruct x
      end ].
Ltac mv := repeat (cbv beta zeta; mv1).

Hint Resolve utc_now_moves mono_now_moves emit_moves set_retry_timers_moves
  set_batch_sequence_moves set_config_moves set_shutdown_response_moves delete_job_entry_moves
  timers_try_remove_moves timers_insert_at_moves timers_reset_at_moves cancel_job_version_moves
  get_job_moves index_job_moves : follows.
Hint Extern 1 (follows (moves [] []) (modify_job _ _)) =>
  apply modify_job_moves; solve [blocked_same] : follows.

Lemma extract_if_ids (P : PendingExecution → Prop) `{∀ p, Decision (P p)} q :
  ids_ok q → ids_ok (extract_if P q).2.
Proof. intros Hids r p [? _]%extract_if_pending. eauto. Qed.

Lemma modify_extract_moves (P : PendingExecution → Prop) `{∀ p, Decision (P p)} :
  follows (moves [] []) (modify_ready (λ q, (extract_if P q).2)).
Proof.
  apply modify_ready_moves; [apply extract_if_ids|]. intros q i [p [? _]%extract_if_pending]. eauto.
Qed.

Lemma remove_job_moves id : follows (moves [] []) (modify_ready (λ q, (remove_job q id).2)).
Proof. apply modify_extract_moves. Qed.

Lemma remove_normal_triggers_moves id :
  follows (moves [] []) (modify_ready (λ q, (remove_normal_triggers q id).2)).
Proof. apply (modify_extract_moves (replaceable_of id)). Qed.

Lemma migrate_job_moves id v p :
  follows (moves [] []) (modify_ready (λ q, migrate_job q id v p)).
Proof.
  apply modify_ready_moves; intros q; unfold ids_ok; rewrite migrate_job_pending.
  - intros Hids r p'. rewrite lookup_fmap_Some. intros (p0 & <- & Hr).
    rewrite <-(Hids r p0 Hr). by case_bool_decide.
  - intros i. rewrite lookup_fmap, fmap_is_Some. done.
Qed.

Hint Resolve remove_job_moves remove_normal_triggers_moves migrate_job_moves : follows.

Lemma rq_insert_moves p : follows (moves [pe_run_id p] []) (modify_ready (λ q, rq_insert q p)).
Proof.
  intros s a s' ->%st_modify_Some. apply moves_intro; [|done|].
  - intros Hids r p'. cbn. rewrite rq_insert_pending, lookup_insert. case_decide; naive_solver.
  - intros _ r. unfold occ. cbn [ac_ready set_ac_ready ac_jobs ac_timers ac_running].
    rewrite rq_insert_pending. pose proof (n_in_insert r (pe_run_id p) p (rq_pending (ac_ready s))).
    cbn [cnt] in *. lia.
Qed.

Lemma schedule_normal_moves id t k :
  (∀ r sa at_, k ≠ TimerRetry r sa at_) → follows (moves [] []) (schedule_normal id t k).
Proof.
  intros Hk. unfold schedule_normal, take_normal_timer.
  assert (∀ j v, follows (moves [] []) (timers_insert_at (mkTimerEntry j v t k) t)).
  { intros j v s a s' Hi%timers_insert_at_moves. unfold timer_ids in Hi. cbn in Hi.
    destruct k; naive_solver. }
  follow.
Qed.

Lemma schedule_retry_moves id v r sa at_ t :
  follows (moves [r] []) (schedule_retry id v r sa at_ t).
Proof.
  unfold schedule_retry.
  assert (follows (moves [r] []) (timers_insert_at (mkTimerEntry id v t (TimerRetry r sa at_)) t)).
  { intros s a s' Hi%timers_insert_at_moves. done. }
  mv.
Qed.

Lemma clear_retry_timers_moves id : follows (moves [] []) (clear_retry_timers id).
Proof. unfold clear_retry_timers. follow. Qed.

Hint Extern 1 (follows _ (schedule_normal _ _ _)) =>
  apply schedule_normal_moves; intros; repeat case_match; done : follows.
Hint Resolve rq_insert_moves schedule_retry_moves clear_retry_timers_moves : follows.

Lemma reanchor_timers_moves : follows (moves [] []) reanchor_timers.
Proof. unfold reanchor_timers. follow. Qed.

Lemma force_disable_moves id reason : follows (moves [] []) (force_disable id reason).
Proof. unfold force_disable, take_normal_timer. follow. Qed.

Hint Resolve reanchor_timers_moves force_disable_moves : follows.

Lemma block_moves p : follows (moves [pe_run_id p] []) (block p).
Proof.
  unfold block. apply mv_bind_r; [|intros ?; follow].
  intros s a s' ->%st_modify_Some. apply moves_intro; [done|done|]. intros _ r. unfold occ. cbn.
  destruct (ac_jobs s !! pe_job_id p) as [j|] eqn:Hj; [|rewrite alter_None by done; lia].
  pose proof (msum_alter (blocked_cnt r) (ac_jobs s)
    (λ j, set_job_blocked (job_blocked j ++ [p]) j) _ j Hj) as Hm.
  unfold blocked_cnt at 2 4 in Hm. cbn in Hm. rewrite fmap_app, cnt_app in Hm. cbn in Hm. lia.
Qed.

Lemma replace_ready_moves s q :
  (ids_ok (ac_ready s) → ids_ok q) →
  (ids_ok (ac_ready s) → ∀ i, is_Some (rq_pending q !! i) → is_Some (rq_pending (ac_ready s) !! i)) →
  moves [] [] s (set_ac_ready q s).
Proof.
  intros H1 H2. apply moves_intro; [done|done|]. intros Hids r. unfold occ. cbn.
  pose proof (n_in_sub r _ _ (H2 Hids)). lia.
Qed.

Lemma modify_job_at_moves id f s j :
  ac_jobs s !! id = Some j → (∀ r, blocked_cnt r (f j) ≤ blocked_cnt r j)%nat →
  moves [] [] s (set_ac_jobs (alter f id (ac_jobs s)) s).
Proof.
  intros Hj Hf. apply moves_intro; [done|done|]. intros _ r. unfold occ. cbn.
  pose proof (msum_alter (blocked_cnt r) (ac_jobs s) f id j Hj). specialize (Hf r). lia.
Qed.

Lemma coalesce_blocked_moves id :
  follows (moves [] [])
    (j ← get_job id;
     match j with
     | Some job =>
         modify_job id (set_job_blocked
           (filter (λ p, is_replaceable_trigger (pe_kind p) ≠ true) (job_blocked job))) ;;
         mret (pe_run_id <$>
           filter (λ p, is_replaceable_trigger (pe_kind p) = true) (job_blocked job))
     | None => mret []
     end).
Proof.
  intros s a s' Hs. act_open. st_case; act_open; [|reflexivity].
  eapply modify_job_at_moves; [done|]. intros r. unfold blocked_cnt. cbn. apply cnt_filter.
Qed.

Lemma coalesce_latest_moves p : follows (moves [] []) (coalesce_latest p).
Proof.
  unfold coalesce_latest. apply follows_bind_get. intros s a s' Hs.
  destruct (remove_normal_triggers (ac_ready s) (pe_job_id p)) as [removed ready] eqn:Hr.
  apply st_bind_Some in Hs as (? & ? & ->%modify_ready_Some & Hs).
  apply st_bind_Some in Hs as (j & ? & Hj & Hs). apply st_bind_Some in Hs as (? & ? & Hb & Hs).
  transitivity (set_ac_ready ready s).
  - change ready with (removed, ready).2. rewrite <-Hr.
    by eapply (remove_normal_triggers_moves (pe_job_id p)).
  - etrans.
    + eapply (coalesce_blocked_moves (pe_job_id p)). apply st_bind_Some. eauto.
    + eapply (follows_for (moves [] [])); [|eassumption]. intros ?. apply emit_moves.
Qed.

Lemma admit_insert_moves p : follows (moves [pe_run_id p] []) (admit_insert p).
Proof. unfold admit_insert. mv. Qed.

Hint Resolve block_moves coalesce_latest_moves admit_insert_moves : follows.

Lemma remove_oldest_moves s id o ready :
  remove_oldest_trigger (ac_ready s) id = (o, ready) → moves [] [] s (set_ac_ready ready s).
Proof.
  unfold remove_oldest_trigger. intros Hr. apply replace_ready_moves.
  - intros Hids. case_match; simplify_eq; [|done].
    intros i p' Hi. cbn in Hi. apply lookup_delete_Some in Hi as [_ Hi]. by apply Hids.
  - intros _ i. case_match; simplify_eq; cbn; [|done]. rewrite lookup_delete_is_Some. tauto.
Qed.

Lemma admit_full_moves p capacity version s a s' :
  (match capacity with
   | SkipNewest =>
       emit (TriggerSkipped (pe_job_id p) version (pe_scheduled_at p) "pending capacity reached") ;;
       mret Skipped
   | ReplaceOldestTrigger =>
       match remove_oldest_trigger (ac_ready s) (pe_job_id p) with
       | (Some old, ready) =>
           modify_ready (λ _, ready) ;;
           emit (PendingReplaced (pe_job_id p) (pe_run_id old) (pe_run_id p)) ;;
           admit_insert p
       | (None, ready) => modify_ready (λ _, ready) ;; block p ;; mret Blocked
       end
   | Backpressure => block p ;; mret Blocked
   end) s = Some (a, s') → moves [pe_run_id p] [] s s'.
Proof.
  destruct capacity; cycle 1.
  - intros Hs. eapply (mv_drop [pe_run_id p]); [|exact Hs]. follow.
  - destruct (remove_oldest_trigger _ _) as [[old|] ready] eqn:Ho; intros Hs;
      apply st_bind_Some in Hs as (? & s1 & ->%modify_ready_Some & Hs);
      (eapply moves_l; [by eapply remove_oldest_moves|]).
    + eapply (mv_bind_l [pe_run_id p]); [| |exact Hs]; [follow|]. intros ?. apply admit_insert_moves.
    + eapply (mv_bind_r [pe_run_id p]); [| |exact Hs]; [apply block_moves|]. intros ?. follow.
  - intros Hs. eapply (mv_bind_r [pe_run_id p]); [| |exact Hs]; [apply block_moves|]. intros ?. follow.
Qed.

Lemma admit_moves p b : follows (moves [pe_run_id p] []) (admit_execution p b).
Proof.
  unfold admit_execution. apply mv_bind_l; [follow|]. intros [j|]; [|apply mv_drop; follow].
  apply mv_bind_l; [follow|]. intros ?. apply mv_bind_l; [follow|]. intros ?.
  apply follows_bind_get. intros s2 ? s' Hs. st_case; [by eapply admit_full_moves|].
  by eapply admit_insert_moves.
Qed.

Hint Resolve admit_moves : follows.

Lemma admit_occurrences_moves id v k pr b o l bl :
  follows (moves [] []) (admit_occurrences id v k pr b o l bl).
Proof.
  revert bl. induction l as [|t l IH]; intros bl; cbn; [follow|].
  apply mv_draw. intros r. apply mv_bind_r; [apply admit_moves|]. intros a. apply IH.
Qed.

Hint Resolve admit_occurrences_moves : follows.

Lemma run_due_batch_moves id j sa b rn d : follows (moves [] []) (run_due_batch id j sa b rn d).
Proof. unfold run_due_batch. follow. Qed.

Hint Resolve run_due_batch_moves : follows.

Lemma handle_normal_trigger_moves id sa b rn :
  follows (moves [] []) (handle_normal_trigger id sa b rn).
Proof. unfold handle_normal_trigger. follow. Qed.

Hint Resolve handle_normal_trigger_moves : follows.

Lemma handle_timer_moves e b : follows (moves (timer_ids e) []) (handle_timer e b).
Proof.
  unfold handle_timer, timer_ids. apply mv_bind_l; [follow|]. intros [j|]; [|apply mv_drop; follow].
  destruct (_ || _); [apply mv_drop; follow|]. destruct (te_kind e) as [| |r sa at_]; [follow..|].
  apply mv_bind_l; [follow|]. intros ?.
  apply mv_bind_r; [apply (admit_moves (mkPending _ _ r _ _ _ _ _))|]. intros ?. follow.
Qed.

(** The entries taken out of the [DelayQueue] carry their run ids with them. *)
Lemma take_timer_moves s k e t :
  ac_timers s !! k = Some (e, t) →
  moves [] (timer_ids e) s (set_ac_timers (delete k (ac_timers s)) s).
Proof.
  intros Hk. apply moves_intro; [done|done|]. intros _ r. unfold occ. cbn.
  rewrite (msum_delete (timer_cnt r) (ac_timers s) k (e, t) Hk). 
  change (timer_cnt r (e, t)) with (cnt r (timer_ids e)). lia.
Qed.

Lemma collect_expired_moves l n es s es' s' :
  collect_expired l n es s = Some (es', s') →
  moves (es ≫= timer_ids) (es' ≫= timer_ids) s s'.
Proof.
  revert n es s. induction l as [|k l IH]; intros [|n] es s Hs; cbn in Hs; act_open;
    try (apply moves_intro; [done|done|]; intros _ r; lia).
  destruct (ac_timers s !! k) as [[e t]|] eqn:Hk; act_open.
  - eapply moves_trans; [by eapply take_timer_moves|by eapply IH|].
    intros r. rewrite bind_app. cbn. rewrite !cnt_app. cbn. lia.
  - apply moves_intro; [done|done|]. intros _ r. lia.
Qed.

Lemma handle_timers_moves es b :
  follows (moves (es ≫= timer_ids) []) (st_for es (λ e, handle_timer e b)).
Proof.
  induction es as [|e es IH]; cbn; [follow|].
  intros s a s' (? & s1 & H1%handle_timer_moves & H2%IH)%st_bind_Some.
  eapply moves_trans; [done..|]. intros r. rewrite cnt_app. cbn. lia.
Qed.

Lemma handle_expired_batch_moves e l : follows (moves (timer_ids e) []) (handle_expired_batch e l).
Proof.
  unfold handle_expired_batch. apply mv_bind_l; [follow|]. intros ?. apply mv_bind_l; [follow|].
  intros s0 s ? s' (es & s1 & H1%collect_expired_moves & H2%handle_timers_moves)%st_bind_Some.
  eapply moves_trans; [done..|]. intros r. cbn. rewrite app_nil_r. lia.
Qed.

Hint Resolve handle_timer_moves handle_expired_batch_moves : follows.

(** A blocked execution handed out, then put in the queue. *)
Lemma pop_blocked_moves id s o s' :
  pop_blocked id s = Some (o, s') →
  moves [] (match o with Some p => [pe_run_id p] | None => [] end) s s'.
Proof.
  unfold pop_blocked. intros Hs. act_open.
  destruct (ac_jobs s !! id) as [j|] eqn:Hj; [|act_open; reflexivity].
  destruct (job_blocked j) as [|p rest] eqn:Hb; act_open; [reflexivity|].
  apply moves_intro; [done|done|]. intros _ r. unfold occ. cbn [ac_ready set_ac_jobs ac_jobs ac_timers ac_running].
  pose proof (msum_alter (blocked_cnt r) (ac_jobs s) (set_job_blocked rest) id j Hj) as Hm.
  unfold blocked_cnt at 2 4 in Hm. rewrite Hb in Hm. cbn in *. lia.
Qed.

Lemma restore_loop_moves id lim fuel rf : follows (moves [] []) (restore_loop id lim fuel rf).
Proof.
  revert rf. induction fuel as [|fuel IH]; intros rf; cbn; [follow|].
  apply follows_bind; [apply _|follow|]. intros ?. destruct (_ && _); [|follow].
  intros s ? s' (o & s1 & Ho%pop_blocked_moves & Hs)%st_bind_Some.
  destruct o as [p|]; [|by act_open]. eapply moves_trans; [exact Ho| |].
  - eapply (mv_bind_l [pe_run_id p] []); [| |exact Hs]; [follow|]. intros j.
    cbv beta zeta. destruct (bool_decide (job_version j = pe_version p)); [|apply mv_drop, IH].
    apply mv_bind_r; [apply rq_insert_moves|]. intros ?. follow.
  - intros r. cbn. lia.
Qed.

Hint Resolve restore_loop_moves : follows.

Lemma restore_blocked_moves : follows (moves [] []) restore_blocked.
Proof. unfold restore_blocked, restore_job. follow. Qed.

Lemma release_job_moves id : follows (moves [] []) (release_job id).
Proof. unfold release_job. follow. Qed.

Lemma record_final_failure_moves id e c : follows (moves [] []) (record_final_failure id e c).
Proof. unfold record_final_failure. follow. Qed.

Hint Resolve record_final_failure_moves : follows.

Lemma handle_execution_failure_moves md e c :
  follows (moves [md_run_id md] []) (handle_execution_failure md e c).
Proof. unfold handle_execution_failure, datetime_add. mv. Qed.

Lemma check_version_moves id v : follows (moves [] []) (check_version id v).
Proof. unfold check_version. follow. Qed.

Lemma snapshot_of_moves id : follows (moves [] []) (snapshot_of id).
Proof. unfold snapshot_of. follow. Qed.

Lemma plan_job_update_moves id v p : follows (moves [] []) (plan_job_update id v p).
Proof. unfold plan_job_update. follow. Qed.

Hint Resolve handle_execution_failure_moves check_version_moves snapshot_of_moves
  plan_job_update_moves : follows.

Lemma enable_job_moves id v : follows (moves [] []) (enable_job id v).
Proof. unfold enable_job. follow. Qed.

Lemma disable_job_moves id v r : follows (moves [] []) (disable_job id v r).
Proof. unfold disable_job. follow. Qed.

Lemma delete_job_moves id v c : follows (moves [] []) (delete_job id v c).
Proof. unfold delete_job. follow. Qed.

Lemma draw_job_id_moves n : follows (moves [] []) (draw_job_id n).
Proof. induction n; cbn; [follow|]. apply mv_draw. intros id. apply mv_drop. follow. Qed.

Hint Resolve enable_job_moves disable_job_moves delete_job_moves draw_job_id_moves : follows.

Lemma insert_job_moves id j :
  job_blocked j = [] → follows (moves [] []) (st_modify (λ s, set_ac_jobs (<[id := j]> (ac_jobs s)) s)).
Proof.
  intros Hb s a s' ->%st_modify_Some. apply moves_intro; [done|done|]. intros _ r. unfold occ. cbn.
  rewrite msum_insert. unfold blocked_cnt at 1. rewrite Hb. cbn.
  pose proof (msum_delete_le (blocked_cnt r) (ac_jobs s) id). lia.
Qed.

Lemma new_job_entry_blocked id g e t b o now : job_blocked (new_job_entry id g e t b o now) = [].
Proof. unfold new_job_entry. by destruct (effective_queue_policies t o). Qed.

Lemma insert_new_job_moves id g e t b o now :
  follows (moves [] [])
    (st_modify (λ s, set_ac_jobs (<[id := new_job_entry id g e t b o now]> (ac_jobs s)) s)).
Proof. apply insert_job_moves, new_job_entry_blocked. Qed.

Hint Resolve insert_new_job_moves : follows.

Lemma add_job_moves id g e t b o : follows (moves [] []) (add_job id g e t b o).
Proof. unfold add_job, choose_job_id. follow. Qed.

(** A job taken out of the map and put back with no more executions blocked. *)
Lemma take_job_moves s id j :
  ac_jobs s !! id = Some j →
  moves [] (pe_run_id <$> job_blocked j) s (set_ac_jobs (delete id (ac_jobs s)) s).
Proof.
  intros Hj. apply moves_intro; [done|done|]. intros _ r. unfold occ. cbn.
  rewrite (msum_delete (blocked_cnt r) (ac_jobs s) id j Hj).
  change (blocked_cnt r j) with (cnt r (pe_run_id <$> job_blocked j)). lia.
Qed.

Lemma put_job_moves id j :
  follows (moves (pe_run_id <$> job_blocked j) [])
    (st_modify (λ s, set_ac_jobs (<[id := j]> (ac_jobs s)) s)).
Proof.
  intros s a s' ->%st_modify_Some. apply moves_intro; [done|done|]. intros _ r. unfold occ. cbn.
  rewrite msum_insert. change (blocked_cnt r j) with (cnt r (pe_run_id <$> job_blocked j)).
  pose proof (msum_delete_le (blocked_cnt r) (ac_jobs s) id). lia.
Qed.

Lemma migrate_pending_moves id changed j : follows (moves [] []) (migrate_pending id changed j).
Proof. unfold migrate_pending. follow. Qed.

Lemma migrate_pending_blocked id changed j s j' s' :
  migrate_pending id changed j s = Some (j', s') →
  pe_run_id <$> job_blocked j' = if changed then [] else pe_run_id <$> job_blocked j.
Proof.
  unfold migrate_pending. intros Hs. destruct changed; act_open; [done|]. cbn.
  rewrite <-list_fmap_compose. by apply list_fmap_ext.
Qed.

Lemma apply_job_update_moves id v p plan : follows (moves [] []) (apply_job_update id v p plan).
Proof.
  intros s a s' Hs. unfold apply_job_update in Hs.
  apply st_bind_Some in Hs as (? & ? & [-> ->]%get_job_Some & Hs).
  apply st_bind_Some in Hs as (j & ? & [Hj ->]%st_expect_Some & Hs).
  apply st_bind_Some in Hs as (? & ? & ->%st_modify_Some & Hs).
  eapply (moves_trans _ _ (pe_run_id <$> job_blocked j) [] [] []);
    [by eapply take_job_moves| |intros r; cbn; lia].
  eapply (mv_bind_l _ [] utc_now); [follow| |exact Hs]. clear Hs s' a s Hj. intros now.
  cbv beta zeta. apply mv_bind_l; [follow|]. intros _. apply mv_bind_l; [follow|]. intros _.
  intros s a s' (j' & s1 & Hj' & Hs)%st_bind_Some.
  eapply moves_l; [by eapply migrate_pending_moves|]. apply migrate_pending_blocked in Hj'.
  eapply moves_weaken; [|instantiate (1 := []); instantiate (1 := pe_run_id <$> job_blocked j')].
  - eapply (mv_bind_r _ []); [| |exact Hs]; [apply put_job_moves|]. intros ?. follow.
  - rewrite Hj'. intros r. destruct (_ || _); cbn; lia.
Qed.

Lemma update_job_moves id v p : follows (moves [] []) (update_job id v p).
Proof. pose proof apply_job_update_moves. unfold update_job. follow. Qed.

Hint Resolve add_job_moves update_job_moves : follows.

Lemma precheck_updates_moves t l : follows (moves [] []) (precheck_updates t l).
Proof. revert t. induction l; intros t; cbn; follow. Qed.

Lemma precheck_additions_moves t l : follows (moves [] []) (precheck_additions t l).
Proof. revert t. induction l; intros t; cbn; follow. Qed.

Hint Resolve precheck_updates_moves precheck_additions_moves : follows.

Lemma reconcile_jobs_moves plan : follows (moves [] []) (reconcile_jobs plan).
Proof. unfold reconcile_jobs, precheck, apply_update, apply_addition. follow. Qed.

Lemma update_config_moves r p : follows (moves [] []) (update_config r p).
Proof. unfold update_config, disable_jobs_violating_limits. follow. Qed.

Hint Resolve reconcile_jobs_moves update_config_moves : follows.

Lemma handle_command_moves c : follows (moves [] []) (handle_command c).
Proof. unfold handle_command. follow. Qed.

Lemma record_outcome_moves c : follows (moves [tc_run_id c] []) (record_outcome c).
Proof.
  assert (Hf : ∀ e cl, follows (moves [tc_run_id c] []) (handle_execution_failure (tc_metadata c) e cl))
    by (intros; apply handle_execution_failure_moves).
  unfold record_outcome, handle_closed_output_channel, handle_execution_timeout,
    handle_execution_panic, record_execution_cancelled, record_execution_success,
    record_callback_failure. mv.
Qed.

End Moves.
