(* ===== verification/Demo.v ===== *)
(** * A concrete environment

    An instance of the classes of [Timing.v], [ReadyQueue.v] and [Actor.v], and
    small runs of the actor in it, used by the witnesses and the recorded runs. *)

From stdpp Require Import base gmap strings list pretty.
From S2P Require Import Prelude StLogic SchedModel Timing ReadyQueue Actor Engine.

(** Every reading of a clock is one second after the one before; [DelayQueue]
    accepts the deadlines given by [in_range]. *)
Definition runtime_with (in_range : Instant → Instant → bool) : Runtime := {|
  utc_clock := λ n, from_secs (Z.of_nat n);
  mono_clock := λ n, from_secs (Z.of_nat n);
  instant_max := i64_max * nanos_per_sec;
  new_v4 := λ n, 1000 + Z.of_nat n;
  delay_key := λ X, set_fold Z.max 0 X + 1;
  delay_in_range := in_range;
  fmt_uuid := pretty;
|}.

Lemma set_fold_max_ge (X : gset Z) x : x ∈ X → x ≤ set_fold Z.max 0 X.
Proof.
  revert x. apply (set_fold_ind_L (λ b Y, ∀ x, x ∈ Y → x ≤ b) Z.max 0).
  - set_solver.
  - intros y Y b Hy IH x [->%elem_of_singleton|Hx]%elem_of_union; [lia|]. specialize (IH x Hx). lia.
Qed.

Global Instance runtime_with_laws in_range : RuntimeLaws (runtime_with in_range).
Proof.
  split.
  - intros m n. cbn. lia.
  - intros X HX%set_fold_max_ge. cbn in HX. lia.
Qed.

(** A [DelayQueue] that accepts every deadline, and one with a horizon of
    [2^36] milliseconds. *)
Definition demo_runtime : Runtime := runtime_with (λ _ _, true).
Definition bounded_runtime : Runtime :=
  runtime_with (λ now deadline, bool_decide (deadline - now < 2 ^ 36 * 1000000)).

Global Instance demo_runtime_laws : RuntimeLaws demo_runtime := runtime_with_laws _.

#[export] Existing Instance demo_chrono.
#[export] Existing Instance demo_hash_order.
#[export] Existing Instance demo_runtime.

(** The state after a computation; the state before when it panics. *)
Definition after {A} (m : ST SchedulerActor A) (s : SchedulerActor) : SchedulerActor :=
  match m s with Some (_, s') => s' | None => s end.

Lemma after_Some {A} (m : ST SchedulerActor A) s :
  is_Some (m s) → ∃ a, m s = Some (a, after m s).
Proof. unfold after. destruct (m s) as [[a s']|]; [eauto|]. by intros [? ?]. Qed.

Definition demo_task : TaskBinding := mkTaskBinding "demo" Cooperative.

(** Job 7 every ten seconds, at most one execution at a time. *)
Definition demo_config : SchedulerConfig := default_scheduler_config 1.

Definition demo_add (id : Z) (trigger : Trigger) (options : JobOptions) : LoopEvent :=
  EvCommand (CmdAdd (Some id) 1 true trigger demo_task options).

Definition demo_s0 : SchedulerActor := new_actor demo_config.
Definition demo_s1 : SchedulerActor :=
  after (handle_event (demo_add 7 (Trigger_interval (from_secs 10)) default_job_options)) demo_s0.
Definition demo_s2 : SchedulerActor := after (handle_event (EvExpired 1 [])) demo_s1.
Definition demo_s3 : SchedulerActor := after dispatch_ready demo_s2.

(** One execution of job 7 runs in [demo_s3]. *)
Example demo_s3_runs :
  map_to_list (ac_running demo_s3) = [(1000, mkRunning 7 1 false)] ∧ ac_total_running demo_s3 = 1.
Proof. vm_compute. done. Qed.

Lemma after_event_step ev s :
  event_possible s ev → is_Some (handle_event ev s) → actor_step s (after (handle_event ev) s).
Proof. intros He [a Ha]%after_Some. by eapply step_event. Qed.

Lemma after_dispatch_step s : is_Some (dispatch_ready s) → actor_step s (after dispatch_ready s).
Proof. intros [[] Ha]%after_Some. by apply step_dispatch. Qed.

Lemma demo_s3_reachable : reachable demo_config demo_s3.
Proof.
  eapply rtc_l; [apply (after_event_step (demo_add 7 (Trigger_interval (from_secs 10)) default_job_options)); [done|]|].
  { vm_compute. by eexists. }
  eapply rtc_l; [apply (after_event_step (EvExpired 1 [])); [|]|].
  { vm_compute. by eexists. }
  { vm_compute. by eexists. }
  eapply rtc_l; [apply after_dispatch_step|].
  { vm_compute. by eexists. }
  apply rtc_refl.
Qed.

(** The entry of a job, for runs in which it exists. *)
Definition no_job : JobEntry :=
  mkJobEntry 0 0 EmptyString Cooperative (Trigger_once 0) None None 0 KeepAll Backpressure RetryNone
    default_failure_policy Enabled None None [] 0 0 None None None None 0 0.
Definition entry (s : SchedulerActor) (id : JobId) : JobEntry := default no_job (ac_jobs s !! id).

Lemma entry_Some s id : is_Some (ac_jobs s !! id) → ac_jobs s !! id = Some (entry s id).
Proof. unfold entry. intros [j ->]. done. Qed.
