(* ===== verification/Slots.v ===== *)
(** * Slot accounting of the scheduler

    The invariant that ties the three records of running executions of
    [SchedulerActor] together (the counter [total_running], the map [running] and
    the futures in the [JoinSet]) and its consequences for every state the actor
    can reach. *)

From stdpp Require Import base gmap strings list.
From S2P Require Import Prelude StLogic SchedModel Timing ReadyQueue Actor Engine EngineFrames RunIds Demo.

Section Slots.
Context `{C : Chrono} `{H : HashOrder} `{HL : !HashOrderLaws H} `{R : Runtime} `{RL : !RuntimeLaws R}.

(** ** The invariant *)

(** No run id is in two places, counting those in [held]; no future UUID is used. *)
Record own (held : list Z) (s : SchedulerActor) : Prop := {
  own_ids : ids_ok (ac_ready s);
  own_unique : ∀ r, (occ r s + cnt r held ≤ 1)%nat;
  own_fresh : ∀ n, (ac_uuids s ≤ n)%nat → (occ (new_v4 n) s + cnt (new_v4 n) held = 0)%nat;
}.

(** A future of the [JoinSet] as an entry of [running]. *)
Definition task_view (f : InFlight) : Z * (JobId * Z) :=
  (fl_run_id f, (md_job_id (fl_metadata f), md_version (fl_metadata f))).

(** The entries of [running] are the futures and the entries [lost] whose future ended in a
    [JoinError]; [total_running] counts the entries. *)
Definition in_step (lost : list (Z * (JobId * Z))) (sl : list InFlight * Z * gmap Z (JobId * Z)) : Prop :=
  let '(tasks, total, running) := sl in
  (task_view <$> tasks) ++ lost ≡ₚ map_to_list running ∧ total = zsize running.

Record slots_ok (lost : list (Z * (JobId * Z))) (s : SchedulerActor) : Prop := {
  so_own : own [] s;
  so_step : in_step lost (slots s);
  so_log : log_wf s;
}.

(** ** Preservation *)

Lemma cnt_drawn_le r s s' : (cnt r (drawn s s') ≤ 1)%nat.
Proof.
  unfold drawn. generalize (ac_uuids s' - ac_uuids s)%nat as n. generalize (ac_uuids s) as a.
  intros a n. revert a. induction n as [|n IH]; intros a; cbn; [lia|]. specialize (IH (S a)). case_decide as Ha; [|lia].
  assert (¬ r ∈ new_v4 <$> seq (S a) n) as Hno.
  { rewrite list_elem_of_fmap. intros (k & Hk & Hin). subst. apply new_v4_inj in Hk.
    apply elem_of_seq in Hin. lia. }
  rewrite <-cnt_elem in Hno. lia.
Qed.

Lemma drawn_elem r s s' :
  (1 ≤ cnt r (drawn s s'))%nat →
  ∃ n, r = new_v4 n ∧ (ac_uuids s ≤ n)%nat ∧ (ac_uuids s' ≤ n → False)%nat.
Proof.
  rewrite cnt_elem. unfold drawn. rewrite list_elem_of_fmap. intros (n & -> & Hin).
  exists n. apply elem_of_seq in Hin. split; [done|]. lia.
Qed.

Lemma own_moves inn out s s' : own inn s → moves inn out s s' → own out s'.
Proof.
  intros [Hids Hu Hf] [H1 H2 H3]. specialize (H3 Hids). split; [auto| |].
  - intros r. specialize (H3 r). pose proof (cnt_drawn_le r s s').
    destruct (decide (1 ≤ cnt r (drawn s s'))%nat) as [Hd|Hd].
    + apply drawn_elem in Hd as (n & -> & Hn & _). specialize (Hf n Hn). lia.
    + specialize (Hu r). lia.
  - intros n Hn. specialize (H3 (new_v4 n)). specialize (Hf n).
    destruct (decide (1 ≤ cnt (new_v4 n) (drawn s s'))%nat) as [Hd|Hd].
    + apply drawn_elem in Hd as (k & Hk%new_v4_inj & Hk' & Hlt). subst. by destruct (Hlt Hn).
    + specialize (Hf ltac:(lia)). lia.
Qed.

Lemma slots_ok_follow lost s s' : slots_ok lost s → steady s s' → moves [] [] s s' → slots_ok lost s'.
Proof.
  intros [Ho Hs Hl] [H1 H2 H3] Hm. split; [by eapply own_moves|by rewrite H1|auto].
Qed.

(** *** Dispatch *)

Lemma pop_dispatchable_moves can_run s p ready :
  pop_dispatchable can_run (ac_ready s) = (Some p, ready) →
  moves [] [pe_run_id p] s (set_ac_ready ready s) ∧ can_run p = true.
Proof.
  unfold pop_dispatchable. destruct (pop_loop _ _ _ _ _) as [[[p' heap] pending]|] eqn:Hp;
    intros [= <- <-].
  apply pop_loop_Some in Hp as (key & _ & Hk & Hrun & -> & _). split; [|done].
  apply moves_intro; [|done|].
  - intros Hids r p. cbn. rewrite lookup_delete_Some. intros [_ ?]. auto.
  - intros Hids r. rewrite (Hids _ _ Hk). unfold occ. cbn [ac_ready set_ac_ready ac_jobs ac_timers ac_running rq_pending].
    pose proof (n_in_delete_out r (key_run_id key) (rq_pending (ac_ready s)) ltac:(by eexists)).
    cbn [cnt] in *. lia.
Qed.

Lemma pop_none_moves can_run s ready :
  pop_dispatchable can_run (ac_ready s) = (None, ready) →
  moves [] [] s (set_ac_ready ready s).
Proof.
  unfold pop_dispatchable. destruct (pop_loop _ _ _ _ _) as [[[p' heap] pending]|] eqn:Hp;
    intros [= <-]. by apply replace_ready_moves.
Qed.

Lemma in_step_insert lost s r j v f :
  in_step lost (slots s) → ac_running s !! r = None → task_view f = (r, (j, v)) →
  in_step lost (f :: ac_tasks s, ac_total_running s + 1, 
    (λ r, (run_job_id r, run_version r)) <$> <[r := mkRunning j v false]> (ac_running s)).
Proof.
  intros [Ht Hn] Hr Hf. split.
  - rewrite fmap_cons, Hf, fmap_insert, map_to_list_insert by (by rewrite lookup_fmap, Hr). cbn. by rewrite Ht.
  - cbn in Hn. rewrite Hn. unfold zsize. rewrite !map_size_fmap, map_size_insert_None by done. lia.
Qed.

Lemma spawn_execution_slots lost p s a s' :
  own [pe_run_id p] s → in_step lost (slots s) → log_wf s →
  spawn_execution p s = Some (a, s') → slots_ok lost s'.
Proof.
  intros Ho Hs Hl Hsp. unfold spawn_execution in Hsp. act_open.
  destruct (ac_jobs s !! pe_job_id p) as [j|] eqn:Hj; cbn in *.
  2:{ act_open. split; [|done..]. eapply own_moves; [done|].
      eapply (mv_drop [pe_run_id p] (mret tt)); [apply follows_ret, _|done]. }
  st_case; act_open.
  { split; [|done..]. eapply own_moves; [done|].
    eapply (mv_drop [pe_run_id p] (mret tt)); [apply follows_ret, _|done]. }
  match goal with He : emit _ ?s0 = Some (_, ?s1) |- _ =>
    pose proof (emit_steady _ _ _ _ He) as [_ E2 _];
    rewrite emit_eq in He; injection He as _ <- end.
  assert (Hnew : ac_running s !! pe_run_id p = None).
  { pose proof (own_unique _ _ Ho (pe_run_id p)) as Hu. unfold occ, n_in in Hu.
    cbn [cnt] in Hu. rewrite (decide_True (P := pe_run_id p = pe_run_id p)) in Hu by done.
    apply eq_None_not_Some. intros Hr. rewrite (decide_True (P := is_Some (ac_running s !! _))) in Hu by done. lia. }
  split; [| |by apply E2].
  - eapply own_moves; [exact Ho|]. apply moves_intro; [done|done|]. intros _ r. unfold occ. cbn.
    pose proof (msum_alter_le (blocked_cnt r) (ac_jobs s) (λ j,
          set_job_last_fired_at (Some (pe_scheduled_at p))
            (set_job_last_started_at (Some (utc_clock (ac_ticks s)))
              (set_job_running_count (job_running_count j + 1) j))) (pe_job_id p) ltac:(done)).
    pose proof (n_in_insert r (pe_run_id p) (mkRunning (pe_job_id p) (pe_version p) false) (ac_running s)).
    cbn [cnt] in *. lia.
  - by apply (in_step_insert lost s (pe_run_id p) (pe_job_id p) (pe_version p)).
Qed.

Lemma dispatch_loop_slots lost fuel s a s' :
  slots_ok lost s → dispatch_loop fuel s = Some (a, s') → slots_ok lost s'.
Proof.
  revert s. induction fuel as [|fuel IH]; intros s Hok Hs; cbn in Hs; [by act_open|].
  apply st_bind_Some in Hs as (? & ? & [-> ->]%st_get_Some & Hs). st_case; [|by act_open].
  destruct (pop_dispatchable _ _) as [[p|] ready] eqn:Hp.
  - apply st_bind_Some in Hs as (? & ? & ->%modify_ready_Some & Hs).
    apply st_bind_Some in Hs as (? & s1 & Hsp & Hs).
    apply pop_dispatchable_moves in Hp as [Hm _]. eapply IH; [|exact Hs].
    destruct Hok as [Ho Hst Hl]. eapply (spawn_execution_slots lost p (set_ac_ready ready s)); [|done|done|exact Hsp].
    by eapply own_moves.
  - apply modify_ready_Some in Hs as ->. apply pop_none_moves in Hp.
    destruct Hok as [Ho Hst Hl]. split; [by eapply own_moves|done|done].
Qed.

(** *** Completion *)

Lemma in_step_elem lost tasks total running f : in_step lost (tasks, total, running) → f ∈ tasks →
  running !! fl_run_id f = Some (md_job_id (fl_metadata f), md_version (fl_metadata f)).
Proof.
  intros [Ht _] Hf. apply elem_of_map_to_list. rewrite <-Ht. apply elem_of_app. left. apply list_elem_of_fmap. by exists f.
Qed.
(** The run ids of futures and lost entries are distinct. *)
Lemma in_step_NoDup lost tasks total running : in_step lost (tasks, total, running) → NoDup ((fl_run_id <$> tasks) ++ lost.*1).
Proof.
  intros [Ht _]. pose proof (NoDup_fst_map_to_list running) as Hn. rewrite <-Ht, fmap_app in Hn.
  replace (fl_run_id <$> tasks) with ((task_view <$> tasks).*1); [done|]. rewrite <-list_fmap_compose. by apply list_fmap_ext.
Qed.
Lemma task_list_split f tasks : f ∈ tasks → NoDup (fl_run_id <$> tasks) → tasks ≡ₚ f :: filter (λ g, fl_run_id g ≠ fl_run_id f) tasks.
Proof.
  intros (l1 & l2 & ->)%list_elem_of_split Hn. rewrite fmap_app, fmap_cons in Hn. apply NoDup_app in Hn as (_ & H12 & [Hf _]%NoDup_cons).
  rewrite filter_app, filter_cons_False by tauto. rewrite !filter_all_list; [by rewrite Permutation_middle| |]; intros g Hg.
  - intros E. apply Hf. rewrite <-E. by apply list_elem_of_fmap_2.
  - intros E. apply (H12 (fl_run_id g)); [by apply list_elem_of_fmap_2|]. rewrite E. left.
Qed.
Lemma in_step_remove lost tasks total running f :
  in_step lost (tasks, total, running) → f ∈ tasks →
  in_step lost (filter (λ g, fl_run_id g ≠ fl_run_id f) tasks, total - 1, delete (fl_run_id f) running) ∧
  in_step (task_view f :: lost) (filter (λ g, fl_run_id g ≠ fl_run_id f) tasks, total, running).
Proof.
  intros Hst Hf. pose proof (in_step_elem _ _ _ _ _ Hst Hf) as Hr. pose proof (in_step_NoDup _ _ _ _ Hst) as Hn.
  apply NoDup_app in Hn as (Hn & _ & _). destruct Hst as [Ht ->].
  pose proof (task_list_split f tasks Hf Hn) as Hp. rewrite Hp, fmap_cons in Ht at 1. set (rest := filter _ tasks) in *. split; split.
  - apply (Permutation_cons_inv (a := task_view f)). unfold task_view at 3. rewrite <-(map_to_list_delete running (fl_run_id f) _ Hr) in Ht. exact Ht.
  - unfold zsize. rewrite map_size_delete, Hr. unfold id. assert (size running ≠ 0%nat) by (by apply map_size_ne_0_lookup; exists (fl_run_id f); eexists). lia.
  - rewrite <-Ht. by rewrite <-Permutation_middle.
  - done.
Qed.

(** [release_execution_resources] frees the slot of the run and nothing else. *)
Lemma release_spec c s b s' :
  release_execution_resources c s = Some (b, s') →
  slots s' = (ac_tasks s, saturating_sub (ac_total_running s) 1, delete (tc_run_id c) (slots s).2) ∧
  (log_wf s → log_wf s') ∧
  (is_Some (ac_running s !! tc_run_id c) → moves [] [tc_run_id c] s s').
Proof.
  unfold release_execution_resources. intros Hs.
  apply st_bind_Some in Hs as (? & ? & ->%st_modify_Some & Hs).
  apply st_bind_Some in Hs as (? & ? & ->%st_modify_Some & Hs).
  apply st_bind_Some in Hs as (? & s2 & Hj & Hs). act_open.
  pose proof (release_job_steady _ _ _ _ Hj) as [H1 H2 _]. apply release_job_moves in Hj. split_and!.
  - rewrite H1. unfold slots. cbn. by rewrite fmap_delete.
  - apply H2.
  - intros Hr. eapply moves_r; [|exact Hj]. apply moves_intro; [done|done|].
    intros _ r. unfold occ. cbn [ac_ready ac_jobs ac_timers ac_running set_ac_total_running set_ac_running].
    pose proof (n_in_delete_out r (tc_run_id c) (ac_running s) Hr). lia.
Qed.

Lemma completion_slots lost c s a s' :
  slots_ok lost s → event_possible s (EvCompletion c) →
  handle_event (EvCompletion c) s = Some (a, s') → slots_ok lost s'.
Proof.
  intros [Ho Hst Hl] (f & Hf & Hmd & _) Hs. cbn in Hs.
  apply st_bind_Some in Hs as (? & ? & ->%st_modify_Some & Hs).
  apply st_bind_Some in Hs as (? & s2 & Hs & ?). act_open.
  apply st_bind_Some in Hs as (cur & s1 & Hrel & Hs).
  assert (Hid : fl_run_id f = tc_run_id c) by (unfold fl_run_id; by rewrite Hmd).
  pose proof (in_step_elem _ _ _ _ f Hst Hf) as Hrun. rewrite Hid in Hrun.
  assert (Hr : is_Some (ac_running s !! tc_run_id c)).
  { rewrite lookup_fmap in Hrun. destruct (ac_running s !! tc_run_id c); [by eexists|done]. }
  apply release_spec in Hrel as (Hsl & Hlog & Hm). specialize (Hm Hr).
  assert (Hpos : 1 ≤ ac_total_running s).
  { destruct Hst as [_ ->]. assert (size ((λ r, (run_job_id r, run_version r)) <$> ac_running s) ≠ 0%nat)
      by (by apply map_size_ne_0_lookup; exists (tc_run_id c); eexists). unfold zsize. lia. }
  assert (Hst1 : in_step lost (slots s1)).
  { rewrite Hsl. cbn. unfold saturating_sub. rewrite Z.max_r by lia.
    rewrite <-Hid. by apply (in_step_remove _ _ _ _ f Hst Hf). }
  assert (Ho1 : own [tc_run_id c] s1).
  { eapply own_moves; [|exact Hm]. eapply own_moves; [exact Ho|].
    apply moves_intro; [done|done|]. intros _ r. unfold occ. cbn. lia. }
  destruct cur.
  - apply st_bind_Some in Hs as (? & ? & [_ ->]%index_job_Some & Hs).
    pose proof (record_outcome_steady _ _ _ _ Hs) as [E1 E2 _].
    apply record_outcome_moves in Hs. split; [by eapply own_moves|by rewrite E1|auto].
  - act_open. split; [|done|by apply Hlog]. eapply own_moves; [exact Ho1|].
    eapply (mv_drop _ (mret tt)); [apply follows_ret, _|done].
Qed.

Lemma graceful_shutdown_slots lost s a s' :
  slots_ok lost s → graceful_shutdown s = Some (a, s') → slots_ok [] s'.
Proof.
  intros [Ho Hst Hl] Hs.
  assert (Hlog : log_wf s').
  { assert (Hf : follows (λ s s', log_wf s → log_wf s') graceful_shutdown).
    { assert (PreOrder (λ s s', log_wf s → log_wf s')) by (split; [by intros ??|intros ???; tauto]).
      assert (∀ k, follows (λ s s', log_wf s → log_wf s') (emit k))
        by (intros k s0 b s1 [_ ? _]%emit_steady; done).
      unfold graceful_shutdown, modify_ready. follow. }
    by eapply Hf. }
  unfold graceful_shutdown in Hs. act_open.
  repeat match goal with
  | He : emit _ _ = Some _ |- _ => rewrite emit_eq in He; injection He as _ <-
  end.
  split; [|by split|done]. eapply own_moves; [exact Ho|].
  apply moves_intro; [done|done|]. intros _ r. unfold occ. cbn. rewrite msum_empty.
  unfold n_in. rewrite !lookup_empty, !decide_False by (by intros [? ?]). lia.
Qed.

(** ** Reachable states *)

Lemma expired_slots lost k l s a s' :
  slots_ok lost s → handle_event (EvExpired k l) s = Some (a, s') → slots_ok lost s'.
Proof.
  intros Hok Hs. cbn in Hs. apply st_bind_Some in Hs as (? & ? & [-> ->]%st_gets_Some & Hs).
  destruct (ac_timers s !! k) as [[e t]|] eqn:Hk; [|by act_open].
  apply st_bind_Some in Hs as (? & ? & ->%st_modify_Some & Hs).
  apply st_bind_Some in Hs as (? & s1 & Hb & ?). act_open. destruct Hok as [Ho Hst Hl].
  pose proof (handle_expired_batch_steady _ _ _ _ _ Hb) as [E1 E2 _].
  split; [|by rewrite E1|by apply E2].
  eapply own_moves; [|by eapply handle_expired_batch_moves].
  eapply own_moves; [exact Ho|]. by eapply take_timer_moves.
Qed.

Lemma join_error_slots lost r s a s' :
  slots_ok lost s → event_possible s (EvJoinError r) → handle_event (EvJoinError r) s = Some (a, s') →
  ∃ v, v.1 = r ∧ slots_ok (v :: lost) s'.
Proof.
  intros [Ho Hst Hl] (f & Hf & <-) Hs. cbn in Hs. apply st_bind_Some in Hs as (? & ? & ->%st_modify_Some & ?). act_open.
  exists (task_view f). split; [done|]. split; [|by apply (in_step_remove _ _ _ _ f Hst Hf)|done].
  eapply own_moves; [exact Ho|]. apply moves_intro; [done|done|]. intros _ r. unfold occ. cbn. lia.
Qed.

(** What a step does to the lost entries. *)
Lemma actor_step_slots lost s s' : actor_step s s' → slots_ok lost s →
  ∃ lost', slots_ok lost' s' ∧ (lost' = lost ∨ lost' = [] ∨ ∃ v, lost' = v :: lost ∧ handle_event (EvJoinError v.1) s = Some (false, s')).
Proof.
  intros Hstep. destruct Hstep as [s s' Hs|s s' Hs|s s' ev stop Hev Hs|s s' Hs]; intros Hok.
  - exists lost. split; [|by left]. eapply slots_ok_follow; [done|eapply restore_blocked_steady, Hs|eapply restore_blocked_moves, Hs].
  - exists lost. split; [|by left]. unfold dispatch_ready in Hs. act_open. by eapply dispatch_loop_slots.
  - destruct ev as [c|c|k l| |r]; [exists lost; split; [|by left]..|].
    + unfold handle_event in Hs. apply st_bind_Some in Hs as (? & ? & Hs & ?). act_open.
      eapply slots_ok_follow; [done|eapply handle_command_steady, Hs|eapply handle_command_moves, Hs].
    + by eapply completion_slots.
    + by eapply expired_slots.
    + unfold handle_event in Hs. apply st_bind_Some in Hs as (? & ? & Hs & ?). act_open.
      eapply slots_ok_follow; [done|eapply reanchor_timers_steady, Hs|eapply reanchor_timers_moves, Hs].
    + destruct (join_error_slots _ _ _ _ _ Hok Hev Hs) as (v & <- & Hok'). exists (v :: lost). split; [done|]. right. right. exists v.
      split; [done|]. cbn in Hs |- *. apply st_bind_Some in Hs as (? & ? & ->%st_modify_Some & ?). by act_open.
  - exists []. split; [by eapply graceful_shutdown_slots|]. by right; left.
Qed.

Lemma new_actor_slots config : slots_ok [] (new_actor config).
Proof.
  split; [split|by split|by split].
  - intros r p. cbn. by rewrite lookup_empty.
  - intros r. unfold occ. cbn. rewrite !msum_empty. unfold n_in.
    rewrite !lookup_empty, !decide_False by (by intros [? ?]). lia.
  - intros n _. unfold occ. cbn. rewrite !msum_empty. unfold n_in.
    by rewrite !lookup_empty, !decide_False by (by intros [? ?]).
Qed.

Lemma reachable_slots config s : reachable config s → ∃ lost, slots_ok lost s.
Proof.
  unfold reachable. intros Hr. assert (∃ lost, slots_ok lost (new_actor config)) as Hok by (exists []; apply new_actor_slots). revert Hok.
  induction Hr as [|s1 s2 s3 Hstep _ IH]; [done|]. intros [lost Hok]. apply IH.
  destruct (actor_step_slots _ _ _ Hstep Hok) as (lost' & ? & _). eauto.
Qed.

(** A slot without a future. *)
Definition lost_slot (s : SchedulerActor) (r : RunId) : Prop := is_Some (ac_running s !! r) ∧ r ∉ fl_run_id <$> ac_tasks s.
Lemma lost_slot_iff lost s r : slots_ok lost s → lost_slot s r ↔ r ∈ lost.*1.
Proof.
  intros [_ Hst _]. pose proof (in_step_NoDup _ _ _ _ Hst) as Hn. apply NoDup_app in Hn as (_ & Hd & _). destruct Hst as [Ht _].
  assert (is_Some (ac_running s !! r) ↔ r ∈ (fl_run_id <$> ac_tasks s) ++ lost.*1) as E.
  { replace (fl_run_id <$> ac_tasks s) with ((task_view <$> ac_tasks s).*1) by (rewrite <-list_fmap_compose; by apply list_fmap_ext).
    rewrite <-fmap_app, Ht, list_elem_of_fmap. split.
    - intros [x Hx]. exists (r, (run_job_id x, run_version x)). split; [done|]. apply elem_of_map_to_list. by rewrite lookup_fmap, Hx.
    - intros ([k v] & -> & Hk%elem_of_map_to_list). rewrite lookup_fmap in Hk. cbn. destruct (ac_running s !! k); [by eexists|done]. }
  unfold lost_slot. rewrite E, elem_of_app. split; [tauto|]. intros Hr. split; [by right|]. intros Hf. by apply (Hd r).
Qed.

(** C1: in every state the actor can reach, [total_running] is the number of entries of
    [running]; every future of the [JoinSet] is registered in [running] under its own run id
    with its job and version, and no two futures share a run id.  The only way in which a
    slot loses its future is a [JoinError]: a step leaves a slot without a future only if it
    was without one before or the step is the [JoinError] of that very execution (which the
    loop only logs), the actor starts without such slots, and as long as there is none the
    counter is the number of futures.  So apart from a [JoinError] a slot is never leaked,
    and it is never freed twice, however commands, timers, completions and cancellations
    interleave. *)
Theorem slot_accounting config s :
  reachable config s →
  ac_total_running s = zsize (ac_running s) ∧
  NoDup (fl_run_id <$> ac_tasks s) ∧
  (∀ f, f ∈ ac_tasks s →
    ∃ r, ac_running s !! fl_run_id f = Some r ∧
      run_job_id r = md_job_id (fl_metadata f) ∧ run_version r = md_version (fl_metadata f)) ∧
  (∀ s' r, actor_step s s' → lost_slot s' r → lost_slot s r ∨ handle_event (EvJoinError r) s = Some (false, s')) ∧
  (∀ r, ¬ lost_slot (new_actor config) r) ∧
  ((∀ r, ¬ lost_slot s r) → ac_total_running s = zlen (ac_tasks s)).
Proof.
  intros [lost Hok]%reachable_slots. pose proof Hok as [_ Hst _]. pose proof Hst as [Ht Hn]. split_and!.
  - rewrite Hn. unfold zsize. by rewrite map_size_fmap.
  - by pose proof (in_step_NoDup _ _ _ _ Hst) as (? & _)%NoDup_app.
  - intros f Hf. pose proof (in_step_elem _ _ _ _ f Hst Hf) as Hr.
    rewrite lookup_fmap_Some in Hr. destruct Hr as (r & [= <- <-] & Hr). eauto.
  - intros s' r Hstep Hl. destruct (actor_step_slots _ _ _ Hstep Hok) as (lost' & Hok' & Hcase).
    apply (lost_slot_iff _ _ _ Hok') in Hl. rewrite (lost_slot_iff _ _ _ Hok). destruct Hcase as [->|[->|(v & -> & Hj)]].
    + by left.
    + by apply elem_of_nil in Hl.
    + apply elem_of_cons in Hl as [->|Hl]; [by right|by left].
  - intros r [[x Hx] _]. cbn in Hx. by rewrite lookup_empty in Hx.
  - intros Hno. assert (lost = []) as ->.
    { destruct lost as [|v lost]; [done|]. destruct (Hno v.1). apply (lost_slot_iff _ _ _ Hok). left. }
    rewrite Hn. rewrite app_nil_r in Ht. apply Permutation_length in Ht. rewrite length_fmap, length_map_to_list in Ht. unfold zsize, zlen. lia.
Qed.

(** in every state the actor can reach, a run id is in at most one place: an
    execution that waits in the ready queue is not running, not blocked and not
    asleep until a retry, and so on for each place. *)
Theorem run_ids_unique config s r :
  reachable config s →
  (occ r s ≤ 1)%nat ∧
  (∀ p, rq_pending (ac_ready s) !! r = Some p → pe_run_id p = r ∧ ac_running s !! r = None).
Proof.
  intros [lost [[Hids Hu _] _ _]]%reachable_slots. specialize (Hu r). cbn in Hu. split; [lia|].
  intros p Hp. split; [by apply Hids|]. apply eq_None_not_Some. intros Hr.
  unfold occ, n_in in Hu. rewrite Hp in Hu.
  rewrite (decide_True (P := is_Some (Some p))), (decide_True (P := is_Some (ac_running s !! r))) in Hu;
    [lia|done|by eexists].
Qed.

(** the events the actor has sent are numbered 1, 2, 3, ... (wrapping at
    [2^64]) without a gap or a repetition, so a subscriber can detect lost events. *)
Theorem event_sequence_gapless config s : reachable config s → log_wf s.
Proof. by intros [lost [_ _ ?]]%reachable_slots. Qed.

End Slots.

(** ** Witnesses *)

Lemma slot_accounting_witness :
  ac_total_running demo_s3 = 1 ∧ ac_total_running demo_s3 = zlen (ac_tasks demo_s3).
Proof.
  split; [vm_compute; reflexivity|].
  destruct (slot_accounting demo_config demo_s3 demo_s3_reachable) as (_ & _ & _ & _ & _ & Heq). apply Heq.
  intros r [[x Hx] Hno]. apply Hno. revert Hx Hno. vm_compute (ac_tasks _). cbn. intros Hx _.
  destruct (decide (r = 1000)) as [->|Hr]; [left|]. exfalso.
  assert (dom (ac_running demo_s3) = {[1000]}) as Hd by (vm_compute; reflexivity).
  apply elem_of_dom_2 in Hx. rewrite Hd in Hx. by apply elem_of_singleton in Hx.
Defined.

(** A [JoinError] leaves the slot of its execution taken for good: no future is left that
    could release it. *)
Definition demo_join_error : SchedulerActor := after (handle_event (EvJoinError 1000)) demo_s3.
Lemma join_error_leaks_slot :
  reachable demo_config demo_join_error ∧ ac_total_running demo_join_error = 1 ∧ ac_tasks demo_join_error = [].
Proof.
  split_and!; [|vm_compute; reflexivity..]. eapply rtc_r; [apply demo_s3_reachable|]. apply after_event_step.
  - destruct (ac_tasks demo_s3) as [|f l] eqn:E; [vm_compute in E; discriminate|]. exists f. rewrite E. split; [left|].
    vm_compute in E. injection E as <- <-. reflexivity.
  - by eexists.
Qed.

Lemma run_ids_unique_witness :
  is_Some (ac_running demo_s3 !! 1000) ∧ (occ 1000 demo_s3 ≤ 1)%nat ∧
  (∀ p, rq_pending (ac_ready demo_s3) !! 1000 = Some p →
     pe_run_id p = 1000 ∧ ac_running demo_s3 !! 1000 = None).
Proof.
  split; [vm_compute; eexists; reflexivity|].
  apply (run_ids_unique demo_config demo_s3 1000). apply demo_s3_reachable.
Defined.

Lemma event_sequence_gapless_witness : log_wf demo_s3.
Proof. apply (event_sequence_gapless demo_config demo_s3). apply demo_s3_reachable. Defined.
