(* ===== verification/Capacity.v ===== *)
(** * Limits on waiting and running executions

    Only [admit] and [restore_blocked] put executions into the ready queue, and
    both look at [global_max_pending] first; only [dispatch_ready] starts
    executions, and it looks at [global_concurrency] and at the limit of the job. *)

From stdpp Require Import base gmap strings list.
From S2P Require Import Prelude StLogic SchedModel Timing ReadyQueue Actor Engine.
From S2P Require Import EngineFrames RunIds Slots Demo.

(** The configuration stays and the ready queue does not grow. *)
Record shrinks (s s' : SchedulerActor) : Prop := {
  sh_config : ac_config s' = ac_config s;
  sh_len : rq_len (ac_ready s') ≤ rq_len (ac_ready s);
}.

(** The configuration stays and the ready queue does not grow beyond its limit. *)
Record within (s s' : SchedulerActor) : Prop := {
  wi_config : ac_config s' = ac_config s;
  wi_len : rq_len (ac_ready s')
             ≤ Z.max (rq_len (ac_ready s)) (global_max_pending (ac_config s));
}.

Global Instance shrinks_preorder : PreOrder shrinks.
Proof. split; [by split|]. intros s1 s2 s3 [H1 H2] [H3 H4]. split; [congruence|lia]. Qed.

Global Instance within_preorder : PreOrder within.
Proof.
  split; [intros s; split; [done|lia]|].
  intros s1 s2 s3 [H1 H2] [H3 H4]. split; [congruence|]. rewrite H1 in H4. lia.
Qed.

Lemma shrinks_within s s' : shrinks s s' → within s s'.
Proof. intros [? ?]. split; [done|lia]. Qed.

Lemma follows_shrinks_within {A} (m : ST SchedulerActor A) : follows shrinks m → follows within m.
Proof. intros Hm s a s' ?%Hm. by apply shrinks_within. Qed.

Section Shrinks.
Context `{C : Chrono} `{H : HashOrder} `{HL : !HashOrderLaws H} `{R : Runtime}.

Ltac frame := intros ? ? ? [= <- <-]; by split.

Lemma utc_now_shrinks : follows shrinks utc_now.
Proof. frame. Qed.

Lemma mono_now_shrinks : follows shrinks mono_now.
Proof. frame. Qed.

Lemma draw_uuid_shrinks : follows shrinks draw_uuid.
Proof. frame. Qed.

Lemma emit_shrinks k : follows shrinks (emit k).
Proof. intros s a s'. rewrite emit_eq. revert s a s'. frame. Qed.

Lemma modify_job_shrinks id f : follows shrinks (modify_job id f).
Proof. frame. Qed.

Lemma set_jobs_shrinks f : follows shrinks (st_modify (λ s, set_ac_jobs (f s) s)).
Proof. frame. Qed.

Lemma set_timers_shrinks f : follows shrinks (st_modify (λ s, set_ac_timers (f s) s)).
Proof. frame. Qed.

Lemma set_retry_timers_shrinks f : follows shrinks (st_modify (λ s, set_ac_retry_timers (f s) s)).
Proof. frame. Qed.

Lemma set_running_shrinks f : follows shrinks (st_modify (λ s, set_ac_running (f s) s)).
Proof. frame. Qed.

Lemma set_total_running_shrinks f : follows shrinks (st_modify (λ s, set_ac_total_running (f s) s)).
Proof. frame. Qed.

Lemma set_tasks_shrinks f : follows shrinks (st_modify (λ s, set_ac_tasks (f s) s)).
Proof. frame. Qed.

Lemma set_batch_sequence_shrinks f : follows shrinks (st_modify (λ s, set_ac_batch_sequence (f s) s)).
Proof. frame. Qed.

Lemma set_shutdown_response_shrinks b : follows shrinks (st_modify (set_ac_shutdown_response b)).
Proof. frame. Qed.

Lemma get_job_shrinks id : follows shrinks (get_job id).
Proof. apply follows_gets, _. Qed.

Lemma modify_ready_shrinks f :
  (∀ q, rq_len (f q) ≤ rq_len q) → follows shrinks (modify_ready f).
Proof. intros Hf s a s' ->%modify_ready_Some. split; cbn; auto. Qed.

Lemma remove_job_shrinks id : follows shrinks (modify_ready (λ q, (remove_job q id).2)).
Proof.
  apply modify_ready_shrinks. intros q. unfold rq_len, zsize. cbn.
  apply Nat2Z.inj_le, map_subseteq_size, map_filter_subseteq.
Qed.

Lemma remove_normal_triggers_shrinks id :
  follows shrinks (modify_ready (λ q, (remove_normal_triggers q id).2)).
Proof.
  apply modify_ready_shrinks. intros q. unfold rq_len, zsize. cbn.
  apply Nat2Z.inj_le, map_subseteq_size, map_filter_subseteq.
Qed.

Lemma migrate_job_shrinks id v p : follows shrinks (modify_ready (λ q, migrate_job q id v p)).
Proof.
  apply modify_ready_shrinks. intros q. unfold rq_len, zsize.
  rewrite migrate_job_pending, map_size_fmap. done.
Qed.

Hint Resolve utc_now_shrinks mono_now_shrinks draw_uuid_shrinks emit_shrinks modify_job_shrinks
  set_jobs_shrinks set_timers_shrinks set_retry_timers_shrinks set_running_shrinks
  set_total_running_shrinks set_tasks_shrinks set_batch_sequence_shrinks
  set_shutdown_response_shrinks get_job_shrinks remove_job_shrinks remove_normal_triggers_shrinks
  migrate_job_shrinks : follows.

Lemma schedule_normal_shrinks id t k : follows shrinks (schedule_normal id t k).
Proof. unfold schedule_normal, take_normal_timer, timers_insert_at, timers_try_remove. follow. Qed.

Lemma schedule_retry_shrinks id v r sa at_ t : follows shrinks (schedule_retry id v r sa at_ t).
Proof. unfold schedule_retry, timers_insert_at, timers_try_remove. follow. Qed.

Lemma clear_retry_timers_shrinks id : follows shrinks (clear_retry_timers id).
Proof. unfold clear_retry_timers, timers_try_remove. follow. Qed.

Lemma reanchor_timers_shrinks : follows shrinks reanchor_timers.
Proof. unfold reanchor_timers, timers_reset_at. follow. Qed.

Hint Resolve schedule_normal_shrinks schedule_retry_shrinks clear_retry_timers_shrinks : follows.

Lemma force_disable_shrinks id reason : follows shrinks (force_disable id reason).
Proof. unfold force_disable, take_normal_timer, timers_try_remove, cancel_job_version. follow. Qed.

Hint Resolve force_disable_shrinks : follows.

Lemma block_shrinks p : follows shrinks (block p).
Proof. unfold block. follow. Qed.

Lemma record_final_failure_shrinks id e c : follows shrinks (record_final_failure id e c).
Proof. unfold record_final_failure. follow. Qed.

Hint Resolve block_shrinks record_final_failure_shrinks : follows.

Lemma handle_execution_failure_shrinks md e c : follows shrinks (handle_execution_failure md e c).
Proof. unfold handle_execution_failure, datetime_add, index_job. follow. Qed.

Lemma delete_job_shrinks id v c : follows shrinks (delete_job id v c).
Proof. unfold delete_job, check_version, index_job, timers_try_remove, cancel_job_version. follow. Qed.

Hint Resolve handle_execution_failure_shrinks delete_job_shrinks : follows.

Lemma handle_completion_shrinks c : follows shrinks (handle_completion c).
Proof.
  unfold handle_completion, release_execution_resources, release_job, index_job, record_outcome,
    record_execution_success, record_callback_failure, handle_closed_output_channel,
    handle_execution_timeout, handle_execution_panic, record_execution_cancelled,
    cancel_job_version. follow.
Qed.

Lemma snapshot_of_shrinks id : follows shrinks (snapshot_of id).
Proof. unfold snapshot_of, index_job. follow. Qed.

Lemma plan_job_update_shrinks id v p : follows shrinks (plan_job_update id v p).
Proof. unfold plan_job_update. follow. Qed.

Hint Resolve snapshot_of_shrinks plan_job_update_shrinks : follows.

Lemma update_job_shrinks id v p : follows shrinks (update_job id v p).
Proof. unfold update_job, apply_job_update, migrate_pending, timers_try_remove, cancel_job_version. follow. Qed.

Lemma enable_job_shrinks id v : follows shrinks (enable_job id v).
Proof. unfold enable_job, check_version, index_job. follow. Qed.

Lemma disable_job_shrinks id v r : follows shrinks (disable_job id v r).
Proof. unfold disable_job, check_version. follow. Qed.

Lemma draw_job_id_shrinks n : follows shrinks (draw_job_id n).
Proof. induction n; cbn; follow. Qed.

Hint Resolve update_job_shrinks enable_job_shrinks disable_job_shrinks draw_job_id_shrinks : follows.

Lemma add_job_shrinks id g e t b o : follows shrinks (add_job id g e t b o).
Proof. unfold add_job, choose_job_id. follow. Qed.

Lemma precheck_updates_shrinks t l : follows shrinks (precheck_updates t l).
Proof. revert t. induction l; intros t; cbn; follow. Qed.

Lemma precheck_additions_shrinks t l : follows shrinks (precheck_additions t l).
Proof. revert t. induction l; intros t; cbn; follow. Qed.

Hint Resolve add_job_shrinks precheck_updates_shrinks precheck_additions_shrinks : follows.

Lemma reconcile_jobs_shrinks plan : follows shrinks (reconcile_jobs plan).
Proof. unfold reconcile_jobs, precheck, apply_update, apply_addition, check_version. follow. Qed.

Lemma disable_jobs_violating_limits_shrinks : follows shrinks disable_jobs_violating_limits.
Proof. unfold disable_jobs_violating_limits. follow. Qed.

(** ** Admission *)

Lemma rq_insert_len q p : rq_len (rq_insert q p) ≤ rq_len q + 1.
Proof.
  unfold rq_len, zsize. rewrite rq_insert_pending, map_size_insert. case_match; unfold id; lia.
Qed.

Lemma remove_oldest_len q jid o q' :
  remove_oldest_trigger q jid = (o, q') →
  rq_len q' ≤ rq_len q - (if o is Some _ then 1 else 0).
Proof.
  unfold remove_oldest_trigger. case_match; intros [= <- <-]; [|cbn; lia].
  unfold rq_len, zsize. cbn. rewrite map_size_delete.
  destruct (rq_pending q !! pe_run_id p) eqn:Hp; [|unfold id; lia].
  assert (size (rq_pending q) ≠ 0%nat) by (apply map_size_ne_0_lookup; eexists; by eexists). lia.
Qed.

Lemma admit_insert_len p s a s' :
  admit_insert p s = Some (a, s') →
  ac_config s' = ac_config s ∧ rq_len (ac_ready s') ≤ rq_len (ac_ready s) + 1.
Proof.
  unfold admit_insert. intros Hs. apply st_bind_Some in Hs as (? & ? & ->%modify_ready_Some & Hs).
  apply st_bind_Some in Hs as (? & ? & [-> ->]%st_gets_Some & Hs). act_open.
  match goal with He : emit _ _ = Some _ |- _ => apply emit_shrinks in He as [E1 E2] end.
  rewrite E1. split; [done|]. etrans; [exact E2|]. apply rq_insert_len.
Qed.

Hint Extern 5 (follows within _) => apply follows_shrinks_within; solve [eauto 3 with follows] : follows.

Lemma coalesce_latest_shrinks p : follows shrinks (coalesce_latest p).
Proof.
  unfold coalesce_latest. apply follows_bind_get. intros s a s' Hs.
  destruct (remove_normal_triggers (ac_ready s) (pe_job_id p)) as [removed ready] eqn:Hr.
  apply st_bind_Some in Hs as (? & ? & ->%modify_ready_Some & Hs).
  transitivity (set_ac_ready ready s).
  - change ready with (removed, ready).2. rewrite <-Hr.
    by eapply (remove_normal_triggers_shrinks (pe_job_id p)).
  - apply st_bind_Some in Hs as (j & ? & [-> ->]%get_job_Some & Hs).
    apply st_bind_Some in Hs as (? & s2 & Hb & Hs).
    etrans; [|eapply (follows_for shrinks); [|exact Hs]; intros ?; apply emit_shrinks].
    destruct (ac_jobs _ !! _); act_open; by split.
Qed.

Hint Resolve coalesce_latest_shrinks : follows.

Lemma admit_within p b : follows within (admit_execution p b).
Proof.
  unfold admit_execution. apply follows_bind; [apply _|follow|]. intros [j|]; [|follow].
  apply follows_bind; [apply _|follow|]. intros s0. apply follows_bind; [apply _|follow|]. intros ?.
  apply follows_bind_get. intros s ? s' Hs. st_case.
  - match type of Hs with (match ?c with _ => _ end) _ = _ => destruct c end.
    + revert Hs. apply (follows_shrinks_within (block p ;; mret Blocked)). follow.
    + apply shrinks_within. act_open. by eapply emit_shrinks.
    + destruct (remove_oldest_trigger _ _) as [[old|] ready] eqn:Ho;
        apply remove_oldest_len in Ho;
        apply st_bind_Some in Hs as (? & ? & ->%modify_ready_Some & Hs);
        apply st_bind_Some in Hs as (? & s1 & Hs1 & Hs).
      * apply emit_shrinks in Hs1 as [E1 E2]. apply admit_insert_len in Hs as [E3 E4].
        cbn in *. split; [congruence|]. lia.
      * act_open. apply block_shrinks in Hs1 as [E1 E2]. cbn in *. split; [congruence|]. lia.
  - bools. apply admit_insert_len in Hs as [E3 E4]. split; [done|]. lia.
Qed.

Hint Resolve admit_within : follows.

Lemma admit_occurrences_within id v k pr b o l bl :
  follows within (admit_occurrences id v k pr b o l bl).
Proof. revert bl. induction l as [|t l IH]; intros bl; cbn; follow. Qed.

Hint Resolve admit_occurrences_within : follows.

Lemma handle_normal_trigger_within id sa b rn : follows within (handle_normal_trigger id sa b rn).
Proof. unfold handle_normal_trigger, run_due_batch. follow. Qed.

Hint Resolve handle_normal_trigger_within : follows.

Lemma handle_timer_within e b : follows within (handle_timer e b).
Proof. unfold handle_timer. follow. Qed.

Hint Resolve handle_timer_within : follows.

Lemma collect_expired_shrinks l n es : follows shrinks (collect_expired l n es).
Proof. revert n es. induction l as [|k l IH]; intros [|n] es; cbn; unfold timers_try_remove; follow. Qed.

Hint Resolve collect_expired_shrinks : follows.

Lemma handle_expired_batch_within e l : follows within (handle_expired_batch e l).
Proof. unfold handle_expired_batch. follow. Qed.

Lemma pop_blocked_shrinks id : follows shrinks (pop_blocked id).
Proof. unfold pop_blocked. follow. Qed.

Hint Resolve pop_blocked_shrinks : follows.

Lemma restore_loop_within id lim fuel rf : follows within (restore_loop id lim fuel rf).
Proof.
  revert rf. induction fuel as [|fuel IH]; intros rf; cbn; [follow|].
  apply follows_bind_get. intros s ? s' Hs. st_case; [|by act_open].
  apply st_bind_Some in Hs as (o & s1 & [Ho1 Ho2]%pop_blocked_shrinks & Hs).
  destruct o as [p|]; [|act_open; split; [done|lia]].
  apply st_bind_Some in Hs as (j & ? & [_ ->]%index_job_Some & Hs). st_case.
  - apply st_bind_Some in Hs as (? & ? & ->%modify_ready_Some & Hs).
    transitivity (set_ac_ready (rq_insert (ac_ready s1) p) s1).
    { split; [done|]. cbn. pose proof (rq_insert_len (ac_ready s1) p). bools. lia. }
    apply st_bind_Some in Hs as (? & ? & [-> ->]%st_gets_Some & Hs).
    apply st_bind_Some in Hs as (? & ? & He%emit_shrinks%shrinks_within & Hs%IH). by etrans.
  - apply IH in Hs. etrans; [|exact Hs]. apply shrinks_within. by split.
Qed.

Hint Resolve restore_loop_within : follows.

Lemma restore_blocked_within : follows within restore_blocked.
Proof. unfold restore_blocked, restore_job, index_job. follow. Qed.

Lemma spawn_execution_shrinks p : follows shrinks (spawn_execution p).
Proof. unfold spawn_execution. follow. Qed.

Lemma pop_dispatchable_len can_run q o q' :
  pop_dispatchable can_run q = (o, q') → rq_len q' ≤ rq_len q.
Proof.
  unfold pop_dispatchable. destruct (pop_loop _ _ _ _ _) as [[[p heap] pending]|] eqn:Hp;
    intros [= <- <-]; [|done].
  apply pop_loop_Some in Hp as (key & _ & _ & _ & -> & _). unfold rq_len, zsize. cbn.
  apply Nat2Z.inj_le, map_subseteq_size, delete_subseteq.
Qed.

Lemma dispatch_loop_shrinks fuel : follows shrinks (dispatch_loop fuel).
Proof.
  induction fuel as [|fuel IH]; cbn; [follow|]. apply follows_bind_get. intros s a s' Hs.
  st_case; [|by act_open]. destruct (pop_dispatchable _ _) as [[p|] ready] eqn:Hp;
    apply pop_dispatchable_len in Hp.
  - apply st_bind_Some in Hs as (? & ? & ->%modify_ready_Some & Hs).
    transitivity (set_ac_ready ready s); [by split|].
    apply st_bind_Some in Hs as (? & ? & ?%spawn_execution_shrinks & ?%IH). by etrans.
  - apply modify_ready_Some in Hs as ->. by split.
Qed.

End Shrinks.

(** ** Dispatch *)

(** The number of executions of a job that may run at the same time. *)
Definition job_limit (s : SchedulerActor) (j : JobEntry) : Z :=
  Z.pos (default (default_job_concurrency (ac_config s)) (job_concurrency j)).

(** What a round of dispatch may change. *)
Record dispatched (s s' : SchedulerActor) : Prop := {
  di_config : ac_config s' = ac_config s;
  di_total : ac_total_running s ≤ ac_total_running s'
             ≤ Z.max (ac_total_running s) (Z.pos (global_concurrency (ac_config s)));
  di_dom : dom (ac_jobs s') = dom (ac_jobs s);
  di_jobs : ∀ id j, ac_jobs s !! id = Some j →
    ∃ j', ac_jobs s' !! id = Some j' ∧ job_version j' = job_version j ∧
      job_state j' = job_state j ∧ job_concurrency j' = job_concurrency j ∧
      job_running_count j ≤ job_running_count j' ≤ Z.max (job_running_count j) (job_limit s j);
  di_pending : rq_pending (ac_ready s') ⊆ rq_pending (ac_ready s);
  di_started : ∀ r x, ac_running s' !! r = Some x → ac_running s !! r = Some x ∨
    ∃ p j, rq_pending (ac_ready s) !! r = Some p ∧ x = mkRunning (pe_job_id p) (pe_version p) false ∧
      ac_jobs s !! pe_job_id p = Some j ∧ job_version j = pe_version p ∧ job_state j = Enabled;
}.

Lemma dispatched_refl s : dispatched s s.
Proof.
  split; [done|lia|done| |done|by left].
  intros id j Hj. exists j. split_and!; done || lia.
Qed.

Lemma dispatched_trans s1 s2 s3 : dispatched s1 s2 → dispatched s2 s3 → dispatched s1 s3.
Proof.
  intros [A1 A2 A6 A3 A4 A5] [B1 B2 B6 B3 B4 B5]. split.
  - congruence.
  - rewrite A1 in B2. lia.
  - congruence.
  - intros id j (j2 & Hj2 & ? & ? & Hc & ?)%A3. apply B3 in Hj2 as (j3 & ? & ? & ? & ? & Hb).
    unfold job_limit in *. rewrite A1, Hc in Hb. exists j3. split_and!; congruence || lia.
  - by etrans.
  - intros r x [Hr|(p & j2 & Hp & -> & Hj2 & Hv & He)]%B5; [by apply A5|]. right.
    rewrite map_subseteq_spec in A4. apply A4 in Hp. exists p.
    destruct (ac_jobs s1 !! pe_job_id p) as [j|] eqn:Hj.
    + destruct (A3 _ _ Hj) as (j' & Hj' & Hv' & He' & _). simplify_eq. exists j.
      split_and!; congruence.
    + apply not_elem_of_dom in Hj. rewrite <-A6 in Hj. apply not_elem_of_dom in Hj. congruence.
Qed.

Section Dispatch.
Context `{C : Chrono} `{H : HashOrder} `{HL : !HashOrderLaws H} `{R : Runtime}.

Lemma can_dispatch_true s p :
  can_dispatch s p = true →
  ∃ j, ac_jobs s !! pe_job_id p = Some j ∧ job_version j = pe_version p ∧ job_state j = Enabled ∧
    job_running_count j < job_limit s j.
Proof.
  unfold can_dispatch. destruct (ac_jobs s !! pe_job_id p) as [j|]; [|done]. intros Hc. bools. eauto.
Qed.

(** An execution that may run is started. *)
Lemma spawn_execution_spec p s j :
  ac_jobs s !! pe_job_id p = Some j → job_version j = pe_version p →
  ∃ s' t, spawn_execution p s = Some (tt, s') ∧
    ac_config s' = ac_config s ∧ ac_ready s' = ac_ready s ∧
    ac_total_running s' = ac_total_running s + 1 ∧
    ac_running s' = <[pe_run_id p := mkRunning (pe_job_id p) (pe_version p) false]> (ac_running s) ∧
    ac_jobs s' = <[pe_job_id p :=
      set_job_last_fired_at (Some (pe_scheduled_at p))
        (set_job_last_started_at (Some t) (set_job_running_count (job_running_count j + 1) j))]>
      (ac_jobs s).
Proof.
  intros Hj Hv. unfold spawn_execution. cbv [mbind st_bind get_job st_gets]. rewrite Hj.
  rewrite bool_decide_eq_false_2 by tauto. eexists. exists (utc_clock (ac_ticks s)).
  split; [reflexivity|]. cbn. split_and!; try done.
  by rewrite (alter_Some _ _ _ _ Hj).
Qed.

Lemma pop_wf can_run q p q' :
  rq_wf q → pop_dispatchable can_run q = (Some p, q') → rq_wf q'.
Proof.
  intros [Hids Hkd]. unfold pop_dispatchable.
  destruct (pop_loop _ _ _ _ _) as [[[p' heap] pending]|] eqn:Hp; intros [= -> <-].
  apply pop_loop_Some in Hp as (key & _ & _ & _ & -> & _ & Hkeep). split; cbn.
  - intros r p' [_ ?]%lookup_delete_Some. eauto.
  - intros r p' [Hne Hr]%lookup_delete_Some. destruct (Hkd r p' Hr) as (k & Hk & <-).
    exists k. split; [|done]. apply Hkeep; [set_solver|by eexists|done].
Qed.

Lemma pop_none can_run q q' r p :
  rq_wf q → pop_dispatchable can_run q = (None, q') →
  rq_pending q' = rq_pending q ∧ (rq_pending q !! r = Some p → can_run p = false).
Proof.
  intros [_ Hkd]. unfold pop_dispatchable.
  destruct (pop_loop _ _ _ _ _) as [[[p' heap] pending]|] eqn:Hp; intros [= <-].
  split; [done|]. intros Hr. destruct (Hkd r p Hr) as (k & Hk & <-).
  apply not_true_iff_false. intros Hc. eapply pop_loop_None in Hp; [|done|exact Hk].
  apply Hp. by exists p.
Qed.

Lemma pop_some can_run q p q' :
  ids_ok q → pop_dispatchable can_run q = (Some p, q') →
  can_run p = true ∧ rq_pending q !! pe_run_id p = Some p ∧
  rq_pending q' = delete (pe_run_id p) (rq_pending q).
Proof.
  intros Hids. unfold pop_dispatchable.
  destruct (pop_loop _ _ _ _ _) as [[[p' heap] pending]|] eqn:Hp; intros [= -> <-].
  apply pop_loop_Some in Hp as (key & _ & Hk & Hrun & -> & _). cbn. by rewrite (Hids _ _ Hk).
Qed.

(** One turn of the loop. *)
Lemma dispatch_turn s p ready :
  ids_ok (ac_ready s) → ac_total_running s < Z.pos (global_concurrency (ac_config s)) →
  pop_dispatchable (can_dispatch s) (ac_ready s) = (Some p, ready) →
  ∃ s', spawn_execution p (set_ac_ready ready s) = Some (tt, s') ∧ ac_ready s' = ready ∧
    dispatched s s'.
Proof.
  intros Hids Hlt Hp. apply pop_some in Hp as ((j & Hj & Hv & He & Hc)%can_dispatch_true & Hr & Hd);
    [|done].
  destruct (spawn_execution_spec p (set_ac_ready ready s) j Hj Hv)
    as (s' & t & Hs & E1 & E2 & E3 & E4 & E5). cbn in *.
  exists s'. split_and!; [done..|]. split.
  - done.
  - lia.
  - rewrite E5, dom_insert_L. apply elem_of_dom_2 in Hj. set_solver.
  - intros id j' Hj'. rewrite E5. destruct (decide (id = pe_job_id p)) as [->|Hne].
    + simplify_eq. eexists. rewrite lookup_insert_eq. split; [done|]. cbn. split_and!; done || lia.
    + rewrite lookup_insert_ne by done. exists j'. split_and!; done || lia.
  - rewrite E2, Hd. apply delete_subseteq.
  - intros r x. rewrite E4, lookup_insert. case_decide as Hrr; [|by left].
    intros [= <-]. right. subst r. exists p, j. done.
Qed.

Lemma dispatch_loop_spec fuel s :
  ids_ok (ac_ready s) → (size (rq_pending (ac_ready s)) ≤ fuel)%nat →
  ∃ s', dispatch_loop fuel s = Some (tt, s') ∧ dispatched s s' ∧
    (rq_wf (ac_ready s) →
     Z.pos (global_concurrency (ac_config s)) ≤ ac_total_running s' ∨
     ∀ r p, rq_pending (ac_ready s') !! r = Some p → can_dispatch s' p = false).
Proof.
  revert s. induction fuel as [|fuel IH]; intros s Hids Hf; cbn [dispatch_loop].
  { exists s. split_and!; [done|apply dispatched_refl|]. intros _. right. intros r p Hr.
    assert (rq_pending (ac_ready s) = ∅) as Hem by (apply map_size_empty_inv; lia).
    rewrite Hem in Hr. done. }
  cbv [mbind st_bind st_get].
  destruct (bool_decide (ac_total_running s < _)) eqn:Hlt; bools; cbn [andb].
  2:{ exists s. split_and!; [done|apply dispatched_refl|]. intros _. left. lia. }
  destruct (rq_is_empty (ac_ready s)) eqn:Hem; cbn [negb].
  { exists s. split_and!; [done|apply dispatched_refl|]. intros _. right. intros r p Hr.
    unfold rq_is_empty in Hem. bools. rewrite Hem in Hr. done. }
  destruct (pop_dispatchable _ _) as [[p|] ready] eqn:Hp.
  - destruct (dispatch_turn s p ready Hids Hlt Hp) as (s1 & Hsp & Hr1 & Hd1).
    pose proof (pop_some _ _ _ _ Hids Hp) as (_ & Hin & Hdel).
    destruct (IH s1) as (s2 & Hs2 & Hd2 & Hw2).
    + rewrite Hr1. intros r p'. rewrite Hdel. intros [_ ?]%lookup_delete_Some. auto.
    + rewrite Hr1, Hdel, map_size_delete, Hin. lia.
    + exists s2. cbv [mbind st_bind modify_ready st_modify]. rewrite Hsp. split_and!; [done| |].
      * by eapply dispatched_trans.
      * intros Hwf. destruct Hd1 as [<- _ _ _ _ _]. apply Hw2. rewrite Hr1. by eapply pop_wf.
  - eexists. split; [reflexivity|]. split.
    + split; cbn; [done|lia|done| | |by left].
      * intros id j Hj. exists j. split_and!; done || lia.
      * unfold pop_dispatchable in Hp.
        destruct (pop_loop _ _ _ _ _) as [[[??]?]|]; by simplify_eq/=.
    + intros Hwf. right. cbn. intros r p Hr. 
      destruct (pop_none (can_dispatch s) (ac_ready s) ready r p Hwf Hp) as [Heq Hno].
      rewrite Heq in Hr. by apply Hno in Hr.
Qed.

End Dispatch.

(** ** The limits *)

Section Limits.
Context `{C : Chrono} `{H : HashOrder} `{HL : !HashOrderLaws H} `{R : Runtime}.

Lemma update_config_len r p s a s' :
  update_config r p s = Some (a, s') → rq_len (ac_ready s') ≤ rq_len (ac_ready s).
Proof.
  unfold update_config. intros Hs. apply st_bind_Some in Hs as (? & ? & [-> ->]%st_get_Some & Hs).
  st_case; [by act_open|].
  apply st_try_Some in Hs as [([] & ? & [_ ->]%st_ret_Some & Hs)|(e & [_ ->]%st_ret_Some & _)]; [|done].
  apply st_try_Some in Hs as [(rev & ? & [_ ->]%st_ret_Some & Hs)|(e & [_ ->]%st_ret_Some & _)]; [|done].
  apply st_bind_Some in Hs as (? & ? & ->%st_modify_Some & Hs).
  apply st_bind_Some in Hs as (? & ? & [_ H1]%disable_jobs_violating_limits_shrinks & Hs).
  apply st_bind_Some in Hs as (? & ? & [_ H2]%emit_shrinks & Hs). act_open. cbn in H1. lia.
Qed.

Lemma handle_command_len c s a s' :
  handle_command c s = Some (a, s') → rq_len (ac_ready s') ≤ rq_len (ac_ready s).
Proof.
  intros Hs. destruct c; cbn in Hs; apply st_bind_Some in Hs as (? & ? & Hs & ?); act_open; try done;
    first [by eapply update_config_len | eapply sh_len; first
      [ eapply add_job_shrinks, Hs | eapply update_job_shrinks, Hs | eapply enable_job_shrinks, Hs
      | eapply disable_job_shrinks, Hs | eapply delete_job_shrinks, Hs
      | eapply reconcile_jobs_shrinks, Hs ]].
Qed.

(** whatever the actor does in one step, the number of executions waiting in
    the ready queue stays within [global_max_pending], or does not grow if a
    configuration change had left it above. *)
Theorem pending_within_limit s s' :
  actor_step s s' →
  rq_len (ac_ready s') ≤ Z.max (rq_len (ac_ready s)) (global_max_pending (ac_config s)).
Proof.
  intros Hstep. destruct Hstep as [s s' Hs|s s' Hs|s s' ev stop Hev Hs|s s' Hs].
  - eapply wi_len, restore_blocked_within, Hs.
  - unfold dispatch_ready in Hs. act_open.
    match goal with Hd : dispatch_loop _ _ = _ |- _ => apply dispatch_loop_shrinks in Hd as [_ ?] end. lia.
  - destruct ev as [c|c|k l| |r]; unfold handle_event in Hs;
      apply st_bind_Some in Hs as (? & ? & Hs & Hr).
    + act_open. apply handle_command_len in Hs. lia.
    + apply st_bind_Some in Hr as (? & ? & [_ H2]%handle_completion_shrinks & Hr). act_open.
      unfold join_task in Hs. act_open. etrans; [exact H2|]. cbn. lia.
    + act_open. st_case; [|act_open; lia]. destruct p as [e t].
      apply st_bind_Some in Hr as (? & ? & ->%st_modify_Some & Hr).
      apply st_bind_Some in Hr as (? & ? & [_ H2]%handle_expired_batch_within & Hr). act_open. done.
    + act_open. apply reanchor_timers_shrinks in Hs as [_ ?]. lia.
    + unfold join_task in Hs. act_open. cbn. lia.
  - unfold graceful_shutdown in Hs. act_open.
    repeat match goal with
    | He : emit _ _ = Some _ |- _ => rewrite emit_eq in He; injection He as _ <-
    end. unfold rq_len, zsize. cbn. rewrite map_size_empty. lia.
Qed.

(** C30: [dispatch_ready] always returns; it keeps the number of running
    executions within [global_concurrency] and each job within its own limit (or
    starts nothing where the limit is already exceeded), and every execution it
    starts was waiting for a job that is enabled and still at the version the
    execution was queued for. *)
Theorem dispatch_ready_limits s :
  ids_ok (ac_ready s) → ∃ s', dispatch_ready s = Some (tt, s') ∧ dispatched s s'.
Proof.
  intros Hids. destruct (dispatch_loop_spec _ s Hids (le_n _)) as (s' & Hs & Hd & _). eauto.
Qed.

(** [dispatch_ready] is work conserving as long as every waiting execution has
    its key in the heap: it stops only at the global limit or when no waiting
    execution may run. *)
Theorem dispatch_ready_work_conserving s :
  rq_wf (ac_ready s) →
  ∃ s', dispatch_ready s = Some (tt, s') ∧
    (Z.pos (global_concurrency (ac_config s)) ≤ ac_total_running s' ∨
     ∀ r p, rq_pending (ac_ready s') !! r = Some p → can_dispatch s' p = false).
Proof.
  intros Hwf. destruct (dispatch_loop_spec _ s (rq_ids _ Hwf) (le_n _)) as (s' & Hs & _ & Hw). eauto.
Qed.

End Limits.

(** ** Witnesses *)

(** Job 7 has one execution waiting in [demo_s2]; it is started in [demo_s3]. *)
Lemma pending_within_limit_witness :
  rq_len (ac_ready demo_s3)
    ≤ Z.max (rq_len (ac_ready demo_s2)) (global_max_pending (ac_config demo_s2)) ∧
  rq_len (ac_ready demo_s2) = 1.
Proof.
  split; [|vm_compute; reflexivity].
  apply (pending_within_limit demo_s2 demo_s3). apply after_dispatch_step. vm_compute. by eexists.
Defined.

Lemma demo_s2_wf : rq_wf (ac_ready demo_s2).
Proof.
  assert (ac_ready demo_s2 = rq_insert new_ready_queue
    (mkPending 7 1 1000 1 0 PendingNormal 5 1)) as -> by (vm_compute; reflexivity).
  apply rq_insert_wf, new_ready_queue_wf.
Qed.

Lemma dispatch_ready_limits_witness :
  ∃ s', dispatch_ready demo_s2 = Some (tt, s') ∧ dispatched demo_s2 s'.
Proof. apply (dispatch_ready_limits demo_s2). exact (rq_ids _ demo_s2_wf). Defined.

Lemma dispatch_ready_work_conserving_witness :
  ∃ s', dispatch_ready demo_s2 = Some (tt, s') ∧
    (Z.pos (global_concurrency (ac_config demo_s2)) ≤ ac_total_running s' ∨
     ∀ r p, rq_pending (ac_ready s') !! r = Some p → can_dispatch s' p = false).
Proof. apply (dispatch_ready_work_conserving demo_s2). apply demo_s2_wf. Defined.
