(* ===== verification/Management.v ===== *)
(** * Management commands

    What [force_disable], [delete_job], [update_job], [add_job] and
    [reconcile_jobs] do to the whole state of the actor, errors included. *)

From stdpp Require Import base gmap strings list.
From S2P Require Import Prelude StLogic SchedModel Timing ReadyQueue Actor Engine.
From S2P Require Import EngineFrames RunIds Slots Capacity Demo.

(** ** Retry timers of a job *)

Section RetryTimers.
Context `{C : Chrono} `{H : HashOrder} `{HL : !HashOrderLaws H} `{R : Runtime}.

(** The retry timers that are left, and the keys taken out of the [DelayQueue]. *)
Definition other_retries (id : JobId) (s : SchedulerActor) : gmap Z RetryTimer :=
  filter (λ rt, rt_job_id rt.2 ≠ id) (ac_retry_timers s).

Definition retry_keys (id : JobId) (s : SchedulerActor) : list Z :=
  (λ rt, rt_key rt.2) <$> filter (λ rt, rt_job_id rt.2 = id) (map_to_list (ac_retry_timers s)).

(** The effect of the loop of [clear_retry_timers] over a list of run ids. *)
Lemma clear_loop_spec (ids : list Z) s :
  ∃ rts ts,
    st_for ids (λ run_id,
      timer ← st_gets (λ s, ac_retry_timers s !! run_id);
      match timer with
      | Some timer =>
          st_modify (λ s, set_ac_retry_timers (delete run_id (ac_retry_timers s)) s) ;;
          timers_try_remove (rt_key timer)
      | None => mret tt
      end) s = Some (tt, set_ac_timers ts (set_ac_retry_timers rts s)) ∧
    (∀ r, rts !! r = if decide (r ∈ ids) then None else ac_retry_timers s !! r) ∧
    (∀ k x, ts !! k = Some x ↔ ac_timers s !! k = Some x ∧
       ∀ r t, r ∈ ids → ac_retry_timers s !! r = Some t → rt_key t ≠ k).
Proof.
  revert s. induction ids as [|i ids IH]; intros s.
  { exists (ac_retry_timers s), (ac_timers s). split_and!; [by destruct s|done|].
    intros k x. split; [|tauto]. intros Hk. split; [done|]. set_solver. }
  cbn [st_for]. cbv [mbind st_bind st_gets].
  destruct (ac_retry_timers s !! i) as [t|] eqn:Hi; cbv [mret st_ret st_modify timers_try_remove].
  - destruct (IH (set_ac_timers (delete (rt_key t) (ac_timers s))
      (set_ac_retry_timers (delete i (ac_retry_timers s)) s))) as (rts & ts & Hs & Hr & Ht).
    cbv [mbind st_bind st_gets st_modify mret st_ret timers_try_remove] in Hs. cbn in *.
    exists rts, ts. split_and!; [exact Hs| |].
    + intros r. rewrite Hr. destruct (decide (r = i)) as [->|Hne].
      * rewrite lookup_delete_eq, (decide_True (P := i ∈ i :: ids)) by set_solver. by case_decide.
      * rewrite lookup_delete_ne by done. do 2 case_decide; set_solver.
    + intros k x. rewrite Ht, lookup_delete_Some. split.
      * intros [[Hk Hx] Hall]. split; [done|]. intros r t' [->|Hin]%elem_of_cons Hr'; [congruence|].
        destruct (decide (r = i)) as [->|Hne]; [congruence|].
        eapply Hall; [exact Hin|]. by rewrite lookup_delete_ne.
      * intros [Hx Hall]. split; [split; [|done]|].
        { apply (Hall i t); [set_solver|done]. }
        intros r t' Hin [_ Hr']%lookup_delete_Some. eapply Hall; [|exact Hr']. set_solver.
  - destruct (IH s) as (rts & ts & Hs & Hr & Ht). exists rts, ts. split_and!; [exact Hs| |].
    + intros r. rewrite Hr. destruct (decide (r = i)) as [->|Hne].
      * rewrite (decide_True (P := i ∈ i :: ids)) by set_solver. by rewrite Hi; case_decide.
      * do 2 case_decide; set_solver.
    + intros k x. rewrite Ht. split; intros [Hx Hall]; split; try done; intros r t' Hin Hr'.
      * apply elem_of_cons in Hin as [->|Hin]; [congruence|]. eauto.
      * eapply Hall; [|exact Hr']. set_solver.
Qed.

(** [clear_retry_timers] drops the retry timers of the job, in the map and in the
    [DelayQueue], and nothing else. *)
Lemma clear_retry_timers_spec id s :
  ∃ ts, clear_retry_timers id s =
      Some (tt, set_ac_timers ts (set_ac_retry_timers (other_retries id s) s)) ∧
    ∀ k x, ts !! k = Some x ↔ ac_timers s !! k = Some x ∧ k ∉ retry_keys id s.
Proof.
  unfold clear_retry_timers. cbv [mbind st_bind st_get].
  assert (Hids : ∀ r, r ∈ (filter (λ rt, rt_job_id rt.2 = id) (hash_iter (ac_retry_timers s))).*1 ↔
    ∃ t, ac_retry_timers s !! r = Some t ∧ rt_job_id t = id).
  { intros r. rewrite list_elem_of_fmap. split.
    - intros ([r' t] & -> & [Hj Ht]%list_elem_of_filter). rewrite hash_iter_perm in Ht.
      apply elem_of_map_to_list in Ht. eauto.
    - intros (t & Ht & Hj). exists (r, t). split; [done|]. apply list_elem_of_filter.
      rewrite hash_iter_perm, elem_of_map_to_list. done. }
  destruct (clear_loop_spec (filter (λ rt, rt_job_id rt.2 = id) (hash_iter (ac_retry_timers s))).*1 s)
    as (rts & ts & Hs & Hr & Ht).
  exists ts. split.
  - etrans; [exact Hs|]. do 4 f_equal. apply map_eq. intros r. rewrite Hr. unfold other_retries.
    destruct (ac_retry_timers s !! r) as [t|] eqn:Hrt.
    + destruct (decide (rt_job_id t = id)) as [Hj|Hj].
      * rewrite decide_True by (apply Hids; eauto). symmetry. apply map_lookup_filter_None.
        right. intros t' Ht'. naive_solver.
      * rewrite decide_False by (rewrite Hids; naive_solver). symmetry.
        by apply map_lookup_filter_Some.
    + transitivity (@None RetryTimer); [by case_decide|]. symmetry. apply map_lookup_filter_None. by left.
  - intros k x. rewrite Ht. apply and_iff_compat_l. unfold retry_keys. rewrite list_elem_of_fmap. split.
    + intros Hall ([r t] & -> & [Hj Hin%elem_of_map_to_list]%list_elem_of_filter).
      eapply (Hall r t); [apply Hids; eauto|done|done].
    + intros Hno r t Hin Hrt <-. apply Hno. exists (r, t). split; [done|].
      apply list_elem_of_filter. rewrite elem_of_map_to_list. apply Hids in Hin as (t' & ? & ?).
      split; [|done]. cbn. congruence.
Qed.

End RetryTimers.

(** ** Disabling and deleting *)

(** From [s] to [s'] everything that could start an execution of the job is gone
    (its waiting executions, its retry timers and its normal timer), the other jobs
    and the slots are as they were. *)
Record purged (id : JobId) (j : JobEntry) (s s' : SchedulerActor) : Prop := {
  pu_ready : ∀ r p, rq_pending (ac_ready s') !! r = Some p ↔
    rq_pending (ac_ready s) !! r = Some p ∧ pe_job_id p ≠ id;
  pu_retry : ac_retry_timers s' = other_retries id s;
  pu_timers : ∀ k x, ac_timers s' !! k = Some x ↔
    ac_timers s !! k = Some x ∧ (k ∉ retry_keys id s) ∧ job_normal_timer_key j ≠ Some k;
  pu_jobs : ∀ id', id' ≠ id → ac_jobs s' !! id' = ac_jobs s !! id';
  pu_rest : ac_config s' = ac_config s ∧ slots s' = slots s ∧ ac_uuids s' = ac_uuids s;
}.

(** The entry of a disabled job. *)
Definition disabled_entry (reason : string) (now : DateTime) (j : JobEntry) : JobEntry :=
  set_job_updated_at now
    (set_job_state (Disabled reason) (set_job_blocked [] (set_job_next_run_at None
      (set_job_normal_timer_key None (set_job_version (job_version j + 1) j))))).

Section Disabling.
Context `{C : Chrono} `{H : HashOrder} `{HL : !HashOrderLaws H} `{R : Runtime}.

Lemma take_normal_timer_spec id j0 j s :
  ac_jobs s !! id = Some j → job_normal_timer_key j0 = job_normal_timer_key j →
  take_normal_timer id j0 s = Some (tt,
    set_ac_timers
      (match job_normal_timer_key j with Some k => delete k (ac_timers s) | None => ac_timers s end)
      (set_ac_jobs (<[id := set_job_normal_timer_key None j]> (ac_jobs s)) s)).
Proof.
  intros Hj Hk0. unfold take_normal_timer. rewrite Hk0. destruct (job_normal_timer_key j) as [k|] eqn:Hk.
  - cbv [mbind st_bind modify_job st_modify timers_try_remove]. cbn. do 4 f_equal.
    by apply alter_Some.
  - cbv [mret st_ret]. do 2 f_equal. destruct s. cbn in *. unfold set_ac_timers, set_ac_jobs. cbn. f_equal.
    rewrite insert_id; [done|]. rewrite Hj. f_equal. destruct j. cbn in *. subst. done.
Qed.

Lemma force_disable_spec id reason s j :
  ac_jobs s !! id = Some j → job_version j + 1 ≤ u64_max →
  ∃ s' now, force_disable id reason s = Some (Ok tt, s') ∧ purged id j s s' ∧
    ac_jobs s' !! id = Some (disabled_entry reason now j) ∧
    ac_running s' = cancel_if id (job_version j) <$> ac_running s.
Proof.
  intros Hj Hv. unfold force_disable. cbv [mbind st_bind get_job st_gets]. rewrite Hj.
  assert (checked_add_u64 (job_version j) 1 = Some (job_version j + 1)) as ->
    by (by apply checked_add_u64_Some).
  cbv [modify_job st_modify]. cbn [ac_jobs set_ac_jobs]. rewrite (alter_Some _ _ _ _ Hj).
  set (j1 := set_job_version (job_version j + 1) j).
  rewrite (take_normal_timer_spec id j j1) by (done || apply lookup_insert_eq).
  cbn [ac_jobs set_ac_jobs set_ac_timers ac_timers]. cbv [utc_now].
  match goal with |- context [clear_retry_timers id ?s0] =>
    destruct (clear_retry_timers_spec id s0) as (ts & -> & Hts) end.
  eexists. exists (utc_clock (ac_ticks s)). split; [reflexivity|]. split; [split|split].
  - intros r p. exact (extract_if_pending (λ p, pe_job_id p = id) (ac_ready s) r p).
  - done.
  - intros k x. cbn -[filter] in *. rewrite Hts. change (retry_keys id _) with (retry_keys id s).
    destruct (job_normal_timer_key j) as [k'|]; [rewrite lookup_delete_Some|]; naive_solver.
  - intros id' Hne. cbn. by rewrite !lookup_alter_ne, !lookup_insert_ne by done.
  - split_and!; [done| |done]. apply (cancel_slots id (job_version j) s).
  - cbn. rewrite !lookup_alter_eq, lookup_insert_eq. done.
  - done.
Qed.

Lemma force_disable_err id reason s :
  (ac_jobs s !! id = None → force_disable id reason s = Some (Err (JobNotFound id), s)) ∧
  (∀ j, ac_jobs s !! id = Some j → u64_max < job_version j + 1 →
     force_disable id reason s = Some (Err (VersionOverflow id), s)).
Proof.
  unfold force_disable. cbv [mbind st_bind get_job st_gets]. split.
  - by intros ->.
  - intros j -> Hv. unfold checked_add_u64. by decide_false.
Qed.

(** [disable_job] with the current version of an existing job always
    succeeds: the job is [Disabled] at the next version with no timer, no blocked
    execution and no next run; its waiting executions, retry timers and normal
    timer are gone; exactly its executions of the old version are asked to stop;
    every other job and every slot is as it was.  With another version, or for a
    job that does not exist, it changes nothing. *)
Theorem disable_job_correct id v reason s :
  match ac_jobs s !! id with
  | None => disable_job id v reason s = Some (Err (JobNotFound id), s)
  | Some j =>
      if bool_decide (job_version j = v) then
        v + 1 ≤ u64_max →
        ∃ snap s' now, disable_job id v reason s = Some (Ok snap, s') ∧ purged id j s s' ∧
          ac_jobs s' !! id = Some (disabled_entry reason now j) ∧
          ac_running s' = cancel_if id v <$> ac_running s ∧
          snap_state snap = Disabled reason ∧ snap_version snap = v + 1
      else disable_job id v reason s = Some (Err (VersionConflict id v (job_version j)), s)
  end.
Proof.
  unfold disable_job, check_version, st_try.
  destruct (ac_jobs s !! id) as [j|] eqn:Hj; [case_bool_decide as Hv|];
    cbv [mbind st_bind get_job st_gets mret st_ret]; rewrite Hj.
  - intros Hb. rewrite bool_decide_eq_true_2 by done. subst v.
    destruct (force_disable_spec id reason s j Hj Hb) as (s' & now & -> & Hp & Hj' & Hr).
    unfold snapshot_of, index_job. cbv [mbind st_bind get_job st_gets]. rewrite Hj'.
    eexists _, s', now. split; [reflexivity|]. done.
  - by rewrite bool_decide_eq_false_2.
  - done.
Qed.

(** [delete_job] with the current version of an existing job always succeeds
    and removes the job together with everything that could start it again; with
    another version, or for a job that does not exist, it changes nothing. *)
Theorem delete_job_correct id v s :
  match ac_jobs s !! id with
  | None => delete_job id v true s = Some (Err (JobNotFound id), s)
  | Some j =>
      if bool_decide (job_version j = v) then
        ∃ s', delete_job id v true s = Some (Ok tt, s') ∧ purged id j s s' ∧
          ac_jobs s' = delete id (ac_jobs s) ∧
          ac_running s' = cancel_if id v <$> ac_running s
      else delete_job id v true s = Some (Err (VersionConflict id v (job_version j)), s)
  end.
Proof.
  unfold delete_job, check_version, st_try, index_job.
  destruct (ac_jobs s !! id) as [j|] eqn:Hj; [case_bool_decide as Hv|];
    cbv [mbind st_bind get_job st_gets mret st_ret st_expect st_modify]; rewrite Hj.
  - rewrite bool_decide_eq_true_2 by done. rewrite Hj.
    match goal with |- context [clear_retry_timers id] => idtac end.
    destruct (job_normal_timer_key j) as [k|] eqn:Hk; cbv [timers_try_remove st_modify];
    (match goal with |- context [clear_retry_timers id ?s0] =>
      destruct (clear_retry_timers_spec id s0) as (ts & -> & Hts) end);
    (eexists; split; [reflexivity|]; split_and!; [|done|done]; split;
     [ intros r p; exact (extract_if_pending (λ p, pe_job_id p = id) (ac_ready s) r p)
     | done
     | intros k' x; cbn -[filter] in *; rewrite Hts; change (retry_keys id _) with (retry_keys id s);
       rewrite ?lookup_delete_Some; naive_solver
     | intros id' Hne; cbn; by rewrite lookup_delete_ne
     | split_and!; [done| |done]; apply (cancel_slots id v s)]).
  - by rewrite bool_decide_eq_false_2.
  - done.
Qed.

End Disabling.

(** ** Updating *)

Section Updating.
Context `{C : Chrono} `{H : HashOrder} `{HL : !HashOrderLaws H} `{R : Runtime}.

(** [schedule_normal] when [DelayQueue] accepts the deadline. *)
Lemma schedule_normal_spec id t kind s j :
  (∀ a b, delay_in_range a b = true) → ac_jobs s !! id = Some j →
  ∃ s' k d, schedule_normal id t kind s = Some (tt, s') ∧
    ac_jobs s' = <[id := set_job_next_run_at (Some t) (set_job_normal_timer_key (Some k) j)]> (ac_jobs s) ∧
    ac_timers s' = <[k := (mkTimerEntry id (job_version j) t kind, d)]>
      (match job_normal_timer_key j with Some k => delete k (ac_timers s) | None => ac_timers s end) ∧
    ac_ready s' = ac_ready s ∧ ac_retry_timers s' = ac_retry_timers s ∧
    ac_running s' = ac_running s ∧ slots s' = slots s ∧ ac_config s' = ac_config s.
Proof.
  intros Hd Hj. unfold schedule_normal. cbv [mbind st_bind get_job st_gets]. rewrite Hj.
  rewrite (take_normal_timer_spec id j j s Hj eq_refl).
  unfold timers_insert_at. cbv [mbind st_bind utc_now mono_now st_get st_modify modify_job mret st_ret].
  rewrite Hd. eexists _, _, _. split; [reflexivity|]. cbn. split; [|done].
  rewrite (alter_Some _ _ _ (set_job_normal_timer_key None j)) by apply lookup_insert_eq.
  by rewrite insert_insert_eq.
Qed.

(** A rejected update reads the clock at most once and changes nothing else. *)
Lemma plan_job_update_err id v patch s e s' :
  plan_job_update id v patch s = Some (Err e, s') → ∃ n, s' = set_ac_ticks n s.
Proof.
  assert (Hself : ∃ n, s = set_ac_ticks n s) by (exists (ac_ticks s); by destruct s).
  unfold plan_job_update. intros Hs. apply st_bind_Some in Hs as (? & ? & [-> ->]%st_get_Some & Hs).
  destruct (ac_jobs s !! id) as [j|]; [|by act_open]. st_case; [by act_open|].
  do 3 (apply st_try_Some in Hs as [(? & ? & [_ ->]%st_ret_Some & Hs)|(? & [_ ->]%st_ret_Some & _)]; [|done]).
  apply st_bind_Some in Hs as (now & s1 & [= <- <-] & Hs).
  apply st_try_Some in Hs as [(? & ? & [_ ->]%st_ret_Some & Hs)|(? & [_ ->]%st_ret_Some & _)]; act_open; eauto.
Qed.

(** an update is rejected without a trace: for a job that does not exist or
    with a version that is not the current one [update_job] answers
    [JobNotFound] or [VersionConflict] in the same state, and whatever error it
    answers, it has changed nothing but the number of clock readings. *)
Theorem update_job_rejected id v patch s :
  (ac_jobs s !! id = None → update_job id v patch s = Some (Err (JobNotFound id), s)) ∧
  (∀ j, ac_jobs s !! id = Some j → job_version j ≠ v →
     update_job id v patch s = Some (Err (VersionConflict id v (job_version j)), s)) ∧
  (∀ e s', update_job id v patch s = Some (Err e, s') → ∃ n, s' = set_ac_ticks n s).
Proof.
  split_and!.
  - intros Hj. unfold update_job, plan_job_update, st_try. cbv [mbind st_bind st_get]. by rewrite Hj.
  - intros j Hj Hv. unfold update_job, plan_job_update, st_try. cbv [mbind st_bind st_get]. rewrite Hj.
    by rewrite bool_decide_eq_true_2.
  - intros e s' [(plan & s1 & _ & Hs)|(e' & Hp & _)]%st_try_Some.
    + apply st_bind_Some in Hs as (? & ? & _ & Hs). act_open. done.
    + by eapply plan_job_update_err.
Qed.

(** What [migrate_pending] leaves of the waiting executions of the job. *)
Lemma migrate_pending_spec id changed j s :
  ∃ q j', migrate_pending id changed j s = Some (j', set_ac_ready q s) ∧
    (∀ r p, rq_pending q !! r = Some p → pe_job_id p = id →
       changed = false ∧ pe_version p = job_version j) ∧
    (∀ r p, pe_job_id p ≠ id → rq_pending q !! r = Some p ↔ rq_pending (ac_ready s) !! r = Some p) ∧
    (if changed then j' = set_job_consecutive_failures 0 (set_job_blocked [] j)
     else j' = set_job_blocked
            (set_pe_version_priority (job_version j) (job_priority j) <$> job_blocked j) j).
Proof.
  unfold migrate_pending, remove_job, remove_normal_triggers.
  cbv [modify_ready st_modify mbind st_bind mret st_ret].
  assert (Hmig : ∀ r p,
    rq_pending (migrate_job (ac_ready s) id (job_version j) (job_priority j)) !! r = Some p →
    (pe_job_id p = id → pe_version p = job_version j)).
  { intros r p. rewrite migrate_job_pending, lookup_fmap_Some. intros (p0 & <- & Hr).
    case_bool_decide; [done|]. done. }
  assert (Hoth : ∀ r p, pe_job_id p ≠ id →
    rq_pending (migrate_job (ac_ready s) id (job_version j) (job_priority j)) !! r = Some p ↔
    rq_pending (ac_ready s) !! r = Some p).
  { intros r p Hne. rewrite migrate_job_pending, lookup_fmap_Some. split.
    - intros (p0 & <- & Hr). case_bool_decide; [done|]. done.
    - intros Hr. exists p. split; [|done]. by rewrite bool_decide_eq_false_2. }
  destruct changed; [|destruct (bool_decide (job_coalescing j = KeepLatest))].
  - eexists _, _. split; [reflexivity|]. split_and!; [| |done]; intros r p.
    + intros [_ Hp]%(extract_if_pending (λ p, pe_job_id p = id)). done.
    + intros Hne. rewrite (extract_if_pending (λ p, pe_job_id p = id)). tauto.
  - eexists _, _. split; [reflexivity|]. split_and!; [| |done]; intros r p.
    + intros [Hp _]%(extract_if_pending (replaceable_of id)). eauto.
    + intros Hne. rewrite (extract_if_pending (replaceable_of id)). cbn. rewrite Hoth by done.
      unfold replaceable_of. tauto.
  - eexists _, _. split; [reflexivity|]. split_and!; [| |done]; intros r p; cbn; eauto.
Qed.

(** The job as [update_job] leaves it, timers aside. *)
Record updated (patch : JobPatch) (changed : bool) (j j' : JobEntry) : Prop := {
  ud_version : job_version j' = job_version j + 1;
  ud_trigger : job_trigger j' = default (job_trigger j) (patch_trigger patch);
  ud_task : job_task j' = default (job_task j) (task_kind <$> patch_task patch);
  ud_options : job_options_from_entry j' = patched_job_options j patch;
  ud_state : job_state j' = job_state j;
  ud_running : job_running_count j' = job_running_count j;
  ud_failures : job_consecutive_failures j' = if changed then 0 else job_consecutive_failures j;
  ud_blocked : job_blocked j' = if changed then [] else
    set_pe_version_priority (job_version j') (job_priority j') <$> job_blocked j;
}.

(** The update takes effect in the actor. *)
Record update_effect (id : JobId) (v : Z) (patch : JobPatch) (changed : bool)
    (next : option DateTime) (j : JobEntry) (s s' : SchedulerActor) : Prop := {
  ue_job : ∃ j', ac_jobs s' !! id = Some j' ∧ updated patch changed j j' ∧
    job_next_run_at j' = if bool_decide (job_state j = Enabled) then next else None;
  ue_others : ∀ id', id' ≠ id → ac_jobs s' !! id' = ac_jobs s !! id';
  ue_retries : ac_retry_timers s' = other_retries id s;
  ue_ready : ∀ r p, rq_pending (ac_ready s') !! r = Some p → pe_job_id p = id →
    changed = false ∧ pe_version p = v + 1;
  ue_running : ac_running s' = if changed then cancel_if id v <$> ac_running s else ac_running s;
}.

Lemma schedule_maybe_spec id (next : option DateTime) kind s j :
  (∀ a b, delay_in_range a b = true) → ac_jobs s !! id = Some j → job_next_run_at j = None →
  ∃ s' j', (match next with
      | Some t => if bool_decide (job_state j = Enabled) then schedule_normal id t kind else mret tt
      | None => mret tt
      end) s = Some (tt, s') ∧
    ac_jobs s' = <[id := j']> (ac_jobs s) ∧ (∃ k, j' = set_job_next_run_at
      (if bool_decide (job_state j = Enabled) then next else None) (set_job_normal_timer_key k j)) ∧
    ac_ready s' = ac_ready s ∧ ac_retry_timers s' = ac_retry_timers s ∧
    ac_running s' = ac_running s.
Proof.
  intros Hd Hj Hn.
  assert (Hid : set_job_next_run_at None (set_job_normal_timer_key (job_normal_timer_key j) j) = j)
    by (destruct j; cbn in *; by subst).
  destruct next as [t|]; [case_bool_decide|].
  - destruct (schedule_normal_spec id t kind s j Hd Hj)
      as (s' & k & d & -> & E1 & _ & E2 & E3 & E4 & _). eexists s', _. split; [done|].
    split; [exact E1|]. eauto 6.
  - exists s, j. split; [done|]. rewrite insert_id by done. split; [done|]. eauto.
  - exists s, j. split; [done|]. rewrite insert_id by done. split; [done|].
    case_bool_decide; eauto.
Qed.

Lemma apply_job_update_spec id v patch plan s j :
  (∀ a b, delay_in_range a b = true) →
  ac_jobs s !! id = Some j → job_version j = v → up_next_version plan = v + 1 →
  ∃ snap s', apply_job_update id v patch plan s = Some (snap, s') ∧
    update_effect id v patch (up_trigger_changed plan || up_task_changed plan)
      (up_next_run_at plan) j s s'.
Proof.
  intros Hd Hj Hv Hn. unfold apply_job_update.
  cbv [mbind st_bind get_job st_gets st_expect mret st_ret st_modify utc_now]. rewrite Hj.
  cbn [ac_jobs set_ac_jobs ac_ticks].
  set (changed := up_trigger_changed plan || up_task_changed plan).
  set (j1 := set_job_updated_at _ _).
  set (s1 := set_ac_ticks _ _).
  assert (∃ s2, (match job_normal_timer_key j1 with
     | Some key => timers_try_remove key | None => λ s, Some ((), s) end) s1 = Some (tt, s2) ∧
     ac_jobs s2 = delete id (ac_jobs s) ∧ ac_retry_timers s2 = ac_retry_timers s ∧
     ac_ready s2 = ac_ready s ∧ ac_running s2 = ac_running s) as (s2 & -> & A1 & A2 & A3 & A4).
  { destruct (job_normal_timer_key j1); eexists; split; reflexivity || done. }
  destruct (clear_retry_timers_spec id s2) as (ts & -> & _).
  set (s3 := set_ac_timers ts _).
  match goal with |- context [migrate_pending id changed ?j2 s3] =>
    destruct (migrate_pending_spec id changed j2 s3) as (q & j3 & -> & Hq1 & Hq2 & Hj3); set (j2' := j2) in * end.
  cbv beta iota zeta.
  match goal with |- context [schedule_normal id _ ?kind] =>
    destruct (schedule_maybe_spec id (up_next_run_at plan) kind
      (set_ac_jobs (<[id := j3]> (ac_jobs (set_ac_ready q s3))) (set_ac_ready q s3)) j3 Hd
      (lookup_insert_eq _ _ _)) as (s6 & j4 & Hs6 & B1 & (k & B5) & B2 & B3 & B4) end.
  { unfold j2' in Hj3. destruct changed; by subst j3. }
  cbv [mret st_ret] in Hs6. rewrite Hs6. clear Hs6. cbn in B1, B2, B3, B4.
  assert (Hlk : ac_jobs s6 !! id = Some j4) by (by rewrite B1, lookup_insert_eq).
  assert (Hud : updated patch changed j j4 ∧
    job_next_run_at j4 = if bool_decide (job_state j = Enabled) then up_next_run_at plan else None).
  { subst j4. unfold j2', j1 in Hj3. rewrite Hn, <-Hv in Hj3. clear -Hj3.
    destruct changed; subst j3; (split; [split|]; done). }
  assert (Hres : ∀ s7, ac_jobs s7 = ac_jobs s6 → ac_ready s7 = ac_ready s6 →
    ac_retry_timers s7 = ac_retry_timers s6 →
    ac_running s7 = (if changed then cancel_if id v <$> ac_running s else ac_running s) →
    update_effect id v patch changed (up_next_run_at plan) j s s7).
  { intros s7 F1 F2 F3 F4. split; [|..|done].
    - exists j4. by rewrite F1, Hlk.
    - intros id' Hne. rewrite F1, B1, !lookup_insert_ne, A1, lookup_delete_ne by done. done.
    - rewrite F3, B3. unfold other_retries. by rewrite A2.
    - rewrite F2, B2. intros r p Hr Hp. destruct (Hq1 r p Hr Hp) as [-> ->]. split; [done|].
      unfold j2', j1. cbn. done. }
  unfold snapshot_of, index_job. destruct changed; cbv [cancel_job_version st_modify mret st_ret];
    rewrite emit_eq; cbv [mbind st_bind get_job st_gets st_expect]; cbn [ac_jobs set_ac_events set_ac_ticks
      set_ac_event_sequence set_ac_running]; rewrite Hlk; cbv [mret st_ret];
    (eexists _, _; split; [reflexivity|]; apply Hres; try done); cbn; by rewrite B4, A4.
Qed.

(** an accepted update takes effect: with the current version, valid options,
    a next run that can be computed and a [DelayQueue] that accepts deadlines,
    [update_job] returns the snapshot of the job at the next version with the
    patched fields, scheduled for its next run when it is enabled; its retry timers
    are gone; if the trigger or the task changed, its waiting executions are dropped
    and the running ones of the old version are asked to stop, otherwise every
    execution that still waits has been moved to the new version; the other jobs
    are as they were. *)
Theorem update_job_accepted id patch s j next :
  let trigger := default (job_trigger j) (patch_trigger patch) in
  let changed := bool_decide (is_Some (patch_trigger patch)) || bool_decide (is_Some (patch_task patch)) in
  let reschedule :=
    if bool_decide (is_Some (patch_trigger patch)) && bool_decide (patch_reschedule patch = Preserve)
    then Recalculate else patch_reschedule patch in
  (∀ a b, delay_in_range a b = true) →
  ac_jobs s !! id = Some j → job_version j + 1 ≤ u64_max →
  validate_trigger trigger (patched_job_options j patch) (ac_config s) = Ok tt →
  validate_task_cancellation_mode trigger
    (default (job_cancellation_mode j) (cancellation_mode <$> patch_task patch)) = Ok tt →
  plan_next_run_at j trigger reschedule (utc_clock (ac_ticks s)) = Ok next →
  ∃ snap s', update_job id (job_version j) patch s = Some (Ok snap, s') ∧
    update_effect id (job_version j) patch changed next j s s'.
Proof.
  intros trigger changed reschedule Hd Hj Hb Hvt Hvm Hpl.
  set (plan := mkUpdatePlan (job_version j + 1) next reschedule
    (bool_decide (is_Some (patch_trigger patch))) (bool_decide (is_Some (patch_task patch)))).
  assert (Hplan : plan_job_update id (job_version j) patch s =
    Some (Ok plan, set_ac_ticks (S (ac_ticks s)) s)).
  { unfold plan_job_update, st_try. cbv [mbind st_bind st_get mret st_ret]. rewrite Hj.
    rewrite bool_decide_eq_false_2 by tauto. fold trigger. rewrite Hvt, Hvm. unfold checked_add_u64.
    decide_true. cbn [ok_or]. cbv [utc_now]. fold reschedule. by rewrite Hpl. }
  destruct (apply_job_update_spec id (job_version j) patch plan (set_ac_ticks (S (ac_ticks s)) s) j
    Hd Hj eq_refl eq_refl) as (snap & s' & Hs & He).
  exists snap, s'. split; [|by destruct He; split].
  unfold update_job, st_try. cbv [mbind st_bind]. rewrite Hplan, Hs. done.
Qed.

End Updating.

(** ** Witnesses *)

Lemma demo_s3_job : ac_jobs demo_s3 !! 7 = Some (entry demo_s3 7).
Proof. apply entry_Some. vm_compute. by eexists. Qed.

(** Job 7 of [demo_s3] is at version 1 with one execution running. *)
Lemma disable_job_correct_witness :
  ∃ snap s' now, disable_job 7 1 "maintenance" demo_s3 = Some (Ok snap, s') ∧
    purged 7 (entry demo_s3 7) demo_s3 s' ∧
    ac_jobs s' !! 7 = Some (disabled_entry "maintenance" now (entry demo_s3 7)) ∧
    ac_running s' = cancel_if 7 1 <$> ac_running demo_s3 ∧
    snap_state snap = Disabled "maintenance" ∧ snap_version snap = 1 + 1.
Proof.
  pose proof (disable_job_correct 7 1 "maintenance" demo_s3) as Hd. rewrite demo_s3_job in Hd.
  rewrite bool_decide_eq_true_2 in Hd by (vm_compute; reflexivity).
  apply Hd. vm_compute. discriminate.
Defined.

Lemma delete_job_correct_witness :
  ∃ s', delete_job 7 1 true demo_s3 = Some (Ok tt, s') ∧ purged 7 (entry demo_s3 7) demo_s3 s' ∧
    ac_jobs s' = delete 7 (ac_jobs demo_s3) ∧
    ac_running s' = cancel_if 7 1 <$> ac_running demo_s3.
Proof.
  pose proof (delete_job_correct 7 1 demo_s3) as Hd. rewrite demo_s3_job in Hd.
  rewrite bool_decide_eq_true_2 in Hd by (vm_compute; reflexivity). exact Hd.
Defined.

Lemma update_job_rejected_witness :
  update_job 7 2 new_job_patch demo_s3 = Some (Err (VersionConflict 7 2 1), demo_s3) ∧
  update_job 8 1 new_job_patch demo_s3 = Some (Err (JobNotFound 8), demo_s3).
Proof.
  destruct (update_job_rejected 7 2 new_job_patch demo_s3) as (_ & Hc & _).
  destruct (update_job_rejected 8 1 new_job_patch demo_s3) as (Hn & _ & _). split.
  - apply (Hc (entry demo_s3 7) demo_s3_job). vm_compute. discriminate.
  - apply Hn. vm_compute. reflexivity.
Defined.

(** A new priority, the rest as it is. *)
Definition demo_patch : JobPatch :=
  mkJobPatch None None Keep Keep (Some priority_high) None None None None Preserve.

Lemma update_job_accepted_witness :
  ∃ snap s', update_job 7 1 demo_patch demo_s3 = Some (Ok snap, s') ∧
    update_effect 7 1 demo_patch false (job_next_run_at (entry demo_s3 7)) (entry demo_s3 7) demo_s3 s'.
Proof.
  apply (update_job_accepted 7 demo_patch demo_s3 (entry demo_s3 7)
    (job_next_run_at (entry demo_s3 7))).
  - reflexivity.
  - exact demo_s3_job.
  - vm_compute. discriminate.
  - vm_compute. reflexivity.
  - vm_compute. reflexivity.
  - vm_compute. reflexivity.
Defined.
