(* ===== verification/Outcomes.v ===== *)
(** * Completions

    What [handle_completion] does with the end of an execution: the slot is freed
    in every case; a completion of an old version has no other effect; a failure is
    retried with the delays of [retry_delay] or counted against the failure policy
    of the job. *)

From stdpp Require Import base gmap strings list.
From S2P Require Import Prelude StLogic SchedModel Timing ReadyQueue Actor Engine.
From S2P Require Import EngineFrames RunIds Slots Capacity Management Demo.

(** ** Delays *)

Lemma shiftl_1 n : 0 ≤ n → Z.shiftl 1 n = 2 ^ n.
Proof. intros. rewrite Z.shiftl_mul_pow2 by done. lia. Qed.

(** The delay before the next attempt under an exponential policy. *)
Definition backoff (initial max attempt : Z) : Z := Z.min (initial * 2 ^ Z.min (attempt - 1) 31) max.

Lemma backoff_mono initial max a b :
  0 ≤ initial → 1 ≤ a → a ≤ b → backoff initial max a ≤ backoff initial max b.
Proof.
  intros Hi Ha Hab. unfold backoff. apply Z.min_le_compat_r, Z.mul_le_mono_nonneg_l; [done|].
  apply Z.pow_le_mono_r; lia.
Qed.

Lemma backoff_ge initial max a : 0 ≤ initial → initial ≤ max → 1 ≤ a → initial ≤ backoff initial max a.
Proof.
  intros Hi Hm Ha. unfold backoff.
  pose proof (Z.pow_pos_nonneg 2 (Z.min (a - 1) 31) ltac:(lia) ltac:(lia)). nia.
Qed.

(** under an exponential retry policy that [validate_trigger] accepts, a failure
    of a class the policy names is retried exactly while the attempt is below
    [max_attempts]; the delay doubles with every attempt from [initial_delay], never
    leaves the range from [minimum_retry_delay] to [max_delay], and never decreases
    from one attempt to the next. *)
Theorem retry_delay_backoff j n initial max on config attempt class :
  job_retry j = Exponential n initial max on →
  validate_retry (job_retry j) config = Ok tt →
  0 ≤ minimum_retry_delay config → max ≤ duration_max → 1 ≤ attempt →
  retry_delay (Some j) attempt class =
    (if bool_decide (attempt < Z.pos n) && class_retried on class
     then Some (backoff initial max attempt) else None) ∧
  minimum_retry_delay config ≤ backoff initial max attempt ≤ max ∧
  backoff initial max attempt ≤ backoff initial max (attempt + 1).
Proof.
  intros Hr Hval Hmin Hmax Ha. rewrite Hr in Hval. cbn in Hval.
  destruct (_ || _) eqn:Hb in Hval; [done|]. bools. split_and!.
  - cbn [retry_delay]. rewrite Hr.
    destruct (bool_decide (attempt < Z.pos n)) eqn:Hlt; bools; cbn [andb].
    + rewrite bool_decide_eq_false_2 by lia. destruct (class_retried on class); [|done]. cbn [negb].
      f_equal. unfold backoff, saturating_mul, saturating_sub.
      rewrite (Z.max_r 0 (attempt - 1)), shiftl_1 by lia. lia.
    + by rewrite bool_decide_eq_true_2 by lia.
  - pose proof (backoff_ge initial max attempt). lia.
  - unfold backoff. lia.
  - apply backoff_mono; lia.
Qed.

(** ** Freed slots *)

Section Completion.
Context `{C : Chrono} `{H : HashOrder} `{HL : !HashOrderLaws H} `{R : Runtime}.

(** The job after one of its executions has ended, whatever the outcome. *)
Definition freed_job (now : DateTime) (j : JobEntry) : JobEntry :=
  set_job_last_finished_at (Some now)
    (set_job_running_count (saturating_sub (job_running_count j) 1) j).

(** The slot of the run is free and its job knows it; nothing else has changed. *)
Definition freed (c : TaskCompletion) (s : SchedulerActor) : SchedulerActor :=
  let s1 := set_ac_total_running (saturating_sub (ac_total_running s) 1)
    (set_ac_running (delete (tc_run_id c) (ac_running s)) s) in
  match ac_jobs s !! tc_job_id c with
  | Some j => set_ac_jobs (<[tc_job_id c := freed_job (utc_clock (ac_ticks s)) j]> (ac_jobs s))
                (set_ac_ticks (S (ac_ticks s)) s1)
  | None => s1
  end.

Lemma release_eq c s :
  release_execution_resources c s =
    Some (match ac_jobs s !! tc_job_id c with
          | Some j => bool_decide (job_version j = tc_version c)
          | None => false
          end, freed c s).
Proof.
  unfold release_execution_resources, release_job, freed.
  cbv [mbind st_bind st_modify get_job st_gets modify_job utc_now mret st_ret].
  cbn [ac_jobs set_ac_total_running set_ac_running ac_ticks set_ac_ticks set_ac_jobs].
  destruct (ac_jobs s !! tc_job_id c) as [j|] eqn:Hj; cbn [ac_jobs set_ac_total_running set_ac_running];
    [|by rewrite Hj].
  rewrite (alter_Some _ _ _ _ Hj). cbn.
  rewrite (alter_Some _ _ _ _ (lookup_insert_eq _ _ _)), insert_insert_eq, lookup_insert_eq. done.
Qed.

(** the completion of an execution whose job was deleted, or has been updated,
    enabled or disabled since it started, only frees the slot: no event is sent, no
    retry is scheduled, and no job changes its state, version or failure count. *)
Theorem stale_completion_only_frees c s :
  (∀ j, ac_jobs s !! tc_job_id c = Some j → job_version j ≠ tc_version c) →
  handle_completion c s = Some (tt, freed c s).
Proof.
  intros Hst. unfold handle_completion. cbv [mbind st_bind]. rewrite release_eq.
  destruct (ac_jobs s !! tc_job_id c) as [j|]; [|done].
  rewrite bool_decide_eq_false_2 by auto. done.
Qed.

Lemma freed_lookup c s j :
  ac_jobs s !! tc_job_id c = Some j →
  ac_jobs (freed c s) !! tc_job_id c = Some (freed_job (utc_clock (ac_ticks s)) j).
Proof. intros Hj. unfold freed. rewrite Hj. cbn. apply lookup_insert_eq. Qed.

Lemma handle_completion_current c s j :
  ac_jobs s !! tc_job_id c = Some j → job_version j = tc_version c →
  handle_completion c s = record_outcome c (freed c s).
Proof.
  intros Hj Hv. unfold handle_completion, index_job. cbv [mbind st_bind]. rewrite release_eq, Hj.
  rewrite bool_decide_eq_true_2 by done. cbv [get_job st_gets]. by rewrite (freed_lookup c s j Hj).
Qed.

(** a successful execution of the current version resets the failure count of
    its job, and a [Once] job is [Completed]; no other job changes. *)
Theorem success_outcome c s j delivered :
  ac_jobs s !! tc_job_id c = Some j → job_version j = tc_version c →
  tc_outcome c = Finished (if delivered : bool then OutputDelivered else RunCompleted) →
  ∃ s' j', handle_completion c s = Some (tt, s') ∧ ac_jobs s' !! tc_job_id c = Some j' ∧
    job_consecutive_failures j' = 0 ∧ job_last_outcome j' = Some "success" ∧
    job_state j' = (if is_once (schedule (job_trigger j)) then Completed else job_state j) ∧
    job_version j' = job_version j ∧
    (∀ id', id' ≠ tc_job_id c → ac_jobs s' !! id' = ac_jobs s !! id') ∧
    slots s' = slots (freed c s) ∧ ac_ready s' = ac_ready s ∧
    ac_timers s' = ac_timers s ∧ ac_retry_timers s' = ac_retry_timers s.
Proof.
  intros Hj Hv Ho. rewrite (handle_completion_current c s j Hj Hv).
  pose proof (freed_lookup c s j Hj) as Hf. unfold record_outcome. rewrite Ho.
  assert (Hrec : ∃ s', record_execution_success (tc_metadata c) (tc_elapsed c) delivered (freed c s)
      = Some (tt, s') ∧
    ac_jobs s' = alter (λ j, let j := set_job_last_outcome (Some "success")
      (set_job_consecutive_failures 0 j) in
      if is_once (schedule (job_trigger j)) then set_job_state Completed j else j)
      (tc_job_id c) (ac_jobs (freed c s)) ∧ slots s' = slots (freed c s) ∧
    ac_ready s' = ac_ready (freed c s) ∧ ac_timers s' = ac_timers (freed c s) ∧
    ac_retry_timers s' = ac_retry_timers (freed c s)).
  { unfold record_execution_success. destruct delivered; eexists; split; [reflexivity|done|reflexivity|done]. }
  destruct Hrec as (s' & Hs & E1 & E2 & E3 & E4 & E5). exists s'. eexists.
  split; [by destruct delivered|]. rewrite E1, lookup_alter_eq, Hf. split; [reflexivity|].
  assert (Hsame : ac_ready (freed c s) = ac_ready s ∧ ac_timers (freed c s) = ac_timers s ∧
    ac_retry_timers (freed c s) = ac_retry_timers s) by (unfold freed; by rewrite Hj).
  destruct Hsame as (F1 & F2 & F3). cbn. destruct (is_once (schedule (job_trigger j))); cbn;
    split_and!; try done; try congruence;
    (intros id' Hne; rewrite lookup_alter_ne by done; unfold freed; rewrite Hj; cbn;
     by rewrite lookup_insert_ne).
Qed.

(** a transient failure that is not retried counts one failure; a job that
    reaches its limit of consecutive failures is disabled and everything that could
    start it is gone, a [Once] job below the limit is [Completed], and another job
    stays as it is. *)
Theorem final_failure_outcome c s j e :
  ac_jobs s !! tc_job_id c = Some j → job_version j = tc_version c →
  tc_outcome c = Finished (TaskTransient e) →
  retry_delay (Some j) (tc_attempt c) ClassTransient = None →
  job_version j + 1 ≤ u64_max →
  let failures := saturating_add u32_max (job_consecutive_failures j) 1 in
  let disable := match disable_after_consecutive_failures (job_failure j) with
                 | Some limit => bool_decide (Z.pos limit ≤ failures) | None => false end in
  ∃ s' j', handle_completion c s = Some (tt, s') ∧ ac_jobs s' !! tc_job_id c = Some j' ∧
    job_consecutive_failures j' = failures ∧ job_last_outcome j' = Some e ∧
    job_state j' = (if disable then Disabled e
                    else if is_once (schedule (job_trigger j)) then Completed else job_state j) ∧
    job_version j' = (if disable then job_version j + 1 else job_version j) ∧
    (disable = true → job_next_run_at j' = None ∧ job_blocked j' = [] ∧
       job_normal_timer_key j' = None ∧ ac_retry_timers s' = other_retries (tc_job_id c) s ∧
       ∀ r p, rq_pending (ac_ready s') !! r = Some p → pe_job_id p ≠ tc_job_id c) ∧
    (∀ id', id' ≠ tc_job_id c → ac_jobs s' !! id' = ac_jobs s !! id').
Proof.
  intros Hj Hv Ho Hrd Hb failures disable. rewrite (handle_completion_current c s j Hj Hv).
  pose proof (freed_lookup c s j Hj) as Hf. unfold record_outcome. rewrite Ho.
  unfold handle_execution_failure. cbn [bool_decide]. rewrite bool_decide_eq_false_2 by done.
  cbv [mbind st_bind get_job st_gets]. cbn [md_job_id tc_metadata md_attempt]. rewrite Hf.
  change (retry_delay (Some (freed_job _ j))) with (retry_delay (Some j)). rewrite Hrd.
  rewrite emit_eq. cbv [mret st_ret]. unfold record_final_failure.
  cbv [mbind st_bind get_job st_gets modify_job st_modify].
  cbn [ac_jobs set_ac_events set_ac_ticks set_ac_event_sequence set_ac_jobs].
  rewrite (alter_Some _ _ _ _ Hf), lookup_insert_eq. cbv [mret st_ret].
  match goal with |- context [<[tc_job_id c := ?x]> _] => set (j1 := x) end.
  match goal with |- context [set_ac_jobs (<[tc_job_id c := j1]> ?m) ?s1] =>
    set (s2 := set_ac_jobs (<[tc_job_id c := j1]> m) s1) end.
  assert (Hj1 : ac_jobs s2 !! tc_job_id c = Some j1) by apply lookup_insert_eq.
  assert (Hoth : ∀ id', id' ≠ tc_job_id c → ac_jobs s2 !! id' = ac_jobs s !! id').
  { intros id' Hne. cbn. rewrite lookup_insert_ne by done. unfold freed. rewrite Hj. cbn.
    by rewrite lookup_insert_ne. }
  assert (Hret : other_retries (tc_job_id c) s2 = other_retries (tc_job_id c) s).
  { unfold other_retries. cbn. unfold freed. by rewrite Hj. }
  match goal with |- context [if ?d then _ else _] =>
    assert (d = disable) as -> by reflexivity end.
  destruct disable eqn:Hdis.
  - destruct (force_disable_spec (tc_job_id c) e s2 j1 Hj1 Hb) as (s' & now & Hs & Hp & Hj' & _).
    exists s'. eexists. rewrite Hs. split; [done|]. split; [exact Hj'|].
    destruct Hp as [P1 P2 _ P4 _]. split_and!; try done.
    + intros _. split_and!; [done..| |]; [by rewrite P2|]. intros r p [_ ?]%P1. done.
    + intros id' Hne. by rewrite P4, Hoth.
  - change (is_once (schedule (job_trigger j1))) with (is_once (schedule (job_trigger j))).
    destruct (is_once (schedule (job_trigger j))); cbv [utc_now].
    + eexists _, _. split; [reflexivity|]. cbn [ac_jobs set_ac_jobs set_ac_ticks].
      rewrite (alter_Some _ _ _ _ Hj1). cbn [ac_jobs set_ac_jobs set_ac_ticks].
      rewrite (alter_Some _ _ _ _ (lookup_insert_eq _ _ _)), lookup_insert_eq. split; [reflexivity|].
      split_and!; try done. intros id' Hne. rewrite !lookup_insert_ne by done. by apply Hoth.
    + eexists s2, j1. split; [reflexivity|]. split_and!; try done.
Qed.

(** a failure that is retried frees the slot and leaves the job as it is; one
    retry timer is registered for the run, and its entry in the [DelayQueue] asks for
    the next attempt of the same run at the delay after the failure. *)
Theorem retried_failure_outcome c s j e d run_at :
  ac_jobs s !! tc_job_id c = Some j → job_version j = tc_version c →
  tc_outcome c = Finished (TaskTransient e) →
  retry_delay (Some j) (tc_attempt c) ClassTransient = Some d →
  checked_add_signed (utc_clock (S (S (ac_ticks s))))
    (match timedelta_from_std d with Ok d => d | Err _ => timedelta_max end) = Some run_at →
  (∀ a b, delay_in_range a b = true) →
  ∃ s' key deadline, handle_completion c s = Some (tt, s') ∧
    slots s' = slots (freed c s) ∧ ac_jobs s' = ac_jobs (freed c s) ∧ ac_ready s' = ac_ready s ∧
    ac_retry_timers s' !! tc_run_id c = Some (mkRetryTimer (tc_job_id c) key run_at) ∧
    ac_timers s' !! key = Some (mkTimerEntry (tc_job_id c) (tc_version c) run_at
      (TimerRetry (tc_run_id c) (tc_scheduled_at c) (tc_attempt c + 1)), deadline).
Proof.
  intros Hj Hv Ho Hrd Hadd Hdq. rewrite (handle_completion_current c s j Hj Hv).
  pose proof (freed_lookup c s j Hj) as Hf. unfold record_outcome. rewrite Ho.
  unfold handle_execution_failure. rewrite bool_decide_eq_false_2 by done.
  cbv [mbind st_bind get_job st_gets]. cbn [md_job_id tc_metadata md_attempt]. rewrite Hf.
  change (retry_delay (Some (freed_job _ j))) with (retry_delay (Some j)). rewrite Hrd, emit_eq.
  assert (Ht : ac_ticks (freed c s) = S (ac_ticks s)) by (unfold freed; by rewrite Hj).
  cbv [utc_now datetime_add]. cbn [ac_ticks set_ac_events set_ac_ticks set_ac_event_sequence].
  rewrite Ht, Hadd. cbv [st_expect mret st_ret].
  unfold schedule_retry. cbv [mbind st_bind st_gets st_modify timers_try_remove mret st_ret].
  assert (Hr : ac_ready (freed c s) = ac_ready s) by (unfold freed; by rewrite Hj).
  destruct (ac_retry_timers _ !! _); unfold timers_insert_at;
    cbv [mbind st_bind utc_now mono_now st_get st_modify mret st_ret]; rewrite Hdq;
    (eexists _, _, _; split; [reflexivity|]);
    (split_and!; [done|done|done|cbn; apply lookup_insert_eq|cbn; apply lookup_insert_eq]).
Qed.

End Completion.

(** ** Witnesses *)

(** Job 7 as in [demo_s3], with up to three attempts and a limit of one failure. *)
Definition retry_options : JobOptions :=
  mkJobOptions None None priority_normal None None
    (Exponential 3 (from_secs 1) (from_secs 60) default_retry_condition)
    (mkFailurePolicy (Some 1%positive) true true).

Definition retry_s : SchedulerActor :=
  after dispatch_ready (after (handle_event (EvExpired 1 []))
    (after (handle_event (demo_add 7 (Trigger_interval (from_secs 10)) retry_options)) demo_s0)).

Definition retry_end (attempt : Z) (outcome : CompletionOutcome) : TaskCompletion :=
  mkCompletion 7 1 1000 attempt 0 (from_secs 1) outcome.

Lemma retry_s_job : ac_jobs retry_s !! 7 = Some (entry retry_s 7).
Proof. apply entry_Some. vm_compute. by eexists. Qed.

Lemma retry_delay_backoff_witness :
  retry_delay (Some (entry retry_s 7)) 2 ClassTransient = Some (from_secs 2) ∧
  minimum_retry_delay demo_config ≤ backoff (from_secs 1) (from_secs 60) 2 ≤ from_secs 60 ∧
  backoff (from_secs 1) (from_secs 60) 2 ≤ backoff (from_secs 1) (from_secs 60) (2 + 1).
Proof.
  apply (retry_delay_backoff (entry retry_s 7) 3 (from_secs 1) (from_secs 60)
    default_retry_condition demo_config 2 ClassTransient).
  - vm_compute. reflexivity.
  - vm_compute. reflexivity.
  - vm_compute. discriminate.
  - vm_compute. discriminate.
  - vm_compute. discriminate.
Defined.

(** The job was disabled while its execution was running. *)
Lemma stale_completion_only_frees_witness :
  let s := after (disable_job 7 1 "maintenance") retry_s in
  handle_completion (retry_end 1 Cancelled) s = Some (tt, freed (retry_end 1 Cancelled) s).
Proof.
  intros s. apply (stale_completion_only_frees (retry_end 1 Cancelled) s).
  intros j Hj. apply (f_equal (fmap job_version)) in Hj. cbn [fmap option_fmap option_map] in Hj.
  intros Hv. rewrite Hv in Hj. vm_compute in Hj. discriminate Hj.
Defined.

Lemma success_outcome_witness :
  ∃ s' j', handle_completion (retry_end 1 (Finished RunCompleted)) retry_s = Some (tt, s') ∧
    ac_jobs s' !! 7 = Some j' ∧ job_consecutive_failures j' = 0 ∧
    job_last_outcome j' = Some "success" ∧
    job_state j' = (if is_once (schedule (job_trigger (entry retry_s 7))) then Completed
                    else job_state (entry retry_s 7)) ∧
    job_version j' = job_version (entry retry_s 7) ∧
    (∀ id', id' ≠ 7 → ac_jobs s' !! id' = ac_jobs retry_s !! id') ∧
    slots s' = slots (freed (retry_end 1 (Finished RunCompleted)) retry_s) ∧
    ac_ready s' = ac_ready retry_s ∧
    ac_timers s' = ac_timers retry_s ∧ ac_retry_timers s' = ac_retry_timers retry_s.
Proof.
  apply (success_outcome (retry_end 1 (Finished RunCompleted)) retry_s (entry retry_s 7) false).
  - exact retry_s_job.
  - vm_compute. reflexivity.
  - reflexivity.
Defined.

(** The third attempt is the last; the limit of one failure disables the job. *)
Lemma final_failure_outcome_witness :
  let c := retry_end 3 (Finished (TaskTransient "timeout")) in
  ∃ s' j', handle_completion c retry_s = Some (tt, s') ∧ ac_jobs s' !! 7 = Some j' ∧
    job_consecutive_failures j' = 1 ∧ job_last_outcome j' = Some "timeout" ∧
    job_state j' = Disabled "timeout" ∧ job_version j' = 2 ∧
    (true = true → job_next_run_at j' = None ∧ job_blocked j' = [] ∧
       job_normal_timer_key j' = None ∧ ac_retry_timers s' = other_retries 7 retry_s ∧
       ∀ r p, rq_pending (ac_ready s') !! r = Some p → pe_job_id p ≠ 7) ∧
    (∀ id', id' ≠ 7 → ac_jobs s' !! id' = ac_jobs retry_s !! id').
Proof.
  intros c. apply (final_failure_outcome c retry_s (entry retry_s 7) "timeout").
  - exact retry_s_job.
  - vm_compute. reflexivity.
  - reflexivity.
  - vm_compute. reflexivity.
  - vm_compute. discriminate.
Defined.

(** The first attempt fails: the run sleeps for a second. *)
Lemma retried_failure_outcome_witness :
  let c := retry_end 1 (Finished (TaskTransient "timeout")) in
  let run_at := from_secs (Z.of_nat (S (S (ac_ticks retry_s)))) + from_secs 1 in
  ∃ s' key deadline, handle_completion c retry_s = Some (tt, s') ∧
    slots s' = slots (freed c retry_s) ∧ ac_jobs s' = ac_jobs (freed c retry_s) ∧
    ac_ready s' = ac_ready retry_s ∧
    ac_retry_timers s' !! 1000 = Some (mkRetryTimer 7 key run_at) ∧
    ac_timers s' !! key = Some (mkTimerEntry 7 1 run_at (TimerRetry 1000 0 (1 + 1)), deadline).
Proof.
  intros c run_at.
  apply (retried_failure_outcome c retry_s (entry retry_s 7) "timeout" (from_secs 1) run_at).
  - exact retry_s_job.
  - vm_compute. reflexivity.
  - reflexivity.
  - vm_compute. reflexivity.
  - vm_compute. reflexivity.
  - reflexivity.
Defined.
