(* ===== verification/Reconcile.v ===== *)
(** * Adding jobs and reconciling the whole set *)

From stdpp Require Import base gmap strings list.
From S2P Require Import Prelude StLogic SchedModel Timing ReadyQueue Actor Engine.
From S2P Require Import EngineFrames RunIds Slots Capacity Management Demo.

(** ** Adding a job *)

Section Adding.
Context `{C : Chrono} `{H : HashOrder} `{HL : !HashOrderLaws H} `{R : Runtime} `{RL : !RuntimeLaws R}.

Lemma draw_job_id_spec fuel s :
  (∃ i, (i < fuel)%nat ∧ ac_jobs s !! new_v4 (ac_uuids s + i) = None) →
  ∃ id n, draw_job_id fuel s = Some (id, set_ac_uuids n s) ∧ ac_jobs s !! id = None.
Proof.
  revert s. induction fuel as [|fuel IH]; intros s (i & Hi & Hfree); [lia|].
  cbn [draw_job_id]. cbv [mbind st_bind draw_uuid get_job st_gets]. cbn [ac_jobs set_ac_uuids].
  destruct (ac_jobs s !! new_v4 (ac_uuids s)) as [j|] eqn:Hj.
  - destruct i as [|i]; [by rewrite Nat.add_0_r, Hj in Hfree|].
    destruct (IH (set_ac_uuids (S (ac_uuids s)) s)) as (id & n & Hs & Hn).
    { exists i. split; [lia|]. cbn. by rewrite <-Nat.add_succ_r. }
    exists id, n. split; [|done]. rewrite Hs. done.
  - by exists (new_v4 (ac_uuids s)), (S (ac_uuids s)).
Qed.

(** Among one more UUIDs than there are jobs, one is not the id of a job. *)
Lemma free_uuid s :
  ∃ i, (i < S (size (ac_jobs s)))%nat ∧ ac_jobs s !! new_v4 (ac_uuids s + i) = None.
Proof.
  destruct (decide (Exists (λ i, ac_jobs s !! new_v4 (ac_uuids s + i) = None)
    (seq 0 (S (size (ac_jobs s)))))) as [He|Hn].
  { apply Exists_exists in He as (i & Hi%elem_of_seq & Hf). exists i. split; [lia|done]. }
  exfalso. apply not_Exists_Forall in Hn; [|apply _]. rewrite Forall_forall in Hn.
  set (l := (λ i, new_v4 (ac_uuids s + i)) <$> seq 0 (S (size (ac_jobs s)))).
  assert (Hnd : NoDup l).
  { apply NoDup_fmap_2; [|apply NoDup_seq]. intros a b Hab%new_v4_inj. lia. }
  assert (Hsub : (list_to_set l : gset Z) ⊆ dom (ac_jobs s)).
  { intros x Hx%elem_of_list_to_set%list_elem_of_fmap. destruct Hx as (i & -> & Hi).
    apply elem_of_dom, not_eq_None_Some, Hn, Hi. }
  apply subseteq_size in Hsub. rewrite size_list_to_set, size_dom in Hsub by done.
  unfold l in Hsub. rewrite length_fmap, length_seq in Hsub. lia.
Qed.

Lemma choose_job_id_drawn s :
  ∃ id n, choose_job_id None s = Some (Ok id, set_ac_uuids n s) ∧ ac_jobs s !! id = None.
Proof.
  destruct (draw_job_id_spec _ s (free_uuid s)) as (id & n & Hs & Hn). exists id, n.
  unfold choose_job_id. cbv [mbind st_bind st_get mret st_ret]. rewrite Hs. done.
Qed.

(** [add_job] refuses a job over [max_jobs] and an id in use; otherwise, for a
    valid trigger whose first run can be computed, it always returns (the search for
    a free random id included), under the requested id if one was given, and the new
    entry is the only change to the set of jobs, which stays within [max_jobs]. *)
Theorem add_job_correct req gen enabled trigger task options s next :
  (∀ a b, delay_in_range a b = true) →
  validate_trigger trigger options (ac_config s) = Ok tt →
  validate_task_cancellation_mode trigger (cancellation_mode task) = Ok tt →
  first_run_at trigger (utc_clock (ac_ticks s)) = Ok next →
  match req with
  | Some id =>
      if bool_decide (max_jobs (ac_config s) ≤ zsize (ac_jobs s))
      then add_job req gen enabled trigger task options s =
             Some (Err (MaximumJobsReached (max_jobs (ac_config s))), s)
      else is_Some (ac_jobs s !! id) →
             add_job req gen enabled trigger task options s =
               Some (Err (JobAlreadyExists id), set_ac_ticks (S (ac_ticks s)) s)
  | None => True
  end ∧
  (zsize (ac_jobs s) < max_jobs (ac_config s) →
   (∀ id, req = Some id → ac_jobs s !! id = None) →
   ∃ id s' j', add_job req gen enabled trigger task options s = Some (Ok id, s') ∧
     ac_jobs s !! id = None ∧ (∀ id', req = Some id' → id' = id) ∧
     ac_jobs s' = <[id := j']> (ac_jobs s) ∧
     job_version j' = gen ∧ job_trigger j' = trigger ∧
     job_state j' = (if enabled then Enabled else Disabled "installed disabled") ∧
     job_next_run_at j' = (if enabled then Some next else None) ∧
     ac_ready s' = ac_ready s ∧ ac_running s' = ac_running s ∧
     zsize (ac_jobs s') = zsize (ac_jobs s) + 1).
Proof.
  intros Hd Hvt Hvm Hfr. unfold add_job, st_try.
  cbv [mbind st_bind st_get mret st_ret utc_now st_modify]. rewrite Hvt, Hvm. split.
  - destruct req as [id|]; [|done]. destruct (bool_decide _); [done|]. intros [j Hj].
    unfold choose_job_id. cbv [mbind st_bind get_job st_gets mret st_ret]. cbn. by rewrite Hj.
  - intros Hmax Hreq. rewrite bool_decide_eq_false_2 by lia.
    assert (Hch : ∃ id n, choose_job_id req (set_ac_ticks (S (ac_ticks s)) s) =
      Some (Ok id, set_ac_uuids n (set_ac_ticks (S (ac_ticks s)) s)) ∧ ac_jobs s !! id = None ∧
      (∀ id', req = Some id' → id' = id)).
    { destruct req as [id|].
      - exists id, (ac_uuids s). specialize (Hreq id eq_refl). unfold choose_job_id.
        cbv [mbind st_bind get_job st_gets mret st_ret]. cbn. rewrite Hreq. split; [by destruct s|].
        naive_solver.
      - destruct (choose_job_id_drawn (set_ac_ticks (S (ac_ticks s)) s)) as (id & n & ? & ?).
        exists id, n. done. }
    destruct Hch as (id & n & -> & Hfree & Hid). rewrite Hfr.
    set (j0 := new_job_entry id gen enabled trigger task options _).
    assert (Hj0 : job_version j0 = gen ∧ job_trigger j0 = trigger ∧ job_next_run_at j0 = None ∧
      job_state j0 = (if enabled then Enabled else Disabled "installed disabled")).
    { unfold j0, new_job_entry. by destruct (effective_queue_policies trigger options). }
    destruct Hj0 as (J1 & J2 & J3 & J4).
    assert (Hsz : ∀ x, zsize (<[id := x]> (ac_jobs s)) = zsize (ac_jobs s) + 1).
    { intros x. unfold zsize. rewrite map_size_insert_None by done. lia. }
    destruct enabled.
    + match goal with |- context [schedule_normal id next TimerNormal ?s1] =>
        destruct (schedule_normal_spec id next TimerNormal s1 j0 Hd (lookup_insert_eq _ _ _))
          as (s' & k & d & -> & E1 & _ & E2 & _ & E4 & _) end.
      rewrite emit_eq. eexists id, _, _. split; [reflexivity|].
      cbn [ac_jobs set_ac_events set_ac_ticks set_ac_event_sequence ac_ready ac_running].
      rewrite E1, E2, E4. cbn [ac_jobs set_ac_jobs set_ac_uuids set_ac_ticks]. rewrite insert_insert_eq.
      split_and!; first [done|apply Hsz].
    + rewrite emit_eq. eexists id, _, j0. split; [reflexivity|]. split_and!; first [done|apply Hsz].
Qed.

End Adding.

(** ** The set of jobs *)

Definition job_ids (s : SchedulerActor) : gset Z := dom (ac_jobs s).

Section JobSet.
Context `{C : Chrono} `{H : HashOrder} `{HL : !HashOrderLaws H} `{R : Runtime}.

Local Notation same_jobs := (λ s s', job_ids s' = job_ids s).

Lemma modify_job_ids id f : follows same_jobs (modify_job id f).
Proof. apply follows_modify. intros s. unfold job_ids. cbn. apply dom_alter_L. Qed.

Lemma modify_ready_ids f : follows same_jobs (modify_ready f).
Proof. by apply follows_modify. Qed.

Lemma emit_ids k : follows same_jobs (emit k).
Proof. intros s a s'. rewrite emit_eq. by intros [= <- <-]. Qed.

Lemma utc_now_ids : follows same_jobs utc_now.
Proof. by intros s a s' [= <- <-]. Qed.

Lemma mono_now_ids : follows same_jobs mono_now.
Proof. by intros s a s' [= <- <-]. Qed.

Lemma draw_uuid_ids : follows same_jobs draw_uuid.
Proof. by intros s a s' [= <- <-]. Qed.

Lemma get_job_ids id : follows same_jobs (get_job id).
Proof. apply follows_gets, _. Qed.

Lemma set_timers_ids f : follows same_jobs (st_modify (λ s, set_ac_timers (f s) s)).
Proof. by apply follows_modify. Qed.

Lemma set_retry_timers_ids f : follows same_jobs (st_modify (λ s, set_ac_retry_timers (f s) s)).
Proof. by apply follows_modify. Qed.

Lemma set_running_ids f : follows same_jobs (st_modify (λ s, set_ac_running (f s) s)).
Proof. by apply follows_modify. Qed.

Hint Resolve modify_job_ids modify_ready_ids emit_ids utc_now_ids mono_now_ids draw_uuid_ids
  get_job_ids set_timers_ids set_retry_timers_ids set_running_ids : follows.

Lemma schedule_normal_ids id t k : follows same_jobs (schedule_normal id t k).
Proof. unfold schedule_normal, take_normal_timer, timers_insert_at, timers_try_remove. follow. Qed.

Lemma clear_retry_timers_ids id : follows same_jobs (clear_retry_timers id).
Proof. unfold clear_retry_timers, timers_try_remove. follow. Qed.

Hint Resolve schedule_normal_ids clear_retry_timers_ids : follows.

Lemma force_disable_ids id reason : follows same_jobs (force_disable id reason).
Proof. unfold force_disable, take_normal_timer, timers_try_remove, cancel_job_version. follow. Qed.

Lemma snapshot_of_ids id : follows same_jobs (snapshot_of id).
Proof. unfold snapshot_of, index_job. follow. Qed.

Lemma check_version_ids id v : follows same_jobs (check_version id v).
Proof. unfold check_version. follow. Qed.

Lemma plan_job_update_ids id v p : follows same_jobs (plan_job_update id v p).
Proof. unfold plan_job_update. follow. Qed.

Lemma migrate_pending_ids id c j : follows same_jobs (migrate_pending id c j).
Proof. unfold migrate_pending. follow. Qed.

Hint Resolve force_disable_ids snapshot_of_ids check_version_ids plan_job_update_ids
  migrate_pending_ids : follows.

Lemma enable_job_ids id v : follows same_jobs (enable_job id v).
Proof. unfold enable_job, index_job. follow. Qed.

Lemma disable_job_ids id v r : follows same_jobs (disable_job id v r).
Proof. unfold disable_job. follow. Qed.

Lemma draw_job_id_ids n : follows same_jobs (draw_job_id n).
Proof. induction n; cbn; follow. Qed.

Hint Resolve enable_job_ids disable_job_ids draw_job_id_ids : follows.

(** The job is taken out of the map and put back. *)
Lemma apply_job_update_ids id v p plan : follows same_jobs (apply_job_update id v p plan).
Proof.
  unfold apply_job_update. intros s a s' Hs.
  apply st_bind_Some in Hs as (? & ? & [-> ->]%get_job_Some & Hs).
  apply st_bind_Some in Hs as (j & ? & [Hj ->]%st_expect_Some & Hs).
  apply st_bind_Some in Hs as (? & ? & ->%st_modify_Some & Hs).
  apply st_bind_Some in Hs as (now & s1 & E1%utc_now_ids & Hs). cbv beta zeta in Hs.
  apply st_bind_Some in Hs as (? & s2 & E2 & Hs).
  assert (job_ids s2 = job_ids s1) as E2'.
  { destruct (job_normal_timer_key _); [|by act_open]. unfold timers_try_remove in E2. by act_open. }
  apply st_bind_Some in Hs as (? & s3 & E3%clear_retry_timers_ids & Hs).
  apply st_bind_Some in Hs as (j' & s4 & E4%migrate_pending_ids & Hs).
  apply st_bind_Some in Hs as (? & ? & ->%st_modify_Some & Hs).
  assert (Hrest : job_ids s' = job_ids (set_ac_jobs (<[id := j']> (ac_jobs s4)) s4)).
  { eapply (follows_bind same_jobs); [| |exact Hs]; [follow|]. intros ?.
    unfold cancel_job_version. follow. }
  rewrite Hrest. unfold job_ids in *. cbn in *. rewrite dom_insert_L, E4, E3, E2', E1, dom_delete_L.
  apply elem_of_dom_2 in Hj. apply set_eq. intros i. destruct (decide (i = id)); set_solver.
Qed.

Hint Resolve apply_job_update_ids : follows.

Lemma update_job_ids id v p : follows same_jobs (update_job id v p).
Proof. unfold update_job. follow. Qed.

Hint Resolve update_job_ids : follows.

Lemma apply_update_ids u : follows same_jobs (apply_update u).
Proof. unfold apply_update. follow. Qed.

Lemma delete_job_ids id v c s s' :
  delete_job id v c s = Some (Ok tt, s') → job_ids s' = job_ids s ∖ {[id]}.
Proof.
  unfold delete_job. intros Hs.
  apply st_try_Some in Hs as [([] & s0 & E0%check_version_ids & Hs)|(? & _ & [=])].
  apply st_bind_Some in Hs as (j & ? & [_ ->]%index_job_Some & Hs).
  apply st_bind_Some in Hs as (? & ? & ->%st_modify_Some & Hs).
  assert (Hrest : job_ids s' = job_ids (set_ac_jobs (delete id (ac_jobs s0)) s0)).
  { eapply (follows_bind same_jobs); [| |exact Hs].
    - unfold timers_try_remove. follow.
    - intros ?. unfold cancel_job_version. follow. }
  rewrite Hrest, <-E0. unfold job_ids. cbn. apply dom_delete_L.
Qed.

Lemma add_job_ids req g e t b o s id s' :
  add_job req g e t b o s = Some (Ok id, s') →
  job_ids s' = {[id]} ∪ job_ids s ∧ (∀ id', req = Some id' → id' = id).
Proof.
  unfold add_job. intros Hs. apply st_bind_Some in Hs as (? & ? & [-> ->]%st_get_Some & Hs).
  st_case; [by act_open|].
  do 2 (apply st_try_Some in Hs as [(? & ? & [_ ->]%st_ret_Some & Hs)|(? & _ & [=])]).
  apply st_bind_Some in Hs as (now & s1 & E1%utc_now_ids & Hs).
  apply st_try_Some in Hs as [(i & s2 & Hch & Hs)|(? & _ & [=])].
  apply st_try_Some in Hs as [(next & ? & [_ ->]%st_ret_Some & Hs)|(? & _ & [=])].
  apply st_bind_Some in Hs as (? & ? & ->%st_modify_Some & Hs).
  apply st_bind_Some in Hs as (? & s3 & E3 & Hs).
  apply st_bind_Some in Hs as (? & s4 & E4%emit_ids & Hs). act_open. simplify_eq.
  assert (E3' : job_ids s3 = job_ids (set_ac_jobs (<[i := new_job_entry i g e t b o now]> (ac_jobs s2)) s2)).
  { destruct e; [by apply schedule_normal_ids in E3|by act_open]. }
  assert (E2 : job_ids s2 = job_ids s1 ∧ (∀ id', req = Some id' → id' = i)).
  { unfold choose_job_id in Hch. destruct req as [r|].
    - act_open. destruct (ac_jobs _ !! r); naive_solver.
    - apply st_bind_Some in Hch as (? & ? & [-> ->]%st_get_Some & Hch).
      apply st_bind_Some in Hch as (? & ? & ?%draw_job_id_ids & Hch). act_open. naive_solver. }
  destruct E2 as [E2 Hreq]. split; [|done]. rewrite E4, E3'. unfold job_ids in *. cbn.
  by rewrite dom_insert_L, E2, E1.
Qed.

(** *** Reconciliation *)

Lemma deletions_ids l s s' :
  st_for_try l (λ d, delete_job d.1 d.2 true) s = Some (Ok tt, s') →
  job_ids s' = job_ids s ∖ list_to_set l.*1.
Proof.
  revert s. induction l as [|[id v] l IH]; intros s Hs; cbn in Hs.
  { act_open. cbn. set_solver. }
  apply st_try_Some in Hs as [([] & s1 & H1%delete_job_ids & H2%IH)|(? & _ & [=])].
  rewrite H2, H1. cbn. set_solver.
Qed.

Lemma additions_ids l s s' :
  st_for_try l apply_addition s = Some (Ok tt, s') →
  job_ids s' = job_ids s ∪ list_to_set (addn_job_id <$> l).
Proof.
  revert s. induction l as [|a l IH]; intros s Hs; cbn in Hs.
  { act_open. cbn. set_solver. }
  apply st_try_Some in Hs as [([] & s1 & H1 & H2%IH)|(? & _ & [=])].
  unfold apply_addition in H1.
  apply st_try_Some in H1 as [(id & s2 & [H1 Hid]%add_job_ids & H3)|(? & _ & [=])]. act_open.
  specialize (Hid _ eq_refl). subst id. rewrite H2, H1. cbn. set_solver.
Qed.

Lemma precheck_updates_ids t l : follows same_jobs (precheck_updates t l).
Proof. revert t. induction l; intros t; cbn; follow. Qed.

Lemma precheck_additions_ids t l : follows same_jobs (precheck_additions t l).
Proof. revert t. induction l; intros t; cbn; follow. Qed.

Hint Resolve precheck_updates_ids precheck_additions_ids apply_update_ids : follows.

Lemma precheck_ids plan : follows same_jobs (precheck plan).
Proof. unfold precheck. follow. Qed.

Lemma reconcile_job_ids plan s snaps s' :
  reconcile_jobs plan s = Some (Ok snaps, s') →
  job_ids s' = (job_ids s ∖ list_to_set (plan_deletions plan).*1)
               ∪ list_to_set (addn_job_id <$> plan_additions plan).
Proof.
  unfold reconcile_jobs. intros Hs.
  apply st_try_Some in Hs as [([] & s1 & E1%precheck_ids & Hs)|(? & _ & [=])].
  apply st_try_Some in Hs as [([] & s2 & E2 & Hs)|(? & _ & [=])].
  apply (follows_for_try same_jobs) in E2; [|intros; apply apply_update_ids].
  apply st_try_Some in Hs as [([] & s3 & E3%deletions_ids & Hs)|(? & _ & [=])].
  apply st_try_Some in Hs as [([] & s4 & E4%additions_ids & Hs)|(? & _ & [=])].
  act_open. by rewrite E4, E3, E2, E1.
Qed.

(** when [reconcile_jobs] succeeds, the jobs are exactly those there were
    before, less the deletions, plus the additions: updates never create or lose a
    job, and nothing outside the plan is touched. *)
Theorem reconcile_job_set plan s snaps s' :
  reconcile_jobs plan s = Some (Ok snaps, s') →
  job_ids s' = (job_ids s ∖ list_to_set (plan_deletions plan).*1)
               ∪ list_to_set (addn_job_id <$> plan_additions plan).
Proof. apply reconcile_job_ids. Qed.

(** *** Rejected plans *)

(** Nothing but the number of clock readings. *)
Local Notation only_ticks := (λ s s', ∃ n, s' = set_ac_ticks n s).

Local Instance only_ticks_preorder : PreOrder only_ticks.
Proof.
  split.
  - intros s. exists (ac_ticks s). by destruct s.
  - intros s1 s2 s3 [n ->] [m ->]. by exists m.
Qed.

Lemma utc_now_ticks : follows only_ticks utc_now.
Proof. intros s a s' [= <- <-]. eauto. Qed.

Lemma get_job_ticks id : follows only_ticks (get_job id).
Proof. apply (follows_gets only_ticks). Qed.

Hint Resolve utc_now_ticks get_job_ticks : follows.

Lemma plan_job_update_ticks id v p : follows only_ticks (plan_job_update id v p).
Proof. unfold plan_job_update. follow. Qed.

Hint Resolve plan_job_update_ticks : follows.

Lemma precheck_updates_ticks t l : follows only_ticks (precheck_updates t l).
Proof. revert t. induction l; intros t; cbn; follow. Qed.

Lemma precheck_additions_ticks t l : follows only_ticks (precheck_additions t l).
Proof. revert t. induction l; intros t; cbn; follow. Qed.

Hint Resolve precheck_updates_ticks precheck_additions_ticks : follows.

Lemma precheck_ticks plan : follows only_ticks (precheck plan).
Proof. unfold precheck, check_version. follow. Qed.

(** a plan that fails the preliminary checks (a job named twice, an unknown job
    or stale version, an invalid trigger, an id in use, too many jobs) is answered
    with that error and has changed nothing but the number of clock readings. *)
Theorem reconcile_rejected plan s e s1 :
  precheck plan s = Some (Err e, s1) →
  reconcile_jobs plan s = Some (Err e, s1) ∧ ∃ n, s1 = set_ac_ticks n s.
Proof.
  intros Hp. split; [|by eapply precheck_ticks].
  unfold reconcile_jobs, st_try. cbv [mbind st_bind]. by rewrite Hp.
Qed.

End JobSet.

(** ** Witnesses *)

Lemma add_job_correct_witness :
  True ∧
  (zsize (ac_jobs demo_s3) < max_jobs (ac_config demo_s3) →
   (∀ id, None = Some id → ac_jobs demo_s3 !! id = None) →
   ∃ id s' j', add_job None 1 true (Trigger_interval (from_secs 10)) demo_task default_job_options
       demo_s3 = Some (Ok id, s') ∧
     ac_jobs demo_s3 !! id = None ∧ (∀ id', None = Some id' → id' = id) ∧
     ac_jobs s' = <[id := j']> (ac_jobs demo_s3) ∧
     job_version j' = 1 ∧ job_trigger j' = Trigger_interval (from_secs 10) ∧
     job_state j' = Enabled ∧
     job_next_run_at j' = Some (from_secs (Z.of_nat (ac_ticks demo_s3))) ∧
     ac_ready s' = ac_ready demo_s3 ∧ ac_running s' = ac_running demo_s3 ∧
     zsize (ac_jobs s') = zsize (ac_jobs demo_s3) + 1).
Proof.
  apply (add_job_correct None 1 true (Trigger_interval (from_secs 10)) demo_task default_job_options
    demo_s3 (from_secs (Z.of_nat (ac_ticks demo_s3)))).
  - reflexivity.
  - vm_compute. reflexivity.
  - vm_compute. reflexivity.
  - vm_compute. reflexivity.
Defined.

(** Delete job 7 and install job 8. *)
Definition swap_plan : SchedulerReconcilePlan :=
  mkReconcilePlan []
    [mkReconcileAddition 8 true (Trigger_interval (from_secs 5)) demo_task default_job_options]
    [(7, 1)].

Lemma reconcile_job_set_witness :
  ∃ snaps s', reconcile_jobs swap_plan demo_s3 = Some (Ok snaps, s') ∧
    job_ids s' = (job_ids demo_s3 ∖ list_to_set [7]) ∪ list_to_set [8].
Proof.
  destruct (reconcile_jobs swap_plan demo_s3) as [[[snaps|e] s']|] eqn:Hs.
  - exists snaps, s'. split; [reflexivity|]. apply (reconcile_job_set swap_plan demo_s3 snaps s' Hs).
  - exfalso. apply (f_equal (λ r, match r with Some (Ok _, _) => true | _ => false end)) in Hs.
    vm_compute in Hs. discriminate Hs.
  - exfalso. apply (f_equal (λ r, match r with Some (Ok _, _) => true | _ => false end)) in Hs.
    vm_compute in Hs. discriminate Hs.
Defined.

(** Deleting with a stale version. *)
Definition stale_plan : SchedulerReconcilePlan := mkReconcilePlan [] [] [(7, 9)].

Lemma reconcile_rejected_witness :
  reconcile_jobs stale_plan demo_s3 = Some (Err (VersionConflict 7 9 1), demo_s3) ∧
  ∃ n, demo_s3 = set_ac_ticks n demo_s3.
Proof.
  apply (reconcile_rejected stale_plan demo_s3 (VersionConflict 7 9 1) demo_s3).
  vm_compute. reflexivity.
Defined.
