(* ===== verification/Runs.v ===== *)
(** * Recorded runs of the scheduler

    Concrete sequences of events, each a run of the actor from its initial state,
    that show behaviour the general theorems leave room for: defects of the code
    found while modelling it.  Every state below is reachable; the runs evaluate. *)

From stdpp Require Import base gmap strings list.
From S2P Require Import Prelude StLogic SchedModel Timing ReadyQueue Actor Engine Demo.

(** The state after some turns of the loop ([restore_blocked], [dispatch_ready],
    one event), and one more round of [restore_blocked] and [dispatch_ready]. *)
Fixpoint after_turns (evs : list LoopEvent) (s : SchedulerActor) : SchedulerActor :=
  match evs with
  | [] => after dispatch_ready (after restore_blocked s)
  | ev :: evs =>
      after_turns evs (after (handle_event ev) (after dispatch_ready (after restore_blocked s)))
  end.

Global Instance ExecutionMetadata_eq_dec : EqDecision ExecutionMetadata.
Proof. solve_decision. Defined.

(** Every step of such a run returns and handles an event that can occur. *)
Definition event_ok (s : SchedulerActor) (ev : LoopEvent) : bool :=
  match ev with
  | EvCompletion c =>
      existsb (λ f, bool_decide (fl_metadata f = tc_metadata c)) (ac_tasks s) &&
      match tc_outcome c with Finished _ | Panicked _ => true | _ => false end
  | EvExpired k _ => match ac_timers s !! k with Some _ => true | None => false end
  | EvJoinError run_id => existsb (λ f, bool_decide (fl_run_id f = run_id)) (ac_tasks s)
  | _ => true
  end.

Definition returns {A} (m : ST SchedulerActor A) (s : SchedulerActor) : bool :=
  match m s with Some _ => true | None => false end.

Fixpoint turns_ok (evs : list LoopEvent) (s : SchedulerActor) : bool :=
  let s1 := after restore_blocked s in
  let s2 := after dispatch_ready s1 in
  returns restore_blocked s && returns dispatch_ready s1 &&
  match evs with
  | [] => true
  | ev :: evs =>
      event_ok s2 ev && returns (handle_event ev) s2 && turns_ok evs (after (handle_event ev) s2)
  end.

Lemma returns_step {A} (m : ST SchedulerActor A) s :
  returns m s = true → ∃ a, m s = Some (a, after m s).
Proof. unfold returns, after. destruct (m s) as [[a s']|]; [eauto|done]. Qed.

Lemma event_ok_possible s ev : event_ok s ev = true → event_possible s ev.
Proof.
  destruct ev as [| c | k l | | r]; cbn; try done.
  - intros [(f & Hin & Hf)%List.existsb_exists Ho]%andb_true_iff. bools. exists f.
    split_and!; [by apply list_elem_of_In|done|]. destruct (tc_outcome c); done.
  - destruct (ac_timers s !! k); [eauto|done].
  - intros (f & Hin & Hf)%List.existsb_exists. bools. exists f. split; [by apply list_elem_of_In|done].
Qed.

Lemma turns_reachable config evs s :
  reachable config s → turns_ok evs s = true → reachable config (after_turns evs s).
Proof.
  revert s. induction evs as [|ev evs IH]; intros s Hr Hok; cbn in *; bools.
  - eapply rtc_r; [eapply rtc_r; [exact Hr|]|].
    + destruct (returns_step restore_blocked s) as [[] ?]; [done|]. by apply step_restore.
    + destruct (returns_step dispatch_ready (after restore_blocked s)) as [[] ?]; [done|].
      by apply step_dispatch.
  - apply IH; [|done]. eapply rtc_r; [eapply rtc_r; [eapply rtc_r; [exact Hr|]|]|].
    + destruct (returns_step restore_blocked s) as [[] ?]; [done|]. by apply step_restore.
    + destruct (returns_step dispatch_ready (after restore_blocked s)) as [[] ?]; [done|].
      by apply step_dispatch.
    + match goal with He : returns (handle_event ev) ?s2 = true |- _ =>
        destruct (returns_step _ _ He) as [stop ?] end.
      eapply step_event; [by apply event_ok_possible|done].
Qed.

Lemma run_reachable config evs :
  turns_ok evs (new_actor config) = true → reachable config (after_turns evs (new_actor config)).
Proof. apply turns_reachable, rtc_refl. Qed.

(** ** Building blocks *)

Definition small_config (global_concurrency : positive) : SchedulerConfig :=
  mkSchedulerConfig global_concurrency 1 8192 1024 256 1024 1024 256
    (from_secs 30) (from_millis 100) (from_millis 100) 1000 1000.

(** An execution ends with the given result. *)
Definition finish (job version run attempt scheduled : Z) (r : TaskRunResult) : LoopEvent :=
  EvCompletion (mkCompletion job version run attempt scheduled (from_secs 1) (Finished r)).

Definition every (seconds : Z) : Trigger := mkTrigger (Interval (from_secs seconds) None) FireOnce None.

(** ** An execution that is never started *)

Definition keep_all : JobOptions :=
  mkJobOptions None None priority_normal (Some KeepAll) (Some Backpressure) RetryNone
    default_failure_policy.

(** Job 7 is due again while it runs; then the run ends. *)
Definition stranded_run : list LoopEvent :=
  [demo_add 7 (Trigger_interval (from_secs 10)) keep_all; EvExpired 1 []; EvExpired 1 [];
   finish 7 1 1000 1 0 RunCompleted].

Definition stranded : SchedulerActor := after_turns stranded_run (new_actor demo_config).

(** (a defect): a reachable state in which nothing runs, one execution of an
    enabled job waits and satisfies every condition [dispatch_ready] tests, and yet
    neither this round of [dispatch_ready] nor any later one starts it: its key was
    dropped when the job was busy. *)
Theorem stranded_execution :
  reachable demo_config stranded ∧ ac_total_running stranded = 0 ∧
  (∃ p, rq_pending (ac_ready stranded) !! 1001 = Some p ∧ can_dispatch stranded p = true) ∧
  dispatch_ready stranded = Some (tt, stranded).
Proof.
  split_and!.
  - apply run_reachable. vm_compute. reflexivity.
  - vm_compute. reflexivity.
  - vm_compute. eexists. done.
  - vm_compute. reflexivity.
Qed.

(** ** A timer that outlives its key *)

(** Job 7 fires once while the only slot is taken; a change of priority schedules it
    again; the execution that was waiting runs and completes the job; then the second
    timer fires. *)
Definition dangling_run : list LoopEvent :=
  [demo_add 9 (every 100) default_job_options; EvExpired 1 [];
   demo_add 7 (Trigger_once 0) default_job_options; EvExpired 2 [];
   EvCommand (CmdUpdate 7 1
     (mkJobPatch None None Keep Keep (Some priority_high) None None None None Preserve));
   finish 9 1 1000 1 0 RunCompleted; finish 7 2 1001 1 (from_secs 12) RunCompleted; EvExpired 2 []].

Definition dangling : SchedulerActor := after_turns dangling_run (new_actor (small_config 1)).

(** (a defect): a reachable state in which the next maintenance tick panics.
    [handle_timer] returns early for a job that is not enabled and leaves its
    [normal_timer_key] in place, and [reanchor_timers] resets that key in the
    [DelayQueue], which no longer knows it. *)
Theorem reanchor_panics :
  reachable (small_config 1) dangling ∧ handle_event EvMaintenance dangling = None.
Proof.
  split; [apply run_reachable; vm_compute; reflexivity|]. vm_compute. reflexivity.
Qed.

(** ** A periodic job that stops firing *)

Definition tight : JobOptions :=
  mkJobOptions None (Some 1) priority_normal (Some KeepAll) (Some Backpressure)
    (Exponential 3 (from_secs 1) (from_secs 60) default_retry_condition) default_failure_policy.

(** Job 7 may have one execution waiting; one of its triggers and then a retry are
    blocked behind it and restored in two different rounds. *)
Definition lost_run : list LoopEvent :=
  [demo_add 9 (every 1000) default_job_options; EvExpired 1 [];
   demo_add 7 (every 10) tight; EvExpired 2 [];
   demo_add 8 (every 1000) default_job_options; EvExpired 3 []; EvExpired 2 []; EvExpired 4 [];
   finish 7 1 1001 1 (from_secs 12) (TaskTransient "unreachable"); EvExpired 4 [];
   finish 8 1 1002 1 (from_secs 24) RunCompleted; EvCommand CmdList;
   finish 7 1 1003 1 (from_secs 34) RunCompleted; EvCommand CmdList;
   finish 7 1 1004 1 (from_secs 42) RunCompleted; finish 7 1 1001 2 (from_secs 12) RunCompleted].

Definition lost : SchedulerActor := after_turns lost_run (new_actor (small_config 2)).

(** (a defect): a reachable state in which a periodic job is enabled but nothing
    will ever start it again: it has no timer, no next run, nothing waiting, blocked,
    asleep or running.  [restore_blocked] computes the next run only when the round
    that restores the trigger also empties the [blocked] list. *)
Theorem schedule_lost :
  reachable (small_config 2) lost ∧
  job_state (entry lost 7) = Enabled ∧ schedule (job_trigger (entry lost 7)) = Interval (from_secs 10) None ∧
  job_next_run_at (entry lost 7) = None ∧ job_blocked (entry lost 7) = [] ∧
  job_running_count (entry lost 7) = 0 ∧
  forallb (λ kt, bool_decide (te_job_id kt.2.1 ≠ 7)) (map_to_list (ac_timers lost)) = true ∧
  map_to_list (rq_pending (ac_ready lost)) = [] ∧ map_to_list (ac_retry_timers lost) = [].
Proof.
  split; [apply run_reachable; vm_compute; reflexivity|]. vm_compute. done.
Qed.

(** ** Deleting and adding the same job *)

Definition add_export : LoopEvent :=
  EvCommand (CmdAdd (Some 7) 1 true (every 10) (mkTaskBinding "export" NonCancellable)
    default_job_options).

Definition readd_run : list LoopEvent :=
  [add_export; EvExpired 1 []; EvCommand (CmdDelete 7 1); add_export; EvExpired 1 [];
   finish 7 1 1000 1 0 RunCompleted; EvExpired 1 []].

Definition readded : SchedulerActor := after_turns readd_run (new_actor demo_config).

(** (a defect): a job deleted while it runs and added again under the same id
    starts at the same version, so the end of the old execution is booked on the new
    job: a reachable state in which a job limited to one execution at a time has two
    running and counts one. *)
Theorem readded_job_overlaps :
  reachable demo_config readded ∧
  Z.pos (default (default_job_concurrency (ac_config readded)) (job_concurrency (entry readded 7))) = 1 ∧
  job_running_count (entry readded 7) = 1 ∧
  ac_running readded !! 1001 = Some (mkRunning 7 1 false) ∧
  ac_running readded !! 1002 = Some (mkRunning 7 1 false).
Proof.
  split; [apply run_reachable; vm_compute; reflexivity|]. vm_compute. done.
Qed.

(** ** A reconciliation that stops half-way *)

(** A calendar in which the cron expression has no further occurrence. *)
Definition exhausted_chrono : Chrono := {|
  utc_min := @utc_min demo_chrono;
  utc_max := @utc_max demo_chrono;
  from_timestamp := @from_timestamp demo_chrono;
  checked_add_signed := @checked_add_signed demo_chrono;
  timedelta_from_std := @timedelta_from_std demo_chrono;
  timedelta_max := @timedelta_max demo_chrono;
  CronExpr := unit;
  cron_from_str := λ s, if bool_decide (s = EmptyString) then Err "empty pattern" else Ok tt;
  cron_find_next := λ _ _ _, Err "CronPattern has no more occurrences";
  fmt_duration := @fmt_duration demo_chrono;
|}.

Global Instance exhausted_chrono_laws : ChronoLaws exhausted_chrono.
Proof. destruct demo_chrono_laws as [L1 L2 L3 L4 L5 L6 _]. by split. Qed.

(** Delete job 7; add job 8 with a cron expression. *)
Definition cron_plan : SchedulerReconcilePlan :=
  mkReconcilePlan []
    [mkReconcileAddition 8 true (mkTrigger (Cron "0 0 1 1 * 2020" "UTC") Skip None) demo_task
       default_job_options] [(7, 1)].

(** (a defect): [reconcile_jobs] is not all-or-nothing.  The preliminary checks do
    not compute the first run of an addition, so a cron expression without a further
    occurrence passes them and fails after the deletions have been made: the plan is
    answered with an error and job 7 is gone. *)
Theorem reconcile_not_atomic :
  is_Some (ac_jobs demo_s3 !! 7) ∧
  ∃ e s', reconcile_jobs (C := exhausted_chrono) cron_plan demo_s3 = Some (Err e, s') ∧
    ac_jobs s' !! 7 = None.
Proof.
  split; [vm_compute; by eexists|]. vm_compute. eexists _, _. split; [reflexivity|done].
Qed.

(** ** Panics on long delays *)

(** A retry delay that [validate_trigger] accepts and that leaves the calendar. *)
Definition huge_options : JobOptions :=
  mkJobOptions None None priority_normal None None
    (Exponential 3 (from_secs 9000000000000) (from_secs 9000000000000) default_retry_condition)
    default_failure_policy.

(** There is no upper bound on retry delays, and adding one to [Utc::now()] panics. *)
Theorem huge_retry_delay_panics :
  let run := [demo_add 7 (every 10) huge_options; EvExpired 1 []] in
  reachable demo_config (after_turns run demo_s0) ∧
  handle_event (finish 7 1 1000 1 0 (TaskTransient "unreachable")) (after_turns run demo_s0) = None.
Proof.
  split; [apply run_reachable; vm_compute; reflexivity|]. vm_compute. reflexivity.
Qed.

(** A [DelayQueue] with a horizon refuses a [Once] job planned beyond it, although
    [to_instant] clamps to the latest instant of the platform. *)
Theorem far_once_panics :
  add_job (R := bounded_runtime) (Some 7) 1 true (Trigger_once (from_secs 4000000000)) demo_task
    default_job_options demo_s0 = None.
Proof. vm_compute. reflexivity. Qed.

(** [RunNow] moves the phase of a periodic job: due at 0, 100, 200, ... before the
    command, at another remainder of 100 seconds after it. *)
Theorem run_now_moves_phase :
  let run := [demo_add 7 (every 100) default_job_options; EvExpired 1 [];
              finish 7 1 1000 1 0 RunCompleted] in
  let now := [EvCommand (CmdUpdate 7 1
     (mkJobPatch None None Keep Keep None None None None None RunNowMode)); EvExpired 1 []] in
  job_next_run_at (entry (after_turns run demo_s0) 7) = Some (from_secs 100) ∧
  job_next_run_at (entry (after_turns (run ++ now) demo_s0) 7) = Some (from_secs 120).
Proof. vm_compute. done. Qed.
