(* ===== verification/Rotation.v ===== *)
(** * Long-term keys and their rotation

    [crates/smalux-protocol/src/noise/identity.rs] and
    [crates/smalux-protocol/src/noise/rotation.rs]: the key types and the four state
    machines that take an Agent or a Server from one static key to the next.  Keys,
    key ids and rotation ids are the byte strings they wrap; BLAKE2s is a parameter,
    and the results of the random generators are arguments of the operations that
    call them.  A method that changes its state returns the new state beside its
    [Result]; on an error the state returned is the one left behind by the code. *)

From stdpp Require Import base gmap strings list.
From S2P Require Import Prelude.

(** ** Keys *)

Abbreviation bytes := (list Z) (only parsing).
Abbreviation NoisePublicKey := bytes (only parsing).
Abbreviation KeyId := bytes (only parsing).
Abbreviation RotationId := bytes (only parsing).

Definition KEY_LEN : nat := 32.
Definition ROTATION_ID_LEN : nat := 16.

(** [NoiseError], with the sources of [Crypto], [Encode] and [Random] as text. *)
Inductive NoiseError : Type :=
| InvalidKeyLength
| InvalidPskLength
| InvalidHandshakeType
| InvalidFrame
| AuthenticationFailed
| MissingRemoteKey
| UnknownKeyId
| RotationAlreadyInProgress
| NoPendingRotation
| RotationIdMismatch
| Crypto (source : string)
| Encode (source : string)
| MessageTooLarge
| Random (source : string).

Global Instance NoiseError_eq_dec : EqDecision NoiseError.
Proof. solve_decision. Defined.

(** [Blake2s256::digest]. *)
Class Blake2s : Type := blake2s : bytes → bytes.

(** No two keys in use have the same fingerprint. *)
Class Blake2sLaws (B : Blake2s) : Prop := blake2s_inj : Inj (=) (=) blake2s.

(** [NoisePublicKey::from_bytes], [KeyId::from_bytes] and [RotationId::from_bytes]. *)
Definition public_key_from_bytes (b : bytes) : result NoiseError NoisePublicKey :=
  if bool_decide (length b = KEY_LEN) then Ok b else Err InvalidKeyLength.
Definition key_id_from_bytes (b : bytes) : result NoiseError KeyId :=
  if bool_decide (length b = KEY_LEN) then Ok b else Err InvalidKeyLength.
Definition rotation_id_from_bytes (b : bytes) : result NoiseError RotationId :=
  if bool_decide (length b = ROTATION_ID_LEN) then Ok b else Err RotationIdMismatch.

(** [NoiseIdentity] and [NoiseIdentity::from_parts]. *)
Record NoiseIdentity : Type := mkIdentity {
  private_key : bytes;
  public_key : NoisePublicKey;
}.

Global Instance NoiseIdentity_eq_dec : EqDecision NoiseIdentity.
Proof. solve_decision. Defined.

Definition identity_from_parts (private public : bytes) : result NoiseError NoiseIdentity :=
  if bool_decide (length private = KEY_LEN) then
    mkIdentity private <$> public_key_from_bytes public
  else Err InvalidKeyLength.

(** The fields of [AgentKeyRotationRequest] and [ServerKeyAnnouncement]. *)
Record Announcement : Type := mkAnnouncement {
  an_rotation_id : bytes;
  an_new_public_key : bytes;
  an_new_key_id : bytes;
}.

Section Keys.
Context `{B : Blake2s}.

(** [NoisePublicKey::key_id] and [NoiseIdentity::key_id]. *)
Definition key_id (k : NoisePublicKey) : KeyId := blake2s k.
Definition identity_key_id (i : NoiseIdentity) : KeyId := key_id (public_key i).

(** What [prepare_rotation] of the Agent and of the Server sends out. *)
Definition announce (rotation_id : RotationId) (i : NoiseIdentity) : Announcement :=
  mkAnnouncement rotation_id (public_key i) (identity_key_id i).

(** The checks [stage] makes on a request or an announcement. *)
Definition open_announcement (a : Announcement) : result NoiseError (RotationId * NoisePublicKey) :=
  rotation_id ← rotation_id_from_bytes (an_rotation_id a);
  key ← public_key_from_bytes (an_new_public_key a);
  id ← key_id_from_bytes (an_new_key_id a);
  if bool_decide (key_id key = id) then Ok (rotation_id, key) else Err AuthenticationFailed.

End Keys.

(** ** [AgentKeySet]: the private keys of an Agent *)

Record AgentKeySetSnapshot : Type := mkAgentKeySet {
  ak_current : NoiseIdentity;
  ak_pending : option NoiseIdentity;
  ak_rotation_id : option RotationId;
}.

Section AgentKeySet.
Context `{B : Blake2s}.

(** [AgentKeySet::new] and [AgentKeySet::from_snapshot]. *)
Definition agent_new (current : NoiseIdentity) : AgentKeySetSnapshot := mkAgentKeySet current None None.

Definition agent_from_snapshot (s : AgentKeySetSnapshot) : result NoiseError AgentKeySetSnapshot :=
  if bool_decide (is_Some (ak_pending s) ↔ is_Some (ak_rotation_id s)) then Ok s
  else Err NoPendingRotation.

(** [prepare_rotation]; [identity] and [rotation_id] are what the generators returned. *)
Definition agent_prepare_rotation (identity : result NoiseError NoiseIdentity)
    (rotation_id : result NoiseError RotationId) (s : AgentKeySetSnapshot) :
    result NoiseError Announcement * AgentKeySetSnapshot :=
  match ak_pending s with
  | Some _ => (Err RotationAlreadyInProgress, s)
  | None =>
      match identity, rotation_id with
      | Ok i, Ok r => (Ok (announce r i), mkAgentKeySet (ak_current s) (Some i) (Some r))
      | Err e, _ => (Err e, s)
      | Ok _, Err e => (Err e, s)
      end
  end.

(** [connection_candidates]. *)
Definition agent_connection_candidates (s : AgentKeySetSnapshot) : list NoiseIdentity :=
  option_list (ak_pending s) ++ [ak_current s].

(** [promote_pending]. *)
Definition agent_promote_pending (rotation_id : RotationId) (s : AgentKeySetSnapshot) :
    result NoiseError unit * AgentKeySetSnapshot :=
  if bool_decide (ak_rotation_id s ≠ Some rotation_id) then (Err RotationIdMismatch, s)
  else
    match ak_pending s with
    | Some i => (Ok tt, mkAgentKeySet i None None)
    | None => (Err NoPendingRotation, s)
    end.

(** [cancel_rotation]. *)
Definition agent_cancel_rotation (s : AgentKeySetSnapshot) :
    result NoiseError unit * AgentKeySetSnapshot :=
  match ak_pending s with
  | Some _ => (Ok tt, mkAgentKeySet (ak_current s) None None)
  | None => (Err NoPendingRotation, s)
  end.

End AgentKeySet.

(** ** [AgentPublicKeySet]: the keys of an Agent the Server accepts *)

Record AgentPublicKeySetSnapshot : Type := mkPublicKeySet {
  pk_current : NoisePublicKey;
  pk_pending : option NoisePublicKey;
  pk_rotation_id : option RotationId;
}.

Section AgentPublicKeySet.
Context `{B : Blake2s}.

(** [AgentPublicKeySet::new] and [from_snapshot]. *)
Definition public_new (current : NoisePublicKey) : AgentPublicKeySetSnapshot :=
  mkPublicKeySet current None None.

Definition public_from_snapshot (s : AgentPublicKeySetSnapshot) :
    result NoiseError AgentPublicKeySetSnapshot :=
  if bool_decide (is_Some (pk_pending s) ↔ is_Some (pk_rotation_id s)) then Ok s
  else Err NoPendingRotation.

(** [stage]. *)
Definition public_stage (request : Announcement) (s : AgentPublicKeySetSnapshot) :
    result NoiseError unit * AgentPublicKeySetSnapshot :=
  match pk_pending s with
  | Some _ => (Err RotationAlreadyInProgress, s)
  | None =>
      match open_announcement request with
      | Ok (rotation_id, key) => (Ok tt, mkPublicKeySet (pk_current s) (Some key) (Some rotation_id))
      | Err e => (Err e, s)
      end
  end.

(** [authorize]. *)
Definition public_authorize (key : NoisePublicKey) (s : AgentPublicKeySetSnapshot) : bool :=
  bool_decide (pk_current s = key) || bool_decide (pk_pending s = Some key).

(** [promote_pending]. *)
Definition public_promote_pending (rotation_id : RotationId) (s : AgentPublicKeySetSnapshot) :
    result NoiseError unit * AgentPublicKeySetSnapshot :=
  if bool_decide (pk_rotation_id s ≠ Some rotation_id) then (Err RotationIdMismatch, s)
  else
    match pk_pending s with
    | Some k => (Ok tt, mkPublicKeySet k None None)
    | None => (Err NoPendingRotation, s)
    end.

(** [cancel_rotation]. *)
Definition public_cancel_rotation (s : AgentPublicKeySetSnapshot) :
    result NoiseError unit * AgentPublicKeySetSnapshot :=
  match pk_pending s with
  | Some _ => (Ok tt, mkPublicKeySet (pk_current s) None None)
  | None => (Err NoPendingRotation, s)
  end.

End AgentPublicKeySet.

(** ** [ServerKeyRing]: the private keys of the Server *)

Record ServerKeyRingSnapshot : Type := mkKeyRing {
  kr_current : NoiseIdentity;
  kr_next : option NoiseIdentity;
  kr_previous : option NoiseIdentity;
  kr_rotation_id : option RotationId;
}.

Global Instance ServerKeyRingSnapshot_eq_dec : EqDecision ServerKeyRingSnapshot.
Proof. solve_decision. Defined.

Section ServerKeyRing.
Context `{B : Blake2s}.

(** [ServerKeyRing::new] and [from_snapshot]. *)
Definition ring_new (current : NoiseIdentity) : ServerKeyRingSnapshot := mkKeyRing current None None None.

Definition ring_from_snapshot (s : ServerKeyRingSnapshot) : result NoiseError ServerKeyRingSnapshot :=
  if bool_decide (is_Some (kr_next s) ↔ is_Some (kr_rotation_id s)) then Ok s
  else Err NoPendingRotation.

(** [prepare_rotation]. *)
Definition ring_prepare_rotation (identity : result NoiseError NoiseIdentity)
    (rotation_id : result NoiseError RotationId) (s : ServerKeyRingSnapshot) :
    result NoiseError Announcement * ServerKeyRingSnapshot :=
  if bool_decide (is_Some (kr_next s)) || bool_decide (is_Some (kr_previous s))
  then (Err RotationAlreadyInProgress, s)
  else
    match identity, rotation_id with
    | Ok i, Ok r =>
        (Ok (announce r i), mkKeyRing (kr_current s) (Some i) (kr_previous s) (Some r))
    | Err e, _ => (Err e, s)
    | Ok _, Err e => (Err e, s)
    end.

(** [active_keys] and [find_active]. *)
Definition ring_active_keys (s : ServerKeyRingSnapshot) : list NoiseIdentity :=
  [kr_current s] ++ option_list (kr_next s) ++ option_list (kr_previous s).

Definition ring_find_active (id : KeyId) (s : ServerKeyRingSnapshot) : option NoiseIdentity :=
  List.find (λ i, bool_decide (identity_key_id i = id)) (ring_active_keys s).

(** [promote_next]. *)
Definition ring_promote_next (rotation_id : RotationId) (s : ServerKeyRingSnapshot) :
    result NoiseError unit * ServerKeyRingSnapshot :=
  if bool_decide (kr_rotation_id s ≠ Some rotation_id) then (Err RotationIdMismatch, s)
  else
    match kr_next s with
    | Some next => (Ok tt, mkKeyRing next None (Some (kr_current s)) None)
    | None => (Err NoPendingRotation, s)
    end.

(** [retire_previous]. *)
Definition ring_retire_previous (s : ServerKeyRingSnapshot) :
    result NoiseError unit * ServerKeyRingSnapshot :=
  match kr_previous s with
  | Some _ => (Ok tt, mkKeyRing (kr_current s) (kr_next s) None (kr_rotation_id s))
  | None => (Err NoPendingRotation, s)
  end.

(** [cancel_rotation]. *)
Definition ring_cancel_rotation (s : ServerKeyRingSnapshot) :
    result NoiseError unit * ServerKeyRingSnapshot :=
  match kr_next s with
  | Some _ => (Ok tt, mkKeyRing (kr_current s) None (kr_previous s) None)
  | None => (Err NoPendingRotation, s)
  end.

End ServerKeyRing.

(** ** [PinnedServerKeys]: the Server keys an Agent trusts *)

Record PinnedServerKeysSnapshot : Type := mkPinned {
  ps_current : NoisePublicKey;
  ps_pending : option NoisePublicKey;
  ps_previous : option NoisePublicKey;
  ps_rotation_id : option RotationId;
}.

Global Instance PinnedServerKeysSnapshot_eq_dec : EqDecision PinnedServerKeysSnapshot.
Proof. solve_decision. Defined.

Section PinnedServerKeys.
Context `{B : Blake2s}.

(** [PinnedServerKeys::new] and [from_snapshot]. *)
Definition pinned_new (current : NoisePublicKey) : PinnedServerKeysSnapshot :=
  mkPinned current None None None.

Definition pinned_from_snapshot (s : PinnedServerKeysSnapshot) :
    result NoiseError PinnedServerKeysSnapshot :=
  if bool_decide (is_Some (ps_pending s) ↔ is_Some (ps_rotation_id s)) then Ok s
  else Err NoPendingRotation.

(** [stage]. *)
Definition pinned_stage (announcement : Announcement) (s : PinnedServerKeysSnapshot) :
    result NoiseError unit * PinnedServerKeysSnapshot :=
  match open_announcement announcement with
  | Err e => (Err e, s)
  | Ok (rotation_id, key) =>
      match ps_pending s with
      | Some pending =>
          if bool_decide (ps_rotation_id s = Some rotation_id) && bool_decide (pending = key)
          then (Ok tt, s) else (Err RotationAlreadyInProgress, s)
      | None =>
          if bool_decide (key = ps_current s) || bool_decide (ps_previous s = Some key) then (Ok tt, s)
          else (Ok tt, mkPinned (ps_current s) (Some key) (ps_previous s) (Some rotation_id))
      end
  end.

(** [connection_candidates]. *)
Definition pinned_connection_candidates (s : PinnedServerKeysSnapshot) : list NoisePublicKey :=
  option_list (ps_pending s) ++ [ps_current s] ++ option_list (ps_previous s).

(** [promote_pending]. *)
Definition pinned_promote_pending (rotation_id : RotationId) (s : PinnedServerKeysSnapshot) :
    result NoiseError unit * PinnedServerKeysSnapshot :=
  if bool_decide (ps_rotation_id s ≠ Some rotation_id) then (Err RotationIdMismatch, s)
  else
    match ps_pending s with
    | Some next => (Ok tt, mkPinned next None (Some (ps_current s)) None)
    | None => (Err NoPendingRotation, s)
    end.

(** [retire_previous] and [cancel_pending]. *)
Definition pinned_retire_previous (s : PinnedServerKeysSnapshot) :
    result NoiseError unit * PinnedServerKeysSnapshot :=
  match ps_previous s with
  | Some _ => (Ok tt, mkPinned (ps_current s) (ps_pending s) None (ps_rotation_id s))
  | None => (Err NoPendingRotation, s)
  end.

Definition pinned_cancel_pending (s : PinnedServerKeysSnapshot) :
    result NoiseError unit * PinnedServerKeysSnapshot :=
  match ps_pending s with
  | Some _ => (Ok tt, mkPinned (ps_current s) None (ps_previous s) None)
  | None => (Err NoPendingRotation, s)
  end.

End PinnedServerKeys.
