(* ===== verification/Credential.v ===== *)
(** * Transport errors and registration credentials

    [crates/smalux-protocol/src/tonic_transport.rs], the registration credential
    shared by Agent and Server, and the issuing side of it in
    [crates/smalux-server/src/service/agent/agent_registry.rs].  A Rust string is
    the list of its bytes; the separator and all accepted characters are ASCII. *)

From stdpp Require Import base gmap strings list.
From S2P Require Import Prelude Rotation.

(** ** Errors *)

(** [SecureErrorCode]. *)
Inductive SecureErrorCode : Type :=
| Unspecified
| InvalidToken
| TokenAlreadyUsed
| AgentNotAuthorized
| AgentAlreadyRegistered
| InvalidMessage
| RotationConflict
| RotationIdMismatchCode
| InvalidRotationState
| Internal
| ResourceExhausted.

Global Instance SecureErrorCode_eq_dec : EqDecision SecureErrorCode.
Proof. solve_decision. Defined.

(** [tonic::Code], the gRPC status codes. *)
Inductive GrpcCode : Type :=
| GOk | GCancelled | GUnknown | GInvalidArgument | GDeadlineExceeded | GNotFound
| GAlreadyExists | GPermissionDenied | GResourceExhausted | GFailedPrecondition
| GAborted | GOutOfRange | GUnimplemented | GInternal | GUnavailable | GDataLoss
| GUnauthenticated.

(** [TransportError]; the causes carried by foreign error types are left out. *)
Inductive TransportError : Type :=
| TNoise (error : NoiseError)
| TStatus (code : GrpcCode)
| TTransport
| TInvalidUri
| TTimeout (stage : string)
| TClosed
| TUnknownKeyId
| TRekeyRequired
| THeartbeatTimeout
| TProtocol (message : string)
| TRemoteProtocol (message : string)
| TRemoteSecure (code : SecureErrorCode) (message : string).

(** [SmaluxClientError]. *)
Inductive SmaluxClientError : Type :=
| CTransport (error : TransportError)
| CNoise (error : NoiseError)
| CStateStore (message : string)
| CRegistrationTokenRequired
| CInvalidRegistrationToken
| CInconsistentPendingRegistration
| CAlreadyConnected
| CNotConnected
| CTemporarilyUnavailable
| CSupervisorStopped
| CShutdownRequested.

(** [SmaluxClientError::is_retryable]. *)
Definition is_retryable (e : SmaluxClientError) : bool :=
  match e with
  | CNotConnected | CTemporarilyUnavailable => true
  | CTransport (TTransport | TTimeout _ | TClosed | THeartbeatTimeout) => true
  | CTransport (TStatus code) =>
      match code with
      | GCancelled | GUnknown | GDeadlineExceeded | GResourceExhausted | GAborted
      | GInternal | GUnavailable => true
      | _ => false
      end
  | _ => false
  end.

(** [is_agent_not_authorized]. *)
Definition is_agent_not_authorized (e : SmaluxClientError) : bool :=
  match e with
  | CTransport (TRemoteSecure AgentNotAuthorized _) => true
  | _ => false
  end.

(** ** Credentials *)

Definition MAX_REGISTRATION_TOKEN_ID_BYTES : nat := 128.
Definition REGISTRATION_PSK_BYTES : nat := 32.
Definition MAX_AGENT_DISPLAY_NAME_BYTES : nat := 64.

(** The byte ['.']. *)
Definition dot : Z := 46.

Definition between (lo b hi : Z) : bool := (lo <=? b) && (b <=? hi).

(** [byte.is_ascii_alphanumeric() || matches!(byte, b'-' | b'_' | b'.')]. *)
Definition is_label_byte (b : Z) : bool :=
  (between 48 b 57 || between 65 b 90 || between 97 b 122)
  || (bool_decide (b = 45) || bool_decide (b = 95) || bool_decide (b = dot)).

(** [validate_registration_token_id] and [validate_agent_display_name]. *)
Definition validate_registration_token_id (token_id : bytes) : result TransportError unit :=
  if bool_decide (token_id = []) || bool_decide (MAX_REGISTRATION_TOKEN_ID_BYTES < length token_id)%nat
     || negb (forallb is_label_byte token_id)
  then Err (TProtocol "registration Token ID is invalid") else Ok tt.

Definition validate_agent_display_name (display_name : bytes) : result TransportError unit :=
  if bool_decide (display_name = []) || bool_decide (MAX_AGENT_DISPLAY_NAME_BYTES < length display_name)%nat
     || negb (forallb is_label_byte display_name)
  then Err (TProtocol "Agent display name must be 1-64 ASCII letters, digits, '-', '_' or '.'")
  else Ok tt.

(** [hex_nibble]. *)
Definition hex_nibble (value : Z) : option Z :=
  if between 48 value 57 then Some (value - 48)
  else if between 97 value 102 then Some (value - 97 + 10)
  else if between 65 value 70 then Some (value - 65 + 10)
  else None.

Definition invalid_registration_psk : TransportError :=
  TProtocol "registration PSK contains a non-hexadecimal character".

(** The loop of [parse_registration_credential] over the pairs of characters; an odd
    last character is dropped, as by [as_chunks]. *)
Fixpoint decode_psk (l : bytes) : result TransportError bytes :=
  match l with
  | h :: l' :: rest =>
      high ← ok_or invalid_registration_psk (hex_nibble h);
      low ← ok_or invalid_registration_psk (hex_nibble l');
      psk ← decode_psk rest;
      Ok (Z.lor (Z.shiftl high 4) low :: psk)
  | _ => Ok []
  end.

(** [str::split_once('.')]. *)
Fixpoint split_once (sep : Z) (l : bytes) : option (bytes * bytes) :=
  match l with
  | [] => None
  | b :: l =>
      if bool_decide (b = sep) then Some ([], l)
      else '(before, after) ← split_once sep l; Some (b :: before, after)
  end.

(** [parse_registration_credential]. *)
Definition parse_registration_credential (credential : bytes) :
    result TransportError (bytes * bytes) :=
  '(token_id, encoded_psk) ←
    ok_or (TProtocol "registration token must use the token_id.psk format")
      (split_once dot credential);
  _ ← validate_registration_token_id token_id;
  if bool_decide (length encoded_psk ≠ 2 * REGISTRATION_PSK_BYTES)%nat
  then Err (TProtocol "registration PSK must contain 64 hexadecimal characters")
  else psk ← decode_psk encoded_psk; Ok (token_id, psk).

(** [encode_hex] of the Server: [{byte:02x}]. *)
Definition hex_digit (n : Z) : Z := if n <? 10 then 48 + n else 97 + (n - 10).

Definition encode_hex (l : bytes) : bytes :=
  b ← l; [hex_digit (Z.shiftr b 4); hex_digit (Z.land b 15)].

(** The credential [create_registration_token] hands out. *)
Definition issued_credential (id psk : bytes) : bytes := encode_hex id ++ [dot] ++ encode_hex psk.

(** ** What the issued credentials decode to *)

Definition is_byte (b : Z) : Prop := 0 ≤ b < 256.

Global Instance is_byte_dec b : Decision (is_byte b).
Proof. unfold is_byte. apply _. Defined.

Lemma hex_nibble_digit (n : Z) : 0 ≤ n < 16 → hex_nibble (hex_digit n) = Some n.
Proof.
  intros H. assert (n ∈ seqZ 0 16) as Hin by (apply elem_of_seqZ; lia).
  cbn in Hin. repeat (apply elem_of_cons in Hin as [->|Hin]; [reflexivity|]).
  by apply not_elem_of_nil in Hin.
Qed.

Lemma label_digit (n : Z) : 0 ≤ n < 16 → is_label_byte (hex_digit n) = true ∧ hex_digit n ≠ dot.
Proof.
  intros H. assert (n ∈ seqZ 0 16) as Hin by (apply elem_of_seqZ; lia).
  cbn in Hin. repeat (apply elem_of_cons in Hin as [->|Hin]; [by split|]).
  by apply not_elem_of_nil in Hin.
Qed.

Lemma byte_nibbles (b : Z) :
  is_byte b → 0 ≤ Z.shiftr b 4 < 16 ∧ 0 ≤ Z.land b 15 < 16
              ∧ Z.lor (Z.shiftl (Z.shiftr b 4) 4) (Z.land b 15) = b.
Proof.
  intros [H1 H2]. rewrite Z.shiftr_div_pow2 by lia. change 15 with (Z.ones 4).
  rewrite Z.land_ones by lia. split_and!.
  - apply Z.div_pos; lia.
  - apply Z.div_lt_upper_bound; lia.
  - apply Z.mod_pos_bound. lia.
  - apply Z.mod_pos_bound. lia.
  - rewrite <- Z.shiftr_div_pow2, <- Z.land_ones by lia.
    rewrite <- Z.ldiff_ones_r by lia. rewrite Z.lor_comm.
    apply Z.bits_inj'. intros n Hn. rewrite Z.lor_spec, Z.land_spec, Z.ldiff_spec.
    by destruct (Z.testbit b n), (Z.testbit (Z.ones 4) n).
Qed.

Lemma decode_encode_psk (psk : bytes) : Forall is_byte psk → decode_psk (encode_hex psk) = Ok psk.
Proof.
  induction 1 as [|b l Hb Hl IH]; [done|].
  destruct (byte_nibbles b Hb) as (H1 & H2 & H3).
  change (encode_hex (b :: l)) with
    (hex_digit (Z.shiftr b 4) :: hex_digit (Z.land b 15) :: encode_hex l).
  cbn -[hex_nibble hex_digit Z.shiftr Z.shiftl Z.land Z.lor].
  rewrite !hex_nibble_digit by done. cbn -[Z.shiftr Z.shiftl Z.land Z.lor].
  rewrite IH. cbn -[Z.shiftr Z.shiftl Z.land Z.lor]. by rewrite H3.
Qed.

Lemma encode_hex_length (l : bytes) : length (encode_hex l) = (2 * length l)%nat.
Proof.
  induction l as [|b l IH]; [done|].
  change (encode_hex (b :: l)) with
    (hex_digit (Z.shiftr b 4) :: hex_digit (Z.land b 15) :: encode_hex l).
  cbn [length]. rewrite IH. lia.
Qed.

Lemma encode_hex_labels (l : bytes) :
  Forall is_byte l → Forall (λ b, is_label_byte b = true ∧ b ≠ dot) (encode_hex l).
Proof.
  induction 1 as [|b l Hb Hl IH]; [constructor|].
  change (encode_hex (b :: l)) with
    (hex_digit (Z.shiftr b 4) :: hex_digit (Z.land b 15) :: encode_hex l).
  destruct (byte_nibbles b Hb) as (H1 & H2 & _).
  repeat constructor; first [by apply label_digit | done].
Qed.

Lemma split_once_app (sep : Z) (l l' : bytes) :
  Forall (λ b, b ≠ sep) l → split_once sep (l ++ sep :: l') = Some (l, l').
Proof.
  induction 1 as [|b l Hb Hl IH]; cbn.
  - by rewrite bool_decide_eq_true_2.
  - rewrite bool_decide_eq_false_2 by done. by rewrite IH.
Qed.

Lemma token_id_accepted (l : bytes) :
  l ≠ [] → (length l ≤ MAX_REGISTRATION_TOKEN_ID_BYTES)%nat →
  Forall (λ b, is_label_byte b = true) l → validate_registration_token_id l = Ok tt.
Proof.
  intros H1 H2 H3. unfold validate_registration_token_id.
  rewrite bool_decide_eq_false_2 by done. rewrite bool_decide_eq_false_2 by lia.
  assert (forallb is_label_byte l = true) as ->; [|done].
  apply forallb_forall. intros x Hx. rewrite Forall_forall in H3. apply H3.
  by apply list_elem_of_In.
Qed.

(** A credential issued by the Server (16 random id bytes and 32 random PSK bytes,
    hex-encoded and joined by a dot) is parsed by Agent and Server into the public
    token id and exactly the PSK bytes stored. *)
Theorem credential_roundtrip (id psk : bytes) :
  length id = 16%nat → Forall is_byte id →
  length psk = REGISTRATION_PSK_BYTES → Forall is_byte psk →
  parse_registration_credential (issued_credential id psk) = Ok (encode_hex id, psk).
Proof.
  intros Hid Hb Hpsk Hp. unfold parse_registration_credential, issued_credential.
  pose proof (encode_hex_labels id Hb) as Hl.
  cbn [app]. rewrite split_once_app by (eapply Forall_impl; [exact Hl|]; intros ? [??]; done).
  cbn -[validate_registration_token_id decode_psk].
  rewrite token_id_accepted; cbn -[decode_psk].
  - rewrite bool_decide_eq_false_2 by (rewrite encode_hex_length, Hpsk; unfold REGISTRATION_PSK_BYTES; lia).
    by rewrite decode_encode_psk.
  - intros E. apply (f_equal length) in E. rewrite encode_hex_length, Hid in E. done.
  - rewrite encode_hex_length, Hid. unfold MAX_REGISTRATION_TOKEN_ID_BYTES. lia.
  - eapply Forall_impl; [exact Hl|]. intros ? [??]; done.
Qed.

Lemma credential_roundtrip_witness :
  parse_registration_credential (issued_credential (replicate 16 171) (replicate 32 205))
  = Ok (encode_hex (replicate 16 171), replicate 32 205).
Proof.
  apply (credential_roundtrip (replicate 16 171) (replicate 32 205)).
  - reflexivity.
  - apply (bool_decide_eq_true_1 _). vm_compute. reflexivity.
  - reflexivity.
  - apply (bool_decide_eq_true_1 _). vm_compute. reflexivity.
Defined.
