(* ===== verification/AgentState.v ===== *)
(** * The authentication state of an Agent and its connections

    [crates/smalux-agent/src/client/state/model.rs] (the persisted state and its
    transitions), [client/connection.rs] (registration, recovery and IK connection),
    [client/supervisor.rs] (Server key announcements) and
    [connect_with_candidates] of [smalux-protocol/src/tonic_transport/client.rs].

    The state store, the network and the random generator are the environment of
    the coordinator: a [Net] says how each call is answered, as a function of the
    moment it is made.  Every call that leaves the process is recorded in the
    trace, so that theorems can speak about the order of writes and messages. *)

From stdpp Require Import base gmap strings list.
From S2P Require Import Prelude StLogic Rotation Credential.

(** ** The persisted state *)

Inductive RegistrationStage : Type :=
| StageIdentityPrepared
| StageRegistrationPending
| StageRegistered.

Global Instance RegistrationStage_eq_dec : EqDecision RegistrationStage.
Proof. solve_decision. Defined.

Inductive PersistedAgentState : Type :=
| IdentityPrepared (identity : NoiseIdentity)
| RegistrationPending (agent_id : bytes) (identity : NoiseIdentity)
    (server_keys : PinnedServerKeysSnapshot) (registration_id : bytes)
| Registered (agent_id : bytes) (identity : NoiseIdentity)
    (server_keys : PinnedServerKeysSnapshot) (registration_id : bytes).

Global Instance PersistedAgentState_eq_dec : EqDecision PersistedAgentState.
Proof. solve_decision. Defined.

Definition identity_prepared (identity : NoiseIdentity) : PersistedAgentState :=
  IdentityPrepared identity.

Definition registration_pending (agent_id : bytes) (identity : NoiseIdentity)
    (server_public_key : NoisePublicKey) (registration_id : bytes) : PersistedAgentState :=
  RegistrationPending agent_id identity (pinned_new server_public_key) registration_id.

Definition registered_from_pending (s : PersistedAgentState) : result string PersistedAgentState :=
  match s with
  | RegistrationPending agent_id identity server_keys registration_id =>
      Ok (Registered agent_id identity server_keys registration_id)
  | _ => Err "only a pending Agent state can be marked registered"%string
  end.

Definition stage (s : PersistedAgentState) : RegistrationStage :=
  match s with
  | IdentityPrepared _ => StageIdentityPrepared
  | RegistrationPending _ _ _ _ => StageRegistrationPending
  | Registered _ _ _ _ => StageRegistered
  end.

Definition identity (s : PersistedAgentState) : NoiseIdentity :=
  match s with
  | IdentityPrepared i | RegistrationPending _ i _ _ | Registered _ i _ _ => i
  end.

Definition agent_id (s : PersistedAgentState) : option bytes :=
  match s with
  | IdentityPrepared _ => None
  | RegistrationPending a _ _ _ | Registered a _ _ _ => Some a
  end.

Definition registration_id (s : PersistedAgentState) : option bytes :=
  match s with
  | IdentityPrepared _ => None
  | RegistrationPending _ _ _ r | Registered _ _ _ r => Some r
  end.

Definition server_key_snapshot (s : PersistedAgentState) : option PinnedServerKeysSnapshot :=
  match s with
  | IdentityPrepared _ => None
  | RegistrationPending _ _ k _ | Registered _ _ k _ => Some k
  end.

Definition server_key_candidates (s : PersistedAgentState) : list NoisePublicKey :=
  match s with
  | IdentityPrepared _ => []
  | RegistrationPending _ _ k _ | Registered _ _ k _ => pinned_connection_candidates k
  end.

Section ServerKeys.
Context `{B : Blake2s}.

(** A change of the pinned keys inside a state, as [stage_server_key] and
    [promote_server_key] make it: restore, change, take the new snapshot. *)
Definition with_server_keys
    (f : PinnedServerKeysSnapshot → result NoiseError unit * PinnedServerKeysSnapshot)
    (keys : PinnedServerKeysSnapshot) : result NoiseError PinnedServerKeysSnapshot :=
  pinned ← pinned_from_snapshot keys;
  match f pinned with
  | (Ok _, keys') => Ok keys'
  | (Err e, _) => Err e
  end.

Definition change_server_keys
    (f : PinnedServerKeysSnapshot → result NoiseError unit * PinnedServerKeysSnapshot)
    (s : PersistedAgentState) : result NoiseError PersistedAgentState :=
  match s with
  | IdentityPrepared _ => Err NoPendingRotation
  | RegistrationPending a i k r => k' ← with_server_keys f k; Ok (RegistrationPending a i k' r)
  | Registered a i k r => k' ← with_server_keys f k; Ok (Registered a i k' r)
  end.

Definition stage_server_key (announcement : Announcement) (s : PersistedAgentState) :
    result NoiseError PersistedAgentState := change_server_keys (pinned_stage announcement) s.

Definition promote_server_key (rotation_id : RotationId) (s : PersistedAgentState) :
    result NoiseError PersistedAgentState := change_server_keys (pinned_promote_pending rotation_id) s.

End ServerKeys.

(** ** The environment *)

(** What is reported to the outside: one entry per call. *)
Inductive Effect : Type :=
| ELoad
| EGenerate
| ESave (s : PersistedAgentState)
| EConnect (key : NoisePublicKey)
| EVerify
| EPrepare (identity : NoiseIdentity)
| ECommit (registration_id : bytes)
| EAcknowledge (rotation_id : RotationId) (id : KeyId).

(** A failed [save] may or may not have replaced the stored state. *)
Inductive SaveAnswer : Type :=
| Saved
| SaveFailed (message : string) (written : bool).

(** What [RegistrationPrepared] and the XXpsk3 handshake provide. *)
Record Prepared : Type := mkPrepared {
  pr_agent_id : bytes;
  pr_server_public_key : NoisePublicKey;
  pr_registration_id : bytes;
}.

Record Net : Type := mkNet {
  net_load : nat → option string;
  net_generate : nat → result NoiseError NoiseIdentity;
  net_save : nat → SaveAnswer;
  net_connect_ik : nat → NoiseIdentity → NoisePublicKey → result TransportError unit;
  net_verify : nat → result SmaluxClientError unit;
  net_prepare : nat → NoiseIdentity → bytes * bytes → result TransportError Prepared;
  net_commit : nat → result TransportError unit;
  net_acknowledge : nat → result TransportError unit;
}.

Record Agent : Type := mkAgent {
  store : option PersistedAgentState;
  trace : list Effect;
}.

(** [registration_token] of the configuration. *)
Record Config : Type := mkConfig { registration_token : option bytes }.

Inductive AuthenticationMode : Type := RegistrationXxPsk3 | ReconnectIk.

(** [ActiveConnection]. *)
Record ActiveConnection : Type := mkActive {
  ac_state : PersistedAgentState;
  ac_mode : AuthenticationMode;
}.

Inductive InitialConnectionAction : Type := Register | RecoverPending | ConnectRegistered.

(** ** [ConnectionCoordinator] *)

Section Coordinator.
Context `{B : Blake2s}.
Variable net : Net.
Variable config : Config.

Abbreviation M A := (ST Agent (result SmaluxClientError A)) (only parsing).

(** The moment of a call is the number of calls made before it. *)
Definition call {A} (e : Effect) (answer : nat → A) : ST Agent A := λ a,
  Some (answer (length (trace a)), mkAgent (store a) (trace a ++ [e])).

Definition load : M (option PersistedAgentState) :=
  r ← call ELoad (net_load net);
  match r with
  | Some message => mret (Err (CStateStore message))
  | None => s ← st_gets store; mret (Ok s)
  end.

Definition save (s : PersistedAgentState) : M unit :=
  r ← call (ESave s) (net_save net);
  match r with
  | Saved => st_modify (λ a, mkAgent (Some s) (trace a));; mret (Ok tt)
  | SaveFailed message written =>
      (if written : bool then st_modify (λ a, mkAgent (Some s) (trace a)) else mret tt);;
      mret (Err (CStateStore message))
  end.

(** [connect_with_candidates]: the first key that connects, or the last error. *)
Fixpoint try_candidates (i : NoiseIdentity) (candidates : list NoisePublicKey)
    (last : option TransportError) : ST Agent (result TransportError NoisePublicKey) :=
  match candidates with
  | [] =>
      mret (Err (match last with Some e => e | None => TProtocol "no Server key candidates" end))
  | key :: rest =>
      r ← call (EConnect key) (λ n, net_connect_ik net n i key);
      match r with
      | Ok _ => mret (Ok key)
      | Err e => try_candidates i rest (Some e)
      end
  end.

Definition connect_with_candidates (i : NoiseIdentity) (candidates : list NoisePublicKey) :
    M NoisePublicKey :=
  r ← try_candidates i candidates None; mret (map_err CTransport r).

Definition verify_authorized_session : M unit := call EVerify (net_verify net).

(** [connect_registered]. *)
Definition connect_registered (s : PersistedAgentState) : M ActiveConnection :=
  connected_key ?← connect_with_candidates (identity s) (server_key_candidates s);
  _ ?← verify_authorized_session;
  if bool_decide (server_key_snapshot s ≫= ps_pending = Some connected_key) then
    match server_key_snapshot s ≫= ps_rotation_id with
    | None => mret (Err (CNoise NoPendingRotation))
    | Some rotation_id =>
        match promote_server_key rotation_id s with
        | Err e => mret (Err (CNoise e))
        | Ok promoted =>
            _ ?← save promoted; mret (Ok (mkActive promoted ReconnectIk))
        end
    end
  else mret (Ok (mkActive s ReconnectIk)).

(** [verify_same_pending]. *)
Definition verify_same_pending (previous current : PersistedAgentState) :
    result SmaluxClientError unit :=
  if bool_decide (agent_id previous = agent_id current)
     && bool_decide (public_key (identity previous) = public_key (identity current))
     && bool_decide (server_key_snapshot previous = server_key_snapshot current)
     && bool_decide (registration_id previous = registration_id current)
  then Ok tt else Err CInconsistentPendingRegistration.

(** [register]. *)
Definition register (s : PersistedAgentState) : M ActiveConnection :=
  match registration_token config with
  | None => mret (Err CRegistrationTokenRequired)
  | Some token =>
      match parse_registration_credential token with
      | Err _ => mret (Err CInvalidRegistrationToken)
      | Ok credential =>
          r ← call (EPrepare (identity s)) (λ n, net_prepare net n (identity s) credential);
          match r with
          | Err e => mret (Err (CTransport e))
          | Ok p =>
              let pending_state :=
                registration_pending (pr_agent_id p) (identity s) (pr_server_public_key p)
                  (pr_registration_id p) in
              _ ?← mret (if bool_decide (stage s = StageRegistrationPending)
                         then verify_same_pending s pending_state else Ok tt);
              _ ?← save pending_state;
              r ← call (ECommit (pr_registration_id p)) (net_commit net);
              match r with
              | Err e => mret (Err (CTransport e))
              | Ok _ =>
                  match registered_from_pending pending_state with
                  | Err message => mret (Err (CStateStore message))
                  | Ok registered =>
                      _ ?← save registered; mret (Ok (mkActive registered RegistrationXxPsk3))
                  end
              end
          end
      end
  end.

(** [initial_connection_action]. *)
Definition initial_connection_action (s : RegistrationStage) : InitialConnectionAction :=
  match s with
  | StageIdentityPrepared => Register
  | StageRegistrationPending => RecoverPending
  | StageRegistered => ConnectRegistered
  end.

(** The [RecoverPending] arm of [establish_initial]. *)
Definition recover_pending (s : PersistedAgentState) : M ActiveConnection :=
  r ← connect_registered s;
  match r with
  | Ok connection =>
      match registered_from_pending (ac_state connection) with
      | Err message => mret (Err (CStateStore message))
      | Ok registered =>
          _ ?← save registered; mret (Ok (mkActive registered (ac_mode connection)))
      end
  | Err e => if is_agent_not_authorized e then register s else mret (Err e)
  end.

(** The first lines of [establish_initial]: the stored state or a new identity. *)
Definition load_or_generate : M PersistedAgentState :=
  loaded ?← load;
  match loaded with
  | Some s => mret (Ok s)
  | None =>
      r ← call EGenerate (net_generate net);
      match r with
      | Err e => mret (Err (CNoise e))
      | Ok i => _ ?← save (identity_prepared i); mret (Ok (identity_prepared i))
      end
  end.

(** [establish_initial]. *)
Definition establish_initial : M ActiveConnection :=
  s ?← load_or_generate;
  match initial_connection_action (stage s) with
  | Register => register s
  | RecoverPending => recover_pending s
  | ConnectRegistered => connect_registered s
  end.

(** [process_session_event] on a Server announcement received over the connection
    in state [s]; the state of the connection afterwards is the value returned. *)
Definition process_announcement (announcement : Announcement) (s : PersistedAgentState) :
    M PersistedAgentState :=
  match
    key ← public_key_from_bytes (an_new_public_key announcement);
    id ← key_id_from_bytes (an_new_key_id announcement);
    if bool_decide (key_id key ≠ id) then Err UnknownKeyId
    else
      rotation_id ← rotation_id_from_bytes (an_rotation_id announcement);
      updated ← stage_server_key announcement s;
      Ok (rotation_id, id, updated)
  with
  | Err e => mret (Err (CNoise e))
  | Ok (rotation_id, id, updated) =>
      _ ?← save updated;
      (* a failed acknowledgement is only logged *)
      _ ← call (EAcknowledge rotation_id id) (net_acknowledge net);
      mret (Ok updated)
  end.

End Coordinator.

(** ** The order of writes and messages *)

Definition stage_rank (s : PersistedAgentState) : nat :=
  match stage s with
  | StageIdentityPrepared => 0
  | StageRegistrationPending => 1
  | StageRegistered => 2
  end.

(** The stored state [s] may be replaced by [s']: same identity, no step back. *)
Definition succeeds (s s' : PersistedAgentState) : Prop :=
  identity s' = identity s ∧ (stage_rank s ≤ stage_rank s')%nat.

Global Instance succeeds_preorder : PreOrder succeeds.
Proof. split; [done|]. intros s1 s2 s3 [??] [??]. split; [congruence|lia]. Qed.

Section Discipline.
Context `{B : Blake2s}.
Variable net : Net.

(** The message at position [n] was sent right after a save of [s] that succeeded. *)
Definition saved_before (tr : list Effect) (n : nat) (P : PersistedAgentState → Prop) : Prop :=
  ∃ m s, n = S m ∧ tr !! m = Some (ESave s) ∧ net_save net m = Saved ∧ P s.

(** A commit leaves only after the pending registration it names is on disk, an
    acknowledgement only after a state that trusts the acknowledged key is. *)
Definition disciplined (tr : list Effect) : Prop :=
  (∀ n r, tr !! n = Some (ECommit r) →
     saved_before tr n (λ s, ∃ a i k, s = RegistrationPending a i k r)) ∧
  (∀ n r id, tr !! n = Some (EAcknowledge r id) →
     saved_before tr n (λ s, ∃ k, k ∈ server_key_candidates s ∧ key_id k = id)).

Lemma saved_before_app tr tr' n P : saved_before tr n P → saved_before (tr ++ tr') n P.
Proof.
  intros (m & s & -> & Hm & Hs & HP). exists m, s. split_and!; try done. by apply lookup_app_l_Some.
Qed.

Definition silent (e : Effect) : Prop :=
  match e with ECommit _ | EAcknowledge _ _ => False | _ => True end.

Lemma disciplined_snoc tr e :
  disciplined tr →
  (∀ r, e = ECommit r →
     saved_before tr (length tr) (λ s, ∃ a i k, s = RegistrationPending a i k r)) →
  (∀ r id, e = EAcknowledge r id →
     saved_before tr (length tr) (λ s, ∃ k, k ∈ server_key_candidates s ∧ key_id k = id)) →
  disciplined (tr ++ [e]).
Proof.
  intros [H1 H2] H3 H4. split.
  - intros n r Hn. apply lookup_app_Some in Hn as [Hn|[Hge Hn]].
    + by apply saved_before_app, H1.
    + apply list_lookup_singleton_Some in Hn as [Hz ->].
      replace n with (length tr) by lia. by apply saved_before_app, H3.
  - intros n r id Hn. apply lookup_app_Some in Hn as [Hn|[Hge Hn]].
    + by eapply saved_before_app, H2.
    + apply list_lookup_singleton_Some in Hn as [Hz ->].
      replace n with (length tr) by lia. by eapply saved_before_app, H4.
Qed.

Lemma disciplined_silent tr e : disciplined tr → silent e → disciplined (tr ++ [e]).
Proof. intros H He. apply disciplined_snoc; [done|..]; intros; by subst. Qed.

Lemma saved_last tr s (P : PersistedAgentState → Prop) :
  net_save net (length tr) = Saved → P s →
  saved_before (tr ++ [ESave s]) (length (tr ++ [ESave s])) P.
Proof.
  intros Hs HP. exists (length tr), s. split_and!; try done.
  - rewrite length_app. cbn. lia.
  - apply lookup_snoc_Some. naive_solver.
Qed.

Lemma yields_call {A} e (f : nat → A) a (Q : A → Agent → Prop) :
  Q (f (length (trace a))) (mkAgent (store a) (trace a ++ [e])) → yields (call e f) a Q.
Proof. intros HQ. eexists _, _. split; [reflexivity|done]. Qed.

Lemma yields_save s a (Q : result SmaluxClientError unit → Agent → Prop) :
  (net_save net (length (trace a)) = Saved →
   Q (Ok tt) (mkAgent (Some s) (trace a ++ [ESave s]))) →
  (∀ message st, st = store a ∨ st = Some s →
   Q (Err (CStateStore message)) (mkAgent st (trace a ++ [ESave s]))) →
  yields (save net s) a Q.
Proof.
  intros H1 H2. apply yields_bind, yields_call. cbn.
  destruct (net_save net (length (trace a))) as [|message [|]].
  - apply yields_bind, yields_modify, yields_ret. auto.
  - apply yields_bind, yields_modify, yields_ret. auto.
  - apply yields_bind, yields_ret, yields_ret. cbn. auto.
Qed.

Lemma change_server_keys_Ok f s s' :
  change_server_keys f s = Ok s' → identity s' = identity s ∧ stage s' = stage s.
Proof.
  destruct s as [i|a i k r|a i k r]; cbn; [done|..]; intros H; inv_result; by split.
Qed.

(** The candidates are tried one after the other and nothing is written. *)
Lemma yields_try_candidates i keys last a (Q : result TransportError NoisePublicKey → Agent → Prop) :
  disciplined (trace a) →
  (∀ r tr, disciplined tr → Q r (mkAgent (store a) tr)) →
  yields (try_candidates net i keys last) a Q.
Proof.
  revert last a. induction keys as [|key keys IH]; intros last a Ha HQ; cbn.
  - apply yields_ret. destruct a as [st tr]. by apply HQ.
  - apply yields_bind, yields_call.
    assert (disciplined (trace a ++ [EConnect key])) by by apply disciplined_silent.
    destruct (net_connect_ik net (length (trace a)) i key) as [[]|e].
    + apply yields_ret. by apply HQ.
    + by apply IH.
Qed.

(** The effect of one method on a store that held [s0]. *)
Record safe_outcome (s0 : PersistedAgentState) (r : result SmaluxClientError ActiveConnection)
    (a : Agent) : Prop := mkSafe {
  safe_disciplined : disciplined (trace a);
  safe_store : ∃ s', store a = Some s' ∧ succeeds s0 s';
  safe_ok : ∀ c, r = Ok c → store a = Some (ac_state c);
}.

Lemma connect_registered_safe s a :
  disciplined (trace a) → store a = Some s →
  yields (connect_registered net s) a (λ r a',
    safe_outcome s r a' ∧
    (∀ c, r = Ok c → stage (ac_state c) = stage s) ∧
    (∀ e, r = Err e → is_agent_not_authorized e = true → store a' = Some s)).
Proof.
  intros Ha Hs. apply yields_try, yields_bind, yields_try_candidates; [done|].
  intros r tr Htr. rewrite Hs. apply yields_ret.
  destruct r as [key|e]; cbn.
  2: { split; [|naive_solver]. split; [done| |naive_solver]. by exists s. }
  apply yields_try, yields_call. cbn.
  assert (disciplined (tr ++ [EVerify])) as Hd by by apply disciplined_silent.
  assert (∀ e, safe_outcome s (Err e) (mkAgent (Some s) (tr ++ [EVerify]))) as Hfail.
  { intros e. split; [done| |done]. by exists s. }
  destruct (net_verify net (length tr)) as [[]|e]; cbn; [|naive_solver].
  case_bool_decide.
  2: { apply yields_ret. split_and!; [|naive_solver|done]. split; [done|by exists s|naive_solver]. }
  destruct (server_key_snapshot s ≫= ps_rotation_id) as [rid|]; [|apply yields_ret; naive_solver].
  destruct (promote_server_key rid s) as [p|e] eqn:Hp; [|apply yields_ret; naive_solver].
  apply change_server_keys_Ok in Hp as [Hi Hst].
  assert (succeeds s p) by (split; [done|unfold stage_rank; rewrite Hst; lia]).
  assert (disciplined ((tr ++ [EVerify]) ++ [ESave p])) by by apply disciplined_silent.
  apply yields_try, yields_save; cbn.
  - intros _. apply yields_ret. split_and!; [|naive_solver|done].
    split; [done|by exists p|naive_solver].
  - intros m st Hst'. split_and!; [|done|naive_solver]. split; [done| |done].
    destruct Hst' as [->| ->]; eauto. by exists s.
Qed.

Lemma register_safe config s a :
  disciplined (trace a) → store a = Some s → stage s ≠ StageRegistered →
  yields (register net config s) a (λ r a',
    safe_outcome s r a' ∧ (∀ c, r = Ok c → stage (ac_state c) = StageRegistered)).
Proof.
  intros Ha Hs Hst. unfold register.
  assert (∀ tr e, disciplined tr → safe_outcome s (Err e) (mkAgent (Some s) tr) ∧
    ∀ c, Err e = Ok c → stage (ac_state c) = StageRegistered) as Hfail.
  { intros tr e Htr. split; [|done]. split; [done| |done]. by exists s. }
  destruct a as [st tr]. cbn in *. subst st.
  destruct (registration_token config) as [token|]; [|apply yields_ret; auto].
  destruct (parse_registration_credential token) as [cred|e]; [|apply yields_ret; auto].
  apply yields_bind, yields_call. cbn.
  assert (disciplined (tr ++ [EPrepare (identity s)])) as Hd by by apply disciplined_silent.
  revert Hd. generalize (tr ++ [EPrepare (identity s)]). clear Ha. intros tr' Hd.
  destruct (net_prepare net (length tr) (identity s) cred) as [p|e]; [|apply yields_ret; auto].
  apply yields_try, yields_ret.
  destruct (if bool_decide _ then _ else _) as [[]|e]; [|auto].
  set (pend := registration_pending _ _ _ _).
  assert (succeeds s pend) as Hp.
  { split; [done|]. destruct s; cbn in *; try done; cbv; lia. }
  apply yields_try, yields_save; cbn.
  2: { intros m st Hst'. split; [|done]. split; [by apply disciplined_silent| |done].
       destruct Hst' as [->| ->]; eauto. by exists s. }
  intros Hsaved. apply yields_bind, yields_call. cbn.
  assert (disciplined ((tr' ++ [ESave pend]) ++ [ECommit (pr_registration_id p)])) as Hc.
  { apply disciplined_snoc; [by apply disciplined_silent| |done].
    intros r [= <-]. apply saved_last; [done|]. unfold pend, registration_pending. eauto. }
  destruct (net_commit net _) as [[]|e].
  2: { apply yields_ret. split; [|done]. split; [done| |done]. by exists pend. }
  apply yields_try, yields_save; cbn.
  - intros _. apply yields_ret. split; [|naive_solver].
    split; [by apply disciplined_silent| |naive_solver].
    eexists. split; [done|]. split; [done|]. destruct s; cbv; lia.
  - intros m st Hst'. split; [|done]. split; [by apply disciplined_silent| |done].
    destruct Hst' as [->| ->]; (eexists; split; [done|]); [done|].
    split; [done|]. destruct s; cbv; lia.
Qed.

Lemma recover_pending_safe config s a :
  disciplined (trace a) → store a = Some s → stage s = StageRegistrationPending →
  yields (recover_pending net config s) a (λ r a',
    safe_outcome s r a' ∧ (∀ c, r = Ok c → stage (ac_state c) = StageRegistered)).
Proof.
  intros Ha Hs Hst. apply yields_bind.
  eapply yields_mono; [by apply connect_registered_safe|]. cbn.
  intros r a1 ([Hd Hstore Hok] & Hstage & Hna). destruct r as [c|e].
  - specialize (Hok c eq_refl). specialize (Hstage c eq_refl). rewrite Hst in Hstage.
    destruct Hstore as (s' & Hs' & Hsucc). rewrite Hok in Hs'. injection Hs' as <-.
    destruct (ac_state c) as [|ag i k rid|] eqn:Hc; try done. cbn.
    assert (succeeds (RegistrationPending ag i k rid) (Registered ag i k rid)) by (split; [done|cbv; lia]).
    apply yields_try, yields_save; cbn.
    + intros _. apply yields_ret. split; [|naive_solver].
      split; [by apply disciplined_silent| |naive_solver]. eexists. split; [done|]. by etrans.
    + intros m st Hst'. split; [|done]. split; [by apply disciplined_silent| |done].
      destruct Hst' as [->| ->]; [eauto|]. eexists. split; [done|]. by etrans.
  - destruct (is_agent_not_authorized e) eqn:He.
    + apply register_safe; [done|by eapply Hna|congruence].
    + apply yields_ret. split; [|done]. by split.
Qed.

End Discipline.

Section Establish.
Context `{B : Blake2s}.
Variable net : Net.
Variable config : Config.

Lemma load_or_generate_safe a :
  disciplined net (trace a) →
  yields (load_or_generate net) a (λ r a',
    disciplined net (trace a') ∧
    (∀ s, store a = Some s → store a' = Some s) ∧
    (∀ s, r = Ok s → store a' = Some s ∧ (store a = None → stage s = StageIdentityPrepared))).
Proof.
  intros Ha. apply yields_try, yields_bind, yields_call. cbn.
  assert (disciplined net (trace a ++ [ELoad])) as Hd by by apply disciplined_silent.
  destruct (net_load net _) as [m|]; [apply yields_ret; naive_solver|].
  apply yields_bind, yields_gets. cbn. apply yields_ret.
  destruct (store a) as [s|]; [apply yields_ret; naive_solver|].
  apply yields_bind, yields_call. cbn.
  assert (disciplined net ((trace a ++ [ELoad]) ++ [EGenerate])) as Hg by by apply disciplined_silent.
  destruct (net_generate net _) as [i|e]; [|apply yields_ret; naive_solver].
  apply yields_try, yields_save; cbn.
  - intros _. apply yields_ret. cbn. split_and!; [by apply disciplined_silent|done|naive_solver].
  - intros m st _. split_and!; [by apply disciplined_silent|done|done].
Qed.

(** Establishing a connection, whatever the network and the store answer and at
    whatever stage the Agent was stopped before: the call returns; a registration commit
    only leaves after the pending registration it names has been stored; the stored
    identity never changes and the stage never goes back; and a connection is only
    reported with the state that is stored, which then is a completed registration. *)
Theorem establish_initial_safe a :
  disciplined net (trace a) →
  ∃ r a', establish_initial net config a = Some (r, a') ∧
    disciplined net (trace a') ∧
    (∀ s, store a = Some s → ∃ s', store a' = Some s' ∧ succeeds s s') ∧
    (∀ c, r = Ok c → store a' = Some (ac_state c) ∧ stage (ac_state c) = StageRegistered).
Proof.
  intros Ha. apply yields_try. eapply yields_mono; [by apply load_or_generate_safe|]. cbn.
  intros r a1 (Hd & Hkeep & Hload). destruct r as [s|e].
  2: { split_and!; [done|naive_solver|done]. }
  destruct (Hload s eq_refl) as [Hs Hnew].
  assert (∀ r a', safe_outcome net s r a' →
    (∀ s, store a = Some s → ∃ s', store a' = Some s' ∧ succeeds s s')) as Hchain.
  { intros r a' [_ Hst _] s0 Hs0. apply Hkeep in Hs0. by simplify_eq. }
  destruct (stage s) eqn:Hst; cbn.
  - eapply yields_mono; [apply register_safe; [done|done|congruence]|]. cbn.
    intros r a2 [H1 H2]. pose proof (Hchain _ _ H1). destruct H1. naive_solver.
  - eapply yields_mono; [by apply recover_pending_safe|]. cbn.
    intros r a2 [H1 H2]. pose proof (Hchain _ _ H1). destruct H1. naive_solver.
  - eapply yields_mono; [by apply connect_registered_safe|]. cbn.
    intros r a2 (H1 & H2 & _). pose proof (Hchain _ _ H1). destruct H1.
    split_and!; [done|done|]. intros c Hc. split; [auto|]. rewrite H2; auto.
Qed.

(** The announced key, and the one announced id, of an accepted announcement. *)
Lemma open_announcement_Ok an rid key :
  open_announcement an = Ok (rid, key) ↔
  rid = an_rotation_id an ∧ key = an_new_public_key an ∧ key_id key = an_new_key_id an ∧
  length rid = ROTATION_ID_LEN ∧ length key = KEY_LEN ∧ length (key_id key) = KEY_LEN.
Proof.
  unfold open_announcement, rotation_id_from_bytes, public_key_from_bytes, key_id_from_bytes.
  destruct an as [r k i]. cbn [an_rotation_id an_new_public_key an_new_key_id].
  repeat (case_bool_decide; cbn); naive_solver.
Qed.

(** An accepted announcement adds its key to the candidates and removes none. *)
Lemma pinned_stage_candidates an keys keys' :
  pinned_stage an keys = (Ok tt, keys') →
  an_new_public_key an ∈ pinned_connection_candidates keys' ∧
  pinned_connection_candidates keys ⊆ pinned_connection_candidates keys'.
Proof.
  unfold pinned_stage. destruct (open_announcement an) as [[rid key]|] eqn:Ho; [|done].
  apply open_announcement_Ok in Ho as (-> & -> & _).
  unfold pinned_connection_candidates. destruct (ps_pending keys) as [p|] eqn:Hp.
  - destruct (_ && _) eqn:E; intros [= <-]. bools. subst p. rewrite Hp. set_solver.
  - destruct (_ || _) eqn:E; intros [= <-]; [|cbn; set_solver]. split; [|by rewrite Hp].
    apply orb_true_iff in E as [E|E]; bools; rewrite Hp; [rewrite E; set_solver|].
    rewrite E. cbn. set_solver.
Qed.

Lemma with_server_keys_Ok f k k' : with_server_keys f k = Ok k' → f k = (Ok tt, k').
Proof.
  unfold with_server_keys, pinned_from_snapshot. case_bool_decide; [cbn|done].
  destruct (f k) as [[[]|] k2]; naive_solver.
Qed.

Lemma stage_server_key_Ok an s s' :
  stage_server_key an s = Ok s' →
  an_new_public_key an ∈ server_key_candidates s' ∧
  server_key_candidates s ⊆ server_key_candidates s' ∧ succeeds s s'.
Proof.
  intros H. pose proof (change_server_keys_Ok _ _ _ H) as [Hi Hst].
  assert (succeeds s s') by (split; [done|unfold stage_rank; rewrite Hst; lia]).
  destruct s as [i|a i k r|a i k r]; cbn in H; [done|..]; inv_result; cbn;
    match goal with
    | E : with_server_keys _ _ = Ok _ |- _ =>
        apply with_server_keys_Ok, pinned_stage_candidates in E as [? ?]; done
    end.
Qed.

(** What handling an announcement in the stored state [s] may lead to. *)
Definition announcement_outcome (an : Announcement) (s : PersistedAgentState) (a : Agent)
    (r : result SmaluxClientError PersistedAgentState) (a' : Agent) : Prop :=
  disciplined net (trace a') ∧
  (∃ s', store a' = Some s' ∧ succeeds s s') ∧
  (∀ e, r = Err (CNoise e) → a' = a) ∧
  (∀ s', r = Ok s' → store a' = Some s' ∧
     an_new_public_key an ∈ server_key_candidates s' ∧
     server_key_candidates s ⊆ server_key_candidates s').

Lemma process_announcement_returns an s a :
  disciplined net (trace a) → store a = Some s →
  yields (process_announcement net an s) a (announcement_outcome an s a).
Proof.
  intros Ha Hs. unfold process_announcement. destruct a as [st tr]. cbn in *. subst st.
  assert (∀ e, yields (mret (Err (CNoise e)) : ST Agent (result SmaluxClientError PersistedAgentState))
    (mkAgent (Some s) tr) (announcement_outcome an s (mkAgent (Some s) tr))) as Hfail.
  { intros e. apply yields_ret. split_and!; try done. by exists s. }
  destruct (public_key_from_bytes _) as [key|e] eqn:Hkey; cbn; [|by apply Hfail].
  destruct (key_id_from_bytes _) as [id|e] eqn:Hkid; cbn; [|by apply Hfail].
  destruct (decide (key_id key = id)) as [Hid|Hid];
    [rewrite bool_decide_eq_false_2 by auto|rewrite bool_decide_eq_true_2 by done; by apply Hfail].
  cbn.
  destruct (rotation_id_from_bytes _) as [rid|e]; cbn; [|by apply Hfail].
  unfold public_key_from_bytes in Hkey. case_bool_decide; simplify_eq.
  destruct (stage_server_key an s) as [s'|e] eqn:Hst; cbn; [|by apply Hfail].
  apply stage_server_key_Ok in Hst as (Hk & Hsub & Hsucc). 
  apply yields_try, yields_save; cbn.
  - intros Hsaved. apply yields_bind, yields_call, yields_ret. cbn.
    split_and!; [|by exists s'|done|naive_solver].
    apply disciplined_snoc; [by apply disciplined_silent|done|].
    intros r id' [= <- <-]. apply saved_last; eauto.
  - intros m st' Hst'. split_and!; [by apply disciplined_silent| |done|done].
    destruct Hst' as [->| ->]; [by exists s|by exists s'].
Qed.

(** A Server key announcement: either it is refused with nothing written or sent, or
    the Agent stores a state that trusts the announced key beside the keys it trusted
    before and only then acknowledges it; the identity and the stage stay. *)
Theorem process_announcement_safe an s a :
  disciplined net (trace a) → store a = Some s →
  ∃ r a', process_announcement net an s a = Some (r, a') ∧
    disciplined net (trace a') ∧
    (∃ s', store a' = Some s' ∧ succeeds s s') ∧
    (∀ e, r = Err (CNoise e) → a' = a) ∧
    (∀ s', r = Ok s' → store a' = Some s' ∧
       an_new_public_key an ∈ server_key_candidates s' ∧
       server_key_candidates s ⊆ server_key_candidates s').
Proof. apply process_announcement_returns. Qed.

End Establish.

(** Recovery of a pending registration when the Server knows no such Agent: the answer to
    the new preparation must repeat the stored one, or nothing is written and the
    attempt ends. *)
Lemma recovery_refused net config name me k reg tr token cred p :
  let s := RegistrationPending name me k reg in
  registration_token config = Some token → parse_registration_credential token = Ok cred →
  (∀ n, net_load net n = None) → (∀ n key, net_connect_ik net n me key = Ok tt) →
  (∀ n, ∃ e, net_verify net n = Err e ∧ is_agent_not_authorized e = true) →
  (∀ n, net_prepare net n me cred = Ok p) →
  verify_same_pending s (registration_pending (pr_agent_id p) me (pr_server_public_key p)
    (pr_registration_id p)) = Err CInconsistentPendingRegistration →
  ∃ tr', establish_initial net config (mkAgent (Some s) tr) =
    Some (Err CInconsistentPendingRegistration, mkAgent (Some s) tr').
Proof.
  intros s Htok Hcred Hload Hik Hver Hprep Hsame.
  assert (∃ key keys, server_key_candidates s = key :: keys) as (key & keys & Hkeys).
  { cbn. unfold pinned_connection_candidates. destruct (ps_pending k); cbn; eauto. }
  destruct (Hver (S (S (length tr)))) as (e & He & Hna).
  assert (establish_initial net config (mkAgent (Some s) tr) = recover_pending net config s
    (mkAgent (Some s) (tr ++ [ELoad]))) as ->.
  { unfold establish_initial, load_or_generate, st_try, load, mbind, st_bind, call.
    cbn [trace]. rewrite Hload. reflexivity. }
  assert (connect_registered net s (mkAgent (Some s) (tr ++ [ELoad])) =
    Some (Err e, mkAgent (Some s) (((tr ++ [ELoad]) ++ [EConnect key]) ++ [EVerify]))) as Hc.
  { unfold connect_registered, connect_with_candidates. rewrite Hkeys.
    unfold st_try, mbind, st_bind, verify_authorized_session. cbn [try_candidates].
    unfold mbind, st_bind, call. cbn [trace identity s]. rewrite Hik. cbn.
    rewrite !length_app. cbn. replace (length tr + 1 + 1)%nat with (S (S (length tr))) by lia.
    by rewrite He. }
  unfold recover_pending, mbind, st_bind. rewrite Hc, Hna.
  unfold register. rewrite Htok, Hcred. unfold mbind, st_bind, call. cbn [trace identity s].
  rewrite Hprep. cbn [stage s]. rewrite bool_decide_eq_true_2 by done.
  unfold st_try, mbind, st_bind, mret, st_ret. rewrite Hsame. by eexists.
Qed.

(** ** A concrete environment *)

(** A stand-in for the hash on 32-byte keys, and the keys made from one number. *)
Global Instance demo_hash : Blake2s | 100 := λ k, k.

Lemma demo_hash_laws : Blake2sLaws demo_hash.
Proof. intros k k' H. exact H. Qed.

Definition demo_key (n : Z) : NoisePublicKey := replicate KEY_LEN n.
Definition demo_identity (n : Z) : NoiseIdentity := mkIdentity (replicate KEY_LEN (n + 128)) (demo_key n).
Definition demo_agent_id : bytes := replicate 36 97.
Definition demo_rotation_id (n : Z) : RotationId := replicate ROTATION_ID_LEN n.

(** Every call succeeds, and the Server accepts the IK keys in [active]. *)
Definition demo_net (active : list NoisePublicKey) : Net := {|
  net_load := λ _, None;
  net_generate := λ _, Ok (demo_identity 1);
  net_save := λ _, Saved;
  net_connect_ik := λ _ _ key,
    if bool_decide (key ∈ active) then Ok tt else Err (TRemoteProtocol "Server key ID is not active");
  net_verify := λ _, Ok tt;
  net_prepare := λ _ _ _, Ok (mkPrepared demo_agent_id (demo_key 2) (replicate 16 9));
  net_commit := λ _, Ok tt;
  net_acknowledge := λ _, Ok tt;
|}.

Definition demo_client_config : Config :=
  mkConfig (Some (issued_credential (replicate 16 171) (replicate 32 205))).

Definition demo_registered (keys : PinnedServerKeysSnapshot) : PersistedAgentState :=
  Registered demo_agent_id (demo_identity 1) keys (replicate 16 9).

(** A first start registers the Agent. *)
Example first_start_registers :
  (establish_initial (demo_net []) demo_client_config (mkAgent None [])) =
  Some (Ok (mkActive (demo_registered (pinned_new (demo_key 2))) RegistrationXxPsk3),
        mkAgent (Some (demo_registered (pinned_new (demo_key 2))))
          [ELoad; EGenerate; ESave (IdentityPrepared (demo_identity 1));
           EPrepare (demo_identity 1);
           ESave (RegistrationPending demo_agent_id (demo_identity 1) (pinned_new (demo_key 2)) (replicate 16 9));
           ECommit (replicate 16 9); ESave (demo_registered (pinned_new (demo_key 2)))]).
Proof. vm_compute. reflexivity. Qed.

Lemma establish_initial_safe_witness :
  ∃ r a', establish_initial (demo_net []) demo_client_config (mkAgent None []) = Some (r, a') ∧
    disciplined (demo_net []) (trace a') ∧
    (∀ s, store (mkAgent None []) = Some s → ∃ s', store a' = Some s' ∧ succeeds s s') ∧
    (∀ c, r = Ok c → store a' = Some (ac_state c) ∧ stage (ac_state c) = StageRegistered).
Proof.
  apply (establish_initial_safe (demo_net []) demo_client_config (mkAgent None [])).
  split; intros *; cbn; intros H; discriminate H.
Defined.

Definition demo_announcement (r n : Z) : Announcement :=
  announce (demo_rotation_id r) (demo_identity n).

Lemma process_announcement_safe_witness :
  let s := demo_registered (pinned_new (demo_key 2)) in
  let a := mkAgent (Some s) [] in
  ∃ r a', process_announcement (demo_net []) (demo_announcement 5 3) s a = Some (r, a') ∧
    disciplined (demo_net []) (trace a') ∧
    (∃ s', store a' = Some s' ∧ succeeds s s') ∧
    (∀ e, r = Err (CNoise e) → a' = a) ∧
    (∀ s', r = Ok s' → store a' = Some s' ∧
       an_new_public_key (demo_announcement 5 3) ∈ server_key_candidates s' ∧
       server_key_candidates s ⊆ server_key_candidates s').
Proof.
  intros s a.
  apply (process_announcement_safe (demo_net []) (demo_announcement 5 3) s a).
  - split; intros *; cbn; intros H; discriminate H.
  - reflexivity.
Defined.

(** The Server answers at the given moments only, and accepts the keys in [active]. *)
Definition flaky_net (active : list NoisePublicKey) (up : nat → bool) : Net :=
  let net := demo_net active in
  mkNet (net_load net) (net_generate net) (net_save net)
    (λ n i key, if up n then net_connect_ik net n i key else Err (TTimeout "opening gRPC channel"))
    (net_verify net) (net_prepare net) (net_commit net) (net_acknowledge net).

(** Defect: [connect_with_candidates] reports the error of the last candidate only.
    An Agent that still lists the retired previous Server key is told, after a time-out
    that should be retried, that the retired key is not active; the error is not
    retryable and ends the client, although the same call a moment later connects. *)
Theorem transient_failure_becomes_fatal :
  let s := demo_registered (mkPinned (demo_key 3) None (Some (demo_key 2)) None) in
  let net := flaky_net [demo_key 3] (λ n, bool_decide (0 < n)%nat) in
  let first := connect_registered net s (mkAgent (Some s) []) in
  is_retryable (CTransport (TTimeout "opening gRPC channel")) = true ∧
  ∃ e a, first = Some (Err e, a) ∧ is_retryable e = false ∧
    (∃ c a', connect_registered net s a = Some (Ok c, a')).
Proof.
  intros s net first. split; [reflexivity|]. subst first.
  eexists _, _. split; [vm_compute; reflexivity|]. split; [reflexivity|].
  eexists _, _. vm_compute. reflexivity.
Qed.
