(* ===== verification/StateFile.v ===== *)
(** * The state file of an Agent

    [crates/smalux-agent/src/client/state/file_store.rs]: the JSON document the
    authentication state is stored as, and [FileAgentStateStore] with [load], [save] and
    [clear] over three files: the primary one, the new one and the backup.

    A file operation may succeed, fail, or be the one at which the process dies; the
    outcomes are a function of the number of the operation within a call.  [serde_json]
    is the class [StateCodec].  Files are not torn by a crash of the machine: the model is
    one of processes that die, as the comment in [save] has it.  The Windows access
    lists are left out. *)

From stdpp Require Import base list strings countable.
From S2P Require Import Prelude StLogic Rotation Credential AgentState.

(** ** The document *)

Definition STATE_FORMAT_VERSION : Z := 1.

(** [StoredServerKeys]. *)
Record StoredServerKeys : Type := mkStoredKeys {
  sk_public_keys : list bytes;
  sk_pending_public_key : option bytes;
  sk_previous_public_key : option bytes;
  sk_rotation_id : option bytes;
}.

(** [StoredAgentState]; the four key fields of a variant are one [StoredServerKeys]. *)
Inductive StoredAgentState : Type :=
| SIdentityPrepared (private_key public_key : bytes)
| SRegistrationPending (agent_id private_key public_key : bytes) (keys : StoredServerKeys) (registration_id : bytes)
| SRegistered (agent_id private_key public_key : bytes) (keys : StoredServerKeys) (registration_id : bytes).

(** [StateDocument]. *)
Record StateDocument : Type := mkStateDocument {
  sd_version : Z;
  sd_state : StoredAgentState;
}.

(** [stored_server_keys]. *)
Definition stored_server_keys (snapshot : PinnedServerKeysSnapshot) : StoredServerKeys :=
  mkStoredKeys [ps_current snapshot] (ps_pending snapshot) (ps_previous snapshot) (ps_rotation_id snapshot).

(** [StoredAgentState::from]. *)
Definition stored_from (s : PersistedAgentState) : StoredAgentState :=
  match s with
  | IdentityPrepared i => SIdentityPrepared (private_key i) (public_key i)
  | RegistrationPending agent_id i keys registration_id =>
      SRegistrationPending agent_id (private_key i) (public_key i) (stored_server_keys keys) registration_id
  | Registered agent_id i keys registration_id =>
      SRegistered agent_id (private_key i) (public_key i) (stored_server_keys keys) registration_id
  end.

(** [anyhow::Error] of [try_from]. *)
Inductive StateError : Type :=
| SNoise (e : NoiseError)
| SMessage (message : string)
| SIo
| SJson
| SVersion (version : Z).

Definition opt_key {A} (parse : bytes → result NoiseError A) (value : option bytes) : result StateError (option A) :=
  match value with None => Ok None | Some b => Some <$> map_err SNoise (parse b) end.

(** The closure [server_keys] of [try_from]. *)
Definition server_keys_of (k : StoredServerKeys) : result StateError PinnedServerKeysSnapshot :=
  first ← ok_or (SMessage "registered Agent state must contain a Server public key") (head (sk_public_keys k));
  current ← map_err SNoise (public_key_from_bytes first);
  if bool_decide (2 < length (sk_public_keys k))%nat
  then Err (SMessage "Agent state contains too many Server public keys")
  else
    let legacy_previous := sk_public_keys k !! 1%nat in
    pending ← opt_key public_key_from_bytes (sk_pending_public_key k);
    previous ← opt_key public_key_from_bytes
                 (match sk_previous_public_key k with Some b => Some b | None => legacy_previous end);
    rotation_id ← opt_key rotation_id_from_bytes (sk_rotation_id k);
    map_err SNoise (pinned_from_snapshot (mkPinned current pending previous rotation_id)).

(** The closures [identity] and [registration_id]. *)
Definition identity_of (private public : bytes) : result StateError NoiseIdentity :=
  map_err SNoise (identity_from_parts private public).
Definition registration_id_of (value : bytes) : result StateError bytes :=
  if bool_decide (length value = 16%nat) then Ok value
  else Err (SMessage "registration ID must contain 16 bytes").

(** [PersistedAgentState::try_from]. *)
Definition try_from_stored (s : StoredAgentState) : result StateError PersistedAgentState :=
  match s with
  | SIdentityPrepared private public => i ← identity_of private public; Ok (IdentityPrepared i)
  | SRegistrationPending agent_id private public keys registration_id =>
      i ← identity_of private public;
      keys ← server_keys_of keys;
      registration_id ← registration_id_of registration_id;
      Ok (RegistrationPending agent_id i keys registration_id)
  | SRegistered agent_id private public keys registration_id =>
      i ← identity_of private public;
      keys ← server_keys_of keys;
      registration_id ← registration_id_of registration_id;
      Ok (Registered agent_id i keys registration_id)
  end.

(** [serde_json] on documents. *)
Class StateCodec : Type := {
  state_to_json : StateDocument → bytes;
  state_from_json : bytes → option StateDocument;
}.
Class StateCodecLaws (SC : StateCodec) : Prop :=
  state_json_roundtrip d : state_from_json (state_to_json d) = Some d.

(** ** The files *)

(** The contents of the primary file, of [json.new] and of [json.bak]. *)
Record StateFs : Type := mkStateFs {
  sf_path : option bytes;
  sf_new : option bytes;
  sf_bak : option bytes;
}.

(** How an operation ends; [partial] is what a write leaves behind that did not
    complete. *)
Inductive IoOutcome : Type := IoOk | IoErr (partial : bytes) | IoDies (partial : bytes).

(** How a call ends. *)
Inductive CallEnd : Type := Returned (r : result StateError unit) | Died.

Section Store.
Context `{SC : StateCodec}.

(** [load]: [secure] says that the permissions could be read, [readable] that reading an
    existing file succeeds. *)
Definition parse_document (bs : bytes) : result StateError PersistedAgentState :=
  document ← ok_or SJson (state_from_json bs);
  if bool_decide (sd_version document ≠ STATE_FORMAT_VERSION) then Err (SVersion (sd_version document))
  else try_from_stored (sd_state document).

Definition load_file_bytes (fs : StateFs) : option bytes :=
  match sf_path fs with Some bs => Some bs | None => sf_bak fs end.

Definition load_state (readable secure : bool) (fs : StateFs) : result StateError (option PersistedAgentState) :=
  match load_file_bytes fs with
  | None => Ok None
  | Some bs =>
      if negb readable then Err SIo
      else if negb secure then Err SIo
      else Some <$> parse_document bs
  end.

(** The operations of [save], each with its effect. *)
Definition write_new (bs : bytes) (fs : StateFs) := mkStateFs (sf_path fs) (Some bs) (sf_bak fs).
Definition remove_backup (fs : StateFs) := mkStateFs (sf_path fs) (sf_new fs) None.
Definition back_up (fs : StateFs) := mkStateFs None (sf_new fs) (sf_path fs).
Definition install (fs : StateFs) := mkStateFs (sf_new fs) None (sf_bak fs).
Definition restore (fs : StateFs) := mkStateFs (sf_bak fs) (sf_new fs) None.

(** One operation whose error ends the call, and one whose error is ignored. *)
Definition io_try (o : IoOutcome) (effect failed : StateFs → StateFs) (next : StateFs → CallEnd * StateFs)
    (fs : StateFs) : CallEnd * StateFs :=
  match o with
  | IoOk => next (effect fs)
  | IoErr _ => (Returned (Err SIo), failed fs)
  | IoDies _ => (Died, failed fs)
  end.
Definition io_ignore (o : IoOutcome) (effect : StateFs → StateFs) (next : StateFs → CallEnd * StateFs)
    (fs : StateFs) : CallEnd * StateFs :=
  match o with IoOk => next (effect fs) | IoErr _ => next fs | IoDies _ => (Died, fs) end.

(** What a write that did not complete leaves in the new file. *)
Definition left_behind (o : IoOutcome) (fs : StateFs) : StateFs :=
  match o with IoOk => fs | IoErr partial | IoDies partial => write_new partial fs end.

(** The error path of the last rename of [save]. *)
Definition save_rollback (io : nat → IoOutcome) (fs : StateFs) : CallEnd * StateFs :=
  io_try (io 8%nat) id id (λ fs,
    if bool_decide (is_Some (sf_bak fs))
    then io_ignore (io 9%nat) restore (λ fs, (Returned (Err SIo), fs)) fs
    else (Returned (Err SIo), fs)) fs.

(** [save] of the encoded document: [create_dir_all], creation, write and sync of the new
    file, removal of an old backup, [try_exists] and the rename to the backup, the rename
    of the new file, and the removal of the backup. *)
Definition save_bytes (io : nat → IoOutcome) (bs : bytes) (fs : StateFs) : CallEnd * StateFs :=
  io_try (io 0%nat) id id (λ fs,
  io_try (io 1%nat) (write_new []) id (λ fs,
  io_try (io 2%nat) (write_new bs) (left_behind (io 2%nat)) (λ fs,
  io_try (io 3%nat) id id (λ fs,
  io_ignore (io 4%nat) remove_backup (λ fs,
  io_try (io 5%nat) id id (λ fs,
  io_try (if bool_decide (is_Some (sf_path fs)) then io 6%nat else IoOk)
    (if bool_decide (is_Some (sf_path fs)) then back_up else id) id (λ fs,
  match io 7%nat with
  | IoOk => io_ignore (io 8%nat) remove_backup (λ fs, (Returned (Ok tt), fs)) (install fs)
  | IoErr _ => save_rollback io fs
  | IoDies _ => (Died, fs)
  end) fs) fs) fs) fs) fs) fs) fs.

Definition save_state (io : nat → IoOutcome) (s : PersistedAgentState) (fs : StateFs) : CallEnd * StateFs :=
  save_bytes io (state_to_json (mkStateDocument STATE_FORMAT_VERSION (stored_from s))) fs.

(** [clear]: removing a file that is not there is not an error. *)
Definition clear_path (fs : StateFs) := mkStateFs None (sf_new fs) (sf_bak fs).
Definition clear_new (fs : StateFs) := mkStateFs (sf_path fs) None (sf_bak fs).
Definition clear_state (io : nat → IoOutcome) (fs : StateFs) : CallEnd * StateFs :=
  io_try (if bool_decide (is_Some (sf_path fs)) then io 0%nat else IoOk) clear_path id (λ fs,
  io_try (if bool_decide (is_Some (sf_new fs)) then io 1%nat else IoOk) clear_new id (λ fs,
  io_try (if bool_decide (is_Some (sf_bak fs)) then io 2%nat else IoOk) remove_backup id (λ fs,
  (Returned (Ok tt), fs)) fs) fs) fs.

End Store.

(** ** Reading back what was written *)

Definition wf_keys (k : PinnedServerKeysSnapshot) : Prop :=
  length (ps_current k) = KEY_LEN ∧ (∀ b, ps_pending k = Some b → length b = KEY_LEN) ∧
  (∀ b, ps_previous k = Some b → length b = KEY_LEN) ∧
  (∀ b, ps_rotation_id k = Some b → length b = ROTATION_ID_LEN) ∧
  (is_Some (ps_pending k) ↔ is_Some (ps_rotation_id k)).
Definition wf_identity (i : NoiseIdentity) : Prop :=
  length (private_key i) = KEY_LEN ∧ length (public_key i) = KEY_LEN.

(** The lengths the Rust types carry, and the invariant of [PinnedServerKeys]. *)
Definition wf_state (s : PersistedAgentState) : Prop :=
  match s with
  | IdentityPrepared i => wf_identity i
  | RegistrationPending _ i keys registration_id | Registered _ i keys registration_id =>
      wf_identity i ∧ wf_keys keys ∧ length registration_id = 16%nat
  end.

Lemma identity_of_Ok private public i :
  identity_of private public = Ok i ↔ i = mkIdentity private public ∧ wf_identity i.
Proof.
  unfold identity_of, identity_from_parts, public_key_from_bytes, wf_identity.
  repeat case_bool_decide; cbn; split; try (intros [-> [? ?]]; done); naive_solver.
Qed.

Lemma registration_id_of_Ok value id : registration_id_of value = Ok id ↔ id = value ∧ length value = 16%nat.
Proof. unfold registration_id_of. case_bool_decide; naive_solver. Qed.

Lemma opt_key_length parse len value :
  (parse = public_key_from_bytes ∧ len = KEY_LEN ∨ parse = rotation_id_from_bytes ∧ len = ROTATION_ID_LEN) →
  (∀ o, opt_key parse value = Ok o ↔ o = value ∧ ∀ b, value = Some b → length b = len).
Proof.
  intros Hp o. destruct value as [b|]; cbn; [|naive_solver].
  destruct Hp as [[-> ->]|[-> ->]]; unfold public_key_from_bytes, rotation_id_from_bytes;
    case_bool_decide as E; cbn; split; naive_solver.
Qed.

Lemma opt_public_Ok value o :
  opt_key public_key_from_bytes value = Ok o ↔ o = value ∧ ∀ b, value = Some b → length b = KEY_LEN.
Proof. apply opt_key_length. eauto. Qed.

Lemma opt_rotation_Ok value o :
  opt_key rotation_id_from_bytes value = Ok o ↔ o = value ∧ ∀ b, value = Some b → length b = ROTATION_ID_LEN.
Proof. apply opt_key_length. eauto. Qed.

Lemma stored_keys_roundtrip k : wf_keys k → server_keys_of (stored_server_keys k) = Ok k.
Proof.
  intros (Hc & Hn & Hp & Hr & Hi). unfold server_keys_of, stored_server_keys. cbn -[public_key_from_bytes].
  assert (public_key_from_bytes (ps_current k) = Ok (ps_current k)) as ->
    by (unfold public_key_from_bytes; by rewrite bool_decide_eq_true_2). cbn.
  rewrite (proj2 (opt_public_Ok (ps_pending k) (ps_pending k)) (conj eq_refl Hn)). cbn.
  rewrite (proj2 (opt_public_Ok _ (ps_previous k))) by (destruct (ps_previous k); split; naive_solver). cbn.
  rewrite (proj2 (opt_rotation_Ok (ps_rotation_id k) (ps_rotation_id k)) (conj eq_refl Hr)). cbn.
  unfold pinned_from_snapshot. cbn. rewrite (bool_decide_eq_true_2 _ Hi). by destruct k.
Qed.

Lemma server_keys_of_wf k keys : server_keys_of k = Ok keys → wf_keys keys.
Proof.
  unfold server_keys_of. intros H. apply result_bind_Ok in H as (first & _ & H).
  apply result_bind_Ok in H as (current & Hc & H). case_bool_decide; [done|].
  apply result_bind_Ok in H as (pending & Hn & H). apply opt_public_Ok in Hn as [-> Hn].
  apply result_bind_Ok in H as (previous & Hp & H). apply opt_public_Ok in Hp as [Ep Hp]. rewrite <- Ep in Hp.
  apply result_bind_Ok in H as (rotation & Hr & H). apply opt_rotation_Ok in Hr as [-> Hr].
  apply map_err_Ok in Hc, H. unfold public_key_from_bytes in Hc. unfold pinned_from_snapshot in H.
  repeat case_bool_decide; simplify_eq. by split_and!.
Qed.

Lemma stored_roundtrip s : wf_state s → try_from_stored (stored_from s) = Ok s.
Proof.
  assert (∀ i, wf_identity i → identity_of (private_key i) (public_key i) = Ok i) as Hid.
  { intros [] ?. by apply identity_of_Ok. }
  destruct s as [i|a i k r|a i k r]; intros H; unfold stored_from, try_from_stored; [by rewrite Hid|..];
    destruct H as (Hi & Hk & Hr); rewrite (Hid _ Hi), (stored_keys_roundtrip _ Hk);
    by rewrite (proj2 (registration_id_of_Ok r r)).
Qed.

(** A stored state survives the file format: what [load] builds from the document of
    a state is that state, for every stage and with every combination of Server keys a
    rotation can leave; and whatever document is accepted gives a state whose keys,
    registration id and rotation have the right form. *)
Theorem state_document_roundtrip :
  (∀ s, wf_state s → try_from_stored (stored_from s) = Ok s) ∧
  (∀ d s, try_from_stored d = Ok s → wf_state s).
Proof.
  split; [apply stored_roundtrip|].
  intros [pr pu|a pr pu k r|a pr pu k r] s H; cbn in H; inv_result;
    repeat match goal with
    | H : identity_of _ _ = Ok _ |- _ => apply identity_of_Ok in H as [-> ?]
    | H : server_keys_of _ = Ok _ |- _ => apply server_keys_of_wf in H
    | H : registration_id_of _ = Ok _ |- _ => apply registration_id_of_Ok in H as [-> ?]
    end; by cbn.
Qed.

(** ** Saving is atomic *)

Section Atomic.
Context `{SC : StateCodec} `{SL : !StateCodecLaws SC}.

(** The abstract store: one cell, as a process that starts sees it. *)
Definition cell (fs : StateFs) : result StateError (option PersistedAgentState) := load_state true true fs.

(** The backup is not the only copy. *)
Definition settled (fs : StateFs) : Prop := sf_path fs = None → sf_bak fs = None.

Lemma cell_saved s fs :
  wf_state s → sf_path fs = Some (state_to_json (mkStateDocument STATE_FORMAT_VERSION (stored_from s))) →
  cell fs = Ok (Some s).
Proof.
  intros Hs E. unfold cell, load_state, load_file_bytes. rewrite E. cbn. unfold parse_document.
  rewrite state_json_roundtrip. cbn. by rewrite (stored_roundtrip _ Hs).
Qed.

Lemma cell_bytes fs fs' : load_file_bytes fs' = load_file_bytes fs → cell fs' = cell fs.
Proof. intros E. unfold cell, load_state. by rewrite E. Qed.

(** The files after [save_bytes], by how the call ends. *)
Lemma save_bytes_ends io bs fs e fs' :
  save_bytes io bs fs = (e, fs') →
  match e with
  | Returned (Ok _) => sf_path fs' = Some bs
  | Returned (Err _) => settled fs → load_file_bytes fs' = load_file_bytes fs
  | Died => settled fs → load_file_bytes fs' = load_file_bytes fs ∨ sf_path fs' = Some bs
  end.
Proof.
  unfold save_bytes, save_rollback, settled. destruct fs as [path new bak]. intros H.
  destruct (io 0%nat), (io 1%nat), (io 2%nat); cbn in H; try (by simplify_eq; eauto);
  destruct (io 3%nat), (io 4%nat), (io 5%nat); cbn in H; try (by simplify_eq; cbn; destruct path; naive_solver);
  destruct path; cbn in H; destruct (io 6%nat); cbn in H; try (by simplify_eq; eauto);
  destruct (io 7%nat), (io 8%nat); cbn in H; try (by simplify_eq; cbn; naive_solver);
  try (destruct bak; cbn in H); try (destruct (io 9%nat); cbn in H); by simplify_eq; cbn; naive_solver.
Qed.

End Atomic.

(** C14. The state file is an atomic cell for a save that starts from settled files, in which
    the backup is not the only copy (every save that succeeds leaves such files): whatever
    operation of the save fails, and whichever one the process dies at, the next start reads
    the state of before the save or the one being saved, never a part of a file and never
    nothing; a save that reports success has stored the new state, and one that reports an
    error has left the old one.  From files a crash left with the backup as the only copy it
    does not hold: [second_interruption_loses_state]. *)
Theorem save_is_atomic `{SC : StateCodec} `{SL : !StateCodecLaws SC} io s fs e fs' :
  wf_state s → settled fs → save_state io s fs = (e, fs') →
  match e with
  | Returned (Ok _) => cell fs' = Ok (Some s) ∧ settled fs'
  | Returned (Err _) => cell fs' = cell fs
  | Died => cell fs' = cell fs ∨ cell fs' = Ok (Some s)
  end.
Proof.
  intros Hs Hset Hsave. apply save_bytes_ends in Hsave. destruct e as [[]|].
  - split; [by apply cell_saved|]. unfold settled. by rewrite Hsave.
  - by apply cell_bytes, Hsave.
  - destruct (Hsave Hset) as [E|E]; [left; by apply cell_bytes|right; by apply cell_saved].
Qed.

(** ** The second interruption *)

(** All operations succeed but number [k], which ends as [o]. *)
Definition fails_at (k : nat) (o : IoOutcome) : nat → IoOutcome := λ n, if bool_decide (n = k) then o else IoOk.

(** Defect: a save that follows an interrupted one removes the only copy of the state
    before the new one is in place. After a process died between the two renames of a
    save, the next process still reads the old state from the backup; when the last
    rename of its own save fails, the call reports an error and no state is left: the
    Agent starts over as one that was never registered. *)
Theorem second_interruption_loses_state `{SC : StateCodec} `{SL : !StateCodecLaws SC} old s1 s2 fs :
  wf_state old →
  let fs0 := (save_state (λ _, IoOk) old fs).2 in
  let r1 := save_state (fails_at 7 (IoDies [])) s1 fs0 in
  let r2 := save_state (fails_at 7 (IoErr [])) s2 r1.2 in
  r1.1 = Died ∧ cell r1.2 = Ok (Some old) ∧ r2.1 = Returned (Err SIo) ∧ cell r2.2 = Ok None.
Proof.
  intros Hold. destruct fs as [[path|] new bak]; cbn; (split; [done|]); (split; [|done]);
    (transitivity (cell (mkStateFs (Some (state_to_json (mkStateDocument STATE_FORMAT_VERSION (stored_from old)))) None None));
     [done|by apply cell_saved]).
Qed.

(** ** Evaluation *)

Global Instance StoredServerKeys_eq_dec : EqDecision StoredServerKeys.
Proof. solve_decision. Defined.
Global Instance StoredAgentState_eq_dec : EqDecision StoredAgentState.
Proof. solve_decision. Defined.
Global Instance StateDocument_eq_dec : EqDecision StateDocument.
Proof. solve_decision. Defined.

Global Instance StoredServerKeys_countable : Countable StoredServerKeys.
Proof.
  apply (inj_countable' (λ k, (sk_public_keys k, sk_pending_public_key k, sk_previous_public_key k, sk_rotation_id k))
    (λ '(a, b, c, d), mkStoredKeys a b c d)). by intros [].
Defined.
Global Instance StoredAgentState_countable : Countable StoredAgentState.
Proof.
  apply (inj_countable' (λ s, match s with
    | SIdentityPrepared a b => inl (a, b)
    | SRegistrationPending a b c k r => inr (false, a, b, c, k, r)
    | SRegistered a b c k r => inr (true, a, b, c, k, r)
    end) (λ x, match x with
    | inl (a, b) => SIdentityPrepared a b
    | inr (false, a, b, c, k, r) => SRegistrationPending a b c k r
    | inr (true, a, b, c, k, r) => SRegistered a b c k r
    end)). by intros [].
Defined.
Global Instance StateDocument_countable : Countable StateDocument.
Proof. apply (inj_countable' (λ d, (sd_version d, sd_state d)) (λ '(v, s), mkStateDocument v s)). by intros []. Defined.

Definition number_codec : StateCodec := {|
  state_to_json d := [Z.pos (encode d)];
  state_from_json bs := match bs with [Z.pos p] => decode p | _ => None end;
|}.

Lemma number_codec_laws : StateCodecLaws number_codec.
Proof. intros d. cbn. apply decode_encode. Qed.

Definition demo_state (n : Z) : PersistedAgentState :=
  IdentityPrepared (mkIdentity (replicate 32 n) (replicate 32 (n + 1))).
Definition demo_saved : StateFs := (save_state (SC := number_codec) (λ _, IoOk) (demo_state 1) (mkStateFs None None None)).2.

Lemma save_is_atomic_witness :
  let r := save_state (SC := number_codec) (fails_at 6 (IoDies [])) (demo_state 2) demo_saved in
  r.1 = Died ∧ (cell (SC := number_codec) r.2 = cell (SC := number_codec) demo_saved ∨
                cell (SC := number_codec) r.2 = Ok (Some (demo_state 2))).
Proof.
  intros r. split; [reflexivity|].
  apply (save_is_atomic (SL := number_codec_laws) (fails_at 6 (IoDies [])) (demo_state 2) demo_saved Died r.2).
  - by vm_compute.
  - by vm_compute.
  - reflexivity.
Defined.

Lemma second_interruption_loses_state_witness :
  let fs0 := (save_state (SC := number_codec) (λ _, IoOk) (demo_state 1) demo_saved).2 in
  let r1 := save_state (SC := number_codec) (fails_at 7 (IoDies [])) (demo_state 2) fs0 in
  cell (SC := number_codec) (save_state (SC := number_codec) (fails_at 7 (IoErr [])) (demo_state 3) r1.2).2 = Ok None.
Proof.
  apply (second_interruption_loses_state (SL := number_codec_laws) (demo_state 1) (demo_state 2) (demo_state 3) demo_saved).
  by vm_compute.
Defined.
