(* ===== verification/KeyRotation.v ===== *)
(** * The Server key rotation protocol

    The Server's key ring ([ServerKeyRing]) and the keys an Agent pins
    ([PersistedAgentState]) changed together, in the order the two programs allow:
    prepare, announce, promote, retire on one side, staging and reconnecting on the
    other.  The Agent's reconnection is [connect_registered] itself, run against a
    Server that answers IK handshakes out of its ring. *)

From stdpp Require Import base gmap strings list.
From S2P Require Import Prelude StLogic Rotation Credential AgentState.

Section Protocol.
Context `{B : Blake2s, HB : !Blake2sLaws B}.

(** ** The Server's side of an IK handshake *)

(** The responder looks the key id up ([find_active]); with another static key than
    the one the Agent pinned the handshake does not authenticate. *)
Definition serve (ring : ServerKeyRingSnapshot) (key : NoisePublicKey) : result TransportError unit :=
  match ring_find_active (key_id key) ring with
  | None => Err (TRemoteProtocol "Server key ID is not active")
  | Some i =>
      if bool_decide (public_key i = key) then Ok tt
      else Err (TRemoteProtocol "Noise authentication failed")
  end.

Definition active (ring : ServerKeyRingSnapshot) : list NoisePublicKey :=
  public_key <$> ring_active_keys ring.

Lemma find_decide_Some {A} (P : A → Prop) `{∀ a, Decision (P a)} l a :
  List.find (λ x, bool_decide (P x)) l = Some a → a ∈ l ∧ P a.
Proof. intros H1. apply find_some in H1 as [? ?]. bools. by rewrite list_elem_of_In. Qed.

Lemma serve_Ok ring key : serve ring key = Ok tt ↔ key ∈ active ring.
Proof.
  unfold serve, ring_find_active, active, identity_key_id, key_id. split.
  - case_match eqn:E; [|done]. apply find_decide_Some in E as [Hin _].
    case_bool_decide; [|done]. intros _. subst. by apply list_elem_of_fmap_2.
  - intros (i & -> & Hi)%list_elem_of_fmap. case_match eqn:E.
    + apply find_decide_Some in E as [_ E]. apply blake2s_inj in E.
      by rewrite bool_decide_eq_true_2.
    + apply list_elem_of_In in Hi. eapply find_none in E; [|exact Hi]. bools. done.
Qed.

Lemma serve_Err ring key : key ∉ active ring → ∃ e, serve ring key = Err e.
Proof.
  rewrite <- serve_Ok. destruct (serve ring key) as [[]|e]; [done|]. by exists e.
Qed.

(** A network behind which the Server with this ring answers and accepts the Agent. *)
Definition serving (ring : ServerKeyRingSnapshot) : Net := {|
  net_load := λ _, None;
  net_generate := λ _, Err (Random "unused");
  net_save := λ _, Saved;
  net_connect_ik := λ _ _ key, serve ring key;
  net_verify := λ _, Ok tt;
  net_prepare := λ _ _ _, Err TClosed;
  net_commit := λ _, Err TClosed;
  net_acknowledge := λ _, Ok tt;
|}.

(** ** Steps *)

Record World : Type := mkWorld {
  ring : ServerKeyRingSnapshot;
  agent : PersistedAgentState;
}.

(** A newly generated identity: well formed and not in use anywhere. *)
Definition fresh (i : NoiseIdentity) (w : World) : Prop :=
  length (public_key i) = KEY_LEN ∧ length (identity_key_id i) = KEY_LEN ∧
  (public_key i ∉ active (ring w)) ∧ (public_key i ∉ server_key_candidates (agent w)).

(** The announcements the Server sends over a session: the prepared key, or (late) the
    key it has since promoted. *)
Inductive offered (r : ServerKeyRingSnapshot) : Announcement → Prop :=
| offered_next rid i :
    kr_next r = Some i → kr_rotation_id r = Some rid → offered r (announce rid i)
| offered_current rid : offered r (announce rid (kr_current r)).

Inductive step (w : World) : World → Prop :=
| step_prepare i rid an ring' :
    fresh i w → length rid = ROTATION_ID_LEN →
    ring_prepare_rotation (Ok i) (Ok rid) (ring w) = (Ok an, ring') →
    step w (mkWorld ring' (agent w))
| step_announce an s' :
    offered (ring w) an → stage_server_key an (agent w) = Ok s' →
    step w (mkWorld (ring w) s')
| step_promote rid ring' :
    (* the Agent has stored and acknowledged the announced key *)
    (∃ i, kr_next (ring w) = Some i ∧ public_key i ∈ server_key_candidates (agent w)) →
    ring_promote_next rid (ring w) = (Ok tt, ring') →
    step w (mkWorld ring' (agent w))
| step_retire ring' :
    ring_retire_previous (ring w) = (Ok tt, ring') → step w (mkWorld ring' (agent w))
| step_reconnect tr c a :
    connect_registered (serving (ring w)) (agent w) (mkAgent (Some (agent w)) tr) = Some (Ok c, a) →
    step w (mkWorld (ring w) (ac_state c)).

(** After registration both sides hold the Server's first key. *)
Inductive start : World → Prop :=
| start_intro i name me reg :
    start (mkWorld (ring_new i) (Registered name me (pinned_new (public_key i)) reg)).

Definition rotation_reachable (w : World) : Prop := ∃ w0, start w0 ∧ rtc step w0 w.

(** ** The keys of both sides *)

(** Where the Agent is in the rotation: it follows the current key; or it has staged
    the key the Server has meanwhile promoted; or it already moved to the next key. *)
Inductive agree (r : ServerKeyRingSnapshot) (k : PinnedServerKeysSnapshot) : Prop :=
| agree_current :
    ps_current k = public_key (kr_current r) →
    (ps_pending k = None ∨ ps_pending k = public_key <$> kr_next r) →
    (∀ i, kr_next r = Some i → public_key i ≠ ps_current k ∧ Some (public_key i) ≠ ps_previous k) →
    agree r k
| agree_staged :
    ps_pending k = Some (public_key (kr_current r)) →
    (∀ i, kr_next r = Some i → public_key i ∉ pinned_connection_candidates k) →
    agree r k
| agree_ahead :
    ps_previous k = Some (public_key (kr_current r)) →
    public_key <$> kr_next r = Some (ps_current k) → ps_pending k = None →
    agree r k.

Record invariant (w : World) : Prop := mkInvariant {
  inv_keys : ∃ name me k reg, agent w = Registered name me k reg ∧ agree (ring w) k ∧
    (is_Some (ps_pending k) ↔ is_Some (ps_rotation_id k));
}.

Lemma agree_trusted r k : agree r k → public_key (kr_current r) ∈ pinned_connection_candidates k.
Proof.
  unfold pinned_connection_candidates. intros [E _ _|E _|E _ _]; rewrite E; cbn; set_solver.
Qed.

(** ** Reconnecting *)

(** The pinned keys after a connection with [key]. *)
Definition after_connect (key : NoisePublicKey) (k : PinnedServerKeysSnapshot) :
    PinnedServerKeysSnapshot :=
  if bool_decide (ps_pending k = Some key) then mkPinned key None (Some (ps_current k)) None else k.

Definition first_active (r : ServerKeyRingSnapshot) (keys : list NoisePublicKey) : option NoisePublicKey :=
  List.find (λ key, bool_decide (key ∈ active r)) keys.

Lemma try_candidates_serving r i keys last a :
  ∃ res tr, try_candidates (serving r) i keys last a = Some (res, mkAgent (store a) tr) ∧
    match first_active r keys with Some key => res = Ok key | None => is_ok res = false end.
Proof.
  unfold first_active. revert last a. induction keys as [|key keys IH]; intros last [st tr]; cbn.
  - eexists _, _. split; [done|]. done.
  - case_bool_decide as Hk.
    + apply serve_Ok in Hk. eexists (Ok key), _. split; [|done].
      apply st_bind_Some. eexists _, _. split; [reflexivity|]. cbn. rewrite Hk. reflexivity.
    + apply serve_Err in Hk as [e He].
      destruct (IH (Some e) (mkAgent st (tr ++ [EConnect key]))) as (res & tr' & H1 & H2).
      exists res, tr'. split; [|done].
      apply st_bind_Some. eexists _, _. split; [reflexivity|]. cbn. rewrite He. exact H1.
Qed.

Lemma promote_registered name me k reg rid key :
  (is_Some (ps_pending k) ↔ is_Some (ps_rotation_id k)) →
  ps_pending k = Some key → ps_rotation_id k = Some rid →
  promote_server_key rid (Registered name me k reg) = Ok (Registered name me (after_connect key k) reg).
Proof.
  intros Hwf Hp Hr. unfold promote_server_key, change_server_keys, with_server_keys, pinned_from_snapshot.
  rewrite bool_decide_eq_true_2 by done. cbn. unfold pinned_promote_pending, after_connect.
  rewrite Hr, Hp. rewrite bool_decide_eq_false_2 by naive_solver.
  by rewrite (bool_decide_eq_true_2 (Some key = Some key)).
Qed.

Lemma connect_serving r name me k reg tr :
  (is_Some (ps_pending k) ↔ is_Some (ps_rotation_id k)) →
  let s := Registered name me k reg in
  match first_active r (pinned_connection_candidates k) with
  | Some key => ∃ a, connect_registered (serving r) s (mkAgent (Some s) tr) =
      Some (Ok (mkActive (Registered name me (after_connect key k) reg) ReconnectIk), a)
  | None => ∃ e a, connect_registered (serving r) s (mkAgent (Some s) tr) = Some (Err e, a)
  end.
Proof.
  intros Hwf s. unfold connect_registered, connect_with_candidates, st_try.
  destruct (try_candidates_serving r me (pinned_connection_candidates k) None (mkAgent (Some s) tr))
    as (res & tr' & H1 & H2).
  change (identity s) with me. change (server_key_candidates s) with (pinned_connection_candidates k).
  cbn [store] in H1. unfold mbind, st_bind. rewrite H1. cbn -[promote_server_key].
  destruct (first_active _ _) as [key|]; [subst res|destruct res; [done|by eexists _, _]].
  cbn -[promote_server_key].
  unfold after_connect. case_bool_decide as Hp; [|by eexists].
  destruct (ps_rotation_id k) as [rid|] eqn:Hr.
  - pose proof (promote_registered name me k reg rid key) as Hpromote. fold s in Hpromote.
    rewrite Hpromote by (rewrite ?Hr; done). cbn. unfold after_connect.
    rewrite bool_decide_eq_true_2 by done. by eexists.
  - exfalso. rewrite Hp in Hwf. destruct Hwf as [Hwf _]. destruct Hwf as [? ?]; done.
Qed.

(** ** The invariant is kept *)

Lemma agree_start i : agree (ring_new i) (pinned_new (public_key i)).
Proof. by apply agree_current; cbn; auto. Qed.

Lemma agree_prepare r r' i rid an k :
  public_key i ∉ pinned_connection_candidates k → agree r k →
  ring_prepare_rotation (Ok i) (Ok rid) r = (Ok an, r') → agree r' k.
Proof.
  intros Hf Ha. unfold ring_prepare_rotation.
  destruct (_ || _) eqn:E; [done|]. bools. intros [= <- <-].
  assert (kr_next r = None) as Hn by (by apply eq_None_not_Some).
  unfold pinned_connection_candidates in Hf.
  destruct Ha as [H1 H2 H3|H1 H2|H1 H2 H3]; [| |by rewrite Hn in H2].
  - apply agree_current; cbn; [done| |].
    + left. rewrite Hn in H2. by destruct H2.
    + intros j [= <-]. split; [set_solver|]. intros Hp. rewrite <- Hp in Hf. cbn in Hf. set_solver.
  - apply agree_staged; cbn; [done|]. intros j [= <-]. done.
Qed.

Lemma agree_promote r r' rid k :
  (∃ i, kr_next r = Some i ∧ public_key i ∈ pinned_connection_candidates k) → agree r k →
  ring_promote_next rid r = (Ok tt, r') → agree r' k.
Proof.
  intros (i & Hn & Hi) Ha. unfold ring_promote_next.
  case_bool_decide; [done|]. rewrite Hn. intros [= <-].
  destruct Ha as [H1 H2 H3|H1 H2|H1 H2 H3].
  - destruct (H3 i Hn) as [Hne Hne']. apply agree_staged; cbn; [|done].
    rewrite Hn in H2. destruct H2 as [H2|H2]; [|done]. exfalso.
    unfold pinned_connection_candidates in Hi. rewrite H2 in Hi. cbn in Hi.
    destruct (ps_previous k); cbn in Hi; set_solver.
  - exfalso. by eapply H2.
  - rewrite Hn in H2. cbn in H2. apply agree_current; cbn; [congruence|auto|done].
Qed.

Lemma agree_retire r r' k :
  agree r k → ring_retire_previous r = (Ok tt, r') → agree r' k.
Proof.
  unfold ring_retire_previous. destruct (kr_previous r); [|done]. intros Ha [= <-].
  destruct Ha as [H1 H2 H3|H1 H2|H1 H2 H3];
    [by apply agree_current|by apply agree_staged|by apply agree_ahead].
Qed.

Lemma agree_connect r k key :
  agree r k → first_active r (pinned_connection_candidates k) = Some key →
  agree r (after_connect key k).
Proof.
  intros Ha Hk. apply find_decide_Some in Hk as [Hin Hact].
  unfold after_connect. case_bool_decide as Hp; [|done].
  destruct Ha as [H1 H2 H3|H1 H2|H1 H2 H3]; [| |congruence].
  - destruct H2 as [H2|H2]; [congruence|]. apply agree_ahead; cbn; congruence.
  - rewrite H1 in Hp. injection Hp as <-. unfold pinned_connection_candidates in H2.
    apply agree_current; cbn; [done|auto|].
    intros i Hi. specialize (H2 i Hi). rewrite H1 in H2. cbn in H2. split; [set_solver|].
    intros [= E]. set_solver.
Qed.

(** What staging an offered announcement does to the pinned keys. *)
Lemma agree_stage r k k' an :
  offered r an → agree r k → pinned_stage an k = (Ok tt, k') →
  agree r k' ∧ (k' = k ∨ is_Some (ps_pending k') ∧ is_Some (ps_rotation_id k')).
Proof.
  intros Ho Ha. unfold pinned_stage.
  destruct (open_announcement an) as [[rid key]|] eqn:E; [|done].
  apply open_announcement_Ok in E as (-> & -> & _).
  destruct (ps_pending k) as [p|] eqn:Hp; [destruct (_ && _); naive_solver|].
  destruct (_ || _) eqn:Ek; intros [= <-]; [auto|]. bools. split; [|cbn; eauto].
  destruct Ha as [H1 H2 H3|H1 H2|H1 H2 H3]; [|congruence|].
  - destruct Ho as [rid i Hn Hr|rid]; cbn in *; [|congruence].
    apply agree_current; cbn; [done|rewrite Hn; auto|done].
  - destruct Ho as [rid i Hn Hr|rid]; cbn in *; [|congruence].
    rewrite Hn in H2. cbn in H2. congruence.
Qed.

Lemma invariant_start w : start w → invariant w.
Proof.
  intros []. split. eexists _, _, _, _. split; [done|]. split; [apply agree_start|].
  by split; intros [? ?].
Qed.

Lemma invariant_step w w' : invariant w → step w w' → invariant w'.
Proof.
  intros [(name & me & k & reg & Hs & Ha & Hwf)] Hstep. split.
  destruct Hstep as [i rid an ring' (_ & _ & _ & Hf) _ Hr|an s' Ho Hst|rid ring' Hex Hr|ring' Hr
    |tr c a Hc]; cbn; rewrite Hs in *; cbn in *.
  - exists name, me, k, reg. split_and!; [done| |apply Hwf..]. by eapply agree_prepare.
  - unfold stage_server_key in Hst. cbn in Hst. inv_result.
    match goal with H : with_server_keys _ _ = Ok _ |- _ => apply with_server_keys_Ok in H; rename H into Hk end.
    destruct (agree_stage _ _ _ _ Ho Ha Hk) as [Ha' Hwf'].
    eexists _, _, _, _. split; [done|]. split; [done|]. destruct Hwf' as [->|[??]]; tauto.
  - exists name, me, k, reg. split_and!; [done| |apply Hwf..]. by eapply agree_promote.
  - exists name, me, k, reg. split_and!; [done| |apply Hwf..]. by eapply agree_retire.
  - pose proof (connect_serving (ring w) name me k reg tr Hwf) as Hcs. cbn in Hcs.
    destruct (first_active _ _) as [key|] eqn:Hk; [|naive_solver].
    destruct Hcs as [a' Hcs]. rewrite Hc in Hcs. injection Hcs as -> ->.
    exists name, me, (after_connect key k), reg. split; [done|]. split; [by apply agree_connect|].
    unfold after_connect. case_bool_decide; cbn; [|done]. by split; intros [? ?].
Qed.

Lemma invariant_reachable w : rotation_reachable w → invariant w.
Proof.
  intros (w0 & H0%invariant_start & Hsteps). induction Hsteps; [done|].
  eauto using invariant_step.
Qed.

Lemma first_active_Some r keys key : key ∈ keys → key ∈ active r → ∃ key', first_active r keys = Some key'.
Proof.
  intros Hin Ha. unfold first_active. destruct (List.find _ keys) as [k|] eqn:E; [eauto|].
  apply list_elem_of_In in Hin. eapply find_none in E; [|exact Hin]. bools. done.
Qed.

(** C4. In every state the rotation protocol can reach (any number of rotations, any
    interleaving of prepare, announcements, promotion after the Agent stored the key,
    retirement and reconnections), the Agent trusts the current key of the Server, and
    a reconnection succeeds and leaves it with the current or the next key of the
    Server as its own current key. *)
Theorem no_lockout w :
  rotation_reachable w →
  public_key (kr_current (ring w)) ∈ server_key_candidates (agent w) ∧
  ∃ c a, connect_registered (serving (ring w)) (agent w) (mkAgent (Some (agent w)) []) = Some (Ok c, a) ∧
    ∃ k, server_key_snapshot (ac_state c) = Some k ∧
      (ps_current k = public_key (kr_current (ring w)) ∨
       Some (ps_current k) = public_key <$> kr_next (ring w)).
Proof.
  intros [(name & me & k & reg & Hs & Ha & Hwf)]%invariant_reachable. rewrite Hs. cbn.
  pose proof (agree_trusted _ _ Ha) as Htrust. split; [done|].
  destruct (first_active_Some (ring w) _ _ Htrust) as [key Hk]; [unfold active; cbn; set_solver|].
  pose proof (connect_serving (ring w) name me k reg [] Hwf) as Hcs. cbn in Hcs. rewrite Hk in Hcs.
  destruct Hcs as [a Hcs]. eexists _, a. split; [exact Hcs|]. eexists. split; [done|].
  pose proof (agree_connect _ _ _ Ha Hk) as Ha'.
  destruct Ha' as [H1 _ _|H1 _|H1 H2 H3]; [by left| |by right].
  exfalso. unfold after_connect in H1. case_bool_decide as Hp; [done|].
  unfold first_active, pinned_connection_candidates in Hk. rewrite H1 in Hk, Hp. cbn in Hk.
  rewrite bool_decide_eq_true_2 in Hk by (unfold active; cbn; set_solver). congruence.
Qed.

End Protocol.

(** ** Concrete rotations *)

Definition demo_agent (k : PinnedServerKeysSnapshot) : PersistedAgentState := demo_registered k.

Definition demo_start : World :=
  mkWorld (ring_new (demo_identity 2)) (demo_agent (pinned_new (demo_key 2))).

(** One Server operation, one announcement, one reconnection. *)
Definition on_ring (f : ServerKeyRingSnapshot → ServerKeyRingSnapshot) (w : World) : World :=
  mkWorld (f (ring w)) (agent w).
Definition prepare (r n : Z) : World → World :=
  on_ring (λ k, (ring_prepare_rotation (Ok (demo_identity n)) (Ok (demo_rotation_id r)) k).2).
Definition promote (r : Z) : World → World := on_ring (λ k, (ring_promote_next (demo_rotation_id r) k).2).
Definition retire : World → World := on_ring (λ k, (ring_retire_previous k).2).
Definition cancel : World → World := on_ring (λ k, (ring_cancel_rotation k).2).
Definition announce_to (r n : Z) (w : World) : World :=
  mkWorld (ring w)
    match stage_server_key (demo_announcement r n) (agent w) with Ok s => s | Err _ => agent w end.
Definition reconnect (w : World) : World :=
  mkWorld (ring w)
    match connect_registered (serving (ring w)) (agent w) (mkAgent (Some (agent w)) []) with
    | Some (Ok c, _) => ac_state c
    | _ => agent w
    end.

(** The Server has promoted the key the Agent staged and not yet used. *)
Definition demo_promoted : World :=
  promote 7 (announce_to 7 3 (prepare 7 3 demo_start)).

Lemma demo_promoted_reachable : rotation_reachable demo_promoted.
Proof.
  exists demo_start. split; [by apply (start_intro (demo_identity 2))|].
  eapply rtc_l; [eapply (step_prepare _ (demo_identity 3) (demo_rotation_id 7)); [|done|by vm_compute]|].
  { split_and!; [done|done|..]; apply (bool_decide_eq_true_1 _); vm_compute; reflexivity. }
  eapply rtc_l.
  { eapply (step_announce _ (demo_announcement 7 3)); [|by vm_compute].
    by apply (offered_next _ (demo_rotation_id 7) (demo_identity 3)). }
  eapply rtc_l; [|apply rtc_refl].
  eapply (step_promote _ (demo_rotation_id 7)).
  - exists (demo_identity 3). split; [done|]. apply (bool_decide_eq_true_1 _). vm_compute. reflexivity.
  - by vm_compute.
Qed.

Lemma no_lockout_witness :
  public_key (kr_current (ring demo_promoted)) ∈ server_key_candidates (agent demo_promoted) ∧
  ∃ c a, connect_registered (serving (ring demo_promoted)) (agent demo_promoted)
      (mkAgent (Some (agent demo_promoted)) []) = Some (Ok c, a) ∧
    ∃ k, server_key_snapshot (ac_state c) = Some k ∧
      (ps_current k = public_key (kr_current (ring demo_promoted)) ∨
       Some (ps_current k) = public_key <$> kr_next (ring demo_promoted)).
Proof. apply (no_lockout (HB := demo_hash_laws) demo_promoted), demo_promoted_reachable. Defined.

(** Defect: an Agent that stays connected through one rotation has the promoted key
    still pending, because only a reconnection takes it over; the announcement of the
    next rotation over the same session is refused with [RotationAlreadyInProgress],
    which the supervisor reports as fatal, although both Server keys are its own. *)
Theorem second_rotation_refused :
  let w := prepare 8 4 (retire demo_promoted) in
  rotation_reachable (retire demo_promoted) ∧
  kr_next (ring w) = Some (demo_identity 4) ∧
  process_announcement (demo_net []) (demo_announcement 8 4) (agent w) (mkAgent (Some (agent w)) []) =
    Some (Err (CNoise RotationAlreadyInProgress), mkAgent (Some (agent w)) []) ∧
  is_retryable (CNoise RotationAlreadyInProgress) = false.
Proof.
  intros w. split_and!; [|by vm_compute..].
  destruct demo_promoted_reachable as (w0 & H0 & Hs). exists w0. split; [done|].
  eapply rtc_r; [exact Hs|]. by apply step_retire; vm_compute.
Qed.

(** Defect: two rotations that the Server cancels after the Agent has connected with
    the announced key leave the Agent with two keys the Server discarded; the key the
    Server never stopped using is no longer trusted and every connection fails. *)
Theorem cancelled_rotations_lock_out :
  let once := cancel (reconnect (announce_to 7 3 (prepare 7 3 demo_start))) in
  let w := cancel (reconnect (announce_to 8 4 (prepare 8 4 (reconnect once)))) in
  kr_current (ring w) = kr_current (ring demo_start) ∧
  server_key_candidates (agent w) = [demo_key 4; demo_key 3] ∧
  ∃ e a, connect_registered (serving (ring w)) (agent w) (mkAgent (Some (agent w)) []) = Some (Err e, a)
    ∧ is_retryable e = false.
Proof.
  intros once w. split_and!; [by vm_compute..|]. eexists _, _. split; [vm_compute; reflexivity|done].
Qed.
