(* ===== verification/Keyring.v ===== *)
(** * The persisted Server key ring and its managers

    [crates/smalux-server/src/database/keyring.rs] (the single row that holds the key
    ring, compare-and-swap on its revision) and
    [crates/smalux-server/src/service/agent/keyring_manager.rs] (the copy each Server
    process works with).  The database is the row; each operation runs its SQL
    statements one after the other, with an [IO] saying how the database, the clock
    and the other processes behave meanwhile. *)

From stdpp Require Import base gmap strings list.
From S2P Require Import Prelude Rotation Credential AgentState.

(** ** Errors *)

(** [Display] of [NoiseError]. *)
Definition noise_error_text (e : NoiseError) : string :=
  match e with
  | InvalidKeyLength => "Noise key must contain 32 bytes"
  | InvalidPskLength => "Noise PSK must contain 32 bytes"
  | InvalidHandshakeType => "unexpected Noise handshake type"
  | InvalidFrame => "unexpected protocol frame"
  | AuthenticationFailed => "Noise authentication failed"
  | MissingRemoteKey => "Noise handshake did not authenticate a remote static key"
  | UnknownKeyId => "Noise responder key ID is not active"
  | RotationAlreadyInProgress => "a key rotation is already in progress"
  | NoPendingRotation => "no key rotation is pending"
  | RotationIdMismatch => "key rotation ID does not match"
  | Crypto _ => "Noise cryptographic operation failed"
  | Encode _ => "encrypted protobuf message is invalid"
  | MessageTooLarge => "encrypted protobuf message is too large"
  | Random _ => "secure random generation failed"
  end.

(** The cases of [DatabaseError] the key ring can meet. *)
Inductive DatabaseError : Type :=
| SeaOrm (message : string)
| InvalidServerKeyring (message : string)
| MissingServerKeyring
| ServerKeyringRevisionConflict (expected : Z) (actual : option Z)
| ServerKeyringRevisionOverflow
| DbNoise (error : NoiseError).

(** [ServerKeyRingManagerError]; lock poisoning needs a panic inside the lock, and the
    code run there has none. *)
Inductive ServerKeyRingManagerError : Type :=
| MDatabase (error : DatabaseError)
| MNoise (error : NoiseError).

(** ** The row *)

(** [server_keyring::Model] without its constant key. *)
Record Row : Type := mkRow {
  row_current_private_key : bytes;
  row_current_public_key : bytes;
  row_next_private_key : option bytes;
  row_next_public_key : option bytes;
  row_previous_private_key : option bytes;
  row_previous_public_key : option bytes;
  row_rotation_id : option bytes;
  row_revision : Z;
  row_created_at : Z;
  row_updated_at : Z;
}.

Abbreviation DB := (option Row) (only parsing).

(** [ServerKeyRingRecord]. *)
Record ServerKeyRingRecord : Type := mkRecord {
  rec_snapshot : ServerKeyRingSnapshot;
  rec_revision : Z;
}.

(** What happens around the statements of one operation: the clock, an error of the
    writing statement (which may still have been applied), an error of the reading
    statement, and what other processes do between the two. *)
Record IO : Type := mkIO {
  io_clock : result DatabaseError Z;
  io_write : option (string * bool);
  io_others : DB → DB;
  io_read : option string;
}.

(** [restore_required_identity], [restore_optional_identity], [export_optional_identity]. *)
Definition restore_required_identity (name : string) (private_key public_key : bytes) :
    result DatabaseError NoiseIdentity :=
  map_err (λ e, InvalidServerKeyring (name +:+ " identity is invalid: " +:+ noise_error_text e)%string)
    (identity_from_parts private_key public_key).

Definition restore_optional_identity (name : string) (private_key public_key : option bytes) :
    result DatabaseError (option NoiseIdentity) :=
  match private_key, public_key with
  | None, None => Ok None
  | Some private_key, Some public_key =>
      map_err (λ e, InvalidServerKeyring (name +:+ " identity is invalid: " +:+ noise_error_text e)%string)
        (Some <$> identity_from_parts private_key public_key)
  | _, _ =>
      Err (InvalidServerKeyring
        (name +:+ " private/public key must be both present or both absent")%string)
  end.

Definition export_optional_identity (i : option NoiseIdentity) : option bytes * option bytes :=
  (private_key <$> i, public_key <$> i).

(** [Option::map(..).transpose()]. *)
Definition transpose {E A B} (f : A → result E B) (o : option A) : result E (option B) :=
  match o with None => Ok None | Some a => Some <$> f a end.

(** The decoding part of [load_server_keyring_record]. *)
Definition decode_row (row : Row) : result DatabaseError ServerKeyRingRecord :=
  if bool_decide (row_revision row < 0)
  then Err (InvalidServerKeyring "revision must not be negative")
  else
    current ← restore_required_identity "current" (row_current_private_key row) (row_current_public_key row);
    next ← restore_optional_identity "next" (row_next_private_key row) (row_next_public_key row);
    previous ←
      restore_optional_identity "previous" (row_previous_private_key row) (row_previous_public_key row);
    rotation_id ← map_err DbNoise (transpose rotation_id_from_bytes (row_rotation_id row));
    snapshot ← map_err DbNoise (ring_from_snapshot (mkKeyRing current next previous rotation_id));
    Ok (mkRecord snapshot (row_revision row)).

(** [load_server_keyring_record]. *)
Definition load_server_keyring_record (io : IO) (db : DB) :
    result DatabaseError (option ServerKeyRingRecord) :=
  match io_read io with
  | Some message => Err (SeaOrm message)
  | None => transpose decode_row db
  end.

(** The columns written for a snapshot. *)
Definition encode_row (s : ServerKeyRingSnapshot) (revision created_at updated_at : Z) : Row :=
  let '(next_private_key, next_public_key) := export_optional_identity (kr_next s) in
  let '(previous_private_key, previous_public_key) := export_optional_identity (kr_previous s) in
  mkRow (private_key (kr_current s)) (public_key (kr_current s)) next_private_key next_public_key
    previous_private_key previous_public_key (kr_rotation_id s) revision created_at updated_at.

(** A statement that changes the database and then may report an error. *)
Definition execute (io : IO) (db db' : DB) : result DatabaseError unit * DB :=
  match io_write io with
  | None => (Ok tt, db')
  | Some (message, true) => (Err (SeaOrm message), db')
  | Some (message, false) => (Err (SeaOrm message), db)
  end.

(** The final [load_server_keyring_record().await?.ok_or(MissingServerKeyring)]. *)
Definition reload (io : IO) (db : DB) : result DatabaseError ServerKeyRingRecord :=
  r ← load_server_keyring_record io db; ok_or MissingServerKeyring r.

(** [insert_server_keyring_if_absent]: [INSERT ... ON CONFLICT DO NOTHING], then read. *)
Definition insert_server_keyring_if_absent (io : IO) (s : ServerKeyRingSnapshot) (db : DB) :
    result DatabaseError ServerKeyRingRecord * DB :=
  match map_err DbNoise (ring_from_snapshot s), io_clock io with
  | Err e, _ => (Err e, db)
  | Ok _, Err e => (Err e, db)
  | Ok _, Ok now =>
      let inserted := match db with Some row => Some row | None => Some (encode_row s 0 now now) end in
      match execute io db inserted with
      | (Err e, db') => (Err e, db')
      | (Ok _, db') => let db' := io_others io db' in (reload io db', db')
      end
  end.

(** [save_server_keyring_if_revision]: [UPDATE ... WHERE revision = expected], then read. *)
Definition save_server_keyring_if_revision (io : IO) (expected_revision : Z)
    (s : ServerKeyRingSnapshot) (db : DB) : result DatabaseError ServerKeyRingRecord * DB :=
  match
    _ ← map_err DbNoise (ring_from_snapshot s);
    next_revision ← ok_or ServerKeyringRevisionOverflow (checked_i64 (expected_revision + 1));
    now ← io_clock io;
    Ok (next_revision, now)
  with
  | Err e => (Err e, db)
  | Ok (next_revision, now) =>
      let '(rows_affected, updated) :=
        match db with
        | Some row =>
            if bool_decide (row_revision row = expected_revision)
            then (1, Some (encode_row s next_revision (row_created_at row) now)) else (0, db)
        | None => (0, db)
        end in
      match execute io db updated with
      | (Err e, db') => (Err e, db')
      | (Ok _, db') =>
          let db' := io_others io db' in
          if bool_decide (rows_affected ≠ 1) then
            match load_server_keyring_record io db' with
            | Err e => (Err e, db')
            | Ok actual =>
                (Err (ServerKeyringRevisionConflict expected_revision (rec_revision <$> actual)), db')
            end
          else (reload io db', db')
      end
  end.

(** ** [ServerKeyRingManager] *)

(** [RuntimeKeyRingState]. *)
Record RuntimeKeyRingState : Type := mkRuntime {
  rt_keyring : ServerKeyRingSnapshot;
  rt_revision : Z;
}.

(** [load_or_create]; [identity] is what the generator returned, [io1] and [io2] go with
    the first look and the insertion. *)
Definition load_or_create (io1 io2 : IO) (identity : result NoiseError NoiseIdentity) (db : DB) :
    result ServerKeyRingManagerError RuntimeKeyRingState * DB :=
  let found :=
    match load_server_keyring_record io1 db with
    | Err e => (Err (MDatabase e), db)
    | Ok (Some record) => (Ok record, db)
    | Ok None =>
        match identity with
        | Err e => (Err (MNoise e), db)
        | Ok i =>
            let '(r, db') := insert_server_keyring_if_absent io2 (ring_new i) (io_others io1 db) in
            (map_err MDatabase r, db')
        end
    end in
  (record ← found.1;
   keyring ← map_err MNoise (ring_from_snapshot (rec_snapshot record));
   Ok (mkRuntime keyring (rec_revision record)),
   found.2).

(** [sync_once]. *)
Definition sync_once (io : IO) (m : RuntimeKeyRingState) (db : DB) :
    result ServerKeyRingManagerError bool * RuntimeKeyRingState :=
  match load_server_keyring_record io db with
  | Err e => (Err (MDatabase e), m)
  | Ok None => (Err (MDatabase MissingServerKeyring), m)
  | Ok (Some record) =>
      if bool_decide (rec_revision record ≤ rt_revision m) then (Ok false, m)
      else
        match ring_from_snapshot (rec_snapshot record) with
        | Err e => (Err (MNoise e), m)
        | Ok keyring => (Ok true, mkRuntime keyring (rec_revision record))
        end
  end.

(** [mutate]: the operation on a candidate, the compare-and-swap, then the install of the
    candidate with the revision read back. *)
Definition mutate {T} (io : IO)
    (operation : ServerKeyRingSnapshot → result NoiseError T * ServerKeyRingSnapshot)
    (m : RuntimeKeyRingState) (db : DB) :
    result ServerKeyRingManagerError T * RuntimeKeyRingState * DB :=
  match ring_from_snapshot (rt_keyring m) with
  | Err e => (Err (MNoise e), m, db)
  | Ok candidate =>
      match operation candidate with
      | (Err e, _) => (Err (MNoise e), m, db)
      | (Ok value, candidate) =>
          match save_server_keyring_if_revision io (rt_revision m) candidate db with
          | (Err e, db') => (Err (MDatabase e), m, db')
          | (Ok record, db') => (Ok value, mkRuntime candidate (rec_revision record), db')
          end
      end
  end.

(** [prepare_rotation], [promote_next], [cancel_rotation] and [retire_previous]. *)
Inductive RingOp : Type :=
| OpPrepare (identity : result NoiseError NoiseIdentity) (rotation_id : result NoiseError RotationId)
| OpPromote (rotation_id : RotationId)
| OpCancel
| OpRetire.

Section Managers.
Context `{B : Blake2s}.

Definition run_op (op : RingOp) (s : ServerKeyRingSnapshot) : result NoiseError unit * ServerKeyRingSnapshot :=
  match op with
  | OpPrepare i r => let '(res, s') := ring_prepare_rotation i r s in ((λ _, tt) <$> res, s')
  | OpPromote r => ring_promote_next r s
  | OpCancel => ring_cancel_rotation s
  | OpRetire => ring_retire_previous s
  end.

(** ** Encoding *)

Definition identity_wf (i : NoiseIdentity) : Prop :=
  length (private_key i) = KEY_LEN ∧ length (public_key i) = KEY_LEN.

Global Instance identity_wf_dec i : Decision (identity_wf i).
Proof. unfold identity_wf. apply _. Defined.

(** The lengths the Rust types carry, and the pairing [from_snapshot] checks. *)
Record ring_wf (s : ServerKeyRingSnapshot) : Prop := mkRingWf {
  wf_current : identity_wf (kr_current s);
  wf_next : ∀ i, kr_next s = Some i → identity_wf i;
  wf_previous : ∀ i, kr_previous s = Some i → identity_wf i;
  wf_rotation_id : ∀ r, kr_rotation_id s = Some r → length r = ROTATION_ID_LEN;
  wf_pairing : is_Some (kr_next s) ↔ is_Some (kr_rotation_id s);
}.

Lemma identity_from_parts_Ok a b i : identity_from_parts a b = Ok i ↔ i = mkIdentity a b ∧ identity_wf i.
Proof.
  unfold identity_from_parts, public_key_from_bytes, identity_wf.
  repeat (case_bool_decide; cbn); naive_solver.
Qed.

Lemma identity_from_parts_wf i : identity_wf i → identity_from_parts (private_key i) (public_key i) = Ok i.
Proof. intros H. apply identity_from_parts_Ok. by destruct i. Qed.

Lemma restore_exported name i :
  (∀ j, i = Some j → identity_wf j) →
  restore_optional_identity name (private_key <$> i) (public_key <$> i) = Ok i.
Proof.
  intros H. destruct i as [j|]; [|done]. cbn. by rewrite identity_from_parts_wf by auto.
Qed.

Lemma ring_from_snapshot_Ok s s' :
  ring_from_snapshot s = Ok s' ↔ s' = s ∧ (is_Some (kr_next s) ↔ is_Some (kr_rotation_id s)).
Proof. unfold ring_from_snapshot. case_bool_decide; naive_solver. Qed.

Lemma restore_optional_Ok name a b o :
  restore_optional_identity name a b = Ok o → ∀ i, o = Some i → identity_wf i.
Proof.
  destruct a, b; cbn; intros H; inv_result; try done.
  intros i ->. unfold fmap, result_fmap in *. repeat case_match; simplify_eq.
  by eapply identity_from_parts_Ok.
Qed.

(** The key ring round-trips through its database row: whatever well-formed ring and
    revision are written, the same ring and revision are read back. *)
Lemma decode_encode s rev created updated :
  ring_wf s → 0 ≤ rev → decode_row (encode_row s rev created updated) = Ok (mkRecord s rev).
Proof.
  intros [H1 H2 H3 H4 H5] Hrev. unfold decode_row, encode_row. cbn [export_optional_identity].
  cbn [row_revision row_current_private_key row_current_public_key row_next_private_key
    row_next_public_key row_previous_private_key row_previous_public_key row_rotation_id].
  rewrite bool_decide_eq_false_2 by lia.
  unfold restore_required_identity. rewrite identity_from_parts_wf by done. cbn.
  rewrite !restore_exported by auto. cbn.
  assert (transpose rotation_id_from_bytes (kr_rotation_id s) = Ok (kr_rotation_id s)) as ->.
  { destruct (kr_rotation_id s) as [r|]; [|done]. cbn. unfold rotation_id_from_bytes.
    by rewrite bool_decide_eq_true_2 by auto. }
  cbn. assert (mkKeyRing (kr_current s) (kr_next s) (kr_previous s) (kr_rotation_id s) = s) as -> by by destruct s.
  assert (ring_from_snapshot s = Ok s) as -> by by apply ring_from_snapshot_Ok. done.
Qed.

(** Only well-formed rings are ever read. *)
Lemma decode_row_Ok row rec :
  decode_row row = Ok rec → ring_wf (rec_snapshot rec) ∧ rec_revision rec = row_revision row ∧ 0 ≤ rec_revision rec.
Proof.
  unfold decode_row. case_bool_decide; [done|]. intros H1.
  apply result_bind_Ok in H1 as (c & Hc & H1). apply result_bind_Ok in H1 as (n & Hn & H1).
  apply result_bind_Ok in H1 as (p & Hp & H1). apply result_bind_Ok in H1 as (r & Hr & H1).
  apply result_bind_Ok in H1 as (s & Hs & H1). inv_result.
  apply ring_from_snapshot_Ok in Hs as [-> Hpair]. cbn in *. split; [|lia].
  unfold restore_required_identity in Hc. inv_result. apply identity_from_parts_Ok in Hc as [_ Hc].
  split; cbn; [done|by eapply restore_optional_Ok|by eapply restore_optional_Ok| |done].
  intros rid ->. destruct (row_rotation_id row) as [x|]; [|done]. cbn in Hr.
  unfold rotation_id_from_bytes in Hr. case_bool_decide; naive_solver.
Qed.

(** An operation with well-formed arguments keeps the ring well formed. *)
Definition op_wf (op : RingOp) : Prop :=
  match op with
  | OpPrepare i r =>
      (∀ j, i = Ok j → identity_wf j) ∧ (∀ x, r = Ok x → length x = ROTATION_ID_LEN)
  | _ => True
  end.

Lemma run_op_wf op s u s' : op_wf op → ring_wf s → run_op op s = (Ok u, s') → ring_wf s'.
Proof.
  intros Hop [H1 H2 H3 H4 H5]. destruct op as [i r|r| |]; cbn.
  - unfold ring_prepare_rotation. destruct (_ || _) eqn:E; [done|]. bools.
    destruct i as [i|]; [|by destruct r]. destruct r as [r|]; [|done]. intros [= _ <-].
    destruct Hop as [Hi Hr]. split; cbn; [done|naive_solver|done|naive_solver|].
    by split; intros _.
  - unfold ring_promote_next. case_bool_decide; [done|]. destruct (kr_next s) as [i|] eqn:E; [|done].
    intros [= _ <-]. split; cbn; [auto|done|naive_solver|done|by split; intros [? ?]].
  - unfold ring_cancel_rotation. destruct (kr_next s); [|done]. intros [= _ <-].
    split; cbn; [done|done|auto|done|by split; intros [? ?]].
  - unfold ring_retire_previous. destruct (kr_previous s); [|done]. intros [= _ <-].
    split; cbn; [done|auto|done|auto|done].
Qed.

(** ** Several Server processes on one database *)

(** The processes, and the operations each may run; an operation of one process runs
    its two statements without another process between them. *)
Record System : Type := mkSystem {
  sys_db : DB;
  sys_managers : list RuntimeKeyRingState;
}.

Definition quiet (io : IO) : Prop := io_others io = id.

Inductive sys_step (y : System) : System → Prop :=
| sys_start io1 io2 identity r db' :
    quiet io1 → quiet io2 → (∀ i, identity = Ok i → identity_wf i) →
    load_or_create io1 io2 identity (sys_db y) = (r, db') →
    sys_step y (mkSystem db' (sys_managers y ++ match r with Ok m => [m] | Err _ => [] end))
| sys_sync j io m r m' :
    sys_managers y !! j = Some m → sync_once io m (sys_db y) = (r, m') →
    sys_step y (mkSystem (sys_db y) (<[j := m']> (sys_managers y)))
| sys_mutate j io op m r m' db' :
    quiet io → op_wf op → sys_managers y !! j = Some m →
    mutate io (run_op op) m (sys_db y) = (r, m', db') →
    sys_step y (mkSystem db' (<[j := m']> (sys_managers y))).

Definition sys_reachable (y : System) : Prop := rtc sys_step (mkSystem None []) y.

(** One ring per revision: [h] is the history of the committed rings. *)
Record coherent (h : Z → ServerKeyRingSnapshot) (y : System) : Prop := mkCoherent {
  coh_db : ∀ row, sys_db y = Some row → decode_row row = Ok (mkRecord (h (row_revision row)) (row_revision row));
  coh_managers : ∀ m, m ∈ sys_managers y → ∃ row, sys_db y = Some row ∧
    rt_keyring m = h (rt_revision m) ∧ ring_wf (rt_keyring m) ∧ 0 ≤ rt_revision m ≤ row_revision row;
}.

Lemma reload_Ok io row rec : load_server_keyring_record io (Some row) = Ok (Some rec) → decode_row row = Ok rec.
Proof.
  unfold load_server_keyring_record. destruct (io_read io); [done|]. cbn.
  unfold fmap, result_fmap. case_match; naive_solver.
Qed.

Lemma load_None io db : load_server_keyring_record io db = Ok None → db = None.
Proof.
  unfold load_server_keyring_record. destruct (io_read io); [done|]. destruct db; [|done]. cbn.
  unfold fmap, result_fmap. case_match; naive_solver.
Qed.

Lemma load_Some io db rec :
  load_server_keyring_record io db = Ok (Some rec) → ∃ row, db = Some row ∧ decode_row row = Ok rec.
Proof.
  destruct db as [row|]; [|by unfold load_server_keyring_record; destruct (io_read io)].
  intros H%reload_Ok. eauto.
Qed.

(** The compare-and-swap: refused without a change, or the new ring under the next revision. *)
Lemma save_outcome io expected s db r db' :
  quiet io → ring_wf s → 0 ≤ expected →
  save_server_keyring_if_revision io expected s db = (r, db') →
  (db' = db ∧ is_ok r = false) ∨
  (∃ row now, db = Some row ∧ row_revision row = expected ∧
     db' = Some (encode_row s (expected + 1) (row_created_at row) now) ∧
     ∀ rec, r = Ok rec → rec = mkRecord s (expected + 1)).
Proof.
  intros Hq Hs Hexp. unfold save_server_keyring_if_revision.
  destruct (mbind _ _) as [[next now]|e] eqn:E; [|intros [= <- <-]; by left].
  inv_result. match goal with H : checked_i64 _ = Some _ |- _ => rename H into Hn end.
  unfold checked_i64 in Hn. case_bool_decide; simplify_eq.
  destruct db as [row|].
  2: { unfold execute. destruct (io_write io) as [[msg []]|]; [intros [= <- <-]; by left..|].
       rewrite Hq. cbn. unfold load_server_keyring_record.
       destruct (io_read io); cbn; intros [= <- <-]; by left. }
  case_bool_decide as Hrev.
  - assert (∀ rec, reload io (Some (encode_row s (expected + 1) (row_created_at row) now)) = Ok rec →
      rec = mkRecord s (expected + 1)) as Hre.
    { intros rec Hr. unfold reload in Hr. inv_result.
      match goal with H : load_server_keyring_record _ _ = _ |- _ => apply reload_Ok in H; rename H into Hd end.
      rewrite decode_encode in Hd by (done || lia). congruence. }
    unfold execute. destruct (io_write io) as [[msg []]|]; [| |rewrite Hq]; cbn; intros [= <- <-];
      [right|by left|right]; exists row, now; split_and!; try done; auto.
  - unfold execute. destruct (io_write io) as [[msg []]|]; [intros [= <- <-]; by left..|].
    rewrite Hq. cbn. destruct (load_server_keyring_record io (Some row)); intros [= <- <-]; by left.
Qed.

Lemma mutate_outcome io op m db r m' db' :
  quiet io → op_wf op → ring_wf (rt_keyring m) → 0 ≤ rt_revision m →
  mutate io (run_op op) m db = (r, m', db') →
  (m' = m ∧ db' = db ∧ is_ok r = false) ∨
  (∃ candidate row now, ring_wf candidate ∧ run_op op (rt_keyring m) = (Ok tt, candidate) ∧
     db = Some row ∧ row_revision row = rt_revision m ∧
     db' = Some (encode_row candidate (rt_revision m + 1) (row_created_at row) now) ∧
     (m' = m ∧ is_ok r = false ∨ m' = mkRuntime candidate (rt_revision m + 1) ∧ r = Ok tt)).
Proof.
  intros Hq Hop Hwf Hrev. unfold mutate.
  destruct (ring_from_snapshot (rt_keyring m)) as [c|e] eqn:Hc; [|intros [= <- <- <-]; by left].
  apply ring_from_snapshot_Ok in Hc as [-> _].
  destruct (run_op op (rt_keyring m)) as [[[]|e] candidate] eqn:Ho; [|intros [= <- <- <-]; by left].
  pose proof (run_op_wf _ _ _ _ Hop Hwf Ho) as Hcand.
  destruct (save_server_keyring_if_revision _ _ _ _) as [r1 db1] eqn:Hsave.
  apply save_outcome in Hsave as [[-> Hr]|(row & now & -> & Hrow & -> & Hok)]; try done.
  - destruct r1; [done|]. intros [= <- <- <-]. by left.
  - destruct r1 as [rec|e]; intros [= <- <- <-]; right; exists candidate, row, now; split_and!; auto.
    right. by rewrite (Hok rec eq_refl).
Qed.

Lemma insert_outcome io s db r db' :
  quiet io → insert_server_keyring_if_absent io s db = (r, db') →
  db' = db ∨ (db = None ∧ ∃ now, db' = Some (encode_row s 0 now now)).
Proof.
  intros Hq. unfold insert_server_keyring_if_absent.
  destruct (map_err _ _); [|intros [= <- <-]; by left].
  destruct (io_clock io) as [now|]; [|intros [= <- <-]; by left].
  unfold execute. rewrite Hq. destruct db as [row|], (io_write io) as [[msg []]|]; cbn;
    intros [= <- <-]; eauto.
Qed.

Lemma insert_Ok io s db rec db' :
  quiet io → insert_server_keyring_if_absent io s db = (Ok rec, db') →
  ∃ row, db' = Some row ∧ decode_row row = Ok rec.
Proof.
  intros Hq. unfold insert_server_keyring_if_absent.
  destruct (map_err _ _); [|done]. destruct (io_clock io) as [now|]; [|done].
  unfold execute. rewrite Hq. destruct (io_write io) as [[msg []]|]; [done..|]. cbn.
  intros [= Hr <-]. unfold reload in Hr. inv_result. by eapply load_Some.
Qed.

Lemma ring_new_wf i : identity_wf i → ring_wf (ring_new i).
Proof. intros Hi. split; cbn; [done..|]. by split; intros [? ?]. Qed.

(** Starting a manager: it holds the row, which is new only if there was none. *)
Lemma load_or_create_outcome io1 io2 identity db r db' :
  quiet io1 → quiet io2 → (∀ i, identity = Ok i → identity_wf i) →
  load_or_create io1 io2 identity db = (r, db') →
  (db' = db ∨ db = None ∧ ∃ i now, db' = Some (encode_row (ring_new i) 0 now now) ∧ identity_wf i) ∧
  (∀ m, r = Ok m → ∃ row, db' = Some row ∧
     decode_row row = Ok (mkRecord (rt_keyring m) (rt_revision m))).
Proof.
  intros Hq1 Hq2 Hid. unfold load_or_create. intros [= <- <-].
  destruct (load_server_keyring_record io1 db) as [[rec|]|e] eqn:Hl;
    cbn -[insert_server_keyring_if_absent].
  - split; [by left|]. intros m Hm. inv_result.
    match goal with H : ring_from_snapshot _ = _ |- _ => apply ring_from_snapshot_Ok in H as [-> _] end.
    apply load_Some in Hl as (row & -> & Hd). exists row. by destruct rec.
  - destruct identity as [i|e]; cbn -[insert_server_keyring_if_absent]; [|by split; [left|]].
    rewrite Hq1. cbn -[insert_server_keyring_if_absent].
    destruct (insert_server_keyring_if_absent _ _ _) as [r1 db1] eqn:Hi. cbn.
    split.
    + apply insert_outcome in Hi as [->|[-> [now ->]]]; [by left| |done].
      right. split; [done|]. exists i, now. auto.
    + intros m Hm. destruct r1 as [rec|]; [|done]. cbn in Hm. inv_result.
      match goal with H : ring_from_snapshot _ = _ |- _ => apply ring_from_snapshot_Ok in H as [-> _] end.
      apply insert_Ok in Hi as (row & -> & Hd); [|done]. exists row. by destruct rec.
  - by split; [left|].
Qed.

Lemma coherent_row h y row rec :
  coherent h y → sys_db y = Some row → decode_row row = Ok rec →
  rec = mkRecord (h (row_revision row)) (row_revision row) ∧ ring_wf (rec_snapshot rec) ∧ 0 ≤ row_revision row.
Proof.
  intros Hc Hdb Hd. pose proof (decode_row_Ok _ _ Hd) as (Hwf & Hr & Hp).
  rewrite (coh_db _ _ Hc _ Hdb) in Hd. injection Hd as <-. done.
Qed.

(** The history after the commit of [s] under revision [n]. *)
Definition extend (h : Z → ServerKeyRingSnapshot) (n : Z) (s : ServerKeyRingSnapshot) :
    Z → ServerKeyRingSnapshot := λ z, if bool_decide (z = n) then s else h z.

Lemma extend_eq h n s : extend h n s n = s.
Proof. unfold extend. by rewrite bool_decide_eq_true_2. Qed.

Lemma extend_ne h n s z : z ≠ n → extend h n s z = h z.
Proof. intros H. unfold extend. by rewrite bool_decide_eq_false_2. Qed.

Lemma coherent_insert h y j m m' :
  coherent h y → sys_managers y !! j = Some m →
  (∃ row, sys_db y = Some row ∧ rt_keyring m' = h (rt_revision m') ∧ ring_wf (rt_keyring m') ∧
     0 ≤ rt_revision m' ≤ row_revision row) →
  coherent h (mkSystem (sys_db y) (<[j := m']> (sys_managers y))).
Proof.
  intros [H1 H2] Hj Hm'. split; cbn; [done|]. intros m0 Hm0.
  apply list_elem_of_lookup in Hm0 as [i Hi]. destruct (decide (i = j)) as [->|Hne].
  - rewrite list_lookup_insert_eq in Hi by (by eapply lookup_lt_Some). by simplify_eq.
  - rewrite list_lookup_insert_ne in Hi by done. eapply H2, list_elem_of_lookup_2, Hi.
Qed.

Lemma coherent_start h y io1 io2 identity r db' :
  coherent h y → quiet io1 → quiet io2 → (∀ i, identity = Ok i → identity_wf i) →
  load_or_create io1 io2 identity (sys_db y) = (r, db') →
  ∃ h', coherent h' (mkSystem db' (sys_managers y ++ match r with Ok m => [m] | Err _ => [] end)).
Proof.
  intros Hc Hq1 Hq2 Hid Hl.
  destruct (load_or_create_outcome _ _ _ _ _ _ Hq1 Hq2 Hid Hl) as [Hdb Hm].
  assert (∃ h', coherent h' (mkSystem db' (sys_managers y))) as [h' Hc'].
  { destruct Hdb as [->|[Hnone (i & now & -> & Hi)]]; [by exists h; destruct y|].
    exists (λ _, ring_new i). split; cbn.
    - intros row [= <-]. by apply (decode_encode (ring_new i) 0 now now); [apply ring_new_wf|].
    - intros m Hin. by destruct (coh_managers _ _ Hc m Hin) as (row & Hrow & _); rewrite Hnone in Hrow. }
  exists h'. split; cbn; [apply Hc'|]. intros m Hin. apply elem_of_app in Hin as [Hin|Hin].
  { by apply Hc'. }
  destruct r as [m'|]; [|by apply not_elem_of_nil in Hin]. apply list_elem_of_singleton in Hin as ->.
  destruct (Hm m' eq_refl) as (row & -> & Hd). exists row. split; [done|].
  destruct (coherent_row _ _ row _ Hc' eq_refl Hd) as (Heq & Hwf & Hp).
  injection Heq as Hk Hr. cbn in Hwf. rewrite Hr, Hk. split_and!; try done. by rewrite <- Hk.
Qed.

Lemma coherent_sync h y j io m r m' :
  coherent h y → sys_managers y !! j = Some m → sync_once io m (sys_db y) = (r, m') →
  coherent h (mkSystem (sys_db y) (<[j := m']> (sys_managers y))).
Proof.
  intros Hc Hj Hs. eapply coherent_insert; [done..|].
  assert (m' = m ∨ ∃ rec, load_server_keyring_record io (sys_db y) = Ok (Some rec) ∧
    m' = mkRuntime (rec_snapshot rec) (rec_revision rec)) as [->|(rec & Hl & ->)].
  { revert Hs. unfold sync_once. destruct (load_server_keyring_record _ _) as [[rec|]|];
      [|intros [= <- <-]; auto..].
    case_bool_decide; [intros [= <- <-]; auto|].
    destruct (ring_from_snapshot _) eqn:E; intros [= <- <-]; [|auto].
    apply ring_from_snapshot_Ok in E as [-> _]. eauto. }
  - eapply coh_managers; [done|]. by eapply list_elem_of_lookup_2.
  - apply load_Some in Hl as (row & Hrow & Hd). exists row. split; [done|].
    destruct (coherent_row _ _ _ _ Hc Hrow Hd) as (-> & Hwf & Hp). cbn in *. split_and!; try done; lia.
Qed.

Lemma coherent_mutate h y j io op m r m' db' :
  coherent h y → quiet io → op_wf op → sys_managers y !! j = Some m →
  mutate io (run_op op) m (sys_db y) = (r, m', db') →
  ∃ h', coherent h' (mkSystem db' (<[j := m']> (sys_managers y))).
Proof.
  intros Hc Hq Hop Hj Hm.
  pose proof (list_elem_of_lookup_2 _ _ _ Hj) as Hin.
  destruct (coh_managers _ _ Hc m Hin) as (row0 & Hrow0 & Hk & Hwf & Hb).
  destruct (mutate_outcome _ _ _ _ _ _ _ Hq Hop Hwf (proj1 Hb) Hm)
    as [(-> & -> & _)|(candidate & row & now & Hcand & _ & Hrow & Hrev & -> & Hm')].
  { exists h. eapply coherent_insert; [done..|]. by eapply coh_managers. }
  rewrite Hrow in Hrow0. injection Hrow0 as <-. exists (extend h (rt_revision m + 1) candidate).
  assert (coherent (extend h (rt_revision m + 1) candidate)
    (mkSystem (Some (encode_row candidate (rt_revision m + 1) (row_created_at row) now)) (sys_managers y)))
    as Hc'.
  { split; cbn [sys_db sys_managers].
    - intros row' [= <-]. rewrite decode_encode by (done || lia). cbn. by rewrite extend_eq.
    - intros m0 Hm0. destruct (coh_managers _ _ Hc m0 Hm0) as (row' & Hrow' & H1 & H2 & H3). simplify_eq.
      eexists. split; [done|]. cbn. rewrite extend_ne by lia. split_and!; try done; lia. }
  eapply (coherent_insert _ _ j m) in Hc'; [exact Hc'|done|].
  destruct Hm' as [[-> _]|[-> _]]; cbn.
  - apply (coh_managers _ _ Hc' m Hin).
  - eexists. split; [done|]. cbn. rewrite extend_eq. split_and!; try done; lia.
Qed.

Lemma coherent_reachable y : sys_reachable y → ∃ h, coherent h y.
Proof.
  intros Hr. unfold sys_reachable in Hr. remember (mkSystem None []) as y0 eqn:E.
  assert (∃ h, coherent h y0) as H0.
  { subst. exists (λ _, ring_new (mkIdentity [] [])). split; cbn; [done|]. intros m Hm. by apply not_elem_of_nil in Hm. }
  clear E. induction Hr as [|y1 y2 y3 Hstep Hrest IH]; [done|]. apply IH. destruct H0 as [h Hc].
  destruct Hstep as [io1 io2 identity r db' Hq1 Hq2 Hid Hl|j io m r m' Hj Hs|j io op m r m' db' Hq Hop Hj Hm].
  - eapply coherent_start; [exact Hc|exact Hq1|exact Hq2|exact Hid|exact Hl].
  - exists h. by eapply coherent_sync.
  - by eapply coherent_mutate.
Qed.

(** C8. Several Server processes work on one database, start, synchronise and rotate in any
    order, with any database errors, one operation at a time: two processes at the same
    revision hold the same key ring, no process is ahead of the database, one that is at
    its revision holds the stored ring, and one synchronisation brings any process there. *)
Theorem managers_coherent y :
  sys_reachable y →
  (∀ m m', m ∈ sys_managers y → m' ∈ sys_managers y →
     rt_revision m = rt_revision m' → rt_keyring m = rt_keyring m') ∧
  (∀ m, m ∈ sys_managers y → ∃ row rec, sys_db y = Some row ∧ decode_row row = Ok rec ∧
     rt_revision m ≤ rec_revision rec ∧
     (rt_revision m = rec_revision rec → rt_keyring m = rec_snapshot rec) ∧
     ∀ io, io_read io = None →
       (sync_once io m (sys_db y)).2 = mkRuntime (rec_snapshot rec) (rec_revision rec)).
Proof.
  intros [h Hc]%coherent_reachable. split.
  - intros m m' H1 H2 Hr. destruct (coh_managers _ _ Hc m H1) as (r1 & _ & -> & _).
    destruct (coh_managers _ _ Hc m' H2) as (r2 & _ & -> & _). by rewrite Hr.
  - intros m Hm. destruct (coh_managers _ _ Hc m Hm) as (row & Hrow & Hk & Hwf & Hb).
    pose proof (coh_db _ _ Hc row Hrow) as Hd.
    exists row. eexists. split; [done|]. split; [done|]. cbn. split; [lia|].
    split; [by intros <-|]. intros io Hio. unfold sync_once, load_server_keyring_record.
    rewrite Hio, Hrow. cbn. rewrite Hd. cbn. case_bool_decide.
    + assert (rt_revision m = row_revision row) as <- by lia. rewrite <- Hk. by destruct m.
    + destruct (decode_row_Ok _ _ Hd) as ([] & _). cbn in *.
      assert (ring_from_snapshot (h (row_revision row)) = Ok (h (row_revision row))) as ->
        by by apply ring_from_snapshot_Ok. done.
Qed.

(** A rotation step of one process: it either leaves database and process as they were
    and reports an error, or stores the changed ring under the next revision; in the
    latter case the process holds exactly the stored ring and revision, or (when the
    answer of the database was lost) an error is reported and it still holds the old
    ones.  A process that is not at the stored revision always gets an error. *)
Theorem mutate_is_compare_and_swap io op m db r m' db' :
  quiet io → op_wf op → ring_wf (rt_keyring m) → 0 ≤ rt_revision m →
  mutate io (run_op op) m db = (r, m', db') →
  (m' = m ∧ db' = db ∧ is_ok r = false) ∨
  (∃ candidate row now, db = Some row ∧ row_revision row = rt_revision m ∧
     run_op op (rt_keyring m) = (Ok tt, candidate) ∧
     db' = Some (encode_row candidate (rt_revision m + 1) (row_created_at row) now) ∧
     (m' = m ∧ is_ok r = false ∨ m' = mkRuntime candidate (rt_revision m + 1) ∧ r = Ok tt)).
Proof.
  intros Hq Hop Hwf Hrev Hm. destruct (mutate_outcome _ _ _ _ _ _ _ Hq Hop Hwf Hrev Hm)
    as [?|(c & row & now & _ & ? & ? & ? & ? & ?)]; [by left|]. right. exists c, row, now. done.
Qed.

End Managers.

(** ** Concrete processes *)

Definition quiet_io : IO := mkIO (Ok 1) None id None.

(** What the others do meanwhile. *)
Definition io_with (others : DB → DB) : IO := mkIO (Ok 1) None others None.

(** The database and the process that has just created it. *)
Definition first_db : DB := (load_or_create quiet_io quiet_io (Ok (demo_identity 2)) None).2.
Definition first_manager : RuntimeKeyRingState := mkRuntime (ring_new (demo_identity 2)) 0.

Definition op_prepare (r n : Z) : RingOp := OpPrepare (Ok (demo_identity n)) (Ok (demo_rotation_id r)).

Lemma op_prepare_wf r n : op_wf (op_prepare r n).
Proof. split; intros ? [= <-]; done. Qed.

(** Two processes; then one of them prepares a rotation. *)
Definition demo_pair : System := mkSystem first_db [first_manager; first_manager].

Definition demo_system : System :=
  let r := mutate quiet_io (run_op (op_prepare 7 3)) first_manager first_db in
  mkSystem r.2 (<[0%nat := r.1.2]> (sys_managers demo_pair)).

Lemma demo_system_reachable : sys_reachable demo_system.
Proof.
  apply (rtc_l _ _ (mkSystem first_db [first_manager])).
  { apply (sys_start (mkSystem None []) quiet_io quiet_io (Ok (demo_identity 2)) (Ok first_manager)); [done|done| |done].
    by intros i [= <-]. }
  apply (rtc_l _ _ demo_pair).
  { by apply (sys_start (mkSystem first_db [first_manager]) quiet_io quiet_io (Err (Random "unused")) (Ok first_manager)). }
  apply rtc_once.
  apply (sys_mutate demo_pair 0 quiet_io (op_prepare 7 3) first_manager (Ok tt)); [done|apply op_prepare_wf|done..].
Qed.

Lemma managers_coherent_witness :
  (∀ m m', m ∈ sys_managers demo_system → m' ∈ sys_managers demo_system →
     rt_revision m = rt_revision m' → rt_keyring m = rt_keyring m') ∧
  (∀ m, m ∈ sys_managers demo_system → ∃ row rec, sys_db demo_system = Some row ∧
     decode_row row = Ok rec ∧ rt_revision m ≤ rec_revision rec ∧
     (rt_revision m = rec_revision rec → rt_keyring m = rec_snapshot rec) ∧
     ∀ io, io_read io = None →
       (sync_once io m (sys_db demo_system)).2 = mkRuntime (rec_snapshot rec) (rec_revision rec)).
Proof. apply (managers_coherent demo_system), demo_system_reachable. Defined.

Lemma mutate_is_compare_and_swap_witness :
  let '(r, m', db') := mutate quiet_io (run_op (op_prepare 7 3)) first_manager first_db in
  (m' = first_manager ∧ db' = first_db ∧ is_ok r = false) ∨
  (∃ candidate row now, first_db = Some row ∧ row_revision row = rt_revision first_manager ∧
     run_op (op_prepare 7 3) (rt_keyring first_manager) = (Ok tt, candidate) ∧
     db' = Some (encode_row candidate (rt_revision first_manager + 1) (row_created_at row) now) ∧
     (m' = first_manager ∧ is_ok r = false
      ∨ m' = mkRuntime candidate (rt_revision first_manager + 1) ∧ r = Ok tt)).
Proof.
  apply (mutate_is_compare_and_swap quiet_io (op_prepare 7 3) first_manager first_db).
  - reflexivity.
  - apply op_prepare_wf.
  - by apply ring_new_wf.
  - cbn. lia.
  - vm_compute. reflexivity.
Defined.

(** Another process that synchronises and promotes the prepared key, all of it between
    the [UPDATE] and the [SELECT] of the first process. *)
Definition sync_and_promote (r : Z) (db : DB) : DB :=
  let m := (sync_once quiet_io first_manager db).2 in
  (mutate quiet_io (run_op (OpPromote (demo_rotation_id r))) m db).2.

(** Defect: [mutate] installs its own candidate with whatever revision the database holds
    when it reads back.  When another process commits in between, the first process
    holds an outdated ring under the newest revision: synchronising does not correct it,
    and its next rotation step passes the compare-and-swap and wipes out the key the
    other process had promoted. *)
Theorem mutate_race :
  let '(r, m, db) := mutate (io_with (sync_and_promote 7)) (run_op (op_prepare 7 3)) first_manager first_db in
  r = Ok tt ∧
  (∃ row rec, db = Some row ∧ decode_row row = Ok rec ∧ rec_revision rec = rt_revision m ∧
     kr_current (rec_snapshot rec) = demo_identity 3 ∧ kr_current (rt_keyring m) = demo_identity 2) ∧
  sync_once quiet_io m db = (Ok false, m) ∧
  let '(r', m', db') := mutate quiet_io (run_op OpCancel) m db in
  r' = Ok tt ∧
  ∃ row rec, db' = Some row ∧ decode_row row = Ok rec ∧ demo_identity 3 ∉ ring_active_keys (rec_snapshot rec).
Proof.
  split; [reflexivity|]. split.
  { eexists _, _. split; [reflexivity|]. split; [vm_compute; reflexivity|]. done. }
  split; [vm_compute; reflexivity|]. split; [reflexivity|].
  eexists _, _. split; [reflexivity|]. split; [vm_compute; reflexivity|].
  apply (bool_decide_eq_true_1 _). vm_compute. reflexivity.
Qed.
