(* ===== verification/Registration.v ===== *)
(** * Registration of Agents on the Server

    [crates/smalux-server/src/database/agent_registration.rs] (tokens, registration
    transactions and the authorization of Agents), the revocations of
    [database/management.rs] and the checks of [service/agent/agent_registry.rs].

    The three tables are finite maps from their primary keys.  A method runs in one
    SQL transaction: it is a function of the tables that returns them unchanged when
    it fails.  The clock reading and the generated UUIDs are arguments.  Status
    columns hold text, as in the database. *)

From stdpp Require Import base gmap strings list.
From S2P Require Import Prelude Rotation Credential.

(** ** Rows *)

Inductive AgentStatus : Type := AgentActive | AgentRevoked.
Inductive TokenStatus : Type := TokenActive | TokenUsed | TokenRevoked.
Inductive RegistrationStatus : Type := RegPrepared | RegCommitted | RegExpired.

Global Instance AgentStatus_eq_dec : EqDecision AgentStatus.
Proof. solve_decision. Defined.
Global Instance TokenStatus_eq_dec : EqDecision TokenStatus.
Proof. solve_decision. Defined.
Global Instance RegistrationStatus_eq_dec : EqDecision RegistrationStatus.
Proof. solve_decision. Defined.

Definition agent_status_parse (value : string) : option AgentStatus :=
  if String.eqb value "active" then Some AgentActive
  else if String.eqb value "revoked" then Some AgentRevoked else None.

Definition token_status_parse (value : string) : option TokenStatus :=
  if String.eqb value "active" then Some TokenActive
  else if String.eqb value "used" then Some TokenUsed
  else if String.eqb value "revoked" then Some TokenRevoked else None.

Definition registration_status_parse (value : string) : option RegistrationStatus :=
  if String.eqb value "prepared" then Some RegPrepared
  else if String.eqb value "committed" then Some RegCommitted
  else if String.eqb value "expired" then Some RegExpired else None.

(** [registration_token::Model]; the token id is the key of the table. *)
Record TokenRow : Type := mkToken {
  tk_psk : bytes;
  tk_display_name : option bytes;
  tk_status : string;
  tk_created_at : Z;
  tk_updated_at : Z;
  tk_expires_at : option Z;
  tk_used_at : option Z;
}.

(** [agent_registration::Model]; the registration id is the key of the table. *)
Record RegistrationRow : Type := mkRegistration {
  rg_token_id : bytes;
  rg_agent_id : option bytes;
  rg_reserved_agent_id : bytes;
  rg_agent_name : bytes;
  rg_agent_public_key : bytes;
  rg_status : string;
  rg_created_at : Z;
  rg_updated_at : Z;
  rg_expires_at : option Z;
  rg_committed_at : option Z;
}.

(** [agent::Model]; the Agent id is the key of the table. *)
Record AgentRow : Type := mkAgentRow {
  ag_name : bytes;
  ag_public_key : bytes;
  ag_status : string;
  ag_created_at : Z;
  ag_updated_at : Z;
  ag_revoked_at : option Z;
}.

Record Tables : Type := mkTables {
  tokens : gmap bytes TokenRow;
  registrations : gmap bytes RegistrationRow;
  agents : gmap bytes AgentRow;
}.

Definition no_tables : Tables := mkTables ∅ ∅ ∅.

(** ** Errors and answers *)

Inductive RegistrationDbError : Type :=
| RSeaOrm (message : string)
| InvalidAgentRegistration (message : string).

(** [PrepareAgentRegistrationError]. *)
Inductive PrepareError : Type :=
| PInvalidToken
| PTokenAlreadyUsed
| PAgentAlreadyRegistered
| PDatabase (error : RegistrationDbError).

Inductive RevokeTokenOutcome : Type := Revoked | AlreadyRevoked | AlreadyUsed | NotFound.

(** [PersistedAgentAuthorization]. *)
Inductive Authorization : Type :=
| Authorized (agent_id : bytes)
| AuthRevoked
| Unauthorized.

(** [PendingAgentRegistration]. *)
Record PendingAgentRegistration : Type := mkPendingReg {
  pd_registration_id : bytes;
  pd_agent_id : bytes;
}.

Definition PENDING_REGISTRATION_TTL_MICROS : Z := 10 * 60 * 1000000.

(** ** Helpers *)

(** [expires_at.is_some_and(|expires_at| expires_at <= now)]. *)
Definition is_past (expires_at : option Z) (now : Z) : bool :=
  match expires_at with Some e => e <=? now | None => false end.

(** [constant_time_eq]. *)
Definition constant_time_eq (expected actual : bytes) : bool :=
  bool_decide (length expected = length actual) &&
  bool_decide (fold_left (λ difference '(l, r), Z.lor difference (Z.lxor l r)) (zip expected actual) 0 = 0).

(** [registration_is_expired]. *)
Definition registration_is_expired (r : RegistrationRow) (now : Z) : bool :=
  let status := registration_status_parse (rg_status r) in
  bool_decide (status = Some RegExpired)
  || (bool_decide (status = Some RegPrepared) && is_past (rg_expires_at r) now).

(** A row of a table that satisfies a condition: [Entity::find().filter(..).one(..)]. *)
Definition find_row {A} (P : A → bool) (m : gmap bytes A) : option (bytes * A) :=
  List.find (λ kv, P kv.2) (map_to_list m).

(** [INSERT] with the unique indexes of the tables. *)
Definition insert_token (id : bytes) (row : TokenRow) (t : Tables) : result RegistrationDbError Tables :=
  match tokens t !! id with
  | Some _ => Err (RSeaOrm "UNIQUE constraint failed: registration_tokens.token_id")
  | None => Ok (mkTables (<[id := row]> (tokens t)) (registrations t) (agents t))
  end.

Definition insert_registration (id : bytes) (row : RegistrationRow) (t : Tables) :
    result RegistrationDbError Tables :=
  match registrations t !! id,
        find_row (λ r, bool_decide (rg_agent_public_key r = rg_agent_public_key row)) (registrations t),
        find_row (λ r, bool_decide (rg_token_id r = rg_token_id row)) (registrations t) with
  | None, None, None => Ok (mkTables (tokens t) (<[id := row]> (registrations t)) (agents t))
  | _, _, _ => Err (RSeaOrm "UNIQUE constraint failed: agent_registrations")
  end.

Definition insert_agent (id : bytes) (row : AgentRow) (t : Tables) : result RegistrationDbError Tables :=
  match agents t !! id, find_row (λ a, bool_decide (ag_public_key a = ag_public_key row)) (agents t) with
  | None, None => Ok (mkTables (tokens t) (registrations t) (<[id := row]> (agents t)))
  | _, _ => Err (RSeaOrm "UNIQUE constraint failed: agents")
  end.

Definition delete_registration (id : bytes) (t : Tables) : Tables :=
  mkTables (tokens t) (delete id (registrations t)) (agents t).

(** [delete_registration_if_expired]. *)
Definition delete_registration_if_expired (now : Z) (id : bytes) (r : RegistrationRow) (t : Tables) :
    bool * Tables :=
  if registration_is_expired r now then (true, delete_registration id t) else (false, t).

(** A change of one row by its key. *)
Definition set_token (id : bytes) (row : TokenRow) (t : Tables) : Tables :=
  mkTables (<[id := row]> (tokens t)) (registrations t) (agents t).
Definition set_registration (id : bytes) (row : RegistrationRow) (t : Tables) : Tables :=
  mkTables (tokens t) (<[id := row]> (registrations t)) (agents t).
Definition set_agent (id : bytes) (row : AgentRow) (t : Tables) : Tables :=
  mkTables (tokens t) (registrations t) (<[id := row]> (agents t)).

(** ** Operations *)

(** [insert_registration_token]; [valid_for] in microseconds. *)
Definition insert_registration_token (now : Z) (token_id psk : bytes) (display_name : option bytes)
    (valid_for : option Z) (t : Tables) : result RegistrationDbError (option Z) * Tables :=
  match
    expires_at ← match valid_for with
      | None => Ok None
      | Some d =>
          duration ← ok_or (InvalidAgentRegistration
            "registration token duration does not fit in i64 microseconds") (checked_i64 d);
          e ← ok_or (InvalidAgentRegistration "registration token expiration timestamp overflow")
            (checked_i64 (now + duration));
          Ok (Some e)
      end;
    t' ← insert_token token_id (mkToken psk display_name "active" now now expires_at None) t;
    Ok (expires_at, t')
  with
  | Ok (expires_at, t') => (Ok expires_at, t')
  | Err e => (Err e, t)
  end.

(** [cleanup_expired_agent_registrations]. *)
Definition cleaned (now : Z) (r : RegistrationRow) : bool :=
  bool_decide (rg_agent_id r = None) &&
  (String.eqb (rg_status r) "expired"
   || (String.eqb (rg_status r) "prepared"
       && match rg_expires_at r with Some e => e <? now | None => false end)).

Definition cleanup_expired_agent_registrations (now : Z) (t : Tables) : nat * Tables :=
  (size (filter (λ kr, cleaned now kr.2 = true) (registrations t)),
   mkTables (tokens t) (filter (λ kr, cleaned now kr.2 = false) (registrations t)) (agents t)).

(** [load_active_registration_psk]. *)
Definition load_active_registration_psk (now : Z) (token_id : bytes) (t : Tables) :
    result RegistrationDbError (option bytes) :=
  match tokens t !! token_id with
  | None => Ok None
  | Some token =>
      if bool_decide (token_status_parse (tk_status token) ≠ Some TokenActive)
         || bool_decide (is_Some (tk_used_at token)) || is_past (tk_expires_at token) now
      then Ok None
      else if bool_decide (length (tk_psk token) = REGISTRATION_PSK_BYTES) then Ok (Some (tk_psk token))
      else Err (InvalidAgentRegistration "registration token PSK must be 32 bytes")
  end.

(** The token checks of [prepare_agent_registration]. *)
Definition check_token (now : Z) (token_id request_psk : bytes) (t : Tables) :
    result PrepareError TokenRow :=
  token ← ok_or PInvalidToken (tokens t !! token_id);
  let token_status := token_status_parse (tk_status token) in
  if bool_decide (token_status = Some TokenUsed) || bool_decide (is_Some (tk_used_at token))
  then Err PTokenAlreadyUsed
  else if bool_decide (token_status ≠ Some TokenActive) || is_past (tk_expires_at token) now
          || negb (constant_time_eq (tk_psk token) request_psk)
  then Err PInvalidToken
  else Ok token.

(** The last part of [prepare_agent_registration]: no other transaction of this token is
    left, and a new one is inserted. *)
Definition new_registration (now : Z) (uuid agent_uuid token_id public_key : bytes) (token : TokenRow)
    (t : Tables) : result PrepareError (PendingAgentRegistration * Tables) :=
  t ← match find_row (λ r, bool_decide (rg_token_id r = token_id)) (registrations t) with
      | Some (id, r) =>
          let '(deleted, t) := delete_registration_if_expired now id r t in
          if (deleted : bool) then Ok t else Err PTokenAlreadyUsed
      | None => Ok t
      end;
  t ← map_err PDatabase (insert_registration uuid
        (mkRegistration token_id None agent_uuid (default agent_uuid (tk_display_name token)) public_key
           "prepared" now now (Some (now + PENDING_REGISTRATION_TTL_MICROS)) None) t);
  Ok (mkPendingReg uuid agent_uuid, t).

(** [prepare_agent_registration]. *)
Definition prepare_agent_registration (now : Z) (uuid agent_uuid : bytes)
    (token_id request_psk public_key : bytes) (t : Tables) :
    result PrepareError PendingAgentRegistration * Tables :=
  match
    token ← check_token now token_id request_psk t;
    match find_row (λ r, bool_decide (rg_agent_public_key r = public_key)) (registrations t) with
    | Some (id, r) =>
        let '(deleted, t) := delete_registration_if_expired now id r t in
        if (deleted : bool) then new_registration now uuid agent_uuid token_id public_key token t
        else if bool_decide (rg_token_id r = token_id)
                && (bool_decide (registration_status_parse (rg_status r) = Some RegPrepared)
                    || bool_decide (registration_status_parse (rg_status r) = Some RegCommitted))
        then Ok (mkPendingReg id (rg_reserved_agent_id r), t)
        else Err PAgentAlreadyRegistered
    | None => new_registration now uuid agent_uuid token_id public_key token t
    end
  with
  | Ok (pending, t') => (Ok pending, t')
  | Err e => (Err e, t)
  end.

Definition invalid {A} (message : string) : result RegistrationDbError A :=
  Err (InvalidAgentRegistration message).

(** [commit_agent_registration]. *)
Definition commit_agent_registration (now : Z) (pending : PendingAgentRegistration) (t : Tables) :
    result RegistrationDbError unit * Tables :=
  let id := pd_registration_id pending in
  match
    registration ← ok_or (InvalidAgentRegistration "registration transaction is unknown")
      (registrations t !! id);
    if bool_decide (rg_reserved_agent_id registration ≠ pd_agent_id pending)
    then invalid "registration transaction does not match Agent"
    else
      let status := registration_status_parse (rg_status registration) in
      if bool_decide (status = Some RegCommitted) then
        agent_id ← ok_or (InvalidAgentRegistration "committed registration has no Agent ID")
          (rg_agent_id registration);
        existing_agent ← ok_or (InvalidAgentRegistration "committed Agent record is missing")
          (agents t !! agent_id);
        if bool_decide (agent_status_parse (ag_status existing_agent) ≠ Some AgentActive)
        then invalid "committed Agent is not active" else Ok t
      else if bool_decide (status ≠ Some RegPrepared) || is_past (rg_expires_at registration) now
      then invalid "registration transaction is not committable"
      else
        token ← ok_or (InvalidAgentRegistration "registration token is invalid")
          (tokens t !! rg_token_id registration);
        if bool_decide (token_status_parse (tk_status token) ≠ Some TokenActive)
           || bool_decide (is_Some (tk_used_at token)) || is_past (tk_expires_at token) now
        then invalid "registration token is invalid"
        else if bool_decide (is_Some (agents t !! rg_reserved_agent_id registration))
        then invalid "reserved Agent ID is already in use"
        else
          t ← insert_agent (rg_reserved_agent_id registration)
            (mkAgentRow (rg_agent_name registration) (rg_agent_public_key registration) "active" now now None) t;
          let t := set_registration id
            (mkRegistration (rg_token_id registration) (Some (pd_agent_id pending))
               (rg_reserved_agent_id registration) (rg_agent_name registration)
               (rg_agent_public_key registration) "committed" (rg_created_at registration) now
               (rg_expires_at registration) (Some now)) t in
          Ok (set_token (rg_token_id registration)
            (mkToken (tk_psk token) (tk_display_name token) "used" (tk_created_at token) now
               (tk_expires_at token) (Some now)) t)
  with
  | Ok t' => (Ok tt, t')
  | Err e => (Err e, t)
  end.

(** [find_agent_authorization] and [is_agent_active]. *)
Definition find_agent_authorization (public_key : bytes) (t : Tables) : Authorization :=
  match find_row (λ a, bool_decide (ag_public_key a = public_key)) (agents t) with
  | None => Unauthorized
  | Some (agent_id, a) =>
      let status := agent_status_parse (ag_status a) in
      if bool_decide (status = Some AgentRevoked) || bool_decide (is_Some (ag_revoked_at a)) then AuthRevoked
      else if bool_decide (status = Some AgentActive) then Authorized agent_id else Unauthorized
  end.

Definition is_agent_active (agent_id : bytes) (t : Tables) : bool :=
  match agents t !! agent_id with
  | None => false
  | Some a => String.eqb (ag_status a) "active" && bool_decide (ag_revoked_at a = None)
  end.

(** [revoke_registration_token]. *)
Definition revoke_registration_token (now : Z) (token_id : bytes) (t : Tables) :
    result RegistrationDbError RevokeTokenOutcome * Tables :=
  match tokens t !! token_id with
  | None => (Ok NotFound, t)
  | Some m =>
      if String.eqb (tk_status m) "revoked" then (Ok AlreadyRevoked, t)
      else if String.eqb (tk_status m) "used" then (Ok AlreadyUsed, t)
      else if String.eqb (tk_status m) "active" then
        (Ok Revoked, set_token token_id
          (mkToken (tk_psk m) (tk_display_name m) "revoked" (tk_created_at m) now (tk_expires_at m)
             (tk_used_at m)) t)
      else (invalid "registration token has an unknown status", t)
  end.

(** [revoke_agent]; the record returned is the row. *)
Definition revoke_agent (now : Z) (agent_id : bytes) (t : Tables) : option AgentRow * Tables :=
  match agents t !! agent_id with
  | None => (None, t)
  | Some m =>
      if String.eqb (ag_status m) "revoked" && bool_decide (is_Some (ag_revoked_at m)) then (Some m, t)
      else
        let m' := mkAgentRow (ag_name m) (ag_public_key m) "revoked" (ag_created_at m) now (Some now) in
        (Some m', set_agent agent_id m' t)
  end.

(** [rename_agent]. *)
Definition rename_agent (now : Z) (agent_id name : bytes) (t : Tables) : option AgentRow * Tables :=
  match agents t !! agent_id with
  | None => (None, t)
  | Some m =>
      let m' := mkAgentRow name (ag_public_key m) (ag_status m) (ag_created_at m) now (ag_revoked_at m) in
      (Some m', set_agent agent_id m' t)
  end.

(** [AgentRegistry::prepare_registration]: the token in the request must be the one the
    handshake was keyed with. *)
Definition prepare_registration (now : Z) (uuid agent_uuid token_id registration_token public_key : bytes)
    (t : Tables) : result PrepareError PendingAgentRegistration * Tables :=
  match parse_registration_credential registration_token with
  | Err _ => (Err PInvalidToken, t)
  | Ok (request_token_id, request_psk) =>
      if bool_decide (request_token_id ≠ token_id) then (Err PInvalidToken, t)
      else prepare_agent_registration now uuid agent_uuid token_id request_psk public_key t
  end.

(** [map_registration_prepare_error]. *)
Definition map_registration_prepare_error (e : PrepareError) : SecureErrorCode :=
  match e with
  | PInvalidToken => InvalidToken
  | PTokenAlreadyUsed => TokenAlreadyUsed
  | PAgentAlreadyRegistered => AgentAlreadyRegistered
  | PDatabase _ => Internal
  end.

(** ** Lookup lemmas *)

Lemma find_row_Some {A} (P : A → bool) m k a : find_row P m = Some (k, a) → m !! k = Some a ∧ P a = true.
Proof.
  unfold find_row. intros [Hin HP]%find_some. split; [|done].
  by apply elem_of_map_to_list, list_elem_of_In.
Qed.

Lemma find_row_None {A} (P : A → bool) m k a : find_row P m = None → m !! k = Some a → P a = false.
Proof.
  unfold find_row. intros Hn Hk. apply elem_of_map_to_list, list_elem_of_In in Hk.
  by eapply find_none in Hn; [|exact Hk].
Qed.

(** With at most one matching row, that row is found. *)
Lemma find_row_unique {A} (P : A → bool) m k a :
  m !! k = Some a → P a = true → (∀ k' a', m !! k' = Some a' → P a' = true → k' = k) →
  find_row P m = Some (k, a).
Proof.
  intros Hk HP Hu. destruct (find_row P m) as [[k' a']|] eqn:E.
  - apply find_row_Some in E as [Hk' HP']. assert (k' = k) as -> by eauto. congruence.
  - eapply find_row_None in E; [|exact Hk]. congruence.
Qed.

Lemma fold_lxor_zero (l : list (Z * Z)) d :
  fold_left (λ difference '(l, r), Z.lor difference (Z.lxor l r)) l d = 0 ↔
  d = 0 ∧ Forall (λ p, p.1 = p.2) l.
Proof.
  revert d. induction l as [|[a b] l IH]; intros d; cbn.
  - split; [intros ->; split; [done|constructor]|by intros [-> _]].
  - rewrite IH, Z.lor_eq_0_iff, Z.lxor_eq_0_iff, Forall_cons. cbn. tauto.
Qed.

(** The comparison that takes the same time for all inputs decides equality. *)
Lemma constant_time_eq_spec a b : constant_time_eq a b = true ↔ a = b.
Proof.
  unfold constant_time_eq. rewrite andb_true_iff, !bool_decide_eq_true, fold_lxor_zero. split.
  - intros [Hl [_ Hf]]. revert b Hl Hf. induction a as [|x a IH]; intros [|y b] Hl Hf; try done.
    cbn in *. apply Forall_cons in Hf as [Hxy Hf]. cbn in Hxy. f_equal; [done|]. apply IH; [lia|done].
  - intros ->. split; [done|]. split; [done|]. clear. induction b; cbn; constructor; auto.
Qed.

(** ** The invariant of the tables *)

(** The token is consumed. *)
Definition token_used (t : Tables) (id : bytes) : Prop :=
  ∃ tok, tokens t !! id = Some tok ∧ tk_status tok = "used"%string ∧ is_Some (tk_used_at tok).

(** Registrations in progress hold no Agent; completed ones hold their Agent, with its
    key, and a consumed token. *)
Definition registration_ok (t : Tables) (r : RegistrationRow) : Prop :=
  (rg_status r = "prepared"%string ∧ rg_agent_id r = None) ∨
  (rg_status r = "committed"%string ∧ rg_agent_id r = Some (rg_reserved_agent_id r) ∧
   token_used t (rg_token_id r) ∧
   ∃ a, agents t !! rg_reserved_agent_id r = Some a ∧ ag_public_key a = rg_agent_public_key r).

Definition token_ok (tok : TokenRow) : Prop :=
  (tk_status tok = "used"%string ∧ is_Some (tk_used_at tok)) ∨
  ((tk_status tok = "active"%string ∨ tk_status tok = "revoked"%string) ∧ tk_used_at tok = None).

Record tables_ok (t : Tables) : Prop := mkTablesOk {
  ok_key : ∀ i j r r', registrations t !! i = Some r → registrations t !! j = Some r' →
    rg_agent_public_key r = rg_agent_public_key r' → i = j;
  ok_token_id : ∀ i j r r', registrations t !! i = Some r → registrations t !! j = Some r' →
    rg_token_id r = rg_token_id r' → i = j;
  ok_agent_key : ∀ i j a a', agents t !! i = Some a → agents t !! j = Some a' →
    ag_public_key a = ag_public_key a' → i = j;
  ok_registration : ∀ i r, registrations t !! i = Some r → registration_ok t r;
  ok_agent : ∀ i a, agents t !! i = Some a →
    ∃ j r, registrations t !! j = Some r ∧ rg_status r = "committed"%string ∧ rg_agent_id r = Some i;
  ok_token : ∀ i tok, tokens t !! i = Some tok → token_ok tok;
}.

Lemma no_tables_ok : tables_ok no_tables.
Proof. split; cbn; intros *; rewrite ?lookup_empty; done. Qed.

(** ** Steps *)

Inductive reg_step (t : Tables) : Tables → Prop :=
| reg_issue now id psk name valid_for :
    reg_step t (insert_registration_token now id psk name valid_for t).2
| reg_prepare now uuid agent_uuid token_id psk public_key :
    reg_step t (prepare_agent_registration now uuid agent_uuid token_id psk public_key t).2
| reg_commit now pending : reg_step t (commit_agent_registration now pending t).2
| reg_cleanup now : reg_step t (cleanup_expired_agent_registrations now t).2
| reg_revoke_token now id : reg_step t (revoke_registration_token now id t).2
| reg_revoke_agent now id : reg_step t (revoke_agent now id t).2
| reg_rename now id name : reg_step t (rename_agent now id name t).2.

Definition reg_reachable (t : Tables) : Prop := rtc reg_step no_tables t.

(** ** The invariant is kept *)

Lemma parse_registration_committed s :
  registration_status_parse s = Some RegCommitted ↔ s = "committed"%string.
Proof.
  unfold registration_status_parse. split; [|by intros ->].
  destruct (String.eqb_spec s "prepared"); [done|]. destruct (String.eqb_spec s "committed"); [done|].
  by destruct (String.eqb_spec s "expired").
Qed.

Lemma expired_not_committed r now : registration_is_expired r now = true → rg_status r ≠ "committed"%string.
Proof. intros H E. unfold registration_is_expired in H. by rewrite E in H. Qed.

(** Removing registrations that are not completed. *)
Lemma tables_ok_prune t regs :
  tables_ok t → regs ⊆ registrations t →
  (∀ i r, registrations t !! i = Some r → regs !! i = None → rg_status r ≠ "committed"%string) →
  tables_ok (mkTables (tokens t) regs (agents t)).
Proof.
  intros Hok Hsub Hkept. assert (∀ i r, regs !! i = Some r → registrations t !! i = Some r) as Hw
    by (intros; by eapply lookup_weaken).
  destruct Hok as [H1 H2 H3 H4 H5 H6]. split; cbn; [eauto..| |done].
  intros i a Ha. destruct (H5 i a Ha) as (j & r & Hj & Hs & Hi).
  exists j, r. split; [|done]. destruct (regs !! j) as [r'|] eqn:E; [|by eapply Hkept in E].
  apply Hw in E. congruence.
Qed.

(** Adding a registration in progress. *)
Lemma tables_ok_insert_registration t id row t' :
  tables_ok t → rg_status row = "prepared"%string → rg_agent_id row = None →
  insert_registration id row t = Ok t' → tables_ok t'.
Proof.
  intros Hok Hst Hag. unfold insert_registration.
  destruct (registrations t !! id) eqn:Hid; [done|].
  destruct (find_row _ _) eqn:Hk; [done|]. destruct (find_row _ _) eqn:Ht in |- *; [done|]. intros [= <-].
  assert (∀ i r, registrations t !! i = Some r →
    rg_agent_public_key r ≠ rg_agent_public_key row ∧ rg_token_id r ≠ rg_token_id row) as Hnew.
  { intros i r Hi. split.
    - pose proof (find_row_None _ _ i r Hk Hi) as Hn. cbn in Hn. by bools.
    - pose proof (find_row_None _ _ i r Ht Hi) as Hn. cbn in Hn. by bools. }
  destruct Hok as [H1 H2 H3 H4 H5 H6]. split; cbn; [| |done| | |done].
  - intros i j r r' Hi Hj Heq. apply lookup_insert_Some in Hi as [[<- <-]|[Hi1 Hi]];
      apply lookup_insert_Some in Hj as [[<- <-]|[Hj1 Hj]]; eauto.
    + by destruct (Hnew j r' Hj). + by destruct (Hnew i r Hi).
  - intros i j r r' Hi Hj Heq. apply lookup_insert_Some in Hi as [[<- <-]|[Hi1 Hi]];
      apply lookup_insert_Some in Hj as [[<- <-]|[Hj1 Hj]]; eauto.
    + by destruct (Hnew j r' Hj). + by destruct (Hnew i r Hi).
  - intros i r Hi. apply lookup_insert_Some in Hi as [[<- <-]|[_ Hi]]; [by left|]. by apply H4 in Hi.
  - intros i a Ha. destruct (H5 i a Ha) as (j & r & Hj & Hs). exists j, r.
    rewrite lookup_insert_ne by congruence. done.
Qed.

Lemma tables_ok_delete_expired t now id r :
  tables_ok t → registrations t !! id = Some r → registration_is_expired r now = true →
  tables_ok (delete_registration id t).
Proof.
  intros Hok Hr He. apply tables_ok_prune; [done|apply delete_subseteq|].
  intros i r' Hi Hd. apply lookup_delete_None in Hd as [<-|Hd]; [|congruence].
  rewrite Hr in Hi. injection Hi as <-. by eapply expired_not_committed.
Qed.

Lemma new_registration_ok now uuid au tid pk tok t p t' :
  tables_ok t → new_registration now uuid au tid pk tok t = Ok (p, t') → tables_ok t'.
Proof.
  intros Hok H. unfold new_registration in H. apply result_bind_Ok in H as (t1 & H1 & H).
  assert (tables_ok t1) as Hok1.
  { destruct (find_row _ _) as [[id r]|] eqn:E; [|by injection H1 as <-].
    apply find_row_Some in E as [E _]. unfold delete_registration_if_expired in H1.
    destruct (registration_is_expired r now) eqn:He; [|done]. injection H1 as <-.
    by eapply tables_ok_delete_expired. }
  inv_result. eapply tables_ok_insert_registration; last eassumption; done.
Qed.

Lemma prepare_ok now uuid au tid psk pk t :
  tables_ok t → tables_ok (prepare_agent_registration now uuid au tid psk pk t).2.
Proof.
  intros Hok. unfold prepare_agent_registration.
  destruct (mbind _ _) as [[p t']|e] eqn:E; [|done]. cbn.
  apply result_bind_Ok in E as (tok & _ & E).
  destruct (find_row _ _) as [[id r]|] eqn:Hf; [|by eapply new_registration_ok].
  apply find_row_Some in Hf as [Hr _]. unfold delete_registration_if_expired in E.
  destruct (registration_is_expired r now) eqn:He.
  - eapply new_registration_ok; [|exact E]. by eapply tables_ok_delete_expired.
  - destruct (_ && _); [|done]. by injection E as _ <-.
Qed.

Lemma cleanup_ok now t : tables_ok t → tables_ok (cleanup_expired_agent_registrations now t).2.
Proof.
  intros Hok. cbn. apply tables_ok_prune; [done|apply map_filter_subseteq|].
  intros i r Hi Hn Hc. apply map_lookup_filter_None in Hn as [Hn|Hn]; [congruence|].
  apply (Hn r Hi). cbn. unfold cleaned. rewrite Hc. cbn. by rewrite andb_false_r.
Qed.

(** Changing a token that is not consumed, an Agent that keeps its key. *)
Lemma tables_ok_set_token t id old row :
  tables_ok t → tokens t !! id = Some old → tk_used_at old = None → token_ok row →
  tables_ok (set_token id row t).
Proof.
  intros [H1 H2 H3 H4 H5 H6] Hold Hu Hrow. split; cbn; [eauto..| |eauto|].
  - intros i r Hi. destruct (H4 i r Hi) as [?|(Hs & Ha & (tok & Ht & Hts & Htu) & Hag)]; [by left|right].
    split_and!; try done. exists tok. split; [|done]. cbn.
    rewrite lookup_insert_ne; [done|]. intros ->. rewrite Hold in Ht. injection Ht as ->.
    rewrite Hu in Htu. by destruct Htu.
  - intros i tok Hi. apply lookup_insert_Some in Hi as [[_ <-]|[_ Hi]]; eauto.
Qed.

Lemma tables_ok_set_agent t id old row :
  tables_ok t → agents t !! id = Some old → ag_public_key row = ag_public_key old →
  tables_ok (set_agent id row t).
Proof.
  intros [H1 H2 H3 H4 H5 H6] Hold Hk. split; cbn; [done|done| | | |done].
  - intros i j a a' Hi Hj Heq.
    apply lookup_insert_Some in Hi as [[<- <-]|[_ Hi]]; apply lookup_insert_Some in Hj as [[<- <-]|[_ Hj]];
      eauto; [eapply H3|eapply H3]; eauto; congruence.
  - intros i r Hi. destruct (H4 i r Hi) as [?|(Hs & Ha & Ht & a & Hag & Hpk)]; [by left|right].
    split_and!; try done. cbn. destruct (decide (id = rg_reserved_agent_id r)) as [->|Hne].
    + rewrite lookup_insert_eq. exists row. split; [done|]. congruence.
    + rewrite lookup_insert_ne by done. eauto.
  - intros i a Hi. apply lookup_insert_Some in Hi as [[<- _]|[_ Hi]]; eauto.
Qed.

(** The rows a successful commit writes. *)
Definition committed_row (r : RegistrationRow) (agent_id : bytes) (now : Z) : RegistrationRow :=
  mkRegistration (rg_token_id r) (Some agent_id) (rg_reserved_agent_id r) (rg_agent_name r)
    (rg_agent_public_key r) "committed" (rg_created_at r) now (rg_expires_at r) (Some now).
Definition consumed_row (tok : TokenRow) (now : Z) : TokenRow :=
  mkToken (tk_psk tok) (tk_display_name tok) "used" (tk_created_at tok) now (tk_expires_at tok) (Some now).
Definition agent_row (r : RegistrationRow) (now : Z) : AgentRow :=
  mkAgentRow (rg_agent_name r) (rg_agent_public_key r) "active" now now None.

(** The conditions under which a registration in progress is committed. *)
Record committable (now : Z) (pending : PendingAgentRegistration) (t : Tables)
    (r : RegistrationRow) (tok : TokenRow) : Prop := mkCommittable {
  cm_registration : registrations t !! pd_registration_id pending = Some r;
  cm_agent : rg_reserved_agent_id r = pd_agent_id pending;
  cm_prepared : registration_status_parse (rg_status r) = Some RegPrepared;
  cm_alive : is_past (rg_expires_at r) now = false;
  cm_token : tokens t !! rg_token_id r = Some tok;
  cm_token_active : token_status_parse (tk_status tok) = Some TokenActive;
  cm_token_unused : tk_used_at tok = None;
  cm_token_alive : is_past (tk_expires_at tok) now = false;
  cm_agent_free : agents t !! rg_reserved_agent_id r = None;
  cm_key_free : ∀ i a, agents t !! i = Some a → ag_public_key a ≠ rg_agent_public_key r;
}.

Definition committed_tables (now : Z) (pending : PendingAgentRegistration) (r : RegistrationRow)
    (tok : TokenRow) (t : Tables) : Tables :=
  mkTables (<[rg_token_id r := consumed_row tok now]> (tokens t))
    (<[pd_registration_id pending := committed_row r (pd_agent_id pending) now]> (registrations t))
    (<[rg_reserved_agent_id r := agent_row r now]> (agents t)).

Lemma commit_outcome now pending t res t' :
  commit_agent_registration now pending t = (res, t') →
  (t' = t ∧ is_ok res = false) ∨
  (t' = t ∧ res = Ok tt ∧ ∃ r a row, registrations t !! pd_registration_id pending = Some r ∧
     rg_reserved_agent_id r = pd_agent_id pending ∧ rg_status r = "committed"%string ∧
     rg_agent_id r = Some a ∧ agents t !! a = Some row ∧ agent_status_parse (ag_status row) = Some AgentActive) ∨
  (∃ r tok, committable now pending t r tok ∧ res = Ok tt ∧ t' = committed_tables now pending r tok t).
Proof.
  unfold commit_agent_registration. destruct (mbind _ _) as [t1|e] eqn:E; [|intros [= <- <-]; by left].
  intros [= <- <-]. apply result_bind_Ok in E as (r & Hr & E). apply ok_or_Ok in Hr.
  case_bool_decide as Hag; [done|]. cbv zeta in E.
  case_bool_decide as Hst.
  - right; left. apply parse_registration_committed in Hst.
    apply result_bind_Ok in E as (a & Ha & E). apply result_bind_Ok in E as (row & Hrow & E).
    apply ok_or_Ok in Ha, Hrow. case_bool_decide as Hs; [done|].
    injection E as <-. split_and!; try done. by exists r, a, row.
  - destruct (_ || _) eqn:E1; [done|]. bools. apply result_bind_Ok in E as (tok & Htok & E).
    apply ok_or_Ok in Htok. destruct (_ || _) eqn:E2; [done|]. bools.
    case_bool_decide as Hfree; [done|]. apply result_bind_Ok in E as (t2 & Hins & E). injection E as <-.
    unfold insert_agent in Hins. destruct (agents t !! _) eqn:Hnone; [done|].
    destruct (find_row _ _) eqn:Hf; [done|]. injection Hins as <-.
    right; right. exists r, tok. split; [|done]. split; try done.
    + by apply dec_stable.
    + by apply dec_stable.
    + by apply eq_None_not_Some.
    + intros i a Hi. pose proof (find_row_None _ _ i a Hf Hi) as Hn. cbn in Hn. by bools.
Qed.

Lemma committed_ok now pending r tok t :
  tables_ok t → committable now pending t r tok → tables_ok (committed_tables now pending r tok t).
Proof.
  intros [H1 H2 H3 H4 H5 H6] [Hr Hag Hst _ Htok _ Hunused _ Hfree Hkey].
  assert (∀ i r', <[pd_registration_id pending := committed_row r (pd_agent_id pending) now]>
      (registrations t) !! i = Some r' → ∃ r0, registrations t !! i = Some r0 ∧
      rg_agent_public_key r0 = rg_agent_public_key r' ∧ rg_token_id r0 = rg_token_id r') as Hback.
  { intros i r' Hi. apply lookup_insert_Some in Hi as [[<- <-]|[_ Hi]]; eauto. }
  split; cbn.
  - intros i j x y Hi Hj Heq. destruct (Hback i x Hi) as (x0 & ? & ? & ?).
    destruct (Hback j y Hj) as (y0 & ? & ? & ?). eapply H1; eauto; congruence.
  - intros i j x y Hi Hj Heq. destruct (Hback i x Hi) as (x0 & ? & ? & ?).
    destruct (Hback j y Hj) as (y0 & ? & ? & ?). eapply H2; eauto; congruence.
  - intros i j a a' Hi Hj Heq.
    apply lookup_insert_Some in Hi as [[<- <-]|[_ Hi]]; apply lookup_insert_Some in Hj as [[<- <-]|[_ Hj]]; eauto.
    + by destruct (Hkey j a' Hj). + by destruct (Hkey i a Hi).
  - intros i x Hi. apply lookup_insert_Some in Hi as [[<- <-]|[Hne Hi]].
    + right. cbn. split_and!; [done|by rewrite Hag| |].
      * exists (consumed_row tok now). cbn. by rewrite lookup_insert_eq.
      * exists (agent_row r now). by rewrite lookup_insert_eq.
    + destruct (H4 i x Hi) as [?|(Hs & Ha & (tok' & Ht & Hts & Htu) & a & Hxa & Hpk)]; [by left|right].
      split_and!; try done.
      * exists tok'. split; [|done]. cbn. rewrite lookup_insert_ne; [done|].
        intros E. rewrite <- E, Htok in Ht. injection Ht as ->. rewrite Hunused in Htu. by destruct Htu.
      * exists a. cbn. by rewrite lookup_insert_ne by congruence.
  - intros i a Hi. apply lookup_insert_Some in Hi as [[<- <-]|[_ Hi]].
    + exists (pd_registration_id pending). eexists. rewrite lookup_insert_eq. cbn. by rewrite Hag.
    + destruct (H5 i a Hi) as (j & x & Hj & Hs & Hx). exists j, x. split; [|done].
      rewrite lookup_insert_ne; [done|]. intros <-. rewrite Hr in Hj. injection Hj as <-. by rewrite Hs in Hst.
  - intros i x Hi. apply lookup_insert_Some in Hi as [[<- <-]|[_ Hi]]; [|eauto]. left. by split.
Qed.

Lemma reg_step_ok t t' : tables_ok t → reg_step t t' → tables_ok t'.
Proof.
  intros Hok [now id psk name vf|now uuid au tid psk pk|now p|now|now id|now id|now id name].
  - unfold insert_registration_token. destruct (mbind _ _) as [[e t1]|] eqn:E; [cbn|done].
    apply result_bind_Ok in E as (ex & _ & E). apply result_bind_Ok in E as (t2 & Hi & E).
    injection E as _ <-. unfold insert_token in Hi. destruct (tokens t !! id) eqn:Hid; [done|].
    injection Hi as <-. destruct Hok as [H1 H2 H3 H4 H5 H6]. split; cbn; [done..| |done|].
    + intros i r Hi. destruct (H4 i r Hi) as [?|(Hs & Ha & (tok & Ht & Hu) & Hag)]; [by left|right].
      split_and!; try done. exists tok. split; [|done]. cbn. by rewrite lookup_insert_ne by congruence.
    + intros i tok Hi. apply lookup_insert_Some in Hi as [[<- <-]|[_ Hi]]; [|eauto]. right. cbn. auto.
  - by apply prepare_ok.
  - destruct (commit_agent_registration now p t) as [res t1] eqn:E. cbn.
    apply commit_outcome in E as [[-> _]|[[-> _]|(r & tok & Hc & _ & ->)]]; [done..|]. by apply committed_ok.
  - by apply cleanup_ok.
  - unfold revoke_registration_token. destruct (tokens t !! id) as [m|] eqn:Hm; [|done].
    destruct (String.eqb_spec (tk_status m) "revoked"); [done|].
    destruct (String.eqb_spec (tk_status m) "used"); [done|].
    destruct (String.eqb_spec (tk_status m) "active"); [|done]. cbn.
    destruct (ok_token _ Hok _ _ Hm) as [[? _]|[_ Hu]]; [done|].
    eapply tables_ok_set_token; [done..|]. right. cbn. auto.
  - unfold revoke_agent. destruct (agents t !! id) as [m|] eqn:Hm; [|done].
    destruct (_ && _); [done|]. cbn. by eapply tables_ok_set_agent.
  - unfold rename_agent. destruct (agents t !! id) as [m|] eqn:Hm; [|done]. cbn.
    by eapply tables_ok_set_agent.
Qed.

Lemma reg_reachable_ok t : reg_reachable t → tables_ok t.
Proof.
  intros Hr. unfold reg_reachable in Hr. pose proof no_tables_ok as H0. revert H0.
  induction Hr; eauto using reg_step_ok.
Qed.

(** ** Theorems *)

(** C5. Registration tokens are single-use: in every state the Server's registration
    operations can reach, every Agent was created by a completed registration with its
    public key whose token is consumed, and no other Agent was created with that token. *)
Theorem token_single_use t :
  reg_reachable t → ∀ a row, agents t !! a = Some row →
  ∃ id r, registrations t !! id = Some r ∧ rg_agent_id r = Some a ∧
    rg_agent_public_key r = ag_public_key row ∧ token_used t (rg_token_id r) ∧
    (∀ id' r', registrations t !! id' = Some r' → rg_agent_id r' ≠ Some a → rg_token_id r' ≠ rg_token_id r).
Proof.
  intros Hok%reg_reachable_ok a row Ha.
  destruct (ok_agent _ Hok a row Ha) as (id & r & Hr & Hs & Hra). exists id, r. split; [done|].
  destruct (ok_registration _ Hok id r Hr) as [[? _]|(_ & Hres & Hu & row' & Hrow & Hk)]; [congruence|].
  rewrite Hres in Hra. injection Hra as Hra. rewrite Hra in Hrow. split_and!; [congruence|congruence|done|].
  intros id' r' Hr' Hne E. assert (id' = id) as -> by (by eapply (ok_token_id _ Hok)). congruence.
Qed.

(** An Agent the Server has revoked. *)
Definition barred (a : AgentRow) : Prop := ag_status a = "revoked"%string ∨ is_Some (ag_revoked_at a).

Lemma new_registration_agents now uuid au tid pk tok t p t' :
  new_registration now uuid au tid pk tok t = Ok (p, t') → agents t' = agents t.
Proof.
  intros H. unfold new_registration in H. apply result_bind_Ok in H as (t2 & H2 & H). inv_result.
  trans (agents t2).
  - match goal with H : insert_registration _ _ _ = _ |- _ => rename H into Hi end.
    unfold insert_registration in Hi. repeat case_match; by simplify_eq.
  - destruct (find_row _ _) as [[id r]|]; [|by simplify_eq].
    unfold delete_registration_if_expired in H2. by destruct (registration_is_expired r now); simplify_eq.
Qed.

Lemma barred_step t t' a row :
  reg_step t t' → agents t !! a = Some row → barred row →
  ∃ row', agents t' !! a = Some row' ∧ ag_public_key row' = ag_public_key row ∧ barred row'.
Proof.
  intros Hstep Ha Hb.
  destruct Hstep as [now id psk name vf|now uuid au tid psk pk|now p|now|now id|now id|now id name].
  - unfold insert_registration_token. destruct (mbind _ _) as [[e t1]|] eqn:E; [cbn|eauto].
    apply result_bind_Ok in E as (ex & _ & E). apply result_bind_Ok in E as (t2 & Hi & E). injection E as _ <-.
    unfold insert_token in Hi. destruct (tokens t !! id); [done|]. injection Hi as <-. eauto.
  - exists row. split; [|done]. rewrite <- Ha. f_equal. unfold prepare_agent_registration.
    destruct (mbind _ _) as [[p t1]|] eqn:E; [cbn|done].
    assert (∀ tok t0, new_registration now uuid au tid pk tok t0 = Ok (p, t1) → agents t1 = agents t0) as Hnew.
    { eauto using new_registration_agents. }
    apply result_bind_Ok in E as (tok & _ & E).
    destruct (find_row _ _) as [[id r]|]; [|by eapply Hnew].
    unfold delete_registration_if_expired in E. destruct (registration_is_expired _ _).
    + by apply Hnew in E.
    + destruct (_ && _); [|done]. by injection E as _ <-.
  - destruct (commit_agent_registration now p t) as [res t1] eqn:E. cbn.
    apply commit_outcome in E as [[-> _]|[[-> _]|(r & tok & Hc & _ & ->)]]; [by eauto..|].
    exists row. split; [|done]. cbn. rewrite lookup_insert_ne; [done|].
    intros <-. by rewrite (cm_agent_free _ _ _ _ _ Hc) in Ha.
  - by exists row.
  - unfold revoke_registration_token. repeat case_match; by exists row.
  - unfold revoke_agent. destruct (agents t !! id) as [m|] eqn:Hm; [|by exists row].
    destruct (_ && _); [by exists row|]. cbn.
    destruct (decide (id = a)) as [->|Hne]; [|rewrite lookup_insert_ne by done; by exists row].
    rewrite lookup_insert_eq. eexists. split; [done|]. split; [cbn; congruence|]. by left.
  - unfold rename_agent. destruct (agents t !! id) as [m|] eqn:Hm; [|by exists row]. cbn.
    destruct (decide (id = a)) as [->|Hne]; [|rewrite lookup_insert_ne by done; by exists row].
    rewrite lookup_insert_eq. eexists. split; [done|]. split; [cbn; congruence|].
    rewrite Ha in Hm. injection Hm as <-. exact Hb.
Qed.

Lemma barred_authorization t a row :
  tables_ok t → agents t !! a = Some row → barred row →
  find_agent_authorization (ag_public_key row) t = AuthRevoked.
Proof.
  intros Hok Ha Hb. unfold find_agent_authorization.
  rewrite (find_row_unique _ _ a row Ha).
  - destruct Hb as [Hb|Hb]; [by rewrite Hb|].
    by rewrite (bool_decide_eq_true_2 (is_Some (ag_revoked_at row))), orb_true_r.
  - by apply bool_decide_eq_true_2.
  - intros k' a' Hk' E. bools. by eapply (ok_agent_key _ Hok).
Qed.

(** What [revoke_agent] leaves, and what follows for [is_agent_active]. *)
Lemma revoke_agent_barred now a t row :
  agents t !! a = Some row →
  ∃ row', agents (revoke_agent now a t).2 !! a = Some row' ∧ ag_public_key row' = ag_public_key row ∧ barred row'.
Proof.
  intros Ha. unfold revoke_agent. rewrite Ha. destruct (_ && _) eqn:E; cbn.
  - bools. exists row. split_and!; try done. by right.
  - rewrite lookup_insert_eq. eexists. split; [done|]. split; [done|]. by left.
Qed.

Lemma barred_inactive t a row : agents t !! a = Some row → barred row → is_agent_active a t = false.
Proof.
  intros Ha Hb. unfold is_agent_active. rewrite Ha. destruct Hb as [->|[? ->]]; [done|].
  by rewrite andb_false_r.
Qed.

(** Revocation is final: once an Agent is revoked, its public key is refused in every
    later state, whatever tokens are issued and registrations made, and the Agent is
    never active again. *)
Theorem revoked_agent_stays_out t now a row t' :
  reg_reachable t → agents t !! a = Some row →
  rtc reg_step (revoke_agent now a t).2 t' →
  find_agent_authorization (ag_public_key row) t' = AuthRevoked ∧ is_agent_active a t' = false.
Proof.
  intros Hr Ha Hsteps.
  assert (tables_ok (revoke_agent now a t).2) as Hok
    by (eapply reg_step_ok; [by apply reg_reachable_ok|apply reg_revoke_agent]).
  pose proof (revoke_agent_barred now a t row Ha) as H0.
  assert (tables_ok t' ∧ ∃ row', agents t' !! a = Some row' ∧
    ag_public_key row' = ag_public_key row ∧ barred row') as [Hok' (row' & Ha' & Hk & Hb)].
  { induction Hsteps as [|y z w Hs _ IH]; [done|]. apply IH; [by eapply reg_step_ok|].
    destruct H0 as (r0 & H1 & <- & H2). by eapply barred_step. }
  rewrite <- Hk. split; [by apply (barred_authorization _ a)|by eapply barred_inactive].
Qed.

(** Committing a registration: an error changes nothing; success either confirms a
    registration completed before, without a change, or requires a live registration
    in progress with an active, unused, unexpired token, and then creates the Agent,
    completes the registration and consumes the token at once, so that the Agent's key is
    authorized; committing again, at any time, succeeds without a further change. *)
Theorem commit_registration_correct t now now' pending res t' :
  reg_reachable t → commit_agent_registration now pending t = (res, t') →
  (is_ok res = false → t' = t) ∧
  (res = Ok tt →
     (t' = t ∨
      ∃ r tok, committable now pending t r tok ∧ t' = committed_tables now pending r tok t ∧
        find_agent_authorization (rg_agent_public_key r) t' = Authorized (pd_agent_id pending)) ∧
     commit_agent_registration now' pending t' = (Ok tt, t')).
Proof.
  intros Hok%reg_reachable_ok Hc.
  destruct (commit_outcome _ _ _ _ _ Hc) as [[-> Hr]|[(-> & -> & r & a & row & Hr & Hag & Hs & Hra & Hrow & Hst)
    |(r & tok & Hcm & -> & ->)]].
  - split; [done|]. intros ->. done.
  - split; [done|]. intros _. split; [by left|]. unfold commit_agent_registration. rewrite Hr. cbn.
    case_bool_decide; [congruence|]. rewrite Hs, Hra. cbn. rewrite Hrow. cbn.
    repeat (case_bool_decide; try congruence).
  - split; [done|]. intros _. pose proof (committed_ok _ _ _ _ _ Hok Hcm) as Hok'.
    destruct Hcm as [H1 H2 H3 H4 H5 H6 H7 H8 H9 H10]. split.
    + right. exists r, tok. split; [done|]. split; [done|]. unfold find_agent_authorization.
      rewrite (find_row_unique _ _ (rg_reserved_agent_id r) (agent_row r now)).
      * cbn. by rewrite H2.
      * cbn. by rewrite lookup_insert_eq.
      * by apply bool_decide_eq_true_2.
      * intros k' a' Hk' E. bools. eapply (ok_agent_key _ Hok'); [exact Hk'|cbn; apply lookup_insert_eq|].
        by rewrite E.
    + unfold commit_agent_registration, committed_tables. cbn. rewrite lookup_insert_eq. cbn.
      case_bool_decide; [congruence|]. rewrite H2, lookup_insert_eq. cbn. done.
Qed.

Lemma new_registration_pending now uuid au tid pk tok t p t' :
  new_registration now uuid au tid pk tok t = Ok (p, t') →
  p = mkPendingReg uuid au ∧ tokens t' = tokens t ∧
  ∃ r, registrations t' !! uuid = Some r ∧ rg_token_id r = tid ∧ rg_agent_public_key r = pk ∧
    rg_reserved_agent_id r = au ∧ rg_status r = "prepared"%string.
Proof.
  intros H. unfold new_registration in H. apply result_bind_Ok in H as (t2 & H2 & H). inv_result.
  split; [done|].
  match goal with H : insert_registration _ _ _ = _ |- _ => rename H into Hi end.
  assert (tokens t2 = tokens t) as Ht.
  { destruct (find_row _ _) as [[id r]|]; [|by simplify_eq].
    unfold delete_registration_if_expired in H2. by destruct (registration_is_expired r now); simplify_eq. }
  clear H2. unfold insert_registration in Hi. repeat case_match; simplify_eq. cbn. split; [done|].
  eexists. by rewrite lookup_insert_eq.
Qed.

(** What a successful preparation leaves in the tables. *)
Lemma prepare_pending now uuid au tid psk pk t p t' :
  prepare_agent_registration now uuid au tid psk pk t = (Ok p, t') →
  (∃ tok, check_token now tid psk t = Ok tok ∧ tokens t' !! tid = Some tok ∧ tk_psk tok = psk) ∧
  ∃ r, registrations t' !! pd_registration_id p = Some r ∧ rg_token_id r = tid ∧
    rg_agent_public_key r = pk ∧ rg_reserved_agent_id r = pd_agent_id p ∧
    (registration_status_parse (rg_status r) = Some RegPrepared ∨
     registration_status_parse (rg_status r) = Some RegCommitted).
Proof.
  unfold prepare_agent_registration. destruct (mbind _ _) as [[p1 t1]|] eqn:E; [|done].
  intros [= -> ->]. apply result_bind_Ok in E as (tok & Htok & E).
  assert (tokens t !! tid = Some tok ∧ tk_psk tok = psk) as [Hlook Hpsk].
  { unfold check_token in Htok. apply result_bind_Ok in Htok as (tok' & Hl & Htok). apply ok_or_Ok in Hl.
    destruct (_ || _); [done|]. destruct (_ || _) eqn:E2; [done|]. injection Htok as ->. bools.
    split; [done|]. by apply constant_time_eq_spec. }
  assert (∀ t0, tokens t0 = tokens t → new_registration now uuid au tid pk tok t0 = Ok (p, t') →
    (∃ tok, check_token now tid psk t = Ok tok ∧ tokens t' !! tid = Some tok ∧ tk_psk tok = psk) ∧
    ∃ r, registrations t' !! pd_registration_id p = Some r ∧ rg_token_id r = tid ∧
      rg_agent_public_key r = pk ∧ rg_reserved_agent_id r = pd_agent_id p ∧
      (registration_status_parse (rg_status r) = Some RegPrepared ∨
       registration_status_parse (rg_status r) = Some RegCommitted)) as Hnew.
  { intros t0 Ht0 (-> & Htk & r & Hr & H1 & H2 & H3 & H4)%new_registration_pending. split.
    - exists tok. by rewrite Htk, Ht0.
    - exists r. rewrite H4. split_and!; try done. by left. }
  destruct (find_row _ _) as [[id r]|] eqn:Hf; [|by apply (Hnew t)].
  apply find_row_Some in Hf as [Hr Hk]. bools.
  unfold delete_registration_if_expired in E. destruct (registration_is_expired r now).
  - by eapply Hnew; [|exact E].
  - destruct (_ && _) eqn:E3; [|done]. injection E as <- <-. apply andb_true_iff in E3 as [E3 E4]. bools.
    split; [by exists tok|]. exists r. split_and!; try done.
    apply orb_true_iff in E4 as [E4|E4]; bools; auto.
Qed.

(** Preparing again while the registration lives returns the same registration and Agent
    id and changes nothing, whatever new ids were generated: a lost answer can be
    retried with the same token and key. *)
Theorem prepare_retry_idempotent t now uuid au tid psk pk p t' now' uuid' au' :
  reg_reachable t → prepare_agent_registration now uuid au tid psk pk t = (Ok p, t') →
  (∀ r, registrations t' !! pd_registration_id p = Some r → registration_is_expired r now' = false) →
  (∀ tok, tokens t' !! tid = Some tok → is_past (tk_expires_at tok) now' = false) →
  prepare_agent_registration now' uuid' au' tid psk pk t' = (Ok p, t').
Proof.
  intros Hok%reg_reachable_ok Hp Halive Htoken.
  pose proof (prepare_ok now uuid au tid psk pk _ Hok) as Hok'. rewrite Hp in Hok'. cbn in Hok'.
  destruct (prepare_pending _ _ _ _ _ _ _ _ _ Hp) as [(tok & Hck & Htok & Hpsk)
    (r & Hr & Ht & Hk & Hag & Hst)].
  assert (check_token now' tid psk t' = Ok tok) as Hck'.
  { unfold check_token in *. rewrite Htok. apply result_bind_Ok in Hck as (tok0 & _ & Hck). cbn.
    destruct (_ || _) eqn:E1 in Hck; [done|]. destruct (_ || _) eqn:E2 in Hck; [done|].
    injection Hck as ->. rewrite E1. bools. rewrite Htoken by done.
    rewrite bool_decide_eq_false_2 by auto.
    assert (constant_time_eq (tk_psk tok) psk = true) as -> by by apply constant_time_eq_spec. done. }
  unfold prepare_agent_registration. rewrite Hck'. cbn.
  rewrite (find_row_unique _ _ (pd_registration_id p) r Hr).
  - unfold delete_registration_if_expired. rewrite Halive by done.
    rewrite bool_decide_eq_true_2 by done. cbn [andb].
    assert (bool_decide (registration_status_parse (rg_status r) = Some RegPrepared)
      || bool_decide (registration_status_parse (rg_status r) = Some RegCommitted) = true) as ->.
    { destruct Hst as [->| ->]; done. }
    rewrite Hag. by destruct p.
  - by apply bool_decide_eq_true_2.
  - intros k' r' Hk' E. bools. eapply (ok_key _ Hok'); [done..|congruence].
Qed.

(** ** A concrete registration *)

Definition demo_token_id : bytes := encode_hex (replicate 16 171).
Definition demo_psk : bytes := replicate 32 205.
Definition demo_uuid (n : Z) : bytes := replicate 16 n.

Definition demo_issued : Tables := (insert_registration_token 5 demo_token_id demo_psk None None no_tables).2.
Definition demo_prepared : Tables :=
  (prepare_agent_registration 1000 (demo_uuid 1) (demo_uuid 2) demo_token_id demo_psk (replicate 32 1)
     demo_issued).2.
Definition demo_pending_registration : PendingAgentRegistration := mkPendingReg (demo_uuid 1) (demo_uuid 2).
Definition demo_committed : Tables := (commit_agent_registration 2000 demo_pending_registration demo_prepared).2.
Definition demo_agent_row : AgentRow := mkAgentRow (demo_uuid 2) (replicate 32 1) "active" 2000 2000 None.

Lemma demo_issued_reachable : reg_reachable demo_issued.
Proof. apply rtc_once, reg_issue. Qed.

Lemma demo_prepared_reachable : reg_reachable demo_prepared.
Proof. eapply rtc_r; [apply demo_issued_reachable|apply reg_prepare]. Qed.

Lemma demo_committed_reachable : reg_reachable demo_committed.
Proof. eapply rtc_r; [apply demo_prepared_reachable|apply reg_commit]. Qed.

Lemma token_single_use_witness :
  ∃ id r, registrations demo_committed !! id = Some r ∧ rg_agent_id r = Some (demo_uuid 2) ∧
    rg_agent_public_key r = ag_public_key demo_agent_row ∧ token_used demo_committed (rg_token_id r) ∧
    (∀ id' r', registrations demo_committed !! id' = Some r' → rg_agent_id r' ≠ Some (demo_uuid 2) →
       rg_token_id r' ≠ rg_token_id r).
Proof.
  apply (token_single_use demo_committed demo_committed_reachable (demo_uuid 2) demo_agent_row).
  vm_compute. reflexivity.
Defined.

Lemma revoked_agent_stays_out_witness :
  find_agent_authorization (ag_public_key demo_agent_row) (revoke_agent 3000 (demo_uuid 2) demo_committed).2
    = AuthRevoked ∧
  is_agent_active (demo_uuid 2) (revoke_agent 3000 (demo_uuid 2) demo_committed).2 = false.
Proof.
  apply (revoked_agent_stays_out demo_committed 3000 (demo_uuid 2) demo_agent_row).
  - apply demo_committed_reachable.
  - vm_compute. reflexivity.
  - apply rtc_refl.
Defined.

Lemma commit_registration_correct_witness :
  (is_ok (E := RegistrationDbError) (Ok tt) = false → demo_committed = demo_prepared) ∧
  (Ok (E := RegistrationDbError) tt = Ok tt →
     (demo_committed = demo_prepared ∨
      ∃ r tok, committable 2000 demo_pending_registration demo_prepared r tok ∧
        demo_committed = committed_tables 2000 demo_pending_registration r tok demo_prepared ∧
        find_agent_authorization (rg_agent_public_key r) demo_committed
          = Authorized (pd_agent_id demo_pending_registration)) ∧
     commit_agent_registration 9999 demo_pending_registration demo_committed = (Ok tt, demo_committed)).
Proof.
  apply (commit_registration_correct demo_prepared 2000 9999 demo_pending_registration (Ok tt) demo_committed).
  - apply demo_prepared_reachable.
  - vm_compute. reflexivity.
Defined.

Lemma prepare_retry_idempotent_witness :
  prepare_agent_registration 1500 (demo_uuid 8) (demo_uuid 9) demo_token_id demo_psk (replicate 32 1)
    demo_prepared = (Ok demo_pending_registration, demo_prepared).
Proof.
  apply (prepare_retry_idempotent demo_issued 1000 (demo_uuid 1) (demo_uuid 2) demo_token_id demo_psk
    (replicate 32 1) demo_pending_registration demo_prepared 1500 (demo_uuid 8) (demo_uuid 9)).
  - apply demo_issued_reachable.
  - vm_compute. reflexivity.
  - intros r Hr. vm_compute in Hr. injection Hr as <-. reflexivity.
  - intros tok Ht. vm_compute in Ht. injection Ht as <-. reflexivity.
Defined.
