(* ===== verification/Onboarding.v ===== *)
(** * Agent and Server registration together

    The Agent's recovery of an interrupted registration ([AgentState]) against the
    answers of the Server's registration tables ([Registration]). *)

From stdpp Require Import base gmap strings list.
From S2P Require Import Prelude Rotation Credential AgentState Registration.

(** The Server with tables [t] seen from an Agent with public key [pk] at time [now]: it
    completes IK handshakes, refuses business sessions of unknown Agents, and
    prepares registrations; no commit gets through. *)
Definition server_net (now : Z) (uuid agent_uuid : bytes) (pk : bytes) (t : Tables) : Net := {|
  net_load := λ _, None;
  net_generate := λ _, Err (Random "unused");
  net_save := λ _, Saved;
  net_connect_ik := λ _ _ _, Ok tt;
  net_verify := λ _,
    match find_agent_authorization pk t with
    | Authorized _ => Ok tt
    | _ => Err (CTransport (TRemoteSecure AgentNotAuthorized "agent is not authorized"))
    end;
  net_prepare := λ _ i '(token_id, psk),
    match (prepare_agent_registration now uuid agent_uuid token_id psk (public_key i) t).1 with
    | Ok p => Ok (mkPrepared (pd_agent_id p) (demo_key 2) (pd_registration_id p))
    | Err e => Err (TRemoteSecure (map_registration_prepare_error e) "registration rejected")
    end;
  net_commit := λ _, Err (TTimeout "waiting for registration commit");
  net_acknowledge := λ _, Ok tt;
|}.

(** The state the Agent is in after its first attempt. *)
Definition interrupted : PersistedAgentState :=
  RegistrationPending (demo_uuid 2) (demo_identity 1) (pinned_new (demo_key 2)) (demo_uuid 1).

(** After ten minutes the Server forgets the first answer and makes a new one. *)
Lemma prepared_again now :
  1000 + PENDING_REGISTRATION_TTL_MICROS ≤ now →
  (prepare_agent_registration now (demo_uuid 3) (demo_uuid 4) demo_token_id demo_psk (demo_key 1)
     demo_prepared).1 = Ok (mkPendingReg (demo_uuid 3) (demo_uuid 4)).
Proof.
  intros Hnow. unfold prepare_agent_registration.
  assert (∃ tok, check_token now demo_token_id demo_psk demo_prepared = Ok tok) as [tok ->]
    by (eexists; vm_compute; reflexivity).
  assert (∃ r, find_row (λ r, bool_decide (rg_agent_public_key r = demo_key 1)) (registrations demo_prepared)
      = Some (demo_uuid 1, r) ∧ rg_status r = "prepared"%string ∧
      rg_expires_at r = Some (1000 + PENDING_REGISTRATION_TTL_MICROS)) as (r & Hf & Hs & He)
    by (eexists; split; [vm_compute; reflexivity|by split]).
  cbn -[find_row demo_prepared new_registration demo_uuid demo_key]. rewrite Hf.
  unfold delete_registration_if_expired, registration_is_expired. rewrite Hs, He.
  assert (is_past (Some (1000 + PENDING_REGISTRATION_TTL_MICROS)) now = true) as -> by by apply Z.leb_le.
  cbn [registration_status_parse String.eqb]. vm_compute. reflexivity.
Qed.

(** Defect: the Server drops a prepared registration after ten minutes and answers a retry
    with new ids; an Agent that had stored the first answer and was interrupted before the
    commit then refuses the new one as inconsistent, keeps its state, and can never
    register again with it, although token and key are still good. *)
Theorem expired_registration_strands_agent :
  let config := mkConfig (Some (issued_credential (replicate 16 171) demo_psk)) in
  (* first attempt: the commit is lost *)
  (∃ tr, establish_initial (server_net 1000 (demo_uuid 1) (demo_uuid 2) (demo_key 1) demo_issued) config
     (mkAgent (Some (IdentityPrepared (demo_identity 1))) [])
     = Some (Err (CTransport (TTimeout "waiting for registration commit")), mkAgent (Some interrupted) tr)) ∧
  (* second attempt within ten minutes: the same registration goes on *)
  (∃ tr, establish_initial (server_net 2000 (demo_uuid 3) (demo_uuid 4) (demo_key 1) demo_prepared) config
     (mkAgent (Some interrupted) [])
     = Some (Err (CTransport (TTimeout "waiting for registration commit")), mkAgent (Some interrupted) tr)) ∧
  (* any attempt after that: refused by the Agent itself *)
  ∀ now, 1000 + PENDING_REGISTRATION_TTL_MICROS ≤ now →
  ∃ tr, establish_initial (server_net now (demo_uuid 3) (demo_uuid 4) (demo_key 1) demo_prepared) config
     (mkAgent (Some interrupted) [])
     = Some (Err CInconsistentPendingRegistration, mkAgent (Some interrupted) tr) ∧
     is_retryable CInconsistentPendingRegistration = false.
Proof.
  intros config. split_and!; [eexists; vm_compute; reflexivity..|].
  intros now Hnow.
  destruct (recovery_refused (server_net now (demo_uuid 3) (demo_uuid 4) (demo_key 1) demo_prepared) config
    (demo_uuid 2) (demo_identity 1) (pinned_new (demo_key 2)) (demo_uuid 1) []
    (issued_credential (replicate 16 171) demo_psk) (demo_token_id, demo_psk)
    (mkPrepared (demo_uuid 4) (demo_key 2) (demo_uuid 3))) as [tr Htr].
  - reflexivity.
  - vm_compute. reflexivity.
  - reflexivity.
  - reflexivity.
  - intros n. eexists. split; [vm_compute; reflexivity|reflexivity].
  - intros n. cbn [net_prepare server_net]. change (public_key (demo_identity 1)) with (demo_key 1).
    by rewrite prepared_again.
  - vm_compute. reflexivity.
  - exists tr. split; [exact Htr|reflexivity].
Qed.
