(* ===== verification/Registry.v ===== *)
(** * The sessions of the Server

    [service/agent/session_registry.rs]: the directory of open sessions with their
    cancellation tokens and change signals; [service/agent/transport.rs] and
    [transport/session.rs]: the life of a session's worker, from the accepted stream
    to its removal; [service/agent/control_plane.rs]: changing a catalog or a runtime
    and telling the sessions.

    A worker, the management requests and the database operations interleave in
    single steps ([session_step]): each step is what the code does between two
    [await]s that matter. *)

From stdpp Require Import base gmap strings list sorting relations.
From S2P Require Import Prelude StLogic Rotation Credential Registration.

(** ** The registry *)

(** [SessionStage]. *)
Inductive SessionStage : Type := Handshaking | Registering | Authenticated.

Global Instance SessionStage_eq_dec : EqDecision SessionStage.
Proof. solve_decision. Defined.

(** [SessionStage::as_str]. *)
Definition stage_as_str (s : SessionStage) : string :=
  match s with
  | Handshaking => "handshaking"
  | Registering => "registering"
  | Authenticated => "authenticated"
  end.

(** [SessionSnapshot]; Agent ids are the bytes of their text, as in [Registration.v]. *)
Record SessionSnapshot : Type := mkSessionSnapshot {
  ss_session_id : Z;
  ss_agent_id : option bytes;
  ss_authentication_mode : option string;
  ss_stage : SessionStage;
  ss_connected_at : Z;
  ss_last_activity_at : Z;
}.

(** A [watch] channel: the value and the version that [send_modify] advances. *)
Record Watch : Type := mkWatch {
  wa_value : Z;
  wa_version : Z;
}.

(** [SessionEntry]: [se_cancelled] is the state of the [CancellationToken]. *)
Record SessionEntry : Type := mkSessionEntry {
  se_snapshot : SessionSnapshot;
  se_cancelled : bool;
  se_catalog_change : Watch;
  se_runtime_change : Watch;
}.

(** [SessionRegistry]; the process instances are in [Session.v]. *)
Notation SessionRegistry := (gmap Z SessionEntry).

Section Registry.
Implicit Types (r : SessionRegistry) (id now : Z).

(** [register]. *)
Definition register_session (now id : Z) (r : SessionRegistry) : SessionRegistry :=
  <[id := mkSessionEntry (mkSessionSnapshot id None None Handshaking now now) false (mkWatch 0 0) (mkWatch 0 0)]> r.

(** [update]. *)
Definition update_session (now id : Z) (stage : SessionStage) (agent_id : option bytes) (mode : option string)
    (r : SessionRegistry) : SessionRegistry :=
  match r !! id with
  | None => r
  | Some e =>
      let s := se_snapshot e in
      <[id := mkSessionEntry
                (mkSessionSnapshot (ss_session_id s)
                   (match agent_id with Some a => Some a | None => ss_agent_id s end)
                   (match mode with Some m => Some m | None => ss_authentication_mode s end)
                   stage (ss_connected_at s) now)
                (se_cancelled e) (se_catalog_change e) (se_runtime_change e)]> r
  end.

(** [mark_registering] and [mark_authenticated]. *)
Definition mark_registering (now id : Z) : SessionRegistry → SessionRegistry :=
  update_session now id Registering None (Some "xxpsk3").
Definition mark_authenticated (now id : Z) (agent_id : bytes) (mode : string) : SessionRegistry → SessionRegistry :=
  update_session now id Authenticated (Some agent_id) (Some mode).

(** [touch]. *)
Definition touch (now id : Z) (r : SessionRegistry) : SessionRegistry :=
  match r !! id with
  | None => r
  | Some e =>
      let s := se_snapshot e in
      <[id := mkSessionEntry
                (mkSessionSnapshot (ss_session_id s) (ss_agent_id s) (ss_authentication_mode s) (ss_stage s)
                   (ss_connected_at s) now)
                (se_cancelled e) (se_catalog_change e) (se_runtime_change e)]> r
  end.

(** [list], in the order of the [BTreeMap], and [get]. *)
Definition key_le (a b : Z * SessionEntry) : Prop := a.1 ≤ b.1.
#[global] Instance key_le_dec : RelDecision key_le.
Proof. intros a b. unfold key_le. apply _. Defined.

Definition list_sessions (r : SessionRegistry) : list SessionSnapshot :=
  (λ kv, se_snapshot kv.2) <$> merge_sort key_le (map_to_list r).
Definition get_session (id : Z) (r : SessionRegistry) : option SessionSnapshot := se_snapshot <$> r !! id.

Definition cancel_entry (e : SessionEntry) : SessionEntry :=
  mkSessionEntry (se_snapshot e) true (se_catalog_change e) (se_runtime_change e).

(** [disconnect]. *)
Definition disconnect (id : Z) (r : SessionRegistry) : bool * SessionRegistry :=
  match r !! id with
  | None => (false, r)
  | Some e => (true, <[id := cancel_entry e]> r)
  end.

(** [entry.snapshot.agent_id.as_deref() == Some(agent_id)]. *)
Definition belongs_to (agent_id : bytes) (e : SessionEntry) : bool :=
  bool_decide (ss_agent_id (se_snapshot e) = Some agent_id).

Definition count_agent (agent_id : bytes) (r : SessionRegistry) : Z :=
  zlen (filter (λ kv : Z * SessionEntry, belongs_to agent_id kv.2 = true) (map_to_list r)).

(** [disconnect_agent]. *)
Definition disconnect_agent (agent_id : bytes) (r : SessionRegistry) : Z * SessionRegistry :=
  (count_agent agent_id r, (λ e, if belongs_to agent_id e then cancel_entry e else e) <$> r).

(** [send_modify(|generation| *generation = generation.wrapping_add(1))]. *)
Definition send_modify (w : Watch) : Watch := mkWatch (wrapping_add_u64 (wa_value w) 1) (wa_version w + 1).

(** [notify_catalog_changed] and [notify_runtime_changed]. *)
Definition notify_catalog_changed (agent_id : bytes) (r : SessionRegistry) : Z * SessionRegistry :=
  (count_agent agent_id r,
   (λ e, if belongs_to agent_id e
         then mkSessionEntry (se_snapshot e) (se_cancelled e) (send_modify (se_catalog_change e)) (se_runtime_change e)
         else e) <$> r).
Definition notify_runtime_changed (agent_id : bytes) (r : SessionRegistry) : Z * SessionRegistry :=
  (count_agent agent_id r,
   (λ e, if belongs_to agent_id e
         then mkSessionEntry (se_snapshot e) (se_cancelled e) (se_catalog_change e) (send_modify (se_runtime_change e))
         else e) <$> r).

(** [subscribe_catalog_changes] and [subscribe_runtime_changes]: the version the new
    receiver has seen. *)
Definition subscribe_catalog_changes (id : Z) (r : SessionRegistry) : option Z :=
  (λ e, wa_version (se_catalog_change e)) <$> r !! id.
Definition subscribe_runtime_changes (id : Z) (r : SessionRegistry) : option Z :=
  (λ e, wa_version (se_runtime_change e)) <$> r !! id.

(** [remove] and [len]. *)
Definition remove_session (id : Z) (r : SessionRegistry) : SessionRegistry := delete id r.
Definition len_sessions (r : SessionRegistry) : Z := zsize r.

End Registry.

(** ** Workers *)

(** Where a worker of [run_session_worker] and [handle_established_session] is. *)
Inductive Worker : Type :=
| WHandshake
| WRegistration
| WAuthorized (agent_id : bytes) (mode : string)
| WMarked (agent_id : bytes)
| WBusiness (agent_id : bytes)
| WEnded.

(** The database, the registry, the workers by session id, the next session id and the
    number of [session_slots]. *)
Record SessionSystem : Type := mkSystem {
  sy_tables : Tables;
  sy_registry : SessionRegistry;
  sy_workers : gmap Z Worker;
  sy_next : Z;
  sy_slots : Z;
}.

Definition set_worker (id : Z) (wk : Worker) (s : SessionSystem) : SessionSystem :=
  mkSystem (sy_tables s) (sy_registry s) (<[id := wk]> (sy_workers s)) (sy_next s) (sy_slots s).
Definition set_registry (r : SessionRegistry) (s : SessionSystem) : SessionSystem :=
  mkSystem (sy_tables s) r (sy_workers s) (sy_next s) (sy_slots s).

(** A worker holds its permit until [run_session_worker] returns. *)
Definition holds_permit (wk : Worker) : bool := match wk with WEnded => false | _ => true end.
Definition slots_used (s : SessionSystem) : Z :=
  zsize (filter (λ kv : Z * Worker, holds_permit kv.2 = true) (sy_workers s)).

Inductive OpenError : Type := CapacityExhausted | KeyringUnavailable.

(** [open_session]: the permit, the id, the key ring (whose lock may be poisoned), the
    entry and the worker. *)
Definition open_session (now : Z) (keyring_available : bool) (s : SessionSystem) : result OpenError Z * SessionSystem :=
  if sy_slots s <=? slots_used s then (Err CapacityExhausted, s)
  else
    let id := sy_next s in
    let next := wrapping_add_u64 id 1 in
    if negb keyring_available then
      (Err KeyringUnavailable, mkSystem (sy_tables s) (sy_registry s) (sy_workers s) next (sy_slots s))
    else
      (Ok id, mkSystem (sy_tables s) (register_session now id (sy_registry s)) (<[id := WHandshake]> (sy_workers s)) next
                (sy_slots s)).

(** [handle_established_session] for an IK session: the authorization of the key. *)
Definition authorize_session (id : Z) (public_key : bytes) (s : SessionSystem) : SessionSystem :=
  set_worker id
    (match find_agent_authorization public_key (sy_tables s) with
     | Authorized agent_id => WAuthorized agent_id "ik"
     | _ => WEnded
     end) s.

(** [mark_registering] before a registration, and its success for some Agent. *)
Definition start_registration (now id : Z) (s : SessionSystem) : SessionSystem :=
  set_worker id WRegistration (set_registry (mark_registering now id (sy_registry s)) s).
Definition finish_registration (id : Z) (agent_id : option bytes) (s : SessionSystem) : SessionSystem :=
  set_worker id (match agent_id with Some a => WAuthorized a "xxpsk3" | None => WEnded end) s.

(** [mark_authenticated], and after it the second look at the database. *)
Definition mark_session (now id : Z) (agent_id : bytes) (mode : string) (s : SessionSystem) : SessionSystem :=
  set_worker id (WMarked agent_id) (set_registry (mark_authenticated now id agent_id mode (sy_registry s)) s).
Definition recheck_session (id : Z) (agent_id : bytes) (s : SessionSystem) : SessionSystem :=
  set_worker id (if is_agent_active agent_id (sy_tables s) then WBusiness agent_id else WEnded) s.

(** A worker that ends, by itself or by its token, and is taken out of the registry. *)
Definition end_session (id : Z) (s : SessionSystem) : SessionSystem := set_worker id WEnded s.
Definition drop_session (id : Z) (s : SessionSystem) : SessionSystem :=
  mkSystem (sy_tables s) (remove_session id (sy_registry s)) (delete id (sy_workers s)) (sy_next s) (sy_slots s).

(** [ControlRequest::RevokeAgent], in its two steps. *)
Definition store_revocation (now : Z) (agent_id : bytes) (s : SessionSystem) : SessionSystem :=
  mkSystem (revoke_agent now agent_id (sy_tables s)).2 (sy_registry s) (sy_workers s) (sy_next s) (sy_slots s).
Definition cancel_sessions (agent_id : bytes) (s : SessionSystem) : SessionSystem :=
  mkSystem (sy_tables s) (disconnect_agent agent_id (sy_registry s)).2 (sy_workers s) (sy_next s) (sy_slots s).

(** A management request or the business loop of a session on the registry. *)
Inductive registry_step : SessionRegistry → SessionRegistry → Prop :=
| rs_touch now id r : registry_step r (touch now id r)
| rs_disconnect id r : registry_step r (disconnect id r).2
| rs_disconnect_agent agent_id r : registry_step r (disconnect_agent agent_id r).2
| rs_catalog agent_id r : registry_step r (notify_catalog_changed agent_id r).2
| rs_runtime agent_id r : registry_step r (notify_runtime_changed agent_id r).2.

(** The steps of the system; a worker may end at any step, which covers its token, the
    shutdown, and every error. An id is not given again while a worker has it: the
    counter would have to wrap around. *)
Inductive session_step : SessionSystem → SessionSystem → Prop :=
| st_open now keyring s : sy_workers s !! sy_next s = None → session_step s (open_session now keyring s).2
| st_authorize id key s : sy_workers s !! id = Some WHandshake → session_step s (authorize_session id key s)
| st_register now id s : sy_workers s !! id = Some WHandshake → session_step s (start_registration now id s)
| st_registered id a s : sy_workers s !! id = Some WRegistration → session_step s (finish_registration id a s)
| st_mark now id a mode s : sy_workers s !! id = Some (WAuthorized a mode) → session_step s (mark_session now id a mode s)
| st_recheck id a s : sy_workers s !! id = Some (WMarked a) → session_step s (recheck_session id a s)
| st_end id s : is_Some (sy_workers s !! id) → session_step s (end_session id s)
| st_drop id s : sy_workers s !! id = Some WEnded → session_step s (drop_session id s)
| st_registry r' s : registry_step (sy_registry s) r' → session_step s (set_registry r' s)
| st_database t' s : reg_step (sy_tables s) t' →
    session_step s (mkSystem t' (sy_registry s) (sy_workers s) (sy_next s) (sy_slots s)).

Definition new_system (t : Tables) (slots : Z) : SessionSystem := mkSystem t ∅ ∅ 0 slots.

(** ** Revocation *)

(** A worker that is registered under its Agent, until it is removed. *)
Definition worker_agent (wk : Worker) : option bytes :=
  match wk with WMarked a | WBusiness a => Some a | _ => None end.

Record system_ok (s : SessionSystem) : Prop := {
  so_entry id wk : sy_workers s !! id = Some wk → is_Some (sy_registry s !! id);
  so_worker id : is_Some (sy_registry s !! id) → is_Some (sy_workers s !! id);
  so_agent id wk a e : sy_workers s !! id = Some wk → worker_agent wk = Some a →
    sy_registry s !! id = Some e → ss_agent_id (se_snapshot e) = Some a;
}.

(** What the operations keep of an entry. *)
Definition entry_le (e e' : SessionEntry) : Prop :=
  ss_agent_id (se_snapshot e') = ss_agent_id (se_snapshot e) ∧ (se_cancelled e = true → se_cancelled e' = true).

(** The same entries, with the same Agents and no token reset. *)
Definition registry_le (r r' : SessionRegistry) : Prop :=
  ∀ id, match r !! id, r' !! id with
        | Some e, Some e' => entry_le e e'
        | None, None => True
        | _, _ => False
        end.

Lemma registry_le_refl r : registry_le r r.
Proof. intros id. by destruct (r !! id). Qed.

Lemma registry_le_insert id e e' r : r !! id = Some e → entry_le e e' → registry_le r (<[id := e']> r).
Proof.
  intros He Hle i. destruct (decide (i = id)) as [->|Hne].
  - by rewrite He, (lookup_insert_eq (M := gmap Z)).
  - rewrite (lookup_insert_ne (M := gmap Z)) by done. by destruct (r !! i).
Qed.

Lemma registry_le_fmap (f : SessionEntry → SessionEntry) r : (∀ e, entry_le e (f e)) → registry_le r (f <$> r).
Proof. intros Hf id. rewrite (lookup_fmap (M := gmap Z)). destruct (r !! id); cbn; [apply Hf|done]. Qed.

Lemma registry_step_le r r' : registry_step r r' → registry_le r r'.
Proof.
  destruct 1 as [now id r|id r|a r|a r|a r].
  - unfold touch. destruct (r !! id) eqn:He; [|apply registry_le_refl]. by eapply registry_le_insert.
  - unfold disconnect. destruct (r !! id) eqn:He; [|apply registry_le_refl]. by eapply registry_le_insert.
  - apply registry_le_fmap. intros e. destruct (belongs_to a e); by split.
  - apply registry_le_fmap. intros e. destruct (belongs_to a e); by split.
  - apply registry_le_fmap. intros e. destruct (belongs_to a e); by split.
Qed.

Lemma registry_le_is_Some r r' id : registry_le r r' → is_Some (r !! id) ↔ is_Some (r' !! id).
Proof.
  intros Hle. specialize (Hle id). destruct (r !! id), (r' !! id); try done; split; by intros [? ?].
Qed.

Lemma update_session_lookup now id st a m r i :
  (update_session now id st a m r) !! i =
    (if decide (i = id) then
       (λ e, mkSessionEntry
               (mkSessionSnapshot (ss_session_id (se_snapshot e))
                  (match a with Some x => Some x | None => ss_agent_id (se_snapshot e) end)
                  (match m with Some x => Some x | None => ss_authentication_mode (se_snapshot e) end)
                  st (ss_connected_at (se_snapshot e)) now)
               (se_cancelled e) (se_catalog_change e) (se_runtime_change e)) <$> r !! i
     else r !! i).
Proof.
  unfold update_session. destruct (decide (i = id)) as [->|Hne]; destruct (r !! id) eqn:He; try done.
  - by rewrite lookup_insert_eq.
  - by rewrite lookup_insert_ne.
Qed.

Lemma update_session_is_Some now id st a m r i :
  is_Some (update_session now id st a m r !! i) ↔ is_Some (r !! i).
Proof. rewrite update_session_lookup. case_decide; [|done]. by rewrite fmap_is_Some. Qed.

(** Setting the state of a worker that exists. *)
Lemma set_worker_ok id wk s :
  system_ok s → is_Some (sy_workers s !! id) →
  (∀ a e, worker_agent wk = Some a → sy_registry s !! id = Some e → ss_agent_id (se_snapshot e) = Some a) →
  system_ok (set_worker id wk s).
Proof.
  intros [H1 H2 H3] [w0 Hw] Ha. split; cbn.
  - intros i w. destruct (decide (i = id)) as [->|Hne]; [eauto|]. rewrite lookup_insert_ne by done. eauto.
  - intros i Hi. destruct (decide (i = id)) as [->|Hne].
    + by rewrite lookup_insert_eq.
    + rewrite lookup_insert_ne by done. eauto.
  - intros i w a e. destruct (decide (i = id)) as [->|Hne].
    + rewrite lookup_insert_eq. intros [= ->]. eauto.
    + rewrite lookup_insert_ne by done. eauto.
Qed.

Lemma set_registry_ok r' s : system_ok s → registry_le (sy_registry s) r' → system_ok (set_registry r' s).
Proof.
  intros [H1 H2 H3] Hle. split; cbn.
  - intros id wk Hw. apply (registry_le_is_Some _ _ _ Hle). eauto.
  - intros id Hi. apply H2, (registry_le_is_Some _ _ _ Hle), Hi.
  - intros id wk a e Hw Ha He. specialize (Hle id). rewrite He in Hle.
    destruct (sy_registry s !! id) as [e0|] eqn:E; [|done]. destruct Hle as [-> _]. eauto.
Qed.

Lemma open_session_ok now kr s : system_ok s → sy_workers s !! sy_next s = None → system_ok (open_session now kr s).2.
Proof.
  intros Hok Hfree. unfold open_session. destruct (_ <=? _); [done|]. destruct Hok as [H1 H2 H3].
  destruct kr; cbn; [|by split]. split; cbn; unfold register_session.
  - intros i w. destruct (decide (i = sy_next s)) as [->|Hne]; [by rewrite (lookup_insert_eq (sy_registry s))|].
    rewrite !lookup_insert_ne by done. eauto.
  - intros i. destruct (decide (i = sy_next s)) as [->|Hne]; [by rewrite !lookup_insert_eq|].
    rewrite !lookup_insert_ne by done. eauto.
  - intros i w a e. destruct (decide (i = sy_next s)) as [->|Hne].
    + rewrite lookup_insert_eq. by intros [= <-].
    + rewrite !lookup_insert_ne by done. eauto.
Qed.

Lemma update_then_set_ok now id st a m wk s :
  system_ok s → is_Some (sy_workers s !! id) → worker_agent wk = a →
  system_ok (set_worker id wk (set_registry (update_session now id st a m (sy_registry s)) s)).
Proof.
  intros [H1 H2 H3] [w0 Hw] Ha. split; cbn.
  - intros i w. rewrite update_session_is_Some. destruct (decide (i = id)) as [->|Hne]; [eauto|].
    rewrite lookup_insert_ne by done. eauto.
  - intros i. rewrite update_session_is_Some. destruct (decide (i = id)) as [->|Hne]; [by rewrite lookup_insert_eq|].
    rewrite lookup_insert_ne by done. eauto.
  - intros i w b e. rewrite update_session_lookup. case_decide as Hd.
    + subst i. rewrite lookup_insert_eq. intros [= <-] Hb (e0 & _ & ->)%fmap_Some. cbn. subst a. by rewrite Hb.
    + rewrite lookup_insert_ne by done. eauto.
Qed.

Lemma system_ok_step s s' : session_step s s' → system_ok s → system_ok s'.
Proof.
  destruct 1 as [now kr s Hf|id key s Hw|now id s Hw|id a s Hw|now id a mode s Hw|id a s Hw|id s Hw|id s Hw|r' s Hr|t' s Ht];
    intros Hok.
  - by apply open_session_ok.
  - apply set_worker_ok; [done|by rewrite Hw|]. intros b e Hb. by destruct (find_agent_authorization key (sy_tables s)).
  - apply update_then_set_ok; [done|by rewrite Hw|done].
  - apply set_worker_ok; [done|by rewrite Hw|]. intros b e Hb. by destruct a.
  - apply update_then_set_ok; [done|by rewrite Hw|done].
  - apply set_worker_ok; [done|by rewrite Hw|]. intros b e Hb He. destruct (is_agent_active a (sy_tables s)); [|done].
    by eapply (so_agent s Hok).
  - by apply set_worker_ok.
  - destruct Hok as [H1 H2 H3]. split; cbn; unfold remove_session.
    + intros i w. rewrite !lookup_delete_Some. intros [Hne Hi]. rewrite lookup_delete_ne by done. eauto.
    + intros i [e [Hne Hi]%lookup_delete_Some]. rewrite lookup_delete_ne by done. eauto.
    + intros i w b e [_ Hi]%lookup_delete_Some Hb [_ He]%lookup_delete_Some. eauto.
  - apply set_registry_ok; [done|by apply registry_step_le].
  - by destruct Hok; split.
Qed.

Lemma system_ok_rtc s s' : rtc session_step s s' → system_ok s → system_ok s'.
Proof. induction 1; eauto using system_ok_step. Qed.

Lemma new_system_ok t slots : system_ok (new_system t slots).
Proof. split; cbn; [done| |done]. intros id. by rewrite lookup_empty. Qed.

(** The database says that the Agent is revoked. *)
Definition agent_barred (a : bytes) (s : SessionSystem) : Prop :=
  ∃ row, agents (sy_tables s) !! a = Some row ∧ barred row.

Lemma agent_barred_step a s s' : session_step s s' → agent_barred a s → agent_barred a s'.
Proof.
  destruct 1; try done.
  - unfold open_session. destruct (_ <=? _); [done|]. by destruct keyring.
  - intros (row & Ha & Hb). edestruct barred_step as (row' & ? & _ & ?); [done..|]. by exists row'.
Qed.

(** Every session at work for the Agent has been told to stop. *)
Definition agent_cancelled (a : bytes) (s : SessionSystem) : Prop :=
  ∀ id e, sy_workers s !! id = Some (WBusiness a) → sy_registry s !! id = Some e → se_cancelled e = true.

Lemma agent_cancelled_step a s s' :
  session_step s s' → system_ok s → agent_barred a s → agent_cancelled a s → agent_cancelled a s'.
Proof.
  destruct 1 as [now kr s Hf|id key s Hw|now id s Hw|id b s Hw|now id b mode s Hw|id b s Hw|id s Hw|id s Hw|r' s Hr|t' s Ht];
    intros Hok Hb Hc; unfold agent_cancelled; cbn.
  - unfold open_session. destruct (_ <=? _); [done|]. destruct kr; cbn; [|done]. unfold register_session. intros i e.
    destruct (decide (i = sy_next s)) as [->|Hne]; [by rewrite lookup_insert_eq|].
    rewrite !lookup_insert_ne by done. eauto.
  - intros i e [[_ E]|[_ E]]%lookup_insert_Some; [by destruct (find_agent_authorization _ _)|eauto].
  - intros i e [[_ E]|[Hne E]]%lookup_insert_Some; [done|]. unfold mark_registering.
    rewrite update_session_lookup, decide_False by done. eauto.
  - intros i e [[_ E]|[_ E]]%lookup_insert_Some; [by destruct b|eauto].
  - intros i e [[_ E]|[Hne E]]%lookup_insert_Some; [done|]. unfold mark_authenticated.
    rewrite update_session_lookup, decide_False by done. eauto.
  - intros i e [[_ E]|[_ E]]%lookup_insert_Some; [|eauto].
    destruct (is_agent_active b (sy_tables s)) eqn:Hact; [|done]. injection E as ->.
    destruct Hb as (row & Ha & Hbar). by rewrite (barred_inactive _ _ _ Ha Hbar) in Hact.
  - intros i e [[_ E]|[_ E]]%lookup_insert_Some; [done|eauto].
  - unfold remove_session. intros i e [_ E]%lookup_delete_Some [_ He]%lookup_delete_Some. eauto.
  - intros i e Hi He. apply registry_step_le in Hr. specialize (Hr i). rewrite He in Hr.
    destruct (sy_registry s !! i) as [e0|] eqn:E; [|done]. destruct Hr as [_ Hk]. eauto.
  - done.
Qed.

Lemma cancel_sessions_cancelled a s : system_ok s → agent_cancelled a (cancel_sessions a s).
Proof.
  intros Hok id e Hw. cbn. rewrite lookup_fmap, fmap_Some. intros (e0 & He & ->). unfold belongs_to.
  by rewrite (so_agent s Hok id _ a e0 Hw eq_refl He), bool_decide_eq_true_2.
Qed.

(** C7. Revoking an Agent reaches every session, whatever else happens in between: the
    revocation is stored and then the Agent's sessions are cancelled, while sessions are
    opened, authorized, registered and marked, rechecked and ended at any point before,
    between and after these two steps. From then on every session that serves the
    Agent's messages has its cancellation token set. In particular a session that was
    authorized before the revocation but entered in the registry only after the
    cancellation never starts serving: the second look at the database stops it. *)
Theorem revoked_agent_disconnected t slots s1 now a row s2 s3 id :
  rtc session_step (new_system t slots) s1 →
  agents (sy_tables s1) !! a = Some row →
  rtc session_step (store_revocation now a s1) s2 →
  rtc session_step (cancel_sessions a s2) s3 →
  sy_workers s3 !! id = Some (WBusiness a) →
  ∃ e, sy_registry s3 !! id = Some e ∧ se_cancelled e = true.
Proof.
  intros H1 Ha H2 H3 Hw.
  assert (system_ok s2 ∧ agent_barred a s2) as [Hok2 Hb2].
  { assert (system_ok (store_revocation now a s1) ∧ agent_barred a (store_revocation now a s1)) as [Hok Hb].
    { apply system_ok_rtc in H1; [|apply new_system_ok]. split; [by destruct H1; split|].
      destruct (revoke_agent_barred now a _ _ Ha) as (row' & ? & _ & ?). by exists row'. }
    clear H1 H3 Hw. induction H2; eauto using system_ok_step, agent_barred_step. }
  assert (system_ok s3 ∧ agent_cancelled a s3) as [Hok3 Hc3].
  { assert (system_ok (cancel_sessions a s2)) as Hok.
    { apply (set_registry_ok _ _ Hok2). apply (registry_step_le _ _ (rs_disconnect_agent a _)). }
    assert (agent_barred a (cancel_sessions a s2)) as Hb by done.
    pose proof (cancel_sessions_cancelled a s2 Hok2) as Hc.
    clear H1 H2 Hw. induction H3; eauto using system_ok_step, agent_barred_step, agent_cancelled_step. }
  destruct (so_entry _ Hok3 _ _ Hw) as [e He]. eauto.
Qed.

(** ** Slots *)

Lemma size_delete_le {A} (id : Z) (m : gmap Z A) : (size (delete id m) ≤ size m)%nat.
Proof. rewrite map_size_delete. destruct (m !! id); cbn; lia. Qed.

Lemma slots_used_insert id wk s (m : gmap Z Worker) :
  sy_workers s = <[id := wk]> m →
  slots_used s ≤ zsize (filter (λ kv : Z * Worker, holds_permit kv.2 = true) m) +
                 (if holds_permit wk && negb (from_option holds_permit false (m !! id)) then 1 else 0).
Proof.
  intros Hs. unfold slots_used, zsize. rewrite Hs, map_filter_insert. cbn.
  destruct (holds_permit wk) eqn:Hwk; cbn.
  - rewrite decide_True by done. destruct (m !! id) as [w0|] eqn:Hm; cbn.
    + destruct (holds_permit w0) eqn:Hw0; cbn.
      * rewrite map_size_insert_Some; [lia|]. eexists. apply map_lookup_filter_Some. by split.
      * rewrite map_size_insert_None; [lia|]. apply map_lookup_filter_None. right. intros w Hw. cbn. congruence.
    + rewrite map_size_insert_None; [lia|]. apply map_lookup_filter_None. by left.
  - rewrite decide_False by done. rewrite map_filter_delete. pose proof (size_delete_le id (filter (λ kv : Z * Worker, holds_permit kv.2 = true) m)).
    lia.
Qed.

(** Moving a worker that holds its permit does not need another one. *)
Lemma slots_used_move id wk w0 s :
  sy_workers s !! id = Some w0 → holds_permit w0 = true → slots_used (set_worker id wk s) ≤ slots_used s.
Proof.
  intros Hw Hp. pose proof (slots_used_insert id wk (set_worker id wk s) (sy_workers s) eq_refl) as H.
  rewrite Hw in H. cbn in H. rewrite Hp, andb_false_r in H. unfold slots_used at 2. lia.
Qed.

(** The number of sessions whose worker has not returned never exceeds the Server's
    session slots, and a request for a session beyond them is refused without a trace:
    no id, no entry and no worker. *)
Theorem session_capacity t slots s :
  0 ≤ slots → rtc session_step (new_system t slots) s →
  slots_used s ≤ slots ∧
  (slots_used s = slots → ∀ now keyring, open_session now keyring s = (Err CapacityExhausted, s)).
Proof.
  intros Hs Hr.
  assert (sy_slots s = slots ∧ slots_used s ≤ slots) as [Heq Hle].
  { remember (new_system t slots) as s0 eqn:E0.
    assert (sy_slots s0 = slots ∧ slots_used s0 ≤ slots) as H0 by (subst s0; split; [done|by vm_compute]).
    clear E0. induction Hr as [|x y z Hstep _ IH]; [done|]. apply IH. clear IH. destruct H0 as [Hsl Hle].
    destruct Hstep as [now kr s Hf|id key s Hw|now id s Hw|id b s Hw|now id b mode s Hw|id b s Hw|id s [w Hw]|id s Hw|r' s Hr|t' s Ht];
      cbn; try done.
    - unfold open_session. destruct (sy_slots s <=? slots_used s) eqn:E; [done|]. destruct kr; cbn; [|done].
      split; [done|]. etrans; [by apply (slots_used_insert (sy_next s) WHandshake)|]. rewrite Hf. cbn.
      apply Z.leb_gt in E. unfold slots_used in E. lia.
    - split; [done|]. etrans; [by eapply slots_used_move|done].
    - split; [done|]. etrans; [by eapply (slots_used_move id _ _ (set_registry _ s))|done].
    - split; [done|]. etrans; [by eapply slots_used_move|done].
    - split; [done|]. etrans; [by eapply (slots_used_move id _ _ (set_registry _ s))|done].
    - split; [done|]. etrans; [by eapply slots_used_move|done].
    - split; [done|]. destruct (holds_permit w) eqn:Hp; [etrans; [by eapply slots_used_move|done]|].
      etrans; [by apply (slots_used_insert id WEnded)|]. cbn. unfold slots_used in Hle. lia.
    - split; [done|]. etrans; [|exact Hle]. unfold slots_used, zsize. cbn. rewrite map_filter_delete.
      apply inj_le, size_delete_le. }
  split; [done|]. intros Hfull now kr. unfold open_session. by rewrite (proj2 (Z.leb_le _ _)) by lia.
Qed.

(** ** Examples *)

(** An Agent connects and is served; a second connection is still being authorized. *)
Definition demo_opened : SessionSystem := (open_session 10 true (new_system demo_committed 1)).2.
Definition demo_authorized : SessionSystem := authorize_session 0 (replicate 32 1) demo_opened.
Definition demo_marked : SessionSystem := mark_session 11 0 (demo_uuid 2) "ik" demo_authorized.
Definition demo_serving : SessionSystem := recheck_session 0 (demo_uuid 2) demo_marked.

Lemma demo_serving_reachable : rtc session_step (new_system demo_committed 1) demo_serving.
Proof.
  eapply rtc_l; [by apply (st_open 10 true)|].
  eapply rtc_l; [by apply (st_authorize 0 (replicate 32 1))|].
  eapply rtc_l; [apply (st_mark 11 0 (demo_uuid 2) "ik"); vm_compute; reflexivity|].
  eapply rtc_l; [by apply (st_recheck 0 (demo_uuid 2))|apply rtc_refl].
Qed.

Lemma revoked_agent_disconnected_witness :
  ∃ e, sy_registry (cancel_sessions (demo_uuid 2) (store_revocation 12 (demo_uuid 2) demo_serving)) !! 0 = Some e ∧
    se_cancelled e = true.
Proof.
  apply (revoked_agent_disconnected demo_committed 1 demo_serving 12 (demo_uuid 2) demo_agent_row
    (store_revocation 12 (demo_uuid 2) demo_serving)
    (cancel_sessions (demo_uuid 2) (store_revocation 12 (demo_uuid 2) demo_serving)) 0).
  - exact demo_serving_reachable.
  - vm_compute. reflexivity.
  - apply rtc_refl.
  - apply rtc_refl.
  - vm_compute. reflexivity.
Defined.

Lemma session_capacity_witness :
  slots_used demo_serving ≤ 1 ∧
  (slots_used demo_serving = 1 → ∀ now keyring, open_session now keyring demo_serving = (Err CapacityExhausted, demo_serving)).
Proof. apply (session_capacity demo_committed 1 demo_serving ltac:(lia) demo_serving_reachable). Defined.
