(* ===== verification/Proto.v ===== *)
(** * Messages between Server and Agent

    The messages of [crates/smalux-protocol/proto/smalux/agent/v1] the remote jobs
    and their reports use: job definitions, commands and their results, job
    statuses, job events and task reports.  An absent sub-message is [None]; an
    open enumeration is the [i32] that was sent; the configuration of a built-in
    task is the bytes of its sub-message.  A [Uuid] is the number its sixteen bytes
    spell. *)

From stdpp Require Import base gmap strings list.
From S2P Require Import Prelude Rotation Credential SchedModel.

(** ** UUIDs on the wire *)

Fixpoint be_bytes (n : nat) (x : Z) : bytes :=
  match n with
  | O => []
  | S n => be_bytes n (x `div` 256) ++ [x `mod` 256]
  end.

Definition be_value (bs : bytes) : Z := foldl (λ acc b, acc * 256 + b) 0 bs.

(** [Uuid::as_bytes] and [Uuid::from_slice]. *)
Definition uuid_bytes (u : Uuid) : bytes := be_bytes 16 u.
Definition uuid_from_slice (bs : bytes) : option Uuid :=
  if bool_decide (length bs = 16%nat) then Some (be_value bs) else None.

Definition is_uuid (u : Uuid) : Prop := 0 ≤ u < 2 ^ 128.

Lemma be_bytes_length n x : length (be_bytes n x) = n.
Proof. revert x. induction n as [|n IH]; intros x; cbn; [done|]. rewrite length_app, IH. cbn. lia. Qed.

Lemma be_bytes_bytes n x : Forall is_byte (be_bytes n x).
Proof.
  revert x. induction n as [|n IH]; intros x; cbn; [constructor|].
  apply Forall_app. split; [apply IH|]. constructor; [|constructor].
  unfold is_byte. apply Z.mod_pos_bound. lia.
Qed.

Lemma be_value_snoc bs b : be_value (bs ++ [b]) = be_value bs * 256 + b.
Proof. unfold be_value. by rewrite foldl_app. Qed.

Lemma be_value_bytes n x : 0 ≤ x < 256 ^ Z.of_nat n → be_value (be_bytes n x) = x.
Proof.
  revert x. induction n as [|n IH]; intros x Hx; cbn [be_bytes].
  { cbn in *. unfold be_value. cbn. lia. }
  rewrite Nat2Z.inj_succ, (Z.pow_succ_r 256 (Z.of_nat n)) in Hx by lia.
  rewrite be_value_snoc, IH; [pose proof (Z.div_mod x 256 ltac:(lia)); lia|].
  split; [apply Z.div_pos; lia|]. apply Z.div_lt_upper_bound; [lia|apply Hx].
Qed.

Lemma be_bytes_value bs : Forall is_byte bs → be_bytes (length bs) (be_value bs) = bs.
Proof.
  induction bs as [|b bs IH] using rev_ind; intros Hbs; [done|].
  apply Forall_app in Hbs as [Hbs Hb]. inversion_clear Hb as [|? ? Hb0 _]. unfold is_byte in Hb0.
  rewrite length_app. cbn. rewrite Nat.add_comm. cbn. rewrite be_value_snoc.
  rewrite (Z.div_add_l (be_value bs) 256 b) by lia. rewrite (Z.div_small b 256), Z.add_0_r by lia.
  rewrite (Z.add_comm _ b), Z.mod_add, (Z.mod_small b 256) by lia. by rewrite IH.
Qed.

Lemma uuid_from_bytes u : is_uuid u → uuid_from_slice (uuid_bytes u) = Some u.
Proof.
  intros Hu. unfold uuid_from_slice, uuid_bytes. rewrite be_bytes_length. cbn [bool_decide].
  rewrite bool_decide_eq_true_2 by done. f_equal. apply be_value_bytes. unfold is_uuid in Hu.
  change (256 ^ Z.of_nat 16) with (2 ^ 128). done.
Qed.

Lemma uuid_bytes_from bs u :
  Forall is_byte bs → uuid_from_slice bs = Some u → uuid_bytes u = bs.
Proof.
  intros Hb. unfold uuid_from_slice. case_bool_decide as Hl; intros [= <-].
  unfold uuid_bytes. rewrite <-Hl. by apply be_bytes_value.
Qed.

Lemma uuid_bytes_length u : length (uuid_bytes u) = 16%nat.
Proof. apply be_bytes_length. Qed.

Lemma uuid_bytes_inj u v : is_uuid u → is_uuid v → uuid_bytes u = uuid_bytes v → u = v.
Proof.
  intros Hu Hv He. apply uuid_from_bytes in Hu. rewrite He, uuid_from_bytes in Hu by done. congruence.
Qed.

(** ** Well-known types *)

Record Timestamp : Type := mkTimestamp { ts_seconds : Z; ts_nanos : Z }.
Record PDuration : Type := mkPDuration { pd_seconds : Z; pd_nanos : Z }.

(** ** [job/definition.proto], [job/schedule.proto] and [task/common.proto] *)

(** [PluginTaskConfig]. *)
Record PluginTaskConfig : Type := mkPluginTaskConfig {
  ptc_plugin_id : string;
  ptc_plugin_version : string;
  ptc_task_kind : string;
  ptc_schema_version : Z;
  ptc_task_config : bytes;
}.

(** [task_definition::Task]. *)
Inductive Task : Type :=
| Task_System (config : bytes)
| Task_Cpu (config : bytes)
| Task_Memory (config : bytes)
| Task_Load (config : bytes)
| Task_Host (config : bytes)
| Task_DiskIo (config : bytes)
| Task_NetworkIo (config : bytes)
| Task_LocalIp (config : bytes)
| Task_PublicIp (config : bytes)
| Task_Process (config : bytes)
| Task_Socket (config : bytes)
| Task_Probe (config : bytes)
| Task_Plugin (config : PluginTaskConfig).

(** [TaskDefinition]. *)
Record TaskDefinition : Type := mkTaskDefinition { td_task : option Task }.

(** [job_trigger::Schedule]. *)
Inductive ProtoSchedule : Type :=
| POnce (at_ : option Timestamp)
| PInterval (every : option PDuration) (start_at : option Timestamp)
| PCron (expression timezone : string).

(** [MisfirePolicy] and [JobTrigger]. *)
Record ProtoMisfire : Type := mkProtoMisfire { pm_behavior : Z; pm_max_runs : Z }.

Record JobTrigger : Type := mkJobTrigger {
  jt_timeout : option PDuration;
  jt_misfire : option ProtoMisfire;
  jt_schedule : option ProtoSchedule;
}.

(** [retry_policy::Policy]; the outer [RetryPolicy] may be empty. *)
Inductive ProtoRetry : Type :=
| PNoRetry
| PExponential (max_attempts : Z) (initial_delay max_delay : option PDuration)
    (retry_on : option RetryCondition).

(** [FailurePolicy] and [JobOptions]. *)
Record ProtoFailure : Type := mkProtoFailure {
  pf_disable_after : option Z;
  pf_count_timeout : bool;
  pf_count_panic : bool;
}.

Record ProtoOptions : Type := mkProtoOptions {
  po_concurrency : option Z;
  po_max_pending : option Z;
  po_priority : option Z;
  po_coalescing : Z;
  po_capacity : Z;
  po_retry : option (option ProtoRetry);
  po_failure : option ProtoFailure;
}.

(** [JobDefinition]. *)
Record JobDefinition : Type := mkJobDefinition {
  jd_job_id : bytes;
  jd_revision : Z;
  jd_enabled : bool;
  jd_trigger : option JobTrigger;
  jd_options : option ProtoOptions;
  jd_task : option TaskDefinition;
}.

Global Instance RetryCondition_eq_dec : EqDecision RetryCondition.
Proof. solve_decision. Defined.
Global Instance Timestamp_eq_dec : EqDecision Timestamp.
Proof. solve_decision. Defined.
Global Instance PDuration_eq_dec : EqDecision PDuration.
Proof. solve_decision. Defined.
Global Instance PluginTaskConfig_eq_dec : EqDecision PluginTaskConfig.
Proof. solve_decision. Defined.
Global Instance Task_eq_dec : EqDecision Task.
Proof. solve_decision. Defined.
Global Instance TaskDefinition_eq_dec : EqDecision TaskDefinition.
Proof. solve_decision. Defined.
Global Instance ProtoSchedule_eq_dec : EqDecision ProtoSchedule.
Proof. solve_decision. Defined.
Global Instance ProtoMisfire_eq_dec : EqDecision ProtoMisfire.
Proof. solve_decision. Defined.
Global Instance JobTrigger_eq_dec : EqDecision JobTrigger.
Proof. solve_decision. Defined.
Global Instance ProtoRetry_eq_dec : EqDecision ProtoRetry.
Proof. solve_decision. Defined.
Global Instance ProtoFailure_eq_dec : EqDecision ProtoFailure.
Proof. solve_decision. Defined.
Global Instance ProtoOptions_eq_dec : EqDecision ProtoOptions.
Proof. solve_decision. Defined.
Global Instance JobDefinition_eq_dec : EqDecision JobDefinition.
Proof. solve_decision. Defined.

(** ** [job/command.proto] and [job/status.proto] *)

Record ReplaceAllJobs : Type := mkReplaceAllJobs {
  ra_catalog_revision : Z;
  ra_jobs : list JobDefinition;
}.

Global Instance ReplaceAllJobs_eq_dec : EqDecision ReplaceAllJobs.
Proof. solve_decision. Defined.

Record UpsertJob : Type := mkUpsertJob {
  up_catalog_revision : Z;
  up_job : option JobDefinition;
}.

Record DeleteJob : Type := mkDeleteJob {
  dl_catalog_revision : Z;
  dl_job_id : bytes;
  dl_expected_revision : Z;
}.

Record RunJobNow : Type := mkRunJobNow {
  rn_job_id : bytes;
  rn_expected_revision : Z;
}.

(** [job_command::Action] and [JobCommand]. *)
Inductive CommandAction : Type :=
| ActReplaceAll (value : ReplaceAllJobs)
| ActUpsert (value : UpsertJob)
| ActDelete (value : DeleteJob)
| ActRunNow (value : RunJobNow).

Record JobCommand : Type := mkJobCommand {
  jc_command_id : bytes;
  jc_action : option CommandAction;
}.

(** [JobCommandStatus] and [JobCommandErrorCode], without the zero values. *)
Inductive JobCommandStatus : Type := Applied | Rejected | ResyncRequired.

Inductive JobCommandErrorCode : Type :=
| InvalidCommand
| InvalidJob
| NotFound
| RevisionConflict
| OwnershipConflict
| CapacityExceeded
| SchedulerUnavailable
| LocalPolicyDenied.

Global Instance JobCommandStatus_eq_dec : EqDecision JobCommandStatus.
Proof. solve_decision. Defined.
Global Instance JobCommandErrorCode_eq_dec : EqDecision JobCommandErrorCode.
Proof. solve_decision. Defined.

Record JobCommandError : Type := mkJobCommandError {
  jce_code : JobCommandErrorCode;
  jce_message : string;
}.

(** [JobRuntimeState] and [JobStatus]. *)
Inductive JobRuntimeState : Type := RtEnabled | RtCompleted | RtDisabled.

Record JobStatus : Type := mkJobStatus {
  js_job_id : bytes;
  js_revision : Z;
  js_task_kind : string;
  js_state : JobRuntimeState;
  js_disabled_reason : string;
  js_concurrency : Z;
  js_max_pending : Z;
  js_running_count : Z;
  js_pending_count : Z;
  js_consecutive_failures : Z;
  js_next_run_at : option Timestamp;
  js_last_started_at : option Timestamp;
  js_last_finished_at : option Timestamp;
  js_last_outcome : string;
  js_created_at : option Timestamp;
  js_updated_at : option Timestamp;
}.

Record JobCommandResult : Type := mkJobCommandResult {
  jr_command_id : bytes;
  jr_status : JobCommandStatus;
  jr_catalog_revision : Z;
  jr_job : option JobStatus;
  jr_error : option JobCommandError;
}.

(** ** [job/event.proto] *)

(** [JobEventKind]. *)
Inductive JobEventKind : Type :=
| KUnspecified | KSchedulerStarted | KSchedulerConfigUpdated | KSchedulerStopping
| KSchedulerStopped | KSchedulerFailed | KJobAdded | KJobUpdated | KJobDisabled | KJobDeleted
| KTriggerScheduled | KTriggerSkipped | KExecutionQueued | KExecutionStarted
| KExecutionSucceeded | KExecutionFailed | KExecutionTimedOut | KExecutionPanicked
| KExecutionCancelled | KRetryScheduled | KReportDelivered | KReportDeliveryFailed
| KPendingReplaced | KBackpressureApplied.

Global Instance JobEventKind_eq_dec : EqDecision JobEventKind.
Proof. solve_decision. Defined.

(** [kind as i32] and [JobEventKind::try_from]. *)
Definition event_kind_code (k : JobEventKind) : Z :=
  match k with
  | KUnspecified => 0 | KSchedulerStarted => 1 | KSchedulerConfigUpdated => 2
  | KSchedulerStopping => 3 | KSchedulerStopped => 4 | KSchedulerFailed => 5
  | KJobAdded => 10 | KJobUpdated => 11 | KJobDisabled => 12 | KJobDeleted => 13
  | KTriggerScheduled => 20 | KTriggerSkipped => 21
  | KExecutionQueued => 30 | KExecutionStarted => 31 | KExecutionSucceeded => 32
  | KExecutionFailed => 33 | KExecutionTimedOut => 34 | KExecutionPanicked => 35
  | KExecutionCancelled => 36 | KRetryScheduled => 40
  | KReportDelivered => 50 | KReportDeliveryFailed => 51
  | KPendingReplaced => 60 | KBackpressureApplied => 61
  end.

Definition all_event_kinds : list JobEventKind :=
  [ KUnspecified; KSchedulerStarted; KSchedulerConfigUpdated; KSchedulerStopping;
    KSchedulerStopped; KSchedulerFailed; KJobAdded; KJobUpdated; KJobDisabled; KJobDeleted;
    KTriggerScheduled; KTriggerSkipped; KExecutionQueued; KExecutionStarted;
    KExecutionSucceeded; KExecutionFailed; KExecutionTimedOut; KExecutionPanicked;
    KExecutionCancelled; KRetryScheduled; KReportDelivered; KReportDeliveryFailed;
    KPendingReplaced; KBackpressureApplied ].

Definition event_kind_of_code (code : Z) : option JobEventKind :=
  head (filter (λ k, event_kind_code k = code) all_event_kinds).

Lemma event_kind_of_to k : event_kind_of_code (event_kind_code k) = Some k.
Proof. by destruct k. Qed.

Record JobEvent : Type := mkJobEvent {
  je_sequence : Z;
  je_emitted_at : option Timestamp;
  je_kind : Z;
  je_job_id : bytes;
  je_revision : Z;
  je_run_id : bytes;
  je_attempt : Z;
  je_scheduled_at : option Timestamp;
  je_run_at : option Timestamp;
  je_duration_ms : Z;
  je_message : string;
  je_will_retry : bool;
  je_pending_count : Z;
  je_instance_id : bytes;
}.
