(* ===== verification/Outbox.v ===== *)
(** * The Agent's outboxes

    [crates/smalux-agent/src/outbox.rs]: [TaskReportOutbox], [JobEventOutbox] and
    [JobResultOutbox] are one algorithm on three message types, two of which also
    publish their counters in a shared statistics cell
    ([crates/smalux-agent/src/management/protocol.rs]).  [drain_outboxes] of
    [main.rs] flushes the three of them when the process stops.

    The client is an environment: the [n]-th send of the process is answered by
    [answer n], and a message whose send was answered [Ok] is on the wire. *)

From stdpp Require Import base gmap strings list.
From S2P Require Import Prelude StLogic Rotation Credential.

(** [JobEventBufferStats]/[JobResultBufferStats]: two atomics, [update] stores
    both. *)
Record BufferStats : Type := mkBufferStats {
  st_pending : Z;
  st_dropped : Z;
}.

Definition stats_update (pending dropped : Z) (_ : BufferStats) : BufferStats :=
  mkBufferStats pending dropped.

(** [JobResultBufferStats::snapshot]. *)
Definition stats_snapshot (s : BufferStats) : Z * Z := (st_pending s, st_dropped s).

(** The three outboxes; [ob_stats] is [None] for [TaskReportOutbox], which has no
    statistics cell. *)
Record Outbox (A : Type) : Type := mkOutbox {
  ob_pending : list A;
  ob_capacity : Z;
  ob_dropped : Z;
  ob_stats : option BufferStats;
}.
Arguments mkOutbox {A} _ _ _ _.
Arguments ob_pending {A} _.
Arguments ob_capacity {A} _.
Arguments ob_dropped {A} _.
Arguments ob_stats {A} _.

(** The outbox, the number of sends made so far and what reached the session. *)
Record Port (A : Type) : Type := mkPort {
  pt_outbox : Outbox A;
  pt_calls : nat;
  pt_wire : list A;
}.
Arguments mkPort {A} _ _ _.
Arguments pt_outbox {A} _.
Arguments pt_calls {A} _.
Arguments pt_wire {A} _.

Section Outbox.
Context {A : Type}.

(** [new]; the error is the text of [anyhow::ensure!]. *)
Definition outbox_new (message : string) (capacity : Z) (stats : option BufferStats) :
    result string (Outbox A) :=
  if bool_decide (0 < capacity) then Ok (mkOutbox [] capacity 0 stats) else Err message.

Definition is_empty (o : Outbox A) : bool := bool_decide (ob_pending o = []).
Definition pending_len (o : Outbox A) : Z := zlen (ob_pending o).
Definition dropped_count (o : Outbox A) : Z := ob_dropped o.

(** [self.stats.update(self.pending.len(), self.dropped)]. *)
Definition publish (o : Outbox A) : Outbox A :=
  mkOutbox (ob_pending o) (ob_capacity o) (ob_dropped o)
    (stats_update (pending_len o) (ob_dropped o) <$> ob_stats o).

(** [push]: a full queue loses its oldest message, which is counted. *)
Definition push (item : A) (o : Outbox A) : Outbox A :=
  let o :=
    if bool_decide (pending_len o = ob_capacity o)
    then mkOutbox (tail (ob_pending o)) (ob_capacity o)
           (saturating_add u64_max (ob_dropped o) 1) (ob_stats o)
    else o in
  publish (mkOutbox (ob_pending o ++ [item]) (ob_capacity o) (ob_dropped o) (ob_stats o)).

(** [pop_front] after a successful send. *)
Definition pop_sent (o : Outbox A) : Outbox A :=
  publish (mkOutbox (tail (ob_pending o)) (ob_capacity o) (ob_dropped o) (ob_stats o)).

Definition set_outbox (o : Outbox A) (p : Port A) : Port A := mkPort o (pt_calls p) (pt_wire p).

Context (answer : nat → result SmaluxClientError unit).

(** [client.send_*(item).await]. *)
Definition send (item : A) : ST (Port A) (result SmaluxClientError unit) := λ p,
  let r := answer (pt_calls p) in
  Some (r, mkPort (pt_outbox p) (S (pt_calls p))
             (if is_ok r then pt_wire p ++ [item] else pt_wire p)).

(** [submit]/[submit_with]. *)
Definition submit (item : A) : ST (Port A) (result SmaluxClientError unit) :=
  p ← st_get;
  if negb (is_empty (pt_outbox p))
  then st_modify (λ p, set_outbox (push item (pt_outbox p)) p) ;; mret (Ok tt)
  else
    r ← send item;
    match r with
    | Ok _ => mret (Ok tt)
    | Err error =>
        if is_retryable error
        then st_modify (λ p, set_outbox (push item (pt_outbox p)) p) ;; mret (Ok tt)
        else mret (Err error)
    end.

(** The [while let Some(item) = self.pending.front()] loop of [flush]; [None] is
    a loop that has not ended after [fuel] rounds. *)
Fixpoint flush_loop (fuel : nat) (p : Port A) :
    option (result SmaluxClientError unit * Port A) :=
  match ob_pending (pt_outbox p) with
  | [] => Some (Ok tt, p)
  | item :: _ =>
      match fuel with
      | O => None
      | S fuel =>
          match send item p with
          | Some (Ok _, p) => flush_loop fuel (set_outbox (pop_sent (pt_outbox p)) p)
          | Some (Err error, p) => Some (if is_retryable error then Ok tt else Err error, p)
          | None => None
          end
      end
  end.

(** [flush]/[flush_with]: no round leaves the queue as long as it was, so its
    length is fuel enough ([flush_terminates]). *)
Definition flush : ST (Port A) (result SmaluxClientError unit) := λ p,
  flush_loop (length (ob_pending (pt_outbox p))) p.

End Outbox.

(** ** The process at shutdown *)

(** The three outboxes share the client, hence the numbering of the sends. *)
Record Outboxes (R T E : Type) : Type := mkOutboxes {
  job_results : Outbox R;
  task_reports : Outbox T;
  job_events : Outbox E;
  sent_results : list R;
  sent_reports : list T;
  sent_events : list E;
  ox_calls : nat;
}.
Arguments mkOutboxes {R T E} _ _ _ _ _ _ _.
Arguments job_results {R T E} _.
Arguments task_reports {R T E} _.
Arguments job_events {R T E} _.
Arguments sent_results {R T E} _.
Arguments sent_reports {R T E} _.
Arguments sent_events {R T E} _.
Arguments ox_calls {R T E} _.

Section Drain.
Context {R T E : Type} (answer : nat → result SmaluxClientError unit).

Definition on_results (m : ST (Port R) (result SmaluxClientError unit)) :
    ST (Outboxes R T E) (result SmaluxClientError unit) := λ w,
  match m (mkPort (job_results w) (ox_calls w) (sent_results w)) with
  | Some (r, p) =>
      Some (r, mkOutboxes (pt_outbox p) (task_reports w) (job_events w) (pt_wire p)
                 (sent_reports w) (sent_events w) (pt_calls p))
  | None => None
  end.

Definition on_reports (m : ST (Port T) (result SmaluxClientError unit)) :
    ST (Outboxes R T E) (result SmaluxClientError unit) := λ w,
  match m (mkPort (task_reports w) (ox_calls w) (sent_reports w)) with
  | Some (r, p) =>
      Some (r, mkOutboxes (job_results w) (pt_outbox p) (job_events w) (sent_results w)
                 (pt_wire p) (sent_events w) (pt_calls p))
  | None => None
  end.

Definition on_events (m : ST (Port E) (result SmaluxClientError unit)) :
    ST (Outboxes R T E) (result SmaluxClientError unit) := λ w,
  match m (mkPort (job_events w) (ox_calls w) (sent_events w)) with
  | Some (r, p) =>
      Some (r, mkOutboxes (job_results w) (task_reports w) (pt_outbox p) (sent_results w)
                 (sent_reports w) (pt_wire p) (pt_calls p))
  | None => None
  end.

(** One round of the [loop] of [drain_outboxes]: [Ok true] is its [return]. *)
Definition drain_round : ST (Outboxes R T E) (result SmaluxClientError bool) :=
  _ ?← on_results (flush answer);
  results_empty ← st_gets (λ w, is_empty (job_results w));
  _ ?← on_reports (flush answer);
  reports_empty ← st_gets (λ w, is_empty (task_reports w));
  _ ?← on_events (flush answer);
  events_empty ← st_gets (λ w, is_empty (job_events w));
  mret (Ok (results_empty && reports_empty && events_empty)).

(** How [drain_outboxes] ends: the loop returned, it failed, or the timeout fired
    after [rounds] rounds, with what is then still queued and lost. *)
Inductive DrainOutcome : Type :=
| Drained
| DrainFailed (error : SmaluxClientError)
| DrainTimedOut (pending dropped : Z * Z * Z).

(** [drain_outboxes]; [rounds] is how many rounds fit in the timeout. *)
Fixpoint drain_outboxes (rounds : nat) : ST (Outboxes R T E) DrainOutcome :=
  match rounds with
  | O =>
      w ← st_get;
      mret (DrainTimedOut
              (pending_len (job_results w), pending_len (task_reports w),
               pending_len (job_events w))
              (dropped_count (job_results w), dropped_count (task_reports w),
               dropped_count (job_events w)))
  | S rounds =>
      r ← drain_round;
      match r with
      | Err error => mret (DrainFailed error)
      | Ok true => mret Drained
      | Ok false => drain_outboxes rounds
      end
  end.

End Drain.

(** ** One outbox *)

Section Properties.
Context {A : Type}.
Implicit Types (o : Outbox A) (p : Port A).

(** The shape [new] establishes: a positive capacity the queue never exceeds, a
    [u64] counter, published statistics that agree with the queue. *)
Definition outbox_wf o : Prop :=
  0 < ob_capacity o ∧ pending_len o ≤ ob_capacity o ∧ in_u64 (ob_dropped o) ∧
  match ob_stats o with
  | Some s => stats_snapshot s = (pending_len o, ob_dropped o)
  | None => True
  end.

Lemma publish_wf o :
  0 < ob_capacity o → pending_len o ≤ ob_capacity o → in_u64 (ob_dropped o) →
  outbox_wf (publish o).
Proof. intros ???. split_and!; [done..|]. by destruct o as [? ? ? [s|]]. Qed.

Lemma zlen_tail (l : list A) : zlen (tail l) ≤ zlen l.
Proof. unfold zlen. destruct l; cbn; lia. Qed.

Lemma zlen_snoc (l : list A) a : zlen (l ++ [a]) = zlen l + 1.
Proof. unfold zlen. rewrite length_app. cbn. lia. Qed.

Lemma push_wf item o : outbox_wf o → outbox_wf (push item o).
Proof.
  intros (Hc & Hl & [Hd0 Hd1] & _). unfold push. cbv zeta. apply publish_wf; cbn.
  - by case_bool_decide.
  - unfold pending_len in *. cbn. rewrite zlen_snoc. case_bool_decide; cbn; [|lia].
    unfold zlen in *. destruct (ob_pending o); cbn in *; lia.
  - unfold in_u64, saturating_add in *. case_bool_decide; cbn; [|lia]. unfold u64_max in *. lia.
Qed.

Lemma pop_sent_wf o : outbox_wf o → outbox_wf (pop_sent o).
Proof.
  intros (Hc & Hl & Hd & _). apply publish_wf; cbn; [done| |done].
  unfold pending_len in *; cbn. pose proof (zlen_tail (ob_pending o)). lia.
Qed.

Context (answer : nat → result SmaluxClientError unit).

(** What a flush did: it sent the first [n] messages in order and stopped, either
    because the queue is empty or because send [pt_calls p + n] failed. *)
Definition flushed (n : nat) (r : result SmaluxClientError unit) p p' : Prop :=
  (n ≤ length (ob_pending (pt_outbox p)))%nat ∧
  ob_pending (pt_outbox p') = drop n (ob_pending (pt_outbox p)) ∧
  pt_wire p' = pt_wire p ++ take n (ob_pending (pt_outbox p)) ∧
  ob_dropped (pt_outbox p') = ob_dropped (pt_outbox p) ∧
  ob_capacity (pt_outbox p') = ob_capacity (pt_outbox p) ∧
  (∀ i, (i < n)%nat → answer (pt_calls p + i)%nat = Ok tt) ∧
  (n = length (ob_pending (pt_outbox p)) ∧ r = Ok tt ∧ pt_calls p' = (pt_calls p + n)%nat ∨
   ∃ error, answer (pt_calls p + n)%nat = Err error ∧ pt_calls p' = (pt_calls p + S n)%nat ∧
     (n < length (ob_pending (pt_outbox p)))%nat ∧
     r = (if is_retryable error then Ok tt else Err error)).

Lemma flush_loop_spec fuel p :
  (length (ob_pending (pt_outbox p)) ≤ fuel)%nat →
  ∃ n r p', flush_loop answer fuel p = Some (r, p') ∧ flushed n r p p'.
Proof.
  revert p. induction fuel as [|fuel IH]; intros [o calls wire] Hf; cbn in *;
    destruct (ob_pending o) as [|item rest] eqn:Hp; cbn in *; try lia.
  1, 2: by exists 0%nat, (Ok tt), (mkPort o calls wire); split; [done|];
    unfold flushed; cbn; rewrite Hp, app_nil_r, Nat.add_0_r;
    split_and!; [lia|done..|intros; lia|left; done].
  destruct (answer calls) as [[]|error] eqn:Ha; cbn.
  - destruct (IH (set_outbox (pop_sent o) (mkPort o (S calls) (wire ++ [item]))))
      as (n & r & p' & Hloop & Hn & Hpe & Hw & Hd & Hcap & Hok & Hend); cbn in *; rewrite ?Hp in *;
      cbn in *; [lia|].
    exists (S n), r, p'. split; [done|]. unfold flushed; cbn; rewrite Hp; cbn.
    split_and!; try done; [lia|by rewrite Hw, <-app_assoc| |].
    + intros [|i] Hi; [by rewrite Nat.add_0_r|]. rewrite <-(Hok i) by lia. f_equal. lia.
    + destruct Hend as [(-> & -> & ->)|(e & He & -> & Hlt & ->)]; [left|right].
      * split_and!; [done..|lia].
      * exists e. split_and!; [rewrite <-He; f_equal; lia|lia..|done].
  - exists 0%nat, (if is_retryable error then Ok tt else Err error), (mkPort o (S calls) wire).
    split; [done|]. unfold flushed; cbn; rewrite Hp, app_nil_r, Nat.add_0_r; cbn.
    split_and!; [lia|done..|intros; lia|]. right. exists error. split_and!; [done|lia..|done].
Qed.

Lemma flush_spec p : ∃ n r p', flush answer p = Some (r, p') ∧ flushed n r p p'.
Proof. by apply flush_loop_spec. Qed.

Lemma flush_loop_wf fuel p r p' :
  outbox_wf (pt_outbox p) → flush_loop answer fuel p = Some (r, p') → outbox_wf (pt_outbox p').
Proof.
  revert p. induction fuel as [|fuel IH]; intros [o calls wire] Hwf; cbn in *;
    destruct (ob_pending o) as [|item rest] eqn:Hp; [naive_solver..|].
  destruct (answer calls) as [[]|error]; [|naive_solver].
  intros Hl. eapply IH; [|exact Hl]. by apply pop_sent_wf.
Qed.

(** ** Histories of one outbox *)

(** The calls the Agent makes on an outbox. *)
Inductive OutboxOp : Type :=
| OpSubmit (item : A)
| OpFlush.

(** The messages the outbox took over: those whose [submit] returned [Ok]. *)
Definition outbox_op (op : OutboxOp) (accepted : list A) : ST (Port A) (list A) :=
  match op with
  | OpSubmit item =>
      r ← submit answer item;
      mret (if is_ok r then accepted ++ [item] else accepted)
  | OpFlush => _ ← flush answer; mret accepted
  end.

Fixpoint outbox_run (ops : list OutboxOp) (accepted : list A) : ST (Port A) (list A) :=
  match ops with
  | [] => mret accepted
  | op :: ops => accepted ← outbox_op op accepted; outbox_run ops accepted
  end.

(** The specification: a lossy FIFO queue.  What was accepted is what left the
    queue followed by what is still in it, in order; the messages that reached the
    wire are, in order, those that left it less the [dropped] ones. *)
Definition lossy_fifo (accepted : list A) p : Prop :=
  ∃ left, accepted = left ++ ob_pending (pt_outbox p) ∧ sublist (pt_wire p) left ∧
    ob_dropped (pt_outbox p) = Z.min u64_max (zlen left - zlen (pt_wire p)).

Lemma lossy_fifo_sent accepted o calls calls' wire item :
  ob_pending o = [] → lossy_fifo accepted (mkPort o calls wire) →
  lossy_fifo (accepted ++ [item]) (mkPort o calls' (wire ++ [item])).
Proof.
  intros Hp (left & -> & Hs & Hd). cbn in *. rewrite Hp, app_nil_r. exists (left ++ [item]). cbn.
  rewrite Hp, app_nil_r, !zlen_snoc. split_and!; [done| |rewrite Hd; f_equal; lia].
  by apply sublist_app.
Qed.

Lemma lossy_fifo_push accepted o calls calls' wire item :
  0 < ob_capacity o → lossy_fifo accepted (mkPort o calls wire) →
  lossy_fifo (accepted ++ [item]) (mkPort (push item o) calls' wire).
Proof.
  intros Hcap (left & -> & Hs & Hd). unfold lossy_fifo, push; cbn in *. case_bool_decide as Hfull; cbn.
  - destruct (ob_pending o) as [|x rest] eqn:Hp; cbn.
    { unfold pending_len, zlen in Hfull. rewrite Hp in Hfull. cbn in Hfull. lia. }
    exists (left ++ [x]). rewrite <-!app_assoc. split_and!; [done|by apply sublist_inserts_r|].
    rewrite zlen_snoc, Hd. unfold saturating_add. apply sublist_length in Hs.
    unfold zlen in *. unfold u64_max in *. lia.
  - exists left. by rewrite <-!app_assoc.
Qed.

Lemma lossy_fifo_flushed accepted n r p p' :
  lossy_fifo accepted p → flushed n r p p' → lossy_fifo accepted p'.
Proof.
  intros (left & -> & Hs & Hd) (Hn & Hp & Hw & Hd' & _ & _). unfold lossy_fifo.
  exists (left ++ take n (ob_pending (pt_outbox p))). rewrite Hp, Hw, Hd', Hd.
  rewrite <-app_assoc, take_drop. split_and!; [done|by apply sublist_app|].
  f_equal. unfold zlen. rewrite !length_app. lia.
Qed.

Lemma submit_spec item p :
  outbox_wf (pt_outbox p) →
  ∃ r p', submit answer item p = Some (r, p') ∧ outbox_wf (pt_outbox p') ∧
    (∀ accepted, lossy_fifo accepted p →
       lossy_fifo (if is_ok r then accepted ++ [item] else accepted) p').
Proof.
  destruct p as [o calls wire]; intros Hwf. cbn in *. pose proof Hwf as (Hcap & _).
  unfold submit. cbv [mbind st_bind st_get mret st_ret]. unfold is_empty. cbn.
  case_bool_decide as Hp; cbn.
  - destruct (answer calls) as [[]|error]; cbn; [|destruct (is_retryable error)]; cbn;
      eexists _, _; (split; [done|]); split; cbn; eauto using push_wf, lossy_fifo_sent, lossy_fifo_push.
  - eexists _, _; (split; [done|]); split; cbn; eauto using push_wf, lossy_fifo_push.
Qed.

Lemma outbox_op_spec op accepted p :
  outbox_wf (pt_outbox p) → lossy_fifo accepted p →
  ∃ accepted' p', outbox_op op accepted p = Some (accepted', p') ∧
    outbox_wf (pt_outbox p') ∧ lossy_fifo accepted' p'.
Proof.
  intros Hwf Hq. destruct op as [item|]; cbn; cbv [mbind st_bind mret st_ret].
  - destruct (submit_spec item p Hwf) as (r & p' & -> & ? & ?). eauto 6.
  - destruct (flush_spec p) as (n & r & p' & Hf & ?). rewrite Hf.
    exists accepted, p'. split_and!; [done| |by eapply lossy_fifo_flushed].
    by eapply flush_loop_wf.
Qed.

Lemma outbox_run_spec ops accepted p :
  outbox_wf (pt_outbox p) → lossy_fifo accepted p →
  ∃ accepted' p', outbox_run ops accepted p = Some (accepted', p') ∧
    outbox_wf (pt_outbox p') ∧ lossy_fifo accepted' p'.
Proof.
  revert accepted p. induction ops as [|op ops IH]; intros accepted p Hwf Hq; cbn.
  { eauto. }
  cbv [mbind st_bind]. destruct (outbox_op_spec op accepted p Hwf Hq) as (a & p1 & -> & ? & ?). auto.
Qed.

End Properties.

Lemma outbox_new_wf {A} message capacity stats (o : Outbox A) :
  outbox_new message capacity stats = Ok o →
  (∀ s, stats = Some s → stats_snapshot s = (0, 0)) →
  outbox_wf o ∧ lossy_fifo [] (mkPort o 0 []).
Proof.
  unfold outbox_new. case_bool_decide as Hc; intros [= <-] Hs. split.
  - unfold outbox_wf; cbn. split_and!; [done|unfold pending_len, zlen; cbn; lia| |].
    + unfold in_u64, u64_max. lia.
    + destruct stats as [s|]; [|done]. by rewrite (Hs s).
  - exists []. done.
Qed.

(** C17. Whatever the session answers, and in whatever order the Agent submits and
    flushes, every call returns and the outbox behaves as a lossy FIFO queue: the
    messages it accepted are, in order, those that left it followed by those still
    queued; the messages on the wire are in order among those that left, and the
    published counter is the number of the missing ones (up to the width of the
    counter); the queue never exceeds its capacity and the statistics agree with
    it. *)
Theorem outbox_refines_lossy_fifo {A} (answer : nat → result SmaluxClientError unit)
    message capacity stats (o : Outbox A) ops :
  outbox_new message capacity stats = Ok o →
  (∀ s, stats = Some s → stats_snapshot s = (0, 0)) →
  ∃ accepted p, outbox_run answer ops [] (mkPort o 0 []) = Some (accepted, p) ∧
    outbox_wf (pt_outbox p) ∧ lossy_fifo accepted p.
Proof.
  intros Hnew Hs. destruct (outbox_new_wf _ _ _ _ Hnew Hs). by apply outbox_run_spec.
Qed.

(** A session that refuses the first three sends as unreachable. *)
Definition demo_answer (n : nat) : result SmaluxClientError unit :=
  if bool_decide (n < 3)%nat then Err CTemporarilyUnavailable else Ok tt.

Definition demo_ops : list (OutboxOp (A := Z)) :=
  [OpSubmit 1; OpSubmit 2; OpSubmit 3; OpFlush; OpFlush; OpFlush; OpSubmit 4].

Lemma outbox_refines_lossy_fifo_witness :
  ∃ accepted p,
    outbox_run demo_answer demo_ops [] (mkPort (mkOutbox [] 2 0 (Some (mkBufferStats 0 0))) 0 []) =
      Some (accepted, p) ∧ outbox_wf (pt_outbox p) ∧ lossy_fifo accepted p.
Proof.
  apply (outbox_refines_lossy_fifo demo_answer "" 2 (Some (mkBufferStats 0 0))); [done|].
  intros s [= <-]. done.
Defined.

Example demo_outbox_run :
  outbox_run demo_answer demo_ops [] (mkPort (mkOutbox [] 2 0 (Some (mkBufferStats 0 0))) 0 []) =
  Some ([1; 2; 3; 4], mkPort (mkOutbox [] 2 1 (Some (mkBufferStats 0 1))) 6 [2; 3; 4]).
Proof. vm_compute. reflexivity. Qed.

(** [flush] always terminates: from any state it returns, having sent a prefix
    of the queue in order and kept the rest; it stops early only at a send that
    failed, and its error is that of a send that may not be retried. *)
Theorem flush_terminates {A} (answer : nat → result SmaluxClientError unit) (p : Port A) :
  ∃ n r p', flush answer p = Some (r, p') ∧ flushed answer n r p p'.
Proof. apply flush_spec. Qed.

(** ** The drain at shutdown *)

Section DrainProperties.
Context {R T E : Type} (answer : nat → result SmaluxClientError unit).
Implicit Types (w : Outboxes R T E).

(** The messages of each kind, sent or still queued, in order. *)
Definition all_results w := sent_results w ++ ob_pending (job_results w).
Definition all_reports w := sent_reports w ++ ob_pending (task_reports w).
Definition all_events w := sent_events w ++ ob_pending (job_events w).

Definition all_kept w w' : Prop :=
  all_results w' = all_results w ∧ all_reports w' = all_reports w ∧ all_events w' = all_events w.

(** Errors are all of the kind a reconnection cures, and there are none from send
    [n] on. *)
Definition recovers_at (n : nat) : Prop :=
  ∀ i, match answer i with Ok _ => True | Err e => is_retryable e = true ∧ (i < n)%nat end.

Lemma flush_recovers {A} n (p : Port A) :
  recovers_at n →
  ∃ p', flush answer p = Some (Ok tt, p') ∧
    pt_wire p' ++ ob_pending (pt_outbox p') = pt_wire p ++ ob_pending (pt_outbox p) ∧
    (ob_pending (pt_outbox p') = [] ∧ (pt_calls p ≤ pt_calls p')%nat ∨
     (pt_calls p < n)%nat ∧ (pt_calls p < pt_calls p')%nat).
Proof.
  intros Hrec. destruct (flush_spec answer p) as (k & r & p' & Hf & Hk & Hp & Hw & _ & _ & _ & Hend).
  assert (Hkeep : pt_wire p' ++ ob_pending (pt_outbox p') = pt_wire p ++ ob_pending (pt_outbox p))
    by (rewrite Hp, Hw, <-app_assoc, take_drop; done).
  destruct Hend as [(-> & -> & Hc)|(e & He & Hc & Hlt & ->)]; exists p'.
  - split_and!; [done..|left]. rewrite Hp, drop_all. split; [done|lia].
  - pose proof (Hrec (pt_calls p + k)%nat) as Hi. rewrite He in Hi. destruct Hi as [Hr Hi].
    rewrite Hr in Hf. split_and!; [done..|right]. lia.
Qed.

(** One round: it ends with every queue empty, or it used up at least one of the
    sends before [n]. *)
Lemma drain_round_recovers n w :
  recovers_at n →
  ∃ b w', drain_round answer w = Some (Ok b, w') ∧ all_kept w w' ∧
    (b = true ∧ ob_pending (job_results w') = [] ∧
       ob_pending (task_reports w') = [] ∧ ob_pending (job_events w') = [] ∨
     b = false ∧ (ox_calls w < n)%nat ∧ (ox_calls w < ox_calls w')%nat).
Proof.
  intros Hrec. unfold drain_round, st_try, on_results, on_reports, on_events.
  cbv [mbind st_bind mret st_ret st_gets].
  destruct (flush_recovers n (mkPort (job_results w) (ox_calls w) (sent_results w)) Hrec)
    as (p1 & -> & Hk1 & H1); cbn in *.
  destruct (flush_recovers n (mkPort (task_reports w) (pt_calls p1) (sent_reports w)) Hrec)
    as (p2 & -> & Hk2 & H2); cbn in *.
  destruct (flush_recovers n (mkPort (job_events w) (pt_calls p2) (sent_events w)) Hrec)
    as (p3 & -> & Hk3 & H3); cbn in *.
  eexists _, _. split; [done|]. split; [done|]. cbn. unfold is_empty.
  repeat case_bool_decide; cbn; [left; done|right..]; split_and!; try done; destruct_or!; naive_solver lia.
Qed.

Lemma drain_outboxes_recovers n rounds w :
  recovers_at n → (n - ox_calls w < rounds)%nat →
  ∃ w', drain_outboxes answer rounds w = Some (Drained, w') ∧ all_kept w w' ∧
    ob_pending (job_results w') = [] ∧ ob_pending (task_reports w') = [] ∧
    ob_pending (job_events w') = [].
Proof.
  intros Hrec. revert w. induction rounds as [|rounds IH]; intros w Hr; [lia|]. cbn.
  cbv [mbind st_bind mret st_ret].
  destruct (drain_round_recovers n w Hrec)
    as (b & w1 & -> & Hk & [(-> & ? & ? & ?)|(-> & Hlt & Hcalls)]).
  - exists w1. done.
  - destruct (IH w1) as (w' & -> & (Hk1 & Hk2 & Hk3) & ?); [lia|]. exists w'.
    destruct Hk as (? & ? & ?). split_and!; unfold all_kept; naive_solver congruence.
Qed.

End DrainProperties.

(** The drain at shutdown delivers everything: if sends fail only with errors a
    reconnection cures, and no longer fail from send [n] on, then a timeout that
    leaves room for more rounds than failing sends ends with the three queues
    empty and every queued message on the wire, after those already sent and in
    the order it was queued. *)
Theorem drain_delivers_all {R T E} (answer : nat → result SmaluxClientError unit)
    n rounds (w : Outboxes R T E) :
  recovers_at answer n → (n - ox_calls w < rounds)%nat →
  ∃ w', drain_outboxes answer rounds w = Some (Drained, w') ∧
    sent_results w' = sent_results w ++ ob_pending (job_results w) ∧
    sent_reports w' = sent_reports w ++ ob_pending (task_reports w) ∧
    sent_events w' = sent_events w ++ ob_pending (job_events w).
Proof.
  intros Hrec Hr.
  destruct (drain_outboxes_recovers answer n rounds w Hrec Hr)
    as (w' & Hd & (H1 & H2 & H3) & E1 & E2 & E3).
  exists w'. unfold all_results, all_reports, all_events in *.
  rewrite E1, app_nil_r in H1. rewrite E2, app_nil_r in H2. rewrite E3, app_nil_r in H3. done.
Qed.

Definition demo_outboxes : Outboxes Z Z Z :=
  mkOutboxes (mkOutbox [1; 2] 4 0 None) (mkOutbox [3] 4 0 None) (mkOutbox [4; 5] 4 1 None)
    [] [] [] 0.

Lemma demo_answer_recovers : recovers_at demo_answer 3.
Proof. intros i. unfold demo_answer. case_bool_decide; cbn; [split; [done|lia]|done]. Qed.

Lemma drain_delivers_all_witness :
  ∃ w', drain_outboxes demo_answer 4 demo_outboxes = Some (Drained, w') ∧
    sent_results w' = [1; 2] ∧ sent_reports w' = [3] ∧ sent_events w' = [4; 5].
Proof.
  apply (drain_delivers_all demo_answer 3 4 demo_outboxes); [apply demo_answer_recovers|].
  vm_compute. lia.
Defined.
