(* ===== verification/Catalog.v ===== *)
(** * The Server's job catalogs

    [crates/smalux-server/src/database/agent_job.rs] and
    [database/web_job_operations.rs]: the authoritative list of remote jobs of each
    Agent, the history of their revisions and the records of the catalog changes
    made through the web API.

    A table is a map from the primary key.  The text keys of the code
    ([agent:job], [agent:job:revision]) are the tuples they are formatted from: the
    parts after the Agent id have no colon, so the text determines the tuple.
    Transactions run at the isolation of [READ COMMITTED]: [other] is what other
    processes commit after the transaction has read the catalog row and before it
    writes. *)

From stdpp Require Import base gmap strings list sorting.
From S2P Require Import Prelude StLogic Rotation SchedModel Proto.

(** ** Tables *)

(** [agent_job_catalog::Model], [agent_job::Model] and [agent_job_version::Model]. *)
Record CatalogRow : Type := mkCatalogRow {
  cat_revision : Z;
  cat_updated_at : Z;
}.

Record AgentJobRow : Type := mkAgentJobRow {
  aj_revision : Z;
  aj_enabled : bool;
  aj_task_kind : string;
  aj_definition : bytes;
  aj_created_at : Z;
  aj_updated_at : Z;
}.

Record JobVersionRow : Type := mkJobVersionRow {
  jv_task_kind : string;
  jv_definition : bytes;
  jv_created_at : Z;
}.

(** The states of [web_job_operation::Model]. *)
Inductive WebOperationState : Type :=
| OpPending | OpWaitingAgent | OpSent | OpApplied | OpBlocked | OpRejected | OpSuperseded
| OpUnknown.

Global Instance WebOperationState_eq_dec : EqDecision WebOperationState.
Proof. solve_decision. Defined.

(** [web_job_operation::Model], by [operation_id]; [command_id] is the UUID whose text
    the column holds. *)
Record WebOperation : Type := mkWebOperation {
  wo_actor_user_id : string;
  wo_method : string;
  wo_client_mutation_id : string;
  wo_request_hash : string;
  wo_agent_id : string;
  wo_target_job_id : option string;
  wo_action_kind : string;
  wo_expected_revision : Z;
  wo_target_revision : Z;
  wo_desired_digest : bytes;
  wo_command_id : option Uuid;
  wo_state : WebOperationState;
  wo_reason : option string;
  wo_response_json : string;
  wo_created_at : Z;
  wo_updated_at : Z;
  wo_sent_at : option Z;
  wo_completed_at : option Z;
}.

(** The columns of an operation that change after it was inserted. *)
Definition op_update (command_id : option Uuid) (state : WebOperationState) (reason : option string)
    (updated_at : Z) (sent_at completed_at : option Z) (op : WebOperation) : WebOperation :=
  mkWebOperation (wo_actor_user_id op) (wo_method op) (wo_client_mutation_id op)
    (wo_request_hash op) (wo_agent_id op) (wo_target_job_id op) (wo_action_kind op)
    (wo_expected_revision op) (wo_target_revision op) (wo_desired_digest op)
    command_id state reason (wo_response_json op) (wo_created_at op) updated_at sent_at completed_at.

(** [job_command::Model], by [command_id]. *)
Record JobCommandRow : Type := mkJobCommandRow {
  cr_agent_id : string;
  cr_catalog_revision : Z;
  cr_command_payload : bytes;
  cr_result_status : option Z;
  cr_result_payload : option bytes;
  cr_created_at : Z;
  cr_completed_at : option Z;
}.

Record JobTables : Type := mkJobTables {
  tb_catalogs : gmap string CatalogRow;
  tb_jobs : gmap (string * bytes) AgentJobRow;
  tb_versions : gmap (string * bytes * Z) JobVersionRow;
  tb_operations : gmap string WebOperation;
  tb_commands : gmap Z JobCommandRow;
}.

Definition set_catalogs f (t : JobTables) :=
  mkJobTables (f (tb_catalogs t)) (tb_jobs t) (tb_versions t) (tb_operations t) (tb_commands t).
Definition set_jobs f (t : JobTables) :=
  mkJobTables (tb_catalogs t) (f (tb_jobs t)) (tb_versions t) (tb_operations t) (tb_commands t).
Definition set_versions f (t : JobTables) :=
  mkJobTables (tb_catalogs t) (tb_jobs t) (f (tb_versions t)) (tb_operations t) (tb_commands t).
Definition set_operations f (t : JobTables) :=
  mkJobTables (tb_catalogs t) (tb_jobs t) (tb_versions t) (f (tb_operations t)) (tb_commands t).
Definition set_commands f (t : JobTables) :=
  mkJobTables (tb_catalogs t) (tb_jobs t) (tb_versions t) (tb_operations t) (f (tb_commands t)).

(** What a replacement of the catalog leaves to the caller. *)
Definition tb_records (t : JobTables) := (tb_operations t, tb_commands t).

(** The cases of [DatabaseError] met here. *)
Inductive JobDbError : Type :=
| SeaOrm (message : string)
| ClockError
| InvalidJobCatalog (message : string)
| WebJobIdempotencyConflict
| CatalogRevisionConflict (expected actual : Z)
| InvalidTaskReport (message : string)
| InvalidJobCommand (message : string)
| InvalidJobEvent (message : string)
| InvalidAgentRegistration (message : string).

(** [prost]'s encoding of a definition, with the round trip it documents, and the text
    of a job key. *)
Class DefinitionCodec : Type := {
  job_key_text : string → bytes → string;
  encode_definition : JobDefinition → bytes;
  decode_definition : bytes → result string JobDefinition;
}.

Class DefinitionCodecLaws (D : DefinitionCodec) : Prop :=
  decode_encode_definition d : decode_definition (encode_definition d) = Ok d.

Lemma NoDup_fmap_elem_inj {A B} (f : A → B) (l : list A) x y :
  NoDup (f <$> l) → x ∈ l → y ∈ l → f x = f y → x = y.
Proof.
  intros Hnd [i Hi]%list_elem_of_lookup [j Hj]%list_elem_of_lookup Hf.
  assert (i = j) as ->; [|congruence].
  eapply NoDup_lookup; [exact Hnd|rewrite list_lookup_fmap, Hi; done|].
  rewrite list_lookup_fmap, Hj. cbn. by rewrite Hf.
Qed.

(** ** Byte order *)

(** [Vec<u8>::cmp]: lexicographic. *)
Fixpoint bytes_leb (a b : bytes) : bool :=
  match a, b with
  | [], _ => true
  | _ :: _, [] => false
  | x :: a, y :: b => (x <? y) || ((x =? y) && bytes_leb a b)
  end.

Definition bytes_le (a b : bytes) : Prop := bytes_leb a b = true.

Global Instance bytes_le_dec : RelDecision bytes_le.
Proof. intros a b. unfold bytes_le. apply _. Defined.

Global Instance bytes_le_refl : Reflexive bytes_le.
Proof.
  intros a. unfold bytes_le. induction a as [|x a IH]; cbn; [done|].
  rewrite Z.eqb_refl, IH. by rewrite orb_true_r.
Qed.

Global Instance bytes_le_trans : Transitive bytes_le.
Proof.
  intros a b c. unfold bytes_le. revert b c.
  induction a as [|x a IH]; intros [|y b] [|z c]; cbn; try done.
  rewrite !orb_true_iff, !andb_true_iff, !Z.ltb_lt, !Z.eqb_eq.
  intros [?|[? ?]] [?|[? ?]]; [left; lia..|right; split; [lia|by eapply IH]].
Qed.

Global Instance bytes_le_total : Total bytes_le.
Proof.
  intros a. unfold bytes_le. induction a as [|x a IH]; intros [|y b]; cbn; auto.
  destruct (Z.lt_trichotomy x y) as [H|[->|H]].
  - left. apply Z.ltb_lt in H. by rewrite H.
  - rewrite Z.eqb_refl. destruct (IH b) as [->| ->]; rewrite !orb_true_r; auto.
  - right. apply Z.ltb_lt in H. by rewrite H.
Qed.

Lemma bytes_le_antisym a b : bytes_le a b → bytes_le b a → a = b.
Proof.
  unfold bytes_le. revert b. induction a as [|x a IH]; intros [|y b]; cbn; try done.
  rewrite !orb_true_iff, !andb_true_iff, !Z.ltb_lt, !Z.eqb_eq.
  intros [?|[-> ?]] [?|[? ?]]; [lia..|]. f_equal. by apply IH.
Qed.

(** Definitions ordered by their job id. *)
Definition definition_le (a b : JobDefinition) : Prop := bytes_le (jd_job_id a) (jd_job_id b).

Global Instance definition_le_dec : RelDecision definition_le.
Proof. intros a b. unfold definition_le. apply _. Defined.

(** ** Operations *)

Section Catalog.
Context `{D : DefinitionCodec}.

Notation DB := (ST JobTables).

(** [validate_agent_id]. *)
Definition validate_agent_id (agent_id : string) : result JobDbError unit :=
  if bool_decide (agent_id = "") || bool_decide (64 < String.length agent_id)%nat
  then Err (InvalidJobCatalog "Agent id is required for Job catalog") else Ok tt.

(** The stable name of each task. *)
Definition task_kind_name (task : Task) : string :=
  match task with
  | Task_System _ => "smalux.collect.system.v1"
  | Task_Cpu _ => "smalux.collect.cpu.v1"
  | Task_Memory _ => "smalux.collect.memory.v1"
  | Task_Load _ => "smalux.collect.load.v1"
  | Task_Host _ => "smalux.collect.host.v1"
  | Task_DiskIo _ => "smalux.collect.disk_io.v1"
  | Task_NetworkIo _ => "smalux.collect.network_io.v1"
  | Task_LocalIp _ => "smalux.collect.local_ip.v1"
  | Task_PublicIp _ => "smalux.collect.public_ip.v1"
  | Task_Process _ => "smalux.collect.process.v1"
  | Task_Socket _ => "smalux.collect.socket.v1"
  | Task_Probe _ => "smalux.probe.network.v1"
  | Task_Plugin config => ptc_task_kind config
  end.

(** [task_kind] of [agent_job.rs], which also checks the identity. *)
Definition catalog_task_kind (definition : JobDefinition) : result JobDbError string :=
  if bool_decide (jd_revision definition = 0)
  then Err (InvalidJobCatalog "Job revision must be greater than zero")
  else if bool_decide (length (jd_job_id definition) ≠ 16%nat)
  then Err (InvalidJobCatalog "Job id must contain 16 bytes")
  else match jd_task definition ≫= td_task with
  | None => Err (InvalidJobCatalog "Job task definition is required")
  | Some task =>
      if bool_decide (task_kind_name task = "")
      then Err (InvalidJobCatalog "Plugin Job task kind is required")
      else Ok (task_kind_name task)
  end.

(** [i64::try_from] of a [u64]. *)
Definition i64_try_from {E} (e : E) (x : Z) : result E Z :=
  if bool_decide (x ≤ i64_max) then Ok x else Err e.

(** The loop that validates the definitions. *)
Fixpoint validate_definitions (jobs : list JobDefinition) :
    result JobDbError (list (JobDefinition * string)) :=
  match jobs with
  | [] => Ok []
  | definition :: jobs =>
      kind ← catalog_task_kind definition;
      rest ← validate_definitions jobs;
      Ok ((definition, kind) :: rest)
  end.

(** [windows(2).any(..)] on the sorted list. *)
Fixpoint adjacent_equal (ids : list bytes) : bool :=
  match ids with
  | a :: (b :: _) as rest => bool_decide (a = b) || adjacent_equal rest
  | _ => false
  end.

Definition validated_le (a b : JobDefinition * string) : Prop := definition_le a.1 b.1.
Global Instance validated_le_dec : RelDecision validated_le.
Proof. intros a b. unfold validated_le. apply _. Defined.

(** The part of [replace_agent_job_catalog_in_transaction] before the first query. *)
Definition validate_catalog (agent_id : string) (jobs : list JobDefinition) :
    result JobDbError (list (JobDefinition * string)) :=
  _ ← validate_agent_id agent_id;
  validated ← validate_definitions jobs;
  let validated := merge_sort validated_le validated in
  if adjacent_equal ((λ v, jd_job_id v.1) <$> validated)
  then Err (InvalidJobCatalog "Agent Job catalog contains duplicate job ids")
  else Ok validated.

Definition catalog_revision_of (agent_id : string) (t : JobTables) : Z :=
  default 0 (cat_revision <$> tb_catalogs t !! agent_id).

(** The greatest stored revision of a job. *)
Definition latest_revision (agent_id : string) (job_id : bytes) (t : JobTables) : option Z :=
  let revisions :=
    omap (λ k : string * bytes * Z * JobVersionRow,
      if bool_decide (k.1.1 = (agent_id, job_id)) then Some k.1.2 else None)
      (map_to_list (tb_versions t)) in
  match revisions with [] => None | r :: rs => Some (foldr Z.max r rs) end.

(** The check that no job moves back to an older revision. *)
Definition check_not_backwards (agent_id : string) (v : JobDefinition * string) :
    DB (result JobDbError unit) := λ t,
  Some (match i64_try_from (InvalidJobCatalog "Job revision exceeds i64") (jd_revision v.1) with
        | Err e => Err e
        | Ok revision =>
            match latest_revision agent_id (jd_job_id v.1) t with
            | Some latest =>
                if bool_decide (revision < latest)
                then Err (InvalidJobCatalog "Job revision must not move backwards") else Ok tt
            | None => Ok tt
            end
        end, t).

(** One definition written to [agent_job_version] and [agent_job]. *)
Definition store_definition (agent_id : string) (now : Z) (v : JobDefinition * string) :
    DB (result JobDbError unit) :=
  let definition := v.1 in
  let payload := encode_definition definition in
  let version_key := (agent_id, jd_job_id definition, jd_revision definition) in
  previous_version ← st_gets (λ t, tb_versions t !! version_key);
  _ ?← match previous_version with
       | Some previous_version =>
           mret (if bool_decide (jv_task_kind previous_version ≠ v.2)
                    || bool_decide (jv_definition previous_version ≠ payload)
                 then Err (InvalidJobCatalog
                             "Job revision was previously stored with different content")
                 else Ok tt)
       | None =>
           _ ← st_modify (set_versions <[version_key := mkJobVersionRow v.2 payload now]>);
           mret (Ok tt)
       end;
  st_modify (set_jobs
    <[(agent_id, jd_job_id definition) :=
        mkAgentJobRow (jd_revision definition) (jd_enabled definition) v.2 payload now now]>) ;;
  mret (Ok tt).

Record AgentJobCatalogRecord : Type := mkCatalogRecord {
  rec_agent_id : string;
  rec_catalog : ReplaceAllJobs;
  rec_updated_at : Z;
}.

(** Claiming the new revision before anything is written: an insertion of the
    first row or a conditional update; without [expected_revision] nothing. *)
Definition claim_revision (agent_id : string) (expected : option Z) (previous : option CatalogRow)
    (revision now : Z) : DB (result JobDbError unit) :=
  match expected with
  | None => mret (Ok tt)
  | Some expected =>
      row ← st_gets (λ t, tb_catalogs t !! agent_id);
      match previous with
      | None =>
          if bool_decide (expected = 0) then
            match row with
            | Some row => mret (Err (CatalogRevisionConflict 0 (cat_revision row)))
            | None =>
                st_modify (set_catalogs <[agent_id := mkCatalogRow 1 now]>) ;; mret (Ok tt)
            end
          else mret (Ok tt)
      | Some _ =>
          if bool_decide (cat_revision <$> row = Some expected) then
            st_modify (set_catalogs <[agent_id := mkCatalogRow revision now]>) ;; mret (Ok tt)
          else mret (Err (CatalogRevisionConflict expected (default 0 (cat_revision <$> row))))
      end
  end.

(** The write of the catalog row at the end, for the path without a condition. *)
Definition finish_revision (agent_id : string) (expected : option Z) (previous : option CatalogRow)
    (revision now : Z) : DB (result JobDbError unit) :=
  match previous with
  | Some _ =>
      match expected with
      | None => st_modify (set_catalogs <[agent_id := mkCatalogRow revision now]>) ;; mret (Ok tt)
      | Some _ => mret (Ok tt)
      end
  | None =>
      if bool_decide (expected = Some 0) then mret (Ok tt)
      else
        row ← st_gets (λ t, tb_catalogs t !! agent_id);
        match row with
        | Some _ => mret (Err (SeaOrm "UNIQUE constraint failed: agent_job_catalogs.agent_id"))
        | None =>
            st_modify (set_catalogs <[agent_id := mkCatalogRow revision now]>) ;; mret (Ok tt)
        end
  end.

(** A replacement based on a revision holds the lock of the catalog row from its
    claim to its end; one without keeps others out only when it writes. *)
Definition unguarded {A} (expected : option Z) (late : A → A) : A → A :=
  match expected with Some _ => id | None => late end.

(** All that others commit while a replacement runs. *)
Definition foreign {A} (expected : option Z) (other late : A → A) (t : A) : A :=
  unguarded expected late (other t).

(** [replace_agent_job_catalog_in_transaction]; [other] is what other processes
    commit between the read of the catalog row and the claim of the revision, [late]
    what they commit between the check of the job revisions and the writes of a
    replacement that claimed nothing. *)
Definition replace_agent_job_catalog_in_transaction (other late : JobTables → JobTables)
    (clock : option Z) (agent_id : string) (jobs : list JobDefinition)
    (expected_revision : option Z) : DB (result JobDbError AgentJobCatalogRecord) :=
  validated ?← mret (validate_catalog agent_id jobs);
  now ?← mret (ok_or ClockError clock);
  expected ?← mret (match expected_revision with
                    | None => Ok None
                    | Some value =>
                        Some <$> i64_try_from (InvalidJobCatalog "expected catalog revision exceeds i64") value
                    end);
  previous ← st_gets (λ t, tb_catalogs t !! agent_id);
  let actual := default 0 (cat_revision <$> previous) in
  _ ?← mret (match expected with
             | Some expected =>
                 if bool_decide (actual = expected) then Ok tt
                 else Err (CatalogRevisionConflict expected actual)
             | None => Ok tt
             end);
  revision ?← mret (ok_or (InvalidJobCatalog "catalog revision overflow") (checked_i64 (actual + 1)));
  st_modify other ;;
  _ ?← claim_revision agent_id expected previous revision now;
  _ ?← st_for_try validated (check_not_backwards agent_id);
  st_modify (unguarded expected late) ;;
  st_modify (set_jobs (filter (λ kv : string * bytes * AgentJobRow, kv.1.1 ≠ agent_id))) ;;
  _ ?← st_for_try validated (store_definition agent_id now);
  _ ?← finish_revision agent_id expected previous revision now;
  mret (Ok (mkCatalogRecord agent_id (mkReplaceAllJobs revision validated.*1) now)).

(** A transaction that fails is rolled back; what others committed stays. *)
Definition transaction {A} (other : JobTables → JobTables) (m : DB (result JobDbError A)) :
    DB (result JobDbError A) := λ t,
  match m t with
  | Some (Ok a, t') => Some (Ok a, t')
  | Some (Err e, _) => Some (Err e, other t)
  | None => None
  end.

(** The [update_many] that supersedes the live operations of older revisions. *)
Definition live_operation (s : WebOperationState) : bool :=
  match s with
  | OpPending | OpWaitingAgent | OpSent | OpBlocked => true
  | _ => false
  end.

Definition supersede (agent_id : string) (target_revision now : Z) (op : WebOperation) :
    WebOperation :=
  if bool_decide (wo_agent_id op = agent_id) && bool_decide (wo_target_revision op < target_revision)
     && live_operation (wo_state op)
  then op_update (wo_command_id op) OpSuperseded (wo_reason op) now (wo_sent_at op) (wo_completed_at op) op
  else op.

(** [replace_agent_job_catalog_if_revision]. *)
Definition replace_agent_job_catalog_if_revision (other late : JobTables → JobTables)
    (clock : option Z) (agent_id : string) (jobs : list JobDefinition)
    (expected_revision : option Z) : DB (result JobDbError AgentJobCatalogRecord) :=
  transaction (foreign expected_revision other late) (
    record ?← replace_agent_job_catalog_in_transaction other late clock agent_id jobs expected_revision;
    target ?← mret (i64_try_from (InvalidJobCatalog "catalog revision exceeds i64")
                      (ra_catalog_revision (rec_catalog record)));
    st_modify (set_operations (fmap (supersede agent_id target (rec_updated_at record)))) ;;
    mret (Ok record)).

(** ** Reading a catalog *)

(** [AgentJobPolicySnapshot]. *)
Record AgentJobPolicySnapshot : Type := mkPolicySnapshot {
  aps_revision : Z;
  aps_deny_all : bool;
  aps_denied_task_kinds : list string;
}.

(** [PolicyFilter::denies_all_or_kind]. *)
Definition denies_all_or_kind (p : AgentJobPolicySnapshot) (kind : string) : bool :=
  aps_deny_all p || bool_decide (kind ∈ aps_denied_task_kinds p).

(** [rows.into_iter().map(decode).collect::<Result<Vec<_>, _>>()]. *)
Fixpoint decode_rows (rows : list (string * bytes * AgentJobRow)) :
    result JobDbError (list JobDefinition) :=
  match rows with
  | [] => Ok []
  | row :: rows =>
      d ← map_err (λ e, InvalidJobCatalog
                        ("stored Job " +:+ job_key_text row.1.1 row.1.2 +:+ " cannot be decoded: " +:+ e))
            (decode_definition (aj_definition row.2));
      ds ← decode_rows rows;
      Ok (d :: ds)
  end.

Definition row_le (a b : string * bytes * AgentJobRow) : Prop := bytes_le a.1.2 b.1.2.
Global Instance row_le_dec : RelDecision row_le.
Proof. intros a b. unfold row_le. apply _. Defined.

(** [load_agent_job_catalog]. *)
Definition load_agent_job_catalog (agent_id : string) (policy : AgentJobPolicySnapshot)
    (t : JobTables) : result JobDbError (option AgentJobCatalogRecord) :=
  match tb_catalogs t !! agent_id with
  | None => Ok None
  | Some catalog =>
      let rows :=
        merge_sort row_le
          (filter (λ kv : string * bytes * AgentJobRow, kv.1.1 = agent_id) (map_to_list (tb_jobs t))) in
      jobs ← decode_rows
               (filter (λ kv : string * bytes * AgentJobRow, denies_all_or_kind policy (aj_task_kind kv.2) = false) rows);
      Ok (Some (mkCatalogRecord agent_id (mkReplaceAllJobs (cat_revision catalog) jobs)
                  (cat_updated_at catalog)))
  end.

(** [load_agent_job_catalog_for_session]; [kinds] are the task kinds of the
    Agent's capability snapshot and of the plugins of its inventory. *)
Definition load_agent_job_catalog_for_session (agent_id : string)
    (policy : AgentJobPolicySnapshot) (kinds plugin_kinds : list string) (t : JobTables) :
    result JobDbError (option AgentJobCatalogRecord) :=
  catalog ← load_agent_job_catalog agent_id policy t;
  match catalog with
  | None => Ok None
  | Some catalog =>
      let keep job :=
        match catalog_task_kind job with
        | Err _ => false
        | Ok kind => bool_decide (kind ∈ kinds) || bool_decide (kind ∈ plugin_kinds)
        end in
      Ok (Some (mkCatalogRecord (rec_agent_id catalog)
                  (mkReplaceAllJobs (ra_catalog_revision (rec_catalog catalog))
                     (filter (λ job, keep job = true) (ra_jobs (rec_catalog catalog))))
                  (rec_updated_at catalog)))
  end.

End Catalog.

(** ** Validation *)

Section Validation.
Context `{D : DefinitionCodec}.

Lemma adjacent_equal_NoDup ids :
  StronglySorted bytes_le ids → adjacent_equal ids = false → NoDup ids.
Proof.
  induction ids as [|a ids IH]; intros Hs Ha; [constructor|].
  inversion Hs as [|? ? Hs' Hall]; subst. destruct ids as [|b rest].
  { constructor; [set_solver|constructor]. }
  cbn in Ha. apply orb_false_iff in Ha as [Hab Ha]. bools. constructor; [|by apply IH].
  intros Hin. apply Hab. apply elem_of_cons in Hin as [->|Hin]; [done|].
  inversion Hall as [|? ? Hle _]; subst. inversion Hs' as [|? ? _ Hb]; subst.
  rewrite Forall_forall in Hb. apply bytes_le_antisym; [done|]. by apply Hb.
Qed.

Definition valid_entry (v : JobDefinition * string) : Prop := catalog_task_kind v.1 = Ok v.2.

Lemma validate_definitions_Ok jobs validated :
  validate_definitions jobs = Ok validated → validated.*1 = jobs ∧ Forall valid_entry validated.
Proof.
  revert validated. induction jobs as [|d jobs IH]; intros validated Hv; cbn in Hv.
  { inv_result. done. }
  apply result_bind_Ok in Hv as (kind & Hk & Hv). apply result_bind_Ok in Hv as (rest & Hr & Hv).
  injection Hv as <-. destruct (IH _ Hr) as [<- ?]. split; [done|]. by constructor.
Qed.

Local Instance validated_le_total : Total validated_le.
Proof. intros a b. apply bytes_le_total. Qed.
Local Instance validated_le_trans : Transitive validated_le.
Proof. intros a b c. apply bytes_le_trans. Qed.

(** A catalog that validates is, sorted, the list it was given; its ids are
    distinct and in strictly increasing order. *)
Lemma validate_catalog_Ok agent_id jobs validated :
  validate_catalog agent_id jobs = Ok validated →
  validated.*1 ≡ₚ jobs ∧ Forall valid_entry validated ∧
  StronglySorted validated_le validated ∧ NoDup ((λ v, jd_job_id v.1) <$> validated).
Proof.
  unfold validate_catalog. intros Hv.
  apply result_bind_Ok in Hv as (_ & _ & Hv). apply result_bind_Ok in Hv as (l & Hl & Hv).
  cbv zeta in Hv. destruct (adjacent_equal _) eqn:Ha; inv_result.
  apply validate_definitions_Ok in Hl as [<- Hk].
  assert (Hs : StronglySorted validated_le (merge_sort validated_le l))
    by (apply StronglySorted_merge_sort; apply _).
  split_and!; [by rewrite merge_sort_Permutation|by rewrite merge_sort_Permutation|done|].
  apply adjacent_equal_NoDup; [|done]. clear -Hs. induction Hs as [|v vs Hs IH Hall]; cbn; [constructor|].
  constructor; [done|]. apply Forall_fmap. exact Hall.
Qed.

End Validation.

(** ** Storing *)

Section Store.
Context `{D : DefinitionCodec} (agent_id : string) (now : Z).
Implicit Types (v : JobDefinition * string) (t : JobTables).

Definition entry_row v : AgentJobRow :=
  mkAgentJobRow (jd_revision v.1) (jd_enabled v.1) v.2 (encode_definition v.1) now now.
Definition entry_key v : string * bytes := (agent_id, jd_job_id v.1).
Definition entry_version v : string * bytes * Z := (agent_id, jd_job_id v.1, jd_revision v.1).

(** The stored revision has the content of the entry. *)
Definition recorded v t : Prop :=
  ∃ at_, tb_versions t !! entry_version v = Some (mkJobVersionRow v.2 (encode_definition v.1) at_).

Lemma store_definition_Ok v t t' :
  store_definition agent_id now v t = Some (Ok tt, t') →
  tb_versions t ⊆ tb_versions t' ∧ recorded v t' ∧
  tb_jobs t' = <[entry_key v := entry_row v]> (tb_jobs t) ∧
  tb_catalogs t' = tb_catalogs t ∧ tb_records t' = tb_records t ∧
  (∀ k, is_Some (tb_versions t' !! k) → is_Some (tb_versions t !! k) ∨ k = entry_version v).
Proof.
  unfold store_definition. cbv zeta. intros Hs.
  apply st_bind_Some in Hs as (pv & ? & [-> ->]%st_gets_Some & Hs).
  apply st_try_Some in Hs as [([] & t1 & Hv & Hs)|(e & _ & [=])].
  apply st_bind_Some in Hs as (? & ? & ->%st_modify_Some & Hs).
  apply st_ret_Some in Hs as [_ ->]. unfold recorded, entry_version.
  destruct (tb_versions t !! _) as [[k d at_]|] eqn:Hpv; cbn in Hv.
  - apply st_ret_Some in Hv as [Hv ->].
    destruct (bool_decide (k ≠ v.2) || bool_decide (d ≠ encode_definition v.1)) eqn:Hb; [done|].
    apply orb_false_iff in Hb as [Hk Hd]. apply bool_decide_eq_false_1, dec_stable in Hk, Hd. subst.
    split_and!; [done| |done..|by left]. by exists at_.
  - apply st_bind_Some in Hv as (? & ? & ->%st_modify_Some & [_ ->]%st_ret_Some). cbn.
    split_and!; [by apply insert_subseteq| |done..|].
    + exists now. by rewrite lookup_insert_eq.
    + intros k. destruct (decide (k = (agent_id, jd_job_id v.1, jd_revision v.1))) as [->|Hne]; [by right|].
      rewrite lookup_insert_ne by done. by left.
Qed.

Lemma recorded_mono v t t' : tb_versions t ⊆ tb_versions t' → recorded v t → recorded v t'.
Proof. intros Hs (at_ & Hv). exists at_. by eapply lookup_weaken. Qed.

Lemma store_all_Ok validated t t' :
  NoDup (entry_key <$> validated) →
  st_for_try validated (store_definition agent_id now) t = Some (Ok tt, t') →
  tb_versions t ⊆ tb_versions t' ∧ Forall (λ v, recorded v t') validated ∧
  tb_catalogs t' = tb_catalogs t ∧ tb_records t' = tb_records t ∧
  (∀ v, v ∈ validated → tb_jobs t' !! entry_key v = Some (entry_row v)) ∧
  (∀ k, k ∉ entry_key <$> validated → tb_jobs t' !! k = tb_jobs t !! k) ∧
  (∀ k, is_Some (tb_versions t' !! k) →
     is_Some (tb_versions t !! k) ∨ k ∈ entry_version <$> validated).
Proof.
  revert t. induction validated as [|v vs IH]; intros t Hnd Hs; cbn in Hs.
  { apply st_ret_Some in Hs as [_ ->]. split_and!; try done; [|by left].
    intros v Hv. by apply not_elem_of_nil in Hv. }
  rewrite fmap_cons in Hnd. apply NoDup_cons in Hnd as [Hv Hnd].
  apply st_try_Some in Hs as [([] & t1 & H1 & H2)|(e & _ & [=])].
  apply store_definition_Ok in H1 as (Hg & Hrec & Hj & Hc & Ho & Hk1).
  destruct (IH _ Hnd H2) as (Hg' & Hrecs & Hc' & Ho' & Hin & Hout & Hk2).
  split_and!; [by etrans| |congruence..| | |].
  - constructor; [by eapply recorded_mono|done].
  - intros w [->|Hw]%elem_of_cons; [|by apply Hin]. rewrite (Hout _ Hv), Hj. by rewrite lookup_insert_eq.
  - intros k Hk. rewrite fmap_cons, not_elem_of_cons in Hk. destruct Hk as [Hne Hk].
    rewrite (Hout _ Hk), Hj. by rewrite lookup_insert_ne.
  - intros k [[?| ->]%Hk1|?]%Hk2; [by left|right..]; rewrite fmap_cons; set_solver.
Qed.

End Store.

(** ** Replacing a catalog *)

Section Replace.
Context `{D : DefinitionCodec}.
Implicit Types (t : JobTables).

Lemma foldr_max_ge r rs x : x ∈ r :: rs → x ≤ foldr Z.max r rs.
Proof.
  induction rs as [|y rs IH]; cbn; intros Hx.
  - apply list_elem_of_singleton in Hx as ->. done.
  - apply elem_of_cons in Hx as [->|[->|Hx]%elem_of_cons]; [|lia|].
    + specialize (IH ltac:(set_solver)). lia.
    + specialize (IH ltac:(set_solver)). lia.
Qed.

Lemma latest_revision_ge agent_id job_id t r row :
  tb_versions t !! (agent_id, job_id, r) = Some row →
  ∃ latest, latest_revision agent_id job_id t = Some latest ∧ r ≤ latest.
Proof.
  intros Hv. unfold latest_revision. cbv zeta.
  match goal with |- context [match ?l with _ => _ end] => assert (Hin : r ∈ l) end.
  { apply list_elem_of_omap. exists (agent_id, job_id, r, row). split; [by apply elem_of_map_to_list|].
    cbn. by rewrite bool_decide_eq_true_2. }
  destruct (omap _ _) as [|x xs]; [by apply not_elem_of_nil in Hin|].
  eexists. split; [done|]. by apply foldr_max_ge.
Qed.

Lemma check_not_backwards_Ok agent_id validated t t' :
  st_for_try validated (check_not_backwards agent_id) t = Some (Ok tt, t') →
  t' = t ∧ ∀ v r row, v ∈ validated →
    tb_versions t !! (agent_id, jd_job_id v.1, r) = Some row → r ≤ jd_revision v.1.
Proof.
  induction validated as [|v vs IH]; intros Hs; cbn in Hs.
  { apply st_ret_Some in Hs as [_ ->]. split; [done|]. intros v r row Hv. by apply not_elem_of_nil in Hv. }
  apply st_try_Some in Hs as [([] & t1 & H1 & H2)|(e & _ & [=])].
  unfold check_not_backwards in H1. injection H1 as H1 <-. destruct (IH H2) as [-> Hvs]. split; [done|].
  intros w r row [->|Hw]%elem_of_cons Hr; [|by eapply Hvs].
  unfold i64_try_from in H1. destruct (bool_decide (_ ≤ i64_max)); [|done].
  destruct (latest_revision_ge _ _ _ _ _ Hr) as (latest & Hl & Hle). rewrite Hl in H1.
  destruct (bool_decide (jd_revision v.1 < latest)) eqn:Hb; [done|]. bools. lia.
Qed.

(** What claiming and finishing do to the catalog rows together. *)
Lemma claim_revision_Ok agent_id expected previous revision now t t' :
  (∀ e, expected = Some e → default 0 (cat_revision <$> previous) = e) →
  revision = default 0 (cat_revision <$> previous) + 1 →
  claim_revision agent_id expected previous revision now t = Some (Ok tt, t') →
  tb_jobs t' = tb_jobs t ∧ tb_versions t' = tb_versions t ∧ tb_records t' = tb_records t ∧
  match expected with
  | Some e => catalog_revision_of agent_id t = e ∧
              tb_catalogs t' = <[agent_id := mkCatalogRow revision now]> (tb_catalogs t)
  | None => t' = t
  end.
Proof.
  intros He -> Hs. destruct expected as [e|]; cbn in Hs; [|by apply st_ret_Some in Hs as [_ ->]].
  specialize (He e eq_refl). unfold catalog_revision_of.
  apply st_bind_Some in Hs as (row & ? & [-> ->]%st_gets_Some & Hs).
  destruct previous as [p|]; cbn in He.
  - destruct (bool_decide _) eqn:Hb; bools; [|by apply st_ret_Some in Hs as [[=] _]].
    apply st_bind_Some in Hs as (? & ? & ->%st_modify_Some & [_ ->]%st_ret_Some).
    rewrite Hb. done.
  - subst e. cbn in Hs. destruct (tb_catalogs t !! agent_id) as [r|] eqn:Hr;
      [by apply st_ret_Some in Hs as [[=] _]|].
    apply st_bind_Some in Hs as (? & ? & ->%st_modify_Some & [_ ->]%st_ret_Some). done.
Qed.

(** What others commit unguarded comes on top of what they committed before. *)
Lemma claim_revision_foreign agent_id expected previous revision now (other late : JobTables → JobTables) t t' :
  (∀ e, expected = Some e → default 0 (cat_revision <$> previous) = e) →
  revision = default 0 (cat_revision <$> previous) + 1 →
  claim_revision agent_id expected previous revision now (other t) = Some (Ok tt, t') →
  let u := foreign expected other late t in
  let u' := unguarded expected late t' in
  tb_jobs u' = tb_jobs u ∧ tb_versions u' = tb_versions u ∧ tb_records u' = tb_records u ∧
  match expected with
  | Some e => catalog_revision_of agent_id u = e ∧
              tb_catalogs u' = <[agent_id := mkCatalogRow revision now]> (tb_catalogs u)
  | None => tb_catalogs u' = tb_catalogs u
  end ∧ tb_versions t' = tb_versions (other t).
Proof.
  intros He Hr Hs. destruct (claim_revision_Ok _ _ _ _ _ _ _ He Hr Hs) as (Hj & Hv & Ho & Hc).
  unfold foreign. destruct expected; cbn in *; [done|]. by subst.
Qed.

Lemma finish_revision_Ok agent_id expected previous revision now t t' :
  (∀ e, expected = Some e → default 0 (cat_revision <$> previous) = e) →
  finish_revision agent_id expected previous revision now t = Some (Ok tt, t') →
  tb_jobs t' = tb_jobs t ∧ tb_versions t' = tb_versions t ∧ tb_records t' = tb_records t ∧
  tb_catalogs t' =
    match expected with
    | Some _ => tb_catalogs t
    | None => <[agent_id := mkCatalogRow revision now]> (tb_catalogs t)
    end.
Proof.
  intros He Hs. unfold finish_revision in Hs. destruct previous as [p|].
  - destruct expected; [by apply st_ret_Some in Hs as [_ ->]|].
    apply st_bind_Some in Hs as (? & ? & ->%st_modify_Some & [_ ->]%st_ret_Some). done.
  - destruct expected as [e|]; cbn in Hs.
    { specialize (He e eq_refl). cbn in He. subst e. by apply st_ret_Some in Hs as [_ ->]. }
    apply st_bind_Some in Hs as (row & ? & [-> ->]%st_gets_Some & Hs).
    destruct (tb_catalogs t !! agent_id); [by apply st_ret_Some in Hs as [[=] _]|].
    apply st_bind_Some in Hs as (? & ? & ->%st_modify_Some & [_ ->]%st_ret_Some). done.
Qed.

(** What a replacement that succeeds has done, in terms of the tables as the other
    processes left them. *)
Record replaced (other : JobTables → JobTables) (agent_id : string) (jobs : list JobDefinition)
    (expected : option Z) (t : JobTables) (record : AgentJobCatalogRecord) (t' : JobTables)
    (validated : list (JobDefinition * string)) (now : Z) : Prop :=
  mkReplaced {
    rp_valid : validate_catalog agent_id jobs = Ok validated;
    rp_expected : ∀ e, expected = Some e →
      catalog_revision_of agent_id t = e ∧ catalog_revision_of agent_id (other t) = e;
    rp_record : record = mkCatalogRecord agent_id
      (mkReplaceAllJobs (catalog_revision_of agent_id t + 1) validated.*1) now;
    rp_i64 : catalog_revision_of agent_id t + 1 ≤ i64_max;
    rp_catalogs : tb_catalogs t' =
      <[agent_id := mkCatalogRow (catalog_revision_of agent_id t + 1) now]> (tb_catalogs (other t));
    rp_versions : tb_versions (other t) ⊆ tb_versions t';
    rp_recorded : Forall (λ v, recorded agent_id v t') validated;
    rp_jobs : ∀ v, v ∈ validated →
      tb_jobs t' !! entry_key agent_id v = Some (entry_row now v);
    rp_gone : ∀ job_id, (agent_id, job_id) ∉ entry_key agent_id <$> validated →
      tb_jobs t' !! (agent_id, job_id) = None;
    rp_others : ∀ k, k.1 ≠ agent_id → tb_jobs t' !! k = tb_jobs (other t) !! k;
    rp_records : tb_records t' = tb_records (other t);
    rp_new_versions : ∀ k, is_Some (tb_versions t' !! k) →
      is_Some (tb_versions (other t) !! k) ∨ k ∈ entry_version agent_id <$> validated;
  }.

(** No job is written with a revision older than one stored for it. *)
Definition forward (agent_id : string) (t : JobTables) (validated : list (JobDefinition * string)) : Prop :=
  ∀ v r row, v ∈ validated →
    tb_versions t !! (agent_id, jd_job_id v.1, r) = Some row → r ≤ jd_revision v.1.

Lemma checked_i64_Some x y : checked_i64 x = Some y → y = x ∧ x ≤ i64_max.
Proof. unfold checked_i64. case_bool_decide; naive_solver. Qed.

Lemma NoDup_entry_key agent_id (validated : list (JobDefinition * string)) :
  NoDup ((λ v, jd_job_id v.1) <$> validated) → NoDup (entry_key agent_id <$> validated).
Proof.
  intros Hnd. replace (entry_key agent_id <$> validated)
    with (pair agent_id <$> ((λ v, jd_job_id v.1) <$> validated)).
  - apply NoDup_fmap_2; [|done]. intros x y [= ->]. done.
  - rewrite <-list_fmap_compose. done.
Qed.

Lemma replace_in_transaction_Ok other late clock agent_id jobs expected t record t' :
  replace_agent_job_catalog_in_transaction other late clock agent_id jobs expected t = Some (Ok record, t') →
  ∃ validated now, replaced (foreign expected other late) agent_id jobs expected t record t' validated now ∧
    ((∀ u, unguarded expected late u = u) → forward agent_id (foreign expected other late t) validated).
Proof.
  unfold replace_agent_job_catalog_in_transaction. intros Hs.
  apply st_try_Some in Hs as [(validated & ? & [Hval ->]%st_ret_Some & Hs)|(? & _ & [=])].
  apply st_try_Some in Hs as [(now & ? & [Hnow ->]%st_ret_Some & Hs)|(? & _ & [=])].
  apply st_try_Some in Hs as [(exp & ? & [Hexp ->]%st_ret_Some & Hs)|(? & _ & [=])].
  apply st_bind_Some in Hs as (previous & ? & [-> ->]%st_gets_Some & Hs). cbv zeta in Hs.
  change (default 0 (cat_revision <$> tb_catalogs t !! agent_id)) with (catalog_revision_of agent_id t) in Hs.
  apply st_try_Some in Hs as [([] & ? & [Hact ->]%st_ret_Some & Hs)|(? & _ & [=])].
  apply st_try_Some in Hs as [(revision & ? & [Hrev ->]%st_ret_Some & Hs)|(? & _ & [=])].
  apply st_bind_Some in Hs as (? & ? & ->%st_modify_Some & Hs).
  symmetry in Hrev. apply ok_or_Ok, checked_i64_Some in Hrev as [-> Hi64].
  assert (He : ∀ e, exp = Some e → catalog_revision_of agent_id t = e).
  { intros e ->. destruct (bool_decide _) eqn:Hb; [by bools|done]. }
  assert (Hexp' : exp = expected).
  { destruct expected as [e|]; [|by injection Hexp]. unfold i64_try_from in Hexp.
    destruct (bool_decide _); [by injection Hexp|done]. }
  subst exp. clear Hexp Hact.
  apply st_try_Some in Hs as [([] & t1 & H1 & Hs)|(? & _ & [=])].
  apply (claim_revision_foreign _ _ _ _ _ other late) in H1 as (Hj1 & Hv1 & Ho1 & Hc1 & Hv0); [|done..].
  apply st_try_Some in Hs as [([] & t2 & H2 & Hs)|(? & _ & [=])].
  apply check_not_backwards_Ok in H2 as [-> Hfwd].
  apply st_bind_Some in Hs as (? & ? & ->%st_modify_Some & Hs).
  apply st_bind_Some in Hs as (? & ? & ->%st_modify_Some & Hs).
  apply st_try_Some in Hs as [([] & t3 & H3 & Hs)|(? & _ & [=])].
  destruct (validate_catalog_Ok _ _ _ (eq_sym Hval)) as (_ & _ & _ & Hnd).
  apply (store_all_Ok agent_id) in H3 as (Hv3 & Hrec3 & Hc3 & Ho3 & Hin3 & Hout3 & Hk3);
    [|by apply NoDup_entry_key]. cbn in Hv3, Hc3, Ho3, Hout3, Hk3.
  apply st_try_Some in Hs as [([] & t4 & H4 & Hs)|(? & _ & [=])].
  apply finish_revision_Ok in H4 as (Hj4 & Hv4 & Ho4 & Hc4); [|done].
  apply st_ret_Some in Hs as [Hr ->]. injection Hr as Hr.
  exists validated, now. split; [|intros Hcalm v r row Hv; unfold foreign; rewrite Hcalm, <-Hv0; by apply Hfwd].
  split; try done.
  - intros e ->. split; [by apply He|apply Hc1].
  - rewrite Hc4, Hc3. destruct expected; [apply Hc1|]. by rewrite Hc1.
  - rewrite Hv4, <-Hv1. done.
  - eapply Forall_impl; [exact Hrec3|]. intros v. apply recorded_mono. by rewrite Hv4.
  - intros v Hv. rewrite Hj4. by apply Hin3.
  - intros j Hj. rewrite Hj4, Hout3 by done. rewrite map_lookup_filter_None. right. intros row _ Hne. by apply Hne.
  - intros k Hk. rewrite Hj4, Hout3.
    + rewrite Hj1. apply option_eq. intros row. rewrite map_lookup_filter_Some. naive_solver.
    + intros (v & -> & _)%list_elem_of_fmap. by apply Hk.
  - rewrite Ho4, Ho3. exact Ho1.
  - intros k. rewrite Hv4, <-Hv1. apply Hk3.
Qed.

Lemma replace_if_revision_Ok other late clock agent_id jobs expected t record t' :
  replace_agent_job_catalog_if_revision other late clock agent_id jobs expected t = Some (Ok record, t') →
  ∃ t1 validated now, replaced (foreign expected other late) agent_id jobs expected t record t1 validated now ∧
    ((∀ u, unguarded expected late u = u) → forward agent_id (foreign expected other late t) validated) ∧
    t' = set_operations (fmap (supersede agent_id (ra_catalog_revision (rec_catalog record))
           (rec_updated_at record))) t1.
Proof.
  unfold replace_agent_job_catalog_if_revision, transaction.
  match goal with |- context [match ?m t with _ => _ end] => destruct (m t) as [[[r|e] t1]|] eqn:Hs end;
    intros [= -> ->].
  apply st_try_Some in Hs as [(rec & t1 & H1 & Hs)|(? & _ & [=])].
  apply st_try_Some in Hs as [(target & ? & [Ht ->]%st_ret_Some & Hs)|(? & _ & [=])].
  apply st_bind_Some in Hs as (? & ? & ->%st_modify_Some & [[= ->] ->]%st_ret_Some).
  apply replace_in_transaction_Ok in H1 as (validated & now & H1 & Hf). exists t1, validated, now.
  split_and!; [done..|].
  unfold i64_try_from in Ht. destruct (bool_decide _); [|done]. by injection Ht as ->.
Qed.

Lemma replace_if_revision_Err other late clock agent_id jobs expected t e t' :
  replace_agent_job_catalog_if_revision other late clock agent_id jobs expected t = Some (Err e, t') →
  t' = foreign expected other late t.
Proof.
  unfold replace_agent_job_catalog_if_revision, transaction.
  match goal with |- context [match ?m t with _ => _ end] => destruct (m t) as [[[r|e'] t1]|] end; naive_solver.
Qed.

End Replace.

(** ** Invariants over all histories *)

Section Histories.
Context `{D : DefinitionCodec}.

(** The catalogs that concurrent Servers can reach: each replacement may overlap
    with any others, which commit between its read and its claim or check; after
    its check a replacement that is not based on a revision is alone. *)
Inductive catalog_reach : JobTables → JobTables → Prop :=
| reach_refl t : catalog_reach t t
| reach_replace t t1 t2 other late clock agent_id jobs expected r :
    catalog_reach t t1 → catalog_reach t1 (other t1) → (expected = None → ∀ u, late u = u) →
    replace_agent_job_catalog_if_revision other late clock agent_id jobs expected t1 = Some (r, t2) →
    catalog_reach t t2.

(** A job row carries a stored revision of that job with its content, and it is
    the newest one. *)
Definition tables_wf (t : JobTables) : Prop :=
  ∀ agent_id job_id row, tb_jobs t !! (agent_id, job_id) = Some row →
    (∃ d at_, jd_job_id d = job_id ∧ jd_revision d = aj_revision row ∧
       aj_definition row = encode_definition d ∧
       tb_versions t !! (agent_id, job_id, aj_revision row) =
         Some (mkJobVersionRow (aj_task_kind row) (encode_definition d) at_)) ∧
    ∀ r, is_Some (tb_versions t !! (agent_id, job_id, r)) → r ≤ aj_revision row.

Lemma replaced_wf other agent_id jobs expected t record t' validated now :
  replaced other agent_id jobs expected t record t' validated now →
  forward agent_id (other t) validated → tables_wf (other t) → tables_wf t'.
Proof.
  intros Hr Hf Hwf a j row Hrow. destruct (decide (a = agent_id)) as [->|Hne].
  - destruct (decide ((agent_id, j) ∈ entry_key agent_id <$> validated)) as [Hin|Hout];
      [|by rewrite (rp_gone _ _ _ _ _ _ _ _ _ Hr) in Hrow by done].
    apply list_elem_of_fmap in Hin as (v & Hv & Hin). unfold entry_key in Hv. injection Hv as ->.
    pose proof (rp_jobs _ _ _ _ _ _ _ _ _ Hr v Hin) as Hrow'. unfold entry_key in Hrow'.
    rewrite Hrow in Hrow'. injection Hrow' as ->. cbn. split.
    + pose proof (rp_recorded _ _ _ _ _ _ _ _ _ Hr) as Hrec. rewrite Forall_forall in Hrec.
      destruct (Hrec v Hin) as (at_ & Hat). exists v.1, at_. done.
    + intros r [[x Hx]|Hk]%(rp_new_versions _ _ _ _ _ _ _ _ _ Hr);
        [by eapply Hf|].
      apply list_elem_of_fmap in Hk as (w & Hw & Hwin). unfold entry_version in Hw.
      injection Hw as Hid ->.
      destruct (validate_catalog_Ok _ _ _ (rp_valid _ _ _ _ _ _ _ _ _ Hr)) as (_ & _ & _ & Hnd).
      by rewrite (NoDup_fmap_elem_inj _ _ w v Hnd Hwin Hin (eq_sym Hid)).
  - rewrite (rp_others _ _ _ _ _ _ _ _ _ Hr) in Hrow by done.
    destruct (Hwf _ _ _ Hrow) as [(d & at_ & ? & ? & ? & Hv) Hmax]. split.
    + exists d, at_. split_and!; [done..|].
      eapply lookup_weaken; [exact Hv|]. apply (rp_versions _ _ _ _ _ _ _ _ _ Hr).
    + intros r [?|Hk]%(rp_new_versions _ _ _ _ _ _ _ _ _ Hr); [by apply Hmax|].
      apply list_elem_of_fmap in Hk as (w & [= -> _ _] & _). done.
Qed.

Lemma catalog_reach_wf t t' :
  catalog_reach t t' → tables_wf t → tables_wf t' ∧ tb_versions t ⊆ tb_versions t'.
Proof.
  induction 1 as [t|t t1 t2 other late clock a jobs expected r _ IH1 _ IH2 Hlate Hs]; intros Hwf; [done|].
  destruct (IH1 Hwf) as [Hwf1 Hv1]. destruct (IH2 Hwf1) as [Hwf2 Hv2].
  assert (Hcalm : ∀ u, unguarded expected late u = u) by (intros u; destruct expected; [done|by apply Hlate]).
  assert (Ht : foreign expected other late t1 = other t1) by apply Hcalm.
  destruct r as [record|e].
  - apply replace_if_revision_Ok in Hs as (t3 & validated & now & Hr & Hf & ->). specialize (Hf Hcalm).
    rewrite <-Ht in Hwf2, Hv2. split; [by eapply replaced_wf in Hr|].
    pose proof (rp_versions _ _ _ _ _ _ _ _ _ Hr). cbn. by repeat (etrans; [done|]).
  - apply replace_if_revision_Err in Hs as ->. rewrite Ht. split; [done|by etrans].
Qed.

Lemma decode_rows_elem `{!DefinitionCodecLaws D} rows ds d :
  decode_rows rows = Ok ds → d ∈ ds → ∃ k, k ∈ rows ∧ decode_definition (aj_definition k.2) = Ok d.
Proof.
  revert ds. induction rows as [|k rows IH]; intros ds Hd; cbn in Hd.
  { injection Hd as <-. intros Hin. by apply not_elem_of_nil in Hin. }
  apply result_bind_Ok in Hd as (d0 & H0 & Hd). apply result_bind_Ok in Hd as (ds0 & H1 & Hd).
  injection Hd as <-. apply map_err_Ok in H0. intros [->|Hin]%elem_of_cons.
  - exists k. split; [constructor|done].
  - destruct (IH _ H1 Hin) as (k' & ? & ?). exists k'. split; [by constructor|done].
Qed.

(** Every job of a catalog that was read is a stored revision of that Agent. *)
Lemma load_elem `{!DefinitionCodecLaws D} agent_id policy t record d :
  tables_wf t → load_agent_job_catalog agent_id policy t = Ok (Some record) →
  d ∈ ra_jobs (rec_catalog record) →
  ∃ row, tb_jobs t !! (agent_id, jd_job_id d) = Some row ∧ aj_revision row = jd_revision d ∧
    aj_definition row = encode_definition d ∧ denies_all_or_kind policy (aj_task_kind row) = false.
Proof.
  intros Hwf. unfold load_agent_job_catalog. destruct (tb_catalogs t !! agent_id) as [c|]; [|done].
  intros Hl. apply result_bind_Ok in Hl as (ds & Hds & Hl). injection Hl as <-. cbn. intros Hd.
  destruct (decode_rows_elem _ _ _ Hds Hd) as ([[a j] row] & Hk & Hdec). cbn in Hdec.
  apply list_elem_of_filter in Hk as [Hden Hk]. rewrite merge_sort_Permutation in Hk.
  apply list_elem_of_filter in Hk as [Ha Hk]. cbn in Ha, Hden. subst a.
  apply elem_of_map_to_list in Hk. destruct (Hwf _ _ _ Hk) as [(d' & at_ & <- & Hrev & Hdef & _) _].
  rewrite Hdef, decode_encode_definition in Hdec. injection Hdec as ->. by exists row.
Qed.

End Histories.

(** ** Properties *)

(** C28. The revisions an Agent is given only move forward: over catalog
    replacements by any number of Servers, each based on a revision and overlapping
    with others in any way, or based on none and without a commit of others between
    its check of the job revisions and its writes, a job read later has a revision no
    smaller than when it was read before, and when the revision is the same the
    definition is the same, whatever policies filtered the two readings. The side
    condition is needed: [unguarded_replacement_moves_back]. *)
Theorem job_revisions_move_forward `{D : DefinitionCodec} `{!DefinitionCodecLaws D}
    t1 t2 agent_id policy1 policy2 record1 record2 d1 d2 :
  catalog_reach (mkJobTables ∅ ∅ ∅ ∅ ∅) t1 → catalog_reach t1 t2 →
  load_agent_job_catalog agent_id policy1 t1 = Ok (Some record1) →
  load_agent_job_catalog agent_id policy2 t2 = Ok (Some record2) →
  d1 ∈ ra_jobs (rec_catalog record1) → d2 ∈ ra_jobs (rec_catalog record2) →
  jd_job_id d1 = jd_job_id d2 →
  jd_revision d1 ≤ jd_revision d2 ∧ (jd_revision d1 = jd_revision d2 → d1 = d2).
Proof.
  intros H1 H2 L1 L2 Hd1 Hd2 Hid.
  assert (Hwf0 : tables_wf (mkJobTables ∅ ∅ ∅ ∅ ∅)) by (intros a j row Hj; cbn in Hj; by rewrite lookup_empty in Hj).
  destruct (catalog_reach_wf _ _ H1 Hwf0) as [Hwf1 _].
  destruct (catalog_reach_wf _ _ H2 Hwf1) as [Hwf2 Hv].
  destruct (load_elem _ _ _ _ _ Hwf1 L1 Hd1) as (r1 & Hr1 & E1 & F1 & _).
  destruct (load_elem _ _ _ _ _ Hwf2 L2 Hd2) as (r2 & Hr2 & E2 & F2 & _).
  destruct (Hwf1 _ _ _ Hr1) as [(d & at1 & _ & _ & G1 & K1) _].
  destruct (Hwf2 _ _ _ Hr2) as [(d' & at2 & _ & _ & G2 & K2) Hmax].
  pose proof (lookup_weaken _ _ _ _ K1 Hv) as K1'. rewrite Hid in K1'.
  split.
  - rewrite <-E1, <-E2. apply Hmax. by eexists.
  - intros Heq. rewrite <-E1, <-E2 in Heq. rewrite Heq, K2 in K1'.
    assert (He : encode_definition d' = encode_definition d) by congruence.
    rewrite <-G1, <-G2, F1, F2 in He.
    pose proof (decode_encode_definition d1) as P1. rewrite <-He, decode_encode_definition in P1. congruence.
Qed.

(** A replacement that names the revision it is based on is a compare and swap
    on the Agent's catalog, also against Servers that commit in between: it succeeds
    only if the catalog still has that revision, which then becomes the next one,
    and a second replacement based on the same revision is refused; it leaves the
    jobs of every other Agent alone; and a refused one has written nothing. *)
Theorem catalog_compare_and_swap `{D : DefinitionCodec} other late clock agent_id jobs e t r t' :
  replace_agent_job_catalog_if_revision other late clock agent_id jobs (Some e) t = Some (r, t') →
  match r with
  | Ok record =>
      catalog_revision_of agent_id (other t) = e ∧ catalog_revision_of agent_id t' = e + 1 ∧
      ra_catalog_revision (rec_catalog record) = e + 1 ∧
      (∀ a j, a ≠ agent_id → tb_jobs t' !! (a, j) = tb_jobs (other t) !! (a, j)) ∧
      (∀ a, a ≠ agent_id → tb_catalogs t' !! a = tb_catalogs (other t) !! a) ∧
      (∀ other' late' clock' jobs' record' t'',
         replace_agent_job_catalog_if_revision other' late' clock' agent_id jobs' (Some e) t' ≠
           Some (Ok record', t''))
  | Err _ => t' = other t
  end.
Proof.
  intros Hs. destruct r as [record|err]; [|by eapply replace_if_revision_Err in Hs].
  apply replace_if_revision_Ok in Hs as (t1 & validated & now & Hr & _ & ->).
  destruct (rp_expected _ _ _ _ _ _ _ _ _ Hr e eq_refl) as [He Ho].
  pose proof (rp_catalogs _ _ _ _ _ _ _ _ _ Hr) as Hc. rewrite He in Hc.
  pose proof (rp_record _ _ _ _ _ _ _ _ _ Hr) as ->.
  assert (Hrev : catalog_revision_of agent_id t1 = e + 1)
    by (unfold catalog_revision_of; rewrite Hc, lookup_insert_eq; done).
  cbn. split_and!; [done|exact Hrev|lia| | |].
  - intros a j Ha. by apply (rp_others _ _ _ _ _ _ _ _ _ Hr).
  - intros a Ha. rewrite Hc. by rewrite lookup_insert_ne.
  - intros other' late' clock' jobs' record' t'' Hs'.
    apply replace_if_revision_Ok in Hs' as (t2 & v2 & now2 & Hr2 & _ & _).
    destruct (rp_expected _ _ _ _ _ _ _ _ _ Hr2 e eq_refl) as [He2 _].
    unfold catalog_revision_of in He2, Hrev. cbn in He2. rewrite Hrev in He2. lia.
Qed.

(** ** Reading back what was written *)

Section Roundtrip.
Context `{D : DefinitionCodec} `{!DefinitionCodecLaws D}.

Local Instance row_le_total : Total row_le.
Proof. intros a b. apply bytes_le_total. Qed.
Local Instance row_le_trans : Transitive row_le.
Proof. intros a b c. apply bytes_le_trans. Qed.

Definition allow_all : AgentJobPolicySnapshot := mkPolicySnapshot 0 false [].

(** The rows of an entry list, as the query returns them. *)
Definition entry_rows (agent_id : string) (now : Z) (validated : list (JobDefinition * string)) :
    list (string * bytes * AgentJobRow) :=
  (λ v, (entry_key agent_id v, entry_row now v)) <$> validated.

Lemma decode_entry_rows agent_id now validated :
  decode_rows (entry_rows agent_id now validated) = Ok validated.*1.
Proof.
  induction validated as [|v vs IH]; [done|]. cbn. rewrite decode_encode_definition. cbn.
  unfold entry_rows in IH. rewrite IH. done.
Qed.

Lemma agent_rows_perm other agent_id jobs expected t record t' validated now :
  replaced other agent_id jobs expected t record t' validated now →
  filter (λ kv : string * bytes * AgentJobRow, kv.1.1 = agent_id) (map_to_list (tb_jobs t'))
    ≡ₚ entry_rows agent_id now validated.
Proof.
  intros Hr. destruct (validate_catalog_Ok _ _ _ (rp_valid _ _ _ _ _ _ _ _ _ Hr)) as (_ & _ & _ & Hnd).
  apply NoDup_Permutation.
  - apply NoDup_filter, NoDup_map_to_list.
  - apply (NoDup_fmap_1 fst). unfold entry_rows. rewrite <-list_fmap_compose. by apply NoDup_entry_key.
  - intros [[a j] row]. rewrite list_elem_of_filter, elem_of_map_to_list. unfold entry_rows.
    rewrite list_elem_of_fmap. cbn. split.
    + intros [-> Hrow]. destruct (decide ((agent_id, j) ∈ entry_key agent_id <$> validated)) as [Hin|Hout].
      * apply list_elem_of_fmap in Hin as (v & Hv & Hin). exists v. split; [|done].
        rewrite Hv in *. pose proof (rp_jobs _ _ _ _ _ _ _ _ _ Hr v Hin) as Hj. congruence.
      * by rewrite (rp_gone _ _ _ _ _ _ _ _ _ Hr) in Hrow by done.
    + intros (v & [= -> -> ->] & Hin). split; [done|]. by apply (rp_jobs _ _ _ _ _ _ _ _ _ Hr).
Qed.

Lemma entry_rows_sorted agent_id now validated :
  StronglySorted validated_le validated → StronglySorted row_le (entry_rows agent_id now validated).
Proof.
  induction 1 as [|v vs Hs IH Hall]; cbn; constructor; [done|]. apply Forall_fmap. exact Hall.
Qed.

Lemma replaced_loads other agent_id jobs expected t record t' validated now :
  replaced other agent_id jobs expected t record t' validated now →
  load_agent_job_catalog agent_id allow_all t' = Ok (Some record).
Proof.
  intros Hr. unfold load_agent_job_catalog.
  destruct (validate_catalog_Ok _ _ _ (rp_valid _ _ _ _ _ _ _ _ _ Hr)) as (_ & _ & Hs & Hnd).
  rewrite (rp_catalogs _ _ _ _ _ _ _ _ _ Hr), lookup_insert_eq. cbv zeta.
  assert (Hrows : merge_sort row_le (filter (λ kv : string * bytes * AgentJobRow, kv.1.1 = agent_id)
    (map_to_list (tb_jobs t'))) = entry_rows agent_id now validated).
  { eapply StronglySorted_unique_strong; [|apply StronglySorted_merge_sort; apply _|by apply entry_rows_sorted|].
    - intros x1 x2 Hx1 Hx2 Hle1 Hle2. pose proof (bytes_le_antisym _ _ Hle1 Hle2) as Heq.
      rewrite merge_sort_Permutation, (agent_rows_perm _ _ _ _ _ _ _ _ _ Hr) in Hx1.
      apply list_elem_of_fmap in Hx1 as (v1 & -> & Hin1).
      apply list_elem_of_fmap in Hx2 as (v2 & -> & Hin2).
      by rewrite (NoDup_fmap_elem_inj _ _ v1 v2 Hnd Hin1 Hin2 Heq).
    - rewrite merge_sort_Permutation. by eapply agent_rows_perm. }
  rewrite Hrows. rewrite filter_all_list by done. rewrite decode_entry_rows. cbn.
  by rewrite (rp_record _ _ _ _ _ _ _ _ _ Hr).
Qed.

End Roundtrip.

(** What a replacement returns is what an Agent without local restrictions is
    sent afterwards: the same revision and the submitted definitions, each once, in
    the order of their ids. *)
Theorem catalog_roundtrip `{D : DefinitionCodec} `{!DefinitionCodecLaws D}
    other late clock agent_id jobs expected t record t' :
  replace_agent_job_catalog_if_revision other late clock agent_id jobs expected t = Some (Ok record, t') →
  load_agent_job_catalog agent_id allow_all t' = Ok (Some record) ∧
  ra_jobs (rec_catalog record) ≡ₚ jobs ∧ NoDup (jd_job_id <$> ra_jobs (rec_catalog record)) ∧
  StronglySorted bytes_le (jd_job_id <$> ra_jobs (rec_catalog record)).
Proof.
  intros Hs. apply replace_if_revision_Ok in Hs as (t1 & validated & now & Hr & _ & ->).
  split; [exact (replaced_loads _ _ _ _ _ _ _ _ _ Hr)|].
  destruct (validate_catalog_Ok _ _ _ (rp_valid _ _ _ _ _ _ _ _ _ Hr)) as (Hp & _ & Hsort & Hnd).
  rewrite (rp_record _ _ _ _ _ _ _ _ _ Hr). cbn. rewrite <-list_fmap_compose. split_and!; [done|exact Hnd|].
  clear -Hsort. induction Hsort as [|v vs Hs IH Hall]; cbn; constructor; [done|]. apply Forall_fmap. exact Hall.
Qed.

(** ** An encoding that satisfies the codec's law, and a Server that uses it *)

Definition task_tag (t : Task) : (nat * bytes) + PluginTaskConfig :=
  match t with
  | Task_System c => inl (0%nat, c) | Task_Cpu c => inl (1%nat, c) | Task_Memory c => inl (2%nat, c)
  | Task_Load c => inl (3%nat, c) | Task_Host c => inl (4%nat, c) | Task_DiskIo c => inl (5%nat, c)
  | Task_NetworkIo c => inl (6%nat, c) | Task_LocalIp c => inl (7%nat, c)
  | Task_PublicIp c => inl (8%nat, c) | Task_Process c => inl (9%nat, c)
  | Task_Socket c => inl (10%nat, c) | Task_Probe c => inl (11%nat, c)
  | Task_Plugin c => inr c
  end.

Definition untag_task (t : (nat * bytes) + PluginTaskConfig) : Task :=
  match t with
  | inl (0%nat, c) => Task_System c | inl (1%nat, c) => Task_Cpu c | inl (2%nat, c) => Task_Memory c
  | inl (3%nat, c) => Task_Load c | inl (4%nat, c) => Task_Host c | inl (5%nat, c) => Task_DiskIo c
  | inl (6%nat, c) => Task_NetworkIo c | inl (7%nat, c) => Task_LocalIp c
  | inl (8%nat, c) => Task_PublicIp c | inl (9%nat, c) => Task_Process c
  | inl (10%nat, c) => Task_Socket c | inl (_, c) => Task_Probe c
  | inr c => Task_Plugin c
  end.

Global Instance PluginTaskConfig_countable : Countable PluginTaskConfig.
Proof.
  refine (inj_countable'
    (λ c, (ptc_plugin_id c, ptc_plugin_version c, ptc_task_kind c, ptc_schema_version c, ptc_task_config c))
    (λ '(a, b, c, d, e), mkPluginTaskConfig a b c d e) _). by intros [].
Defined.
Global Instance Task_countable : Countable Task.
Proof. refine (inj_countable' task_tag untag_task _). by intros []. Defined.
Global Instance TaskDefinition_countable : Countable TaskDefinition.
Proof. refine (inj_countable' td_task mkTaskDefinition _). by intros []. Defined.
Global Instance Timestamp_countable : Countable Timestamp.
Proof. refine (inj_countable' (λ t, (ts_seconds t, ts_nanos t)) (λ '(a, b), mkTimestamp a b) _). by intros []. Defined.
Global Instance PDuration_countable : Countable PDuration.
Proof. refine (inj_countable' (λ t, (pd_seconds t, pd_nanos t)) (λ '(a, b), mkPDuration a b) _). by intros []. Defined.
Global Instance ProtoSchedule_countable : Countable ProtoSchedule.
Proof.
  refine (inj_countable'
    (λ s, match s with POnce a => inl a | PInterval e a => inr (inl (e, a)) | PCron x z => inr (inr (x, z)) end)
    (λ s, match s with inl a => POnce a | inr (inl (e, a)) => PInterval e a | inr (inr (x, z)) => PCron x z end) _).
  by intros [].
Defined.
Global Instance ProtoMisfire_countable : Countable ProtoMisfire.
Proof. refine (inj_countable' (λ t, (pm_behavior t, pm_max_runs t)) (λ '(a, b), mkProtoMisfire a b) _). by intros []. Defined.
Global Instance JobTrigger_countable : Countable JobTrigger.
Proof.
  refine (inj_countable' (λ t, (jt_timeout t, jt_misfire t, jt_schedule t)) (λ '(a, b, c), mkJobTrigger a b c) _).
  by intros [].
Defined.
Global Instance RetryCondition_countable : Countable RetryCondition.
Proof.
  refine (inj_countable' (λ t, (retry_transient_error t, retry_timeout t, retry_panic t))
    (λ '(a, b, c), mkRetryCondition a b c) _). by intros [].
Defined.
Global Instance ProtoRetry_countable : Countable ProtoRetry.
Proof.
  refine (inj_countable'
    (λ r, match r with PNoRetry => None | PExponential n i m c => Some (n, i, m, c) end)
    (λ r, match r with None => PNoRetry | Some (n, i, m, c) => PExponential n i m c end) _). by intros [].
Defined.
Global Instance ProtoFailure_countable : Countable ProtoFailure.
Proof.
  refine (inj_countable' (λ t, (pf_disable_after t, pf_count_timeout t, pf_count_panic t))
    (λ '(a, b, c), mkProtoFailure a b c) _). by intros [].
Defined.
Global Instance ProtoOptions_countable : Countable ProtoOptions.
Proof.
  refine (inj_countable'
    (λ o, (po_concurrency o, po_max_pending o, po_priority o, po_coalescing o, po_capacity o, po_retry o, po_failure o))
    (λ '(a, b, c, d, e, f, g), mkProtoOptions a b c d e f g) _). by intros [].
Defined.
Global Instance JobDefinition_countable : Countable JobDefinition.
Proof.
  refine (inj_countable'
    (λ d, (jd_job_id d, jd_revision d, jd_enabled d, jd_trigger d, jd_options d, jd_task d))
    (λ '(a, b, c, d, e, f), mkJobDefinition a b c d e f) _). by intros [].
Defined.

Definition demo_codec : DefinitionCodec := {|
  job_key_text agent_id _ := agent_id;
  encode_definition d := [Z.pos (encode d)];
  decode_definition bs :=
    match bs with
    | [Z.pos p] => ok_or "malformed definition" (decode p)
    | _ => Err "malformed definition"
    end;
|}.
#[export] Existing Instance demo_codec.

Global Instance demo_codec_laws : DefinitionCodecLaws demo_codec.
Proof. intros d. cbn. by rewrite decode_encode. Qed.

(** Job 7 collects the load of the machine, job 9 the use of the processor. *)
Definition demo_job (id revision : Z) (task : Task) : JobDefinition :=
  mkJobDefinition (uuid_bytes id) revision true
    (Some (mkJobTrigger None (Some (mkProtoMisfire 1 0)) (Some (PInterval (Some (mkPDuration 10 0)) None))))
    None (Some (mkTaskDefinition (Some task))).

Definition demo_jobs1 : list JobDefinition := [demo_job 9 1 (Task_Cpu []); demo_job 7 1 (Task_Load [])].
Definition demo_jobs2 : list JobDefinition := [demo_job 9 3 (Task_Cpu [1])].

Definition demo_tables : JobTables := mkJobTables ∅ ∅ ∅ ∅ ∅.

(** The tables after a replacement that succeeds. *)
Definition replace_state (jobs : list JobDefinition) (expected : option Z) (t : JobTables) : JobTables :=
  match replace_agent_job_catalog_if_revision id id (Some 100) "agent-a" jobs expected t with
  | Some (_, t') => t'
  | None => t
  end.
Definition replace_record (jobs : list JobDefinition) (expected : option Z) (t : JobTables) :
    AgentJobCatalogRecord :=
  match replace_agent_job_catalog_if_revision id id (Some 100) "agent-a" jobs expected t with
  | Some (Ok r, _) => r
  | _ => mkCatalogRecord "" (mkReplaceAllJobs 0 []) 0
  end.

Definition demo_tables1 : JobTables := replace_state demo_jobs1 (Some 0) demo_tables.
Definition demo_tables2 : JobTables := replace_state demo_jobs2 (Some 1) demo_tables1.

Lemma demo_replace1 :
  replace_agent_job_catalog_if_revision id id (Some 100) "agent-a" demo_jobs1 (Some 0) demo_tables =
  Some (Ok (replace_record demo_jobs1 (Some 0) demo_tables), demo_tables1).
Proof. vm_compute. reflexivity. Qed.

Lemma demo_replace2 :
  replace_agent_job_catalog_if_revision id id (Some 100) "agent-a" demo_jobs2 (Some 1) demo_tables1 =
  Some (Ok (replace_record demo_jobs2 (Some 1) demo_tables1), demo_tables2).
Proof. vm_compute. reflexivity. Qed.

Lemma catalog_compare_and_swap_witness :
  catalog_revision_of "agent-a" demo_tables1 = 1 ∧ catalog_revision_of "agent-a" demo_tables2 = 1 + 1 ∧
  (∀ other' late' clock' jobs' record' t'',
     replace_agent_job_catalog_if_revision other' late' clock' "agent-a" jobs' (Some 1) demo_tables2 ≠
       Some (Ok record', t'')).
Proof.
  destruct (catalog_compare_and_swap id id (Some 100) "agent-a" demo_jobs2 1 demo_tables1
    (Ok (replace_record demo_jobs2 (Some 1) demo_tables1)) demo_tables2 demo_replace2)
    as (H1 & H2 & _ & _ & _ & H6).
  exact (conj H1 (conj H2 H6)).
Defined.

Lemma catalog_roundtrip_witness :
  load_agent_job_catalog "agent-a" allow_all demo_tables1 =
    Ok (Some (replace_record demo_jobs1 (Some 0) demo_tables)) ∧
  ra_jobs (rec_catalog (replace_record demo_jobs1 (Some 0) demo_tables)) ≡ₚ demo_jobs1.
Proof.
  destruct (catalog_roundtrip id id (Some 100) "agent-a" demo_jobs1 (Some 0) demo_tables
    (replace_record demo_jobs1 (Some 0) demo_tables) demo_tables1 demo_replace1) as (H1 & H2 & _).
  exact (conj H1 H2).
Defined.

Lemma demo_reach1 : catalog_reach demo_tables demo_tables1.
Proof. eapply (reach_replace _ demo_tables _ id id); [constructor..|done|apply demo_replace1]. Qed.

Lemma demo_reach2 : catalog_reach demo_tables1 demo_tables2.
Proof. eapply (reach_replace _ demo_tables1 _ id id); [constructor..|done|apply demo_replace2]. Qed.

Lemma demo_load2 :
  load_agent_job_catalog "agent-a" allow_all demo_tables2 =
    Ok (Some (replace_record demo_jobs2 (Some 1) demo_tables1)).
Proof. vm_compute. reflexivity. Qed.

Lemma demo_load1 :
  load_agent_job_catalog "agent-a" allow_all demo_tables1 =
    Ok (Some (replace_record demo_jobs1 (Some 0) demo_tables)).
Proof. vm_compute. reflexivity. Qed.

Lemma job_revisions_move_forward_witness :
  jd_revision (demo_job 9 1 (Task_Cpu [])) ≤ jd_revision (demo_job 9 3 (Task_Cpu [1])).
Proof.
  apply (job_revisions_move_forward demo_tables1 demo_tables2 "agent-a" allow_all allow_all
    (replace_record demo_jobs1 (Some 0) demo_tables) (replace_record demo_jobs2 (Some 1) demo_tables1)
    (demo_job 9 1 (Task_Cpu [])) (demo_job 9 3 (Task_Cpu [1])) demo_reach1 demo_reach2 demo_load1 demo_load2).
  - apply (bool_decide_eq_true_1 _). vm_compute. reflexivity.
  - apply (bool_decide_eq_true_1 _). vm_compute. reflexivity.
  - reflexivity.
Defined.

(** A replacement without a revision, in whose course another Server commits a newer
    revision of a job: the job goes back from revision 3 to revision 1, and the
    catalog revision 2 is given out twice, with different jobs. *)
Example unguarded_replacement_moves_back :
  let late := replace_state demo_jobs2 (Some 1) in
  load_agent_job_catalog "agent-a" allow_all (late demo_tables1) =
    Ok (Some (mkCatalogRecord "agent-a" (mkReplaceAllJobs 2 [demo_job 9 3 (Task_Cpu [1])]) 100)) ∧
  match replace_agent_job_catalog_if_revision id late (Some 100) "agent-a" [demo_job 9 1 (Task_Cpu [])] None
          demo_tables1 with
  | Some (Ok _, t') => load_agent_job_catalog "agent-a" allow_all t' =
      Ok (Some (mkCatalogRecord "agent-a" (mkReplaceAllJobs 2 [demo_job 9 1 (Task_Cpu [])]) 100))
  | _ => False
  end.
Proof. split; vm_compute; reflexivity. Qed.
