(* ===== verification/JobEvents.v ===== *)
(** * Job events, from the Agent's scheduler to the Server's table

    The Agent's side is [JobEventEmitter] and [scheduler_event_message] of
    [crates/smalux-agent/src/main.rs], whose events leave through the job event
    outbox; the Server's side is [append_job_event] of
    [crates/smalux-server/src/database/job_event.rs] and the branch of
    [service/agent/transport/session/business.rs] that calls it.

    Another session may insert rows between the queries of [append_job_event] and
    its insertion: [between] are those rows. *)

From stdpp Require Import base gmap strings list pretty sorting.
From S2P Require Import Prelude StLogic Rotation Credential SchedModel Timing Proto Outbox Catalog.

(** ** The Agent *)

(** [timestamp] of [main.rs]. *)
Definition timestamp_message (value : DateTime) : Timestamp :=
  mkTimestamp (timestamp value) (timestamp_subsec_nanos value).

(** [JobEvent { sequence, emitted_at, ..Default::default() }] with the fields the
    match sets. *)
Definition event_message (event : SchedulerEvent) (kind : JobEventKind) (job_id : JobId)
    (revision : Z) (run_id : bytes) (attempt : Z) (message : string) (will_retry : bool)
    (run_at : option DateTime) : JobEvent :=
  mkJobEvent (ev_sequence event) (Some (timestamp_message (ev_emitted_at event)))
    (event_kind_code kind) (uuid_bytes job_id) revision run_id attempt None
    (timestamp_message <$> run_at) 0 message will_retry 0 [].

(** [scheduler_event_message]. *)
Definition scheduler_event_message (event : SchedulerEvent) : option JobEvent :=
  match ev_kind event with
  | ExecutionFailed job_id version run_id attempt error will_retry =>
      Some (event_message event KExecutionFailed job_id version (uuid_bytes run_id) attempt error
              will_retry None)
  | ExecutionTimedOut job_id version run_id attempt =>
      Some (event_message event KExecutionTimedOut job_id version (uuid_bytes run_id) attempt ""
              false None)
  | ExecutionPanicked job_id version run_id attempt message =>
      Some (event_message event KExecutionPanicked job_id version (uuid_bytes run_id) attempt message
              false None)
  | ExecutionCancelled job_id version run_id =>
      Some (event_message event KExecutionCancelled job_id version (uuid_bytes run_id) 0 "" false None)
  | RetryScheduled job_id version run_id attempt run_at =>
      Some (event_message event KRetryScheduled job_id version (uuid_bytes run_id) attempt "" false
              (Some run_at))
  | JobDisabled job_id version reason =>
      Some (event_message event KJobDisabled job_id version [] 0 reason false None)
  | CallbackFailed job_id version run_id error =>
      Some (event_message event KReportDeliveryFailed job_id version (uuid_bytes run_id) 0 error
              false None)
  | _ => None
  end.

(** [JobEventEmitter]. *)
Record JobEventEmitter : Type := mkEmitter {
  em_instance_id : bytes;
  em_next_sequence : Z;
}.

Definition emitter_new (instance_id : bytes) : JobEventEmitter := mkEmitter instance_id 0.

Definition number_event (e : JobEvent) (sequence : Z) (instance_id : bytes) : JobEvent :=
  mkJobEvent sequence (je_emitted_at e) (je_kind e) (je_job_id e) (je_revision e) (je_run_id e)
    (je_attempt e) (je_scheduled_at e) (je_run_at e) (je_duration_ms e) (je_message e)
    (je_will_retry e) (je_pending_count e) instance_id.

(** [JobEventEmitter::emit]. *)
Definition emitter_emit (event : SchedulerEvent) (em : JobEventEmitter) :
    option JobEvent * JobEventEmitter :=
  match scheduler_event_message event with
  | None => (None, em)
  | Some value =>
      let next := saturating_add u64_max (em_next_sequence em) 1 in
      (Some (number_event value next (em_instance_id em)), mkEmitter (em_instance_id em) next)
  end.

(** The events sent for a run of scheduler events. *)
Fixpoint emit_all (events : list SchedulerEvent) (em : JobEventEmitter) : list JobEvent :=
  match events with
  | [] => []
  | event :: events =>
      let '(message, em) := emitter_emit event em in
      option_list message ++ emit_all events em
  end.

(** ** The Server *)

(** [job_event::Model]. *)
Record EventRow : Type := mkEventRow {
  er_event_id : string;
  er_agent_id : string;
  er_instance_id : bytes;
  er_sequence : Z;
  er_kind : Z;
  er_job_id : bytes;
  er_revision : Z;
  er_run_id : bytes;
  er_attempt : Z;
  er_emitted_at : Z;
  er_run_at : option Z;
  er_duration_ms : Z;
  er_message : string;
  er_will_retry : bool;
  er_pending_count : Z;
  er_gap_detected : bool;
  er_payload : bytes;
}.

(** [requires_execution_identity]. *)
Definition requires_execution_identity (kind : JobEventKind) : bool :=
  match kind with
  | KTriggerScheduled | KTriggerSkipped | KExecutionQueued | KExecutionStarted
  | KExecutionSucceeded | KExecutionFailed | KExecutionTimedOut | KExecutionPanicked
  | KExecutionCancelled | KRetryScheduled | KReportDelivered | KReportDeliveryFailed
  | KPendingReplaced | KBackpressureApplied => true
  | _ => false
  end.

(** [is_global_event]. *)
Definition is_global_event (kind : JobEventKind) : bool :=
  match kind with
  | KSchedulerStarted | KSchedulerConfigUpdated | KSchedulerStopping | KSchedulerStopped
  | KSchedulerFailed => true
  | _ => false
  end.

(** [validate_job_event_attribution]. *)
Definition validate_job_event_attribution (t : JobTables) (agent_id : string) (event : JobEvent) :
    result JobDbError unit :=
  match event_kind_of_code (je_kind event) with
  | None => Err (InvalidJobEvent "Job event kind is unknown")
  | Some kind =>
      if bool_decide (kind = KUnspecified) then Err (InvalidJobEvent "Job event kind is unspecified")
      else if bool_decide (je_job_id event = []) && bool_decide (je_revision event = 0) then
        if is_global_event kind then Ok tt
        else Err (InvalidJobEvent "Job event kind requires Job attribution")
      else if bool_decide (length (je_job_id event) ≠ 16%nat) || bool_decide (je_revision event = 0)
      then Err (InvalidJobEvent "Job event Job attribution is incomplete")
      else if requires_execution_identity kind
              && (bool_decide (length (je_run_id event) ≠ 16%nat) || bool_decide (je_attempt event = 0))
      then Err (InvalidJobEvent "execution Job event requires a 16-byte run id and positive attempt")
      else
        revision ← i64_try_from (InvalidJobEvent "Job event revision exceeds i64") (je_revision event);
        if bool_decide (is_Some (tb_versions t !! (agent_id, je_job_id event, revision))) then Ok tt
        else Err (InvalidJobEvent "Job event revision does not belong to this Agent")
  end.

Definition i32_max : Z := 2 ^ 31 - 1.
Definition i32_try_from {E} (e : E) (x : Z) : result E Z :=
  if bool_decide (x ≤ i32_max) then Ok x else Err e.

(** Two's complement wrap-around of [i64] and [i64::saturating_mul]. *)
Definition wrap_i64 (x : Z) : Z := (x + 2 ^ 63) `mod` 2 ^ 64 - 2 ^ 63.
Definition saturating_mul_i64 (x y : Z) : Z := Z.max i64_min (Z.min i64_max (x * y)).

(** [value.seconds.saturating_mul(1_000_000) + i64::from(value.nanos) / 1_000]. *)
Definition event_micros (value : Timestamp) : Z :=
  wrap_i64 (saturating_mul_i64 (ts_seconds value) 1000000 + Z.quot (ts_nanos value) 1000).

(** [encode_hex] of [job_event.rs] as text, and the id derived from the identity. *)
Definition hex_text (bs : bytes) : string :=
  String.concat "" ((λ b, String (Ascii.ascii_of_nat (Z.to_nat b)) EmptyString) <$> encode_hex bs).
Definition event_id_text (agent_id : string) (instance_id : bytes) (sequence : Z) : string :=
  agent_id +:+ ":" +:+ hex_text instance_id +:+ ":" +:+ pretty sequence.

Section Append.
Context (encode_event : JobEvent → bytes).

(** The rows of one event identity, and of one process of the Agent. *)
Definition same_identity (agent_id : string) (instance_id : bytes) (sequence : Z) (row : EventRow) :
    bool :=
  bool_decide (er_agent_id row = agent_id) && bool_decide (er_instance_id row = instance_id)
  && bool_decide (er_sequence row = sequence).

Definition find_event (agent_id : string) (instance_id : bytes) (sequence : Z)
    (rows : list EventRow) : option EventRow :=
  head (filter (λ row, same_identity agent_id instance_id sequence row = true) rows).

(** [order_by_desc(Sequence).one()]. *)
Definition last_sequence (agent_id : string) (instance_id : bytes) (rows : list EventRow) :
    option Z :=
  match er_sequence <$> filter (λ row, er_agent_id row = agent_id ∧ er_instance_id row = instance_id) rows with
  | [] => None
  | s :: ss => Some (foldr Z.max s ss)
  end.

(** The checks of [append_job_event] before its first query, with the numbers they
    convert. *)
Definition check_event (t : JobTables) (agent_id : string) (event : JobEvent) :
    result JobDbError unit :=
  if bool_decide (agent_id = "")
  then Err (InvalidAgentRegistration "agent id is required for Job event")
  else if bool_decide (64 < String.length agent_id)%nat
  then Err (InvalidJobEvent "agent id is too long for Job event identity")
  else if bool_decide (length (je_instance_id event) ≠ 16%nat) || bool_decide (je_sequence event = 0)
  then Err (InvalidJobEvent
              "Job event instance id must contain 16 bytes and sequence must be positive")
  else
    _ ← i64_try_from (InvalidJobEvent "Job event sequence exceeds i64") (je_sequence event);
    _ ← i64_try_from (InvalidJobEvent "Job event revision exceeds i64") (je_revision event);
    _ ← i32_try_from (InvalidJobEvent "Job event attempt exceeds i32") (je_attempt event);
    _ ← i64_try_from (InvalidJobEvent "Job event duration exceeds i64") (je_duration_ms event);
    _ ← i32_try_from (InvalidJobEvent "Job event pending count exceeds i32") (je_pending_count event);
    validate_job_event_attribution t agent_id event.

(** The row [append_job_event] inserts. *)
Definition event_row (agent_id : string) (event : JobEvent) (now : Z) (gap : bool) : EventRow :=
  mkEventRow (event_id_text agent_id (je_instance_id event) (je_sequence event)) agent_id
    (je_instance_id event) (je_sequence event) (je_kind event) (je_job_id event)
    (je_revision event) (je_run_id event) (je_attempt event)
    (default now (event_micros <$> je_emitted_at event)) (event_micros <$> je_run_at event)
    (je_duration_ms event) (je_message event) (je_will_retry event) (je_pending_count event) gap
    (encode_event event).

Definition payload_conflict : JobDbError :=
  InvalidJobEvent "duplicate Job event identity has different payload".

(** [INSERT .. ON CONFLICT DO NOTHING] on the unique identity, and the branch that
    follows when nothing was inserted. *)
Definition insert_event (row : EventRow) (rows : list EventRow) :
    result JobDbError string * list EventRow :=
  match find_event (er_agent_id row) (er_instance_id row) (er_sequence row) rows with
  | None => (Ok (er_event_id row), rows ++ [row])
  | Some existing =>
      (if bool_decide (er_payload existing = er_payload row) then Ok (er_event_id existing)
       else Err payload_conflict, rows)
  end.

(** [append_job_event]; [now] is [unix_micros()], [between] the rows other sessions
    insert after its queries. *)
Definition append_job_event (t : JobTables) (agent_id : string) (event : JobEvent) (now : Z)
    (between : list EventRow) (rows : list EventRow) : result JobDbError string * list EventRow :=
  match check_event t agent_id event with
  | Err e => (Err e, rows ++ between)
  | Ok _ =>
      match find_event agent_id (je_instance_id event) (je_sequence event) rows with
      | Some existing =>
          (if bool_decide (er_payload existing = encode_event event) then Ok (er_event_id existing)
           else Err payload_conflict, rows ++ between)
      | None =>
          let gap :=
            match last_sequence agent_id (je_instance_id event) rows with
            | Some previous =>
                bool_decide (Z.min i64_max (previous + 1) < je_sequence event)
            | None => bool_decide (1 < je_sequence event)
            end in
          insert_event (event_row agent_id event now gap) (rows ++ between)
      end
  end.

(** The [SessionEvent::JobEvent] branch of [run_business_session]: an error ends the
    session. *)
Definition handle_job_event (t : JobTables) (agent_id : string) (event : JobEvent) (now : Z)
    (rows : list EventRow) : result TransportError unit * list EventRow :=
  let '(r, rows) := append_job_event t agent_id event now [] rows in
  (match r with
   | Ok _ => Ok tt
   | Err _ => Err (TProtocol "failed to persist Agent Job event")
   end, rows).

(** A session: the events in the order they arrive, until one ends it. *)
Fixpoint event_session (t : JobTables) (agent_id : string) (now : Z) (events : list JobEvent)
    (rows : list EventRow) : result TransportError unit * list EventRow :=
  match events with
  | [] => (Ok tt, rows)
  | event :: events =>
      match handle_job_event t agent_id event now rows with
      | (Ok _, rows) => event_session t agent_id now events rows
      | (Err e, rows) => (Err e, rows)
      end
  end.

End Append.

(** ** One insertion *)

Section AppendProperties.
Context (encode_event : JobEvent → bytes).
Implicit Types (rows between : list EventRow) (event : JobEvent).

Lemma same_identity_spec agent_id inst seq row :
  same_identity agent_id inst seq row = true ↔
  er_agent_id row = agent_id ∧ er_instance_id row = inst ∧ er_sequence row = seq.
Proof. unfold same_identity. rewrite !andb_true_iff, !bool_decide_eq_true. tauto. Qed.

Lemma find_event_Some agent_id inst seq rows row :
  find_event agent_id inst seq rows = Some row →
  row ∈ rows ∧ er_agent_id row = agent_id ∧ er_instance_id row = inst ∧ er_sequence row = seq.
Proof.
  unfold find_event. intros Hh. apply head_Some in Hh as [l Hl].
  assert (Hin : row ∈ filter (λ r, same_identity agent_id inst seq r = true) rows) by (rewrite Hl; constructor).
  apply list_elem_of_filter in Hin as [Hs Hin]. apply same_identity_spec in Hs. done.
Qed.

Lemma find_event_None agent_id inst seq rows :
  find_event agent_id inst seq rows = None ↔
  ∀ row, row ∈ rows →
    ¬ (er_agent_id row = agent_id ∧ er_instance_id row = inst ∧ er_sequence row = seq).
Proof.
  unfold find_event. rewrite head_None. split.
  - intros Hf row Hin Hs. apply same_identity_spec in Hs.
    assert (Hin' : row ∈ filter (λ r, same_identity agent_id inst seq r = true) rows)
      by (apply list_elem_of_filter; done). rewrite Hf in Hin'. by apply not_elem_of_nil in Hin'.
  - intros Hn. destruct (filter _ rows) as [|row l] eqn:Hf; [done|]. exfalso.
    assert (Hin : row ∈ filter (λ r, same_identity agent_id inst seq r = true) rows) by (rewrite Hf; constructor).
    apply list_elem_of_filter in Hin as [Hs Hin]. apply same_identity_spec in Hs. by eapply Hn.
Qed.

Lemma find_event_app agent_id inst seq rows rows' row :
  find_event agent_id inst seq rows = Some row → find_event agent_id inst seq (rows ++ rows') = Some row.
Proof.
  unfold find_event. rewrite filter_app. destruct (filter _ rows) as [|r l]; [done|]. cbn. done.
Qed.

(** No two rows have the identity of one event. *)
Definition identities_unique rows : Prop :=
  NoDup ((λ row, (er_agent_id row, er_instance_id row, er_sequence row)) <$> rows).

Lemma insert_event_unique row rows :
  identities_unique rows → identities_unique (insert_event row rows).2.
Proof.
  intros Hu. unfold insert_event. destruct (find_event _ _ _ rows) as [ex|] eqn:Hf; [done|]. cbn.
  unfold identities_unique. rewrite fmap_app. apply NoDup_app. split_and!; [done| |by apply NoDup_singleton].
  intros k (r & -> & Hr)%list_elem_of_fmap Hk. apply list_elem_of_singleton in Hk. injection Hk as ???.
  rewrite find_event_None in Hf. by eapply Hf.
Qed.

Lemma append_unique t agent_id event now between rows :
  identities_unique (rows ++ between) →
  identities_unique (append_job_event encode_event t agent_id event now between rows).2.
Proof.
  intros Hu. unfold append_job_event. destruct (check_event _ _ _); [|done].
  destruct (find_event _ _ _ rows); [done|]. by apply insert_event_unique.
Qed.

Lemma insert_event_found row rows id rows' :
  insert_event row rows = (Ok id, rows') →
  ∃ row', find_event (er_agent_id row) (er_instance_id row) (er_sequence row) rows' = Some row' ∧
    er_payload row' = er_payload row ∧ er_event_id row' = id.
Proof.
  unfold insert_event. destruct (find_event _ _ _ rows) as [ex|] eqn:Hf.
  - destruct (bool_decide _) eqn:Hb; [|done]. bools. intros [= <- <-]. by exists ex.
  - intros [= <- <-]. exists row. split; [|done]. unfold find_event in *. rewrite filter_app.
    destruct (filter _ rows) as [|x l]; [|done]. rewrite app_nil_l, filter_cons_True; [done|].
    by apply same_identity_spec.
Qed.

(** After an append that succeeded the identity is stored, with this payload. *)
Lemma append_Ok_found t agent_id event now between rows id rows' :
  append_job_event encode_event t agent_id event now between rows = (Ok id, rows') →
  check_event t agent_id event = Ok tt ∧
  ∃ row, find_event agent_id (je_instance_id event) (je_sequence event) rows' = Some row ∧
    er_payload row = encode_event event ∧ er_event_id row = id.
Proof.
  unfold append_job_event. destruct (check_event t agent_id event) as [[]|] eqn:Hc; [|done]. intros Ha.
  split; [done|].
  destruct (find_event _ _ _ rows) as [ex|] eqn:Hf.
  - destruct (bool_decide _) eqn:Hb; [|done]. bools. injection Ha as <- <-. exists ex.
    split; [by apply find_event_app|done].
  - cbv zeta in Ha. by eapply insert_event_found in Ha.
Qed.

End AppendProperties.

(** Storing an event is idempotent and race-free: if storing it succeeded, also
    while other sessions inserted rows, storing the same event again returns the
    same id and inserts nothing, another event under the same identity is refused,
    and the table never holds two rows of one identity. *)
Theorem append_event_idempotent (encode_event : JobEvent → bytes) t agent_id event now between rows
    id rows' :
  identities_unique (rows ++ between) →
  append_job_event encode_event t agent_id event now between rows = (Ok id, rows') →
  identities_unique rows' ∧
  (∀ now', append_job_event encode_event t agent_id event now' [] rows' = (Ok id, rows')) ∧
  (∀ event' now', je_instance_id event' = je_instance_id event → je_sequence event' = je_sequence event →
     encode_event event' ≠ encode_event event →
     ∃ e, append_job_event encode_event t agent_id event' now' [] rows' = (Err e, rows')).
Proof.
  intros Hu Ha. destruct (append_Ok_found _ _ _ _ _ _ _ _ _ Ha) as (Hc & row & Hf & Hp & Hid).
  split_and!.
  - replace rows' with (append_job_event encode_event t agent_id event now between rows).2 by by rewrite Ha.
    by apply append_unique.
  - intros now'. unfold append_job_event. rewrite Hc, Hf, app_nil_r.
    rewrite bool_decide_eq_true_2 by done. by rewrite Hid.
  - intros event' now' Hi Hs Hne. unfold append_job_event.
    destruct (check_event t agent_id event') as [[]|e]; [|exists e; by rewrite app_nil_r].
    rewrite Hi, Hs, Hf, app_nil_r. rewrite bool_decide_eq_false_2 by congruence. by eexists.
Qed.

(** The Agent never sends the attempt of a cancelled execution or of a failed
    delivery, while the Server requires one for these kinds: whatever the database
    holds, such an event is refused and ends the session that carries it. *)
Theorem cancelled_event_ends_session (encode_event : JobEvent → bytes) ev em t agent_id now rows :
  (∃ job_id version run_id, ev_kind ev = ExecutionCancelled job_id version run_id ∨
     ∃ error, ev_kind ev = CallbackFailed job_id version run_id error) →
  ∃ message em', emitter_emit ev em = (Some message, em') ∧
    handle_job_event encode_event t agent_id message now rows =
      (Err (TProtocol "failed to persist Agent Job event"), rows).
Proof.
  intros (job_id & version & run_id & Hk). unfold emitter_emit, scheduler_event_message.
  assert (Herr : ∀ kind message seq em,
    kind = KExecutionCancelled ∨ kind = KReportDeliveryFailed →
    ∃ e, check_event t agent_id (number_event (event_message ev kind job_id version (uuid_bytes run_id) 0
           message false None) seq em) = Err e).
  { intros kind message seq inst Hkind. unfold check_event; cbn -[uuid_bytes event_kind_code].
    repeat (case_match; [by eexists|]).
    repeat match goal with |- context [i64_try_from ?e ?x] => destruct (i64_try_from e x) as [?|?]; cbn -[uuid_bytes event_kind_code]; [|by eexists] end.
    unfold validate_job_event_attribution. cbn -[uuid_bytes event_kind_code event_kind_of_code].
    rewrite event_kind_of_to. rewrite (bool_decide_eq_false_2 (kind = KUnspecified)) by naive_solver.
    rewrite (bool_decide_eq_false_2 (uuid_bytes job_id = [])) by (intros Hnil; by apply (f_equal length) in Hnil).
    cbn -[uuid_bytes]. case_match; [by eexists|].
    assert (requires_execution_identity kind = true) as -> by (destruct Hkind; by subst).
    cbn -[uuid_bytes]. rewrite orb_true_r. by eexists. }
  assert (Hbad : ∀ m, (∃ e, check_event t agent_id m = Err e) →
    handle_job_event encode_event t agent_id m now rows =
      (Err (TProtocol "failed to persist Agent Job event"), rows)).
  { intros m [e He]. unfold handle_job_event, append_job_event. rewrite He. by rewrite app_nil_r. }
  destruct Hk as [->|[error ->]]; eexists _, _; (split; [reflexivity|]); apply Hbad, Herr; auto.
Qed.

Lemma cancelled_event_ends_session_witness :
  ∃ message em',
    emitter_emit (mkSchedulerEvent 5 0 (ExecutionCancelled 7 1 3)) (emitter_new (uuid_bytes 1)) =
      (Some message, em') ∧
    handle_job_event (λ _, []) demo_tables1 "agent-a" message 0 [] =
      (Err (TProtocol "failed to persist Agent Job event"), []).
Proof.
  apply (cancelled_event_ends_session (λ _, []) (mkSchedulerEvent 5 0 (ExecutionCancelled 7 1 3))).
  exists 7, 1, 3. by left.
Defined.

(** ** The numbering of the events *)

Lemma emit_all_sequences events em :
  0 ≤ em_next_sequence em →
  em_next_sequence em + zlen (emit_all events em) ≤ u64_max →
  je_sequence <$> emit_all events em = seqZ (em_next_sequence em + 1) (zlen (emit_all events em)) ∧
  Forall (λ e, je_instance_id e = em_instance_id em) (emit_all events em).
Proof.
  revert em. induction events as [|ev events IH]; intros em H0 Hb; cbn; [done|].
  cbn in Hb. unfold emitter_emit in *. destruct (scheduler_event_message ev) as [m|]; cbn in *; [|by apply IH].
  unfold zlen in *. cbn [length] in *. unfold saturating_add in *.
  rewrite Z.min_r in * by (unfold u64_max in *; lia).
  destruct (IH (mkEmitter (em_instance_id em) (em_next_sequence em + 1))) as [IH1 IH2]; cbn; [lia|lia|].
  cbn in IH1, IH2. split.
  - rewrite seqZ_cons by lia. f_equal. rewrite IH1. f_equal; lia.
  - constructor; done.
Qed.

Lemma filter_none_list {A} (P : A → Prop) `{∀ a, Decision (P a)} (l : list A) :
  (∀ a, a ∈ l → ¬ P a) → filter P l = [].
Proof.
  intros Hl. induction l as [|a l IH]; [done|].
  rewrite filter_cons_False, IH by (intros; apply Hl; set_solver). done.
Qed.

(** ** Gaps *)

(** The flags of a stream that follows the event numbered [previous]. *)
Fixpoint gap_flags (previous : Z) (sequences : list Z) : list bool :=
  match sequences with
  | [] => []
  | s :: ss => bool_decide (previous + 1 < s) :: gap_flags s ss
  end.

Lemma gap_flags_none previous ss :
  StronglySorted Z.lt (previous :: ss) →
  Forall (eq false) (gap_flags previous ss) ↔ ss = seqZ (previous + 1) (zlen ss).
Proof.
  revert previous. induction ss as [|s ss IH]; intros p Hs; cbn; [done|].
  inversion_clear Hs as [|? ? Hs' Hp]. inversion Hp as [|? ? Hps _]; subst.
  rewrite Forall_cons, (IH s Hs'). unfold zlen. cbn [length].
  rewrite (seqZ_cons (p + 1)) by lia.
  replace (Z.pred (Z.of_nat (S (length ss)))) with (Z.of_nat (length ss)) by lia. split.
  - intros [Hb Hss]. symmetry in Hb. bools. assert (s = p + 1) as -> by lia.
    f_equal. rewrite Hss at 1. f_equal; lia.
  - intros [= -> Hss]. split; [|rewrite Hss at 1; f_equal; lia].
    symmetry. apply bool_decide_eq_false_2. lia.
Qed.

Section Gaps.
Context (encode_event : JobEvent → bytes) (t : JobTables) (agent_id : string) (inst : bytes) (now : Z).
Implicit Types (rows : list EventRow) (events : list JobEvent).

(** The events of the process stored so far are exactly numbered up to [previous],
    which is the greatest of them ([0] for none). *)
Definition stream_at (previous : Z) rows : Prop :=
  last_sequence agent_id inst rows = (if bool_decide (previous = 0) then None else Some previous) ∧
  ∀ row, row ∈ rows → er_agent_id row = agent_id → er_instance_id row = inst →
    er_sequence row ≤ previous.

Lemma foldr_max_snoc l x y : (∀ z, z ∈ x :: l → z ≤ y) → foldr Z.max x (l ++ [y]) = y.
Proof.
  induction l as [|z l IH]; cbn; intros Hz.
  - specialize (Hz x ltac:(set_solver)). lia.
  - rewrite IH by (intros; apply Hz; set_solver). specialize (Hz z ltac:(set_solver)). lia.
Qed.

Lemma stream_at_snoc previous rows row :
  stream_at previous rows → er_agent_id row = agent_id → er_instance_id row = inst →
  0 ≤ previous < er_sequence row → stream_at (er_sequence row) (rows ++ [row]).
Proof.
  intros [Hl Hall] Ha Hi Hlt. split.
  - rewrite bool_decide_eq_false_2 by lia. unfold last_sequence in *.
    rewrite filter_app, filter_cons_True, filter_nil, fmap_app by done. cbn.
    assert (Hin : ∀ z, z ∈ er_sequence <$>
      filter (λ r, er_agent_id r = agent_id ∧ er_instance_id r = inst) rows → z ≤ er_sequence row).
    { intros z (r & -> & [[? ?] ?]%list_elem_of_filter)%list_elem_of_fmap.
      specialize (Hall r ltac:(done) ltac:(done) ltac:(done)). lia. }
    destruct (er_sequence <$> _) as [|z zs]; [done|]. cbn. f_equal. by apply foldr_max_snoc.
  - intros r [Hr| ->%list_elem_of_singleton]%elem_of_app ??; [|lia].
    specialize (Hall r Hr ltac:(done) ltac:(done)). lia.
Qed.

Lemma check_event_i64 event : check_event t agent_id event = Ok tt → je_sequence event ≤ i64_max.
Proof.
  unfold check_event. repeat (case_match; [done|]). intros Hc.
  apply result_bind_Ok in Hc as (x & Hx & _). clear -Hx. unfold i64_try_from in Hx. by case_bool_decide.
Qed.

(** A new event of the process that passes the checks is stored, with the flag of
    the gap before it. *)
Lemma handle_checked_event previous event rows :
  stream_at previous rows → 0 ≤ previous < je_sequence event → je_instance_id event = inst →
  check_event t agent_id event = Ok tt →
  ∃ row, handle_job_event encode_event t agent_id event now rows = (Ok tt, rows ++ [row]) ∧
    er_agent_id row = agent_id ∧ er_instance_id row = inst ∧ er_sequence row = je_sequence event ∧
    er_payload row = encode_event event ∧
    er_gap_detected row = bool_decide (previous + 1 < je_sequence event).
Proof.
  intros [Hl Hall] Hlt Hi Hc. unfold handle_job_event, append_job_event. rewrite Hc.
  apply check_event_i64 in Hc. rewrite Hi, app_nil_r.
  assert (Hf : find_event agent_id inst (je_sequence event) rows = None).
  { apply find_event_None. intros r Hr (? & ? & ?). specialize (Hall r Hr ltac:(done) ltac:(done)). lia. }
  rewrite Hf, Hl. unfold insert_event. cbn -[event_row]. cbn [er_agent_id er_instance_id er_sequence event_row].
  rewrite Hi, Hf. eexists. split; [reflexivity|]. cbn. rewrite Hi. split_and!; [done..|].
  case_bool_decide; apply bool_decide_ext; lia.
Qed.

Lemma handle_new_event previous event rows rows' :
  stream_at previous rows → 0 ≤ previous < je_sequence event → je_instance_id event = inst →
  handle_job_event encode_event t agent_id event now rows = (Ok tt, rows') →
  ∃ row, rows' = rows ++ [row] ∧ er_agent_id row = agent_id ∧ er_instance_id row = inst ∧
    er_sequence row = je_sequence event ∧
    er_gap_detected row = bool_decide (previous + 1 < je_sequence event).
Proof.
  intros Hst Hlt Hi Hh. destruct (check_event t agent_id event) as [[]|e] eqn:Hc.
  - destruct (handle_checked_event _ _ _ Hst Hlt Hi Hc) as (row & Hh' & ? & ? & ? & _ & ?).
    rewrite Hh in Hh'. injection Hh' as ->. by exists row.
  - revert Hh. unfold handle_job_event, append_job_event. by rewrite Hc.
Qed.

Lemma event_session_rows previous events rows rows' :
  stream_at previous rows → 0 ≤ previous →
  StronglySorted Z.lt (previous :: (je_sequence <$> events)) →
  Forall (λ e, je_instance_id e = inst) events →
  event_session encode_event t agent_id now events rows = (Ok tt, rows') →
  ∃ new, rows' = rows ++ new ∧
    Forall (λ r, er_agent_id r = agent_id ∧ er_instance_id r = inst) new ∧
    er_gap_detected <$> new = gap_flags previous (je_sequence <$> events).
Proof.
  revert previous rows. induction events as [|e events IH]; intros p rows Hst Hp Hs Hi He; cbn in He.
  { injection He as <-. exists []. by rewrite app_nil_r. }
  destruct (handle_job_event _ _ _ _ _ _) as [[[]|?] rows1] eqn:Hh; [|done].
  inversion_clear Hi as [|? ? Hie Hi']. inversion_clear Hs as [|? ? Hs' Hall].
  inversion Hall as [|? ? Hlt _]; subst.
  destruct (handle_new_event p e rows rows1 Hst ltac:(lia) ltac:(done) Hh) as (row & -> & Ha & Hri & Hseq & Hg).
  destruct (IH (je_sequence e) (rows ++ [row])) as (new & -> & Hnew & Hflags); [|lia|done|done|done|].
  { rewrite <-Hseq. eapply stream_at_snoc; [done..|lia]. }
  exists (row :: new). rewrite <-app_assoc. split_and!; [done|by constructor|].
  cbn. by rewrite Hg, Hflags.
Qed.

End Gaps.

Lemma sublist_prefix_by_key {A} (f : A → Z) (l l' : list A) (base : Z) :
  sublist l l' → f <$> l' = seqZ base (zlen l') → f <$> l = seqZ base (zlen l) →
  l = take (length l) l'.
Proof.
  intros Hsub Hk' Hk. pose proof (sublist_length _ _ Hsub) as Hlen. apply list_eq. intros i.
  destruct (decide (i < length l)%nat) as [Hi|Hi].
  - rewrite lookup_take_lt by done. apply lookup_lt_is_Some in Hi as [x Hx]. rewrite Hx.
    assert (Hfx : f x = base + Z.of_nat i).
    { apply (f_equal (.!! i)) in Hk. rewrite list_lookup_fmap, Hx in Hk. cbn in Hk. symmetry in Hk.
      apply lookup_seqZ in Hk as [-> _]. done. }
    assert (Hin : x ∈ l') by (eapply elem_of_submseteq; [by eapply list_elem_of_lookup_2|by apply sublist_submseteq]).
    apply list_elem_of_lookup in Hin as [j Hj].
    pose proof Hj as Hj'. apply (f_equal (fmap f)) in Hj'.
    rewrite <-list_lookup_fmap, Hk' in Hj'. apply lookup_seqZ in Hj' as [Heq _].
    assert (j = i) as -> by lia. done.
  - rewrite lookup_take_ge by lia. by apply lookup_ge_None_2; lia.
Qed.

Lemma seqZ_sorted base n : StronglySorted Z.lt ((base - 1) :: seqZ base n).
Proof.
  assert (H : ∀ k b, StronglySorted Z.lt (seqZ b (Z.of_nat k)) ∧ Forall (Z.lt (b - 1)) (seqZ b (Z.of_nat k))).
  { induction k as [|k IH]; intros b; [split; constructor|].
    rewrite seqZ_cons by lia. replace (Z.pred (Z.of_nat (S k))) with (Z.of_nat k) by lia.
    destruct (IH (Z.succ b)) as [IH1 IH2]. split; constructor; [done| |lia|].
    - eapply Forall_impl; [exact IH2|]. cbn. lia.
    - eapply Forall_impl; [exact IH2|]. cbn. lia. }
  destruct (Z_le_gt_dec 0 n) as [Hn|Hn].
  - rewrite <-(Z2Nat.id n) by lia. destruct (H (Z.to_nat n) base). by constructor.
  - rewrite seqZ_nil by lia. repeat constructor.
Qed.

Lemma sublist_sorted (l l' : list Z) : sublist l l' → StronglySorted Z.lt l' → StronglySorted Z.lt l.
Proof.
  induction 1 as [|x l l' Hs IH|x l l' Hs IH]; intros Hl'; [done|..]; inversion_clear Hl' as [|? ? Hl Hx].
  - constructor; [by apply IH|]. rewrite Forall_forall in *. intros y Hy. apply Hx.
    eapply elem_of_submseteq; [exact Hy|]. by apply sublist_submseteq.
  - by apply IH.
Qed.

(** The Server's gap flags are exact for the stream of one Agent process: take the
    events its scheduler produced, any subset of them in order that its outbox
    delivered, and a Server that had nothing from this process; if the session
    accepted them all, no stored event is flagged if and only if nothing was lost
    before the last one delivered. *)
Theorem gap_detection_exact (encode_event : JobEvent → bytes) t agent_id now events inst wire
    rows rows' :
  let emitted := emit_all events (emitter_new inst) in
  zlen emitted ≤ u64_max → sublist wire emitted →
  (∀ row, row ∈ rows → er_agent_id row = agent_id → er_instance_id row ≠ inst) →
  event_session encode_event t agent_id now wire rows = (Ok tt, rows') →
  (∀ row, row ∈ rows' → er_agent_id row = agent_id → er_instance_id row = inst →
     er_gap_detected row = false) ↔
  wire = take (length wire) emitted.
Proof.
  cbv zeta. set (emitted := emit_all events (emitter_new inst)). intros Hlen Hsub Hfresh Hs.
  destruct (emit_all_sequences events (emitter_new inst)) as [Hseq Hinst]; [done|exact Hlen|].
  fold emitted in Hseq, Hinst. cbn in Hseq, Hinst.
  assert (Hsubseq : sublist (je_sequence <$> wire) (je_sequence <$> emitted))
    by (clear -Hsub; induction Hsub; cbn; by constructor).
  pose proof (seqZ_sorted (0 + 1) (zlen emitted)) as Hsorted. rewrite <-Hseq in Hsorted.
  assert (Hws : StronglySorted Z.lt (0 :: (je_sequence <$> wire)))
    by (eapply sublist_sorted; [|exact Hsorted]; by constructor).
  assert (Hwi : Forall (λ e, je_instance_id e = inst) wire).
  { rewrite Forall_forall in *. intros e He. apply Hinst.
    eapply elem_of_submseteq; [exact He|]. by apply sublist_submseteq. }
  assert (Hst : stream_at agent_id inst 0 rows).
  { split; [|intros row Hr Ha Hi; by destruct (Hfresh row Hr Ha)].
    unfold last_sequence. cbn. replace (filter _ rows) with (@nil EventRow); [done|].
    symmetry. apply filter_none_list. intros row Hr [Ha Hi]. by apply (Hfresh row Hr Ha). }
  destruct (event_session_rows encode_event t agent_id inst now 0 wire rows rows' Hst ltac:(lia) Hws Hwi Hs)
    as (new & -> & Hnew & Hflags).
  assert (Hnone : (∀ row, row ∈ rows ++ new → er_agent_id row = agent_id → er_instance_id row = inst →
      er_gap_detected row = false) ↔ Forall (eq false) (er_gap_detected <$> new)).
  { rewrite Forall_fmap. unfold compose. rewrite Forall_forall in *. split.
    - intros Hall row Hr. destruct (Hnew row Hr). symmetry. apply Hall; [|done..]. set_solver.
    - intros Hall row [Hr|Hr]%elem_of_app Ha Hi; [by destruct (Hfresh row Hr Ha)|]. symmetry. by apply Hall. }
  rewrite Hnone, Hflags, (gap_flags_none 0) by done.
  replace (zlen (je_sequence <$> wire)) with (zlen wire) by (unfold zlen; by rewrite length_fmap).
  split.
  - intros Hw. eapply (sublist_prefix_by_key je_sequence); [exact Hsub|exact Hseq|exact Hw].
  - intros Hw. rewrite Hw at 1. rewrite fmap_take, Hseq. apply sublist_length in Hsub.
    unfold zlen. rewrite <-(Nat2Z.id (length wire)) at 1. clear -Hsub.
    apply list_eq. intros i. destruct (decide (i < length wire)%nat).
    + rewrite lookup_take_lt by lia. rewrite !lookup_seqZ_lt by (unfold zlen; lia). done.
    + rewrite lookup_take_ge by lia. symmetry. apply lookup_ge_None_2. rewrite length_seqZ. lia.
Qed.

(** ** Which events the Server takes *)

(** The job, the scheduler's version of it and the attempt of an event about one
    attempt of an execution. *)
Definition attempt_event (kind : SchedulerEventKind) : option (JobId * Z * Z) :=
  match kind with
  | ExecutionFailed job_id version _ attempt _ _
  | ExecutionTimedOut job_id version _ attempt
  | ExecutionPanicked job_id version _ attempt _
  | RetryScheduled job_id version _ attempt _ => Some (job_id, version, attempt)
  | _ => None
  end.

Definition valid_agent_id (agent_id : string) : Prop :=
  agent_id ≠ "" ∧ (String.length agent_id ≤ 64)%nat.

Lemma attempt_event_message ev job_id version attempt :
  attempt_event (ev_kind ev) = Some (job_id, version, attempt) →
  ∃ kind run_id message will_retry run_at,
    scheduler_event_message ev =
      Some (event_message ev kind job_id version (uuid_bytes run_id) attempt message will_retry run_at) ∧
    requires_execution_identity kind = true.
Proof.
  unfold scheduler_event_message. destruct (ev_kind ev); cbn; intros [= <- <- <-]; by eexists _, _, _, _, _.
Qed.

(** The checks on such an event come down to the revision being known. *)
Lemma check_attempt_event t agent_id seq inst ev kind job_id version run_id attempt message will_retry run_at :
  valid_agent_id agent_id → length inst = 16%nat → 1 ≤ seq ≤ i64_max →
  1 ≤ version ≤ i64_max → 1 ≤ attempt ≤ i32_max → requires_execution_identity kind = true →
  check_event t agent_id
    (number_event (event_message ev kind job_id version (uuid_bytes run_id) attempt message will_retry run_at)
       seq inst) =
  if bool_decide (is_Some (tb_versions t !! (agent_id, uuid_bytes job_id, version))) then Ok tt
  else Err (InvalidJobEvent "Job event revision does not belong to this Agent").
Proof.
  intros [Ha1 Ha2] Hi Hs Hv Hat Hk. unfold check_event, i64_try_from, i32_try_from.
  cbn -[uuid_bytes event_kind_code].
  rewrite (bool_decide_eq_false_2 (agent_id = "")) by done.
  rewrite (bool_decide_eq_false_2 (64 < _)%nat) by lia.
  rewrite (bool_decide_eq_false_2 (length inst ≠ 16%nat)) by lia.
  rewrite (bool_decide_eq_false_2 (seq = 0)) by lia. cbn -[uuid_bytes event_kind_code].
  rewrite !bool_decide_eq_true_2 by (unfold i64_max, i32_max in *; lia). cbn -[uuid_bytes event_kind_code].
  unfold validate_job_event_attribution, i64_try_from. cbn -[uuid_bytes event_kind_code event_kind_of_code].
  rewrite event_kind_of_to. rewrite (bool_decide_eq_false_2 (kind = KUnspecified)) by (intros ->; discriminate Hk).
  rewrite (bool_decide_eq_false_2 (version = 0)), andb_false_r, orb_false_r by lia.
  rewrite (bool_decide_eq_false_2 (length (uuid_bytes job_id) ≠ 16%nat)) by (rewrite uuid_bytes_length; lia).
  rewrite (bool_decide_eq_false_2 (length (uuid_bytes run_id) ≠ 16%nat)) by (rewrite uuid_bytes_length; lia).
  rewrite (bool_decide_eq_false_2 (attempt = 0)), Hk by lia. cbn -[uuid_bytes].
  rewrite (bool_decide_eq_true_2 (version ≤ i64_max)) by lia. done.
Qed.

(** The Agent labels the events about an execution with the scheduler's generation
    of the job, the Server looks the label up among the job's business revisions:
    a new event of this kind is stored if that generation happens to be a revision
    the job has had, and ends the session otherwise. *)
Theorem attempt_event_accepted_iff (encode_event : JobEvent → bytes) t agent_id now rows em ev
    job_id version attempt :
  attempt_event (ev_kind ev) = Some (job_id, version, attempt) →
  valid_agent_id agent_id → length (em_instance_id em) = 16%nat →
  0 ≤ em_next_sequence em < i64_max → 1 ≤ version ≤ i64_max → 1 ≤ attempt ≤ i32_max →
  stream_at agent_id (em_instance_id em) (em_next_sequence em) rows →
  ∃ message, emitter_emit ev em =
      (Some message, mkEmitter (em_instance_id em) (em_next_sequence em + 1)) ∧
    je_job_id message = uuid_bytes job_id ∧ je_revision message = version ∧
    (if bool_decide (is_Some (tb_versions t !! (agent_id, uuid_bytes job_id, version))) then
       ∃ row, handle_job_event encode_event t agent_id message now rows = (Ok tt, rows ++ [row]) ∧
         er_payload row = encode_event message ∧ er_gap_detected row = false
     else handle_job_event encode_event t agent_id message now rows =
            (Err (TProtocol "failed to persist Agent Job event"), rows)).
Proof.
  intros Hev Ha Hi Hseq Hv Hat Hst.
  destruct (attempt_event_message _ _ _ _ Hev) as (kind & run_id & text & retry & run_at & Hm & Hk).
  unfold emitter_emit. rewrite Hm. unfold saturating_add. rewrite Z.min_r by (unfold u64_max, i64_max in *; lia).
  eexists. split; [reflexivity|]. split; [done|]. split; [done|].
  pose proof (check_attempt_event t agent_id (em_next_sequence em + 1) (em_instance_id em) ev kind job_id version
    run_id attempt text retry run_at Ha Hi ltac:(lia) Hv Hat Hk) as Hc.
  match type of Hc with check_event _ _ ?m = _ => set (message := m) in * end.
  destruct (bool_decide (is_Some _)) eqn:Hb.
  - destruct (handle_checked_event encode_event t agent_id (em_instance_id em) now (em_next_sequence em) message rows
      Hst ltac:(cbn; lia) eq_refl Hc) as (row & Hh & _ & _ & _ & Hp & Hg).
    exists row. split_and!; [done..|]. rewrite Hg. apply bool_decide_eq_false_2. cbn. lia.
  - unfold handle_job_event, append_job_event. rewrite Hc. by rewrite app_nil_r.
Qed.

(** ** Witnesses *)

Definition demo_payload (e : JobEvent) : bytes := [je_sequence e; je_revision e; je_attempt e].
Definition demo_failure (attempt : Z) : SchedulerEvent :=
  mkSchedulerEvent 50 0 (ExecutionFailed 9 1 4 attempt "probe failed" true).
Definition demo_emitted : list JobEvent :=
  emit_all [demo_failure 1; demo_failure 2; demo_failure 3] (emitter_new (uuid_bytes 1)).
Definition demo_wire : list JobEvent := take 1 demo_emitted ++ drop 2 demo_emitted.
Definition demo_event : JobEvent := default (mkJobEvent 0 None 0 [] 0 [] 0 None None 0 "" false 0 []) (head demo_emitted).
Definition demo_rows : list EventRow :=
  (append_job_event demo_payload demo_tables1 "agent-a" demo_event 0 [] []).2.

Lemma append_event_idempotent_witness :
  append_job_event demo_payload demo_tables1 "agent-a" demo_event 0 [] [] =
    (Ok (event_id_text "agent-a" (uuid_bytes 1) 1), demo_rows) ∧
  identities_unique demo_rows ∧
  ∀ now', append_job_event demo_payload demo_tables1 "agent-a" demo_event now' [] demo_rows =
    (Ok (event_id_text "agent-a" (uuid_bytes 1) 1), demo_rows).
Proof.
  assert (Ha : append_job_event demo_payload demo_tables1 "agent-a" demo_event 0 [] [] =
    (Ok (event_id_text "agent-a" (uuid_bytes 1) 1), demo_rows)) by (vm_compute; reflexivity).
  destruct (append_event_idempotent demo_payload demo_tables1 "agent-a" demo_event 0 [] []
    (event_id_text "agent-a" (uuid_bytes 1) 1) demo_rows) as (H1 & H2 & _);
    [constructor|exact Ha|exact (conj Ha (conj H1 H2))].
Defined.

Lemma demo_wire_sublist : sublist demo_wire demo_emitted.
Proof.
  unfold demo_wire. rewrite <-(take_drop 1 demo_emitted) at 3. apply sublist_app; [done|].
  change 2%nat with (1 + 1)%nat. rewrite <-drop_drop. apply sublist_drop.
Qed.

(** The second of three events is lost, so the third one is flagged. *)
Lemma gap_detection_exact_witness :
  (event_session demo_payload demo_tables1 "agent-a" 0 demo_wire []).1 = Ok tt ∧
  ((∀ row, row ∈ (event_session demo_payload demo_tables1 "agent-a" 0 demo_wire []).2 →
      er_agent_id row = "agent-a" → er_instance_id row = uuid_bytes 1 → er_gap_detected row = false) ↔
   demo_wire = take (length demo_wire) demo_emitted).
Proof.
  split; [vm_compute; reflexivity|].
  apply (gap_detection_exact demo_payload demo_tables1 "agent-a" 0
    [demo_failure 1; demo_failure 2; demo_failure 3] (uuid_bytes 1) demo_wire []).
  - vm_compute. discriminate.
  - apply demo_wire_sublist.
  - intros row Hr. by apply not_elem_of_nil in Hr.
  - vm_compute. reflexivity.
Defined.

(** Generation 1 of job 9 is a revision of [demo_tables1]; generation 2 is not. *)
Lemma attempt_event_accepted_iff_witness :
  ∃ message, emitter_emit (mkSchedulerEvent 60 0 (ExecutionTimedOut 9 2 4 1)) (emitter_new (uuid_bytes 1)) =
      (Some message, mkEmitter (uuid_bytes 1) (0 + 1)) ∧
    handle_job_event demo_payload demo_tables1 "agent-a" message 0 [] =
      (Err (TProtocol "failed to persist Agent Job event"), []).
Proof.
  destruct (attempt_event_accepted_iff demo_payload demo_tables1 "agent-a" 0 [] (emitter_new (uuid_bytes 1))
    (mkSchedulerEvent 60 0 (ExecutionTimedOut 9 2 4 1)) 9 2 1) as (m & Hm & _ & _ & Hb).
  - reflexivity.
  - split; [discriminate|vm_compute; lia].
  - reflexivity.
  - vm_compute. split; [discriminate|reflexivity].
  - vm_compute. split; discriminate.
  - vm_compute. split; discriminate.
  - split; [reflexivity|]. intros row Hr. by apply not_elem_of_nil in Hr.
  - exists m. split; [exact Hm|].
    rewrite bool_decide_eq_false_2 in Hb; [exact Hb|]. apply (bool_decide_eq_false_1 _). vm_compute. reflexivity.
Defined.
