(* ===== verification/Paging.v ===== *)
(** * Paging through the Server's tables

    The lists of the web API come in pages: a request names the last row of the page
    before it in a cursor, and the Server answers with the rows that follow in the order
    of the list, newest first.  This file has what [report.list] and [event.list] of
    [crates/smalux-server/src/web_auth.rs] share: the cursor's text, the query
    and the page, and what a client gets that follows the cursors to the end. *)

From Stdlib Require Import Ascii.
From stdpp Require Import base gmap strings list pretty sorting.
From S2P Require Import Prelude Rotation Catalog.

(** ** Cursors *)

Definition digit_value (c : Ascii.ascii) : option Z :=
  let n := Z.of_nat (Ascii.nat_of_ascii c) in
  if bool_decide (48 ≤ n ≤ 57) then Some (n - 48) else None.

(** The value of a run of decimal digits, after the digits read so far. *)
Fixpoint parse_digits (acc : Z) (s : string) : option Z :=
  match s with
  | EmptyString => Some acc
  | String c s => d ← digit_value c; parse_digits (acc * 10 + d) s
  end.

Definition parse_nonempty_digits (s : string) : option Z :=
  match s with EmptyString => None | _ => parse_digits 0 s end.

(** [str::parse::<i64>]: an optional sign and at least one digit, within the type. *)
Definition parse_i64 (s : string) : option Z :=
  value ← match s with
          | String "-"%char s => Z.opp <$> parse_nonempty_digits s
          | String "+"%char s => parse_nonempty_digits s
          | _ => parse_nonempty_digits s
          end;
  checked_i64 value.

(** [str::split_once]. *)
Fixpoint split_once_text (sep : Ascii.ascii) (s : string) : option (string * string) :=
  match s with
  | EmptyString => None
  | String c s =>
      if bool_decide (c = sep) then Some (EmptyString, s)
      else '(a, b) ← split_once_text sep s; Some (String c a, b)
  end.

(** [parse_list_cursor] and [cursor_value]. *)
Definition parse_list_cursor (value : string) : option (Z * string) :=
  '(timestamp, id) ← split_once_text "|"%char value;
  timestamp ← parse_i64 timestamp;
  if negb (bool_decide (id = "")) && bool_decide (String.length id ≤ 256)%nat then Some (timestamp, id) else None.

Definition cursor_value (timestamp_micros : Z) (id : string) : string :=
  pretty timestamp_micros +:+ "|" +:+ id.

(** [validate_window]. *)
Definition validate_window (from_ms to_ms : option Z) : bool :=
  match from_ms, to_ms with
  | None, None => true
  | Some from, Some to => bool_decide (0 ≤ from) && bool_decide (from < to)
  | _, _ => false
  end.

(** ** Numbers as text *)

Lemma digit_value_char (x : N) : (x < 10)%N → digit_value (pretty_N_char x) = Some (Z.of_N x).
Proof.
  intros H. assert (x = 0 ∨ x = 1 ∨ x = 2 ∨ x = 3 ∨ x = 4 ∨ x = 5 ∨ x = 6 ∨ x = 7 ∨ x = 8 ∨ x = 9)%N as Hx by lia.
  by destruct_or! Hx; subst x.
Qed.

(** Reading the digits of [x] continues with [x] more. *)
Lemma parse_digits_go (x : N) s :
  ∃ p, 1 ≤ p ∧ ∀ acc, parse_digits acc (pretty_N_go x s) = parse_digits (acc * p + Z.of_N x) s.
Proof.
  revert s. induction (N.lt_wf_0 x) as [x _ IH]; intros s.
  assert (x = 0 ∨ 0 < x)%N as [->|Hx] by lia.
  { exists 1. split; [done|]. intros acc. rewrite pretty_N_go_0. f_equal. lia. }
  rewrite pretty_N_go_step by done.
  destruct (IH (x `div` 10)%N (N.div_lt x 10 Hx eq_refl) (String (pretty_N_char (x `mod` 10)) s)) as (p & Hp & Hgo).
  exists (p * 10). split; [lia|]. intros acc. rewrite Hgo. cbn.
  rewrite digit_value_char by (apply N.mod_lt; lia). cbn. f_equal.
  rewrite N2Z.inj_div, N2Z.inj_mod. pose proof (Z.div_mod (Z.of_N x) 10). lia.
Qed.

(** Every character is a digit. *)
Fixpoint all_digits (s : string) : Prop :=
  match s with EmptyString => True | String c s => is_Some (digit_value c) ∧ all_digits s end.

Lemma pretty_N_go_digits (x : N) s :
  (s ≠ "" ∨ 0 < x)%N → all_digits s → all_digits (pretty_N_go x s) ∧ pretty_N_go x s ≠ "".
Proof.
  revert s. induction (N.lt_wf_0 x) as [x _ IH]; intros s Hne Hs.
  assert (x = 0 ∨ 0 < x)%N as [->|Hx] by lia.
  { rewrite pretty_N_go_0. destruct Hne; [done|lia]. }
  rewrite pretty_N_go_step by done. apply IH; [by apply N.div_lt|by left|].
  split; [|done]. rewrite digit_value_char by (apply N.mod_lt; lia). eauto.
Qed.

Lemma pretty_N_digits (x : N) : all_digits (pretty x) ∧ pretty x ≠ "".
Proof.
  unfold pretty, pretty_N. case_decide; [split; [cbn; eauto|done]|].
  apply pretty_N_go_digits; [right; lia|done].
Qed.

Lemma parse_pretty_N (x : N) : parse_nonempty_digits (pretty x) = Some (Z.of_N x).
Proof.
  pose proof (pretty_N_digits x) as [_ Hne]. unfold parse_nonempty_digits.
  destruct (pretty x) as [|c s] eqn:E; [done|]. rewrite <- E. clear Hne E c s.
  unfold pretty, pretty_N. case_decide; [by subst|].
  destruct (parse_digits_go x "") as (p & _ & Hgo). by rewrite Hgo.
Qed.

Lemma digit_not_sign c : is_Some (digit_value c) → c ≠ "-"%char ∧ c ≠ "+"%char ∧ c ≠ "|"%char.
Proof. intros [d Hd]. split_and!; intros ->; by vm_compute in Hd. Qed.

Lemma parse_i64_pretty x : i64_min ≤ x ≤ i64_max → parse_i64 (pretty x) = Some x.
Proof.
  intros Hx.
  assert (∀ n : N, parse_i64 (pretty n) = checked_i64 (Z.of_N n)) as Hpos.
  { intros n. unfold parse_i64. destruct (pretty_N_digits n) as [Hd Hne]. pose proof (parse_pretty_N n) as Hp.
    destruct (pretty n) as [|c s]; [done|]. destruct Hd as [(H1 & H2 & _)%digit_not_sign _].
    destruct c as [[] [] [] [] [] [] [] []]; try (by rewrite Hp); done. }
  assert (checked_i64 x = Some x) as Hc by (unfold checked_i64; by rewrite bool_decide_eq_true_2).
  destruct x as [|q|q].
  - reflexivity.
  - change (parse_i64 (pretty (N.pos q)) = Some (Z.pos q)). by rewrite Hpos.
  - change ((Z.opp <$> parse_nonempty_digits (pretty (N.pos q))) ≫= checked_i64 = Some (Z.neg q)).
    by rewrite parse_pretty_N.
Qed.

Lemma split_once_text_app sep a b :
  Forall (λ c, c ≠ sep) (String.list_ascii_of_string a) → split_once_text sep (a +:+ String sep b) = Some (a, b).
Proof.
  induction a as [|c a IH]; intros Ha.
  - change (split_once_text sep (String sep b) = Some ("", b)). unfold split_once_text. by rewrite bool_decide_eq_true_2.
  - apply Forall_cons in Ha as [Hc Ha].
    change ((if bool_decide (c = sep) then Some ("", a +:+ String sep b)
             else '(x, y) ← split_once_text sep (a +:+ String sep b); Some (String c x, y)) = Some (String c a, b)).
    rewrite bool_decide_eq_false_2 by done. by rewrite IH.
Qed.

Lemma all_digits_no_bar s : all_digits s → Forall (λ c, c ≠ "|"%char) (String.list_ascii_of_string s).
Proof.
  induction s as [|c s IH]; [constructor|]. intros [(_ & _ & ?)%digit_not_sign ?]. constructor; [done|by apply IH].
Qed.

Lemma pretty_Z_no_bar (x : Z) : Forall (λ c, c ≠ "|"%char) (String.list_ascii_of_string (pretty x)).
Proof.
  destruct x as [|q|q].
  - by repeat constructor.
  - apply all_digits_no_bar, (pretty_N_digits (N.pos q)).
  - constructor; [done|]. apply all_digits_no_bar, (pretty_N_digits (N.pos q)).
Qed.

(** A cursor reads back as the row it was written for. *)
Lemma parse_cursor_value timestamp id :
  i64_min ≤ timestamp ≤ i64_max → id ≠ "" → (String.length id ≤ 256)%nat →
  parse_list_cursor (cursor_value timestamp id) = Some (timestamp, id).
Proof.
  intros Ht Hne Hlen. unfold parse_list_cursor.
  change (cursor_value timestamp id) with (pretty timestamp +:+ String "|"%char id).
  rewrite (split_once_text_app "|"%char (pretty timestamp) id (pretty_Z_no_bar timestamp)). cbn.
  rewrite parse_i64_pretty by done. cbn.
  by rewrite (bool_decide_eq_false_2 (id = "")), (bool_decide_eq_true_2 (_ ≤ _)%nat).
Qed.

(** ** Queries and pages *)

(** The database's comparison of texts: a strict total order, the same in [ORDER BY] and
    in [<] (a binary collation). *)
Class TextOrder : Type := text_ltb : string → string → bool.

Class TextOrderLaws (TO : TextOrder) : Prop := {
  text_lt_irrefl a : text_ltb a a = false;
  text_lt_trans a b c : text_ltb a b = true → text_ltb b c = true → text_ltb a c = true;
  text_lt_total a b : text_ltb a b = true ∨ a = b ∨ text_ltb b a = true;
}.

(** The rows of a list by time and id. *)
Class Listed (A : Type) : Type := {
  row_time : A → Z;
  row_id : A → string;
}.

Section Query.
Context `{TO : TextOrder} {A : Type} `{L : Listed A}.
Implicit Types (row : A) (rows : list A).

Definition row_cursor row : Z * string := (row_time row, row_id row).

(** [(time, id)] comes strictly after the cursor in the list: it is older, or as old with
    a smaller id. *)
Definition key_after (cursor key : Z * string) : bool :=
  bool_decide (key.1 < cursor.1) || (bool_decide (key.1 = cursor.1) && text_ltb key.2 cursor.2).

(** The [Condition::any()] of the queries. *)
Definition after_cursor (after : option (Z * string)) row : bool :=
  match after with
  | None => true
  | Some cursor => key_after cursor (row_cursor row)
  end.

(** [ORDER BY time DESC, id DESC]. *)
Definition list_before row row' : Prop := key_after (row_cursor row') (row_cursor row) = false.
#[global] Instance list_before_dec : RelDecision list_before.
Proof. intros a b. unfold list_before. apply _. Defined.

(** [limit.clamp(lo, hi)]. *)
Definition clamp (lo hi x : Z) : Z := if bool_decide (x < lo) then lo else if bool_decide (hi < x) then hi else x.

(** The query of a list: the rows that match after the cursor, in order, up to the limit. *)
Definition query_rows (matches : A → bool) (after : option (Z * string)) (limit : Z) rows : list A :=
  take (Z.to_nat (clamp 1 101 limit))
    (merge_sort list_before (filter (λ row, matches row && after_cursor after row = true) rows)).

(** The page of an answer: the query asks for one row more than the page holds. *)
Definition page_of (limit : Z) (records : list A) : list A * option string :=
  let has_more := bool_decide (limit < zlen records) in
  (take (Z.to_nat limit) records,
   if has_more then (λ row, cursor_value (row_time row) (row_id row)) <$> records !! Z.to_nat (limit - 1) else None).

(** The part of [report.list] and [event.list] after their checks: the cursor of the
    request, the query and the answer. [None] is the refused cursor. *)
Definition list_page (matches : A → bool) (limit : Z) (cursor : option string) rows :
    option (list A * option string) :=
  after ← match cursor with
          | None => Some None
          | Some text =>
              match parse_list_cursor text with
              | Some (time, id) => if bool_decide (0 ≤ time) then Some (Some (time, id)) else None
              | None => None
              end
          end;
  Some (page_of limit (query_rows matches after (limit + 1) rows)).

(** A client that follows the cursors; [tables k] are the rows when it asks for the page
    number [k].  It is done when there is no further cursor, and stops when one is refused. *)
Inductive WalkEnd : Type := WalkDone | WalkRefused | WalkOutOfTurns.
Fixpoint walk_pages (matches : A → bool) (limit : Z) (tables : nat → list A) (fuel k : nat)
    (cursor : option string) : list A * WalkEnd :=
  match fuel with
  | O => ([], WalkOutOfTurns)
  | S fuel =>
      match list_page matches limit cursor (tables k) with
      | None => ([], WalkRefused)
      | Some (items, None) => (items, WalkDone)
      | Some (items, Some text) =>
          let '(rest, e) := walk_pages matches limit tables fuel (S k) (Some text) in (items ++ rest, e)
      end
  end.

End Query.

(** ** Walking the pages *)

Section Walk.
Context `{TO : TextOrder} `{TL : !TextOrderLaws TO} {A : Type} `{L : Listed A}.
Implicit Types (row : A) (rows : list A).

Definition list_follows row row' : Prop := key_after (row_cursor row) (row_cursor row') = true.

Lemma key_after_iff c k : key_after c k = true ↔ k.1 < c.1 ∨ k.1 = c.1 ∧ text_ltb k.2 c.2 = true.
Proof. unfold key_after. by rewrite orb_true_iff, andb_true_iff, !bool_decide_eq_true. Qed.

Lemma key_after_irrefl k : key_after k k = false.
Proof.
  destruct (key_after k k) eqn:E; [|done]. apply key_after_iff in E as [?|[_ E]]; [lia|].
  by rewrite text_lt_irrefl in E.
Qed.

Lemma key_after_trans a b c : key_after a b = true → key_after b c = true → key_after a c = true.
Proof.
  rewrite !key_after_iff. intros [H1|[H1 H1']] [H2|[H2 H2']]; [left; lia..|right]. split; [lia|].
  by eapply text_lt_trans.
Qed.

Lemma key_after_total a b : key_after a b = true ∨ a = b ∨ key_after b a = true.
Proof.
  destruct a as [t i], b as [t' i']. rewrite !key_after_iff. cbn.
  destruct (Z.lt_trichotomy t t') as [?|[->|?]]; [by right; right; left| |by left; left].
  destruct (text_lt_total i i') as [?|[->|?]]; auto.
Qed.

Global Instance list_before_total : Total (list_before (A := A)).
Proof.
  intros a b. unfold list_before.
  destruct (key_after (row_cursor b) (row_cursor a)) eqn:E1, (key_after (row_cursor a) (row_cursor b)) eqn:E2; auto.
  pose proof (key_after_trans _ _ _ E1 E2) as E. by rewrite key_after_irrefl in E.
Qed.

Global Instance list_before_trans : Transitive (list_before (A := A)).
Proof.
  intros a b c. unfold list_before. intros H1 H2.
  destruct (key_after (row_cursor c) (row_cursor a)) eqn:E; [|done].
  destruct (key_after_total (row_cursor a) (row_cursor b)) as [Hab|[Hab|Hab]]; [| |congruence].
  - by rewrite (key_after_trans _ _ _ E Hab) in H2.
  - by rewrite Hab in E; rewrite E in H2.
Qed.

(** Sorted rows with different keys follow one another strictly. *)
Lemma sorted_strictly rows :
  NoDup (row_cursor <$> rows) → StronglySorted list_before rows → StronglySorted list_follows rows.
Proof.
  intros Hnd. induction 1 as [|row rows Hs IH Hall]; [constructor|].
  rewrite fmap_cons in Hnd. apply NoDup_cons in Hnd as [Hn Hnd]. constructor; [by apply IH|].
  apply Forall_forall. intros r Hr. rewrite Forall_forall in Hall. specialize (Hall r Hr).
  unfold list_before in Hall. unfold list_follows.
  destruct (key_after_total (row_cursor row) (row_cursor r)) as [?|[E|E]]; [done| |congruence].
  destruct Hn. rewrite E. by apply list_elem_of_fmap_2.
Qed.

(** A history of the table: rows are added, none is removed; their keys are unique, and
    their columns have the widths of the table. *)
Record table_history (tables : nat → list A) (final : list A) : Prop := {
  th_grows k row : row ∈ tables k → row ∈ tables (S k);
  th_final k row : row ∈ tables k → row ∈ final;
  th_unique k : NoDup (row_cursor <$> tables k);
  th_time row : row ∈ final → i64_min ≤ row_time row ≤ i64_max;
  th_id row : row ∈ final → row_id row ≠ "" ∧ (String.length (row_id row) ≤ 256)%nat;
}.

Section History.
Context (matches : A → bool) (limit : Z) (tables : nat → list A) (final : list A).
Context (Hlimit : 1 ≤ limit ≤ 100) (Hist : table_history tables final).

(** The matching rows of a table after a cursor, in order. *)
Definition rest_of (k : nat) (after : option (Z * string)) : list A :=
  merge_sort list_before (filter (λ row, matches row && after_cursor after row = true) (tables k)).

Lemma rest_of_elem k after row :
  row ∈ rest_of k after ↔ row ∈ tables k ∧ matches row = true ∧ after_cursor after row = true.
Proof. unfold rest_of. rewrite merge_sort_Permutation, list_elem_of_filter, andb_true_iff. naive_solver. Qed.

Lemma rest_of_sorted k after : StronglySorted list_follows (rest_of k after).
Proof.
  apply sorted_strictly; [|by apply (StronglySorted_merge_sort _)].
  unfold rest_of. rewrite merge_sort_Permutation. eapply sublist_NoDup; [apply (th_unique _ _ Hist k)|].
  apply fmap_sublist, sublist_filter.
Qed.

(** The page after a cursor: the first rows of the rest, and a cursor at the last of
    them exactly if there are more. *)
Lemma page_of_rest k after :
  page_of limit (query_rows matches after (limit + 1) (tables k)) =
    (take (Z.to_nat limit) (rest_of k after),
     (λ row, cursor_value (row_time row) (row_id row)) <$>
       (if bool_decide (limit < zlen (rest_of k after)) then rest_of k after !! Z.to_nat (limit - 1) else None)).
Proof.
  unfold page_of, query_rows. fold (rest_of k after).
  replace (clamp 1 101 (limit + 1)) with (limit + 1) by (unfold clamp; repeat case_bool_decide; lia).
  rewrite take_take, Nat.min_l by lia. f_equal. unfold zlen. rewrite length_take.
  rewrite (bool_decide_ext _ (limit < Z.of_nat (length (rest_of k after)))) by lia.
  case_bool_decide; [|done]. rewrite lookup_take_lt by lia. done.
Qed.

(** The cursors a client holds. *)
Definition cursor_of (last : option A) : option string := (λ row, cursor_value (row_time row) (row_id row)) <$> last.

Lemma list_page_of (last : option A) k :
  (∀ row, last = Some row → row ∈ final ∧ 0 ≤ row_time row) →
  list_page matches limit (cursor_of last) (tables k) =
    Some (page_of limit (query_rows matches (row_cursor <$> last) (limit + 1) (tables k))).
Proof.
  intros Hlast. unfold list_page. destruct last as [row|]; [|done].
  change (cursor_of (Some row)) with (Some (cursor_value (row_time row) (row_id row))).
  destruct (Hlast _ eq_refl) as [Hrow Ht]. destruct (th_id _ _ Hist row Hrow).
  rewrite parse_cursor_value by (by apply (th_time _ _ Hist) || done).
  by rewrite bool_decide_eq_true_2 by lia.
Qed.

(** The cursor of a row from before 1970 is refused. *)
Lemma list_page_refused row k :
  row ∈ final → row_time row < 0 → list_page matches limit (cursor_of (Some row)) (tables k) = None.
Proof.
  intros Hrow Ht. unfold list_page. change (cursor_of (Some row)) with (Some (cursor_value (row_time row) (row_id row))).
  destruct (th_id _ _ Hist row Hrow). rewrite parse_cursor_value by (by apply (th_time _ _ Hist) || done).
  by rewrite bool_decide_eq_false_2 by lia.
Qed.

(** Where the rest is cut, everything beyond follows the last row of the page. *)
Lemma rest_of_cut k after :
  limit < zlen (rest_of k after) →
  ∃ row, rest_of k after !! Z.to_nat (limit - 1) = Some row ∧
    take (Z.to_nat limit) (rest_of k after) = take (Z.to_nat (limit - 1)) (rest_of k after) ++ [row] ∧
    Forall (λ r, list_follows r row) (take (Z.to_nat (limit - 1)) (rest_of k after)) ∧
    Forall (list_follows row) (drop (Z.to_nat limit) (rest_of k after)).
Proof.
  intros Hlen. unfold zlen in Hlen.
  destruct (lookup_lt_is_Some_2 (rest_of k after) (Z.to_nat (limit - 1)) ltac:(lia)) as [row Hrow].
  exists row. split; [done|].
  assert (Z.to_nat limit = S (Z.to_nat (limit - 1))) as Hn by lia. rewrite Hn.
  assert (take (S (Z.to_nat (limit - 1))) (rest_of k after) =
          take (Z.to_nat (limit - 1)) (rest_of k after) ++ [row]) as Ht by (by apply take_S_r).
  pose proof (rest_of_sorted k after) as Hs.
  rewrite <- (take_drop (S (Z.to_nat (limit - 1))) (rest_of k after)), Ht in Hs.
  apply StronglySorted_app in Hs as (Hcross & Hs1 & _).
  apply StronglySorted_app in Hs1 as (Hcross1 & _ & _).
  split; [done|]. split; apply Forall_forall; intros r Hr.
  - apply Hcross1; [done|set_solver].
  - apply Hcross; [set_solver|done].
Qed.

(** Rows of the final table a client may still be given. *)
Definition remaining (last : option A) : nat :=
  length (filter (λ row, after_cursor (row_cursor <$> last) row = true) final).

Lemma after_cursor_weaken last row r :
  after_cursor (row_cursor <$> last) row = true → list_follows row r → after_cursor (row_cursor <$> last) r = true.
Proof. destruct last as [c|]; [|done]. cbn. intros H1 H2. by eapply key_after_trans. Qed.

Lemma remaining_decreases last row :
  row ∈ final → after_cursor (row_cursor <$> last) row = true → (remaining (Some row) < remaining last)%nat.
Proof.
  intros Hin Ha. unfold remaining.
  assert (filter (λ r, after_cursor (row_cursor <$> Some row) r = true) final =
    filter (λ r, after_cursor (row_cursor <$> Some row) r = true)
      (filter (λ r, after_cursor (row_cursor <$> last) r = true) final)) as ->.
  { rewrite list_filter_filter. apply list_filter_iff. intros r. split; [|naive_solver].
    intros Hr. split; [done|]. by eapply after_cursor_weaken. }
  eapply (length_filter_lt _ _ row); [by apply list_elem_of_filter|]. cbn. by rewrite key_after_irrefl.
Qed.

Lemma walk_from fuel k last :
  (remaining last < fuel)%nat → (∀ row, last = Some row → row ∈ final) →
  ∃ out e, walk_pages matches limit tables fuel k (cursor_of last) = (out, e) ∧ e ≠ WalkOutOfTurns ∧
    StronglySorted list_follows out ∧
    (∀ row, row ∈ out → row ∈ final ∧ matches row = true ∧ after_cursor (row_cursor <$> last) row = true) ∧
    (∀ row, row ∈ tables k → matches row = true → after_cursor (row_cursor <$> last) row = true →
       e = WalkDone ∨ 0 ≤ row_time row → row ∈ out) ∧
    (e = WalkRefused → ∃ row, (row ∈ out ∨ last = Some row) ∧ row_time row < 0).
Proof.
  revert k last. induction fuel as [|fuel IH]; intros k last Hfuel Hlast; [lia|].
  cbn [walk_pages].
  assert ((∃ row, last = Some row ∧ row_time row < 0) ∨ ¬ ∃ row, last = Some row ∧ row_time row < 0) as [(row & -> & Ht)|Hpos].
  { destruct last as [row|]; [|right; naive_solver]. destruct (decide (row_time row < 0)); [left; eauto|right; naive_solver]. }
  { rewrite list_page_refused by auto. exists [], WalkRefused. split_and!; [done|done|constructor|by intros ? ?%elem_of_nil| |by eauto].
    intros r _ _ Ha [?|?]; [done|]. exfalso. cbn in Ha. apply key_after_iff in Ha. cbn in Ha. lia. }
  assert (∀ row, last = Some row → row ∈ final ∧ 0 ≤ row_time row) as Hlast'.
  { intros row E. split; [by apply Hlast|]. destruct (decide (row_time row < 0)); [|lia]. destruct Hpos. eauto. }
  rewrite list_page_of, page_of_rest by done.
  set (rest := rest_of k (row_cursor <$> last)). case_bool_decide as Hlen.
  - destruct (rest_of_cut k _ Hlen) as (row & Hrow & Htake & Hpre & Hpost). fold rest in Hrow, Htake, Hpre, Hpost.
    rewrite Hrow. cbn [fmap option_fmap option_map].
    assert (row ∈ final ∧ matches row = true ∧ after_cursor (row_cursor <$> last) row = true) as (Hf & Hm & Ha).
    { apply list_elem_of_lookup_2, rest_of_elem in Hrow as (? & ? & ?). split; [|done]. by eapply (th_final _ _ Hist). }
    destruct (IH (S k) (Some row)) as (out & e & Hw & He & Hso & Hin & Hall & Href).
    { pose proof (remaining_decreases last row Hf Ha). lia. }
    { by intros ? [= <-]. }
    change (cursor_of (Some row)) with (Some (cursor_value (row_time row) (row_id row))) in Hw. rewrite Hw.
    eexists _, e. split; [done|]. split; [done|]. rewrite Htake. split_and!.
    + apply StronglySorted_app. split_and!; [|rewrite <- Htake|done].
      * intros x y Hx Hy. destruct (Hin y Hy) as (_ & _ & Hy'). cbn in Hy'.
        apply elem_of_app in Hx as [Hx| ->%list_elem_of_singleton]; [|done].
        rewrite Forall_forall in Hpre. by eapply key_after_trans; [apply Hpre|].
      * pose proof (rest_of_sorted k (row_cursor <$> last)) as Hs. fold rest in Hs.
        rewrite <- (take_drop (Z.to_nat limit) rest) in Hs. by apply StronglySorted_app_1_l in Hs.
    + intros x [Hx|Hx]%elem_of_app.
      * rewrite <- Htake in Hx. apply subseteq_take, rest_of_elem in Hx as (? & ? & ?). split; [|done].
        by eapply (th_final _ _ Hist).
      * destruct (Hin x Hx) as (? & ? & ?). split_and!; [done..|]. by eapply after_cursor_weaken.
    + intros x Hx Hmx Hax Hnon. apply elem_of_app. rewrite <- Htake.
      assert (x ∈ rest) as Hr by (by apply rest_of_elem).
      rewrite <- (take_drop (Z.to_nat limit) rest) in Hr. apply elem_of_app in Hr as [?|Hd]; [by left|right].
      apply Hall; [by apply (th_grows _ _ Hist)|done| |done]. rewrite Forall_forall in Hpost. by apply Hpost.
    + intros (r & [Hr|[= ->]] & Ht)%Href; exists r; (split; [left|done]); rewrite !elem_of_app; [by right|].
      left. right. by apply list_elem_of_singleton.
  - cbn. eexists _, WalkDone. split; [done|]. split; [done|]. rewrite take_ge by (unfold zlen in Hlen; lia). split_and!.
    + apply rest_of_sorted.
    + intros x (? & ? & ?)%rest_of_elem. split; [|done]. by eapply (th_final _ _ Hist).
    + intros x Hx Hm Ha _. by apply rest_of_elem.
    + done.
Qed.

End History.
End Walk.

(** C35. A client that follows the cursors of a list to the end is given every matching row
    that was in the table when it started, exactly once and in the order of the list,
    for every page size the API accepts, although rows are added to the table while it
    pages; every row it is given matches. The walk comes to an end. A request in it is
    refused only after a row with a negative time was given out at the end of a page, whose
    cursor the Server does not accept back; rows with times from 0 on are all given even
    then. *)
Theorem walk_pages_complete `{TO : TextOrder} `{TL : !TextOrderLaws TO} {A : Type} `{L : Listed A}
    (matches : A → bool) (limit : Z) (tables : nat → list A) (final : list A) :
  1 ≤ limit ≤ 100 → table_history tables final →
  ∃ out e, walk_pages matches limit tables (S (length final)) 0 None = (out, e) ∧ e ≠ WalkOutOfTurns ∧
    StronglySorted list_follows out ∧ NoDup out ∧
    (∀ row, row ∈ tables 0%nat → matches row = true → e = WalkDone ∨ 0 ≤ row_time row → row ∈ out) ∧
    (∀ row, row ∈ out → row ∈ final ∧ matches row = true) ∧
    (e = WalkRefused → ∃ row, row ∈ out ∧ row_time row < 0).
Proof.
  intros Hlimit Hist.
  destruct (walk_from matches limit tables final Hlimit Hist (S (length final)) 0 None) as (out & e & Hw & He & Hs & Hin & Hall & Href).
  { unfold remaining. pose proof (length_filter (λ row, after_cursor (row_cursor <$> None) row = true) final). lia. }
  { done. }
  exists out, e. split_and!; [done..| |intros row ? ? ?; by apply Hall|intros row Hr; by destruct (Hin row Hr) as (? & ? & _)|].
  2: { intros (row & [?|?] & ?)%Href; [by exists row|done]. }
  clear Hw Hin Hall Href. induction Hs as [|row out Hs IH Hall]; constructor; [|done].
  intros Hr. rewrite Forall_forall in Hall. specialize (Hall row Hr). unfold list_follows in Hall.
  by rewrite key_after_irrefl in Hall.
Qed.

(** ** Binary collation *)

(** The bytes of a text, and their lexicographic order. *)
Definition text_bytes (s : string) : bytes :=
  (λ c, Z.of_nat (Ascii.nat_of_ascii c)) <$> String.list_ascii_of_string s.

Definition binary_collation : TextOrder := λ a b, negb (bytes_leb (text_bytes b) (text_bytes a)).

Lemma text_bytes_inj a b : text_bytes a = text_bytes b → a = b.
Proof.
  intros H. apply (list_fmap_eq_inj _) in H.
  - by rewrite <- (String.string_of_list_ascii_of_string a), H, String.string_of_list_ascii_of_string.
  - intros x y E. apply (inj Z.of_nat) in E. rewrite <- (Ascii.ascii_nat_embedding x), E. apply Ascii.ascii_nat_embedding.
Qed.

Lemma binary_collation_laws : TextOrderLaws binary_collation.
Proof.
  split; unfold text_ltb, binary_collation.
  - intros a. by rewrite (bytes_le_refl (text_bytes a)).
  - intros a b c. rewrite !negb_true_iff. intros H1 H2.
    destruct (bytes_leb (text_bytes c) (text_bytes a)) eqn:E; [|done].
    destruct (bytes_le_total (text_bytes a) (text_bytes b)) as [Hab|Hab]; unfold bytes_le in Hab; [|congruence].
    pose proof (bytes_le_trans _ _ _ E Hab) as Hcb. unfold bytes_le in Hcb. congruence.
  - intros a b. destruct (bytes_leb (text_bytes b) (text_bytes a)) eqn:E1; [|by left].
    destruct (bytes_leb (text_bytes a) (text_bytes b)) eqn:E2; [|by right; right].
    right; left. apply text_bytes_inj. by apply bytes_le_antisym.
Qed.

(** Four rows, one of them added after the first of two pages was read. *)
Definition demo_listed : Listed (Z * string) := {| row_time := fst; row_id := snd |}.
Definition demo_rows : list (Z * string) := [(10, "a"); (30, "b"); (20, "c"); (10, "d")].
Definition demo_histories (k : nat) : list (Z * string) := match k with O => take 3 demo_rows | _ => demo_rows end.

Lemma walk_pages_complete_witness :
  let _ := binary_collation in let _ := demo_listed in
  ∃ out e, walk_pages (λ row, bool_decide (row.1 < 25)) 1 demo_histories 5 0 None = (out, e) ∧ e ≠ WalkOutOfTurns ∧
    StronglySorted list_follows out ∧ NoDup out ∧
    (∀ row, row ∈ demo_histories 0%nat → bool_decide (row.1 < 25) = true → e = WalkDone ∨ 0 ≤ row.1 → row ∈ out) ∧
    (∀ row, row ∈ out → row ∈ demo_rows ∧ bool_decide (row.1 < 25) = true) ∧
    (e = WalkRefused → ∃ row : Z * string, row ∈ out ∧ row.1 < 0).
Proof.
  intros TO L.
  apply (walk_pages_complete (TO := binary_collation) (TL := binary_collation_laws) (L := demo_listed)
    (λ row, bool_decide (row.1 < 25)) 1 demo_histories demo_rows).
  - lia.
  - split.
    + intros [|k] row; cbn; set_solver.
    + intros [|k] row; cbn; set_solver.
    + intros [|k]; vm_compute; repeat constructor; set_solver.
    + intros row Hr. repeat (apply elem_of_cons in Hr as [->|Hr]; [by vm_compute|]). by apply elem_of_nil in Hr.
    + intros row Hr. repeat (apply elem_of_cons in Hr as [->|Hr]; [split; [done|cbn; lia]|]). by apply elem_of_nil in Hr.
Defined.
