(* ===== verification/Reports.v ===== *)
(** * Task reports, and the queries on reports and events

    [crates/smalux-server/src/database/task_report.rs]: storing the report of a
    successful execution once, and listing reports; [list_job_events] and
    [query_job_events] of [database/job_event.rs].

    As in [JobEvents.v], [between] are the rows other sessions insert after the queries
    of [append_task_report]. *)

From stdpp Require Import base gmap strings list pretty sorting.
From S2P Require Import Prelude StLogic Rotation Credential SchedModel Timing Proto Outbox Catalog JobEvents Paging.

(** ** Messages *)

(** [PluginTaskResult]; a metric's value is the bits of its [double]. *)
Record PluginTaskResult : Type := mkPluginTaskResult {
  pr_plugin_id : string;
  pr_plugin_version : string;
  pr_task_kind : string;
  pr_schema_version : Z;
  pr_summary : string;
  pr_metrics : list (string * Z);
  pr_payload : bytes;
}.

(** [task_result::Result]; the snapshot of a built-in task is the bytes of its
    sub-message. *)
Inductive TaskResultValue : Type :=
| Result_System (snapshot : bytes)
| Result_Cpu (snapshot : bytes)
| Result_Memory (snapshot : bytes)
| Result_Load (snapshot : bytes)
| Result_Host (snapshot : bytes)
| Result_DiskIo (snapshot : bytes)
| Result_NetworkIo (snapshot : bytes)
| Result_LocalIp (snapshot : bytes)
| Result_PublicIp (snapshot : bytes)
| Result_Process (snapshot : bytes)
| Result_Socket (snapshot : bytes)
| Result_Probe (snapshot : bytes)
| Result_Plugin (result : PluginTaskResult).

(** [TaskResult]; [tr_sample] is the bytes of [SampleMetadata]. *)
Record TaskResult : Type := mkTaskResult {
  tr_sample : option bytes;
  tr_result : option TaskResultValue;
}.

(** [TaskReport]. *)
Record TaskReport : Type := mkTaskReport {
  rp_job_id : bytes;
  rp_job_revision : Z;
  rp_run_id : bytes;
  rp_attempt : Z;
  rp_scheduled_at : option Timestamp;
  rp_started_at : option Timestamp;
  rp_result : option TaskResult;
}.

(** ** The table *)

(** [TaskReportRecord], which has the columns of [task_report::Model]. *)
Record TaskReportRecord : Type := mkTaskReportRecord {
  tp_report_id : string;
  tp_agent_id : string;
  tp_job_id : bytes;
  tp_job_revision : Z;
  tp_run_id : bytes;
  tp_attempt : Z;
  tp_scheduled_at : option Z;
  tp_started_at : option Z;
  tp_result_kind : string;
  tp_payload : bytes;
  tp_received_at : Z;
}.

(** [result_kind]. *)
Definition result_kind_name (value : TaskResultValue) : string :=
  match value with
  | Result_System _ => "system"
  | Result_Cpu _ => "cpu"
  | Result_Memory _ => "memory"
  | Result_Load _ => "load"
  | Result_Host _ => "host"
  | Result_DiskIo _ => "disk_io"
  | Result_NetworkIo _ => "network_io"
  | Result_LocalIp _ => "local_ip"
  | Result_PublicIp _ => "public_ip"
  | Result_Process _ => "process"
  | Result_Socket _ => "socket"
  | Result_Probe _ => "probe"
  | Result_Plugin _ => "plugin"
  end.
Definition result_kind (report : TaskReport) : result JobDbError string :=
  value ← ok_or (InvalidTaskReport "Task result is required") (rp_result report ≫= tr_result);
  Ok (result_kind_name value).

(** The pairs of [valid_builtin]. *)
Definition builtin_results : list (string * string) :=
  [("smalux.collect.system.v1", "system"); ("smalux.collect.cpu.v1", "cpu");
   ("smalux.collect.memory.v1", "memory"); ("smalux.collect.load.v1", "load");
   ("smalux.collect.host.v1", "host"); ("smalux.collect.disk_io.v1", "disk_io");
   ("smalux.collect.network_io.v1", "network_io"); ("smalux.collect.local_ip.v1", "local_ip");
   ("smalux.collect.public_ip.v1", "public_ip"); ("smalux.collect.process.v1", "process");
   ("smalux.collect.socket.v1", "socket"); ("smalux.probe.network.v1", "probe")].

(** [validate_result_matches_job]. *)
Definition validate_result_matches_job `{D : DefinitionCodec} (report : TaskReport) (kind : string)
    (job_version : JobVersionRow) : result JobDbError unit :=
  let expected := jv_task_kind job_version in
  if bool_decide ((expected, kind) ∈ builtin_results) then Ok tt
  else match rp_result report ≫= tr_result with
  | Some (Result_Plugin plugin_result) =>
      definition ← map_err (λ error, InvalidTaskReport ("historical Job definition cannot be decoded: " +:+ error))
        (decode_definition (jv_definition job_version));
      match jd_task definition ≫= td_task with
      | Some (Task_Plugin plugin) =>
          if bool_decide (ptc_task_kind plugin ≠ expected) || bool_decide (pr_task_kind plugin_result ≠ expected)
             || bool_decide (pr_plugin_id plugin_result ≠ ptc_plugin_id plugin)
             || bool_decide (pr_plugin_version plugin_result ≠ ptc_plugin_version plugin)
          then Err (InvalidTaskReport "plugin result identity does not match the historical Job definition")
          else Ok tt
      | _ => Err (InvalidTaskReport "plugin result does not match the historical Job definition")
      end
  | _ => Err (InvalidTaskReport "Task result kind does not match the historical Job definition")
  end.

(** [timestamp_micros]. *)
Definition timestamp_micros (timestamp : option Timestamp) : result JobDbError (option Z) :=
  match timestamp with
  | None => Ok None
  | Some timestamp =>
      if negb (bool_decide (0 ≤ ts_nanos timestamp < 1000000000))
      then Err (InvalidTaskReport "timestamp nanos are invalid")
      else Ok (Some (Z.max i64_min (Z.min i64_max
                       (saturating_mul_i64 (ts_seconds timestamp) 1000000 + Z.quot (ts_nanos timestamp) 1000))))
  end.

(** [Uuid]'s [Display]: the hyphenated lower-case form. *)
Definition uuid_display (bs : bytes) : string :=
  hex_text (take 4 bs) +:+ "-" +:+ hex_text (take 2 (drop 4 bs)) +:+ "-" +:+ hex_text (take 2 (drop 6 bs))
  +:+ "-" +:+ hex_text (take 2 (drop 8 bs)) +:+ "-" +:+ hex_text (drop 10 bs).

(** The identity of an execution as text. *)
Definition report_id_text (agent_id : string) (report : TaskReport) : string :=
  agent_id +:+ ":" +:+ uuid_display (rp_job_id report) +:+ ":" +:+ pretty (rp_job_revision report) +:+ ":"
  +:+ uuid_display (rp_run_id report) +:+ ":" +:+ pretty (rp_attempt report).

Section Reports.
Context `{D : DefinitionCodec} (encode_report : TaskReport → bytes).

Definition find_report (report_id : string) (rows : list TaskReportRecord) : option TaskReportRecord :=
  head (filter (λ row, tp_report_id row = report_id) rows).

Definition report_conflict : JobDbError := InvalidTaskReport "duplicate execution identity has different payload".

(** The checks of [append_task_report] before its look at the reports, with the kind and
    the revision they compute. *)
Definition check_report (t : JobTables) (agent_id : string) (report : TaskReport) : result JobDbError (string * Z) :=
  if bool_decide (agent_id = "") then Err (InvalidTaskReport "agent id is required")
  else if bool_decide (length (rp_job_id report) ≠ 16%nat) then Err (InvalidTaskReport "Job id must contain 16 bytes")
  else if bool_decide (length (rp_run_id report) ≠ 16%nat) then Err (InvalidTaskReport "run id must contain 16 bytes")
  else if bool_decide (rp_job_revision report = 0) || bool_decide (rp_attempt report = 0)
  then Err (InvalidTaskReport "Job revision and attempt must be greater than zero")
  else
    kind ← result_kind report;
    job_revision ← i64_try_from (InvalidTaskReport "Job revision exceeds i64") (rp_job_revision report);
    job_version ← ok_or (InvalidTaskReport "Job revision does not belong to this Agent")
                    (tb_versions t !! (agent_id, rp_job_id report, job_revision));
    _ ← validate_result_matches_job report kind job_version;
    Ok (kind, job_revision).

(** The row that is inserted, when the numbers fit their columns; [now] is [unix_micros()],
    [None] for a clock before the epoch. *)
Definition report_row (agent_id : string) (report : TaskReport) (kind : string) (job_revision : Z) (now : option Z) :
    result JobDbError TaskReportRecord :=
  attempt ← i32_try_from (InvalidTaskReport "attempt exceeds i32") (rp_attempt report);
  scheduled_at ← timestamp_micros (rp_scheduled_at report);
  started_at ← timestamp_micros (rp_started_at report);
  received_at ← ok_or ClockError now;
  Ok (mkTaskReportRecord (report_id_text agent_id report) agent_id (rp_job_id report) job_revision (rp_run_id report)
        attempt scheduled_at started_at kind (encode_report report) received_at).

(** [INSERT .. ON CONFLICT (report_id) DO NOTHING], and the branch when nothing was
    inserted. *)
Definition insert_report (row : TaskReportRecord) (rows : list TaskReportRecord) :
    result JobDbError unit * list TaskReportRecord :=
  match find_report (tp_report_id row) rows with
  | None => (Ok tt, rows ++ [row])
  | Some previous => (if bool_decide (tp_payload previous = tp_payload row) then Ok tt else Err report_conflict, rows)
  end.

(** [append_task_report]. *)
Definition append_task_report (t : JobTables) (agent_id : string) (report : TaskReport) (now : option Z)
    (between rows : list TaskReportRecord) : result JobDbError unit * list TaskReportRecord :=
  match check_report t agent_id report with
  | Err e => (Err e, rows ++ between)
  | Ok (kind, job_revision) =>
      match find_report (report_id_text agent_id report) rows with
      | Some previous =>
          (if bool_decide (tp_payload previous ≠ encode_report report) then Err report_conflict else Ok tt, rows ++ between)
      | None =>
          match report_row agent_id report kind job_revision now with
          | Err e => (Err e, rows ++ between)
          | Ok row => insert_report row (rows ++ between)
          end
      end
  end.

End Reports.

(** ** Queries *)

#[global] Instance report_listed : Listed TaskReportRecord := {| row_time := tp_received_at; row_id := tp_report_id |}.
#[global] Instance event_listed : Listed EventRow := {| row_time := er_emitted_at; row_id := er_event_id |}.

(** [query_timestamp_micros] of [task_report.rs] and [job_event.rs]. *)
Definition query_micros (error : string → JobDbError) (timestamp_ms : Z) : result JobDbError Z :=
  ok_or (error "query timestamp in milliseconds exceeds i64 microseconds") (checked_i64 (timestamp_ms * 1000)).
Definition query_bound (error : string → JobDbError) (timestamp_ms : option Z) : result JobDbError (option Z) :=
  match timestamp_ms with
  | None => Ok None
  | Some ms => micros ← query_micros error ms; Ok (Some micros)
  end.

(** The filters of both queries: Agent, job, and the interval [[from, to)]. *)
Definition row_matches (agent_id : option string) (job_id : option bytes) (from to : option Z)
    (row_agent : string) (row_job : bytes) (time : Z) : bool :=
  default true ((λ a, bool_decide (row_agent = a)) <$> agent_id)
  && default true ((λ j, bool_decide (row_job = j)) <$> job_id)
  && default true ((λ f, bool_decide (f ≤ time)) <$> from)
  && default true ((λ t, bool_decide (time < t)) <$> to).

Definition report_matches (agent_id : option string) (job_id : option bytes) (from to : option Z)
    (row : TaskReportRecord) : bool :=
  row_matches agent_id job_id from to (tp_agent_id row) (tp_job_id row) (tp_received_at row).
Definition event_matches (agent_id : option string) (job_id : option bytes) (from to : option Z) (row : EventRow) : bool :=
  row_matches agent_id job_id from to (er_agent_id row) (er_job_id row) (er_emitted_at row).

Section Queries.
Context `{TO : TextOrder}.

(** [query_task_reports]. *)
Definition query_task_reports (agent_id : option string) (job_id : option bytes) (from_ms to_ms : option Z)
    (after : option (Z * string)) (limit : Z) (rows : list TaskReportRecord) :
    result JobDbError (list TaskReportRecord) :=
  from ← query_bound InvalidTaskReport from_ms;
  to ← query_bound InvalidTaskReport to_ms;
  Ok (query_rows (report_matches agent_id job_id from to) after limit rows).

(** [query_job_events]. *)
Definition query_job_events (agent_id : option string) (job_id : option bytes) (from_ms to_ms : option Z)
    (after : option (Z * string)) (limit : Z) (rows : list EventRow) : result JobDbError (list EventRow) :=
  from ← query_bound InvalidJobEvent from_ms;
  to ← query_bound InvalidJobEvent to_ms;
  Ok (query_rows (event_matches agent_id job_id from to) after limit rows).

End Queries.

(** [list_task_reports] and [list_job_events] order by time alone: any answer in which
    the rows are the newest ones and sorted is possible. *)
Definition newest_rows {A} `{Listed A} (agent_of : A → string) (agent_id : option string) (limit : Z)
    (rows out : list A) : Prop :=
  ∃ sorted, sorted ≡ₚ filter (λ row, default true ((λ a, bool_decide (agent_of row = a)) <$> agent_id) = true) rows ∧
    StronglySorted (λ a b, row_time b ≤ row_time a) sorted ∧ out = take (Z.to_nat (clamp 1 500 limit)) sorted.
Definition list_task_reports : option string → Z → list TaskReportRecord → list TaskReportRecord → Prop :=
  newest_rows tp_agent_id.
Definition list_job_events : option string → Z → list EventRow → list EventRow → Prop :=
  newest_rows er_agent_id.

(** ** Identities *)

Lemma text_bytes_app a b : text_bytes (a +:+ b) = text_bytes a ++ text_bytes b.
Proof. unfold text_bytes. induction a as [|c a IH]; [done|].
  change (String c a +:+ b) with (String c (a +:+ b)). cbn. by rewrite IH.
Qed.

(** The characters of hexadecimal texts. *)
Definition hex_char (b : Z) : Prop := 48 ≤ b ≤ 57 ∨ 97 ≤ b ≤ 102.

Lemma encode_hex_chars bs : Forall is_byte bs → Forall hex_char (encode_hex bs).
Proof.
  induction 1 as [|b l Hb Hl IH]; [constructor|].
  change (encode_hex (b :: l)) with (hex_digit (Z.shiftr b 4) :: hex_digit (Z.land b 15) :: encode_hex l).
  destruct (byte_nibbles b Hb) as (H1 & H2 & _).
  assert (∀ n, 0 ≤ n < 16 → hex_char (hex_digit n)) as Hd.
  { intros n Hn. unfold hex_digit, hex_char. destruct (Z.ltb_spec n 10); lia. }
  constructor; [by apply Hd|]. constructor; [by apply Hd|done].
Qed.

Lemma text_bytes_hex bs : Forall is_byte bs → text_bytes (hex_text bs) = encode_hex bs.
Proof.
  intros Hbs%encode_hex_chars. unfold hex_text. revert Hbs. generalize (encode_hex bs). intros chars Hhex.
  induction Hhex as [|b l Hb Hl IH]; [done|].
  assert (String.concat "" ((λ b, String (Ascii.ascii_of_nat (Z.to_nat b)) "") <$> b :: l) =
    String (Ascii.ascii_of_nat (Z.to_nat b)) "" +:+ String.concat "" ((λ b, String (Ascii.ascii_of_nat (Z.to_nat b)) "") <$> l)) as ->.
  { cbn. by destruct ((λ b, String (Ascii.ascii_of_nat (Z.to_nat b)) "") <$> l). }
  rewrite text_bytes_app, IH. cbn. rewrite Ascii.nat_ascii_embedding by (unfold hex_char in Hb; lia). f_equal. unfold hex_char in Hb. lia.
Qed.

Lemma encode_hex_inj a b : Forall is_byte a → Forall is_byte b → encode_hex a = encode_hex b → a = b.
Proof. intros Ha Hb E. apply decode_encode_psk in Ha, Hb. congruence. Qed.

(** Two texts cut at their last separator. *)
Lemma last_separator_inj (sep : Z) (l1 l2 r1 r2 : bytes) :
  sep ∉ r1 → sep ∉ r2 → l1 ++ sep :: r1 = l2 ++ sep :: r2 → l1 = l2 ∧ r1 = r2.
Proof.
  intros H1 H2 E. apply app_eq_app in E as (k & [[-> E]|[-> E]]).
  - destruct k as [|x k]; cbn in E; [rewrite app_nil_r; by simplify_eq|]. injection E as <- ->. set_solver.
  - destruct k as [|x k]; cbn in E; [rewrite app_nil_r; by simplify_eq|]. injection E as <- ->. set_solver.
Qed.

(** The bytes of a UUID's text. *)
Lemma text_bytes_uuid bs :
  Forall is_byte bs →
  text_bytes (uuid_display bs) =
    encode_hex (take 4 bs) ++ 45 :: encode_hex (take 2 (drop 4 bs)) ++ 45 :: encode_hex (take 2 (drop 6 bs)) ++
    45 :: encode_hex (take 2 (drop 8 bs)) ++ 45 :: encode_hex (drop 10 bs).
Proof.
  intros H. unfold uuid_display. rewrite !text_bytes_app, !text_bytes_hex; [done|..].
  all: repeat (first [done | apply Forall_drop | apply Forall_take]).
Qed.

Lemma encode_hex_app a b : encode_hex (a ++ b) = encode_hex a ++ encode_hex b.
Proof. unfold encode_hex. apply bind_app. Qed.

Lemma colon_not_hex bs : Forall is_byte bs → 58 ∉ encode_hex bs.
Proof. intros H%encode_hex_chars Hin. rewrite Forall_forall in H. apply H in Hin as [?|?]; lia. Qed.

Lemma colon_not_uuid bs : Forall is_byte bs → 58 ∉ text_bytes (uuid_display bs).
Proof.
  intros H. rewrite text_bytes_uuid by done.
  rewrite !elem_of_app, !elem_of_cons, !elem_of_app, !elem_of_cons, !elem_of_app, !elem_of_cons, !elem_of_app, !elem_of_cons.
  assert (∀ n m, 58 ∉ encode_hex (take n (drop m bs))) as Hh.
  { intros n m. apply colon_not_hex, Forall_take, Forall_drop, H. }
  pose proof (Hh 4%nat 0%nat) as H0. pose proof (colon_not_hex _ (Forall_drop _ 10 _ H)) as H1.
  cbn [drop] in H0. pose proof (Hh 2%nat 4%nat). pose proof (Hh 2%nat 6%nat). pose proof (Hh 2%nat 8%nat).
  naive_solver lia.
Qed.

Lemma uuid_display_inj a b :
  length a = 16%nat → length b = 16%nat → Forall is_byte a → Forall is_byte b → uuid_display a = uuid_display b → a = b.
Proof.
  intros La Lb Ha Hb E. apply (f_equal text_bytes) in E. rewrite !text_bytes_uuid in E by done.
  assert (∀ n m, length (encode_hex (take n (drop m a))) = length (encode_hex (take n (drop m b)))) as Hl.
  { intros n m. by rewrite !encode_hex_length, !length_take, !length_drop, La, Lb. }
  apply app_inj_1 in E as [E0 E]; [|apply (Hl 4%nat 0%nat)]. injection E as E.
  apply app_inj_1 in E as [E1 E]; [|apply Hl]. injection E as E.
  apply app_inj_1 in E as [E2 E]; [|apply Hl]. injection E as E.
  apply app_inj_1 in E as [E3 E]; [|apply Hl]. injection E as E4.
  assert (∀ l : bytes, take 4 l ++ take 2 (drop 4 l) ++ take 2 (drop 6 l) ++ take 2 (drop 8 l) ++ drop 10 l = l) as Hj.
  { intros l. assert (drop 10 l = drop 2 (drop 8 l)) as -> by (by rewrite drop_drop). rewrite take_drop.
    assert (drop 8 l = drop 2 (drop 6 l)) as -> by (by rewrite drop_drop). rewrite take_drop.
    assert (drop 6 l = drop 2 (drop 4 l)) as -> by (by rewrite drop_drop). by rewrite !take_drop. }
  rewrite <- (Hj a), <- (Hj b). apply encode_hex_inj; [rewrite Hj; done..|].
  rewrite !encode_hex_app. congruence.
Qed.

Lemma colon_not_pretty x : 0 ≤ x → 58 ∉ text_bytes (pretty x).
Proof.
  intros Hx. replace (pretty x) with (pretty (Z.to_N x)) by (by destruct x).
  destruct (pretty_N_digits (Z.to_N x)) as [Hd _]. induction (pretty (Z.to_N x)) as [|c s IH]; [set_solver|].
  destruct Hd as [[d Hc] Hd]. unfold text_bytes. cbn. apply not_elem_of_cons. split; [|by apply IH].
  unfold digit_value in Hc. case_bool_decide; [lia|done].
Qed.

(** What an accepted report is like. *)
Definition wf_report (report : TaskReport) : Prop :=
  length (rp_job_id report) = 16%nat ∧ length (rp_run_id report) = 16%nat ∧
  Forall is_byte (rp_job_id report) ∧ Forall is_byte (rp_run_id report) ∧
  0 ≤ rp_job_revision report ∧ 0 ≤ rp_attempt report.

(** The text of an execution determines the execution, whatever the Agent is called. *)
Lemma report_id_text_inj agent r agent' r' :
  wf_report r → wf_report r' → report_id_text agent r = report_id_text agent' r' →
  agent = agent' ∧ rp_job_id r = rp_job_id r' ∧ rp_job_revision r = rp_job_revision r' ∧
  rp_run_id r = rp_run_id r' ∧ rp_attempt r = rp_attempt r'.
Proof.
  intros (Lj & Lr & Bj & Br & Hv & Ha) (Lj' & Lr' & Bj' & Br' & Hv' & Ha') E.
  apply (f_equal text_bytes) in E. unfold report_id_text in E. rewrite !text_bytes_app in E.
  change (text_bytes ":") with [58] in E. rewrite !app_assoc in E. rewrite <- !(app_assoc _ [58]) in E. cbn in E.
  apply last_separator_inj in E as [E Eattempt]; [|by apply colon_not_pretty..].
  apply last_separator_inj in E as [E Erun]; [|by apply colon_not_uuid..].
  apply last_separator_inj in E as [E Erev]; [|by apply colon_not_pretty..].
  apply last_separator_inj in E as [Eagent Ejob]; [|by apply colon_not_uuid..].
  apply text_bytes_inj in Eagent, Ejob, Erev, Erun, Eattempt.
  split_and!; [done|by apply uuid_display_inj|by apply (inj pretty)|by apply uuid_display_inj|by apply (inj pretty)].
Qed.

(** ** One row per execution *)

Section History.
Context `{D : DefinitionCodec} (encode_report : TaskReport → bytes).

(** The histories of the table: reports are appended by any number of sessions, and the
    rows that come in between are themselves a history. *)
Inductive report_history : list TaskReportRecord → list TaskReportRecord → Prop :=
| rh_refl rows : report_history rows rows
| rh_append rows mid t agent_id report now between :
    report_history rows mid → report_history mid (mid ++ between) →
    report_history rows (append_task_report encode_report t agent_id report now between mid).2.

Definition unique_reports (rows : list TaskReportRecord) : Prop := NoDup (tp_report_id <$> rows).

Lemma find_report_None id rows : find_report id rows = None → id ∉ tp_report_id <$> rows.
Proof.
  unfold find_report. intros H (row & -> & Hr)%list_elem_of_fmap_1.
  assert (row ∈ filter (λ r, tp_report_id r = tp_report_id row) rows) as Hf by (by apply list_elem_of_filter).
  destruct (filter _ _); [set_solver|done].
Qed.

Lemma find_report_Some id rows row : find_report id rows = Some row → row ∈ rows ∧ tp_report_id row = id.
Proof.
  unfold find_report. intros H%head_Some_elem_of. apply list_elem_of_filter in H. naive_solver.
Qed.

Lemma find_report_unique rows row :
  unique_reports rows → row ∈ rows → find_report (tp_report_id row) rows = Some row.
Proof.
  intros Hu Hr. destruct (find_report (tp_report_id row) rows) as [row'|] eqn:E.
  - apply find_report_Some in E as [? ?]. f_equal. by eapply (NoDup_fmap_elem_inj tp_report_id rows).
  - apply find_report_None in E. destruct E. by apply list_elem_of_fmap_2.
Qed.

Lemma unique_report_count rows row :
  unique_reports rows → row ∈ rows → length (filter (λ r, tp_report_id r = tp_report_id row) rows) = 1%nat.
Proof.
  intros Hu (l1 & l2 & ->)%list_elem_of_split. unfold unique_reports in Hu. rewrite fmap_app in Hu. cbn in Hu.
  apply NoDup_app in Hu as (_ & H1 & [H2 _]%NoDup_cons).
  assert (∀ l, tp_report_id row ∉ tp_report_id <$> l → filter (λ r, tp_report_id r = tp_report_id row) l = []) as Hnil.
  { intros l Hl. apply elem_of_nil_inv. intros r [E Hr]%list_elem_of_filter.
    apply Hl. rewrite <- E. by apply list_elem_of_fmap_2. }
  rewrite filter_app, filter_cons_True, (Hnil l2 H2) by done. rewrite Hnil; [done|].
  intros Hin. apply (H1 _ Hin). set_solver.
Qed.

(** What [append_task_report] leaves: the table with the rows in between, and at most one
    more row, whose id is new. *)
Lemma append_task_report_table t agent_id report now between rows :
  let out := append_task_report encode_report t agent_id report now between rows in
  out.2 = rows ++ between ∨
  ∃ row, out = (Ok tt, (rows ++ between) ++ [row]) ∧ tp_report_id row ∉ tp_report_id <$> rows ++ between ∧
    tp_report_id row = report_id_text agent_id report ∧ tp_payload row = encode_report report ∧
    tp_agent_id row = agent_id ∧ tp_job_id row = rp_job_id report ∧ tp_run_id row = rp_run_id report.
Proof.
  unfold append_task_report. destruct (check_report t agent_id report) as [[kind rev]|]; [|by left].
  destruct (find_report _ rows); [by left|].
  destruct (report_row encode_report agent_id report kind rev now) as [row|] eqn:Hrow; [|by left].
  unfold report_row in Hrow. inv_result. unfold insert_report. cbn.
  destruct (find_report _ (rows ++ between)) eqn:Hf; [by left|]. apply find_report_None in Hf. right. eexists. done.
Qed.

Lemma report_history_ok rows rows' :
  report_history rows rows' → rows `prefix_of` rows' ∧ (unique_reports rows → unique_reports rows').
Proof.
  induction 1 as [rows|rows mid t agent_id report now between Hr [IHp IHu] Hb [_ IHu']]; [done|].
  destruct (append_task_report_table t agent_id report now between mid) as [->|(row & -> & Hnew & _)]; cbn.
  - split; [by apply prefix_app_r|naive_solver].
  - split; [by do 2 apply prefix_app_r|]. intros Hu. unfold unique_reports. rewrite fmap_app.
    apply NoDup_app. split_and!; [naive_solver| |apply NoDup_singleton].
    intros id Hid ->%list_elem_of_singleton. done.
Qed.

(** A stored report, and a later report with its text. *)
Lemma append_known t agent_id report now between rows row :
  unique_reports rows → row ∈ rows → tp_report_id row = report_id_text agent_id report →
  is_ok (check_report t agent_id report) = true →
  append_task_report encode_report t agent_id report now between rows =
    (if bool_decide (tp_payload row ≠ encode_report report) then Err report_conflict else Ok tt, rows ++ between).
Proof.
  intros Hu Hr Hid Hok. unfold append_task_report.
  destruct (check_report t agent_id report) as [[kind rev]|]; [|done].
  by rewrite <- Hid, (find_report_unique rows row Hu Hr).
Qed.

(** A report that was accepted is in the table, under its text and with its content. *)
Lemma append_stores t agent_id report now between rows rows' :
  append_task_report encode_report t agent_id report now between rows = (Ok tt, rows') →
  ∃ row, row ∈ rows' ∧ tp_report_id row = report_id_text agent_id report ∧ tp_payload row = encode_report report.
Proof.
  unfold append_task_report. destruct (check_report t agent_id report) as [[kind rev]|]; [|done].
  destruct (find_report _ rows) as [row|] eqn:Hf.
  - apply find_report_Some in Hf as [? ?]. case_bool_decide as Hp; intros [= <-]. exists row. split; [set_solver|].
    split; [done|]. by destruct (decide (tp_payload row = encode_report report)).
  - destruct (report_row encode_report agent_id report kind rev now) as [row|] eqn:Hrow; [|done].
    unfold report_row in Hrow. inv_result. unfold insert_report. cbn.
    destruct (find_report _ (rows ++ between)) as [row|] eqn:Hf'; cbn.
    + apply find_report_Some in Hf' as [? ?]. case_bool_decide; intros [= <-]. by exists row.
    + intros [= <-]. eexists. split; [apply elem_of_app; right; by apply list_elem_of_singleton|done].
Qed.

End History.

(** The Server keeps one row per execution. Once the report of an execution was
    accepted, at any later time and whatever other sessions stored in between, a report
    for the same execution that passes the checks changes nothing: it is accepted if
    its content is the same and refused if it differs; there is exactly one row for the
    execution. Reports of other executions, of this or another Agent, never take its
    place: the id of the row determines Agent, job, revision, run and attempt. *)
Theorem task_report_once `{D : DefinitionCodec} (encode_report : TaskReport → bytes)
    t agent_id report now between rows rows1 rows2 t' report' now' between' :
  report_history encode_report [] rows → report_history encode_report rows (rows ++ between) →
  append_task_report encode_report t agent_id report now between rows = (Ok tt, rows1) →
  report_history encode_report rows1 rows2 → wf_report report →
  (is_ok (check_report t' agent_id report') = true → report_id_text agent_id report' = report_id_text agent_id report →
   append_task_report encode_report t' agent_id report' now' between' rows2 =
     (if bool_decide (encode_report report ≠ encode_report report') then Err report_conflict else Ok tt, rows2 ++ between')) ∧
  length (filter (λ row, tp_report_id row = report_id_text agent_id report) rows2) = 1%nat ∧
  (∀ agent' other, wf_report other → report_id_text agent' other = report_id_text agent_id report →
     agent' = agent_id ∧ rp_job_id other = rp_job_id report ∧ rp_job_revision other = rp_job_revision report ∧
     rp_run_id other = rp_run_id report ∧ rp_attempt other = rp_attempt report).
Proof.
  intros H0 Hb Happ H2 Hwf.
  assert (report_history encode_report [] rows1) as H1.
  { pose proof (rh_append encode_report [] rows t agent_id report now between H0 Hb) as H. by rewrite Happ in H. }
  destruct (append_stores encode_report _ _ _ _ _ _ _ Happ) as (row & Hr & Hid & Hpay).
  destruct (report_history_ok encode_report _ _ H2) as [[k ->] Hu2].
  assert (unique_reports (rows1 ++ k)) as Hu.
  { apply Hu2, (report_history_ok encode_report _ _ H1). apply NoDup_nil_2. }
  assert (row ∈ rows1 ++ k) as Hr2 by set_solver.
  split_and!.
  - intros Hok Eid. rewrite <- Hpay. apply append_known; [done..|congruence|done].
  - rewrite <- Hid. by apply unique_report_count.
  - intros agent' other Hwo E. by apply report_id_text_inj.
Qed.

(** ** Examples *)

Definition demo_report (payload : bytes) : TaskReport :=
  mkTaskReport (replicate 16 7) 1 (replicate 16 9) 1 None None (Some (mkTaskResult None (Some (Result_Cpu payload)))).
Definition demo_encode_report (report : TaskReport) : bytes :=
  match rp_result report ≫= tr_result with Some (Result_Cpu payload) => rp_run_id report ++ payload | _ => [] end.
Definition demo_version_tables : JobTables :=
  mkJobTables ∅ ∅ {[("agent-a", replicate 16 7, 1) := mkJobVersionRow "smalux.collect.cpu.v1" [] 0]} ∅ ∅.
Definition demo_report_rows : list TaskReportRecord :=
  (append_task_report demo_encode_report demo_version_tables "agent-a" (demo_report [1]) (Some 50) [] []).2.

Example demo_report_id : report_id_text "agent-a" (demo_report [1]) =
  "agent-a:07070707-0707-0707-0707-070707070707:1:09090909-0909-0909-0909-090909090909:1".
Proof. reflexivity. Qed.

Lemma task_report_once_witness :
  append_task_report demo_encode_report demo_version_tables "agent-a" (demo_report [2]) None [] demo_report_rows =
    (Err report_conflict, demo_report_rows).
Proof.
  destruct (task_report_once demo_encode_report demo_version_tables "agent-a" (demo_report [1]) (Some 50) [] []
    demo_report_rows demo_report_rows demo_version_tables (demo_report [2]) None []) as (H & _ & _).
  - apply rh_refl.
  - apply rh_refl.
  - vm_compute. reflexivity.
  - apply rh_refl.
  - split_and!; [reflexivity|reflexivity|by apply Forall_replicate|by apply Forall_replicate|done|done].
  - rewrite app_nil_r in H. apply H; [vm_compute; reflexivity|reflexivity].
Defined.

(** [event.list] refuses a cursor it handed out itself when the time of the event, which
    the Agent sets, lies before 1970: the list cannot be read beyond that event. *)
Definition demo_early_event (id : string) (emitted_at : Z) : EventRow :=
  mkEventRow id "agent-a" (replicate 16 1) 1 0 [] 0 [] 0 emitted_at None 0 "" false 0 false [].

Theorem early_event_ends_list :
  let _ := binary_collation in
  ∃ items cursor,
    list_page (event_matches (Some "agent-a") None None None) 1 None
      [demo_early_event "e1" (-5); demo_early_event "e2" (-9)] = Some (items, Some cursor) ∧
    list_page (event_matches (Some "agent-a") None None None) 1 (Some cursor)
      [demo_early_event "e1" (-5); demo_early_event "e2" (-9)] = None.
Proof. exists [demo_early_event "e1" (-5)], "-5|e1". split; vm_compute; reflexivity. Qed.
