(* ===== verification/WebStore.v ===== *)
(** * Identities and sessions of the web interface

    [crates/smalux-server/src/web_auth/store.rs], with the tables of the migration
    [m20260805_000001_create_web_auth]: users, the claim of the first administrator,
    sessions by the hash of their secret, and the audit log.

    SHA-256 is a parameter.  [now] is [now_ms()]; random identifiers are arguments.
    [store::session] reads and then writes: [between] is what other requests do to the
    tables after it has read. *)

From stdpp Require Import base gmap strings list pretty.
From S2P Require Import Prelude StLogic Rotation Credential Registration JobEvents.

(** ** Data *)

(** [Role], and [Role::parse]. *)
Inductive Role : Type := Admin | Operator | Viewer.

Global Instance Role_eq_dec : EqDecision Role.
Proof. solve_decision. Defined.

Definition role_parse (value : string) : option Role :=
  if String.eqb value "admin" then Some Admin
  else if String.eqb value "operator" then Some Operator
  else if String.eqb value "viewer" then Some Viewer
  else None.

(** [User]. *)
Record User : Type := mkUser {
  us_id : string;
  us_username : string;
  us_role : Role;
  us_enabled : bool;
  us_password_hash : string;
}.

(** [SessionView]. *)
Record SessionView : Type := mkSessionView {
  sv_user_id : string;
  sv_username : string;
  sv_role : Role;
  sv_csrf_token : string;
  sv_expires_at_ms : Z;
  sv_idle_expires_at_ms : Z;
  sv_permissions : list string;
}.

(** [web_users], by [user_id]; [username] is unique. *)
Record WebUserRow : Type := mkWebUserRow {
  wu_username : string;
  wu_password_hash : string;
  wu_role : string;
  wu_enabled : bool;
  wu_created_at : Z;
  wu_updated_at : Z;
}.

(** [web_sessions], by the unique [secret_hash]. *)
Record WebSessionRow : Type := mkWebSessionRow {
  wr_session_id : string;
  wr_user_id : string;
  wr_created_at : Z;
  wr_last_seen_at : Z;
  wr_expires_at : Z;
  wr_idle_expires_at : Z;
  wr_revoked_at : option Z;
}.

(** [web_auth_events]. *)
Record AuthEventRow : Type := mkAuthEventRow {
  ae_event_id : string;
  ae_action : string;
  ae_outcome : string;
  ae_user_id : option string;
  ae_created_at : Z;
}.

Record WebTables : Type := mkWebTables {
  wt_users : gmap string WebUserRow;
  wt_bootstrap : bool;
  wt_sessions : gmap string WebSessionRow;
  wt_events : list AuthEventRow;
}.

Definition set_web_users users (t : WebTables) := mkWebTables users (wt_bootstrap t) (wt_sessions t) (wt_events t).
Definition set_web_sessions sessions (t : WebTables) := mkWebTables (wt_users t) (wt_bootstrap t) sessions (wt_events t).
Definition set_web_events events (t : WebTables) := mkWebTables (wt_users t) (wt_bootstrap t) (wt_sessions t) events.

(** The cases of [DbErr] met here. *)
Inductive WebDbErr : Type := DbCustom (message : string) | DbConstraint (message : string).

(** SHA-256. *)
Class Sha256 : Type := sha256 : bytes → bytes.

(** [CSRF_DOMAIN]: the text "smalux-web-csrf-v1" and a zero byte. *)
Definition CSRF_DOMAIN : bytes :=
  [115; 109; 97; 108; 117; 120; 45; 119; 101; 98; 45; 99; 115; 114; 102; 45; 118; 49; 0].

(** [permissions]. *)
Definition permissions (role : Role) : list string :=
  ["session.info"; "metrics.latest"; "stream.subscribe"; "agent.list"; "agent.get"] ++
  match role with
  | Admin | Operator =>
      ["report.list"; "event.list"; "job.list"; "job.get"; "job.catalog.replace"; "operation.get"; "operation.list"]
  | Viewer => []
  end.

(** ** Operations *)

Section Store.
Context `{H256 : Sha256}.

(** [hex(&hash(secret))] and [csrf]. *)
Definition secret_digest (secret : bytes) : string := hex_text (sha256 secret).
Definition csrf (secret : bytes) : string := hex_text (sha256 (CSRF_DOMAIN ++ secret)).

(** [user]. *)
Definition store_user (username : string) (t : WebTables) : result WebDbErr (option User) :=
  match List.find (λ kv, bool_decide (wu_username kv.2 = username)) (map_to_list (wt_users t)) with
  | None => Ok None
  | Some (user_id, row) =>
      role ← ok_or (DbCustom "invalid stored role") (role_parse (wu_role row));
      Ok (Some (mkUser user_id (wu_username row) role (wu_enabled row) (wu_password_hash row)))
  end.

(** [audit] and [denied]. *)
Definition audit (event_id : string) (now : Z) (action outcome : string) (uid : option string) (t : WebTables) :
    WebTables :=
  set_web_events (wt_events t ++ [mkAuthEventRow event_id action outcome uid now]) t.
Definition denied (event_id : string) (now : Z) : WebTables → WebTables := audit event_id now "login" "rejected" None.

(** [bootstrap]: one transaction, whose claim can be inserted once. *)
Definition bootstrap (uid event_id : string) (now : Z) (username phc : string) (t : WebTables) :
    result WebDbErr unit * WebTables :=
  if wt_bootstrap t then (Err (DbConstraint "web_bootstrap.claim"), t)
  else if negb (bool_decide (wt_users t = ∅)) then (Err (DbCustom "bootstrap already completed"), t)
  else
    let t1 := mkWebTables (<[uid := mkWebUserRow username phc "admin" true now now]> (wt_users t)) true
                (wt_sessions t) (wt_events t) in
    (Ok tt, audit event_id now "bootstrap" "succeeded" (Some uid) t1).

(** [create_session]: the row is inserted only if the user is still enabled and has the
    same password. *)
Definition create_session (session_id event_id : string) (now : Z) (user : User) (secret : bytes) (absolute idle : Z)
    (t : WebTables) : result WebDbErr SessionView * WebTables :=
  let expires := wrap_i64 (now + absolute) in
  let idle_expires := wrap_i64 (now + idle) in
  match wt_users t !! us_id user with
  | Some row =>
      if wu_enabled row && bool_decide (wu_password_hash row = us_password_hash user) then
        match wt_sessions t !! secret_digest secret with
        | Some _ => (Err (DbConstraint "web_sessions.secret_hash"), t)
        | None =>
            let t1 := set_web_sessions
                        (<[secret_digest secret :=
                             mkWebSessionRow session_id (us_id user) now now expires idle_expires None]> (wt_sessions t)) t in
            (Ok (mkSessionView (us_id user) (us_username user) (us_role user) (csrf secret) expires idle_expires
                   (permissions (us_role user))),
             audit event_id now "login" "succeeded" (Some (us_id user)) t1)
        end
      else (Err (DbCustom "identity changed during authentication"), t)
  | None => (Err (DbCustom "identity changed during authentication"), t)
  end.

(** The [SELECT] of [session]: the session that is not revoked with its enabled user. *)
Definition live_session (digest : string) (t : WebTables) : option (WebSessionRow * WebUserRow) :=
  row ← wt_sessions t !! digest;
  user ← wt_users t !! wr_user_id row;
  if bool_decide (wr_revoked_at row = None) && wu_enabled user then Some (row, user) else None.

(** Its [UPDATE], with the number of rows. *)
Definition touch_session (digest uid : string) (now next_idle : Z) (t : WebTables) : Z * WebTables :=
  match wt_sessions t !! digest with
  | Some row =>
      if bool_decide (wr_revoked_at row = None) && bool_decide (now < wr_expires_at row)
         && bool_decide (now < wr_idle_expires_at row) && default false (wu_enabled <$> wt_users t !! uid)
      then (1, set_web_sessions
                 (<[digest := mkWebSessionRow (wr_session_id row) (wr_user_id row) (wr_created_at row)
                                (Z.max (wr_last_seen_at row) now) (wr_expires_at row)
                                (Z.max (wr_idle_expires_at row) next_idle) (wr_revoked_at row)]> (wt_sessions t)) t)
      else (0, t)
  | None => (0, t)
  end.

(** [i64::saturating_add]. *)
Definition saturating_add_i64 (x y : Z) : Z := Z.max i64_min (Z.min i64_max (x + y)).

(** [session]. *)
Definition session (now : Z) (secret : bytes) (touch : bool) (idle_ms absolute_ms : Z) (between : WebTables → WebTables)
    (t : WebTables) : result WebDbErr (option SessionView) * WebTables :=
  match live_session (secret_digest secret) t with
  | None => (Ok None, between t)
  | Some (row, user) =>
      let expires := Z.min (wr_expires_at row) (saturating_add_i64 (wr_created_at row) absolute_ms) in
      let idle := wr_idle_expires_at row in
      if bool_decide (expires ≤ now) || bool_decide (idle ≤ now) then (Ok None, between t)
      else match role_parse (wu_role user) with
      | None => (Err (DbCustom "invalid stored role"), between t)
      | Some role =>
          let view next_idle :=
            mkSessionView (wr_user_id row) (wu_username user) role (csrf secret) expires next_idle (permissions role) in
          if touch then
            let next_idle := Z.min (Z.max idle (saturating_add_i64 now idle_ms)) expires in
            let '(rows, t) := touch_session (secret_digest secret) (wr_user_id row) now next_idle (between t) in
            (Ok (if bool_decide (rows ≠ 1) then None else Some (view next_idle)), t)
          else (Ok (Some (view (Z.min idle expires))), between t)
      end
  end.

(** [revoke]. *)
Definition revoke (event_id : string) (now : Z) (secret : bytes) (uid : string) (t : WebTables) : bool * WebTables :=
  match wt_sessions t !! secret_digest secret with
  | Some row =>
      if bool_decide (wr_revoked_at row = None) then
        (true, audit event_id now "logout" "succeeded" (Some uid)
                 (set_web_sessions
                    (<[secret_digest secret :=
                         mkWebSessionRow (wr_session_id row) (wr_user_id row) (wr_created_at row) (wr_last_seen_at row)
                           (wr_expires_at row) (wr_idle_expires_at row) (Some now)]> (wt_sessions t)) t))
      else (false, t)
  | None => (false, t)
  end.

(** [cleanup]: sessions that ended a week ago, events of thirty days ago. *)
Definition stale_session (before : Z) (row : WebSessionRow) : bool :=
  bool_decide (wr_expires_at row < before) || bool_decide (wr_idle_expires_at row < before)
  || default false ((λ at_, bool_decide (at_ < before)) <$> wr_revoked_at row).
Definition cleanup (now : Z) (t : WebTables) : WebTables :=
  let sessions_before := now - 7 * 24 * 60 * 60 * 1000 in
  let events_before := now - 30 * 24 * 60 * 60 * 1000 in
  mkWebTables (wt_users t) (wt_bootstrap t)
    (filter (λ kv : string * WebSessionRow, stale_session sessions_before kv.2 = false) (wt_sessions t))
    (filter (λ e, ¬ ae_created_at e < events_before) (wt_events t)).

End Store.

(** ** Histories *)

Section History.
Context `{H256 : Sha256} (absolute_ms idle_ms : Z).

(** What the requests of any number of browsers, and administrators who edit the users,
    do to the tables. The set holds the digests of the secrets issued so far: secrets
    are random and their digests do not repeat. [clock] is a time the Server can read:
    adding a lifetime to it stays within [i64]. *)
Definition clock (now : Z) : Prop := 0 ≤ now ∧ now + absolute_ms ≤ i64_max ∧ now + idle_ms ≤ i64_max.

Inductive web_history : gset string * WebTables → gset string * WebTables → Prop :=
| wh_refl s : web_history s s
| wh_bootstrap s i t uid event_id now username phc :
    web_history s (i, t) → web_history s (i, (bootstrap uid event_id now username phc t).2)
| wh_login s i t session_id event_id now user secret :
    web_history s (i, t) → clock now → secret_digest secret ∉ i →
    web_history s ({[secret_digest secret]} ∪ i,
                   (create_session session_id event_id now user secret absolute_ms idle_ms t).2)
| wh_denied s i t event_id now : web_history s (i, t) → web_history s (i, denied event_id now t)
| wh_session s i i' t now secret touch between :
    web_history s (i, t) → clock now → web_history (i, t) (i', between t) →
    web_history s (i', (session now secret touch idle_ms absolute_ms between t).2)
| wh_revoke s i t event_id now secret uid :
    web_history s (i, t) → web_history s (i, (revoke event_id now secret uid t).2)
| wh_cleanup s i t now : web_history s (i, t) → web_history s (i, cleanup now t)
| wh_users s i t users : web_history s (i, t) → web_history s (i, set_web_users users t).

(** What later states keep of a row. *)
Record row_le (row row' : WebSessionRow) : Prop := {
  rl_user : wr_user_id row' = wr_user_id row;
  rl_created : wr_created_at row' = wr_created_at row;
  rl_expires : wr_expires_at row' = wr_expires_at row;
  rl_seen : wr_last_seen_at row ≤ wr_last_seen_at row';
  rl_idle : wr_idle_expires_at row ≤ wr_idle_expires_at row';
  rl_revoked : is_Some (wr_revoked_at row) → is_Some (wr_revoked_at row');
}.

Lemma row_le_refl row : row_le row row.
Proof. split; first [done|lia]. Qed.

Lemma row_le_trans a b c : row_le a b → row_le b c → row_le a c.
Proof. intros [] []. split; first [congruence|lia|auto]. Qed.

(** The rows of [i] in a later table come from rows of the earlier one. *)
Definition rows_le (i : gset string) (t t' : WebTables) : Prop :=
  ∀ digest row', digest ∈ i → wt_sessions t' !! digest = Some row' →
    ∃ row, wt_sessions t !! digest = Some row ∧ row_le row row'.

Lemma rows_le_refl i t t' : wt_sessions t' = wt_sessions t → rows_le i t t'.
Proof. intros E d row _. rewrite E. eauto using row_le_refl. Qed.

Lemma rows_le_trans i i' t1 t2 t3 : i ⊆ i' → rows_le i t1 t2 → rows_le i' t2 t3 → rows_le i t1 t3.
Proof.
  intros Hi H1 H2 d row3 Hd H3. destruct (H2 d row3) as (row2 & Hr2 & ?); [set_solver|done|].
  destruct (H1 d row2 Hd Hr2) as (row1 & ? & ?). eauto using row_le_trans.
Qed.

(** One changed row. *)
Lemma rows_le_insert i t digest row row' :
  wt_sessions t !! digest = Some row → row_le row row' →
  rows_le i t (set_web_sessions (<[digest := row']> (wt_sessions t)) t).
Proof.
  intros Hr Hle d r _. cbn. destruct (decide (d = digest)) as [->|Hne].
  - rewrite lookup_insert_eq. intros [= <-]. eauto.
  - rewrite lookup_insert_ne by done. eauto using row_le_refl.
Qed.

Lemma rows_le_events i t t' events : rows_le i t t' → rows_le i t (set_web_events events t').
Proof. done. Qed.

Lemma touch_session_le i digest uid now next_idle t : rows_le i t (touch_session digest uid now next_idle t).2.
Proof.
  unfold touch_session. destruct (wt_sessions t !! digest) as [row|] eqn:Hr; [|by apply rows_le_refl].
  destruct (_ && _); [|by apply rows_le_refl]. apply (rows_le_insert i t digest row); [done|].
  split; cbn; first [done|lia].
Qed.

(** Every row belongs to an issued secret. *)
Definition rows_issued (i : gset string) (t : WebTables) : Prop := ∀ d row, wt_sessions t !! d = Some row → d ∈ i.

Lemma rows_issued_le i t t' : rows_issued i t →
  (∀ d row', wt_sessions t' !! d = Some row' → d ∈ i ∨ is_Some (wt_sessions t !! d)) → rows_issued i t'.
Proof. intros Hi Ht d row' Hd. destruct (Ht d row' Hd) as [?|[row ?]]; [done|eauto]. Qed.

Lemma touch_session_dom digest uid now next_idle t d :
  is_Some (wt_sessions (touch_session digest uid now next_idle t).2 !! d) ↔ is_Some (wt_sessions t !! d).
Proof.
  unfold touch_session. destruct (wt_sessions t !! digest) as [row|] eqn:Hr; [|done].
  destruct (_ && _); [|done]. cbn. destruct (decide (d = digest)) as [->|Hne].
  - rewrite lookup_insert_eq, Hr. split; by eexists.
  - by rewrite lookup_insert_ne.
Qed.

(** The idle deadline a request asks for. *)
Definition next_idle_of (now : Z) (row : WebSessionRow) : Z :=
  Z.min (Z.max (wr_idle_expires_at row) (saturating_add_i64 now idle_ms))
    (Z.min (wr_expires_at row) (saturating_add_i64 (wr_created_at row) absolute_ms)).

Lemma session_result now secret touch between t :
  (session now secret touch idle_ms absolute_ms between t).2 = between t ∨
  ∃ row, wt_sessions t !! secret_digest secret = Some row ∧
    (session now secret touch idle_ms absolute_ms between t).2 =
    (touch_session (secret_digest secret) (wr_user_id row) now (next_idle_of now row) (between t)).2.
Proof.
  unfold session. destruct (live_session _ t) as [[row user]|] eqn:Hl; [|by left].
  destruct (_ || _); [by left|]. destruct (role_parse _); [|by left]. destruct touch; [|by left].
  right. exists row. split; [|unfold next_idle_of; by destruct (touch_session _ _ _ _ _)].
  unfold live_session in Hl. destruct (wt_sessions t !! secret_digest secret) as [row1|]; [|done]. cbn in Hl.
  destruct (wt_users t !! wr_user_id row1); [cbn in Hl|done]. by destruct (_ && _); simplify_eq.
Qed.

Lemma rows_le_filter i t (f : string * WebSessionRow → Prop) `{∀ kv, Decision (f kv)} events :
  rows_le i t (mkWebTables (wt_users t) (wt_bootstrap t) (filter f (wt_sessions t)) events).
Proof. intros d row _ [Hd _]%map_lookup_filter_Some. eauto using row_le_refl. Qed.

(** Rows of issued secrets only come from rows, and every row is issued. *)
Lemma history_rows s s' :
  web_history s s' → rows_issued s.1 s.2 → s.1 ⊆ s'.1 ∧ rows_le s.1 s.2 s'.2 ∧ rows_issued s'.1 s'.2.
Proof.
  induction 1 as [s|s i t uid eid now un phc _ IH|s i t sid eid now user secret _ IH _ Hnew|s i t eid now _ IH
    |s i i' t now secret touch btw _ IH _ _ IHb|s i t eid now secret uid _ IH|s i t now _ IH|s i t users _ IH];
    intros Hi; cbn in *; try (destruct (IH Hi) as (Hsub & Hle & Hiss); clear IH).
  - split_and!; [done|by apply rows_le_refl|done].
  - unfold bootstrap. destruct (wt_bootstrap t); [done|]. by destruct (bool_decide _).
  - unfold create_session. destruct (wt_users t !! us_id user) as [urow|]; [|split_and!; [set_solver|done|]];
      [|intros d row Hd; apply Hiss in Hd; set_solver].
    destruct (_ && _); cbn; [|split_and!; [set_solver|done|intros d row Hd; apply Hiss in Hd; set_solver]].
    destruct (wt_sessions t !! secret_digest secret) eqn:Hs; cbn;
      [split_and!; [set_solver|done|intros d row Hd; apply Hiss in Hd; set_solver]|].
    split_and!; [set_solver| |].
    + intros d row Hd. cbn. rewrite lookup_insert_ne by set_solver. by apply Hle.
    + intros d row. cbn. destruct (decide (d = secret_digest secret)) as [->|Hne]; [set_solver|].
      rewrite lookup_insert_ne by done. intros Hd%Hiss. set_solver.
  - done.
  - destruct (IHb Hiss) as (Hsub' & Hle' & Hiss').
    destruct (session_result now secret touch btw t) as [->|(row0 & _ & ->)].
    + split_and!; [set_solver|by eapply rows_le_trans|done].
    + split_and!; [set_solver| |].
      * eapply (rows_le_trans _ i'); [set_solver|by eapply rows_le_trans|apply touch_session_le].
      * intros d row Hd. assert (is_Some (wt_sessions (btw t) !! d)) as [r Hr].
        { by eapply touch_session_dom; eexists. }
        by eapply Hiss'.
  - unfold revoke. destruct (wt_sessions t !! secret_digest secret) as [row|] eqn:Hr; [|done].
    case_bool_decide as Hn; [|done]. cbn. split_and!; [done| |].
    + eapply (rows_le_trans _ i); [done|done|]. apply rows_le_events, (rows_le_insert i t _ row); [done|].
      split; cbn; first [done|lia].
    + intros d r. cbn. destruct (decide (d = secret_digest secret)) as [->|Hne]; [eauto|].
      rewrite lookup_insert_ne by done. eauto.
  - split_and!; [done|eapply (rows_le_trans _ i); [done|done|apply rows_le_filter]|].
    intros d row [Hd _]%map_lookup_filter_Some. eauto.
  - done.
Qed.

(** The deadlines of a row. *)
Record row_ok (row : WebSessionRow) : Prop := {
  ro_created : 0 ≤ wr_created_at row ∧ wr_created_at row + absolute_ms ≤ i64_max;
  ro_expires : wr_expires_at row = wr_created_at row + absolute_ms;
  ro_idle : wr_idle_expires_at row ≤ wr_last_seen_at row + idle_ms;
  ro_within : wr_idle_expires_at row ≤ wr_expires_at row;
}.

Definition rows_ok (t : WebTables) : Prop := ∀ d row, wt_sessions t !! d = Some row → row_ok row.

Context (Hidle : 0 ≤ idle_ms ≤ absolute_ms).

Lemma wrap_i64_small x : 0 ≤ x ≤ i64_max → wrap_i64 x = x.
Proof. unfold wrap_i64, i64_max. intros H. rewrite Z.mod_small; lia. Qed.

Lemma saturating_add_i64_small x y : 0 ≤ x + y ≤ i64_max → saturating_add_i64 x y = x + y.
Proof. unfold saturating_add_i64, i64_min, i64_max. lia. Qed.

Lemma next_idle_bounds now row :
  clock now → row_ok row →
  next_idle_of now row ≤ Z.max (wr_last_seen_at row) now + idle_ms ∧ next_idle_of now row ≤ wr_expires_at row.
Proof.
  intros (? & ? & ?) [? ? ? ?]. unfold next_idle_of. rewrite !saturating_add_i64_small by lia. lia.
Qed.

Lemma touch_session_ok i t0 t digest uid now row :
  digest ∈ i → rows_le i t0 t → wt_sessions t0 !! digest = Some row → row_ok row → clock now → rows_ok t →
  rows_ok (touch_session digest uid now (next_idle_of now row) t).2.
Proof.
  intros Hd Hle Hrow Hok Hclock Hall. unfold touch_session.
  destruct (wt_sessions t !! digest) as [cur|] eqn:Hcur; [|done]. destruct (_ && _); [|done]. cbn.
  intros d r. cbn. destruct (decide (d = digest)) as [->|Hne]; [|rewrite lookup_insert_ne by done; apply Hall].
  rewrite lookup_insert_eq. intros [= <-].
  destruct (Hle digest cur Hd Hcur) as (row0 & Hrow0 & [_ Hcr Hex Hseen _ _]).
  rewrite Hrow in Hrow0. injection Hrow0 as <-. destruct (Hall _ _ Hcur). pose proof (next_idle_bounds now row Hclock Hok).
  split; cbn; [done|done|lia|lia].
Qed.

Lemma history_rows_ok s s' : web_history s s' → rows_issued s.1 s.2 → rows_ok s.2 → rows_ok s'.2.
Proof.
  induction 1 as [s|s i t uid eid now un phc Hh IH|s i t sid eid now user secret Hh IH Hc Hnew|s i t eid now Hh IH
    |s i i' t now secret touch btw Hh IH Hc Hb IHb|s i t eid now secret uid Hh IH|s i t now Hh IH|s i t users Hh IH];
    intros Hi Hok; cbn in *; try (specialize (IH Hi Hok)); try done.
  - unfold bootstrap. destruct (wt_bootstrap t); [done|]. by destruct (bool_decide _).
  - unfold create_session. destruct (wt_users t !! us_id user) as [urow|]; [|done]. destruct (_ && _); [|done].
    destruct (wt_sessions t !! secret_digest secret) eqn:Hs; [done|]. intros d row. cbn.
    destruct (decide (d = secret_digest secret)) as [->|Hne]; [|rewrite lookup_insert_ne by done; apply IH].
    rewrite lookup_insert_eq. intros [= <-]. destruct Hc as (? & ? & ?). rewrite !wrap_i64_small by lia. split; cbn; lia.
  - destruct (history_rows _ _ Hh Hi) as (_ & _ & Hiss). destruct (history_rows _ _ Hb Hiss) as (_ & Hle & _).
    specialize (IHb Hiss IH). destruct (session_result now secret touch btw t) as [->|(row & Hrow & ->)]; [done|].
    eapply touch_session_ok; [by eapply Hiss|done|done|by eapply IH|done|done].
  - unfold revoke. destruct (wt_sessions t !! secret_digest secret) as [row|] eqn:Hr; [|done].
    case_bool_decide as Hn; [|done]. intros d r. cbn.
    destruct (decide (d = secret_digest secret)) as [->|Hne]; [|rewrite lookup_insert_ne by done; apply IH].
    rewrite lookup_insert_eq. intros [= <-]. by destruct (IH _ _ Hr).
  - intros d row [Hd _]%map_lookup_filter_Some. by eapply IH.
Qed.

End History.

(** No sessions and no issued secrets. *)
Definition web_start (t : WebTables) : Prop := wt_sessions t = ∅.

(** Logging out is final: when a session was revoked, its secret is refused in every
    later state, by every request, whatever logins, requests, clean-ups and changes of
    users happen in between and during the request itself, and refusing it changes
    nothing. *)
Theorem revoked_session_stays_out `{H256 : Sha256} absolute_ms idle_ms t0 i t event_id now secret uid t1 i2 t2
    now' touch between :
  web_start t0 → web_history absolute_ms idle_ms (∅, t0) (i, t) →
  revoke event_id now secret uid t = (true, t1) →
  web_history absolute_ms idle_ms (i, t1) (i2, t2) →
  session now' secret touch idle_ms absolute_ms between t2 = (Ok None, between t2).
Proof.
  intros H0 Hh Hrev Hh2.
  assert (rows_issued i t) as Hiss.
  { apply history_rows in Hh as (_ & _ & ?); [done|]. intros d row. cbn. by rewrite H0, lookup_empty. }
  unfold revoke in Hrev. destruct (wt_sessions t !! secret_digest secret) as [row|] eqn:Hr; [|done].
  case_bool_decide as Hn; [|done]. injection Hrev as <-.
  apply history_rows in Hh2 as (_ & Hle & _); cycle 1.
  { intros d r. cbn. destruct (decide (d = secret_digest secret)) as [->|Hne]; [eauto|].
    rewrite lookup_insert_ne by done. eauto. }
  unfold session, live_session. destruct (wt_sessions t2 !! secret_digest secret) as [row'|] eqn:Hr'; [|done].
  destruct (Hle (secret_digest secret) row') as (row0 & Hr0 & [_ _ _ _ _ Hrl]); [eauto|done|].
  cbn in Hr0. rewrite lookup_insert_eq in Hr0. injection Hr0 as <-. destruct Hrl as [z Hz]; [by eexists|].
  cbn. destruct (wt_users t2 !! wr_user_id row'); [cbn|done]. by rewrite Hz.
Qed.

(** A secret is accepted at a time only for a session that is not revoked, of a user
    who is enabled and has the role that is reported, within the absolute lifetime from
    the login and within the idle time of the last request that kept the session
    alive; the deadlines that are reported lie within these bounds. This holds over all
    histories of logins, requests, log-outs and clean-ups, with requests that overlap. *)
Theorem session_lifetime `{H256 : Sha256} absolute_ms idle_ms t0 i t now secret touch between view t' :
  0 ≤ idle_ms ≤ absolute_ms → web_start t0 → web_history absolute_ms idle_ms (∅, t0) (i, t) →
  clock absolute_ms idle_ms now →
  session now secret touch idle_ms absolute_ms between t = (Ok (Some view), t') →
  ∃ row user, wt_sessions t !! secret_digest secret = Some row ∧ wr_revoked_at row = None ∧
    wt_users t !! wr_user_id row = Some user ∧ wu_enabled user = true ∧
    sv_user_id view = wr_user_id row ∧ role_parse (wu_role user) = Some (sv_role view) ∧
    now < wr_created_at row + absolute_ms ∧ now < wr_last_seen_at row + idle_ms ∧
    sv_expires_at_ms view = wr_created_at row + absolute_ms ∧
    sv_idle_expires_at_ms view ≤ Z.max (wr_last_seen_at row) now + idle_ms ∧
    sv_idle_expires_at_ms view ≤ sv_expires_at_ms view.
Proof.
  intros Hidle H0 Hh Hc Hs.
  assert (rows_issued ∅ t0) as Hi by (intros d row; by rewrite H0, lookup_empty).
  assert (rows_ok absolute_ms idle_ms t) as Hok.
  { apply (history_rows_ok absolute_ms idle_ms Hidle _ _ Hh Hi). intros d row. cbn. by rewrite H0, lookup_empty. }
  unfold session, live_session in Hs. destruct (wt_sessions t !! secret_digest secret) as [row|] eqn:Hrow; [|done].
  cbn in Hs. destruct (wt_users t !! wr_user_id row) as [user|] eqn:Hu; [cbn in Hs|done].
  destruct (bool_decide (wr_revoked_at row = None) && wu_enabled user) eqn:E; [|done]. bools.
  destruct (_ || _) eqn:E2; [done|]. bools. destruct (role_parse (wu_role user)) as [role|] eqn:Hrole; [|done].
  specialize (Hok _ _ Hrow). pose proof (next_idle_bounds absolute_ms idle_ms Hidle now row Hc Hok) as Hb.
  destruct Hok as [? ? ? ?]. unfold next_idle_of in Hb. rewrite (saturating_add_i64_small (wr_created_at row)) in * by lia.
  exists row, user. destruct touch.
  - destruct (touch_session _ _ _ _ _) as [rows t1]. case_bool_decide; [done|]. injection Hs as <- <-. cbn.
    split_and!; try done; lia.
  - injection Hs as <- <-. cbn. split_and!; try done; lia.
Qed.

(** The claim of the first administrator is never given back. *)
Lemma history_bootstrap `{H256 : Sha256} absolute_ms idle_ms s s' :
  web_history absolute_ms idle_ms s s' → wt_bootstrap s.2 = true → wt_bootstrap s'.2 = true.
Proof.
  induction 1 as [s|s i t uid eid now un phc _ IH|s i t sid eid now user secret _ IH _ _|s i t eid now _ IH
    |s i i' t now secret touch btw _ IH _ _ IHb|s i t eid now secret uid _ IH|s i t now _ IH|s i t users _ IH];
    intros Hb; cbn in *; try specialize (IH Hb); try done.
  - unfold bootstrap. by rewrite IH.
  - unfold create_session. repeat (case_match; try done).
  - specialize (IHb IH). destruct (session_result absolute_ms idle_ms now secret touch btw t) as [->|(row & _ & ->)]; [done|].
    unfold touch_session. repeat (case_match; try done).
  - unfold revoke. repeat (case_match; try done).
Qed.

(** The first administrator is created once: it takes a Server that has no user yet
    and no claim, and after it every further attempt fails and changes nothing, whatever
    happens to the users in between. *)
Theorem bootstrap_once `{H256 : Sha256} absolute_ms idle_ms i uid event_id now username phc t t1 i2 t2
    uid' event_id' now' username' phc' :
  bootstrap uid event_id now username phc t = (Ok tt, t1) →
  web_history absolute_ms idle_ms (i, t1) (i2, t2) →
  wt_users t = ∅ ∧ wt_bootstrap t = false ∧
  wt_users t1 = {[uid := mkWebUserRow username phc "admin" true now now]} ∧
  bootstrap uid' event_id' now' username' phc' t2 = (Err (DbConstraint "web_bootstrap.claim"), t2).
Proof.
  intros Hb Hh. unfold bootstrap in Hb. destruct (wt_bootstrap t) eqn:Hc; [done|].
  destruct (bool_decide (wt_users t = ∅)) eqn:Hu; [|done]. bools. injection Hb as <-.
  apply history_bootstrap in Hh; [|done]. cbn in Hh. split_and!; [done|done| |].
  - cbn. by rewrite Hu.
  - unfold bootstrap. by rewrite Hh.
Qed.

(** ** Examples *)

(** An administrator who logs in at 1000 and out at 2000; the digest of a secret is the
    secret here. *)
Definition demo_sha : Sha256 := λ bs, bs.
Definition no_web_tables : WebTables := mkWebTables ∅ false ∅ [].
Definition demo_admin : User := mkUser "u1" "root" Admin true "phc".
Definition demo_secret : bytes := replicate 32 5.
Definition demo_web1 : WebTables := (bootstrap "u1" "e1" 500 "root" "phc" no_web_tables).2.
Definition demo_web2 : WebTables :=
  (create_session (H256 := demo_sha) "s1" "e2" 1000 demo_admin demo_secret 60000 10000 demo_web1).2.
Definition demo_web3 : WebTables := (revoke (H256 := demo_sha) "e3" 2000 demo_secret "u1" demo_web2).2.

Lemma demo_web2_history :
  web_history (H256 := demo_sha) 60000 10000 (∅, no_web_tables) ({[secret_digest (H256 := demo_sha) demo_secret]} ∪ ∅, demo_web2).
Proof.
  apply (wh_login (H256 := demo_sha) 60000 10000 _ ∅ demo_web1).
  - apply (wh_bootstrap (H256 := demo_sha) 60000 10000 _ ∅ no_web_tables). apply wh_refl.
  - by vm_compute.
  - set_solver.
Qed.

Lemma revoked_session_stays_out_witness :
  session (H256 := demo_sha) 2001 demo_secret true 10000 60000 (λ t, t) demo_web3 = (Ok None, demo_web3).
Proof.
  apply (revoked_session_stays_out (H256 := demo_sha) 60000 10000 no_web_tables
    ({[secret_digest (H256 := demo_sha) demo_secret]} ∪ ∅) demo_web2 "e3" 2000 demo_secret "u1" demo_web3
    ({[secret_digest (H256 := demo_sha) demo_secret]} ∪ ∅) demo_web3 2001 true (λ t, t)).
  - reflexivity.
  - exact demo_web2_history.
  - vm_compute. reflexivity.
  - apply wh_refl.
Defined.

Definition demo_view : SessionView :=
  mkSessionView "u1" "root" Admin (csrf (H256 := demo_sha) demo_secret) 61000 15000 (permissions Admin).
Definition demo_web4 : WebTables :=
  (session (H256 := demo_sha) 5000 demo_secret true 10000 60000 (λ t, t) demo_web2).2.

Lemma session_lifetime_witness :
  ∃ row user, wt_sessions demo_web2 !! secret_digest (H256 := demo_sha) demo_secret = Some row ∧ wr_revoked_at row = None ∧
    wt_users demo_web2 !! wr_user_id row = Some user ∧ wu_enabled user = true ∧
    sv_user_id demo_view = wr_user_id row ∧ role_parse (wu_role user) = Some (sv_role demo_view) ∧
    5000 < wr_created_at row + 60000 ∧ 5000 < wr_last_seen_at row + 10000 ∧
    sv_expires_at_ms demo_view = wr_created_at row + 60000 ∧
    sv_idle_expires_at_ms demo_view ≤ Z.max (wr_last_seen_at row) 5000 + 10000 ∧
    sv_idle_expires_at_ms demo_view ≤ sv_expires_at_ms demo_view.
Proof.
  apply (session_lifetime (H256 := demo_sha) 60000 10000 no_web_tables
    ({[secret_digest (H256 := demo_sha) demo_secret]} ∪ ∅) demo_web2 5000 demo_secret true (λ t, t) demo_view demo_web4).
  - lia.
  - reflexivity.
  - exact demo_web2_history.
  - by vm_compute.
  - vm_compute. reflexivity.
Defined.

Lemma bootstrap_once_witness :
  wt_users no_web_tables = ∅ ∧ wt_bootstrap no_web_tables = false ∧
  wt_users demo_web1 = {[ "u1" := mkWebUserRow "root" "phc" "admin" true 500 500]} ∧
  bootstrap "u2" "e9" 700 "eve" "x" demo_web2 = (Err (DbConstraint "web_bootstrap.claim"), demo_web2).
Proof.
  apply (bootstrap_once (H256 := demo_sha) 60000 10000 ∅ "u1" "e1" 500 "root" "phc" no_web_tables demo_web1
    ({[secret_digest (H256 := demo_sha) demo_secret]} ∪ ∅) demo_web2 "u2" "e9" 700 "eve" "x").
  - reflexivity.
  - apply (wh_login (H256 := demo_sha) 60000 10000 _ ∅ demo_web1); [apply wh_refl|by vm_compute|set_solver].
Defined.
