(* ===== verification/WebGate.v ===== *)
(** * The gates of the web interface

    What [crates/smalux-server/src/web_auth.rs] checks of a request before it looks at
    it: the origin headers, the session cookie, the rate of logins and the form of
    names and passwords.

    Text from the network is a list of bytes. *)

From stdpp Require Import base gmap strings list pretty sorting.
From S2P Require Import Prelude StLogic Rotation Credential JobEvents Catalog Paging Reports WebStore.

(** ** Text *)

(** [str::split]. *)
Fixpoint split_on (sep : Z) (text : bytes) : list bytes :=
  match text with
  | [] => [[]]
  | b :: text =>
      if bool_decide (b = sep) then [] :: split_on sep text
      else match split_on sep text with
           | part :: parts => (b :: part) :: parts
           | [] => [[b]]
           end
  end.

(** [str::trim] of ASCII text. *)
Definition is_whitespace (b : Z) : bool := bool_decide (b = 32) || bool_decide (9 ≤ b ≤ 13).
Fixpoint trim_start (text : bytes) : bytes :=
  match text with
  | b :: rest => if is_whitespace b then trim_start rest else text
  | [] => []
  end.
Definition trim (text : bytes) : bytes := reverse (trim_start (reverse (trim_start text))).

(** [u8::to_ascii_lowercase] and [eq_ignore_ascii_case]. *)
Definition ascii_lower (b : Z) : Z := if bool_decide (65 ≤ b ≤ 90) then b + 32 else b.
Definition eq_ignore_ascii_case (a b : bytes) : bool := bool_decide ((ascii_lower <$> a) = (ascii_lower <$> b)).

(** ** Headers *)

(** [HeaderMap]: [get] gives the first value of a name. *)
Definition HeaderMap : Type := list (string * bytes).
Definition header_get (name : string) (headers : HeaderMap) : option bytes :=
  snd <$> List.find (λ kv, bool_decide (kv.1 = name)) headers.

(** [HeaderValue::to_str]. *)
Definition header_text (value : bytes) : option bytes :=
  if forallb (λ b, (bool_decide (32 ≤ b) && bool_decide (b < 127)) || bool_decide (b = 9)) value
  then Some value else None.
Definition header_str (name : string) (headers : HeaderMap) : option bytes := header_get name headers ≫= header_text.

(** [WebAuthConfig]. *)
Record WebAuthConfig : Type := mkWebAuthConfig {
  wc_enabled : bool;
  wc_origin : bytes;
  wc_absolute_ms : Z;
  wc_idle_ms : Z;
  wc_login_limit : Z;
  wc_secure : bool;
}.

(** The refusals of a request: HTTP status, kind and message, and [retry-after]. *)
Record HttpError : Type := mkHttpError {
  he_status : Z;
  he_kind : string;
  he_message : string;
  he_retry_after : option string;
}.

(** [internal], [unauthenticated], [forbidden], [rate_limited]. *)
Definition http_error (status : Z) (kind message : string) : HttpError := mkHttpError status kind message None.
Definition internal : HttpError := http_error 500 "INTERNAL_ERROR" "Request failed".
Definition unauthenticated : HttpError := http_error 401 "UNAUTHENTICATED" "Authentication required".
Definition forbidden : HttpError := http_error 403 "FORBIDDEN" "Request is not allowed".
Definition rate_limited (after : string) : HttpError :=
  mkHttpError 429 "RATE_LIMITED" "Too many login attempts" (Some after).

(** [read_gate]. *)
Definition read_gate (headers : HeaderMap) (c : WebAuthConfig) : result HttpError unit :=
  if negb (wc_enabled c) then Err (http_error 404 "NOT_FOUND" "Not found")
  else if default false ((λ v, bool_decide (header_text v ≠ Some (wc_origin c))) <$> header_get "origin" headers)
  then Err forbidden
  else if default false
            ((λ v, bool_decide (header_text v ≠ Some (text_bytes "same-origin"))
                   && bool_decide (header_text v ≠ Some (text_bytes "none"))) <$> header_get "sec-fetch-site" headers)
  then Err forbidden
  else Ok tt.

(** [write_gate]. *)
Definition write_gate (headers : HeaderMap) (c : WebAuthConfig) : result HttpError unit :=
  _ ← read_gate headers c;
  if bool_decide (header_str "origin" headers ≠ Some (wc_origin c))
     || bool_decide (header_str "x-smalux-client" headers ≠ Some (text_bytes "web"))
  then Err forbidden
  else if negb (default false
                  ((λ v, default false ((λ part, eq_ignore_ascii_case (trim part) (text_bytes "application/json")) <$>
                                          head (split_on 59 v))) <$> header_str "content-type" headers))
  then Err (http_error 415 "VALIDATION_FAILED" "Content-Type must be application/json")
  else Ok tt.

(** ** The cookie *)

Definition COOKIE : bytes := text_bytes "smalux_session".

(** [u8::from_str_radix(pair, 16)] of two characters: a sign may stand before one digit. *)
Definition hex_value (b : Z) : option Z :=
  if bool_decide (48 ≤ b ≤ 57) then Some (b - 48)
  else if bool_decide (97 ≤ b ≤ 102) then Some (b - 87)
  else if bool_decide (65 ≤ b ≤ 70) then Some (b - 55)
  else None.
Definition u8_from_hex (a b : Z) : option Z :=
  if bool_decide (a = 43) then hex_value b
  else high ← hex_value a; low ← hex_value b; Some (high * 16 + low).

Fixpoint hex_pairs (text : bytes) : option bytes :=
  match text with
  | [] => Some []
  | [_] => None
  | a :: b :: text => v ← u8_from_hex a b; vs ← hex_pairs text; Some (v :: vs)
  end.

(** [cookie_secret]. *)
Definition cookie_secret (headers : HeaderMap) : option bytes :=
  text ← header_str "cookie" headers;
  match filter (λ kv : bytes * bytes, kv.1 = COOKIE) (omap (λ p, split_once 61 (trim p)) (split_on 59 text)) with
  | [(_, value)] =>
      if bool_decide (length value ≠ 64%nat) then None
      else
        secret ← hex_pairs value;
        if bool_decide (encode_hex secret ≠ value) then None else Some secret
  | _ => None
  end.

(** [cookie]. *)
Definition cookie (secret : option bytes) (secure : bool) : bytes :=
  COOKIE ++ text_bytes "=" ++ default [] (encode_hex <$> secret)
  ++ text_bytes "; Path=/api/v1; HttpOnly; SameSite=Strict"
  ++ (if secure then text_bytes "; Secure" else [])
  ++ (match secret with None => text_bytes "; Max-Age=0" | Some _ => [] end).

(** ** Names and passwords *)

(** [user_name]. *)
Definition name_byte (b : Z) : bool :=
  bool_decide (48 ≤ b ≤ 57) || bool_decide (65 ≤ b ≤ 90) || bool_decide (97 ≤ b ≤ 122)
  || bool_decide (b = 46) || bool_decide (b = 95) || bool_decide (b = 45).
Definition user_name (s : bytes) : option bytes :=
  if negb (bool_decide (3 ≤ zlen s ≤ 64)) || negb (forallb name_byte s) then None else Some (ascii_lower <$> s).

(** [valid_password]; the characters of UTF-8 text are its bytes that do not continue one. *)
Definition utf8_chars (s : bytes) : Z := zlen (filter (λ b, ¬ 128 ≤ b < 192) s).
Definition valid_password (s : bytes) : bool := bool_decide (12 ≤ utf8_chars s ≤ 128) && bool_decide (zlen s ≤ 512).

(** ** The rate of logins *)

(** [WebAuth::limit]: [now] and the attempts are instants in nanoseconds. *)
Definition LOGIN_WINDOW : Z := 60 * 1000000000.
Definition limit_login (login_limit now : Z) (attempts : list Z) : result HttpError unit * list Z :=
  let attempts := filter (λ t, Z.max 0 (now - t) < LOGIN_WINDOW) attempts in
  if bool_decide (login_limit ≤ zlen attempts) then (Err (rate_limited "60"), attempts)
  else (Ok tt, attempts ++ [now]).

(** The logins at some instants, and those that were let through. *)
Fixpoint limit_all (login_limit : Z) (instants : list Z) (attempts : list Z) : list Z :=
  match instants with
  | [] => []
  | now :: instants =>
      let '(r, attempts) := limit_login login_limit now attempts in
      (if is_ok r then [now] else []) ++ limit_all login_limit instants attempts
  end.

(** Instants of a monotonic clock. *)
Fixpoint in_order (from : Z) (instants : list Z) : Prop :=
  match instants with [] => True | t :: rest => from ≤ t ∧ in_order t rest end.

(** The logins of a list within a window. *)
Definition in_window (w : Z) (instants : list Z) : Z := zlen (filter (λ t, w ≤ t < w + LOGIN_WINDOW) instants).

Lemma in_window_app w a b : in_window w (a ++ b) = in_window w a + in_window w b.
Proof. unfold in_window, zlen. rewrite filter_app, length_app. lia. Qed.

Lemma filter_subset_length {A} (P Q : A → Prop) `{∀ x, Decision (P x)} `{∀ x, Decision (Q x)} (l : list A) :
  (∀ x, x ∈ l → P x → Q x) → (length (filter P l) ≤ length (filter Q l))%nat.
Proof.
  induction l as [|x l IH]; intros Hl; [done|].
  assert (∀ y, y ∈ l → P y → Q y) as Hl' by (intros; apply Hl; set_solver). specialize (IH Hl').
  destruct (decide (P x)) as [Hp|Hp].
  - rewrite !filter_cons_True by (try done; apply Hl; set_solver). cbn. lia.
  - rewrite (filter_cons_False P) by done. rewrite filter_cons. case_decide; cbn; lia.
Qed.

Lemma filter_ext_elem {A} (P Q : A → Prop) `{∀ x, Decision (P x)} `{∀ x, Decision (Q x)} (l : list A) :
  (∀ x, x ∈ l → P x ↔ Q x) → filter P l = filter Q l.
Proof.
  induction l as [|x l IH]; intros Hl; [done|]. rewrite !filter_cons, IH by (intros; apply Hl; set_solver).
  specialize (Hl x ltac:(set_solver)). do 2 case_decide; naive_solver.
Qed.

(** The limiter after the logins [done_], the last of them no later than [last]. *)
Record limiter_ok (login_limit last : Z) (done_ attempts : list Z) : Prop := {
  lk_past t : t ∈ done_ → t ≤ last;
  lk_attempts : attempts = filter (λ t, last - t < LOGIN_WINDOW) done_;
  lk_window w : in_window w done_ ≤ login_limit;
}.

Lemma limit_login_ok login_limit last now done_ attempts :
  last ≤ now → limiter_ok login_limit last done_ attempts →
  let out := limit_login login_limit now attempts in
  limiter_ok login_limit now (done_ ++ if is_ok out.1 then [now] else []) out.2.
Proof.
  intros Hnow [Hpast -> Hwin]. unfold limit_login.
  assert (filter (λ t, Z.max 0 (now - t) < LOGIN_WINDOW) (filter (λ t, last - t < LOGIN_WINDOW) done_) =
          filter (λ t, now - t < LOGIN_WINDOW) done_) as ->.
  { rewrite list_filter_filter. apply filter_ext_elem. intros t Ht. specialize (Hpast t Ht). unfold LOGIN_WINDOW. lia. }
  case_bool_decide as Hfull; cbn.
  - rewrite app_nil_r. split; [|done|done]. intros t Ht. specialize (Hpast t Ht). lia.
  - split.
    + intros t [Ht| ->%list_elem_of_singleton]%elem_of_app; [specialize (Hpast t Ht)|]; lia.
    + rewrite filter_app. f_equal. rewrite filter_cons_True; [done|]. unfold LOGIN_WINDOW. lia.
    + intros w. rewrite in_window_app. unfold in_window at 2. rewrite filter_cons. case_decide as Hw; cbn.
      * enough (in_window w done_ ≤ zlen (filter (λ t, now - t < LOGIN_WINDOW) done_)) by (rewrite <- Z.lt_nge in Hfull; unfold zlen in *; cbn; lia).
        unfold in_window, zlen. apply inj_le, filter_subset_length. intros t _ Ht. lia.
      * unfold zlen. cbn. specialize (Hwin w). lia.
Qed.

Lemma limit_all_ok login_limit last instants done_ attempts :
  in_order last instants → limiter_ok login_limit last done_ attempts →
  ∀ w, in_window w (done_ ++ limit_all login_limit instants attempts) ≤ login_limit.
Proof.
  revert last done_ attempts. induction instants as [|now instants IH]; intros last done_ attempts Ho Hok w; cbn.
  - rewrite app_nil_r. apply Hok.
  - destruct Ho as [Hn Ho]. pose proof (limit_login_ok login_limit last now done_ attempts Hn Hok) as H. cbn in H.
    destruct (limit_login login_limit now attempts) as [r attempts'] eqn:E. cbn in H. rewrite (assoc_L (++)). by eapply IH.
Qed.

(** However often clients try to log in, no more than the configured number of
    attempts reaches the password check within any minute. *)
Theorem login_rate_bounded login_limit instants w :
  0 ≤ login_limit → in_order 0 instants →
  in_window w (limit_all login_limit instants []) ≤ login_limit.
Proof.
  intros Hl Ho. apply (limit_all_ok login_limit 0 instants [] [] Ho). split; [set_solver|done|].
  intros w'. unfold in_window, zlen. cbn. lia.
Qed.

Lemma login_rate_bounded_witness :
  in_window 5 (limit_all 2 [1; 2; 3; 4; 60000000002; 60000000003] []) ≤ 2.
Proof. apply (login_rate_bounded 2 [1; 2; 3; 4; 60000000002; 60000000003] 5); [lia|by vm_compute]. Defined.

(** ** The cookie comes back *)

Lemma split_on_none sep text : sep ∉ text → split_on sep text = [text].
Proof.
  induction text as [|b text IH]; intros Ht; [done|]. cbn. rewrite bool_decide_eq_false_2 by set_solver.
  by rewrite IH by set_solver.
Qed.

Lemma split_on_cons sep a rest : sep ∉ a → split_on sep (a ++ sep :: rest) = a :: split_on sep rest.
Proof.
  induction a as [|b a IH]; intros Ha; cbn; [by rewrite bool_decide_eq_true_2|].
  rewrite bool_decide_eq_false_2 by set_solver. by rewrite IH by set_solver.
Qed.

(** A browser stores what stands before the first semicolon of [Set-Cookie], and sends
    its cookies joined by a semicolon and a space. *)
Definition stored_cookie (set_cookie : bytes) : bytes := default [] (head (split_on 59 set_cookie)).
Fixpoint cookie_header (cookies : list bytes) : bytes :=
  match cookies with
  | [] => []
  | [c] => c
  | c :: cookies => c ++ 59 :: 32 :: cookie_header cookies
  end.

Lemma trim_space text : trim (32 :: text) = trim text.
Proof. done. Qed.

(** Reading the pairs back, with the spaces between them. *)
Lemma split_cookie_header {A} (f : bytes → option A) cookies :
  cookies ≠ [] → Forall (λ c, 59 ∉ c) cookies →
  omap (λ p, f (trim p)) (split_on 59 (cookie_header cookies)) = omap (λ p, f (trim p)) cookies.
Proof.
  intros Hne Hall. destruct Hall as [|c cookies Hc Hall]; [done|]. clear Hne.
  revert c Hc. induction Hall as [|c' cookies Hc' Hall IH]; intros c Hc.
  - cbn [cookie_header]. by rewrite split_on_none.
  - change (cookie_header (c :: c' :: cookies)) with (c ++ 59 :: 32 :: cookie_header (c' :: cookies)).
    rewrite split_on_cons by done. cbn [omap list_omap].
    assert (∀ text, split_on 59 (32 :: text) =
      match split_on 59 text with part :: parts => (32 :: part) :: parts | [] => [[32]] end) as Hs by done.
    specialize (IH c' Hc'). rewrite Hs. destruct (split_on 59 (cookie_header (c' :: cookies))) as [|p ps] eqn:E.
    { exfalso. clear -E. destruct (cookie_header (c' :: cookies)) as [|x l]; [done|]. cbn in E.
      destruct (bool_decide _); [done|]. by destruct (split_on 59 l). }
    cbn [omap list_omap]. rewrite trim_space. cbn [omap list_omap] in IH. by rewrite IH.
Qed.

Lemma hex_pairs_encode secret : Forall is_byte secret → hex_pairs (encode_hex secret) = Some secret.
Proof.
  induction 1 as [|b l Hb Hl IH]; [done|].
  change (encode_hex (b :: l)) with (hex_digit (Z.shiftr b 4) :: hex_digit (Z.land b 15) :: encode_hex l).
  destruct (byte_nibbles b Hb) as (H1 & H2 & _).
  assert (∀ n, 0 ≤ n < 16 → hex_value (hex_digit n) = Some n ∧ hex_digit n ≠ 43) as Hd.
  { intros n Hn. unfold hex_value, hex_digit. destruct (Z.ltb_spec n 10); repeat case_bool_decide; try lia;
      (split; [f_equal; lia|lia]). }
  cbn [hex_pairs]. unfold u8_from_hex. rewrite (bool_decide_eq_false_2 (_ = 43)) by (by apply Hd).
  rewrite (proj1 (Hd _ H1)), (proj1 (Hd _ H2)). cbn. rewrite IH. cbn. do 2 f_equal.
  rewrite Z.shiftr_div_pow2 by lia. change 15 with (Z.ones 4). rewrite Z.land_ones by lia.
  pose proof (Z.div_mod b (2 ^ 4)). lia.
Qed.

Lemma encode_hex_no c secret : Forall is_byte secret → ¬ hex_char c → c ∉ encode_hex secret.
Proof. intros H%encode_hex_chars Hc Hin. rewrite Forall_forall in H. by apply Hc, H. Qed.

Definition session_pair (secret : bytes) : bytes := COOKIE ++ 61 :: encode_hex secret.

Lemma session_pair_no_semicolon secret : Forall is_byte secret → 59 ∉ session_pair secret.
Proof.
  intros Hb. unfold session_pair. rewrite not_elem_of_app, not_elem_of_cons. split_and!; [|lia|].
  - vm_compute. set_solver.
  - apply encode_hex_no; [done|]. unfold hex_char. lia.
Qed.

Lemma stored_cookie_pair secret secure :
  Forall is_byte secret → stored_cookie (cookie (Some secret) secure) = session_pair secret.
Proof.
  intros Hb. unfold stored_cookie, cookie.
  change (text_bytes "; Path=/api/v1; HttpOnly; SameSite=Strict") with
    (59 :: text_bytes " Path=/api/v1; HttpOnly; SameSite=Strict").
  cbn [fmap option_fmap option_map default]. rewrite (assoc_L (++)), (assoc_L (++)), <- (assoc_L (++) COOKIE).
  change (text_bytes "=" ++ encode_hex secret) with (61 :: encode_hex secret). fold (session_pair secret).
  rewrite <- app_comm_cons, split_on_cons; [done|by apply session_pair_no_semicolon].
Qed.

Lemma trim_start_keeps b text : is_whitespace b = false → trim_start (b :: text) = b :: text.
Proof. intros H. cbn. by rewrite H. Qed.

Lemma trim_session_pair secret : Forall is_byte secret → secret ≠ [] → trim (session_pair secret) = session_pair secret.
Proof.
  intros Hb Hne. unfold trim. assert (trim_start (session_pair secret) = session_pair secret) as ->.
  { change (session_pair secret) with (115 :: tail (session_pair secret)). by apply trim_start_keeps. }
  assert (∃ l c, session_pair secret = l ++ [c] ∧ hex_char c) as (l & c & -> & Hc).
  { unfold session_pair. assert (∃ l c, encode_hex secret = l ++ [c]) as (l & c & E).
    { destruct (encode_hex secret) as [|x l'] eqn:E using rev_ind; [|eauto].
      apply (f_equal length) in E. rewrite encode_hex_length in E. destruct secret; [done|cbn in E; lia]. }
    exists (COOKIE ++ 61 :: l), c. rewrite E, <- (assoc_L (++)). split; [done|].
    apply encode_hex_chars in Hb. rewrite Forall_forall in Hb. apply Hb. rewrite E. set_solver. }
  rewrite reverse_snoc, trim_start_keeps; [by rewrite reverse_cons, reverse_involutive|].
  unfold is_whitespace, hex_char in *. repeat rewrite bool_decide_eq_false_2 by lia. done.
Qed.

(** Another cookie of the site. *)
Definition other_cookie (c : bytes) : Prop :=
  59 ∉ c ∧ Forall (λ b, 32 ≤ b < 127) c ∧ ∀ k v, split_once 61 (trim c) = Some (k, v) → k ≠ COOKIE.

Lemma header_text_printable text : Forall (λ b, 32 ≤ b < 127) text → header_text text = Some text.
Proof.
  intros H. unfold header_text. rewrite (proj2 (forallb_forall _ _)); [done|].
  intros b Hb%list_elem_of_In. rewrite Forall_forall in H. specialize (H b Hb).
  by rewrite (bool_decide_eq_true_2 (32 ≤ b)), (bool_decide_eq_true_2 (b < 127)) by lia.
Qed.

Lemma cookie_header_printable cookies :
  Forall (Forall (λ b, 32 ≤ b < 127)) cookies → Forall (λ b, 32 ≤ b < 127) (cookie_header cookies).
Proof.
  induction 1 as [|c cookies Hc Hall IH]; [constructor|]. destruct cookies as [|c' cookies]; [done|].
  change (cookie_header (c :: c' :: cookies)) with (c ++ 59 :: 32 :: cookie_header (c' :: cookies)).
  apply Forall_app. split; [done|]. constructor; [lia|]. constructor; [lia|done].
Qed.

Lemma session_pair_printable secret : Forall is_byte secret → Forall (λ b, 32 ≤ b < 127) (session_pair secret).
Proof.
  intros Hb. unfold session_pair. apply Forall_app. split; [vm_compute; repeat constructor; done|].
  constructor; [lia|]. eapply Forall_impl; [by apply encode_hex_chars|]. unfold hex_char. intros; lia.
Qed.

Lemma other_cookies_filtered cookies :
  Forall other_cookie cookies →
  filter (λ kv : bytes * bytes, kv.1 = COOKIE) (omap (λ p, split_once 61 (trim p)) cookies) = [].
Proof.
  induction 1 as [|c cookies (_ & _ & Hc) Hall IH]; [done|]. cbn [omap list_omap].
  destruct (split_once 61 (trim c)) as [[k v]|] eqn:E; [|done]. rewrite filter_cons_False; [done|]. cbn. by eapply Hc.
Qed.

(** The secret the Server puts in the session cookie is the secret it reads back from
    the browser, whatever other cookies of the site are sent before and after it. *)
Theorem cookie_roundtrip secret secure before after headers :
  length secret = 32%nat → Forall is_byte secret → Forall other_cookie (before ++ after) →
  header_get "cookie" headers =
    Some (cookie_header (before ++ [stored_cookie (cookie (Some secret) secure)] ++ after)) →
  cookie_secret headers = Some secret.
Proof.
  intros Hlen Hb [Hbefore Hafter]%Forall_app Hget. rewrite stored_cookie_pair in Hget by done.
  set (cookies := before ++ [session_pair secret] ++ after) in Hget.
  assert (Forall (λ c, 59 ∉ c ∧ Forall (λ b, 32 ≤ b < 127) c) cookies) as Hall.
  { apply Forall_app. split; [by eapply Forall_impl; [exact Hbefore|]; intros ? (? & ? & _)|]. cbn. constructor.
    - split; [by apply session_pair_no_semicolon|by apply session_pair_printable].
    - by eapply Forall_impl; [exact Hafter|]; intros ? (? & ? & _). }
  unfold cookie_secret, header_str. rewrite Hget. cbn [mbind option_bind].
  rewrite header_text_printable; cbn [mbind option_bind].
  2:{ apply cookie_header_printable. eapply Forall_impl; [exact Hall|]. by intros ? [_ ?]. }
  rewrite (split_cookie_header (split_once 61)).
  2:{ unfold cookies. by destruct before. }
  2:{ eapply Forall_impl; [exact Hall|]. by intros ? [? _]. }
  unfold cookies. rewrite !omap_app. rewrite !filter_app, (other_cookies_filtered before), (other_cookies_filtered after) by done. cbn [omap list_omap app].
  rewrite trim_session_pair; [|done|by intros ->].
  unfold session_pair. rewrite split_once_app by (apply (bool_decide_unpack _); by vm_compute).
  rewrite filter_cons_True by done. cbn [app filter list_filter].
  rewrite bool_decide_eq_false_2 by (rewrite encode_hex_length; lia).
  rewrite hex_pairs_encode by done. cbn [mbind option_bind]. rewrite bool_decide_eq_false_2; [done|]. by intros [].
Qed.

Lemma cookie_roundtrip_witness :
  cookie_secret [("cookie", cookie_header [text_bytes "theme=dark"; session_pair (replicate 32 171)])]
    = Some (replicate 32 171).
Proof.
  apply (cookie_roundtrip (replicate 32 171) true [text_bytes "theme=dark"] []
    [("cookie", cookie_header [text_bytes "theme=dark"; session_pair (replicate 32 171)])]).
  - reflexivity.
  - by apply Forall_replicate.
  - constructor; [|constructor]. split_and!; [apply (bool_decide_unpack _); by vm_compute..|].
    intros k v E. vm_compute in E. injection E as <- <-. apply (bool_decide_unpack _). by vm_compute.
  - rewrite stored_cookie_pair by (by apply Forall_replicate). reflexivity.
Defined.
