(* ===== verification/WebMetrics.v ===== *)
(** * The newest measurements, for the web interface

    [crates/smalux-server/src/web_metrics.rs]: for each Agent that the configuration
    binds to jobs, the newest report of the bound job, with a judgement of its quality.

    A [double] is a value of [SpecFloat.spec_float]; [f64::from] of a [float] keeps its
    value.  The decoders of [prost] and the texts of [serde_json] are parameters. *)

From Stdlib Require Import SpecFloat.
From stdpp Require Import base gmap strings list pretty sorting.
From S2P Require Import Prelude StLogic Rotation Credential Registration Proto Catalog JobEvents Paging Reports WebStore WebGate.

(** ** Data *)

(** [Binding] and [MetricsConfig]. *)
Record Binding : Type := mkBinding {
  bd_agent_id : string;
  bd_cpu_job_id : option string;
  bd_memory_job_id : option string;
}.

Record MetricsConfig : Type := mkMetricsConfig {
  mc_bindings : gmap string Binding;
  mc_revision : string;
  mc_stale_ms : Z;
}.

(** [MetricName] and its methods. *)
Inductive MetricName : Type := Cpu | Memory.

Global Instance MetricName_eq_dec : EqDecision MetricName.
Proof. solve_decision. Defined.

Definition metric_result_kind (m : MetricName) : string := match m with Cpu => "cpu" | Memory => "memory" end.
Definition metric_task_kind (m : MetricName) : string :=
  match m with Cpu => "smalux.collect.cpu.v1" | Memory => "smalux.collect.memory.v1" end.
Definition matches_task (m : MetricName) (definition : JobDefinition) : bool :=
  match m, jd_task definition ≫= td_task with
  | Cpu, Some (Task_Cpu _) => true
  | Memory, Some (Task_Memory _) => true
  | _, _ => false
  end.

(** [LatestParams]. *)
Record LatestParams : Type := mkLatestParams {
  lp_agent_ids : list string;
  lp_metrics : list MetricName;
}.

(** [MetricsError]. *)
Inductive MetricsError : Type := MInvalidParams | MForbidden | MInternal.

(** [MetricQuality]. *)
Record MetricQuality : Type := mkQuality {
  mq_state : string;
  mq_reason : option string;
}.
Definition quality (state reason : string) : MetricQuality := mkQuality state (Some reason).

(** [MetricSample]. *)
Record MetricSample (T : Type) : Type := mkSample {
  ms_value : option T;
  ms_sampled_at_ms : option Z;
  ms_received_at_ms : option Z;
  ms_quality : MetricQuality;
  ms_source_job_id : option string;
  ms_source_job_revision : option string;
}.
Arguments mkSample {T}.
Arguments ms_value {T}.
Arguments ms_sampled_at_ms {T}.
Arguments ms_received_at_ms {T}.
Arguments ms_quality {T}.
Arguments ms_source_job_id {T}.
Arguments ms_source_job_revision {T}.

(** [CpuMetrics] and [MemoryMetrics]. *)
Record CpuMetrics : Type := mkCpuMetrics {
  cm_cpu_usage_percent : spec_float;
  cm_logical_cores : option Z;
}.
Record MemoryMetrics : Type := mkMemoryMetrics {
  mm_used_bytes : option Z;
  mm_total_bytes : option Z;
  mm_used_percent : option spec_float;
}.

(** [MetricsLatest]. *)
Record MetricsLatest : Type := mkMetricsLatest {
  ml_agent_id : string;
  ml_cpu : option (MetricSample CpuMetrics);
  ml_memory : option (MetricSample MemoryMetrics);
  ml_binding_revision : string;
}.

(** The fields of [CpuSnapshot] and [MemorySnapshot] that are read. *)
Record CpuSnapshot : Type := mkCpuSnapshot {
  cs_warmed_up : bool;
  cs_logical_cpu_count : Z;
  cs_global_usage_percent : spec_float;
}.
Record MemorySnapshot : Type := mkMemorySnapshot {
  mem_total_bytes : Z;
  mem_used_bytes : Z;
  mem_usage_percent : spec_float;
}.

(** The decoders of reports and of the sub-messages of a decoded report, and the JSON of
    the configuration. *)
Class MetricsCodec : Type := {
  decode_report : bytes → option TaskReport;
  cpu_snapshot : bytes → CpuSnapshot;
  memory_snapshot : bytes → MemorySnapshot;
  bindings_from_json : string → option (list Binding);
  bindings_to_json : gmap string Binding → bytes;
}.

Definition MAX_SAFE_INTEGER : Z := 9007199254740991.
Definition MAX_AGENTS : Z := 100.

(** [Uuid::parse_str(id)] with [to_string() == id]: the canonical text. *)
Definition canonical_uuid_bytes (text : string) : option bytes :=
  bs ← hex_pairs (filter (λ b, b ≠ 45) (text_bytes text));
  if bool_decide (length bs = 16%nat) && bool_decide (uuid_display bs = text) then Some bs else None.

(** [valid_agent_id]. *)
Definition valid_metric_agent_id (id : string) : bool :=
  negb (bool_decide (id = "")) && bool_decide (String.length id ≤ 128)%nat
  && forallb (λ b, bool_decide (33 ≤ b ≤ 126)) (text_bytes id).

(** ** Values *)

(** [percent]. *)
Definition float_100 : spec_float := S754_finite false 100 0.
Definition percent (value : spec_float) : bool :=
  match value with
  | S754_zero _ | S754_finite _ _ _ => SFleb (S754_zero false) value && SFleb value float_100
  | _ => false
  end.

(** [safe_millis] and [timestamp_us]. *)
Definition safe_millis (us : Z) : option Z :=
  if bool_decide (0 ≤ us) && bool_decide (Z.quot us 1000 ≤ MAX_SAFE_INTEGER) then Some (Z.quot us 1000) else None.
Definition timestamp_us (ts : option Timestamp) : option (option Z) :=
  match ts with
  | None => Some None
  | Some ts =>
      if negb (bool_decide (0 ≤ ts_nanos ts < 1000000000)) then None
      else us ← checked_i64 (ts_seconds ts * 1000000); us ← checked_i64 (us + Z.quot (ts_nanos ts) 1000); Some (Some us)
  end.

Section Metrics.
Context `{D : DefinitionCodec} `{MC : MetricsCodec} `{TO : TextOrder}.

(** [decode_cpu] and [decode_memory]. *)
Definition decode_cpu (value : TaskResultValue) : result MetricQuality CpuMetrics :=
  match value with
  | Result_Cpu snapshot =>
      let cpu := cpu_snapshot snapshot in
      if negb (percent (cs_global_usage_percent cpu)) then Err (quality "unavailable" "invalidValue")
      else if negb (cs_warmed_up cpu) then Err (quality "warmingUp" "firstSample")
      else Ok (mkCpuMetrics (cs_global_usage_percent cpu)
                 (if bool_decide (0 < cs_logical_cpu_count cpu) then Some (cs_logical_cpu_count cpu) else None))
  | _ => Err (quality "unavailable" "invalidReport")
  end.
Definition decode_memory (value : TaskResultValue) : result MetricQuality MemoryMetrics :=
  match value with
  | Result_Memory snapshot =>
      let memory := memory_snapshot snapshot in
      if bool_decide (mem_total_bytes memory = 0) || bool_decide (mem_total_bytes memory < mem_used_bytes memory)
         || bool_decide (MAX_SAFE_INTEGER < mem_total_bytes memory) || negb (percent (mem_usage_percent memory))
      then Err (quality "unavailable" "invalidValue")
      else Ok (mkMemoryMetrics (Some (mem_used_bytes memory)) (Some (mem_total_bytes memory))
                 (Some (mem_usage_percent memory)))
  | _ => Err (quality "unavailable" "invalidReport")
  end.

(** The order of the query: sample time, newest first and absent last, then the time of
    receipt, then the id. *)
Definition sample_after (row row' : TaskReportRecord) : bool :=
  match tp_started_at row, tp_started_at row' with
  | Some a, Some b => bool_decide (b < a) || (bool_decide (b = a) && key_after (row_cursor row) (row_cursor row'))
  | Some _, None => true
  | None, Some _ => false
  | None, None => key_after (row_cursor row) (row_cursor row')
  end.
Definition sample_order (row row' : TaskReportRecord) : Prop := sample_after row' row = false.
#[global] Instance sample_order_dec : RelDecision sample_order.
Proof. intros a b. unfold sample_order. apply _. Defined.

(** The report that is selected. *)
Definition sample_rows (agent_id : string) (job_bytes : bytes) (revision : Z) (metric : MetricName)
    (reports : list TaskReportRecord) : list TaskReportRecord :=
  filter (λ row, tp_agent_id row = agent_id ∧ tp_job_id row = job_bytes ∧ tp_job_revision row = revision ∧
                 tp_result_kind row = metric_result_kind metric) reports.
Definition newest_sample (agent_id : string) (job_bytes : bytes) (revision : Z) (metric : MetricName)
    (reports : list TaskReportRecord) : option TaskReportRecord :=
  head (merge_sort sample_order (sample_rows agent_id job_bytes revision metric reports)).

(** The job must be a job of the metric, enabled, in its row and in its definition. *)
Definition source_available (metric : MetricName) (job_bytes : bytes) (job : AgentJobRow) : bool :=
  aj_enabled job && bool_decide (0 < aj_revision job) && bool_decide (aj_task_kind job = metric_task_kind metric)
  && match to_option (decode_definition (aj_definition job)) with
     | Some d => jd_enabled d && bool_decide (jd_job_id d = job_bytes) && bool_decide (jd_revision d = aj_revision job)
                 && matches_task metric d
     | None => false
     end.

(** The report belongs to its row. *)
Definition report_of_row (report : TaskReport) (revision : Z) (row : TaskReportRecord) : bool :=
  bool_decide (rp_job_id report = tp_job_id row) && bool_decide (rp_job_revision report = revision)
  && bool_decide (rp_run_id report = tp_run_id row) && bool_decide (rp_attempt report = tp_attempt row)
  && bool_decide (timestamp_us (rp_started_at report) = Some (tp_started_at row)).

(** The value of a report that was found: [sample] has the fields filled so far. *)
Definition judge_sample {T} (decode : TaskResultValue → result MetricQuality T) (now_us stale_ms revision : Z)
    (row : TaskReportRecord) (sample : MetricQuality → option T → MetricSample T) : MetricSample T :=
  let invalid := sample (quality "unavailable" "invalidReport") None in
  match decode_report (tp_payload row) with
  | None => invalid
  | Some report =>
      if negb (report_of_row report revision row) then invalid
      else if bool_decide (now_us < tp_received_at row) || bool_decide (safe_millis (tp_received_at row) = None)
              || default false ((λ t, bool_decide (now_us < t) || bool_decide (safe_millis t = None)) <$> tp_started_at row)
      then sample (quality "unavailable" "invalidTimestamp") None
      else match tp_started_at row with
      | None => sample (quality "unknown" "missingSampleTime") None
      | Some started_at =>
          match rp_result report ≫= tr_result with
          | None => invalid
          | Some value =>
              match decode value with
              | Err q => sample q None
              | Ok value =>
                  sample (if bool_decide (stale_ms < Z.quot (now_us - started_at) 1000)
                          then quality "stale" "sampleExpired" else mkQuality "valid" None) (Some value)
              end
          end
      end
  end.

(** [load_sample]; [now_us] is read after the report. *)
Definition load_sample {T} (decode : TaskResultValue → result MetricQuality T) (jobs : JobTables)
    (reports : list TaskReportRecord) (agent_id : string) (job_id : option string) (metric : MetricName)
    (now_us : option Z) (stale_ms : Z) : result MetricsError (MetricSample T) :=
  let empty q revision := mkSample None None None q job_id revision in
  match job_id with
  | None => Ok (empty (quality "unknown" "notConfigured") None)
  | Some id =>
      job_bytes ← ok_or MInternal (canonical_uuid_bytes id);
      match tb_jobs jobs !! (agent_id, job_bytes) with
      | None => Ok (empty (quality "unavailable" "sourceUnavailable") None)
      | Some job =>
          let revision := if bool_decide (0 < aj_revision job) then Some (pretty (aj_revision job)) else None in
          if negb (source_available metric job_bytes job)
          then Ok (empty (quality "unavailable" "sourceUnavailable") revision)
          else match newest_sample agent_id job_bytes (aj_revision job) metric reports with
          | None => Ok (empty (quality "unknown" "noSamples") revision)
          | Some row =>
              now_us ← ok_or MInternal now_us;
              Ok (judge_sample decode now_us stale_ms (aj_revision job) row
                    (λ q value, mkSample value (tp_started_at row ≫= safe_millis) (safe_millis (tp_received_at row)) q
                                  job_id revision))
          end
      end
  end.

(** [LatestParams::validate]. *)
Definition validate_latest (params : LatestParams) : result MetricsError unit :=
  if bool_decide (lp_agent_ids params = []) || bool_decide (MAX_AGENTS < zlen (lp_agent_ids params))
     || negb (forallb valid_metric_agent_id (lp_agent_ids params)) || negb (bool_decide (NoDup (lp_agent_ids params)))
     || bool_decide (lp_metrics params = []) || bool_decide (2 < zlen (lp_metrics params))
     || match lp_metrics params with [a; b] => bool_decide (a = b) | _ => false end
  then Err MInvalidParams else Ok tt.

(** [authorize_on]: the rows of the active Agents among the ids. *)
Definition authorize_agents (config : MetricsConfig) (agents_ : Tables) (ids : list string) : result MetricsError unit :=
  if bool_decide (ids = []) || bool_decide (MAX_AGENTS < zlen ids)
     || existsb (λ id, bool_decide (mc_bindings config !! id = None)) ids
  then Err MForbidden
  else
    let rows := filter (λ kv : bytes * AgentRow,
                          kv.1 ∈ (text_bytes <$> ids) ∧ ag_status kv.2 = "active"%string ∧ ag_revoked_at kv.2 = None)
                  (map_to_list (agents agents_)) in
    if bool_decide (zlen rows ≠ zlen ids) then Err MForbidden else Ok tt.

Definition metric_if {A} (wanted : bool) (m : result MetricsError A) : result MetricsError (option A) :=
  if wanted then Some <$> m else Ok None.

Fixpoint latest_items (config : MetricsConfig) (jobs : JobTables) (reports : list TaskReportRecord)
    (now_us : option Z) (metrics : list MetricName) (ids : list string) : result MetricsError (list MetricsLatest) :=
  match ids with
  | [] => Ok []
  | id :: ids =>
      binding ← ok_or MForbidden (mc_bindings config !! id);
      cpu ← metric_if (bool_decide (Cpu ∈ metrics))
              (load_sample decode_cpu jobs reports id (bd_cpu_job_id binding) Cpu now_us (mc_stale_ms config));
      memory ← metric_if (bool_decide (Memory ∈ metrics))
                 (load_sample decode_memory jobs reports id (bd_memory_job_id binding) Memory now_us (mc_stale_ms config));
      rest ← latest_items config jobs reports now_us metrics ids;
      Ok (mkMetricsLatest id cpu memory (mc_revision config) :: rest)
  end.

(** [latest], on one snapshot of the database; the clock is read for each sample, here
    with one value. *)
Definition metrics_latest (config : MetricsConfig) (agents_ : Tables) (jobs : JobTables) (reports : list TaskReportRecord)
    (now_us : option Z) (params : LatestParams) : result MetricsError (list MetricsLatest) :=
  _ ← validate_latest params;
  _ ← authorize_agents config agents_ (lp_agent_ids params);
  latest_items config jobs reports now_us (lp_metrics params) (lp_agent_ids params).

(** [MetricsConfig::parse]. *)
Fixpoint insert_bindings (values : list Binding) (bindings : gmap string Binding) : option (gmap string Binding) :=
  match values with
  | [] => Some bindings
  | binding :: values =>
      if negb (valid_metric_agent_id (bd_agent_id binding)) then None
      else if existsb (λ id, bool_decide (canonical_uuid_bytes id = None))
                (option_list (bd_cpu_job_id binding) ++ option_list (bd_memory_job_id binding)) then None
      else if bool_decide (is_Some (bd_cpu_job_id binding)) && bool_decide (bd_cpu_job_id binding = bd_memory_job_id binding)
      then None
      else match bindings !! bd_agent_id binding with
      | Some _ => None
      | None => insert_bindings values (<[bd_agent_id binding := binding]> bindings)
      end
  end.

Context `{H256 : Sha256}.
Definition metrics_config_parse (json : string) (stale_seconds : Z) : option MetricsConfig :=
  if bool_decide (256 * 1024 < Z.of_nat (String.length json)) then None
  else if negb (bool_decide (1 ≤ stale_seconds ≤ 86400)) then None
  else
    values ← bindings_from_json json;
    if bool_decide (1000 < zlen values) then None
    else
      bindings ← insert_bindings values ∅;
      Some (mkMetricsConfig bindings (pretty (be_value (take 16 (sha256 (bindings_to_json bindings))))) (stale_seconds * 1000)).

End Metrics.

(** ** What a value says *)

Section Newest.
Context `{TO : TextOrder} `{TL : !TextOrderLaws TO}.

Lemma sample_after_irrefl row : sample_after row row = false.
Proof.
  unfold sample_after. destruct (tp_started_at row); [|apply key_after_irrefl].
  by rewrite key_after_irrefl, andb_false_r, bool_decide_eq_false_2 by lia.
Qed.

Lemma sample_after_iff row row' :
  sample_after row row' = true ↔
    match tp_started_at row, tp_started_at row' with
    | Some a, Some b => b < a ∨ (b = a ∧ key_after (row_cursor row) (row_cursor row') = true)
    | Some _, None => True
    | None, Some _ => False
    | None, None => key_after (row_cursor row) (row_cursor row') = true
    end.
Proof.
  unfold sample_after. destruct (tp_started_at row), (tp_started_at row'); try done.
  by rewrite orb_true_iff, andb_true_iff, !bool_decide_eq_true.
Qed.

Lemma sample_after_trans a b c : sample_after a b = true → sample_after b c = true → sample_after a c = true.
Proof.
  rewrite !sample_after_iff. pose proof (key_after_trans (row_cursor a) (row_cursor b) (row_cursor c)) as Ht.
  destruct (tp_started_at a), (tp_started_at b), (tp_started_at c); try done.
  intros [?|[? ?]] [?|[? ?]]; first [left; lia|right; split; [lia|auto]].
Qed.

Lemma sample_after_total a b :
  sample_after a b = true ∨ row_cursor a = row_cursor b ∧ tp_started_at a = tp_started_at b ∨ sample_after b a = true.
Proof.
  rewrite !sample_after_iff. destruct (tp_started_at a) as [x|], (tp_started_at b) as [y|]; auto.
  - destruct (Z.lt_trichotomy x y) as [?|[->|?]]; [auto| |auto].
    destruct (key_after_total (row_cursor a) (row_cursor b)) as [?|[?|?]]; auto.
  - destruct (key_after_total (row_cursor a) (row_cursor b)) as [?|[?|?]]; auto.
Qed.

Lemma sample_after_ext a a' b :
  row_cursor a = row_cursor a' → tp_started_at a = tp_started_at a' → sample_after b a = sample_after b a'.
Proof. unfold sample_after. by intros -> ->. Qed.

Global Instance sample_order_total : Total sample_order.
Proof.
  intros a b. unfold sample_order. destruct (sample_after b a) eqn:E1, (sample_after a b) eqn:E2; auto.
  pose proof (sample_after_trans _ _ _ E1 E2) as E. by rewrite sample_after_irrefl in E.
Qed.

Global Instance sample_order_trans : Transitive sample_order.
Proof.
  intros a b c. unfold sample_order. intros H1 H2. destruct (sample_after c a) eqn:E; [|done].
  destruct (sample_after_total a b) as [Hab|[[Hc Hs]|Hab]]; [| |congruence].
  - by rewrite (sample_after_trans _ _ _ E Hab) in H2.
  - by rewrite (sample_after_ext a b c Hc Hs), H2 in E.
Qed.

(** The selected report is the newest one: no report of the job was sampled later. *)
Lemma newest_sample_newest agent_id job_bytes revision metric reports row :
  newest_sample agent_id job_bytes revision metric reports = Some row →
  row ∈ sample_rows agent_id job_bytes revision metric reports ∧
  ∀ row', row' ∈ sample_rows agent_id job_bytes revision metric reports → sample_after row' row = false.
Proof.
  unfold newest_sample. set (rows := sample_rows agent_id job_bytes revision metric reports).
  pose proof (merge_sort_Permutation sample_order rows) as Hp.
  pose proof (StronglySorted_merge_sort sample_order rows) as Hs.
  destruct (merge_sort sample_order rows) as [|r l] eqn:E; [done|]. intros [= ->].
  apply StronglySorted_cons in Hs as [Hs _]. split.
  - rewrite <- Hp. set_solver.
  - intros row' Hr. rewrite <- Hp in Hr. apply elem_of_cons in Hr as [->|Hr]; [apply sample_after_irrefl|].
    rewrite Forall_forall in Hs. by apply Hs.
Qed.

End Newest.

Lemma judge_sample_value `{D : DefinitionCodec} `{MC : MetricsCodec} {T} (decode : TaskResultValue → result MetricQuality T)
    now_us stale_ms revision row sample v :
  (∀ q value, ms_value (sample q value) = value) → (∀ q value, ms_quality (sample q value) = q) →
  ms_value (judge_sample decode now_us stale_ms revision row sample) = Some v →
  ∃ report value started,
    decode_report (tp_payload row) = Some report ∧ report_of_row report revision row = true ∧
    rp_result report ≫= tr_result = Some value ∧ decode value = Ok v ∧ tp_started_at row = Some started ∧
    0 ≤ started ≤ now_us ∧ 0 ≤ tp_received_at row ≤ now_us ∧
    ms_quality (judge_sample decode now_us stale_ms revision row sample) =
      (if bool_decide (stale_ms < Z.quot (now_us - started) 1000) then quality "stale" "sampleExpired"
       else mkQuality "valid" None).
Proof.
  intros Hv Hq. unfold judge_sample. destruct (decode_report (tp_payload row)) as [report|]; [|by rewrite Hv].
  destruct (report_of_row report revision row) eqn:Hr; cbn [negb]; [|by rewrite Hv].
  destruct (_ || _) eqn:Ht; [by rewrite Hv|]. bools.
  destruct (tp_started_at row) as [started|] eqn:Hs; [|by rewrite Hv].
  destruct (rp_result report ≫= tr_result) as [value|] eqn:Hres; [|by rewrite Hv].
  destruct (decode value) as [x|q] eqn:Hd; [|by rewrite Hv]. rewrite Hv, Hq. intros [= ->].
  assert (∀ t, safe_millis t ≠ None → 0 ≤ t) as Hsafe.
  { intros t. unfold safe_millis. destruct (bool_decide (0 ≤ t)) eqn:E; bools; [done|]. cbn. done. }
  cbn in *. bools.
  exists report, value, started. split_and!; first [done|lia|by apply Hsafe|split; [by apply Hsafe|lia]].
Qed.

(** A measurement that is shown with a value comes from the newest report: the job the
    configuration binds to the Agent is a job of that metric, enabled in its current
    revision; among the reports of that job and revision none was sampled later, so a
    report that arrives late never replaces a newer one; its payload decodes to the value
    and agrees with its row; it was neither sampled nor received in the future; and it is
    called valid exactly when it is not older than the configured age, and stale
    otherwise. *)
Theorem metric_value_sound `{D : DefinitionCodec} `{MC : MetricsCodec} `{TO : TextOrder} `{TL : !TextOrderLaws TO} {T}
    (decode : TaskResultValue → result MetricQuality T) jobs reports agent_id job_id metric now_us stale_ms sample v :
  load_sample decode jobs reports agent_id job_id metric now_us stale_ms = Ok sample → ms_value sample = Some v →
  ∃ id job_bytes job row report value started now,
    job_id = Some id ∧ canonical_uuid_bytes id = Some job_bytes ∧ now_us = Some now ∧
    tb_jobs jobs !! (agent_id, job_bytes) = Some job ∧ source_available metric job_bytes job = true ∧
    row ∈ sample_rows agent_id job_bytes (aj_revision job) metric reports ∧
    (∀ row' started', row' ∈ sample_rows agent_id job_bytes (aj_revision job) metric reports →
       tp_started_at row' = Some started' → started' ≤ started) ∧
    decode_report (tp_payload row) = Some report ∧ report_of_row report (aj_revision job) row = true ∧
    rp_result report ≫= tr_result = Some value ∧ decode value = Ok v ∧
    tp_started_at row = Some started ∧ 0 ≤ started ≤ now ∧ tp_received_at row ≤ now ∧
    ms_quality sample = (if bool_decide (stale_ms < Z.quot (now - started) 1000) then quality "stale" "sampleExpired"
                         else mkQuality "valid" None).
Proof.
  intros Hl Hv. unfold load_sample in Hl. destruct job_id as [id|]; [|by simplify_eq].
  apply result_bind_Ok in Hl as (job_bytes & Hid & Hl). apply ok_or_Ok in Hid.
  destruct (tb_jobs jobs !! (agent_id, job_bytes)) as [job|] eqn:Hjob; [|by simplify_eq].
  destruct (source_available metric job_bytes job) eqn:Hsrc; cbn [negb] in Hl; [|by simplify_eq].
  destruct (newest_sample agent_id job_bytes (aj_revision job) metric reports) as [row|] eqn:Hn; [|by simplify_eq].
  apply result_bind_Ok in Hl as (now & Hnow & Hl). apply ok_or_Ok in Hnow. injection Hl as <-.
  apply judge_sample_value in Hv as (report & value & started & H1 & H2 & H3 & H4 & H5 & H6 & H7 & H8); [|done..].
  destruct (newest_sample_newest _ _ _ _ _ _ Hn) as [Hin Hmax].
  exists id, job_bytes, job, row, report, value, started, now. split_and!; try done; try lia.
  intros row' started' Hr' Hs'. specialize (Hmax row' Hr'). destruct (decide (started' ≤ started)); [done|].
  assert (sample_after row' row = true) as E; [|congruence]. apply sample_after_iff. rewrite Hs', H5. left. lia.
Qed.

(** ** Examples *)

Definition demo_metric_job : JobDefinition :=
  mkJobDefinition (replicate 16 7) 1 true None None (Some (mkTaskDefinition (Some (Task_Cpu [])))).
Definition demo_metric_codec : DefinitionCodec :=
  {| job_key_text agent_id _ := agent_id; encode_definition _ := []; decode_definition _ := Ok demo_metric_job |}.
Definition demo_sample (second : Z) : TaskReport :=
  mkTaskReport (replicate 16 7) 1 (replicate 16 second) 1 None (Some (mkTimestamp second 0))
    (Some (mkTaskResult None (Some (Result_Cpu [])))).
Definition demo_metrics : MetricsCodec := {|
  decode_report payload := match payload with [second] => Some (demo_sample second) | _ => None end;
  cpu_snapshot _ := mkCpuSnapshot true 8 (S754_finite false 25 0);
  memory_snapshot _ := mkMemorySnapshot 0 0 (S754_zero false);
  bindings_from_json _ := Some [];
  bindings_to_json _ := [];
|}.

(** The older sample arrived last. *)
Definition demo_sample_row (second received : Z) : TaskReportRecord :=
  mkTaskReportRecord "r" "agent-a" (replicate 16 7) 1 (replicate 16 second) 1 None (Some (second * 1000000)) "cpu"
    [second] received.
Definition demo_metric_tables : JobTables :=
  mkJobTables ∅ {[("agent-a", replicate 16 7) := mkAgentJobRow 1 true "smalux.collect.cpu.v1" [] 0 0]} ∅ ∅ ∅.
Definition demo_metric_id : string := "07070707-0707-0707-0707-070707070707".
Definition demo_cpu_sample : MetricSample CpuMetrics :=
  mkSample (Some (mkCpuMetrics (S754_finite false 25 0) (Some 8))) (Some 9000) (Some 9500) (mkQuality "valid" None)
    (Some demo_metric_id) (Some "1").

Lemma metric_value_sound_witness :
  ∃ id job_bytes job row report value started now,
    Some demo_metric_id = Some id ∧ canonical_uuid_bytes id = Some job_bytes ∧ Some 10000000 = Some now ∧
    tb_jobs demo_metric_tables !! ("agent-a", job_bytes) = Some job ∧
    source_available (D := demo_metric_codec) Cpu job_bytes job = true ∧
    row ∈ sample_rows "agent-a" job_bytes (aj_revision job) Cpu [demo_sample_row 9 9500000; demo_sample_row 3 9900000] ∧
    (∀ row' started', row' ∈ sample_rows "agent-a" job_bytes (aj_revision job) Cpu
                               [demo_sample_row 9 9500000; demo_sample_row 3 9900000] →
       tp_started_at row' = Some started' → started' ≤ started) ∧
    decode_report (MetricsCodec := demo_metrics) (tp_payload row) = Some report ∧
    report_of_row report (aj_revision job) row = true ∧
    rp_result report ≫= tr_result = Some value ∧
    decode_cpu (MC := demo_metrics) value = Ok (mkCpuMetrics (S754_finite false 25 0) (Some 8)) ∧
    tp_started_at row = Some started ∧ 0 ≤ started ≤ now ∧ tp_received_at row ≤ now ∧
    ms_quality demo_cpu_sample = (if bool_decide (5000 < Z.quot (now - started) 1000) then quality "stale" "sampleExpired"
                                  else mkQuality "valid" None).
Proof.
  apply (metric_value_sound (D := demo_metric_codec) (MC := demo_metrics) (TO := binary_collation)
    (TL := binary_collation_laws) (decode_cpu (MC := demo_metrics)) demo_metric_tables
    [demo_sample_row 9 9500000; demo_sample_row 3 9900000] "agent-a" (Some demo_metric_id) Cpu (Some 10000000) 5000
    demo_cpu_sample).
  - vm_compute. reflexivity.
  - reflexivity.
Defined.
