(* ===== verification/Policy.v ===== *)
(** * The Agent's local job policy

    [crates/smalux-agent/src/remote_jobs/policy.rs]: which remote jobs the owner of
    the machine forbids, how the policy changes, and the file it is kept in.

    A [BTreeSet<String>] is a [gset] that iterates in the order of the bytes of its
    strings.  The JSON document is the value it encodes; reading a file that holds
    no such document fails.  The file operations of [persist] are separate steps, so
    that a process that dies between two of them can be described. *)

From stdpp Require Import base gmap strings list sorting.
From S2P Require Import Prelude StLogic Rotation SchedModel Proto Catalog.

(** ** Strings *)

(** The bytes of a string and their order ([str::cmp]). *)
Fixpoint string_bytes (s : string) : bytes :=
  match s with
  | EmptyString => []
  | String a s => Z.of_nat (Ascii.nat_of_ascii a) :: string_bytes s
  end.

Definition string_le (a b : string) : Prop := bytes_le (string_bytes a) (string_bytes b).
Global Instance string_le_dec : RelDecision string_le.
Proof. intros a b. unfold string_le. apply _. Defined.

(** The length in bytes of the white space a string starts with ([char::is_whitespace]
    of the first character, in UTF-8); [0] when it starts with something else. *)
Definition white_prefix (l : bytes) : nat :=
  match l with
  | a :: rest =>
      if ((9 <=? a) && (a <=? 13)) || (a =? 32) then 1%nat
      else match rest with
      | b :: rest =>
          if (a =? 194) && ((b =? 133) || (b =? 160)) then 2%nat
          else match rest with
          | c :: _ =>
              if ((a =? 225) && (b =? 154) && (c =? 128))
                 || ((a =? 226) && (b =? 128)
                     && (((128 <=? c) && (c <=? 138)) || (c =? 168) || (c =? 169) || (c =? 175)))
                 || ((a =? 226) && (b =? 129) && (c =? 159))
                 || ((a =? 227) && (b =? 128) && (c =? 128))
              then 3%nat else 0%nat
          | [] => 0%nat
          end
      | [] => 0%nat
      end
  | [] => 0%nat
  end.

(** [s.trim().is_empty()]: nothing but white space. *)
Fixpoint blank_loop (fuel : nat) (l : bytes) : bool :=
  match l, fuel with
  | [], _ => true
  | _, O => false
  | _, S fuel =>
      match white_prefix l with
      | O => false
      | n => blank_loop fuel (drop n l)
      end
  end.
Definition is_blank (s : string) : bool := blank_loop (String.length s) (string_bytes s).

(** [slice::binary_search_by(|x| x.cmp(target)).is_ok()] of the standard library:
    the window is halved until one element is left. *)
Fixpoint search_window (l : list string) (target : string) (fuel base size : nat) : nat :=
  match fuel with
  | O => base
  | S fuel =>
      if bool_decide (size ≤ 1)%nat then base
      else
        let half := Nat.div2 size in
        let mid := (base + half)%nat in
        let base :=
          match l !! mid with
          | Some x => if bool_decide (string_le x target) then mid else base
          | None => base
          end in
        search_window l target fuel base (size - half)
  end.

Definition binary_search (l : list string) (target : string) : bool :=
  match l with
  | [] => false
  | _ => bool_decide (l !! search_window l target (length l) 0 (length l) = Some target)
  end.

(** ** The policy *)

(** [PolicyDenial]. *)
Inductive PolicyDenial : Type :=
| AllRemoteJobs
| DeniedTaskKind (kind : string).

(** [RemoteJobPolicy]. *)
Record RemoteJobPolicy : Type := mkPolicy {
  pol_revision : Z;
  pol_deny_all : bool;
  pol_denied_task_kinds : gset string;
}.

Definition default_policy : RemoteJobPolicy := mkPolicy 0 false ∅.

(** [RemoteJobPolicy::new]. *)
Definition policy_new (deny_all : bool) (kinds : list string) : RemoteJobPolicy :=
  mkPolicy 0 deny_all (list_to_set kinds).

(** [RemoteJobPolicySnapshot]. *)
Record RemoteJobPolicySnapshot : Type := mkPolicySnap {
  sp_revision : Z;
  sp_deny_all : bool;
  sp_denied_task_kinds : list string;
}.

(** [RemoteJobPolicySnapshot::denies]. *)
Definition snapshot_denies (s : RemoteJobPolicySnapshot) (task_kind : string) : bool :=
  sp_deny_all s || binary_search (sp_denied_task_kinds s) task_kind.

(** [to_protocol_message]: the snapshot inside. *)
Definition to_protocol_message (s : RemoteJobPolicySnapshot) : AgentJobPolicySnapshot :=
  mkPolicySnapshot (sp_revision s) (sp_deny_all s) (sp_denied_task_kinds s).

(** [task_kind] of [tasks/capability.rs]. *)
Definition definition_task_kind (d : TaskDefinition) : option string :=
  match td_task d with
  | None => None
  | Some task =>
      if bool_decide (task_kind_name task = "") then None else Some (task_kind_name task)
  end.

(** [RemoteJobPolicy::check_definition], [check_installed] and [snapshot]. *)
Definition check_definition (p : RemoteJobPolicy) (definition : JobDefinition) :
    result PolicyDenial unit :=
  if pol_deny_all p then Err AllRemoteJobs
  else match jd_task definition ≫= definition_task_kind with
  | Some kind =>
      if bool_decide (kind ∈ pol_denied_task_kinds p) then Err (DeniedTaskKind kind) else Ok tt
  | None => Ok tt
  end.

Definition check_installed (p : RemoteJobPolicy) (task_kind : string) : result PolicyDenial unit :=
  if pol_deny_all p then Err AllRemoteJobs
  else if bool_decide (task_kind ∈ pol_denied_task_kinds p) then Err (DeniedTaskKind task_kind)
  else Ok tt.

Definition policy_snapshot (p : RemoteJobPolicy) : RemoteJobPolicySnapshot :=
  mkPolicySnap (pol_revision p) (pol_deny_all p)
    (merge_sort string_le (elements (pol_denied_task_kinds p))).

(** [from_snapshot]. *)
Definition from_snapshot (s : RemoteJobPolicySnapshot) : result string RemoteJobPolicy :=
  let denied : gset string := list_to_set (sp_denied_task_kinds s) in
  if bool_decide (size denied ≠ length (sp_denied_task_kinds s))
  then Err "Agent Job policy contains duplicate Task kinds"
  else if negb (forallb (λ kind, negb (is_blank kind)) (elements denied))
  then Err "Agent Job policy contains an empty Task kind"
  else Ok (mkPolicy (sp_revision s) (sp_deny_all s) denied).

(** [RemoteJobPolicyChange]. *)
Inductive RemoteJobPolicyChange : Type :=
| AddTask (kind : string)
| RemoveTask (kind : string)
| DenyAll
| AllowAll.

(** [RemoteJobPolicyUpdate]. *)
Record RemoteJobPolicyUpdate : Type := mkPolicyUpdate {
  pu_changed : bool;
  pu_snapshot : RemoteJobPolicySnapshot;
}.

(** The match of [apply] on the candidate: whether it changed, and the candidate. *)
Definition change_candidate (change : RemoteJobPolicyChange) (p : RemoteJobPolicy) :
    bool * RemoteJobPolicy :=
  match change with
  | AddTask kind =>
      (bool_decide (kind ∉ pol_denied_task_kinds p),
       mkPolicy (pol_revision p) (pol_deny_all p) ({[kind]} ∪ pol_denied_task_kinds p))
  | RemoveTask kind =>
      (bool_decide (kind ∈ pol_denied_task_kinds p),
       mkPolicy (pol_revision p) (pol_deny_all p) (pol_denied_task_kinds p ∖ {[kind]}))
  | DenyAll => (negb (pol_deny_all p), mkPolicy (pol_revision p) true (pol_denied_task_kinds p))
  | AllowAll => (pol_deny_all p, mkPolicy (pol_revision p) false (pol_denied_task_kinds p))
  end.

(** ** The file *)

(** [PolicyDocument]. *)
Record PolicyDocument : Type := mkPolicyDocument {
  doc_format_version : Z;
  doc_policy : RemoteJobPolicySnapshot;
}.

Definition POLICY_FORMAT_VERSION : Z := 1.

(** What a file can hold: a document, or bytes that are none. *)
Inductive PolicyContent : Type :=
| Document (d : PolicyDocument)
| Garbage.

(** The policy file and its two side files ([sidecar_path]). *)
Record PolicyFs : Type := mkPolicyFs {
  fs_path : option PolicyContent;
  fs_new : option PolicyContent;
  fs_bak : option PolicyContent;
}.

(** [decode_policy_document]. *)
Definition decode_policy_document (c : PolicyContent) : result string RemoteJobPolicy :=
  match c with
  | Garbage => Err "expected value"
  | Document d =>
      if bool_decide (doc_format_version d = POLICY_FORMAT_VERSION)
      then from_snapshot (doc_policy d)
      else Err "unsupported Agent Job policy format version"
  end.

(** [load_file]. *)
Definition load_file (fs : PolicyFs) : result string RemoteJobPolicy :=
  match fs_path fs with
  | Some c => decode_policy_document c
  | None => Ok default_policy
  end.

(** The file operations of [persist], in order.  Writing the new file is two steps:
    before [sync_all] returns it may hold anything. *)
Inductive PersistStep : Type :=
| CreateNew | WriteNew (d : PolicyDocument) | RemoveOldBackup | BackUp | Install | RemoveBackup.

Definition persist_step (step : PersistStep) (fs : PolicyFs) : PolicyFs :=
  match step with
  | CreateNew => mkPolicyFs (fs_path fs) (Some Garbage) (fs_bak fs)
  | WriteNew d => mkPolicyFs (fs_path fs) (Some (Document d)) (fs_bak fs)
  | RemoveOldBackup => mkPolicyFs (fs_path fs) (fs_new fs) None
  | BackUp =>
      match fs_path fs with
      | Some c => mkPolicyFs None (fs_new fs) (Some c)
      | None => fs
      end
  | Install => mkPolicyFs (fs_new fs) None (fs_bak fs)
  | RemoveBackup => mkPolicyFs (fs_path fs) (fs_new fs) None
  end.

Definition persist_steps (p : RemoteJobPolicy) : list PersistStep :=
  [ CreateNew; WriteNew (mkPolicyDocument POLICY_FORMAT_VERSION (policy_snapshot p));
    RemoveOldBackup; BackUp; Install; RemoveBackup ].

(** The files after the first [n] operations. *)
Definition persist_prefix (n : nat) (p : RemoteJobPolicy) (fs : PolicyFs) : PolicyFs :=
  foldl (λ fs step, persist_step step fs) fs (take n (persist_steps p)).

(** [persist] of a file-backed manager; [ok i] says whether the [i]-th operation
    succeeds.  Errors of the two removals are ignored; when the installing rename
    fails the backup is renamed back, the error of which is ignored too. *)
Definition persist (ok : nat → bool) (p : RemoteJobPolicy) : ST PolicyFs (result string unit) := λ fs,
  if negb (ok 0%nat) then Some (Err "create", fs)
  else if negb (ok 1%nat) then Some (Err "write", persist_prefix 1 p fs)
  else
    let fs := persist_prefix 2 p fs in
    let fs := if ok 2%nat then persist_step RemoveOldBackup fs else fs in
    if negb (ok 3%nat) then Some (Err "rename to backup", fs)
    else
      let fs := persist_step BackUp fs in
      if negb (ok 4%nat) then
        Some (Err "rename",
              match fs_bak fs with
              | Some c => if ok 5%nat then mkPolicyFs (Some c) (fs_new fs) None else fs
              | None => fs
              end)
      else
        let fs := persist_step Install fs in
        Some (Ok tt, if ok 5%nat then persist_step RemoveBackup fs else fs).

(** [RemoteJobPolicyManager]: the policy in memory and, unless the manager is
    [in_memory], the files. *)
Record PolicyManager : Type := mkPolicyManager {
  pm_policy : RemoteJobPolicy;
  pm_files : option PolicyFs;
}.

(** [apply]; [ok] are the outcomes of the file operations. *)
Definition policy_apply (ok : nat → bool) (change : RemoteJobPolicyChange) :
    ST PolicyManager (result string RemoteJobPolicyUpdate) := λ m,
  let current := pm_policy m in
  let '(changed, candidate) := change_candidate change current in
  if negb changed then Some (Ok (mkPolicyUpdate false (policy_snapshot current)), m)
  else
    match checked_add_u64 (pol_revision candidate) 1 with
    | None => Some (Err "Agent Job policy revision overflow", m)
    | Some revision =>
        let candidate := mkPolicy revision (pol_deny_all candidate) (pol_denied_task_kinds candidate) in
        match pm_files m with
        | None =>
            Some (Ok (mkPolicyUpdate true (policy_snapshot candidate)), mkPolicyManager candidate None)
        | Some fs =>
            match persist ok candidate fs with
            | Some (Ok _, fs) =>
                Some (Ok (mkPolicyUpdate true (policy_snapshot candidate)),
                      mkPolicyManager candidate (Some fs))
            | Some (Err e, fs) => Some (Err e, mkPolicyManager current (Some fs))
            | None => None
            end
        end
    end.

(** ** Searching *)

Lemma string_bytes_inj a b : string_bytes a = string_bytes b → a = b.
Proof.
  revert b. induction a as [|x a IH]; intros [|y b]; cbn; intros Hs; try done.
  injection Hs as Hx Hs. apply Nat2Z.inj in Hx. f_equal; [|by apply IH].
  rewrite <-(Ascii.ascii_nat_embedding x), Hx. apply Ascii.ascii_nat_embedding.
Qed.

Global Instance string_le_trans : Transitive string_le.
Proof. intros a b c. apply bytes_le_trans. Qed.
Global Instance string_le_total : Total string_le.
Proof. intros a b. apply bytes_le_total. Qed.
Global Instance string_le_antisym : AntiSymm (=) string_le.
Proof. intros a b ??. apply string_bytes_inj. by apply bytes_le_antisym. Qed.

Lemma sorted_lookup_le l i j x y :
  StronglySorted string_le l → (i ≤ j)%nat → l !! i = Some x → l !! j = Some y → string_le x y.
Proof.
  intros Hs. revert i j. induction Hs as [|z l Hs IH Hall]; intros i j Hij Hi Hj; [done|].
  destruct i as [|i], j as [|j]; cbn in *; simplify_eq; try lia; [apply bytes_le_refl| |eapply (IH i j); try done; lia].
  rewrite Forall_forall in Hall. apply Hall. by eapply list_elem_of_lookup_2.
Qed.

Lemma search_window_spec l target fuel base size :
  StronglySorted string_le l → (1 ≤ size)%nat → (size ≤ S fuel)%nat → (base + size ≤ length l)%nat →
  (∃ i, (base ≤ i < base + size)%nat ∧ l !! i = Some target) →
  l !! search_window l target fuel base size = Some target.
Proof.
  intros Hs. revert base size. induction fuel as [|fuel IH]; intros base size H1 Hf Hlen (i & Hi & Hl); cbn.
  { by assert (i = base) as -> by lia. }
  case_bool_decide; [by assert (i = base) as -> by lia|].
  assert (Hhalf : (1 ≤ Nat.div2 size ∧ 2 * Nat.div2 size ≤ size)%nat).
  { pose proof (Nat.div2_odd size) as Ho. destruct (Nat.odd size); cbn in Ho; lia. }
  destruct (lookup_lt_is_Some_2 l (base + Nat.div2 size)) as [x Hx]; [lia|]. rewrite Hx.
  case_bool_decide as Hle; apply IH; try lia.
  - destruct (decide (base + Nat.div2 size ≤ i)%nat) as [Hge|Hlt]; [exists i; split; [lia|done]|].
    exists (base + Nat.div2 size)%nat. split; [lia|]. rewrite Hx. f_equal.
    apply (anti_symm string_le); [done|]. eapply (sorted_lookup_le l i); [done| |done|done]. lia.
  - exists i. split; [|done]. destruct (decide (i < base + Nat.div2 size)%nat); [lia|]. exfalso. apply Hle.
    eapply (sorted_lookup_le l (base + Nat.div2 size) i); [done| |done|done]. lia.
Qed.

(** On a sorted list the search finds exactly its elements. *)
Lemma binary_search_spec l target :
  StronglySorted string_le l → binary_search l target = true ↔ target ∈ l.
Proof.
  intros Hs. unfold binary_search. destruct l as [|x l]; [split; [done|by intros ?%not_elem_of_nil]|].
  rewrite bool_decide_eq_true. split; [apply list_elem_of_lookup_2|].
  intros [i Hi]%list_elem_of_lookup. apply search_window_spec; [done|cbn; lia..|].
  exists i. split; [|done]. apply lookup_lt_Some in Hi. lia.
Qed.

Lemma policy_snapshot_sorted p : StronglySorted string_le (sp_denied_task_kinds (policy_snapshot p)).
Proof. apply StronglySorted_merge_sort; apply _. Qed.

Lemma elem_of_policy_snapshot p kind :
  kind ∈ sp_denied_task_kinds (policy_snapshot p) ↔ kind ∈ pol_denied_task_kinds p.
Proof. cbn. rewrite merge_sort_Permutation. apply elem_of_elements. Qed.

Lemma check_installed_Ok p kind :
  check_installed p kind = Ok tt ↔ pol_deny_all p = false ∧ kind ∉ pol_denied_task_kinds p.
Proof. unfold check_installed. destruct (pol_deny_all p); [naive_solver|]. case_bool_decide; naive_solver. Qed.

Lemma snapshot_denies_spec p kind :
  snapshot_denies (policy_snapshot p) kind = true ↔ is_err (check_installed p kind) = true.
Proof.
  unfold snapshot_denies. rewrite orb_true_iff, binary_search_spec, elem_of_policy_snapshot
    by apply policy_snapshot_sorted.
  unfold check_installed, is_err. cbn. destruct (pol_deny_all p); cbn; [naive_solver|].
  case_bool_decide; cbn; naive_solver.
Qed.

(** The three places that apply the policy agree: a task kind is refused for an
    installed job exactly if the binary search in the sorted snapshot finds it denied
    (which is what stops the jobs after a change), exactly if the Server filters it
    out of the catalog by the snapshot it was sent, and a definition of that kind is
    refused before it is installed. *)
Theorem policy_checks_agree p kind definition :
  (jd_task definition ≫= definition_task_kind) = Some kind →
  (is_err (check_installed p kind) = true ↔ snapshot_denies (policy_snapshot p) kind = true) ∧
  (is_err (check_installed p kind) = true ↔
     denies_all_or_kind (to_protocol_message (policy_snapshot p)) kind = true) ∧
  is_err (check_definition p definition) = is_err (check_installed p kind).
Proof.
  intros Hk. split_and!.
  - by rewrite snapshot_denies_spec.
  - rewrite <-snapshot_denies_spec. unfold snapshot_denies, denies_all_or_kind. rewrite !orb_true_iff.
    rewrite binary_search_spec by apply policy_snapshot_sorted. by rewrite bool_decide_eq_true.
  - unfold check_definition, check_installed. rewrite Hk. destruct (pol_deny_all p); [done|].
    by case_bool_decide.
Qed.

Lemma policy_checks_agree_witness :
  is_err (check_installed (policy_new false ["b"; "smalux.collect.cpu.v1"; "a"]) "smalux.collect.cpu.v1") = true ∧
  snapshot_denies (policy_snapshot (policy_new false ["b"; "smalux.collect.cpu.v1"; "a"])) "smalux.collect.cpu.v1" = true.
Proof.
  destruct (policy_checks_agree (policy_new false ["b"; "smalux.collect.cpu.v1"; "a"]) "smalux.collect.cpu.v1"
    (demo_job 9 1 (Task_Cpu [])) eq_refl) as (H1 & _ & _).
  assert (Hd : is_err (check_installed (policy_new false ["b"; "smalux.collect.cpu.v1"; "a"])
    "smalux.collect.cpu.v1") = true) by (vm_compute; reflexivity).
  split; [exact Hd|]. apply H1. exact Hd.
Defined.

(** ** Changing and storing the policy *)

Lemma elements_size_snapshot p :
  size (list_to_set (sp_denied_task_kinds (policy_snapshot p)) : gset string) =
    length (sp_denied_task_kinds (policy_snapshot p)).
Proof.
  apply size_list_to_set. cbn. rewrite merge_sort_Permutation. apply NoDup_elements.
Qed.

(** A policy without blank names survives its file. *)
Definition policy_wf (p : RemoteJobPolicy) : Prop := ∀ kind, kind ∈ pol_denied_task_kinds p → is_blank kind = false.

Lemma from_policy_snapshot p : policy_wf p → from_snapshot (policy_snapshot p) = Ok p.
Proof.
  intros Hwf. unfold from_snapshot. cbv zeta. rewrite elements_size_snapshot.
  rewrite bool_decide_eq_false_2 by naive_solver.
  assert (Hset : (list_to_set (sp_denied_task_kinds (policy_snapshot p)) : gset string) = pol_denied_task_kinds p).
  { apply set_eq. intros k. rewrite elem_of_list_to_set. apply elem_of_policy_snapshot. }
  rewrite Hset. replace (forallb _ _) with true; [by destruct p|].
  symmetry. apply forallb_forall. intros k Hk%list_elem_of_In. rewrite Hwf; [done|]. by apply elem_of_elements.
Qed.

(** [persist] writes the policy, or fails. *)
Lemma persist_Ok ok p fs fs' :
  persist ok p fs = Some (Ok tt, fs') →
  fs_path fs' = Some (Document (mkPolicyDocument POLICY_FORMAT_VERSION (policy_snapshot p))).
Proof.
  unfold persist. repeat (case_match; [done|]). cbn.
  destruct (ok 2%nat), (ok 5%nat), (fs_path fs); cbn; intros [= <-]; done.
Qed.

(** What the files may hold after [persist] has failed: the policy file is the old
    one, or missing. *)
Lemma persist_Err ok p fs e fs' :
  persist ok p fs = Some (Err e, fs') →
  fs_path fs' = fs_path fs ∨ (fs_path fs' = None ∧ fs_bak fs' = fs_path fs) ∨
  (fs_path fs = None ∧ ok 2%nat = false ∧ fs_path fs' = fs_bak fs).
Proof.
  unfold persist. repeat (case_match; [by intros [= <- <-]; left|]). cbn.
  destruct (negb (ok 3%nat)) eqn:?; [intros [= <- <-]; left; by destruct (ok 2%nat)|].
  destruct (negb (ok 4%nat)); [|by intros [= <-]].
  destruct (ok 2%nat) eqn:?, (fs_path fs) as [c|] eqn:?; cbn; rewrite ?Heqo; cbn.
  all: try (destruct (ok 5%nat); intros [= <- <-]; cbn; rewrite ?Heqo; by auto).
  destruct (fs_bak fs) as [c|] eqn:?; [destruct (ok 5%nat)|]; intros [= <- <-]; cbn; rewrite ?Heqo, ?Heqo0; by auto.
Qed.

(** A policy change is applied completely or not at all: if [apply] succeeds the
    candidate is in force, its revision is the next one, and the file holds exactly
    it, so that a restart loads the same policy; a change that is none keeps the
    revision and touches no file; if it fails the policy in force is the old one. *)
Theorem policy_apply_atomic ok change m r m' :
  policy_wf (change_candidate change (pm_policy m)).2 →
  policy_apply ok change m = Some (r, m') →
  match r with
  | Ok update =>
      let '(changed, candidate) := change_candidate change (pm_policy m) in
      pu_changed update = changed ∧ pu_snapshot update = policy_snapshot (pm_policy m') ∧
      (if changed then
         pol_revision (pm_policy m') = pol_revision (pm_policy m) + 1 ∧
         pol_deny_all (pm_policy m') = pol_deny_all candidate ∧
         pol_denied_task_kinds (pm_policy m') = pol_denied_task_kinds candidate ∧
         (∀ fs, pm_files m' = Some fs → load_file fs = Ok (pm_policy m'))
       else m' = m)
  | Err _ => pm_policy m' = pm_policy m
  end.
Proof.
  intros Hwf. unfold policy_apply. destruct (change_candidate change (pm_policy m)) as [changed candidate] eqn:Hc.
  cbn in Hwf. assert (Hrev : pol_revision candidate = pol_revision (pm_policy m))
    by (destruct change; cbn in Hc; injection Hc as <- <-; done).
  destruct changed; cbn; [|by intros [= <- <-]].
  destruct (checked_add_u64 _ _) as [rev|] eqn:Hadd; [|by intros [= <- <-]].
  apply checked_add_u64_Some in Hadd as [-> _].
  set (new := mkPolicy (pol_revision candidate + 1) (pol_deny_all candidate) (pol_denied_task_kinds candidate)).
  destruct (pm_files m) as [fs|].
  - destruct (persist ok new fs) as [[[[]|e] fs']|] eqn:Hp; intros [= <- <-]; [|done]. cbn.
    split_and!; [done|done|lia|done|done|]. intros fs0 [= <-]. unfold load_file.
    rewrite (persist_Ok _ _ _ _ Hp). cbn. by rewrite from_policy_snapshot.
  - intros [= <- <-]. cbn. split_and!; [done|done|lia|done|done|]. by intros fs [=].
Qed.

Definition demo_policy_manager : PolicyManager :=
  mkPolicyManager (policy_new true []) (Some (mkPolicyFs None None None)).

Definition demo_change : RemoteJobPolicyChange := AddTask "smalux.collect.cpu.v1".
Definition demo_policy_after : PolicyManager :=
  match policy_apply (λ _, true) demo_change demo_policy_manager with
  | Some (_, m') => m'
  | None => demo_policy_manager
  end.
Definition demo_policy_update : RemoteJobPolicyUpdate :=
  mkPolicyUpdate true (policy_snapshot (pm_policy demo_policy_after)).

Lemma demo_policy_apply :
  policy_apply (λ _, true) demo_change demo_policy_manager = Some (Ok demo_policy_update, demo_policy_after).
Proof. vm_compute. reflexivity. Qed.

Lemma demo_policy_wf : policy_wf (change_candidate demo_change (pm_policy demo_policy_manager)).2.
Proof.
  intros kind Hk. assert (kind = "smalux.collect.cpu.v1") as ->; [|reflexivity].
  change (kind ∈ ({["smalux.collect.cpu.v1"]} ∪ (list_to_set [] : gset string))) in Hk. set_solver.
Qed.

Lemma policy_apply_atomic_witness :
  pol_revision (pm_policy demo_policy_after) = 0 + 1 ∧
  ∀ fs, pm_files demo_policy_after = Some fs → load_file fs = Ok (pm_policy demo_policy_after).
Proof.
  pose proof (policy_apply_atomic (λ _, true) demo_change demo_policy_manager (Ok demo_policy_update)
    demo_policy_after demo_policy_wf demo_policy_apply) as Hp. cbv beta iota in Hp.
  destruct (change_candidate demo_change (pm_policy demo_policy_manager)) as [changed candidate] eqn:Hc.
  destruct changed; [|apply (f_equal fst) in Hc; vm_compute in Hc; discriminate Hc].
  destruct Hp as (_ & _ & H1 & _ & _ & H2). exact (conj H1 H2).
Defined.

(** A process that dies between the two renames of [persist] leaves no policy
    file, and the next start takes that for the empty policy: whatever was denied
    before and whatever was to be denied, everything is allowed, although both
    policies are still in the side files. *)
Theorem crash_while_saving_allows_everything p old fs kind :
  fs_path fs = Some (Document old) →
  let fs' := persist_prefix 4 p fs in
  load_file fs' = Ok default_policy ∧ check_installed default_policy kind = Ok tt ∧
  fs_bak fs' = Some (Document old) ∧
  fs_new fs' = Some (Document (mkPolicyDocument POLICY_FORMAT_VERSION (policy_snapshot p))).
Proof. intros Hf. unfold persist_prefix. cbn. rewrite Hf. cbn. done. Qed.

Lemma crash_while_saving_allows_everything_witness :
  load_file (persist_prefix 4 (policy_new true [])
    (mkPolicyFs (Some (Document (mkPolicyDocument 1 (policy_snapshot (policy_new true []))))) None None)) =
  Ok default_policy.
Proof.
  apply (crash_while_saving_allows_everything (policy_new true [])
    (mkPolicyDocument 1 (policy_snapshot (policy_new true [])))
    (mkPolicyFs (Some (Document (mkPolicyDocument 1 (policy_snapshot (policy_new true []))))) None None) "").
  reflexivity.
Defined.
