(* ===== verification/Compiler.v ===== *)
(** * Compiling a job definition

    [crates/smalux-agent/src/remote_jobs/compiler.rs]: an untrusted definition is
    checked and turned into the scheduler's types.  The text of an error is that of
    the code; where it is produced by a library it comes from [library_error].

    The constructors of four collectors check their configuration, the plugin
    manager checks that of a plugin task, and [chrono-tz] knows the timezones: these
    are the operations of the class [TaskBuilders]. *)

From stdpp Require Import base gmap strings list.
From S2P Require Import Prelude Rotation Credential SchedModel Timing Proto Catalog Policy.

Class TaskBuilders : Type := {
  (** [PublicIpTask::with_config], [ProcessTask::try_with_config],
      [SocketTask::with_config], [ProbeTask::try_with_config]. *)
  public_ip_config : bytes → result string unit;
  process_config : bytes → result string unit;
  socket_config : bytes → result string unit;
  probe_config : bytes → result string unit;
  (** [PluginManager::validate_task_config]. *)
  validate_task_config : PluginTaskConfig → result string unit;
  (** [chrono_tz::Tz::from_str]. *)
  parse_timezone : string → result string string;
  (** The text of an error of a conversion. *)
  library_error : string → string;
}.

Section Compiler.
Context `{C : Chrono} `{B : TaskBuilders}.

(** [parse_uuid]. *)
Definition parse_uuid (bs : bytes) (field : string) : result string Uuid :=
  ok_or (field +:+ " must contain a 16-byte UUID") (uuid_from_slice bs).

(** [NonZeroU32::new], [NonZeroUsize::new]. *)
Definition non_zero (x : Z) : option positive :=
  match x with Z.pos p => Some p | _ => None end.

(** [duration]. *)
Definition duration (value : option PDuration) (field : string) (allow_zero : bool) :
    result string Duration :=
  value ← ok_or (field +:+ " is required") value;
  if negb (bool_decide (0 ≤ pd_seconds value) && bool_decide (0 ≤ pd_nanos value < nanos_per_sec))
  then Err (field +:+ " is invalid")
  else
    let d := pd_seconds value * nanos_per_sec + pd_nanos value in
    if allow_zero || negb (bool_decide (d = 0)) then Ok d
    else Err (field +:+ " must be greater than zero").

(** [timestamp]: [value.nanos as u32] wraps a negative number around. *)
Definition compile_timestamp (value : option Timestamp) (field : string) : result string DateTime :=
  value ← ok_or (field +:+ " is required") value;
  ok_or (field +:+ " is outside the supported timestamp range")
    (from_timestamp (ts_seconds value) (ts_nanos value `mod` 2 ^ 32)).

(** [Option::map(f).transpose()?]. *)
Definition transpose {E A} (o : option (result E A)) : result E (option A) :=
  match o with
  | None => Ok None
  | Some (Ok a) => Ok (Some a)
  | Some (Err e) => Err e
  end.

(** The two matches of [compile_trigger]. *)
Definition compile_schedule (value : option ProtoSchedule) : result string Schedule :=
  match value with
  | Some (POnce at_) => Once <$> compile_timestamp at_ "once.at"
  | Some (PInterval every start_at) =>
      every ← duration every "interval.every" false;
      start_at ← transpose ((λ v, compile_timestamp (Some v) "interval.start_at") <$> start_at);
      Ok (Interval every start_at)
  | Some (PCron expression timezone) => Cron expression <$> parse_timezone timezone
  | None => Err "job schedule is required"
  end.

Definition compile_misfire (value : option ProtoMisfire) : result string MisfirePolicy :=
  misfire ← ok_or "misfire policy is required" value;
  match pm_behavior misfire with
  | 0 => Err "misfire behavior is unspecified"
  | 1 => Ok Skip
  | 2 => Ok FireOnce
  | 3 =>
      max_runs ← ok_or "catch-up max_runs must be greater than zero" (non_zero (pm_max_runs misfire));
      Ok (CatchUp max_runs)
  | _ => Err "misfire behavior is unknown"
  end.

(** [compile_trigger]. *)
Definition compile_trigger (value : JobTrigger) : result string Trigger :=
  schedule ← compile_schedule (jt_schedule value);
  misfire ← compile_misfire (jt_misfire value);
  timeout ← transpose ((λ v, duration (Some v) "trigger.timeout" false) <$> jt_timeout value);
  Ok (mkTrigger schedule misfire timeout).

(** [compile_retry]. *)
Definition compile_retry (value : option ProtoRetry) : result string ExecutionRetryPolicy :=
  match value with
  | Some PNoRetry => Ok RetryNone
  | Some (PExponential max_attempts initial_delay max_delay retry_on) =>
      max_attempts ← ok_or "retry max_attempts must be greater than zero" (non_zero max_attempts);
      initial_delay ← duration initial_delay "retry.initial_delay" true;
      max_delay ← duration max_delay "retry.max_delay" false;
      Ok (Exponential max_attempts initial_delay max_delay (default default_retry_condition retry_on))
  | None => Err "retry policy is required when retry is present"
  end.

(** [TriggerCoalescing::try_from] and [CapacityPolicy::try_from], mapped. *)
Definition compile_coalescing (code : Z) : result string (option TriggerCoalescing) :=
  match code with
  | 0 => Ok None
  | 1 => Ok (Some KeepAll)
  | 2 => Ok (Some KeepLatest)
  | _ => Err (library_error "TriggerCoalescing")
  end.

Definition compile_capacity (code : Z) : result string (option CapacityPolicy) :=
  match code with
  | 0 => Ok None
  | 1 => Ok (Some Backpressure)
  | 2 => Ok (Some SkipNewest)
  | 3 => Ok (Some ReplaceOldestTrigger)
  | _ => Err (library_error "CapacityPolicy")
  end.

(** [JobPriority::new(u8::try_from(priority)?)?]. *)
Definition compile_priority (priority : Z) : result string JobPriority :=
  if bool_decide (priority ≤ u8_max)
  then map_err (λ _, library_error "JobPriority") (JobPriority_new priority)
  else Err (library_error "u8").

(** [compile_options]. *)
Definition compile_options (value : option ProtoOptions) : result string JobOptions :=
  match value with
  | None => Ok default_job_options
  | Some value =>
      concurrency ← transpose ((λ v, ok_or "job concurrency must be greater than zero" (non_zero v))
                                 <$> po_concurrency value);
      priority ← match po_priority value with
                 | Some priority => compile_priority priority
                 | None => Ok (opt_priority default_job_options)
                 end;
      coalescing ← compile_coalescing (po_coalescing value);
      capacity ← compile_capacity (po_capacity value);
      retry ← match po_retry value with
              | Some retry => compile_retry retry
              | None => Ok (opt_retry default_job_options)
              end;
      failure ← match po_failure value with
                | Some failure =>
                    threshold ← transpose ((λ v, ok_or "failure threshold must be greater than zero"
                                                   (non_zero v)) <$> pf_disable_after failure);
                    Ok (mkFailurePolicy threshold (pf_count_timeout failure) (pf_count_panic failure))
                | None => Ok (opt_failure default_job_options)
                end;
      Ok (mkJobOptions concurrency (po_max_pending value) priority coalescing capacity retry failure)
  end.

(** [ReportingTask::cancellation_mode] of each task. *)
Definition task_mode (task : Task) : TaskCancellationMode :=
  match task with
  | Task_PublicIp _ | Task_Probe _ | Task_Plugin _ => Cooperative
  | _ => NonCancellable
  end.

(** [TaskFactory::bind]. *)
Definition bind_task (task : Task) : TaskBinding := mkTaskBinding (task_kind_name task) (task_mode task).

(** [TaskFactory::build]. *)
Definition build (definition : TaskDefinition) : result string TaskBinding :=
  task ← ok_or "task definition is required" (td_task definition);
  match task with
  | Task_PublicIp config => _ ← public_ip_config config; Ok (bind_task task)
  | Task_Process config => _ ← process_config config; Ok (bind_task task)
  | Task_Socket config => _ ← socket_config config; Ok (bind_task task)
  | Task_Probe config => _ ← probe_config config; Ok (bind_task task)
  | Task_Plugin config =>
      if bool_decide (ptc_plugin_id config = "") then Err "plugin_id is required"
      else if bool_decide (ptc_plugin_version config = "") then Err "plugin_version is required"
      else if bool_decide (ptc_task_kind config = "") then Err "plugin task_kind is required"
      else _ ← validate_task_config config; Ok (bind_task task)
  | _ => Ok (bind_task task)
  end.

(** [CompiledJob]. *)
Record CompiledJob : Type := mkCompiledJob {
  cj_definition : JobDefinition;
  cj_id : JobId;
  cj_revision : Z;
  cj_enabled : bool;
  cj_trigger : Trigger;
  cj_options : JobOptions;
  cj_task : TaskBinding;
  cj_task_kind : string;
  cj_plugin : option (string * string);
}.

(** The plugin a task belongs to. *)
Definition task_plugin (definition : TaskDefinition) : option (string * string) :=
  match td_task definition with
  | Some (Task_Plugin config) => Some (ptc_plugin_id config, ptc_plugin_version config)
  | _ => None
  end.

(** [compile_job]. *)
Definition compile_job (definition : JobDefinition) : result string CompiledJob :=
  id ← parse_uuid (jd_job_id definition) "job_id";
  _ ← (if bool_decide (0 < jd_revision definition) then Ok tt
       else Err "job revision must be greater than zero");
  trigger ← ok_or "job trigger is required" (jd_trigger definition);
  trigger ← compile_trigger trigger;
  options ← compile_options (jd_options definition);
  task_definition ← ok_or "job task is required" (jd_task definition);
  stable_task_kind ← ok_or "task definition is required" (definition_task_kind task_definition);
  task ← build task_definition;
  Ok (mkCompiledJob definition id (jd_revision definition) (jd_enabled definition) trigger options
        task stable_task_kind (task_plugin task_definition)).

End Compiler.

(** ** What compiling guarantees *)

Section CompilerProperties.
Context `{C : Chrono} `{B : TaskBuilders}.

(** The ranges of the scheduler's types that [Z] does not express. *)
Definition trigger_wf (t : Trigger) : Prop :=
  (∀ every start_at, schedule t = Interval every start_at → 0 < every) ∧
  (∀ d, timeout t = Some d → 0 < d).

Definition retry_wf (r : ExecutionRetryPolicy) : Prop :=
  match r with
  | RetryNone => True
  | Exponential _ initial_delay max_delay _ => 0 ≤ initial_delay ∧ 0 < max_delay
  end.

Definition options_wf (o : JobOptions) : Prop :=
  0 ≤ opt_priority o ≤ priority_critical ∧ retry_wf (opt_retry o).

(** A message decoded from the wire: [u32] fields are not negative, [bytes] are. *)
Definition definition_typed (d : JobDefinition) : Prop :=
  Forall is_byte (jd_job_id d) ∧
  ∀ o p, jd_options d = Some o → po_priority o = Some p → in_u32 p.

Definition compiled_wf (c : CompiledJob) : Prop :=
  uuid_bytes (cj_id c) = jd_job_id (cj_definition c) ∧
  cj_revision c = jd_revision (cj_definition c) ∧ 0 < cj_revision c ∧
  cj_enabled c = jd_enabled (cj_definition c) ∧
  trigger_wf (cj_trigger c) ∧ options_wf (cj_options c) ∧
  task_kind (cj_task c) = cj_task_kind c ∧ cj_task_kind c ≠ "" ∧
  (jd_task (cj_definition c) ≫= definition_task_kind) = Some (cj_task_kind c) ∧
  (is_Some (cj_plugin c) ↔ ∃ config, (jd_task (cj_definition c) ≫= td_task) = Some (Task_Plugin config)).

Lemma duration_Ok value field allow_zero d :
  duration value field allow_zero = Ok d → 0 ≤ d ∧ (allow_zero = false → 0 < d).
Proof.
  unfold duration. intros Hd. apply result_bind_Ok in Hd as (v & _ & Hd). cbv zeta in Hd.
  destruct (bool_decide (0 ≤ pd_seconds v)) eqn:H1; [|done].
  destruct (bool_decide (0 ≤ pd_nanos v < nanos_per_sec)) eqn:H2; [|done]. bools. cbn in Hd.
  assert (0 ≤ pd_seconds v * nanos_per_sec + pd_nanos v) by (unfold nanos_per_sec in *; nia).
  destruct allow_zero; cbn in Hd; [by injection Hd as <-|].
  destruct (bool_decide (_ = 0)) eqn:H3; cbn in Hd; [done|]. bools. injection Hd as <-. lia.
Qed.

Lemma duration_pos value field d : duration value field false = Ok d → 0 < d.
Proof. intros [_ Hd]%duration_Ok. by apply Hd. Qed.

Lemma transpose_Some {E A X} (f : X → result E A) (o : option X) a :
  transpose (f <$> o) = Ok (Some a) → ∃ x, o = Some x ∧ f x = Ok a.
Proof. destruct o as [x|]; cbn; [|done]. destruct (f x) eqn:Hf; [|done]. intros [= ->]. eauto. Qed.

Lemma compile_trigger_wf value t : compile_trigger value = Ok t → trigger_wf t.
Proof.
  unfold compile_trigger. intros Ht.
  apply result_bind_Ok in Ht as (s & Hs & Ht). apply result_bind_Ok in Ht as (m & _ & Ht).
  apply result_bind_Ok in Ht as (to & Hto & Ht). injection Ht as <-. split; cbn.
  - intros every start_at ->. destruct (jt_schedule value) as [[a|e st|x z]|]; cbn in Hs; [..|done].
    + revert Hs. destruct (compile_timestamp a _); cbv [fmap result_fmap]; intros [=].
    + apply result_bind_Ok in Hs as (e' & He & Hs). apply result_bind_Ok in Hs as (st' & _ & Hs).
      injection Hs as <- <-. by apply duration_pos in He.
    + revert Hs. destruct (parse_timezone z); cbv [fmap result_fmap]; intros [=].
  - intros d ->. apply transpose_Some in Hto as (v & _ & Hd). by apply duration_pos in Hd.
Qed.

Lemma compile_retry_wf value r : compile_retry value = Ok r → retry_wf r.
Proof.
  destruct value as [[|n i m c]|]; cbn; [by intros [= <-]| |done]. intros Hr.
  apply result_bind_Ok in Hr as (n' & _ & Hr). apply result_bind_Ok in Hr as (i' & Hi & Hr).
  apply result_bind_Ok in Hr as (m' & Hm & Hr). injection Hr as <-.
  apply duration_Ok in Hi as [? _]. by apply duration_pos in Hm.
Qed.

Lemma compile_options_wf value o :
  (∀ v p, value = Some v → po_priority v = Some p → in_u32 p) → compile_options value = Ok o → options_wf o.
Proof.
  intros Hty. unfold compile_options. destruct value as [v|]; [|by intros [= <-]]. intros Ho.
  apply result_bind_Ok in Ho as (conc & _ & Ho). apply result_bind_Ok in Ho as (pr & Hpr & Ho).
  apply result_bind_Ok in Ho as (co & _ & Ho). apply result_bind_Ok in Ho as (ca & _ & Ho).
  apply result_bind_Ok in Ho as (re & Hre & Ho). apply result_bind_Ok in Ho as (fa & _ & Ho).
  injection Ho as <-. split; cbn.
  - destruct (po_priority v) as [p|] eqn:Hp; [|by injection Hpr as <-].
    destruct (Hty v p eq_refl Hp). unfold compile_priority, JobPriority_new in Hpr.
    destruct (bool_decide (p ≤ u8_max)); [|done]. destruct (bool_decide (p ≤ 10)) eqn:Hb; [|done].
    bools. cbn in Hpr. injection Hpr as <-. unfold priority_critical. lia.
  - destruct (po_retry v) as [r|]; [by eapply compile_retry_wf|by injection Hre as <-].
Qed.

Lemma build_Ok d b :
  build d = Ok b → ∃ task, td_task d = Some task ∧ b = bind_task task.
Proof.
  unfold build. intros Hb. apply result_bind_Ok in Hb as (task & Ht%ok_or_Ok & Hb). exists task. split; [done|].
  destruct task; repeat case_match; try done; try (by injection Hb as <-);
    apply result_bind_Ok in Hb as (? & _ & Hb); by injection Hb as <-.
Qed.

Lemma definition_task_kind_Some d kind :
  definition_task_kind d = Some kind → ∃ task, td_task d = Some task ∧ kind = task_kind_name task ∧ kind ≠ "".
Proof.
  unfold definition_task_kind. destruct (td_task d) as [task|]; [|done]. case_bool_decide; [done|].
  intros [= <-]. eauto.
Qed.

End CompilerProperties.

(** A definition that compiles gives the scheduler only values of its types: the
    id and revision of the definition, a positive interval, time-outs and retry
    delays in range, a priority between the lowest and the critical one, and a
    binding whose kind is the stable kind of the definition, so that the debug
    assertion of [compile_job] never fails. *)
Theorem compile_job_typed `{C : Chrono} `{B : TaskBuilders} d c :
  definition_typed d → compile_job d = Ok c → cj_definition c = d ∧ compiled_wf c.
Proof.
  intros [Hb Hty] Hc. unfold compile_job in Hc.
  apply result_bind_Ok in Hc as (id & Hid%ok_or_Ok & Hc). apply result_bind_Ok in Hc as ([] & Hrev & Hc).
  apply result_bind_Ok in Hc as (tr & _ & Hc). apply result_bind_Ok in Hc as (trigger & Htr & Hc).
  apply result_bind_Ok in Hc as (options & Hop & Hc). apply result_bind_Ok in Hc as (td & Htd%ok_or_Ok & Hc).
  apply result_bind_Ok in Hc as (kind & Hk%ok_or_Ok & Hc). apply result_bind_Ok in Hc as (task & Htask & Hc).
  injection Hc as <-. cbn. split; [done|].
  destruct (build_Ok _ _ Htask) as (task' & Ht' & ->).
  pose proof (definition_task_kind_Some _ _ Hk) as (task2 & Ht2 & Hkind & Hne).
  rewrite Ht' in Ht2. injection Ht2 as <-.
  unfold compiled_wf. cbn. rewrite Htd. cbn. rewrite Ht'. cbn. split_and!; try done.
  - by apply uuid_bytes_from.
  - destruct (bool_decide _) eqn:Hr; [by bools|done].
  - by eapply compile_trigger_wf.
  - eapply compile_options_wf; [|done]. intros v p Hv. by apply (Hty v p).
  - unfold task_plugin. rewrite Ht'. destruct task'; (split; [try (intros [? [=]])|intros [? [=]]]); eauto.
Qed.

(** Builders that accept every configuration. *)
Definition demo_builders : TaskBuilders := {|
  public_ip_config := λ _, Ok tt;
  process_config := λ _, Ok tt;
  socket_config := λ _, Ok tt;
  probe_config := λ _, Ok tt;
  validate_task_config := λ _, Ok tt;
  parse_timezone := λ tz, Ok tz;
  library_error := λ what, what +:+ ": out of range";
|}.
#[export] Existing Instance demo_builders.

Definition demo_compiled : CompiledJob :=
  mkCompiledJob (demo_job 7 3 (Task_Load [])) 7 3 true
    (mkTrigger (Interval (from_secs 10) None) Skip None) default_job_options
    (bind_task (Task_Load [])) (task_kind_name (Task_Load [])) None.

Lemma compile_job_typed_witness :
  @compile_job demo_chrono demo_builders (demo_job 7 3 (Task_Load [])) = Ok demo_compiled ∧
  compiled_wf demo_compiled.
Proof.
  assert (Hc : @compile_job demo_chrono demo_builders (demo_job 7 3 (Task_Load [])) = Ok demo_compiled)
    by (vm_compute; reflexivity).
  split; [exact Hc|].
  apply (compile_job_typed (C := demo_chrono) (B := demo_builders) (demo_job 7 3 (Task_Load [])) demo_compiled);
    [|exact Hc].
  split.
  - apply (bool_decide_eq_true_1 _). vm_compute. reflexivity.
  - intros o p [=].
Defined.
