(* ===== verification/SchedulerPort.v ===== *)
(** * The scheduler as its clients see it

    [Scheduler] of [scheduler/runtime.rs] is a handle: each method sends one command
    to the actor and waits for its answer.  The class [SchedulerPort] is the set of
    methods the remote job controller calls, [SchedulerPortLaws] is what it may rely
    on: the effect of each method on the version, state and task kind of the jobs.
    The instance at the end is the handle of the actor of [Engine.v]. *)

From stdpp Require Import base gmap strings list.
From S2P Require Import Prelude StLogic SchedModel Timing ReadyQueue Actor Engine EngineFrames.
From S2P Require Import Reconcile Demo.

(** The part of a job the controller depends on. *)
Record JobView : Type := mkJobView {
  jv_version : Z;
  jv_state : JobState;
  jv_kind : string;
}.

Definition snap_view (snap : JobSnapshot) : JobView :=
  mkJobView (snap_version snap) (snap_state snap) (snap_task_kind snap).

(** A method: the answer, and the scheduler after it. *)
Abbreviation Call S A := (S → result SchedulerError A * S) (only parsing).

Class SchedulerPort (S : Type) : Type := {
  sched_install : JobId → Z → bool → Trigger → TaskBinding → JobOptions → Call S JobId;
  sched_reconcile : SchedulerReconcilePlan → Call S (list JobSnapshot);
  sched_update : JobId → Z → JobPatch → Call S JobSnapshot;
  sched_get : JobId → Call S (option JobSnapshot);
  sched_list : Call S (list JobSnapshot);
  sched_enable : JobId → Z → Call S JobSnapshot;
  sched_disable : JobId → Z → string → Call S JobSnapshot;
  sched_delete : JobId → Z → Call S unit;
  sched_get_config : Call S SchedulerConfigSnapshot;
}.

(** What a call leaves behind.  [inv] is an invariant of the scheduler and [view] is
    [None] once the actor is gone; a call that fails changes nothing in the view
    unless the actor is gone, with the exception of [reconcile], which may have been
    applied in part. *)
Section Laws.
Context {S : Type} (inv : S → Prop) (view : S → option (gmap Z JobView)).

Definition leads {A} (c : result SchedulerError A * S) (s : S)
    (Q : result SchedulerError A → gmap Z JobView → gmap Z JobView → Prop) : Prop :=
  inv s → inv c.2 ∧
  match view c.2 with
  | None => is_err c.1 = true
  | Some w' => ∃ w, view s = Some w ∧ Q c.1 w w'
  end.

Definition answers {A} (c : result SchedulerError A * S) (s : S)
    (Q : A → gmap Z JobView → gmap Z JobView → Prop) : Prop :=
  leads c s (λ r w w', match r with Ok a => Q a w w' | Err _ => w' = w end).

(** The job was at the version expected, and is now as the snapshot says. *)
Definition changed_to (id : JobId) (v : Z) (P : JobView → JobView → Prop) (snap : JobSnapshot)
    (w w' : gmap Z JobView) : Prop :=
  ∃ e, w !! id = Some e ∧ jv_version e = v ∧ snap_id snap = id ∧ P e (snap_view snap) ∧
    w' = <[id := snap_view snap]> w.

(** Applied completely or in part, a plan deletes only jobs it deletes, and the jobs
    it updates or adds have the task it gives them. *)
Definition within_plan (plan : SchedulerReconcilePlan) (w w' : gmap Z JobView) : Prop :=
  ∀ id, w' !! id = w !! id ∨
    (id ∈ (plan_deletions plan).*1 ∧ w' !! id = None) ∨
    (∃ u e e', u ∈ plan_updates plan ∧ upd_job_id u = id ∧ w !! id = Some e ∧ w' !! id = Some e' ∧
       jv_kind e' = default (jv_kind e) (task_kind <$> patch_task (upd_patch u))) ∨
    (∃ a e', a ∈ plan_additions plan ∧ addn_job_id a = id ∧ w' !! id = Some e' ∧
       jv_kind e' = task_kind (addn_task a)).

Definition touched_ids (plan : SchedulerReconcilePlan) : list Z :=
  (upd_job_id <$> plan_updates plan) ++ (addn_job_id <$> plan_additions plan).

(** A job has the task of its update, and is enabled exactly if the update says so. *)
Definition update_done (u : SchedulerReconcileUpdate) (e : JobView) : Prop :=
  (∀ task, patch_task (upd_patch u) = Some task → jv_kind e = task_kind task) ∧
  (jv_state e = Enabled ↔ upd_enabled u = true).
(** A job that was added. *)
Definition added (a : SchedulerReconcileAddition) : JobView :=
  mkJobView 1 (if addn_enabled a then Enabled else Disabled "installed disabled") (task_kind (addn_task a)).

(** A plan was applied completely. *)
Record plan_applied (plan : SchedulerReconcilePlan) (snaps : list JobSnapshot)
    (w w' : gmap Z JobView) : Prop := {
  pa_dom : dom w' = (dom w ∖ list_to_set (plan_deletions plan).*1)
                    ∪ list_to_set (addn_job_id <$> plan_additions plan);
  pa_others : ∀ id, id ∉ touched_ids plan → id ∉ (plan_deletions plan).*1 → w' !! id = w !! id;
  pa_snaps : (λ snap, (snap_id snap, Some (snap_view snap))) <$> snaps =
             (λ id, (id, w' !! id)) <$> touched_ids plan;
  pa_updated : ∀ u, u ∈ plan_updates plan → ∃ e, w' !! upd_job_id u = Some e ∧ update_done u e;
  pa_added : ∀ a, a ∈ plan_additions plan → w' !! addn_job_id a = Some (added a);
}.
End Laws.

Class SchedulerPortLaws (S : Type) `{!SchedulerPort S} : Type := {
  port_inv : S → Prop;
  view : S → option (gmap Z JobView);
  install_law id gen enabled trigger task options s :
    answers port_inv view (sched_install id gen enabled trigger task options s) s (λ id' w w',
      id' = id ∧ w !! id = None ∧
      w' = <[id := mkJobView gen (if enabled then Enabled else Disabled "installed disabled")
                     (task_kind task)]> w);
  update_law id v patch s :
    answers port_inv view (sched_update id v patch s) s (changed_to id v (λ e e',
      jv_version e' = v + 1 ∧ jv_state e' = jv_state e ∧
      jv_kind e' = default (jv_kind e) (task_kind <$> patch_task patch)));
  enable_law id v s :
    answers port_inv view (sched_enable id v s) s (changed_to id v (λ e e',
      jv_state e' = Enabled ∧ jv_kind e' = jv_kind e));
  disable_law id v reason s :
    answers port_inv view (sched_disable id v reason s) s (changed_to id v (λ e e',
      e' = mkJobView (v + 1) (Disabled reason) (jv_kind e)));
  delete_law id v s :
    answers port_inv view (sched_delete id v s) s (λ _ w w',
      (∃ e, w !! id = Some e ∧ jv_version e = v) ∧ w' = delete id w);
  get_law id s :
    answers port_inv view (sched_get id s) s (λ r w w', w' = w ∧ snap_view <$> r = w !! id);
  list_law s :
    answers port_inv view (sched_list s) s (λ l w w', w' = w ∧ NoDup (snap_id <$> l) ∧
      ∀ id e, w !! id = Some e ↔ ∃ snap, snap ∈ l ∧ snap_id snap = id ∧ snap_view snap = e);
  config_law s : answers port_inv view (sched_get_config s) s (λ _ w w', w' = w);
  reconcile_law plan s :
    leads port_inv view (sched_reconcile plan s) s (λ r w w', within_plan plan w w' ∧
      match r with Ok snaps => plan_applied plan snaps w w' | Err _ => True end);
}.

(** ** The handle of the actor *)

(** [Scheduler]: the actor behind the channel, until it is gone. *)
Definition Handle : Type := option SchedulerActor.

Section Handle.
Context `{C : Chrono} `{H : HashOrder} `{R : Runtime}.

(** The turn of the main loop that receives the command. *)
Definition command_turn (command : Command) : M (Response * bool) :=
  restore_blocked ;; dispatch_ready ;; handle_command command.

(** [Scheduler::request]: when the actor is gone, or panics before it answers, the
    channel is closed. *)
Definition request {A} (command : Command) (decode : Response → option (result SchedulerError A)) :
    Call Handle A := λ h,
  match h with
  | None => (Err ErrClosed, None)
  | Some s =>
      match command_turn command s with
      | Some ((response, _), s') => (default (Err ErrClosed) (decode response), Some s')
      | None => (Err ErrClosed, None)
      end
  end.

Definition resp_id (r : Response) := match r with RespId r => Some r | _ => None end.
Definition resp_snapshot (r : Response) := match r with RespSnapshot r => Some r | _ => None end.
Definition resp_unit (r : Response) := match r with RespUnit r => Some r | _ => None end.
Definition resp_reconcile (r : Response) := match r with RespReconcile r => Some r | _ => None end.
Definition resp_config (r : Response) := match r with RespConfig r => Some r | _ => None end.
Definition resp_get (r : Response) : option (result SchedulerError (option JobSnapshot)) :=
  match r with RespGet r => Some (Ok r) | _ => None end.
Definition resp_list (r : Response) : option (result SchedulerError (list JobSnapshot)) :=
  match r with RespList r => Some (Ok r) | _ => None end.

(** [install], [reconcile], [update], [get], [list], [enable], [disable], [delete] and
    [get_config] of [Scheduler]. *)
#[global] Instance handle_port : SchedulerPort Handle := {|
  sched_install id generation enabled trigger task options :=
    request (CmdAdd (Some id) generation enabled trigger task options) resp_id;
  sched_reconcile plan := request (CmdReconcile plan) resp_reconcile;
  sched_update id v patch := request (CmdUpdate id v patch) resp_snapshot;
  sched_get id := request (CmdGet id) resp_get;
  sched_list := request CmdList resp_list;
  sched_enable id v := request (CmdEnable id v) resp_snapshot;
  sched_disable id v reason := request (CmdDisable id v reason) resp_snapshot;
  sched_delete id v := request (CmdDelete id v) resp_unit;
  sched_get_config := request CmdGetConfig resp_config;
|}.

End Handle.

(** ** What the actor does to the view *)

(** What is observed of a job, with the id it carries. *)
Definition entry_view (j : JobEntry) : JobView :=
  mkJobView (job_version j) (job_state j) (job_task j).
Definition seen (s : SchedulerActor) : gmap Z (Z * JobView) :=
  (λ j, (job_id j, entry_view j)) <$> ac_jobs s.
Definition jobs_view (s : SchedulerActor) : gmap Z JobView := entry_view <$> ac_jobs s.

(** Every job is stored under its own id. *)
Definition keyed (s : SchedulerActor) : Prop := map_Forall (λ id j, job_id j = id) (ac_jobs s).

Section Seen.
Context `{C : Chrono} `{H : HashOrder} `{R : Runtime}.

Lemma modify_job_seen id f :
  (∀ j, job_id (f j) = job_id j ∧ entry_view (f j) = entry_view j) → keeps seen (modify_job id f).
Proof.
  intros Hf. apply follows_modify. intros s. unfold seen. cbn. apply map_eq. intros i.
  rewrite !lookup_fmap. destruct (decide (i = id)) as [->|Hne].
  - rewrite lookup_alter_eq. destruct (ac_jobs s !! id) as [j|]; [|done]. cbn. by destruct (Hf j) as [-> ->].
  - by rewrite lookup_alter_ne.
Qed.

Lemma modify_ready_seen f : keeps seen (modify_ready f).
Proof. by apply follows_modify. Qed.
Lemma emit_seen k : keeps seen (emit k).
Proof. intros s a s'. rewrite emit_eq. by intros [= <- <-]. Qed.
Lemma utc_now_seen : keeps seen utc_now.
Proof. by intros s a s' [= <- <-]. Qed.
Lemma mono_now_seen : keeps seen mono_now.
Proof. by intros s a s' [= <- <-]. Qed.
Lemma get_job_seen id : keeps seen (get_job id).
Proof. apply follows_gets, _. Qed.
Lemma set_timers_seen f : keeps seen (st_modify (λ s, set_ac_timers (f s) s)).
Proof. by apply follows_modify. Qed.
Lemma set_retry_timers_seen f : keeps seen (st_modify (λ s, set_ac_retry_timers (f s) s)).
Proof. by apply follows_modify. Qed.
Lemma set_running_seen f : keeps seen (st_modify (λ s, set_ac_running (f s) s)).
Proof. by apply follows_modify. Qed.

Hint Resolve modify_ready_seen emit_seen utc_now_seen mono_now_seen get_job_seen set_timers_seen
  set_retry_timers_seen set_running_seen : follows.
Hint Extern 2 (follows _ (modify_job _ _)) => apply modify_job_seen; intros ?; done : follows.

Lemma take_normal_timer_seen id j : keeps seen (take_normal_timer id j).
Proof. unfold take_normal_timer, timers_try_remove. follow. Qed.
Hint Resolve take_normal_timer_seen : follows.

Lemma schedule_normal_seen id t k : keeps seen (schedule_normal id t k).
Proof. unfold schedule_normal, timers_insert_at. follow. Qed.

Lemma clear_retry_timers_seen id : keeps seen (clear_retry_timers id).
Proof. unfold clear_retry_timers, timers_try_remove. follow. Qed.

Lemma plan_job_update_seen id v p : keeps seen (plan_job_update id v p).
Proof. unfold plan_job_update. follow. Qed.

Lemma restore_blocked_seen : keeps seen restore_blocked.
Proof.
  assert (Hloop : ∀ fuel id limit from, keeps seen (restore_loop id limit fuel from)).
  { induction fuel as [|fuel IH]; intros id limit from; cbn [restore_loop]; unfold pop_blocked; follow. }
  unfold restore_blocked, restore_job. follow.
Qed.

Lemma dispatch_ready_seen : keeps seen dispatch_ready.
Proof.
  assert (Hloop : ∀ fuel, keeps seen (dispatch_loop fuel)).
  { induction fuel as [|fuel IH]; cbn [dispatch_loop]; unfold spawn_execution; follow. }
  unfold dispatch_ready. follow.
Qed.

Lemma snapshot_of_seen id : keeps seen (snapshot_of id).
Proof. unfold snapshot_of, index_job. follow. Qed.

Lemma check_version_Ok id v s a s' :
  check_version id v s = Some (Ok a, s') → s' = s ∧ ∃ j, ac_jobs s !! id = Some j ∧ job_version j = v.
Proof.
  unfold check_version. intros Hs. act_open. destruct (ac_jobs _ !! id) as [j|] eqn:Hj; [|done].
  case_bool_decide; [|done]. eauto.
Qed.

Lemma check_version_Err id v s e s' : check_version id v s = Some (Err e, s') → s' = s.
Proof. unfold check_version. intros Hs. by act_open. Qed.

End Seen.
#[export] Hint Resolve modify_ready_seen emit_seen utc_now_seen mono_now_seen get_job_seen set_timers_seen
  set_retry_timers_seen set_running_seen take_normal_timer_seen schedule_normal_seen
  clear_retry_timers_seen plan_job_update_seen snapshot_of_seen
  restore_blocked_seen dispatch_ready_seen : follows.
#[export] Hint Extern 2 (follows _ (modify_job _ _)) => apply modify_job_seen; intros ?; done : follows.

(** *** The operations that change a job *)

Section Effects.
Context `{C : Chrono} `{H : HashOrder} `{R : Runtime}.

Lemma seen_lookup s id j : ac_jobs s !! id = Some j → seen s !! id = Some (job_id j, entry_view j).
Proof. intros Hj. unfold seen. by rewrite lookup_fmap, Hj. Qed.

Lemma seen_Some s id x : seen s !! id = Some x ↔ ∃ j, ac_jobs s !! id = Some j ∧ x = (job_id j, entry_view j).
Proof. unfold seen. rewrite lookup_fmap_Some. naive_solver. Qed.

Lemma seen_insert s id j jobs :
  seen (set_ac_jobs (<[id := j]> jobs) s) = <[id := (job_id j, entry_view j)]> (seen (set_ac_jobs jobs s)).
Proof. unfold seen. cbn. by rewrite fmap_insert. Qed.

Lemma seen_alter s id f j :
  ac_jobs s !! id = Some j →
  seen (set_ac_jobs (alter f id (ac_jobs s)) s) = <[id := (job_id (f j), entry_view (f j))]> (seen s).
Proof. intros Hj. rewrite (alter_Some _ _ _ _ Hj), seen_insert. by destruct s. Qed.

(** A snapshot of a job after operations that keep what is seen. *)
Lemma snapshot_of_view id s snap s' :
  snapshot_of id s = Some (snap, s') → seen s !! id = Some (snap_id snap, snap_view snap).
Proof.
  unfold snapshot_of. intros Hs. apply st_bind_Some in Hs as (j & ? & [Hj ->]%index_job_Some & Hs).
  apply st_gets_Some in Hs as [-> ->]. by apply seen_lookup in Hj.
Qed.

Lemma force_disable_seen id reason s r s' :
  force_disable id reason s = Some (r, s') →
  match r with
  | Ok _ => ∃ i e, seen s !! id = Some (i, e) ∧
      seen s' = <[id := (i, mkJobView (jv_version e + 1) (Disabled reason) (jv_kind e))]> (seen s)
  | Err _ => s' = s
  end.
Proof.
  unfold force_disable. intros Hs. apply st_bind_Some in Hs as (? & ? & [-> ->]%get_job_Some & Hs).
  destruct (ac_jobs s !! id) as [j|] eqn:Hj; [|by act_open].
  destruct (checked_add_u64 (job_version j) 1) as [v|] eqn:Hv; [|by act_open].
  apply checked_add_u64_Some in Hv as [-> _].
  apply st_bind_Some in Hs as (? & s1 & H1%modify_job_Some & Hs).
  apply st_bind_Some in Hs as (? & s2 & H2%take_normal_timer_seen & Hs).
  apply st_bind_Some in Hs as (? & s3 & H3%modify_job_Some & Hs).
  assert (Hrest : r = Ok tt ∧ seen s' = seen s3).
  { assert (Hr : follows (λ a b, seen b = seen a) (
      now ← utc_now; modify_job id (set_job_updated_at now) ;; clear_retry_timers id ;;
      modify_ready (λ q, (remove_job q id).2) ;; cancel_job_version id (job_version j) ;;
      emit (JobDisabled id (job_version j + 1) reason))).
    { unfold cancel_job_version. follow. }
    split.
    - do 6 (apply st_bind_Some in Hs as (? & ? & _ & Hs)). by apply st_ret_Some in Hs as [-> _].
    - do 6 (apply st_bind_Some in Hs as (? & ? & ? & Hs)). apply st_ret_Some in Hs as [_ ->].
      eapply Hr. repeat (apply st_bind_Some; do 2 eexists; split; [eassumption|]). eassumption. }
  destruct Hrest as [-> Hs']. exists (job_id j), (entry_view j). split; [by apply seen_lookup|].
  assert (Hl2 : seen s2 !! id = Some (job_id j, entry_view (set_job_version (job_version j + 1) j))).
  { rewrite H2, H1, (seen_alter _ _ _ _ Hj). apply lookup_insert_eq. }
  apply seen_Some in Hl2 as (j2 & Hj2 & [= Hid Hv Hst Hk]).
  rewrite Hs', H3, (seen_alter _ _ _ _ Hj2), H2, H1, (seen_alter _ _ _ _ Hj), insert_insert_eq.
  do 2 f_equal; [done|]. unfold entry_view. cbn. by rewrite <-Hv, <-Hk.
Qed.

(** The answer of [update], [enable] and [disable]. *)
Definition job_changed (id : JobId) (v : Z) (P : JobView → JobView → Prop)
    (r : result SchedulerError JobSnapshot) (s s' : SchedulerActor) : Prop :=
  match r with
  | Ok snap => ∃ i e, seen s !! id = Some (i, e) ∧ jv_version e = v ∧ snap_id snap = i ∧
      P e (snap_view snap) ∧ seen s' = <[id := (i, snap_view snap)]> (seen s)
  | Err _ => seen s' = seen s
  end.

Lemma disable_job_seen id v reason s r s' :
  disable_job id v reason s = Some (r, s') →
  job_changed id v (λ e e', e' = mkJobView (v + 1) (Disabled reason) (jv_kind e)) r s s'.
Proof.
  unfold disable_job. intros Hs.
  apply st_try_Some in Hs as [([] & ? & [-> (j & Hj & Hv)]%check_version_Ok & Hs)|(e & ->%check_version_Err & ->)];
    [|done].
  apply st_try_Some in Hs as [([] & s1 & Hf & Hs)|(e & Hf & ->)].
  2:{ apply force_disable_seen in Hf. by subst. }
  apply force_disable_seen in Hf as (i & e & Hl & Hs1).
  apply st_bind_Some in Hs as (snap & s2 & Hsn & [-> ->]%st_ret_Some).
  pose proof (snapshot_of_seen _ _ _ _ Hsn) as Hs2. apply snapshot_of_view in Hsn.
  rewrite Hs1, lookup_insert_eq in Hsn. apply (inj Some), pair_equal_spec in Hsn as [Hi Hsn].
  apply seen_lookup in Hj as Hl'. rewrite Hl' in Hl. injection Hl as <- <-.
  exists (job_id j), (entry_view j). split_and!; try done.
  - rewrite <-Hsn. cbn. by rewrite Hv.
  - cbv beta in Hs2. by rewrite Hs2, Hs1, <-Hsn.
Qed.

Lemma enable_job_seen id v s r s' :
  enable_job id v s = Some (r, s') →
  job_changed id v (λ e e', jv_state e' = Enabled ∧ jv_kind e' = jv_kind e) r s s'.
Proof.
  unfold enable_job. intros Hs.
  apply st_try_Some in Hs as [([] & ? & [-> (j & Hj & Hv)]%check_version_Ok & Hs)|(e & ->%check_version_Err & ->)];
    [|done].
  apply st_bind_Some in Hs as (? & ? & [Hj' ->]%index_job_Some & Hs). rewrite Hj in Hj'. injection Hj' as <-.
  apply seen_lookup in Hj as Hl. case_bool_decide as Hst.
  - apply st_bind_Some in Hs as (snap & s2 & Hsn & [-> ->]%st_ret_Some).
    pose proof (snapshot_of_seen _ _ _ _ Hsn) as Hs2. apply snapshot_of_view in Hsn. cbv beta in Hs2.
    rewrite Hl in Hsn. apply (inj Some), pair_equal_spec in Hsn as [Hi Hsn].
    exists (job_id j), (entry_view j). rewrite <-Hsn. split_and!; try done.
    by rewrite insert_id.
  - apply st_bind_Some in Hs as (? & s1 & H1%modify_ready_seen & Hs).
    apply st_bind_Some in Hs as (? & s2 & H2%clear_retry_timers_seen & Hs).
    apply st_bind_Some in Hs as (now & s3 & H3%utc_now_seen & Hs). cbv beta in *.
    assert (H4 : seen s3 = seen s) by congruence.
    apply st_bind_Some in Hs as (j3 & ? & [Hj3 ->]%index_job_Some & Hs).
    apply st_try_Some in Hs as [(next & ? & [_ ->]%st_ret_Some & Hs)|(? & [_ ->]%st_ret_Some & ->)]; [|done].
    apply st_try_Some in Hs as [(nv & ? & [Hnv ->]%st_ret_Some & Hs)|(? & [_ ->]%st_ret_Some & ->)]; [|done].
    apply st_bind_Some in Hs as (? & s5 & H5%modify_job_Some & Hs).
    apply st_bind_Some in Hs as (? & s6 & H6%schedule_normal_seen & Hs).
    apply st_bind_Some in Hs as (? & ? & [_ ->]%index_job_Some & Hs).
    apply st_bind_Some in Hs as (? & s7 & H7%emit_seen & Hs).
    apply st_bind_Some in Hs as (snap & s8 & Hsn & [-> ->]%st_ret_Some).
    pose proof (snapshot_of_seen _ _ _ _ Hsn) as H8. apply snapshot_of_view in Hsn. cbv beta in *.
    apply seen_lookup in Hj3 as Hl3. rewrite H4, Hl in Hl3. injection Hl3 as Hi Hjv Hjs Hjk.
    assert (H9 : seen s7 = <[id := (job_id j, mkJobView nv Enabled (job_task j))]> (seen s)).
    { rewrite H7, H6, H5, (seen_alter _ _ _ _ Hj3), H4. unfold entry_view. cbn. by rewrite Hi, Hjk. }
    rewrite H9, lookup_insert_eq in Hsn. apply (inj Some), pair_equal_spec in Hsn as [Hi' Hsn].
    exists (job_id j), (entry_view j). rewrite <-Hsn. split_and!; try done. by rewrite H8, H9.
Qed.

Lemma delete_job_seen id v s r s' :
  delete_job id v true s = Some (r, s') →
  match r with
  | Ok _ => (∃ i e, seen s !! id = Some (i, e) ∧ jv_version e = v) ∧ seen s' = delete id (seen s)
  | Err _ => s' = s
  end.
Proof.
  unfold delete_job. intros Hs.
  apply st_try_Some in Hs as [([] & ? & [-> (j & Hj & Hv)]%check_version_Ok & Hs)|(e & ->%check_version_Err & ->)];
    [|done].
  apply st_bind_Some in Hs as (? & ? & [Hj' ->]%index_job_Some & Hs).
  apply st_bind_Some in Hs as (? & s1 & H1%st_modify_Some & Hs).
  apply st_bind_Some in Hs as (? & s2 & H2 & Hs).
  assert (H2' : seen s2 = seen s1).
  { destruct (job_normal_timer_key _); [apply st_modify_Some in H2|apply st_ret_Some in H2 as [_ H2]]; by subst. }
  apply st_bind_Some in Hs as (? & s3 & H3%clear_retry_timers_seen & Hs).
  apply st_bind_Some in Hs as (? & s4 & H4%modify_ready_seen & Hs).
  apply st_bind_Some in Hs as (? & s5 & H5%st_modify_Some & Hs).
  apply st_bind_Some in Hs as (? & s6 & H6%emit_seen & [-> ->]%st_ret_Some). cbv beta in *.
  split; [apply seen_lookup in Hj; by exists (job_id j), (entry_view j)|].
  rewrite H6, H5. change (seen s4 = delete id (seen s)). rewrite H4, H3, H2', H1. unfold seen. cbn.
  apply fmap_delete.
Qed.

End Effects.

Section UpdateEffects.
Context `{C : Chrono} `{H : HashOrder} `{R : Runtime}.

Lemma migrate_pending_seen id changed j s j' s' :
  migrate_pending id changed j s = Some (j', s') →
  seen s' = seen s ∧ job_id j' = job_id j ∧ entry_view j' = entry_view j.
Proof.
  unfold migrate_pending. destruct changed; intros Hs.
  - apply st_bind_Some in Hs as (? & s1 & H1%modify_ready_seen & [-> ->]%st_ret_Some). done.
  - apply st_bind_Some in Hs as (? & s1 & H1%modify_ready_seen & Hs).
    apply st_bind_Some in Hs as (? & s2 & H2 & [-> ->]%st_ret_Some). cbv beta in *.
    split; [|done]. rewrite <-H1. destruct (bool_decide _); [by apply modify_ready_seen in H2|].
    by apply st_ret_Some in H2 as [_ ->].
Qed.

Lemma apply_job_update_seen id v patch plan s snap s' :
  apply_job_update id v patch plan s = Some (snap, s') →
  ∃ i e, seen s !! id = Some (i, e) ∧ snap_id snap = i ∧
    snap_view snap = mkJobView (up_next_version plan) (jv_state e)
                       (default (jv_kind e) (task_kind <$> patch_task patch)) ∧
    seen s' = <[id := (i, snap_view snap)]> (seen s).
Proof.
  unfold apply_job_update. intros Hs.
  apply st_bind_Some in Hs as (? & ? & [-> ->]%get_job_Some & Hs).
  apply st_bind_Some in Hs as (j & ? & [Hj ->]%st_expect_Some & Hs).
  apply st_bind_Some in Hs as (? & s1 & H1%st_modify_Some & Hs).
  apply st_bind_Some in Hs as (now & s2 & H2%utc_now_seen & Hs). cbv zeta in Hs.
  set (j2 := set_job_updated_at now (patch_job patch (up_next_version plan) j)) in Hs.
  apply st_bind_Some in Hs as (? & s3 & H3 & Hs).
  assert (H3' : seen s3 = seen s2).
  { destruct (job_normal_timer_key _); [apply st_modify_Some in H3|apply st_ret_Some in H3 as [_ H3]]; by subst. }
  apply st_bind_Some in Hs as (? & s4 & H4%clear_retry_timers_seen & Hs).
  apply st_bind_Some in Hs as (j5 & s5 & (H5 & H5i & H5v)%migrate_pending_seen & Hs).
  apply st_bind_Some in Hs as (? & s6 & H6%st_modify_Some & Hs).
  apply st_bind_Some in Hs as (? & s7 & H7 & Hs).
  assert (H7' : seen s7 = seen s6).
  { revert H7. destruct (up_next_run_at plan); [destruct (bool_decide _)|];
      (intros H7; first [by apply schedule_normal_seen in H7|by apply st_ret_Some in H7 as [_ ->]]). }
  apply st_bind_Some in Hs as (? & s8 & H8 & Hs).
  assert (H8' : seen s8 = seen s7).
  { destruct (_ || _); [apply st_modify_Some in H8|apply st_ret_Some in H8 as [_ H8]]; by subst. }
  apply st_bind_Some in Hs as (? & s9 & H9%emit_seen & Hs).
  pose proof (snapshot_of_seen _ _ _ _ Hs) as H10. apply snapshot_of_view in Hs. cbv beta in *.
  assert (Hfin : seen s9 = <[id := (job_id j, mkJobView (up_next_version plan) (job_state j)
    (default (job_task j) (task_kind <$> patch_task patch)))]> (seen s)).
  { rewrite H9, H8', H7', H6, seen_insert, H5i, H5v.
    replace (seen (set_ac_jobs (ac_jobs s5) s5)) with (seen s5) by (by destruct s5).
    rewrite H5, H4, H3', H2, H1. unfold seen at 1. cbn. rewrite fmap_delete, insert_delete_eq. done. }
  exists (job_id j), (entry_view j). rewrite Hfin, lookup_insert_eq in Hs.
  apply (inj Some), pair_equal_spec in Hs as [Hi Hs]. rewrite <-Hs.
  split_and!; [by apply seen_lookup|done|done|]. by rewrite H10, Hfin.
Qed.

Lemma plan_job_update_Ok id v patch s plan s' :
  plan_job_update id v patch s = Some (Ok plan, s') →
  ∃ j, ac_jobs s !! id = Some j ∧ job_version j = v ∧ up_next_version plan = v + 1.
Proof.
  unfold plan_job_update. intros Hs. apply st_bind_Some in Hs as (? & ? & [-> ->]%st_get_Some & Hs).
  destruct (ac_jobs s !! id) as [j|]; [|by act_open]. st_case; [by act_open|].
  do 3 (apply st_try_Some in Hs as [(? & ? & [? ->]%st_ret_Some & Hs)|(? & _ & [=])]).
  apply st_bind_Some in Hs as (now & s1 & _ & Hs).
  apply st_try_Some in Hs as [(? & ? & [? ->]%st_ret_Some & Hs)|(? & _ & [=])].
  act_open. simplify_eq. exists j. split_and!; [done|by apply dec_stable|].
  match goal with E : Ok _ = ok_or _ _ |- _ => symmetry in E; apply ok_or_Ok, checked_add_u64_Some in E as [-> _] end.
  cbn. f_equal. by apply dec_stable.
Qed.

Lemma update_job_seen id v patch s r s' :
  update_job id v patch s = Some (r, s') →
  job_changed id v (λ e e', jv_version e' = v + 1 ∧ jv_state e' = jv_state e ∧
    jv_kind e' = default (jv_kind e) (task_kind <$> patch_task patch)) r s s'.
Proof.
  unfold update_job. intros Hs.
  apply st_try_Some in Hs as [(plan & s1 & Hp & Hs)|(e & Hp & ->)].
  2:{ by apply plan_job_update_seen in Hp. }
  pose proof (plan_job_update_seen _ _ _ _ _ _ Hp) as H1. apply plan_job_update_Ok in Hp as (j & Hj & Hv & Hn).
  apply st_bind_Some in Hs as (snap & s2 & Ha & [-> ->]%st_ret_Some).
  apply apply_job_update_seen in Ha as (i & e & Hl & Hi & Hsn & H2). cbv beta in *. rewrite H1 in *.
  exists i, e. split_and!; try done; rewrite ?Hsn; try done.
  apply seen_lookup in Hj. rewrite Hj in Hl. injection Hl as <- <-. done.
Qed.

Lemma add_job_seen id g enabled trigger task options s r s' :
  add_job (Some id) g enabled trigger task options s = Some (r, s') →
  match r with
  | Ok id' => id' = id ∧ seen s !! id = None ∧
      seen s' = <[id := (id, mkJobView g (if enabled then Enabled else Disabled "installed disabled")
                                (task_kind task))]> (seen s)
  | Err _ => seen s' = seen s
  end.
Proof.
  unfold add_job. intros Hs. apply st_bind_Some in Hs as (? & ? & [-> ->]%st_get_Some & Hs).
  st_case; [by act_open|].
  do 2 (apply st_try_Some in Hs as [(? & ? & [_ ->]%st_ret_Some & Hs)|(? & [_ ->]%st_ret_Some & ->)]; [|done]).
  apply st_bind_Some in Hs as (now & s1 & H1%utc_now_seen & Hs). cbv beta in *.
  unfold choose_job_id in Hs.
  apply st_try_Some in Hs as [(i & s2 & Hch & Hs)|(e & Hch & ->)]; [|by act_open].
  apply st_bind_Some in Hch as (? & ? & [-> ->]%get_job_Some & [Hi ->]%st_ret_Some).
  destruct (ac_jobs s1 !! id) eqn:Hno; [done|]. injection Hi as ->.
  apply st_try_Some in Hs as [(next & ? & [_ ->]%st_ret_Some & Hs)|(? & [_ ->]%st_ret_Some & ->)]; [|done].
  apply st_bind_Some in Hs as (? & s3 & H3%st_modify_Some & Hs).
  apply st_bind_Some in Hs as (? & s4 & H4 & Hs).
  assert (H4' : seen s4 = seen s3).
  { destruct enabled; [by apply schedule_normal_seen in H4|by apply st_ret_Some in H4 as [_ ->]]. }
  apply st_bind_Some in Hs as (? & s5 & H5%emit_seen & [-> ->]%st_ret_Some). cbv beta in *.
  split_and!; [done|rewrite <-H1; unfold seen; by rewrite lookup_fmap, Hno|].
  rewrite H5, H4', H3, seen_insert.
  replace (seen (set_ac_jobs (ac_jobs s1) s1)) with (seen s1) by (by destruct s1). rewrite H1.
  unfold new_job_entry. by destruct (effective_queue_policies trigger options).
Qed.

End UpdateEffects.

(** ** From the actor to the view *)

Section Views.
Context `{C : Chrono} `{H : HashOrder} `{R : Runtime}.

Lemma jobs_view_seen s : jobs_view s = snd <$> seen s.
Proof. unfold jobs_view, seen. rewrite <-map_fmap_compose. done. Qed.

Lemma keyed_seen s : keyed s ↔ map_Forall (λ id x, x.1 = id) (seen s).
Proof. unfold keyed, seen. rewrite map_Forall_fmap. done. Qed.

Lemma view_same s s' : seen s' = seen s → keyed s → keyed s' ∧ jobs_view s' = jobs_view s.
Proof. intros Hs. rewrite !keyed_seen, !jobs_view_seen, Hs. done. Qed.

Lemma view_insert s s' id e :
  seen s' = <[id := (id, e)]> (seen s) → keyed s → keyed s' ∧ jobs_view s' = <[id := e]> (jobs_view s).
Proof.
  intros Hs. rewrite !keyed_seen, !jobs_view_seen, Hs, fmap_insert. intros Hk. split; [|done].
  by apply map_Forall_insert_2.
Qed.

Lemma view_delete s s' id :
  seen s' = delete id (seen s) → keyed s → keyed s' ∧ jobs_view s' = delete id (jobs_view s).
Proof.
  intros Hs. rewrite !keyed_seen, !jobs_view_seen, Hs, fmap_delete. intros Hk. split; [|done].
  by apply map_Forall_delete.
Qed.

Lemma seen_view s id i e : keyed s → seen s !! id = Some (i, e) → i = id ∧ jobs_view s !! id = Some e.
Proof.
  rewrite keyed_seen, jobs_view_seen. intros Hk Hl. split; [exact (Hk _ _ Hl)|]. by rewrite lookup_fmap, Hl.
Qed.

Lemma job_changed_view id v P r s s' :
  job_changed id v P r s s' → keyed s → keyed s' ∧
  match r with
  | Ok snap => changed_to id v P snap (jobs_view s) (jobs_view s')
  | Err _ => jobs_view s' = jobs_view s
  end.
Proof.
  destruct r as [snap|e]; [|apply view_same]. intros (i & e & Hl & Hv & Hi & HP & Hs) Hk.
  destruct (seen_view _ _ _ _ Hk Hl) as [-> Hw]. destruct (view_insert _ _ _ _ Hs Hk) as [Hk' Hw'].
  split; [done|]. by exists e.
Qed.

(** *** Reconciliation *)

Definition update_view (u : SchedulerReconcileUpdate) (w w' : gmap Z JobView) : Prop :=
  w' = w ∨ ∃ e e', w !! upd_job_id u = Some e ∧
    jv_kind e' = default (jv_kind e) (task_kind <$> patch_task (upd_patch u)) ∧
    w' = <[upd_job_id u := e']> w.

Lemma apply_update_view u s r s' :
  apply_update u s = Some (r, s') → keyed s → keyed s' ∧ update_view u (jobs_view s) (jobs_view s').
Proof.
  unfold apply_update. intros Hs Hk.
  apply st_try_Some in Hs as [(snap & s1 & Hu & Hs)|(e & Hu & ->)];
    apply update_job_seen, job_changed_view in Hu; try done; [|destruct Hu; split; [done|by left]].
  destruct Hu as [Hk1 (e & Hl & _ & Hid & (_ & _ & Hkind) & Hw1)].
  assert (Hbase : update_view u (jobs_view s) (jobs_view s1)) by (right; by exists e, (snap_view snap)).
  assert (Hchange : ∀ v P r2 s2, job_changed (snap_id snap) v P r2 s1 s2 →
    (∀ e1 e2, P e1 e2 → jv_kind e2 = jv_kind e1) → keyed s2 ∧ update_view u (jobs_view s) (jobs_view s2)).
  { intros v P r2 s2 Hc HP. apply job_changed_view in Hc as [Hk2 Hc]; [|done]. split; [done|].
    destruct r2 as [snap2|e2]; [|by rewrite Hc]. destruct Hc as (e2 & Hl2 & _ & _ & HP2 & Hw2).
    right. exists e, (snap_view snap2). split; [done|]. rewrite Hid, Hw1, lookup_insert_eq in Hl2.
    apply (inj Some) in Hl2. subst e2. split.
    - rewrite (HP _ _ HP2). done.
    - by rewrite Hw2, Hid, Hw1, insert_insert_eq. }
  destruct (upd_enabled u && _); [|destruct (negb _ && _)].
  - apply st_try_Some in Hs as [(? & s2 & Hs2 & [-> ->]%st_ret_Some)|(? & Hs2 & ->)];
      apply enable_job_seen in Hs2; (eapply Hchange; [exact Hs2|naive_solver]).
  - apply st_try_Some in Hs as [(? & s2 & Hs2 & [-> ->]%st_ret_Some)|(? & Hs2 & ->)];
      apply disable_job_seen in Hs2; (eapply Hchange; [exact Hs2|by intros ? ? ->]).
  - apply st_ret_Some in Hs as [-> ->]. done.
Qed.

Lemma updates_view l s r s' :
  NoDup (upd_job_id <$> l) → st_for_try l apply_update s = Some (r, s') → keyed s →
  keyed s' ∧ ∀ id, jobs_view s' !! id = jobs_view s !! id ∨
    ∃ u e e', u ∈ l ∧ upd_job_id u = id ∧ jobs_view s !! id = Some e ∧ jobs_view s' !! id = Some e' ∧
      jv_kind e' = default (jv_kind e) (task_kind <$> patch_task (upd_patch u)).
Proof.
  revert s. induction l as [|u l IH]; intros s Hnd Hs Hk; cbn in Hs.
  { apply st_ret_Some in Hs as [-> ->]. split; [done|]. by left. }
  apply NoDup_cons in Hnd as [Hu Hnd].
  assert (Hone : ∀ s1, update_view u (jobs_view s) (jobs_view s1) → ∀ id,
    jobs_view s1 !! id = jobs_view s !! id ∨ upd_job_id u = id ∧ ∃ e e', jobs_view s !! id = Some e ∧
      jobs_view s1 !! id = Some e' ∧ jv_kind e' = default (jv_kind e) (task_kind <$> patch_task (upd_patch u))).
  { intros s1 [->|(e & e' & Hl & Hkd & ->)] id; [by left|]. destruct (decide (upd_job_id u = id)) as [<-|Hne].
    - right. split; [done|]. exists e, e'. by rewrite lookup_insert_eq.
    - left. by rewrite lookup_insert_ne. }
  apply st_try_Some in Hs as [([] & s1 & Hs1 & Hs)|(e & Hs1 & ->)];
    apply apply_update_view in Hs1 as [Hk1 H1]; try done.
  - destruct (IH s1 Hnd Hs Hk1) as [Hk' H2]. split; [done|]. intros id.
    destruct (H2 id) as [->|(u' & e & e' & Hin & Hid & Hl & Hl' & Hkd)].
    + destruct (Hone _ H1 id) as [->|(Hid & e & e' & ?)]; [by left|]. right. exists u, e, e'.
      split; [by left|]. tauto.
    + right. exists u', e, e'. split; [by right|]. split_and!; try done. rewrite <-Hl. symmetry.
      destruct (Hone _ H1 id) as [->|(Hid' & _)]; [done|]. exfalso. apply Hu. rewrite Hid', <-Hid.
      by apply list_elem_of_fmap_2.
  - split; [done|]. intros id. destruct (Hone _ H1 id) as [->|(Hid & e1 & e2 & ?)]; [by left|].
    right. exists u, e1, e2. split; [by left|]. tauto.
Qed.

(** An update that succeeds. *)
Lemma apply_update_done u s s' :
  apply_update u s = Some (Ok tt, s') → keyed s → ∃ e, jobs_view s' !! upd_job_id u = Some e ∧ update_done u e.
Proof.
  unfold apply_update. intros Hs Hk. apply st_try_Some in Hs as [(snap & s1 & Hu & Hs)|(? & _ & [=])].
  apply update_job_seen, job_changed_view in Hu; [|done]. destruct Hu as [Hk1 (e & Hl & _ & Hid & (_ & _ & Hkind) & Hw1)].
  assert (Hbase : ∀ task, patch_task (upd_patch u) = Some task → jv_kind (snap_view snap) = task_kind task).
  { intros task Ht. rewrite Hkind, Ht. done. }
  assert (Hat : jobs_view s1 !! upd_job_id u = Some (snap_view snap)) by (by rewrite Hw1, lookup_insert_eq).
  assert (Hchange : ∀ v P snap2 s2, job_changed (snap_id snap) v P (Ok snap2) s1 s2 →
    (∀ e1 e2, P e1 e2 → jv_kind e2 = jv_kind e1 ∧ (jv_state e2 = Enabled ↔ upd_enabled u = true)) →
    ∃ e, jobs_view s2 !! upd_job_id u = Some e ∧ update_done u e).
  { intros v P snap2 s2 Hc HP. apply job_changed_view in Hc as [_ (e2 & Hl2 & _ & _ & HP2 & Hw2)]; [|done]. rewrite Hid in *.
    rewrite Hat in Hl2. apply (inj Some) in Hl2. subst e2. destruct (HP _ _ HP2) as [Hk2 Hs2].
    exists (snap_view snap2). rewrite Hw2, lookup_insert_eq. split; [done|]. split; [|done]. intros task Ht. rewrite Hk2. by apply Hbase. }
  destruct (upd_enabled u) eqn:Een; cbn [andb negb] in Hs; st_case.
  - apply st_try_Some in Hs as [(snap2 & s2 & Hs2 & [_ ->]%st_ret_Some)|(? & _ & [=])].
    apply enable_job_seen in Hs2. eapply Hchange; [exact Hs2|]. naive_solver.
  - apply st_ret_Some in Hs as [_ ->]. exists (snap_view snap). split; [done|]. split; [done|]. rewrite Een. cbn. bools. split; [done|]. intros _. by apply dec_stable.
  - apply st_try_Some in Hs as [(snap2 & s2 & Hs2 & [_ ->]%st_ret_Some)|(? & _ & [=])].
    apply disable_job_seen in Hs2. eapply Hchange; [exact Hs2|]. by intros ? ? ->.
  - apply st_ret_Some in Hs as [_ ->]. exists (snap_view snap). split; [done|]. split; [done|]. rewrite Een. cbn. bools. split; [done|]. by intros [=].
Qed.

Lemma updates_done l s s' :
  NoDup (upd_job_id <$> l) → st_for_try l apply_update s = Some (Ok tt, s') → keyed s →
  ∀ u, u ∈ l → ∃ e, jobs_view s' !! upd_job_id u = Some e ∧ update_done u e.
Proof.
  revert s. induction l as [|u l IH]; intros s Hnd Hs Hk u' Hin; [set_solver|]. cbn in Hs. apply NoDup_cons in Hnd as [Hu Hnd].
  apply st_try_Some in Hs as [([] & s1 & Hs1 & Hs)|(? & _ & [=])].
  pose proof (apply_update_view _ _ _ _ Hs1 Hk) as [Hk1 _]. apply elem_of_cons in Hin as [->|Hin]; [|by eapply IH].
  apply apply_update_done in Hs1 as (e & He & Hd); [|done]. exists e. split; [|done].
  destruct (updates_view _ _ _ _ Hnd Hs Hk1) as [_ Hv]. destruct (Hv (upd_job_id u)) as [->|(u2 & ? & ? & Hin & Hid & _)]; [done|].
  exfalso. apply Hu. rewrite <-Hid. by apply list_elem_of_fmap_2.
Qed.

Lemma deletions_view l s r s' :
  st_for_try l (λ d, delete_job d.1 d.2 true) s = Some (r, s') → keyed s →
  keyed s' ∧ ∀ id, jobs_view s' !! id = jobs_view s !! id ∨ id ∈ l.*1 ∧ jobs_view s' !! id = None.
Proof.
  revert s. induction l as [|[i v] l IH]; intros s Hs Hk; cbn in Hs.
  { apply st_ret_Some in Hs as [-> ->]. split; [done|]. by left. }
  apply st_try_Some in Hs as [([] & s1 & Hs1 & Hs)|(e & Hs1 & ->)]; apply delete_job_seen in Hs1.
  - destruct Hs1 as [_ Hs1]. apply view_delete in Hs1 as [Hk1 H1]; [|done].
    destruct (IH s1 Hs Hk1) as [Hk' H2]. split; [done|]. intros id. cbn.
    destruct (H2 id) as [->|[? ?]]; [|right; split; [by right|done]]. rewrite H1.
    destruct (decide (id = i)) as [->|Hne]; [right; split; [by left|apply lookup_delete_eq]|].
    left. by rewrite lookup_delete_ne.
  - subst. split; [done|]. by left.
Qed.

Lemma additions_view l s r s' :
  st_for_try l apply_addition s = Some (r, s') → keyed s →
  keyed s' ∧ ∀ id, jobs_view s' !! id = jobs_view s !! id ∨
    ∃ a e', a ∈ l ∧ addn_job_id a = id ∧ jobs_view s' !! id = Some e' ∧ jv_kind e' = task_kind (addn_task a).
Proof.
  revert s. induction l as [|a l IH]; intros s Hs Hk; cbn in Hs.
  { apply st_ret_Some in Hs as [-> ->]. split; [done|]. by left. }
  assert (Hone : ∀ r1 s1, apply_addition a s = Some (r1, s1) → keyed s1 ∧ (jobs_view s1 = jobs_view s ∨
    ∃ e', jv_kind e' = task_kind (addn_task a) ∧ jobs_view s1 = <[addn_job_id a := e']> (jobs_view s))).
  { unfold apply_addition. intros r1 s1 Ha.
    apply st_try_Some in Ha as [(id & s2 & Ha & [-> ->]%st_ret_Some)|(e & Ha & ->)]; apply add_job_seen in Ha.
    - destruct Ha as (_ & _ & Ha). apply view_insert in Ha as [? Hw]; [|done]. split; [done|].
      right. eexists. split; [|exact Hw]. done.
    - apply view_same in Ha as [? Hw]; [|done]. split; [done|]. by left. }
  apply st_try_Some in Hs as [([] & s1 & Hs1 & Hs)|(e & Hs1 & ->)]; apply Hone in Hs1 as [Hk1 H1].
  - destruct (IH s1 Hs Hk1) as [Hk' H2]. split; [done|]. intros id.
    destruct (H2 id) as [Heq|(a' & e' & Hin & ?)]; [|right; exists a', e'; split; [by right|done]].
    rewrite Heq. destruct H1 as [->|(e' & Hkd & ->)]; [by left|].
    destruct (decide (addn_job_id a = id)) as [<-|Hne].
    + right. exists a, e'. rewrite lookup_insert_eq. split; [by left|done].
    + left. by rewrite lookup_insert_ne.
  - split; [done|]. intros id. destruct H1 as [->|(e' & Hkd & ->)]; [by left|].
    destruct (decide (addn_job_id a = id)) as [<-|Hne].
    + right. exists a, e'. rewrite lookup_insert_eq. split; [by left|done].
    + left. by rewrite lookup_insert_ne.
Qed.

(** Additions that succeed leave the other jobs alone. *)
Lemma additions_done l s s' :
  st_for_try l apply_addition s = Some (Ok tt, s') → keyed s →
  (∀ id e, jobs_view s !! id = Some e → jobs_view s' !! id = Some e) ∧
  ∀ a, a ∈ l → jobs_view s' !! addn_job_id a = Some (added a).
Proof.
  revert s. induction l as [|a l IH]; intros s Hs Hk; cbn in Hs.
  { apply st_ret_Some in Hs as [_ ->]. split; [done|]. set_solver. }
  apply st_try_Some in Hs as [([] & s1 & Hs1 & Hs)|(? & _ & [=])]. unfold apply_addition in Hs1.
  apply st_try_Some in Hs1 as [(id & s2 & Ha & [_ ->]%st_ret_Some)|(? & _ & [=])].
  apply add_job_seen in Ha as (_ & Hno & Ha). apply view_insert in Ha as [Hk1 Hw]; [|done].
  destruct (IH _ Hs Hk1) as [Hkeep Hall]. split.
  - intros i e Hi. apply Hkeep. rewrite Hw, lookup_insert_ne; [done|]. intros <-.
    by rewrite jobs_view_seen, lookup_fmap, Hno in Hi.
  - intros a' [->|Hin]%elem_of_cons; [|by apply Hall]. apply Hkeep. by rewrite Hw, lookup_insert_eq.
Qed.

End Views.

Section ReconcileView.
Context `{C : Chrono} `{H : HashOrder} `{HL : !HashOrderLaws H} `{R : Runtime}.

(** What the preliminary pass makes sure of. *)
Lemma precheck_updates_Ok touched l s touched' s' :
  precheck_updates touched l s = Some (Ok touched', s') →
  seen s' = seen s ∧ NoDup (upd_job_id <$> l) ∧
  ∀ u, u ∈ l → (upd_job_id u ∉ touched) ∧ is_Some (seen s !! upd_job_id u).
Proof.
  revert touched s. induction l as [|u l IH]; intros touched s Hs; cbn in Hs.
  { apply st_ret_Some in Hs as [_ ->]. split_and!; [done|constructor|]. set_solver. }
  destruct (bool_decide _) eqn:Hb; [by act_open|]. bools.
  apply st_try_Some in Hs as [(plan & s1 & Hp & Hs)|(? & _ & [=])].
  pose proof (plan_job_update_seen _ _ _ _ _ _ Hp) as H1. cbv beta in H1.
  apply plan_job_update_Ok in Hp as (j & Hj%seen_lookup & _).
  apply IH in Hs as (H2 & Hnd & Hall). rewrite H1 in *. split_and!; [done| |].
  - rewrite fmap_cons. apply NoDup_cons. split; [|done]. intros (u' & Hid & Hin)%list_elem_of_fmap.
    apply (Hall u' Hin). set_solver.
  - intros u' [->|Hin]%elem_of_cons; [by eauto|]. destruct (Hall u' Hin). split; [set_solver|done].
Qed.

Lemma precheck_additions_seen touched l : keeps seen (precheck_additions touched l).
Proof. revert touched. induction l; intros touched; cbn; follow. Qed.

Lemma precheck_updates_seen touched l : keeps seen (precheck_updates touched l).
Proof. revert touched. induction l; intros touched; cbn; follow. Qed.

Lemma check_version_seen id v : keeps seen (check_version id v).
Proof. unfold check_version. follow. Qed.
Hint Resolve precheck_additions_seen precheck_updates_seen check_version_seen : follows.

Lemma precheck_seen plan : keeps seen (precheck plan).
Proof. unfold precheck. follow. Qed.

Lemma precheck_Ok plan s s' :
  precheck plan s = Some (Ok tt, s') →
  seen s' = seen s ∧ NoDup (upd_job_id <$> plan_updates plan) ∧
  ∀ u, u ∈ plan_updates plan → (upd_job_id u ∉ (plan_deletions plan).*1) ∧ is_Some (seen s !! upd_job_id u).
Proof.
  intros Hs. pose proof (precheck_seen _ _ _ _ Hs) as H1. split; [exact H1|]. unfold precheck in Hs.
  st_case; [by act_open|].
  apply st_try_Some in Hs as [(touched & s1 & (_ & Hnd & Hall)%precheck_updates_Ok & _)|(? & _ & [=])].
  split; [done|]. intros u Hu. destruct (Hall u Hu). split; [|done]. set_solver.
Qed.

Lemma snapshots_view s (ids : list Z) :
  (∀ id, id ∈ ids → is_Some (ac_jobs s !! id)) → keyed s →
  (λ snap, (snap_id snap, Some (snap_view snap))) <$> omap (λ id, snapshot s <$> ac_jobs s !! id) ids =
  (λ id, (id, jobs_view s !! id)) <$> ids.
Proof.
  intros Hall Hk. induction ids as [|id ids IH]; [done|].
  destruct (Hall id) as [j Hj]; [by left|]. cbn. rewrite Hj. cbn. f_equal.
  - unfold jobs_view. rewrite lookup_fmap, Hj. cbn. by rewrite (Hk _ _ Hj).
  - apply IH. intros id' Hin. apply Hall. by right.
Qed.

Lemma reconcile_jobs_view plan s r s' :
  reconcile_jobs plan s = Some (r, s') → keyed s →
  keyed s' ∧ within_plan plan (jobs_view s) (jobs_view s') ∧
  match r with Ok snaps => plan_applied plan snaps (jobs_view s) (jobs_view s') | Err _ => True end.
Proof.
  intros Hs0 Hk. pose proof Hs0 as Hs. unfold reconcile_jobs in Hs. cbv zeta in Hs.
  apply st_try_Some in Hs as [([] & s1 & Hp & Hs)|(e & Hp & ->)].
  2:{ apply precheck_seen, view_same in Hp as [Hk1 Hw]; [|done]. rewrite Hw. split_and!; [done| |done]. by left. }
  apply precheck_Ok in Hp as (H1 & Hnd & Hall). apply view_same in H1 as [Hk1 H1]; [|done].
  apply st_try_Some in Hs as [([] & s2 & Hu & Hs)|(e & Hu & ->)]; pose proof Hu as Hu0;
    (apply updates_view in Hu as [Hk2 H2]; [|done..]); rewrite H1 in H2.
  2:{ split_and!; [done| |done]. intros id. destruct (H2 id); eauto. }
  apply st_try_Some in Hs as [([] & s3 & Hd & Hs)|(e & Hd & ->)];
    (apply deletions_view in Hd as [Hk3 H3]; [|done..]).
  2:{ split_and!; [done| |done]. intros id. destruct (H3 id) as [->|]; [|eauto]. destruct (H2 id); eauto. }
  assert (Hw3 : ∀ id, jobs_view s3 !! id = jobs_view s !! id ∨
    (id ∈ (plan_deletions plan).*1 ∧ jobs_view s3 !! id = None) ∨
    ∃ u e e', u ∈ plan_updates plan ∧ upd_job_id u = id ∧ jobs_view s !! id = Some e ∧
      jobs_view s3 !! id = Some e' ∧ jv_kind e' = default (jv_kind e) (task_kind <$> patch_task (upd_patch u))).
  { intros id. destruct (H3 id) as [->|]; [|eauto]. destruct (H2 id); eauto. }
  apply st_try_Some in Hs as [([] & s4 & Ha & Hs)|(e & Ha & ->)]; pose proof Ha as Ha0;
    (apply additions_view in Ha as [Hk4 H4]; [|done..]).
  2:{ split_and!; [done| |done]. intros id. destruct (H4 id) as [->|]; [|eauto 6].
      destruct (Hw3 id) as [|[|]]; eauto. }
  assert (Hwith : within_plan plan (jobs_view s) (jobs_view s4)).
  { intros id. destruct (H4 id) as [->|]; [|eauto 6]. destruct (Hw3 id) as [|[|]]; eauto. }
  apply st_bind_Some in Hs as (? & ? & [-> ->]%st_get_Some & [-> ->]%st_ret_Some).
  assert (Hdom : dom (jobs_view s4) = (dom (jobs_view s) ∖ list_to_set (plan_deletions plan).*1)
                 ∪ list_to_set (addn_job_id <$> plan_additions plan)).
  { unfold jobs_view. rewrite !dom_fmap_L. by apply (reconcile_job_ids plan s _ s4 Hs0). }
  apply additions_done in Ha0 as [Hkeep Hadded]; [|done].
  split_and!; [done|done|]. split; [done| | | |done].
  - intros id Hno Hnd'. unfold touched_ids in Hno. rewrite elem_of_app in Hno.
    destruct (Hwith id) as [|[[? _]|[(u & e & e' & Hin & Hid & _)|(a & e' & Hin & Hid & _)]]];
      [done|done|exfalso..]; apply Hno; [left|right]; rewrite <-Hid; by apply list_elem_of_fmap_2.
  - apply snapshots_view; [|done]. intros id Hin.
    enough (id ∈ dom (jobs_view s4)) as Hid
      by (unfold jobs_view in Hid; rewrite dom_fmap_L in Hid; by apply elem_of_dom).
    rewrite Hdom. apply elem_of_app in Hin as [(u & -> & Hin)%list_elem_of_fmap|Hin].
    + destruct (Hall u Hin) as [Hnot Hsome]. apply elem_of_union_l, elem_of_difference.
      split; [|set_solver]. apply elem_of_dom. rewrite jobs_view_seen, lookup_fmap. by apply fmap_is_Some.
    + set_solver.
  - intros u Hin. destruct (Hall u Hin) as [Hnot _]. eapply updates_done in Hu0 as (e & He & Hd); [|done..]. exists e. split; [|done].
    apply Hkeep. destruct (H3 (upd_job_id u)) as [->|[? _]]; done.
Qed.

(** ** The laws *)

Definition handle_inv (h : Handle) : Prop := match h with Some s => keyed s | None => True end.
Definition handle_view (h : Handle) : option (gmap Z JobView) := jobs_view <$> h.

Lemma request_leads {A} command (decode : Response → option (result SchedulerError A)) h
    (Q : result SchedulerError A → gmap Z JobView → gmap Z JobView → Prop) :
  (∀ s r b s', handle_command command s = Some (r, b, s') → keyed s →
     keyed s' ∧ Q (default (Err ErrClosed) (decode r)) (jobs_view s) (jobs_view s')) →
  leads handle_inv handle_view (request command decode h) h Q.
Proof.
  intros Hc Hk. unfold request. destruct h as [s|]; [|done].
  destruct (command_turn command s) as [[[r b] s']|] eqn:Hs; [|done]. cbn.
  unfold command_turn in Hs. apply st_bind_Some in Hs as (? & s1 & H1%restore_blocked_seen & Hs).
  apply st_bind_Some in Hs as (? & s2 & H2%dispatch_ready_seen & Hs).
  cbv beta in *. rewrite H1 in H2. apply view_same in H2 as [Hk2 Hw]; [|done].
  destruct (Hc _ _ _ _ Hs Hk2) as [Hk' HQ]. split; [done|]. exists (jobs_view s). by rewrite <-Hw.
Qed.

(** A command that is one operation, with its answer. *)
Lemma request_op {A} command (op : ST SchedulerActor (result SchedulerError A)) wrap decode h
    (Q : result SchedulerError A → gmap Z JobView → gmap Z JobView → Prop) :
  handle_command command = (r ← op; mret (wrap r, false)) → (∀ r, decode (wrap r) = Some r) →
  (∀ s r s', op s = Some (r, s') → keyed s → keyed s' ∧ Q r (jobs_view s) (jobs_view s')) →
  leads handle_inv handle_view (request command decode h) h Q.
Proof.
  intros Hc Hw Hop. apply request_leads. intros s r b s' Hs Hk. rewrite Hc in Hs.
  apply st_bind_Some in Hs as (a & s1 & Ha & [[= -> ->] ->]%st_ret_Some). rewrite Hw. by apply Hop.
Qed.

#[global] Instance handle_laws : SchedulerPortLaws Handle.
Proof.
  refine {| port_inv := handle_inv; view := handle_view |}.
  - intros id gen enabled trigger task options h.
    apply (request_op _ (add_job (Some id) gen enabled trigger task options) RespId); [done..|].
    intros s r s' Hs%add_job_seen Hk. destruct r as [id'|e]; [|by apply view_same].
    destruct Hs as (-> & Hno & Hs). apply view_insert in Hs as [? Hw]; [|done].
    split_and!; [done|done| |done]. by rewrite jobs_view_seen, lookup_fmap, Hno.
  - intros id v patch h. apply (request_op _ (update_job id v patch) RespSnapshot); [done..|].
    intros s r s' Hs%update_job_seen Hk. by apply job_changed_view in Hs.
  - intros id v h. apply (request_op _ (enable_job id v) RespSnapshot); [done..|].
    intros s r s' Hs%enable_job_seen Hk. by apply job_changed_view in Hs.
  - intros id v reason h. apply (request_op _ (disable_job id v reason) RespSnapshot); [done..|].
    intros s r s' Hs%disable_job_seen Hk. by apply job_changed_view in Hs.
  - intros id v h. apply (request_op _ (delete_job id v true) RespUnit); [done..|].
    intros s r s' Hs%delete_job_seen Hk. destruct r as [[]|e]; [|by subst].
    destruct Hs as [(i & e & Hl & Hv) Hs]. apply view_delete in Hs as [? Hw]; [|done].
    split_and!; [done| |done]. exists e. by apply seen_view in Hl as [_ ?].
  - intros id h. apply request_leads. intros s r b s' Hs Hk.
    apply st_bind_Some in Hs as (? & ? & [-> ->]%st_get_Some & [[= -> ->] ->]%st_ret_Some).
    cbn. split_and!; [done|done|]. unfold jobs_view. rewrite lookup_fmap. by destruct (ac_jobs s !! id).
  - intros h. apply request_leads. intros s r b s' Hs Hk.
    apply st_bind_Some in Hs as (? & ? & [-> ->]%st_get_Some & [[= -> ->] ->]%st_ret_Some).
    cbn. assert (Hin : ∀ j, j ∈ hash_values (ac_jobs s) ↔ ∃ id, ac_jobs s !! id = Some j).
    { intros j. unfold hash_values. rewrite list_elem_of_fmap. split.
      - intros ([id j'] & -> & Hin). rewrite hash_iter_perm in Hin. apply elem_of_map_to_list in Hin. eauto.
      - intros (id & Hj). exists (id, j). rewrite hash_iter_perm, elem_of_map_to_list. done. }
    split_and!; [done|done| |].
    + rewrite <-list_fmap_compose. unfold hash_values, compose. cbn.
      assert (Hfst : NoDup (hash_iter (ac_jobs s)).*1).
      { rewrite hash_iter_perm. apply NoDup_fst_map_to_list. }
      rewrite <-list_fmap_compose. erewrite list_fmap_ext; [exact Hfst|]. intros i [id j] Hi. cbn.
      apply list_elem_of_lookup_2 in Hi. rewrite hash_iter_perm in Hi.
      apply elem_of_map_to_list in Hi. exact (Hk _ _ Hi).
    + intros id e. unfold jobs_view. rewrite lookup_fmap_Some. split.
      * intros (j & <- & Hj). exists (snapshot s j). split_and!; [|by apply Hk|done].
        apply list_elem_of_fmap_2, Hin. eauto.
      * intros (snap & Hs & <- & <-). apply list_elem_of_fmap in Hs as (j & -> & (id & Hj)%Hin).
        exists j. split; [done|]. cbn. by rewrite (Hk _ _ Hj).
  - intros h. apply request_leads. intros s r b s' Hs Hk.
    apply st_bind_Some in Hs as (? & ? & [-> ->]%st_get_Some & [[= -> ->] ->]%st_ret_Some). done.
  - intros plan h. apply (request_op _ (reconcile_jobs plan) RespReconcile); [done..|].
    intros s r s' Hs Hk. by apply reconcile_jobs_view in Hs.
Defined.

End ReconcileView.
