(* ===== verification/RemoteJobs.v ===== *)
(** * The remote job controller

    [crates/smalux-agent/src/remote_jobs.rs]: the commands of the Server are checked,
    compiled and turned into scheduler calls; the controller keeps the catalog
    revision, the jobs it owns and the results of the last commands.

    The controller holds its state lock over a whole command, so each method is one
    step on the record [RemoteJobController].  It is written against the interface
    [SchedulerPort], of any state type: other work of the scheduler between two calls
    is part of that state. *)

From stdpp Require Import base gmap strings list pretty sorting.
From S2P Require Import Prelude StLogic Rotation Credential SchedModel Timing ReadyQueue Actor Engine.
From S2P Require Import Proto Catalog JobEvents Policy Compiler SchedulerPort.

(** [ManagedJob]. *)
Record ManagedJob : Type := mkManagedJob {
  mj_definition : JobDefinition;
  mj_revision : Z;
  mj_generation : Z;
  mj_task_kind : string;
  mj_plugin : option (string * string);
}.

Definition set_mj_generation (v : Z) (m : ManagedJob) : ManagedJob :=
  mkManagedJob (mj_definition m) (mj_revision m) v (mj_task_kind m) (mj_plugin m).

(** [ControllerState]. *)
Record ControllerState : Type := mkControllerState {
  cs_catalog_revision : Z;
  cs_remote_jobs : gmap Z ManagedJob;
  cs_cached_results : gmap Z JobCommandResult;
  cs_cache_order : list Z;
  cs_paused_plugins : gset (string * string);
}.

Definition default_controller_state : ControllerState := mkControllerState 0 ∅ ∅ [] ∅.

Definition set_cs_directory (revision : Z) (jobs : gmap Z ManagedJob) (s : ControllerState) : ControllerState :=
  mkControllerState revision jobs (cs_cached_results s) (cs_cache_order s) (cs_paused_plugins s).
Definition set_cs_remote_jobs (jobs : gmap Z ManagedJob) (s : ControllerState) : ControllerState :=
  set_cs_directory (cs_catalog_revision s) jobs s.
Definition set_cs_cache (results : gmap Z JobCommandResult) (order : list Z) (s : ControllerState) :
    ControllerState :=
  mkControllerState (cs_catalog_revision s) (cs_remote_jobs s) results order (cs_paused_plugins s).
Definition set_cs_paused (paused : gset (string * string)) (s : ControllerState) : ControllerState :=
  mkControllerState (cs_catalog_revision s) (cs_remote_jobs s) (cs_cached_results s) (cs_cache_order s) paused.

(** [ControlError]; the error is its text. *)
Record ControlError : Type := mkControlError {
  ce_status : JobCommandStatus;
  ce_code : JobCommandErrorCode;
  ce_error : string;
}.

Definition control_rejected (code : JobCommandErrorCode) (error : string) : ControlError :=
  mkControlError Rejected code error.
Definition control_resync (error : string) : ControlError :=
  mkControlError ResyncRequired RevisionConflict error.

(** [RemoteJobPolicyApplication]. *)
Record RemoteJobPolicyApplication : Type := mkPolicyApplication {
  pa_policy : RemoteJobPolicySnapshot;
  pa_affected_jobs : Z;
}.

(** [Display] of [PolicyDenial]. *)
Definition denial_text (d : PolicyDenial) : string :=
  match d with
  | AllRemoteJobs => "all remote jobs are disabled"
  | DeniedTaskKind kind => "task kind `" +:+ kind +:+ "` is denied by local policy"
  end.

(** ** Helpers *)

(** [require_next_catalog]; the addition is that of a release build. *)
Definition require_next_catalog (state : ControllerState) (revision : Z) : result ControlError unit :=
  if bool_decide (revision ≠ wrapping_add_u64 (cs_catalog_revision state) 1)
  then Err (control_resync "catalog revision must be exactly current + 1")
  else Ok tt.

(** [require_replace_all_catalog]. *)
Definition require_replace_all_catalog (state : ControllerState) (revision : Z) : result ControlError unit :=
  if bool_decide (revision = 0) || bool_decide (revision < cs_catalog_revision state)
  then Err (control_rejected RevisionConflict
              "replace-all catalog revision must be positive and not older than current")
  else Ok tt.

(** [full_patch]. *)
Definition full_patch (trigger : Trigger) (task : TaskBinding) (options : JobOptions) : JobPatch :=
  mkJobPatch (Some task) (Some trigger)
    (match opt_concurrency options with Some v => Set_ v | None => Inherit end)
    (match opt_max_pending options with Some v => Set_ v | None => Inherit end)
    (Some (opt_priority options)) (opt_coalescing options) (opt_capacity options)
    (Some (opt_retry options)) (Some (opt_failure options)) Recalculate.

Definition CACHE_CAPACITY : nat := 1024.

(** The loop of [cache_result]; every turn shortens the order. *)
Fixpoint evict (fuel : nat) (results : gmap Z JobCommandResult) (order : list Z) :
    gmap Z JobCommandResult * list Z :=
  match fuel with
  | O => (results, order)
  | S fuel =>
      if bool_decide (CACHE_CAPACITY < length order)%nat then
        match order with
        | expired :: order => evict fuel (delete expired results) order
        | [] => (results, order)
        end
      else (results, order)
  end.

(** [cache_result]. *)
Definition cache_result (id : Uuid) (result : JobCommandResult) (state : ControllerState) : ControllerState :=
  let order := cs_cache_order state ++ [id] in
  let '(results, order) := evict (length order) (<[id := result]> (cs_cached_results state)) order in
  set_cs_cache results order state.

(** [should_cache_result]. *)
Definition should_cache_result (result : JobCommandResult) : bool :=
  match jr_error result with
  | None => true
  | Some error =>
      negb (bool_decide (jce_code error = SchedulerUnavailable)
            || bool_decide (jce_code error = CapacityExceeded))
  end.

(** [invalid_job] and [local_policy_error]. *)
Definition invalid_job (message : string) : ControlError := control_rejected InvalidJob message.
Definition local_policy_error (denial : PolicyDenial) : ControlError :=
  control_rejected LocalPolicyDenied (denial_text denial).

(** [command_error]. *)
Definition command_error (command_id : bytes) (catalog_revision : Z) (status : JobCommandStatus)
    (code : JobCommandErrorCode) (error : string) : JobCommandResult :=
  mkJobCommandResult command_id status catalog_revision None (Some (mkJobCommandError code error)).

(** [try_into().unwrap_or(u32::MAX)]. *)
Definition saturate_u32 (x : Z) : Z := if bool_decide (x ≤ u32_max) then x else u32_max.

(** [job_status]. *)
Definition job_status (snapshot : JobSnapshot) (revision : Z) : JobStatus :=
  let '(state, disabled_reason) :=
    match snap_state snapshot with
    | Enabled => (RtEnabled, "")
    | Completed => (RtCompleted, "")
    | Disabled reason => (RtDisabled, reason)
    end in
  mkJobStatus (uuid_bytes (snap_id snapshot)) revision (snap_task_kind snapshot) state disabled_reason
    (saturate_u32 (snap_concurrency snapshot)) (saturate_u32 (snap_max_pending snapshot))
    (saturate_u32 (snap_running_count snapshot)) (saturate_u32 (snap_pending_count snapshot))
    (snap_consecutive_failures snapshot) (timestamp_message <$> snap_next_run_at snapshot)
    (timestamp_message <$> snap_last_started_at snapshot)
    (timestamp_message <$> snap_last_finished_at snapshot)
    (default "" (snap_last_outcome snapshot)) (Some (timestamp_message (snap_created_at snapshot)))
    (Some (timestamp_message (snap_updated_at snapshot))).

(** ** [smalux-protocol/src/reconciliation.rs] *)

(** [prost::Message::encode_to_vec] of the catalog. *)
Class CatalogEncoding : Type := encode_replace_all : ReplaceAllJobs → bytes.

(** [digest_message] and [catalog_digest]. *)
Definition catalog_digest `{CatalogEncoding} `{Blake2s} (catalog : ReplaceAllJobs) : bytes :=
  blake2s (encode_replace_all
    (mkReplaceAllJobs (ra_catalog_revision catalog) (merge_sort definition_le (ra_jobs catalog)))).

(** ** The controller *)

Record RemoteJobController (S : Type) : Type := mkController {
  rc_scheduler : S;
  rc_state : ControllerState;
  rc_policy : PolicyManager;
}.
Arguments mkController {S}.
Arguments rc_scheduler {S}.
Arguments rc_state {S}.
Arguments rc_policy {S}.

Section Controller.
Context `{C : Chrono} `{H : HashOrder} `{R : Runtime} `{B : TaskBuilders} {S : Type} `{P : !SchedulerPort S}.

Abbreviation RC A := (ST (RemoteJobController S) A) (only parsing).
Abbreviation RCE A := (ST (RemoteJobController S) (result ControlError A)) (only parsing).

(** [RemoteJobController::with_policy_manager_and_plugins]. *)
Definition controller_new (scheduler : S) (policy : PolicyManager) : RemoteJobController S :=
  mkController scheduler default_controller_state policy.

Definition modify_state (f : ControllerState → ControllerState) : RC unit :=
  st_modify (λ c, mkController (rc_scheduler c) (f (rc_state c)) (rc_policy c)).

(** A call of the scheduler. *)
Definition scheduler_call {A} (op : Call S A) : ST (RemoteJobController S) (result SchedulerError A) := λ c,
  let '(r, s) := op (rc_scheduler c) in Some (r, mkController s (rc_state c) (rc_policy c)).

(** [scheduler_error]. *)
Definition scheduler_error (error : SchedulerError) : ControlError :=
  control_rejected
    match error with
    | JobNotFound _ => NotFound
    | JobAlreadyExists _ => OwnershipConflict
    | VersionConflict _ _ _ => RevisionConflict
    | MaximumJobsReached _ => CapacityExceeded
    | _ => SchedulerUnavailable
    end (error_text error).

(** A call with [map_err(scheduler_error)]. *)
Definition control_call {A} (op : Call S A) : RCE A :=
  r ← scheduler_call op; mret (map_err scheduler_error r).

(** [catalog_reconcile_state]. *)
Definition catalog_reconcile_state `{CatalogEncoding} `{Blake2s} (c : RemoteJobController S) : Z * bytes :=
  let state := rc_state c in
  if bool_decide (cs_catalog_revision state = 0) then (0, [])
  else
    (cs_catalog_revision state,
     catalog_digest (mkReplaceAllJobs (cs_catalog_revision state)
                       (mj_definition <$> hash_values (cs_remote_jobs state)))).

(** [set_enabled]. *)
Definition set_enabled (snapshot : JobSnapshot) (enabled : bool) :
    ST (RemoteJobController S) (result SchedulerError JobSnapshot) :=
  match enabled, snap_state snapshot with
  | true, Enabled | false, Disabled _ => mret (Ok snapshot)
  | true, _ => scheduler_call (sched_enable (snap_id snapshot) (snap_version snapshot))
  | false, _ =>
      scheduler_call (sched_disable (snap_id snapshot) (snap_version snapshot) "disabled by job definition")
  end.

(** [upsert_compiled]: the update of a job the controller owns, and the installation
    of a new one. *)
Definition update_owned (current : ManagedJob) (compiled : CompiledJob) : RCE JobSnapshot :=
  snapshot ?← control_call (sched_update (cj_id compiled) (mj_generation current)
                (full_patch (cj_trigger compiled) (cj_task compiled) (cj_options compiled)));
  r ← set_enabled snapshot (cj_enabled compiled);
  mret (map_err scheduler_error r).

Definition install_new (compiled : CompiledJob) : RCE JobSnapshot :=
  _ ?← control_call (sched_install (cj_id compiled) 1 (cj_enabled compiled) (cj_trigger compiled)
                       (cj_task compiled) (cj_options compiled));
  found ?← control_call (sched_get (cj_id compiled));
  mret (ok_or (control_rejected SchedulerUnavailable "installed job is missing") found).

Definition managed (compiled : CompiledJob) (generation : Z) : ManagedJob :=
  mkManagedJob (cj_definition compiled) (cj_revision compiled) generation (cj_task_kind compiled)
    (cj_plugin compiled).

Definition upsert_compiled (compiled : CompiledJob) (require_increase : bool) : RCE JobStatus :=
  c ← st_get;
  snapshot ?← match cs_remote_jobs (rc_state c) !! cj_id compiled with
    | Some current =>
        if bool_decide (cj_revision compiled < mj_revision current)
           || (require_increase && bool_decide (cj_revision compiled = mj_revision current))
        then mret (Err (control_rejected RevisionConflict "job revision must increase"))
        else update_owned current compiled
    | None => install_new compiled
    end;
  modify_state (λ s, set_cs_remote_jobs
    (<[cj_id compiled := managed compiled (snap_version snapshot)]> (cs_remote_jobs s)) s) ;;
  mret (Ok (job_status snapshot (cj_revision compiled))).

(** [upsert]. *)
Definition upsert (command : UpsertJob) : RCE (option JobStatus) :=
  c ← st_get;
  _ ?← mret (require_next_catalog (rc_state c) (up_catalog_revision command));
  definition ?← mret (ok_or (invalid_job "upsert job is required") (up_job command));
  _ ?← mret (map_err local_policy_error (check_definition (pm_policy (rc_policy c)) definition));
  compiled ?← mret (map_err (control_rejected InvalidJob) (compile_job definition));
  status ?← upsert_compiled compiled true;
  modify_state (λ s, set_cs_directory (up_catalog_revision command) (cs_remote_jobs s) s) ;;
  mret (Ok (Some status)).

(** The job a command names, at the revision it expects. *)
Definition find_expected (state : ControllerState) (job_id : bytes) (expected_revision : Z) :
    result ControlError (Uuid * ManagedJob) :=
  id ← map_err (control_rejected InvalidCommand) (parse_uuid job_id "job_id");
  current ← ok_or (control_rejected NotFound "remote job was not found") (cs_remote_jobs state !! id);
  if bool_decide (expected_revision ≠ mj_revision current)
  then Err (control_rejected RevisionConflict "expected revision does not match")
  else Ok (id, current).

(** [delete]. *)
Definition delete_remote (command : DeleteJob) : RCE (option JobStatus) :=
  c ← st_get;
  _ ?← mret (require_next_catalog (rc_state c) (dl_catalog_revision command));
  found ?← mret (find_expected (rc_state c) (dl_job_id command) (dl_expected_revision command));
  let '(id, current) := found in
  _ ?← control_call (sched_delete id (mj_generation current));
  modify_state (λ s, set_cs_directory (dl_catalog_revision command) (delete id (cs_remote_jobs s)) s) ;;
  mret (Ok None).

(** [run_now]. *)
Definition run_now (command : RunJobNow) : RCE (option JobStatus) :=
  c ← st_get;
  found ?← mret (find_expected (rc_state c) (rn_job_id command) (rn_expected_revision command));
  let '(id, current) := found in
  _ ?← mret (map_err local_policy_error (check_installed (pm_policy (rc_policy c)) (mj_task_kind current)));
  let patch := mkJobPatch None None Keep Keep None None None None None RunNowMode in
  snapshot ?← control_call (sched_update id (mj_generation current) patch);
  modify_state (λ s, set_cs_remote_jobs
    (<[id := set_mj_generation (snap_version snapshot) current]> (cs_remote_jobs s)) s) ;;
  mret (Ok (Some (job_status snapshot (mj_revision current)))).

(** *** [replace_all] *)

(** The first phase: every definition is checked and compiled; [ids] and [jobs] are
    the set and the vector the loop fills. *)
Fixpoint compile_all (policy : RemoteJobPolicy) (definitions : list JobDefinition) (ids : gset Z)
    (jobs : list CompiledJob) : result ControlError (gset Z * list CompiledJob) :=
  match definitions with
  | [] => Ok (ids, jobs)
  | job :: definitions =>
      id ← map_err (control_rejected InvalidJob) (parse_uuid (jd_job_id job) "job_id");
      _ ← (if bool_decide (id ∈ ids)
           then Err (control_rejected InvalidJob "replace_all contains duplicate job_id") else Ok tt);
      _ ← map_err local_policy_error (check_definition policy job);
      compiled ← map_err (control_rejected InvalidJob) (compile_job job);
      compile_all policy definitions ({[id]} ∪ ids) (jobs ++ [compiled])
  end.

(** [snapshots.iter().map(|snapshot| (id, version)).collect::<HashMap<_, _>>()]. *)
Definition collect_versions (snapshots : list JobSnapshot) : gmap Z Z :=
  foldl (λ m snapshot, <[snap_id snapshot := snap_version snapshot]> m) ∅ snapshots.

(** The jobs the controller owns are in the scheduler at the generation it knows. *)
Fixpoint check_generations (versions : gmap Z Z) (jobs : list (Z * ManagedJob)) : result ControlError unit :=
  match jobs with
  | [] => Ok tt
  | (id, managed) :: jobs =>
      match versions !! id with
      | Some version =>
          if bool_decide (version = mj_generation managed) then check_generations versions jobs
          else Err (control_rejected RevisionConflict
                      ("Scheduler generation for " +:+ fmt_uuid id +:+ " changed from "
                         +:+ pretty (mj_generation managed) +:+ " to " +:+ pretty version))
      | None =>
          Err (control_rejected SchedulerUnavailable
                 ("remote Job " +:+ fmt_uuid id +:+ " is missing from Scheduler"))
      end
  end.

(** No job of the command is a local job of the scheduler. *)
Fixpoint check_ownership (remote : gmap Z ManagedJob) (versions : gmap Z Z) (ids : list Z) :
    result ControlError unit :=
  match ids with
  | [] => Ok tt
  | id :: ids =>
      if bool_decide (remote !! id = None) && bool_decide (is_Some (versions !! id))
      then Err (control_rejected OwnershipConflict
                  ("Job " +:+ fmt_uuid id +:+ " is owned by local Scheduler configuration"))
      else check_ownership remote versions ids
  end.

(** The updates and additions of the plan. *)
Definition update_of (current : ManagedJob) (compiled : CompiledJob) : SchedulerReconcileUpdate :=
  mkReconcileUpdate (cj_id compiled) (mj_generation current)
    (full_patch (cj_trigger compiled) (cj_task compiled) (cj_options compiled)) (cj_enabled compiled).

Definition addition_of (compiled : CompiledJob) : SchedulerReconcileAddition :=
  mkReconcileAddition (cj_id compiled) (cj_enabled compiled) (cj_trigger compiled) (cj_task compiled)
    (cj_options compiled).

Fixpoint build_plan (remote : gmap Z ManagedJob) (jobs : list CompiledJob)
    (updates : list SchedulerReconcileUpdate) (additions : list SchedulerReconcileAddition) :
    result ControlError (list SchedulerReconcileUpdate * list SchedulerReconcileAddition) :=
  match jobs with
  | [] => Ok (updates, additions)
  | compiled :: jobs =>
      match remote !! cj_id compiled with
      | Some current =>
          if bool_decide (cj_revision compiled < mj_revision current)
          then Err (control_rejected RevisionConflict "job revision must not move backwards")
          else if bool_decide (cj_revision compiled = mj_revision current)
                  && bool_decide (cj_definition compiled ≠ mj_definition current)
          then Err (control_rejected RevisionConflict "same job revision contains different definition")
          else if bool_decide (cj_definition compiled ≠ mj_definition current)
          then build_plan remote jobs (updates ++ [update_of current compiled]) additions
          else build_plan remote jobs updates additions
      | None => build_plan remote jobs updates (additions ++ [addition_of compiled])
      end
  end.

(** The new index of owned jobs. *)
Fixpoint new_index (remote : gmap Z ManagedJob) (applied : gmap Z Z) (jobs : list CompiledJob)
    (index : gmap Z ManagedJob) : result ControlError (gmap Z ManagedJob) :=
  match jobs with
  | [] => Ok index
  | compiled :: jobs =>
      let unchanged :=
        match remote !! cj_id compiled with
        | Some current =>
            if bool_decide (mj_definition current = cj_definition compiled)
            then Some (mj_generation current) else None
        | None => None
        end in
      generation ← ok_or (control_rejected SchedulerUnavailable
                            "reconciled Job is missing from Scheduler result")
                     (match unchanged with Some g => Some g | None => applied !! cj_id compiled end);
      new_index remote applied jobs (<[cj_id compiled := managed compiled generation]> index)
  end.

(** [replace_all]. *)
Definition replace_all (command : ReplaceAllJobs) : RCE (option JobStatus) :=
  c ← st_get;
  let state := rc_state c in
  _ ?← mret (require_replace_all_catalog state (ra_catalog_revision command));
  checked ?← mret (compile_all (pm_policy (rc_policy c)) (ra_jobs command) ∅ []);
  let '(ids, compiled_jobs) := checked in
  snapshots ?← control_call sched_list;
  let versions := collect_versions snapshots in
  _ ?← mret (check_generations versions (hash_iter (cs_remote_jobs state)));
  _ ?← mret (check_ownership (cs_remote_jobs state) versions (hash_keys (gset_to_gmap tt ids)));
  config ?← control_call sched_get_config;
  let retained := saturating_sub (zlen snapshots) (zsize (cs_remote_jobs state)) in
  let final_job_count := saturating_add usize_max retained (Z.of_nat (size ids)) in
  if bool_decide (max_jobs (csnap_config config) < final_job_count) then
    mret (Err (control_rejected CapacityExceeded
                 ("replace-all would create " +:+ pretty final_job_count
                    +:+ " Jobs, exceeding the Scheduler limit " +:+ pretty (max_jobs (csnap_config config)))))
  else
    changes ?← mret (build_plan (cs_remote_jobs state) compiled_jobs [] []);
    let deletions := filter (λ im, im.1 ∉ ids) (hash_iter (cs_remote_jobs state)) in
    let plan := mkReconcilePlan changes.1 changes.2
                  ((λ im, (im.1, mj_generation im.2)) <$> deletions) in
    applied ?← control_call (sched_reconcile plan);
    index ?← mret (new_index (cs_remote_jobs state) (collect_versions applied) compiled_jobs ∅);
    modify_state (set_cs_directory (ra_catalog_revision command) index) ;;
    mret (Ok None).

(** *** Commands *)

(** [apply_locked]. *)
Definition apply_locked (command : JobCommand) : RC JobCommandResult :=
  r ← match jc_action command with
      | Some (ActUpsert value) => upsert value
      | Some (ActDelete value) => delete_remote value
      | Some (ActRunNow value) => run_now value
      | Some (ActReplaceAll value) => replace_all value
      | None => mret (Err (control_rejected InvalidCommand "job command action is required"))
      end;
  c ← st_get;
  mret (match r with
        | Ok status =>
            mkJobCommandResult (jc_command_id command) Applied (cs_catalog_revision (rc_state c)) status None
        | Err error =>
            command_error (jc_command_id command) (cs_catalog_revision (rc_state c)) (ce_status error)
              (ce_code error) (ce_error error)
        end).

(** [apply_command]. *)
Definition apply_command (command : JobCommand) : RC JobCommandResult :=
  match parse_uuid (jc_command_id command) "command_id" with
  | Err error => mret (command_error (jc_command_id command) 0 Rejected InvalidCommand error)
  | Ok command_id =>
      c ← st_get;
      match cs_cached_results (rc_state c) !! command_id with
      | Some result => mret result
      | None =>
          result ← apply_locked command;
          (if should_cache_result result then modify_state (cache_result command_id result) else mret tt) ;;
          mret result
      end
  end.

(** *** Local operations *)

(** [update_policy]; [ok] are the outcomes of the file operations. *)
Fixpoint disable_denied (snapshot : RemoteJobPolicySnapshot) (jobs : list (Z * ManagedJob)) (affected : Z) :
    ST (RemoteJobController S) (result string Z) :=
  match jobs with
  | [] => mret (Ok affected)
  | (id, managed) :: jobs =>
      if negb (snapshot_denies snapshot (mj_task_kind managed)) then disable_denied snapshot jobs affected
      else
        r ← scheduler_call (sched_disable id (mj_generation managed) "disabled by local Agent Job policy");
        match r with
        | Err e => mret (Err (error_text e))
        | Ok snap =>
            modify_state (λ s, set_cs_remote_jobs
              (alter (set_mj_generation (snap_version snap)) id (cs_remote_jobs s)) s) ;;
            disable_denied snapshot jobs (affected + 1)
        end
  end.

Definition update_policy (ok : nat → bool) (change : RemoteJobPolicyChange) :
    ST (RemoteJobController S) (result string RemoteJobPolicyApplication) := λ c,
  match policy_apply ok change (rc_policy c) with
  | None => None
  | Some (Err e, m) => Some (Err e, mkController (rc_scheduler c) (rc_state c) m)
  | Some (Ok update, m) =>
      let c := mkController (rc_scheduler c) (rc_state c) m in
      if negb (pu_changed update) then Some (Ok (mkPolicyApplication (pu_snapshot update) 0), c)
      else
        (affected ?← disable_denied (pu_snapshot update) (hash_iter (cs_remote_jobs (rc_state c))) 0;
         mret (Ok (mkPolicyApplication (pu_snapshot update) affected))) c
  end.

(** [list_jobs]. *)
Definition status_le (a b : JobStatus) : Prop := bytes_le (js_job_id a) (js_job_id b).
#[global] Instance status_le_dec : RelDecision status_le.
Proof. intros a b. unfold status_le. apply _. Defined.

Definition list_jobs : ST (RemoteJobController S) (result SchedulerError (list JobStatus)) :=
  c ← st_get;
  let managed_jobs := cs_remote_jobs (rc_state c) in
  snapshots ?← scheduler_call sched_list;
  mret (Ok (merge_sort status_le
    (omap (λ snapshot, (λ m, job_status snapshot (mj_revision m)) <$> managed_jobs !! snap_id snapshot)
       snapshots))).

(** [clear_remote_jobs]. *)
Fixpoint clear_loop (jobs : list (Z * ManagedJob)) : ST (RemoteJobController S) (result string unit) :=
  match jobs with
  | [] => mret (Ok tt)
  | (job_id, managed) :: jobs =>
      r ← scheduler_call (sched_delete job_id (mj_generation managed));
      match r with
      | Ok _ =>
          modify_state (λ s, set_cs_remote_jobs (delete job_id (cs_remote_jobs s)) s) ;;
          clear_loop jobs
      | Err e => mret (Err (error_text e))
      end
  end.

Definition clear_remote_jobs : ST (RemoteJobController S) (result string unit) :=
  c ← st_get;
  _ ?← clear_loop (hash_iter (cs_remote_jobs (rc_state c)));
  modify_state (λ s, set_cs_directory 0 (cs_remote_jobs s) s) ;;
  mret (Ok tt).

(** [pause_plugin] and [resume_plugin]. *)
Fixpoint pause_loop (jobs : list (Z * ManagedJob)) (affected : Z) :
    ST (RemoteJobController S) (result string Z) :=
  match jobs with
  | [] => mret (Ok affected)
  | (job_id, managed) :: jobs =>
      r ← scheduler_call (sched_disable job_id (mj_generation managed)
                            "Plus Worker paused after repeated failures");
      match r with
      | Err e => mret (Err (error_text e))
      | Ok snap =>
          modify_state (λ s, set_cs_remote_jobs
            (alter (set_mj_generation (snap_version snap)) job_id (cs_remote_jobs s)) s) ;;
          pause_loop jobs (affected + 1)
      end
  end.

Definition pause_plugin (plugin_id plugin_version : string) : ST (RemoteJobController S) (result string Z) :=
  c ← st_get;
  if bool_decide ((plugin_id, plugin_version) ∈ cs_paused_plugins (rc_state c)) then mret (Ok 0)
  else
    let matching :=
      filter (λ im, mj_plugin im.2 = Some (plugin_id, plugin_version))
        (hash_iter (cs_remote_jobs (rc_state c))) in
    affected ?← pause_loop matching 0;
    modify_state (λ s, set_cs_paused ({[(plugin_id, plugin_version)]} ∪ cs_paused_plugins s) s) ;;
    mret (Ok affected).

Definition resume_plugin (plugin_id plugin_version : string) : RC unit :=
  modify_state (λ s, set_cs_paused (cs_paused_plugins s ∖ {[(plugin_id, plugin_version)]}) s).

End Controller.
