(* ===== verification/RemoteTheorems.v ===== *)
(** * What the remote job controller guarantees

    First for every scheduler, whatever it answers: commands are applied at most once
    and move the catalog as its specification says.  Then for a scheduler that keeps
    the laws of [SchedulerPort.v]: the local policy is enforced, a replaced catalog
    and the scheduler agree, and what follows when they do not. *)

From stdpp Require Import base gmap strings list pretty sorting.
From S2P Require Import Prelude StLogic Rotation Credential SchedModel Timing ReadyQueue Actor Engine Demo.
From S2P Require Import AgentState Proto Catalog JobEvents Policy Compiler SchedulerPort RemoteJobs.

(** ** What each part of the controller leaves alone *)

Section Frames.
Context `{C : Chrono} `{H : HashOrder} `{R : Runtime} `{B : TaskBuilders} {S : Type} `{P : !SchedulerPort S}.

Lemma scheduler_call_state {A} (op : Call S A) : keeps rc_state (scheduler_call op).
Proof. intros c a c'. unfold scheduler_call. destruct (op _). by intros [= <- <-]. Qed.

Lemma scheduler_call_policy {A} (op : Call S A) : keeps rc_policy (scheduler_call op).
Proof. intros c a c'. unfold scheduler_call. destruct (op _). by intros [= <- <-]. Qed.

Lemma modify_state_policy f : keeps rc_policy (modify_state (S := S) f).
Proof. by apply follows_modify. Qed.

Hint Resolve @scheduler_call_state @scheduler_call_policy modify_state_policy : follows.

Lemma control_call_state {A} (op : Call S A) : keeps rc_state (control_call op).
Proof. unfold control_call. follow. Qed.
Lemma control_call_policy {A} (op : Call S A) : keeps rc_policy (control_call op).
Proof. unfold control_call. follow. Qed.
Hint Resolve @control_call_state @control_call_policy : follows.

Lemma set_enabled_state snap e : keeps rc_state (set_enabled snap e).
Proof. unfold set_enabled. follow. Qed.
Lemma set_enabled_policy snap e : keeps rc_policy (set_enabled snap e).
Proof. unfold set_enabled. follow. Qed.
Hint Resolve set_enabled_state set_enabled_policy : follows.

Lemma update_owned_state cur c : keeps rc_state (update_owned cur c).
Proof. unfold update_owned. follow. Qed.
Lemma install_new_state c : keeps rc_state (install_new c).
Proof. unfold install_new. follow. Qed.

Lemma apply_locked_policy cmd : keeps rc_policy (apply_locked cmd).
Proof.
  unfold apply_locked, upsert, upsert_compiled, update_owned, install_new, delete_remote, run_now, replace_all.
  follow.
Qed.

Lemma modify_state_Some f c a c' :
  modify_state (S := S) f c = Some (a, c') ↔ c' = mkController (rc_scheduler c) (f (rc_state c)) (rc_policy c).
Proof. unfold modify_state. by rewrite st_modify_Some. Qed.

End Frames.
#[export] Hint Resolve scheduler_call_state scheduler_call_policy modify_state_policy control_call_state
  control_call_policy set_enabled_state set_enabled_policy update_owned_state install_new_state
  apply_locked_policy : follows.

(** Opens the next [?←] of a hypothesis: the step that succeeded, or the error. *)
Ltac try_step Hs a c H :=
  apply st_try_Some in Hs as [(a & c & H & Hs)|(?e & H & ->)].
(** The same for a step that only computes. *)
Ltac pure_step Hs a H :=
  apply st_try_Some in Hs as [(a & ? & [H ->]%st_ret_Some & Hs)|(?e & [_ ->]%st_ret_Some & ->)];
  [symmetry in H|done].

(** ** The cache of results *)

(** At most [CACHE_CAPACITY] results, in the order in which they were stored. *)
Record cache_wf (s : ControllerState) : Prop := {
  cw_nodup : NoDup (cs_cache_order s);
  cw_dom : dom (cs_cached_results s) = list_to_set (cs_cache_order s);
  cw_size : (length (cs_cache_order s) ≤ CACHE_CAPACITY)%nat;
}.

Definition cache (s : ControllerState) : gmap Z JobCommandResult * list Z :=
  (cs_cached_results s, cs_cache_order s).

(** Storing one result drops the oldest when the cache is full. *)
Lemma cache_result_eq id r s :
  (length (cs_cache_order s) ≤ CACHE_CAPACITY)%nat →
  cache (cache_result id r s) =
    match cs_cache_order s with
    | old :: order =>
        if bool_decide (length (cs_cache_order s) = CACHE_CAPACITY)
        then (delete old (<[id := r]> (cs_cached_results s)), order ++ [id])
        else (<[id := r]> (cs_cached_results s), cs_cache_order s ++ [id])
    | [] => (<[id := r]> (cs_cached_results s), [id])
    end.
Proof.
  unfold cache_result. intros Hl. destruct (cs_cache_order s) as [|old order] eqn:Ho; [done|].
  cbn [app length evict]. rewrite length_app. cbn [length] in *.
  case_bool_decide as Hc; case_bool_decide as Hf; try lia; [|done].
  replace (length order + 1)%nat with (Datatypes.S (length order)) by lia. cbn [evict].
  rewrite length_app. cbn [length]. rewrite bool_decide_eq_false_2 by lia. done.
Qed.

Lemma cache_result_wf id r s :
  cs_cached_results s !! id = None → cache_wf s → cache_wf (cache_result id r s).
Proof.
  intros Hno [Hnd Hdom Hl]. pose proof (cache_result_eq id r s Hl) as Hc.
  assert (Hid : id ∉ cs_cache_order s).
  { rewrite <-(elem_of_list_to_set (C := gset Z)), <-Hdom. by apply not_elem_of_dom. }
  destruct (cs_cache_order s) as [|old order] eqn:Ho; [|case_bool_decide as Hf]; injection Hc as Hr Ho'.
  - split; rewrite ?Hr, ?Ho'; [apply NoDup_singleton| |cbn; unfold CACHE_CAPACITY; lia].
    rewrite dom_insert_L, Hdom. set_solver.
  - apply NoDup_cons in Hnd as [Hold Hnd]. split; rewrite ?Hr, ?Ho'.
    + apply NoDup_app. split_and!; [done| |apply NoDup_singleton]. set_solver.
    + rewrite dom_delete_L, dom_insert_L, Hdom. set_solver.
    + rewrite length_app. cbn in *. lia.
  - change (old :: order ++ [id]) with ((old :: order) ++ [id]) in Ho'. split; rewrite ?Hr, ?Ho'.
    + apply NoDup_app. split_and!; [done| |apply NoDup_singleton]. set_solver.
    + rewrite dom_insert_L, Hdom. set_solver.
    + rewrite length_app. cbn in *. unfold CACHE_CAPACITY in *. lia.
Qed.

(** A stored result with at most [n] newer ones. *)
Definition stored (id : Z) (r : JobCommandResult) (n : nat) (s : ControllerState) : Prop :=
  cs_cached_results s !! id = Some r ∧
  ∃ older newer, cs_cache_order s = older ++ id :: newer ∧ (length newer ≤ n)%nat.

Lemma cache_result_stored id r s :
  cs_cached_results s !! id = None → cache_wf s → stored id r 0 (cache_result id r s).
Proof.
  intros Hno [Hnd Hdom Hl]. pose proof (cache_result_eq id r s Hl) as Hc.
  assert (Hid : id ∉ cs_cache_order s).
  { rewrite <-(elem_of_list_to_set (C := gset Z)), <-Hdom. by apply not_elem_of_dom. }
  unfold stored. destruct (cs_cache_order s) as [|old order] eqn:Ho; [|case_bool_decide as Hf];
    injection Hc as Hr Ho'; rewrite Hr, Ho'; split.
  - apply lookup_insert_eq.
  - by exists [], [].
  - rewrite lookup_delete_ne by set_solver. apply lookup_insert_eq.
  - by exists order, [].
  - apply lookup_insert_eq.
  - by exists (old :: order), [].
Qed.

Lemma cache_result_keeps id r id' r' n s :
  (n < CACHE_CAPACITY - 1)%nat → cs_cached_results s !! id' = None → cache_wf s →
  stored id r n s → stored id r (Datatypes.S n) (cache_result id' r' s).
Proof.
  intros Hn Hno Hwf (Hs & older & newer & Ho & Hlen). destruct Hwf as [Hnd Hdom Hl].
  pose proof (cache_result_eq id' r' s Hl) as Hc. assert (Hne : id ≠ id') by congruence.
  unfold stored. rewrite Ho in *. destruct older as [|old older]; cbn in Hc.
  - rewrite bool_decide_eq_false_2 in Hc by (unfold CACHE_CAPACITY in *; cbn in *; lia).
    injection Hc as Hr Ho'. rewrite Hr, Ho', lookup_insert_ne by done. split; [done|].
    exists [], (newer ++ [id']). split; [done|]. rewrite length_app. cbn. lia.
  - cbn in Hnd. apply NoDup_cons in Hnd as [Hold Hnd].
    case_bool_decide; injection Hc as Hr Ho'; rewrite Hr, Ho'.
    + rewrite lookup_delete_ne, lookup_insert_ne by set_solver. split; [done|].
      exists older, (newer ++ [id']). rewrite <-app_assoc. split; [done|]. rewrite length_app. cbn. lia.
    + rewrite lookup_insert_ne by done. split; [done|].
      exists (old :: older), (newer ++ [id']). cbn. rewrite <-app_assoc. split; [done|].
      rewrite length_app. cbn. lia.
Qed.

Section Cache.
Context `{C : Chrono} `{H : HashOrder} `{R : Runtime} `{B : TaskBuilders} {S : Type} `{P : !SchedulerPort S}.

Lemma apply_locked_cache cmd : keeps (λ c, cache (rc_state c)) (apply_locked (S := S) cmd).
Proof.
  assert (Hc : ∀ A (op : Call S A), keeps (λ c, cache (rc_state c)) (scheduler_call op)).
  { intros A op c a c' Hs%scheduler_call_state. cbv beta in *. by rewrite Hs. }
  unfold apply_locked, upsert, upsert_compiled, update_owned, install_new, delete_remote, run_now, replace_all,
    set_enabled, control_call, modify_state. follow.
Qed.

(** The three ways a command is answered. *)
Lemma apply_command_cases cmd (c : RemoteJobController S) r c' :
  apply_command cmd c = Some (r, c') →
  (∃ e, parse_uuid (jc_command_id cmd) "command_id" = Err e ∧ c' = c ∧ jr_status r = Rejected) ∨
  ∃ id, parse_uuid (jc_command_id cmd) "command_id" = Ok id ∧
    ((cs_cached_results (rc_state c) !! id = Some r ∧ c' = c) ∨
     (cs_cached_results (rc_state c) !! id = None ∧ ∃ c1, apply_locked cmd c = Some (r, c1) ∧
        c' = mkController (rc_scheduler c1)
               (if should_cache_result r then cache_result id r (rc_state c1) else rc_state c1)
               (rc_policy c1))).
Proof.
  unfold apply_command. destruct (parse_uuid _ _) as [id|e] eqn:Hid.
  - intros Hs. right. exists id. split; [done|].
    apply st_bind_Some in Hs as (? & ? & [-> ->]%st_get_Some & Hs).
    destruct (cs_cached_results (rc_state c) !! id) as [r0|] eqn:Hc.
    + apply st_ret_Some in Hs as [-> ->]. by left.
    + right. split; [done|]. apply st_bind_Some in Hs as (r1 & c1 & Hl & Hs).
      apply st_bind_Some in Hs as (? & c2 & H2 & [-> ->]%st_ret_Some). exists c1. split; [done|].
      destruct (should_cache_result r1); [by apply modify_state_Some in H2|].
      apply st_ret_Some in H2 as [_ ->]. by destruct c1.
  - intros [-> ->]%st_ret_Some. left. eauto.
Qed.

Lemma cache_wf_same s s' : cache s' = cache s → cache_wf s → cache_wf s'.
Proof. unfold cache. intros [= H1 H2] [? ? ?]. split; by rewrite ?H1, ?H2. Qed.

Lemma stored_same id r n s s' : cache s' = cache s → stored id r n s → stored id r n s'.
Proof. unfold cache, stored. by intros [= -> ->]. Qed.

Lemma apply_command_cache_wf cmd (c : RemoteJobController S) r c' :
  apply_command cmd c = Some (r, c') → cache_wf (rc_state c) → cache_wf (rc_state c').
Proof.
  intros [(e & _ & -> & _)|(id & _ & [[_ ->]|(Hno & c1 & Hl & ->)])]%apply_command_cases Hwf; [done..|].
  apply apply_locked_cache in Hl. cbv beta in Hl. apply (cache_wf_same _ _ Hl) in Hwf. cbn.
  destruct (should_cache_result r); [|done]. apply cache_result_wf; [|done].
  injection Hl as -> _. done.
Qed.

Lemma stored_next id r n cmd (c : RemoteJobController S) r' c' :
  (n < CACHE_CAPACITY - 1)%nat → cache_wf (rc_state c) → stored id r n (rc_state c) →
  apply_command cmd c = Some (r', c') → stored id r (Datatypes.S n) (rc_state c').
Proof.
  intros Hn Hwf Hst.
  assert (Hw : stored id r (Datatypes.S n) (rc_state c)).
  { destruct Hst as (? & older & newer & ? & ?). split; [done|]. exists older, newer. split; [done|lia]. }
  intros [(e & _ & -> & _)|(id' & _ & [[_ ->]|(Hno & c1 & Hl & ->)])]%apply_command_cases; [done..|].
  apply apply_locked_cache in Hl. cbv beta in Hl. cbn.
  destruct (should_cache_result r'); [|by apply (stored_same _ _ _ _ _ Hl)].
  apply cache_result_keeps; [done| |by apply (cache_wf_same _ _ Hl)|by apply (stored_same _ _ _ _ _ Hl)].
  injection Hl as -> _. done.
Qed.

(** A sequence of commands. *)
Fixpoint apply_commands (cmds : list JobCommand) : ST (RemoteJobController S) (list JobCommandResult) :=
  match cmds with
  | [] => mret []
  | cmd :: cmds => r ← apply_command cmd; rs ← apply_commands cmds; mret (r :: rs)
  end.

Lemma stored_after id r cmds (c : RemoteJobController S) rs c' n :
  (n + length cmds < CACHE_CAPACITY)%nat → cache_wf (rc_state c) → stored id r n (rc_state c) →
  apply_commands cmds c = Some (rs, c') → stored id r (n + length cmds) (rc_state c').
Proof.
  revert n c rs. induction cmds as [|cmd cmds IH]; intros n c rs Hn Hwf Hst Hs; cbn in *.
  { apply st_ret_Some in Hs as [-> ->]. by rewrite Nat.add_0_r. }
  apply st_bind_Some in Hs as (r1 & c1 & H1 & Hs). apply st_bind_Some in Hs as (rs1 & c2 & H2 & [-> ->]%st_ret_Some).
  rewrite <-Nat.add_succ_comm. eapply (IH (Datatypes.S n) c1); [lia| |eapply stored_next; try done; lia|done].
  by eapply apply_command_cache_wf.
Qed.

End Cache.

(** A command is applied at most once: when its result was stored, sending it again
    after up to 1023 other commands, whatever these were and whatever the scheduler
    answered, returns the first result and changes neither the controller nor the
    scheduler. *)
Theorem command_applied_once `{C : Chrono} `{H : HashOrder} `{R : Runtime} `{B : TaskBuilders}
    {S : Type} `{P : !SchedulerPort S} cmd id (c c1 c2 : RemoteJobController S) r cmds rs :
  cache_wf (rc_state c) → parse_uuid (jc_command_id cmd) "command_id" = Ok id →
  cs_cached_results (rc_state c) !! id = None →
  apply_command cmd c = Some (r, c1) → should_cache_result r = true →
  (length cmds < CACHE_CAPACITY)%nat → apply_commands cmds c1 = Some (rs, c2) →
  apply_command cmd c2 = Some (r, c2).
Proof.
  intros Hwf Hid Hno H1 Hsc Hn H2. pose proof (apply_command_cache_wf _ _ _ _ H1 Hwf) as Hwf1.
  apply apply_command_cases in H1 as [(e & He & _)|(id' & Hid' & [[? _]|(_ & c0 & Hl & ->)])]; [congruence..|].
  rewrite Hid in Hid'. injection Hid' as <-. rewrite Hsc in *. apply apply_locked_cache in Hl. cbv beta in Hl.
  assert (Hst : stored id r 0 (cache_result id r (rc_state c0))).
  { apply cache_result_stored; [|by apply (cache_wf_same _ _ Hl)]. by injection Hl as -> _. }
  destruct (stored_after id r cmds _ rs c2 0 Hn Hwf1 Hst H2) as [Hs _].
  unfold apply_command. rewrite Hid. cbv [mbind st_bind st_get]. by rewrite Hs.
Qed.

(** ** The catalog *)

(** The specification: a revision and the definitions in force. *)
Record Directory : Type := mkDirectory {
  dir_revision : Z;
  dir_jobs : gmap Z JobDefinition;
}.

Definition directory {S} (c : RemoteJobController S) : Directory :=
  mkDirectory (cs_catalog_revision (rc_state c)) (mj_definition <$> cs_remote_jobs (rc_state c)).

(** The id of a definition and the definition, for a list of them. *)
Definition identified (jobs : list JobDefinition) : option (list (Z * JobDefinition)) :=
  mapM (λ job, (λ id, (id, job)) <$> uuid_from_slice (jd_job_id job)) jobs.

(** What a command does to the catalog. *)
Inductive directory_step : CommandAction → Directory → Directory → Prop :=
| dir_upsert v job id d :
    up_job v = Some job → uuid_from_slice (jd_job_id job) = Some id →
    up_catalog_revision v = wrapping_add_u64 (dir_revision d) 1 →
    (∀ old, dir_jobs d !! id = Some old → jd_revision old < jd_revision job) →
    directory_step (ActUpsert v) d (mkDirectory (up_catalog_revision v) (<[id := job]> (dir_jobs d)))
| dir_delete v id old d :
    uuid_from_slice (dl_job_id v) = Some id → dir_jobs d !! id = Some old →
    jd_revision old = dl_expected_revision v →
    dl_catalog_revision v = wrapping_add_u64 (dir_revision d) 1 →
    directory_step (ActDelete v) d (mkDirectory (dl_catalog_revision v) (delete id (dir_jobs d)))
| dir_run_now v id job d :
    uuid_from_slice (rn_job_id v) = Some id → dir_jobs d !! id = Some job →
    jd_revision job = rn_expected_revision v →
    directory_step (ActRunNow v) d d
| dir_replace v jobs d :
    ra_catalog_revision v ≠ 0 → dir_revision d ≤ ra_catalog_revision v →
    identified (ra_jobs v) = Some jobs → NoDup jobs.*1 →
    (∀ id job old, (id, job) ∈ jobs → dir_jobs d !! id = Some old →
       old = job ∨ jd_revision old < jd_revision job) →
    directory_step (ActReplaceAll v) d (mkDirectory (ra_catalog_revision v) (list_to_map jobs)).

(** The controller's copy of a revision is that of the definition. *)
Definition revisions_match (s : ControllerState) : Prop :=
  ∀ id m, cs_remote_jobs s !! id = Some m → mj_revision m = jd_revision (mj_definition m).

Section CompileFacts.
Context `{C : Chrono} `{B : TaskBuilders}.

Lemma parse_uuid_Ok bs field id : parse_uuid bs field = Ok id ↔ uuid_from_slice bs = Some id.
Proof. unfold parse_uuid. apply ok_or_Ok. Qed.

Lemma compile_job_fields d c :
  compile_job d = Ok c →
  cj_definition c = d ∧ uuid_from_slice (jd_job_id d) = Some (cj_id c) ∧ cj_revision c = jd_revision d ∧
  (jd_task d ≫= definition_task_kind) = Some (cj_task_kind c) ∧ task_kind (cj_task c) = cj_task_kind c.
Proof.
  intros Hc. unfold compile_job in Hc.
  apply result_bind_Ok in Hc as (id & Hid%parse_uuid_Ok & Hc). apply result_bind_Ok in Hc as ([] & _ & Hc).
  apply result_bind_Ok in Hc as (tr & _ & Hc). apply result_bind_Ok in Hc as (trigger & _ & Hc).
  apply result_bind_Ok in Hc as (options & _ & Hc). apply result_bind_Ok in Hc as (td & Htd%ok_or_Ok & Hc).
  apply result_bind_Ok in Hc as (kind & Hk%ok_or_Ok & Hc). apply result_bind_Ok in Hc as (task & Htask & Hc).
  injection Hc as <-. cbn. rewrite Htd. split_and!; try done.
  destruct (build_Ok _ _ Htask) as (t & Ht & ->). destruct (definition_task_kind_Some _ _ Hk) as (t2 & Ht2 & -> & _).
  rewrite Ht in Ht2. by injection Ht2 as <-.
Qed.

(** A definition the policy lets through, once compiled, has a kind it allows. *)
Lemma checked_kind p d c :
  check_definition p d = Ok tt → compile_job d = Ok c → check_installed p (cj_task_kind c) = Ok tt.
Proof.
  intros Hch (_ & _ & _ & Hk & _)%compile_job_fields. unfold check_definition, check_installed in *.
  destruct (pol_deny_all p); [done|]. rewrite Hk in Hch. done.
Qed.

(** *** The first phase of a replacement *)

Lemma compile_all_Ok p ds ids jobs ids' jobs' :
  compile_all p ds ids jobs = Ok (ids', jobs') →
  ∃ new, jobs' = jobs ++ new ∧ identified ds = Some ((λ c, (cj_id c, cj_definition c)) <$> new) ∧
    NoDup (cj_id <$> new) ∧ (∀ c, c ∈ new → cj_id c ∉ ids) ∧
    ids' = ids ∪ list_to_set (cj_id <$> new) ∧
    Forall (λ c, compile_job (cj_definition c) = Ok c ∧ check_definition p (cj_definition c) = Ok tt) new.
Proof.
  revert ids jobs. induction ds as [|d ds IH]; intros ids jobs Hs; cbn [compile_all] in Hs.
  { injection Hs as <- <-. exists []. rewrite app_nil_r. split_and!; try done; [constructor| |].
    - set_solver.
    - set_solver. }
  apply result_bind_Ok in Hs as (id & Hid%map_err_Ok%parse_uuid_Ok & Hs).
  apply result_bind_Ok in Hs as ([] & Hdup & Hs). destruct (bool_decide (id ∈ ids)) eqn:Hin; [done|]. bools.
  apply result_bind_Ok in Hs as ([] & Hpol%map_err_Ok & Hs).
  apply result_bind_Ok in Hs as (c & Hc%map_err_Ok & Hs).
  apply IH in Hs as (new & -> & Hids & Hnd & Hfresh & -> & Hall).
  destruct (compile_job_fields _ _ Hc) as (Hdef & Huuid & _). rewrite Hid in Huuid. injection Huuid as ->.
  exists (c :: new). rewrite <-app_assoc. split_and!; [done| | | | |].
  - unfold identified in *. cbn [mapM]. rewrite Hid. cbn. rewrite Hids. cbn. by rewrite Hdef.
  - rewrite fmap_cons. apply NoDup_cons. split; [|done]. intros (c' & Heq & Hc')%list_elem_of_fmap.
    apply (Hfresh c' Hc'). rewrite <-Heq. set_solver.
  - intros c' [->|Hc']%elem_of_cons; [done|]. specialize (Hfresh c' Hc'). set_solver.
  - rewrite fmap_cons. cbn [list_to_set foldr]. rewrite (assoc_L (∪)), (comm_L (∪) _ ids). done.
  - constructor; [|done]. by rewrite Hdef.
Qed.

End CompileFacts.

(** *** The plan and the new index *)

Section Plan.
Context (remote : gmap Z ManagedJob).

Definition updates_of (jobs : list CompiledJob) : list SchedulerReconcileUpdate :=
  omap (λ c, cur ← remote !! cj_id c;
             if bool_decide (cj_definition c ≠ mj_definition cur) then Some (update_of cur c) else None) jobs.

Definition additions_of (jobs : list CompiledJob) : list SchedulerReconcileAddition :=
  omap (λ c, match remote !! cj_id c with Some _ => None | None => Some (addition_of c) end) jobs.

Lemma build_plan_Ok jobs us adds us' adds' :
  build_plan remote jobs us adds = Ok (us', adds') →
  us' = us ++ updates_of jobs ∧ adds' = adds ++ additions_of jobs ∧
  ∀ c cur, c ∈ jobs → remote !! cj_id c = Some cur →
    mj_definition cur = cj_definition c ∨ mj_revision cur < cj_revision c.
Proof.
  revert us adds. induction jobs as [|c jobs IH]; intros us adds Hs; cbn [build_plan] in Hs.
  { injection Hs as <- <-. rewrite !app_nil_r. split_and!; try done. set_solver. }
  unfold updates_of, additions_of. cbn [omap list_omap]. destruct (remote !! cj_id c) as [cur|] eqn:Hcur.
  - destruct (bool_decide (cj_revision c < mj_revision cur)) eqn:H1; [done|].
    destruct (bool_decide (cj_revision c = mj_revision cur) && bool_decide (cj_definition c ≠ mj_definition cur)) eqn:H2;
      [done|]. cbn.
    assert (Hok : mj_definition cur = cj_definition c ∨ mj_revision cur < cj_revision c).
    { clear Hs. bools. apply andb_false_iff in H2 as [H2|H2]; bools; [right; lia|left].
      symmetry. by apply dec_stable. }
    destruct (bool_decide (cj_definition c ≠ mj_definition cur)) eqn:H3; apply IH in Hs as (-> & -> & Hall);
      rewrite <-?app_assoc; (split_and!; [done|done|]); intros c' cur' [->|Hin]%elem_of_cons Hl; eauto; congruence.
  - cbn. apply IH in Hs as (-> & -> & Hall). rewrite <-app_assoc. split_and!; [done|done|].
    intros c' cur' [->|Hin]%elem_of_cons Hl; eauto; congruence.
Qed.

(** The generation the new index records for a job. *)
Definition index_generation (applied : gmap Z Z) (c : CompiledJob) (g : Z) : Prop :=
  (∃ cur, remote !! cj_id c = Some cur ∧ mj_definition cur = cj_definition c ∧ g = mj_generation cur) ∨
  ((∀ cur, remote !! cj_id c = Some cur → mj_definition cur ≠ cj_definition c) ∧ applied !! cj_id c = Some g).

Lemma new_index_Ok applied jobs index index' :
  NoDup (cj_id <$> jobs) → new_index remote applied jobs index = Ok index' →
  (∀ c, c ∈ jobs → ∃ g, index' !! cj_id c = Some (managed c g) ∧ index_generation applied c g) ∧
  (∀ id, id ∉ cj_id <$> jobs → index' !! id = index !! id).
Proof.
  revert index. induction jobs as [|c jobs IH]; intros index Hnd Hs; cbn [new_index] in Hs.
  { injection Hs as <-. split; [set_solver|done]. }
  rewrite fmap_cons in *. apply NoDup_cons in Hnd as [Hc Hnd].
  apply result_bind_Ok in Hs as (g & Hg%ok_or_Ok & Hs). apply IH in Hs as [Hin Hout]; [|done].
  split.
  - intros c' [->|Hc']%elem_of_cons; [|by apply Hin]. exists g. rewrite Hout, lookup_insert_eq by done.
    split; [done|]. unfold index_generation. destruct (remote !! cj_id c) as [cur|]; [|by right].
    case_bool_decide as Hd; [left; by exists cur; simplify_eq|]. right. split; [|done]. by intros ? [= <-].
  - intros id Hid. apply not_elem_of_cons in Hid as [Hne Hid]. by rewrite Hout, lookup_insert_ne.
Qed.

End Plan.

Section Inversions.
Context `{C : Chrono} `{H : HashOrder} `{R : Runtime} `{B : TaskBuilders} {S : Type} `{P : !SchedulerPort S}.

(** What each action does to the controller's state, given the result. *)
Definition unless_error (r : result ControlError (option JobStatus)) (c c' : RemoteJobController S)
    (Q : Prop) : Prop :=
  match r with Ok _ => Q | Err _ => rc_state c' = rc_state c end.

Lemma require_next_Ok s v u : require_next_catalog s v = Ok u → v = wrapping_add_u64 (cs_catalog_revision s) 1.
Proof. unfold require_next_catalog. destruct (decide (v = wrapping_add_u64 (cs_catalog_revision s) 1)); [done|]. by decide_true. Qed.

Lemma find_expected_Ok s bs v id m :
  find_expected s bs v = Ok (id, m) →
  uuid_from_slice bs = Some id ∧ cs_remote_jobs s !! id = Some m ∧ mj_revision m = v.
Proof.
  unfold find_expected. intros Hf. apply result_bind_Ok in Hf as (i & Hi%map_err_Ok%parse_uuid_Ok & Hf).
  apply result_bind_Ok in Hf as (cur & Hcur%ok_or_Ok & Hf). case_bool_decide as Hv; [done|].
  injection Hf as <- <-. done.
Qed.

Lemma upsert_compiled_state compiled (c : RemoteJobController S) r c' :
  upsert_compiled compiled true c = Some (r, c') →
  match r with
  | Ok _ => (∀ cur, cs_remote_jobs (rc_state c) !! cj_id compiled = Some cur → mj_revision cur < cj_revision compiled) ∧
      ∃ g, rc_state c' = set_cs_remote_jobs
        (<[cj_id compiled := managed compiled g]> (cs_remote_jobs (rc_state c))) (rc_state c)
  | Err _ => rc_state c' = rc_state c
  end.
Proof.
  unfold upsert_compiled. intros Hs. apply st_bind_Some in Hs as (? & ? & [-> ->]%st_get_Some & Hs).
  try_step Hs snap c1 H1.
  - apply st_bind_Some in Hs as (? & c2 & H2%modify_state_Some & [-> ->]%st_ret_Some).
    assert (Hst : rc_state c1 = rc_state c ∧
      ∀ cur, cs_remote_jobs (rc_state c) !! cj_id compiled = Some cur → mj_revision cur < cj_revision compiled).
    { destruct (cs_remote_jobs (rc_state c) !! cj_id compiled) as [cur|].
      - destruct (_ || _) eqn:Hb; [by apply st_ret_Some in H1 as [? _]|].
        apply update_owned_state in H1. split; [done|]. intros cur' [= <-]. bools. cbn in *. bools. lia.
      - apply install_new_state in H1. split; [done|]. intros cur [=]. }
    destruct Hst as [Hst Hall]. split; [done|]. exists (snap_version snap). rewrite H2. cbn. by rewrite Hst.
  - revert H1. destruct (cs_remote_jobs (rc_state c) !! cj_id compiled) as [cur|].
    + destruct (_ || _); [by intros [_ ->]%st_ret_Some|]. by intros H1%update_owned_state.
    + by intros H1%install_new_state.
Qed.

Lemma upsert_state v (c : RemoteJobController S) r c' :
  upsert v c = Some (r, c') → unless_error r c c' (
    ∃ job compiled g, up_job v = Some job ∧ compile_job job = Ok compiled ∧
      up_catalog_revision v = wrapping_add_u64 (cs_catalog_revision (rc_state c)) 1 ∧
      (∀ cur, cs_remote_jobs (rc_state c) !! cj_id compiled = Some cur → mj_revision cur < cj_revision compiled) ∧
      rc_state c' = set_cs_directory (up_catalog_revision v)
        (<[cj_id compiled := managed compiled g]> (cs_remote_jobs (rc_state c))) (rc_state c)).
Proof.
  unfold upsert. intros Hs. apply st_bind_Some in Hs as (? & ? & [-> ->]%st_get_Some & Hs).
  pure_step Hs u Hrev. pure_step Hs job Hjob. pure_step Hs u2 Hpol. pure_step Hs compiled Hc.
  apply require_next_Ok in Hrev. apply ok_or_Ok in Hjob. apply map_err_Ok in Hc.
  try_step Hs status c1 H1; apply upsert_compiled_state in H1; [|done].
  destruct H1 as (Hall & g & H1).
  apply st_bind_Some in Hs as (? & c2 & H2%modify_state_Some & [-> ->]%st_ret_Some).
  exists job, compiled, g. split_and!; try done. rewrite H2. cbn. by rewrite H1.
Qed.

Lemma delete_remote_state v (c : RemoteJobController S) r c' :
  delete_remote v c = Some (r, c') → unless_error r c c' (
    ∃ id m, uuid_from_slice (dl_job_id v) = Some id ∧ cs_remote_jobs (rc_state c) !! id = Some m ∧
      mj_revision m = dl_expected_revision v ∧
      dl_catalog_revision v = wrapping_add_u64 (cs_catalog_revision (rc_state c)) 1 ∧
      rc_state c' = set_cs_directory (dl_catalog_revision v) (delete id (cs_remote_jobs (rc_state c))) (rc_state c)).
Proof.
  unfold delete_remote. intros Hs. apply st_bind_Some in Hs as (? & ? & [-> ->]%st_get_Some & Hs).
  pure_step Hs u Hrev. pure_step Hs found Hf. destruct found as [id m].
  apply require_next_Ok in Hrev. apply find_expected_Ok in Hf as (Hid & Hm & Hv).
  try_step Hs u2 c1 H1; apply control_call_state in H1; [|done]. cbv beta in H1.
  apply st_bind_Some in Hs as (? & c2 & H2%modify_state_Some & [-> ->]%st_ret_Some).
  exists id, m. split_and!; try done. rewrite H2. cbn. by rewrite H1.
Qed.

Lemma run_now_state v (c : RemoteJobController S) r c' :
  run_now v c = Some (r, c') → unless_error r c c' (
    ∃ id m g, uuid_from_slice (rn_job_id v) = Some id ∧ cs_remote_jobs (rc_state c) !! id = Some m ∧
      mj_revision m = rn_expected_revision v ∧
      rc_state c' = set_cs_remote_jobs (<[id := set_mj_generation g m]> (cs_remote_jobs (rc_state c))) (rc_state c)).
Proof.
  unfold run_now. intros Hs. apply st_bind_Some in Hs as (? & ? & [-> ->]%st_get_Some & Hs).
  pure_step Hs found Hf. destruct found as [id m]. apply find_expected_Ok in Hf as (Hid & Hm & Hv).
  pure_step Hs u Hpol. cbv zeta in Hs.
  try_step Hs snap c1 H1; apply control_call_state in H1; [|done]. cbv beta in H1.
  apply st_bind_Some in Hs as (? & c2 & H2%modify_state_Some & [-> ->]%st_ret_Some).
  exists id, m, (snap_version snap). split_and!; try done. rewrite H2. cbn. by rewrite H1.
Qed.

Lemma replace_all_state v (c : RemoteJobController S) r c' :
  replace_all v c = Some (r, c') → unless_error r c c' (
    ∃ jobs applied index, ra_catalog_revision v ≠ 0 ∧ cs_catalog_revision (rc_state c) ≤ ra_catalog_revision v ∧
      compile_all (pm_policy (rc_policy c)) (ra_jobs v) ∅ [] = Ok (list_to_set (cj_id <$> jobs), jobs) ∧
      (∃ plan, build_plan (cs_remote_jobs (rc_state c)) jobs [] [] = Ok plan) ∧
      new_index (cs_remote_jobs (rc_state c)) applied jobs ∅ = Ok index ∧
      rc_state c' = set_cs_directory (ra_catalog_revision v) index (rc_state c)).
Proof.
  unfold replace_all. intros Hs. apply st_bind_Some in Hs as (? & ? & [-> ->]%st_get_Some & Hs). cbv zeta in Hs.
  pure_step Hs u Hrev. pure_step Hs checked Hc. destruct checked as [ids jobs].
  try_step Hs snaps c1 H1; apply control_call_state in H1; [|done]. cbv beta in H1.
  apply st_try_Some in Hs as [(? & ? & [_ ->]%st_ret_Some & Hs)|(? & [_ ->]%st_ret_Some & ->)]; [|done].
  apply st_try_Some in Hs as [(? & ? & [_ ->]%st_ret_Some & Hs)|(? & [_ ->]%st_ret_Some & ->)]; [|done].
  try_step Hs config c2 H2; apply control_call_state in H2; [|cbn; congruence]. cbv beta in H2.
  st_case; [apply st_ret_Some in Hs as [-> ->]; cbn; congruence|].
  apply st_try_Some in Hs as [(changes & ? & [Hplan ->]%st_ret_Some & Hs)|(? & [_ ->]%st_ret_Some & ->)];
    [|cbn; congruence].
  try_step Hs applied c3 H3; apply control_call_state in H3; [|cbn; congruence]. cbv beta in H3.
  apply st_try_Some in Hs as [(index & ? & [Hidx ->]%st_ret_Some & Hs)|(? & [_ ->]%st_ret_Some & ->)];
    [|cbn; congruence].
  apply st_bind_Some in Hs as (? & c4 & H4%modify_state_Some & [-> ->]%st_ret_Some).
  exists jobs, (collect_versions applied), index.
  unfold require_replace_all_catalog in Hrev. destruct (_ || _) eqn:Hb2; [done|]. bools.
  destruct (compile_all_Ok _ _ _ _ _ _ Hc) as (new & Hnew & _ & _ & _ & Hids & _). cbn in Hnew. subst new.
  split_and!; try done; [lia|by rewrite Hc, Hids, (left_id_L ∅ (∪))|by eauto|].
  rewrite H4. cbn. congruence.
Qed.

End Inversions.

(** *** Errors are refusals *)

Definition refused {A} (r : result ControlError A) : Prop :=
  match r with Ok _ => True | Err e => ce_status e ≠ Applied end.

Definition refuses {W A} (m : ST W (result ControlError A)) : Prop :=
  ∀ w r w', m w = Some (r, w') → refused r.

Create HintDb refuses.

Section Refusals.
Context `{C : Chrono} `{H : HashOrder} `{R : Runtime} `{B : TaskBuilders} {S : Type} `{P : !SchedulerPort S}.

Lemma refuses_ret {W A} (r : result ControlError A) : refused r → refuses (mret r : ST W _).
Proof. by intros Hr w r' w' [-> ->]%st_ret_Some. Qed.

Lemma refuses_bind {W X A} (m : ST W X) (k : X → ST W (result ControlError A)) :
  (∀ x, refuses (k x)) → refuses (m ≫= k).
Proof. intros Hk w r w' (x & w1 & _ & Hs%Hk)%st_bind_Some. done. Qed.

Lemma refuses_try {W X A} (m : ST W (result ControlError X)) (k : X → ST W (result ControlError A)) :
  refuses m → (∀ x, refuses (k x)) → refuses (st_try m k).
Proof.
  intros Hm Hk w r w' [(x & w1 & _ & Hs%Hk)|(e & Hs%Hm & ->)]%st_try_Some; done.
Qed.

Lemma refused_bind {X A} (m : result ControlError X) (k : X → result ControlError A) :
  refused m → (∀ x, refused (k x)) → refused (m ≫= k).
Proof. destruct m; cbn; auto. Qed.

Lemma refused_map_err {E A} (f : E → ControlError) (r : result E A) :
  (∀ e, ce_status (f e) ≠ Applied) → refused (map_err f r).
Proof. destruct r; cbn; auto. Qed.

Lemma refused_ok_or {A} (e : ControlError) (o : option A) : ce_status e ≠ Applied → refused (ok_or e o).
Proof. by destruct o. Qed.

Lemma refused_scheduler e : ce_status (scheduler_error e) ≠ Applied.
Proof. done. Qed.

Lemma control_call_refuses {A} (op : Call S A) : refuses (control_call op).
Proof. unfold control_call. apply refuses_bind. intros x. by apply refuses_ret, refused_map_err. Qed.

Lemma compile_all_refused p ds ids jobs : refused (compile_all p ds ids jobs).
Proof.
  revert ids jobs. induction ds as [|d ds IH]; intros ids jobs; cbn [compile_all]; [done|].
  apply refused_bind; [by apply refused_map_err|]. intros id. apply refused_bind; [by destruct (bool_decide _)|].
  intros _. apply refused_bind; [by apply refused_map_err|]. intros _.
  apply refused_bind; [by apply refused_map_err|]. intros c. apply IH.
Qed.

Lemma check_generations_refused vs jobs : refused (check_generations vs jobs).
Proof.
  induction jobs as [|[id m] jobs IH]; cbn; [done|]. destruct (vs !! id); [|done]. by destruct (bool_decide _).
Qed.

Lemma check_ownership_refused remote vs ids : refused (check_ownership remote vs ids).
Proof. induction ids as [|id ids IH]; cbn; [done|]. by destruct (_ && _). Qed.

Lemma build_plan_refused remote jobs us adds : refused (build_plan remote jobs us adds).
Proof.
  revert us adds. induction jobs as [|c jobs IH]; intros us adds; cbn; [done|].
  destruct (remote !! cj_id c); [|apply IH]. destruct (bool_decide (_ < _)); [done|].
  destruct (_ && _); [done|]. destruct (bool_decide _); apply IH.
Qed.

Lemma new_index_refused remote applied jobs index : refused (new_index remote applied jobs index).
Proof.
  revert index. induction jobs as [|c jobs IH]; intros index; cbn [new_index]; [done|].
  apply refused_bind; [by apply refused_ok_or|]. intros g. apply IH.
Qed.

Lemma find_expected_refused s bs v : refused (find_expected s bs v).
Proof.
  unfold find_expected. apply refused_bind; [by apply refused_map_err|]. intros id.
  apply refused_bind; [by apply refused_ok_or|]. intros m. by destruct (bool_decide _).
Qed.

Lemma require_next_refused s v : refused (require_next_catalog s v).
Proof. unfold require_next_catalog. by destruct (bool_decide _). Qed.

Lemma require_replace_refused s v : refused (require_replace_all_catalog s v).
Proof. unfold require_replace_all_catalog. by destruct (_ || _). Qed.

End Refusals.
#[export] Hint Resolve control_call_refuses compile_all_refused check_generations_refused
  check_ownership_refused build_plan_refused new_index_refused find_expected_refused
  require_next_refused require_replace_refused refused_scheduler : refuses.

Ltac refuse1 :=
  first
    [ solve [eauto 2 with refuses] | done
    | match goal with
      | |- refuses (st_try _ _) => apply refuses_try; [|intros ?]
      | |- refuses (mbind _ _) => apply refuses_bind; intros ?
      | |- refuses (mret _) => apply refuses_ret
      end
    | apply refused_map_err; intros ? | apply refused_ok_or
    | match goal with
      | |- refuses (if ?b then _ else _) => destruct b
      | |- refuses (match ?x with _ => _ end) => destruct x
      end ].
Ltac refuse := repeat (cbv beta zeta; refuse1).

Section Catalog.
Context `{C : Chrono} `{H : HashOrder} `{R : Runtime} `{B : TaskBuilders} {S : Type} `{P : !SchedulerPort S}.

(** The action of a command. *)
Definition run_action (a : CommandAction) : ST (RemoteJobController S) (result ControlError (option JobStatus)) :=
  match a with
  | ActUpsert v => upsert v
  | ActDelete v => delete_remote v
  | ActRunNow v => run_now v
  | ActReplaceAll v => replace_all v
  end.

Lemma run_action_refuses a : refuses (run_action a).
Proof.
  unfold run_action, upsert, upsert_compiled, update_owned, install_new, delete_remote, run_now, replace_all.
  destruct a; refuse.
Qed.

Lemma replace_all_directory v (c : RemoteJobController S) x c' :
  revisions_match (rc_state c) → replace_all v c = Some (Ok x, c') →
  revisions_match (rc_state c') ∧ directory_step (ActReplaceAll v) (directory c) (directory c').
Proof.
  intros Hm Hs. apply replace_all_state in Hs as (jobs & applied & index & Hnz & Hge & Hc & [[us adds] Hp] & Hi & Hst).
  apply compile_all_Ok in Hc as (new & Hnew & Hids & Hnd & _ & _ & Hall). cbn in Hnew. subst new.
  apply build_plan_Ok in Hp as (_ & _ & Hmono). apply new_index_Ok in Hi as [Hin Hout]; [|done].
  rewrite Forall_forall in Hall.
  assert (Hlk : ∀ id m, index !! id = Some m → ∃ c0 g, c0 ∈ jobs ∧ id = cj_id c0 ∧ m = managed c0 g).
  { intros id m Hid. destruct (decide (id ∈ cj_id <$> jobs)) as [(c0 & -> & Hc0)%list_elem_of_fmap|Hno].
    - destruct (Hin c0 Hc0) as (g & Hg & _). rewrite Hg in Hid. injection Hid as <-. eauto.
    - by rewrite (Hout id Hno), lookup_empty in Hid. }
  split.
  - unfold revisions_match. rewrite Hst. cbn. intros id m (c0 & g & Hc0 & -> & ->)%Hlk. cbn.
    destruct (Hall c0 Hc0) as [(_ & _ & Hrev & _)%compile_job_fields _]. done.
  - unfold directory at 2. rewrite Hst. cbn.
    assert (mj_definition <$> index = list_to_map ((λ c, (cj_id c, cj_definition c)) <$> jobs)) as ->.
    { apply map_eq. intros id. rewrite lookup_fmap. destruct (index !! id) as [m|] eqn:Hid; cbn; symmetry.
      - apply Hlk in Hid as (c0 & g & Hc0 & -> & ->). apply elem_of_list_to_map_1.
        + rewrite <-list_fmap_compose. exact Hnd.
        + apply list_elem_of_fmap. by exists c0.
      - apply not_elem_of_list_to_map_1. rewrite <-list_fmap_compose. intros (c0 & -> & Hc0)%list_elem_of_fmap.
        destruct (Hin c0 Hc0) as (g & Hg & _). cbn in *. congruence. }
    apply dir_replace; try done; [by rewrite <-list_fmap_compose|].
    intros id job old (c0 & [= -> ->] & Hc0)%list_elem_of_fmap Hold. unfold directory in Hold. cbn in Hold.
    rewrite lookup_fmap in Hold. destruct (cs_remote_jobs (rc_state c) !! cj_id c0) as [cur|] eqn:Hcur; [|done].
    injection Hold as <-. destruct (Hmono c0 cur Hc0 Hcur) as [|Hlt]; [by left|right].
    destruct (Hall c0 Hc0) as [(_ & _ & Hrev & _)%compile_job_fields _]. rewrite <-Hrev, <-(Hm _ _ Hcur). done.
Qed.

Lemma run_action_directory a (c : RemoteJobController S) r c' :
  revisions_match (rc_state c) → run_action a c = Some (r, c') →
  revisions_match (rc_state c') ∧
  match r with Ok _ => directory_step a (directory c) (directory c') | Err _ => directory c' = directory c end.
Proof.
  intros Hm Hs. destruct r as [x|e].
  2:{ assert (Hst : rc_state c' = rc_state c).
      { destruct a; [apply replace_all_state in Hs|apply upsert_state in Hs|apply delete_remote_state in Hs|
          apply run_now_state in Hs]; done. }
      unfold directory, revisions_match. by rewrite Hst. }
  destruct a as [v|v|v|v].
  - by eapply replace_all_directory.
  - apply upsert_state in Hs as (job & compiled & g & Hjob & (Hdef & Hid & Hrev & _)%compile_job_fields & Hnext & Hinc & Hst).
    unfold directory at 2, revisions_match. rewrite Hst. cbn. split.
    + intros id m [[<- <-]|[_ Hl]]%lookup_insert_Some; [by cbn; rewrite Hdef|by apply (Hm id)].
    + rewrite fmap_insert. cbn. rewrite Hdef. apply (dir_upsert v job (cj_id compiled) (directory c)); try done.
      intros old Hold. cbn in Hold. rewrite lookup_fmap in Hold.
      destruct (cs_remote_jobs (rc_state c) !! cj_id compiled) as [cur|] eqn:Hcur; [|done]. injection Hold as <-.
      rewrite <-Hrev, <-(Hm _ _ Hcur). by apply Hinc.
  - apply delete_remote_state in Hs as (id & m & Hid & Hl & Hv & Hnext & Hst).
    unfold directory at 2, revisions_match. rewrite Hst. cbn. split.
    + intros id' m' [_ Hl']%lookup_delete_Some. by apply (Hm id').
    + rewrite fmap_delete. apply (dir_delete v id (mj_definition m) (directory c)); try done.
      * cbn. by rewrite lookup_fmap, Hl.
      * by rewrite <-(Hm _ _ Hl).
  - apply run_now_state in Hs as (id & m & g & Hid & Hl & Hv & Hst).
    assert (Hd : directory c' = directory c).
    { unfold directory. rewrite Hst. cbn. f_equal. rewrite fmap_insert. cbn. apply insert_id.
      by rewrite lookup_fmap, Hl. }
    rewrite Hd. split.
    + unfold revisions_match. rewrite Hst. cbn. intros id' m' [[<- <-]|[_ Hl']]%lookup_insert_Some; [|by apply (Hm id')].
      cbn. by apply (Hm id).
    + apply (dir_run_now v id (mj_definition m)); try done.
      * cbn. by rewrite lookup_fmap, Hl.
      * by rewrite <-(Hm _ _ Hl).
Qed.

(** How [apply_locked] wraps the action. *)
Lemma apply_locked_Some cmd (c : RemoteJobController S) r c' :
  apply_locked cmd c = Some (r, c') →
  jr_catalog_revision r = cs_catalog_revision (rc_state c') ∧
  ((∃ a x, jc_action cmd = Some a ∧ run_action a c = Some (Ok x, c') ∧ jr_status r = Applied) ∨
   (jr_status r ≠ Applied ∧
    ((jc_action cmd = None ∧ c' = c) ∨
     ∃ a e, jc_action cmd = Some a ∧ run_action a c = Some (Err e, c') ∧ jr_status r = ce_status e ∧
       jr_error r = Some (mkJobCommandError (ce_code e) (ce_error e))))).
Proof.
  unfold apply_locked. intros Hs. apply st_bind_Some in Hs as (x & c1 & Ha & Hs).
  apply st_bind_Some in Hs as (? & ? & [-> ->]%st_get_Some & [-> ->]%st_ret_Some).
  split; [by destruct x|]. destruct (jc_action cmd) as [a|].
  - assert (Hr : run_action a c = Some (x, c1)) by (by destruct a).
    destruct x as [x|e]; [left; by exists a, x|]. right. split; [exact (run_action_refuses a _ _ _ Hr)|].
    right. by exists a, e.
  - apply st_ret_Some in Ha as [-> ->]. right. split; [done|]. by left.
Qed.

End Catalog.

(** C15. The controller implements the catalog: a command that is applied takes the
    step its kind specifies (the next revision, with an increasing revision of the
    job; a replacement at a revision that is not older, which sets exactly the jobs
    it lists and moves no job backwards), the answer carries the revision reached,
    and a command that is refused, for whatever reason and at whatever point, leaves
    the catalog as it was. *)
Theorem directory_refines `{C : Chrono} `{H : HashOrder} `{R : Runtime} `{B : TaskBuilders}
    {S : Type} `{P : !SchedulerPort S} cmd (c : RemoteJobController S) r c' :
  revisions_match (rc_state c) → apply_command cmd c = Some (r, c') →
  revisions_match (rc_state c') ∧
  match parse_uuid (jc_command_id cmd) "command_id" with
  | Err _ => jr_status r = Rejected ∧ c' = c
  | Ok id =>
      match cs_cached_results (rc_state c) !! id with
      | Some first => r = first ∧ c' = c
      | None =>
          jr_catalog_revision r = dir_revision (directory c') ∧
          if bool_decide (jr_status r = Applied)
          then ∃ a, jc_action cmd = Some a ∧ directory_step a (directory c) (directory c')
          else directory c' = directory c
      end
  end.
Proof.
  intros Hm [(e & -> & -> & ?)|(id & -> & [[-> ->]|(-> & c1 & Hl & ->)])]%apply_command_cases; [done..|].
  assert (Hdir : directory (mkController (rc_scheduler c1)
      (if should_cache_result r then cache_result id r (rc_state c1) else rc_state c1) (rc_policy c1)) = directory c1 ∧
    (revisions_match (rc_state c1) → revisions_match (if should_cache_result r
       then cache_result id r (rc_state c1) else rc_state c1))).
  { destruct (should_cache_result r); [|done]. unfold directory, revisions_match, cache_result. cbn.
    by destruct (evict _ _ _). }
  destruct Hdir as [-> Hrm]. apply apply_locked_Some in Hl as [Hrev [(a & x & Ha & Hr & Hst)|(Hst & Hl)]].
  - apply run_action_directory in Hr as [Hm1 Hstep]; [|done]. decide_true. eauto 6.
  - decide_false. destruct Hl as [[_ ->]|(a & e & _ & Hr & _)]; [eauto|].
    apply run_action_directory in Hr as [Hm1 Hd]; [|done]. eauto.
Qed.

(** ** The digest of the catalog *)

(** Every definition is kept under the id it carries. *)
Definition directory_keyed (d : Directory) : Prop :=
  ∀ id job, dir_jobs d !! id = Some job → uuid_from_slice (jd_job_id job) = Some id.

Global Instance definition_le_trans : Transitive definition_le.
Proof. intros a b c. apply bytes_le_trans. Qed.
Global Instance definition_le_total : Total definition_le.
Proof. intros a b. apply bytes_le_total. Qed.

(** The order of the definitions does not matter when their ids differ. *)
Lemma sorted_definitions_unique l l' :
  NoDup (jd_job_id <$> l) → l ≡ₚ l' → merge_sort definition_le l = merge_sort definition_le l'.
Proof.
  intros Hnd Hp.
  eapply (StronglySorted_unique_strong definition_le); [|apply StronglySorted_merge_sort; apply _..|].
  - intros x y Hx Hy Hle Hle'. rewrite merge_sort_Permutation in Hx. rewrite merge_sort_Permutation, <-Hp in Hy.
    apply (NoDup_fmap_elem_inj _ _ x y Hnd Hx Hy). by apply bytes_le_antisym.
  - by rewrite !merge_sort_Permutation.
Qed.

Lemma identified_Some ds jobs :
  identified ds = Some jobs → jobs.*2 = ds ∧ ∀ id job, (id, job) ∈ jobs ↔ job ∈ ds ∧ uuid_from_slice (jd_job_id job) = Some id.
Proof.
  unfold identified. intros Hm%mapM_Some. induction Hm as [|d [i j] ds jobs Hd Hm [IH1 IH2]]; cbn.
  { split; [done|]. intros id job. set_solver. }
  apply fmap_Some in Hd as (i' & Hi & [= -> ->]). split; [by f_equal|]. intros id job. rewrite !elem_of_cons, IH2.
  split; [intros [[= -> ->]|[? ?]]; auto|]. intros [[->|Hin] Hid]; [left|by right]. congruence.
Qed.

Lemma directory_step_keyed a d d' : directory_keyed d → directory_step a d d' → directory_keyed d'.
Proof.
  intros Hk Hs. destruct Hs as [v job id d Hj Hid _ _|v id old d _ _ _ _|v id job d _ _ _|v jobs d _ _ Hids Hnd _];
    unfold directory_keyed; cbn.
  - intros id' job' [[<- <-]|[_ Hl]]%lookup_insert_Some; [done|by apply Hk].
  - intros id' job' [_ Hl]%lookup_delete_Some. by apply Hk.
  - apply Hk.
  - intros id job Hl%elem_of_list_to_map_2. by apply (identified_Some _ _ Hids) in Hl as [_ ?].
Qed.

Lemma reconcile_state_iff `{H : HashOrder} `{HL : !HashOrderLaws H} `{E : CatalogEncoding}
    `{K : Blake2s} `{KL : !Blake2sLaws K} {S : Type} (c : RemoteJobController S) v jobs :
  Inj (=) (=) encode_replace_all → directory_keyed (directory c) → ra_catalog_revision v ≠ 0 →
  identified (ra_jobs v) = Some jobs → NoDup jobs.*1 →
  catalog_reconcile_state c = (ra_catalog_revision v, catalog_digest v) ↔
  directory c = mkDirectory (ra_catalog_revision v) (list_to_map jobs).
Proof.
  intros Hinj Hk Hnz Hids Hnd. destruct (identified_Some _ _ Hids) as [Hsnd Hin].
  set (mine := mj_definition <$> hash_values (cs_remote_jobs (rc_state c))).
  assert (Hperm : mine ≡ₚ (map_to_list (dir_jobs (directory c))).*2).
  { unfold mine, hash_values. cbn. rewrite map_to_list_fmap, hash_iter_perm, <-!list_fmap_compose.
    by apply reflexive_eq, list_fmap_ext; intros ? [].  }
  assert (Hmine : ∀ id job, dir_jobs (directory c) !! id = Some job ↔ job ∈ mine ∧ uuid_from_slice (jd_job_id job) = Some id).
  { intros id job. rewrite Hperm, list_elem_of_fmap. split.
    - intros Hl. split; [|by apply Hk]. exists (id, job). split; [done|]. by apply elem_of_map_to_list.
    - intros [([id' job'] & -> & Hl%elem_of_map_to_list) Hid]. cbn in *. rewrite (Hk _ _ Hl) in Hid. by injection Hid as <-. }
  assert (Hndv : NoDup (jd_job_id <$> ra_jobs v)).
  { rewrite <-Hsnd, <-list_fmap_compose. apply (NoDup_fmap_1 (λ b, uuid_from_slice b)).
    rewrite <-list_fmap_compose. rewrite (list_fmap_ext _ (Some ∘ fst)).
    - rewrite list_fmap_compose. apply NoDup_fmap_2; [apply _|done].
    - intros i [id job] Hi%list_elem_of_lookup_2%Hin. by destruct Hi. }
  assert (Hsame : mine ≡ₚ ra_jobs v ↔ dir_jobs (directory c) = list_to_map jobs).
  { split.
    - intros Hp. apply map_eq. intros id. apply option_eq. intros job. rewrite Hmine, Hp, <-Hin.
      split; [by apply elem_of_list_to_map_1|apply elem_of_list_to_map_2].
    - intros Hd. rewrite Hperm, Hd, <-Hsnd. by rewrite map_to_list_to_map. }
  unfold catalog_reconcile_state, catalog_digest. cbn. fold mine.
  transitivity (cs_catalog_revision (rc_state c) = ra_catalog_revision v ∧ mine ≡ₚ ra_jobs v).
  - case_bool_decide as Hz; [split; [intros [= ? _]|intros [? _]]; congruence|]. split.
    + intros [= Hrev Hd]. split; [done|]. apply blake2s_inj, Hinj in Hd. injection Hd as _ Hd.
      rewrite <-(merge_sort_Permutation definition_le mine), Hd. apply merge_sort_Permutation.
    + intros [Hrev Hp]. rewrite Hrev. do 4 f_equal. symmetry. by apply sorted_definitions_unique.
  - rewrite Hsame. unfold directory. cbn. split; [intros [-> ->]; done|]. by intros [= -> ->].
Qed.

(** C31. The digest the Agent reports tells the Server exactly whether the Agent holds
    its catalog: revision and digest are those of the Server's catalog if and only if
    the Agent's catalog has that revision and those definitions, in whatever order
    either side keeps them (the hash does not collide and the encoding is injective). *)
Theorem digest_decides_resync `{H : HashOrder} `{HL : !HashOrderLaws H} `{E : CatalogEncoding}
    `{K : Blake2s} `{KL : !Blake2sLaws K} {S : Type} (c : RemoteJobController S) v jobs :
  Inj (=) (=) encode_replace_all → directory_keyed (directory c) → ra_catalog_revision v ≠ 0 →
  identified (ra_jobs v) = Some jobs → NoDup jobs.*1 →
  catalog_reconcile_state c = (ra_catalog_revision v, catalog_digest v) ↔
  directory c = mkDirectory (ra_catalog_revision v) (list_to_map jobs).
Proof. apply reconcile_state_iff. Qed.

(** ** Witnesses *)

(** A controller on a fresh scheduler, with a policy in memory that forbids nothing. *)
Definition demo_controller : RemoteJobController Handle :=
  controller_new (Some demo_s0) (mkPolicyManager default_policy None).

Definition demo_after (cmd : JobCommand) (c : RemoteJobController Handle) : RemoteJobController Handle :=
  match apply_command cmd c with Some (_, c') => c' | None => c end.
Definition no_result : JobCommandResult := command_error [] 0 Rejected InvalidCommand "".
Definition demo_result (cmd : JobCommand) (c : RemoteJobController Handle) : JobCommandResult :=
  match apply_command cmd c with Some (r, _) => r | None => no_result end.

Lemma demo_apply cmd c : is_Some (apply_command cmd c) → apply_command cmd c = Some (demo_result cmd c, demo_after cmd c).
Proof. unfold demo_result, demo_after. destruct (apply_command cmd c) as [[r c']|]; [done|]. by intros [? ?]. Qed.

(** Install job 7 at revision 3, run it now, replace the catalog by job 9. *)
Definition demo_command (n : Z) (a : CommandAction) : JobCommand := mkJobCommand (uuid_bytes n) (Some a).
Definition demo_upsert : JobCommand :=
  demo_command 1 (ActUpsert (mkUpsertJob 1 (Some (demo_job 7 3 (Task_Load []))))).
Definition demo_run_now : JobCommand := demo_command 2 (ActRunNow (mkRunJobNow (uuid_bytes 7) 3)).
Definition demo_replacement : ReplaceAllJobs := mkReplaceAllJobs 5 [demo_job 9 1 (Task_Cpu [])].
Definition demo_replace : JobCommand := demo_command 3 (ActReplaceAll demo_replacement).

Definition demo_c1 : RemoteJobController Handle := demo_after demo_upsert demo_controller.
Definition demo_c2 : RemoteJobController Handle := demo_after demo_run_now demo_c1.
Definition demo_c3 : RemoteJobController Handle := demo_after demo_replace demo_c2.

Example demo_commands_applied :
  jr_status (demo_result demo_upsert demo_controller) = Applied ∧
  jr_status (demo_result demo_run_now demo_c1) = Applied ∧
  jr_status (demo_result demo_replace demo_c2) = Applied ∧
  cs_catalog_revision (rc_state demo_c3) = 5.
Proof. vm_compute. done. Qed.

Lemma demo_apply_upsert :
  apply_command demo_upsert demo_controller = Some (demo_result demo_upsert demo_controller, demo_c1).
Proof. apply demo_apply. vm_compute. by eexists. Qed.
Lemma demo_apply_run_now :
  apply_command demo_run_now demo_c1 = Some (demo_result demo_run_now demo_c1, demo_c2).
Proof. apply demo_apply. vm_compute. by eexists. Qed.
Lemma demo_apply_replace :
  apply_command demo_replace demo_c2 = Some (demo_result demo_replace demo_c2, demo_c3).
Proof. apply demo_apply. vm_compute. by eexists. Qed.

(** The installation of job 7 is sent a second time after two other commands. *)
Lemma command_applied_once_witness :
  apply_command demo_upsert demo_c3 = Some (demo_result demo_upsert demo_controller, demo_c3).
Proof.
  apply (command_applied_once demo_upsert 1 demo_controller demo_c1 demo_c3 (demo_result demo_upsert demo_controller)
    [demo_run_now; demo_replace] [demo_result demo_run_now demo_c1; demo_result demo_replace demo_c2]).
  - split; [constructor|reflexivity|apply Nat.le_0_l].
  - reflexivity.
  - reflexivity.
  - exact demo_apply_upsert.
  - vm_compute. reflexivity.
  - unfold CACHE_CAPACITY. apply (bool_decide_eq_true_1 _). vm_compute. reflexivity.
  - cbn [apply_commands]. cbv [mbind st_bind]. rewrite demo_apply_run_now, demo_apply_replace. reflexivity.
Defined.

(** The replacement of revision 1 by revision 5. *)
Lemma directory_refines_witness :
  ∃ a, jc_action demo_replace = Some a ∧ directory_step a (directory demo_c2) (directory demo_c3).
Proof.
  assert (Hm : revisions_match (rc_state demo_c2)).
  { intros id m Hm. apply elem_of_map_to_list in Hm. vm_compute in Hm. apply list_elem_of_singleton in Hm.
    injection Hm as -> ->. reflexivity. }
  destruct (directory_refines demo_replace demo_c2 (demo_result demo_replace demo_c2) demo_c3 Hm demo_apply_replace)
    as [_ Hd].
  replace (parse_uuid (jc_command_id demo_replace) "command_id") with (@Ok string Z 3) in Hd by reflexivity.
  replace (cs_cached_results (rc_state demo_c2) !! 3) with (@None JobCommandResult) in Hd by (vm_compute; reflexivity).
  rewrite bool_decide_eq_true_2 in Hd by (vm_compute; reflexivity). destruct Hd as [_ Hd]. exact Hd.
Defined.

(** An injective encoding. *)
Definition demo_catalog_encoding : CatalogEncoding := λ v,
  [Z.pos (encode (ra_catalog_revision v, ra_jobs v))].
#[export] Existing Instance demo_catalog_encoding.

Lemma demo_catalog_encoding_inj : Inj (=) (=) (@encode_replace_all demo_catalog_encoding).
Proof.
  intros [r1 l1] [r2 l2]. unfold encode_replace_all, demo_catalog_encoding. cbn. intros [= He].
  apply encode_inj in He. by injection He as -> ->.
Qed.

(** After the replacement the Agent reports the digest of the Server's catalog. *)
Lemma digest_decides_resync_witness :
  catalog_reconcile_state demo_c3 = (5, catalog_digest demo_replacement).
Proof.
  apply (digest_decides_resync (KL := demo_hash_laws) demo_c3 demo_replacement [(9, demo_job 9 1 (Task_Cpu []))]).
  - exact demo_catalog_encoding_inj.
  - intros id job Hl. apply elem_of_map_to_list in Hl. vm_compute in Hl. apply list_elem_of_singleton in Hl.
    injection Hl as -> ->. reflexivity.
  - discriminate.
  - reflexivity.
  - apply NoDup_singleton.
  - vm_compute. reflexivity.
Defined.
