(* ===== verification/RemoteSafety.v ===== *)
(** * The remote job controller and its scheduler

    With a scheduler that keeps the laws of [SchedulerPort.v]: which of the
    controller's commands change which jobs, the enforcement of the local policy, the
    agreement of index and scheduler after a replacement, and the consequences of a
    generation the controller does not know. *)

From stdpp Require Import base gmap strings list pretty sorting.
From S2P Require Import Prelude StLogic Rotation Credential SchedModel Timing ReadyQueue Actor Engine Demo.
From S2P Require Import Proto Catalog JobEvents Policy Compiler SchedulerPort RemoteJobs RemoteTheorems.

(** The jobs the controller owns. *)
Abbreviation owned c := (cs_remote_jobs (rc_state c)) (only parsing).

Section Calls.
Context `{C : Chrono} `{H : HashOrder} `{R : Runtime} `{B : TaskBuilders} {S : Type} `{P : !SchedulerPort S}
  `{L : !SchedulerPortLaws S}.

(** The jobs the scheduler of a controller has; none once the actor is gone. *)
Definition sees (c : RemoteJobController S) (w : gmap Z JobView) : Prop := view (rc_scheduler c) = Some w.
Definition sound (c : RemoteJobController S) : Prop := port_inv (rc_scheduler c).

(** From [c] to [c'] only the scheduler changed, as [Q] says of the answer. *)
Definition called {A} (r : A) (c c' : RemoteJobController S)
    (Q : A → gmap Z JobView → gmap Z JobView → Prop) : Prop :=
  sound c → sound c' ∧ rc_state c' = rc_state c ∧ rc_policy c' = rc_policy c ∧
  ∀ w', sees c' w' → ∃ w, sees c w ∧ Q r w w'.

Lemma scheduler_call_leads {A} (op : Call S A) c r c' Q :
  (∀ s, leads port_inv view (op s) s Q) → scheduler_call op c = Some (r, c') → called r c c' Q.
Proof.
  intros Hop Hs Hinv. unfold scheduler_call in Hs. specialize (Hop (rc_scheduler c) Hinv).
  destruct (op (rc_scheduler c)) as [r0 s0]. injection Hs as <- <-. destruct Hop as [Hinv' Hop].
  split_and!; [done..|]. unfold sees. cbn in *. intros w' Hw. rewrite Hw in Hop. done.
Qed.

Lemma scheduler_call_alive {A} (op : Call S A) c (a : A) c' Q :
  (∀ s, leads port_inv view (op s) s Q) → scheduler_call op c = Some (Ok a, c') → sound c → ∃ w', sees c' w'.
Proof.
  intros Hop Hs Hinv. unfold scheduler_call in Hs. specialize (Hop (rc_scheduler c) Hinv).
  destruct (op (rc_scheduler c)) as [r0 s0]. injection Hs as -> <-. destruct Hop as [_ Hop]. unfold sees. cbn in *.
  destruct (view s0) as [w'|]; [by exists w'|done].
Qed.

Lemma control_call_Some {A} (op : Call S A) c r c' :
  control_call op c = Some (r, c') → ∃ r0, scheduler_call op c = Some (r0, c') ∧ r = map_err scheduler_error r0.
Proof.
  unfold control_call. intros Hs. apply st_bind_Some in Hs as (r0 & c1 & Hs & [-> ->]%st_ret_Some). eauto.
Qed.

Lemma control_call_leads {A} (op : Call S A) c r c' Q :
  (∀ s, leads port_inv view (op s) s Q) → control_call op c = Some (r, c') →
  called r c c' (λ r w w', match r with Ok a => Q (Ok a) w w' | Err _ => ∃ e, Q (Err e) w w' end).
Proof.
  intros Hop (r0 & Hs & ->)%control_call_Some Hinv.
  destruct (scheduler_call_leads op c r0 c' Q Hop Hs Hinv) as (? & ? & ? & Hv). split_and!; [done..|].
  intros w' (w & Hw & HQ)%Hv. exists w. split; [done|]. destruct r0; cbn; eauto.
Qed.

(** A call that answers changes nothing when it fails. *)
Lemma control_call_answers {A} (op : Call S A) c r c' Q :
  (∀ s, answers port_inv view (op s) s Q) → control_call op c = Some (r, c') →
  called r c c' (λ r w w', match r with Ok a => Q a w w' | Err _ => w' = w end).
Proof.
  intros Hop Hs Hinv. destruct (control_call_leads op c r c' _ Hop Hs Hinv) as (? & ? & ? & Hv).
  split_and!; [done..|]. intros w' (w & Hw & HQ)%Hv. exists w. split; [done|]. destruct r; [done|]. naive_solver.
Qed.

Lemma scheduler_call_answers {A} (op : Call S A) c r c' Q :
  (∀ s, answers port_inv view (op s) s Q) → scheduler_call op c = Some (r, c') →
  called r c c' (λ r w w', match r with Ok a => Q a w w' | Err _ => w' = w end).
Proof. intros Hop Hs. exact (scheduler_call_leads op c r c' _ Hop Hs). Qed.

(** At most one job changes, and it gets a task of the given kind. *)
Definition at_most (id : JobId) (kind : string) (w w' : gmap Z JobView) : Prop :=
  w' = w ∨ ∃ e', jv_kind e' = kind ∧ w' = <[id := e']> w.

(** What [set_enabled] does to a job whose snapshot is current. *)
Definition reenabled (snap : JobSnapshot) (r : result SchedulerError JobSnapshot) (w w' : gmap Z JobView) : Prop :=
  w !! snap_id snap = Some (snap_view snap) →
  match r with
  | Ok snap' => snap_id snap' = snap_id snap ∧ jv_kind (snap_view snap') = jv_kind (snap_view snap) ∧
      w' = <[snap_id snap := snap_view snap']> w
  | Err _ => w' = w
  end.

Lemma set_enabled_leads snap enabled c r c' :
  set_enabled snap enabled c = Some (r, c') → called r c c' (reenabled snap).
Proof.
  unfold set_enabled. intros Hs.
  assert (Hcall : ∀ op PP, (∀ s, answers port_inv view (op s) s (changed_to (snap_id snap) (snap_version snap) PP)) →
    (∀ e e', PP e e' → jv_kind e' = jv_kind e) → scheduler_call op c = Some (r, c') → called r c c' (reenabled snap)).
  { intros op PP Hop HP Hc Hinv. destruct (scheduler_call_answers op c r c' _ Hop Hc Hinv) as (? & ? & ? & Hv).
    split_and!; [done..|]. intros w' (w & Hw & HQ)%Hv. exists w. split; [done|]. intros Hl.
    destruct r as [snap'|]; [|done]. destruct HQ as (e & Hl' & _ & Hid & HPe & Hw').
    rewrite Hl in Hl'. apply (inj Some) in Hl' as <-. split_and!; [done|by apply HP|done]. }
  destruct enabled, (snap_state snap);
    try (apply st_ret_Some in Hs as [-> ->]; intros Hinv; split_and!; [done..|]; intros w' Hw; exists w';
         split; [done|]; intros Hl; by rewrite insert_id).
  - eapply Hcall; [intros s; apply enable_law|naive_solver|done].
  - eapply Hcall; [intros s; apply enable_law|naive_solver|done].
  - eapply Hcall; [intros s; apply disable_law|by intros ? ? ->|done].
  - eapply Hcall; [intros s; apply disable_law|by intros ? ? ->|done].
Qed.

(** Composition of calls. *)
Lemma called_trans {A A' A''} (r : A) (r' : A') (r'' : A'') c c1 c' Q Q' Q'' :
  called r c c1 Q → called r' c1 c' Q' →
  (∀ w w1 w', Q r w w1 → Q' r' w1 w' → Q'' r'' w w') → called r'' c c' Q''.
Proof.
  intros H1 H2 HQ Hinv. destruct (H1 Hinv) as (Hinv1 & E1 & E2 & V1). destruct (H2 Hinv1) as (Hinv2 & E3 & E4 & V2).
  split_and!; [done|congruence..|]. intros w' (w1 & Hw1 & HQ')%V2. destruct (V1 w1 Hw1) as (w & Hw & HQ1). eauto.
Qed.

Lemma called_mono {A A'} (r : A) (r' : A') c c' Q Q' :
  called r c c' Q → (∀ w w', Q r w w' → Q' r' w w') → called r' c c' Q'.
Proof. intros H1 HQ Hinv. destruct (H1 Hinv) as (? & ? & ? & V). split_and!; [done..|]. intros w' (w & ? & ?)%V. eauto. Qed.

(** Both ways of [upsert_compiled]: what is left in the scheduler, and the snapshot. *)
Definition upserted (compiled : CompiledJob) (r : result ControlError JobSnapshot) (w w' : gmap Z JobView) : Prop :=
  match r with
  | Ok snap => jv_kind (snap_view snap) = task_kind (cj_task compiled) ∧ w' = <[cj_id compiled := snap_view snap]> w
  | Err _ => at_most (cj_id compiled) (task_kind (cj_task compiled)) w w'
  end.

Lemma update_owned_leads cur compiled c r c' :
  update_owned cur compiled c = Some (r, c') →
  called r c c' (λ r w w', upserted compiled r w w' ∧
    ((∃ e, w !! cj_id compiled = Some e ∧ jv_version e = mj_generation cur) ∨ w' = w ∧ is_err r = true)).
Proof.
  unfold update_owned. intros Hs. try_step Hs snap c1 H1.
  - apply st_bind_Some in Hs as (r2 & c2 & H2 & [-> ->]%st_ret_Some).
    eapply control_call_answers in H1; [|intros s; apply update_law]. apply set_enabled_leads in H2.
    eapply called_trans; [exact H1|exact H2|].
    intros w w1 w' (e & Hl & Hv & Hid & (_ & _ & Hk) & Hw1) HQ. cbn in Hk. unfold reenabled in HQ.
    rewrite Hid, Hw1, lookup_insert_eq in HQ. specialize (HQ eq_refl). split; [|left; eauto].
    destruct r2 as [snap2|e2]; cbn.
    + destruct HQ as (Hid2 & Hk2 & Hw'). split; [by rewrite <-Hk|]. by rewrite Hw', insert_insert_eq.
    + right. exists (snap_view snap). by rewrite HQ.
  - eapply control_call_answers in H1; [|intros s; apply update_law].
    eapply called_mono; [exact H1|]. cbn. intros w w' ->. split; [by left|by right].
Qed.

Lemma install_new_leads compiled c r c' :
  install_new compiled c = Some (r, c') →
  called r c c' (λ r w w', upserted compiled r w w' ∧ (w !! cj_id compiled = None ∨ w' = w ∧ is_err r = true)).
Proof.
  unfold install_new. intros Hs. try_step Hs new_id c1 H1.
  - eapply control_call_answers in H1; [|intros s; apply install_law].
    try_step Hs found c2 H2; (eapply control_call_answers in H2; [|intros s; apply get_law]).
    + apply st_ret_Some in Hs as [-> ->]. eapply called_trans; [exact H1|exact H2|].
      intros w w1 w' (_ & Hno & Hw1) [-> Hf]. rewrite Hw1, lookup_insert_eq in Hf.
      destruct found as [snap|]; [|done]. apply (inj Some) in Hf. split; [|by left].
      change (ok_or _ (Some snap)) with (@Ok ControlError _ snap). unfold upserted. by rewrite Hf, Hw1.
    + eapply called_trans; [exact H1|exact H2|]. cbn.
      intros w w1 w' (_ & Hno & Hw1) ->. split; [|by left]. right. eexists. split; [|exact Hw1]. done.
  - eapply control_call_answers in H1; [|intros s; apply install_law].
    eapply called_mono; [exact H1|]. cbn. intros w w' ->. split; [by left|by right].
Qed.

End Calls.

(** ** The actions *)

Section Actions.
Context `{C : Chrono} `{H : HashOrder} `{HL : !HashOrderLaws H} `{R : Runtime} `{B : TaskBuilders}
  {S : Type} `{P : !SchedulerPort S} `{L : !SchedulerPortLaws S}.

(** From [c] to [c'] the policy stays and the scheduler changes as [Q] says. *)
Definition acts (c c' : RemoteJobController S) (Q : gmap Z JobView → gmap Z JobView → Prop) : Prop :=
  sound c → sound c' ∧ rc_policy c' = rc_policy c ∧ ∀ w', sees c' w' → ∃ w, sees c w ∧ Q w w'.

Lemma called_acts {A} (r : A) c c' (Q : A → gmap Z JobView → gmap Z JobView → Prop) Q' :
  called r c c' Q → (∀ w w', rc_state c' = rc_state c → Q r w w' → Q' w w') → acts c c' Q'.
Proof.
  intros Hc HQ Hinv. destruct (Hc Hinv) as (? & ? & ? & V). split_and!; [done..|].
  intros w' (w & ? & ?)%V. eauto.
Qed.

Lemma acts_mono c c' Q Q' : acts c c' Q → (∀ w w', Q w w' → Q' w w') → acts c c' Q'.
Proof. intros Hc HQ Hinv. destruct (Hc Hinv) as (? & ? & V). split_and!; [done..|]. intros w' (w & ? & ?)%V. eauto. Qed.

(** Changing the controller's own state after that. *)
Lemma acts_state c c' f Q : acts c c' Q → acts c (mkController (rc_scheduler c') (f (rc_state c')) (rc_policy c')) Q.
Proof. intros Hc Hinv. destruct (Hc Hinv) as (? & ? & V). done. Qed.

Lemma acts_refl c (Q : gmap Z JobView → gmap Z JobView → Prop) : (∀ w, Q w w) → acts c c Q.
Proof. intros HQ Hinv. split_and!; [done..|]. intros w' Hw. eauto. Qed.

(** The job is the controller's at the generation it knows, or new to both. *)
Definition claimed (c : RemoteJobController S) (id : JobId) (w : gmap Z JobView) : Prop :=
  match owned c !! id with
  | Some cur => ∃ e, w !! id = Some e ∧ jv_version e = mj_generation cur
  | None => w !! id = None
  end.

Lemma upsert_compiled_acts compiled c r c' :
  upsert_compiled compiled true c = Some (r, c') → acts c c' (λ w w',
    match r with
    | Ok _ => claimed c (cj_id compiled) w ∧ ∃ e', jv_kind e' = task_kind (cj_task compiled) ∧
        w' = <[cj_id compiled := e']> w ∧
        rc_state c' = set_cs_remote_jobs
          (<[cj_id compiled := managed compiled (jv_version e')]> (owned c)) (rc_state c)
    | Err _ => rc_state c' = rc_state c ∧ at_most (cj_id compiled) (task_kind (cj_task compiled)) w w' ∧
        (w' = w ∨ claimed c (cj_id compiled) w)
    end).
Proof.
  unfold upsert_compiled, claimed. intros Hs. apply st_bind_Some in Hs as (? & ? & [-> ->]%st_get_Some & Hs).
  assert (Hcall : ∀ r1 c1, match owned c !! cj_id compiled with
      | Some current =>
          if bool_decide (cj_revision compiled < mj_revision current)
             || true && bool_decide (cj_revision compiled = mj_revision current)
          then (mret (Err (control_rejected RevisionConflict "job revision must increase")) : ST _ _)
          else update_owned current compiled
      | None => install_new compiled
      end c = Some (r1, c1) → called r1 c c1 (λ r w w', upserted compiled r w w' ∧
        (claimed c (cj_id compiled) w ∨ w' = w ∧ is_err r = true))).
  { unfold claimed. intros r1 c1 H1. destruct (owned c !! cj_id compiled) as [cur|].
    - destruct (_ || _).
      + apply st_ret_Some in H1 as [-> ->]. intros Hinv. split_and!; [done..|]. intros w' Hw. exists w'.
        split; [done|]. split; [by left|by right].
      + by apply update_owned_leads in H1.
    - by apply install_new_leads in H1. }
  try_step Hs snap c1 H1; apply Hcall in H1.
  - apply st_bind_Some in Hs as (? & c2 & ->%modify_state_Some & [-> ->]%st_ret_Some). apply acts_state.
    eapply called_acts; [exact H1|]. intros w w' Hst [[Hk Hw] Hcl].
    split; [destruct Hcl as [Hcl|[_ [=]]]; exact Hcl|]. exists (snap_view snap). cbn. by rewrite Hst.
  - eapply called_acts; [exact H1|]. intros w w' Hst [Hup Hcl]. split_and!; [done..|]. unfold claimed in Hcl. tauto.
Qed.

Lemma upsert_acts v c r c' :
  upsert v c = Some (r, c') → acts c c' (λ w w',
    (∃ e, r = Err e ∧ c' = c ∧ w' = w) ∨
    ∃ job compiled, up_job v = Some job ∧ compile_job job = Ok compiled ∧
      check_definition (pm_policy (rc_policy c)) job = Ok tt ∧
      match r with
      | Ok _ => claimed c (cj_id compiled) w ∧ ∃ e', jv_kind e' = task_kind (cj_task compiled) ∧
          w' = <[cj_id compiled := e']> w ∧
          rc_state c' = set_cs_directory (up_catalog_revision v)
            (<[cj_id compiled := managed compiled (jv_version e')]> (owned c)) (rc_state c)
      | Err _ => rc_state c' = rc_state c ∧ at_most (cj_id compiled) (task_kind (cj_task compiled)) w w' ∧
          (w' = w ∨ claimed c (cj_id compiled) w)
      end).
Proof.
  unfold upsert. intros Hs. apply st_bind_Some in Hs as (? & ? & [-> ->]%st_get_Some & Hs).
  do 4 (apply st_try_Some in Hs as [(? & ? & [?E ->]%st_ret_Some & Hs)|(e & [_ ->]%st_ret_Some & ->)];
    [|apply acts_refl; intros w; left; by exists e]).
  symmetry in E0, E1, E2. apply ok_or_Ok in E0. apply map_err_Ok in E1, E2.
  match type of E1 with _ = Ok ?u => destruct u end.
  try_step Hs status c1 H1; apply upsert_compiled_acts in H1.
  - apply st_bind_Some in Hs as (? & c2 & ->%modify_state_Some & [-> ->]%st_ret_Some). apply acts_state.
    eapply acts_mono; [exact H1|]. cbv beta. intros w w' (Hcl & e' & Hk & Hw & Hst). right. eexists _, _.
    split_and!; try done. exists e'. split_and!; try done. cbn. by rewrite Hst.
  - eapply acts_mono; [exact H1|]. cbv beta. intros w w' Hq. right. eexists _, _. done.
Qed.

Lemma delete_remote_acts v c r c' :
  delete_remote v c = Some (r, c') → acts c c' (λ w w',
    match r with
    | Ok _ => ∃ id m e, uuid_from_slice (dl_job_id v) = Some id ∧ owned c !! id = Some m ∧ w !! id = Some e ∧
        jv_version e = mj_generation m ∧ w' = delete id w ∧
        rc_state c' = set_cs_directory (dl_catalog_revision v) (delete id (owned c)) (rc_state c)
    | Err _ => w' = w ∧ rc_state c' = rc_state c
    end).
Proof.
  unfold delete_remote. intros Hs. apply st_bind_Some in Hs as (? & ? & [-> ->]%st_get_Some & Hs).
  apply st_try_Some in Hs as [(? & ? & [_ ->]%st_ret_Some & Hs)|(e & [_ ->]%st_ret_Some & ->)]; [|by apply acts_refl].
  apply st_try_Some in Hs as [([id m] & ? & [Hf ->]%st_ret_Some & Hs)|(e & [_ ->]%st_ret_Some & ->)]; [|by apply acts_refl].
  symmetry in Hf. apply find_expected_Ok in Hf as (Hid & Hm & Hv).
  try_step Hs u2 c1 H1; (eapply control_call_answers in H1; [|intros s; apply delete_law]).
  - apply st_bind_Some in Hs as (? & c2 & ->%modify_state_Some & [-> ->]%st_ret_Some). apply acts_state.
    eapply called_acts; [exact H1|]. cbn. intros w w' Hst [(e & Hl & He) Hw]. exists id, m, e.
    split_and!; try done. by rewrite Hst.
  - eapply called_acts; [exact H1|]. done.
Qed.

Lemma run_now_acts v c r c' :
  run_now v c = Some (r, c') → acts c c' (λ w w',
    match r with
    | Ok _ => ∃ id m e e', uuid_from_slice (rn_job_id v) = Some id ∧ owned c !! id = Some m ∧ w !! id = Some e ∧
        jv_version e = mj_generation m ∧ jv_kind e' = jv_kind e ∧ jv_state e' = jv_state e ∧
        check_installed (pm_policy (rc_policy c)) (mj_task_kind m) = Ok tt ∧ w' = <[id := e']> w ∧
        rc_state c' = set_cs_remote_jobs (<[id := set_mj_generation (jv_version e') m]> (owned c)) (rc_state c)
    | Err _ => w' = w ∧ rc_state c' = rc_state c
    end).
Proof.
  unfold run_now. intros Hs. apply st_bind_Some in Hs as (? & ? & [-> ->]%st_get_Some & Hs).
  apply st_try_Some in Hs as [([id m] & ? & [Hf ->]%st_ret_Some & Hs)|(e & [_ ->]%st_ret_Some & ->)]; [|by apply acts_refl].
  symmetry in Hf. apply find_expected_Ok in Hf as (Hid & Hm & Hv).
  apply st_try_Some in Hs as [([] & ? & [Hpol ->]%st_ret_Some & Hs)|(e & [_ ->]%st_ret_Some & ->)]; [|by apply acts_refl].
  symmetry in Hpol. apply map_err_Ok in Hpol. cbv zeta in Hs.
  try_step Hs snap c1 H1; (eapply control_call_answers in H1; [|intros s; apply update_law]).
  - apply st_bind_Some in Hs as (? & c2 & ->%modify_state_Some & [-> ->]%st_ret_Some). apply acts_state.
    eapply called_acts; [exact H1|]. cbn. intros w w' Hst (e & Hl & He & _ & (_ & Hst' & Hk) & Hw).
    exists id, m, e, (snap_view snap). split_and!; try done. by rewrite Hst.
  - eapply called_acts; [exact H1|]. done.
Qed.

End Actions.

(** ** Replacing the catalog *)

Lemma collect_versions_lookup l id v :
  NoDup (snap_id <$> l) →
  collect_versions l !! id = Some v ↔ ∃ snap, snap ∈ l ∧ snap_id snap = id ∧ snap_version snap = v.
Proof.
  induction l as [|x l IH] using rev_ind; intros Hnd.
  { unfold collect_versions. cbn. rewrite lookup_empty. set_solver. }
  unfold collect_versions in *. rewrite foldl_snoc. rewrite fmap_app in Hnd.
  apply NoDup_app in Hnd as (Hnd & Hx & _). rewrite lookup_insert_Some, IH by done. split.
  - intros [[<- <-]|[_ (snap & ? & ?)]]; [exists x|exists snap]; set_solver.
  - intros (snap & [Hin| ->%list_elem_of_singleton]%elem_of_app & <- & <-); [right|by left]. split; [|eauto].
    intros Heq. apply (Hx (snap_id snap)); [by apply list_elem_of_fmap_2|]. rewrite <-Heq. set_solver.
Qed.

Section Replace.
Context `{C : Chrono} `{H : HashOrder} `{HL : !HashOrderLaws H} `{R : Runtime} `{B : TaskBuilders}
  {S : Type} `{P : !SchedulerPort S} `{L : !SchedulerPortLaws S}.

Lemma check_generations_Ok vs jobs u :
  check_generations vs jobs = Ok u → ∀ id m, (id, m) ∈ jobs → vs !! id = Some (mj_generation m).
Proof.
  induction jobs as [|[i mi] jobs IH]; cbn; intros Hc id m Hin; [set_solver|].
  destruct (vs !! i) as [v|] eqn:Hv; [|done]. destruct (bool_decide (v = mj_generation mi)) eqn:Hb; [|done]. bools.
  apply elem_of_cons in Hin as [[= -> ->]|Hin]; [by rewrite Hv, Hb|by apply IH].
Qed.

Lemma check_ownership_Ok (rem : gmap Z ManagedJob) vs ids u :
  check_ownership rem vs ids = Ok u → ∀ id, id ∈ ids → rem !! id = None → vs !! id = None.
Proof.
  induction ids as [|i ids IH]; cbn; intros Hc id Hin Hno; [set_solver|].
  destruct (bool_decide (rem !! i = None) && bool_decide (is_Some (vs !! i))) eqn:Hb; [done|].
  apply elem_of_cons in Hin as [->|Hin]; [|by apply IH]. rewrite bool_decide_eq_true_2 in Hb by done. cbn in Hb.
  apply bool_decide_eq_false_1 in Hb. by apply eq_None_not_Some.
Qed.

Lemma list_versions l (w : gmap Z JobView) :
  NoDup (snap_id <$> l) →
  (∀ id e, w !! id = Some e ↔ ∃ snap, snap ∈ l ∧ snap_id snap = id ∧ snap_view snap = e) →
  collect_versions l = jv_version <$> w.
Proof.
  intros Hnd Hw. apply map_eq. intros id. apply option_eq. intros v.
  rewrite collect_versions_lookup, lookup_fmap_Some by done. split.
  - intros (snap & Hin & Hid & Hv). exists (snap_view snap). split; [done|]. apply Hw. eauto.
  - intros (e & <- & (snap & ? & ? & <-)%Hw). exists snap. done.
Qed.

(** The plan [replace_all] hands to the scheduler. *)
Definition replace_plan (c : RemoteJobController S) (jobs : list CompiledJob) : SchedulerReconcilePlan :=
  mkReconcilePlan (updates_of (owned c) jobs) (additions_of (owned c) jobs)
    ((λ im, (im.1, mj_generation im.2)) <$>
       filter (λ im, im.1 ∉ (list_to_set (cj_id <$> jobs) : gset Z)) (hash_iter (owned c))).

(** All that was checked before the plan was handed over. *)
Record replace_checked (v : ReplaceAllJobs) (c : RemoteJobController S) (jobs : list CompiledJob)
    (w : gmap Z JobView) : Prop := {
  rk_jobs : identified (ra_jobs v) = Some ((λ c, (cj_id c, cj_definition c)) <$> jobs);
  rk_nodup : NoDup (cj_id <$> jobs);
  rk_compiled : ∀ c0, c0 ∈ jobs → compile_job (cj_definition c0) = Ok c0 ∧
    check_definition (pm_policy (rc_policy c)) (cj_definition c0) = Ok tt;
  rk_generations : ∀ id m, owned c !! id = Some m → ∃ e, w !! id = Some e ∧ jv_version e = mj_generation m;
  rk_new : ∀ c0, c0 ∈ jobs → owned c !! cj_id c0 = None → w !! cj_id c0 = None;
}.

Lemma replace_all_acts v c r c' :
  replace_all v c = Some (r, c') → acts c c' (λ w w',
    (is_err r = true ∧ w' = w ∧ rc_state c' = rc_state c) ∨
    ∃ jobs, replace_checked v c jobs w ∧ within_plan (replace_plan c jobs) w w' ∧
      match r with
      | Ok _ => ∃ snaps index, plan_applied (replace_plan c jobs) snaps w w' ∧
          new_index (owned c) (collect_versions snaps) jobs ∅ = Ok index ∧
          rc_state c' = set_cs_directory (ra_catalog_revision v) index (rc_state c)
      | Err _ => rc_state c' = rc_state c
      end).
Proof.
  unfold replace_all. intros Hs. apply st_bind_Some in Hs as (? & ? & [-> ->]%st_get_Some & Hs). cbv zeta in Hs.
  apply st_try_Some in Hs as [(? & ? & [_ ->]%st_ret_Some & Hs)|(? & [_ ->]%st_ret_Some & ->)];
    [|apply acts_refl; intros w; by left].
  apply st_try_Some in Hs as [([ids jobs] & ? & [Hc ->]%st_ret_Some & Hs)|(? & [_ ->]%st_ret_Some & ->)];
    [|apply acts_refl; intros w; by left].
  symmetry in Hc. apply compile_all_Ok in Hc as (new & Hnew & Hids & Hnd & _ & Hids' & Hall).
  cbn in Hnew. subst new. rewrite (left_id_L ∅ (∪)) in Hids'. subst ids. rewrite Forall_forall in Hall.
  try_step Hs snaps c1 H1; (eapply control_call_answers in H1; [|intros s; apply list_law]).
  2:{ eapply called_acts; [exact H1|]. cbn. intros w w' ? ->. by left. }
  assert (Hend : ∀ e, acts c c1 (λ w w', is_err (@Err ControlError (option JobStatus) e) = true ∧ w' = w ∧ rc_state c1 = rc_state c)).
  { intros e. eapply called_acts; [exact H1|]. cbn. intros w w' ? [-> _]. done. }
  apply st_try_Some in Hs as [(u1 & ? & [Hgen ->]%st_ret_Some & Hs)|(e & [_ ->]%st_ret_Some & ->)];
    [|eapply acts_mono; [apply (Hend e)|]; by left].
  apply st_try_Some in Hs as [(u2 & ? & [Hown ->]%st_ret_Some & Hs)|(e & [_ ->]%st_ret_Some & ->)];
    [|eapply acts_mono; [apply (Hend e)|]; by left].
  symmetry in Hgen, Hown.
  (* What the list tells of the scheduler. *)
  assert (Hchk : ∀ w, NoDup (snap_id <$> snaps) →
    (∀ id e, w !! id = Some e ↔ ∃ snap, snap ∈ snaps ∧ snap_id snap = id ∧ snap_view snap = e) →
    replace_checked v c jobs w).
  { intros w Hns Hw. pose proof (list_versions _ _ Hns Hw) as Hv. rewrite Hv in Hgen, Hown. split; try done.
    - intros id m Hm. assert (Hin : (id, m) ∈ hash_iter (owned c)).
      { rewrite hash_iter_perm. by apply elem_of_map_to_list. }
      apply (check_generations_Ok _ _ _ Hgen) in Hin. apply lookup_fmap_Some in Hin as (e & ? & ?). eauto.
    - intros c0 Hc0 Hno.
      assert (Hin : cj_id c0 ∈ hash_keys (gset_to_gmap tt (list_to_set (cj_id <$> jobs) : gset Z))).
      { unfold hash_keys. apply list_elem_of_fmap. exists (cj_id c0, tt). split; [done|].
        rewrite hash_iter_perm, elem_of_map_to_list, lookup_gset_to_gmap_Some. split; [|done].
        apply elem_of_list_to_set. by apply list_elem_of_fmap_2. }
      apply (check_ownership_Ok _ _ _ _ Hown) in Hin; [|done]. rewrite lookup_fmap in Hin.
      by destruct (w !! cj_id c0). }
  try_step Hs config c2 H2; (eapply control_call_answers in H2; [|intros s; apply config_law]).
  2:{ assert (H12 : called tt c c' (λ _ w w', w' = w)).
      { eapply called_trans; [exact H1|exact H2|]. cbn. intros w w1 w' [-> _] ->. done. }
      eapply called_acts; [exact H12|]. cbn. intros w w' ? ->. by left. }
  assert (H12 : called tt c c2 (λ _ w w', w' = w ∧ replace_checked v c jobs w)).
  { eapply called_trans; [exact H1|exact H2|]. cbn. intros w w1 w' (-> & ? & ?) ->. split; [done|by apply Hchk]. }
  assert (Hend2 : ∀ Q, (∀ w, rc_state c2 = rc_state c → replace_checked v c jobs w → Q w w) → acts c c2 Q).
  { intros Q HQ. eapply called_acts; [exact H12|]. cbn. intros w w' ? [-> ?]. auto. }
  st_case; [apply st_ret_Some in Hs as [-> ->]; apply Hend2; by left|].
  apply st_try_Some in Hs as [([us adds] & ? & [Hplan ->]%st_ret_Some & Hs)|(e & [_ ->]%st_ret_Some & ->)];
    [|apply Hend2; by left].
  symmetry in Hplan. apply build_plan_Ok in Hplan as (-> & -> & _). cbn [app fst snd] in Hs.
  change (mkReconcilePlan _ _ _) with (replace_plan c jobs) in Hs.
  try_step Hs applied c3 H3; (eapply control_call_leads in H3; [|intros s; apply reconcile_law]).
  - assert (H13 : called tt c c3 (λ _ w w', replace_checked v c jobs w ∧ within_plan (replace_plan c jobs) w w' ∧
      plan_applied (replace_plan c jobs) applied w w')).
    { eapply called_trans; [exact H12|exact H3|]. cbn. intros w w1 w' [-> ?] [? ?]. done. }
    apply st_try_Some in Hs as [(index & ? & [Hidx ->]%st_ret_Some & Hs)|(e & [_ ->]%st_ret_Some & ->)].
    + apply st_bind_Some in Hs as (? & c4 & ->%modify_state_Some & [-> ->]%st_ret_Some). apply acts_state.
      eapply called_acts; [exact H13|]. cbn. intros w w' Hst (? & ? & ?). right. exists jobs.
      split_and!; [done..|]. exists applied, index. by rewrite Hst.
    + eapply called_acts; [exact H13|]. cbn. intros w w' Hst (? & ? & ?). right. by exists jobs.
  - assert (H13 : called tt c c' (λ _ w w', replace_checked v c jobs w ∧ within_plan (replace_plan c jobs) w w')).
    { eapply called_trans; [exact H12|exact H3|]. cbn. intros w w1 w' [-> ?] (? & ? & _). done. }
    eapply called_acts; [exact H13|]. cbn. intros w w' Hst [? ?]. right. by exists jobs.
Qed.

End Replace.

(** *** What the plan touches *)

Section PlanIds.
Context `{H : HashOrder} `{HL : !HashOrderLaws H} {S : Type}.

Lemma elem_of_updates rem jobs u :
  u ∈ updates_of rem jobs ↔ ∃ c0 cur, c0 ∈ jobs ∧ rem !! cj_id c0 = Some cur ∧
    cj_definition c0 ≠ mj_definition cur ∧ u = update_of cur c0.
Proof.
  unfold updates_of. rewrite list_elem_of_omap. split.
  - intros (c0 & Hin & (cur & Hcur & Hu)%bind_Some). case_bool_decide; [|done]. injection Hu as <-. eauto 6.
  - intros (c0 & cur & Hin & Hcur & Hne & ->). exists c0. split; [done|]. rewrite Hcur. cbn. by rewrite bool_decide_eq_true_2.
Qed.

Lemma elem_of_additions rem jobs a :
  a ∈ additions_of rem jobs ↔ ∃ c0, c0 ∈ jobs ∧ rem !! cj_id c0 = None ∧ a = addition_of c0.
Proof.
  unfold additions_of. rewrite list_elem_of_omap. split.
  - intros (c0 & Hin & Ha). destruct (rem !! cj_id c0) eqn:Hc; [done|]. injection Ha as <-. eauto.
  - intros (c0 & Hin & Hno & ->). exists c0. by rewrite Hno.
Qed.

Lemma elem_of_deletions (c : RemoteJobController S) jobs id :
  id ∈ (plan_deletions (replace_plan c jobs)).*1 ↔ is_Some (owned c !! id) ∧ id ∉ cj_id <$> jobs.
Proof.
  cbn. rewrite <-list_fmap_compose, list_elem_of_fmap. split.
  - intros ([i m] & -> & [Hno Hin]%list_elem_of_filter). rewrite hash_iter_perm in Hin.
    apply elem_of_map_to_list in Hin. cbn in *. split; [eauto|]. by rewrite elem_of_list_to_set in Hno.
  - intros [[m Hm] Hno]. exists (id, m). split; [done|]. apply list_elem_of_filter. cbn.
    rewrite elem_of_list_to_set, hash_iter_perm, elem_of_map_to_list. done.
Qed.

Lemma update_ids_NoDup rem jobs : NoDup (cj_id <$> jobs) → NoDup (upd_job_id <$> updates_of rem jobs).
Proof.
  induction jobs as [|c0 jobs IH]; [constructor|]. rewrite fmap_cons. intros [Hc Hnd]%NoDup_cons.
  unfold updates_of. cbn. destruct (rem !! cj_id c0) as [cur|]; cbn; [|by apply IH].
  case_bool_decide; [|by apply IH]. rewrite fmap_cons. apply NoDup_cons. split; [|by apply IH]. cbn.
  intros (u & Hu & (c1 & ? & Hin & _ & _ & ->)%elem_of_updates)%list_elem_of_fmap. apply Hc. cbn in Hu. rewrite Hu.
  by apply list_elem_of_fmap_2.
Qed.

Lemma addition_ids_NoDup rem jobs : NoDup (cj_id <$> jobs) → NoDup (addn_job_id <$> additions_of rem jobs).
Proof.
  induction jobs as [|c0 jobs IH]; [constructor|]. rewrite fmap_cons. intros [Hc Hnd]%NoDup_cons.
  unfold additions_of. cbn. destruct (rem !! cj_id c0) as [cur|]; cbn; [by apply IH|].
  apply NoDup_cons. split; [|by apply IH].
  intros (a & Ha & (c1 & Hin & _ & ->)%elem_of_additions)%list_elem_of_fmap. apply Hc. cbn in Ha. rewrite Ha.
  by apply list_elem_of_fmap_2.
Qed.

Lemma elem_of_touched (c : RemoteJobController S) jobs id :
  id ∈ touched_ids (replace_plan c jobs) ↔ ∃ c0, c0 ∈ jobs ∧ cj_id c0 = id ∧
    ∀ cur, owned c !! id = Some cur → cj_definition c0 ≠ mj_definition cur.
Proof.
  unfold touched_ids. cbn. rewrite elem_of_app, !list_elem_of_fmap. split.
  - intros [(u & -> & (c0 & cur & Hin & Hcur & Hne & ->)%elem_of_updates)|
            (a & -> & (c0 & Hin & Hno & ->)%elem_of_additions)]; exists c0; (split_and!; [done..|]); cbn;
      intros cur'; [rewrite Hcur; by intros [= <-]|by rewrite Hno].
  - intros (c0 & Hin & <- & Hne). destruct (owned c !! cj_id c0) as [cur|] eqn:Hcur.
    + left. exists (update_of cur c0). split; [done|]. apply elem_of_updates. exists c0, cur. auto.
    + right. exists (addition_of c0). split; [done|]. apply elem_of_additions. eauto.
Qed.

Lemma touched_NoDup (c : RemoteJobController S) jobs :
  NoDup (cj_id <$> jobs) → NoDup (touched_ids (replace_plan c jobs)).
Proof.
  intros Hnd. apply NoDup_app. split_and!; [by apply update_ids_NoDup| |by apply addition_ids_NoDup].
  intros id (u & -> & (c0 & cur & _ & Hcur & _ & ->)%elem_of_updates)%list_elem_of_fmap
    (a & Ha & (c1 & _ & Hno & ->)%elem_of_additions)%list_elem_of_fmap. cbn in Ha. congruence.
Qed.

End PlanIds.

Section Exact.
Context `{C : Chrono} `{H : HashOrder} `{HL : !HashOrderLaws H} `{R : Runtime} `{B : TaskBuilders}
  {S : Type} `{P : !SchedulerPort S} `{L : !SchedulerPortLaws S}.

Lemma replace_all_alive v (c : RemoteJobController S) x c' :
  replace_all v c = Some (Ok x, c') → sound c → ∃ w', sees c' w'.
Proof.
  unfold replace_all. intros Hs Hinv. apply st_bind_Some in Hs as (? & ? & [-> ->]%st_get_Some & Hs). cbv zeta in Hs.
  apply st_try_Some in Hs as [(? & ? & [_ ->]%st_ret_Some & Hs)|(? & _ & [=])].
  apply st_try_Some in Hs as [([ids jobs] & ? & [_ ->]%st_ret_Some & Hs)|(? & _ & [=])].
  apply st_try_Some in Hs as [(snaps & c1 & H1 & Hs)|(? & _ & [=])].
  eapply control_call_answers in H1; [|intros s; apply list_law]. apply H1 in Hinv as [Hinv _].
  do 2 apply st_try_Some in Hs as [(? & ? & [_ ->]%st_ret_Some & Hs)|(? & _ & [=])].
  apply st_try_Some in Hs as [(config & c2 & H2 & Hs)|(? & _ & [=])].
  eapply control_call_answers in H2; [|intros s; apply config_law]. apply H2 in Hinv as [Hinv _].
  st_case; [by apply st_ret_Some in Hs as [? _]|].
  apply st_try_Some in Hs as [(? & ? & [_ ->]%st_ret_Some & Hs)|(? & _ & [=])].
  apply st_try_Some in Hs as [(applied & c3 & (r0 & H3 & Hr)%control_call_Some & Hs)|(? & _ & [=])].
  apply st_try_Some in Hs as [(? & ? & [_ ->]%st_ret_Some & Hs)|(? & _ & [=])].
  apply st_bind_Some in Hs as (? & c4 & ->%modify_state_Some & [_ ->]%st_ret_Some).
  destruct r0 as [a|]; [|done]. eapply (scheduler_call_alive _ _ _ _ _ (reconcile_law _) H3 Hinv).
Qed.

End Exact.

Section ExactJobs.
Context `{C : Chrono} `{H : HashOrder} `{HL : !HashOrderLaws H} `{R : Runtime} `{B : TaskBuilders}
  {S : Type} `{P : !SchedulerPort S} `{L : !SchedulerPortLaws S}.

Lemma compile_job_enabled d c : compile_job d = Ok c → cj_enabled c = jd_enabled d.
Proof.
  intros Hc. unfold compile_job in Hc. repeat apply result_bind_Ok in Hc as (? & _ & Hc). by injection Hc as <-.
Qed.

(** What the controller and the scheduler have for a definition after a replacement: the
    definition with its revision, at the generation of the scheduler; and in the scheduler
    the job as it was, if the controller had the same definition before, and otherwise a
    job with the task of the definition, enabled exactly if the definition is. *)
Definition replaced_as (c c' : RemoteJobController S) (w w' : gmap Z JobView) (id : JobId) (d : JobDefinition) : Prop :=
  ∃ m e, owned c' !! id = Some m ∧ mj_definition m = d ∧ mj_revision m = jd_revision d ∧
    jd_task d ≫= definition_task_kind = Some (mj_task_kind m) ∧
    w' !! id = Some e ∧ jv_version e = mj_generation m ∧
    ((∃ m0, owned c !! id = Some m0 ∧ mj_definition m0 = d ∧ w !! id = Some e) ∨
     (∀ m0, owned c !! id = Some m0 → mj_definition m0 ≠ d) ∧ jv_kind e = mj_task_kind m ∧
       (jv_state e = Enabled ↔ jd_enabled d = true)).

Lemma replaced_installed v c c' jobs snaps index w w' c0 :
  replace_checked v c jobs w → plan_applied (replace_plan c jobs) snaps w w' →
  new_index (owned c) (collect_versions snaps) jobs ∅ = Ok index → owned c' = index →
  c0 ∈ jobs → replaced_as c c' w w' (cj_id c0) (cj_definition c0).
Proof.
  intros Hk Ha Hi Hst Hc0. pose proof (rk_nodup _ _ _ _ Hk) as Hnd. apply new_index_Ok in Hi as [Hin _]; [|done].
  destruct (Hin c0 Hc0) as (g & Hg & Hgen). destruct (rk_compiled _ _ _ _ Hk c0 Hc0) as [Hc _].
  destruct (compile_job_fields _ _ Hc) as (_ & _ & Hrev & Hkind & Htask). pose proof (compile_job_enabled _ _ Hc) as Hen.
  exists (managed c0 g). destruct Hgen as [(cur & Hcur & Hd & ->)|[Hne Hap]].
  - destruct (rk_generations _ _ _ _ Hk _ _ Hcur) as (e & He & Hv). exists e.
    assert (w' !! cj_id c0 = w !! cj_id c0) as Heq.
    { apply (pa_others _ _ _ _ Ha).
      - rewrite elem_of_touched. intros (c1 & Hc1 & Hid & Hne).
        apply (NoDup_fmap_elem_inj _ _ _ _ Hnd Hc1 Hc0) in Hid. subst. by apply (Hne _ Hcur).
      - rewrite elem_of_deletions. intros [_ Hno]. apply Hno. by apply list_elem_of_fmap_2. }
    rewrite Hst, Heq. split_and!; try done. left. by exists cur.
  - assert (Hnew : ∃ e, w' !! cj_id c0 = Some e ∧ jv_kind e = task_kind (cj_task c0) ∧ (jv_state e = Enabled ↔ cj_enabled c0 = true)).
    { destruct (owned c !! cj_id c0) as [cur|] eqn:Hcur.
      - destruct (pa_updated _ _ _ _ Ha (update_of cur c0)) as (e & He & Hk' & He'); [apply elem_of_updates; exists c0, cur; split_and!; try done; by apply not_eq_sym, Hne|].
        exists e. split; [done|]. split; [by apply Hk'|done].
      - exists (added (addition_of c0)). split; [apply (pa_added _ _ _ _ Ha (addition_of c0)), elem_of_additions; by exists c0|]. split; [done|].
        cbn. by destruct (cj_enabled c0). }
    destruct Hnew as (e & He & Hke & Hee). exists e. rewrite Hst. split_and!; try done; [|right; split_and!; [done|by rewrite Hke|by rewrite <-Hen]].
    pose proof (pa_snaps _ _ _ _ Ha) as Hsn.
    assert (Hids : snap_id <$> snaps = touched_ids (replace_plan c jobs)).
    { apply (f_equal (fmap fst)) in Hsn. rewrite <-!list_fmap_compose in Hsn. etrans; [exact Hsn|]. apply list_fmap_id. }
    apply collect_versions_lookup in Hap as (snap & Hsin & Hid & <-); [|rewrite Hids; by apply touched_NoDup].
    assert (Hel : (snap_id snap, Some (snap_view snap)) ∈ (λ id, (id, w' !! id)) <$> touched_ids (replace_plan c jobs)).
    { rewrite <-Hsn. apply list_elem_of_fmap. by exists snap. }
    apply list_elem_of_fmap in Hel as (id' & Heq & _). apply pair_equal_spec in Heq as [<- Heq].
    rewrite Hid, He in Heq. by injection Heq as <-.
Qed.

End ExactJobs.

(** C29. A replacement that succeeds makes index and scheduler agree: the scheduler has
    its local jobs, untouched, and exactly the jobs of the command besides; the controller
    is at the catalog revision of the command and owns exactly the jobs of the command,
    with their definitions and revisions, each at the generation the scheduler has it; and
    a job whose definition is new or changed has in the scheduler the task kind of its
    definition and is enabled exactly if the definition is, while a job whose definition
    did not change is left exactly as it was. *)
Theorem replace_all_exact `{C : Chrono} `{H : HashOrder} `{HL : !HashOrderLaws H} `{R : Runtime}
    `{B : TaskBuilders} {S : Type} `{P : !SchedulerPort S} `{L : !SchedulerPortLaws S}
    v (c : RemoteJobController S) x c' :
  sound c → replace_all v c = Some (Ok x, c') →
  ∃ w w' jobs, sees c w ∧ sees c' w' ∧ identified (ra_jobs v) = Some jobs ∧
    dom w' = (dom w ∖ dom (owned c)) ∪ list_to_set jobs.*1 ∧
    (∀ id, owned c !! id = None → id ∉ jobs.*1 → w' !! id = w !! id) ∧
    cs_catalog_revision (rc_state c') = ra_catalog_revision v ∧
    dom (owned c') = list_to_set jobs.*1 ∧
    ∀ id d, (id, d) ∈ jobs → replaced_as c c' w w' id d.
Proof.
  intros Hinv Hs. destruct (replace_all_alive _ _ _ _ Hs Hinv) as [w' Hw'].
  destruct (replace_all_acts _ _ _ _ Hs Hinv) as (_ & _ & V).
  destruct (V w' Hw') as (w & Hw & [[[=] _]|(jobs & Hk & _ & snaps & index & Ha & Hi & Hst)]).
  exists w, w', ((λ c, (cj_id c, cj_definition c)) <$> jobs).
  pose proof (rk_nodup _ _ _ _ Hk) as Hnd. pose proof Hi as Hi0. apply new_index_Ok in Hi as [Hin Hout]; [|done].
  assert (Hfst : ((λ c, (cj_id c, cj_definition c)) <$> jobs).*1 = cj_id <$> jobs) by (by rewrite <-list_fmap_compose).
  rewrite Hfst. split_and!; [done|done|apply (rk_jobs _ _ _ _ Hk)| | |by rewrite Hst| |].
  - rewrite (pa_dom _ _ _ _ Ha). apply set_eq. intros id.
    rewrite !elem_of_union, !elem_of_difference, !elem_of_list_to_set, elem_of_deletions, !elem_of_dom.
    assert (Hadd : id ∈ addn_job_id <$> plan_additions (replace_plan c jobs) ↔ id ∈ cj_id <$> jobs ∧ owned c !! id = None).
    { cbn. rewrite !list_elem_of_fmap. split.
      - intros (a & -> & (c0 & Hin0 & Hno & ->)%elem_of_additions). cbn. eauto.
      - intros [(c0 & -> & Hin0) Hno]. exists (addition_of c0). split; [done|]. apply elem_of_additions. eauto. }
    rewrite Hadd. clear Hadd. destruct (decide (id ∈ cj_id <$> jobs)) as [Hj|Hj]; [|tauto].
    destruct (owned c !! id) as [m|] eqn:Hm; [|tauto].
    destruct (rk_generations _ _ _ _ Hk id m Hm) as (e & -> & _). naive_solver.
  - intros id Hno Hj. apply (pa_others _ _ _ _ Ha).
    + rewrite elem_of_touched. intros (c0 & Hc0 & <- & _). apply Hj. by apply list_elem_of_fmap_2.
    + rewrite elem_of_deletions, Hno. intros [[? [=]] _].
  - rewrite Hst. cbn. apply set_eq. intros id. rewrite elem_of_dom, elem_of_list_to_set. split.
    + intros [m Hm]. destruct (decide (id ∈ cj_id <$> jobs)); [done|]. by rewrite Hout in Hm.
    + intros (c0 & -> & Hc0)%list_elem_of_fmap. destruct (Hin c0 Hc0) as (g & -> & _). eauto.
  - intros id d (c0 & [= -> ->] & Hc0)%list_elem_of_fmap. eapply replaced_installed; [done..| |done]. by rewrite Hst.
Qed.

(** ** The local policy *)

Section PolicySafety.
Context `{C : Chrono} `{H : HashOrder} `{HL : !HashOrderLaws H} `{R : Runtime} `{B : TaskBuilders}
  {S : Type} `{P : !SchedulerPort S} `{L : !SchedulerPortLaws S}.

(** No remote job whose task the policy forbids is enabled. *)
Definition denied_off (c : RemoteJobController S) : Prop :=
  ∀ w id m e, sees c w → owned c !! id = Some m → w !! id = Some e →
    check_installed (pm_policy (rc_policy c)) (jv_kind e) ≠ Ok tt → jv_state e ≠ Enabled.

(** Every remote job is in the scheduler at the generation and with the task the
    controller has for it. *)
Definition in_step (c : RemoteJobController S) : Prop :=
  ∀ w id m, sees c w → owned c !! id = Some m →
    ∃ e, w !! id = Some e ∧ jv_version e = mj_generation m ∧ jv_kind e = mj_task_kind m.

(** It is enough that every job of the new index is one whose task is allowed, or was
    a remote job before and has its kind and state still. *)
Lemma denied_off_acts c c' Q :
  sound c → acts c c' Q → denied_off c →
  (∀ w w' id m e, Q w w' → owned c' !! id = Some m → w' !! id = Some e →
     check_installed (pm_policy (rc_policy c)) (jv_kind e) = Ok tt ∨
     ∃ m0 e0, owned c !! id = Some m0 ∧ w !! id = Some e0 ∧ jv_kind e0 = jv_kind e ∧ jv_state e0 = jv_state e) →
  denied_off c'.
Proof.
  intros Hinv Hact Hoff Hstep w' id m e Hw' Hm He Hden. destruct (Hact Hinv) as (_ & Hpol & V).
  rewrite Hpol in Hden. destruct (V w' Hw') as (w & Hw & HQ).
  destruct (Hstep w w' id m e HQ Hm He) as [|(m0 & e0 & Hm0 & He0 & Hk & <-)]; [done|].
  apply (Hoff w id m0 e0); try done. by rewrite Hk.
Qed.

Lemma compiled_allowed p d c : check_definition p d = Ok tt → compile_job d = Ok c →
  check_installed p (task_kind (cj_task c)) = Ok tt.
Proof.
  intros Hch Hc. destruct (compile_job_fields _ _ Hc) as (_ & _ & _ & _ & ->). by eapply checked_kind.
Qed.

Lemma upsert_denied_off v c r c' : sound c → denied_off c → upsert v c = Some (r, c') → denied_off c'.
Proof.
  intros Hinv Hoff Hs. eapply denied_off_acts; [done|by apply upsert_acts|done|]. cbv beta.
  intros w w' id m e [(e0 & -> & -> & ->)|(job & compiled & _ & Hc & Hch & HQ)] Hm He; [right; by exists m, e|].
  pose proof (compiled_allowed _ _ _ Hch Hc) as Hok. destruct r as [x|er].
  - destruct HQ as (_ & e' & Hk & -> & Hst). rewrite Hst in Hm. cbn in Hm.
    destruct (decide (cj_id compiled = id)) as [<-|Hne].
    + rewrite lookup_insert_eq in He. injection He as <-. left. by rewrite Hk.
    + rewrite lookup_insert_ne in Hm by done. rewrite lookup_insert_ne in He by done. right. by exists m, e.
  - destruct HQ as (Hst & [->|(e' & Hk & ->)] & _); rewrite Hst in Hm; [right; by exists m, e|].
    destruct (decide (cj_id compiled = id)) as [<-|Hne].
    + rewrite lookup_insert_eq in He. injection He as <-. left. by rewrite Hk.
    + rewrite lookup_insert_ne in He by done. right. by exists m, e.
Qed.

Lemma delete_denied_off v c r c' : sound c → denied_off c → delete_remote v c = Some (r, c') → denied_off c'.
Proof.
  intros Hinv Hoff Hs. eapply denied_off_acts; [done|by apply delete_remote_acts|done|]. cbv beta.
  intros w w' id m e HQ Hm He. right. exists m, e. destruct r as [x|er].
  - destruct HQ as (i & m0 & e0 & _ & _ & _ & _ & -> & Hst). rewrite Hst in Hm. cbn in Hm.
    apply lookup_delete_Some in Hm as [_ Hm]. apply lookup_delete_Some in He as [_ He]. done.
  - destruct HQ as [-> Hst]. by rewrite Hst in Hm.
Qed.

Lemma run_now_denied_off v c r c' : sound c → denied_off c → run_now v c = Some (r, c') → denied_off c'.
Proof.
  intros Hinv Hoff Hs. eapply denied_off_acts; [done|by apply run_now_acts|done|]. cbv beta.
  intros w w' id m e HQ Hm He. right. destruct r as [x|er].
  - destruct HQ as (i & m0 & e0 & e' & _ & Hm0 & He0 & _ & Hk & Hst & _ & -> & Hcs). rewrite Hcs in Hm. cbn in Hm.
    destruct (decide (i = id)) as [<-|Hne].
    + rewrite lookup_insert_eq in He. injection He as <-. exists m0, e0. done.
    + rewrite lookup_insert_ne in Hm by done. rewrite lookup_insert_ne in He by done. by exists m, e.
  - destruct HQ as [-> Hst]. rewrite Hst in Hm. by exists m, e.
Qed.

Lemma replace_all_denied_off v c r c' : sound c → denied_off c → replace_all v c = Some (r, c') → denied_off c'.
Proof.
  intros Hinv Hoff Hs. eapply denied_off_acts; [done|by apply replace_all_acts|done|]. cbv beta.
  intros w w' id m e [(_ & -> & Hst)|(jobs & Hk & Hwith & HQ)] Hm He; [rewrite Hst in Hm; right; by exists m, e|].
  assert (Hok : ∀ c0, c0 ∈ jobs → check_installed (pm_policy (rc_policy c)) (task_kind (cj_task c0)) = Ok tt).
  { intros c0 Hc0. destruct (rk_compiled _ _ _ _ Hk c0 Hc0). by eapply compiled_allowed. }
  destruct (Hwith id) as [Hsame|[[_ Hno]|[(u & e0 & e' & Hu & _ & _ & He' & Hkd)|(a & e' & Ha & _ & He' & Hkd)]]].
  - right. rewrite He in Hsame. destruct (owned c !! id) as [m0|] eqn:Hm0; [by exists m0, e|]. exfalso.
    destruct r as [x|er]; [|rewrite HQ in Hm; congruence].
    destruct HQ as (snaps & index & _ & Hi & Hst). rewrite Hst in Hm. cbn in Hm.
    apply new_index_Ok in Hi as [_ Hout]; [|apply (rk_nodup _ _ _ _ Hk)].
    destruct (decide (id ∈ cj_id <$> jobs)) as [(c0 & -> & Hc0)%list_elem_of_fmap|Hj]; [|by rewrite Hout in Hm].
    by rewrite (rk_new _ _ _ _ Hk c0 Hc0 Hm0) in Hsame.
  - congruence.
  - left. rewrite He in He'. injection He' as <-. cbn in Hu. apply elem_of_updates in Hu as (c0 & cur & Hc0 & _ & _ & ->).
    rewrite Hkd. cbn. by apply Hok.
  - left. rewrite He in He'. injection He' as <-. cbn in Ha. apply elem_of_additions in Ha as (c0 & Hc0 & _ & ->).
    rewrite Hkd. cbn. by apply Hok.
Qed.

Lemma run_action_denied_off a c r c' : sound c → denied_off c → run_action a c = Some (r, c') → denied_off c'.
Proof.
  destruct a; cbn [run_action]; [apply replace_all_denied_off|apply upsert_denied_off|apply delete_denied_off|
    apply run_now_denied_off].
Qed.

Lemma run_action_sound a c r c' : sound c → run_action a c = Some (r, c') → sound c'.
Proof.
  intros Hinv Hs. destruct a; cbn [run_action] in Hs; [apply replace_all_acts in Hs|apply upsert_acts in Hs|
    apply delete_remote_acts in Hs|apply run_now_acts in Hs]; by destruct (Hs Hinv).
Qed.

(** What an action leaves of the jobs with a task the policy forbids: they were there
    before with their task and state, and only a run of a job whose task is allowed
    according to the index changes them. *)
Definition leaves_denied (c : RemoteJobController S) (w w' : gmap Z JobView) : Prop :=
  ∀ id e', w' !! id = Some e' → check_installed (pm_policy (rc_policy c)) (jv_kind e') ≠ Ok tt →
    ∃ e, w !! id = Some e ∧ jv_kind e = jv_kind e' ∧ jv_state e = jv_state e' ∧
      (e = e' ∨ ∃ m, owned c !! id = Some m ∧ check_installed (pm_policy (rc_policy c)) (mj_task_kind m) = Ok tt).
Lemma leaves_denied_refl c w : leaves_denied c w w.
Proof. intros id e He _. exists e. auto. Qed.
Lemma leaves_denied_insert c w id e : check_installed (pm_policy (rc_policy c)) (jv_kind e) = Ok tt → leaves_denied c w (<[id := e]> w).
Proof.
  intros Hok i e' He Hden. destruct (decide (id = i)) as [<-|Hne]; [rewrite lookup_insert_eq in He; by simplify_eq|].
  rewrite lookup_insert_ne in He by done. exists e'. auto.
Qed.

Lemma run_action_leaves a c r c' : run_action a c = Some (r, c') → acts c c' (leaves_denied c).
Proof.
  intros Hs. destruct a as [v|v|v|v]; cbn [run_action] in Hs.
  - eapply acts_mono; [by apply replace_all_acts|]. cbv beta. intros w w' [(_ & -> & _)|(jobs & Hk & Hwith & _)]; [apply leaves_denied_refl|].
    assert (Hok : ∀ c0, c0 ∈ jobs → check_installed (pm_policy (rc_policy c)) (task_kind (cj_task c0)) = Ok tt).
    { intros c0 Hc0. destruct (rk_compiled _ _ _ _ Hk c0 Hc0). by eapply compiled_allowed. }
    intros id e He Hden. destruct (Hwith id) as [Hsame|[[_ Hno]|[(u & e0 & e' & Hu & _ & _ & He' & Hkd)|(a & e' & Ha & _ & He' & Hkd)]]].
    + exists e. rewrite <-Hsame. auto.
    + congruence.
    + exfalso. apply Hden. rewrite He in He'. injection He' as <-. cbn in Hu. apply elem_of_updates in Hu as (c0 & cur & Hc0 & _ & _ & ->).
      rewrite Hkd. cbn. by apply Hok.
    + exfalso. apply Hden. rewrite He in He'. injection He' as <-. cbn in Ha. apply elem_of_additions in Ha as (c0 & Hc0 & _ & ->).
      rewrite Hkd. cbn. by apply Hok.
  - eapply acts_mono; [by apply upsert_acts|]. cbv beta. intros w w' [(? & _ & _ & ->)|(job & compiled & _ & Hc & Hch & HQ)]; [apply leaves_denied_refl|].
    pose proof (compiled_allowed _ _ _ Hch Hc) as Hok. destruct r as [x|er].
    + destruct HQ as (_ & e' & Hk & -> & _). apply leaves_denied_insert. by rewrite Hk.
    + destruct HQ as (_ & [->|(e' & Hk & ->)] & _); [apply leaves_denied_refl|]. apply leaves_denied_insert. by rewrite Hk.
  - eapply acts_mono; [by apply delete_remote_acts|]. cbv beta. intros w w' HQ. destruct r as [x|er]; [|destruct HQ as [-> _]; apply leaves_denied_refl].
    destruct HQ as (i & m0 & e0 & _ & _ & _ & _ & -> & _). intros id e [_ He]%lookup_delete_Some _. exists e. auto.
  - eapply acts_mono; [by apply run_now_acts|]. cbv beta. intros w w' HQ. destruct r as [x|er]; [|destruct HQ as [-> _]; apply leaves_denied_refl].
    destruct HQ as (i & m0 & e0 & e' & _ & Hm0 & He0 & _ & Hk & Hst & Hpol & -> & _). intros id e He _.
    destruct (decide (i = id)) as [<-|Hne]; [|rewrite lookup_insert_ne in He by done; exists e; auto].
    rewrite lookup_insert_eq in He. injection He as <-. exists e0. split_and!; [done..|]. right. eauto.
Qed.

(** An immediate run of a job whose task is forbidden does not reach the scheduler. *)
Lemma run_now_denied v c r c' id m :
  uuid_from_slice (rn_job_id v) = Some id → owned c !! id = Some m →
  check_installed (pm_policy (rc_policy c)) (mj_task_kind m) ≠ Ok tt → run_now v c = Some (r, c') → is_err r = true ∧ c' = c.
Proof.
  intros Hid Hm Hden Hs. unfold run_now in Hs. apply st_bind_Some in Hs as (? & ? & [-> ->]%st_get_Some & Hs).
  apply st_try_Some in Hs as [([id' m'] & ? & [Hf ->]%st_ret_Some & Hs)|(e & [_ ->]%st_ret_Some & ->)]; [|done].
  symmetry in Hf. apply find_expected_Ok in Hf as (Hid' & Hm' & _). simplify_eq.
  apply st_try_Some in Hs as [([] & ? & [Hpol ->]%st_ret_Some & Hs)|(e & [_ ->]%st_ret_Some & ->)]; [|done].
  symmetry in Hpol. by apply map_err_Ok in Hpol.
Qed.

(** A command is its action, and changes of the cache. *)
Lemma apply_command_acts cmd c r c' :
  apply_command cmd c = Some (r, c') →
  c' = c ∨ ∃ c1 order results, (c1 = c ∨ ∃ a x, jc_action cmd = Some a ∧ run_action a c = Some (x, c1)) ∧
    c' = mkController (rc_scheduler c1) (set_cs_cache results order (rc_state c1)) (rc_policy c1).
Proof.
  intros [(e & _ & -> & _)|(id & _ & [[_ ->]|(_ & c1 & Hl & ->)])]%apply_command_cases; [by left..|]. right.
  assert (∃ order results, (if should_cache_result r then cache_result id r (rc_state c1) else rc_state c1) =
    set_cs_cache results order (rc_state c1)) as (order & results & ->).
  { destruct (should_cache_result r).
    - unfold cache_result. destruct (evict _ _ _) as [results order]. eauto.
    - exists (cs_cache_order (rc_state c1)), (cs_cached_results (rc_state c1)). by destruct (rc_state c1). }
  exists c1, order, results. split; [|done].
  apply apply_locked_Some in Hl as [_ [(a & x & ? & ? & _)|(_ & [[_ ->]|(a & e & ? & ? & _)])]]; eauto 6.
Qed.

Lemma not_applied_denied cmd c r c' v id m :
  apply_command cmd c = Some (r, c') → jc_action cmd = Some (ActRunNow v) → uuid_from_slice (rn_job_id v) = Some id →
  owned c !! id = Some m → check_installed (pm_policy (rc_policy c)) (mj_task_kind m) ≠ Ok tt → jr_status r = Applied →
  ∃ k, parse_uuid (jc_command_id cmd) "command_id" = Ok k ∧ cs_cached_results (rc_state c) !! k = Some r.
Proof.
  intros Hs Ha Hid Hm Hden Hr. apply apply_command_cases in Hs as [(e & He & _ & Hrej)|(k & Hk & [[Hc ->]|(Hc & c1 & Hl & _)])]; [congruence|eauto|].
  exfalso. apply apply_locked_Some in Hl as [_ [(a & x & Ha' & Hrun & _)|(Hna & _)]]; [|done].
  rewrite Ha in Ha'. injection Ha' as <-. cbn [run_action] in Hrun. by destruct (run_now_denied v c _ c1 id m Hid Hm Hden Hrun).
Qed.

End PolicySafety.

(** C27. No command of the Server gets around the local policy.  If no remote job with a
    task the policy forbids is enabled, then none is after any command, accepted or
    refused, also when the scheduler failed half-way through it.  No command installs such a
    job, gives a job such a task, or enables one: every job with a forbidden task that the
    scheduler has afterwards it had before, with this task and in this state, and wholly
    unchanged if index and scheduler were in step.  And an immediate run of a job whose task is
    forbidden never reaches the scheduler and is not answered as applied, unless it repeats the id of a
    command whose answer is remembered. *)
Theorem commands_respect_policy `{C : Chrono} `{H : HashOrder} `{HL : !HashOrderLaws H} `{R : Runtime}
    `{B : TaskBuilders} {S : Type} `{P : !SchedulerPort S} `{L : !SchedulerPortLaws S}
    cmd (c : RemoteJobController S) r c' :
  sound c → denied_off c → apply_command cmd c = Some (r, c') →
  let denied kind := check_installed (pm_policy (rc_policy c)) kind ≠ Ok tt in
  sound c' ∧ denied_off c' ∧
  (∀ w', sees c' w' → ∃ w, sees c w ∧ ∀ id e', w' !! id = Some e' → denied (jv_kind e') →
     ∃ e, w !! id = Some e ∧ jv_kind e = jv_kind e' ∧ jv_state e = jv_state e' ∧ (in_step c → e = e')) ∧
  (∀ v id m, jc_action cmd = Some (ActRunNow v) → uuid_from_slice (rn_job_id v) = Some id → owned c !! id = Some m →
     denied (mj_task_kind m) →
     rc_scheduler c' = rc_scheduler c ∧ owned c' = owned c ∧
     (jr_status r = Applied → ∃ k, parse_uuid (jc_command_id cmd) "command_id" = Ok k ∧ cs_cached_results (rc_state c) !! k = Some r)).
Proof.
  intros Hinv Hoff Hs denied. pose proof Hs as Hcases. apply apply_command_acts in Hs as [->|(c1 & order & results & H1 & ->)].
  - split_and!; [done..| |].
    + intros w Hw. exists w. split; [done|]. intros id e He _. exists e. auto.
    + intros v id m Ha Hid Hm Hden. split_and!; [done..|]. by apply (not_applied_denied cmd c r c v id m).
  - assert (Hc1 : sound c1 ∧ denied_off c1 ∧ acts c c1 (leaves_denied c)).
    { destruct H1 as [->|(a & x & _ & Hr)]; [split_and!; [done..|]; apply acts_refl, leaves_denied_refl|].
      split_and!; [by eapply run_action_sound|by eapply run_action_denied_off|by eapply run_action_leaves]. }
    destruct Hc1 as (Hs1 & Hoff1 & Hact). split_and!; [exact Hs1|exact Hoff1| |].
    + intros w' Hw'. destruct (Hact Hinv) as (_ & _ & V). destruct (V w' Hw') as (w & Hw & Hl). exists w. split; [done|].
      intros id e' He' Hden. destruct (Hl id e' He' Hden) as (e & He & Hk & Hst & Hor). exists e. split_and!; [done..|].
      intros Hstep. destruct Hor as [|(m & Hm & Hok)]; [done|]. exfalso. apply Hden.
      destruct (Hstep w id m Hw Hm) as (e0 & He0 & _ & Hk0). simplify_eq. by rewrite <-Hk, Hk0.
    + intros v id m Ha Hid Hm Hden. assert (c1 = c) as ->.
      { destruct H1 as [->|(a & x & Ha' & Hr)]; [done|]. rewrite Ha in Ha'. injection Ha' as <-. cbn [run_action] in Hr. by eapply run_now_denied. }
      split_and!; [done..|]. eapply not_applied_denied; [exact Hcases|done..].
Qed.

(** ** Changing the policy *)

Section PolicyUpdate.
Context `{C : Chrono} `{H : HashOrder} `{HL : !HashOrderLaws H} `{R : Runtime} `{B : TaskBuilders}
  {S : Type} `{P : !SchedulerPort S} `{L : !SchedulerPortLaws S}.

Lemma policy_apply_Ok ok change m update m' :
  policy_apply ok change m = Some (Ok update, m') →
  pu_snapshot update = policy_snapshot (pm_policy m') ∧ (pu_changed update = false → m' = m).
Proof.
  unfold policy_apply. destruct (change_candidate change (pm_policy m)) as [changed candidate].
  destruct changed; cbn; [|by intros [= <- <-]]. destruct (checked_add_u64 _ _) as [rev|]; [|done].
  destruct (pm_files m) as [fs|]; [|by intros [= <- <-]].
  destruct (persist ok _ fs) as [[[[]|e] fs']|]; [by intros [= <- <-]|done|done].
Qed.

(** One job was disabled, in the scheduler and in the index. *)
Definition switched_off (id : JobId) (c c' : RemoteJobController S) (w w' : gmap Z JobView) : Prop :=
  ∃ m e v' reason, owned c !! id = Some m ∧ w !! id = Some e ∧
    w' !! id = Some (mkJobView v' (Disabled reason) (jv_kind e)) ∧ owned c' !! id = Some (set_mj_generation v' m).

Lemma disable_denied_spec snap jobs n c r c' :
  NoDup jobs.*1 → (∀ id m, (id, m) ∈ jobs → owned c !! id = Some m) →
  disable_denied snap jobs n c = Some (r, c') → acts c c' (λ w w',
    (∀ id, w' !! id = w !! id ∧ owned c' !! id = owned c !! id ∨ switched_off id c c' w w') ∧
    (is_ok r = true → ∀ id m, (id, m) ∈ jobs → snapshot_denies snap (mj_task_kind m) = true →
       switched_off id c c' w w')).
Proof.
  revert n c. induction jobs as [|[i mi] jobs IH]; intros n c Hnd Hown Hs; cbn [disable_denied] in Hs.
  { apply st_ret_Some in Hs as [-> ->]. apply acts_refl. intros w. split; [by left|]. set_solver. }
  cbn in Hnd. apply NoDup_cons in Hnd as [Hi Hnd]. destruct (negb _) eqn:Hden.
  { apply IH in Hs; [|done|intros; apply Hown; by right]. eapply acts_mono; [exact Hs|]. intros w w' [Hone Hall].
    split; [done|]. intros Hok id m [[= -> ->]|Hin]%elem_of_cons Hd; [by rewrite Hd in Hden|by eapply Hall]. }
  apply st_bind_Some in Hs as (r1 & c1 & H1 & Hs).
  eapply scheduler_call_answers in H1; [|intros s; apply disable_law].
  destruct r1 as [sn|e].
  2:{ apply st_ret_Some in Hs as [-> ->]. eapply called_acts; [exact H1|]. cbn. intros w w' Hst ->. rewrite Hst.
      split; [by left|done]. }
  apply st_bind_Some in Hs as (? & c2 & ->%modify_state_Some & Hs).
  set (c2 := mkController _ _ _) in Hs. intros Hinv. destruct (H1 Hinv) as (Hinv1 & Hst & Hpol & V1).
  assert (Hmi : owned c !! i = Some mi) by (apply Hown; by left).
  assert (Hc2 : owned c2 = <[i := set_mj_generation (snap_version sn) mi]> (owned c)).
  { unfold c2. cbn. rewrite Hst. by apply alter_Some. }
  apply IH in Hs; [|done|].
  2:{ intros id m Hin. rewrite Hc2, lookup_insert_ne; [apply Hown; by right|]. intros ->.
      apply Hi. apply list_elem_of_fmap. by exists (id, m). }
  destruct (Hs Hinv1) as (Hinv' & Hpol' & V2). split_and!; [done|by rewrite Hpol'|].
  intros w' Hw'. destruct (V2 w' Hw') as (w1 & Hw1 & Hone & Hall).
  destruct (V1 w1 Hw1) as (w & Hw & e & He & _ & _ & Hv & Hw1'). exists w. split; [done|].
  assert (Hback : ∀ id, switched_off id c2 c' w1 w' → switched_off id c c' w w').
  { intros id (m & e1 & v' & reason & Hm & He1 & Hw2 & Ho). rewrite Hc2 in Hm. rewrite Hw1' in He1.
    destruct (decide (i = id)) as [<-|Hne].
    - rewrite lookup_insert_eq in Hm. rewrite lookup_insert_eq in He1. apply (inj Some) in Hm as <-.
      apply (inj Some) in He1 as <-. exists mi, e, v', reason. split_and!; [done..| |done].
      rewrite Hw2. by rewrite Hv.
    - rewrite lookup_insert_ne in Hm by done. rewrite lookup_insert_ne in He1 by done. by exists m, e1, v', reason. }
  assert (Hfirst : switched_off i c c' w w').
  { destruct (Hone i) as [[E1 E2]|Hsw]; [|by apply Hback].
    exists mi, e, (snap_version sn), "disabled by local Agent Job policy". split_and!; [done..| |].
    - rewrite E1, Hw1', lookup_insert_eq, Hv. f_equal. f_equal. by apply (f_equal jv_version) in Hv.
    - rewrite E2, Hc2. apply lookup_insert_eq. }
  split.
  - intros id. destruct (decide (id = i)) as [->|Hne]; [by right|].
    destruct (Hone id) as [[E1 E2]|Hsw]; [left|right; by apply Hback].
    rewrite E1, E2, Hw1', Hc2, !lookup_insert_ne by done. done.
  - intros Hok id m [[= -> ->]|Hin]%elem_of_cons Hd; [done|]. apply Hback. by eapply Hall.
Qed.

End PolicyUpdate.

(** A policy change that succeeds is in force at once: the policy answered is the
    one kept, every remote job it forbids is disabled in the scheduler, and index and
    scheduler are still in step. *)
Theorem policy_change_in_force `{C : Chrono} `{H : HashOrder} `{HL : !HashOrderLaws H} `{R : Runtime}
    `{B : TaskBuilders} {S : Type} `{P : !SchedulerPort S} `{L : !SchedulerPortLaws S}
    ok change (c : RemoteJobController S) app c' :
  sound c → in_step c → denied_off c → update_policy ok change c = Some (Ok app, c') →
  sound c' ∧ in_step c' ∧ denied_off c' ∧ pa_policy app = policy_snapshot (pm_policy (rc_policy c')).
Proof.
  intros Hinv Hstep Hoff. unfold update_policy.
  destruct (policy_apply ok change (rc_policy c)) as [[[update|e] m]|] eqn:Hp; [|done|done].
  apply policy_apply_Ok in Hp as [Hsnap Hsame].
  destruct (pu_changed update); cbn [negb].
  2:{ intros [= <- <-]. rewrite (Hsame eq_refl) in *. destruct c. cbn. rewrite Hsnap. done. }
  set (c1 := mkController (rc_scheduler c) (rc_state c) m). intros Hs.
  apply st_try_Some in Hs as [(n & c2 & Hd & [Heq ->]%st_ret_Some)|(? & _ & [=])]. injection Heq as ->.
  apply disable_denied_spec in Hd; [| |].
  2:{ rewrite hash_iter_perm. apply NoDup_fst_map_to_list. }
  2:{ intros id m' Hin. rewrite hash_iter_perm in Hin. by apply elem_of_map_to_list in Hin. }
  destruct (Hd Hinv) as (Hinv' & Hpol & V). cbn in Hpol. split_and!; [done| | |by rewrite Hpol].
  - intros w' id m' Hw' Hm'. destruct (V w' Hw') as (w & Hw & Hone & _).
    destruct (Hone id) as [[E1 E2]|(m0 & e & v' & reason & Hm0 & He & Hw2 & Ho)].
    + rewrite E1. rewrite E2 in Hm'. by apply (Hstep w id m').
    + rewrite Ho in Hm'. injection Hm' as <-. eexists. split; [exact Hw2|]. cbn. split; [done|].
      destruct (Hstep w id m0 Hw Hm0) as (e0 & He0 & _ & Hk). rewrite He in He0. by injection He0 as <-.
  - intros w' id m' e' Hw' Hm' He' Hden. destruct (V w' Hw') as (w & Hw & Hone & Hall). rewrite Hpol in Hden.
    destruct (Hone id) as [[E1 E2]|(m0 & e & v' & reason & Hm0 & He & Hw2 & Ho)].
    + rewrite E2 in Hm'. destruct (Hstep w id m' Hw Hm') as (e0 & He0 & _ & Hk).
      rewrite <-E1, He' in He0. injection He0 as <-.
      destruct (Hall eq_refl id m') as (? & e1 & ? & reason & _ & _ & Hw2 & _).
      * rewrite hash_iter_perm. by apply elem_of_map_to_list.
      * rewrite Hsnap. apply snapshot_denies_spec. rewrite <-Hk.
        by destruct (check_installed (pm_policy m) (jv_kind e')) as [[]|].
      * rewrite Hw2 in He'. by injection He' as <-.
    + rewrite Hw2 in He'. by injection He' as <-.
Qed.

(** ** A generation the controller does not know *)

Section Stale.
Context `{C : Chrono} `{H : HashOrder} `{HL : !HashOrderLaws H} `{R : Runtime} `{B : TaskBuilders}
  {S : Type} `{P : !SchedulerPort S} `{L : !SchedulerPortLaws S}.

(** The scheduler has a remote job at another generation than the index. *)
Definition stale (id : JobId) (c : RemoteJobController S) : Prop :=
  ∃ w m e, sees c w ∧ owned c !! id = Some m ∧ w !! id = Some e ∧ jv_version e ≠ mj_generation m.

(** The commands that are about a job; a replacement is about all. *)
Definition concerns (id : JobId) (a : CommandAction) : Prop :=
  match a with
  | ActReplaceAll _ => True
  | ActUpsert v => ∃ job, up_job v = Some job ∧ uuid_from_slice (jd_job_id job) = Some id
  | ActDelete v => uuid_from_slice (dl_job_id v) = Some id
  | ActRunNow v => uuid_from_slice (rn_job_id v) = Some id
  end.

Lemma stale_acts id c c' Q w' (r : result ControlError (option JobStatus)) (K : Prop) :
  sound c → stale id c → acts c c' Q → sees c' w' →
  (∀ w m e, owned c !! id = Some m → w !! id = Some e → jv_version e ≠ mj_generation m → Q w w' →
     (K → is_err r = true) ∧ w' !! id = w !! id ∧ owned c' !! id = owned c !! id) →
  (K → is_err r = true) ∧ stale id c'.
Proof.
  intros Hinv (w & m & e & Hw & Hm & He & Hne) Hact Hw' HQ. destruct (Hact Hinv) as (_ & _ & V).
  destruct (V w' Hw') as (w0 & Hw0 & HQ0). unfold sees in Hw, Hw0. rewrite Hw in Hw0. injection Hw0 as <-.
  destruct (HQ w m e Hm He Hne HQ0) as (HK & E1 & E2). split; [done|]. exists w', m, e. by rewrite E1, E2.
Qed.

Lemma run_action_stale id a c r c' w' :
  sound c → stale id c → run_action a c = Some (r, c') → sees c' w' →
  (concerns id a → is_err r = true) ∧ stale id c'.
Proof.
  intros Hinv Hst Hs Hw'. destruct a as [v|v|v|v]; cbn [run_action] in Hs.
  - eapply stale_acts; [done|done|by apply replace_all_acts|done|]. cbv beta.
    intros w m e Hm He Hne [(Her & -> & Hcs)|(jobs & Hk & _)]; [by rewrite Hcs|].
    destruct (rk_generations _ _ _ _ Hk id m Hm) as (e0 & He0 & Hv). congruence.
  - eapply stale_acts; [done|done|by apply upsert_acts|done|]. cbv beta.
    intros w m e Hm He Hne [(er & -> & -> & ->)|(job & compiled & Hjob & Hc & _ & HQ)]; [done|].
    destruct (compile_job_fields _ _ Hc) as (_ & Hid & _).
    assert (Hcl : claimed c (cj_id compiled) w → cj_id compiled ≠ id).
    { intros Hcl Heq. unfold claimed in Hcl. rewrite Heq, Hm in Hcl. naive_solver. }
    destruct r as [x|er].
    + destruct HQ as (Hcl' & e' & _ & -> & Hcs). specialize (Hcl Hcl'). rewrite Hcs. cbn.
      rewrite !lookup_insert_ne by done. split; [|done]. intros (job' & Hj & Hu). exfalso. congruence.
    + destruct HQ as (Hcs & Hat & Hor). rewrite Hcs. split; [done|]. split; [|done].
      destruct Hor as [->|Hor]; [done|]. destruct Hat as [->|(e' & _ & ->)]; [done|].
      rewrite lookup_insert_ne; [done|]. by apply Hcl.
  - eapply stale_acts; [done|done|by apply delete_remote_acts|done|]. cbv beta.
    intros w m e Hm He Hne HQ. destruct r as [x|er]; [|by destruct HQ as [-> ->]].
    destruct HQ as (i & m0 & e0 & Hi & Hm0 & He0 & Hv & -> & Hcs).
    assert (i ≠ id) by naive_solver. rewrite Hcs. cbn. rewrite !lookup_delete_ne by done. split; [|done].
    intros Hc. exfalso. congruence.
  - eapply stale_acts; [done|done|by apply run_now_acts|done|]. cbv beta.
    intros w m e Hm He Hne HQ. destruct r as [x|er]; [|by destruct HQ as [-> ->]].
    destruct HQ as (i & m0 & e0 & e' & Hi & Hm0 & He0 & Hv & _ & _ & _ & -> & Hcs).
    assert (i ≠ id) by naive_solver. rewrite Hcs. cbn. rewrite !lookup_insert_ne by done. split; [|done].
    intros Hc. exfalso. congruence.
Qed.

Lemma clear_loop_Ok jobs c u c' w :
  NoDup jobs.*1 → sound c → sees c w → clear_loop jobs c = Some (Ok u, c') →
  ∀ id m, (id, m) ∈ jobs → ∃ e, w !! id = Some e ∧ jv_version e = mj_generation m.
Proof.
  revert c w. induction jobs as [|[i mi] jobs IH]; intros c w Hnd Hinv Hw Hs id m Hin; [set_solver|].
  cbn in Hs, Hnd. apply NoDup_cons in Hnd as [Hi Hnd].
  apply st_bind_Some in Hs as (r1 & c1 & H1 & Hs). destruct r1 as [u1|e1]; [|by apply st_ret_Some in Hs as [? _]].
  destruct (scheduler_call_alive _ _ _ _ _ (delete_law _ _) H1 Hinv) as [w1 Hw1].
  eapply scheduler_call_answers in H1; [|intros s; apply delete_law].
  destruct (H1 Hinv) as (Hinv1 & _ & _ & V). destruct (V w1 Hw1) as (w0 & Hw0 & (e & He & Hv) & ->).
  unfold sees in Hw, Hw0. rewrite Hw in Hw0. injection Hw0 as <-.
  apply st_bind_Some in Hs as (? & c2 & ->%modify_state_Some & Hs).
  apply elem_of_cons in Hin as [[= -> ->]|Hin]; [eauto|].
  edestruct (λ A B, IH _ (delete i w) Hnd A B Hs id m Hin) as (e' & He' & Hv'); [exact Hinv1|exact Hw1|].
  apply lookup_delete_Some in He' as [_ He']. eauto.
Qed.

End Stale.

(** Defect: when the scheduler changes the generation of a remote job on its own (it
    disables a job whose task fails), the controller can never catch up: as long as the
    scheduler lives, the index stays out of step, every later change, deletion and
    immediate run of that job and every replacement of the catalog is refused, and
    clearing the remote jobs fails. *)
Theorem stale_generation_is_final `{C : Chrono} `{H : HashOrder} `{HL : !HashOrderLaws H} `{R : Runtime}
    `{B : TaskBuilders} {S : Type} `{P : !SchedulerPort S} `{L : !SchedulerPortLaws S}
    id (c : RemoteJobController S) :
  sound c → stale id c →
  (∀ cmd r c' w', apply_command cmd c = Some (r, c') → sees c' w' →
     sound c' ∧ stale id c' ∧
     ∀ a k, jc_action cmd = Some a → concerns id a → parse_uuid (jc_command_id cmd) "command_id" = Ok k →
       cs_cached_results (rc_state c) !! k = None → jr_status r ≠ Applied) ∧
  (∀ r c', clear_remote_jobs c = Some (r, c') → is_err r = true).
Proof.
  intros Hinv Hst. split.
  - intros cmd r c' w' Hs Hw'. pose proof Hs as Hcases.
    apply apply_command_cases in Hcases as [(e & He & -> & _)|(k & Hk & [[Hc ->]|(Hc & c1 & Hl & ->)])].
    + split_and!; [done..|]. intros a k _ _ Hk. congruence.
    + split_and!; [done..|]. intros a k' _ _ Hk' Hno. congruence.
    + change (sees c1 w') in Hw'. apply apply_locked_Some in Hl as [_ [(a & x & Ha & Hr & _)|(Hna & Hl)]].
      * destruct (run_action_stale id a c _ c1 w' Hinv Hst Hr Hw') as [Herr Hst1].
        split_and!; [exact (run_action_sound _ _ _ _ Hinv Hr)| |].
        { destruct Hst1 as (w1 & m & e & ? & ? & ? & ?). exists w1, m, e. split_and!; try done.
          destruct (should_cache_result r); [|done]. unfold cache_result. by destruct (evict _ _ _). }
        intros a' k' Ha' Hcon. rewrite Ha in Ha'. injection Ha' as <-. by specialize (Herr Hcon).
      * assert (Hc1 : sound c1 ∧ stale id c1).
        { destruct Hl as [[_ ->]|(a & e & _ & Hr & _)]; [done|].
          split; [by eapply run_action_sound|]. by destruct (run_action_stale id a c _ c1 w' Hinv Hst Hr Hw'). }
        destruct Hc1 as [Hs1 Hst1]. split_and!; [exact Hs1| |done].
        destruct Hst1 as (w1 & m & e & ? & ? & ? & ?). exists w1, m, e. split_and!; try done.
        destruct (should_cache_result r); [|done]. unfold cache_result. by destruct (evict _ _ _).
  - intros r c' Hs. destruct r as [u|e]; [exfalso|done]. destruct Hst as (w & m & e & Hw & Hm & He & Hne).
    unfold clear_remote_jobs in Hs. apply st_bind_Some in Hs as (? & ? & [-> ->]%st_get_Some & Hs).
    apply st_try_Some in Hs as [(u1 & c1 & Hl & _)|(? & _ & [=])].
    eapply clear_loop_Ok in Hl as (e0 & He0 & Hv); [|rewrite hash_iter_perm; apply NoDup_fst_map_to_list|done|done|].
    + by rewrite He in He0; injection He0 as <-.
    + rewrite hash_iter_perm. by apply elem_of_map_to_list.
Qed.

(** ** Witnesses *)

Definition handle_keyed (h : Handle) : bool :=
  match h with Some s => bool_decide (keyed s) | None => true end.

Lemma handle_keyed_sound (c : RemoteJobController Handle) : handle_keyed (rc_scheduler c) = true → sound c.
Proof. unfold sound. cbn. destruct (rc_scheduler c) as [s|]; cbn; [apply bool_decide_eq_true_1|done]. Qed.

(** The view of the scheduler of a controller. *)
Definition view_of (c : RemoteJobController Handle) : gmap Z JobView :=
  match rc_scheduler c with Some s => jobs_view s | None => ∅ end.

Lemma view_of_sees (c : RemoteJobController Handle) : is_Some (rc_scheduler c) → sees c (view_of c).
Proof. unfold sees, view_of. cbn. intros [s ->]. done. Qed.

Lemma view_of_eq (c : RemoteJobController Handle) w : sees c w → w = view_of c.
Proof. unfold sees, view_of. cbn. destruct (rc_scheduler c) as [s|]; [|done]. by intros [= <-]. Qed.

Lemma demo_c2_sound : sound demo_c2.
Proof. apply handle_keyed_sound. vm_compute. reflexivity. Qed.

Lemma demo_c2_view : map_to_list (view_of demo_c2) = [(7, mkJobView 2 Enabled "smalux.collect.load.v1")].
Proof. vm_compute. reflexivity. Qed.

Lemma demo_c2_owned : map_to_list (owned demo_c2) =
  [(7, mkManagedJob (demo_job 7 3 (Task_Load [])) 3 2 "smalux.collect.load.v1" None)].
Proof. vm_compute. reflexivity. Qed.

(** Job 9 takes the place of job 7. *)
Definition demo_replaced : RemoteJobController Handle :=
  match replace_all demo_replacement demo_c2 with Some (_, c) => c | None => demo_c2 end.

Lemma demo_replace_all : replace_all demo_replacement demo_c2 = Some (Ok None, demo_replaced).
Proof.
  unfold demo_replaced.
  assert (Hs : (λ r, match r with Some (Ok None, _) => true | _ => false end)
    (replace_all demo_replacement demo_c2) = true) by (vm_compute; reflexivity).
  destruct (replace_all demo_replacement demo_c2) as [[[[|]|] c]|]; [discriminate Hs|reflexivity|discriminate Hs..].
Qed.

Lemma replace_all_exact_witness :
  ∃ w w' jobs, sees demo_c2 w ∧ sees demo_replaced w' ∧ identified (ra_jobs demo_replacement) = Some jobs ∧
    dom w' = (dom w ∖ dom (owned demo_c2)) ∪ list_to_set jobs.*1 ∧
    (∀ id, owned demo_c2 !! id = None → id ∉ jobs.*1 → w' !! id = w !! id) ∧
    cs_catalog_revision (rc_state demo_replaced) = ra_catalog_revision demo_replacement ∧
    dom (owned demo_replaced) = list_to_set jobs.*1 ∧
    ∀ id d, (id, d) ∈ jobs → replaced_as demo_c2 demo_replaced w w' id d.
Proof. exact (replace_all_exact demo_replacement demo_c2 None demo_replaced demo_c2_sound demo_replace_all). Defined.

(** Job 7 runs, nothing is forbidden. *)
Lemma demo_c2_denied_off : denied_off demo_c2.
Proof.
  intros w id m e Hw Hm He Hden. exfalso. apply Hden.
  replace (pm_policy (rc_policy demo_c2)) with default_policy by (vm_compute; reflexivity). reflexivity.
Qed.

Lemma demo_c2_in_step : in_step demo_c2.
Proof.
  intros w id m ->%view_of_eq Hm%elem_of_map_to_list. rewrite demo_c2_owned in Hm.
  apply list_elem_of_singleton in Hm. injection Hm as -> ->.
  exists (mkJobView 2 Enabled "smalux.collect.load.v1"). split; [|done].
  apply elem_of_map_to_list. rewrite demo_c2_view. by left.
Qed.

(** Then the load collector is forbidden. *)
Definition demo_forbid : RemoteJobPolicyChange := AddTask "smalux.collect.load.v1".
Definition demo_forbidden : RemoteJobController Handle :=
  match update_policy (λ _, true) demo_forbid demo_c2 with Some (_, c) => c | None => demo_c2 end.
Definition demo_application : RemoteJobPolicyApplication :=
  match update_policy (λ _, true) demo_forbid demo_c2 with
  | Some (Ok a, _) => a
  | _ => mkPolicyApplication (mkPolicySnap 0 false []) 0
  end.

Lemma demo_update_policy :
  update_policy (λ _, true) demo_forbid demo_c2 = Some (Ok demo_application, demo_forbidden).
Proof.
  unfold demo_forbidden, demo_application.
  assert (Hs : (λ r, match r with Some (Ok _, _) => true | _ => false end)
    (update_policy (λ _, true) demo_forbid demo_c2) = true) by (vm_compute; reflexivity).
  destruct (update_policy (λ _, true) demo_forbid demo_c2) as [[[|] c]|]; [reflexivity|discriminate Hs..].
Qed.

Lemma policy_change_in_force_witness :
  sound demo_forbidden ∧ in_step demo_forbidden ∧ denied_off demo_forbidden ∧
  pa_policy demo_application = policy_snapshot (pm_policy (rc_policy demo_forbidden)).
Proof.
  exact (policy_change_in_force (λ _, true) demo_forbid demo_c2 demo_application demo_forbidden
    demo_c2_sound demo_c2_in_step demo_c2_denied_off demo_update_policy).
Defined.

(** The Server asks for an immediate run of the forbidden job. *)
Definition demo_run : JobCommand := mkJobCommand (uuid_bytes 5) (Some (ActRunNow (mkRunJobNow (uuid_bytes 7) 3))).
Definition demo_denied : RemoteJobController Handle := demo_after demo_run demo_forbidden.

Lemma commands_respect_policy_witness :
  check_installed (pm_policy (rc_policy demo_forbidden)) "smalux.collect.load.v1" ≠ Ok tt ∧
  denied_off demo_denied ∧ rc_scheduler demo_denied = rc_scheduler demo_forbidden ∧
  jr_status (demo_result demo_run demo_forbidden) ≠ Applied.
Proof.
  destruct (policy_change_in_force (λ _, true) demo_forbid demo_c2 demo_application demo_forbidden
    demo_c2_sound demo_c2_in_step demo_c2_denied_off demo_update_policy) as (Hsound & _ & Hoff & _).
  destruct (commands_respect_policy demo_run demo_forbidden (demo_result demo_run demo_forbidden) demo_denied Hsound Hoff)
    as (_ & Hoff' & _ & Hrun); [apply demo_apply; vm_compute; by eexists|].
  assert (check_installed (pm_policy (rc_policy demo_forbidden)) "smalux.collect.load.v1" ≠ Ok tt) as Hden by (vm_compute; discriminate).
  destruct (Hrun (mkRunJobNow (uuid_bytes 7) 3) 7 (mkManagedJob (demo_job 7 3 (Task_Load [])) 3 3 "smalux.collect.load.v1" None))
    as (Hs & _ & Hno); [reflexivity|vm_compute; reflexivity|vm_compute; reflexivity|exact Hden|].
  split; [exact Hden|]. split; [exact Hoff'|]. split; [exact Hs|]. vm_compute. discriminate.
Defined.

Example demo_forbidden_jobs :
  map_to_list (view_of demo_forbidden) =
    [(7, mkJobView 3 (Disabled "disabled by local Agent Job policy") "smalux.collect.load.v1")] ∧
  pa_affected_jobs demo_application = 1.
Proof. vm_compute. done. Qed.

(** The scheduler works on its own: a turn of its loop. *)
Definition scheduler_turn (ev : LoopEvent) (c : RemoteJobController Handle) : RemoteJobController Handle :=
  mkController
    match rc_scheduler c with
    | Some s => match loop_turn ev s with Some (_, s') => Some s' | None => None end
    | None => None
    end (rc_state c) (rc_policy c).

(** Job 7 is installed, its timer expires, it is started, and it fails for good: the
    scheduler disables it at generation 2, the index says 1. *)
Definition demo_failed : RemoteJobController Handle :=
  scheduler_turn (EvCompletion (mkCompletion 7 1 1000 1 0 0 (Finished (TaskPermanent "no /proc/loadavg"))))
    (scheduler_turn EvMaintenance (scheduler_turn (EvExpired 1 []) demo_c1)).

Lemma demo_failed_view :
  map_to_list (view_of demo_failed) = [(7, mkJobView 2 (Disabled "no /proc/loadavg") "smalux.collect.load.v1")].
Proof. vm_compute. reflexivity. Qed.

Lemma demo_failed_stale : sound demo_failed ∧ stale 7 demo_failed.
Proof.
  split; [apply handle_keyed_sound; vm_compute; reflexivity|].
  exists (view_of demo_failed), (mkManagedJob (demo_job 7 3 (Task_Load [])) 3 1 "smalux.collect.load.v1" None),
    (mkJobView 2 (Disabled "no /proc/loadavg") "smalux.collect.load.v1").
  split_and!; [apply view_of_sees; vm_compute; by eexists|vm_compute; reflexivity| |discriminate].
  apply elem_of_map_to_list. rewrite demo_failed_view. by left.
Qed.

(** The Server replaces the catalog. *)
Definition demo_refused : RemoteJobController Handle := demo_after demo_replace demo_failed.

Lemma stale_generation_is_final_witness :
  stale 7 demo_refused ∧ jr_status (demo_result demo_replace demo_failed) ≠ Applied.
Proof.
  destruct (stale_generation_is_final 7 demo_failed (proj1 demo_failed_stale) (proj2 demo_failed_stale)) as [Hcmd _].
  destruct (Hcmd demo_replace (demo_result demo_replace demo_failed) demo_refused (view_of demo_refused))
    as (_ & Hst & Hno).
  - apply demo_apply. vm_compute. by eexists.
  - apply view_of_sees. vm_compute. by eexists.
  - split; [exact Hst|]. apply (Hno (ActReplaceAll demo_replacement) 3).
    + reflexivity.
    + exact I.
    + reflexivity.
    + vm_compute. reflexivity.
Defined.
