(* ===== verification/WebOps.v ===== *)
(** * Web operations and job commands on the Server

    [crates/smalux-server/src/database/web_job_operations.rs] and
    [database/job_command.rs]: a catalog change made through the web API is stored
    together with a record of the operation, under an idempotency key; the commands
    sent to the Agent and their results move that record through its life.

    The tables are those of [Catalog.v].  [between] and [other] are what other
    processes commit while a web mutation runs: between its search for the
    idempotency key and its insertion, and between its read of the catalog row and
    its writes. *)

From stdpp Require Import base gmap strings list sorting.
From S2P Require Import Prelude StLogic Rotation SchedModel Actor Proto Catalog Policy RemoteJobs.

(** [WebJobOperationDraft]. *)
Record WebJobOperationDraft : Type := mkDraft {
  dr_operation_id : string;
  dr_actor_user_id : string;
  dr_method : string;
  dr_client_mutation_id : string;
  dr_request_hash : string;
  dr_agent_id : string;
  dr_action : string;
  dr_target_job_id : option string;
  dr_response_json : string;
}.

(** [WebJobOperationRecord]: the row with its id, its revisions not negative. *)
Definition WebJobOperationRecord : Type := string * WebOperation.

(** [WebJobCatalogMutationRecord]. *)
Record WebJobCatalogMutationRecord : Type := mkMutation {
  mu_catalog : option AgentJobCatalogRecord;
  mu_operation : WebJobOperationRecord;
  mu_replayed : bool;
}.

(** A [JobCommandResult] as the Server receives it: prost keeps the enumerations as
    integers; [wr_bytes] is its encoding. *)
Record WireResult : Type := mkWireResult {
  wr_command_id : bytes;
  wr_status : Z;
  wr_catalog_revision : Z;
  wr_error_code : option Z;
  wr_bytes : bytes;
}.

(** The parsers of [uuid] and [serde_json], of which only success counts here, and
    [prost]'s encoding of commands and results. *)
Class WebCodecs : Type := {
  uuid_text : string → bool;
  json_text : string → bool;
  encode_command : JobCommand → bytes;
  encode_result : JobCommandResult → bytes;
}.

(** The numbers of [JobCommandStatus] and [JobCommandErrorCode]. *)
Definition status_code (s : JobCommandStatus) : Z :=
  match s with Applied => 1 | Rejected => 2 | ResyncRequired => 3 end.

Definition error_code_number (c : JobCommandErrorCode) : Z :=
  match c with
  | InvalidCommand => 1 | InvalidJob => 2 | NotFound => 3 | RevisionConflict => 4
  | OwnershipConflict => 5 | CapacityExceeded => 6 | SchedulerUnavailable => 7
  | LocalPolicyDenied => 8
  end.

(** [JobCommandErrorCode::try_from(code).ok().map(|code| code.as_str_name())]. *)
Definition error_code_name (code : Z) : option string :=
  match code with
  | 0 => Some "JOB_COMMAND_ERROR_CODE_UNSPECIFIED"
  | 1 => Some "JOB_COMMAND_ERROR_CODE_INVALID_COMMAND"
  | 2 => Some "JOB_COMMAND_ERROR_CODE_INVALID_JOB"
  | 3 => Some "JOB_COMMAND_ERROR_CODE_NOT_FOUND"
  | 4 => Some "JOB_COMMAND_ERROR_CODE_REVISION_CONFLICT"
  | 5 => Some "JOB_COMMAND_ERROR_CODE_OWNERSHIP_CONFLICT"
  | 6 => Some "JOB_COMMAND_ERROR_CODE_CAPACITY_EXCEEDED"
  | 7 => Some "JOB_COMMAND_ERROR_CODE_SCHEDULER_UNAVAILABLE"
  | 8 => Some "JOB_COMMAND_ERROR_CODE_LOCAL_POLICY_DENIED"
  | _ => None
  end.

Section WebOps.
Context `{D : DefinitionCodec} `{W : WebCodecs} `{E : CatalogEncoding} `{B2 : Blake2s}.

Abbreviation DB A := (ST JobTables (result JobDbError A)) (only parsing).

(** ** The web mutation *)

Definition is_lower_hex (a : Ascii.ascii) : bool :=
  let n := Ascii.nat_of_ascii a in
  (bool_decide (48 ≤ n)%nat && bool_decide (n ≤ 57)%nat)
  || (bool_decide (97 ≤ n)%nat && bool_decide (n ≤ 102)%nat).

Definition all_chars (p : Ascii.ascii → bool) (s : string) : bool := forallb p (String.list_ascii_of_string s).

(** [1 <= s.len() <= max]. *)
Definition sized (max : nat) (s : string) : bool :=
  bool_decide (0 < String.length s)%nat && bool_decide (String.length s ≤ max)%nat.

(** [validate_operation_draft]. *)
Definition validate_operation_draft (draft : WebJobOperationDraft) (agent_id : string) :
    result JobDbError unit :=
  let invalid message : result JobDbError unit := Err (InvalidJobCatalog message) in
  if negb (uuid_text (dr_operation_id draft)) then invalid "Web operation id must be a UUID string"
  else if negb (sized 36 (dr_actor_user_id draft))
  then invalid "Web operation actor user id must contain 1 to 36 bytes"
  else if negb (sized 64 (dr_method draft))
  then invalid "Web operation method must contain 1 to 64 bytes"
  else if negb (sized 36 (dr_client_mutation_id draft))
  then invalid "Web operation client mutation id must contain 1 to 36 bytes"
  else if negb (bool_decide (String.length (dr_request_hash draft) = 64%nat)
                && all_chars is_lower_hex (dr_request_hash draft))
  then invalid "Web operation request hash must be lowercase SHA-256 hex"
  else if negb (bool_decide (dr_agent_id draft = agent_id) && sized 64 agent_id)
  then invalid "Web operation Agent id does not match catalog target"
  else if negb (sized 64 (dr_action draft))
  then invalid "Web operation action must contain 1 to 64 bytes"
  else if negb (default true (uuid_text <$> dr_target_job_id draft))
  then invalid "Web operation target Job id must be a UUID string"
  else if negb (json_text (dr_response_json draft))
  then invalid "Web operation initial response must be valid JSON"
  else Ok tt.

(** [stored_revision] and [operation_record]; the response was stored from a
    [String], so it is UTF-8. *)
Definition stored_revision (value : Z) : result JobDbError Z :=
  if bool_decide (0 ≤ value) then Ok value
  else Err (InvalidJobCatalog "stored Web Job operation revision is negative").

Definition operation_record (row : string * WebOperation) : result JobDbError WebJobOperationRecord :=
  _ ← stored_revision (wo_expected_revision row.2);
  _ ← stored_revision (wo_target_revision row.2);
  Ok row.

(** The idempotency key of a row. *)
Definition operation_key (op : WebOperation) : string * string * string :=
  (wo_actor_user_id op, wo_method op, wo_client_mutation_id op).
Definition draft_key (draft : WebJobOperationDraft) : string * string * string :=
  (dr_actor_user_id draft, dr_method draft, dr_client_mutation_id draft).

(** [find_by_idempotency_key]; a unique index makes it one row at most. *)
Definition find_by_idempotency_key (key : string * string * string) (t : JobTables) :
    option (string * WebOperation) :=
  head (filter (λ row, operation_key row.2 = key) (map_to_list (tb_operations t))).

(** [get_web_job_operation_by_key] and [get_web_job_operation]. *)
Definition get_web_job_operation_by_key (key : string * string * string) (t : JobTables) :
    result JobDbError (option WebJobOperationRecord) :=
  match find_by_idempotency_key key t with
  | Some row => Some <$> operation_record row
  | None => Ok None
  end.

Definition get_web_job_operation (operation_id : string) (t : JobTables) :
    result JobDbError (option WebJobOperationRecord) :=
  match tb_operations t !! operation_id with
  | Some op => Some <$> operation_record (operation_id, op)
  | None => Ok None
  end.

(** The order of [list_recent_web_job_operations]: newest first, then the larger id. *)
Definition newest_first (a b : string * WebOperation) : Prop :=
  if bool_decide (wo_created_at a.2 = wo_created_at b.2) then string_le b.1 a.1
  else wo_created_at b.2 < wo_created_at a.2.
#[global] Instance newest_first_dec : RelDecision newest_first.
Proof. intros a b. unfold newest_first. destruct (bool_decide _); apply _. Defined.

Fixpoint operation_records (rows : list (string * WebOperation)) : result JobDbError (list WebJobOperationRecord) :=
  match rows with
  | [] => Ok []
  | row :: rows => r ← operation_record row; rs ← operation_records rows; Ok (r :: rs)
  end.

(** [list_recent_web_job_operations]. *)
Definition list_recent_web_job_operations (agent_id : string) (actor_user_id : option string) (limit : nat)
    (t : JobTables) : result JobDbError (list WebJobOperationRecord) :=
  let rows := filter (λ row : string * WebOperation, wo_agent_id row.2 = agent_id) (map_to_list (tb_operations t)) in
  let rows :=
    match actor_user_id with
    | Some actor => filter (λ row : string * WebOperation, wo_actor_user_id row.2 = actor) rows
    | None => rows
    end in
  operation_records (take (Nat.min limit 100) (merge_sort newest_first rows)).

(** The row a draft is stored as. *)
Definition new_operation (draft : WebJobOperationDraft) (agent_id : string) (expected target : Z)
    (digest : bytes) (now : Z) : WebOperation :=
  mkWebOperation (dr_actor_user_id draft) (dr_method draft) (dr_client_mutation_id draft)
    (dr_request_hash draft) agent_id (dr_target_job_id draft) (dr_action draft) expected target
    digest None OpWaitingAgent None (dr_response_json draft) now now None None.

(** What a request that finds its key answers. *)
Definition replay (draft : WebJobOperationDraft) (existing : string * WebOperation) :
    result JobDbError WebJobCatalogMutationRecord :=
  if bool_decide (wo_request_hash existing.2 ≠ dr_request_hash draft)
  then Err WebJobIdempotencyConflict
  else operation ← operation_record existing; Ok (mkMutation None operation true).

(** [replace_agent_job_catalog_for_web]. *)
Definition replace_agent_job_catalog_for_web (between other : JobTables → JobTables)
    (clock : option Z) (agent_id : string) (jobs : list JobDefinition) (expected_revision : Z)
    (draft : WebJobOperationDraft) : DB WebJobCatalogMutationRecord :=
  _ ?← mret (validate_operation_draft draft agent_id);
  expected ?← mret (i64_try_from (InvalidJobCatalog "expected catalog revision exceeds i64") expected_revision);
  target ?← mret (ok_or (InvalidJobCatalog "catalog revision overflow") (checked_i64 (expected + 1)));
  let digest := catalog_digest (mkReplaceAllJobs target jobs) in
  t ← st_get;
  match find_by_idempotency_key (draft_key draft) t with
  | Some existing => mret (replay draft existing)
  | None =>
      now ?← mret (ok_or ClockError clock);
      st_modify between ;;
      t ← st_get;
      match find_by_idempotency_key (draft_key draft) t with
      | Some existing => mret (replay draft existing)
      | None =>
          match tb_operations t !! dr_operation_id draft with
          | Some _ => mret (Err (SeaOrm "UNIQUE constraint failed: web_job_operations.operation_id"))
          | None =>
              let operation := new_operation draft agent_id expected target digest now in
              transaction other (
                st_modify (set_operations <[dr_operation_id draft := operation]>) ;;
                catalog ?← replace_agent_job_catalog_in_transaction other id clock agent_id jobs
                             (Some expected_revision);
                st_modify (set_operations (fmap (supersede agent_id target (rec_updated_at catalog)))) ;;
                mret (Ok (mkMutation (Some catalog) (dr_operation_id draft, operation) false)))
          end
      end
  end.

(** ** Commands *)

(** [command_id] and [command_catalog_revision] of [job_command.rs]. *)
Definition parse_command_id (bs : bytes) : result JobDbError Uuid :=
  ok_or (InvalidJobCommand "command id must contain 16 bytes") (uuid_from_slice bs).

Definition command_catalog_revision (command : JobCommand) : result JobDbError Z :=
  match jc_action command with
  | None => Err (InvalidJobCommand "Job command action is required")
  | Some (ActReplaceAll value) => Ok (ra_catalog_revision value)
  | Some (ActUpsert value) => Ok (up_catalog_revision value)
  | Some (ActDelete value) => Ok (dl_catalog_revision value)
  | Some (ActRunNow _) => Ok 0
  end.

(** The loop over the live operations of a full snapshot. *)
Definition link_operation (agent_id : string) (catalog_revision : Z) (command_id : Uuid)
    (digest : bytes) (now : Z) (op : WebOperation) : WebOperation :=
  if bool_decide (wo_agent_id op = agent_id) && bool_decide (wo_target_revision op = catalog_revision)
     && live_operation (wo_state op)
  then
    let matches_desired := bool_decide (wo_desired_digest op = digest) in
    op_update (Some command_id) (if matches_desired then OpSent else OpBlocked)
      (if matches_desired then None
       else Some "Agent policy or capability filtered the requested catalog")
      now (Some now) (wo_completed_at op) op
  else op.

(** [record_job_command]. *)
Definition record_job_command (clock : option Z) (agent_id : string) (command : JobCommand) : DB unit :=
  id ?← mret (parse_command_id (jc_command_id command));
  revision ?← mret (command_catalog_revision command);
  revision ?← mret (i64_try_from (InvalidJobCommand "catalog revision exceeds i64") revision);
  now ?← mret (ok_or ClockError clock);
  previous ← st_gets (λ t, tb_commands t !! id);
  _ ?← match previous with
       | Some previous =>
           mret (if bool_decide (cr_agent_id previous ≠ agent_id)
                    || bool_decide (cr_command_payload previous ≠ encode_command command)
                 then Err (InvalidJobCommand "command id is already bound to different content")
                 else Ok tt)
       | None =>
           _ ← st_modify (set_commands <[id := mkJobCommandRow agent_id revision (encode_command command)
                                          None None now None]>);
           mret (Ok tt)
       end;
  match jc_action command with
  | Some (ActReplaceAll snapshot) =>
      st_modify (set_operations (fmap
        (link_operation agent_id revision id (catalog_digest snapshot) now))) ;;
      mret (Ok tt)
  | _ => mret (Ok tt)
  end.

(** The state, the completion time and whether the command is cleared, by
    [result.status()], which is [Unspecified] for a number it does not know. *)
Definition completed_state (status now : Z) : WebOperationState * option Z * bool :=
  match status with
  | 1 => (OpApplied, Some now, false)
  | 2 => (OpRejected, Some now, false)
  | 3 => (OpPending, None, true)
  | _ => (OpUnknown, Some now, false)
  end.

(** The states a result still moves. *)
Definition awaiting_result (s : WebOperationState) : bool :=
  match s with OpPending | OpWaitingAgent | OpSent => true | _ => false end.

(** The [update_many] of [complete_job_command]. *)
Definition complete_operation (command_id : Uuid) (result : WireResult) (now : Z) (op : WebOperation) :
    WebOperation :=
  if bool_decide (wo_command_id op = Some command_id) && awaiting_result (wo_state op)
  then
    let '(state, completed_at, clear_command) := completed_state (wr_status result) now in
    op_update (if clear_command then None else wo_command_id op) state
      (wr_error_code result ≫= error_code_name) now (wo_sent_at op) completed_at op
  else op.

(** [complete_job_command]. *)
Definition complete_job_command (clock : option Z) (agent_id : string) (result : WireResult) : DB unit :=
  id ?← mret (parse_command_id (wr_command_id result));
  now ?← mret (ok_or ClockError clock);
  model ← st_gets (λ t, tb_commands t !! id);
  match model with
  | None => mret (Err (InvalidJobCommand "Agent returned a result for an unknown command"))
  | Some model =>
      if bool_decide (cr_agent_id model ≠ agent_id)
      then mret (Err (InvalidJobCommand "Agent returned a result for another Agent command"))
      else
        st_modify (set_commands <[id :=
          mkJobCommandRow (cr_agent_id model) (cr_catalog_revision model) (cr_command_payload model)
            (Some (wr_status result)) (Some (wr_bytes result)) (cr_created_at model) (Some now)]>) ;;
        st_modify (set_operations (fmap (complete_operation id result now))) ;;
        mret (Ok tt)
  end.

(** A result of the Agent on the wire. *)
Definition wire_result (r : JobCommandResult) : WireResult :=
  mkWireResult (jr_command_id r) (status_code (jr_status r)) (jr_catalog_revision r)
    ((λ e, error_code_number (jce_code e)) <$> jr_error r) (encode_result r).

End WebOps.

(** ** Inversions *)

Section Inversions.
Context `{D : DefinitionCodec} `{W : WebCodecs} `{E : CatalogEncoding} `{B2 : Blake2s}.
Implicit Types (t u : JobTables) (op : WebOperation).

Lemma find_by_key_Some key t id op :
  find_by_idempotency_key key t = Some (id, op) → tb_operations t !! id = Some op ∧ operation_key op = key.
Proof.
  unfold find_by_idempotency_key. intros Hf.
  assert (Hin : (id, op) ∈ filter (λ row, operation_key row.2 = key) (map_to_list (tb_operations t)))
    by (destruct (filter _ _); [done|injection Hf as ->; constructor]).
  apply list_elem_of_filter in Hin as [Hk Hin]. by apply elem_of_map_to_list in Hin.
Qed.

Lemma find_by_key_None key t id op :
  find_by_idempotency_key key t = None → tb_operations t !! id = Some op → operation_key op ≠ key.
Proof.
  unfold find_by_idempotency_key. intros Hf Hop Hk.
  assert (Hin : (id, op) ∈ filter (λ row, operation_key row.2 = key) (map_to_list (tb_operations t)))
    by (apply list_elem_of_filter; split; [done|by apply elem_of_map_to_list]).
  destruct (filter _ _); [by apply not_elem_of_nil in Hin|done].
Qed.

(** What a mutation that was not answered from its key has written: the catalog, as
    [replaced] says, and the record of the operation. *)
Definition mutated (between other : JobTables → JobTables) (agent_id : string)
    (jobs : list JobDefinition) (e : Z) (draft : WebJobOperationDraft) t
    (m : WebJobCatalogMutationRecord) t' : Prop :=
  ∃ now record t1 validated at_,
    let op := new_operation draft agent_id e (e + 1) (catalog_digest (mkReplaceAllJobs (e + 1) jobs)) now in
    let u := set_operations <[dr_operation_id draft := op]> (between t) in
    find_by_idempotency_key (draft_key draft) t = None ∧
    find_by_idempotency_key (draft_key draft) (between t) = None ∧
    tb_operations (between t) !! dr_operation_id draft = None ∧
    replaced other agent_id jobs (Some e) u record t1 validated at_ ∧
    m = mkMutation (Some record) (dr_operation_id draft, op) false ∧
    t' = set_operations (fmap (supersede agent_id (e + 1) (rec_updated_at record))) t1.

Lemma for_web_cases between other clock agent_id jobs e draft t r t' :
  replace_agent_job_catalog_for_web between other clock agent_id jobs e draft t = Some (r, t') →
  (∃ err, r = Err err ∧ (t' = t ∨ t' = between t ∨ t' = other (between t))) ∨
  (∃ existing, r = replay draft existing ∧
     (t' = t ∨ t' = between t) ∧ find_by_idempotency_key (draft_key draft) t' = Some existing) ∨
  (∃ m, r = Ok m ∧ mutated between other agent_id jobs e draft t m t').
Proof.
  unfold replace_agent_job_catalog_for_web. intros Hs.
  apply st_try_Some in Hs as [([] & ? & [_ ->]%st_ret_Some & Hs)|(err & [_ ->]%st_ret_Some & ->)]; [|eauto 6].
  apply st_try_Some in Hs as [(ex & ? & [Hex ->]%st_ret_Some & Hs)|(err & [_ ->]%st_ret_Some & ->)]; [|eauto 6].
  apply st_try_Some in Hs as [(target & ? & [Htg ->]%st_ret_Some & Hs)|(err & [_ ->]%st_ret_Some & ->)]; [|eauto 6].
  unfold i64_try_from in Hex. destruct (bool_decide (e ≤ i64_max)); [|done]. injection Hex as ->.
  symmetry in Htg. apply ok_or_Ok, checked_i64_Some in Htg as [-> _]. cbv zeta in Hs.
  apply st_bind_Some in Hs as (? & ? & [-> ->]%st_get_Some & Hs).
  destruct (find_by_idempotency_key (draft_key draft) t) as [existing|] eqn:Hf1.
  { apply st_ret_Some in Hs as [-> ->]. right. left. eauto. }
  apply st_try_Some in Hs as [(now & ? & [_ ->]%st_ret_Some & Hs)|(err & [_ ->]%st_ret_Some & ->)]; [|eauto 6].
  apply st_bind_Some in Hs as (? & ? & ->%st_modify_Some & Hs).
  apply st_bind_Some in Hs as (? & ? & [-> ->]%st_get_Some & Hs).
  destruct (find_by_idempotency_key (draft_key draft) (between t)) as [existing|] eqn:Hf2.
  { apply st_ret_Some in Hs as [-> ->]. right. left. eauto. }
  destruct (tb_operations (between t) !! dr_operation_id draft) eqn:Hid.
  { apply st_ret_Some in Hs as [-> ->]. left. eauto 6. }
  unfold transaction in Hs.
  match type of Hs with context [match ?x with _ => _ end] => destruct x as [[[m|err] t2]|] eqn:Hm end;
    [|injection Hs as <- <-; left; eauto 6|done].
  injection Hs as <- <-. right. right. exists m. split; [done|].
  apply st_bind_Some in Hm as (? & ? & ->%st_modify_Some & Hm).
  apply st_try_Some in Hm as [(record & t1 & H1 & Hm)|(? & _ & [=])].
  apply st_bind_Some in Hm as (? & ? & ->%st_modify_Some & [[= ->] ->]%st_ret_Some).
  apply replace_in_transaction_Ok in H1 as (validated & at_ & H1 & _).
  exists now, record, t1, validated, at_. done.
Qed.

(** What [record_job_command] has done when it returns without an error. *)
Lemma record_job_command_Ok clock agent_id command t t' :
  record_job_command clock agent_id command t = Some (Ok tt, t') →
  ∃ id revision now row,
    uuid_from_slice (jc_command_id command) = Some id ∧ command_catalog_revision command = Ok revision ∧
    tb_commands t' = <[id := row]> (tb_commands t) ∧
    cr_agent_id row = agent_id ∧ cr_command_payload row = encode_command command ∧
    (∀ row', tb_commands t !! id = Some row' → row' = row) ∧
    tb_catalogs t' = tb_catalogs t ∧
    tb_operations t' =
      match jc_action command with
      | Some (ActReplaceAll snapshot) =>
          link_operation agent_id revision id (catalog_digest snapshot) now <$> tb_operations t
      | _ => tb_operations t
      end.
Proof.
  unfold record_job_command. intros Hs.
  apply st_try_Some in Hs as [(id & ? & [Hid ->]%st_ret_Some & Hs)|(? & _ & [=])].
  apply st_try_Some in Hs as [(rev & ? & [Hrev ->]%st_ret_Some & Hs)|(? & _ & [=])].
  apply st_try_Some in Hs as [(rev' & ? & [Hrev' ->]%st_ret_Some & Hs)|(? & _ & [=])].
  apply st_try_Some in Hs as [(now & ? & [_ ->]%st_ret_Some & Hs)|(? & _ & [=])].
  apply st_bind_Some in Hs as (previous & ? & [-> ->]%st_gets_Some & Hs).
  symmetry in Hid. apply ok_or_Ok in Hid.
  unfold i64_try_from in Hrev'. destruct (bool_decide _); [|done]. injection Hrev' as ->.
  apply st_try_Some in Hs as [([] & t1 & H1 & Hs)|(? & _ & [=])].
  assert (∃ row, tb_commands t1 = <[id := row]> (tb_commands t) ∧ cr_agent_id row = agent_id ∧
            cr_command_payload row = encode_command command ∧
            (∀ row', tb_commands t !! id = Some row' → row' = row) ∧
            tb_catalogs t1 = tb_catalogs t ∧ tb_operations t1 = tb_operations t)
    as (row & Hc & Ha & Hp & Hrow & Hcat & Hops).
  { destruct (tb_commands t !! id) as [p|] eqn:Hp.
    - apply st_ret_Some in H1 as [H1 ->]. exists p.
      destruct (bool_decide (cr_agent_id p ≠ agent_id)) eqn:Hb1; [done|].
      destruct (bool_decide (cr_command_payload p ≠ encode_command command)) eqn:Hb2; [done|].
      apply bool_decide_eq_false_1, dec_stable in Hb1, Hb2.
      split_and!; try done; [by rewrite insert_id|]. by intros row' [= ->].
    - apply st_bind_Some in H1 as (? & ? & ->%st_modify_Some & [_ ->]%st_ret_Some).
      eexists. split_and!; done. }
  exists id, rev, now, row.
  destruct (jc_action command) as [[v|v|v|v]|] eqn:Hact;
    (apply st_ret_Some in Hs as [_ ->]) || (apply st_bind_Some in Hs as (? & ? & ->%st_modify_Some & [_ ->]%st_ret_Some));
    split_and!; try done; cbn; congruence.
Qed.

Lemma record_job_command_Err clock agent_id command t e t' :
  record_job_command clock agent_id command t = Some (Err e, t') → t' = t.
Proof.
  unfold record_job_command. intros Hs.
  repeat (apply st_try_Some in Hs as [(? & ? & [_ ->]%st_ret_Some & Hs)|(? & [_ ->]%st_ret_Some & _)]; [|done]).
  apply st_bind_Some in Hs as (previous & ? & [-> ->]%st_gets_Some & Hs).
  apply st_try_Some in Hs as [([] & t1 & H1 & Hs)|(? & H1 & _)].
  - destruct (jc_action command) as [[v|v|v|v]|];
      (by apply st_ret_Some in Hs as [[=] _]) || (by apply st_bind_Some in Hs as (? & ? & _ & [[=] _]%st_ret_Some)).
  - destruct (tb_commands t !! _); [by apply st_ret_Some in H1 as [_ ->]|].
    by apply st_bind_Some in H1 as (? & ? & _ & [[=] _]%st_ret_Some).
Qed.

Lemma complete_job_command_cases clock agent_id result t r t' :
  complete_job_command clock agent_id result t = Some (r, t') →
  (∃ e, r = Err e ∧ t' = t) ∨
  (∃ id row row' now, r = Ok tt ∧ uuid_from_slice (wr_command_id result) = Some id ∧
     tb_commands t !! id = Some row ∧ cr_agent_id row = agent_id ∧
     cr_agent_id row' = agent_id ∧ cr_command_payload row' = cr_command_payload row ∧
     tb_commands t' = <[id := row']> (tb_commands t) ∧ tb_catalogs t' = tb_catalogs t ∧
     tb_operations t' = complete_operation id result now <$> tb_operations t).
Proof.
  unfold complete_job_command. intros Hs.
  apply st_try_Some in Hs as [(id & ? & [Hid ->]%st_ret_Some & Hs)|(e & [_ ->]%st_ret_Some & ->)]; [|eauto].
  apply st_try_Some in Hs as [(now & ? & [_ ->]%st_ret_Some & Hs)|(e & [_ ->]%st_ret_Some & ->)]; [|eauto].
  apply st_bind_Some in Hs as (model & ? & [-> ->]%st_gets_Some & Hs).
  symmetry in Hid. apply ok_or_Ok in Hid.
  destruct (tb_commands t !! id) as [row|] eqn:Hrow; [|apply st_ret_Some in Hs as [-> ->]; eauto].
  case_bool_decide as Ha; [apply st_ret_Some in Hs as [-> ->]; eauto|].
  apply st_bind_Some in Hs as (? & ? & ->%st_modify_Some & Hs).
  apply st_bind_Some in Hs as (? & ? & ->%st_modify_Some & [-> ->]%st_ret_Some).
  right. exists id, row, (mkJobCommandRow (cr_agent_id row) (cr_catalog_revision row) (cr_command_payload row)
    (Some (wr_status result)) (Some (wr_bytes result)) (cr_created_at row) (Some now)), now.
  split_and!; done.
Qed.

End Inversions.
