(* ===== verification/WebLife.v ===== *)
(** * The life of a web operation

    The histories of the Server's job tables: catalogs replaced directly or through
    the web, commands recorded and results received, by any number of processes that
    overlap; an invariant of the operation records over all of them, and the
    idempotency of web mutations. *)

From stdpp Require Import base gmap strings list sorting.
From S2P Require Import Prelude StLogic Rotation AgentState SchedModel Actor Proto Catalog RemoteJobs RemoteTheorems WebOps.

Section Life.
Context `{D : DefinitionCodec} `{W : WebCodecs} `{E : CatalogEncoding} `{B2 : Blake2s}.
(** The commands the Server recorded and the results it received, by Agent. *)
Context (issued : string → JobCommand → Prop) (reported : string → WireResult → Prop).
Implicit Types (t u : JobTables) (op : WebOperation).

(** What others commit while an operation is inserted but not committed: they do
    not see its row, and the primary key and the unique index keep its id and its
    key from them. *)
Definition unseen (draft : WebJobOperationDraft) (other : JobTables → JobTables) t u : Prop :=
  other t = u ∧
  (∀ op, other (set_operations <[dr_operation_id draft := op]> t) =
         set_operations <[dr_operation_id draft := op]> u) ∧
  tb_operations u !! dr_operation_id draft = None ∧
  find_by_idempotency_key (draft_key draft) u = None.

(** A replacement without an expected revision is not guarded against others: in
    these histories none commits while one runs. *)
Inductive web_reach : JobTables → JobTables → Prop :=
| web_refl t : web_reach t t
| web_replace t t1 t2 other late clock agent_id jobs expected r :
    web_reach t t1 → web_reach t1 (foreign expected other late t1) →
    (expected = None → foreign expected other late t1 = t1) →
    replace_agent_job_catalog_if_revision other late clock agent_id jobs expected t1 = Some (r, t2) →
    web_reach t t2
| web_mutate t t1 t2 u between other clock agent_id jobs expected draft r :
    web_reach t t1 → web_reach t1 (between t1) → web_reach (between t1) u →
    unseen draft other (between t1) u → 0 ≤ expected →
    replace_agent_job_catalog_for_web between other clock agent_id jobs expected draft t1 = Some (r, t2) →
    web_reach t t2
| web_record t t1 t2 clock agent_id command r :
    web_reach t t1 → issued agent_id command →
    record_job_command clock agent_id command t1 = Some (r, t2) → web_reach t t2
| web_complete t t1 t2 clock agent_id result r :
    web_reach t t1 → reported agent_id result →
    complete_job_command clock agent_id result t1 = Some (r, t2) → web_reach t t2.

(** *** Rows only change in the columns of their life, and end *)

Definition evolves op op' : Prop :=
  (∃ command state reason updated sent completed,
     op' = op_update command state reason updated sent completed op) ∧
  (live_operation (wo_state op) = false → op' = op).

Lemma evolves_refl op : evolves op op.
Proof. split; [|done]. destruct op. by eexists _, _, _, _, _, _. Qed.

Lemma evolves_trans op1 op2 op3 : evolves op1 op2 → evolves op2 op3 → evolves op1 op3.
Proof.
  intros [(?&?&?&?&?&?&->) H1] [(?&?&?&?&?&?&->) H2]. split; [by eexists _, _, _, _, _, _|].
  intros Hl. specialize (H1 Hl). rewrite H1 in *. by apply H2.
Qed.

Lemma evolves_update op op' command state reason updated sent completed :
  live_operation (wo_state op) = true →
  op' = op_update command state reason updated sent completed op → evolves op op'.
Proof. intros Hl ->. split; [by eexists _, _, _, _, _, _|congruence]. Qed.

Lemma supersede_evolves agent_id target now op : evolves op (supersede agent_id target now op).
Proof.
  unfold supersede. destruct (_ && _) eqn:Hb; [|apply evolves_refl]. bools. by eapply evolves_update.
Qed.

Lemma link_evolves agent_id revision id digest now op :
  evolves op (link_operation agent_id revision id digest now op).
Proof.
  unfold link_operation. destruct (_ && _) eqn:Hb; [|apply evolves_refl]. bools. by eapply evolves_update.
Qed.

Lemma awaiting_live s : awaiting_result s = true → live_operation s = true.
Proof. by destruct s. Qed.

Lemma complete_evolves id result now op : evolves op (complete_operation id result now op).
Proof.
  unfold complete_operation. destruct (_ && _) eqn:Hb; [|apply evolves_refl]. bools.
  destruct (completed_state (wr_status result) now) as [[s c] cl].
  eapply evolves_update; [by apply awaiting_live|done].
Qed.

(** The rows of [t] are in [t'], later in their life. *)
Definition kept t t' : Prop :=
  (∀ id op, tb_operations t !! id = Some op → ∃ op', tb_operations t' !! id = Some op' ∧ evolves op op') ∧
  (∀ id row, tb_commands t !! id = Some row → ∃ row', tb_commands t' !! id = Some row' ∧
     cr_agent_id row' = cr_agent_id row ∧ cr_command_payload row' = cr_command_payload row).

Lemma kept_refl t : kept t t.
Proof. split; [eauto using evolves_refl|eauto]. Qed.

Lemma kept_trans t1 t2 t3 : kept t1 t2 → kept t2 t3 → kept t1 t3.
Proof.
  intros [O1 C1] [O2 C2]. split.
  - intros id op (op2 & H2 & ?)%O1. destruct (O2 _ _ H2) as (op3 & ? & ?). eauto using evolves_trans.
  - intros id row (row2 & H2 & ? & ?)%C1. destruct (C2 _ _ H2) as (row3 & ? & ? & ?).
    exists row3. split_and!; congruence.
Qed.

Lemma kept_fmap f t t' :
  (∀ op, evolves op (f op)) → tb_operations t' = f <$> tb_operations t →
  tb_commands t' = tb_commands t → kept t t'.
Proof.
  intros Hf Ho Hc. split; [|rewrite Hc; eauto]. intros id op Hop. exists (f op). by rewrite Ho, lookup_fmap, Hop.
Qed.

Lemma fmap_insert_op f id op t :
  tb_operations (set_operations (fmap f) (set_operations <[id := op]> t)) =
  <[id := f op]> (f <$> tb_operations t).
Proof. cbn. by rewrite fmap_insert. Qed.

(** A mutation that was not replayed, seen from the tables the others left. *)
Record web_written (agent_id : string) (e : Z) (draft : WebJobOperationDraft) u op t' : Prop := {
  ww_new : op = new_operation draft agent_id e (e + 1) (wo_desired_digest op) (wo_created_at op);
  ww_id : tb_operations u !! dr_operation_id draft = None;
  ww_key : find_by_idempotency_key (draft_key draft) u = None;
  ww_revision : catalog_revision_of agent_id u = e;
  ww_catalogs : ∃ now, tb_catalogs t' = <[agent_id := mkCatalogRow (e + 1) now]> (tb_catalogs u);
  ww_operations : ∃ now, tb_operations t' =
    <[dr_operation_id draft := op]> (supersede agent_id (e + 1) now <$> tb_operations u);
  ww_commands : tb_commands t' = tb_commands u;
}.

Lemma mutated_written between other agent_id jobs e draft t m t' u :
  unseen draft other (between t) u → mutated between other agent_id jobs e draft t m t' →
  ∃ op record, m = mkMutation (Some record) (dr_operation_id draft, op) false ∧
    wo_desired_digest op = catalog_digest (mkReplaceAllJobs (e + 1) jobs) ∧
    web_written agent_id e draft u op t'.
Proof.
  intros (Hu & Hrow & Hid & Hkey) (now & record & t1 & validated & at_ & _ & _ & _ & Hr & -> & ->).
  set (op := new_operation _ _ _ _ _ _) in *. exists op, record. split; [done|]. split; [done|].
  pose proof (rp_records _ _ _ _ _ _ _ _ _ Hr) as Hrec.
  pose proof (rp_catalogs _ _ _ _ _ _ _ _ _ Hr) as Hcat.
  destruct (rp_expected _ _ _ _ _ _ _ _ _ Hr e eq_refl) as [He Ho].
  rewrite Hrow in Hrec, Hcat, Ho. injection Hrec as Hops Hcmd. rewrite He in Hcat.
  split; [done..|exact Ho|eauto| |done].
  eexists. cbn. rewrite Hops, fmap_insert. f_equal. unfold supersede.
  rewrite (bool_decide_eq_false_2 (_ < _)); [by rewrite andb_false_r|]. cbn. lia.
Qed.

(** What a direct replacement has done, seen from the tables the others left. *)
Lemma replaced_written (unmoved : Prop) other agent_id jobs expected t record t' :
  (expected = None → other t = t) →
  (∃ t1 validated now, replaced other agent_id jobs expected t record t1 validated now ∧
     (unmoved → forward agent_id (other t) validated) ∧
     t' = set_operations (fmap (supersede agent_id (ra_catalog_revision (rec_catalog record))
           (rec_updated_at record))) t1) →
  ∃ e now at_, catalog_revision_of agent_id (other t) = e ∧
    tb_catalogs t' = <[agent_id := mkCatalogRow (e + 1) at_]> (tb_catalogs (other t)) ∧
    tb_operations t' = supersede agent_id (e + 1) now <$> tb_operations (other t) ∧
    tb_commands t' = tb_commands (other t).
Proof.
  intros Hnone (t1 & validated & now & Hr & _ & ->).
  pose proof (rp_records _ _ _ _ _ _ _ _ _ Hr) as Hrec. injection Hrec as Hops Hcmd.
  pose proof (rp_catalogs _ _ _ _ _ _ _ _ _ Hr) as Hcat.
  pose proof (rp_record _ _ _ _ _ _ _ _ _ Hr) as ->.
  assert (Heq : catalog_revision_of agent_id t = catalog_revision_of agent_id (other t)).
  { destruct expected as [e|]; [|by rewrite Hnone].
    by destruct (rp_expected _ _ _ _ _ _ _ _ _ Hr e eq_refl) as [-> ->]. }
  rewrite Heq in *. exists (catalog_revision_of agent_id (other t)), now, now.
  split_and!; [done|exact Hcat| |exact Hcmd]. rewrite <-Hops. done.
Qed.

Lemma written_kept agent_id e draft u op t' : web_written agent_id e draft u op t' → kept u t'.
Proof.
  intros [_ Hid _ _ _ [now Ho] Hc]. split; [|rewrite Hc; eauto].
  intros id op' Hop. exists (supersede agent_id (e + 1) now op').
  rewrite Ho, lookup_insert_ne by congruence. rewrite lookup_fmap, Hop. eauto using supersede_evolves.
Qed.

Lemma record_kept clock agent_id command t r t' :
  record_job_command clock agent_id command t = Some (r, t') → kept t t'.
Proof.
  destruct r as [[]|e]; intros Hs; [|apply record_job_command_Err in Hs as ->; apply kept_refl].
  apply record_job_command_Ok in Hs as (id & revision & now & row & _ & _ & Hc & Ha & Hp & Hrow & _ & Ho). split.
  - rewrite Ho. destruct (jc_action command) as [[v|v|v|v]|]; try (intros ? op ?; exists op; by auto using evolves_refl).
    intros i op Hop. exists (link_operation agent_id revision id (catalog_digest v) now op).
    rewrite lookup_fmap, Hop. eauto using link_evolves.
  - intros i row' Hi. rewrite Hc. destruct (decide (i = id)) as [->|Hne].
    + rewrite lookup_insert_eq, (Hrow _ Hi). eauto.
    + rewrite lookup_insert_ne by done. eauto.
Qed.

Lemma complete_kept clock agent_id result t r t' :
  complete_job_command clock agent_id result t = Some (r, t') → kept t t'.
Proof.
  intros [(e & _ & ->)|(id & row & row' & now & _ & _ & Hrow & Ha & Ha' & Hp & Hc & _ & Ho)]%complete_job_command_cases;
    [apply kept_refl|]. split.
  - intros i op Hop. exists (complete_operation id result now op). rewrite Ho, lookup_fmap, Hop.
    eauto using complete_evolves.
  - intros i row0 Hi. rewrite Hc. destruct (decide (i = id)) as [->|Hne].
    + rewrite lookup_insert_eq. exists row'. split_and!; [done|congruence..].
    + rewrite lookup_insert_ne by done. eauto.
Qed.

Lemma web_reach_kept t t' : web_reach t t' → kept t t'.
Proof.
  induction 1 as [t|t t1 t2 other late clock a jobs ex r _ IH _ IH1 Hnone Hs
    |t t1 t2 u between other clock a jobs e draft r _ IH _ IH1 _ IH2 Hu _ Hs
    |t t1 t2 clock a command r _ IH _ Hs|t t1 t2 clock a result r _ IH _ Hs].
  - apply kept_refl.
  - eapply kept_trans; [exact IH|]. eapply kept_trans; [exact IH1|]. destruct r as [record|err].
    + apply replace_if_revision_Ok in Hs.
      destruct (replaced_written _ _ _ _ _ _ _ _ Hnone Hs) as (e & now & at_ & _ & _ & Ho & Hc).
      by eapply kept_fmap; [intros; apply supersede_evolves|..].
    + apply replace_if_revision_Err in Hs as ->. apply kept_refl.
  - eapply kept_trans; [exact IH|]. pose proof Hu as (Ho & _).
    apply for_web_cases in Hs as [(err & _ & [->|[->| ->]])|[(ex & _ & [->| ->] & _)|(m & -> & Hm)]];
      rewrite ?Ho; eauto using kept_refl, kept_trans.
    destruct (mutated_written _ _ _ _ _ _ _ _ _ _ Hu Hm) as (op & rec & _ & _ & Hw).
    eauto using kept_trans, written_kept.
  - eauto using kept_trans, record_kept.
  - eauto using kept_trans, complete_kept.
Qed.

(** *** The invariant *)

(** The operation is bound to a recorded command of its Agent that carries a full
    snapshot of the target revision; [exact] tells whether it is the catalog asked
    for. *)
Definition linked t op (exact : bool) : Prop :=
  ∃ id command snapshot row,
    wo_command_id op = Some id ∧ uuid_from_slice (jc_command_id command) = Some id ∧
    jc_action command = Some (ActReplaceAll snapshot) ∧
    ra_catalog_revision snapshot = wo_target_revision op ∧
    bool_decide (wo_desired_digest op = catalog_digest snapshot) = exact ∧
    issued (wo_agent_id op) command ∧
    tb_commands t !! id = Some row ∧ cr_agent_id row = wo_agent_id op ∧
    cr_command_payload row = encode_command command.

(** The Agent reported that status for the command of the operation. *)
Definition answered op (status : Z) : Prop :=
  ∃ id result, wo_command_id op = Some id ∧ uuid_from_slice (wr_command_id result) = Some id ∧
    reported (wo_agent_id op) result ∧ wr_status result = status.

Definition stage_ok t op : Prop :=
  match wo_state op with
  | OpPending | OpWaitingAgent => wo_command_id op = None
  | OpSent => linked t op true
  | OpBlocked => linked t op false
  | OpApplied => linked t op true ∧ answered op 1
  | OpRejected => linked t op true ∧ answered op 2
  | OpUnknown => linked t op true ∧ ∃ s, answered op s ∧ s ∉ [1; 2; 3]
  | OpSuperseded => True
  end.

Record op_wf t op : Prop := {
  ow_expected : 0 ≤ wo_expected_revision op;
  ow_target : wo_target_revision op = wo_expected_revision op + 1;
  ow_bound : wo_target_revision op ≤ catalog_revision_of (wo_agent_id op) t;
  ow_live : live_operation (wo_state op) = true →
    wo_target_revision op = catalog_revision_of (wo_agent_id op) t;
  ow_stage : stage_ok t op;
}.

(** One row per idempotency key, and one per Agent and target revision. *)
Definition distinct t : Prop :=
  ∀ i j o p, tb_operations t !! i = Some o → tb_operations t !! j = Some p →
    operation_key o = operation_key p ∨
    (wo_agent_id o = wo_agent_id p ∧ wo_target_revision o = wo_target_revision p) → i = j.

Definition web_wf t : Prop := map_Forall (λ _, op_wf t) (tb_operations t) ∧ distinct t.

Lemma evolves_fields op op' : evolves op op' →
  operation_key op' = operation_key op ∧ wo_agent_id op' = wo_agent_id op ∧
  wo_target_revision op' = wo_target_revision op ∧ wo_expected_revision op' = wo_expected_revision op ∧
  wo_desired_digest op' = wo_desired_digest op ∧ wo_request_hash op' = wo_request_hash op ∧
  wo_response_json op' = wo_response_json op.
Proof. by intros [(?&?&?&?&?&?&->) _]. Qed.

Lemma distinct_fmap f t t' :
  (∀ op, evolves op (f op)) → tb_operations t' = f <$> tb_operations t → distinct t → distinct t'.
Proof.
  intros Hf Ho Hd i j o p. rewrite Ho, !lookup_fmap.
  destruct (tb_operations t !! i) as [o0|] eqn:Hi; [|done]. destruct (tb_operations t !! j) as [p0|] eqn:Hj; [|done].
  intros [= <-] [= <-].
  destruct (evolves_fields _ _ (Hf o0)) as (-> & -> & -> & _), (evolves_fields _ _ (Hf p0)) as (-> & -> & -> & _).
  by eapply Hd.
Qed.

Lemma linked_mono t t' op exact :
  (∀ id row, tb_commands t !! id = Some row → ∃ row', tb_commands t' !! id = Some row' ∧
     cr_agent_id row' = cr_agent_id row ∧ cr_command_payload row' = cr_command_payload row) →
  linked t op exact → linked t' op exact.
Proof.
  intros Hc (id & cmd & snap & row & H1 & H2 & H3 & H4 & H5 & H6 & (row' & H7 & H8 & H9)%Hc & ? & ?).
  exists id, cmd, snap, row'. split_and!; congruence.
Qed.

Lemma stage_mono t t' op :
  (∀ id row, tb_commands t !! id = Some row → ∃ row', tb_commands t' !! id = Some row' ∧
     cr_agent_id row' = cr_agent_id row ∧ cr_command_payload row' = cr_command_payload row) →
  stage_ok t op → stage_ok t' op.
Proof.
  intros Hc. unfold stage_ok. destruct (wo_state op); try done; try (by apply linked_mono); intros [? ?];
    split; try done; by eapply linked_mono.
Qed.

(** A new revision of one Agent's catalog supersedes what was live. *)
Lemma supersede_wf agent_id e now at_ u t' op :
  catalog_revision_of agent_id u = e →
  tb_catalogs t' = <[agent_id := mkCatalogRow (e + 1) at_]> (tb_catalogs u) →
  tb_commands t' = tb_commands u → op_wf u op → op_wf t' (supersede agent_id (e + 1) now op).
Proof.
  intros He Hc Hcmd [H1 H2 H3 H4 H5].
  destruct (evolves_fields _ _ (supersede_evolves agent_id (e + 1) now op)) as (_ & Ha & Ht & Hex & _).
  assert (Hrev : catalog_revision_of (wo_agent_id op) t' =
    if decide (wo_agent_id op = agent_id) then e + 1 else catalog_revision_of (wo_agent_id op) u).
  { unfold catalog_revision_of. rewrite Hc. destruct (decide _) as [->|Hne].
    - by rewrite lookup_insert_eq.
    - by rewrite lookup_insert_ne by congruence. }
  split; rewrite ?Ha, ?Ht, ?Hex, ?Hrev; [done..| | |].
  - destruct (decide _) as [Heq|]; [|done]. rewrite Heq in H3. lia.
  - unfold supersede. destruct (decide (wo_agent_id op = agent_id)) as [Heq|Hne].
    + rewrite bool_decide_eq_true_2 by done. destruct (live_operation (wo_state op)) eqn:Hl; cbn.
      * rewrite bool_decide_eq_true_2; [done|]. specialize (H4 eq_refl). rewrite Heq in H4. lia.
      * rewrite andb_false_r. congruence.
    + rewrite (bool_decide_eq_false_2 (wo_agent_id op = agent_id)) by done. exact H4.
  - unfold supersede. destruct (_ && _); [done|]. eapply stage_mono; [|done]. rewrite Hcmd. eauto.
Qed.

Lemma replace_wf agent_id e now at_ u t' :
  catalog_revision_of agent_id u = e →
  tb_catalogs t' = <[agent_id := mkCatalogRow (e + 1) at_]> (tb_catalogs u) →
  tb_operations t' = supersede agent_id (e + 1) now <$> tb_operations u →
  tb_commands t' = tb_commands u → web_wf u → web_wf t'.
Proof.
  intros He Hcat Ho Hcmd [Hops Hd]. split; [|by eapply distinct_fmap; [intros; apply supersede_evolves|..]].
  intros id op. rewrite Ho, lookup_fmap. destruct (tb_operations u !! id) as [op0|] eqn:Hop; [|done].
  intros [= <-]. eapply supersede_wf; try done. exact (Hops _ _ Hop).
Qed.

(** The new operation is the newest of its Agent. *)
Lemma written_wf agent_id e draft u op t' :
  0 ≤ e → web_written agent_id e draft u op t' → web_wf u → web_wf t'.
Proof.
  intros He0 [Hnew Hid Hkey He [at_ Hcat] [now Ho] Hcmd] Hwf.
  set (t0 := mkJobTables (tb_catalogs t') ∅ ∅ (supersede agent_id (e + 1) now <$> tb_operations u) (tb_commands t')).
  assert (Hwf0 : web_wf t0) by (by eapply (replace_wf agent_id e now at_ u)).
  assert (Hrev : catalog_revision_of agent_id t' = e + 1)
    by (unfold catalog_revision_of; by rewrite Hcat, lookup_insert_eq).
  assert (Hfields : operation_key op = draft_key draft ∧ wo_agent_id op = agent_id ∧
            wo_target_revision op = e + 1 ∧ wo_expected_revision op = e ∧ wo_state op = OpWaitingAgent ∧
            wo_command_id op = None) by (rewrite Hnew; done).
  destruct Hfields as (F1 & F2 & F3 & F4 & F5 & F6). destruct Hwf0 as [Hops0 Hd0], Hwf as [Hops Hd].
  (* no other row has the key, and no other row of the Agent the revision *)
  assert (Hfresh : ∀ j p, tb_operations t0 !! j = Some p →
    operation_key op = operation_key p ∨
      (wo_agent_id op = wo_agent_id p ∧ wo_target_revision op = wo_target_revision p) → False).
  { intros j p. cbn. rewrite lookup_fmap. destruct (tb_operations u !! j) as [p0|] eqn:Hj; [|done].
    intros [= <-]. destruct (evolves_fields _ _ (supersede_evolves agent_id (e + 1) now p0)) as (-> & -> & -> & _).
    rewrite F1, F2, F3. intros [Hk|[Ha Ht]].
    - by eapply find_by_key_None in Hj; [|exact Hkey].
    - pose proof (ow_bound _ _ (Hops _ _ Hj)) as Hb. rewrite <-Ha in Hb. lia. }
  assert (Hlook : ∀ i o, tb_operations t' !! i = Some o →
    (i = dr_operation_id draft ∧ o = op) ∨ (i ≠ dr_operation_id draft ∧ tb_operations t0 !! i = Some o)).
  { intros i o. rewrite Ho. destruct (decide (i = dr_operation_id draft)) as [->|Hne].
    - rewrite lookup_insert_eq. intros [= <-]. by left.
    - rewrite lookup_insert_ne by done. by right. }
  split.
  - intros i o [[-> ->]|[_ Hi]]%Hlook.
    + split; unfold stage_ok; rewrite ?F2, ?F3, ?F4, ?F5, ?Hrev; done.
    + destruct (Hops0 _ _ Hi) as [H1 H2 H3 H4 H5]. by split.
  - intros i j o p [[-> ->]|[Hni Hi]]%Hlook [[-> ->]|[Hnj Hj]]%Hlook Hor; [done| | |by eapply Hd0].
    + by destruct (Hfresh _ _ Hj Hor).
    + destruct (Hfresh _ _ Hi). intuition congruence.
Qed.

(** *** Commands and results *)

Lemma link_wf clock agent_id command t t' :
  issued agent_id command → record_job_command clock agent_id command t = Some (Ok tt, t') →
  web_wf t → web_wf t'.
Proof.
  intros Hiss Hs [Hops Hd]. pose proof (record_kept _ _ _ _ _ _ Hs) as [_ Hkc].
  apply record_job_command_Ok in Hs as (id & revision & now & row & Hid & Hrev & Hc & Ha & Hp & _ & Hcat & Ho).
  assert (Hsame : ∀ a, catalog_revision_of a t' = catalog_revision_of a t)
    by (intros a; unfold catalog_revision_of; by rewrite Hcat).
  destruct (jc_action command) as [[v|v|v|v]|] eqn:Hact;
    [|split; [|intros i j o p; rewrite Ho; apply Hd]; intros i o; rewrite Ho; intros Hi;
      destruct (Hops _ _ Hi) as [H1 H2 H3 H4 H5]; split; rewrite ?Hsame; try done;
      (by eapply stage_mono)..].
  split; [|by eapply distinct_fmap; [intros; apply link_evolves|..]].
  intros i o. rewrite Ho, lookup_fmap. destruct (tb_operations t !! i) as [op|] eqn:Hi; [|done]. intros [= <-].
  destruct (Hops _ _ Hi) as [H1 H2 H3 H4 H5].
  unfold command_catalog_revision in Hrev. rewrite Hact in Hrev. injection Hrev as <-.
  unfold link_operation. destruct (_ && _) eqn:Hb; [|split; rewrite ?Hsame; try done; by eapply stage_mono].
  bools. split; cbn; rewrite ?Hsame; try done; [intros _; by apply H4|].
  unfold stage_ok, linked. cbn. destruct (bool_decide (wo_desired_digest op = catalog_digest v)) eqn:Hdg;
    exists id, command, v, row; rewrite Hc, lookup_insert_eq; split_and!; try done; congruence.
Qed.

Lemma complete_wf clock agent_id result t r t' :
  reported agent_id result → complete_job_command clock agent_id result t = Some (r, t') →
  web_wf t → web_wf t'.
Proof.
  intros Hrep Hs [Hops Hd]. pose proof (complete_kept _ _ _ _ _ _ Hs) as [_ Hkc].
  apply complete_job_command_cases in Hs
    as [(e & _ & ->)|(id & row & row' & now & _ & Hid & Hrow & Ha & _ & _ & _ & Hcat & Ho)]; [done|].
  assert (Hsame : ∀ a, catalog_revision_of a t' = catalog_revision_of a t)
    by (intros a; unfold catalog_revision_of; by rewrite Hcat).
  split; [|by eapply distinct_fmap; [intros; apply complete_evolves|..]].
  intros i o. rewrite Ho, lookup_fmap. destruct (tb_operations t !! i) as [op|] eqn:Hi; [|done]. intros [= <-].
  destruct (Hops _ _ Hi) as [H1 H2 H3 H4 H5].
  unfold complete_operation. destruct (_ && _) eqn:Hb; [|split; rewrite ?Hsame; try done; by eapply stage_mono].
  apply andb_true_iff in Hb as [Hcid%bool_decide_eq_true_1 Haw].
  (* an operation with a command that awaits its result was sent *)
  assert (Hsent : wo_state op = OpSent)
    by (unfold stage_ok in H5; destruct (wo_state op); cbn in Haw; congruence || done).
  unfold stage_ok in H5. rewrite Hsent in H5. pose proof (linked_mono _ _ _ _ Hkc H5) as Hl.
  assert (Hag : wo_agent_id op = agent_id).
  { destruct H5 as (id' & ? & ? & row0 & Hc & _ & _ & _ & _ & _ & Hr0 & <- & _). congruence. }
  assert (Hans : answered op (wr_status result)) by (exists id, result; by rewrite Hag).
  specialize (H4 ltac:(by rewrite Hsent)).
  destruct (completed_state (wr_status result) now) as [[s c] cl] eqn:Hst.
  split; cbn; rewrite ?Hsame; try done. unfold stage_ok; cbn.
  unfold completed_state in Hst.
  destruct (decide (wr_status result = 1)) as [E1|N1]; [rewrite E1 in *; by injection Hst as <- <- <-|].
  destruct (decide (wr_status result = 2)) as [E2|N2]; [rewrite E2 in *; by injection Hst as <- <- <-|].
  destruct (decide (wr_status result = 3)) as [E3|N3]; [rewrite E3 in *; by injection Hst as <- <- <-|].
  assert (s = OpUnknown ∧ cl = false) as [-> ->].
  { destruct (wr_status result) as [|[[]|[]|]|]; naive_solver. }
  split; [done|]. exists (wr_status result). split; [done|]. set_solver.
Qed.

Lemma web_reach_wf t t' : web_reach t t' → web_wf t → web_wf t'.
Proof.
  induction 1 as [t|t t1 t2 other late clock a jobs ex r _ IH _ IH1 Hnone Hs
    |t t1 t2 u between other clock a jobs e draft r _ IH _ IH1 _ IH2 Hu He Hs
    |t t1 t2 clock a command r _ IH Hi Hs|t t1 t2 clock a result r _ IH Hr Hs]; [done|..]; intros Hwf.
  - destruct r as [record|err]; [|apply replace_if_revision_Err in Hs as ->; auto].
    apply replace_if_revision_Ok in Hs.
    destruct (replaced_written _ _ _ _ _ _ _ _ Hnone Hs) as (e & now & at_ & He & Hcat & Ho & Hc).
    eapply replace_wf; eauto.
  - pose proof Hu as (Ho & _).
    apply for_web_cases in Hs as [(err & _ & [->|[->| ->]])|[(ex & _ & [->| ->] & _)|(m & -> & Hm)]];
      rewrite ?Ho; auto.
    destruct (mutated_written _ _ _ _ _ _ _ _ _ _ Hu Hm) as (op & rec & _ & _ & Hw).
    eapply written_wf; eauto.
  - destruct r as [[]|err]; [|apply record_job_command_Err in Hs as ->; auto]. eapply link_wf; eauto.
  - eapply complete_wf; eauto.
Qed.

Lemma web_wf_empty : web_wf (mkJobTables ∅ ∅ ∅ ∅ ∅).
Proof. split; [intros ? ? Hop|intros ? ? ? ? Hop]; cbn in Hop; by rewrite lookup_empty in Hop. Qed.

(** A request whose key is stored is answered from it. *)
Lemma web_retry_answer draft agent_id between other clock jobs e t existing :
  find_by_idempotency_key (draft_key draft) t = Some existing →
  ∀ r t', replace_agent_job_catalog_for_web between other clock agent_id jobs e draft t = Some (r, t') →
  t' = t ∧ (validate_operation_draft draft agent_id = Ok tt → 0 ≤ e < i64_max → r = replay draft existing).
Proof.
  intros Hf r t' Hs. unfold replace_agent_job_catalog_for_web in Hs.
  apply st_try_Some in Hs as [([] & ? & [Hval ->]%st_ret_Some & Hs)|(err & [Hval ->]%st_ret_Some & ->)];
    [|split; [done|intros Hv; congruence]].
  apply st_try_Some in Hs as [(ex & ? & [Hex ->]%st_ret_Some & Hs)|(err & [Hex ->]%st_ret_Some & ->)];
    unfold i64_try_from in Hex; destruct (bool_decide (e ≤ i64_max)) eqn:Hb; bools; try done;
    [|split; [done|intros _ ?; lia]].
  injection Hex as ->.
  apply st_try_Some in Hs as [(target & ? & [Htg ->]%st_ret_Some & Hs)|(err & [Htg ->]%st_ret_Some & ->)].
  - cbv zeta in Hs. apply st_bind_Some in Hs as (? & ? & [-> ->]%st_get_Some & Hs).
    rewrite Hf in Hs. by apply st_ret_Some in Hs as [-> ->].
  - split; [done|]. intros _ Hlt. unfold checked_i64 in Htg.
    rewrite bool_decide_eq_true_2 in Htg by (unfold i64_min; lia). done.
Qed.

End Life.

(** ** Properties *)


(** An operation that is applied, rejected, superseded or unknown is history: no
    later replacement, mutation, command or result changes its row in any column. *)
Theorem web_operation_final `{D : DefinitionCodec} `{W : WebCodecs} `{E : CatalogEncoding} `{B2 : Blake2s}
    (issued : string → JobCommand → Prop) (reported : string → WireResult → Prop) t t' id op :
  web_reach issued reported t t' → tb_operations t !! id = Some op →
  wo_state op ∈ [OpApplied; OpRejected; OpSuperseded; OpUnknown] →
  tb_operations t' !! id = Some op.
Proof.
  intros [Hk _]%web_reach_kept Hop Hst. destruct (Hk _ _ Hop) as (op' & Hop' & _ & Hfin).
  rewrite Hop', Hfin; [done|]. destruct (wo_state op); try done; set_solver.
Qed.

(** Web mutations are idempotent: once a mutation was carried out, a request
    with the same user, method and mutation id changes nothing, at any later time
    and whatever else it contains; with the same request hash it is answered with
    the stored operation and its original response, marked as replayed, and with
    another hash it is a conflict. *)
Theorem web_mutation_idempotent `{D : DefinitionCodec} `{W : WebCodecs} `{E : CatalogEncoding} `{B2 : Blake2s}
    (issued : string → JobCommand → Prop) (reported : string → WireResult → Prop)
    between other clock agent_id jobs e draft t m t1 u t2 between' other' clock' agent_id' jobs' e' draft' r t3 :
  web_wf issued reported u → unseen draft other (between t) u → 0 ≤ e →
  replace_agent_job_catalog_for_web between other clock agent_id jobs e draft t = Some (Ok m, t1) →
  mu_replayed m = false → web_reach issued reported t1 t2 →
  draft_key draft' = draft_key draft →
  replace_agent_job_catalog_for_web between' other' clock' agent_id' jobs' e' draft' t2 = Some (r, t3) →
  t3 = t2 ∧
  (validate_operation_draft draft' agent_id' = Ok tt → 0 ≤ e' < i64_max →
   if decide (dr_request_hash draft' = dr_request_hash draft) then
     ∃ op, r = Ok (mkMutation None (dr_operation_id draft, op) true) ∧
       wo_response_json op = dr_response_json draft ∧ wo_target_revision op = e + 1 ∧
       wo_desired_digest op = catalog_digest (mkReplaceAllJobs (e + 1) jobs)
   else r = Err WebJobIdempotencyConflict).
Proof.
  intros Hwf Hu He Hs Hm Hreach Hkey Hs'.
  apply for_web_cases in Hs as [(? & [=] & _)|[(ex & Hrep & _)|(m' & [= <-] & Hmut)]].
  { unfold replay in Hrep. destruct (bool_decide _); [done|]. symmetry in Hrep.
    apply result_bind_Ok in Hrep as (o & _ & [= <-]). done. }
  destruct (mutated_written _ _ _ _ _ _ _ _ _ _ Hu Hmut) as (op & record & -> & Hdig & Hw).
  pose proof (web_reach_wf _ _ _ _ Hreach (written_wf _ _ _ _ _ _ _ _ He Hw Hwf)) as [Hops2 Hd2].
  apply web_reach_kept in Hreach as [Hk _].
  destruct Hw as [Hnew _ _ _ _ [now Ho] _].
  destruct (Hk (dr_operation_id draft) op) as (op2 & Hop2 & Hev); [by rewrite Ho, lookup_insert_eq|].
  destruct (evolves_fields _ _ Hev) as (K2 & _ & T2 & X2 & D2 & H2 & R2).
  assert (Hk2 : operation_key op2 = draft_key draft) by (rewrite K2, Hnew; done).
  assert (Hf : find_by_idempotency_key (draft_key draft') t2 = Some (dr_operation_id draft, op2)).
  { rewrite Hkey. destruct (find_by_idempotency_key (draft_key draft) t2) as [[i o]|] eqn:Hf.
    - apply find_by_key_Some in Hf as [Hi Hko].
      assert (i = dr_operation_id draft) as -> by (apply (Hd2 _ _ _ _ Hi Hop2); left; congruence).
      congruence.
    - by destruct (find_by_key_None _ _ _ _ Hf Hop2). }
  pose proof (web_retry_answer draft' agent_id' between' other' clock' jobs' e' t2 _ Hf r t3 Hs') as [-> Hans].
  split; [done|]. intros Hval Hlt. rewrite (Hans Hval Hlt). unfold replay. cbn.
  assert (Hhash : wo_request_hash op2 = dr_request_hash draft) by (rewrite H2, Hnew; done). rewrite Hhash.
  destruct (decide _) as [Heq|Hne].
  - rewrite bool_decide_eq_false_2 by (intros Hn; by apply Hn). unfold operation_record. cbn.
    destruct (Hops2 _ _ Hop2) as [Hx Ht _ _ _]. unfold stored_revision.
    rewrite !bool_decide_eq_true_2 by lia. cbn. exists op2.
    split_and!; [done|rewrite R2, Hnew; done|rewrite T2, Hnew; done|by rewrite D2].
  - by rewrite bool_decide_eq_true_2 by congruence.
Qed.

(** ** A Server with one operation *)

Global Instance ReplaceAllJobs_countable : Countable ReplaceAllJobs.
Proof. refine (inj_countable' (λ v, (ra_catalog_revision v, ra_jobs v)) (λ '(a, b), mkReplaceAllJobs a b) _). by intros []. Defined.
Global Instance UpsertJob_eq_dec : EqDecision UpsertJob.
Proof. solve_decision. Defined.
Global Instance UpsertJob_countable : Countable UpsertJob.
Proof. refine (inj_countable' (λ v, (up_catalog_revision v, up_job v)) (λ '(a, b), mkUpsertJob a b) _). by intros []. Defined.
Global Instance DeleteJob_eq_dec : EqDecision DeleteJob.
Proof. solve_decision. Defined.
Global Instance DeleteJob_countable : Countable DeleteJob.
Proof.
  refine (inj_countable' (λ v, (dl_catalog_revision v, dl_job_id v, dl_expected_revision v)) (λ '(a, b, c), mkDeleteJob a b c) _).
  by intros [].
Defined.
Global Instance RunJobNow_eq_dec : EqDecision RunJobNow.
Proof. solve_decision. Defined.
Global Instance RunJobNow_countable : Countable RunJobNow.
Proof. refine (inj_countable' (λ v, (rn_job_id v, rn_expected_revision v)) (λ '(a, b), mkRunJobNow a b) _). by intros []. Defined.

(** An injective encoding of commands. *)
Definition demo_action_bytes (a : option CommandAction) : bytes :=
  match a with
  | None => []
  | Some (ActReplaceAll v) => 0 :: ra_catalog_revision v :: ((λ d, Z.pos (encode d)) <$> ra_jobs v)
  | Some (ActUpsert v) => [1; Z.pos (encode v)]
  | Some (ActDelete v) => [2; Z.pos (encode v)]
  | Some (ActRunNow v) => [3; Z.pos (encode v)]
  end.

Definition demo_web_codecs : WebCodecs := {|
  uuid_text _ := true;
  json_text _ := true;
  encode_command cmd := zlen (jc_command_id cmd) :: jc_command_id cmd ++ demo_action_bytes (jc_action cmd);
  encode_result r := jr_command_id r;
|}.
#[export] Existing Instance demo_web_codecs.

Lemma demo_action_bytes_inj : Inj (=) (=) demo_action_bytes.
Proof.
  intros [[[r1 l1]|v1|v1|v1]|] [[[r2 l2]|v2|v2|v2]|]; cbn; try done;
    [|by intros [= ->%(inj encode)]..].
  intros [= -> Hl]. do 3 f_equal. revert Hl. apply list_fmap_eq_inj.
  intros x y [= Hxy]. by apply (inj encode) in Hxy.
Qed.

Lemma demo_encode_command_inj : Inj (=) (=) (@encode_command demo_web_codecs).
Proof.
  intros [i1 a1] [i2 a2]. cbn. unfold zlen. intros [= Hlen Happ].
  apply app_inj_1 in Happ as [-> Ha%demo_action_bytes_inj]; [by subst|lia].
Qed.

(** A request to install the two jobs of [Catalog.v] on a new Agent. *)
Definition demo_draft : WebJobOperationDraft :=
  mkDraft "op-1" "user" "PUT" "mutation-1"
    "0000000000000000000000000000000000000000000000000000000000000000" "agent-a" "replace_catalog" None "{}".

Definition demo_mutate (t : JobTables) : option (result JobDbError WebJobCatalogMutationRecord * JobTables) :=
  replace_agent_job_catalog_for_web id id (Some 200) "agent-a" demo_jobs1 0 demo_draft t.
Definition demo_mutation : WebJobCatalogMutationRecord :=
  match demo_mutate demo_tables with
  | Some (Ok m, _) => m
  | _ => mkMutation None ("", new_operation demo_draft "" 0 0 [] 0) true
  end.
Definition demo_web1 : JobTables := match demo_mutate demo_tables with Some (_, t) => t | None => demo_tables end.

Lemma demo_mutate_eq : demo_mutate demo_tables = Some (Ok demo_mutation, demo_web1).
Proof. vm_compute. reflexivity. Qed.

(** The command that delivers it. *)
Definition demo_delivery : JobCommand :=
  mkJobCommand (uuid_bytes 77) (Some (ActReplaceAll (mkReplaceAllJobs 1 (rev demo_jobs1)))).
Definition demo_web2 : JobTables :=
  match record_job_command (Some 300) "agent-a" demo_delivery demo_web1 with Some (_, t) => t | None => demo_web1 end.

Lemma demo_record_eq : record_job_command (Some 300) "agent-a" demo_delivery demo_web1 = Some (Ok tt, demo_web2).
Proof. vm_compute. reflexivity. Qed.

(** And its result. *)
Definition demo_answer_applied : WireResult := mkWireResult (uuid_bytes 77) 1 1 None [].
Definition demo_web3 : JobTables :=
  match complete_job_command (Some 400) "agent-a" demo_answer_applied demo_web2 with Some (_, t) => t | None => demo_web2 end.

Lemma demo_complete_eq :
  complete_job_command (Some 400) "agent-a" demo_answer_applied demo_web2 = Some (Ok tt, demo_web3).
Proof. vm_compute. reflexivity. Qed.

Definition demo_issued (a : string) (cmd : JobCommand) : Prop := a = "agent-a" ∧ cmd = demo_delivery.
Definition demo_reported (a : string) (r : WireResult) : Prop := a = "agent-a" ∧ r = demo_answer_applied.

Lemma demo_unseen : unseen demo_draft id demo_tables demo_tables.
Proof. split_and!; [reflexivity|intros op; reflexivity|vm_compute; reflexivity|vm_compute; reflexivity]. Qed.

Lemma demo_reach_web issued reported : web_reach issued reported demo_tables demo_web1.
Proof.
  eapply (web_mutate _ _ demo_tables demo_tables _ demo_tables id id);
    [constructor..|exact demo_unseen|exact (Z.le_refl 0)|exact demo_mutate_eq].
Qed.

Lemma demo_reach_sent (issued : string → JobCommand → Prop) reported :
  issued "agent-a" demo_delivery → web_reach issued reported demo_tables demo_web2.
Proof. intros Hi. eapply web_record; [apply demo_reach_web|exact Hi|exact demo_record_eq]. Qed.

Lemma demo_reach_applied : web_reach demo_issued demo_reported demo_tables demo_web3.
Proof.
  eapply web_complete; [apply demo_reach_sent; split; reflexivity| |exact demo_complete_eq]. split; reflexivity.
Qed.

Definition demo_operation : WebOperation :=
  default (new_operation demo_draft "" 0 0 [] 0) (tb_operations demo_web3 !! "op-1").

Lemma demo_operation_eq : tb_operations demo_web3 !! "op-1" = Some demo_operation.
Proof. vm_compute. reflexivity. Qed.


(** A second result for the same command changes nothing. *)
Definition demo_web4 : JobTables :=
  match complete_job_command (Some 500) "agent-a" demo_answer_applied demo_web3 with Some (_, t) => t | None => demo_web3 end.

Lemma demo_complete_again :
  complete_job_command (Some 500) "agent-a" demo_answer_applied demo_web3 = Some (Ok tt, demo_web4).
Proof. vm_compute. reflexivity. Qed.

Lemma web_operation_final_witness : tb_operations demo_web4 !! "op-1" = Some demo_operation.
Proof.
  apply (web_operation_final demo_issued demo_reported demo_web3 demo_web4 "op-1" demo_operation).
  - eapply web_complete; [constructor| |exact demo_complete_again]. split; reflexivity.
  - exact demo_operation_eq.
  - replace (wo_state demo_operation) with OpApplied by (vm_compute; reflexivity). left.
Defined.

(** The request repeated after the Agent has applied it. *)
Definition demo_replayed : result JobDbError WebJobCatalogMutationRecord :=
  match demo_mutate demo_web3 with Some (r, _) => r | None => Err ClockError end.

Lemma demo_mutate_again : demo_mutate demo_web3 = Some (demo_replayed, demo_web3).
Proof. vm_compute. reflexivity. Qed.

Lemma demo_reach_rest : web_reach demo_issued demo_reported demo_web1 demo_web3.
Proof.
  eapply web_complete; [eapply web_record; [constructor| |exact demo_record_eq]| |exact demo_complete_eq]; split; reflexivity.
Qed.

Lemma web_mutation_idempotent_witness :
  ∃ op, demo_replayed = Ok (mkMutation None ("op-1", op) true) ∧ wo_response_json op = "{}".
Proof.
  destruct (web_mutation_idempotent demo_issued demo_reported id id (Some 200) "agent-a" demo_jobs1 0 demo_draft
    demo_tables demo_mutation demo_web1 demo_tables demo_web3 id id (Some 200) "agent-a" demo_jobs1 0 demo_draft
    demo_replayed demo_web3 (web_wf_empty _ _) demo_unseen (Z.le_refl 0) demo_mutate_eq
    ltac:(vm_compute; reflexivity) demo_reach_rest eq_refl demo_mutate_again) as [_ Hr].
  specialize (Hr ltac:(vm_compute; reflexivity) ltac:(split; [lia|vm_compute; reflexivity])).
  rewrite decide_True in Hr by reflexivity. destruct Hr as (op & Hr & Hj & _). exists op. exact (conj Hr Hj).
Defined.
