(* ===== verification/WebJson.v ===== *)
(** * Requests and answers of the web API

    The JSON of [crates/smalux-server/src/web_auth.rs]: how [serde] reads the parameter
    structures, the limits on job definitions, and the views the API answers with.

    [serde_json]'s parser is a parameter in [WebApi.v]; a parsed object keeps its members
    in the order of the text. *)

From Stdlib Require Import Ascii.
From stdpp Require Import base gmap strings list pretty sorting.
From S2P Require Import Prelude StLogic Rotation Credential Registration SchedModel Proto Catalog JobEvents Paging Reports Actor Policy RemoteJobs WebOps WebStore WebGate WebMetrics.

(** ** JSON *)

(** [JFloat] is a number that is not an integer. *)
Inductive Json : Type :=
| JNull
| JBool (b : bool)
| JInt (n : Z)
| JFloat
| JString (s : string)
| JArray (items : list Json)
| JObject (members : list (string * Json)).

(** [Value::get] on an object: [serde_json]'s map keeps the last of repeated members. *)
Definition json_get (key : string) (members : list (string * Json)) : option Json :=
  snd <$> last (filter (λ kv : string * Json, kv.1 = key) members).
Definition json_keys (members : list (string * Json)) : list string := fst <$> members.

(** A derived [Deserialize] with [deny_unknown_fields]: an object whose members are
    fields and which has the fields that are not optional, or an array with one item
    per field.  [strict] is reading from text, where a repeated field is an error. *)
Definition decode_struct (strict : bool) (fields : list (string * bool)) (v : Json) : option (list Json) :=
  match v with
  | JObject members =>
      if forallb (λ k, bool_decide (k ∈ fst <$> fields)) (json_keys members)
         && (negb strict || bool_decide (NoDup (json_keys members)))
      then mapM (λ f : string * bool,
                   match json_get f.1 members with
                   | Some v => Some v
                   | None => if f.2 then Some JNull else None
                   end) fields
      else None
  | JArray items => if bool_decide (length items = length fields) then Some items else None
  | _ => None
  end.

Definition as_string (v : Json) : option string := match v with JString s => Some s | _ => None end.
Definition as_bool (v : Json) : option bool := match v with JBool b => Some b | _ => None end.
Definition as_i64 (v : Json) : option Z := match v with JInt n => checked_i64 n | _ => None end.
Definition as_u32 (v : Json) : option Z :=
  match v with JInt n => if bool_decide (0 ≤ n ≤ u32_max) then Some n else None | _ => None end.
Definition as_strings (v : Json) : option (list string) :=
  match v with JArray items => mapM as_string items | _ => None end.

(** [Option<T>]. *)
Definition as_option {A} (f : Json → option A) (v : Json) : option (option A) :=
  match v with JNull => Some None | _ => Some <$> f v end.

(** [Login] and [Empty]. *)
Definition decode_login (v : Json) : option (string * string) :=
  vs ← decode_struct true [("username", false); ("password", false)] v;
  match vs with [u; p] => u ← as_string u; p ← as_string p; Some (u, p) | _ => None end.
Definition decode_empty (v : Json) : option unit := _ ← decode_struct true [] v; Some tt.

(** [AgentListParams], [AgentGetParams] and [JobListParams], [JobGetParams]. *)
Record AgentListParams : Type := mkAgentListParams {
  al_status : option string;
  al_name : option string;
  al_online : option bool;
  al_limit : option Z;
  al_after : option string;
}.
Definition decode_agent_list (v : Json) : option AgentListParams :=
  vs ← decode_struct false [("status", true); ("name", true); ("online", true); ("limit", true); ("after", true)] v;
  match vs with
  | [status; name; online; limit; after] =>
      status ← as_option as_string status; name ← as_option as_string name; online ← as_option as_bool online;
      limit ← as_option as_u32 limit; after ← as_option as_string after;
      Some (mkAgentListParams status name online limit after)
  | _ => None
  end.
Definition decode_agent_id (v : Json) : option string :=
  vs ← decode_struct false [("agentId", false)] v; match vs with [a] => as_string a | _ => None end.
Definition decode_job_get (v : Json) : option (string * string) :=
  vs ← decode_struct false [("agentId", false); ("jobId", false)] v;
  match vs with [a; j] => a ← as_string a; j ← as_string j; Some (a, j) | _ => None end.

(** [JobCatalogReplaceParams]. *)
Record JobCatalogReplaceParams : Type := mkReplaceParams {
  jr_agent_id : string;
  jr_expected_catalog_revision : string;
  jr_client_mutation_id : string;
  jr_definitions_hex : list string;
}.
Definition decode_replace (v : Json) : option JobCatalogReplaceParams :=
  vs ← decode_struct false
         [("agentId", false); ("expectedCatalogRevision", false); ("clientMutationId", false); ("definitionsHex", false)] v;
  match vs with
  | [a; e; m; d] =>
      a ← as_string a; e ← as_string e; m ← as_string m; d ← as_strings d; Some (mkReplaceParams a e m d)
  | _ => None
  end.

(** [OperationGetParams] and [OperationListParams]. *)
Definition decode_operation_get (v : Json) : option string :=
  vs ← decode_struct false [("operationId", false)] v; match vs with [o] => as_string o | _ => None end.
Definition decode_operation_list (v : Json) : option (string * option Z) :=
  vs ← decode_struct false [("agentId", false); ("limit", true)] v;
  match vs with [a; l] => a ← as_string a; l ← as_option as_u32 l; Some (a, l) | _ => None end.

(** [ReportListParams] and [EventListParams]. *)
Record ListParams : Type := mkListParams {
  li_agent_id : string;
  li_job_id : option string;
  li_from_ms : option Z;
  li_to_ms : option Z;
  li_cursor : option string;
  li_limit : option Z;
}.
Definition decode_list (v : Json) : option ListParams :=
  vs ← decode_struct false
         [("agentId", false); ("jobId", true); ("fromMs", true); ("toMs", true); ("cursor", true); ("limit", true)] v;
  match vs with
  | [a; j; f; t; c; l] =>
      a ← as_string a; j ← as_option as_string j; f ← as_option as_i64 f; t ← as_option as_i64 t;
      c ← as_option as_string c; l ← as_option as_u32 l; Some (mkListParams a j f t c l)
  | _ => None
  end.

(** [LatestParams]; [metrics] has a default, also when an array is too short. *)
Definition as_metric (v : Json) : option MetricName :=
  s ← as_string v; if String.eqb s "cpu" then Some Cpu else if String.eqb s "memory" then Some Memory else None.
Definition as_metrics (v : Json) : option (list MetricName) :=
  match v with JArray items => mapM as_metric items | _ => None end.
Definition decode_latest (v : Json) : option LatestParams :=
  let metrics_of (v : option Json) := match v with None => Some [Cpu; Memory] | Some v => as_metrics v end in
  match v with
  | JObject members =>
      if forallb (λ k, bool_decide (k ∈ ["agentIds"; "metrics"])) (json_keys members) then
        ids ← json_get "agentIds" members; ids ← as_strings ids; metrics ← metrics_of (json_get "metrics" members);
        Some (mkLatestParams ids metrics)
      else None
  | JArray (ids :: rest) =>
      ids ← as_strings ids;
      match rest with
      | [] => metrics ← metrics_of None; Some (mkLatestParams ids metrics)
      | [m] => metrics ← metrics_of (Some m); Some (mkLatestParams ids metrics)
      | _ => None
      end
  | _ => None
  end.

(** ** Numbers and identifiers *)

(** [str::parse::<u64>]. *)
Definition parse_u64 (s : string) : option Z :=
  value ← match s with String "+"%char s => parse_nonempty_digits s | _ => parse_nonempty_digits s end;
  if bool_decide (value ≤ u64_max) then Some value else None.

(** [canonical_uuid] and [parse_job_id]. *)
Definition canonical_uuid (value : string) : option string := (λ _, value) <$> canonical_uuid_bytes value.
Definition parse_job_id (value : option string) : option (option bytes) :=
  match value with None => Some None | Some value => Some <$> canonical_uuid_bytes value end.

(** The expected revision of a mutation: canonical, within [i64]. *)
Definition parse_expected_revision (text : string) : option Z :=
  value ← parse_u64 text;
  if bool_decide (pretty value = text) && bool_decide (value ≤ i64_max) then Some value else None.

(** ** Job definitions *)

Definition MAX_WEB_JOB_CATALOG_ENTRIES : Z := 1024.
Definition MAX_WEB_JOB_CATALOG_BYTES : Z := 1024 * 1024.

Section Definitions.
Context `{D : DefinitionCodec}.

(** [job_task_kind]. *)
Definition job_task_kind (definition : JobDefinition) : option string :=
  task ← jd_task definition ≫= td_task;
  match task with
  | Task_Plugin plugin => if bool_decide (ptc_task_kind plugin = "") then None else Some (ptc_task_kind plugin)
  | _ => Some (task_kind_name task)
  end.

(** [char::to_digit(16)] of each half of a byte. *)
Fixpoint hex_digits (text : bytes) : option bytes :=
  match text with
  | a :: b :: text => high ← hex_value a; low ← hex_value b; rest ← hex_digits text; Some (high * 16 + low :: rest)
  | _ => Some []
  end.

(** The checks on one definition. *)
Definition check_definition_form (definition : JobDefinition) : result string unit :=
  if bool_decide (length (jd_job_id definition) ≠ 16%nat) || bool_decide (jd_revision definition = 0)
  then Err "JobDefinition id or revision is invalid"
  else
    trigger ← ok_or "Job trigger is required" (jd_trigger definition);
    match jt_schedule trigger, jt_misfire trigger with
    | Some _, Some misfire =>
        if negb (bool_decide (0 ≤ pm_behavior misfire ≤ 3)) then Err "Job misfire behavior is unknown"
        else if bool_decide (pm_behavior misfire = 0) then Err "Job misfire behavior is required"
        else _ ← ok_or "Job task type is invalid" (job_task_kind definition); Ok tt
    | _, _ => Err "Job schedule and misfire policy are required"
    end.

(** The loop of [decode_job_definitions], after [total] bytes. *)
Fixpoint decode_definitions_loop (total : Z) (values : list string) : result string (list JobDefinition) :=
  match values with
  | [] => Ok []
  | encoded :: values =>
      let len := Z.of_nat (String.length encoded) in
      if bool_decide (len = 0) || bool_decide (512 * 1024 < len) || bool_decide (len `mod` 2 ≠ 0)
      then Err "JobDefinition hex is invalid or too large"
      else
        bs ← ok_or "JobDefinition hex is invalid" (hex_digits (text_bytes encoded));
        let total := total + zlen bs in
        if bool_decide (MAX_WEB_JOB_CATALOG_BYTES < total) then Err "Job catalog exceeds its byte limit"
        else
          definition ← map_err (λ _, "JobDefinition Protobuf is invalid") (decode_definition bs);
          _ ← check_definition_form definition;
          rest ← decode_definitions_loop total values;
          Ok (definition :: rest)
  end.

(** [decode_job_definitions]. *)
Definition decode_job_definitions (values : list string) : result string (list JobDefinition) :=
  if bool_decide (MAX_WEB_JOB_CATALOG_ENTRIES < zlen values) then Err "Job catalog has too many entries"
  else decode_definitions_loop 0 values.

(** [JobSummary], [job_summary] and [job_catalog_view]. *)
Record JobSummary : Type := mkJobSummary {
  js_job_id : string;
  js_revision : string;
  js_enabled : bool;
  js_task_kind : string;
}.
Definition job_summary (bs : bytes) : option JobSummary :=
  definition ← to_option (decode_definition bs);
  if bool_decide (length (jd_job_id definition) ≠ 16%nat) then None
  else
    kind ← job_task_kind definition;
    Some (mkJobSummary (uuid_display (jd_job_id definition)) (pretty (jd_revision definition)) (jd_enabled definition) kind).

Record JobCatalogView : Type := mkJobCatalogView {
  jv_agent_id : string;
  jv_catalog_revision : string;
  jv_jobs : list JobSummary;
}.
Definition job_catalog_view (agent_id : string) (catalog_revision : Z) (definitions : list bytes) : option JobCatalogView :=
  jobs ← mapM job_summary definitions; Some (mkJobCatalogView agent_id (pretty catalog_revision) jobs).

End Definitions.

(** ** Views *)

(** [AgentSummary] and [agent_summary]; [AgentView]'s micros become milliseconds. *)
Record AgentSummary : Type := mkAgentSummary {
  as_agent_id : bytes;
  as_display_name : bytes;
  as_authorization_status : string;
  as_online : bool;
  as_created_at_ms : Z;
  as_updated_at_ms : Z;
  as_revoked_at_ms : option Z;
}.
Definition agent_summary (online : bool) (kv : bytes * AgentRow) : AgentSummary :=
  mkAgentSummary kv.1 (ag_name kv.2) (ag_status kv.2) online (Z.quot (ag_created_at kv.2) 1000)
    (Z.quot (ag_updated_at kv.2) 1000) ((λ t, Z.quot t 1000) <$> ag_revoked_at kv.2).

(** [JobOperationView] and [operation_view]. *)
Record JobOperationView : Type := mkOperationView {
  ov_operation_id : string;
  ov_agent_id : string;
  ov_action : string;
  ov_state : WebOperationState;
  ov_expected_catalog_revision : string;
  ov_target_catalog_revision : string;
  ov_target_job_id : option string;
  ov_command_id : option Uuid;
  ov_reason : option string;
  ov_created_at_ms : Z;
  ov_updated_at_ms : Z;
  ov_sent_at_ms : option Z;
  ov_completed_at_ms : option Z;
}.
Definition operation_view (operation : WebJobOperationRecord) : JobOperationView :=
  let '(id, op) := operation in
  mkOperationView id (wo_agent_id op) (wo_action_kind op) (wo_state op) (pretty (wo_expected_revision op))
    (pretty (wo_target_revision op)) (wo_target_job_id op) (wo_command_id op) (wo_reason op)
    (Z.quot (wo_created_at op) 1000) (Z.quot (wo_updated_at op) 1000) ((λ t, Z.quot t 1000) <$> wo_sent_at op)
    ((λ t, Z.quot t 1000) <$> wo_completed_at op).

(** [JobOperationResult]. *)
Record JobOperationResult : Type := mkOperationResult {
  or_job_ids : list string;
  or_operation : JobOperationView;
  or_catalog_revision : string;
}.

(** [ReportSummary] and [EventSummary], with the maps of [report.list] and [event.list].
    An event's kind is the name of the generated enumeration. *)
Record ReportSummary : Type := mkReportSummary {
  rs_report_id : string;
  rs_agent_id : string;
  rs_job_id : option string;
  rs_job_revision : string;
  rs_run_id : option string;
  rs_attempt : Z;
  rs_scheduled_at_ms : option Z;
  rs_started_at_ms : option Z;
  rs_result_kind : string;
  rs_received_at_ms : Z;
}.
Definition uuid_of_slice (bs : bytes) : option string :=
  if bool_decide (length bs = 16%nat) then Some (uuid_display bs) else None.
Definition u32_or_zero (x : Z) : Z := if bool_decide (0 ≤ x) then x else 0.
Definition report_summary (row : TaskReportRecord) : ReportSummary :=
  mkReportSummary (tp_report_id row) (tp_agent_id row) (uuid_of_slice (tp_job_id row)) (pretty (tp_job_revision row))
    (uuid_of_slice (tp_run_id row)) (u32_or_zero (tp_attempt row)) ((λ t, Z.quot t 1000) <$> tp_scheduled_at row)
    ((λ t, Z.quot t 1000) <$> tp_started_at row) (tp_result_kind row) (Z.quot (tp_received_at row) 1000).

Record EventSummary : Type := mkEventSummary {
  es_event_id : string;
  es_agent_id : string;
  es_job_id : option string;
  es_revision : string;
  es_run_id : option string;
  es_attempt : Z;
  es_emitted_at_ms : Z;
  es_kind : JobEventKind;
  es_message : string;
  es_will_retry : bool;
  es_gap_detected : bool;
}.
Definition event_summary (row : EventRow) : EventSummary :=
  mkEventSummary (er_event_id row) (er_agent_id row) (uuid_of_slice (er_job_id row)) (pretty (er_revision row))
    (uuid_of_slice (er_run_id row)) (u32_or_zero (er_attempt row)) (Z.quot (er_emitted_at row) 1000)
    (default KUnspecified (event_kind_of_code (er_kind row))) (er_message row) (er_will_retry row) (er_gap_detected row).

(** ** Roles *)

Definition operator_methods : list string :=
  ["job.list"; "job.get"; "report.list"; "event.list"; "job.catalog.replace"; "operation.get"; "operation.list"].

(** [role_allowed]. *)
Definition role_allowed (method : string) (role : Role) : bool :=
  if bool_decide (method ∈ operator_methods) then match role with Admin | Operator => true | Viewer => false end
  else true.

(** [PLANNED_METHODS]. *)
Definition PLANNED_METHODS : list string :=
  ["user.list"; "user.create"; "user.update"; "user.disable"; "agent.updateMetadata"; "enrollment.create";
   "enrollment.list"; "enrollment.get"; "enrollment.revoke"; "job.create"; "job.update"; "job.disable"].

(** [MethodState] and the methods of [catalog]: each is listed with its state and the
    permission it needs. *)
Record MethodState : Type := mkMethodState {
  me_method : string;
  me_state : string;
  me_permission : string;
}.
Definition available_methods : list string :=
  ["session.info"; "metrics.latest"; "agent.list"; "agent.get"; "report.list"; "event.list"; "job.list"; "job.get";
   "job.catalog.replace"; "operation.get"; "operation.list"].
Definition catalog_methods (role : Role) : list MethodState :=
  filter (λ m, negb (String.eqb (me_state m) "available") || role_allowed (me_method m) role = true)
    (((λ m, mkMethodState m "available" m) <$> available_methods)
     ++ ((λ m, mkMethodState m "planned" "unavailable") <$> PLANNED_METHODS)).
