(* ===== verification/WebApi.v ===== *)
(** * The web API

    The handlers of [crates/smalux-server/src/web_auth.rs]: login, session, logout, meta
    and the methods of the RPC endpoint.

    A handler runs on the tables of the Server.  What it meets from outside is an
    argument: which of its database calls fail, the clock at each of them, random values,
    and what other requests do to the web tables while [store::session] runs.  JSON,
    password hashing and the [LIKE] of the database are parameters. *)

From stdpp Require Import base gmap strings list pretty sorting.
From S2P Require Import Prelude StLogic Rotation Credential Registration Registry SchedModel Proto Catalog JobEvents Paging Reports Actor Policy RemoteJobs WebOps WebStore WebGate WebMetrics WebJson.

(** ** State, environment and answers *)

(** The tables, the directory of sessions of Agents, the login attempts and the
    passwords being hashed. *)
Record WebState : Type := mkWebState {
  st_web : WebTables;
  st_agents : Tables;
  st_jobs : JobTables;
  st_reports : list TaskReportRecord;
  st_events : list EventRow;
  st_registry : SessionRegistry;
  st_attempts : list Z;
  st_hashing : Z;
}.

Definition set_st_web web (s : WebState) :=
  mkWebState web (st_agents s) (st_jobs s) (st_reports s) (st_events s) (st_registry s) (st_attempts s) (st_hashing s).
Definition set_st_jobs jobs (s : WebState) :=
  mkWebState (st_web s) (st_agents s) jobs (st_reports s) (st_events s) (st_registry s) (st_attempts s) (st_hashing s).
Definition set_st_registry registry (s : WebState) :=
  mkWebState (st_web s) (st_agents s) (st_jobs s) (st_reports s) (st_events s) registry (st_attempts s) (st_hashing s).
Definition set_st_attempts attempts (s : WebState) :=
  mkWebState (st_web s) (st_agents s) (st_jobs s) (st_reports s) (st_events s) (st_registry s) attempts (st_hashing s).

(** [serde_json], Argon2 and the database's [LIKE]. *)
Class WebExternals : Type := {
  parse_json : bytes → option Json;
  parse_stored : string → option Json;
  json_bytes : Json → bytes;
  operation_json : JobOperationResult → string;
  verify_password : string → bytes → bool;
  text_contains : bytes → bytes → bool;
}.

(** What a request meets: [en_fault k] and [en_now k] are the outcome and the clock of its
    database call number [k]. *)
Record RequestEnv : Type := mkEnv {
  en_fault : nat → bool;
  en_now : nat → Z;
  en_now_us : option Z;
  en_instant : Z;
  en_uuid : nat → string;
  en_secret : option bytes;
  en_hash_finished : bool;
  en_between : WebTables → WebTables;
}.

(** The body of a request, or why it could not be read. *)
Inductive BodyError : Type := BodyTooLarge | BodyUnreadable.

(** The results of the RPC methods. *)
Inductive RpcResult : Type :=
| ResMetrics (items : list MetricsLatest)
| ResAgentPage (items : list AgentSummary) (next_cursor : option bytes) (has_more : bool)
| ResAgent (agent : AgentSummary)
| ResStored (value : Json)
| ResOperation (operation : JobOperationView)
| ResOperationPage (items : list JobOperationView)
| ResCatalog (view : JobCatalogView)
| ResJob (agent_id catalog_revision : string) (job : JobSummary)
| ResReportPage (items : list ReportSummary) (next_cursor : option string) (has_more : bool)
| ResEventPage (items : list EventSummary) (next_cursor : option string) (has_more : bool)
| ResSessionInfo (methods : list MethodState).

(** The answers. *)
Inductive Response : Type :=
| RespError (e : HttpError)
| RespLogin (view : SessionView) (set_cookie : bytes)
| RespSession (view : SessionView)
| RespLogout (revoked : bool) (set_cookie : bytes)
| RespMeta
| RespRpcError (id : Json) (code : Z) (kind message : string) (details : option (Z * Z))
| RespRpc (id : Json) (r : RpcResult).

(** [WebAuth]. *)
Record WebAuth : Type := mkWebAuth {
  wa_config : WebAuthConfig;
  wa_dummy_hash : string;
  wa_metrics : MetricsConfig;
}.

Definition BODY_LIMIT : Z := 8192.
Definition MAX_JOB_CATALOG_JSON_BYTES : Z := 4 * 1024 * 1024.

(** The text of bytes. *)
Definition bytes_text (bs : bytes) : string :=
  String.string_of_list_ascii ((λ b, Ascii.ascii_of_nat (Z.to_nat b)) <$> bs).

Section Api.
Context `{D : DefinitionCodec} `{WC : WebCodecs} `{CE : CatalogEncoding} `{B2 : Blake2s} `{H256 : Sha256}
  `{TO : TextOrder} `{MC : MetricsCodec} `{WE : WebExternals}.
Context (a : WebAuth) (env : RequestEnv).

(** A handler returns a value, or leaves with an answer. *)
Abbreviation Web A := (ST (WebState * nat) (result Response A)) (only parsing).

(** One call to the database: it may fail. *)
Definition db_call {A} (f : Z → WebState → A * WebState) : ST (WebState * nat) (option A) :=
  λ '(s, k), if en_fault env k then Some (None, (s, S k))
             else let '(x, s') := f (en_now env k) s in Some (Some x, (s', S k)).
Definition db_or {A} (e : Response) (f : Z → WebState → A * WebState) : Web A :=
  r ← db_call f; mret (ok_or e r).
Definition db_read {A} (e : Response) (f : WebState → A) : Web A := db_or e (λ _ s, (f s, s)).
Definition web_fail {A} (e : Response) : Web A := mret (Err e).
Definition web_ret {A} (x : A) : Web A := mret (Ok x).
Definition web_lift {A} (r : result HttpError A) : Web A := mret (map_err RespError r).
Definition web_guard (b : bool) (e : Response) : Web unit := mret (if b then Ok tt else Err e).
Definition web_some {A} (o : option A) (e : Response) : Web A := mret (ok_or e o).

(** [body_bytes] and [json_input]. *)
Definition body_bytes (body : result BodyError bytes) : result HttpError bytes :=
  match body with
  | Ok bs => Ok bs
  | Err BodyTooLarge => Err (http_error 413 "PAYLOAD_TOO_LARGE" "Request body too large")
  | Err BodyUnreadable => Err (http_error 400 "VALIDATION_FAILED" "Cannot read request body")
  end.
Definition json_input {A} (decode : Json → option A) (body : bytes) : result HttpError A :=
  ok_or (http_error 400 "VALIDATION_FAILED" "Invalid JSON request") (parse_json body ≫= decode).

(** [store::session] as a call. *)
Definition call_session (e : Response) (secret : bytes) (touch : bool) : Web (option SessionView) :=
  r ?← db_or e (λ now s,
         let '(r, web) := session now secret touch (wc_idle_ms (wa_config a)) (wc_absolute_ms (wa_config a))
                            (en_between env) (st_web s) in
         (r, set_st_web web s));
  mret (match r with Ok view => Ok view | Err _ => Err e end).

(** ** Login, session, logout *)

Definition invalid_credentials : HttpError := http_error 401 "UNAUTHENTICATED" "Invalid username or password".

(** [login]. *)
Definition login (headers : HeaderMap) (body : result BodyError bytes) : Web Response :=
  _ ?← web_lift (write_gate headers (wa_config a));
  attempts ← st_gets (λ w, st_attempts w.1);
  let '(r, attempts) := limit_login (wc_login_limit (wa_config a)) (en_instant env) attempts in
  st_modify (λ w, (set_st_attempts attempts w.1, w.2)) ;;
  _ ?← web_lift r;
  body ?← web_lift (body_bytes body);
  _ ?← web_guard (bool_decide (zlen body ≤ BODY_LIMIT))
         (RespError (http_error 413 "PAYLOAD_TOO_LARGE" "Request body too large"));
  req ?← web_lift (json_input decode_login body);
  let username := user_name (text_bytes req.1) in
  match username with
  | None => web_fail (RespError invalid_credentials)
  | Some username =>
      _ ?← web_guard (valid_password (text_bytes req.2)) (RespError invalid_credentials);
      hashing ← st_gets (λ w, st_hashing w.1);
      _ ?← web_guard (bool_decide (hashing < 2)) (RespError (rate_limited "1"));
      user ?← db_read (RespError internal) (λ s, store_user (bytes_text username) (st_web s));
      user ?← mret (map_err (λ _, RespError internal) user);
      let phc := default (wa_dummy_hash a) (us_password_hash <$> user) in
      let ok := verify_password phc (text_bytes req.2) in
      _ ?← web_guard (en_hash_finished env) (RespError internal);
      _ ?← db_or (RespError internal) (λ now s, (tt, set_st_web (cleanup now (st_web s)) s));
      match user with
      | Some u =>
          if ok && us_enabled u then
            secret ?← web_some (en_secret env) (RespError internal);
            r ?← db_or (RespError internal) (λ now s,
                   let '(r, web) := create_session (en_uuid env 0) (en_uuid env 1) now u secret
                                      (wc_absolute_ms (wa_config a)) (wc_idle_ms (wa_config a)) (st_web s) in
                   (r, set_st_web web s));
            match r with
            | Ok view => web_ret (RespLogin view (cookie (Some secret) (wc_secure (wa_config a))))
            | Err _ => web_fail (RespError internal)
            end
          else
            _ ?← db_or (RespError internal) (λ now s, (tt, set_st_web (denied (en_uuid env 0) now (st_web s)) s));
            web_fail (RespError invalid_credentials)
      | None =>
          _ ?← db_or (RespError internal) (λ now s, (tt, set_st_web (denied (en_uuid env 0) now (st_web s)) s));
          web_fail (RespError invalid_credentials)
      end
  end.

(** [session]. *)
Definition session_endpoint (headers : HeaderMap) : Web Response :=
  _ ?← web_lift (read_gate headers (wa_config a));
  secret ?← web_some (cookie_secret headers) (RespError unauthenticated);
  view ?← call_session (RespError internal) secret true;
  match view with
  | Some view => web_ret (RespSession view)
  | None => web_fail (RespError unauthenticated)
  end.

(** The header that must hold the CSRF token. *)
Definition supplied_csrf (headers : HeaderMap) : bytes := default [] (header_str "x-csrf-token" headers).
Definition csrf_matches (headers : HeaderMap) (view : SessionView) : bool :=
  bool_decide (text_bytes (sv_csrf_token view) = supplied_csrf headers).

(** [logout]; the streams of the session, which it also closes, are not modelled. *)
Definition logout (headers : HeaderMap) (body : result BodyError bytes) : Web Response :=
  _ ?← web_lift (write_gate headers (wa_config a));
  body ?← web_lift (body_bytes body);
  _ ?← web_guard (bool_decide (zlen body ≤ BODY_LIMIT))
         (RespError (http_error 413 "PAYLOAD_TOO_LARGE" "Request body too large"));
  _ ?← web_lift (json_input decode_empty body);
  revoked ?← match cookie_secret headers with
             | None => web_ret false
             | Some secret =>
                 view ?← call_session (RespError internal) secret false;
                 match view with
                 | None => web_ret false
                 | Some view =>
                     _ ?← web_guard (csrf_matches headers view) (RespError forbidden);
                     db_or (RespError internal) (λ now s,
                       let '(revoked, web) := revoke (en_uuid env 0) now secret (sv_user_id view) (st_web s) in
                       (revoked, set_st_web web s))
                 end
             end;
  web_ret (RespLogout revoked (cookie None (wc_secure (wa_config a)))).

(** [meta]. *)
Definition meta (headers : HeaderMap) : Web Response :=
  _ ?← web_lift (read_gate headers (wa_config a)); web_ret RespMeta.

(** ** RPC *)

(** [rpc_error] and [rpc_error_data]. *)
Definition rpc_error (id : Json) (code : Z) (kind message : string) : Response := RespRpcError id code kind message None.
Definition invalid_params (id : Json) (message : string) : Response := rpc_error id (-32602) "VALIDATION_FAILED" message.
Definition not_found (id : Json) (message : string) : Response := rpc_error id (-32004) "NOT_FOUND" message.
Definition rpc_forbidden (id : Json) (message : string) : Response := rpc_error id (-32002) "FORBIDDEN" message.
Definition rpc_internal (id : Json) (message : string) : Response := rpc_error id (-32018) "INTERNAL_ERROR" message.

(** [job_mutation_error]. *)
Definition job_mutation_error (id : Json) (error : JobDbError) : Response :=
  match error with
  | CatalogRevisionConflict expected actual =>
      RespRpcError id (-32009) "REVISION_CONFLICT" "Job catalog revision changed" (Some (expected, actual))
  | WebJobIdempotencyConflict =>
      rpc_error id (-32010) "IDEMPOTENCY_CONFLICT" "Mutation id was reused with different content"
  | InvalidJobCatalog _ | InvalidJobCommand _ => rpc_error id (-32003) "VALIDATION_FAILED" "Job catalog is invalid"
  | _ => rpc_internal id "Job catalog mutation failed"
  end.

(** [rpc_auth_error] of [unauthenticated] and [internal]. *)
Definition rpc_auth_error (id : Json) (e : HttpError) : Response :=
  if bool_decide (he_status e = 401) then rpc_error id (-32001) "UNAUTHENTICATED" "Authentication required"
  else if bool_decide (he_status e = 403) then rpc_forbidden id "Access is not allowed"
  else rpc_internal id "Request failed".

(** [current_session]. *)
Definition current_session (id : Json) (secret : bytes) : Web SessionView :=
  view ?← call_session (rpc_auth_error id internal) secret false;
  web_some view (rpc_auth_error id unauthenticated).

(** [find_agent]. *)
Definition find_agent (agent_id : string) (s : WebState) : option AgentRow := agents (st_agents s) !! text_bytes agent_id.
Definition require_agent (id : Json) (message : string) (agent_id : string) : Web unit :=
  agent ?← db_read (rpc_internal id message) (find_agent agent_id);
  web_guard (bool_decide (is_Some agent)) (not_found id "Agent not found").

(** [!agent_id.is_empty() && agent_id.len() <= 64]. *)
Definition valid_agent_param (agent_id : string) : bool :=
  negb (bool_decide (agent_id = "")) && bool_decide (String.length agent_id ≤ 64)%nat.
Definition page_limit (limit : option Z) : Z := default 50 limit.
Definition valid_limit (limit : Z) : bool := bool_decide (1 ≤ limit ≤ 100).
Definition operator_role (role : Role) : bool := match role with Admin | Operator => true | Viewer => false end.

(** [metric_problem], and [metrics.latest]; a query that takes too long fails. *)
Definition metric_problem (id : Json) (e : MetricsError) : Response :=
  match e with
  | MInvalidParams => invalid_params id "Invalid metric parameters"
  | MForbidden => rpc_forbidden id "Metric scope is not available"
  | MInternal => rpc_internal id "Metric query failed"
  end.
Definition rpc_metrics_latest (id params : Json) : Web Response :=
  params ?← web_some (decode_latest params) (invalid_params id "Invalid params");
  r ?← db_read (rpc_internal id "Metric query failed") (λ s,
         metrics_latest (wa_metrics a) (st_agents s) (st_jobs s) (st_reports s) (en_now_us env) params);
  items ?← mret (map_err (metric_problem id) r);
  web_ret (RespRpc id (ResMetrics items)).

(** [list_agents] of [database/management.rs] as [ControlRequest::ListAgents] uses it:
    the filters, the order of the ids, the limit. *)
Definition online_agents (s : WebState) : list bytes := omap ss_agent_id (list_sessions (st_registry s)).
Definition agent_matches (s : WebState) (params : AgentListParams) (kv : bytes * AgentRow) : bool :=
  default true ((λ st, bool_decide (ag_status kv.2 = st)) <$> al_status params)
  && default true ((λ n, text_contains (ag_name kv.2) (text_bytes n)) <$> al_name params)
  && default true ((λ c, negb (bytes_leb kv.1 (text_bytes c))) <$> al_after params)
  && default true ((λ b, eqb b (bool_decide (kv.1 ∈ online_agents s))) <$> al_online params).
Definition agent_le (x y : bytes * AgentRow) : Prop := bytes_le x.1 y.1.
#[global] Instance agent_le_dec : RelDecision agent_le.
Proof. intros x y. unfold agent_le. apply _. Defined.
Definition list_agents (params : AgentListParams) (limit : Z) (s : WebState) : list AgentSummary :=
  (λ kv, agent_summary (bool_decide (kv.1 ∈ online_agents s)) kv) <$>
    take (Z.to_nat limit)
      (merge_sort agent_le (filter (λ kv, agent_matches s params kv = true) (map_to_list (agents (st_agents s))))).

(** [agent.list] and [agent.get]. *)
Definition rpc_agent_list (id params : Json) : Web Response :=
  params ?← web_some (decode_agent_list params) (invalid_params id "Invalid params");
  let limit := page_limit (al_limit params) in
  _ ?← web_guard
         (valid_limit limit
          && default true ((λ st, bool_decide (st = "active") || bool_decide (st = "revoked")) <$> al_status params)
          && default true ((λ n, bool_decide (String.length n ≤ 128)%nat) <$> al_name params)
          && default true ((λ c, bool_decide (String.length c ≤ 64)%nat) <$> al_after params))
         (invalid_params id "Invalid params");
  agents_ ?← db_read (rpc_internal id "Agent query failed") (list_agents params (limit + 1));
  let has_more := bool_decide (limit < zlen agents_) in
  let items := take (Z.to_nat limit) agents_ in
  web_ret (RespRpc id (ResAgentPage items (if has_more then as_agent_id <$> last items else None) has_more)).
Definition rpc_agent_get (id params : Json) : Web Response :=
  agent_id ?← web_some (decode_agent_id params) (invalid_params id "Invalid params");
  _ ?← web_guard (valid_agent_param agent_id) (invalid_params id "Invalid params");
  agent ?← db_read (rpc_internal id "Agent query failed") (λ s,
             (λ row, agent_summary (bool_decide (text_bytes agent_id ∈ online_agents s)) (text_bytes agent_id, row))
               <$> find_agent agent_id s);
  agent ?← web_some agent (not_found id "Agent not found");
  web_ret (RespRpc id (ResAgent agent)).

(** The request that is hashed for the idempotency key. *)
Definition canonical_request (agent_id : string) (expected_revision : Z) (jobs : list JobDefinition) : Json :=
  JObject [("agentId", JString agent_id); ("definitionsHex", JArray ((λ job, JString (hex_text (encode_definition job))) <$> jobs));
           ("expectedCatalogRevision", JString (pretty expected_revision))].
Definition request_sha256 (value : Json) : string := hex_text (sha256 (json_bytes value)).

(** The first answer to a mutation. *)
Definition initial_result (operation_id agent_id : string) (expected_revision target_revision created_at_ms : Z)
    (jobs : list JobDefinition) : JobOperationResult :=
  mkOperationResult (omap (λ job, uuid_of_slice (jd_job_id job)) jobs)
    (mkOperationView operation_id agent_id "catalog.replace" OpWaitingAgent (pretty expected_revision)
       (pretty target_revision) None None None created_at_ms created_at_ms None None)
    (pretty target_revision).

(** [replace_agent_job_catalog_for_web] as a call. *)
Definition call_replace (id : Json) (agent_id : string) (jobs : list JobDefinition) (expected_revision : Z)
    (draft : WebJobOperationDraft) : Web (result JobDbError WebJobCatalogMutationRecord) :=
  λ '(s, k),
    if en_fault env k then Some (Err (rpc_internal id "Job catalog mutation failed"), (s, S k))
    else '(r, jobs') ← replace_agent_job_catalog_for_web (λ t, t) (λ t, t) (en_now_us env) agent_id jobs
                         expected_revision draft (st_jobs s);
         Some (Ok r, (set_st_jobs jobs' s, S k)).

(** [job.catalog.replace]; [en_now_us] is the clock of the transaction. *)
Definition rpc_catalog_replace (id params : Json) (view : SessionView) : Web Response :=
  params ?← web_some (decode_replace params) (invalid_params id "Invalid params");
  let agent_id := jr_agent_id params in
  _ ?← web_guard (valid_agent_param agent_id) (invalid_params id "Invalid Agent id");
  client_mutation_id ?← web_some (canonical_uuid (jr_client_mutation_id params))
                          (invalid_params id "clientMutationId must be a UUID");
  expected_revision ?← web_some (parse_expected_revision (jr_expected_catalog_revision params))
                         (invalid_params id "Invalid expectedCatalogRevision");
  jobs ?← mret (map_err (invalid_params id) (decode_job_definitions (jr_definitions_hex params)));
  let jobs := merge_sort definition_le jobs in
  target_revision ?← web_some (checked_add_u64 expected_revision 1) (invalid_params id "Catalog revision overflow");
  let request_hash := request_sha256 (canonical_request agent_id expected_revision jobs) in
  let actor_user_id := sv_user_id view in
  _ ?← require_agent id "Agent query failed" agent_id;
  existing ?← db_read (rpc_internal id "Mutation lookup failed")
                (λ s, get_web_job_operation_by_key (actor_user_id, "job.catalog.replace", client_mutation_id) (st_jobs s));
  existing ?← mret (map_err (λ _, rpc_internal id "Mutation lookup failed") existing);
  match existing with
  | Some existing =>
      if bool_decide (wo_request_hash existing.2 = request_hash) then
        value ?← web_some (parse_stored (wo_response_json existing.2)) (rpc_internal id "Stored mutation response is invalid");
        web_ret (RespRpc id (ResStored value))
      else web_fail (rpc_error id (-32010) "IDEMPOTENCY_CONFLICT" "Mutation id was reused with different content")
  | None =>
      k ← st_gets snd;
      let operation_id := en_uuid env 0 in
      let response_json := operation_json (initial_result operation_id agent_id expected_revision target_revision
                                             (en_now env k) jobs) in
      let draft := mkDraft operation_id actor_user_id "job.catalog.replace" client_mutation_id request_hash agent_id
                     "catalog.replace" None response_json in
      mutation ?← call_replace id agent_id jobs expected_revision draft;
      mutation ?← mret (map_err (job_mutation_error id) mutation);
      st_modify (λ w, (if bool_decide (is_Some (mu_catalog mutation)) && negb (mu_replayed mutation)
                       then set_st_registry (notify_catalog_changed (text_bytes agent_id) (st_registry w.1)).2 w.1
                       else w.1, w.2)) ;;
      value ?← web_some (parse_stored (wo_response_json (mu_operation mutation).2))
                 (rpc_internal id "Stored mutation response is invalid");
      web_ret (RespRpc id (ResStored value))
  end.

(** [operation.get] and [operation.list]. *)
Definition rpc_operation_get (id params : Json) (view : SessionView) : Web Response :=
  operation_id ?← web_some (decode_operation_get params) (invalid_params id "Invalid params");
  operation_id ?← web_some (canonical_uuid operation_id) (invalid_params id "Invalid operation id");
  _ ?← web_guard (role_allowed "operation.get" (sv_role view)) (rpc_forbidden id "Access is not allowed");
  operation ?← db_read (rpc_internal id "Operation query failed") (λ s, get_web_job_operation operation_id (st_jobs s));
  operation ?← mret (map_err (λ _, rpc_internal id "Operation query failed") operation);
  operation ?← web_some operation (not_found id "Operation not found");
  _ ?← web_guard (bool_decide (sv_role view = Admin) || bool_decide (wo_actor_user_id operation.2 = sv_user_id view))
         (not_found id "Operation not found");
  web_ret (RespRpc id (ResOperation (operation_view operation))).
Definition rpc_operation_list (id params : Json) (view : SessionView) : Web Response :=
  params ?← web_some (decode_operation_list params) (invalid_params id "Invalid params");
  let limit := page_limit params.2 in
  _ ?← web_guard (valid_agent_param params.1 && valid_limit limit) (invalid_params id "Invalid operation filters");
  _ ?← web_guard (role_allowed "operation.list" (sv_role view)) (rpc_forbidden id "Access is not allowed");
  _ ?← require_agent id "Operation query failed" params.1;
  operations ?← db_read (rpc_internal id "Operation query failed") (λ s,
                  list_recent_web_job_operations params.1
                    (if bool_decide (sv_role view = Admin) then None else Some (sv_user_id view)) (Z.to_nat limit) (st_jobs s));
  operations ?← mret (map_err (λ _, rpc_internal id "Operation query failed") operations);
  web_ret (RespRpc id (ResOperationPage (operation_view <$> operations))).

(** The catalog the management service loads for [job.list] and [job.get]: the revision
    and the definitions, empty when there is none. *)
Definition catalog_for_web (id : Json) (agent_id : string) : Web (Z * list bytes) :=
  r ?← db_read (rpc_internal id "Job query failed") (λ s, load_agent_job_catalog agent_id (mkPolicySnapshot 0 false []) (st_jobs s));
  r ?← mret (map_err (λ _, rpc_internal id "Job query failed") r);
  web_ret (match r with
           | Some record => (ra_catalog_revision (rec_catalog record), encode_definition <$> ra_jobs (rec_catalog record))
           | None => (0, [])
           end).

(** The search of [job.get]: a definition that cannot be read before the job is found is
    an error. *)
Fixpoint find_job (job_id : string) (definitions : list bytes) : result unit (option JobSummary) :=
  match definitions with
  | [] => Ok None
  | definition :: definitions =>
      match job_summary definition with
      | None => Err tt
      | Some job => if bool_decide (js_job_id job = job_id) then Ok (Some job) else find_job job_id definitions
      end
  end.

(** [job.list] and [job.get]. *)
Definition rpc_jobs (id : Json) (agent_id : string) (job_id : option string) (view : SessionView) : Web Response :=
  _ ?← web_guard (valid_agent_param agent_id) (invalid_params id "Invalid params");
  _ ?← web_guard (default true ((λ j, bool_decide (is_Some (canonical_uuid_bytes j))) <$> job_id))
         (invalid_params id "Invalid Job id");
  _ ?← web_guard (operator_role (sv_role view)) (rpc_forbidden id "Access is not allowed");
  _ ?← require_agent id "Job query failed" agent_id;
  catalog ?← catalog_for_web id agent_id;
  let '(revision, definitions) := catalog in
  _ ?← web_guard (bool_decide (zlen definitions ≤ MAX_WEB_JOB_CATALOG_ENTRIES)
                  && bool_decide (sum_list_with length definitions ≤ Z.to_nat MAX_WEB_JOB_CATALOG_BYTES)%nat)
         (rpc_error id (-32014) "PAYLOAD_TOO_LARGE" "Job catalog is too large");
  match job_id with
  | Some job_id =>
      job ?← mret (map_err (λ _, rpc_internal id "Stored Job is invalid") (find_job job_id definitions));
      job ?← web_some job (not_found id "Job not found");
      web_ret (RespRpc id (ResJob agent_id (pretty revision) job))
  | None =>
      view ?← web_some (job_catalog_view agent_id revision definitions) (rpc_internal id "Stored Job is invalid");
      web_ret (RespRpc id (ResCatalog view))
  end.

(** The checks [report.list] and [event.list] share, with the job, the page size and the
    cursor they give. *)
Definition valid_list_params (params : ListParams) (limit : Z) : bool :=
  valid_agent_param (li_agent_id params) && valid_limit limit && validate_window (li_from_ms params) (li_to_ms params)
  && default true ((λ v, bool_decide (v ≤ Z.quot i64_max 1000)) <$> li_from_ms params)
  && default true ((λ v, bool_decide (v ≤ Z.quot i64_max 1000)) <$> li_to_ms params)
  && default true ((λ c, bool_decide (String.length c ≤ 512)%nat) <$> li_cursor params).
Definition list_cursor (id : Json) (message : string) (cursor : option string) : Web (option (Z * string)) :=
  match cursor with
  | None => web_ret None
  | Some cursor =>
      match parse_list_cursor cursor with
      | Some (time, row_id) =>
          if bool_decide (0 ≤ time) then web_ret (Some (time, row_id)) else web_fail (invalid_params id message)
      | None => web_fail (invalid_params id message)
      end
  end.

(** [report.list]. *)
Definition rpc_report_list (id params : Json) (view : SessionView) : Web Response :=
  params ?← web_some (decode_list params) (invalid_params id "Invalid params");
  let limit := page_limit (li_limit params) in
  job_id ?← web_some (parse_job_id (li_job_id params)) (invalid_params id "Invalid Job id");
  _ ?← web_guard (valid_list_params params limit) (invalid_params id "Invalid report filters");
  _ ?← web_guard (operator_role (sv_role view)) (rpc_forbidden id "Access is not allowed");
  _ ?← require_agent id "Report query failed" (li_agent_id params);
  after ?← list_cursor id "Invalid report cursor" (li_cursor params);
  records ?← db_read (rpc_internal id "Report query failed") (λ s,
               query_task_reports (Some (li_agent_id params)) job_id (li_from_ms params) (li_to_ms params) after (limit + 1)
                 (st_reports s));
  records ?← mret (map_err (λ _, rpc_internal id "Report query failed") records);
  let '(items, next_cursor) := page_of limit records in
  web_ret (RespRpc id (ResReportPage (report_summary <$> items) next_cursor (bool_decide (limit < zlen records)))).

(** [event.list]. *)
Definition rpc_event_list (id params : Json) (view : SessionView) : Web Response :=
  params ?← web_some (decode_list params) (invalid_params id "Invalid params");
  let limit := page_limit (li_limit params) in
  job_id ?← web_some (parse_job_id (li_job_id params)) (invalid_params id "Invalid Job id");
  _ ?← web_guard (valid_list_params params limit) (invalid_params id "Invalid event filters");
  _ ?← web_guard (role_allowed "event.list" (sv_role view)) (rpc_forbidden id "Access is not allowed");
  _ ?← require_agent id "Event query failed" (li_agent_id params);
  after ?← list_cursor id "Invalid event cursor" (li_cursor params);
  records ?← db_read (rpc_internal id "Event query failed") (λ s,
               query_job_events (Some (li_agent_id params)) job_id (li_from_ms params) (li_to_ms params) after (limit + 1)
                 (st_events s));
  records ?← mret (map_err (λ _, rpc_internal id "Event query failed") records);
  let '(items, next_cursor) := page_of limit records in
  web_ret (RespRpc id (ResEventPage (event_summary <$> items) next_cursor (bool_decide (limit < zlen records)))).

(** [session.info]. *)
Definition rpc_session_info (id : Json) (params : option Json) (view : SessionView) : Web Response :=
  _ ?← web_guard (match params with Some (JObject []) => true | _ => false end) (invalid_params id "Invalid params");
  web_ret (RespRpc id (ResSessionInfo (catalog_methods (sv_role view)))).

Definition read_only_methods : list string :=
  ["metrics.latest"; "session.info"; "agent.list"; "agent.get"; "job.list"; "job.get"; "report.list"; "event.list";
   "operation.get"; "operation.list"].

(** The method, after the checks; [params] is [null] when it is absent. *)
Definition rpc_method (method : string) (id : Json) (params : option Json) (view : SessionView) : Web Response :=
  let p := default JNull params in
  if String.eqb method "metrics.latest" then rpc_metrics_latest id p
  else if String.eqb method "agent.list" then rpc_agent_list id p
  else if String.eqb method "agent.get" then rpc_agent_get id p
  else if String.eqb method "job.catalog.replace" then rpc_catalog_replace id p view
  else if String.eqb method "operation.get" then rpc_operation_get id p view
  else if String.eqb method "operation.list" then rpc_operation_list id p view
  else if String.eqb method "job.list" then
    agent_id ?← web_some (decode_agent_id p) (invalid_params id "Invalid params"); rpc_jobs id agent_id None view
  else if String.eqb method "job.get" then
    q ?← web_some (decode_job_get p) (invalid_params id "Invalid params"); rpc_jobs id q.1 (Some q.2) view
  else if String.eqb method "report.list" then rpc_report_list id p view
  else if String.eqb method "event.list" then rpc_event_list id p view
  else if String.eqb method "session.info" then rpc_session_info id params view
  else if bool_decide (method ∈ PLANNED_METHODS) then
    web_fail (rpc_error id (-32017) "UNSUPPORTED_FEATURE" "Method unavailable")
  else web_fail (rpc_error id (-32601) "NOT_FOUND" "Method not found").

(** The form of a request: its id, method and parameters. *)
Definition parse_request (v : Json) : option (Json * string * option Json) :=
  match v with
  | JObject members =>
      id ← json_get "id" members;
      let valid_id := match id with
                      | JString _ | JNull => true
                      | JInt n => bool_decide (is_Some (checked_i64 n)) && bool_decide (Z.abs n ≤ 9007199254740991)
                      | _ => false
                      end in
      method ← json_get "method" members ≫= as_string;
      if bool_decide (json_get "jsonrpc" members ≫= as_string = Some "2.0") && valid_id
         && forallb (λ k, bool_decide (k ∈ ["jsonrpc"; "id"; "method"; "params"])) (json_keys members)
      then Some (id, method, json_get "params" members) else None
  | _ => None
  end.

(** The role and the token a method other than the reading ones needs, the renewal of the
    session, and the method. *)
Definition rpc_checked (headers : HeaderMap) (secret : bytes) (id : Json) (method : string) (params : option Json)
    (view : SessionView) : Web Response :=
  _ ?← (if bool_decide (method ∈ read_only_methods) then web_ret tt
        else
          _ ?← web_guard (role_allowed method (sv_role view)) (rpc_forbidden id "Access is not allowed");
          web_guard (csrf_matches headers view) (rpc_forbidden id "CSRF validation failed"));
  view ?← (if String.eqb method "metrics.latest" then web_ret view
           else
             touched ?← call_session (RespError internal) secret true;
             web_some touched (RespError unauthenticated));
  rpc_method method id params view.

(** [rpc]. *)
Definition rpc (headers : HeaderMap) (body : result BodyError bytes) : Web Response :=
  _ ?← web_lift (write_gate headers (wa_config a));
  body ?← web_lift (body_bytes body);
  _ ?← web_guard (bool_decide (zlen body ≤ MAX_JOB_CATALOG_JSON_BYTES))
         (rpc_error JNull (-32014) "PAYLOAD_TOO_LARGE" "RPC request body is too large");
  secret ?← web_some (cookie_secret headers) (RespError unauthenticated);
  _ ?← current_session JNull secret;
  req ?← web_some (parse_json body) (rpc_error JNull (-32700) "VALIDATION_FAILED" "Parse error");
  req ?← web_some (parse_request req) (rpc_error JNull (-32600) "VALIDATION_FAILED" "Invalid request");
  let '(id, method, params) := req in
  view ?← current_session id secret;
  rpc_checked headers secret id method params view.

End Api.

(** ** The first administrator *)

Definition NAME_MESSAGE : string := "Username must contain 3-64 ASCII letters, digits, '.', '_' or '-'.".
Definition PASSWORD_MESSAGE : string := "Password must contain 12-128 characters and at most 512 UTF-8 bytes.".
Definition BOOTSTRAP_MESSAGE : string :=
  "Administrator bootstrap failed: already initialized, concurrent initialization or database unavailable".

(** [bootstrap] of [web_auth.rs]: [hash_password] is [password_hash], which may fail. *)
Definition bootstrap_admin (hash_password : bytes → result string string) (uid event_id : string) (now : Z)
    (username password : bytes) (t : WebTables) : result string unit * WebTables :=
  match user_name username with
  | None => (Err NAME_MESSAGE, t)
  | Some name =>
      if valid_password password then
        match hash_password password with
        | Err message => (Err message, t)
        | Ok phc =>
            let '(res, t') := bootstrap uid event_id now (bytes_text name) phc t in
            (map_err (λ _, BOOTSTRAP_MESSAGE) res, t')
        end
      else (Err PASSWORD_MESSAGE, t)
  end.
