(* ===== verification/WebAccess.v ===== *)
(** * What the web API allows

    Theorems about the handlers of [WebApi.v]: who may change a catalog, who is shown
    what, what a login needs, and that the permissions the API reports are the ones it
    enforces. *)

From stdpp Require Import base gmap strings list pretty sorting.
From S2P Require Import Prelude StLogic Rotation Credential Registration Registry SchedModel Proto Catalog JobEvents Paging Reports Actor Policy RemoteJobs WebOps WebStore WebGate WebMetrics WebJson WebApi.

Section Access.
Context `{D : DefinitionCodec} `{WC : WebCodecs} `{CE : CatalogEncoding} `{B2 : Blake2s} `{H256 : Sha256}
  `{TO : TextOrder} `{MC : MetricsCodec} `{WE : WebExternals}.
Context (a : WebAuth) (env : RequestEnv).

(** ** Frames *)

(** The job tables stay as they are. *)
Definition keeps_jobs (w w' : WebState * nat) : Prop := st_jobs w'.1 = st_jobs w.1.

Global Instance keeps_jobs_preorder : PreOrder keeps_jobs.
Proof. split; unfold keeps_jobs; [done|]. intros x y z. congruence. Qed.

Lemma keeps_jobs_db_or {A} e (f : Z → WebState → A * WebState) :
  (∀ now s, st_jobs (f now s).2 = st_jobs s) → follows keeps_jobs (db_or env e f).
Proof.
  intros Hf [s k] r w' H. unfold db_or in H. st_open. unfold db_call in *. destruct (en_fault env k); simplify_eq; [done|].
  specialize (Hf (en_now env k) s). destruct (f (en_now env k) s) as [y s']. by simplify_eq.
Qed.

Lemma keeps_jobs_db_read {A} e (f : WebState → A) : follows keeps_jobs (db_read env e f).
Proof. by apply keeps_jobs_db_or. Qed.

Lemma keeps_jobs_call_session e secret touch : follows keeps_jobs (call_session a env e secret touch).
Proof.
  unfold call_session. apply follows_try; [apply _|apply keeps_jobs_db_or; intros now s; by destruct (session _ _ _ _ _ _ _)|].
  intros r. apply follows_ret. apply _.
Qed.

Lemma keeps_jobs_ret {A} (r : result Response A) : follows keeps_jobs (mret r).
Proof. apply follows_ret. apply _. Qed.

#[local] Hint Resolve keeps_jobs_db_read keeps_jobs_call_session keeps_jobs_ret : follows.
#[local] Hint Extern 1 (follows _ (web_guard _ _)) => apply keeps_jobs_ret : follows.
#[local] Hint Extern 1 (follows _ (web_some _ _)) => apply keeps_jobs_ret : follows.
#[local] Hint Extern 1 (follows _ (web_fail _)) => apply keeps_jobs_ret : follows.
#[local] Hint Extern 1 (follows _ (web_ret _)) => apply keeps_jobs_ret : follows.
#[local] Hint Extern 1 (follows _ (web_lift _)) => apply keeps_jobs_ret : follows.

Lemma keeps_jobs_current_session id secret : follows keeps_jobs (current_session a env id secret).
Proof. unfold current_session. follow. Qed.

Lemma keeps_jobs_require_agent id message agent_id : follows keeps_jobs (require_agent env id message agent_id).
Proof. unfold require_agent. follow. Qed.

#[local] Hint Resolve keeps_jobs_current_session keeps_jobs_require_agent : follows.

Lemma keeps_jobs_jobs id agent_id job_id view : follows keeps_jobs (rpc_jobs env id agent_id job_id view).
Proof. unfold rpc_jobs, catalog_for_web. follow. Qed.

Lemma keeps_jobs_list_cursor id message cursor : follows keeps_jobs (list_cursor id message cursor).
Proof. unfold list_cursor. follow. Qed.

#[local] Hint Resolve keeps_jobs_jobs keeps_jobs_list_cursor : follows.

(** Every method but one leaves the job tables alone. *)
Lemma keeps_jobs_method method id params view :
  method ≠ "job.catalog.replace" → follows keeps_jobs (rpc_method a env method id params view).
Proof.
  intros Hm. unfold rpc_method.
  destruct (String.eqb method "job.catalog.replace") eqn:E; [by apply String.eqb_eq in E|].
  unfold rpc_metrics_latest, rpc_agent_list, rpc_agent_get, rpc_operation_get, rpc_operation_list, rpc_report_list,
    rpc_event_list, rpc_session_info.
  follow.
Qed.

(** ** Sessions as calls *)

Notation idle_ms := (wc_idle_ms (wa_config a)).
Notation absolute_ms := (wc_absolute_ms (wa_config a)).

Lemma session_untouched now secret idle absolute btw t :
  (session now secret false idle absolute btw t).2 = btw t.
Proof.
  unfold session. destruct (live_session _ t) as [[row user]|]; [|done]. destruct (_ || _); [done|].
  by destruct (role_parse _).
Qed.

Lemma session_csrf now secret touch idle absolute btw t view t' :
  session now secret touch idle absolute btw t = (Ok (Some view), t') → sv_csrf_token view = csrf secret.
Proof.
  unfold session. destruct (live_session _ t) as [[row user]|]; [|done]. destruct (_ || _); [done|].
  destruct (role_parse _); [|done]. destruct touch; [|by intros [= <- <-]].
  destruct (touch_session _ _ _ _ _) as [rows t1]. case_bool_decide; [done|]. by intros [= <- <-].
Qed.

Lemma call_session_Ok e secret touch s k view w' :
  call_session a env e secret touch (s, k) = Some (Ok view, w') →
  ∃ web, session (en_now env k) secret touch idle_ms absolute_ms (en_between env) (st_web s) = (Ok view, web) ∧
    w' = (set_st_web web s, S k).
Proof.
  unfold call_session. intros [(r & w & Hr & H)|(e' & _ & [=])]%st_try_Some.
  apply st_ret_Some in H as [Hv ->]. destruct r as [v|]; [|done]. injection Hv as ->.
  unfold db_or in Hr. apply st_bind_Some in Hr as (o & w1 & Hc & Hr). apply st_ret_Some in Hr as [Hr ->].
  unfold db_call in Hc. destruct (en_fault env k); [by simplify_eq|].
  destruct (session _ _ _ _ _ _ _) as [r' web] eqn:E. simplify_eq/=. eauto.
Qed.

Lemma current_session_Ok id secret s k view w' :
  current_session a env id secret (s, k) = Some (Ok view, w') →
  session (en_now env k) secret false idle_ms absolute_ms (en_between env) (st_web s)
    = (Ok (Some view), en_between env (st_web s)) ∧
  w' = (set_st_web (en_between env (st_web s)) s, S k).
Proof.
  unfold current_session. intros [(v & w & Hv & H)|(e' & _ & [=])]%st_try_Some.
  apply call_session_Ok in Hv as (web & Hs & ->). unfold web_some in H. st_open.
  destruct v as [v|]; [|done]. simplify_eq/=.
  pose proof (session_untouched (en_now env k) secret idle_ms absolute_ms (en_between env) (st_web s)) as Hu.
  rewrite Hs in Hu. cbn in Hu. by subst web.
Qed.

(** The parts of a handler that only look at values. *)
Lemma web_value_Ok {A} (r : result Response A) (w : WebState * nat) x w' :
  (mret r : ST (WebState * nat) (result Response A)) w = Some (Ok x, w') → r = Ok x ∧ w' = w.
Proof. intros [-> ->]%st_ret_Some. done. Qed.

(** ** Who may change a catalog *)

Lemma call_replace_Some id agent_id jobs expected draft s k r w' :
  call_replace env id agent_id jobs expected draft (s, k) = Some (r, w') →
  (w'.1 = s) ∨ ∃ res, r = Ok res ∧ w' = (set_st_jobs (st_jobs w'.1) s, S k) ∧
    replace_agent_job_catalog_for_web (λ t, t) (λ t, t) (en_now_us env) agent_id jobs expected draft (st_jobs s)
      = Some (res, st_jobs w'.1).
Proof.
  unfold call_replace. destruct (en_fault env k); [intros [= <- <-]; by left|].
  destruct (replace_agent_job_catalog_for_web _ _ _ _ _ _ _ _) as [[res jobs']|]; [|done]. cbn.
  intros [= <- <-]. right. eauto.
Qed.

(** The draft of a mutation of some user. *)
Definition draft_of (view : SessionView) (draft : WebJobOperationDraft) : Prop :=
  dr_actor_user_id draft = sv_user_id view ∧ dr_method draft = "job.catalog.replace".

(** Either the job tables stay, or one replacement for the user changed them. *)
Definition replaces (view : SessionView) (w w' : WebState * nat) : Prop :=
  keeps_jobs w w' ∨
  ∃ agent_id jobs expected draft res, draft_of view draft ∧
    replace_agent_job_catalog_for_web (λ t, t) (λ t, t) (en_now_us env) agent_id jobs expected draft (st_jobs w.1)
      = Some (res, st_jobs w'.1).

Lemma replaces_after view w w1 w' : keeps_jobs w w1 → replaces view w1 w' → replaces view w w'.
Proof. unfold replaces, keeps_jobs. intros ->. done. Qed.

Lemma replaces_before view w w1 w' : replaces view w w1 → keeps_jobs w1 w' → replaces view w w'.
Proof. unfold replaces, keeps_jobs. by intros H ->. Qed.

Lemma replaces_keeping {A} view (m : ST (WebState * nat) A) : follows keeps_jobs m → follows (replaces view) m.
Proof. intros Hm w x w' H. left. by eapply Hm. Qed.

Lemma replaces_try_l {E A B} view (m : ST (WebState * nat) (result E A)) (k : A → ST (WebState * nat) (result E B)) :
  follows keeps_jobs m → (∀ x, follows (replaces view) (k x)) → follows (replaces view) (st_try m k).
Proof.
  intros Hm Hk w r w' [(x & w1 & H1 & H2)|(e & H1 & ->)]%st_try_Some.
  - eapply replaces_after; [by eapply Hm|by eapply Hk].
  - left. by eapply Hm.
Qed.

Lemma replaces_bind_l {A B} view (m : ST (WebState * nat) A) (k : A → ST (WebState * nat) B) :
  follows keeps_jobs m → (∀ x, follows (replaces view) (k x)) → follows (replaces view) (m ≫= k).
Proof.
  intros Hm Hk w r w' (x & w1 & H1 & H2)%st_bind_Some. eapply replaces_after; [by eapply Hm|by eapply Hk].
Qed.

Lemma replaces_try_r {E A B} view (m : ST (WebState * nat) (result E A)) (k : A → ST (WebState * nat) (result E B)) :
  follows (replaces view) m → (∀ x, follows keeps_jobs (k x)) → follows (replaces view) (st_try m k).
Proof.
  intros Hm Hk w r w' [(x & w1 & H1 & H2)|(e & H1 & ->)]%st_try_Some.
  - eapply replaces_before; [by eapply Hm|by eapply Hk].
  - by eapply Hm.
Qed.

Lemma replaces_call view id agent_id jobs expected draft :
  draft_of view draft → follows (replaces view) (call_replace env id agent_id jobs expected draft).
Proof.
  intros Hd [s k] r w' [E|(res & _ & _ & E)]%call_replace_Some.
  - left. unfold keeps_jobs. by rewrite E.
  - right. eauto 10.
Qed.

Lemma catalog_replace_changes id params view : follows (replaces view) (rpc_catalog_replace env id params view).
Proof.
  unfold rpc_catalog_replace. repeat (cbv beta zeta; apply replaces_try_l; [follow|intros ?]). cbv beta zeta.
  match goal with |- follows _ (match ?x with _ => _ end) => destruct x end; [apply replaces_keeping; follow|].
  apply replaces_bind_l; [follow|intros k]. cbv beta zeta. apply replaces_try_r; [by apply replaces_call|intros ?].
  follow. unfold keeps_jobs. cbn. by destruct (_ && _).
Qed.

Lemma method_changes method id params view w r w' :
  rpc_method a env method id params view w = Some (r, w') → ¬ keeps_jobs w w' →
  method = "job.catalog.replace" ∧ replaces view w w'.
Proof.
  intros H Hne. destruct (decide (method = "job.catalog.replace")) as [->|Hm].
  - split; [done|]. change (rpc_catalog_replace env id (default JNull params) view w = Some (r, w')) in H.
    by eapply catalog_replace_changes.
  - destruct Hne. by eapply keeps_jobs_method.
Qed.

(** ** What an answer shows *)

(** Every value a handler returns, when it starts from the job tables [J], satisfies [Q]. *)
Definition ensures {A} (J : JobTables) (Q : A → Prop) (m : ST (WebState * nat) (result Response A)) : Prop :=
  ∀ w x w', st_jobs w.1 = J → m w = Some (Ok x, w') → Q x.

Lemma ensures_try {A B} J Q (m : ST (WebState * nat) (result Response A)) (k : A → ST (WebState * nat) (result Response B)) :
  follows keeps_jobs m → (∀ x, ensures J Q (k x)) → ensures J Q (st_try m k).
Proof.
  intros Hm Hk w x w' Hw [(y & w1 & H1 & H)|(e & _ & [=])]%st_try_Some. eapply Hk; [|exact H]. by rewrite <-Hw; eapply Hm.
Qed.

(** Where the tables do not matter, the step may change them. *)
Lemma ensures_try_any {A B} J Q (m : ST (WebState * nat) (result Response A)) (k : A → ST (WebState * nat) (result Response B)) :
  (∀ J' x, ensures J' Q (k x)) → ensures J Q (st_try m k).
Proof. intros Hk w x w' _ [(y & w1 & _ & H)|(e & _ & [=])]%st_try_Some. by eapply Hk. Qed.
Lemma ensures_bind_any {A B} J Q (m : ST (WebState * nat) A) (k : A → ST (WebState * nat) (result Response B)) :
  (∀ J' x, ensures J' Q (k x)) → ensures J Q (m ≫= k).
Proof. intros Hk w x w' _ (y & w1 & _ & H)%st_bind_Some. by eapply Hk. Qed.

Lemma ensures_value {A B} J Q (r : result Response A) (k : A → ST (WebState * nat) (result Response B)) :
  (∀ x, r = Ok x → ensures J Q (k x)) → ensures J Q (st_try (mret r) k).
Proof.
  intros Hk w x w' Hw [(y & w1 & H1 & H)|(e' & _ & [=])]%st_try_Some. apply web_value_Ok in H1 as [H1 ->].
  by eapply Hk.
Qed.

Lemma ensures_guard {B} J Q (b : bool) e (k : unit → ST (WebState * nat) (result Response B)) :
  (b = true → ensures J Q (k tt)) → ensures J Q (st_try (web_guard b e) k).
Proof. intros Hk. apply ensures_value. intros [] H. destruct b; [|done]. by apply Hk. Qed.

Lemma ensures_some {A B} J Q (o : option A) e (k : A → ST (WebState * nat) (result Response B)) :
  (∀ x, o = Some x → ensures J Q (k x)) → ensures J Q (st_try (web_some o e) k).
Proof. intros Hk. apply ensures_value. intros x H. apply Hk. by apply ok_or_Ok in H. Qed.

Lemma ensures_read {A B} J Q e (f : WebState → A) (k : A → ST (WebState * nat) (result Response B)) :
  (∀ s, st_jobs s = J → ensures J Q (k (f s))) → ensures J Q (st_try (db_read env e f) k).
Proof.
  intros Hk [s i] x w' Hw [(y & w1 & H1 & H)|(e' & _ & [=])]%st_try_Some. unfold db_read, db_or in H1.
  apply st_bind_Some in H1 as (o & w2 & Hc & H1). apply st_ret_Some in H1 as [H1 ->]. symmetry in H1. apply ok_or_Ok in H1 as ->.
  unfold db_call in Hc. destruct (en_fault env i); simplify_eq. eapply (Hk s); [| |exact H]; reflexivity.
Qed.

Lemma ensures_ret {A} J (Q : A → Prop) x : Q x → ensures J Q (web_ret x).
Proof. intros HQ w y w' _ [[= ->] _]%st_ret_Some. done. Qed.

Lemma ensures_fail {A} J (Q : A → Prop) e : ensures J Q (web_fail e).
Proof. intros w y w' _ [[=] _]%st_ret_Some. Qed.

Ltac ensure1 :=
  first
    [ apply ensures_fail
    | apply ensures_guard; intros ?
    | apply ensures_some; intros ? ?
    | apply ensures_value; intros ? ?
    | apply ensures_read; intros ? ?
    | apply ensures_try; [solve [follow]|intros ?]
    | apply ensures_try_any; intros ? ?
    | apply ensures_bind_any; intros ? ?
    | apply ensures_ret
    | match goal with
      | |- ensures _ _ (if ?b then _ else _) => destruct b
      | |- ensures _ _ (let '(_, _) := ?x in _) => destruct x
      | |- ensures _ _ (match ?x with _ => _ end) => destruct x
      end ].
Ltac ensure := repeat (cbv beta zeta; ensure1).

(** What a user may see, given the stored operations: job data and reports only as
    administrator or operator; an operation is one that is stored, and it is stored for the
    user unless the user is administrator. *)
Definition shown_operation (jobs : JobTables) (view : SessionView) (v : JobOperationView) : Prop :=
  ∃ op, tb_operations jobs !! ov_operation_id v = Some op ∧ v = operation_view (ov_operation_id v, op) ∧
    (sv_role view = Admin ∨ wo_actor_user_id op = sv_user_id view).
Definition may_see (jobs : JobTables) (view : SessionView) (resp : Response) : Prop :=
  match resp with
  | RespRpc _ (ResCatalog _) | RespRpc _ (ResJob _ _ _) | RespRpc _ (ResReportPage _ _ _) | RespRpc _ (ResEventPage _ _ _) =>
      operator_role (sv_role view) = true
  | RespRpc _ (ResOperation v) => operator_role (sv_role view) = true ∧ shown_operation jobs view v
  | RespRpc _ (ResOperationPage vs) => operator_role (sv_role view) = true ∧ Forall (shown_operation jobs view) vs
  | _ => True
  end.

Lemma role_allowed_operator method role :
  method ∈ operator_methods → role_allowed method role = true → operator_role role = true.
Proof. intros Hm. unfold role_allowed. rewrite bool_decide_eq_true_2 by done. by destruct role. Qed.

Lemma operation_records_elem rows ops op :
  operation_records rows = Ok ops → op ∈ ops → op ∈ rows.
Proof.
  revert ops. induction rows as [|row rows IH]; intros ops H Hop; cbn in H; [inv_result; set_solver|].
  apply result_bind_Ok in H as (r & Hr & H). apply result_bind_Ok in H as (rs & Hrs & H). injection H as <-.
  unfold operation_record in Hr. apply result_bind_Ok in Hr as (? & _ & Hr). apply result_bind_Ok in Hr as (? & _ & [= <-]).
  apply elem_of_cons in Hop as [->|Hop]; [set_solver|]. specialize (IH _ Hrs Hop). set_solver.
Qed.

Lemma list_recent_stored agent_id actor limit t ops op :
  list_recent_web_job_operations agent_id actor limit t = Ok ops → op ∈ ops →
  tb_operations t !! op.1 = Some op.2 ∧ (∀ user, actor = Some user → wo_actor_user_id op.2 = user).
Proof.
  unfold list_recent_web_job_operations. intros H Hop. eapply operation_records_elem in H; [|done].
  apply subseteq_take in H. rewrite merge_sort_Permutation in H. destruct op as [id op]. destruct actor as [user|].
  - apply list_elem_of_filter in H as [Ha [_ H%elem_of_map_to_list]%list_elem_of_filter]. split; [done|]. by intros ? [= <-].
  - apply list_elem_of_filter in H as [_ H%elem_of_map_to_list]. by split.
Qed.
Lemma get_operation_stored id t op :
  get_web_job_operation id t = Ok (Some op) → op.1 = id ∧ tb_operations t !! id = Some op.2.
Proof.
  unfold get_web_job_operation. destruct (tb_operations t !! id) as [row|]; [|done]. unfold operation_record. intros H.
  destruct (stored_revision (wo_expected_revision _)), (stored_revision (wo_target_revision _)); try discriminate H. by injection H as <-.
Qed.
Lemma operation_view_shown jobs view (op : WebJobOperationRecord) : tb_operations jobs !! op.1 = Some op.2 →
  sv_role view = Admin ∨ wo_actor_user_id op.2 = sv_user_id view → shown_operation jobs view (operation_view op).
Proof. destruct op as [id op]. intros Hs Ho. by exists op. Qed.

Lemma jobs_show J id agent_id job_id view : ensures J (may_see J view) (rpc_jobs env id agent_id job_id view).
Proof. unfold rpc_jobs. ensure; done. Qed.

Lemma report_list_shows J id params view : ensures J (may_see J view) (rpc_report_list env id params view).
Proof. unfold rpc_report_list. ensure; done. Qed.

Lemma event_list_shows J id params view : ensures J (may_see J view) (rpc_event_list env id params view).
Proof.
  unfold rpc_event_list. ensure. cbn. eapply role_allowed_operator; [|done]. apply (bool_decide_unpack _). by vm_compute.
Qed.

Lemma operation_get_shows J id params view : ensures J (may_see J view) (rpc_operation_get env id params view).
Proof.
  unfold rpc_operation_get. ensure. cbn. split.
  - eapply role_allowed_operator; [|done]. apply (bool_decide_unpack _). by vm_compute.
  - repeat match goal with
    | H : map_err _ _ = Ok ?o, E : ?o = Some _ |- _ => apply map_err_Ok in H; rewrite E in H; apply get_operation_stored in H as [<- H]
    end. apply operation_view_shown; [congruence|].
    match goal with H : _ || _ = true |- _ => apply orb_true_iff in H as [H|H]; bools; auto end.
Qed.

Lemma operation_list_shows J id params view : ensures J (may_see J view) (rpc_operation_list env id params view).
Proof.
  unfold rpc_operation_list. ensure. cbn. split.
  - eapply role_allowed_operator; [|done]. apply (bool_decide_unpack _). by vm_compute.
  - match goal with H : map_err _ _ = Ok _ |- _ => apply map_err_Ok in H; rename H into Hl end.
    rewrite Forall_fmap, Forall_forall. intros op Hop. eapply list_recent_stored in Hl as [Hs Ho]; [|done].
    apply operation_view_shown; [congruence|]. case_bool_decide; [by left|right]. by apply Ho.
Qed.

Lemma catalog_replace_shows J id params view : ensures J (may_see J view) (rpc_catalog_replace env id params view).
Proof. unfold rpc_catalog_replace. ensure; done. Qed.

Lemma method_shows J method id params view : ensures J (may_see J view) (rpc_method a env method id params view).
Proof.
  unfold rpc_method. cbv zeta.
  repeat match goal with |- ensures _ _ (if String.eqb method ?m then _ else _) => destruct (String.eqb method m) end.
  all: eauto using catalog_replace_shows, operation_get_shows, operation_list_shows, report_list_shows, event_list_shows.
  all: try (apply ensures_some; intros ? ?; apply jobs_show).
  all: unfold rpc_metrics_latest, rpc_agent_list, rpc_agent_get, rpc_session_info; ensure; done.
Qed.

(** ** The way to a method *)

(** A step that looks at a value, and the answer it may end with. *)
Ltac value_step H Hx :=
  apply st_try_Some in H as [(? & ? & Hx & H)|(? & Hx & ->)];
  [apply web_value_Ok in Hx as [Hx ->]|left; split; [done|apply st_ret_Some in Hx as [_ ->]; reflexivity]].
Ltac session_step H Hx :=
  apply st_try_Some in H as [(? & ? & Hx & H)|(? & Hx & ->)];
  [apply current_session_Ok in Hx as [Hx ->]|left; split; [done|by apply keeps_jobs_current_session in Hx]].

(** A request that reaches its method has passed the gate and has a live session twice. *)
Lemma rpc_reaches headers body s k r w' :
  rpc a env headers body (s, k) = Some (r, w') →
  (is_err r = true ∧ keeps_jobs (s, k) w') ∨
  ∃ secret id method params view,
    write_gate headers (wa_config a) = Ok tt ∧ cookie_secret headers = Some secret ∧
    session (en_now env (S k)) secret false idle_ms absolute_ms (en_between env) (en_between env (st_web s))
      = (Ok (Some view), en_between env (en_between env (st_web s))) ∧
    rpc_checked a env headers secret id method params view
      (set_st_web (en_between env (en_between env (st_web s))) (set_st_web (en_between env (st_web s)) s), S (S k))
      = Some (r, w').
Proof.
  intros H. unfold rpc in H.
  value_step H Hg. apply map_err_Ok in Hg. value_step H Hb. value_step H Hl. value_step H Hc. apply ok_or_Ok in Hc.
  session_step H Hv0. value_step H Hj.
  apply st_try_Some in H as [([[id method] params] & w & Hq & H)|(? & Hq & ->)];
    [apply web_value_Ok in Hq as [_ ->]|left; split; [done|apply st_ret_Some in Hq as [_ ->]; reflexivity]].
  apply st_try_Some in H as [(view & w & Hv & H)|(e & Hv & ->)].
  - apply current_session_Ok in Hv as [Hv ->]. right.
    match type of Hc with _ = Some ?secret => exists secret, id, method, params, view end.
    repeat match goal with u : unit |- _ => destruct u end. split_and!; done.
  - left. split; [done|]. by apply keeps_jobs_current_session in Hv.
Qed.

(** The session that is renewed before the method. *)
Lemma checked_reaches headers secret id method params view s k r w' :
  sv_csrf_token view = csrf secret →
  rpc_checked a env headers secret id method params view (s, k) = Some (r, w') →
  (is_err r = true ∧ keeps_jobs (s, k) w') ∨
  (method ∉ read_only_methods →
     role_allowed method (sv_role view) = true ∧ supplied_csrf headers = text_bytes (csrf secret)) ∧
  ∃ view' s1 k1,
    (view' = view ∧ s1 = s ∧ method = "metrics.latest" ∨
     (session (en_now env k) secret true idle_ms absolute_ms (en_between env) (st_web s)).1 = Ok (Some view')) ∧
    keeps_jobs (s, k) (s1, k1) ∧ rpc_method a env method id params view' (s1, k1) = Some (r, w').
Proof.
  intros Hcsrf H. unfold rpc_checked in H.
  apply st_try_Some in H as [(u & w0 & Hg & H)|(e & Hg & ->)].
  2:{ left. split; [done|]. assert (follows keeps_jobs (if bool_decide (method ∈ read_only_methods) then web_ret tt
        else _ ?← web_guard (role_allowed method (sv_role view)) (rpc_forbidden id "Access is not allowed");
             web_guard (csrf_matches headers view) (rpc_forbidden id "CSRF validation failed"))) as Hf by follow.
      by eapply Hf. }
  assert (w0 = (s, k) ∧ (method ∉ read_only_methods →
    role_allowed method (sv_role view) = true ∧ supplied_csrf headers = text_bytes (csrf secret))) as [-> Hrole].
  { case_bool_decide; [by apply web_value_Ok in Hg as [_ ->]|].
    apply st_try_Some in Hg as [(u1 & w1 & Hg1 & Hg)|(e & _ & [=])].
    apply web_value_Ok in Hg1 as [Hg1 ->]. apply web_value_Ok in Hg as [Hg ->]. split; [done|]. intros _.
    destruct (role_allowed method (sv_role view)); [|done]. split; [done|].
    destruct (csrf_matches headers view) eqn:E; [|done]. unfold csrf_matches in E. bools. congruence. }
  apply st_try_Some in H as [(view' & w1 & Hs & H)|(e & Hs & ->)].
  - right. split; [done|]. exists view', w1.1, w1.2. destruct (String.eqb method "metrics.latest") eqn:Em.
    + apply web_value_Ok in Hs as [[= ->] ->]. apply String.eqb_eq in Em. split_and!; [by left|done|done].
    + apply st_try_Some in Hs as [(t & w2 & Hc & Hs)|(e & _ & [=])].
      pose proof Hc as Hk. apply keeps_jobs_call_session in Hk. apply call_session_Ok in Hc as (web & Hc & ->).
      apply web_value_Ok in Hs as [Hs ->]. apply ok_or_Ok in Hs as ->. split_and!; [right; by rewrite Hc|done|done].
  - left. split; [done|].
    assert (follows keeps_jobs (if String.eqb method "metrics.latest" then web_ret view
      else touched ?← call_session a env (RespError internal) secret true;
           web_some touched (RespError unauthenticated))) as Hf by follow.
    by eapply Hf.
Qed.

End Access.

(** C6. The web API changes a catalog only for a user who may: the request comes from the
    configured origin with the headers of a browser client; its cookie holds the secret
    of a session that is live when the request arrives, of an enabled user who is
    administrator or operator; it carries the CSRF token derived from that secret; and the
    session is still live when it is renewed just before the change. The change is one
    replacement, recorded for the user of that session. This holds for every request,
    every failure of the database, and whatever other requests do meanwhile to users and
    sessions. *)
Theorem web_mutation_authorized `{D : DefinitionCodec} `{WC : WebCodecs} `{CE : CatalogEncoding} `{B2 : Blake2s}
    `{H256 : Sha256} `{TO : TextOrder} `{MC : MetricsCodec} `{WE : WebExternals} (a : WebAuth) (env : RequestEnv)
    headers body s k r s' k' :
  rpc a env headers body (s, k) = Some (r, (s', k')) → st_jobs s' ≠ st_jobs s →
  let live now secret touch web view :=
    (session now secret touch (wc_idle_ms (wa_config a)) (wc_absolute_ms (wa_config a)) (en_between env) web).1
      = Ok (Some view) in
  let web1 := en_between env (st_web s) in
  ∃ secret view view' agent_id jobs expected draft res,
    write_gate headers (wa_config a) = Ok tt ∧ cookie_secret headers = Some secret ∧
    live (en_now env (S k)) secret false web1 view ∧ operator_role (sv_role view) = true ∧
    supplied_csrf headers = text_bytes (csrf secret) ∧
    live (en_now env (S (S k))) secret true (en_between env web1) view' ∧
    dr_actor_user_id draft = sv_user_id view' ∧
    replace_agent_job_catalog_for_web (λ t, t) (λ t, t) (en_now_us env) agent_id jobs expected draft (st_jobs s)
      = Some (res, st_jobs s').
Proof.
  intros H Hne live web1.
  apply rpc_reaches in H as [[_ Hk]|(secret & id & method & params & view & Hg & Hc & Hs & H)]; [done|].
  apply checked_reaches in H as [[_ Hk]|(Hrole & view' & s1 & k1 & Hview & Hk1 & H)]; [done| |by eapply session_csrf].
  apply method_changes in H as [-> [Hk|(agent_id & jobs & expected & draft & res & [Hactor _] & Hrep)]].
  - unfold keeps_jobs in *. cbn in *. congruence.
  - destruct Hrole as [Hrole Hcsrf]; [by apply (bool_decide_unpack _); vm_compute|].
    destruct Hview as [(_ & _ & [=])|Hview].
    assert (operator_role (sv_role view) = true) as Hop by (clear -Hrole; destruct (sv_role view); by vm_compute in Hrole).
    exists secret, view, view', agent_id, jobs, expected, draft, res. unfold keeps_jobs in Hk1. cbn in Hk1.
    rewrite <- Hk1. unfold live, web1. rewrite Hs. repeat split; assumption.
  - unfold keeps_jobs in *. cbn in *. congruence.
Qed.

(** C25. The answers of queries keep to the role of the user: job catalogs, reports, events
    and operations are shown only to a user whose live session, renewed for the request, has
    the role of administrator or operator; every operation that is shown is the one stored
    under its id, and an operator is shown only operations stored with the operator as actor,
    while an administrator may see those of every user. This holds for every request and
    whatever fails or happens in between. *)
Theorem web_answers_respect_role `{D : DefinitionCodec} `{WC : WebCodecs} `{CE : CatalogEncoding} `{B2 : Blake2s}
    `{H256 : Sha256} `{TO : TextOrder} `{MC : MetricsCodec} `{WE : WebExternals} (a : WebAuth) (env : RequestEnv)
    headers body s k resp w' :
  rpc a env headers body (s, k) = Some (Ok resp, w') →
  ∃ secret view (touch : bool) web, write_gate headers (wa_config a) = Ok tt ∧ cookie_secret headers = Some secret ∧
    (session (en_now env (if touch then S (S k) else S k)) secret touch (wc_idle_ms (wa_config a))
       (wc_absolute_ms (wa_config a)) (en_between env) web).1 = Ok (Some view) ∧
    web = (if touch then en_between env (en_between env (st_web s)) else en_between env (st_web s)) ∧
    may_see (st_jobs s) view resp.
Proof.
  intros H. apply rpc_reaches in H as [[[=] _]|(secret & id & method & params & view & Hg & Hc & Hs & H)].
  apply checked_reaches in H as [[[=] _]|(_ & view' & s1 & k1 & Hview & Hk & H)]; [|by eapply session_csrf].
  apply (method_shows a env (st_jobs s)) in H; [|exact Hk]. destruct Hview as [(-> & _ & _)|Hview].
  - exists secret, view, false. eexists. rewrite Hs. done.
  - exists secret, view', true. eexists. done.
Qed.

(** ** Logging in *)

Section Login.
Context `{D : DefinitionCodec} `{WC : WebCodecs} `{CE : CatalogEncoding} `{B2 : Blake2s} `{H256 : Sha256}
  `{TO : TextOrder} `{MC : MetricsCodec} `{WE : WebExternals}.
Context (a : WebAuth) (env : RequestEnv).

Lemma db_or_Ok {A} e (f : Z → WebState → A * WebState) s k x w' :
  db_or env e f (s, k) = Some (Ok x, w') → f (en_now env k) s = (x, w'.1) ∧ w'.2 = S k.
Proof.
  unfold db_or. intros (o & w1 & Hc & H)%st_bind_Some. apply st_ret_Some in H as [H ->]. symmetry in H.
  apply ok_or_Ok in H as ->. unfold db_call in Hc. destruct (en_fault env k); [done|].
  destruct (f (en_now env k) s). by simplify_eq.
Qed.

Lemma store_user_row name t user :
  store_user name t = Ok (Some user) →
  ∃ row, wt_users t !! us_id user = Some row ∧ wu_username row = name ∧ us_username user = name ∧
    role_parse (wu_role row) = Some (us_role user) ∧ us_enabled user = wu_enabled row ∧
    us_password_hash user = wu_password_hash row.
Proof.
  unfold store_user. destruct (List.find _ _) as [[uid row]|] eqn:E; [|done]. intros H.
  apply result_bind_Ok in H as (role & Hrole & [= <-]). apply ok_or_Ok in Hrole.
  apply find_some in E as [Hin Hn]. bools. apply list_elem_of_In, elem_of_map_to_list in Hin. exists row. cbn in *. naive_solver.
Qed.

(** What [create_session] leaves: the secret opens a session of the user. *)
Lemma created_session_opens sid eid now user secret absolute idle t view t' :
  create_session sid eid now user secret absolute idle t = (Ok view, t') →
  (∃ row, wt_users t !! us_id user = Some row ∧ role_parse (wu_role row) = Some (us_role user)) →
  0 < idle ≤ absolute → 0 ≤ now → now + absolute ≤ i64_max →
  ∀ now' btw, now ≤ now' < now + idle →
    ∃ view', (session now' secret false idle absolute btw t').1 = Ok (Some view') ∧
      sv_user_id view' = us_id user ∧ sv_role view' = us_role user ∧ sv_csrf_token view' = csrf secret ∧
      sv_expires_at_ms view' = now + absolute.
Proof.
  intros H (row & Hrow & Hrole) Hidle Hnow Habs now' btw Hnow'. unfold create_session in H. rewrite Hrow in H.
  destruct (wu_enabled row && _) eqn:E; [|done]. bools. destruct (wt_sessions t !! _); [done|].
  injection H as <- <-. unfold session, live_session. cbn. rewrite lookup_insert_eq. cbn. rewrite Hrow. cbn.
  match goal with H : wu_enabled row = true |- _ => rewrite H end. cbn.
  rewrite !wrap_i64_small, saturating_add_i64_small by lia. rewrite Z.min_id.
  rewrite !bool_decide_eq_false_2 by lia. cbn. rewrite Hrole. cbn. eexists. done.
Qed.

Lemma cleanup_users now t : wt_users (cleanup now t) = wt_users t.
Proof. done. Qed.

End Login.

(** Opens a step of a handler that returns a value. *)
Ltac open_value H Hx x :=
  apply st_try_Some in H as [(x & ? & Hx & H)|(? & _ & [=])]; apply web_value_Ok in Hx as [Hx ->].

(** C26. A login succeeds only with the password of an enabled user, whose name is the one
    asked for in lower case, from the configured origin and within the rate of logins;
    and what it hands out works: from the time the Server read when it stored the session
    (the clock of the third database call of the login) until the idle time after it is
    over, the secret in the cookie opens a session of that user with the role of that user,
    in the tables the login leaves.  The clock is assumed to be a time to which the lifetime
    can be added, and the configured idle time not longer than the lifetime. *)
Theorem login_sound `{H256 : Sha256} `{WE : WebExternals} (a : WebAuth) (env : RequestEnv) headers body s k resp s' k' :
  let idle := wc_idle_ms (wa_config a) in let absolute := wc_absolute_ms (wa_config a) in
  login a env headers body (s, k) = Some (Ok resp, (s', k')) →
  0 < idle ≤ absolute → (∀ n, 0 ≤ en_now env n ∧ en_now env n + absolute ≤ i64_max) →
  ∃ bs username password name uid row secret view,
    write_gate headers (wa_config a) = Ok tt ∧
    (limit_login (wc_login_limit (wa_config a)) (en_instant env) (st_attempts s)).1 = Ok tt ∧
    body = Ok bs ∧ parse_json bs ≫= decode_login = Some (username, password) ∧
    user_name (text_bytes username) = Some name ∧ wt_users (st_web s) !! uid = Some row ∧
    wu_username row = bytes_text name ∧ wu_enabled row = true ∧
    verify_password (wu_password_hash row) (text_bytes password) = true ∧
    resp = RespLogin view (cookie (Some secret) (wc_secure (wa_config a))) ∧ sv_user_id view = uid ∧
    ∀ now' between, en_now env (2 + k)%nat ≤ now' < en_now env (2 + k)%nat + idle →
      ∃ view', (session now' secret false idle absolute between (st_web s')).1 = Ok (Some view') ∧
        sv_user_id view' = uid ∧ role_parse (wu_role row) = Some (sv_role view').
Proof.
  intros idle absolute H Hidle Hclock. unfold login in H. open_value H Hg u0. apply map_err_Ok in Hg.
  apply st_bind_Some in H as (attempts & w & [-> ->]%st_gets_Some & H). cbn [fst snd] in H.
  destruct (limit_login _ _ _) as [lim attempts'] eqn:Hlim. apply st_bind_Some in H as (u & w & ->%st_modify_Some & H).
  open_value H Hl u1. apply map_err_Ok in Hl. open_value H Hb bs. apply map_err_Ok in Hb. open_value H Hsize u2.
  open_value H Hreq req. apply map_err_Ok, ok_or_Ok in Hreq. cbv zeta in H.
  destruct (user_name (text_bytes req.1)) as [name|] eqn:Hname; [|by apply web_value_Ok in H as [[=] _]].
  open_value H Hpw u3. apply st_bind_Some in H as (hashing & w & [-> ->]%st_gets_Some & H). open_value H Hhash u4.
  apply st_try_Some in H as [(found & w & Hf & H)|(? & _ & [=])]. destruct w as [s1 k1].
  apply db_or_Ok in Hf as [[= Hfound Hs1] Hk1]. cbn in Hfound, Hs1, Hk1. subst found s1.
  open_value H Hu user. apply map_err_Ok in Hu. open_value H Hfin u5.
  apply st_try_Some in H as [(u6 & w & Hcl & H)|(? & _ & [=])]. destruct w as [s2 k2].
  apply db_or_Ok in Hcl as [[= _ Hs2] Hk2]. cbn in Hs2, Hk2. subst s2.
  destruct user as [u'|]; [|apply st_try_Some in H as [(? & ? & _ & H)|(? & _ & [=])]; by apply web_value_Ok in H as [[=] _]].
  destruct (_ && us_enabled u') eqn:Hok;
    [|apply st_try_Some in H as [(? & ? & _ & H)|(? & _ & [=])]; by apply web_value_Ok in H as [[=] _]].
  apply andb_true_iff in Hok as [Hverify Hen]. cbn [default fmap option_fmap option_map] in Hverify.
  open_value H Hsec secret. apply ok_or_Ok in Hsec.
  apply st_try_Some in H as [(r & w & Hcr & H)|(? & _ & [=])]. destruct w as [s3 k3]. apply db_or_Ok in Hcr as [Hcr Hk3].
  destruct (create_session _ _ _ _ _ _ _ _) as [r' web] eqn:Ecr. injection Hcr as <- Hs3. cbn in Hs3. subst s3.
  destruct r' as [view|]; [|by apply web_value_Ok in H as [[=] _]].
  apply web_value_Ok in H as [[= <-] [= -> ->]]. cbn [st_web set_st_web set_st_attempts fst] in *.
  destruct (store_user_row _ _ _ Hu) as (row & Hrow & Hrn & _ & Hrr & Hre & Hrp).
  assert (sv_user_id view = us_id u') as Hview.
  { clear -Ecr. unfold create_session in Ecr. repeat (case_match; try done). by simplify_eq. }
  destruct req as [username password]. cbn [fst snd] in *. destruct body as [bs0|[]]; [injection Hb as ->|done..].
  exists bs, username, password, name, (us_id u'), row, secret, view. destruct u0, u1. split_and!; try done.
  - congruence.
  - by rewrite <- Hrp.
  - intros now' btw Hnow'. subst k2 k1. destruct (Hclock (2 + k)%nat) as [? ?].
    destruct (created_session_opens _ _ _ _ _ _ _ _ _ _ Ecr) with (now' := now') (btw := btw) as (view' & ? & ? & Hvr & _);
      [by exists row|done..|]. exists view'. by rewrite Hvr.
Qed.

(** ** Permissions *)

(** The permissions a session reports are the ones the API enforces: for each method that
    is available and each role, the method is among the permissions of the role exactly
    if the role may call it, and exactly then [session.info] lists it as available. *)
Theorem permissions_enforced role method :
  method ∈ available_methods →
  (method ∈ permissions role ↔ role_allowed method role = true) ∧
  (mkMethodState method "available" method ∈ catalog_methods role ↔ role_allowed method role = true).
Proof.
  intros Hm. split.
  - revert method Hm. apply Forall_forall. destruct role; apply (bool_decide_unpack _); by vm_compute.
  - unfold catalog_methods. rewrite list_elem_of_filter, elem_of_app. cbn [me_state me_method].
    change (String.eqb "available" "available") with true. cbn [negb orb]. split; [by intros [? _]|].
    intros Hr. split; [done|]. left. apply list_elem_of_fmap. by exists method.
Qed.

Lemma permissions_enforced_witness :
  ("job.catalog.replace" ∈ permissions Viewer ↔ role_allowed "job.catalog.replace" Viewer = true) ∧
  (mkMethodState "job.catalog.replace" "available" "job.catalog.replace" ∈ catalog_methods Viewer ↔
   role_allowed "job.catalog.replace" Viewer = true).
Proof. apply permissions_enforced. apply (bool_decide_unpack _). by vm_compute. Defined.

(** ** Definitions *)

Lemma length_text_bytes s : length (text_bytes s) = String.length s.
Proof. unfold text_bytes. rewrite length_fmap. induction s as [|c s IH]; [done|]. cbn. by rewrite IH. Qed.

Lemma hex_digits_encode bs : Forall is_byte bs → hex_digits (encode_hex bs) = Some bs.
Proof.
  induction 1 as [|b l Hb Hl IH]; [done|].
  change (encode_hex (b :: l)) with (hex_digit (Z.shiftr b 4) :: hex_digit (Z.land b 15) :: encode_hex l).
  destruct (byte_nibbles b Hb) as (H1 & H2 & _).
  assert (∀ n, 0 ≤ n < 16 → hex_value (hex_digit n) = Some n) as Hd.
  { intros n Hn. unfold hex_value, hex_digit. destruct (Z.ltb_spec n 10); repeat case_bool_decide; try lia; f_equal; lia. }
  cbn [hex_digits]. rewrite (Hd _ H1), (Hd _ H2). cbn. rewrite IH. cbn. do 2 f_equal.
  rewrite Z.shiftr_div_pow2 by lia. change 15 with (Z.ones 4). rewrite Z.land_ones by lia.
  pose proof (Z.div_mod b (2 ^ 4)). lia.
Qed.

Section Definitions.
Context `{D : DefinitionCodec} `{DL : !DefinitionCodecLaws D}.

(** A definition the API can take: well formed, with an encoding of at most 256 KiB. *)
Definition web_definition (d : JobDefinition) : Prop :=
  check_definition_form d = Ok tt ∧ Forall is_byte (encode_definition d) ∧
  encode_definition d ≠ [] ∧ zlen (encode_definition d) ≤ 256 * 1024.

Definition catalog_bytes (ds : list JobDefinition) : Z := foldr (λ d n, zlen (encode_definition d) + n) 0 ds.

Lemma catalog_bytes_nonneg ds : 0 ≤ catalog_bytes ds.
Proof.
  induction ds as [|d ds IH]; [done|].
  change (catalog_bytes (d :: ds)) with (zlen (encode_definition d) + catalog_bytes ds). unfold zlen. lia.
Qed.

Lemma decode_definitions_loop_encoded total ds :
  Forall web_definition ds → total + catalog_bytes ds ≤ MAX_WEB_JOB_CATALOG_BYTES →
  decode_definitions_loop total ((λ d, hex_text (encode_definition d)) <$> ds) = Ok ds.
Proof.
  intros Hds. revert total. induction Hds as [|d ds (Hform & Hbytes & Hne & Hlen) Hds IH]; intros total Htotal; [done|].
  change (catalog_bytes (d :: ds)) with (zlen (encode_definition d) + catalog_bytes ds) in Htotal.
  pose proof (catalog_bytes_nonneg ds). cbn [fmap list_fmap decode_definitions_loop].
  assert (Z.of_nat (String.length (hex_text (encode_definition d))) = 2 * zlen (encode_definition d)) as ->.
  { rewrite <- length_text_bytes, text_bytes_hex, encode_hex_length by done. unfold zlen. lia. }
  assert (0 < zlen (encode_definition d)).
  { unfold zlen. destruct (encode_definition d); [done|cbn; lia]. }
  rewrite (Z.mul_comm 2), Z_mod_mult. rewrite !bool_decide_eq_false_2 by (try lia; by intros []). cbn [orb].
  rewrite text_bytes_hex, hex_digits_encode by done. cbn [ok_or mbind result_bind].
  rewrite bool_decide_eq_false_2 by lia. rewrite decode_encode_definition. cbn [map_err mbind result_bind].
  rewrite Hform. cbn [mbind result_bind]. by rewrite IH by lia.
Qed.

End Definitions.

(** The definitions a client sends in hexadecimal are the definitions it has: within the
    limits on number and size, the Server reads back exactly the list that was encoded, in
    its order. *)
Theorem definitions_roundtrip `{D : DefinitionCodec} `{DL : !DefinitionCodecLaws D} ds :
  zlen ds ≤ MAX_WEB_JOB_CATALOG_ENTRIES → catalog_bytes ds ≤ MAX_WEB_JOB_CATALOG_BYTES → Forall web_definition ds →
  decode_job_definitions ((λ d, hex_text (encode_definition d)) <$> ds) = Ok ds.
Proof.
  intros Hn Hb Hds. unfold decode_job_definitions. rewrite bool_decide_eq_false_2 by (unfold zlen in *; rewrite length_fmap; lia).
  by apply decode_definitions_loop_encoded.
Qed.

(** ** Examples *)

(** Definitions as bits. *)
Fixpoint pos_bits (p : positive) : bytes :=
  match p with xH => [1] | xO p => 0 :: pos_bits p | xI p => 1 :: pos_bits p end.
Fixpoint bits_pos (bs : bytes) : option positive :=
  match bs with
  | [] => None
  | [b] => if bool_decide (b = 1) then Some xH else None
  | b :: bs => p ← bits_pos bs; Some (if bool_decide (b = 1) then xI p else xO p)
  end.
Definition bits_codec : DefinitionCodec := {|
  job_key_text agent_id _ := agent_id;
  encode_definition d := pos_bits (encode d);
  decode_definition bs := ok_or "malformed definition" (bits_pos bs ≫= decode);
|}.

Lemma bits_pos_bits p : bits_pos (pos_bits p) = Some p.
Proof.
  assert (∀ q, ∃ b bs, pos_bits q = b :: bs) as Hc by (intros []; eauto).
  induction p as [p IH|p IH|]; [| |done]; cbn; destruct (Hc p) as (b & bs & E); rewrite E in *; by rewrite IH.
Qed.

Lemma bits_codec_laws : DefinitionCodecLaws bits_codec.
Proof. intros d. cbn. rewrite bits_pos_bits. cbn. by rewrite decode_encode. Qed.

Lemma pos_bits_bytes p : Forall is_byte (pos_bits p).
Proof. induction p as [p IH|p IH|]; cbn; repeat constructor; try done. Qed.

Definition demo_web_job : JobDefinition := demo_job 9 1 (Task_Cpu []).

Lemma definitions_roundtrip_witness :
  decode_job_definitions (D := bits_codec)
    ((λ d, hex_text (encode_definition (DefinitionCodec := bits_codec) d)) <$> [demo_web_job]) = Ok [demo_web_job].
Proof.
  apply (definitions_roundtrip (D := bits_codec) (DL := bits_codec_laws) [demo_web_job]).
  - by vm_compute.
  - by vm_compute.
  - constructor; [|constructor]. split_and!; [by vm_compute|apply pos_bits_bytes|by vm_compute|by vm_compute].
Defined.

(** A Server with one administrator and one Agent, and the requests of a browser: a login,
    and then a replacement of the Agent's catalog. *)
Definition demo_sha32 : Sha256 := λ bs, take 32 (bs ++ replicate 32 9).
Definition demo_web_codecs : WebCodecs :=
  {| uuid_text _ := true; json_text _ := true; encode_command _ := []; encode_result _ := [] |}.
Definition demo_catalog_encoding : CatalogEncoding := λ _, [].
Definition demo_blake : Blake2s := λ bs, bs.
Definition demo_replace_request : Json :=
  JObject [("jsonrpc", JString "2.0"); ("id", JInt 1); ("method", JString "job.catalog.replace");
           ("params", JObject [("agentId", JString "agent-a"); ("expectedCatalogRevision", JString "0");
                               ("clientMutationId", JString "11111111-1111-4111-8111-111111111111");
                               ("definitionsHex", JArray [])])].
Definition demo_get_request : Json :=
  JObject [("jsonrpc", JString "2.0"); ("id", JInt 1); ("method", JString "operation.get");
           ("params", JObject [("operationId", JString "22222222-2222-4222-8222-222222222222")])].
Definition demo_externals : WebExternals := {|
  parse_json body := match body with
                     | [0] => Some (JObject [("username", JString "Root"); ("password", JString "correct-horse-2")])
                     | [2] => Some demo_get_request
                     | _ => Some demo_replace_request
                     end;
  parse_stored _ := Some JNull;
  json_bytes _ := [];
  operation_json _ := "{}";
  verify_password phc _ := String.eqb phc "phc";
  text_contains _ _ := true;
|}.
Definition demo_auth : WebAuth :=
  mkWebAuth (mkWebAuthConfig true (text_bytes "https://s") 60000 10000 5 true) "dummy" (mkMetricsConfig ∅ "" 1000).
Definition demo_env : RequestEnv :=
  mkEnv (λ _, false) (λ _, 5000) (Some 5000000) 1 (λ _, "22222222-2222-4222-8222-222222222222") (Some demo_secret) true
    (λ t, t).
Definition demo_headers (extra : HeaderMap) : HeaderMap :=
  [("origin", text_bytes "https://s"); ("x-smalux-client", text_bytes "web");
   ("content-type", text_bytes "application/json; charset=utf-8")] ++ extra.
Definition demo_session_headers : HeaderMap :=
  demo_headers [("cookie", session_pair demo_secret); ("x-csrf-token", text_bytes (csrf (H256 := demo_sha32) demo_secret))].
Definition demo_web_state : WebState :=
  mkWebState demo_web1 (mkTables ∅ ∅ {[text_bytes "agent-a" := demo_agent_row]}) (mkJobTables ∅ ∅ ∅ ∅ ∅) [] [] ∅ [] 0.

Definition demo_login (w : WebState * nat) :=
  login (H256 := demo_sha32) (WE := demo_externals) demo_auth demo_env (demo_headers []) (Ok [0]) w.
Definition demo_rpc (w : WebState * nat) :=
  rpc (D := bits_codec) (WC := demo_web_codecs) (CE := demo_catalog_encoding) (B2 := demo_blake) (H256 := demo_sha32)
    (TO := binary_collation) (MC := demo_metrics) (WE := demo_externals) demo_auth demo_env demo_session_headers (Ok [1]) w.

Definition demo_logged_in : WebState := match demo_login (demo_web_state, 0%nat) with Some (_, (s, _)) => s | None => demo_web_state end.
Definition demo_login_response : Response :=
  match demo_login (demo_web_state, 0%nat) with Some (Ok r, _) => r | _ => RespMeta end.
Definition demo_replaced : WebState := match demo_rpc (demo_logged_in, 0%nat) with Some (_, (s, _)) => s | None => demo_logged_in end.

Lemma demo_login_runs : demo_login (demo_web_state, 0%nat) = Some (Ok demo_login_response, (demo_logged_in, 3%nat)).
Proof. vm_compute. reflexivity. Qed.

Lemma demo_rpc_runs : demo_rpc (demo_logged_in, 0%nat) = Some (Ok (RespRpc (JInt 1) (ResStored JNull)), (demo_replaced, 6%nat)).
Proof. vm_compute. reflexivity. Qed.

Lemma web_mutation_authorized_witness :
  ∃ secret view, write_gate demo_session_headers (wa_config demo_auth) = Ok tt ∧
    cookie_secret demo_session_headers = Some secret ∧ operator_role (sv_role view) = true ∧
    supplied_csrf demo_session_headers = text_bytes (csrf (H256 := demo_sha32) secret).
Proof.
  destruct (web_mutation_authorized demo_auth demo_env demo_session_headers (Ok [1]) demo_logged_in 0
    (Ok (RespRpc (JInt 1) (ResStored JNull))) demo_replaced 6 demo_rpc_runs)
    as (secret & view & view' & agent_id & jobs & expected & draft & res & Hg & Hc & _ & Hr & Hs & _).
  - intros E. apply (f_equal (λ t, map_to_list (tb_catalogs t))) in E. vm_compute in E. discriminate E.
  - exists secret, view. split; [exact Hg|]. split; [exact Hc|]. split; [exact Hr|exact Hs].
Defined.

(** The user becomes an operator, and asks for the operation. *)
Definition demo_operator : WebState :=
  set_st_web (mkWebTables ((λ u, mkWebUserRow (wu_username u) (wu_password_hash u) "operator" (wu_enabled u) (wu_created_at u) (wu_updated_at u))
                             <$> wt_users (st_web demo_replaced))
                (wt_bootstrap (st_web demo_replaced)) (wt_sessions (st_web demo_replaced)) (wt_events (st_web demo_replaced))) demo_replaced.
Definition demo_get (w : WebState * nat) :=
  rpc (D := bits_codec) (WC := demo_web_codecs) (CE := demo_catalog_encoding) (B2 := demo_blake) (H256 := demo_sha32)
    (TO := binary_collation) (MC := demo_metrics) (WE := demo_externals) demo_auth demo_env demo_session_headers (Ok [2]) w.
Definition demo_operation : JobOperationView :=
  match demo_get (demo_operator, 0%nat) with
  | Some (Ok (RespRpc _ (ResOperation v)), _) => v
  | _ => operation_view ("", new_operation (mkDraft "" "" "" "" "" "" "" None "") "" 0 0 [] 0)
  end.
Definition demo_got : WebState * nat := match demo_get (demo_operator, 0%nat) with Some (_, w) => w | None => (demo_operator, 0%nat) end.

Lemma demo_get_runs : demo_get (demo_operator, 0%nat) = Some (Ok (RespRpc (JInt 1) (ResOperation demo_operation)), demo_got).
Proof. vm_compute. reflexivity. Qed.

(** The operator is shown the operation, which is stored with this user as its actor. *)
Lemma web_answers_respect_role_witness :
  ∃ view op, sv_role view = Operator ∧ ov_operation_id demo_operation = "22222222-2222-4222-8222-222222222222" ∧
    tb_operations (st_jobs demo_operator) !! ov_operation_id demo_operation = Some op ∧ wo_actor_user_id op = sv_user_id view.
Proof.
  destruct (web_answers_respect_role demo_auth demo_env demo_session_headers (Ok [2]) demo_operator 0
    (RespRpc (JInt 1) (ResOperation demo_operation)) demo_got demo_get_runs)
    as (secret & view & touch & web & Hg & Hc & Hs & Hweb & _ & op & Hop & _ & Hown).
  assert (sv_role view = Operator) as Hr.
  { replace secret with demo_secret in Hs by (vm_compute in Hc; by injection Hc). subst web.
    destruct touch; vm_compute in Hs; injection Hs as <-; reflexivity. }
  exists view, op. split; [exact Hr|]. split; [vm_compute; reflexivity|]. split; [exact Hop|].
  destruct Hown as [Hown|Hown]; [rewrite Hr in Hown; discriminate|exact Hown].
Defined.

Lemma login_sound_witness :
  ∃ secret view, demo_login_response = RespLogin view (cookie (Some secret) true) ∧
    ∀ now' between, 5000 ≤ now' < 15000 →
      ∃ view', (session (H256 := demo_sha32) now' secret false 10000 60000 between (st_web demo_logged_in)).1 = Ok (Some view') ∧
        sv_user_id view' = sv_user_id view.
Proof.
  destruct (login_sound demo_auth demo_env (demo_headers []) (Ok [0]) demo_web_state 0 demo_login_response demo_logged_in 3
    demo_login_runs) as (bs & username & password & name & uid & row & secret & view & _ & _ & _ & _ & _ & _ & _ & _ & _ & Hr & Hu & Hn).
  - cbn. lia.
  - intros n. split; vm_compute; discriminate.
  - exists secret, view. split; [exact Hr|]. intros now' between Hw.
    destruct (Hn now' between Hw) as (view' & Hv & Hu' & _). exists view'. split; [exact Hv|]. congruence.
Defined.
