(* ===== verification/Delivery.v ===== *)
(** * From the web operation to the Agent

    The Server's records of [WebLife.v] and the Agent's controller of [RemoteJobs.v]
    together: the commands the Server recorded for an Agent are the ones the Agent
    applies, and the results the Agent returns are the ones the Server completes its
    operations with. *)

From stdpp Require Import base gmap strings list sorting relations.
From S2P Require Import Prelude StLogic Rotation SchedModel Timing ReadyQueue Actor Engine Demo AgentState Proto Catalog Policy Compiler SchedulerPort RemoteJobs RemoteTheorems WebOps WebLife.

Section Agent.
Context `{C : Chrono} `{H : HashOrder} `{R : Runtime} `{B : TaskBuilders} {S : Type} `{P : !SchedulerPort S}.
(** The commands that reach the Agent. *)
Context (delivered : JobCommand → Prop).
Implicit Types (c : RemoteJobController S).

(** What happens to a controller: commands of the Server, the local operations, and
    the scheduler going on by itself. *)
Inductive agent_step : RemoteJobController S → RemoteJobController S → Prop :=
| step_command cmd r c c' : delivered cmd → apply_command cmd c = Some (r, c') → agent_step c c'
| step_policy ok change r c c' : update_policy ok change c = Some (r, c') → agent_step c c'
| step_pause id version r c c' : pause_plugin id version c = Some (r, c') → agent_step c c'
| step_resume id version r c c' : resume_plugin id version c = Some (r, c') → agent_step c c'
| step_clear r c c' : clear_remote_jobs c = Some (r, c') → agent_step c c'
| step_scheduler s c : agent_step c (mkController s (rc_state c) (rc_policy c)).

(** The index is consistent with the definitions in it. *)
Definition tidy c : Prop := revisions_match (rc_state c) ∧ directory_keyed (directory c).

(** What the local operations keep. *)
Definition local_change c c' : Prop := cache (rc_state c') = cache (rc_state c) ∧ (tidy c → tidy c').

#[local] Instance local_change_preorder : PreOrder local_change.
Proof.
  split; [done|]. intros c1 c2 c3 [H1 T1] [H2 T2]. split; [congruence|auto].
Qed.

Lemma scheduler_call_local {A} (op : Call S A) : follows local_change (scheduler_call op).
Proof. intros c a c'. unfold scheduler_call. destruct (op _). by intros [= <- <-]. Qed.
#[local] Hint Resolve scheduler_call_local : follows.

Lemma modify_generation_local v id :
  follows local_change (modify_state (S := S) (λ s, set_cs_remote_jobs (alter (set_mj_generation v) id (cs_remote_jobs s)) s)).
Proof.
  apply follows_modify. intros c. split; [done|]. intros [Hm Hk].
  assert (Hd : mj_definition <$> alter (set_mj_generation v) id (cs_remote_jobs (rc_state c)) =
               mj_definition <$> cs_remote_jobs (rc_state c)).
  { apply map_eq. intros i. rewrite !lookup_fmap. destruct (decide (i = id)) as [->|Hne].
    - rewrite lookup_alter_eq. by destruct (_ !! id).
    - by rewrite lookup_alter_ne. }
  split; [|unfold directory; cbn; rewrite Hd; exact Hk].
  intros i m. cbn. destruct (decide (i = id)) as [->|Hne].
  - rewrite lookup_alter_eq. destruct (cs_remote_jobs (rc_state c) !! id) as [m0|] eqn:Hm0; [|done].
    intros [= <-]. cbn. by apply (Hm id).
  - rewrite lookup_alter_ne by done. apply Hm.
Qed.

Lemma modify_delete_local id :
  follows local_change (modify_state (S := S) (λ s, set_cs_remote_jobs (delete id (cs_remote_jobs s)) s)).
Proof.
  apply follows_modify. intros c. split; [done|]. intros [Hm Hk]. split.
  - intros i m. cbn. intros [_ Hi]%lookup_delete_Some. by apply (Hm i).
  - intros i d. cbn. rewrite fmap_delete. intros [_ Hi]%lookup_delete_Some. by apply Hk.
Qed.

Lemma modify_zero_local :
  follows local_change (modify_state (S := S) (λ s, set_cs_directory 0 (cs_remote_jobs s) s)).
Proof. by apply follows_modify. Qed.

Lemma modify_paused_local f : follows local_change (modify_state (S := S) (λ s, set_cs_paused (f s) s)).
Proof. by apply follows_modify. Qed.
#[local] Hint Resolve modify_generation_local modify_delete_local modify_zero_local modify_paused_local : follows.

Lemma disable_denied_local snap jobs n : follows local_change (disable_denied (S := S) snap jobs n).
Proof. revert n. induction jobs as [|[i m] jobs IH]; intros n; cbn [disable_denied]; follow. Qed.
Lemma clear_loop_local jobs : follows local_change (clear_loop (S := S) jobs).
Proof. induction jobs as [|[i m] jobs IH]; cbn [clear_loop]; follow. Qed.
Lemma pause_loop_local jobs n : follows local_change (pause_loop (S := S) jobs n).
Proof. revert n. induction jobs as [|[i m] jobs IH]; intros n; cbn [pause_loop]; follow. Qed.
#[local] Hint Resolve disable_denied_local clear_loop_local pause_loop_local : follows.

Lemma update_policy_local ok change : follows local_change (update_policy (S := S) ok change).
Proof.
  intros c r c'. unfold update_policy. destruct (policy_apply _ _ _) as [[[u|e] m]|]; [|by intros [= _ <-]|done].
  destruct (negb _); [by intros [= _ <-]|]. intros Hs.
  assert (Hf : follows local_change (affected ?← disable_denied (S := S) (pu_snapshot u)
      (hash_iter (cs_remote_jobs (rc_state c))) 0; mret (Ok (E := string) (mkPolicyApplication (pu_snapshot u) affected))))
    by follow.
  apply Hf in Hs. exact Hs.
Qed.
Lemma clear_local : follows local_change (clear_remote_jobs (S := S)).
Proof. unfold clear_remote_jobs. follow. Qed.
Lemma pause_local id v : follows local_change (pause_plugin (S := S) id v).
Proof. unfold pause_plugin. follow. Qed.
Lemma resume_local id v : follows local_change (resume_plugin (S := S) id v).
Proof. unfold resume_plugin. follow. Qed.

(** A command was carried out, not answered from the cache, on the way from [c0]. *)
Definition carried_out c0 (cmd : JobCommand) (r : JobCommandResult) c' : Prop :=
  ∃ id c, rtc agent_step c0 c ∧ delivered cmd ∧ uuid_from_slice (jc_command_id cmd) = Some id ∧
    cs_cached_results (rc_state c) !! id = None ∧ apply_command cmd c = Some (r, c').

(** Every stored result is that of a command with its id that was carried out. *)
Definition genuine c0 c : Prop :=
  ∀ id r, cs_cached_results (rc_state c) !! id = Some r →
    ∃ cmd c', uuid_from_slice (jc_command_id cmd) = Some id ∧ carried_out c0 cmd r c'.

Lemma evict_subseteq fuel results order : (evict fuel results order).1 ⊆ results.
Proof.
  revert results order. induction fuel as [|fuel IH]; intros results order; cbn; [done|].
  case_bool_decide; [|done]. destruct order as [|i order]; [done|].
  etrans; [apply IH|]. apply delete_subseteq.
Qed.

Lemma cache_result_lookup id r s id' r' :
  cs_cached_results (cache_result id r s) !! id' = Some r' →
  (id' = id ∧ r' = r) ∨ cs_cached_results s !! id' = Some r'.
Proof.
  unfold cache_result.
  match goal with |- context [evict ?f ?m ?o] => pose proof (evict_subseteq f m o) as Hsub; destruct (evict f m o) as [m' o'] end.
  cbn in *. intros Hl%(λ H, lookup_weaken _ _ _ _ H Hsub).
  apply lookup_insert_Some in Hl as [[<- <-]|[_ Hl]]; auto.
Qed.

Lemma agent_step_tidy c0 c c' :
  rtc agent_step c0 c → agent_step c c' → tidy c ∧ genuine c0 c → tidy c' ∧ genuine c0 c'.
Proof.
  intros Hr Hs [[Hm Hk] Hg].
  assert (Hlocal : local_change c c' → tidy c' ∧ genuine c0 c').
  { intros [Hc Ht]. split; [by apply Ht|]. intros id r. injection Hc as -> _. apply Hg. }
  destruct Hs as [cmd r c c' Hd Ha|ok change r c c' Ha|i v r c c' Ha|i v r c c' Ha|r c c' Ha|s c];
    [|apply Hlocal; by eapply update_policy_local|apply Hlocal; by eapply pause_local|
      apply Hlocal; by eapply resume_local|apply Hlocal; by eapply clear_local|done].
  clear Hlocal. pose proof Ha as Ha0.
  apply apply_command_cases in Ha as [(e & _ & -> & _)|(id & Hid & [[_ ->]|(Hno & c1 & Hl & ->)])]; [done..|].
  apply parse_uuid_Ok in Hid. set (c' := mkController _ _ _) in *.
  assert (Hdir : directory c' = directory c1 ∧ cs_remote_jobs (rc_state c') = cs_remote_jobs (rc_state c1)).
  { unfold c'. destruct (should_cache_result r); [|done]. unfold directory, cache_result. cbn. by destruct (evict _ _ _). }
  pose proof (apply_locked_cache _ _ _ _ Hl) as Hc1. cbv beta in Hc1. injection Hc1 as Hc1 _.
  split.
  - assert (Ht1 : tidy c1).
    { apply apply_locked_Some in Hl as [_ [(a & x & _ & Hr1 & _)|(_ & [[_ ->]|(a & e & _ & Hr1 & _)])]]; [|done|];
        apply run_action_directory in Hr1 as [Hm1 Hd1]; try done; split; try done;
        [by eapply directory_step_keyed|by rewrite Hd1]. }
    destruct Hdir as [Hd1 Hj1], Ht1 as [Hm1 Hk1]. split; [|by rewrite Hd1].
    intros i m. rewrite Hj1. apply Hm1.
  - intros i r' Hi. cbn in Hi.
    assert (Hcase : (i = id ∧ r' = r) ∨ cs_cached_results (rc_state c) !! i = Some r').
    { rewrite <-Hc1. destruct (should_cache_result r); [by apply cache_result_lookup|by right]. }
    destruct Hcase as [[-> ->]|Hold]; [|by apply Hg].
    exists cmd, c'. split; [done|]. by exists id, c.
Qed.

Lemma agent_reach_tidy c0 c :
  tidy c0 ∧ genuine c0 c0 → rtc agent_step c0 c → tidy c ∧ genuine c0 c.
Proof.
  intros H0. revert c. apply (rtc_ind_r (λ c, tidy c ∧ genuine c0 c)); [done|].
  intros c c' Hr Hs IH. by eapply agent_step_tidy.
Qed.

Lemma new_controller_tidy scheduler policy :
  let c0 := controller_new scheduler policy in tidy c0 ∧ genuine c0 c0.
Proof.
  split; [split|]; intros i x; cbn; rewrite ?fmap_empty, lookup_empty; done.
Qed.

(** A result that says [Applied] is that of a command carried out, whether it was
    returned at once or from the cache. *)
Lemma applied_result c0 c cmd r c' :
  tidy c0 ∧ genuine c0 c0 → rtc agent_step c0 c → delivered cmd → apply_command cmd c = Some (r, c') →
  jr_status r = Applied →
  ∃ cmd' c2 id, uuid_from_slice (jc_command_id cmd') = Some id ∧ uuid_from_slice (jr_command_id r) = Some id ∧
    carried_out c0 cmd' r c2.
Proof.
  intros H0 Hr Hd Ha Hst. destruct (agent_reach_tidy _ _ H0 Hr) as [_ Hg].
  assert (∃ cmd' c2 id, uuid_from_slice (jc_command_id cmd') = Some id ∧ carried_out c0 cmd' r c2)
    as (cmd' & c2 & id & Hid & Hc).
  { pose proof Ha as Ha0.
    apply apply_command_cases in Ha as [(e & _ & _ & ?)|(id & Hid & [[Hc _]|(Hno & c1 & Hl & _)])]; [congruence|..].
    - destruct (Hg _ _ Hc) as (cmd' & c2 & ? & ?). eauto.
    - apply parse_uuid_Ok in Hid. exists cmd, c', id. split; [done|]. by exists id, c. }
  exists cmd', c2, id. split_and!; [done| |done].
  destruct Hc as (id' & c1 & _ & _ & Hid' & Hno & Ha').
  apply apply_command_cases in Ha' as [(e & _ & _ & ?)|(i & Hi & [[? _]|(_ & c3 & Hl & _)])]; [congruence|..].
  - apply parse_uuid_Ok in Hi. congruence.
  - assert (jr_command_id r = jc_command_id cmd') as ->; [|done].
    unfold apply_locked in Hl. apply st_bind_Some in Hl as (x & c4 & _ & Hl).
    apply st_bind_Some in Hl as (? & ? & _ & [-> _]%st_ret_Some). by destruct x.
Qed.

(** A replacement that was carried out and applied has installed its catalog. *)
Lemma replacement_installed `{HL : !HashOrderLaws H} `{E : CatalogEncoding} `{K : Blake2s} `{KL : !Blake2sLaws K}
    c0 cmd r c' v :
  Inj (=) (=) encode_replace_all → tidy c0 ∧ genuine c0 c0 → carried_out c0 cmd r c' →
  jr_status r = Applied → jc_action cmd = Some (ActReplaceAll v) →
  rtc agent_step c0 c' ∧ catalog_reconcile_state c' = (ra_catalog_revision v, catalog_digest v).
Proof.
  intros Hinj H0 (id & c & Hr & Hd & Hid & Hno & Ha) Hst Hact.
  assert (Hr' : rtc agent_step c0 c') by (eapply rtc_r; [exact Hr|by eapply step_command]). split; [done|].
  destruct (agent_reach_tidy _ _ H0 Hr) as [[Hm _] _]. destruct (agent_reach_tidy _ _ H0 Hr') as [[_ Hk] _].
  apply apply_command_cases in Ha as [(e & _ & _ & ?)|(i & Hi & [[? _]|(_ & c1 & Hl & ->)])]; [congruence|..].
  { apply parse_uuid_Ok in Hi. congruence. }
  set (c' := mkController _ _ _) in *.
  assert (Hdir : directory c' = directory c1).
  { unfold c'. destruct (should_cache_result r); [|done]. unfold directory, cache_result. cbn. by destruct (evict _ _ _). }
  apply apply_locked_Some in Hl as [_ [(a & x & Ha & Hrun & _)|(? & _)]]; [|done].
  rewrite Hact in Ha. injection Ha as <-. apply run_action_directory in Hrun as [_ Hstep]; [|done].
  remember (directory c1) as d1 eqn:Hd1. remember (directory c) as d eqn:Hd0. clear Hd0 Hd1.
  inversion Hstep as [| | |v' jobs d0 Hnz Hle Hids Hnd Hmono]; subst.
  by apply (reconcile_state_iff c' v jobs).
Qed.

End Agent.

(** ** The property *)

(** C2. [applied] means installed: when the Server shows a web operation as applied,
    the Agent has been in a state whose catalog has exactly the revision and the
    digest of the catalog the user asked for, whatever commands, retries, policy
    changes, plugin pauses and scheduler failures happened on the way; the Agent only
    gets commands the Server has recorded, and the Server only results the Agent
    returned. *)
Theorem applied_means_installed `{C : Chrono} `{H : HashOrder} `{HL : !HashOrderLaws H} `{R : Runtime}
    `{B : TaskBuilders} {S : Type} `{P : !SchedulerPort S} `{D : DefinitionCodec} `{W : WebCodecs}
    `{E : CatalogEncoding} `{K : Blake2s} `{KL : !Blake2sLaws K}
    (scheduler : S) policy agent_id (issued : string → JobCommand → Prop) (reported : string → WireResult → Prop)
    t operation_id op :
  Inj (=) (=) encode_command → Inj (=) (=) encode_replace_all →
  web_reach issued reported (mkJobTables ∅ ∅ ∅ ∅ ∅) t →
  (∀ cmd, issued agent_id cmd → ∃ id row, uuid_from_slice (jc_command_id cmd) = Some id ∧
     tb_commands t !! id = Some row ∧ cr_command_payload row = encode_command cmd) →
  (∀ result, reported agent_id result → ∃ c cmd r c',
     rtc (agent_step (issued agent_id)) (controller_new scheduler policy) c ∧ issued agent_id cmd ∧
     apply_command cmd c = Some (r, c') ∧ result = wire_result r) →
  tb_operations t !! operation_id = Some op → wo_agent_id op = agent_id → wo_state op = OpApplied →
  ∃ c, rtc (agent_step (issued agent_id)) (controller_new scheduler policy) c ∧
    catalog_reconcile_state c = (wo_target_revision op, wo_desired_digest op).
Proof.
  intros Hinjc Hinj Hreach Hrec Hrep Hop <- Hst.
  destruct (web_reach_wf _ _ _ _ Hreach (web_wf_empty _ _)) as [Hops _].
  pose proof (ow_stage _ _ _ _ (Hops _ _ Hop)) as Hs. unfold stage_ok in Hs. rewrite Hst in Hs.
  destruct Hs as [(id & cmd & v & row & Hcid & Huid & Hact & Hrev & Hdig & _ & Hrow & _ & Hpay)
                  (id' & result & Hcid' & Hrid & Hr & Hcode)].
  assert (id' = id) as -> by congruence. apply bool_decide_eq_true_1 in Hdig.
  destruct (Hrep _ Hr) as (c & cmd1 & r & c' & Hc & Hiss & Ha & ->).
  assert (Hstatus : jr_status r = Applied) by (cbn in Hcode; by destruct (jr_status r)).
  pose proof (new_controller_tidy (issued (wo_agent_id op)) scheduler policy) as H0.
  destruct (applied_result _ _ _ _ _ _ H0 Hc Hiss Ha Hstatus) as (cmd2 & c2 & i & Hi1 & Hi2 & Hcar).
  cbn in Hrid. assert (i = id) as -> by congruence.
  (* the command carried out is the recorded one *)
  assert (cmd2 = cmd) as ->.
  { destruct Hcar as (? & ? & _ & Hiss2 & _). destruct (Hrec _ Hiss2) as (j & row2 & Hj & Hrow2 & Hpay2).
    assert (j = id) as -> by congruence. apply (inj encode_command). congruence. }
  destruct (replacement_installed _ _ _ _ _ _ Hinj H0 Hcar Hstatus Hact) as [Hreach2 Hd].
  exists c2. split; [done|]. by rewrite Hd, Hrev, Hdig.
Qed.

(** ** The two jobs of the demonstration reach the Agent *)

Definition demo_agent_result : JobCommandResult := demo_result demo_delivery demo_controller.
Definition demo_agent_after : RemoteJobController Handle := demo_after demo_delivery demo_controller.

Lemma demo_agent_applies : apply_command demo_delivery demo_controller = Some (demo_agent_result, demo_agent_after).
Proof.
  apply demo_apply. destruct (apply_command demo_delivery demo_controller) eqn:Ha; [by eexists|].
  vm_compute in Ha. discriminate Ha.
Qed.

Definition demo_agent_reported (a : string) (r : WireResult) : Prop :=
  a = "agent-a" ∧ r = wire_result demo_agent_result.

Definition demo_installed : JobTables :=
  match complete_job_command (Some 400) "agent-a" (wire_result demo_agent_result) demo_web2 with
  | Some (_, t) => t
  | None => demo_web2
  end.

Lemma demo_installed_eq :
  complete_job_command (Some 400) "agent-a" (wire_result demo_agent_result) demo_web2 = Some (Ok tt, demo_installed).
Proof. vm_compute. reflexivity. Qed.

Definition demo_installed_op : WebOperation :=
  default (new_operation demo_draft "" 0 0 [] 0) (tb_operations demo_installed !! "op-1").

Lemma applied_means_installed_witness :
  ∃ c, rtc (agent_step (demo_issued "agent-a")) demo_controller c ∧
    catalog_reconcile_state c = (1, catalog_digest (mkReplaceAllJobs 1 demo_jobs1)).
Proof.
  apply (applied_means_installed (KL := demo_hash_laws) (Some demo_s0) (mkPolicyManager default_policy None)
    "agent-a" demo_issued demo_agent_reported demo_installed "op-1" demo_installed_op).
  - exact demo_encode_command_inj.
  - exact demo_catalog_encoding_inj.
  - eapply web_complete; [apply demo_reach_sent; split; reflexivity| |exact demo_installed_eq]. split; reflexivity.
  - intros cmd [_ ->]. exists 77.
    destruct (tb_commands demo_installed !! 77) as [row|] eqn:Hrow; [|vm_compute in Hrow; discriminate Hrow].
    exists row. split; [vm_compute; reflexivity|]. split; [reflexivity|].
    vm_compute in Hrow. injection Hrow as <-. vm_compute. reflexivity.
  - intros result [_ ->]. exists demo_controller, demo_delivery, demo_agent_result, demo_agent_after.
    split; [constructor|]. split; [split; reflexivity|]. split; [exact demo_agent_applies|reflexivity].
  - vm_compute. reflexivity.
  - vm_compute. reflexivity.
  - vm_compute. reflexivity.
Defined.
