(* ===== verification/Session.v ===== *)
(** * The Server's business session

    [crates/smalux-server/src/service/agent/transport/session/business.rs]: the loop
    that serves one authenticated Agent.  It collects the Agent's policy,
    capabilities and plugins, brings its plugin runtime up to date, and sends it the
    job catalog; [service/agent/state.rs] has the registry of paused plugins.

    A turn of the loop is a function of the event and of what the rest of the Server
    answers during it ([Answers]); the messages sent are recorded.  The waits of the
    loop are the events [CatalogChanged] and [RuntimeChanged]. *)

From stdpp Require Import base gmap strings list sorting.
From S2P Require Import Prelude StLogic Rotation Credential SchedModel Actor Proto Catalog JobEvents Policy Compiler RemoteJobs WebOps.

(** ** Messages *)

(** [AgentCapabilitySnapshot]. *)
Record AgentCapabilitySnapshot : Type := mkCapability {
  cap_revision : Z;
  cap_agent_version : string;
  cap_task_kinds : list string;
  cap_probe_protocols : list Z;
}.

(** [PluginInventoryEntry] and [AgentPluginInventory]. *)
Record PluginInventoryEntry : Type := mkInventoryEntry {
  pie_plugin_id : string;
  pie_version : string;
  pie_task_kinds : list string;
  pie_schema_hash : bytes;
  pie_schema_format_version : Z;
}.
Record AgentPluginInventory : Type := mkInventory {
  inv_revision : Z;
  inv_plugins : list PluginInventoryEntry;
}.

(** [PluginRuntimeConfig] and [PluginRuntimeSnapshot]. *)
Record PluginRuntimeConfig : Type := mkRuntimeConfig {
  prc_plugin_id : string;
  prc_version : string;
  prc_schema_version : Z;
  prc_config : bytes;
  prc_requested_concurrency : Z;
}.
Record PluginRuntimeSnapshot : Type := mkRuntimeSnapshot {
  prs_revision : Z;
  prs_plugins : list PluginRuntimeConfig;
}.

(** [AgentReconcileSummary]. *)
Record AgentReconcileSummary : Type := mkSummary {
  sum_instance_id : bytes;
  sum_catalog_revision : Z;
  sum_catalog_digest : bytes;
  sum_runtime_revision : Z;
  sum_runtime_digest : bytes;
}.

(** [PluginPauseNotice] and [PluginPauseAck]. *)
Record PluginPauseNotice : Type := mkPauseNotice {
  ppn_plugin_id : string;
  ppn_plugin_version : string;
  ppn_runtime_revision : Z;
  ppn_failure_count : Z;
  ppn_failure_window_started_at_ms : Z;
  ppn_paused_at_ms : Z;
  ppn_last_exit_reason : string;
  ppn_last_error : string;
}.
Record PluginPauseAck : Type := mkPauseAck {
  ppa_plugin_id : string;
  ppa_plugin_version : string;
  ppa_runtime_revision : Z;
  ppa_accepted : bool;
  ppa_error : option string;
}.

(** The bodies of [AgentPluginSync] an Agent sends, and the others. *)
Inductive PluginMessage : Type :=
| PluginInventory (inventory : AgentPluginInventory)
| PluginSchemaResponse (schema_hash schema_bundle : bytes)
| PluginAcknowledgement (revision : Z) (accepted : bool)
| PluginPause (notice : PluginPauseNotice)
| PluginPauseAcknowledgement
| PluginOther.

(** What a turn of the loop starts with. *)
Inductive SessionEvent : Type :=
| CatalogChanged
| RuntimeChanged
| EvPolicy (body : option AgentJobPolicySnapshot)
| EvSummary (summary : AgentReconcileSummary)
| EvCapability (body : option AgentCapabilitySnapshot)
| EvPlugin (message : PluginMessage)
| EvCommandResult (result : WireResult)
| EvTaskReport
| EvJobEvent (event : JobEvent)
| EvOther.

(** What the Server sends. *)
Inductive ServerMessage : Type :=
| MsgPolicyQuery
| MsgCapabilityQuery
| MsgPolicyAck (revision : Z)
| MsgInvalid (message : string)
| MsgRuntime (snapshot : PluginRuntimeSnapshot)
| MsgSchemaQuery (hashes : list bytes)
| MsgPauseAck (ack : PluginPauseAck)
| MsgCommand (command : JobCommand).

Global Instance AgentJobPolicySnapshot_eq_dec : EqDecision AgentJobPolicySnapshot.
Proof. solve_decision. Defined.

(** ** Validation *)

Definition MAX_DENIED_TASK_KINDS : nat := 1024.
Definition MAX_TASK_KIND_BYTES : nat := 256.
Definition MAX_CAPABILITY_TASK_KINDS : nat := 4096.
Definition MAX_AGENT_VERSION_BYTES : nat := 128.
Definition MAX_INSTALLED_PLUGINS : nat := 1024.
Definition MAX_PLUGIN_ID_BYTES : nat := 256.
Definition MAX_PLUGIN_VERSION_BYTES : nat := 64.

(** [slice.windows(2).any(p)]. *)
Fixpoint windows_any {A} (p : A → A → bool) (l : list A) : bool :=
  match l with
  | x :: (y :: _) as rest => p x y || windows_any p rest
  | _ => false
  end.

(** [a >= b] on [str]. *)
Definition string_ge (a b : string) : bool := bool_decide (string_le b a).

(** [kind.is_empty() || kind.len() > MAX_TASK_KIND_BYTES]. *)
Definition bad_kind (kind : string) : bool := negb (sized MAX_TASK_KIND_BYTES kind).

(** [validate_capability_snapshot]; [ProbeProtocol] has the numbers 0 to 4. *)
Definition validate_capability_snapshot (s : AgentCapabilitySnapshot) : result string unit :=
  if bool_decide (cap_revision s = 0) then Err "Agent capability revision must be greater than zero"
  else if negb (sized MAX_AGENT_VERSION_BYTES (cap_agent_version s))
  then Err "Agent capability contains an invalid Agent version"
  else if bool_decide (cap_task_kinds s = []) || bool_decide (MAX_CAPABILITY_TASK_KINDS < length (cap_task_kinds s))%nat
  then Err "Agent capability contains an invalid Task kind count"
  else if existsb bad_kind (cap_task_kinds s) || windows_any string_ge (cap_task_kinds s)
  then Err "Agent capability Task kinds must be valid, sorted and unique"
  else if bool_decide (cap_probe_protocols s = [])
          || windows_any (λ a b, bool_decide (b ≤ a)) (cap_probe_protocols s)
          || existsb (λ p, negb (bool_decide (1 ≤ p ≤ 4))) (cap_probe_protocols s)
  then Err "Agent capability Probe protocols must be valid, sorted and unique"
  else Ok tt.

(** [validate_plugin_inventory]. *)
Definition bad_plugin (p : PluginInventoryEntry) : bool :=
  negb (sized MAX_PLUGIN_ID_BYTES (pie_plugin_id p)) || negb (sized MAX_PLUGIN_VERSION_BYTES (pie_version p))
  || bool_decide (length (pie_schema_hash p) ≠ 32%nat) || bool_decide (pie_schema_format_version p = 0)
  || bool_decide (pie_task_kinds p = []) || existsb bad_kind (pie_task_kinds p)
  || windows_any string_ge (pie_task_kinds p).

(** [(a.id, a.version) >= (b.id, b.version)]. *)
Definition plugin_ge (a b : PluginInventoryEntry) : bool :=
  if bool_decide (pie_plugin_id a = pie_plugin_id b) then string_ge (pie_version a) (pie_version b)
  else string_ge (pie_plugin_id a) (pie_plugin_id b).

Definition validate_plugin_inventory (s : AgentPluginInventory) : result string unit :=
  if bool_decide (inv_revision s = 0) || bool_decide (MAX_INSTALLED_PLUGINS < length (inv_plugins s))%nat
  then Err "Agent plugin inventory has an invalid revision or plugin count"
  else if existsb bad_plugin (inv_plugins s)
  then Err "Agent plugin inventory contains an invalid plugin entry"
  else if windows_any plugin_ge (inv_plugins s)
  then Err "Agent plugin inventory entries must be sorted and unique"
  else Ok tt.

(** [valid_digest] of [reconciliation.rs] and [validate_reconcile_summary]. *)
Definition valid_digest (bs : bytes) : bool := bool_decide (bs = []) || bool_decide (length bs = 32%nat).

Definition validate_reconcile_summary (s : AgentReconcileSummary) : result string unit :=
  if bool_decide (length (sum_instance_id s) ≠ 16%nat)
  then Err "Agent reconcile instance id must contain 16 bytes"
  else if negb (valid_digest (sum_catalog_digest s)) || negb (valid_digest (sum_runtime_digest s))
  then Err "Agent reconcile digest must be empty or 32 bytes"
  else if negb (eqb (bool_decide (sum_catalog_revision s = 0)) (bool_decide (sum_catalog_digest s = [])))
  then Err "catalog reconcile revision and digest do not match"
  else if negb (eqb (bool_decide (sum_runtime_revision s = 0)) (bool_decide (sum_runtime_digest s = [])))
  then Err "runtime reconcile revision and digest do not match"
  else Ok tt.

(** [validate_policy_snapshot]. *)
Definition validate_policy_snapshot (s : AgentJobPolicySnapshot) (current : option AgentJobPolicySnapshot) :
    result string unit :=
  if bool_decide (MAX_DENIED_TASK_KINDS < length (aps_denied_task_kinds s))%nat
  then Err "Agent Job policy contains too many Task kinds"
  else if existsb bad_kind (aps_denied_task_kinds s)
  then Err "Agent Job policy contains an invalid Task kind"
  else if windows_any string_ge (aps_denied_task_kinds s)
  then Err "Agent Job policy Task kinds must be sorted and unique"
  else match current with
  | None => Ok tt
  | Some current =>
      if bool_decide (aps_revision s < aps_revision current)
      then Err "Agent Job policy revision cannot move backwards"
      else if bool_decide (aps_revision s = aps_revision current) && negb (bool_decide (s = current))
      then Err "Agent Job policy content changed without a new revision"
      else Ok tt
  end.

(** ** Paused plugins *)

(** [PluginPauseRegistry], by Agent, plugin and version. *)
Definition PluginPauseRegistry : Type := gmap (string * string * string) PluginPauseNotice.

(** [PluginPauseRegistry::record]. *)
Definition pause_record (agent_id : string) (n : PluginPauseNotice) (r : PluginPauseRegistry) :
    result string unit * PluginPauseRegistry :=
  if bool_decide (agent_id = "") || bool_decide (ppn_plugin_id n = "") || bool_decide (ppn_plugin_version n = "")
     || bool_decide (ppn_runtime_revision n = 0) || bool_decide (ppn_failure_count n = 0)
  then (Err "invalid Plus plugin pause notice", r)
  else (Ok tt, <[(agent_id, ppn_plugin_id n, ppn_plugin_version n) := n]> r).

(** [acknowledge_new_runtime]: the loop over the plugins of the snapshot. *)
Definition clear_pause (agent_id : string) (revision : Z) (r : PluginPauseRegistry) (p : PluginRuntimeConfig) :
    PluginPauseRegistry :=
  match r !! (agent_id, prc_plugin_id p, prc_version p) with
  | Some n =>
      if bool_decide (ppn_runtime_revision n < revision)
      then delete (agent_id, prc_plugin_id p, prc_version p) r else r
  | None => r
  end.

Definition acknowledge_new_runtime (agent_id : string) (s : PluginRuntimeSnapshot) (r : PluginPauseRegistry) :
    PluginPauseRegistry := foldl (clear_pause agent_id (prs_revision s)) r (prs_plugins s).

(** [is_paused]. *)
Definition is_paused (agent_id plugin_id version : string) (r : PluginPauseRegistry) : bool :=
  bool_decide (is_Some (r !! (agent_id, plugin_id, version))).

(** The plugin of a job, if its task is one. *)
Definition job_plugin (job : JobDefinition) : option (string * string) := jd_task job ≫= task_plugin.

(** [filter_catalog]. *)
Definition not_paused (agent_id : string) (r : PluginPauseRegistry) (job : JobDefinition) : bool :=
  match job_plugin job with
  | Some (id, version) => negb (is_paused agent_id id version r)
  | None => true
  end.

Definition filter_catalog (agent_id : string) (r : PluginPauseRegistry) (catalog : ReplaceAllJobs) : ReplaceAllJobs :=
  mkReplaceAllJobs (ra_catalog_revision catalog)
    (filter (λ job, not_paused agent_id r job = true) (ra_jobs catalog)).

(** [filter_catalog_for_runtime]. *)
Definition configured (runtime : PluginRuntimeSnapshot) (id version : string) : bool :=
  existsb (λ p, bool_decide (prc_plugin_id p = id) && bool_decide (prc_version p = version)) (prs_plugins runtime).

Definition runs_on (runtime : PluginRuntimeSnapshot) (job : JobDefinition) : bool :=
  match job_plugin job with
  | Some (id, version) => configured runtime id version
  | None => true
  end.

Definition filter_catalog_for_runtime (catalog : ReplaceAllJobs) (runtime : PluginRuntimeSnapshot) : ReplaceAllJobs :=
  mkReplaceAllJobs (ra_catalog_revision catalog)
    (filter (λ job, runs_on runtime job = true) (ra_jobs catalog)).

(** ** [runtime_digest] of [reconciliation.rs] *)

Class RuntimeEncoding : Type := encode_runtime : PluginRuntimeSnapshot → bytes.

(** The order of [(&plugin_id, &version)]. *)
Definition runtime_config_le (a b : PluginRuntimeConfig) : Prop :=
  if bool_decide (prc_plugin_id a = prc_plugin_id b) then string_le (prc_version a) (prc_version b)
  else string_le (prc_plugin_id a) (prc_plugin_id b).
#[global] Instance runtime_config_le_dec : RelDecision runtime_config_le.
Proof. intros a b. unfold runtime_config_le. destruct (bool_decide _); apply _. Defined.

Definition runtime_digest `{RuntimeEncoding} `{Blake2s} (s : PluginRuntimeSnapshot) : bytes :=
  blake2s (encode_runtime (mkRuntimeSnapshot (prs_revision s) (merge_sort runtime_config_le (prs_plugins s)))).

(** ** The session *)

(** The variables of [run_business_session]. *)
Record SessionVars : Type := mkVars {
  sv_accepted_policy : option AgentJobPolicySnapshot;
  sv_accepted_capability : option AgentCapabilitySnapshot;
  sv_sent_plugin_runtime : option PluginRuntimeSnapshot;
  sv_plugin_runtime_ready : bool;
  sv_accepted_plugin_inventory : option AgentPluginInventory;
  sv_pending_schema_hashes : list bytes;
  sv_last_sent_catalog : option ReplaceAllJobs;
  sv_reconcile_summary : option AgentReconcileSummary;
  sv_force_reconcile : bool;
  sv_resync_requested_revision : option Z;
}.

Definition vars_new : SessionVars := mkVars None None None false None [] None None true None.

Definition set_policy v (s : SessionVars) := mkVars v (sv_accepted_capability s) (sv_sent_plugin_runtime s)
  (sv_plugin_runtime_ready s) (sv_accepted_plugin_inventory s) (sv_pending_schema_hashes s) (sv_last_sent_catalog s)
  (sv_reconcile_summary s) (sv_force_reconcile s) (sv_resync_requested_revision s).
Definition set_capability v (s : SessionVars) := mkVars (sv_accepted_policy s) v (sv_sent_plugin_runtime s)
  (sv_plugin_runtime_ready s) (sv_accepted_plugin_inventory s) (sv_pending_schema_hashes s) (sv_last_sent_catalog s)
  (sv_reconcile_summary s) (sv_force_reconcile s) (sv_resync_requested_revision s).
Definition set_runtime r ready (s : SessionVars) := mkVars (sv_accepted_policy s) (sv_accepted_capability s) r ready
  (sv_accepted_plugin_inventory s) (sv_pending_schema_hashes s) (sv_last_sent_catalog s)
  (sv_reconcile_summary s) (sv_force_reconcile s) (sv_resync_requested_revision s).
Definition set_inventory v (s : SessionVars) := mkVars (sv_accepted_policy s) (sv_accepted_capability s)
  (sv_sent_plugin_runtime s) (sv_plugin_runtime_ready s) v (sv_pending_schema_hashes s) (sv_last_sent_catalog s)
  (sv_reconcile_summary s) (sv_force_reconcile s) (sv_resync_requested_revision s).
Definition set_pending_hashes v (s : SessionVars) := mkVars (sv_accepted_policy s) (sv_accepted_capability s)
  (sv_sent_plugin_runtime s) (sv_plugin_runtime_ready s) (sv_accepted_plugin_inventory s) v (sv_last_sent_catalog s)
  (sv_reconcile_summary s) (sv_force_reconcile s) (sv_resync_requested_revision s).
Definition set_last_sent v (s : SessionVars) := mkVars (sv_accepted_policy s) (sv_accepted_capability s)
  (sv_sent_plugin_runtime s) (sv_plugin_runtime_ready s) (sv_accepted_plugin_inventory s) (sv_pending_schema_hashes s) v
  (sv_reconcile_summary s) (sv_force_reconcile s) (sv_resync_requested_revision s).
Definition set_summary v (s : SessionVars) := mkVars (sv_accepted_policy s) (sv_accepted_capability s)
  (sv_sent_plugin_runtime s) (sv_plugin_runtime_ready s) (sv_accepted_plugin_inventory s) (sv_pending_schema_hashes s)
  (sv_last_sent_catalog s) v (sv_force_reconcile s) (sv_resync_requested_revision s).
Definition set_force v (s : SessionVars) := mkVars (sv_accepted_policy s) (sv_accepted_capability s)
  (sv_sent_plugin_runtime s) (sv_plugin_runtime_ready s) (sv_accepted_plugin_inventory s) (sv_pending_schema_hashes s)
  (sv_last_sent_catalog s) (sv_reconcile_summary s) v (sv_resync_requested_revision s).
Definition set_resync v (s : SessionVars) := mkVars (sv_accepted_policy s) (sv_accepted_capability s)
  (sv_sent_plugin_runtime s) (sv_plugin_runtime_ready s) (sv_accepted_plugin_inventory s) (sv_pending_schema_hashes s)
  (sv_last_sent_catalog s) (sv_reconcile_summary s) (sv_force_reconcile s) v.

(** The session with what it shares with others: the tables, the stored events, the
    paused plugins and the process instances seen; [sw_sent] are the messages that
    went out on this session. *)
Record SessionWorld : Type := mkWorld {
  sw_vars : SessionVars;
  sw_tables : JobTables;
  sw_events : list EventRow;
  sw_pauses : PluginPauseRegistry;
  sw_instances : gmap string bytes;
  sw_sent : list ServerMessage;
}.

(** What the rest of the Server answers in one turn: the clock, a random UUID, the
    runtime provider, the schema registry, the database writes that are not modelled,
    whether a catalog can be read, the outcome of the [n]-th send, and what other
    sessions and web requests have committed to the tables before the turn. *)
Record Answers : Type := mkAnswers {
  an_clock : option Z;
  an_now : Z;
  an_uuid : bytes;
  an_runtime : result string PluginRuntimeSnapshot;
  an_missing_schemas : result string (list bytes);
  an_store_schema : result string unit;
  an_save : result string unit;
  an_catalog : result string unit;
  an_send : nat → result TransportError unit;
  an_others : JobTables → JobTables;
}.

Section Session.
Context `{D : DefinitionCodec} `{W : WebCodecs} `{E : CatalogEncoding} `{RE : RuntimeEncoding} `{B2 : Blake2s}.
Context (encode_event : JobEvent → bytes) (db_error_text : JobDbError → string).
Context (agent_id : string).

Abbreviation SE A := (ST SessionWorld (result TransportError A)) (only parsing).

Definition modify_vars (f : SessionVars → SessionVars) : ST SessionWorld unit :=
  st_modify (λ w, mkWorld (f (sw_vars w)) (sw_tables w) (sw_events w) (sw_pauses w) (sw_instances w) (sw_sent w)).
Definition modify_pauses (f : PluginPauseRegistry → PluginPauseRegistry) : ST SessionWorld unit :=
  st_modify (λ w, mkWorld (sw_vars w) (sw_tables w) (sw_events w) (f (sw_pauses w)) (sw_instances w) (sw_sent w)).

(** [session.send_*(message).await?]. *)
Definition send_message (ans : Answers) (m : ServerMessage) : SE unit := λ w,
  match an_send ans (length (sw_sent w)) with
  | Ok _ => Some (Ok tt, mkWorld (sw_vars w) (sw_tables w) (sw_events w) (sw_pauses w) (sw_instances w) (sw_sent w ++ [m]))
  | Err e => Some (Err e, w)
  end.

(** A database operation on the job tables. *)
Definition on_tables {A} (m : ST JobTables (result JobDbError A)) : ST SessionWorld (result JobDbError A) := λ w,
  match m (sw_tables w) with
  | Some (r, t) => Some (r, mkWorld (sw_vars w) t (sw_events w) (sw_pauses w) (sw_instances w) (sw_sent w))
  | None => None
  end.

(** Recording a command and sending it. *)
Definition issue_command (ans : Answers) (catalog : ReplaceAllJobs) : SE unit :=
  let command := mkJobCommand (an_uuid ans) (Some (ActReplaceAll catalog)) in
  r ← on_tables (record_job_command (an_clock ans) agent_id command);
  _ ?← mret (map_err (λ e, TProtocol (db_error_text e)) r);
  _ ?← send_message ans (MsgCommand command);
  modify_vars (set_last_sent (Some catalog)) ;;
  mret (Ok tt).

(** [load_catalog] of the database provider. *)
Definition load_catalog (ans : Answers) (policy : AgentJobPolicySnapshot) (capability : AgentCapabilitySnapshot)
    (inventory : AgentPluginInventory) (t : JobTables) : result string (option ReplaceAllJobs) :=
  match an_catalog ans with
  | Err error => Err error
  | Ok _ =>
      fmap (M := option) rec_catalog <$>
        map_err db_error_text
          (load_agent_job_catalog_for_session agent_id policy (cap_task_kinds capability)
             (inv_plugins inventory ≫= pie_task_kinds) t)
  end.

(** [send_job_catalog]. *)
Definition send_job_catalog (ans : Answers) (policy : AgentJobPolicySnapshot)
    (capability : AgentCapabilitySnapshot) (inventory : AgentPluginInventory) (runtime : PluginRuntimeSnapshot)
    (reconcile : option AgentReconcileSummary) (force : bool) : SE bool :=
  w ← st_get;
  match load_catalog ans policy capability inventory (sw_tables w) with
  | Err _ | Ok None => mret (Ok false)
  | Ok (Some catalog) =>
      let catalog := filter_catalog agent_id (sw_pauses w) catalog in
      let catalog := filter_catalog_for_runtime catalog runtime in
      let digest := catalog_digest catalog in
      if negb force && bool_decide (sv_last_sent_catalog (sw_vars w) = Some catalog) then mret (Ok false)
      else if negb force
              && match reconcile with
                 | Some summary =>
                     bool_decide (sum_catalog_revision summary = ra_catalog_revision catalog)
                     && bool_decide (sum_catalog_digest summary = digest)
                 | None => false
                 end
      then modify_vars (set_last_sent (Some catalog)) ;; mret (Ok false)
      else _ ?← issue_command ans catalog; mret (Ok true)
  end.

(** [send_plugin_runtime_snapshot]. *)
Definition send_plugin_runtime_snapshot (ans : Answers) (reconcile : option AgentReconcileSummary) (force : bool) :
    SE unit :=
  match an_runtime ans with
  | Err _ => mret (Ok tt)
  | Ok snapshot =>
      modify_pauses (acknowledge_new_runtime agent_id snapshot) ;;
      let already_synchronized :=
        match reconcile with
        | Some summary =>
            negb force && bool_decide (sum_runtime_revision summary = prs_revision snapshot)
            && bool_decide (sum_runtime_digest summary = runtime_digest snapshot)
        | None => false
        end in
      modify_vars (set_runtime (Some snapshot) already_synchronized) ;;
      if already_synchronized then mret (Ok tt) else send_message ans (MsgRuntime snapshot)
  end.

(** [send_job_catalog] for the profile the session holds, when it is complete and the
    runtime is ready; the [expect] on the runtime is a panic. *)
Definition send_if_ready (ans : Answers) (done : ST SessionWorld unit) : SE unit :=
  w ← st_get;
  let v := sw_vars w in
  match sv_plugin_runtime_ready v, sv_accepted_policy v, sv_accepted_capability v, sv_accepted_plugin_inventory v with
  | true, Some policy, Some capability, Some inventory =>
      runtime ← st_expect (sv_sent_plugin_runtime v);
      _ ?← send_job_catalog ans policy capability inventory runtime (sv_reconcile_summary v) (sv_force_reconcile v);
      done ;; mret (Ok tt)
  | _, _, _, _ => mret (Ok tt)
  end.

Definition no_change : ST SessionWorld unit := mret tt.
Definition converged : ST SessionWorld unit := modify_vars (set_force false).

(** *** The branches of the loop *)

(** [catalog_changes.changed()]. *)
Definition on_catalog_changed (ans : Answers) : SE unit :=
  modify_vars (set_resync None) ;; send_if_ready ans converged.

(** [runtime_changes.changed()]. *)
Definition on_runtime_changed (ans : Answers) : SE unit :=
  w ← st_get;
  match sv_accepted_plugin_inventory (sw_vars w) with
  | None => mret (Ok tt)
  | Some _ =>
      modify_vars (set_runtime None false) ;;
      send_plugin_runtime_snapshot ans (sv_reconcile_summary (sw_vars w)) (sv_force_reconcile (sw_vars w))
  end.

(** [SessionEvent::AgentJobPolicy]: a snapshot that is not older than the accepted one. *)
Definition accept_policy (ans : Answers) (snapshot : AgentJobPolicySnapshot) : SE unit :=
  w ← st_get;
  let current := sv_accepted_policy (sw_vars w) in
  match validate_policy_snapshot snapshot current with
  | Err reason => send_message ans (MsgInvalid reason)
  | Ok _ =>
      let unchanged := bool_decide (current = Some snapshot) in
      modify_vars (set_policy (Some snapshot)) ;;
      (if unchanged then mret tt else modify_vars (set_summary None)) ;;
      _ ?← send_message ans (MsgPolicyAck (aps_revision snapshot));
      if unchanged then mret (Ok tt) else send_if_ready ans no_change
  end.

Definition on_policy (ans : Answers) (body : option AgentJobPolicySnapshot) : SE unit :=
  w ← st_get;
  match body with
  | None => send_message ans (MsgInvalid "Server requires an Agent Job policy snapshot")
  | Some snapshot =>
      match sv_accepted_policy (sw_vars w) with
      | Some current =>
          if bool_decide (aps_revision snapshot < aps_revision current)
          then send_message ans (MsgPolicyAck (aps_revision current))
          else accept_policy ans snapshot
      | None => accept_policy ans snapshot
      end
  end.

(** [observe_reconcile_instance] of [session_registry.rs] and
    [SessionEvent::ReconcileSummary]. *)
Definition observe_reconcile_instance (summary : AgentReconcileSummary) (instances : gmap string bytes) :
    bool * gmap string bytes :=
  (bool_decide (instances !! agent_id ≠ Some (sum_instance_id summary)),
   <[agent_id := sum_instance_id summary]> instances).

Definition on_summary (summary : AgentReconcileSummary) : SE unit :=
  match validate_reconcile_summary summary with
  | Err _ => modify_vars (set_summary None) ;; mret (Ok tt)
  | Ok _ =>
      w ← st_get;
      let '(new_instance, instances) := observe_reconcile_instance summary (sw_instances w) in
      st_modify (λ w, mkWorld (sw_vars w) (sw_tables w) (sw_events w) (sw_pauses w) instances (sw_sent w)) ;;
      modify_vars (λ v, set_summary (Some summary) (set_force new_instance v)) ;;
      mret (Ok tt)
  end.

(** [SessionEvent::AgentCapability]. *)
Definition on_capability (ans : Answers) (body : option AgentCapabilitySnapshot) : SE unit :=
  match body with
  | None => send_message ans (MsgInvalid "Server requires an Agent capability snapshot")
  | Some snapshot =>
      match validate_capability_snapshot snapshot with
      | Err reason => send_message ans (MsgInvalid reason)
      | Ok _ =>
          _ ?← mret (map_err (λ _, TProtocol "failed to persist Agent capability snapshot") (an_save ans));
          modify_vars (set_capability (Some snapshot)) ;;
          send_if_ready ans no_change
      end
  end.

(** The current summary and force flag given to [send_plugin_runtime_snapshot]. *)
Definition send_runtime (ans : Answers) : SE unit :=
  w ← st_get;
  send_plugin_runtime_snapshot ans (sv_reconcile_summary (sw_vars w)) (sv_force_reconcile (sw_vars w)).

(** [Body::Inventory]. *)
Definition on_inventory (ans : Answers) (inventory : AgentPluginInventory) : SE unit :=
  match validate_plugin_inventory inventory with
  | Err reason => send_message ans (MsgInvalid reason)
  | Ok _ =>
      modify_vars (set_inventory (Some inventory)) ;;
      _ ?← mret (map_err (λ _, TProtocol "failed to persist Agent plugin inventory") (an_save ans));
      match an_missing_schemas ans with
      | Err _ => send_message ans (MsgInvalid "Agent plugin Schema inventory is invalid")
      | Ok missing =>
          modify_vars (λ v, set_runtime None false (set_pending_hashes missing v)) ;;
          match missing with
          | [] => _ ?← send_runtime ans; send_if_ready ans converged
          | _ => send_message ans (MsgSchemaQuery missing)
          end
      end
  end.

(** [Vec::swap_remove]. *)
Definition swap_remove {A} (i : nat) (l : list A) : list A :=
  match last l with
  | Some x => take (length l - 1) (<[i := x]> l)
  | None => l
  end.

(** [Body::SchemaResponse]. *)
Definition on_schema_response (ans : Answers) (schema_hash : bytes) : SE unit :=
  w ← st_get;
  match sv_accepted_plugin_inventory (sw_vars w) with
  | None => send_message ans (MsgInvalid "Agent plugin Schema response arrived before inventory")
  | Some _ =>
      match list_find (λ hash, hash = schema_hash) (sv_pending_schema_hashes (sw_vars w)) with
      | None => send_message ans (MsgInvalid "Agent plugin Schema response was not requested")
      | Some (index, _) =>
          match an_store_schema ans with
          | Err _ => send_message ans (MsgInvalid "Agent plugin Schema response is invalid")
          | Ok _ =>
              let remaining := swap_remove index (sv_pending_schema_hashes (sw_vars w)) in
              modify_vars (set_pending_hashes remaining) ;;
              match remaining with [] => send_runtime ans | _ => mret (Ok tt) end
          end
      end
  end.

(** [Body::Acknowledgement]. *)
Definition on_acknowledgement (ans : Answers) (revision : Z) (accepted : bool) : SE unit :=
  w ← st_get;
  match sv_sent_plugin_runtime (sw_vars w) with
  | None => send_message ans (MsgInvalid "Agent plugin acknowledgement arrived before runtime snapshot")
  | Some sent =>
      if bool_decide (revision ≠ prs_revision sent)
      then send_message ans (MsgInvalid "Agent plugin acknowledgement has an unexpected revision")
      else if negb accepted then mret (Ok tt)
      else
        modify_vars (set_runtime (Some sent) true) ;;
        send_if_ready ans converged
  end.

(** [Body::PauseNotice]. *)
Definition on_pause_notice (ans : Answers) (notice : PluginPauseNotice) : SE unit :=
  let ack accepted error :=
    MsgPauseAck (mkPauseAck (ppn_plugin_id notice) (ppn_plugin_version notice) (ppn_runtime_revision notice)
      accepted error) in
  w ← st_get;
  let valid_runtime :=
    match sv_sent_plugin_runtime (sw_vars w) with
    | Some snapshot =>
        bool_decide (prs_revision snapshot = ppn_runtime_revision notice)
        && configured snapshot (ppn_plugin_id notice) (ppn_plugin_version notice)
    | None => false
    end in
  if negb valid_runtime
  then send_message ans (ack false (Some "pause notice does not match the active runtime snapshot"))
  else
    let '(r, pauses) := pause_record agent_id notice (sw_pauses w) in
    modify_pauses (λ _, pauses) ;;
    match r with
    | Err error => send_message ans (ack false (Some error))
    | Ok _ =>
        _ ?← match sv_last_sent_catalog (sw_vars w) with
             | Some catalog => issue_command ans (filter_catalog agent_id pauses catalog)
             | None => mret (Ok tt)
             end;
        send_message ans (ack true None)
    end.

(** [SessionEvent::AgentPlugin]. *)
Definition on_plugin (ans : Answers) (message : PluginMessage) : SE unit :=
  match message with
  | PluginInventory inventory => on_inventory ans inventory
  | PluginSchemaResponse schema_hash _ => on_schema_response ans schema_hash
  | PluginAcknowledgement revision accepted => on_acknowledgement ans revision accepted
  | PluginPause notice => on_pause_notice ans notice
  | PluginPauseAcknowledgement => send_message ans (MsgInvalid "Server does not accept a Plus pause acknowledgement")
  | PluginOther =>
      send_message ans (MsgInvalid
        "Server requires an Agent plugin inventory, Schema response, acknowledgement or pause notice")
  end.

(** [SessionEvent::JobCommandResult]. *)
Definition on_command_result (ans : Answers) (result : WireResult) : SE unit :=
  _ ← on_tables (complete_job_command (an_clock ans) agent_id result);
  w ← st_get;
  let v := sw_vars w in
  if bool_decide (wr_status result = 1) then modify_vars (set_resync None) ;; mret (Ok tt)
  else if bool_decide (wr_status result = 3)
          && negb (bool_decide (sv_resync_requested_revision v = Some (wr_catalog_revision result)))
  then
    match sv_plugin_runtime_ready v, sv_accepted_policy v, sv_accepted_capability v,
          sv_accepted_plugin_inventory v, sv_sent_plugin_runtime v with
    | true, Some policy, Some capability, Some inventory, Some runtime =>
        sent ?← send_job_catalog ans policy capability inventory runtime (sv_reconcile_summary v) true;
        (if sent : bool then modify_vars (set_resync (Some (wr_catalog_revision result))) else mret tt) ;;
        mret (Ok tt)
    | _, _, _, _, _ => mret (Ok tt)
    end
  else mret (Ok tt).

(** [SessionEvent::JobEvent]. *)
Definition on_job_event (ans : Answers) (event : JobEvent) : SE unit := λ w,
  let '(r, rows) := handle_job_event encode_event (sw_tables w) agent_id event (an_now ans) (sw_events w) in
  Some (r, mkWorld (sw_vars w) (sw_tables w) rows (sw_pauses w) (sw_instances w) (sw_sent w)).

(** What others have committed. *)
Definition others_commit (ans : Answers) : ST SessionWorld unit :=
  st_modify (λ w, mkWorld (sw_vars w) (an_others ans (sw_tables w)) (sw_events w) (sw_pauses w) (sw_instances w)
                    (sw_sent w)).

(** A turn of the loop; an error ends the session. *)
Definition handle_session_event (ans : Answers) (event : SessionEvent) : SE unit :=
  match event with
  | CatalogChanged => on_catalog_changed ans
  | RuntimeChanged => on_runtime_changed ans
  | EvPolicy body => on_policy ans body
  | EvSummary summary => on_summary summary
  | EvCapability body => on_capability ans body
  | EvPlugin message => on_plugin ans message
  | EvCommandResult result => on_command_result ans result
  | EvTaskReport => mret (map_err (λ _, TProtocol "failed to persist Agent Task report") (an_save ans))
  | EvJobEvent event => on_job_event ans event
  | EvOther => send_message ans (MsgInvalid "unexpected Agent business message")
  end.

Definition session_turn (ans : Answers) (event : SessionEvent) : SE unit :=
  others_commit ans ;; handle_session_event ans event.

(** [run_business_session]: the two queries, then the turns until the Agent is gone or
    one fails; [registered] tells whether the session registry knows the session. *)
Fixpoint session_turns (events : list (Answers * SessionEvent)) : SE unit :=
  match events with
  | [] => mret (Ok tt)
  | (ans, event) :: events => _ ?← session_turn ans event; session_turns events
  end.

Definition run_business_session (ans : Answers) (registered : bool) (events : list (Answers * SessionEvent)) :
    SE unit :=
  _ ?← send_message ans MsgPolicyQuery;
  _ ?← send_message ans MsgCapabilityQuery;
  modify_vars (λ _, vars_new) ;;
  if negb registered then mret (Err (TProtocol "Agent Session is not registered")) else session_turns events.

End Session.
