(* ===== verification/SessionDemo.v ===== *)
(** * A session to evaluate

    An Agent with one plugin, whose catalog has a job for the load of the machine and
    a job of the plugin: its profile, the answers of the Server and the turns. *)

From stdpp Require Import base gmap strings list sorting.
From S2P Require Import Prelude Rotation Credential AgentState SchedModel Actor Proto Catalog JobEvents Policy Compiler RemoteJobs RemoteTheorems WebOps WebLife Session.

(** A hash with digests of 32 bytes. *)
Definition demo_hash32 : Blake2s := λ bs, take 32 (bs ++ replicate 32 0).
#[export] Existing Instance demo_hash32 | 0.

Definition demo_runtime_encoding : RuntimeEncoding := λ s, [prs_revision s; Z.of_nat (length (prs_plugins s))].
#[export] Existing Instance demo_runtime_encoding.

Definition demo_plugin_job : JobDefinition := demo_job 9 1 (Task_Plugin (mkPluginTaskConfig "plug" "1" "plug.ping" 1 [])).
Definition demo_session_jobs : list JobDefinition := [demo_job 7 1 (Task_Load []); demo_plugin_job].
Definition demo_session_tables : JobTables := replace_state demo_session_jobs (Some 0) demo_tables.
Definition demo_session_catalog : ReplaceAllJobs := mkReplaceAllJobs 1 demo_session_jobs.

Definition demo_capability : AgentCapabilitySnapshot := mkCapability 1 "1.0" ["smalux.collect.load.v1"] [1].
Definition demo_inventory : AgentPluginInventory :=
  mkInventory 1 [mkInventoryEntry "plug" "1" ["plug.ping"] (replicate 32 5) 1].
Definition demo_runtime_snapshot : PluginRuntimeSnapshot := mkRuntimeSnapshot 4 [mkRuntimeConfig "plug" "1" 1 [] 1].
Definition demo_notice : PluginPauseNotice := mkPauseNotice "plug" "1" 4 3 0 10 "exit" "crash".
Definition demo_summary : AgentReconcileSummary :=
  mkSummary (replicate 16 8) 1 (catalog_digest demo_session_catalog) 4 (runtime_digest demo_runtime_snapshot).

(** The Server answers with command id [n]. *)
Definition demo_answers (n : Z) : Answers :=
  mkAnswers (Some 500) 500 (uuid_bytes n) (Ok demo_runtime_snapshot) (Ok []) (Ok tt) (Ok tt) (Ok tt) (λ _, Ok tt) id.

Definition demo_turns (events : list SessionEvent) : list (Answers * SessionEvent) :=
  imap (λ i event, (demo_answers (100 + Z.of_nat i), event)) events.

Definition demo_session_world : SessionWorld := mkWorld vars_new demo_session_tables [] ∅ ∅ [].

Definition demo_db_error (e : JobDbError) : string := "database error".

Definition demo_session (events : list SessionEvent) : option (result TransportError unit * SessionWorld) :=
  run_business_session demo_payload demo_db_error "agent-a" (demo_answers 99) true (demo_turns events) demo_session_world.
Definition demo_session_end (events : list SessionEvent) : SessionWorld :=
  match demo_session events with Some (_, w) => w | None => demo_session_world end.

(** The profile, then the acknowledgement of the runtime, then a pause. *)
Definition demo_profile : list SessionEvent :=
  [EvPolicy (Some allow_all); EvCapability (Some demo_capability); EvPlugin (PluginInventory demo_inventory)].
Definition demo_conversation : list SessionEvent :=
  demo_profile ++ [EvPlugin (PluginAcknowledgement 4 true); EvPlugin (PluginPause demo_notice)].

(** The session sends both jobs after the acknowledgement, and only the first after the pause. *)
Example demo_session_messages :
  sw_sent (demo_session_end demo_conversation) =
  [MsgPolicyQuery; MsgCapabilityQuery; MsgPolicyAck 0; MsgRuntime demo_runtime_snapshot;
   MsgCommand (mkJobCommand (uuid_bytes 103) (Some (ActReplaceAll demo_session_catalog)));
   MsgCommand (mkJobCommand (uuid_bytes 104) (Some (ActReplaceAll (mkReplaceAllJobs 1 [demo_job 7 1 (Task_Load [])]))));
   MsgPauseAck (mkPauseAck "plug" "1" 4 true None)].
Proof. vm_compute. reflexivity. Qed.

Lemma demo_session_eq :
  run_business_session demo_payload demo_db_error "agent-a" (demo_answers 99) true (demo_turns demo_conversation)
    demo_session_world = Some (Ok tt, demo_session_end demo_conversation).
Proof. vm_compute. reflexivity. Qed.

Lemma demo_turns_kept events : Forall (λ x : Answers * SessionEvent, ∀ t, kept t (an_others x.1 t)) (demo_turns events).
Proof.
  unfold demo_turns. apply Forall_forall. intros x (i & ? & -> & _)%elem_of_lookup_imap. apply kept_refl.
Qed.
