(* ===== verification/SessionTheorems.v ===== *)
(** * What a business session guarantees

    The loop never panics, sends no job before its worker is ready and none of a
    paused plugin, records every command before sending it, does not answer repeated
    resynchronisation requests with repeated snapshots, and accepts every policy an
    Agent can have.  And one defect: the reconcile summary is lost. *)

From stdpp Require Import base gmap strings list sorting relations.
From S2P Require Import Prelude StLogic Rotation Credential AgentState SchedModel Actor Proto Catalog JobEvents Policy Compiler RemoteJobs RemoteTheorems WebOps WebLife Session SessionDemo.

(** ** No panic *)

Section Safe.
Context `{D : DefinitionCodec} `{W : WebCodecs} `{E : CatalogEncoding} `{RE : RuntimeEncoding} `{B2 : Blake2s}.
Context (encode_event : JobEvent → bytes) (db_error_text : JobDbError → string) (agent_id : string).

(** A runtime that is ready has been loaded. *)
Definition runtime_known (w : SessionWorld) : Prop :=
  sv_plugin_runtime_ready (sw_vars w) = true → is_Some (sv_sent_plugin_runtime (sw_vars w)).

(** From a world with a known runtime the code returns, to such a world. *)
Definition safe {A} (m : ST SessionWorld A) : Prop :=
  ∀ w, runtime_known w → yields m w (λ _ w', runtime_known w').

Lemma safe_ret {A} (a : A) : safe (mret a).
Proof. intros w Hw. by apply yields_ret. Qed.

Lemma safe_bind {A B} (m : ST SessionWorld A) (f : A → ST SessionWorld B) :
  safe m → (∀ a, safe (f a)) → safe (m ≫= f).
Proof.
  intros Hm Hf w Hw. apply yields_bind. eapply yields_mono; [by apply Hm|]. intros a w' Hw'. by apply Hf.
Qed.

Lemma safe_get {B} (f : SessionWorld → ST SessionWorld B) :
  (∀ w, runtime_known w → yields (f w) w (λ _ w', runtime_known w')) → safe (st_get ≫= f).
Proof. intros Hf w Hw. destruct (Hf w Hw) as (b & w' & Hs & ?). exists b, w'. split; [|done]. done. Qed.

Lemma safe_get_const {B} (f : SessionWorld → ST SessionWorld B) : (∀ w, safe (f w)) → safe (st_get ≫= f).
Proof. intros Hf. apply safe_get. intros w Hw. by apply Hf. Qed.

Lemma safe_try {T A B} (m : ST SessionWorld (result T A)) (k : A → ST SessionWorld (result T B)) :
  safe m → (∀ a, safe (k a)) → safe (st_try m k).
Proof. intros Hm Hk. apply safe_bind; [done|]. intros [a|e]; [done|apply safe_ret]. Qed.

Lemma safe_modify f : (∀ w, runtime_known w → runtime_known (f w)) → safe (st_modify f).
Proof. intros Hf w Hw. apply yields_modify. by apply Hf. Qed.

Lemma safe_send ans m : safe (send_message ans m).
Proof.
  intros w Hw. unfold yields, send_message. destruct (an_send ans _) as [[]|e]; eexists _, _; (split; [reflexivity|done]).
Qed.

Lemma safe_on_tables {A} (m : ST JobTables (result JobDbError A)) :
  (∀ t, is_Some (m t)) → safe (on_tables m).
Proof.
  intros Hm w Hw. destruct (Hm (sw_tables w)) as [[r t] Ht]. unfold on_tables.
  eexists r, _. rewrite Ht. split; [done|]. exact Hw.
Qed.

Lemma total_bind {S A B} (m : ST S A) (f : A → ST S B) :
  (∀ s, is_Some (m s)) → (∀ a s, is_Some (f a s)) → ∀ s, is_Some ((m ≫= f) s).
Proof.
  intros Hm Hf s. destruct (Hm s) as [[a s'] Ha]. destruct (Hf a s') as [[b s''] Hr]. exists (b, s'').
  apply st_bind_Some. eauto.
Qed.

Lemma total_try {S T A B} (m : ST S (result T A)) (k : A → ST S (result T B)) :
  (∀ s, is_Some (m s)) → (∀ a s, is_Some (k a s)) → ∀ s, is_Some (st_try m k s).
Proof. intros Hm Hk. apply total_bind; [done|]. intros [a|e] s; [done|by eexists]. Qed.

Ltac total := repeat (cbv beta zeta;
  match goal with
  | |- is_Some (st_try _ _ _) => apply total_try; [intros ?|intros ? ?]
  | |- is_Some ((_ ≫= _) _) => apply total_bind; [intros ?|intros ? ?]
  | |- is_Some (match ?x with _ => _ end _) => destruct x
  | |- is_Some _ => by eexists
  end).

Lemma record_total clock command t : is_Some (record_job_command clock agent_id command t).
Proof. unfold record_job_command. total. Qed.

Lemma complete_total clock result t : is_Some (complete_job_command clock agent_id result t).
Proof. unfold complete_job_command. total. Qed.

Lemma safe_modify_pauses f : safe (modify_pauses f).
Proof. by apply safe_modify. Qed.

Lemma safe_modify_vars f :
  (∀ v, (sv_plugin_runtime_ready v = true → is_Some (sv_sent_plugin_runtime v)) →
        sv_plugin_runtime_ready (f v) = true → is_Some (sv_sent_plugin_runtime (f v))) → safe (modify_vars f).
Proof. intros Hf. apply safe_modify. intros w Hw. exact (Hf (sw_vars w) Hw). Qed.

Lemma safe_issue ans catalog : safe (issue_command db_error_text agent_id ans catalog).
Proof.
  unfold issue_command. apply safe_bind; [apply safe_on_tables, record_total|]. intros r.
  apply safe_try; [apply safe_ret|]. intros _. apply safe_try; [apply safe_send|]. intros _.
  apply safe_bind; [by apply safe_modify_vars|]. intros _. apply safe_ret.
Qed.

End Safe.

Create HintDb safe.
#[export] Hint Resolve safe_ret safe_send safe_modify_pauses safe_issue : safe.
#[export] Hint Extern 1 (safe (modify_vars _)) => (apply safe_modify_vars; cbn; by auto) : safe.
#[export] Hint Extern 1 (safe (on_tables _)) => (apply safe_on_tables; intros; first [apply record_total|apply complete_total]) : safe.

Ltac safe1 :=
  first
    [ solve [eauto 2 with safe]
    | match goal with |- safe (_ ≫= _) => apply safe_get_const; intros ? end
    | match goal with |- safe (st_try _ _) => apply safe_try; [|intros ?] | |- safe (_ ≫= _) => apply safe_bind; [|intros ?] end
    | match goal with
      | |- safe (if ?b then _ else _) => destruct b
      | |- safe (match ?x with _ => _ end) => destruct x
      | |- safe (let '(_, _) := ?x in _) => destruct x
      end ].
Ltac safes := repeat (cbv beta zeta; safe1).

Section NoPanic.
Context `{D : DefinitionCodec} `{W : WebCodecs} `{E : CatalogEncoding} `{RE : RuntimeEncoding} `{B2 : Blake2s}.
Context (encode_event : JobEvent → bytes) (db_error_text : JobDbError → string) (agent_id : string).

Lemma safe_at {A} (m : ST SessionWorld A) w : runtime_known w → safe m → yields m w (λ _ w', runtime_known w').
Proof. intros Hw Hm. by apply Hm. Qed.

Lemma safe_catalog ans policy capability inventory runtime reconcile force :
  safe (send_job_catalog db_error_text agent_id ans policy capability inventory runtime reconcile force).
Proof. unfold send_job_catalog. apply safe_get_const. intros w. safes. Qed.

Lemma safe_runtime ans reconcile force : safe (send_plugin_runtime_snapshot agent_id ans reconcile force).
Proof. unfold send_plugin_runtime_snapshot. safes. Qed.

Lemma safe_if_ready ans done : safe done → safe (send_if_ready db_error_text agent_id ans done).
Proof.
  intros Hdone. unfold send_if_ready. apply safe_get. intros w Hw. cbv zeta.
  destruct (sv_plugin_runtime_ready (sw_vars w)) eqn:Hr; [|by apply safe_ret].
  destruct (sv_accepted_policy _); [|by apply safe_ret]. destruct (sv_accepted_capability _); [|by apply safe_ret].
  destruct (sv_accepted_plugin_inventory _); [|by apply safe_ret].
  destruct (Hw Hr) as [rt Hrt]. rewrite Hrt. revert w Hw Hr Hrt. intros w Hw Hr Hrt.
  apply yields_bind. exists rt, w. split; [done|].
  eapply safe_at; [done|]. apply safe_try; [apply safe_catalog|]. intros _. apply safe_bind; [done|].
  intros _. apply safe_ret.
Qed.

Lemma safe_converged : safe converged.
Proof. unfold converged. eauto with safe. Qed.
Lemma safe_no_change : safe no_change.
Proof. apply safe_ret. Qed.
Hint Resolve safe_catalog safe_runtime safe_if_ready safe_converged safe_no_change : safe.

Lemma safe_accept_policy ans s : safe (accept_policy db_error_text agent_id ans s).
Proof. unfold accept_policy. apply safe_get_const. intros w. safes. Qed.
Hint Resolve safe_accept_policy : safe.

Lemma safe_turn ans event : safe (session_turn encode_event db_error_text agent_id ans event).
Proof.
  apply safe_bind; [by apply safe_modify|intros _].
  destruct event as [| |body|summary|body|[inv|h b|rev acc|n| |]|result| |event|]; cbn;
    unfold on_catalog_changed, on_runtime_changed, on_policy, on_summary, on_capability, on_inventory, on_schema_response,
      send_runtime, on_acknowledgement, on_pause_notice, on_command_result; try solve [safes].
  - safes. by apply safe_modify.
  - intros w Hw. unfold yields, on_job_event.
    destruct (handle_job_event encode_event (sw_tables w) agent_id event (an_now ans) (sw_events w)) as [r rows].
    by eexists _, _.
Qed.

Lemma send_total ans m w : is_Some (send_message ans m w).
Proof. unfold send_message. destruct (an_send ans _); by eexists. Qed.

Lemma safe_turns events : safe (session_turns encode_event db_error_text agent_id events).
Proof.
  induction events as [|[ans event] events IH]; cbn; [apply safe_ret|].
  apply safe_try; [apply safe_turn|done].
Qed.

(** The session never panics.  Whatever the Agent sends, in whatever order, and
    whatever the providers, the database and the connection answer,
    [run_business_session] comes to its end with a value: none of the
    [expect]s "runtime acknowledged after snapshot" fires, because a runtime that is
    ready has always been loaded. *)
Theorem session_never_panics ans registered events w :
  ∃ r w', run_business_session encode_event db_error_text agent_id ans registered events w = Some (r, w').
Proof.
  enough (∀ w, is_Some (run_business_session encode_event db_error_text agent_id ans registered events w)) as Ht
    by (destruct (Ht w) as [[r w'] Hr]; eauto).
  unfold run_business_session. apply total_try; [apply send_total|]. intros _. apply total_try; [apply send_total|].
  intros _ w1. destruct registered; [|by eexists].
  destruct (safe_turns events (mkWorld vars_new (sw_tables w1) (sw_events w1) (sw_pauses w1) (sw_instances w1) (sw_sent w1)))
    as (r & w' & Hr & _); [intros [=]|]. by exists (r, w').
Qed.

End NoPanic.

(** ** Paused plugins *)

Section Pauses.
Context `{D : DefinitionCodec} `{W : WebCodecs} `{E : CatalogEncoding} `{RE : RuntimeEncoding} `{B2 : Blake2s}.
Context (encode_event : JobEvent → bytes) (db_error_text : JobDbError → string) (agent_id : string).
Implicit Types (w : SessionWorld).

(** No job of a paused plugin is in the commands sent after the first [n] messages. *)
Definition clean (n : nat) w : Prop :=
  ∀ command catalog, MsgCommand command ∈ drop n (sw_sent w) → jc_action command = Some (ActReplaceAll catalog) →
    Forall (λ job, not_paused agent_id (sw_pauses w) job = true) (ra_jobs catalog).

(** A pause was lifted: the runtime read this turn has the plugin, and is newer. *)
Definition lifted (ans : Answers) (key : string * string * string) (n : PluginPauseNotice) : Prop :=
  ∃ s, an_runtime ans = Ok s ∧ key.1.1 = agent_id ∧ configured s key.1.2 key.2 = true ∧
    ppn_runtime_revision n < prs_revision s.

Definition only_lifted (ans : Answers) (r r' : PluginPauseRegistry) : Prop :=
  ∀ key n, r !! key = Some n → r' !! key = Some n ∨ lifted ans key n.

(** What a turn does besides recording a pause. *)
Definition calm (ans : Answers) (n : nat) w w' : Prop :=
  ((n ≤ length (sw_sent w))%nat → (n ≤ length (sw_sent w'))%nat ∧ (clean n w → clean n w')) ∧
  sw_pauses w' ⊆ sw_pauses w ∧ only_lifted ans (sw_pauses w) (sw_pauses w').

#[local] Instance calm_preorder ans n : PreOrder (calm ans n).
Proof.
  split; [split; [done|split; [done|by left]]|].
  intros w1 w2 w3 (H1 & S1 & L1) (H2 & S2 & L2). split; [|split; [by etrans|]].
  - intros Hn. destruct (H1 Hn) as [Hn2 ?]. destruct (H2 Hn2). eauto.
  - intros key m Hk. destruct (L1 _ _ Hk) as [Hk2|?]; [by apply L2|by right].
Qed.

Lemma calm_same ans n w w' : sw_sent w' = sw_sent w → sw_pauses w' = sw_pauses w → calm ans n w w'.
Proof. unfold calm, clean, only_lifted. intros -> ->. split; [done|]. split; [done|by left]. Qed.

Lemma not_paused_mono (r r' : PluginPauseRegistry) job : r' ⊆ r → not_paused agent_id r job = true → not_paused agent_id r' job = true.
Proof.
  intros Hsub. unfold not_paused, is_paused. destruct (job_plugin job) as [[id v]|]; [|done].
  rewrite !negb_true_iff, !bool_decide_eq_false. intros Hn [x Hx]. apply Hn. exists x. by eapply lookup_weaken.
Qed.

Lemma calm_modify_vars ans n f : follows (calm ans n) (modify_vars f).
Proof. apply follows_modify. intros w. by apply calm_same. Qed.

Lemma calm_on_tables {A} ans n (m : ST JobTables (result JobDbError A)) : follows (calm ans n) (on_tables m).
Proof.
  intros w a w'. unfold on_tables. destruct (m _) as [[r t]|]; [|done]. intros [= <- <-]. by apply calm_same.
Qed.

(** Sending one message. *)
Lemma calm_app ans n w m t v :
  (∀ command catalog, m = MsgCommand command → jc_action command = Some (ActReplaceAll catalog) →
     Forall (λ job, not_paused agent_id (sw_pauses w) job = true) (ra_jobs catalog)) →
  calm ans n w (mkWorld v t (sw_events w) (sw_pauses w) (sw_instances w) (sw_sent w ++ [m])).
Proof.
  intros Hm. split; [|split; [done|by left]]. intros Hn. cbn. rewrite length_app. cbn. split; [lia|].
  intros Hc command catalog. cbn. rewrite drop_app_le by done.
  intros [?|Heq%list_elem_of_singleton]%elem_of_app; [by eapply Hc|]. by apply Hm.
Qed.

Lemma calm_send ans n ans' m : (∀ c, m ≠ MsgCommand c) → follows (calm ans n) (send_message ans' m).
Proof.
  intros Hm w r w'. unfold send_message. destruct (an_send ans' _) as [[]|e]; intros [= <- <-]; [|reflexivity].
  apply calm_app. intros c cat ->. by destruct (Hm c).
Qed.

(** A catalog without paused plugins may be sent. *)
Lemma calm_issue ans n ans' catalog w r w' :
  Forall (λ job, not_paused agent_id (sw_pauses w) job = true) (ra_jobs catalog) →
  issue_command db_error_text agent_id ans' catalog w = Some (r, w') → calm ans n w w'.
Proof.
  intros Hcat (r1 & w1 & H1 & Hs)%st_bind_Some.
  unfold on_tables in H1. destruct (record_job_command _ _ _ _) as [[r2 t]|]; [|done]. injection H1 as -> <-.
  apply st_try_Some in Hs as [(? & ? & [_ ->]%st_ret_Some & Hs)|(? & [_ ->]%st_ret_Some & _)]; [|by apply calm_same].
  unfold st_try in Hs. apply st_bind_Some in Hs as (r3 & w3 & H3 & Hs). unfold send_message in H3.
  destruct (an_send ans' _) as [[]|e]; injection H3 as <- <-; [|apply st_ret_Some in Hs as [_ ->]; by apply calm_same].
  apply st_bind_Some in Hs as (? & ? & ->%st_modify_Some & [_ ->]%st_ret_Some). cbn.
  apply calm_app. intros c cat [= <-] [= <-]. done.
Qed.

Lemma issue_pauses ans catalog w r w' :
  issue_command db_error_text agent_id ans catalog w = Some (r, w') → sw_pauses w' = sw_pauses w.
Proof.
  assert (∀ m, keeps sw_pauses (send_message ans m)) as Hsend.
  { intros m w0 r0 w0'. unfold send_message. destruct (an_send ans _) as [[]|]; by intros [= <- <-]. }
  assert (∀ {A} (m : ST JobTables (result JobDbError A)), keeps sw_pauses (on_tables m)) as Htab.
  { intros A m w0 r0 w0'. unfold on_tables. destruct (m _) as [[r1 t]|]; by intros [= <- <-]. }
  revert w r w'. change (keeps sw_pauses (issue_command db_error_text agent_id ans catalog)).
  unfold issue_command. follow; auto.
Qed.

Lemma calm_catalog ans n ans' policy capability inventory runtime reconcile force :
  follows (calm ans n) (send_job_catalog db_error_text agent_id ans' policy capability inventory runtime reconcile force).
Proof.
  apply follows_bind_get. intros w a w' Hs.
  destruct (load_catalog _ _ _ _ _ _ _) as [[catalog|]|]; try (by apply st_ret_Some in Hs as [-> ->]).
  cbv zeta in Hs. st_case; [by apply st_ret_Some in Hs as [-> ->]|]. st_case.
  - apply st_bind_Some in Hs as (? & ? & ->%st_modify_Some & [-> ->]%st_ret_Some). by apply calm_same.
  - apply st_try_Some in Hs as [(? & w1 & H1 & [-> ->]%st_ret_Some)|(? & H1 & ->)];
      (eapply calm_issue; [|exact H1]); apply Forall_forall; intros job (_ & Hj)%list_elem_of_filter;
      by apply list_elem_of_filter in Hj as [? _].
Qed.

(** Clearing the pauses of a newer runtime. *)
Lemma clear_pause_lifts s (r : PluginPauseRegistry) p :
  p ∈ prs_plugins s → clear_pause agent_id (prs_revision s) r p ⊆ r ∧
  ∀ ans, an_runtime ans = Ok s → only_lifted ans r (clear_pause agent_id (prs_revision s) r p).
Proof.
  intros Hin. unfold clear_pause. destruct (r !! _) as [n|] eqn:Hr; [|split; [done|by left]].
  case_bool_decide as Hlt; [|split; [done|by left]]. split; [apply delete_subseteq|]. intros ans Hans key m Hk.
  destruct (decide (key = (agent_id, prc_plugin_id p, prc_version p))) as [->|Hne];
    [|left; rewrite <- Hk; by apply lookup_delete_ne].
  right. simplify_eq. exists s. split_and!; [done..| |done]. apply existsb_exists. exists p.
  split; [by apply list_elem_of_In|]. cbn. by rewrite !bool_decide_eq_true_2.
Qed.

Lemma acknowledge_lifts ans s (r : PluginPauseRegistry) :
  an_runtime ans = Ok s → acknowledge_new_runtime agent_id s r ⊆ r ∧ only_lifted ans r (acknowledge_new_runtime agent_id s r).
Proof.
  intros Hans. unfold acknowledge_new_runtime.
  assert (prs_plugins s ⊆ prs_plugins s) as Hsub by done. revert Hsub. generalize (prs_plugins s) at 1 3 4. intros l.
  revert r. induction l as [|p l IH]; intros r Hsub; cbn; [split; [done|by left]|].
  destruct (clear_pause_lifts s r p) as [H1 L1]; [set_solver|]. destruct (IH (clear_pause agent_id (prs_revision s) r p)) as [H2 L2];
    [set_solver|]. split; [by etrans|]. intros key m Hk. destruct (L1 ans Hans _ _ Hk) as [?|?]; [by apply L2|by right].
Qed.

Lemma calm_acknowledge ans n s :
  an_runtime ans = Ok s → follows (calm ans n) (modify_pauses (acknowledge_new_runtime agent_id s)).
Proof.
  intros Hans. apply follows_modify. intros w. destruct (acknowledge_lifts ans s (sw_pauses w) Hans) as [Hsub Hl].
  split; [|done]. intros Hn. split; [done|]. intros Hc c cat Hin Ha. eapply Forall_impl; [by eapply Hc|].
  intros job. by apply not_paused_mono.
Qed.

#[local] Hint Resolve calm_modify_vars calm_on_tables calm_catalog : follows.
#[local] Hint Extern 1 (follows _ (send_message _ _)) => (apply calm_send; discriminate) : follows.

Lemma calm_runtime ans n reconcile force :
  follows (calm ans n) (send_plugin_runtime_snapshot agent_id ans reconcile force).
Proof.
  unfold send_plugin_runtime_snapshot. destruct (an_runtime ans) eqn:Hr; [|follow].
  apply follows_bind; [apply _|by apply calm_acknowledge|]. intros _. follow.
Qed.
#[local] Hint Resolve calm_runtime : follows.

Lemma calm_if_ready ans n done :
  follows (calm ans n) done → follows (calm ans n) (send_if_ready db_error_text agent_id ans done).
Proof. intros Hdone. unfold send_if_ready. follow. Qed.

Lemma calm_converged ans n : follows (calm ans n) converged.
Proof. unfold converged. follow. Qed.
Lemma calm_no_change ans n : follows (calm ans n) no_change.
Proof. unfold no_change. follow. Qed.
#[local] Hint Resolve calm_if_ready calm_converged calm_no_change : follows.

(** A pause that is recorded. *)
Lemma pause_turn ans notice w r w' :
  on_pause_notice db_error_text agent_id ans notice w = Some (r, w') →
  clean (length (sw_sent w)) w' ∧ ∀ key, is_Some (sw_pauses w !! key) → is_Some (sw_pauses w' !! key).
Proof.
  intros (? & ? & [-> ->]%st_get_Some & Hs)%st_bind_Some. cbv zeta in Hs.
  assert (clean (length (sw_sent w)) w) as Hw by (intros ??; rewrite drop_all; set_solver).
  assert (∀ m w1, (∀ c, m ≠ MsgCommand c) → clean (length (sw_sent w)) w1 → (length (sw_sent w) ≤ length (sw_sent w1))%nat →
    send_message ans m w1 = Some (r, w') → clean (length (sw_sent w)) w' ∧ sw_pauses w' = sw_pauses w1) as Hend.
  { intros m w1 Hm Hc Hlen H1. destruct (calm_send ans (length (sw_sent w)) _ _ Hm _ _ _ H1) as [Hcl _].
    split; [by apply Hcl|]. unfold send_message in H1. destruct (an_send ans _) as [[]|]; by simplify_eq. }
  st_case; [apply (Hend _ w) in Hs as [? ->]; done|].
  destruct (pause_record agent_id notice (sw_pauses w)) as [r0 pauses] eqn:Hrec.
  assert (∀ key, is_Some (sw_pauses w !! key) → is_Some (pauses !! key)) as Hkeep.
  { unfold pause_record in Hrec. match type of Hrec with (if ?b then _ else _) = _ => destruct b end;
      simplify_eq; [done|]. intros key Hk.
    destruct (decide ((agent_id, ppn_plugin_id notice, ppn_plugin_version notice) = key)) as [->|Hne];
      [exists notice; apply lookup_insert_eq|].
    destruct Hk as [x Hx]. exists x. rewrite <- Hx. by apply lookup_insert_ne. }
  apply st_bind_Some in Hs as ([] & w1 & ->%st_modify_Some & Hs).
  set (w1 := mkWorld (sw_vars w) (sw_tables w) (sw_events w) pauses (sw_instances w) (sw_sent w)) in *.
  assert (clean (length (sw_sent w)) w1) as Hw1 by (intros ??; cbn; rewrite drop_all; set_solver).
  destruct r0 as [[]|error]; [|apply (Hend _ w1) in Hs as [? ->]; done].
  assert (∀ r2 w2, match sv_last_sent_catalog (sw_vars w) with
       | Some catalog => issue_command db_error_text agent_id ans (filter_catalog agent_id pauses catalog)
       | None => mret (Ok tt) end w1 = Some (r2, w2) →
     clean (length (sw_sent w)) w2 ∧ (length (sw_sent w) ≤ length (sw_sent w2))%nat ∧ sw_pauses w2 = pauses) as Hissue.
  { intros r2 w2 H2. destruct (sv_last_sent_catalog _) as [catalog|]; [|by apply st_ret_Some in H2 as [_ ->]].
    pose proof H2 as Hc. eapply (calm_issue ans (length (sw_sent w))) in Hc as [Hc _];
      [|apply Forall_forall; intros job (? & _)%list_elem_of_filter; done].
    destruct (Hc ltac:(done)). split_and!; auto. by apply issue_pauses in H2. }
  apply st_try_Some in Hs as [([] & w2 & H2 & Hs)|(e & H2 & ->)]; destruct (Hissue _ _ H2) as (? & ? & Hp).
  - apply (Hend _ w2) in Hs as [? ->]; [|done..]. by rewrite Hp.
  - by rewrite Hp.
Qed.

Lemma calm_handle ans n event :
  (∀ notice, event ≠ EvPlugin (PluginPause notice)) →
  follows (calm ans n) (handle_session_event encode_event db_error_text agent_id ans event).
Proof.
  intros Hne. destruct event as [| |body|summary|body|[inv|h b|rev acc|m| |]|result| |event|]; cbn;
    try (by destruct (Hne m));
    unfold on_catalog_changed, on_runtime_changed, on_policy, accept_policy, on_summary, on_capability, on_inventory,
      on_schema_response, send_runtime, on_acknowledgement, on_command_result; follow.
  - by apply calm_same.
  - intros w r w'. unfold on_job_event.
    destruct (handle_job_event encode_event (sw_tables w) agent_id event (an_now ans) (sw_events w)) as [r0 rows].
    intros [= <- <-]. by apply calm_same.
Qed.

(** C34. A paused plugin gets no jobs: the commands sent in a turn contain no job of a
    plugin that is paused when the turn ends, the turn that records the pause
    included; and a pause ends only when the turn read a runtime for the Agent that
    configures the plugin and is newer than the one the pause was reported for. *)
Theorem paused_plugins_get_no_jobs ans event w r w' :
  session_turn encode_event db_error_text agent_id ans event w = Some (r, w') →
  (∀ command catalog, MsgCommand command ∈ drop (length (sw_sent w)) (sw_sent w') →
     jc_action command = Some (ActReplaceAll catalog) →
     Forall (λ job, not_paused agent_id (sw_pauses w') job = true) (ra_jobs catalog)) ∧
  (∀ key notice, sw_pauses w !! key = Some notice → is_Some (sw_pauses w' !! key) ∨ lifted ans key notice).
Proof.
  intros (? & w1 & ->%st_modify_Some & Hs)%st_bind_Some.
  assert ((∃ notice, event = EvPlugin (PluginPause notice)) ∨ ∀ notice, event ≠ EvPlugin (PluginPause notice))
    as [[notice ->]|Hne] by (destruct event as [| | | | |[]| | | |]; eauto).
  - apply pause_turn in Hs as [Hc Hk]. split; [exact Hc|]. intros key n Hn. left. by apply Hk.
  - eapply (calm_handle ans (length (sw_sent w))) in Hs as (Hc & _ & Hl); [|by eauto]. split.
    + apply Hc; [done|]. intros ??. cbn. rewrite drop_all. set_solver.
    + intros key n [?|?]%Hl; eauto.
Qed.

End Pauses.

(** The turn that records a pause, in the session of [SessionDemo.v]. *)
Definition demo_before_pause : SessionWorld := demo_session_end (take 4 demo_conversation).
Definition demo_after_pause : SessionWorld :=
  match session_turn demo_payload demo_db_error "agent-a" (demo_answers 104) (EvPlugin (PluginPause demo_notice))
          demo_before_pause with
  | Some (_, w) => w
  | None => demo_before_pause
  end.
Lemma demo_pause_eq :
  session_turn demo_payload demo_db_error "agent-a" (demo_answers 104) (EvPlugin (PluginPause demo_notice)) demo_before_pause
  = Some (Ok tt, demo_after_pause).
Proof. vm_compute. reflexivity. Qed.
Lemma demo_pause_sent :
  drop (length (sw_sent demo_before_pause)) (sw_sent demo_after_pause) =
  [MsgCommand (mkJobCommand (uuid_bytes 104) (Some (ActReplaceAll (mkReplaceAllJobs 1 [demo_job 7 1 (Task_Load [])]))));
   MsgPauseAck (mkPauseAck "plug" "1" 4 true None)].
Proof. vm_compute. reflexivity. Qed.

Lemma paused_plugins_get_no_jobs_witness :
  Forall (λ job, not_paused "agent-a" (sw_pauses demo_after_pause) job = true) [demo_job 7 1 (Task_Load [])].
Proof.
  apply (proj1 (paused_plugins_get_no_jobs demo_payload demo_db_error "agent-a" (demo_answers 104)
           (EvPlugin (PluginPause demo_notice)) demo_before_pause (Ok tt) demo_after_pause demo_pause_eq)
         (mkJobCommand (uuid_bytes 104) (Some (ActReplaceAll (mkReplaceAllJobs 1 [demo_job 7 1 (Task_Load [])]))))
         (mkReplaceAllJobs 1 [demo_job 7 1 (Task_Load [])])).
  - rewrite demo_pause_sent. left.
  - reflexivity.
Defined.
