(* ===== verification/SessionJobs.v ===== *)
(** * Which jobs a business session sends

    Every catalog a session sends was stored as a command first, was read for a
    policy, a capability snapshot and an inventory the Agent reported, and has a
    plugin job only when the Agent confirmed a runtime with that plugin.  The proof
    carries an invariant of the variables of the session through every branch. *)

From stdpp Require Import base gmap strings list sorting.
From S2P Require Import Prelude StLogic Rotation Credential AgentState SchedModel Actor Proto Catalog JobEvents Policy Compiler RemoteJobs RemoteTheorems WebOps WebLife Session SessionDemo.

(** Recording and completing commands leaves the catalogs and the jobs as they are. *)
Definition same_catalogs (t t' : JobTables) : Prop := tb_catalogs t' = tb_catalogs t ∧ tb_jobs t' = tb_jobs t.
#[export] Instance same_catalogs_preorder : PreOrder same_catalogs.
Proof. split; [by intros|]. intros t1 t2 t3 [E1 E2] [E3 E4]. split; congruence. Qed.

Section Frames.
Context `{D : DefinitionCodec} `{W : WebCodecs} `{E : CatalogEncoding} `{B2 : Blake2s}.
Lemma same_catalogs_modify f : (∀ t, same_catalogs t (f t)) → follows same_catalogs (st_modify f).
Proof. intros Hf. by apply follows_modify. Qed.
Lemma record_same clock agent_id command : follows same_catalogs (record_job_command clock agent_id command).
Proof. unfold record_job_command. follow; by apply same_catalogs_modify. Qed.
Lemma complete_same clock agent_id result : follows same_catalogs (complete_job_command clock agent_id result).
Proof. unfold complete_job_command. follow; by apply same_catalogs_modify. Qed.
(** A catalog depends on these two tables only. *)
Lemma load_catalog_same agent_id policy t t' : same_catalogs t t' → load_agent_job_catalog agent_id policy t' = load_agent_job_catalog agent_id policy t.
Proof. intros [E1 E2]. unfold load_agent_job_catalog. by rewrite E1, E2. Qed.
End Frames.

Section Jobs.
Context `{D : DefinitionCodec} `{W : WebCodecs} `{E : CatalogEncoding} `{RE : RuntimeEncoding} `{B2 : Blake2s}.
Context (encode_event : JobEvent → bytes) (db_error_text : JobDbError → string) (agent_id : string).
(** The job tables the session reads: those of the beginnings of its turns. *)
Context (seen : JobTables → Prop).
Implicit Types (heard : list SessionEvent) (sent : list ServerMessage) (w : SessionWorld).

(** ** Specification *)

(** The Agent told the Server before that it holds this runtime. *)
Definition matched heard (s : PluginRuntimeSnapshot) : Prop :=
  ∃ summary, EvSummary summary ∈ heard ∧
    sum_runtime_revision summary = prs_revision s ∧ sum_runtime_digest summary = runtime_digest s.

(** The Agent confirmed this runtime: it acknowledged the one it was sent, or had it. *)
Definition confirmed heard sent (s : PluginRuntimeSnapshot) : Prop :=
  (MsgRuntime s ∈ sent ∧ EvPlugin (PluginAcknowledgement (prs_revision s) true) ∈ heard) ∨ matched heard s.

(** The job is in the catalog stored for this Agent in a table the session read, for a
    profile the Agent reported, which knows its kind of task, and if it is a plugin job, a
    confirmed runtime has the plugin. *)
Definition entitled heard sent (job : JobDefinition) : Prop :=
  (∃ policy capability inventory t record kind,
     EvPolicy (Some policy) ∈ heard ∧ EvCapability (Some capability) ∈ heard ∧
     EvPlugin (PluginInventory inventory) ∈ heard ∧
     seen t ∧ load_agent_job_catalog agent_id policy t = Ok (Some record) ∧ job ∈ ra_jobs (rec_catalog record) ∧
     catalog_task_kind job = Ok kind ∧
     (kind ∈ cap_task_kinds capability ∨ kind ∈ inv_plugins inventory ≫= pie_task_kinds)) ∧
  (∀ id version, job_plugin job = Some (id, version) →
     ∃ s, confirmed heard sent s ∧ configured s id version = true).

Definition all_entitled heard sent (catalog : ReplaceAllJobs) : Prop :=
  Forall (entitled heard sent) (ra_jobs catalog).

(** The command is in the table of commands, under its id, for this Agent. *)
Definition stored_command (command : JobCommand) (t : JobTables) : Prop :=
  ∃ id row, uuid_from_slice (jc_command_id command) = Some id ∧ tb_commands t !! id = Some row ∧
    cr_agent_id row = agent_id ∧ cr_command_payload row = encode_command command.

(** ** The invariant *)

(** What the messages sent satisfy, even after a failure. *)
Definition commands_ok heard w : Prop :=
  ∀ command, MsgCommand command ∈ sw_sent w → ∃ catalog,
    jc_action command = Some (ActReplaceAll catalog) ∧ all_entitled heard (sw_sent w) catalog ∧
    stored_command command (sw_tables w).

(** The catalogs and jobs of the world are those of a table the session saw. *)
Definition current t : Prop := ∃ t0, seen t0 ∧ tb_catalogs t = tb_catalogs t0 ∧ tb_jobs t = tb_jobs t0.

Record vars_ok heard w : Prop := {
  vo_tables : current (sw_tables w);
  vo_policy p : sv_accepted_policy (sw_vars w) = Some p → EvPolicy (Some p) ∈ heard;
  vo_capability c : sv_accepted_capability (sw_vars w) = Some c → EvCapability (Some c) ∈ heard;
  vo_inventory i : sv_accepted_plugin_inventory (sw_vars w) = Some i → EvPlugin (PluginInventory i) ∈ heard;
  vo_summary s : sv_reconcile_summary (sw_vars w) = Some s → EvSummary s ∈ heard;
  vo_runtime s : sv_sent_plugin_runtime (sw_vars w) = Some s → MsgRuntime s ∈ sw_sent w ∨ matched heard s;
  vo_ready s : sv_plugin_runtime_ready (sw_vars w) = true → sv_sent_plugin_runtime (sw_vars w) = Some s →
    confirmed heard (sw_sent w) s;
  vo_last c : sv_last_sent_catalog (sw_vars w) = Some c → all_entitled heard (sw_sent w) c;
}.

Definition sound heard w : Prop := vars_ok heard w ∧ commands_ok heard w.

(** A failing computation leaves the messages in order, a successful one everything. *)
Definition proper {A} heard (m : ST SessionWorld (result TransportError A)) : Prop :=
  ∀ w r w', sound heard w → m w = Some (r, w') →
    commands_ok heard w' ∧ match r with Ok _ => vars_ok heard w' | Err _ => True end.
Definition quiet heard {A} (m : ST SessionWorld A) : Prop :=
  ∀ w r w', sound heard w → m w = Some (r, w') → sound heard w'.

Lemma confirmed_mono heard heard' sent sent' s :
  heard ⊆ heard' → sent ⊆ sent' → confirmed heard sent s → confirmed heard' sent' s.
Proof. unfold confirmed, matched. set_solver. Qed.

Lemma entitled_mono heard heard' sent sent' job :
  heard ⊆ heard' → sent ⊆ sent' → entitled heard sent job → entitled heard' sent' job.
Proof.
  intros Hh Hs [(p & c & i & t & rec & k & ? & ? & ? & ? & ?) Hplug]. split.
  - exists p, c, i, t, rec, k. split_and!; set_solver.
  - intros id v (s & ? & ?)%Hplug. eauto using confirmed_mono.
Qed.

Lemma all_entitled_mono heard heard' sent sent' catalog :
  heard ⊆ heard' → sent ⊆ sent' → all_entitled heard sent catalog → all_entitled heard' sent' catalog.
Proof. intros ? ? Ha. eapply Forall_impl; [exact Ha|]. eauto using entitled_mono. Qed.

Lemma stored_kept command t t' : kept t t' → stored_command command t → stored_command command t'.
Proof.
  intros [_ Hk] (id & row & ? & (row' & ? & ? & ?)%Hk & ? & ?). exists id, row'. split_and!; congruence.
Qed.

(** Hearing or committing more changes nothing. *)
Lemma sound_mono heard heard' w t' :
  heard ⊆ heard' → kept (sw_tables w) t' → current t' → sound heard w →
  sound heard' (mkWorld (sw_vars w) t' (sw_events w) (sw_pauses w) (sw_instances w) (sw_sent w)).
Proof.
  intros Hh Hk Hcur [[] Hc]. split.
  - split; cbn; intros; eauto using confirmed_mono, all_entitled_mono.
    destruct (vo_runtime0 _ H) as [?|(sm & ? & ?)]; [by left|right]. exists sm. split; [by apply Hh|done].
  - intros c (cat & ? & ? & ?)%Hc. exists cat. split_and!; eauto using all_entitled_mono, stored_kept.
Qed.

(** ** Rules *)

Lemma proper_ret heard {A} (r : result TransportError A) : proper heard (mret r).
Proof. intros w ? ? [Hv Hc] [-> ->]%st_ret_Some. split; [done|by destruct r]. Qed.

Lemma proper_bind heard {A B} (m : ST SessionWorld A) (f : A → ST SessionWorld (result TransportError B)) :
  quiet heard m → (∀ a, proper heard (f a)) → proper heard (m ≫= f).
Proof. intros Hm Hf w r w' Hw (a & w1 & H1 & H2)%st_bind_Some. eapply Hf; [|done]. by eapply Hm. Qed.

Lemma proper_try heard {A B} (m : ST SessionWorld (result TransportError A)) (k : A → ST SessionWorld (result TransportError B)) :
  proper heard m → (∀ a, proper heard (k a)) → proper heard (st_try m k).
Proof.
  intros Hm Hk w r w' Hw [(a & w1 & H1 & H2)|(e & H1 & ->)]%st_try_Some.
  - eapply Hk; [|done]. destruct (Hm _ _ _ Hw H1). by split.
  - by destruct (Hm _ _ _ Hw H1).
Qed.

Lemma proper_get heard {B} (f : SessionWorld → ST SessionWorld (result TransportError B)) :
  (∀ w, sound heard w → ∀ r w', f w w = Some (r, w') →
     commands_ok heard w' ∧ match r with Ok _ => vars_ok heard w' | Err _ => True end) →
  proper heard (st_get ≫= f).
Proof. intros Hf w r w' Hw (? & ? & [-> ->]%st_get_Some & H)%st_bind_Some. by eapply Hf. Qed.

(** A computation that reads the world but does not need to know that it did. *)
Lemma proper_read heard {B} (f : SessionWorld → ST SessionWorld (result TransportError B)) :
  (∀ w, proper heard (f w)) → proper heard (st_get ≫= f).
Proof. intros Hf. apply proper_get. intros w Hw r w' Hs. by eapply Hf. Qed.

Lemma quiet_ret heard {A} (a : A) : quiet heard (mret a).
Proof. by intros w ? ? Hw [-> ->]%st_ret_Some. Qed.

Lemma quiet_modify_vars heard f :
  (∀ w, vars_ok heard w →
     vars_ok heard (mkWorld (f (sw_vars w)) (sw_tables w) (sw_events w) (sw_pauses w) (sw_instances w) (sw_sent w))) →
  quiet heard (modify_vars f).
Proof. intros Hf w ? ? [Hv Hc] ->%st_modify_Some. split; [by apply Hf|exact Hc]. Qed.

Lemma quiet_modify_pauses heard f : quiet heard (modify_pauses f).
Proof. intros w ? ? [[] Hc] ->%st_modify_Some. by split. Qed.

(** A message that is not a command. *)
Lemma sent_more heard w m :
  sound heard w → (∀ c, m ≠ MsgCommand c) →
  sound heard (mkWorld (sw_vars w) (sw_tables w) (sw_events w) (sw_pauses w) (sw_instances w) (sw_sent w ++ [m])).
Proof.
  intros [[] Hc] Hm. assert (sw_sent w ⊆ sw_sent w ++ [m]) as Hsub by set_solver. split.
  - split; cbn; intros; eauto using confirmed_mono, all_entitled_mono.
    destruct (vo_runtime0 _ H) as [?|?]; [left; set_solver|by right].
  - intros c [Hin|Heq%list_elem_of_singleton]%elem_of_app; [|by destruct (Hm c)].
    destruct (Hc c Hin) as (cat & ? & ? & ?). exists cat. split_and!; eauto using all_entitled_mono.
Qed.

Lemma proper_send heard ans m : (∀ c, m ≠ MsgCommand c) → proper heard (send_message ans m).
Proof.
  intros Hm w r w' Hw. unfold send_message. destruct (an_send ans _) as [[]|e]; intros [= <- <-].
  - destruct (sent_more heard w m Hw Hm). by split.
  - destruct Hw. by split.
Qed.

Lemma quiet_on_tables heard {A} (m : ST JobTables (result JobDbError A)) :
  (∀ t r t', m t = Some (r, t') → kept t t') → follows same_catalogs m → quiet heard (on_tables m).
Proof.
  intros Hm Hf w r w' Hw. unfold on_tables. destruct (m (sw_tables w)) as [[r0 t]|] eqn:Ht; intros [= <- <-].
  eapply (sound_mono heard heard); [done|by eapply Hm| |done]. destruct Hw as [[(t0 & Hs & E1 & E2) _ _ _ _ _ _ _] _].
  destruct (Hf _ _ _ Ht) as [F1 F2]. exists t0. split; [done|]. by rewrite F1, F2.
Qed.

(** ** The operations *)

(** A catalog whose jobs the Agent is entitled to may be sent. *)
Lemma issue_proper heard ans catalog w r w' :
  sound heard w → all_entitled heard (sw_sent w) catalog →
  issue_command db_error_text agent_id ans catalog w = Some (r, w') →
  commands_ok heard w' ∧ match r with Ok _ => vars_ok heard w' | Err _ => True end.
Proof.
  intros Hw Hall Hs. unfold issue_command in Hs.
  apply st_bind_Some in Hs as (r1 & w1 & H1 & Hs).
  assert (sound heard w1) as Hw1.
  { refine (quiet_on_tables heard _ _ _ _ _ _ Hw H1); [intros ???; apply record_kept|apply record_same]. }
  unfold on_tables in H1. destruct (record_job_command _ _ _ _) as [[r2 t]|] eqn:Hrec; [|done].
  injection H1 as -> <-. destruct r1 as [[]|e].
  2:{ apply st_try_Some in Hs as [(? & ? & [[=] _]%st_ret_Some & _)|(? & [_ ->]%st_ret_Some & ->)]. by destruct Hw1. }
  apply st_try_Some in Hs as [([] & ? & [_ ->]%st_ret_Some & Hs)|(? & [[=] _]%st_ret_Some & _)].
  apply record_job_command_Ok in Hrec as (id & rev & now & row & Hid & _ & Hrow & Ha & Hp & _).
  set (command := mkJobCommand (an_uuid ans) (Some (ActReplaceAll catalog))) in *.
  assert (stored_command command t) as Hst by (exists id, row; rewrite Hrow, lookup_insert_eq; done).
  unfold st_try in Hs. apply st_bind_Some in Hs as (r3 & w3 & H3 & Hs). unfold send_message in H3. cbn in H3.
  destruct (an_send ans _) as [[]|e]; injection H3 as <- <-;
    [|apply st_ret_Some in Hs as [-> ->]; by destruct Hw1].
  apply st_bind_Some in Hs as ([] & ? & ->%st_modify_Some & [-> ->]%st_ret_Some).
  assert (sw_sent w ⊆ sw_sent w ++ [MsgCommand command]) as Hsub by set_solver.
  destruct Hw1 as [[] Hc]. split.
  - intros c [Hin|[= ->]%list_elem_of_singleton]%elem_of_app; [|exists catalog; split_and!; eauto using all_entitled_mono].
    destruct (Hc c Hin) as (cat & ? & ? & ?). exists cat. split_and!; eauto using all_entitled_mono.
  - split; cbn in *; intros; simplify_eq; eauto using confirmed_mono, all_entitled_mono.
    destruct (vo_runtime0 _ H) as [?|?]; [left; set_solver|by right].
Qed.

(** What is read and filtered, the Agent is entitled to. *)
Lemma loaded_entitled heard sent ans policy capability inventory t pauses runtime catalog :
  EvPolicy (Some policy) ∈ heard → EvCapability (Some capability) ∈ heard →
  EvPlugin (PluginInventory inventory) ∈ heard → confirmed heard sent runtime → current t →
  load_catalog db_error_text agent_id ans policy capability inventory t = Ok (Some catalog) →
  all_entitled heard sent (filter_catalog_for_runtime (filter_catalog agent_id pauses catalog) runtime).
Proof.
  intros Hp Hcap Hi Hconf (t0 & Hseen & E1 & E2) Hload. unfold load_catalog in Hload. destruct (an_catalog ans); [|done].
  destruct (load_agent_job_catalog_for_session _ _ _ _ _) as [rec|] eqn:Hl; [|done]. injection Hload as Hrec.
  destruct rec as [rec|]; [|done]. injection Hrec as <-. unfold load_agent_job_catalog_for_session in Hl.
  apply result_bind_Ok in Hl as ([rec0|] & Hl & Hrec); [|done]. injection Hrec as <-.
  apply Forall_forall. intros job (Hrun & (_ & (Hkeep & Hin)%list_elem_of_filter)%list_elem_of_filter)%list_elem_of_filter.
  destruct (catalog_task_kind job) as [kind|] eqn:Hk; [|done]. split.
  - exists policy, capability, inventory, t0, rec0, kind. rewrite (load_catalog_same _ _ t0 t) in Hl by done. split_and!; [done..|].
    by apply orb_true_iff in Hkeep as [?%bool_decide_eq_true|?%bool_decide_eq_true]; [left|right].
  - intros id v Hjp. unfold runs_on in Hrun. rewrite Hjp in Hrun. eauto.
Qed.

Lemma catalog_proper heard ans policy capability inventory runtime reconcile force w r w' :
  sound heard w → EvPolicy (Some policy) ∈ heard → EvCapability (Some capability) ∈ heard →
  EvPlugin (PluginInventory inventory) ∈ heard → confirmed heard (sw_sent w) runtime →
  send_job_catalog db_error_text agent_id ans policy capability inventory runtime reconcile force w = Some (r, w') →
  commands_ok heard w' ∧ match r with Ok _ => vars_ok heard w' | Err _ => True end.
Proof.
  intros Hw Hp Hc Hi Hconf Hs. unfold send_job_catalog in Hs.
  apply st_bind_Some in Hs as (? & ? & [-> ->]%st_get_Some & Hs). pose proof Hw as [Hv Hm].
  destruct (load_catalog _ _ _ _ _ _ _) as [[catalog|]|] eqn:Hl; try (by apply st_ret_Some in Hs as [-> ->]).
  pose proof (loaded_entitled heard (sw_sent w) ans policy capability inventory (sw_tables w) (sw_pauses w) runtime catalog
    Hp Hc Hi Hconf (vo_tables _ _ Hv) Hl) as Hall. cbv zeta in Hs.
  match type of Hs with (if ?b then _ else _) _ = _ => destruct b end; [by apply st_ret_Some in Hs as [-> ->]|].
  match type of Hs with (if ?b then _ else _) _ = _ => destruct b end.
  - apply st_bind_Some in Hs as ([] & ? & ->%st_modify_Some & [-> ->]%st_ret_Some). split; [exact Hm|].
    destruct Hv. split; cbn; intros; simplify_eq; eauto.
  - apply st_try_Some in Hs as [(? & w1 & H1 & [-> ->]%st_ret_Some)|(? & H1 & ->)];
      by destruct (issue_proper _ _ _ _ _ _ Hw Hall H1).
Qed.

Lemma runtime_proper heard ans reconcile force w r w' :
  sound heard w → (∀ s, reconcile = Some s → EvSummary s ∈ heard) →
  send_plugin_runtime_snapshot agent_id ans reconcile force w = Some (r, w') →
  commands_ok heard w' ∧ match r with Ok _ => vars_ok heard w' | Err _ => True end.
Proof.
  intros Hw Hrec Hs. unfold send_plugin_runtime_snapshot in Hs.
  destruct (an_runtime ans) as [s|]; [|apply st_ret_Some in Hs as [-> ->]; by destruct Hw].
  apply st_bind_Some in Hs as ([] & ? & ->%st_modify_Some & Hs).
  apply st_bind_Some in Hs as ([] & ? & ->%st_modify_Some & Hs).
  assert (∀ ready sent', sw_sent w ⊆ sent' → (∀ c, MsgCommand c ∈ sent' → MsgCommand c ∈ sw_sent w) →
    matched heard s ∨ (MsgRuntime s ∈ sent' ∧ ready = false) →
    sound heard (mkWorld (set_runtime (Some s) ready (sw_vars w)) (sw_tables w) (sw_events w)
      (acknowledge_new_runtime agent_id s (sw_pauses w)) (sw_instances w) sent')) as Hnew.
  { intros ready sent' Hsub Hcmd Hm. destruct Hw as [[] Hc]. split.
    - split; cbn; intros; simplify_eq; eauto using all_entitled_mono; [destruct Hm as [?|[? _]]; by eauto|].
      destruct Hm as [?|[_ ?]]; [by right|done].
    - intros c Hin%Hcmd. destruct (Hc c Hin) as (cat & ? & ? & ?). exists cat. split_and!; eauto using all_entitled_mono. }
  match type of Hs with (if ?b then _ else _) _ = _ => destruct b eqn:Hb end.
  - apply st_ret_Some in Hs as [-> ->]. destruct reconcile as [sm|]; [|done].
    apply andb_true_iff in Hb as [Hb Hd]. apply andb_true_iff in Hb as [_ Hr]. bools.
    destruct (Hnew true (sw_sent w)) as [? ?]; [done..| |done]. left. exists sm. eauto.
  - unfold send_message in Hs. cbn in Hs. destruct (an_send ans _) as [[]|e]; injection Hs as <- <-.
    + destruct (Hnew false (sw_sent w ++ [MsgRuntime s])) as [? ?]; [set_solver..| |done].
      right. split; [set_solver|done].
    + destruct Hw as [_ Hc]. split; [exact Hc|done].
Qed.

(** Reading the reconcile summary and the force flag of the session. *)
Lemma send_runtime_proper heard ans : proper heard (send_runtime agent_id ans).
Proof.
  apply proper_get. intros w Hw r w' Hs. eapply runtime_proper; [exact Hw| |exact Hs].
  destruct Hw as [[] _]. eauto.
Qed.

Lemma if_ready_proper heard ans done_ :
  quiet heard done_ → proper heard (send_if_ready db_error_text agent_id ans done_).
Proof.
  intros Hd. apply proper_get. intros w Hw r w' Hs. pose proof Hw as [Hv Hc]. cbv zeta in Hs.
  destruct (sv_plugin_runtime_ready _) eqn:Hr; [|by apply st_ret_Some in Hs as [-> ->]].
  destruct (sv_accepted_policy _) eqn:Hp; [|by apply st_ret_Some in Hs as [-> ->]].
  destruct (sv_accepted_capability _) eqn:Hcap; [|by apply st_ret_Some in Hs as [-> ->]].
  destruct (sv_accepted_plugin_inventory _) eqn:Hi; [|by apply st_ret_Some in Hs as [-> ->]].
  apply st_bind_Some in Hs as (rt & ? & [Hrt ->]%st_expect_Some & Hs).
  apply st_try_Some in Hs as [(b & w1 & H1 & Hs)|(e & H1 & ->)];
    apply (catalog_proper heard) in H1; try done; try (by destruct Hv; eauto).
  apply st_bind_Some in Hs as (? & ? & H2 & [-> ->]%st_ret_Some).
  destruct (Hd w1 _ _ ltac:(by destruct H1) H2). done.
Qed.

Lemma quiet_converged heard : quiet heard converged.
Proof. apply quiet_modify_vars. intros w []. by split. Qed.
Lemma quiet_no_change heard : quiet heard no_change.
Proof. apply quiet_ret. Qed.

End Jobs.

Create HintDb proper.
#[export] Hint Resolve proper_ret quiet_ret quiet_modify_pauses send_runtime_proper if_ready_proper quiet_converged quiet_no_change : proper.
#[export] Hint Extern 1 (proper _ _ _ (send_message _ _)) => (apply proper_send; discriminate) : proper.
#[export] Hint Extern 1 (quiet _ _ _ (modify_vars _)) =>
  (apply quiet_modify_vars; intros ? []; split; cbn; intros; simplify_eq; by eauto) : proper.

(** One rule, by the shape of the computation. *)
Ltac proper1 :=
  first
    [ solve [eauto 2 with proper]
    | lazymatch goal with
      | |- proper _ _ _ (st_try _ _) => apply proper_try; [|intros ?]
      | |- proper _ _ _ (_ ≫= _) => first [apply proper_read; intros ?|apply proper_bind; [|intros ?]]
      | |- proper _ _ _ (if ?b then _ else _) => destruct b eqn:?
      | |- quiet _ _ _ (if ?b then _ else _) => destruct b
      | |- proper _ _ _ (match ?x with _ => _ end) => destruct x eqn:?
      end ].
Ltac propers := repeat (cbv beta zeta; proper1).

Section Turns.
Context `{D : DefinitionCodec} `{W : WebCodecs} `{E : CatalogEncoding} `{RE : RuntimeEncoding} `{B2 : Blake2s}.
Context (encode_event : JobEvent → bytes) (db_error_text : JobDbError → string) (agent_id : string).
Context (seen : JobTables → Prop).
Implicit Types (heard : list SessionEvent) (w : SessionWorld).

Lemma accept_policy_proper heard ans s :
  EvPolicy (Some s) ∈ heard → proper agent_id seen heard (accept_policy db_error_text agent_id ans s).
Proof. intros Hs. unfold accept_policy. propers. Qed.

Lemma on_inventory_proper heard ans i :
  EvPlugin (PluginInventory i) ∈ heard → proper agent_id seen heard (on_inventory db_error_text agent_id ans i).
Proof. intros Hi. unfold on_inventory. propers. Qed.

Lemma on_acknowledgement_proper heard ans revision accepted :
  EvPlugin (PluginAcknowledgement revision accepted) ∈ heard →
  proper agent_id seen heard (on_acknowledgement db_error_text agent_id ans revision accepted).
Proof.
  intros Ha. apply proper_get. intros w Hw r w' Hs.
  destruct (sv_sent_plugin_runtime (sw_vars w)) as [s|] eqn:Hrt;
    [|by eapply proper_send in Hs; [exact Hs| |exact Hw]].
  case_bool_decide as Hrev; [by eapply proper_send in Hs; [exact Hs| |exact Hw]|].
  destruct accepted; [|apply st_ret_Some in Hs as [-> ->]; by destruct Hw]. subst revision.
  apply st_bind_Some in Hs as ([] & ? & ->%st_modify_Some & Hs).
  eapply if_ready_proper; [apply quiet_converged| |exact Hs]. destruct Hw as [[] Hc]. split; [|exact Hc].
  split; cbn; intros; simplify_eq; eauto. destruct (vo_runtime0 _ Hrt); [by left|by right].
Qed.

Lemma on_pause_proper heard ans n : proper agent_id seen heard (on_pause_notice db_error_text agent_id ans n).
Proof.
  apply proper_get. intros w Hw r w' Hs. cbv zeta in Hs.
  match type of Hs with (if ?b then _ else _) _ = _ => destruct b end;
    [by eapply proper_send in Hs; [exact Hs| |exact Hw]|].
  destruct (pause_record agent_id n (sw_pauses w)) as [r0 pauses].
  apply st_bind_Some in Hs as ([] & w1 & H1 & Hs).
  assert (sound agent_id seen heard w1) as Hw1 by (by eapply quiet_modify_pauses).
  apply st_modify_Some in H1 as ->.
  destruct r0 as [|error]; [|by eapply proper_send in Hs; [exact Hs| |exact Hw1]].
  destruct (sv_last_sent_catalog (sw_vars w)) as [catalog|] eqn:Hl.
  - assert (all_entitled agent_id seen heard (sw_sent w) (filter_catalog agent_id pauses catalog)) as Hall.
    { destruct Hw as [[] _]. apply Forall_forall. intros job (_ & Hj)%list_elem_of_filter.
      specialize (vo_last0 _ Hl). by eapply Forall_forall in vo_last0. }
    apply st_try_Some in Hs as [([] & w2 & H2 & Hs)|(e & H2 & ->)];
      (eapply issue_proper in H2; [|exact Hw1|exact Hall]); [|by destruct H2].
    eapply proper_send in Hs; [exact Hs|done|]. by destruct H2.
  - apply st_try_Some in Hs as [([] & w2 & [_ ->]%st_ret_Some & Hs)|(e & [[=] _]%st_ret_Some & _)].
    by eapply proper_send in Hs; [exact Hs| |exact Hw1].
Qed.

Lemma on_result_proper heard ans result : proper agent_id seen heard (on_command_result db_error_text agent_id ans result).
Proof.
  apply proper_bind; [apply quiet_on_tables; [intros ???; apply complete_kept|apply complete_same]|]. intros _.
  apply proper_get. intros w Hw r w' Hs. cbv zeta in Hs.
  case_bool_decide.
  { eapply proper_bind in Hs; [exact Hs| |intros; apply proper_ret|exact Hw]. eauto with proper. }
  match type of Hs with (if ?b then _ else _) _ = _ => destruct b end; [|apply st_ret_Some in Hs as [-> ->]; by destruct Hw].
  destruct (sv_plugin_runtime_ready (sw_vars w)) eqn:Hr, (sv_accepted_policy (sw_vars w)) eqn:Hp,
    (sv_accepted_capability (sw_vars w)) eqn:Hcap, (sv_accepted_plugin_inventory (sw_vars w)) eqn:Hi,
    (sv_sent_plugin_runtime (sw_vars w)) eqn:Hrt;
    try (apply st_ret_Some in Hs as [-> ->]; by destruct Hw).
  apply st_try_Some in Hs as [(b & w1 & H1 & Hs)|(e & H1 & ->)];
    (eapply (catalog_proper _ _ _ heard) in H1; [|exact Hw|destruct Hw as [[] _]; by eauto..]); [|by destruct H1].
  eapply proper_bind in Hs; [exact Hs| |intros; apply proper_ret|by destruct H1].
  destruct b; eauto with proper.
Qed.

(** Every event is handled properly once it is heard. *)
Lemma handle_proper heard ans event :
  event ∈ heard → proper agent_id seen heard (handle_session_event encode_event db_error_text agent_id ans event).
Proof.
  intros Hin. destruct event as [| |[s|]|sm|[c|]|[inv|h b|rev acc|n| |]|result| |ev|]; cbn;
    eauto using on_inventory_proper, on_acknowledgement_proper, on_pause_proper, on_result_proper with proper.
  - unfold on_catalog_changed. propers.
  - unfold on_runtime_changed. apply proper_get. intros w Hw r w' Hs.
    destruct (sv_accepted_plugin_inventory _); [|apply st_ret_Some in Hs as [-> ->]; by destruct Hw].
    apply st_bind_Some in Hs as ([] & w1 & H1 & Hs).
    eapply runtime_proper; [| |exact Hs]; [|destruct Hw as [[] _]; by eauto].
    eapply quiet_modify_vars; [|exact Hw|exact H1]. intros ? []. by split.
  - unfold on_policy. propers; by apply accept_policy_proper.
  - unfold on_policy. propers.
  - unfold on_summary. propers.
    intros w1 ? ? [[] Hc] ->%st_modify_Some. by split.
  - unfold on_capability. propers.
  - unfold on_schema_response. propers.
  - intros w r w' [[] Hc]. unfold on_job_event.
    destruct (handle_job_event encode_event (sw_tables w) agent_id ev (an_now ans) (sw_events w)) as [r0 rows].
    intros [= <- <-]. split; [exact Hc|]. by destruct r0.
Qed.

(** The tables at the beginnings of the turns, with what others committed before. *)
Fixpoint turn_tables (events : list (Answers * SessionEvent)) (w : SessionWorld) : list JobTables :=
  match events with
  | [] => []
  | (ans, event) :: events =>
      an_others ans (sw_tables w) ::
      match session_turn encode_event db_error_text agent_id ans event w with Some (Ok _, w') => turn_tables events w' | _ => [] end
  end.

Lemma turns_commands_ok heard events w r w' :
  sound agent_id seen heard w → Forall (λ x, ∀ t, kept t (an_others x.1 t)) events → Forall seen (turn_tables events w) →
  session_turns encode_event db_error_text agent_id events w = Some (r, w') →
  commands_ok agent_id seen (heard ++ events.*2) w'.
Proof.
  revert heard w. induction events as [|[ans event] events IH]; intros heard w Hw Hothers Hseen Hs; cbn in Hs, Hseen |- *.
  { apply st_ret_Some in Hs as [-> ->]. rewrite app_nil_r. by destruct Hw. }
  apply Forall_cons in Hothers as [Hans Hothers]. cbn in Hans. apply Forall_cons in Hseen as [Hnow Hseen].
  assert (proper agent_id seen (heard ++ [event]) (handle_session_event encode_event db_error_text agent_id ans event)) as Hp
    by (apply handle_proper; set_solver).
  assert (∀ r1 w1, session_turn encode_event db_error_text agent_id ans event w = Some (r1, w1) →
    commands_ok agent_id seen (heard ++ [event]) w1 ∧ match r1 with Ok _ => vars_ok agent_id seen (heard ++ [event]) w1 | Err _ => True end)
    as Hturn.
  { intros r1 w1 (? & ? & ->%st_modify_Some & H1)%st_bind_Some. eapply Hp; [|exact H1].
    apply (sound_mono _ _ heard); [set_solver|apply Hans|by eexists|done]. }
  apply st_try_Some in Hs as [([] & w1 & H1 & Hs)|(e & H1 & ->)].
  - rewrite H1 in Hseen. destruct (Hturn _ _ H1). change (event :: events.*2) with ([event] ++ events.*2). rewrite app_assoc. by eapply (IH _ w1).
  - destruct (Hturn _ _ H1) as [Hc _]. intros c (cat & ? & ? & ?)%Hc. exists cat. split_and!; [done| |done].
    eapply all_entitled_mono; [|done|done]. set_solver.
Qed.

(** The world after the two queries, and the tables of a session. *)
Definition session_start (w : SessionWorld) : SessionWorld :=
  mkWorld vars_new (sw_tables w) (sw_events w) (sw_pauses w) (sw_instances w) (sw_sent w ++ [MsgPolicyQuery; MsgCapabilityQuery]).
Definition session_tables (events : list (Answers * SessionEvent)) (w : SessionWorld) : list JobTables :=
  sw_tables w :: turn_tables events (session_start w).

End Turns.

(** ** Properties *)

(** C3. Every catalog a session sends is one the Agent may have: at every moment of a
    session, for every command that went out, the Agent had reported a policy,
    capabilities and an inventory, the jobs are in the catalog stored for this Agent in a
    table of the session (that of its start or of the start of one of its turns), read
    under that policy, and of a kind the Agent or its plugins offer, a plugin job is
    there only when the Agent had confirmed a runtime that configures the plugin, and
    the command is in the table of commands, so that its result will be recognised.
    This holds whatever the Agent sends, and whatever others commit meanwhile as long
    as they do not delete or rebind commands. *)
Theorem sent_jobs_are_entitled `{D : DefinitionCodec} `{W : WebCodecs} `{E : CatalogEncoding}
    `{RE : RuntimeEncoding} `{B2 : Blake2s} encode_event db_error_text agent_id ans registered events w r w' :
  sw_sent w = [] → Forall (λ x, ∀ t, kept t (an_others x.1 t)) events →
  run_business_session encode_event db_error_text agent_id ans registered events w = Some (r, w') →
  ∀ command, MsgCommand command ∈ sw_sent w' → ∃ catalog,
    jc_action command = Some (ActReplaceAll catalog) ∧
    all_entitled agent_id (λ t, t ∈ session_tables encode_event db_error_text agent_id events w) (events.*2) (sw_sent w') catalog ∧ stored_command agent_id command (sw_tables w').
Proof.
  intros Hempty Hothers Hs. set (seen := λ t, t ∈ session_tables encode_event db_error_text agent_id events w).
  enough (commands_ok agent_id seen (events.*2) w') as Hc by exact Hc.
  unfold run_business_session, send_message in Hs.
  apply st_try_Some in Hs as [([] & w1 & H1 & Hs)|(e & H1 & ->)]; destruct (an_send ans _) as [[]|] in H1; simplify_eq;
    [|intros c; rewrite Hempty; set_solver].
  apply st_try_Some in Hs as [([] & w2 & H1 & Hs)|(e & H1 & ->)]; destruct (an_send ans _) as [[]|] in H1; simplify_eq;
    [|intros c; cbn; rewrite Hempty; set_solver].
  apply st_bind_Some in Hs as ([] & ? & ->%st_modify_Some & Hs). cbn in Hs.
  destruct registered; [|apply st_ret_Some in Hs as [-> ->]; intros c; cbn; rewrite Hempty; set_solver].
  eapply (turns_commands_ok _ _ _ seen []) in Hs; [exact Hs| |exact Hothers|].
  - split; [|intros c; cbn; rewrite Hempty; set_solver]. split; try done. exists (sw_tables w). split; [left|done].
  - unfold session_start. cbn. rewrite Hempty. apply Forall_forall. intros t Ht. right. unfold session_start. by rewrite Hempty.
Qed.

Definition demo_sent_command : JobCommand := mkJobCommand (uuid_bytes 103) (Some (ActReplaceAll demo_session_catalog)).

Lemma sent_jobs_are_entitled_witness : ∃ catalog,
  jc_action demo_sent_command = Some (ActReplaceAll catalog) ∧
  all_entitled "agent-a" (λ t, t ∈ session_tables demo_payload demo_db_error "agent-a" (demo_turns demo_conversation) demo_session_world) ((demo_turns demo_conversation).*2) (sw_sent (demo_session_end demo_conversation)) catalog ∧
  stored_command "agent-a" demo_sent_command (sw_tables (demo_session_end demo_conversation)).
Proof.
  apply (sent_jobs_are_entitled demo_payload demo_db_error "agent-a" (demo_answers 99) true (demo_turns demo_conversation)
           demo_session_world (Ok tt) (demo_session_end demo_conversation)).
  - reflexivity.
  - apply demo_turns_kept.
  - apply demo_session_eq.
  - rewrite demo_session_messages. apply list_elem_of_In. right; right; right; right; left. reflexivity.
Defined.
