(* ===== verification/SessionSync.v ===== *)
(** * Synchronising catalogs over a session

    The reconcile summary an Agent opens with is forgotten when its first policy is
    accepted; repeated requests to resynchronise get one catalog; and the policies an
    Agent goes through are all accepted. *)

From stdpp Require Import base gmap strings list sorting relations.
From S2P Require Import Prelude StLogic Rotation Credential AgentState SchedModel Actor Proto Catalog JobEvents Policy Compiler RemoteJobs RemoteTheorems WebOps WebLife Session SessionDemo.

(** ** Invariants of successful computations *)

Section OkInv.
Context {S : Type} (I : S → Prop).

Definition ok_inv {T A} (m : ST S (result T A)) : Prop := ∀ s a s', I s → m s = Some (Ok a, s') → I s'.
Definition inv {A} (m : ST S A) : Prop := ∀ s a s', I s → m s = Some (a, s') → I s'.

Lemma ok_inv_ret {T A} (r : result T A) : ok_inv (mret r).
Proof. by intros s a s' Hs [_ ->]%st_ret_Some. Qed.
Lemma inv_ret {A} (a : A) : inv (mret a).
Proof. by intros s ? s' Hs [_ ->]%st_ret_Some. Qed.
Lemma ok_inv_try {T A B} (m : ST S (result T A)) (k : A → ST S (result T B)) :
  ok_inv m → (∀ a, ok_inv (k a)) → ok_inv (st_try m k).
Proof. intros Hm Hk s b s' Hs [(a & s1 & H1 & H2)|(e & _ & [=])]%st_try_Some. eapply Hk; [|done]. by eapply Hm. Qed.
Lemma ok_inv_bind {T A B} (m : ST S A) (f : A → ST S (result T B)) :
  inv m → (∀ a, ok_inv (f a)) → ok_inv (m ≫= f).
Proof. intros Hm Hf s b s' Hs (a & s1 & H1 & H2)%st_bind_Some. eapply Hf; [|done]. by eapply Hm. Qed.
Lemma ok_inv_get {T B} (f : S → ST S (result T B)) :
  (∀ s, I s → ∀ b s', f s s = Some (Ok b, s') → I s') → ok_inv (st_get ≫= f).
Proof. intros Hf s b s' Hs (? & ? & [-> ->]%st_get_Some & H)%st_bind_Some. by eapply Hf. Qed.
Lemma ok_inv_read {T B} (f : S → ST S (result T B)) : (∀ s, ok_inv (f s)) → ok_inv (st_get ≫= f).
Proof. intros Hf. apply ok_inv_get. intros s Hs b s' H. by eapply Hf. Qed.
Lemma inv_modify f : (∀ s, I s → I (f s)) → inv (st_modify f).
Proof. intros Hf s a s' Hs ->%st_modify_Some. by apply Hf. Qed.

End OkInv.

Create HintDb okinv.
#[export] Hint Resolve ok_inv_ret inv_ret : okinv.
(** One rule, by the shape of the computation. *)
Ltac okinv1 :=
  first
    [ solve [eauto 2 with okinv]
    | lazymatch goal with
      | |- ok_inv _ (st_try _ _) => apply ok_inv_try; [|intros ?]
      | |- ok_inv _ (_ ≫= _) => first [apply ok_inv_read; intros ?|apply ok_inv_bind; [|intros ?]]
      | |- ok_inv _ (if ?b then _ else _) => destruct b
      | |- inv _ (if ?b then _ else _) => destruct b
      | |- ok_inv _ (match ?x with _ => _ end) => destruct x
      end ].
Ltac okinvs := repeat (cbv beta zeta; okinv1).

(** ** The reconcile summary *)

Section Summary.
Context `{D : DefinitionCodec} `{W : WebCodecs} `{E : CatalogEncoding} `{RE : RuntimeEncoding} `{B2 : Blake2s}.
Context (encode_event : JobEvent → bytes) (db_error_text : JobDbError → string) (agent_id : string).
Implicit Types (w : SessionWorld).

(** There is no summary, and nothing was left out because the Agent had it. *)
Record unskipped w : Prop := {
  us_summary : sv_reconcile_summary (sw_vars w) = None;
  us_runtime s : sv_sent_plugin_runtime (sw_vars w) = Some s → MsgRuntime s ∈ sw_sent w;
  us_catalog c : sv_last_sent_catalog (sw_vars w) = Some c →
    ∃ id, MsgCommand (mkJobCommand id (Some (ActReplaceAll c))) ∈ sw_sent w;
}.

Lemma us_modify_vars f :
  (∀ w, unskipped w →
     unskipped (mkWorld (f (sw_vars w)) (sw_tables w) (sw_events w) (sw_pauses w) (sw_instances w) (sw_sent w))) →
  inv unskipped (modify_vars f).
Proof. intros Hf. apply inv_modify. exact Hf. Qed.

Lemma us_world w w' :
  unskipped w → sw_vars w' = sw_vars w → sw_sent w ⊆ sw_sent w' → unskipped w'.
Proof.
  intros [H1 H2 H3] Hv Hs. split; rewrite Hv; [done|set_solver|]. intros c (id & ?)%H3. exists id. set_solver.
Qed.

Lemma us_send ans m : ok_inv unskipped (send_message ans m).
Proof.
  intros w [] w' Hw. unfold send_message. destruct (an_send ans _) as [[]|]; intros [= <-].
  eapply us_world; [exact Hw|done|set_solver].
Qed.

Lemma us_on_tables {A} (m : ST JobTables (result JobDbError A)) : inv unskipped (on_tables m).
Proof.
  intros w r w' Hw. unfold on_tables. destruct (m _) as [[r0 t]|]; intros [= <- <-]. by eapply us_world.
Qed.

Lemma us_issue ans c : ok_inv unskipped (issue_command db_error_text agent_id ans c).
Proof.
  intros w [] w' Hw Hs. apply st_bind_Some in Hs as (r1 & w1 & H1 & Hs). apply us_on_tables in H1; [|done].
  apply st_try_Some in Hs as [([] & ? & [_ ->]%st_ret_Some & Hs)|(? & _ & [=])].
  apply st_try_Some in Hs as [([] & w2 & H2 & Hs)|(? & _ & [=])]. pose proof H2 as Hw2. apply us_send in Hw2; [|done].
  apply st_bind_Some in Hs as ([] & ? & ->%st_modify_Some & [_ ->]%st_ret_Some).
  unfold send_message in H2. destruct (an_send ans _) as [[]|]; simplify_eq.
  destruct Hw2 as [Ha Hb Hc]. split; [exact Ha|exact Hb|]. cbn. intros c' [= <-]. exists (an_uuid ans). set_solver.
Qed.

Lemma us_catalog_sent ans policy capability inventory runtime force :
  ok_inv unskipped (send_job_catalog db_error_text agent_id ans policy capability inventory runtime None force).
Proof.
  apply ok_inv_get. intros w Hw b w' Hs. destruct (load_catalog _ _ _ _ _ _ _) as [[c|]|];
    try (by apply st_ret_Some in Hs as [_ ->]). cbv zeta in Hs. st_case; [by apply st_ret_Some in Hs as [_ ->]|].
  rewrite andb_false_r in Hs. apply st_try_Some in Hs as [(? & w1 & H1 & [_ ->]%st_ret_Some)|(? & _ & [=])].
  by apply us_issue in H1.
Qed.

Lemma us_runtime_sent ans force : ok_inv unskipped (send_plugin_runtime_snapshot agent_id ans None force).
Proof.
  intros w b w' Hw Hs. unfold send_plugin_runtime_snapshot in Hs.
  destruct (an_runtime ans) as [s|]; [|by apply st_ret_Some in Hs as [_ ->]].
  apply st_bind_Some in Hs as ([] & ? & ->%st_modify_Some & Hs).
  apply st_bind_Some in Hs as ([] & ? & ->%st_modify_Some & Hs).
  unfold send_message in Hs. destruct (an_send ans _) as [[]|]; simplify_eq.
  destruct Hw as [Ha Hb Hc]. split; cbn; [done|intros ? [= <-]; set_solver|]. intros c (id & ?)%Hc. exists id. set_solver.
Qed.

Lemma us_if_ready ans done_ : inv unskipped done_ → ok_inv unskipped (send_if_ready db_error_text agent_id ans done_).
Proof.
  intros Hd. apply ok_inv_get. intros w Hw b w' Hs. cbv zeta in Hs.
  rewrite (us_summary w Hw) in Hs.
  destruct (sv_plugin_runtime_ready (sw_vars w)), (sv_accepted_policy (sw_vars w)), (sv_accepted_capability (sw_vars w)),
    (sv_accepted_plugin_inventory (sw_vars w)); try (by apply st_ret_Some in Hs as [_ ->]).
  apply st_bind_Some in Hs as (rt & ? & [_ ->]%st_expect_Some & Hs).
  apply st_try_Some in Hs as [(? & w1 & H1 & Hs)|(? & _ & [=])]. apply us_catalog_sent in H1; [|done].
  apply st_bind_Some in Hs as (? & ? & H2 & [_ ->]%st_ret_Some). by eapply Hd.
Qed.

Lemma us_send_runtime ans : ok_inv unskipped (send_runtime agent_id ans).
Proof. apply ok_inv_get. intros w Hw b w' Hs. rewrite (us_summary w Hw) in Hs. by apply us_runtime_sent in Hs. Qed.

Lemma us_converged : inv unskipped converged.
Proof. apply us_modify_vars. intros w []. by split. Qed.
Lemma us_no_change : inv unskipped no_change.
Proof. apply inv_ret. Qed.

#[local] Hint Resolve us_send us_on_tables us_if_ready us_send_runtime us_converged us_no_change : okinv.
#[local] Hint Extern 1 (inv _ (modify_vars _)) =>
  (apply us_modify_vars; intros ? []; split; cbn; intros; simplify_eq; by eauto) : okinv.

Definition is_summary (event : SessionEvent) : Prop := match event with EvSummary _ => True | _ => False end.

Lemma us_handle ans event :
  ¬ is_summary event → ok_inv unskipped (handle_session_event encode_event db_error_text agent_id ans event).
Proof.
  intros Hne. destruct event as [| |body|summary|body|[inv0|h b|rev acc|m| |]|result| |event|]; cbn;
    unfold on_catalog_changed, on_policy, accept_policy, on_capability, on_inventory,
      on_schema_response; try solve [okinvs]; try done.
  - apply ok_inv_get. intros w Hw b w' Hs. destruct (sv_accepted_plugin_inventory _); [|by apply st_ret_Some in Hs as [_ ->]].
    rewrite (us_summary w Hw) in Hs. apply st_bind_Some in Hs as ([] & ? & ->%st_modify_Some & Hs).
    apply us_runtime_sent in Hs; [done|]. destruct Hw. by split.
  - apply ok_inv_get. intros w Hw b w' Hs. destruct (sv_sent_plugin_runtime (sw_vars w)) as [s|] eqn:Hrt; [|by apply us_send in Hs].
    st_case; [by apply us_send in Hs|]. st_case; [by apply st_ret_Some in Hs as [_ ->]|].
    apply st_bind_Some in Hs as ([] & ? & ->%st_modify_Some & Hs). apply us_if_ready in Hs; [done|apply us_converged|].
    destruct Hw. split; cbn; intros; simplify_eq; eauto.
  - apply ok_inv_read. intros w. cbv zeta. destruct (negb _); [apply us_send|].
    destruct (pause_record agent_id m (sw_pauses w)) as [r pauses].
    apply ok_inv_bind; [apply inv_modify; intros w1 Hw; by eapply us_world|]. intros _.
    destruct r; [|apply us_send]. apply ok_inv_try; [|intros _; apply us_send].
    destruct (sv_last_sent_catalog _); [apply us_issue|apply ok_inv_ret].
  - apply ok_inv_bind; [apply us_on_tables|]. intros _. apply ok_inv_get. intros w Hw b w' Hs. cbv zeta in Hs.
    rewrite (us_summary w Hw) in Hs.
    match type of Hs with ?m w = _ => enough (ok_inv unskipped m) as Hm by (by eapply Hm) end.
    okinvs. apply us_catalog_sent.
  - intros w b w' Hw. unfold on_job_event.
    destruct (handle_job_event encode_event (sw_tables w) agent_id event (an_now ans) (sw_events w)) as [r rows].
    intros [= _ <-]. by eapply us_world.
Qed.

Lemma us_turn ans event :
  ¬ is_summary event → ok_inv unskipped (session_turn encode_event db_error_text agent_id ans event).
Proof.
  intros Hne. apply ok_inv_bind; [|intros _; by apply us_handle]. apply inv_modify. intros w Hw. by eapply us_world.
Qed.

Lemma us_turns events :
  Forall (λ x, ¬ is_summary x.2) events → ok_inv unskipped (session_turns encode_event db_error_text agent_id events).
Proof.
  induction 1 as [|[ans event] events Hne _ IH]; cbn; [apply ok_inv_ret|]. apply ok_inv_try; [by apply us_turn|done].
Qed.

(** Nothing sent and no policy yet. *)
Definition fresh w : Prop :=
  sv_accepted_policy (sw_vars w) = None ∧ sv_sent_plugin_runtime (sw_vars w) = None ∧
  sv_plugin_runtime_ready (sw_vars w) = false ∧ sv_last_sent_catalog (sw_vars w) = None.

Lemma summary_turn ans summary : ok_inv fresh (session_turn encode_event db_error_text agent_id ans (EvSummary summary)).
Proof.
  apply ok_inv_bind; [by apply inv_modify|]. intros _. cbn. unfold on_summary.
  destruct (validate_reconcile_summary _); [|apply ok_inv_bind; [by apply inv_modify|intros; apply ok_inv_ret]].
  apply ok_inv_read. intros w. cbn. apply ok_inv_bind; [by apply inv_modify|]. intros _.
  apply ok_inv_bind; [by apply inv_modify|]. intros _. apply ok_inv_ret.
Qed.

Lemma first_policy_turn ans policy w w' :
  fresh w → validate_policy_snapshot policy None = Ok tt →
  session_turn encode_event db_error_text agent_id ans (EvPolicy (Some policy)) w = Some (Ok tt, w') → unskipped w'.
Proof.
  intros (Hp & Hrt & Hr & Hl) Hval (? & ? & ->%st_modify_Some & Hs)%st_bind_Some. cbn in Hs. unfold on_policy in Hs.
  apply st_bind_Some in Hs as (? & ? & [-> ->]%st_get_Some & Hs). cbn in Hs. rewrite Hp in Hs. unfold accept_policy in Hs.
  apply st_bind_Some in Hs as (? & ? & [-> ->]%st_get_Some & Hs). cbn in Hs. rewrite Hp, Hval in Hs.
  apply st_bind_Some in Hs as ([] & ? & ->%st_modify_Some & Hs).
  rewrite bool_decide_eq_false_2 in Hs by done.
  apply st_bind_Some in Hs as ([] & ? & ->%st_modify_Some & Hs).
  apply st_try_Some in Hs as [([] & w2 & H2 & Hs)|(? & _ & [=])]. apply us_send in H2.
  - by apply us_if_ready in Hs; [|apply us_no_change|].
  - split; cbn; congruence.
Qed.

End Summary.

(** Defect: the reconcile summary is never used.  An Agent opens a session with its
    summary and then its policy ([main.rs]), so that the Server need not send what it
    already has.  But the first policy of a session counts as a change of policy and
    makes the Server forget the summary: whatever the Agent and the Server do
    afterwards, short of a second summary, there is no summary, and every runtime and
    every catalog the session takes as synchronised was sent over the connection. *)
Theorem reconcile_summary_lost `{D : DefinitionCodec} `{W : WebCodecs} `{E : CatalogEncoding} `{RE : RuntimeEncoding}
    `{B2 : Blake2s} encode_event db_error_text agent_id ans1 ans2 summary policy events w w' :
  sw_vars w = vars_new → validate_policy_snapshot policy None = Ok tt → Forall (λ x, ¬ is_summary x.2) events →
  session_turns encode_event db_error_text agent_id
    ((ans1, EvSummary summary) :: (ans2, EvPolicy (Some policy)) :: events) w = Some (Ok tt, w') →
  sv_reconcile_summary (sw_vars w') = None ∧
  (∀ s, sv_sent_plugin_runtime (sw_vars w') = Some s → MsgRuntime s ∈ sw_sent w') ∧
  (∀ c, sv_last_sent_catalog (sw_vars w') = Some c →
     ∃ id, MsgCommand (mkJobCommand id (Some (ActReplaceAll c))) ∈ sw_sent w').
Proof.
  intros Hnew Hval Hrest Hs. cbn in Hs.
  apply st_try_Some in Hs as [([] & w1 & H1 & Hs)|(? & _ & [=])].
  apply summary_turn in H1; [|unfold fresh; by rewrite Hnew].
  apply st_try_Some in Hs as [([] & w2 & H2 & Hs)|(? & _ & [=])]. apply first_policy_turn in H2; [|done..].
  by apply us_turns in Hs as [? ? ?].
Qed.

(** The Server knows the Agent's process, and the Agent has the runtime and the catalog
    the Server sends it again. *)
Definition demo_reconnect : list SessionEvent := drop 1 demo_profile ++ [EvPlugin (PluginAcknowledgement 4 true)].
Definition demo_known_world : SessionWorld :=
  mkWorld vars_new demo_session_tables [] ∅ {["agent-a" := replicate 16 8]} [].
Definition demo_reconnect_end : SessionWorld :=
  match session_turns demo_payload demo_db_error "agent-a"
          ((demo_answers 1, EvSummary demo_summary) :: (demo_answers 2, EvPolicy (Some allow_all)) :: demo_turns demo_reconnect)
          demo_known_world with
  | Some (_, w) => w
  | None => demo_known_world
  end.

Lemma demo_reconnect_eq :
  session_turns demo_payload demo_db_error "agent-a"
    ((demo_answers 1, EvSummary demo_summary) :: (demo_answers 2, EvPolicy (Some allow_all)) :: demo_turns demo_reconnect)
    demo_known_world = Some (Ok tt, demo_reconnect_end).
Proof. vm_compute. reflexivity. Qed.

Lemma reconcile_summary_lost_witness :
  validate_reconcile_summary demo_summary = Ok tt ∧
  sum_runtime_digest demo_summary = runtime_digest demo_runtime_snapshot ∧
  sum_catalog_digest demo_summary = catalog_digest demo_session_catalog ∧
  MsgRuntime demo_runtime_snapshot ∈ sw_sent demo_reconnect_end ∧
  ∃ id, MsgCommand (mkJobCommand id (Some (ActReplaceAll demo_session_catalog))) ∈ sw_sent demo_reconnect_end.
Proof.
  split; [vm_compute; reflexivity|]. split; [reflexivity|]. split; [reflexivity|].
  destruct (reconcile_summary_lost demo_payload demo_db_error "agent-a" (demo_answers 1) (demo_answers 2) demo_summary
    allow_all (demo_turns demo_reconnect) demo_known_world demo_reconnect_end) as (_ & Hr & Hc).
  - reflexivity.
  - reflexivity.
  - repeat constructor; intros [].
  - apply demo_reconnect_eq.
  - split; [apply Hr; vm_compute; reflexivity|]. apply Hc. vm_compute. reflexivity.
Defined.

(** ** Resynchronisation requests *)

Section Storm.
Context `{D : DefinitionCodec} `{W : WebCodecs} `{E : CatalogEncoding} `{RE : RuntimeEncoding} `{B2 : Blake2s}.
Context (encode_event : JobEvent → bytes) (db_error_text : JobDbError → string) (agent_id : string).
Implicit Types (w : SessionWorld).

(** A result that is not a success and asks at most for a catalog after [revision]. *)
Definition asks_again (revision : Z) (event : SessionEvent) : Prop :=
  ∃ result, event = EvCommandResult result ∧ wr_status result ≠ 1 ∧
    (wr_status result = 3 → wr_catalog_revision result = revision).

(** A command that is sent is the last message. *)
Lemma issue_sends ans catalog w r w' :
  issue_command db_error_text agent_id ans catalog w = Some (r, w') →
  sv_resync_requested_revision (sw_vars w') = sv_resync_requested_revision (sw_vars w) ∧
  (sw_sent w' = sw_sent w ∨ ∃ c, sw_sent w' = sw_sent w ++ [MsgCommand c]) ∧ (r = Ok tt → sw_sent w' ≠ sw_sent w).
Proof.
  intros (r1 & w1 & H1 & Hs)%st_bind_Some.
  unfold on_tables in H1. destruct (record_job_command _ _ _ _) as [[r2 t]|]; [|done]. injection H1 as -> <-.
  apply st_try_Some in Hs as [(? & ? & [_ ->]%st_ret_Some & Hs)|(? & [_ ->]%st_ret_Some & ->)]; [|by auto].
  unfold st_try in Hs. apply st_bind_Some in Hs as (r3 & w3 & H3 & Hs). unfold send_message in H3.
  destruct (an_send ans _) as [[]|e]; injection H3 as <- <-; [|apply st_ret_Some in Hs as [-> ->]; by auto].
  apply st_bind_Some in Hs as (? & ? & ->%st_modify_Some & [-> ->]%st_ret_Some). cbn.
  split; [done|]. split; [eauto|]. intros _ Hl%(f_equal length). rewrite length_app in Hl. cbn in Hl. lia.
Qed.

(** What [send_job_catalog] may send. *)
Lemma catalog_sends ans policy capability inventory runtime reconcile force w r w' :
  send_job_catalog db_error_text agent_id ans policy capability inventory runtime reconcile force w = Some (r, w') →
  sv_resync_requested_revision (sw_vars w') = sv_resync_requested_revision (sw_vars w) ∧
  (sw_sent w' = sw_sent w ∨ r ≠ Ok false ∧ ∃ c, sw_sent w' = sw_sent w ++ [MsgCommand c]).
Proof.
  intros (? & ? & [-> ->]%st_get_Some & Hs)%st_bind_Some.
  destruct (load_catalog _ _ _ _ _ _ _) as [[c|]|]; try (apply st_ret_Some in Hs as [-> ->]; by auto).
  cbv zeta in Hs. st_case; [apply st_ret_Some in Hs as [-> ->]; by auto|]. st_case.
  { apply st_bind_Some in Hs as ([] & ? & ->%st_modify_Some & [-> ->]%st_ret_Some). by auto. }
  apply st_try_Some in Hs as [(? & w1 & H1 & [-> ->]%st_ret_Some)|(? & H1 & ->)];
    apply issue_sends in H1 as (? & [?|[c' ?]] & _); eauto 6.
Qed.

(** A request that is already answered, and one that is not. *)
Lemma asks_again_turn revision ans event w r w' :
  asks_again revision event →
  session_turn encode_event db_error_text agent_id ans event w = Some (r, w') →
  (sw_sent w' = sw_sent w ∧
   sv_resync_requested_revision (sw_vars w') ∈ [sv_resync_requested_revision (sw_vars w); Some revision]) ∨
  (∃ c, sw_sent w' = sw_sent w ++ [MsgCommand c] ∧ sv_resync_requested_revision (sw_vars w) ≠ Some revision ∧
     (r = Ok tt → sv_resync_requested_revision (sw_vars w') = Some revision)).
Proof.
  intros (result & -> & H1 & H3) (? & ? & ->%st_modify_Some & Hs)%st_bind_Some. cbn in Hs. unfold on_command_result in Hs.
  apply st_bind_Some in Hs as (r1 & w1 & Ht & Hs). unfold on_tables in Ht.
  destruct (complete_job_command _ _ _ _) as [[r2 t]|]; [|done]. injection Ht as -> <-.
  apply st_bind_Some in Hs as (? & ? & [-> ->]%st_get_Some & Hs). cbn in Hs.
  rewrite bool_decide_eq_false_2 in Hs by done.
  match type of Hs with (if ?b then _ else _) _ = _ => destruct b eqn:Hb end;
    [|apply st_ret_Some in Hs as [-> ->]; left; split; [done|left]].
  apply andb_true_iff in Hb as [Hrev%bool_decide_eq_true_1%H3 Hne]. rewrite Hrev in *. bools.
  destruct (sv_plugin_runtime_ready (sw_vars w)), (sv_accepted_policy (sw_vars w)), (sv_accepted_capability (sw_vars w)),
    (sv_accepted_plugin_inventory (sw_vars w)), (sv_sent_plugin_runtime (sw_vars w));
    try (apply st_ret_Some in Hs as [-> ->]; left; split; [done|left]).
  apply st_try_Some in Hs as [(sent & w1 & Hc & Hs)|(e & Hc & ->)]; apply catalog_sends in Hc as (Hr & Hsent); cbn in *.
  - apply st_bind_Some in Hs as ([] & w2 & H2 & [-> ->]%st_ret_Some).
    assert (sw_sent w2 = sw_sent w1 ∧ sv_resync_requested_revision (sw_vars w2) =
      if sent then Some revision else sv_resync_requested_revision (sw_vars w)) as [-> ->]
      by (destruct sent; [by apply st_modify_Some in H2 as ->|by apply st_ret_Some in H2 as [_ ->]]).
    destruct Hsent as [->|[Hf (c & ->)]]; [left; split; [done|]; destruct sent; set_solver|].
    right. exists c. destruct sent; [done|by destruct Hf].
  - destruct Hsent as [->|[_ (c & ->)]]; [left; split; [done|]; rewrite Hr; left|]. right. by exists c.
Qed.

Lemma answered_once revision events w r w' :
  Forall (λ x, asks_again revision x.2) events → sv_resync_requested_revision (sw_vars w) = Some revision →
  session_turns encode_event db_error_text agent_id events w = Some (r, w') → sw_sent w' = sw_sent w.
Proof.
  intros Hall. revert w. induction Hall as [|[ans event] events Ha _ IH]; intros w Hw Hs; cbn in Hs.
  { by apply st_ret_Some in Hs as [_ ->]. }
  apply st_try_Some in Hs as [([] & w1 & H1 & Hs)|(e & H1 & ->)];
    apply (asks_again_turn revision) in H1 as [[Hsent Hr]|(c & _ & Hne & _)]; try done.
  rewrite <- Hsent. apply IH; [|done]. rewrite Hw in Hr. set_solver.
Qed.

End Storm.

(** Resynchronisation requests cause no storm of commands: however many results of an
    Agent ask for the catalog after the same revision, and whatever else failed
    results say, the session sends the catalog at most once, until a command is
    applied or the catalog changes. *)
Theorem no_resync_storm `{D : DefinitionCodec} `{W : WebCodecs} `{E : CatalogEncoding} `{RE : RuntimeEncoding}
    `{B2 : Blake2s} encode_event db_error_text agent_id revision events w r w' :
  Forall (λ x, asks_again revision x.2) events →
  session_turns encode_event db_error_text agent_id events w = Some (r, w') →
  sw_sent w' = sw_sent w ∨ ∃ command, sw_sent w' = sw_sent w ++ [MsgCommand command].
Proof.
  intros Hall. revert w. induction Hall as [|[ans event] events Ha Hall IH]; intros w Hs; cbn in Hs.
  { apply st_ret_Some in Hs as [_ ->]. by left. }
  apply st_try_Some in Hs as [([] & w1 & H1 & Hs)|(e & H1 & ->)];
    apply (asks_again_turn encode_event db_error_text agent_id revision) in H1 as [[Hsent _]|(c & Hsent & _ & Hr)]; try done; eauto.
  - rewrite <- Hsent. by apply IH.
  - apply (answered_once encode_event db_error_text agent_id revision) in Hs as ->; eauto.
Qed.

Definition demo_ask : SessionEvent := EvCommandResult (mkWireResult (uuid_bytes 103) 3 0 None []).
Definition demo_ready_world : SessionWorld := demo_session_end (take 4 demo_conversation).
Definition demo_asked : SessionWorld :=
  match session_turns demo_payload demo_db_error "agent-a" (demo_turns [demo_ask; demo_ask; demo_ask]) demo_ready_world with
  | Some (_, w) => w
  | None => demo_ready_world
  end.
Lemma demo_asked_eq :
  session_turns demo_payload demo_db_error "agent-a" (demo_turns [demo_ask; demo_ask; demo_ask]) demo_ready_world =
  Some (Ok tt, demo_asked).
Proof. vm_compute. reflexivity. Qed.

Lemma no_resync_storm_witness :
  length (sw_sent demo_asked) = S (length (sw_sent demo_ready_world)) ∧
  (sw_sent demo_asked = sw_sent demo_ready_world ∨
   ∃ command, sw_sent demo_asked = sw_sent demo_ready_world ++ [MsgCommand command]).
Proof.
  split; [vm_compute; reflexivity|].
  apply (no_resync_storm demo_payload demo_db_error "agent-a" 0 (demo_turns [demo_ask; demo_ask; demo_ask]) demo_ready_world (Ok tt)).
  - unfold demo_turns, imap. repeat constructor; (eexists; split; [reflexivity|split; [discriminate|reflexivity]]).
  - apply demo_asked_eq.
Defined.

(** ** Policies *)

(** A change of the policy in a running Agent, successful or not. *)
Definition policy_step (p p' : RemoteJobPolicy) : Prop :=
  ∃ ok change files r m', policy_apply ok change (mkPolicyManager p files) = Some (r, m') ∧ pm_policy m' = p'.

(** The limits of the Server. *)
Definition policy_in_limits (p : RemoteJobPolicy) : Prop :=
  (size (pol_denied_task_kinds p) ≤ MAX_DENIED_TASK_KINDS)%nat ∧
  ∀ kind, kind ∈ pol_denied_task_kinds p → sized MAX_TASK_KIND_BYTES kind = true.

Definition policy_message (p : RemoteJobPolicy) : AgentJobPolicySnapshot := to_protocol_message (policy_snapshot p).

Lemma policy_step_revision p p' : policy_step p p' → p' = p ∨ pol_revision p < pol_revision p'.
Proof.
  intros (ok & change & files & r & m' & Ha & <-). unfold policy_apply in Ha. cbn in Ha.
  destruct (change_candidate change p) as [changed candidate] eqn:Hc.
  assert (pol_revision candidate = pol_revision p) as Hrev
    by (unfold change_candidate in Hc; destruct change; simplify_eq; done).
  destruct changed; cbn in Ha; [|injection Ha as _ <-; by left].
  destruct (checked_add_u64 _ _) as [rev|] eqn:Hadd; [|injection Ha as _ <-; by left].
  apply checked_add_u64_Some in Hadd as [Hadd _]. assert (pol_revision p < rev) as Hlt by lia.
  destruct files as [fs|]; [|injection Ha as _ <-; by right].
  destruct (persist ok _ fs) as [[[[]|e] fs']|]; [injection Ha as _ <-; by right|injection Ha as _ <-; by left|done].
Qed.

Lemma policy_steps_revision p p' : rtc policy_step p p' → p' = p ∨ pol_revision p < pol_revision p'.
Proof.
  induction 1 as [p|p p1 p2 H1 _ IH]; [by left|]. apply policy_step_revision in H1.
  destruct H1 as [->|?], IH as [->|?]; auto. right. lia.
Qed.

Lemma windows_sorted_nodup (l : list string) :
  StronglySorted string_le l → NoDup l → windows_any string_ge l = false.
Proof.
  induction 1 as [|x [|y l] Hs IH Hx]; intros Hnd; [done..|]. apply NoDup_cons in Hnd as [Hnx Hnd].
  cbn. apply orb_false_iff. split; [|by apply IH]. apply bool_decide_eq_false_2. intros Hle.
  apply Hnx. rewrite (anti_symm string_le x y); [left| |done]. by apply Forall_cons in Hx as [? _].
Qed.

Lemma in_limits_valid p : policy_in_limits p → validate_policy_snapshot (policy_message p) None = Ok tt.
Proof.
  intros [Hsize Hkinds]. unfold validate_policy_snapshot. cbn.
  rewrite bool_decide_eq_false_2 by (rewrite merge_sort_Permutation; unfold size, set_size in Hsize; cbn in *; lia).
  destruct (existsb bad_kind _) eqn:Hbad.
  { apply existsb_exists in Hbad as (kind & Hin%list_elem_of_In & Hbad).
    rewrite merge_sort_Permutation, elem_of_elements in Hin. unfold bad_kind in Hbad. by rewrite (Hkinds _ Hin) in Hbad. }
  rewrite windows_sorted_nodup; [done|apply policy_snapshot_sorted|]. rewrite merge_sort_Permutation. apply NoDup_elements.
Qed.

(** The Server accepts every policy an Agent goes through: a snapshot the Agent sends
    of a policy within the Server's limits is valid for a new session, and for a
    session that has accepted any earlier policy of the same process, even if changes
    in between were not reported or failed; an earlier policy that differs is
    recognised as older. *)
Theorem agent_policies_accepted p p' :
  rtc policy_step p p' → policy_in_limits p' →
  validate_policy_snapshot (policy_message p') None = Ok tt ∧
  validate_policy_snapshot (policy_message p') (Some (policy_message p)) = Ok tt ∧
  (p ≠ p' → aps_revision (policy_message p) < aps_revision (policy_message p')).
Proof.
  intros Hsteps%policy_steps_revision Hlim. pose proof (in_limits_valid p' Hlim) as Hval.
  split; [done|]. split; [|destruct Hsteps as [->|Hlt]; [done|by intros _]].
  unfold validate_policy_snapshot in *. repeat (case_match; [done|]).
  change (aps_revision (policy_message p')) with (pol_revision p').
  change (aps_revision (policy_message p)) with (pol_revision p).
  destruct Hsteps as [->|Hlt].
  - rewrite bool_decide_eq_false_2 by lia. by rewrite !bool_decide_eq_true_2.
  - rewrite !bool_decide_eq_false_2 by lia. done.
Qed.

Lemma agent_policies_accepted_witness :
  validate_policy_snapshot (policy_message (pm_policy demo_policy_after)) (Some (policy_message (policy_new true []))) = Ok tt.
Proof.
  apply (agent_policies_accepted (policy_new true []) (pm_policy demo_policy_after)).
  - apply rtc_once. exists (λ _, true), demo_change, (pm_files demo_policy_manager). eexists _, _.
    split; [apply demo_policy_apply|reflexivity].
  - split; [vm_compute; lia|]. intros kind Hin. apply elem_of_elements in Hin. revert Hin. vm_compute elements.
    intros ->%list_elem_of_singleton. vm_compute. reflexivity.
Defined.
