(* ===== verification/WorkerFrames.v ===== *)
(** * Frames between an Agent and a plugin worker

    [crates/smalux-plus/smalux-plus-core/src/framing.rs]: messages on the standard input and
    output of a worker, each behind its length in four bytes.  The reader is the bytes
    that come before the end of the stream; the writer is the bytes that have been
    written, and each of its calls may fail after a part.  [WorkerFrame] and its
    [prost] encoding are the class [FrameCodec]. *)

From stdpp Require Import base list strings.
From S2P Require Import Prelude Rotation.

(** [PluginError]. *)
Inductive PluginError : Type :=
| InvalidManifest (message : string)
| IdentityMismatch (expected actual : string)
| ExecutionFailed (message : string).

Class FrameCodec : Type := {
  WorkerFrame : Type;
  encode_frame : WorkerFrame → bytes;
  decode_frame : bytes → option WorkerFrame;
}.
Class FrameCodecLaws (FC : FrameCodec) : Prop :=
  frame_roundtrip f : decode_frame (encode_frame f) = Some f.

Definition MAX_FRAME_BYTES : Z := 8 * 1024 * 1024.

(** [u32::to_be_bytes] and [u32::from_be_bytes]. *)
Definition to_be_bytes (n : Z) : bytes := [n / 16777216 mod 256; n / 65536 mod 256; n / 256 mod 256; n mod 256].
Definition from_be_bytes (bs : bytes) : Z := foldl (λ n b, n * 256 + b) 0 bs.

(** [read_exact]. *)
Definition read_exact (n : nat) (stream : bytes) : option (bytes * bytes) :=
  if bool_decide (n ≤ length stream)%nat then Some (take n stream, drop n stream) else None.

(** How a call of the writer ends: complete, or failed after a number of bytes. *)
Inductive WriteOutcome : Type := WriteOk | WriteErr (written : nat).
Definition write_all (o : WriteOutcome) (bs out : bytes) : result PluginError unit * bytes :=
  match o with
  | WriteOk => (Ok tt, out ++ bs)
  | WriteErr n => (Err (ExecutionFailed "write"), out ++ take n bs)
  end.

Section Frames.
Context `{FC : FrameCodec}.

(** [read_frame]: the end of the stream within the length counts as the end. *)
Definition read_frame (stream : bytes) : result PluginError (option WorkerFrame) * bytes :=
  match read_exact 4 stream with
  | None => (Ok None, [])
  | Some (length, rest) =>
      let n := from_be_bytes length in
      if bool_decide (n = 0) || bool_decide (MAX_FRAME_BYTES < n)
      then (Err (ExecutionFailed "invalid Worker frame length"), rest)
      else
        match read_exact (Z.to_nat n) rest with
        | None => (Err (ExecutionFailed "early eof"), [])
        | Some (bs, rest) => (Some <$> ok_or (ExecutionFailed "invalid Worker protobuf") (decode_frame bs), rest)
        end
  end.

(** [write_frame]; [io] are the outcomes of its two writes and of the flush. *)
Definition write_frame (io : nat → WriteOutcome) (frame : WorkerFrame) (out : bytes) : result PluginError unit * bytes :=
  let bs := encode_frame frame in
  if bool_decide (bs = []) || bool_decide (MAX_FRAME_BYTES < zlen bs)
  then (Err (ExecutionFailed "Worker frame exceeds the limit"), out)
  else
    match write_all (io 0%nat) (to_be_bytes (zlen bs)) out with
    | (Err e, out) => (Err e, out)
    | (Ok _, out) =>
        match write_all (io 1%nat) bs out with
        | (Err e, out) => (Err e, out)
        | (Ok _, out) =>
            (match io 2%nat with WriteOk => Ok tt | WriteErr _ => Err (ExecutionFailed "flush") end, out)
        end
    end.

(** A reader that calls [read_frame] until it returns no frame; how it ends. *)
Inductive ReadEnd : Type := EndOfStream | EndError (e : PluginError) | OutOfTurns.
Fixpoint read_frames (turns : nat) (stream : bytes) : list WorkerFrame * ReadEnd :=
  match turns with
  | 0%nat => ([], OutOfTurns)
  | S turns =>
      match read_frame stream with
      | (Ok None, _) => ([], EndOfStream)
      | (Err e, _) => ([], EndError e)
      | (Ok (Some f), rest) => let '(fs, e) := read_frames turns rest in (f :: fs, e)
      end
  end.

(** Frames written one after the other, each with the outcomes of its calls: neither side
    gives up its pipe when a write has failed. *)
Fixpoint write_frames (writes : list ((nat → WriteOutcome) * WorkerFrame)) (out : bytes) : list (result PluginError unit) * bytes :=
  match writes with
  | [] => ([], out)
  | (io, f) :: writes =>
      let '(r, out) := write_frame io f out in
      let '(rs, out) := write_frames writes out in
      (r :: rs, out)
  end.

End Frames.

(** ** What is written is what is read *)

Lemma be_bytes_roundtrip n : 0 ≤ n < 4294967296 → from_be_bytes (to_be_bytes n) = n.
Proof. intros Hn. unfold from_be_bytes, to_be_bytes. cbn [foldl]. Z.to_euclidean_division_equations. lia. Qed.

Lemma read_exact_app n a b : length a = n → read_exact n (a ++ b) = Some (a, b).
Proof.
  intros <-. unfold read_exact. rewrite bool_decide_eq_true_2 by (rewrite length_app; lia).
  by rewrite take_app_length, drop_app_length.
Qed.

Lemma read_exact_short n a : (length a < n)%nat → read_exact n a = None.
Proof. intros H. unfold read_exact. by rewrite bool_decide_eq_false_2 by lia. Qed.

Section Roundtrip.
Context `{FC : FrameCodec} `{FL : !FrameCodecLaws FC}.

Definition framed (f : WorkerFrame) : bytes := to_be_bytes (zlen (encode_frame f)) ++ encode_frame f.
Definition sendable (f : WorkerFrame) : Prop := encode_frame f ≠ [] ∧ zlen (encode_frame f) ≤ MAX_FRAME_BYTES.

Lemma sendable_length f : sendable f → 0 < zlen (encode_frame f) < 4294967296.
Proof.
  intros [Hne Hmax]. unfold MAX_FRAME_BYTES in Hmax. split; [|lia].
  unfold zlen. destruct (encode_frame f); [done|cbn; lia].
Qed.

Lemma read_frame_header f rest : sendable f →
  read_frame (to_be_bytes (zlen (encode_frame f)) ++ rest) =
  match read_exact (length (encode_frame f)) rest with
  | None => (Err (ExecutionFailed "early eof"), [])
  | Some (bs, rest) => (Some <$> ok_or (ExecutionFailed "invalid Worker protobuf") (decode_frame bs), rest)
  end.
Proof.
  intros Hf. pose proof (sendable_length f Hf) as Hl. unfold read_frame. rewrite read_exact_app by done.
  rewrite be_bytes_roundtrip by lia. rewrite bool_decide_eq_false_2 by lia.
  rewrite bool_decide_eq_false_2 by (destruct Hf; lia). cbn [orb]. unfold zlen. by rewrite Nat2Z.id.
Qed.

Lemma read_framed f rest : sendable f → read_frame (framed f ++ rest) = (Ok (Some f), rest).
Proof.
  intros Hf. unfold framed. rewrite <- app_assoc, read_frame_header by done. rewrite read_exact_app by done.
  by rewrite frame_roundtrip.
Qed.

(** The bytes one [write_frame] adds. *)
Lemma write_frame_adds io f out : ∃ w,
  (write_frame io f out).2 = out ++ w ∧
  (((write_frame io f out).1 = Ok tt ∧ sendable f ∧ w = framed f) ∨
   (is_ok ((write_frame io f out).1) = false ∧
    (w = [] ∨ (sendable f ∧ (w = framed f ∨ (length w < 4)%nat ∨
       ∃ n, w = to_be_bytes (zlen (encode_frame f)) ++ take n (encode_frame f)))))).
Proof.
  unfold write_frame. case_bool_decide as He; [exists []; rewrite app_nil_r; cbn; auto|].
  case_bool_decide as Hm; [exists []; rewrite app_nil_r; cbn; auto|]. cbn [orb].
  assert (sendable f) as Hs by (split; [done|lia]). unfold write_all, framed.
  destruct (io 0%nat) as [|n].
  - destruct (io 1%nat) as [|n].
    + rewrite <- app_assoc. eexists. split; [done|]. destruct (io 2%nat); cbn; [left; auto|right; split; auto].
    + rewrite <- app_assoc. eexists. split; [done|]. cbn. right. split; [done|]. right. split; [done|]. right. right. by exists n.
  - eexists. split; [done|]. cbn -[take to_be_bytes]. right. split; [done|]. right. split; [done|]. right.
    destruct (decide (n < 4)%nat) as [Hn|Hn].
    + left. rewrite length_take. lia.
    + right. exists 0%nat. rewrite take_0, app_nil_r. apply take_ge. cbn. lia.
Qed.

Lemma read_frames_framed f rest turns fs e :
  sendable f → read_frames turns rest = (fs, e) → read_frames (S turns) (framed f ++ rest) = (f :: fs, e).
Proof. intros Hf Hr. cbn [read_frames]. rewrite read_framed by done. by rewrite Hr. Qed.

(** Reading what a write that failed has left. *)
Lemma read_broken f w turns : sendable f →
  w = framed f ∨ (length w < 4)%nat ∨ (∃ n, w = to_be_bytes (zlen (encode_frame f)) ++ take n (encode_frame f)) →
  ∃ e, e ≠ OutOfTurns ∧ (read_frames (S (S turns)) w = ([f], e) ∨ read_frames (S (S turns)) w = ([], e)).
Proof.
  intros Hf [->|[Hw|[n ->]]].
  - exists EndOfStream. split; [done|]. left. rewrite <- (app_nil_r (framed f)). by apply read_frames_framed.
  - exists EndOfStream. split; [done|]. right. cbn [read_frames]. unfold read_frame. by rewrite read_exact_short.
  - destruct (decide (length (encode_frame f) ≤ n)%nat) as [Hn|Hn].
    + exists EndOfStream. split; [done|]. left. rewrite take_ge by done. change (_ ++ encode_frame f) with (framed f).
      rewrite <- (app_nil_r (framed f)). by apply read_frames_framed.
    + exists (EndError (ExecutionFailed "early eof")). split; [done|]. right. cbn [read_frames].
      rewrite read_frame_header by done. rewrite read_exact_short; [done|]. rewrite length_take. lia.
Qed.

(** How a write ends does not depend on what was written before. *)
Lemma write_frame_result io f out : (write_frame io f out).1 = (write_frame io f []).1.
Proof.
  unfold write_frame. destruct (_ || _); [done|]. unfold write_all. destruct (io 0%nat); [|done]. by destruct (io 1%nat).
Qed.

(** The frames whose write succeeded. *)
Definition delivered (writes : list ((nat → WriteOutcome) * WorkerFrame)) : list WorkerFrame :=
  omap (λ w : (nat → WriteOutcome) * WorkerFrame, if is_ok (write_frame w.1 w.2 []).1 then Some w.2 else None) writes.
(** Writes that succeeded or were refused for the size of the frame. *)
Definition clean (w : (nat → WriteOutcome) * WorkerFrame) : Prop := (write_frame w.1 w.2 []).1 = Ok tt ∨ ¬ sendable w.2.

Lemma clean_writes writes out : Forall clean writes →
  (write_frames writes out).2 = out ++ concat (framed <$> delivered writes) ∧ Forall sendable (delivered writes).
Proof.
  intros H. revert out. induction H as [|[io f] writes Hc _ IH]; intros out; [by rewrite app_nil_r|]. cbn [write_frames].
  destruct (write_frame_adds io f out) as (w & Ew & Hw). pose proof (write_frame_result io f out) as Er.
  unfold delivered. cbn [omap list_omap fst snd]. fold (delivered writes). unfold clean in Hc. cbn [fst snd] in Hc.
  destruct (write_frame io f out) as [r out']. cbn [fst snd] in Ew, Hw, Er. rewrite <-Er in *. subst out'.
  destruct (IH (out ++ w)) as [E1 E2]. destruct (write_frames writes (out ++ w)) as [rs out2]. cbn [snd] in E1 |- *.
  destruct Hw as [(-> & Hs & ->)|(Hr & Hw)].
  - cbn. split; [by rewrite E1, <-app_assoc|by constructor].
  - destruct Hc as [->|Hno]; [done|]. destruct Hw as [->|[? _]]; [|done]. rewrite Hr. split; [by rewrite E1, app_nil_r|done].
Qed.

Lemma write_frames_app l1 l2 out : (write_frames (l1 ++ l2) out).2 = (write_frames l2 (write_frames l1 out).2).2.
Proof.
  revert out. induction l1 as [|[io f] l1 IH]; intros out; [done|]. cbn [write_frames app].
  destruct (write_frame io f out) as [r out']. specialize (IH out').
  destruct (write_frames (l1 ++ l2) out') as [rs1 o1], (write_frames l1 out') as [rs2 o2]. done.
Qed.

Lemma write_frames_adds writes out : ∃ w, (write_frames writes out).2 = out ++ w.
Proof.
  revert out. induction writes as [|[io f] writes IH]; intros out; [exists []; by rewrite app_nil_r|]. cbn [write_frames].
  destruct (write_frame_adds io f out) as (w & Ew & _). destruct (write_frame io f out) as [r out']. cbn in Ew. subst out'.
  destruct (IH (out ++ w)) as [w' E]. destruct (write_frames writes (out ++ w)) as [rs o]. exists (w ++ w'). cbn in *. by rewrite E, app_assoc.
Qed.

(** A reader comes to its end on any bytes. *)
Lemma read_frame_shrinks stream f rest : read_frame stream = (Ok (Some f), rest) → (length rest < length stream)%nat.
Proof.
  unfold read_frame, read_exact. case_bool_decide as H4; [|done]. cbv beta iota. destruct (_ || _); [done|].
  case_bool_decide as Hn; [|done]. intros [= _ <-]. rewrite !length_drop in *. lia.
Qed.

Lemma read_frames_ends n stream : (length stream < n)%nat → (read_frames n stream).2 ≠ OutOfTurns.
Proof.
  revert stream. induction n as [|n IH]; intros stream Hn; [lia|]. cbn [read_frames].
  destruct (read_frame stream) as [[[f|]|e] rest] eqn:E; [|done..]. apply read_frame_shrinks in E.
  specialize (IH rest). destruct (read_frames n rest) as [fs e]. apply IH. lia.
Qed.

(** More turns than are needed change nothing. *)
Lemma read_frames_more n m stream fs e : read_frames n stream = (fs, e) → e ≠ OutOfTurns → (n ≤ m)%nat → read_frames m stream = (fs, e).
Proof.
  revert m stream fs. induction n as [|n IH]; intros m stream fs H He Hm; cbn in H; [by injection H as _ <-|].
  destruct m as [|m]; [lia|]. cbn. destruct (read_frame stream) as [[[f|]|e'] rest]; [|done..].
  destruct (read_frames n rest) as [fs' e'] eqn:E. injection H as <- ->. by rewrite (IH m rest fs' E He) by lia.
Qed.

Lemma read_frames_delivered frames rest : Forall sendable frames →
  ∀ turns fs e, read_frames turns rest = (fs, e) →
  read_frames (length frames + turns) (concat (framed <$> frames) ++ rest) = (frames ++ fs, e).
Proof.
  intros H. induction H as [|f frames Hf _ IH]; intros turns fs e Hr; [done|].
  cbn [fmap list_fmap concat length Nat.add app]. rewrite <-app_assoc. by apply read_frames_framed, IH.
Qed.

Lemma concat_framed_length frames : (length frames ≤ length (concat (framed <$> frames)))%nat.
Proof. induction frames as [|f frames IH]; [done|]. cbn. rewrite !length_app. cbn. lia. Qed.

(** Reading what came before a write that broke off, and what comes after. *)
Lemma read_out frames rest : Forall sendable frames → ∃ fs e,
  read_frames (S (length rest)) rest = (fs, e) ∧ e ≠ OutOfTurns ∧
  let out := concat (framed <$> frames) ++ rest in read_frames (S (length out)) out = (frames ++ fs, e).
Proof.
  intros Hf. destruct (read_frames (S (length rest)) rest) as [fs e] eqn:E. exists fs, e.
  assert (e ≠ OutOfTurns) as He by (pose proof (read_frames_ends (S (length rest)) rest ltac:(lia)); by rewrite E in *).
  split_and!; [done|done|]. cbv zeta. eapply read_frames_more; [by apply read_frames_delivered|done|].
  rewrite length_app. pose proof (concat_framed_length frames). lia.
Qed.

End Roundtrip.

(** C39. Frames arrive in order.  Neither side stops using the pipe when a write has failed.
    As long as the writes succeed or are refused for the size of the frame, the other side
    reads exactly the frames whose writes succeeded, in order, and then the end of the
    stream.  If a write then breaks off, anywhere in a length or a message, the frames
    before it are read first; what is read after them, if nothing else is written, is that
    frame or nothing.  A reader comes to its end on whatever was written.  That nothing is
    promised about frames written after one that broke off is
    [frame_after_broken_write_misread]. *)
Theorem frames_arrive_in_order `{FC : FrameCodec} `{FL : !FrameCodecLaws FC} l1 l2 :
  Forall clean l1 → let out := (write_frames (l1 ++ l2) []).2 in
  ∃ fs e, read_frames (S (length out)) out = (delivered l1 ++ fs, e) ∧ e ≠ OutOfTurns ∧
    (l2 = [] → fs = [] ∧ e = EndOfStream) ∧
    (∀ io f, l2 = [(io, f)] → fs = [] ∨ fs = [f]).
Proof.
  intros Hc out. destruct (clean_writes l1 [] Hc) as [E1 Hs]. unfold out. rewrite write_frames_app, E1. cbn [app].
  destruct l2 as [|[io f] l2].
  - destruct (read_out (delivered l1) [] Hs) as (fs & e & Hr & He & Hout). injection Hr as <- <-. cbn [write_frames snd].
    rewrite app_nil_r in Hout. exists [], EndOfStream. by split_and!.
  - set (o1 := concat _). destruct (write_frames_adds ((io, f) :: l2) o1) as [w Ew]. rewrite Ew.
    destruct (read_out (delivered l1) w Hs) as (fs & e & Hr & He & Hout). exists fs, e. split_and!; [exact Hout|done|done|].
    intros io' f' [= -> -> ->]. cbn [write_frames] in Ew. destruct (write_frame_adds io' f' o1) as (w' & Ew' & Hw).
    destruct (write_frame io' f' o1) as [r o2]. cbn [fst snd] in Ew, Ew', Hw. rewrite Ew' in Ew. apply app_inv_head in Ew. subst w'.
    assert (∀ n, w = [] ∨ (sendable f' ∧ (w = framed f' ∨ (length w < 4)%nat ∨
      ∃ n, w = to_be_bytes (zlen (encode_frame f')) ++ take n (encode_frame f'))) →
      (read_frames (S (S n)) w).1 = [] ∨ (read_frames (S (S n)) w).1 = [f']) as Hread.
    { intros n [->|[Hf Hw']]; [by left|]. destruct (read_broken f' w n Hf Hw') as (e' & _ & [->| ->]); auto. }
    specialize (Hread (length w)). rewrite (read_frames_more _ (S (S (length w))) _ _ _ Hr He) in Hread by lia.
    apply Hread. naive_solver.
Qed.

Definition demo_frames : FrameCodec :=
  {| WorkerFrame := bytes; encode_frame := id; decode_frame := Some |}.

Lemma demo_frames_laws : FrameCodecLaws demo_frames.
Proof. by intros f. Qed.

(** A frame, one that is too large, and one whose message breaks off after a byte. *)
Definition all_written (n : nat) : WriteOutcome := WriteOk.
Definition broken_message (n : nat) : WriteOutcome := match n with 1%nat => WriteErr 1 | _ => WriteOk end.

Lemma frames_arrive_in_order_witness :
  ∃ fs e, read_frames (FC := demo_frames) 12 [0; 0; 0; 2; 7; 8; 0; 0; 0; 3; 9] = ([[7; 8]] ++ fs, e) ∧ (fs = [] ∨ fs = [[9; 9; 9]]).
Proof.
  destruct (frames_arrive_in_order (FC := demo_frames) (FL := demo_frames_laws)
    [(all_written, [7; 8]); (all_written, [])] [(broken_message, [9; 9; 9])]) as (fs & e & Hr & _ & _ & Hb).
  - constructor; [by left|]. constructor; [right; by intros [H _]|constructor].
  - exists fs, e. split; [exact Hr|]. exact (Hb broken_message [9; 9; 9] eq_refl).
Defined.

(** A frame written after one that broke off is misread: two bytes of the second length are
    taken for the rest of the first message, and the reader gets a frame nobody sent. *)
Example frame_after_broken_write_misread :
  let out := (write_frames (FC := demo_frames) [(broken_message, [9; 9; 9]); (all_written, [7; 8])] []).2 in
  read_frames (FC := demo_frames) 20 out = ([[9; 0; 0]], EndError (ExecutionFailed "early eof")).
Proof. vm_compute. reflexivity. Qed.
