(* ===== verification/PlusSchema.v ===== *)
(** * Plugin schemas

    [crates/smalux-plus/smalux-plus-core/src/schema.rs]: the bundle of parameter schemas
    of a plugin version, its validation, its canonical encoding and its hash.

    Texts are sequences of UTF-8 bytes.  [prost] is the class [SchemaCodec], the parsing of
    a decimal number the class [FloatText]; a [double] is a [SpecFloat.spec_float].  Of the
    messages of [descriptor.proto] the fields the validation reads are named, the rest of
    a message is kept as bytes. *)

From Stdlib Require Import SpecFloat Ascii.
From stdpp Require Import base gmap strings list pretty sorting.
From S2P Require Import Prelude Rotation Catalog Paging Policy Reports WebStore WebGate WebMetrics.

(** ** Messages *)

Inductive FieldControl : Type := Auto | Text | Textarea | Number | Select | Combobox | Toggle | Password.
Global Instance FieldControl_eq_dec : EqDecision FieldControl.
Proof. solve_decision. Defined.

(** [FieldControl::try_from]. *)
Definition field_control (control : Z) : option FieldControl :=
  match control with
  | 0 => Some Auto | 1 => Some Text | 2 => Some Textarea | 3 => Some Number
  | 4 => Some Select | 5 => Some Combobox | 6 => Some Toggle | 7 => Some Password
  | _ => None
  end.

(** [PluginFieldOption], [PluginFieldSchema], [PluginTaskSchema], [PluginRuntimeSchema] and
    [PluginSchemaBundle]. *)
Record PluginFieldOption : Type := mkFieldOption {
  fo_value : string;
  fo_label : string;
}.
Record PluginFieldSchema : Type := mkFieldSchema {
  fs_path : string;
  fs_label : string;
  fs_description : string;
  fs_control : Z;
  fs_required : bool;
  fs_default_value : option string;
  fs_minimum : option string;
  fs_maximum : option string;
  fs_min_length : option Z;
  fs_max_length : option Z;
  fs_format : option string;
  fs_options : list PluginFieldOption;
  fs_order : Z;
  fs_unit : string;
}.
Record PluginTaskSchema : Type := mkTaskSchema {
  ts_task_kind : string;
  ts_schema_version : Z;
  ts_config_message : string;
  ts_result_message : string;
  ts_display_name : string;
  ts_description : string;
  ts_fields : list PluginFieldSchema;
}.
Record PluginRuntimeSchema : Type := mkRuntimeSchema {
  rs_schema_version : Z;
  rs_config_message : string;
  rs_display_name : string;
  rs_description : string;
  rs_fields : list PluginFieldSchema;
}.
Record PluginSchemaBundle : Type := mkBundle {
  sb_format_version : Z;
  sb_plugin_id : string;
  sb_plugin_version : string;
  sb_descriptor_set : bytes;
  sb_tasks : list PluginTaskSchema;
  sb_runtime : option PluginRuntimeSchema;
}.

(** The descriptors of [prost_types]. *)
Record FieldDescriptorProto : Type := mkFieldDescriptor {
  fd_name : option string;
  fd_type : option Z;
  fd_rest : bytes;
}.
Inductive DescriptorProto : Type :=
  mkDescriptor (name : option string) (field : list FieldDescriptorProto) (nested_type : list DescriptorProto) (rest : bytes).
Definition dp_field (d : DescriptorProto) : list FieldDescriptorProto := let '(mkDescriptor _ f _ _) := d in f.
Record FileDescriptorProto : Type := mkFileDescriptor {
  fp_name : option string;
  fp_package : option string;
  fp_message_type : list DescriptorProto;
  fp_source_code_info : option bytes;
  fp_rest : bytes;
}.

(** [prost] on bundles and descriptor sets. *)
Class SchemaCodec : Type := {
  encode_bundle : PluginSchemaBundle → bytes;
  decode_bundle : bytes → option PluginSchemaBundle;
  encode_descriptors : list FileDescriptorProto → bytes;
  decode_descriptors : bytes → option (list FileDescriptorProto);
}.
Class SchemaCodecLaws (SCC : SchemaCodec) : Prop := {
  bundle_roundtrip b : decode_bundle (encode_bundle b) = Some b;
  descriptors_roundtrip files : decode_descriptors (encode_descriptors files) = Some files;
  descriptors_nonempty files : files ≠ [] → encode_descriptors files ≠ [];
}.

(** [str::parse::<f64>]. *)
Class FloatText : Type := parse_f64 : string → option spec_float.

(** [field_descriptor_proto::Type], by its number. *)
Inductive ProtoType : Type :=
| TDouble | TFloat | TInt64 | TUint64 | TInt32 | TFixed64 | TFixed32 | TBool | TString
| TGroup | TMessage | TBytes | TUint32 | TEnum | TSfixed32 | TSfixed64 | TSint32 | TSint64.
Global Instance ProtoType_eq_dec : EqDecision ProtoType.
Proof. solve_decision. Defined.
Definition proto_type (n : Z) : option ProtoType :=
  match n with
  | 1 => Some TDouble | 2 => Some TFloat | 3 => Some TInt64 | 4 => Some TUint64 | 5 => Some TInt32
  | 6 => Some TFixed64 | 7 => Some TFixed32 | 8 => Some TBool | 9 => Some TString | 10 => Some TGroup
  | 11 => Some TMessage | 12 => Some TBytes | 13 => Some TUint32 | 14 => Some TEnum | 15 => Some TSfixed32
  | 16 => Some TSfixed64 | 17 => Some TSint32 | 18 => Some TSint64
  | _ => None
  end.

(** [PluginSchemaError]. *)
Inductive PluginSchemaError : Type :=
| SchemaTooLarge
| SchemaDecode
| SchemaInvalid (message : string).

Definition SCHEMA_FORMAT_VERSION : Z := 1.
Definition MAX_SCHEMA_BUNDLE_BYTES : Z := 1024 * 1024.
Definition MAX_TASKS : Z := 256.
Definition MAX_FIELDS_PER_TASK : Z := 512.
Definition MAX_DESCRIPTOR_MESSAGES : Z := 4096.

(** ** Text *)

Definition text_len (s : string) : Z := zlen (text_bytes s).

(** [is_safe_component]. *)
Definition safe_byte (b : Z) : bool :=
  bool_decide (48 ≤ b ≤ 57) || bool_decide (65 ≤ b ≤ 90) || bool_decide (97 ≤ b ≤ 122)
  || bool_decide (b = 46) || bool_decide (b = 95) || bool_decide (b = 45).
Definition is_safe_component (value : string) : bool :=
  negb (bool_decide (value = ""%string)) && bool_decide (text_len value ≤ 256) && forallb safe_byte (text_bytes value).

(** [has_control_character]: U+0000 to U+001F and U+007F to U+009F, the last of which are
    two bytes in UTF-8. *)
Fixpoint control_bytes (bs : bytes) : bool :=
  match bs with
  | [] => false
  | b :: bs' =>
      bool_decide (b < 32) || bool_decide (b = 127)
      || (bool_decide (b = 194) && match bs' with c :: _ => bool_decide (128 ≤ c < 160) | [] => false end)
      || control_bytes bs'
  end.
Definition has_control_character (value : string) : bool := control_bytes (text_bytes value).

(** [trim_start_matches('.')]. *)
Fixpoint trim_dots (s : string) : string :=
  match s with
  | String c rest => if bool_decide (c = "."%char) then trim_dots rest else s
  | EmptyString => s
  end.

(** [windows(2).any(|pair| key(pair[0]) >= key(pair[1]))]. *)
Fixpoint out_of_order {A} (key : A → string) (l : list A) : bool :=
  match l with
  | x :: ((y :: _) as l') => bool_decide (string_le (key y) (key x)) || out_of_order key l'
  | _ => false
  end.

(** ** Descriptors *)

(** [collect_message] and [descriptor_messages]: a later message of the same name replaces
    an earlier one. *)
Fixpoint collect_message (parent : string) (message : DescriptorProto) (messages : gmap string DescriptorProto) :
    gmap string DescriptorProto :=
  let '(mkDescriptor name _ nested _) := message in
  match name with
  | None => messages
  | Some name =>
      let full_name := (if bool_decide (parent = "") then name else parent +:+ "." +:+ name)%string in
      (fix go (l : list DescriptorProto) (messages : gmap string DescriptorProto) :=
         match l with [] => messages | d :: l => go l (collect_message full_name d messages) end)
        nested (<[full_name := message]> messages)
  end.
Definition collect_file (messages : gmap string DescriptorProto) (file : FileDescriptorProto) :
    gmap string DescriptorProto :=
  foldl (λ messages d, collect_message (default "" (fp_package file)) d messages) messages (fp_message_type file).
Definition descriptor_messages (files : list FileDescriptorProto) : gmap string DescriptorProto :=
  foldl collect_file ∅ files.

(** ** Validation *)

Section Validate.
Context `{FT : FloatText}.

Definition invalid {A} (message : string) : result PluginSchemaError A := Err (SchemaInvalid message).
Definition ensure (b : bool) (message : string) : result PluginSchemaError unit := if b then Ok tt else invalid message.
Definition about_field (path text : string) : string := ("field " +:+ path +:+ " " +:+ text)%string.

(** [f64::is_finite]. *)
Definition is_finite (x : spec_float) : bool :=
  match x with S754_zero _ | S754_finite _ _ _ => true | _ => false end.

(** [parse_number]. *)
Definition parse_number (name path value : string) : result PluginSchemaError spec_float :=
  number ← ok_or (SchemaInvalid (about_field path ("has an invalid numeric " +:+ name))) (parse_f64 value);
  _ ← ensure (is_finite number) (about_field path ("has a non-finite numeric " +:+ name));
  Ok number.
Definition parse_bound (name path : string) (value : option string) : result PluginSchemaError (option spec_float) :=
  match value with None => Ok None | Some v => Some <$> parse_number name path v end.

Definition numeric_type (t : ProtoType) : bool :=
  match t with
  | TDouble | TFloat | TInt64 | TUint64 | TInt32 | TFixed64 | TFixed32 | TUint32 | TSfixed32 | TSfixed64 | TSint32 | TSint64 => true
  | _ => false
  end.
Definition text_type (t : ProtoType) : bool := bool_decide (t = TString) || bool_decide (t = TBytes).
Definition text_control (c : FieldControl) : bool :=
  match c with Text | Textarea | Combobox | Password => true | _ => false end.

(** [validate_control_type]. *)
Definition control_type_valid (control : FieldControl) (t : ProtoType) : bool :=
  match control with
  | Auto => true
  | Number => numeric_type t
  | Toggle => bool_decide (t = TBool)
  | Select => bool_decide (t = TEnum) || bool_decide (t = TString)
  | Text | Textarea | Combobox | Password => text_type t
  end.
Definition field_type (path : string) (descriptor : FieldDescriptorProto) : result PluginSchemaError ProtoType :=
  ok_or (SchemaInvalid (about_field path "has an unknown Protobuf type")) (proto_type (default 0 (fd_type descriptor))).
Definition validate_control_type (path : string) (control : FieldControl) (descriptor : FieldDescriptorProto) :
    result PluginSchemaError unit :=
  t ← field_type path descriptor;
  ensure (control_type_valid control t) (about_field path "control is incompatible with its Protobuf type").

(** [validate_default_value]. *)
Definition default_numeric (control : FieldControl) (t : ProtoType) : bool :=
  bool_decide (control = Number) || (bool_decide (control = Auto) && numeric_type t).
Definition default_boolean (control : FieldControl) (t : ProtoType) : bool :=
  bool_decide (control = Toggle) || (bool_decide (control = Auto) && bool_decide (t = TBool)).
Definition default_textual (control : FieldControl) (t : ProtoType) : bool :=
  text_control control || (bool_decide (control = Auto) && text_type t).
Definition validate_default_value (field : PluginFieldSchema) (control : FieldControl) (descriptor : FieldDescriptorProto)
    (minimum maximum : option spec_float) : result PluginSchemaError unit :=
  match fs_default_value field with
  | None => Ok tt
  | Some value =>
      let path := fs_path field in
      t ← field_type path descriptor;
      _ ← (if default_numeric control t then
             n ← parse_number "default" path value;
             _ ← ensure (negb (from_option (λ m, SFltb n m) false minimum)) (about_field path "default is below minimum");
             ensure (negb (from_option (λ m, SFltb m n) false maximum)) (about_field path "default is above maximum")
           else Ok tt);
      _ ← ensure (negb (default_boolean control t) || String.eqb value "true" || String.eqb value "false")
            (about_field path "has an invalid boolean default");
      _ ← (if default_textual control t then
             let length := utf8_chars (text_bytes value) in
             _ ← ensure (negb (from_option (λ m, bool_decide (length < m)) false (fs_min_length field)))
                   (about_field path "default is shorter than min_length");
             ensure (negb (from_option (λ m, bool_decide (m < length)) false (fs_max_length field)))
               (about_field path "default is longer than max_length")
           else Ok tt);
      ensure (negb (bool_decide (control = Select)) || bool_decide (fs_options field = [])
              || existsb (λ o, String.eqb (fo_value o) value) (fs_options field))
        (about_field path "default is not one of its options")
  end.

(** The body of the loop over the fields of a task in [validate]. *)
Definition field_texts_ok (field : PluginFieldSchema) : bool :=
  negb (String.eqb (fs_path field) "") && bool_decide (text_len (fs_path field) ≤ 256)
  && negb (String.eqb (fs_label field) "") && bool_decide (text_len (fs_label field) ≤ 256)
  && negb (has_control_character (fs_path field)) && negb (has_control_character (fs_label field))
  && bool_decide (text_len (fs_description field) ≤ 4096) && bool_decide (text_len (fs_unit field) ≤ 64).
Definition option_ok (o : PluginFieldOption) : bool :=
  negb (String.eqb (fo_value o) "") && negb (String.eqb (fo_label o) "")
  && negb (has_control_character (fo_value o)) && negb (has_control_character (fo_label o)).
Definition known_formats : list string := ["hostname"; "ip"; "url"; "port"]%string.
Definition find_field (path : string) (config : DescriptorProto) : option FieldDescriptorProto :=
  List.find (λ d, bool_decide (fd_name d = Some path)) (dp_field config).
Definition validate_field (config_message : string) (config : DescriptorProto) (field : PluginFieldSchema) :
    result PluginSchemaError unit :=
  let path := fs_path field in
  _ ← ensure (field_texts_ok field) "field path and label are required";
  descriptor ← ok_or (SchemaInvalid (about_field path ("is missing from " +:+ config_message))) (find_field path config);
  minimum ← parse_bound "minimum" path (fs_minimum field);
  maximum ← parse_bound "maximum" path (fs_maximum field);
  _ ← ensure (match minimum, maximum with Some lo, Some hi => negb (SFltb hi lo) | _, _ => true end)
        (about_field path "has inverted range");
  _ ← ensure (match fs_min_length field, fs_max_length field with Some lo, Some hi => bool_decide (lo ≤ hi) | _, _ => true end)
        (about_field path "has inverted length range");
  control ← ok_or (SchemaInvalid (about_field path "has an unknown control")) (field_control (fs_control field));
  _ ← validate_control_type path control descriptor;
  _ ← validate_default_value field control descriptor minimum maximum;
  _ ← ensure (bool_decide (fs_options field = []) || bool_decide (control = Select) || bool_decide (control = Combobox))
        (about_field path "provides options for a non-choice control");
  _ ← ensure (from_option (λ f, bool_decide (f ∈ known_formats)) true (fs_format field))
        (about_field path "has an unsupported format");
  ensure (negb (out_of_order fo_value (fs_options field)) && forallb option_ok (fs_options field))
    (about_field path "has invalid options").

(** [for] with [?] in the body. *)
Fixpoint for_each {A} (body : A → result PluginSchemaError unit) (l : list A) : result PluginSchemaError unit :=
  match l with [] => Ok tt | x :: l => _ ← body x; for_each body l end.

(** The body of the loop over the tasks. *)
Definition task_texts_ok (task : PluginTaskSchema) : bool :=
  negb (String.eqb (ts_task_kind task) "") && bool_decide (text_len (ts_task_kind task) ≤ 256)
  && is_safe_component (ts_task_kind task) && bool_decide (ts_schema_version task ≠ 0)
  && negb (String.eqb (ts_config_message task) "") && bool_decide (text_len (ts_config_message task) ≤ 512)
  && negb (has_control_character (ts_config_message task))
  && bool_decide (text_len (ts_result_message task) ≤ 512) && negb (has_control_character (ts_result_message task))
  && bool_decide (text_len (ts_display_name task) ≤ 256) && bool_decide (text_len (ts_description task) ≤ 4096).
Definition about_task (task : PluginTaskSchema) (text : string) : string :=
  ("task " +:+ ts_task_kind task +:+ " references an unknown " +:+ text +:+ " message")%string.
Definition validate_task (messages : gmap string DescriptorProto) (task : PluginTaskSchema) : result PluginSchemaError unit :=
  _ ← ensure (task_texts_ok task) "task identity is incomplete";
  config ← ok_or (SchemaInvalid (about_task task "config")) (messages !! trim_dots (ts_config_message task));
  _ ← ensure (String.eqb (ts_result_message task) "" || bool_decide (is_Some (messages !! trim_dots (ts_result_message task))))
        (about_task task "result");
  _ ← ensure (bool_decide (zlen (ts_fields task) ≤ MAX_FIELDS_PER_TASK) && negb (out_of_order fs_path (ts_fields task)))
        "fields must be sorted and unique";
  for_each (validate_field (ts_config_message task) config) (ts_fields task).

Context `{SCC : SchemaCodec}.

Definition runtime_ok (messages : gmap string DescriptorProto) (runtime : PluginRuntimeSchema) : bool :=
  bool_decide (rs_schema_version runtime ≠ 0) && negb (String.eqb (rs_config_message runtime) "")
  && bool_decide (text_len (rs_config_message runtime) ≤ 512) && negb (has_control_character (rs_config_message runtime))
  && bool_decide (text_len (rs_display_name runtime) ≤ 256) && bool_decide (text_len (rs_description runtime) ≤ 4096)
  && bool_decide (is_Some (messages !! trim_dots (rs_config_message runtime))).

(** [validate]. *)
Definition validate (b : PluginSchemaBundle) : result PluginSchemaError unit :=
  _ ← ensure (bool_decide (sb_format_version b = SCHEMA_FORMAT_VERSION)) "unsupported schema format version";
  _ ← ensure (is_safe_component (sb_plugin_id b) && negb (String.eqb (sb_plugin_version b) "")
              && bool_decide (text_len (sb_plugin_version b) ≤ 64) && negb (has_control_character (sb_plugin_version b)))
        "plugin identity and version are required";
  _ ← ensure (negb (bool_decide (sb_descriptor_set b = []))) "descriptor_set must not be empty";
  files ← ok_or (SchemaInvalid "invalid descriptor set") (decode_descriptors (sb_descriptor_set b));
  _ ← ensure (bool_decide (1 ≤ zlen files ≤ 256)) "descriptor set must contain 1..=256 files";
  let messages := descriptor_messages files in
  _ ← ensure (bool_decide (Z.of_nat (size messages) ≤ MAX_DESCRIPTOR_MESSAGES)) "descriptor set contains too many messages";
  runtime ← ok_or (SchemaInvalid "runtime schema is required") (sb_runtime b);
  _ ← ensure (runtime_ok messages runtime) "runtime schema identity is incomplete";
  _ ← ensure (negb (bool_decide (sb_tasks b = [])) && bool_decide (zlen (sb_tasks b) ≤ MAX_TASKS)
              && negb (out_of_order ts_task_kind (sb_tasks b)))
        "tasks must be sorted, unique and non-empty";
  for_each (validate_task messages) (sb_tasks b).

(** ** The canonical form *)

(** [sort_by(|left, right| left.name.cmp(&right.name))], a stable sort. *)
Definition name_le (a b : FileDescriptorProto) : Prop :=
  match fp_name a, fp_name b with
  | None, _ => True
  | Some _, None => False
  | Some x, Some y => string_le x y
  end.
#[export] Instance name_le_dec : RelDecision name_le.
Proof. intros a b. unfold name_le. repeat case_match; apply _. Defined.
Fixpoint insert_file (file : FileDescriptorProto) (l : list FileDescriptorProto) : list FileDescriptorProto :=
  match l with
  | [] => [file]
  | x :: l' => if decide (name_le file x) then file :: l else x :: insert_file file l'
  end.
Definition sort_files (files : list FileDescriptorProto) : list FileDescriptorProto := foldr insert_file [] files.

Definition clear_source_info (file : FileDescriptorProto) : FileDescriptorProto :=
  mkFileDescriptor (fp_name file) (fp_package file) (fp_message_type file) None (fp_rest file).

(** [normalized]. *)
Definition set_descriptors (bs : bytes) (b : PluginSchemaBundle) : PluginSchemaBundle :=
  mkBundle (sb_format_version b) (sb_plugin_id b) (sb_plugin_version b) bs (sb_tasks b) (sb_runtime b).
Definition normalized (b : PluginSchemaBundle) : result PluginSchemaError PluginSchemaBundle :=
  _ ← validate b;
  files ← ok_or (SchemaInvalid "invalid descriptor set") (decode_descriptors (sb_descriptor_set b));
  Ok (set_descriptors (encode_descriptors (sort_files (clear_source_info <$> files))) b).

(** [encode_checked], [decode_checked] and [hash]. *)
Definition encode_checked (b : PluginSchemaBundle) : result PluginSchemaError bytes :=
  n ← normalized b;
  let bs := encode_bundle n in
  if bool_decide (MAX_SCHEMA_BUNDLE_BYTES < zlen bs) then Err SchemaTooLarge else Ok bs.
Definition decode_checked (bs : bytes) : result PluginSchemaError PluginSchemaBundle :=
  if bool_decide (MAX_SCHEMA_BUNDLE_BYTES < zlen bs) then Err SchemaTooLarge
  else
    b ← ok_or SchemaDecode (decode_bundle bs);
    _ ← validate b;
    Ok b.

Context `{H256 : Sha256}.

Definition bundle_hash (b : PluginSchemaBundle) : result PluginSchemaError bytes := sha256 <$> encode_checked b.

End Validate.

(** ** The canonical form is canonical *)

#[export] Instance name_le_total : Total name_le.
Proof. intros a b. unfold name_le. repeat case_match; try (by (left + right)). apply string_le_total. Qed.

Lemma insert_file_perm file l : insert_file file l ≡ₚ file :: l.
Proof. induction l as [|x l IH]; cbn; [done|]. case_decide; [done|]. rewrite IH. apply Permutation_swap. Qed.

Lemma sort_files_cons x l : sort_files (x :: l) = insert_file x (sort_files l).
Proof. done. Qed.

Lemma sort_files_perm l : sort_files l ≡ₚ l.
Proof. induction l as [|x l IH]; [done|]. by rewrite sort_files_cons, insert_file_perm, IH. Qed.

Lemma insert_file_sorted file l : Sorted name_le l → Sorted name_le (insert_file file l).
Proof.
  induction 1 as [|x l Hs IH Hd]; cbn; [by repeat constructor|]. case_decide; [by repeat constructor|].
  constructor; [done|]. destruct (total name_le file x); [done|].
  destruct l as [|y l]; cbn; [by constructor|]. case_decide; [by constructor|]. constructor. by inversion Hd.
Qed.

Lemma sort_files_sorted l : Sorted name_le (sort_files l).
Proof. induction l as [|x l IH]; [constructor|]. by apply insert_file_sorted. Qed.

Lemma sort_files_id l : Sorted name_le l → sort_files l = l.
Proof.
  induction 1 as [|x l Hs IH Hd]; [done|]. rewrite sort_files_cons, IH. destruct Hd; cbn; [done|]. by rewrite decide_True.
Qed.

Lemma insert_file_cleared file l :
  insert_file (clear_source_info file) (clear_source_info <$> l) = clear_source_info <$> insert_file file l.
Proof.
  induction l as [|x l IH]; cbn; [done|].
  destruct (decide (name_le file x)) as [Hle|Hle]; destruct (decide (name_le (clear_source_info file) (clear_source_info x)));
    cbn; [done|done|done|by rewrite IH].
Qed.

Lemma sort_files_cleared l : clear_source_info <$> sort_files (clear_source_info <$> l) = sort_files (clear_source_info <$> l).
Proof.
  induction l as [|x l IH]; [done|]. rewrite fmap_cons, sort_files_cons, <- insert_file_cleared, IH. by destruct x.
Qed.

(** The messages of a file in the order they are entered, with their names. *)
Fixpoint message_pairs (parent : string) (message : DescriptorProto) : list (string * DescriptorProto) :=
  let '(mkDescriptor name _ nested _) := message in
  match name with
  | None => []
  | Some name =>
      let full_name := (if bool_decide (parent = "") then name else parent +:+ "." +:+ name)%string in
      (full_name, message) ::
      (fix go (l : list DescriptorProto) := match l with [] => [] | d :: l => message_pairs full_name d ++ go l end) nested
  end.
Definition file_pairs (file : FileDescriptorProto) : list (string * DescriptorProto) :=
  fp_message_type file ≫= message_pairs (default "" (fp_package file)).

Definition enter (messages : gmap string DescriptorProto) (kv : string * DescriptorProto) : gmap string DescriptorProto :=
  <[kv.1 := kv.2]> messages.

Lemma collect_message_pairs : ∀ message parent messages,
  collect_message parent message messages = foldl enter messages (message_pairs parent message).
Proof.
  fix IH 1. intros [[name|] field nested rest] parent messages; [|done]. cbn.
  generalize (if bool_decide (parent = ""%string) then name else (parent +:+ "." +:+ name)%string) as full. intros full.
  unfold enter at 2. cbn. generalize (<[full:=mkDescriptor (Some name) field nested rest]> messages) as m.
  induction nested as [|d nested IHn]; intros m; cbn; [done|]. by rewrite (IH d full m), IHn, foldl_app.
Qed.

Lemma collect_file_pairs messages file : collect_file messages file = foldl enter messages (file_pairs file).
Proof.
  unfold collect_file, file_pairs. revert messages.
  induction (fp_message_type file) as [|d l IH]; intros messages; cbn; [done|].
  by rewrite IH, collect_message_pairs, foldl_app.
Qed.

Lemma descriptor_messages_pairs files : descriptor_messages files = foldl enter ∅ (files ≫= file_pairs).
Proof.
  unfold descriptor_messages. generalize (∅ : gmap string DescriptorProto) as m.
  induction files as [|f l IH]; intros m; cbn; [done|]. by rewrite IH, collect_file_pairs, foldl_app.
Qed.

Lemma foldl_enter_perm l l' m : NoDup l.*1 → l ≡ₚ l' → foldl enter m l = foldl enter m l'.
Proof.
  intros Hn Hp. revert m Hn. induction Hp as [|[k d] l l' Hp IH|[k d] [k' d'] l|l l' l'' Hp IH Hp' IH']; intros m Hn; cbn.
  - done.
  - apply IH. by apply NoDup_cons in Hn as [_ ?].
  - f_equal. unfold enter; cbn. apply insert_insert_ne. cbn in Hn. apply NoDup_cons in Hn as [Hn _]. set_solver.
  - rewrite IH by done. apply IH'. by rewrite <- Hp.
Qed.

(** No two messages of the descriptor set have the same full name, as [protoc] demands. *)
Definition unique_messages (files : list FileDescriptorProto) : Prop := NoDup (files ≫= file_pairs).*1.

Lemma descriptor_messages_normal files :
  unique_messages files → descriptor_messages (sort_files (clear_source_info <$> files)) = descriptor_messages files.
Proof.
  intros Hn. rewrite !descriptor_messages_pairs.
  assert ((clear_source_info <$> files) ≫= file_pairs = files ≫= file_pairs) as E.
  { clear Hn. induction files as [|f l IH]; cbn; [done|]. by rewrite IH. }
  symmetry. apply foldl_enter_perm; [done|]. rewrite <- E. by rewrite sort_files_perm.
Qed.

Section Canonical.
Context `{FT : FloatText} `{SCC : SchemaCodec} `{SCL : !SchemaCodecLaws SCC}.

(** Validation looks at the descriptors only through the table of messages. *)
Lemma validate_same_messages b files files' :
  validate b = Ok tt → decode_descriptors (sb_descriptor_set b) = Some files → zlen files' = zlen files →
  descriptor_messages files' = descriptor_messages files →
  validate (set_descriptors (encode_descriptors files') b) = Ok tt.
Proof.
  unfold validate. intros Hv Hd Hlen Hm. cbn [sb_format_version sb_plugin_id sb_plugin_version sb_descriptor_set sb_tasks sb_runtime set_descriptors].
  apply result_bind_Ok in Hv as ([] & -> & Hv). cbn [mbind result_bind].
  apply result_bind_Ok in Hv as ([] & -> & Hv). cbn [mbind result_bind].
  apply result_bind_Ok in Hv as ([] & _ & Hv). rewrite Hd in Hv. cbn [mbind result_bind ok_or] in Hv.
  rewrite (bool_decide_eq_false_2 (encode_descriptors files' = [])).
  - rewrite descriptors_roundtrip. cbn [negb ensure mbind result_bind ok_or]. by rewrite Hlen, Hm.
  - apply descriptors_nonempty. intros ->. apply result_bind_Ok in Hv as ([] & Hv & _). rewrite <- Hlen in Hv. done.
Qed.

Lemma encode_checked_normal b bs :
  encode_checked b = Ok bs → ∃ n, normalized b = Ok n ∧ bs = encode_bundle n ∧ zlen bs ≤ MAX_SCHEMA_BUNDLE_BYTES.
Proof.
  unfold encode_checked. intros (n & Hn & H)%result_bind_Ok. exists n. case_bool_decide; [done|]. injection H as <-.
  split_and!; [done|done|lia].
Qed.

Lemma normalized_files b n files :
  normalized b = Ok n → decode_descriptors (sb_descriptor_set b) = Some files →
  validate b = Ok tt ∧ n = set_descriptors (encode_descriptors (sort_files (clear_source_info <$> files))) b.
Proof.
  unfold normalized. intros ([] & Hv & H)%result_bind_Ok Hd. rewrite Hd in H. split; [exact Hv|]. by injection H.
Qed.

(** A normal bundle validates and is its own normal form. *)
Lemma normalized_idem b n files :
  normalized b = Ok n → decode_descriptors (sb_descriptor_set b) = Some files → unique_messages files →
  validate n = Ok tt ∧ normalized n = Ok n.
Proof.
  intros Hn Hd Hu. destruct (normalized_files _ _ _ Hn Hd) as [Hv ->].
  set (files' := sort_files (clear_source_info <$> files)).
  assert (validate (set_descriptors (encode_descriptors files') b) = Ok tt) as Hv'.
  { apply (validate_same_messages _ files); [done..| |by apply descriptor_messages_normal].
    unfold zlen, files'. by rewrite (Permutation_length (sort_files_perm _)), length_fmap. }
  split; [done|]. unfold normalized. rewrite Hv'. cbn [mbind result_bind]. cbn [sb_descriptor_set set_descriptors].
  rewrite descriptors_roundtrip. cbn [mbind result_bind ok_or]. unfold files'.
  rewrite sort_files_cleared, sort_files_id by apply sort_files_sorted. by destruct b.
Qed.

(** The bytes of a bundle decode to its normal form, which has the same bytes. *)
Lemma encoded_decodes b files bs :
  encode_checked b = Ok bs → decode_descriptors (sb_descriptor_set b) = Some files → unique_messages files →
  ∃ n, normalized b = Ok n ∧ decode_checked bs = Ok n ∧ encode_checked n = Ok bs.
Proof.
  intros He Hd Hu. destruct (encode_checked_normal _ _ He) as (n & Hn & -> & Hlen).
  destruct (normalized_idem _ _ _ Hn Hd Hu) as [Hv Hi]. exists n. split_and!; [done|..].
  - unfold decode_checked. rewrite bool_decide_eq_false_2 by lia. rewrite bundle_roundtrip. cbn [mbind result_bind ok_or].
    by rewrite Hv.
  - unfold encode_checked. rewrite Hi. cbn. case_bool_decide; [lia|done].
Qed.

End Canonical.

(** Two descriptions of a file that differ at most in the source locations, and descriptor
    sets that differ at most in these and in the order of the files. *)
Definition same_but_source (f g : FileDescriptorProto) : Prop :=
  fp_name f = fp_name g ∧ fp_package f = fp_package g ∧ fp_message_type f = fp_message_type g ∧ fp_rest f = fp_rest g.
Definition reordered (files' files : list FileDescriptorProto) : Prop :=
  ∃ files0, files' ≡ₚ files0 ∧ Forall2 same_but_source files0 files.

Lemma cleared_same f g : clear_source_info f = clear_source_info g ↔ same_but_source f g.
Proof.
  unfold same_but_source. split; [by intros [= ? ? ? ?]|]. intros (E1 & E2 & E3 & E4). unfold clear_source_info. by rewrite E1, E2, E3, E4.
Qed.

Lemma cleared_reordered files' files : reordered files' files ↔ clear_source_info <$> files' ≡ₚ clear_source_info <$> files.
Proof.
  split.
  - intros (files0 & Hp & Hs). rewrite Hp. clear Hp. induction Hs as [|f g l l' Hfg _ IH]; [done|].
    rewrite !fmap_cons, IH. by rewrite (proj2 (cleared_same f g) Hfg).
  - intros Hp. symmetry in Hp. destruct (Permutation_map_inv _ _ Hp) as (files0 & E & Hp0).
    exists files0. split; [done|]. clear Hp Hp0. revert files E.
    induction files0 as [|f files0 IH]; intros [|g files] E; try done. injection E as E1 E2 E3 E4 E.
    constructor; [by unfold same_but_source|by apply IH].
Qed.

#[export] Instance name_le_trans : Transitive name_le.
Proof.
  intros a b c. unfold name_le. destruct (fp_name a), (fp_name b), (fp_name c); try done. apply string_le_trans.
Qed.

Lemma name_le_antisym a b : name_le a b → name_le b a → fp_name a = fp_name b.
Proof.
  unfold name_le. destruct (fp_name a), (fp_name b); try done. intros H1 H2. f_equal. by apply (anti_symm string_le).
Qed.

(** Sorting by names that are different forgets the order. *)
Lemma sort_files_unique l l' : NoDup (fp_name <$> l) → l' ≡ₚ l → sort_files l' = sort_files l.
Proof.
  intros Hn Hp. assert (∀ l, StronglySorted name_le (sort_files l)) as Hs
    by (intros x; apply Sorted_StronglySorted; [apply _|apply sort_files_sorted]).
  eapply StronglySorted_unique_strong; [|apply Hs|apply Hs|].
  - intros x y Hx Hy H1 H2. rewrite sort_files_perm, ?Hp in Hx. rewrite sort_files_perm in Hy.
    apply (NoDup_fmap_elem_inj fp_name l); [done..|]. by apply name_le_antisym.
  - by rewrite !sort_files_perm.
Qed.

(** C32. The hash addresses the content: when a bundle whose messages have unique names is
    encoded, the bytes are accepted again and decode to its normal form, which has the
    same encoding and so the same hash. So the hash an Agent announces is the one the
    Server computes from the payload, and again from the row it stored. Neither the source
    locations nor the order of the descriptor files matter, as long as their names differ:
    an accepted bundle that differs from this one in nothing else has the same hash. And
    nothing else is lost: a bundle with the same encoding has the same identity, tasks and
    runtime schema, and its files differ at most in order and source locations. *)
Theorem schema_hash_canonical `{FT : FloatText} `{SCC : SchemaCodec} `{SCL : !SchemaCodecLaws SCC} `{H256 : Sha256} b files bs :
  encode_checked b = Ok bs → decode_descriptors (sb_descriptor_set b) = Some files → unique_messages files →
  ∃ n, decode_checked bs = Ok n ∧ encode_checked n = Ok bs ∧ bundle_hash n = bundle_hash b ∧
    bundle_hash b = Ok (sha256 bs) ∧
    sb_plugin_id n = sb_plugin_id b ∧ sb_plugin_version n = sb_plugin_version b ∧ sb_tasks n = sb_tasks b ∧
    (∀ b' files', decode_descriptors (sb_descriptor_set b') = Some files' → validate b' = Ok tt →
      sb_format_version b' = sb_format_version b → sb_plugin_id b' = sb_plugin_id b →
      sb_plugin_version b' = sb_plugin_version b → sb_tasks b' = sb_tasks b → sb_runtime b' = sb_runtime b →
      (NoDup (fp_name <$> files) → reordered files' files → bundle_hash b' = bundle_hash b)) ∧
    ∀ b' files', decode_descriptors (sb_descriptor_set b') = Some files' → encode_checked b' = Ok bs →
      sb_format_version b' = sb_format_version b ∧ sb_plugin_id b' = sb_plugin_id b ∧
      sb_plugin_version b' = sb_plugin_version b ∧ sb_tasks b' = sb_tasks b ∧ sb_runtime b' = sb_runtime b ∧ reordered files' files.
Proof.
  intros He Hd Hu. destruct (encoded_decodes _ _ _ He Hd Hu) as (n & Hn & Hdec & Hen).
  exists n. split_and!; [done|done|..].
  - unfold bundle_hash. by rewrite Hen, He.
  - unfold bundle_hash. by rewrite He.
  - by destruct (normalized_files _ _ _ Hn Hd) as [_ ->].
  - by destruct (normalized_files _ _ _ Hn Hd) as [_ ->].
  - by destruct (normalized_files _ _ _ Hn Hd) as [_ ->].
  - intros b' files' Hd' Hv' E1 E2 E3 E4 E5 Hnames Hre.
    assert (sort_files (clear_source_info <$> files') = sort_files (clear_source_info <$> files)) as Es.
    { apply sort_files_unique; [by rewrite <-list_fmap_compose|by apply cleared_reordered]. }
    unfold bundle_hash. f_equal. unfold encode_checked. f_equal.
    unfold normalized at 1. rewrite Hv', Hd'. cbn [mbind result_bind ok_or]. rewrite Hn.
    destruct (normalized_files _ _ _ Hn Hd) as [_ ->]. rewrite Es. destruct b', b. cbn in *. by subst.
  - intros b' files' Hd' He'. destruct (encode_checked_normal _ _ He) as (n1 & Hn1 & -> & _).
    destruct (encode_checked_normal _ _ He') as (n2 & Hn2 & E & _).
    destruct (normalized_files _ _ _ Hn1 Hd) as [_ ->]. destruct (normalized_files _ _ _ Hn2 Hd') as [_ ->].
    apply (f_equal decode_bundle) in E. rewrite !bundle_roundtrip in E. injection E as E1 E2 E3 E4 E5 E6.
    apply (f_equal decode_descriptors) in E4. rewrite !descriptors_roundtrip in E4. injection E4 as E4.
    split_and!; [done..|]. apply cleared_reordered. by rewrite <-(sort_files_perm (_ <$> files')), <-E4, sort_files_perm.
Qed.

(** ** What validation guarantees *)

Lemma ensure_Ok b message u : ensure b message = Ok u ↔ b = true.
Proof. destruct b, u; cbn; naive_solver. Qed.

Lemma for_each_Ok {A} (body : A → result PluginSchemaError unit) l u :
  for_each body l = Ok u → ∀ x, x ∈ l → body x = Ok tt.
Proof.
  induction l as [|y l IH]; cbn; intros H x Hx; [by apply elem_of_nil in Hx|].
  apply result_bind_Ok in H as ([] & Hy & H). apply elem_of_cons in Hx as [->|Hx]; [done|by apply IH].
Qed.

Lemma in_order_NoDup {A} (key : A → string) l : out_of_order key l = false → NoDup (key <$> l).
Proof.
  intros H. cut (StronglySorted (λ a b, ¬ string_le b a) (key <$> l)).
  { clear H. induction 1 as [|x l' Hs IH Hall]; constructor; [|done]. intros Hx. rewrite Forall_forall in Hall.
    apply (Hall x Hx). by destruct (total string_le x x). }
  apply Sorted_StronglySorted.
  { intros a b c Hab Hbc Hca. destruct (total string_le a b) as [Hle|]; [|done]. apply Hbc. by trans a. }
  induction l as [|x [|y l] IH]; cbn; [constructor|repeat constructor|].
  cbn in H. apply orb_false_iff in H as [Hxy H]. constructor; [by apply IH|]. constructor. by apply bool_decide_eq_false in Hxy.
Qed.

Section Sound.
Context `{FT : FloatText}.

(** A default value keeps to the rules of its field. *)
Definition default_fits (field : PluginFieldSchema) (control : FieldControl) (t : ProtoType) (v : string) : Prop :=
  (default_numeric control t = true →
     ∃ n, parse_f64 v = Some n ∧ is_finite n = true ∧
       (∀ s m, fs_minimum field = Some s → parse_f64 s = Some m → SFltb n m = false) ∧
       (∀ s m, fs_maximum field = Some s → parse_f64 s = Some m → SFltb m n = false)) ∧
  (default_boolean control t = true → v = "true"%string ∨ v = "false"%string) ∧
  (default_textual control t = true →
     (∀ m, fs_min_length field = Some m → m ≤ utf8_chars (text_bytes v)) ∧
     (∀ m, fs_max_length field = Some m → utf8_chars (text_bytes v) ≤ m)) ∧
  (control = Select → fs_options field ≠ [] → v ∈ fo_value <$> fs_options field).

Lemma parse_bound_Ok name path value o :
  parse_bound name path value = Ok o → ∀ s m, value = Some s → parse_f64 s = Some m → o = Some m.
Proof.
  intros H s m -> Hm. cbn in H. unfold parse_number in H. rewrite Hm in H. cbn in H.
  destruct (ensure _ _); [|done]. by injection H as <-.
Qed.

Lemma default_value_sound field control descriptor minimum maximum t v :
  validate_default_value field control descriptor minimum maximum = Ok tt →
  fs_default_value field = Some v → proto_type (default 0 (fd_type descriptor)) = Some t →
  parse_bound "minimum" (fs_path field) (fs_minimum field) = Ok minimum →
  parse_bound "maximum" (fs_path field) (fs_maximum field) = Ok maximum → default_fits field control t v.
Proof.
  unfold validate_default_value, default_fits, field_type. intros H Hd Ht Hmin Hmax. rewrite Hd in H. rewrite Ht in H.
  cbn [ok_or mbind result_bind] in H.
  apply result_bind_Ok in H as ([] & Hnum & H). apply result_bind_Ok in H as ([] & Hbool & H).
  apply result_bind_Ok in H as ([] & Htext & H). apply ensure_Ok in Hbool, H. split_and!.
  - intros E. rewrite E in Hnum. apply result_bind_Ok in Hnum as (n & Hn & Hnum).
    unfold parse_number in Hn. apply result_bind_Ok in Hn as (n' & Hp & Hn). apply ok_or_Ok in Hp.
    apply result_bind_Ok in Hn as ([] & Hf & Hn). injection Hn as ->. apply ensure_Ok in Hf.
    apply result_bind_Ok in Hnum as ([] & Hlo & Hhi). apply ensure_Ok in Hlo, Hhi. exists n. split_and!; [done|done|..].
    + intros s m Es Em. rewrite (parse_bound_Ok _ _ _ _ Hmin s m Es Em) in Hlo. by apply negb_true_iff in Hlo.
    + intros s m Es Em. rewrite (parse_bound_Ok _ _ _ _ Hmax s m Es Em) in Hhi. by apply negb_true_iff in Hhi.
  - intros E. rewrite E in Hbool. cbn in Hbool. apply orb_true_iff in Hbool as [?%String.eqb_eq|?%String.eqb_eq]; eauto.
  - intros E. rewrite E in Htext. apply result_bind_Ok in Htext as ([] & Hlo & Hhi). apply ensure_Ok in Hlo, Hhi.
    split; intros m Em; rewrite Em in *; cbn in *.
    + apply negb_true_iff, bool_decide_eq_false in Hlo. lia.
    + apply negb_true_iff, bool_decide_eq_false in Hhi. lia.
  - intros -> Ho. rewrite bool_decide_eq_true_2, (bool_decide_eq_false_2 _ Ho) in H by done. cbn in H.
    apply existsb_exists in H as (o & Hin & He). apply String.eqb_eq in He. apply list_elem_of_fmap.
    exists o. split; [done|]. by apply list_elem_of_In.
Qed.

(** The Protobuf types a control is for. *)
Inductive suits : FieldControl → ProtoType → Prop :=
| suits_auto t : suits Auto t
| suits_number t : t ∈ [TDouble; TFloat; TInt32; TInt64; TUint32; TUint64; TSint32; TSint64; TFixed32; TFixed64; TSfixed32; TSfixed64] →
    suits Number t
| suits_toggle : suits Toggle TBool
| suits_select t : t ∈ [TEnum; TString] → suits Select t
| suits_text control t : control ∈ [Text; Textarea; Combobox; Password] → t ∈ [TString; TBytes] → suits control t.

(** What is promised of a default value, by control and type: a finite number within the
    bounds (not that it is an integer, or in the range of the type), a truth value, a text
    of the right length, one of the options if there are any. *)
Definition default_promise (field : PluginFieldSchema) (control : FieldControl) (t : ProtoType) (v : string) : Prop :=
  match control, t with
  | Number, _ | Auto, (TDouble | TFloat | TInt32 | TInt64 | TUint32 | TUint64 | TSint32 | TSint64 | TFixed32 | TFixed64 | TSfixed32 | TSfixed64) =>
      ∃ n, parse_f64 v = Some n ∧ is_finite n = true ∧
        (∀ s m, fs_minimum field = Some s → parse_f64 s = Some m → SFltb n m = false) ∧
        (∀ s m, fs_maximum field = Some s → parse_f64 s = Some m → SFltb m n = false)
  | Toggle, _ | Auto, TBool => v = "true"%string ∨ v = "false"%string
  | (Text | Textarea | Combobox | Password), _ | Auto, (TString | TBytes) =>
      (∀ m, fs_min_length field = Some m → m ≤ utf8_chars (text_bytes v)) ∧
      (∀ m, fs_max_length field = Some m → utf8_chars (text_bytes v) ≤ m)
  | Select, _ => fs_options field ≠ [] → v ∈ fo_value <$> fs_options field
  | Auto, (TGroup | TMessage | TEnum) => True
  end.

Lemma control_type_suits control t : control_type_valid control t = true → suits control t.
Proof.
  destruct control, t; intros H; first [discriminate H|constructor; set_solver].
Qed.

Lemma default_fits_promise field control t v : default_fits field control t v → default_promise field control t v.
Proof. intros (H1 & H2 & H3 & H4). destruct control, t; cbn; auto. Qed.

(** A field of an accepted schema: a field of the configuration message is behind it, whose
    type suits the control; bounds are numbers in order, lengths are in order, the default
    keeps its promise, options are for choices and different, and the format is known. *)
Record field_typed (config : DescriptorProto) (field : PluginFieldSchema) : Prop := {
  ft_type : ∃ descriptor control t, descriptor ∈ dp_field config ∧ fd_name descriptor = Some (fs_path field) ∧
    field_control (fs_control field) = Some control ∧ proto_type (default 0 (fd_type descriptor)) = Some t ∧
    suits control t ∧ (∀ v, fs_default_value field = Some v → default_promise field control t v) ∧
    (fs_options field ≠ [] → control = Select ∨ control = Combobox);
  ft_bounds : ∀ lo hi, fs_minimum field = Some lo → fs_maximum field = Some hi →
    ∃ x y, parse_f64 lo = Some x ∧ parse_f64 hi = Some y ∧ SFltb y x = false;
  ft_lengths : ∀ lo hi, fs_min_length field = Some lo → fs_max_length field = Some hi → lo ≤ hi;
  ft_options : NoDup (fo_value <$> fs_options field);
  ft_format : ∀ f, fs_format field = Some f → f ∈ ["hostname"; "ip"; "url"; "port"]%string;
}.

Lemma parse_bound_Some name path s o : parse_bound name path (Some s) = Ok o → ∃ x, parse_f64 s = Some x ∧ o = Some x.
Proof.
  cbn. unfold parse_number. destruct (parse_f64 s) as [x|]; [|done]. cbn. destruct (ensure _ _); [|done]. intros [= <-]. by exists x.
Qed.

Lemma validate_field_typed message config field : validate_field message config field = Ok tt → field_typed config field.
Proof.
  unfold validate_field. intros H. apply result_bind_Ok in H as ([] & _ & H).
  apply result_bind_Ok in H as (d & Hd & H). apply ok_or_Ok in Hd. unfold find_field in Hd.
  apply List.find_some in Hd as [Hin Hname]. apply bool_decide_eq_true in Hname.
  apply result_bind_Ok in H as (minimum & Hmin & H). apply result_bind_Ok in H as (maximum & Hmax & H).
  apply result_bind_Ok in H as ([] & Hrange & H). apply result_bind_Ok in H as ([] & Hlen & H). apply ensure_Ok in Hrange, Hlen.
  apply result_bind_Ok in H as (control & Hc & H). apply ok_or_Ok in Hc.
  apply result_bind_Ok in H as ([] & Ht & H). unfold validate_control_type, field_type in Ht.
  apply result_bind_Ok in Ht as (t & Ht & Hv). apply ok_or_Ok in Ht. apply ensure_Ok in Hv.
  apply result_bind_Ok in H as ([] & Hdef & H). apply result_bind_Ok in H as ([] & Hopt & H).
  apply result_bind_Ok in H as ([] & Hfmt & H). apply ensure_Ok in Hopt, Hfmt, H. apply andb_true_iff in H as [Hord _]. split.
  - exists d, control, t. split_and!; [by apply list_elem_of_In|done..|by apply control_type_suits| |].
    + intros v Hvv. by eapply default_fits_promise, default_value_sound.
    + intros Hne. rewrite (bool_decide_eq_false_2 _ Hne) in Hopt. cbn in Hopt.
      apply orb_true_iff in Hopt as [?%bool_decide_eq_true|?%bool_decide_eq_true]; auto.
  - intros lo hi Elo Ehi. rewrite Elo in Hmin. rewrite Ehi in Hmax. apply parse_bound_Some in Hmin as (x & Hx & ->), Hmax as (y & Hy & ->).
    exists x, y. split_and!; [done..|]. by apply negb_true_iff in Hrange.
  - intros lo hi Elo Ehi. rewrite Elo, Ehi in Hlen. by apply bool_decide_eq_true in Hlen.
  - apply in_order_NoDup. by apply negb_true_iff in Hord.
  - intros f Ef. rewrite Ef in Hfmt. cbn in Hfmt. by apply bool_decide_eq_true in Hfmt.
Qed.

End Sound.


(** ** Evaluation *)

(** Prefix codes: what is put in front of a text is got back from it. *)
Record Code (A : Type) : Type := mkCode {
  put : A → list Z;
  get : list Z → option (A * list Z);
  get_put : ∀ x rest, get (put x ++ rest) = Some (x, rest);
}.
Arguments put {_} _ _.
Arguments get {_} _ _.
Arguments get_put {_} _ _ _.

Definition code_Z : Code Z :=
  mkCode Z (λ x, [x]) (λ l, match l with [] => None | x :: l => Some (x, l) end) (λ x rest, eq_refl).

Program Definition code_map {A B} (c : Code A) (f : B → A) (g : A → B) (gf : ∀ x, g (f x) = x) : Code B :=
  mkCode B (λ x, put c (f x)) (λ l, '(x, l) ← get c l; Some (g x, l)) _.
Next Obligation. intros A B c f g gf x rest. cbn. rewrite (get_put c). cbn. by rewrite gf. Qed.

Program Definition code_pair {A B} (ca : Code A) (cb : Code B) : Code (A * B) :=
  mkCode (A * B) (λ x, put ca x.1 ++ put cb x.2)
    (λ l, '(a, l) ← get ca l; '(b, l) ← get cb l; Some ((a, b), l)) _.
Next Obligation. intros A B ca cb [a b] rest. cbn. rewrite <- app_assoc, (get_put ca). cbn. by rewrite (get_put cb). Qed.

Fixpoint get_many {A} (c : Code A) (n : nat) (l : list Z) : option (list A * list Z) :=
  match n with
  | 0%nat => Some ([], l)
  | S n => '(x, l) ← get c l; '(xs, l) ← get_many c n l; Some (x :: xs, l)
  end.
Program Definition code_list {A} (c : Code A) : Code (list A) :=
  mkCode (list A) (λ xs, zlen xs :: concat (put c <$> xs))
    (λ l, match l with [] => None | n :: l => get_many c (Z.to_nat n) l end) _.
Next Obligation.
  intros A c xs rest. cbn. unfold zlen. rewrite Nat2Z.id. induction xs as [|x xs IH]; cbn; [done|].
  rewrite <- app_assoc, (get_put c). cbn. by rewrite IH.
Qed.

Definition code_option {A} (c : Code A) : Code (option A).
Proof. refine (code_map (code_list c) option_list head _). by intros []. Defined.
Definition code_bool : Code bool.
Proof. refine (code_map code_Z (λ b : bool, if b then 1 else 0) (λ z, bool_decide (z = 1)) _). by intros []. Defined.
Definition code_nat : Code nat := code_map code_Z Z.of_nat Z.to_nat Nat2Z.id.
Definition code_string : Code string.
Proof.
  refine (code_map (code_list code_Z) (λ s, (λ c, Z.of_nat (nat_of_ascii c)) <$> String.list_ascii_of_string s)
    (λ l, String.string_of_list_ascii ((λ z, ascii_of_nat (Z.to_nat z)) <$> l)) _).
  intros s. transitivity (String.string_of_list_ascii (String.list_ascii_of_string s));
    [f_equal|apply String.string_of_list_ascii_of_string].
  induction (String.list_ascii_of_string s) as [|c l IH]; cbn; [done|]. by rewrite IH, Nat2Z.id, ascii_nat_embedding.
Defined.
Definition put_sum {A B} (ca : Code A) (cb : Code B) (x : A + B) : list Z :=
  match x with inl a => 0 :: put ca a | inr b => 1 :: put cb b end.
Definition get_sum {A B} (ca : Code A) (cb : Code B) (l : list Z) : option ((A + B) * list Z) :=
  match l with
  | 0 :: l => '(a, l) ← get ca l; Some (inl a, l)
  | _ :: l => '(b, l) ← get cb l; Some (inr b, l)
  | [] => None
  end.
Definition code_sum {A B} (ca : Code A) (cb : Code B) : Code (A + B).
Proof. refine (mkCode _ (put_sum ca cb) (get_sum ca cb) _). intros [a|b] rest; cbn; by rewrite get_put. Defined.

(** Descriptors as trees. *)
Definition descriptor_leaf : Type := option string * list (option string * option Z * bytes) * bytes.
Fixpoint put_descriptor (d : DescriptorProto) : gen_tree descriptor_leaf :=
  let '(mkDescriptor name field nested rest) := d in
  GenNode 0 (GenLeaf (name, (λ f, (fd_name f, fd_type f, fd_rest f)) <$> field, rest) :: (put_descriptor <$> nested)).
Fixpoint get_descriptor (t : gen_tree descriptor_leaf) : DescriptorProto :=
  match t with
  | GenNode 0 (GenLeaf (name, field, rest) :: nested) =>
      mkDescriptor name ((λ '(a, b, c), mkFieldDescriptor a b c) <$> field) (get_descriptor <$> nested) rest
  | _ => mkDescriptor None [] [] []
  end.

Lemma get_put_descriptor : ∀ d, get_descriptor (put_descriptor d) = d.
Proof.
  fix IH 1. intros [name field nested rest]. cbn. f_equal.
  - rewrite <- list_fmap_compose. rewrite <- (list_fmap_id field) at 2. apply list_fmap_ext. by intros ? [].
  - induction nested as [|d nested IHn]; cbn; [done|]. by rewrite IH, IHn.
Qed.

(** The codes of the messages. *)
Definition code_text := code_string.
Definition code_bytes := code_list code_Z.
Definition code_tree : Code (gen_tree descriptor_leaf).
Proof.
  refine (code_map (code_list (code_sum (code_pair code_nat code_nat)
      (code_pair (code_pair (code_option code_text) (code_list (code_pair (code_pair (code_option code_text) (code_option code_Z)) code_bytes)))
         code_bytes)))
    gen_tree_to_list (λ l, default (GenNode 1 []) (gen_tree_of_list [] l)) _).
  intros t. rewrite <- (right_id_L [] (++) (gen_tree_to_list t)), gen_tree_of_to_list. done.
Defined.
Definition code_descriptor : Code DescriptorProto := code_map code_tree put_descriptor get_descriptor get_put_descriptor.
Definition code_file : Code FileDescriptorProto.
Proof.
  refine (code_map (code_pair (code_pair (code_option code_text) (code_option code_text))
      (code_pair (code_list code_descriptor) (code_pair (code_option code_bytes) code_bytes)))
    (λ f, ((fp_name f, fp_package f), (fp_message_type f, (fp_source_code_info f, fp_rest f))))
    (λ '((a, b), (c, (d, e))), mkFileDescriptor a b c d e) _). by intros [].
Defined.
Definition code_choice : Code PluginFieldOption.
Proof.
  refine (code_map (code_pair code_text code_text) (λ o, (fo_value o, fo_label o)) (λ '(a, b), mkFieldOption a b) _).
  by intros [].
Defined.
Definition code_field : Code PluginFieldSchema.
Proof.
  refine (code_map (code_pair (code_pair (code_pair code_text code_text) (code_pair code_text (code_pair code_Z code_bool)))
      (code_pair (code_pair (code_pair (code_option code_text) (code_option code_text)) (code_pair (code_option code_text) (code_option code_Z)))
         (code_pair (code_pair (code_option code_Z) (code_option code_text)) (code_pair (code_list code_choice) (code_pair code_Z code_text)))))
    (λ f, (((fs_path f, fs_label f), (fs_description f, (fs_control f, fs_required f))),
           (((fs_default_value f, fs_minimum f), (fs_maximum f, fs_min_length f)),
            ((fs_max_length f, fs_format f), (fs_options f, (fs_order f, fs_unit f))))))
    (λ '(((a, b), (c, (d, e))), (((f, g), (h, i)), ((j, k), (l, (m, n))))), mkFieldSchema a b c d e f g h i j k l m n) _).
  by intros [].
Defined.
Definition code_task : Code PluginTaskSchema.
Proof.
  refine (code_map (code_pair (code_pair code_text (code_pair code_Z code_text))
      (code_pair (code_pair code_text code_text) (code_pair code_text (code_list code_field))))
    (λ t, ((ts_task_kind t, (ts_schema_version t, ts_config_message t)),
           ((ts_result_message t, ts_display_name t), (ts_description t, ts_fields t))))
    (λ '((a, (b, c)), ((d, e), (f, g))), mkTaskSchema a b c d e f g) _). by intros [].
Defined.
Definition code_runtime : Code PluginRuntimeSchema.
Proof.
  refine (code_map (code_pair (code_pair code_Z code_text) (code_pair code_text (code_pair code_text (code_list code_field))))
    (λ t, ((rs_schema_version t, rs_config_message t), (rs_display_name t, (rs_description t, rs_fields t))))
    (λ '((a, b), (c, (d, e))), mkRuntimeSchema a b c d e) _). by intros [].
Defined.
Definition code_bundle : Code PluginSchemaBundle.
Proof.
  refine (code_map (code_pair (code_pair code_Z (code_pair code_text code_text))
      (code_pair code_bytes (code_pair (code_list code_task) (code_option code_runtime))))
    (λ b, ((sb_format_version b, (sb_plugin_id b, sb_plugin_version b)), (sb_descriptor_set b, (sb_tasks b, sb_runtime b))))
    (λ '((a, (b, c)), (d, (e, f))), mkBundle a b c d e f) _). by intros [].
Defined.

Definition read_all {A} (c : Code A) (bs : bytes) : option A :=
  '(x, rest) ← get c bs; if bool_decide (rest = []) then Some x else None.

Lemma read_all_put {A} (c : Code A) x : read_all c (put c x) = Some x.
Proof. unfold read_all. pose proof (get_put c x []) as H. rewrite app_nil_r in H. by rewrite H. Qed.

Definition code_codec : SchemaCodec := {|
  encode_bundle := put code_bundle;
  decode_bundle := read_all code_bundle;
  encode_descriptors := put (code_list code_file);
  decode_descriptors := read_all (code_list code_file);
|}.

Lemma code_codec_laws : SchemaCodecLaws code_codec.
Proof. split; cbn -[code_bundle code_list]; [apply read_all_put|apply read_all_put|done]. Qed.

(** Decimal digits only. *)
Definition demo_floats : FloatText := λ s,
  match String.list_ascii_of_string s with
  | [c] => match (Z.of_nat (nat_of_ascii c) - 48)%Z with Z0 => Some (S754_zero false) | Zpos p => Some (S754_finite false p 0) | _ => None end
  | _ => None
  end.

(** The schema of the echo plugin, with a number between 2 and 9. *)
Definition demo_descriptor (fields : list FieldDescriptorProto) : DescriptorProto :=
  mkDescriptor (Some "TaskConfig"%string) fields [] [].
Definition demo_delay : FieldDescriptorProto := mkFieldDescriptor (Some "delay"%string) (Some 4) [].
Definition demo_file (name : string) (messages : list DescriptorProto) (info : option bytes) : FileDescriptorProto :=
  mkFileDescriptor (Some name) (Some "echo"%string) messages info [].
Definition demo_files : list FileDescriptorProto :=
  [demo_file "echo.proto" [demo_descriptor [demo_delay]] (Some [1; 2]);
   demo_file "base.proto" [mkDescriptor (Some "RuntimeConfig"%string) [] [] []] None].
Definition demo_field : PluginFieldSchema :=
  mkFieldSchema "delay" "Delay" "" 3 true (Some "5"%string) (Some "2"%string) (Some "9"%string) None None None [] 1 "ms".
Definition demo_bundle (files : list FileDescriptorProto) : PluginSchemaBundle :=
  mkBundle 1 "smalux.plus.echo" "0.1.0" (encode_descriptors (SchemaCodec := code_codec) files)
    [mkTaskSchema "smalux.plus.echo.v1" 1 ".echo.TaskConfig" "" "" "" [demo_field]]
    (Some (mkRuntimeSchema 1 "echo.RuntimeConfig" "" "" [])).
Definition demo_hash : Sha256 := λ bs, bs.
Definition demo_encoded : bytes :=
  match encode_checked (FT := demo_floats) (SCC := code_codec) (demo_bundle demo_files) with Ok bs => bs | _ => [] end.

Lemma demo_bundle_valid : validate (FT := demo_floats) (SCC := code_codec) (demo_bundle demo_files) = Ok tt.
Proof. vm_compute. reflexivity. Qed.

Lemma demo_bundle_encodes :
  encode_checked (FT := demo_floats) (SCC := code_codec) (demo_bundle demo_files) = Ok demo_encoded.
Proof. vm_compute. reflexivity. Qed.

(** The same files in another order, with other source locations. *)
Definition demo_files_moved : list FileDescriptorProto :=
  [demo_file "base.proto" [mkDescriptor (Some "RuntimeConfig"%string) [] [] []] (Some [7]);
   demo_file "echo.proto" [demo_descriptor [demo_delay]] None].

Lemma schema_hash_canonical_witness :
  (∃ n, decode_checked (FT := demo_floats) (SCC := code_codec) demo_encoded = Ok n ∧
    bundle_hash (FT := demo_floats) (SCC := code_codec) (H256 := demo_hash) n =
    bundle_hash (FT := demo_floats) (SCC := code_codec) (H256 := demo_hash) (demo_bundle demo_files)) ∧
  bundle_hash (FT := demo_floats) (SCC := code_codec) (H256 := demo_hash) (demo_bundle demo_files_moved) =
  bundle_hash (FT := demo_floats) (SCC := code_codec) (H256 := demo_hash) (demo_bundle demo_files).
Proof.
  destruct (schema_hash_canonical (FT := demo_floats) (SCL := code_codec_laws) (H256 := demo_hash)
    (demo_bundle demo_files) demo_files demo_encoded demo_bundle_encodes) as (n & Hn & _ & Hh & _ & _ & _ & _ & Hm & _).
  - cbn [demo_bundle sb_descriptor_set]. exact (descriptors_roundtrip (SchemaCodecLaws := code_codec_laws) demo_files).
  - unfold unique_messages. change (NoDup ["echo.TaskConfig"%string; "echo.RuntimeConfig"%string]).
    apply (bool_decide_eq_true_1 (NoDup _)). reflexivity.
  - split; [exists n; split; [exact Hn|exact Hh]|]. apply (Hm _ demo_files_moved).
    + exact (descriptors_roundtrip (SchemaCodecLaws := code_codec_laws) demo_files_moved).
    + vm_compute. reflexivity.
    + reflexivity.
    + reflexivity.
    + reflexivity.
    + reflexivity.
    + reflexivity.
    + apply (bool_decide_eq_true_1 (NoDup _)). reflexivity.
    + exists (rev demo_files_moved). split; [apply Permutation_rev|]. repeat constructor.
Defined.


(** A fraction is accepted as the default of an unsigned integer. *)
Definition fraction_floats : FloatText := λ s, if String.eqb s "1.5" then Some (S754_finite false 3 (-1)) else demo_floats s.
Example fractional_default_accepted :
  proto_type (default 0 (fd_type demo_delay)) = Some TUint64 ∧
  validate_field (FT := fraction_floats) "echo.TaskConfig" (demo_descriptor [demo_delay])
    (mkFieldSchema "delay" "Delay" "" 3 true (Some "1.5"%string) None None None None None [] 1 "ms") = Ok tt.
Proof. vm_compute. done. Qed.

(** Defect: a bundle with two messages of one name is accepted and hashed, but its own
    canonical encoding is refused: sorting the files makes another of the two messages
    count. *)
Definition shadowed_files : list FileDescriptorProto :=
  [demo_file "z.proto" [demo_descriptor []] None;
   demo_file "a.proto" [demo_descriptor [demo_delay]] None;
   demo_file "base.proto" [mkDescriptor (Some "RuntimeConfig"%string) [] [] []] None].

Lemma shadowed_message_breaks_schema :
  ∃ bs, encode_checked (FT := demo_floats) (SCC := code_codec) (demo_bundle shadowed_files) = Ok bs ∧
    decode_checked (FT := demo_floats) (SCC := code_codec) bs =
      Err (SchemaInvalid "field delay is missing from .echo.TaskConfig").
Proof. eexists. split; [vm_compute; reflexivity|vm_compute; reflexivity]. Qed.
