(* ===== verification/SchemaStore.v ===== *)
(** * The schema store of the Server

    [crates/smalux-server/src/database/plugin_schema.rs] and
    [service/agent/plugin_schema_registry.rs]: the table of schema bundles, addressed by
    their hash, and the cache in front of it that each process keeps.

    The table only grows.  [insert_plugin_schema] runs an [INSERT ... ON CONFLICT DO NOTHING]
    through [exec], which reports [RecordNotInserted] when no row was inserted, as
    [replace_agent_plugin_runtime_if_revision] expects of the same call. *)

From stdpp Require Import base gmap strings list pretty sorting.
From S2P Require Import Prelude Rotation Catalog Paging Policy Reports WebStore WebGate WebMetrics Session PlusSchema.

(** ** Rows *)

(** [plugin_schema::Model], by [schema_hash]; [(plugin_id, plugin_version)] is unique. *)
Record SchemaRow : Type := mkSchemaRow {
  sw_plugin_id : string;
  sw_plugin_version : string;
  sw_format_version : Z;
  sw_schema_payload : bytes;
  sw_created_at : Z;
}.

(** [PluginSchemaRecord]. *)
Record PluginSchemaRecord : Type := mkSchemaRecord {
  sc_hash : bytes;
  sc_bundle : PluginSchemaBundle;
  sc_created_at : Z;
}.

(** [DatabaseError] and the errors of [anyhow] in the registry. *)
Inductive SchemaError : Type :=
| InvalidPluginSchema (message : string)
| RecordNotInserted
| SchemaSeaOrm (message : string)
| SchemaText (message : string)
| SchemaBundle (e : PluginSchemaError).

(** [x as i32] of a [u32]. *)
Definition as_i32 (x : Z) : Z := if bool_decide (x < 2147483648) then x else x - 4294967296.

Section Store.
Context `{FT : FloatText} `{SCC : SchemaCodec} `{H256 : Sha256}.

(** [PluginSchemaError] as text. *)
Definition bundle_error (e : PluginSchemaError) : SchemaError :=
  InvalidPluginSchema
    match e with
    | SchemaTooLarge => "schema bundle exceeds 1048576 bytes"
    | SchemaDecode => "failed to decode schema bundle"
    | SchemaInvalid message => ("schema bundle is invalid: " +:+ message)%string
    end.

(** [restore_record]. *)
Definition restore_record (hash : bytes) (model : SchemaRow) : result SchemaError PluginSchemaRecord :=
  _ ← (if bool_decide (length hash = 32%nat) then Ok tt
       else Err (InvalidPluginSchema "stored Schema hash must contain 32 bytes"));
  bundle ← map_err bundle_error (decode_checked (sw_schema_payload model));
  actual ← map_err bundle_error (bundle_hash bundle);
  if bool_decide (actual ≠ hash) || bool_decide (sw_format_version model ≠ as_i32 (sb_format_version bundle))
  then Err (InvalidPluginSchema "stored Schema hash or format version does not match payload")
  else Ok (mkSchemaRecord hash bundle (sw_created_at model)).

(** [load_plugin_schema]. *)
Definition load_plugin_schema (hash : bytes) (t : gmap bytes SchemaRow) : result SchemaError (option PluginSchemaRecord) :=
  match t !! hash with None => Ok None | Some model => Some <$> restore_record hash model end.

(** [load_plugin_schemas]. *)
Fixpoint restore_all (rows : list (bytes * SchemaRow)) : result SchemaError (list PluginSchemaRecord) :=
  match rows with
  | [] => Ok []
  | row :: rows =>
      record ← restore_record row.1 row.2;
      records ← restore_all rows;
      Ok (record :: records)
  end.
Definition load_plugin_schemas (hashes : list bytes) (t : gmap bytes SchemaRow) : result SchemaError (list PluginSchemaRecord) :=
  match hashes with
  | [] => Ok []
  | _ => restore_all (filter (λ kv, kv.1 ∈ hashes) (map_to_list t))
  end.

(** [insert_plugin_schema]: a row of the same plugin version is the conflict the statement
    names; a row of the same hash alone violates the primary key. *)
Definition occupies (bundle : PluginSchemaBundle) (kv : bytes * SchemaRow) : bool :=
  bool_decide (sw_plugin_id kv.2 = sb_plugin_id bundle) && bool_decide (sw_plugin_version kv.2 = sb_plugin_version bundle).
Definition insert_plugin_schema (now : Z) (bundle : PluginSchemaBundle) (t : gmap bytes SchemaRow) :
    result SchemaError bytes * gmap bytes SchemaRow :=
  match map_err bundle_error (encode_checked bundle), map_err bundle_error (bundle_hash bundle) with
  | Ok payload, Ok hash =>
      if existsb (occupies bundle) (map_to_list t) then (Err RecordNotInserted, t)
      else if bool_decide (is_Some (t !! hash)) then (Err (SchemaSeaOrm "UNIQUE constraint failed: plugin_schemas.schema_hash"), t)
      else
        let row := mkSchemaRow (sb_plugin_id bundle) (sb_plugin_version bundle) (as_i32 (sb_format_version bundle)) payload now in
        let t := <[hash := row]> t in
        (match load_plugin_schema hash t with
         | Err e => Err e
         | Ok None => Err (InvalidPluginSchema "Schema insert was ignored by a conflicting plugin version")
         | Ok (Some record) =>
             if bool_decide (sb_plugin_id (sc_bundle record) ≠ sb_plugin_id bundle)
                || bool_decide (sb_plugin_version (sc_bundle record) ≠ sb_plugin_version bundle)
             then Err (InvalidPluginSchema "plugin version is already bound to a different Schema")
             else Ok hash
         end, t)
  | Err e, _ => (Err e, t)
  | _, Err e => (Err e, t)
  end.

(** ** The registry *)

Definition MAX_CACHED_SCHEMAS : Z := 256.

(** [schema_hash]. *)
Definition schema_hash (bs : bytes) : result SchemaError bytes :=
  if bool_decide (length bs = 32%nat) then Ok bs
  else Err (SchemaText "Plus schema hash must contain exactly 32 bytes").

(** [validate_identity]. *)
Definition identity_matches (bundle : PluginSchemaBundle) (expected : PluginInventoryEntry) : bool :=
  bool_decide (sb_plugin_id bundle = pie_plugin_id expected)
  && bool_decide (sb_plugin_version bundle = pie_version expected)
  && bool_decide (sb_format_version bundle = pie_schema_format_version expected)
  && bool_decide ((ts_task_kind <$> sb_tasks bundle) = pie_task_kinds expected).
Definition validate_identity (bundle : PluginSchemaBundle) (expected : PluginInventoryEntry) : result SchemaError unit :=
  if identity_matches bundle expected then Ok tt
  else Err (SchemaText "Plus schema identity does not match the current inventory").

(** [cache_if_room]. *)
Definition cache_if_room (hash : bytes) (bundle : PluginSchemaBundle) (cache : gmap bytes PluginSchemaBundle) : gmap bytes PluginSchemaBundle :=
  if bool_decide (Z.of_nat (size cache) < MAX_CACHED_SCHEMAS) || bool_decide (is_Some (cache !! hash))
  then <[hash := bundle]> cache else cache.

(** The first loop of [missing_for_inventory]: what the cache resolves, and the rest. *)
Fixpoint resolve_cached (cache : gmap bytes PluginSchemaBundle) (plugins : list PluginInventoryEntry) :
    result SchemaError (gmap bytes PluginSchemaBundle * list bytes) :=
  match plugins with
  | [] => Ok (∅, [])
  | plugin :: plugins =>
      hash ← schema_hash (pie_schema_hash plugin);
      match cache !! hash with
      | Some bundle =>
          _ ← validate_identity bundle plugin;
          '(resolved, unresolved) ← resolve_cached cache plugins;
          Ok (<[hash := bundle]> resolved, unresolved)
      | None =>
          '(resolved, unresolved) ← resolve_cached cache plugins;
          Ok (resolved, hash :: unresolved)
      end
  end.

(** The last loop: the entries no bundle was found for. *)
Fixpoint collect_missing (resolved : gmap bytes PluginSchemaBundle) (plugins : list PluginInventoryEntry) : result SchemaError (list bytes) :=
  match plugins with
  | [] => Ok []
  | plugin :: plugins =>
      hash ← schema_hash (pie_schema_hash plugin);
      match resolved !! hash with
      | Some bundle =>
          _ ← validate_identity bundle plugin;
          collect_missing resolved plugins
      | None =>
          missing ← collect_missing resolved plugins;
          Ok (pie_schema_hash plugin :: missing)
      end
  end.

(** [sort_unstable] and [dedup]. *)
Fixpoint dedup (l : list bytes) : list bytes :=
  match l with
  | x :: ((y :: _) as l') => if bool_decide (x = y) then dedup l' else x :: dedup l'
  | _ => l
  end.
Definition sort_dedup (l : list bytes) : list bytes := dedup (merge_sort bytes_le l).

(** [missing_for_inventory], with the cache it leaves. *)
Definition missing_for_inventory (inventory : AgentPluginInventory) (t : gmap bytes SchemaRow) (cache : gmap bytes PluginSchemaBundle) :
    result SchemaError (list bytes) * gmap bytes PluginSchemaBundle :=
  match resolve_cached cache (inv_plugins inventory) with
  | Err e => (Err e, cache)
  | Ok (resolved, unresolved) =>
      match load_plugin_schemas (sort_dedup unresolved) t with
      | Err e => (Err e, cache)
      | Ok records =>
          let cache := foldl (λ c r, cache_if_room (sc_hash r) (sc_bundle r) c) cache records in
          let resolved := foldl (λ c r, <[sc_hash r := sc_bundle r]> c) resolved records in
          (sort_dedup <$> collect_missing resolved (inv_plugins inventory), cache)
      end
  end.

(** [store_response]: the checks, and the rest. *)
Definition check_response (inventory : AgentPluginInventory) (claimed_hash payload : bytes) :
    result SchemaError (PluginSchemaBundle * bytes) :=
  claimed_hash ← schema_hash claimed_hash;
  bundle ← map_err SchemaBundle (decode_checked payload);
  actual_hash ← map_err SchemaBundle (bundle_hash bundle);
  _ ← (if bool_decide (actual_hash ≠ claimed_hash)
       then Err (SchemaText "Plus schema payload does not match its claimed hash") else Ok tt);
  expected ← ok_or (SchemaText "Plus schema was not declared by the current inventory")
               (List.find (λ plugin, bool_decide (pie_schema_hash plugin = claimed_hash)) (inv_plugins inventory));
  _ ← validate_identity bundle expected;
  Ok (bundle, actual_hash).
Definition store_response (now : Z) (inventory : AgentPluginInventory) (claimed_hash payload : bytes) (t : gmap bytes SchemaRow)
    (cache : gmap bytes PluginSchemaBundle) : result SchemaError bytes * gmap bytes SchemaRow * gmap bytes PluginSchemaBundle :=
  match check_response inventory claimed_hash payload with
  | Err e => (Err e, t, cache)
  | Ok (bundle, actual_hash) =>
      match insert_plugin_schema now bundle t with
      | (Err e, t) => (Err e, t, cache)
      | (Ok _, t) => (Ok actual_hash, t, cache_if_room actual_hash bundle cache)
      end
  end.

End Store.

(** ** Histories *)

(** The table and the caches of the Server processes. *)
Record SchemaSystem : Type := mkSchemaSystem {
  sy_table : gmap bytes SchemaRow;
  sy_caches : gmap nat (gmap bytes PluginSchemaBundle);
}.
Definition cache_of (k : nat) (s : SchemaSystem) : gmap bytes PluginSchemaBundle := default ∅ (sy_caches s !! k).
Definition new_schema_system : SchemaSystem := mkSchemaSystem ∅ ∅.

Section History.
Context `{FT : FloatText} `{SCC : SchemaCodec} `{H256 : Sha256}.

(** Payloads made from the output of [protoc]: no message is described twice. *)
Definition wf_upload (payload : bytes) : Prop :=
  ∀ b files, decode_bundle payload = Some b → decode_descriptors (sb_descriptor_set b) = Some files → unique_messages files.

(** A session asks for the missing schemas, a session stores an answer, a process starts
    anew. *)
Definition do_missing (k : nat) (inventory : AgentPluginInventory) (s : SchemaSystem) : SchemaSystem :=
  mkSchemaSystem (sy_table s)
    (<[k := (missing_for_inventory inventory (sy_table s) (cache_of k s)).2]> (sy_caches s)).
Definition do_store (k : nat) (now : Z) (inventory : AgentPluginInventory) (claimed payload : bytes) (s : SchemaSystem) :
    SchemaSystem :=
  let '(_, t, c) := store_response now inventory claimed payload (sy_table s) (cache_of k s) in
  mkSchemaSystem t (<[k := c]> (sy_caches s)).
Inductive schema_step : SchemaSystem → SchemaSystem → Prop :=
| ss_missing k inventory s : schema_step s (do_missing k inventory s)
| ss_store k now inventory claimed payload s : schema_step s (do_store k now inventory claimed payload s)
| ss_restart k s : schema_step s (mkSchemaSystem (sy_table s) (delete k (sy_caches s))).

(** The steps in which every upload was made from the output of [protoc]. *)
Inductive proper_step : SchemaSystem → SchemaSystem → Prop :=
| ps_missing k inventory s : proper_step s (do_missing k inventory s)
| ps_store k now inventory claimed payload s : wf_upload payload → proper_step s (do_store k now inventory claimed payload s)
| ps_restart k s : proper_step s (mkSchemaSystem (sy_table s) (delete k (sy_caches s))).

(** ** Invariant *)

Definition same_identity (a b : PluginSchemaBundle) : Prop :=
  sb_plugin_id a = sb_plugin_id b ∧ sb_plugin_version a = sb_plugin_version b ∧
  sb_format_version a = sb_format_version b ∧ (ts_task_kind <$> sb_tasks a) = (ts_task_kind <$> sb_tasks b).

(** The bundle of a row. *)
Definition row_bundle (t : gmap bytes SchemaRow) (h : bytes) (b : PluginSchemaBundle) : Prop :=
  ∃ row, t !! h = Some row ∧ restore_record h row = Ok (mkSchemaRecord h b (sw_created_at row)) ∧
    sw_plugin_id row = sb_plugin_id b ∧ sw_plugin_version row = sb_plugin_version b.

(** A plugin version is bound to one hash. *)
Definition versions_bound (t : gmap bytes SchemaRow) : Prop := ∀ h h' row row',
  t !! h = Some row → t !! h' = Some row' →
  sw_plugin_id row = sw_plugin_id row' → sw_plugin_version row = sw_plugin_version row' → h = h'.
Record table_ok (t : gmap bytes SchemaRow) : Prop := {
  to_rows h : is_Some (t !! h) → ∃ b, row_bundle t h b;
  to_bound : versions_bound t;
}.
Definition cache_ok (t : gmap bytes SchemaRow) (c : gmap bytes PluginSchemaBundle) : Prop :=
  ∀ h b, c !! h = Some b → ∃ b', row_bundle t h b' ∧ same_identity b b'.

Lemma row_bundle_unique t h b b' : row_bundle t h b → row_bundle t h b' → b = b'.
Proof. intros (row & Ht & Hr & _) (row' & Ht' & Hr' & _). rewrite Ht in Ht'. injection Ht' as <-. rewrite Hr in Hr'. by injection Hr'. Qed.

Lemma identity_matches_same a b plugin : same_identity a b → identity_matches a plugin = identity_matches b plugin.
Proof. intros (E1 & E2 & E3 & E4). unfold identity_matches. by rewrite E1, E2, E3, E4. Qed.

Lemma cache_if_room_ok t c h b : cache_ok t c → (∃ b', row_bundle t h b' ∧ same_identity b b') → cache_ok t (cache_if_room h b c).
Proof.
  intros Hc Hb h' b'. unfold cache_if_room. destruct (_ || _); [|apply Hc].
  destruct (decide (h' = h)) as [->|Hne]; [rewrite lookup_insert_eq; by intros [= <-]|rewrite lookup_insert_ne by done; apply Hc].
Qed.

Lemma restore_all_Ok rows records :
  restore_all rows = Ok records →
  Forall2 (λ kv r, restore_record kv.1 kv.2 = Ok r) rows records.
Proof.
  revert records. induction rows as [|row rows IH]; cbn; intros records H; [by injection H as <-|].
  apply result_bind_Ok in H as (r & Hr & H). apply result_bind_Ok in H as (rs & Hrs & H). injection H as <-.
  constructor; [done|by apply IH].
Qed.

Lemma restore_record_hash h row r : restore_record h row = Ok r → sc_hash r = h ∧ sc_created_at r = sw_created_at row.
Proof.
  unfold restore_record. intros H. apply result_bind_Ok in H as ([] & _ & H). apply result_bind_Ok in H as (b & _ & H).
  apply result_bind_Ok in H as (a & _ & H). destruct (_ || _); [done|]. by injection H as <-.
Qed.

Lemma load_schemas_eq t hashes :
  load_plugin_schemas hashes t = restore_all (filter (λ kv, kv.1 ∈ hashes) (map_to_list t)).
Proof.
  destruct hashes as [|h hashes]; [|done]. cbn. induction (map_to_list t) as [|kv l IH]; [done|].
  rewrite filter_cons_False by set_solver. done.
Qed.

(** What is loaded are the rows of the hashes. *)
Lemma load_schemas_Ok t hashes records : table_ok t →
  load_plugin_schemas hashes t = Ok records →
  (∀ r, r ∈ records → sc_hash r ∈ hashes ∧ row_bundle t (sc_hash r) (sc_bundle r)) ∧
  (∀ h, h ∈ hashes → is_Some (t !! h) → ∃ r, r ∈ records ∧ sc_hash r = h).
Proof.
  intros Hok Hl. rewrite load_schemas_eq in Hl. apply restore_all_Ok in Hl. split.
  - intros r Hr. apply list_elem_of_lookup in Hr as [i Hi].
    destruct (Forall2_lookup_r _ _ _ _ _ Hl Hi) as ([h row] & Hkv & Hrow). cbn in Hrow.
    apply list_elem_of_lookup_2, list_elem_of_filter in Hkv as [Hin Hkv]. apply elem_of_map_to_list in Hkv. cbn in Hin.
    destruct (restore_record_hash _ _ _ Hrow) as [-> _]. split; [done|].
    destruct (to_rows _ Hok h (mk_is_Some _ _ Hkv)) as (b & row' & Ht & Hr' & Hid).
    rewrite Hkv in Ht. injection Ht as <-. pose proof Hr' as Hr2. rewrite Hrow in Hr2. injection Hr2 as ->. by exists row.
  - intros h Hin [row Ht]. assert ((h, row) ∈ filter (λ kv, kv.1 ∈ hashes) (map_to_list t)) as Hkv.
    { apply list_elem_of_filter. split; [done|]. by apply elem_of_map_to_list. }
    apply list_elem_of_lookup in Hkv as [i Hi]. destruct (Forall2_lookup_l _ _ _ _ _ Hl Hi) as (r & Hr & Hrow).
    exists r. split; [by eapply list_elem_of_lookup_2|]. by destruct (restore_record_hash _ _ _ Hrow).
Qed.

(** Loading fails only on a row that cannot be restored. *)
Lemma load_schemas_total t hashes : table_ok t → ∃ records, load_plugin_schemas hashes t = Ok records.
Proof.
  intros Hok. rewrite load_schemas_eq.
  assert (∀ kv, kv ∈ filter (λ kv, kv.1 ∈ hashes) (map_to_list t) → ∃ r, restore_record kv.1 kv.2 = Ok r) as H.
  { intros [h row] Hkv. apply list_elem_of_filter in Hkv as [_ Hkv]. apply elem_of_map_to_list in Hkv.
    destruct (to_rows _ Hok h (mk_is_Some _ _ Hkv)) as (b & row' & Ht & Hr & _). rewrite Hkv in Ht. injection Ht as <-. eauto. }
  induction (filter _ _) as [|kv l IH]; cbn; [by eexists|]. destruct (H kv) as [r Hr]; [set_solver|].
  destruct IH as [rs Hrs]; [set_solver|]. rewrite Hr, Hrs. by eexists.
Qed.

(** ** Asking for what is missing *)

Lemma resolve_cached_Ok c plugins resolved unresolved :
  resolve_cached c plugins = Ok (resolved, unresolved) →
  (∀ h b, resolved !! h = Some b → c !! h = Some b) ∧
  (∀ plugin, plugin ∈ plugins → length (pie_schema_hash plugin) = 32%nat ∧
     match c !! pie_schema_hash plugin with
     | Some b => resolved !! pie_schema_hash plugin = Some b
     | None => pie_schema_hash plugin ∈ unresolved
     end) ∧ (∀ h, h ∈ unresolved → c !! h = None).
Proof.
  revert resolved unresolved. induction plugins as [|plugin plugins IH]; cbn; intros resolved unresolved H.
  { injection H as <- <-. split_and!; [done|by intros ? ?%elem_of_nil|by intros ? ?%elem_of_nil]. }
  unfold schema_hash in H at 1. apply result_bind_Ok in H as (h & Hh & H). case_bool_decide as Hlen; [|done]. injection Hh as <-.
  destruct (c !! pie_schema_hash plugin) as [b|] eqn:Hc.
  - apply result_bind_Ok in H as ([] & _ & H). apply result_bind_Ok in H as ([res unres] & Hr & H). injection H as <- <-.
    destruct (IH _ _ Hr) as (H1 & H2 & H3). split_and!; [|..|done].
    + intros h b'. destruct (decide (h = pie_schema_hash plugin)) as [->|Hne]; [|rewrite lookup_insert_ne by done; apply H1].
      rewrite lookup_insert_eq. congruence.
    + intros p [->|Hp]%elem_of_cons; [rewrite Hc, lookup_insert_eq; done|]. destruct (H2 p Hp) as [? Hm]. split; [done|].
      destruct (c !! pie_schema_hash p) as [b'|] eqn:Hp'; [|done].
      destruct (decide (pie_schema_hash p = pie_schema_hash plugin)) as [E|Hne]; [|by rewrite lookup_insert_ne].
      rewrite E, lookup_insert_eq. congruence.
  - apply result_bind_Ok in H as ([res unres] & Hr & H). injection H as <- <-. destruct (IH _ _ Hr) as (H1 & H2 & H3).
    split_and!; [done| |intros h [->|Hh]%elem_of_cons; eauto].
    intros p [->|Hp]%elem_of_cons; [rewrite Hc; split; [done|set_solver]|]. destruct (H2 p Hp) as [? Hm]. split; [done|].
    destruct (c !! pie_schema_hash p); [done|set_solver].
Qed.

Lemma resolve_cached_total c plugins :
  (∀ plugin, plugin ∈ plugins → length (pie_schema_hash plugin) = 32%nat ∧
     ∀ b, c !! pie_schema_hash plugin = Some b → identity_matches b plugin = true) →
  ∃ r, resolve_cached c plugins = Ok r.
Proof.
  induction plugins as [|plugin plugins IH]; intros H; cbn; [by eexists|].
  destruct IH as [[res unres] Hr]; [intros p Hp; apply H; set_solver|]. destruct (H plugin) as [Hlen Hid]; [set_solver|].
  unfold schema_hash. rewrite bool_decide_eq_true_2 by done. cbn [mbind result_bind].
  destruct (c !! pie_schema_hash plugin) as [b|]; [unfold validate_identity; rewrite Hid by done; cbn [mbind result_bind]|];
    rewrite Hr; by eexists.
Qed.

Lemma collect_missing_Ok resolved plugins missing :
  collect_missing resolved plugins = Ok missing →
  (∀ h, h ∈ missing ↔ h ∈ pie_schema_hash <$> plugins ∧ resolved !! h = None) ∧
  (∀ plugin b, plugin ∈ plugins → resolved !! pie_schema_hash plugin = Some b → identity_matches b plugin = true).
Proof.
  revert missing. induction plugins as [|plugin plugins IH]; cbn; intros missing H.
  { injection H as <-. split; [set_solver|by intros ? ? ?%elem_of_nil]. }
  unfold schema_hash in H at 1. apply result_bind_Ok in H as (h & Hh & H). case_bool_decide as Hlen; [|done]. injection Hh as <-.
  destruct (resolved !! pie_schema_hash plugin) as [b|] eqn:Hc.
  - apply result_bind_Ok in H as ([] & Hv & H). destruct (IH _ H) as [H1 H2]. split.
    + intros h. rewrite H1, elem_of_cons. split; [naive_solver|]. intros [[->|?] ?]; [congruence|naive_solver].
    + intros p b' [->|Hp]%elem_of_cons Hb; [|by eapply H2]. rewrite Hc in Hb. injection Hb as <-.
      unfold validate_identity in Hv. by destruct (identity_matches b plugin).
  - apply result_bind_Ok in H as (m & Hm & H). injection H as <-. destruct (IH _ Hm) as [H1 H2]. split.
    + intros h. rewrite !elem_of_cons, H1. split; [intros [->|[? ?]]; naive_solver|naive_solver].
    + intros p b' [->|Hp]%elem_of_cons Hb; [congruence|by eapply H2].
Qed.

Lemma collect_missing_total resolved plugins :
  (∀ plugin, plugin ∈ plugins → length (pie_schema_hash plugin) = 32%nat ∧
     ∀ b, resolved !! pie_schema_hash plugin = Some b → identity_matches b plugin = true) →
  ∃ m, collect_missing resolved plugins = Ok m.
Proof.
  induction plugins as [|plugin plugins IH]; intros H; cbn; [by eexists|].
  destruct IH as [m Hm]; [intros p Hp; apply H; set_solver|]. destruct (H plugin) as [Hlen Hid]; [set_solver|].
  unfold schema_hash. rewrite bool_decide_eq_true_2 by done. cbn [mbind result_bind].
  destruct (resolved !! pie_schema_hash plugin) as [b|]; [unfold validate_identity; rewrite Hid by done; cbn [mbind result_bind]|];
    rewrite Hm; by eexists.
Qed.

Lemma dedup_cons x y l : dedup (x :: y :: l) = if bool_decide (x = y) then dedup (y :: l) else x :: dedup (y :: l).
Proof. done. Qed.

Lemma elem_of_dedup l x : x ∈ dedup l ↔ x ∈ l.
Proof.
  induction l as [|y [|z l] IH]; [done|done|]. rewrite dedup_cons. case_bool_decide as E; [subst z; set_solver|].
  rewrite elem_of_cons, IH. set_solver.
Qed.

Lemma dedup_NoDup l : StronglySorted bytes_le l → NoDup (dedup l).
Proof.
  induction l as [|y [|z l] IH]; intros Hs; [constructor|apply NoDup_singleton|]. rewrite dedup_cons.
  apply StronglySorted_inv in Hs as [Hs Hall]. case_bool_decide as E; [by apply IH|].
  apply NoDup_cons. split; [|by apply IH]. rewrite elem_of_dedup. intros Hy.
  apply elem_of_cons in Hy as [->|Hy]; [done|]. apply E. apply StronglySorted_inv in Hs as [_ Hz].
  rewrite Forall_forall in Hall, Hz. apply bytes_le_antisym; [apply Hall; set_solver|by apply Hz].
Qed.

Lemma elem_of_sort_dedup l x : x ∈ sort_dedup l ↔ x ∈ l.
Proof. unfold sort_dedup. by rewrite elem_of_dedup, merge_sort_Permutation. Qed.

Lemma sort_dedup_NoDup l : NoDup (sort_dedup l).
Proof. apply dedup_NoDup. apply StronglySorted_merge_sort; apply _. Qed.

(** Entering the loaded records. *)
Lemma foldl_records_lookup (res : gmap bytes PluginSchemaBundle) records h b :
  foldl (λ c r, <[sc_hash r := sc_bundle r]> c) res records !! h = Some b →
  res !! h = Some b ∨ ∃ r, r ∈ records ∧ sc_hash r = h ∧ sc_bundle r = b.
Proof.
  revert res. induction records as [|r records IH]; cbn; intros res H; [by left|].
  destruct (IH _ H) as [H'|(r' & ? & ?)]; [|right; exists r'; set_solver].
  destruct (decide (h = sc_hash r)) as [->|Hne]; [|rewrite lookup_insert_ne in H' by done; by left].
  rewrite lookup_insert_eq in H'. injection H' as <-. right. exists r. set_solver.
Qed.

Lemma foldl_records_mono (res : gmap bytes PluginSchemaBundle) records h :
  is_Some (res !! h) ∨ (∃ r, r ∈ records ∧ sc_hash r = h) →
  is_Some (foldl (λ c r, <[sc_hash r := sc_bundle r]> c) res records !! h).
Proof.
  revert res. induction records as [|r records IH]; cbn; intros res H.
  { destruct H as [?|(r & ?%elem_of_nil & _)]; done. }
  apply IH. destruct (decide (h = sc_hash r)) as [->|Hne]; [left; rewrite lookup_insert_eq; eauto|].
  rewrite lookup_insert_ne by done. destruct H as [?|(r' & [->|?]%elem_of_cons & ?)]; [by left|done|right; eauto].
Qed.

Lemma resolved_spec t c plugins res unres records : table_ok t → cache_ok t c →
  resolve_cached c plugins = Ok (res, unres) → load_plugin_schemas (sort_dedup unres) t = Ok records →
  let resolved := foldl (λ c r, <[sc_hash r := sc_bundle r]> c) res records in
  (∀ h b, resolved !! h = Some b → ∃ b', row_bundle t h b' ∧ same_identity b b') ∧
  (∀ plugin, plugin ∈ plugins → is_Some (t !! pie_schema_hash plugin) → is_Some (resolved !! pie_schema_hash plugin)).
Proof.
  intros Hok Hc Hr Hl resolved. destruct (resolve_cached_Ok _ _ _ _ Hr) as (H1 & H2 & H3).
  destruct (load_schemas_Ok _ _ _ Hok Hl) as [L1 L2]. split.
  - intros h b [Hb|(r & Hin & <- & <-)]%foldl_records_lookup; [by apply Hc, H1|].
    destruct (L1 r Hin) as [_ Hrow]. exists (sc_bundle r). split; [done|]. by split_and!.
  - intros plugin Hp Ht. apply foldl_records_mono. destruct (H2 plugin Hp) as [_ Hm].
    destruct (c !! pie_schema_hash plugin) as [b|]; [left; by eexists|]. right. apply L2; [|done]. by apply elem_of_sort_dedup.
Qed.

(** ** The invariant holds *)

Lemma cached_records_ok t c records : cache_ok t c →
  (∀ r, r ∈ records → row_bundle t (sc_hash r) (sc_bundle r)) →
  cache_ok t (foldl (λ c r, cache_if_room (sc_hash r) (sc_bundle r) c) c records).
Proof.
  revert c. induction records as [|r records IH]; cbn; intros c Hc Hr; [done|]. apply IH; [|intros; apply Hr; set_solver].
  apply cache_if_room_ok; [done|]. exists (sc_bundle r). split; [apply Hr; set_solver|by split_and!].
Qed.

Lemma missing_cache_ok t c inventory : table_ok t → cache_ok t c → cache_ok t (missing_for_inventory inventory t c).2.
Proof.
  intros Hok Hc. unfold missing_for_inventory. destruct (resolve_cached c _) as [[res unres]|e]; [|done].
  destruct (load_plugin_schemas _ t) as [records|e] eqn:Hl; [|done]. cbn. apply cached_records_ok; [done|].
  intros r Hr. by apply (load_schemas_Ok _ _ _ Hok Hl).
Qed.

Context `{SCL : !SchemaCodecLaws SCC}.

Lemma normalized_identity b n : normalized b = Ok n → same_identity b n.
Proof.
  unfold normalized. intros H. apply result_bind_Ok in H as ([] & _ & H). apply result_bind_Ok in H as (files & _ & H).
  injection H as <-. by split_and!.
Qed.

(** The row of a bundle restores its normal form. *)
Lemma restore_encoded now b payload h :
  encode_checked b = Ok payload → bundle_hash b = Ok h → length h = 32%nat →
  (∀ files, decode_descriptors (sb_descriptor_set b) = Some files → unique_messages files) →
  ∃ n, same_identity b n ∧
    restore_record h (mkSchemaRow (sb_plugin_id b) (sb_plugin_version b) (as_i32 (sb_format_version b)) payload now) =
      Ok (mkSchemaRecord h n now).
Proof.
  intros He Hh Hlen Hu. destruct (encode_checked_normal _ _ He) as (n0 & Hn & _ & _). pose proof Hn as Hn0.
  unfold normalized in Hn0. apply result_bind_Ok in Hn0 as ([] & _ & Hn0). apply result_bind_Ok in Hn0 as (files & Hf & _).
  apply ok_or_Ok in Hf. destruct (encoded_decodes _ _ _ He Hf (Hu _ Hf)) as (n & Hn' & Hd & Hen).
  pose proof (normalized_identity _ _ Hn') as Hid. exists n. split; [done|].
  unfold restore_record. rewrite bool_decide_eq_true_2 by done. cbn [mbind result_bind sw_schema_payload]. rewrite Hd.
  cbn [mbind result_bind map_err]. unfold bundle_hash in Hh |- *. rewrite He in Hh. rewrite Hen. cbn in Hh |- *. injection Hh as <-.
  destruct Hid as (_ & _ & -> & _). rewrite !bool_decide_eq_false_2 by naive_solver. done.
Qed.

Lemma versions_bound_insert t h row : versions_bound t →
  (∀ h' r, t !! h' = Some r → ¬ (sw_plugin_id r = sw_plugin_id row ∧ sw_plugin_version r = sw_plugin_version row)) →
  versions_bound (<[h := row]> t).
Proof.
  intros Hb Hd h1 h2 r1 r2. destruct (decide (h1 = h)) as [->|H1], (decide (h2 = h)) as [->|H2]; [done|..].
  - rewrite lookup_insert_eq, lookup_insert_ne by done. intros [= <-] Hr E1 E2. by destruct (Hd _ _ Hr).
  - rewrite lookup_insert_eq, lookup_insert_ne by done. intros Hr [= <-] E1 E2. by destruct (Hd _ _ Hr).
  - rewrite !lookup_insert_ne by done. apply Hb.
Qed.

Lemma table_ok_insert t h row : table_ok t → (∃ b, row_bundle (<[h := row]> t) h b) →
  (∀ h' r, t !! h' = Some r → ¬ (sw_plugin_id r = sw_plugin_id row ∧ sw_plugin_version r = sw_plugin_version row)) →
  table_ok (<[h := row]> t).
Proof.
  intros Hok Hb Hd. split.
  - intros h' [r Hr]. destruct (decide (h' = h)) as [->|Hne]; [eauto|]. rewrite lookup_insert_ne in Hr by done.
    destruct (to_rows _ Hok h' (mk_is_Some _ _ Hr)) as (b' & r' & Ht & ?). exists b', r'. by rewrite lookup_insert_ne.
  - apply versions_bound_insert; [by apply to_bound|done].
Qed.

(** What an insertion does to any table, for any bundle: nothing, or one new row, of a hash
    and a plugin version that were not there; and if it succeeds the row was read back. *)
Lemma insert_schema_any now b t r t' : insert_plugin_schema now b t = (r, t') →
  (t' = t ∧ is_ok r = false) ∨
  ∃ h row, bundle_hash b = Ok h ∧ t' = <[h := row]> t ∧ t !! h = None ∧
    sw_plugin_id row = sb_plugin_id b ∧ sw_plugin_version row = sb_plugin_version b ∧
    (∀ h' x, t !! h' = Some x → ¬ (sw_plugin_id x = sw_plugin_id row ∧ sw_plugin_version x = sw_plugin_version row)) ∧
    ∀ h0, r = Ok h0 → h0 = h ∧ ∃ n, row_bundle t' h n.
Proof.
  unfold insert_plugin_schema. destruct (map_err bundle_error (encode_checked b)) as [payload|e]; [|intros [= <- <-]; by left].
  destruct (bundle_hash b) as [h|e]; cbn [map_err]; [|intros [= <- <-]; by left].
  destruct (existsb (occupies b) (map_to_list t)) eqn:Hex; [intros [= <- <-]; by left|].
  case_bool_decide as Hh; [intros [= <- <-]; by left|]. apply eq_None_not_Some in Hh. intros [= <- <-]. right. set (row := mkSchemaRow _ _ _ _ _).
  exists h, row. split_and!; [done..| |].
  - intros h' x Hx [E1 E2]. apply not_true_iff_false in Hex. apply Hex, existsb_exists. exists (h', x).
    split; [by apply list_elem_of_In, elem_of_map_to_list|]. unfold occupies. cbn in *. by rewrite E1, E2, !bool_decide_eq_true_2.
  - intros h0. unfold load_plugin_schema. rewrite lookup_insert_eq. destruct (restore_record h row) as [record|e] eqn:Hr; [|done].
    cbn. case_bool_decide as E1; [done|]. case_bool_decide as E2; [done|]. intros [= <-]. split; [done|].
    destruct (restore_record_hash _ _ _ Hr) as [Eh Ec].
    exists (sc_bundle record), row. rewrite lookup_insert_eq. split_and!; [done| |by rewrite E1|by rewrite E2].
    rewrite Hr. destruct record as [rh rb rc]. cbn in *. by subst.
Qed.

Lemma insert_schema_cases now b h t : bundle_hash b = Ok h → length h = 32%nat →
  (∀ files, decode_descriptors (sb_descriptor_set b) = Some files → unique_messages files) →
  ((∃ e, insert_plugin_schema now b t = (Err e, t)) ∧
     ∃ h' row, t !! h' = Some row ∧ (h' = h ∨ (sw_plugin_id row = sb_plugin_id b ∧ sw_plugin_version row = sb_plugin_version b))) ∨
  (∃ row n, insert_plugin_schema now b t = (Ok h, <[h := row]> t) ∧ t !! h = None ∧
     row_bundle (<[h := row]> t) h n ∧ same_identity b n ∧ (table_ok t → table_ok (<[h := row]> t))).
Proof.
  intros Hh Hlen Hu. unfold insert_plugin_schema. pose proof Hh as Hp. unfold bundle_hash in Hp.
  destruct (encode_checked b) as [payload|e] eqn:He; [|done]. clear Hp. rewrite Hh. cbn [map_err].
  destruct (existsb (occupies b) (map_to_list t)) eqn:Hex.
  { left. split; [by eexists|]. apply existsb_exists in Hex as ([h' row] & Hin & Ho). exists h', row.
    apply list_elem_of_In, elem_of_map_to_list in Hin. split; [done|]. unfold occupies in Ho. cbn in Ho. right.
    apply andb_true_iff in Ho as [?%bool_decide_eq_true ?%bool_decide_eq_true]. done. }
  case_bool_decide as Hkey; [left; split; [by eexists|]; destruct Hkey as [row Hrow]; exists h, row; by split; [|left]|].
  apply eq_None_not_Some in Hkey as Hnone.
  assert (∀ h' row, t !! h' = Some row → occupies b (h', row) = false) as Hfree.
  { intros h' row Ht. apply not_true_is_false. intros Ho. apply not_true_iff_false in Hex. apply Hex, existsb_exists.
    exists (h', row). split; [|done]. by apply list_elem_of_In, elem_of_map_to_list. }
  clear Hex. right. destruct (restore_encoded now b payload h He Hh Hlen Hu) as (n & Hid & Hrest).
  set (row := mkSchemaRow _ _ _ _ _) in *. exists row, n.
  assert (row_bundle (<[h := row]> t) h n) as Hrow.
  { exists row. rewrite lookup_insert_eq. split_and!; [done|done|apply Hid|apply Hid]. }
  split_and!; [|done|done|done|].
  - unfold load_plugin_schema. rewrite lookup_insert_eq, Hrest. cbn [fmap result_fmap sc_bundle].
    destruct Hid as (-> & -> & _). rewrite !bool_decide_eq_false_2 by naive_solver. done.
  - intros Hok. apply table_ok_insert; [done|by exists n|]. intros h' r Hr [E1 E2]. specialize (Hfree _ _ Hr). unfold occupies in Hfree.
    cbn in Hfree. rewrite !bool_decide_eq_true_2 in Hfree by done. done.
Qed.

(** How [store_response] ends. *)
Inductive store_ended (now : Z) (claimed : bytes) (t : gmap bytes SchemaRow) (c : gmap bytes PluginSchemaBundle) :
    result SchemaError bytes * gmap bytes SchemaRow * gmap bytes PluginSchemaBundle → Prop :=
| stored_not e : store_ended now claimed t c (Err e, t, c)
| stored_new b n row : t !! claimed = None → row_bundle (<[claimed := row]> t) claimed n → same_identity b n →
    table_ok (<[claimed := row]> t) →
    store_ended now claimed t c (Ok claimed, <[claimed := row]> t, cache_if_room claimed b c).

Lemma check_response_Ok inventory claimed payload b h : check_response inventory claimed payload = Ok (b, h) →
  h = claimed ∧ length h = 32%nat ∧ decode_checked payload = Ok b ∧ bundle_hash b = Ok h.
Proof.
  unfold check_response. intros Hm.
  apply result_bind_Ok in Hm as (claimed' & Hcl & Hm). unfold schema_hash in Hcl. case_bool_decide as Hlen; [|done]. injection Hcl as <-.
  apply result_bind_Ok in Hm as (b' & Hd & Hm). apply map_err_Ok in Hd. apply result_bind_Ok in Hm as (actual & Hh & Hm).
  apply map_err_Ok in Hh. apply result_bind_Ok in Hm as ([] & Heq & Hm). case_bool_decide as Hne; [done|].
  apply result_bind_Ok in Hm as (expected & _ & Hm). apply result_bind_Ok in Hm as ([] & _ & Hm). injection Hm as -> ->. by subst.
Qed.

Lemma upload_unique payload b files : wf_upload payload → decode_checked payload = Ok b →
  decode_descriptors (sb_descriptor_set b) = Some files → unique_messages files.
Proof.
  intros Hwf Hd Hf. unfold decode_checked in Hd. case_bool_decide; [done|]. apply result_bind_Ok in Hd as (b0 & Hb0 & Hd).
  apply ok_or_Ok in Hb0. apply result_bind_Ok in Hd as ([] & _ & Hd). injection Hd as ->. by eapply Hwf.
Qed.

Lemma store_response_cases now inventory claimed payload t c : table_ok t → wf_upload payload →
  store_ended now claimed t c (store_response now inventory claimed payload t c).
Proof.
  intros Hok Hwf. unfold store_response. destruct (check_response _ _ _) as [[b h]|e] eqn:Hm; [|constructor].
  apply check_response_Ok in Hm as (-> & Hlen & Hd & Hh).
  destruct (insert_schema_cases now b claimed t Hh Hlen (λ files, upload_unique payload b files Hwf Hd))
    as [[[e ->] _]|(row & n & -> & Hn & Hrow & Hid & Hok')]; [constructor|].
  apply (stored_new _ _ _ _ b n); [done..|]. by apply Hok'.
Qed.

Lemma insert_occupied now b h h' t row : bundle_hash b = Ok h → t !! h' = Some row →
  sw_plugin_id row = sb_plugin_id b → sw_plugin_version row = sb_plugin_version b →
  insert_plugin_schema now b t = (Err RecordNotInserted, t).
Proof.
  intros Hh Ht E1 E2. unfold insert_plugin_schema. pose proof Hh as Hp. unfold bundle_hash in Hp.
  destruct (encode_checked b) as [payload|e]; [|done]. clear Hp. rewrite Hh. cbn [map_err].
  assert (existsb (occupies b) (map_to_list t) = true) as ->; [|done].
  apply existsb_exists. exists (h', row). split; [by apply list_elem_of_In, elem_of_map_to_list|].
  unfold occupies. cbn. by rewrite E1, E2, !bool_decide_eq_true_2.
Qed.

(** What no upload changes, whatever it contains. *)
Lemma store_response_any now inventory claimed payload t c r t' c' :
  store_response now inventory claimed payload t c = (r, t', c') → versions_bound t →
  versions_bound t' ∧ t ⊆ t' ∧
  ∀ h, r = Ok h → h = claimed ∧ ∃ b row n, check_response inventory claimed payload = Ok (b, claimed) ∧ t' !! claimed = Some row ∧
    sw_plugin_id row = sb_plugin_id b ∧ sw_plugin_version row = sb_plugin_version b ∧ row_bundle t' claimed n.
Proof.
  unfold store_response. destruct (check_response _ _ _) as [[b h]|e] eqn:Hm; [|by intros [= <- <- <-]].
  apply check_response_Ok in Hm as (-> & Hlen & Hd & Hh).
  destruct (insert_plugin_schema now b t) as [r0 t0] eqn:Hi.
  apply insert_schema_any in Hi as [[-> Hr]|(h & row & Hh' & -> & Hn & E1 & E2 & Hfree & Hok)].
  { destruct r0; [done|]. by intros [= <- <- <-]. }
  rewrite Hh in Hh'. injection Hh' as <-. intros Heq Hb.
  assert (t' = <[claimed := row]> t ∧ ∀ h, r = Ok h → ∃ h0, r0 = Ok h0 ∧ h = claimed) as [-> Hres]
    by (destruct r0; injection Heq as <- <- <-; split; try done; intros h [= <-]; by eexists).
  split_and!; [by apply versions_bound_insert|by apply insert_subseteq|].
  intros h (h0 & Hr0 & ->)%Hres. split; [done|]. destruct (Hok _ Hr0) as [_ [n Hrow]].
  exists b, row, n. rewrite lookup_insert_eq. by split_and!.
Qed.

(** The invariant of the system, and what never changes. *)
Definition schema_system_ok (s : SchemaSystem) : Prop := table_ok (sy_table s) ∧ ∀ k, cache_ok (sy_table s) (cache_of k s).

Lemma cache_ok_grows t t' c : t ⊆ t' → cache_ok t c → cache_ok t' c.
Proof.
  intros Hsub Hc h b Hb. destruct (Hc h b Hb) as (b' & (row & Ht & ?) & ?). exists b'. split; [|done]. exists row.
  split; [by eapply lookup_weaken|done].
Qed.

Lemma cache_of_insert k k' c s : cache_of k (mkSchemaSystem (sy_table s) (<[k' := c]> (sy_caches s))) = if decide (k = k') then c else cache_of k s.
Proof. unfold cache_of. cbn. destruct (decide (k = k')) as [->|Hne]; [by rewrite lookup_insert_eq|by rewrite lookup_insert_ne]. Qed.

Lemma schema_step_bound s s' : schema_step s s' → versions_bound (sy_table s) → versions_bound (sy_table s') ∧ sy_table s ⊆ sy_table s'.
Proof.
  intros Hstep Hb. destruct Hstep as [k inventory s|k now inventory claimed payload s|k s]; [done| |done].
  unfold do_store. destruct (store_response _ _ _ _ _ _) as [[r t] c] eqn:Hs. by apply store_response_any in Hs as (? & ? & _).
Qed.

Lemma schema_steps_bound s s' : rtc schema_step s s' → versions_bound (sy_table s) → versions_bound (sy_table s') ∧ sy_table s ⊆ sy_table s'.
Proof.
  induction 1 as [s|s1 s2 s3 Hstep _ IH]; intros Hb; [done|]. destruct (schema_step_bound _ _ Hstep Hb) as [Hb2 Hs].
  destruct (IH Hb2) as [? ?]. split; [done|]. by etrans.
Qed.

Lemma schema_step_ok s s' : proper_step s s' → schema_system_ok s → schema_system_ok s' ∧ sy_table s ⊆ sy_table s'.
Proof.
  intros Hstep [Ht Hc]. destruct Hstep as [k inventory s|k now inventory claimed payload s Hwf|k s].
  - split; [|done]. split; [done|]. intros k'. cbn. unfold do_missing. rewrite cache_of_insert.
    destruct (decide (k' = k)) as [->|?]; [by apply missing_cache_ok|apply Hc].
  - pose proof (store_response_cases now inventory claimed payload _ (cache_of k s) Ht Hwf) as H. unfold do_store.
    destruct H as [e|b n row Hn Hrow Hid Hok'].
    + split; [|done]. split; [done|]. intros k'. cbn. rewrite cache_of_insert. destruct (decide (k' = k)); apply Hc.
    + assert (sy_table s ⊆ <[claimed := row]> (sy_table s)) as Hsub by (by apply insert_subseteq).
      split; [|done]. split; [done|]. intros k'. cbn. unfold cache_of at 1. cbn.
      destruct (decide (k' = k)) as [->|Hne]; [rewrite lookup_insert_eq|rewrite lookup_insert_ne by done]; cbn.
      * apply cache_if_room_ok; [by eapply cache_ok_grows|]. by exists n.
      * eapply cache_ok_grows; [done|]. apply Hc.
  - split; [|done]. split; [done|]. intros k'. cbn. unfold cache_of. cbn. destruct (decide (k' = k)) as [->|Hne].
    + rewrite lookup_delete_eq. intros h b Hb. cbn in Hb. by rewrite lookup_empty in Hb.
    + rewrite lookup_delete_ne by done. apply Hc.
Qed.

Lemma schema_steps_ok s s' : rtc proper_step s s' → schema_system_ok s → schema_system_ok s' ∧ sy_table s ⊆ sy_table s'.
Proof.
  induction 1 as [s|s1 s2 s3 Hstep _ IH]; intros Hok; [done|]. destruct (schema_step_ok _ _ Hstep Hok) as [Hok2 Hs].
  destruct (IH Hok2) as [? ?]. split; [done|]. by etrans.
Qed.

Lemma no_versions_bound : versions_bound (sy_table new_schema_system).
Proof. intros h h' row row' Hr. cbn in Hr. by rewrite lookup_empty in Hr. Qed.

Lemma new_schema_system_ok : schema_system_ok new_schema_system.
Proof.
  split; [split|].
  - intros h [row Hr]. cbn in Hr. by rewrite lookup_empty in Hr.
  - intros h h' row row' Hr. cbn in Hr. by rewrite lookup_empty in Hr.
  - intros k h b Hb. unfold cache_of in Hb. cbn in Hb. rewrite lookup_empty in Hb. cbn in Hb. by rewrite lookup_empty in Hb.
Qed.

End History.

(** What the Server asks an Agent for is exactly what it does not have: in every state
    that uploads of schemas made from the output of [protoc], restarts and questions of any number of processes lead to, the question
    of a session about an inventory is answered, unless a hash is malformed or a plugin
    is not the one its schema describes; the answer names the hash of every plugin whose
    schema is not stored, once, and no other, whatever is in the cache. *)
Theorem missing_schemas_exact `{FT : FloatText} `{SCC : SchemaCodec} `{SCL : !SchemaCodecLaws SCC} `{H256 : Sha256}
    s k inventory :
  rtc proper_step new_schema_system s →
  let t := sy_table s in
  let r := (missing_for_inventory inventory t (cache_of k s)).1 in
  (∀ missing, r = Ok missing →
     NoDup missing ∧ (∀ h, h ∈ missing ↔ h ∈ pie_schema_hash <$> inv_plugins inventory ∧ t !! h = None) ∧
     (∀ plugin, plugin ∈ inv_plugins inventory → is_Some (t !! pie_schema_hash plugin) →
        ∃ b, row_bundle t (pie_schema_hash plugin) b ∧ identity_matches b plugin = true)) ∧
  ((∀ plugin, plugin ∈ inv_plugins inventory → length (pie_schema_hash plugin) = 32%nat ∧
      ∀ b, row_bundle t (pie_schema_hash plugin) b → identity_matches b plugin = true) →
   ∃ missing, r = Ok missing).
Proof.
  intros Hreach t r. destruct (schema_steps_ok _ _ Hreach new_schema_system_ok) as [[Hok Hc] _]. specialize (Hc k).
  unfold r, missing_for_inventory. split.
  - intros missing Hr. destruct (resolve_cached _ _) as [[res unres]|] eqn:Hres; [|done].
    destruct (load_plugin_schemas _ _) as [records|] eqn:Hl; [|done]. cbn [fst] in Hr.
    destruct (resolved_spec _ _ _ _ _ _ Hok Hc Hres Hl) as [R1 R2].
    destruct (collect_missing _ _) as [m|] eqn:Hm; [|done]. injection Hr as <-.
    destruct (collect_missing_Ok _ _ _ Hm) as [M1 M2]. split_and!; [apply sort_dedup_NoDup|..].
    + intros h. rewrite elem_of_sort_dedup, M1. split; intros [Hh Hn]; (split; [done|]).
      * apply eq_None_not_Some. intros Ht. apply list_elem_of_fmap in Hh as (plugin & -> & Hp).
        destruct (R2 plugin Hp Ht) as [? ?]. congruence.
      * apply eq_None_not_Some. intros [b Hb]. destruct (R1 h b Hb) as (b' & (row & Ht & _) & _). unfold t in Hn. congruence.
    + intros plugin Hp Ht. destruct (R2 plugin Hp Ht) as [b Hb]. destruct (R1 _ _ Hb) as (b' & Hrow & Hid).
      exists b'. split; [done|]. rewrite <- (identity_matches_same _ _ _ Hid). by eapply M2.
  - intros Hgood.
    destruct (resolve_cached_total (cache_of k s) (inv_plugins inventory)) as [[res unres] Hres].
    { intros plugin Hp. destruct (Hgood plugin Hp) as [? Hid]. split; [done|]. intros b Hb.
      destruct (Hc _ _ Hb) as (b' & Hrow & Hs). rewrite (identity_matches_same _ _ _ Hs). by apply Hid. }
    destruct (load_schemas_total t (sort_dedup unres) Hok) as [records Hl]. rewrite Hres, Hl. cbn [fst].
    destruct (resolved_spec _ _ _ _ _ _ Hok Hc Hres Hl) as [R1 R2].
    destruct (collect_missing_total (foldl (λ c r, <[sc_hash r := sc_bundle r]> c) res records) (inv_plugins inventory)) as [m ->];
      [|by eexists].
    intros plugin Hp. destruct (Hgood plugin Hp) as [? Hid]. split; [done|]. intros b Hb.
    destruct (R1 _ _ Hb) as (b' & Hrow & Hs). rewrite (identity_matches_same _ _ _ Hs). by apply Hid.
Qed.

(** C21. A schema that was stored stays what it is: after an upload was accepted, in every
    later state, whatever any Agent uploads, the row of its hash is the same, and restores
    to a bundle of that hash; the plugin version it names stays bound to that hash: no
    other row is ever stored for it. *)
Theorem schema_binding_permanent `{FT : FloatText} `{SCC : SchemaCodec} `{SCL : !SchemaCodecLaws SCC} `{H256 : Sha256}
    s k now inventory claimed payload h t c s2 :
  rtc schema_step new_schema_system s →
  store_response now inventory claimed payload (sy_table s) (cache_of k s) = (Ok h, t, c) →
  rtc schema_step (do_store k now inventory claimed payload s) s2 →
  h = claimed ∧ sy_table s2 !! h = t !! h ∧
  ∃ b, row_bundle (sy_table s2) h b ∧ bundle_hash b = Ok h ∧
    ∀ h' row, sy_table s2 !! h' = Some row → sw_plugin_id row = sb_plugin_id b → sw_plugin_version row = sb_plugin_version b → h' = h.
Proof.
  intros Hreach Hst Hlater. destruct (schema_steps_bound _ _ Hreach no_versions_bound) as [Hb _].
  destruct (store_response_any _ _ _ _ _ _ _ _ _ Hst Hb) as (Hb1 & _ & Hok).
  destruct (Hok h eq_refl) as (-> & b & row & n & _ & _ & _ & _ & row' & Hl & Hr & E1 & E2).
  assert (sy_table (do_store k now inventory claimed payload s) = t) as Et by (unfold do_store; by rewrite Hst).
  destruct (schema_steps_bound _ _ Hlater) as [Hb2 Hsub]; [by rewrite Et|]. rewrite Et in Hsub.
  pose proof (lookup_weaken _ _ _ _ Hl Hsub) as Hl2. split_and!; [done|by rewrite Hl, Hl2|]. exists n. split_and!.
  - exists row'. by split_and!.
  - unfold restore_record in Hr. apply result_bind_Ok in Hr as ([] & _ & Hr). apply result_bind_Ok in Hr as (n' & _ & Hr).
    apply result_bind_Ok in Hr as (actual & Ha & Hr). apply map_err_Ok in Ha. case_bool_decide as Hne; [done|].
    case_bool_decide; [done|]. injection Hr as <-. by rewrite Ha, Hne.
  - intros h' row2 Hrow2 E3 E4. apply (Hb2 h' claimed row2 row'); [done|done|congruence|congruence].
Qed.

(** Defect: the second of two Agents that bring the same new plugin is refused. When
    an upload was accepted, the same upload in a session that had asked for the schema
    before that is answered with [RecordNotInserted], in every later state, although the
    schema is stored and would not be asked for again: the session keeps waiting for it
    and sends no jobs. The comment on [insert_plugin_schema] says a repeated submission is
    idempotent. *)
Theorem second_upload_refused `{FT : FloatText} `{SCC : SchemaCodec} `{SCL : !SchemaCodecLaws SCC} `{H256 : Sha256}
    s k now inventory claimed payload h t c s2 k2 now2 :
  rtc schema_step new_schema_system s →
  store_response now inventory claimed payload (sy_table s) (cache_of k s) = (Ok h, t, c) →
  rtc schema_step (do_store k now inventory claimed payload s) s2 →
  store_response now2 inventory claimed payload (sy_table s2) (cache_of k2 s2) =
    (Err RecordNotInserted, sy_table s2, cache_of k2 s2) ∧ is_Some (sy_table s2 !! claimed).
Proof.
  intros Hreach Hst Hlater. destruct (schema_steps_bound _ _ Hreach no_versions_bound) as [Hb _].
  destruct (store_response_any _ _ _ _ _ _ _ _ _ Hst Hb) as (Hb1 & _ & Hok).
  destruct (Hok h eq_refl) as (-> & b & row & n & Hchk & Hl & E1 & E2 & _).
  assert (sy_table (do_store k now inventory claimed payload s) = t) as Et by (unfold do_store; by rewrite Hst).
  destruct (schema_steps_bound _ _ Hlater) as [_ Hsub]; [by rewrite Et|]. rewrite Et in Hsub.
  pose proof (lookup_weaken _ _ _ _ Hl Hsub) as Hl2. split; [|by eexists].
  unfold store_response. rewrite Hchk. apply check_response_Ok in Hchk as (_ & _ & _ & Hh).
  by rewrite (insert_occupied _ _ _ _ _ _ Hh Hl2 E1 E2).
Qed.

(** ** Evaluation *)

Lemma wf_upload_decide `{SCC : SchemaCodec} payload :
  match decode_bundle payload ≫= λ b, decode_descriptors (sb_descriptor_set b) with
  | Some files => bool_decide (NoDup (files ≫= file_pairs).*1)
  | None => true
  end = true → wf_upload payload.
Proof. intros H b files Hb Hf. rewrite Hb in H. cbn in H. rewrite Hf in H. by apply bool_decide_eq_true in H. Qed.

Definition demo_digest : Sha256 := λ bs, take 32 (bs ++ replicate 32 9).
Definition demo_schema_hash : bytes := sha256 (Sha256 := demo_digest) demo_encoded.
Definition demo_inventory_entry : PluginInventoryEntry :=
  mkInventoryEntry "smalux.plus.echo" "0.1.0" ["smalux.plus.echo.v1"%string] demo_schema_hash 1.
Definition demo_plugin_inventory : AgentPluginInventory := mkInventory 1 [demo_inventory_entry].
Definition demo_upload :=
  store_response (FT := demo_floats) (SCC := code_codec) (H256 := demo_digest) 1 demo_plugin_inventory demo_schema_hash
    demo_encoded ∅ ∅.

Lemma demo_upload_stored : demo_upload = (Ok demo_schema_hash, demo_upload.1.2, demo_upload.2).
Proof. vm_compute. reflexivity. Qed.

Lemma demo_upload_wf : wf_upload (SCC := code_codec) demo_encoded.
Proof. apply wf_upload_decide. vm_compute. reflexivity. Qed.

Lemma missing_schemas_exact_witness :
  ∃ missing, (missing_for_inventory (FT := demo_floats) (SCC := code_codec) (H256 := demo_digest) demo_plugin_inventory ∅ ∅).1 = Ok missing.
Proof.
  refine (proj2 (missing_schemas_exact (FT := demo_floats) (SCC := code_codec) (SCL := code_codec_laws) (H256 := demo_digest)
    new_schema_system 0 demo_plugin_inventory (rtc_refl _ _)) _).
  intros plugin Hp. apply list_elem_of_singleton in Hp as ->. split; [vm_compute; reflexivity|].
  intros b (row & Hrow & _). cbn in Hrow. rewrite lookup_empty in Hrow. discriminate Hrow.
Defined.

Lemma schema_binding_permanent_witness :
  ∃ b, row_bundle (FT := demo_floats) (SCC := code_codec) (H256 := demo_digest) demo_upload.1.2 demo_schema_hash b.
Proof.
  destruct (schema_binding_permanent (FT := demo_floats) (SCC := code_codec) (SCL := code_codec_laws) (H256 := demo_digest)
    new_schema_system 0 1 demo_plugin_inventory demo_schema_hash demo_encoded demo_schema_hash demo_upload.1.2 demo_upload.2
    (do_store (FT := demo_floats) (SCC := code_codec) (H256 := demo_digest) 0 1 demo_plugin_inventory demo_schema_hash demo_encoded
       new_schema_system) (rtc_refl _ _) demo_upload_stored (rtc_refl _ _)) as (_ & _ & b & Hb & _).
  exists b. unfold do_store in Hb. change (store_response _ _ _ _ _ _) with demo_upload in Hb. rewrite demo_upload_stored in Hb. exact Hb.
Defined.

Lemma second_upload_refused_witness :
  is_Some (demo_upload.1.2 !! demo_schema_hash) ∧
  (store_response (FT := demo_floats) (SCC := code_codec) (H256 := demo_digest) 2 demo_plugin_inventory demo_schema_hash
    demo_encoded demo_upload.1.2 ∅).1.1 = Err RecordNotInserted.
Proof.
  destruct (second_upload_refused (FT := demo_floats) (SCC := code_codec) (SCL := code_codec_laws) (H256 := demo_digest)
    new_schema_system 0 1 demo_plugin_inventory demo_schema_hash demo_encoded demo_schema_hash demo_upload.1.2 demo_upload.2
    (do_store (FT := demo_floats) (SCC := code_codec) (H256 := demo_digest) 0 1 demo_plugin_inventory demo_schema_hash demo_encoded
       new_schema_system) 1 2 (rtc_refl _ _) demo_upload_stored (rtc_refl _ _)) as [Hr Hs].
  unfold do_store in Hr, Hs. change (store_response _ _ _ _ _ (cache_of 0 new_schema_system)) with demo_upload in Hr, Hs.
  rewrite demo_upload_stored in Hr, Hs. cbn [sy_table] in Hr, Hs. split; [exact Hs|].
  change (cache_of 1 _) with (∅ : gmap bytes PluginSchemaBundle) in Hr. by rewrite Hr.
Defined.
