(* ===== verification/RuntimeStore.v ===== *)
(** * Plugin runtimes: the Server's store and the Agent's gate

    [crates/smalux-server/src/database/plugin_runtime.rs] and [agent_snapshot.rs]: the
    configuration of plugin workers a Server keeps for each Agent, replaced as a whole
    and numbered, and the last capabilities and inventory of an Agent; and
    [crates/smalux-agent/src/plugins/runtime.rs], the state machine that decides
    whether the Agent takes a snapshot.

    A replacement is one transaction: [other] is what other transactions commit between its
    first read and its first write.  The order of rows is that of the database
    collation ([TextOrder]). *)

From stdpp Require Import base gmap strings list pretty sorting.
From S2P Require Import Prelude Rotation Catalog Paging Policy Session SchemaStore.

(** ** Rows *)

(** [StoredPluginRuntime] and [AgentPluginRuntimeRecord]. *)
Record StoredPluginRuntime : Type := mkStoredRuntime {
  sp_plugin_id : string;
  sp_plugin_version : string;
  sp_schema_hash : bytes;
  sp_schema_version : Z;
  sp_config : bytes;
  sp_requested_concurrency : Z;
}.
Record AgentPluginRuntimeRecord : Type := mkRuntimeRecord {
  pr_agent_id : string;
  pr_revision : Z;
  pr_runtimes : list StoredPluginRuntime;
}.

(** [agent_plugin_runtime::Model] by [runtime_key], and [agent_plugin_runtime_catalog::Model]
    by [agent_id]. *)
Record RuntimeRow : Type := mkRuntimeRow {
  rr_agent_id : string;
  rr_plugin_id : string;
  rr_plugin_version : string;
  rr_schema_hash : bytes;
  rr_schema_version : Z;
  rr_config : bytes;
  rr_requested_concurrency : Z;
  rr_updated_at : Z;
}.
Record RuntimeCatalogRow : Type := mkRuntimeCatalogRow {
  rc_revision : Z;
  rc_updated_at : Z;
}.
Record RuntimeTables : Type := mkRuntimeTables {
  rt_catalogs : gmap string RuntimeCatalogRow;
  rt_rows : gmap string RuntimeRow;
}.

Inductive RuntimeError : Type :=
| InvalidPluginRuntime (message : string)
| RuntimeRevisionConflict (expected actual : Z)
| InvalidAgentSnapshot (message : string)
| RuntimeClock
| RuntimeDb (message : string).

Definition EMPTY_RUNTIME_REVISION : Z := 1.

(** The [runtime_key]. *)
Definition runtime_key (agent_id plugin_id plugin_version : string) : string :=
  (agent_id +:+ ":" +:+ plugin_id +:+ ":" +:+ plugin_version)%string.

(** [x as u32] of an [i32]. *)
Definition i32_as_u32 (x : Z) : Z := if bool_decide (x < 0) then x + 4294967296 else x.

(** ** Replacing *)

(** [validate_runtime]. *)
Definition validate_runtime (runtime : StoredPluginRuntime) : result RuntimeError unit :=
  if String.eqb (sp_plugin_id runtime) "" || bool_decide (256 < Z.of_nat (String.length (sp_plugin_id runtime)))
     || String.eqb (sp_plugin_version runtime) "" || bool_decide (64 < Z.of_nat (String.length (sp_plugin_version runtime)))
     || bool_decide (length (sp_schema_hash runtime) ≠ 32%nat) || bool_decide (sp_schema_version runtime = 0)
     || bool_decide (sp_requested_concurrency runtime = 0)
  then Err (InvalidPluginRuntime "plugin runtime identity or limits are invalid") else Ok tt.

(** The order of the keys [(plugin_id, plugin_version)]. *)
Definition runtime_le (a b : StoredPluginRuntime) : Prop :=
  string_le (sp_plugin_id a) (sp_plugin_id b) ∧
  (sp_plugin_id a = sp_plugin_id b → string_le (sp_plugin_version a) (sp_plugin_version b)).
#[export] Instance runtime_le_dec : RelDecision runtime_le.
Proof. intros a b. unfold runtime_le. apply _. Defined.
Fixpoint has_duplicate (l : list StoredPluginRuntime) : bool :=
  match l with
  | x :: ((y :: _) as l') =>
      (bool_decide (sp_plugin_id x = sp_plugin_id y) && bool_decide (sp_plugin_version x = sp_plugin_version y)) || has_duplicate l'
  | _ => false
  end.
Fixpoint validate_runtimes (l : list StoredPluginRuntime) : result RuntimeError unit :=
  match l with [] => Ok tt | x :: l => _ ← validate_runtime x; validate_runtimes l end.

(** The checks before the transaction. *)
Definition prepare_runtimes (agent_id : string) (runtimes : list StoredPluginRuntime) :
    result RuntimeError (list StoredPluginRuntime) :=
  if String.eqb agent_id "" || bool_decide (64 < Z.of_nat (String.length agent_id))
  then Err (InvalidPluginRuntime "Agent id is required")
  else
    let runtimes := merge_sort runtime_le runtimes in
    if has_duplicate runtimes then Err (InvalidPluginRuntime "duplicate plugin runtime identity")
    else _ ← validate_runtimes runtimes; Ok runtimes.

Definition set_catalog (agent_id : string) (revision now : Z) (t : RuntimeTables) : RuntimeTables :=
  mkRuntimeTables (<[agent_id := mkRuntimeCatalogRow revision now]> (rt_catalogs t)) (rt_rows t).

(** Claiming the revision when one is expected: a conditional [UPDATE], or the [INSERT] of
    the first row. *)
Definition claim_runtime (agent_id : string) (expected : option Z) (previous : option RuntimeCatalogRow) (revision now : Z)
    (t : RuntimeTables) : result RuntimeError RuntimeTables :=
  let row := rt_catalogs t !! agent_id in
  match expected with
  | None => Ok t
  | Some expected =>
      match previous with
      | Some _ =>
          if bool_decide (rc_revision <$> row = Some expected) then Ok (set_catalog agent_id revision now t)
          else Err (RuntimeRevisionConflict expected (default 0 (rc_revision <$> row)))
      | None =>
          if bool_decide (expected = 0) then
            match row with
            | None => Ok (set_catalog agent_id revision now t)
            | Some row => Err (RuntimeRevisionConflict 0 (rc_revision row))
            end
          else Ok t
      end
  end.

(** Replacing the rows of the Agent. *)
Definition delete_agent_rows (agent_id : string) (t : RuntimeTables) : RuntimeTables :=
  mkRuntimeTables (rt_catalogs t) (filter (λ kv, rr_agent_id kv.2 ≠ agent_id) (rt_rows t)).
Definition runtime_row (agent_id : string) (now : Z) (r : StoredPluginRuntime) : RuntimeRow :=
  mkRuntimeRow agent_id (sp_plugin_id r) (sp_plugin_version r) (sp_schema_hash r) (as_i32 (sp_schema_version r)) (sp_config r)
    (as_i32 (sp_requested_concurrency r)) now.
Fixpoint insert_runtimes (agent_id : string) (now : Z) (runtimes : list StoredPluginRuntime) (t : RuntimeTables) :
    result RuntimeError RuntimeTables :=
  match runtimes with
  | [] => Ok t
  | r :: runtimes =>
      let key := runtime_key agent_id (sp_plugin_id r) (sp_plugin_version r) in
      match rt_rows t !! key with
      | Some _ => Err (RuntimeDb "UNIQUE constraint failed: agent_plugin_runtimes.runtime_key")
      | None => insert_runtimes agent_id now runtimes (mkRuntimeTables (rt_catalogs t) (<[key := runtime_row agent_id now r]> (rt_rows t)))
      end
  end.

(** The write of the catalog row at the end, when none was made before. *)
Definition finish_runtime (agent_id : string) (expected : option Z) (previous : option RuntimeCatalogRow) (revision now : Z)
    (t : RuntimeTables) : result RuntimeError RuntimeTables :=
  match previous with
  | Some _ => if bool_decide (expected = None) then Ok (set_catalog agent_id revision now t) else Ok t
  | None =>
      if bool_decide (expected = Some 0) then Ok t
      else
        match rt_catalogs t !! agent_id with
        | Some _ => Err (RuntimeDb "UNIQUE constraint failed: agent_plugin_runtime_catalogs.agent_id")
        | None => Ok (set_catalog agent_id revision now t)
        end
  end.

(** The transaction. *)
Definition replace_in_transaction (other : RuntimeTables → RuntimeTables) (clock : option Z) (agent_id : string)
    (runtimes : list StoredPluginRuntime) (expected_revision : option Z) (t : RuntimeTables) :
    result RuntimeError (Z * RuntimeTables) :=
  now ← ok_or RuntimeClock clock;
  expected ← match expected_revision with
             | None => Ok None
             | Some value => Some <$> i64_try_from (InvalidPluginRuntime "expected runtime revision exceeds i64") value
             end;
  let previous := rt_catalogs t !! agent_id in
  let actual := default 0 (rc_revision <$> previous) in
  _ ← match expected with
      | Some expected => if bool_decide (actual = expected) then Ok tt else Err (RuntimeRevisionConflict expected actual)
      | None => Ok tt
      end;
  revision ← ok_or (InvalidPluginRuntime "runtime revision overflow")
               (checked_i64 (default EMPTY_RUNTIME_REVISION (rc_revision <$> previous) + 1));
  t ← claim_runtime agent_id expected previous revision now (other t);
  t ← insert_runtimes agent_id now runtimes (delete_agent_rows agent_id t);
  t ← finish_runtime agent_id expected previous revision now t;
  Ok (revision, t).

(** [replace_agent_plugin_runtime_if_revision]: a transaction that fails is rolled back. *)
Definition replace_agent_plugin_runtime_if_revision (other : RuntimeTables → RuntimeTables) (clock : option Z)
    (agent_id : string) (runtimes : list StoredPluginRuntime) (expected_revision : option Z) (t : RuntimeTables) :
    result RuntimeError Z * RuntimeTables :=
  match prepare_runtimes agent_id runtimes with
  | Err e => (Err e, t)
  | Ok runtimes =>
      match replace_in_transaction other clock agent_id runtimes expected_revision t with
      | Ok (revision, t') => (Ok revision, t')
      | Err e => (Err e, other t)
      end
  end.

(** ** Reading *)

Section Read.
Context `{TO : TextOrder}.

(** [order_by_asc(PluginId).order_by_asc(PluginVersion)]. *)
Definition row_before (a b : RuntimeRow) : Prop :=
  text_ltb (rr_plugin_id b) (rr_plugin_id a) = false ∧
  (rr_plugin_id a = rr_plugin_id b → text_ltb (rr_plugin_version b) (rr_plugin_version a) = false).
#[export] Instance row_before_dec : RelDecision row_before.
Proof. intros a b. unfold row_before. apply _. Defined.
Definition agent_rows (agent_id : string) (t : RuntimeTables) : list RuntimeRow :=
  merge_sort row_before (filter (λ row, rr_agent_id row = agent_id) (map_to_list (rt_rows t)).*2).
Definition stored_runtime (row : RuntimeRow) : StoredPluginRuntime :=
  mkStoredRuntime (rr_plugin_id row) (rr_plugin_version row) (rr_schema_hash row) (i32_as_u32 (rr_schema_version row)) (rr_config row)
    (i32_as_u32 (rr_requested_concurrency row)).

(** [get_agent_plugin_runtime]. *)
Definition get_agent_plugin_runtime (agent_id : string) (t : RuntimeTables) : option AgentPluginRuntimeRecord :=
  (λ catalog, mkRuntimeRecord agent_id (rc_revision catalog) (stored_runtime <$> agent_rows agent_id t)) <$>
  rt_catalogs t !! agent_id.

(** [load_agent_plugin_runtime]. *)
Definition installed (inventory : AgentPluginInventory) (r : StoredPluginRuntime) : bool :=
  existsb (λ p, String.eqb (pie_plugin_id p) (sp_plugin_id r) && String.eqb (pie_version p) (sp_plugin_version r)
                && bool_decide (pie_schema_hash p = sp_schema_hash r)) (inv_plugins inventory).
Definition runtime_config (r : StoredPluginRuntime) : PluginRuntimeConfig :=
  mkRuntimeConfig (sp_plugin_id r) (sp_plugin_version r) (sp_schema_version r) (sp_config r) (sp_requested_concurrency r).
Definition load_agent_plugin_runtime (agent_id : string) (inventory : AgentPluginInventory) (t : RuntimeTables) :
    PluginRuntimeSnapshot :=
  match get_agent_plugin_runtime agent_id t with
  | None => mkRuntimeSnapshot EMPTY_RUNTIME_REVISION []
  | Some record =>
      mkRuntimeSnapshot (pr_revision record)
        (runtime_config <$> filter (λ r, installed inventory r = true) (pr_runtimes record))
  end.

End Read.

(** ** The Agent's gate *)

(** [PluginRuntimeState]. *)
Record PluginRuntimeState : Type := mkRuntimeState {
  ps_applied_revision : Z;
  ps_applied_snapshot : option PluginRuntimeSnapshot;
}.
Definition default_runtime_state : PluginRuntimeState := mkRuntimeState 0 None.
Inductive RuntimeSnapshotResult : Type := SnapshotApplied | IgnoredStale.

#[export] Instance PluginRuntimeConfig_eq_dec : EqDecision PluginRuntimeConfig.
Proof. solve_decision. Defined.
#[export] Instance PluginRuntimeSnapshot_eq_dec : EqDecision PluginRuntimeSnapshot.
Proof. solve_decision. Defined.

(** [validate_snapshot], [confirm_snapshot] and [reject]. *)
Definition validate_snapshot (snapshot : PluginRuntimeSnapshot) (s : PluginRuntimeState) : result string RuntimeSnapshotResult :=
  if bool_decide (prs_revision snapshot = 0) then Err "plugin runtime snapshot revision must be greater than zero"%string
  else if bool_decide (prs_revision snapshot < ps_applied_revision s) then Ok IgnoredStale
  else if bool_decide (prs_revision snapshot = ps_applied_revision s) then
    if bool_decide (ps_applied_snapshot s = Some snapshot) then Ok IgnoredStale
    else Err "same plugin runtime revision contains different content"%string
  else Ok SnapshotApplied.
(** [AgentPluginAck]. *)
Record AgentPluginAck : Type := mkPluginAck {
  ak_revision : Z;
  ak_accepted : bool;
  ak_error : option string;
}.
Definition confirm_snapshot (snapshot : PluginRuntimeSnapshot) : PluginRuntimeState * AgentPluginAck :=
  (mkRuntimeState (prs_revision snapshot) (Some snapshot), mkPluginAck (prs_revision snapshot) true None).
Definition reject_snapshot (revision : Z) (error : string) : AgentPluginAck := mkPluginAck revision false (Some error).

(** [reconcile_state]. *)
Definition runtime_reconcile_state `{RuntimeEncoding} `{Blake2s} (s : PluginRuntimeState) : Z * bytes :=
  match ps_applied_snapshot s with
  | Some snapshot => (ps_applied_revision s, runtime_digest snapshot)
  | None => (0, [])
  end.

(** ** The last snapshots of an Agent *)

(** [agent_capability::Model] and [agent_plugin_inventory::Model]. *)
Record CapabilityRow : Type := mkCapabilityRow {
  cy_revision : Z;
  cy_agent_version : string;
  cy_payload : bytes;
  cy_updated_at : Z;
}.
Record InventoryRow : Type := mkInventoryRow {
  iy_revision : Z;
  iy_payload : bytes;
  iy_updated_at : Z;
}.

(** The body both operations share: a read and then an update or an insert, each a statement
    of its own, with what others commit between them. *)
Definition save_row {R} (revision_of_row : R → Z) (other : gmap string R → gmap string R) (agent_id : string) (revision : Z)
    (row : R) (rows : gmap string R) : result RuntimeError unit * gmap string R :=
  let rows' := other rows in
  match rows !! agent_id with
  | Some model =>
      if bool_decide (revision_of_row model > revision) then (Ok tt, rows')
      else match rows' !! agent_id with
           | Some _ => (Ok tt, <[agent_id := row]> rows')
           | None => (Err (RuntimeDb "RecordNotUpdated"), rows')
           end
  | None =>
      match rows' !! agent_id with
      | Some _ => (Err (RuntimeDb "UNIQUE constraint failed: agent_id"), rows')
      | None => (Ok tt, <[agent_id := row]> rows')
      end
  end.

(** [save_agent_capability] and [save_agent_plugin_inventory]; [payload] is the message's own
    encoding. *)
Definition save_agent_capability (other : gmap string CapabilityRow → gmap string CapabilityRow) (clock : option Z)
    (agent_id : string) (snapshot : AgentCapabilitySnapshot) (payload : bytes) (rows : gmap string CapabilityRow) :
    result RuntimeError unit * gmap string CapabilityRow :=
  match i64_try_from (InvalidAgentSnapshot "capability revision exceeds i64") (cap_revision snapshot), clock with
  | Err e, _ => (Err e, rows)
  | Ok _, None => (Err RuntimeClock, rows)
  | Ok revision, Some now =>
      save_row cy_revision other agent_id revision (mkCapabilityRow revision (cap_agent_version snapshot) payload now) rows
  end.
Definition save_agent_plugin_inventory (other : gmap string InventoryRow → gmap string InventoryRow) (clock : option Z)
    (agent_id : string) (inventory : AgentPluginInventory) (payload : bytes) (rows : gmap string InventoryRow) :
    result RuntimeError unit * gmap string InventoryRow :=
  match i64_try_from (InvalidAgentSnapshot "plugin inventory revision exceeds i64") (inv_revision inventory), clock with
  | Err e, _ => (Err e, rows)
  | Ok _, None => (Err RuntimeClock, rows)
  | Ok revision, Some now =>
      save_row iy_revision other agent_id revision (mkInventoryRow revision payload now) rows
  end.

(** ** The rows of an Agent *)

Definition agent_list (a : string) (t : RuntimeTables) : list RuntimeRow :=
  filter (λ row, rr_agent_id row = a) (map_to_list (rt_rows t)).*2.

Lemma agent_list_insert a key row t : rt_rows t !! key = None →
  agent_list a (mkRuntimeTables (rt_catalogs t) (<[key := row]> (rt_rows t))) ≡ₚ
    (if bool_decide (rr_agent_id row = a) then [row] else []) ++ agent_list a t.
Proof.
  intros Hn. unfold agent_list. cbn [rt_rows]. rewrite (map_to_list_insert _ _ _ Hn). cbn [fmap list_fmap snd].
  case_bool_decide as E; [by rewrite filter_cons_True|by rewrite filter_cons_False].
Qed.

Lemma insert_runtimes_list a agent_id now runtimes t t' : insert_runtimes agent_id now runtimes t = Ok t' →
  rt_catalogs t' = rt_catalogs t ∧
  agent_list a t' ≡ₚ (if bool_decide (agent_id = a) then runtime_row agent_id now <$> runtimes else []) ++ agent_list a t.
Proof.
  revert t. induction runtimes as [|r runtimes IH]; cbn; intros t H.
  { injection H as <-. split; [done|]. by case_bool_decide. }
  destruct (rt_rows t !! _) eqn:Hn; [done|]. destruct (IH _ H) as [E1 E2]. split; [done|]. rewrite E2, agent_list_insert by done.
  cbn [rr_agent_id runtime_row]. case_bool_decide; cbn; [|done]. rewrite Permutation_middle. done.
Qed.

Lemma map_to_list_filter {V} (P : string * V → Prop) `{∀ x, Decision (P x)} (m : gmap string V) :
  map_to_list (filter P m) ≡ₚ filter P (map_to_list m).
Proof.
  apply NoDup_Permutation; [apply NoDup_map_to_list|apply NoDup_filter, NoDup_map_to_list|].
  intros [k x]. rewrite list_elem_of_filter, !elem_of_map_to_list, map_lookup_filter_Some. tauto.
Qed.

Lemma delete_rows_list a agent_id t :
  agent_list a (delete_agent_rows agent_id t) ≡ₚ if bool_decide (agent_id = a) then [] else agent_list a t.
Proof.
  unfold agent_list, delete_agent_rows. cbn [rt_rows]. rewrite map_to_list_filter.
  induction (map_to_list (rt_rows t)) as [|[k row] l IH]; [cbn; by case_bool_decide|].
  rewrite filter_cons. cbn [snd]. destruct (decide (rr_agent_id row ≠ agent_id)) as [Hne|He]; cbn [fmap list_fmap snd].
  - rewrite !filter_cons. destruct (decide (rr_agent_id row = a)) as [Ea|Ea]; [|done].
    rewrite IH. case_bool_decide; [congruence|done].
  - rewrite IH. case_bool_decide as E; [done|]. rewrite filter_cons_False; [done|]. intros Ea. apply E. by apply dec_stable in He as <-.
Qed.

(** Every row is found under the key of its Agent and plugin, and revisions are
    positive. *)
Record runtimes_ok (t : RuntimeTables) : Prop := {
  tk_keys k row : rt_rows t !! k = Some row → k = runtime_key (rr_agent_id row) (rr_plugin_id row) (rr_plugin_version row);
  tk_revisions a row : rt_catalogs t !! a = Some row → 1 ≤ rc_revision row;
}.

Lemma insert_runtimes_ok agent_id now runtimes t t' :
  insert_runtimes agent_id now runtimes t = Ok t' → runtimes_ok t → runtimes_ok t'.
Proof.
  revert t. induction runtimes as [|r runtimes IH]; cbn; intros t H Hok; [by injection H as <-|].
  destruct (rt_rows t !! _) eqn:Hn; [done|]. apply (IH _ H). destruct Hok as [Hk Hr]. split; [|done].
  intros k row. cbn. destruct (decide (k = runtime_key agent_id (sp_plugin_id r) (sp_plugin_version r))) as [->|Hne];
    [rewrite lookup_insert_eq; by intros [= <-]|rewrite lookup_insert_ne by done; apply Hk].
Qed.

Lemma delete_rows_ok agent_id t : runtimes_ok t → runtimes_ok (delete_agent_rows agent_id t).
Proof. intros [Hk Hr]. split; [|done]. intros k row. cbn. rewrite map_lookup_filter_Some. intros [? _]. by apply Hk. Qed.

Lemma set_catalog_ok agent_id revision now t : 1 ≤ revision → runtimes_ok t → runtimes_ok (set_catalog agent_id revision now t).
Proof.
  intros H1 [Hk Hr]. split; [done|]. intros a row. cbn. destruct (decide (a = agent_id)) as [->|Hne];
    [rewrite lookup_insert_eq; by intros [= <-]|rewrite lookup_insert_ne by done; apply Hr].
Qed.

(** The revision a load shows. *)
Definition revision_of (a : string) (t : RuntimeTables) : Z := default EMPTY_RUNTIME_REVISION (rc_revision <$> rt_catalogs t !! a).

(** A conditional replacement that succeeds raises the revision by one over what is there
    when it writes, and writes exactly the runtimes. *)
Record replaced (agent_id : string) (runtimes : list StoredPluginRuntime) (revision now : Z) (t t' : RuntimeTables) : Prop := {
  rp_revision : revision = revision_of agent_id t + 1;
  rp_catalogs : rt_catalogs t' = <[agent_id := mkRuntimeCatalogRow revision now]> (rt_catalogs t);
  rp_rows a : agent_list a t' ≡ₚ if bool_decide (agent_id = a) then runtime_row agent_id now <$> runtimes else agent_list a t;
  rp_ok : runtimes_ok t → runtimes_ok t';
}.

Lemma write_runtimes agent_id now runtimes t t' : insert_runtimes agent_id now runtimes (delete_agent_rows agent_id t) = Ok t' →
  rt_catalogs t' = rt_catalogs t ∧ (runtimes_ok t → runtimes_ok t') ∧
  ∀ a, agent_list a t' ≡ₚ if bool_decide (agent_id = a) then runtime_row agent_id now <$> runtimes else agent_list a t.
Proof.
  intros H. split_and!.
  - by destruct (insert_runtimes_list agent_id _ _ _ _ _ H).
  - intros Hok. eapply insert_runtimes_ok; [done|]. by apply delete_rows_ok.
  - intros a. destruct (insert_runtimes_list a _ _ _ _ _ H) as [_ ->]. rewrite delete_rows_list.
    case_bool_decide; [by rewrite app_nil_r|done].
Qed.

Lemma replace_effect other clock agent_id runtimes e t revision t' :
  replace_in_transaction other clock agent_id runtimes (Some e) t = Ok (revision, t') →
  ∃ now, clock = Some now ∧ replaced agent_id runtimes revision now (other t) t' ∧
    default 0 (rc_revision <$> rt_catalogs (other t) !! agent_id) = e.
Proof.
  unfold replace_in_transaction. intros H. apply result_bind_Ok in H as (now & Hnow & H). apply ok_or_Ok in Hnow.
  apply result_bind_Ok in H as (expected & Hexp & H). unfold i64_try_from in Hexp. case_bool_decide; [|done]. injection Hexp as <-.
  apply result_bind_Ok in H as ([] & Hact & H). case_bool_decide as Hact'; [|done].
  apply result_bind_Ok in H as (rev & Hrev & H). apply ok_or_Ok in Hrev. apply result_bind_Ok in H as (t1 & Hcl & H).
  apply result_bind_Ok in H as (t2 & Hins & H). apply result_bind_Ok in H as (t3 & Hfin & H). injection H as <- <-.
  assert (rev = default EMPTY_RUNTIME_REVISION (rc_revision <$> rt_catalogs t !! agent_id) + 1) as Erev.
  { unfold checked_i64 in Hrev. destruct (bool_decide _); [|done]. by injection Hrev. }
  exists now. split; [done|].
  assert (t1 = set_catalog agent_id rev now (other t) ∧ default 0 (rc_revision <$> rt_catalogs (other t) !! agent_id) = e ∧
    rev = revision_of agent_id (other t) + 1 ∧ t3 = t2) as (-> & He & Hr & ->).
  { unfold claim_runtime, finish_runtime, revision_of in *. destruct (rt_catalogs t !! agent_id) as [row|]; cbn in Hact', Erev.
    - rewrite bool_decide_eq_false_2 in Hfin by done. injection Hfin as <-.
      case_bool_decide as Hc; [|done]. injection Hcl as <-.
      rewrite Hc. cbn. split_and!; [done|done|lia|done].
    - subst e. cbn in Hcl. destruct (rt_catalogs (other t) !! agent_id); [done|]. injection Hcl as <-. cbn in Hfin.
      injection Hfin as <-. done. }
  split; [|done]. destruct (write_runtimes _ _ _ _ _ Hins) as (E1 & E2 & E3). split; [done|by rewrite E1|exact E3|].
  intros Hok. apply E2, set_catalog_ok; [|done]. rewrite Hr. unfold revision_of. destruct (rt_catalogs (other t) !! agent_id) as [row|] eqn:Hrow;
    cbn; [|unfold EMPTY_RUNTIME_REVISION; lia]. pose proof (tk_revisions _ Hok _ _ Hrow). lia.
Qed.

(** ** Histories *)

(** Conditional replacements of any number of Servers, for any Agents; what is committed
    while one of them runs is again such a history. *)
Inductive runtime_history : RuntimeTables → RuntimeTables → Prop :=
| rh_refl t : runtime_history t t
| rh_replace t0 t other clock agent_id runtimes e :
    runtime_history t0 t → runtime_history t (other t) →
    runtime_history t0 (replace_agent_plugin_runtime_if_revision other clock agent_id runtimes (Some e) t).2.

(** How a conditional replacement ends. *)
Lemma replace_cases other clock agent_id runtimes e t :
  (∃ err, replace_agent_plugin_runtime_if_revision other clock agent_id runtimes (Some e) t = (Err err, t)) ∨
  (∃ err, replace_agent_plugin_runtime_if_revision other clock agent_id runtimes (Some e) t = (Err err, other t)) ∨
  (∃ revision now t', replace_agent_plugin_runtime_if_revision other clock agent_id runtimes (Some e) t = (Ok revision, t') ∧
     replaced agent_id (merge_sort runtime_le runtimes) revision now (other t) t' ∧
     default 0 (rc_revision <$> rt_catalogs (other t) !! agent_id) = e).
Proof.
  unfold replace_agent_plugin_runtime_if_revision, prepare_runtimes.
  destruct (_ || _); [left; by eexists|]. destruct (has_duplicate _); [left; by eexists|].
  destruct (validate_runtimes _) as [[]|]; [|left; by eexists]. right. cbn [mbind result_bind].
  destruct (replace_in_transaction _ _ _ _ _ _) as [[revision t']|err] eqn:H; [|left; by eexists].
  right. destruct (replace_effect _ _ _ _ _ _ _ _ H) as (now & _ & Hr & He). by exists revision, now, t'.
Qed.

(** What an Agent is shown moves forward, and changes only with its number. *)
Record forward (t t' : RuntimeTables) : Prop := {
  fw_revision a : revision_of a t ≤ revision_of a t';
  fw_same a : revision_of a t = revision_of a t' →
    rc_revision <$> rt_catalogs t' !! a = rc_revision <$> rt_catalogs t !! a ∧ agent_list a t' ≡ₚ agent_list a t;
}.

Lemma forward_trans t1 t2 t3 : forward t1 t2 → forward t2 t3 → forward t1 t3.
Proof.
  intros [R1 S1] [R2 S2]. split; intros a; specialize (R1 a); specialize (R2 a); [lia|]. intros E.
  destruct (S1 a ltac:(lia)) as [E1 P1]. destruct (S2 a ltac:(lia)) as [E2 P2]. split; [congruence|by rewrite P2].
Qed.

Lemma replaced_forward agent_id runtimes revision now t t' : replaced agent_id runtimes revision now t t' → forward t t'.
Proof.
  intros [Hr Hc Hl _]. split; intros a; unfold revision_of; rewrite Hc; specialize (Hl a).
  - destruct (decide (a = agent_id)) as [->|Hne]; [|by rewrite lookup_insert_ne].
    rewrite lookup_insert_eq. cbn. unfold revision_of in Hr. lia.
  - destruct (decide (a = agent_id)) as [->|Hne].
    + rewrite lookup_insert_eq. cbn. unfold revision_of in Hr. lia.
    + rewrite lookup_insert_ne by done. intros _. split; [done|]. by rewrite bool_decide_eq_false_2 in Hl.
Qed.

Lemma runtime_history_ok t t' : runtime_history t t' → forward t t' ∧ (runtimes_ok t → runtimes_ok t').
Proof.
  induction 1 as [t|t0 t other clock agent_id runtimes e _ [F1 O1] _ [F2 O2]]; [by split; [split|]|].
  destruct (replace_cases other clock agent_id runtimes e t) as [(err & ->)|[(err & ->)|(rev & now & t' & -> & Hr & _)]]; cbn.
  - done.
  - split; [by eapply forward_trans|auto].
  - split; [|intros Hok; apply Hr; auto]. eapply forward_trans; [done|]. eapply forward_trans; [done|]. by eapply replaced_forward.
Qed.

Definition no_runtimes : RuntimeTables := mkRuntimeTables ∅ ∅.

Lemma no_runtimes_ok : runtimes_ok no_runtimes.
Proof. split; intros k row Hr; cbn in Hr; by rewrite lookup_empty in Hr. Qed.

(** ** Reading depends on the rows only *)

Section Order.
Context `{TO : TextOrder} `{TL : !TextOrderLaws TO}.

Lemma text_not_lt a b : text_ltb a b = false → text_ltb b a = false → a = b.
Proof. intros H1 H2. destruct (text_lt_total a b) as [?|[?|?]]; congruence. Qed.

#[export] Instance row_before_total : Total row_before.
Proof.
  intros a b. unfold row_before. destruct (text_ltb (rr_plugin_id b) (rr_plugin_id a)) eqn:E1.
  - right. destruct (text_ltb (rr_plugin_id a) (rr_plugin_id b)) eqn:E2.
    { pose proof (text_lt_trans _ _ _ E1 E2) as E. by rewrite text_lt_irrefl in E. }
    split; [done|]. intros E. rewrite E in E1. by rewrite text_lt_irrefl in E1.
  - destruct (text_ltb (rr_plugin_id a) (rr_plugin_id b)) eqn:E2.
    { left. split; [done|]. intros E. rewrite E in E2. by rewrite text_lt_irrefl in E2. }
    destruct (text_ltb (rr_plugin_version b) (rr_plugin_version a)) eqn:E3; [right|left; auto].
    split; [done|]. intros _. destruct (text_ltb (rr_plugin_version a) (rr_plugin_version b)) eqn:E4; [|done].
    pose proof (text_lt_trans _ _ _ E3 E4) as E. by rewrite text_lt_irrefl in E.
Qed.

Lemma not_lt_trans a b c : text_ltb b a = false → text_ltb c b = false → text_ltb c a = false.
Proof.
  intros H1 H2. destruct (text_ltb c a) eqn:E; [|done]. destruct (text_lt_total a b) as [H|[->|H]]; [|congruence|congruence].
  pose proof (text_lt_trans _ _ _ E H). congruence.
Qed.

#[export] Instance row_before_trans : Transitive row_before.
Proof.
  intros a b c [I1 V1] [I2 V2]. split; [by eapply not_lt_trans|]. intros E.
  assert (rr_plugin_id a = rr_plugin_id b) as Eab by (rewrite <- E in I2; by apply text_not_lt).
  eapply not_lt_trans; [by apply V1|]. apply V2. congruence.
Qed.

Lemma agent_list_elem a t row : row ∈ agent_list a t ↔ rr_agent_id row = a ∧ ∃ k, rt_rows t !! k = Some row.
Proof.
  unfold agent_list. rewrite list_elem_of_filter, list_elem_of_fmap. split.
  - intros [? ([k row'] & -> & Hk)]. apply elem_of_map_to_list in Hk. eauto.
  - intros [? [k Hk]]. split; [done|]. exists (k, row). split; [done|]. by apply elem_of_map_to_list.
Qed.

(** The order leaves no choice. *)
Lemma agent_rows_same a t t' : runtimes_ok t → agent_list a t' ≡ₚ agent_list a t → agent_rows a t' = agent_rows a t.
Proof.
  intros Hok Hp. unfold agent_rows. change (merge_sort row_before (agent_list a t') = merge_sort row_before (agent_list a t)).
  eapply (StronglySorted_unique_strong row_before); [|apply StronglySorted_merge_sort; apply _..|by rewrite !merge_sort_Permutation].
  intros x y Hx Hy [I1 V1] [I2 V2]. rewrite merge_sort_Permutation in Hx, Hy. rewrite Hp in Hx.
  apply agent_list_elem in Hx as [Ax [kx Hx]]. apply agent_list_elem in Hy as [Ay [ky Hy]].
  assert (rr_plugin_id x = rr_plugin_id y) as Ei by (by apply text_not_lt).
  assert (rr_plugin_version x = rr_plugin_version y) as Ev by (apply text_not_lt; [by apply V2|by apply V1]).
  pose proof (tk_keys _ Hok _ _ Hx) as Kx. pose proof (tk_keys _ Hok _ _ Hy) as Ky.
  assert (kx = ky) as -> by (rewrite Kx, Ky, Ei, Ev, Ax, Ay; done). congruence.
Qed.

Lemma load_same a inventory t t' : runtimes_ok t →
  rc_revision <$> rt_catalogs t' !! a = rc_revision <$> rt_catalogs t !! a → agent_list a t' ≡ₚ agent_list a t →
  load_agent_plugin_runtime a inventory t' = load_agent_plugin_runtime a inventory t.
Proof.
  intros Hok Hc Hp. unfold load_agent_plugin_runtime, get_agent_plugin_runtime. rewrite (agent_rows_same _ _ _ Hok Hp).
  destruct (rt_catalogs t' !! a), (rt_catalogs t !! a); cbn in Hc |- *; congruence.
Qed.

Lemma load_revision a inventory t : prs_revision (load_agent_plugin_runtime a inventory t) = revision_of a t.
Proof. unfold load_agent_plugin_runtime, get_agent_plugin_runtime, revision_of. by destruct (rt_catalogs t !! a). Qed.

Lemma revision_of_pos a t : runtimes_ok t → 1 ≤ revision_of a t.
Proof.
  intros Hok. unfold revision_of. destruct (rt_catalogs t !! a) as [row|] eqn:H; cbn; [by eapply tk_revisions|].
  unfold EMPTY_RUNTIME_REVISION. lia.
Qed.

End Order.

(** Alone, a save never lowers the stored revision of any Agent; between its read and its
    write another process can store a newer one, which is then overwritten. *)
Lemma save_row_monotone {R} (f : R → Z) a revision row (rows : gmap string R) r rows' :
  f row = revision → save_row f id a revision row rows = (r, rows') →
  r = Ok tt ∧ ∀ k m, rows !! k = Some m → ∃ m', rows' !! k = Some m' ∧ f m ≤ f m'.
Proof.
  intros Hf. unfold save_row, id. destruct (rows !! a) as [model|] eqn:Ha; [case_bool_decide as Hr|]; intros [= <- <-].
  all: split; [done|]; intros k m Hk; destruct (decide (k = a)) as [->|]; simplify_map_eq; eauto with lia.
Qed.

Lemma save_row_race {R} (f : R → Z) a revision row (rows : gmap string R) model newer :
  rows !! a = Some model → f model ≤ revision → f row = revision → revision < f newer →
  ∃ rows', save_row f <[a := newer]> a revision row rows = (Ok tt, rows') ∧
    <[a := newer]> rows !! a = Some newer ∧ rows' !! a = Some row ∧ f row < f newer.
Proof.
  intros Ha Hle Hrow Hlt. unfold save_row. rewrite Ha, bool_decide_eq_false_2 by lia. rewrite lookup_insert_eq.
  eexists. split; [done|]. rewrite !lookup_insert_eq. split_and!; [done..|lia].
Qed.

(** ** Theorems *)

(** C18. The Agent never rejects what the Server stores: over all conditional replacements by
    any number of Servers, with any number of them under way at once, the snapshots an
    Agent is shown are numbered upwards and a number stands for one content; so the gate
    of an Agent that confirmed one snapshot takes exactly the newer ones, ignores the same
    and the older ones, and never meets the error of two contents under one number. *)
Theorem runtime_gate_follows_store `{TO : TextOrder} `{TL : !TextOrderLaws TO} t1 t2 a inventory :
  runtime_history no_runtimes t1 → runtime_history t1 t2 →
  let s1 := load_agent_plugin_runtime a inventory t1 in
  let s2 := load_agent_plugin_runtime a inventory t2 in
  prs_revision s1 ≤ prs_revision s2 ∧ (prs_revision s1 = prs_revision s2 → s1 = s2) ∧
  validate_snapshot s2 (confirm_snapshot s1).1 =
    Ok (if bool_decide (prs_revision s1 < prs_revision s2) then SnapshotApplied else IgnoredStale) ∧
  validate_snapshot s1 (confirm_snapshot s2).1 = Ok IgnoredStale ∧
  validate_snapshot s1 default_runtime_state = Ok SnapshotApplied.
Proof.
  intros H1 H2 s1 s2. destruct (runtime_history_ok _ _ H1) as [_ Hok1]. specialize (Hok1 no_runtimes_ok).
  destruct (runtime_history_ok _ _ H2) as [[Fr Fs] Hok2]. specialize (Hok2 Hok1). specialize (Fr a). specialize (Fs a).
  assert (prs_revision s1 = prs_revision s2 → s1 = s2) as Heq.
  { unfold s1, s2. rewrite !load_revision. intros E. destruct (Fs E) as [Ec Ep]. symmetry. by apply load_same. }
  pose proof (revision_of_pos a t1 Hok1) as Hpos. unfold validate_snapshot, confirm_snapshot. cbn [fst ps_applied_revision ps_applied_snapshot].
  pose proof (load_revision a inventory t1 : prs_revision s1 = _) as R1.
  pose proof (load_revision a inventory t2 : prs_revision s2 = _) as R2. clearbody s1 s2. split_and!; [lia|done|..].
  - rewrite (bool_decide_eq_false_2 (prs_revision s2 = 0)), (bool_decide_eq_false_2 (prs_revision s2 < _)) by lia.
    destruct (decide (prs_revision s1 = prs_revision s2)) as [E|E].
    + rewrite (Heq E). rewrite !(bool_decide_eq_true_2 (_ = _)) by done. rewrite bool_decide_eq_false_2 by lia. done.
    + rewrite bool_decide_eq_false_2 by lia. rewrite bool_decide_eq_true_2 by lia. done.
  - rewrite (bool_decide_eq_false_2 (prs_revision s1 = 0)) by lia. destruct (decide (prs_revision s1 = prs_revision s2)) as [E|E].
    + rewrite (Heq E). rewrite !(bool_decide_eq_true_2 (_ = _)) by done. by case_bool_decide.
    + by rewrite bool_decide_eq_true_2 by lia.
  - cbn. rewrite (bool_decide_eq_false_2 (prs_revision s1 = 0)), (bool_decide_eq_false_2 (prs_revision s1 < 0)) by lia. done.
Qed.

Definition wf_runtime (r : StoredPluginRuntime) : Prop :=
  0 ≤ sp_schema_version r < 4294967296 ∧ 0 ≤ sp_requested_concurrency r < 4294967296.

Lemma stored_runtime_row agent_id now r : wf_runtime r → stored_runtime (runtime_row agent_id now r) = r.
Proof.
  intros [H1 H2]. destruct r as [i v h sv c rc]. unfold stored_runtime, runtime_row. cbn in *.
  assert (∀ x, 0 ≤ x < 4294967296 → i32_as_u32 (as_i32 x) = x) as E.
  { intros x Hx. unfold i32_as_u32, as_i32. repeat case_bool_decide; lia. }
  by rewrite !E.
Qed.

(** A conditional replacement is exact and all or nothing: when it succeeds, the
    revision that was expected is the one stored at the moment of its first write,
    whatever others committed before, the new one is its successor, what is read back for
    the Agent is the given set of runtimes, and no other Agent is shown anything else;
    when it fails nothing of it is left. *)
Theorem runtime_replacement_exact `{TO : TextOrder} `{TL : !TextOrderLaws TO} t other clock agent_id runtimes e r t' :
  runtime_history no_runtimes t → runtime_history t (other t) → Forall wf_runtime runtimes →
  replace_agent_plugin_runtime_if_revision other clock agent_id runtimes (Some e) t = (r, t') →
  match r with
  | Err _ => t' = t ∨ t' = other t
  | Ok revision =>
      default 0 (rc_revision <$> rt_catalogs (other t) !! agent_id) = e ∧ revision = Z.max 1 e + 1 ∧
      (∃ record, get_agent_plugin_runtime agent_id t' = Some record ∧ pr_revision record = revision ∧
         pr_runtimes record ≡ₚ runtimes) ∧
      ∀ a inventory, a ≠ agent_id → load_agent_plugin_runtime a inventory t' = load_agent_plugin_runtime a inventory (other t)
  end.
Proof.
  intros H0 H1 Hwf H. destruct (runtime_history_ok _ _ H0) as [_ Hok]. destruct (runtime_history_ok _ _ H1) as [_ Hok1].
  specialize (Hok1 (Hok no_runtimes_ok)).
  destruct (replace_cases other clock agent_id runtimes e t) as [(err & E)|[(err & E)|(rev & now & t2 & E & [Hr Hc Hl _] & He)]];
    rewrite E in H; injection H as <- <-; [by left|by right|]. split_and!.
  - done.
  - rewrite Hr. unfold revision_of, EMPTY_RUNTIME_REVISION. destruct (rt_catalogs (other t) !! agent_id) as [row|] eqn:Hrow; cbn in He |- *; [|lia].
    pose proof (tk_revisions _ Hok1 _ _ Hrow). lia.
  - unfold get_agent_plugin_runtime. rewrite Hc, lookup_insert_eq. cbn. eexists. split; [done|]. split; [done|]. cbn.
    unfold agent_rows. change (stored_runtime <$> merge_sort row_before (agent_list agent_id t2) ≡ₚ runtimes).
    rewrite merge_sort_Permutation, (Hl agent_id), bool_decide_eq_true_2 by done. rewrite merge_sort_Permutation, <- list_fmap_compose.
    rewrite <- (list_fmap_id runtimes) at 2. apply Permutation_refl', list_fmap_ext. intros i x Hx. cbn.
    apply stored_runtime_row. rewrite Forall_forall in Hwf. apply Hwf. by eapply list_elem_of_lookup_2.
  - intros a inventory Ha. specialize (Hl a). rewrite bool_decide_eq_false_2 in Hl by done.
    apply load_same; [done| |done]. by rewrite Hc, lookup_insert_ne.
Qed.

(** The number an unconditional replacement takes is that of its read. *)
Lemma unconditional_revision other clock agent_id runtimes t row r t' :
  rt_catalogs t !! agent_id = Some row →
  replace_agent_plugin_runtime_if_revision other clock agent_id runtimes None t = (Ok r, t') →
  r = rc_revision row + 1 ∧ revision_of agent_id t' = r.
Proof.
  intros Hrow H. unfold replace_agent_plugin_runtime_if_revision in H. destruct (prepare_runtimes agent_id runtimes) as [rs|]; [|done].
  destruct (replace_in_transaction _ _ _ _ _ _) as [[rev t3]|] eqn:Ht; [|done]. injection H as -> ->.
  unfold replace_in_transaction in Ht. apply result_bind_Ok in Ht as (now & _ & Ht). rewrite Hrow in Ht.
  cbn [mbind result_bind claim_runtime] in Ht. apply result_bind_Ok in Ht as (rev & Hrev & Ht). apply ok_or_Ok in Hrev.
  apply result_bind_Ok in Ht as (t2 & _ & Ht). apply result_bind_Ok in Ht as (t4 & Hfin & Ht). injection Ht as <- <-.
  cbn in Hfin. injection Hfin as <-. unfold checked_i64 in Hrev. destruct (bool_decide _); [|done]. injection Hrev as <-.
  split; [done|]. unfold revision_of. cbn. by rewrite lookup_insert_eq.
Qed.

(** Defect: an unconditional replacement can take a number that is already taken. When
    another process replaces the runtimes of the same Agent between the read and the first
    write, both replacements succeed under the same revision with their own contents; an
    Agent that confirmed the first snapshot then rejects the second one, and is not given
    it until there is a further replacement. *)
Theorem unconditional_replace_reuses_revision `{TO : TextOrder} t row agent_id clock clock' rs rs' r1 t1 r2 t2 inventory :
  let other := λ t, (replace_agent_plugin_runtime_if_revision (λ t, t) clock agent_id rs None t).2 in
  rt_catalogs t !! agent_id = Some row → 0 < rc_revision row →
  replace_agent_plugin_runtime_if_revision (λ t, t) clock agent_id rs None t = (Ok r1, t1) →
  replace_agent_plugin_runtime_if_revision other clock' agent_id rs' None t = (Ok r2, t2) →
  let s1 := load_agent_plugin_runtime agent_id inventory t1 in
  let s2 := load_agent_plugin_runtime agent_id inventory t2 in
  r1 = r2 ∧ prs_revision s1 = r1 ∧ prs_revision s2 = r2 ∧
  (s1 ≠ s2 → validate_snapshot s2 (confirm_snapshot s1).1 = Err "same plugin runtime revision contains different content"%string).
Proof.
  intros other Hrow Hpos E1 E2 s1 s2.
  destruct (unconditional_revision _ _ _ _ _ _ _ _ Hrow E1) as [R1 L1].
  destruct (unconditional_revision _ _ _ _ _ _ _ _ Hrow E2) as [R2 L2].
  pose proof (load_revision agent_id inventory t1 : prs_revision s1 = _) as P1.
  pose proof (load_revision agent_id inventory t2 : prs_revision s2 = _) as P2. clearbody s1 s2.
  split_and!; [congruence|congruence|congruence|]. intros Hne. unfold validate_snapshot, confirm_snapshot. cbn.
  rewrite (bool_decide_eq_false_2 (prs_revision s2 = 0)), (bool_decide_eq_false_2 (prs_revision s2 < _)) by lia.
  rewrite (bool_decide_eq_true_2 (prs_revision s2 = _)) by congruence. by rewrite bool_decide_eq_false_2 by congruence.
Qed.

(** ** Evaluation *)

Definition demo_stored_runtime (concurrency : Z) : StoredPluginRuntime :=
  mkStoredRuntime "smalux.plus.echo" "0.1.0" (replicate 32 7) 1 [1; 2] concurrency.
Definition demo_replace_runtime (expected : option Z) (concurrency : Z) (t : RuntimeTables) :=
  replace_agent_plugin_runtime_if_revision (λ t, t) (Some 5) "agent-a" [demo_stored_runtime concurrency] expected t.
Definition demo_r1 : RuntimeTables := (demo_replace_runtime (Some 0) 1 no_runtimes).2.
Definition demo_r2 : RuntimeTables := (demo_replace_runtime (Some 2) 4000000000 demo_r1).2.
Definition demo_runtime_inventory : AgentPluginInventory :=
  mkInventory 1 [mkInventoryEntry "smalux.plus.echo" "0.1.0" [] (replicate 32 7) 1].
Definition demo_load := load_agent_plugin_runtime (TO := binary_collation) "agent-a" demo_runtime_inventory.

Lemma demo_r1_history : runtime_history no_runtimes demo_r1.
Proof. apply rh_replace; apply rh_refl. Qed.

Lemma demo_r2_history : runtime_history demo_r1 demo_r2.
Proof. apply (rh_replace demo_r1 demo_r1); apply rh_refl. Qed.

Lemma runtime_gate_follows_store_witness :
  prs_revision (demo_load demo_r2) = 3 ∧
  validate_snapshot (demo_load demo_r2) (confirm_snapshot (demo_load demo_r1)).1 = Ok SnapshotApplied.
Proof.
  split; [vm_compute; reflexivity|].
  exact (proj1 (proj2 (proj2 (runtime_gate_follows_store (TO := binary_collation) (TL := binary_collation_laws) demo_r1 demo_r2
    "agent-a" demo_runtime_inventory demo_r1_history demo_r2_history)))).
Defined.

Lemma runtime_replacement_exact_witness :
  ∃ record, get_agent_plugin_runtime (TO := binary_collation) "agent-a" demo_r2 = Some record ∧
    pr_runtimes record ≡ₚ [demo_stored_runtime 4000000000].
Proof.
  destruct (runtime_replacement_exact (TO := binary_collation) (TL := binary_collation_laws) demo_r1 (λ t, t) (Some 5) "agent-a"
    [demo_stored_runtime 4000000000] 2 (Ok 3) demo_r2 demo_r1_history (rh_refl _)) as (_ & _ & (record & Hg & _ & Hp) & _).
  - constructor; [|constructor]. split; vm_compute; split; discriminate || reflexivity.
  - vm_compute. reflexivity.
  - exists record. split; [exact Hg|exact Hp].
Defined.

Lemma unconditional_replace_reuses_revision_witness :
  let t2 := (replace_agent_plugin_runtime_if_revision (λ t, (demo_replace_runtime None 8 t).2) (Some 6) "agent-a" [demo_stored_runtime 9] None demo_r1).2 in
  validate_snapshot (demo_load t2) (confirm_snapshot (demo_load (demo_replace_runtime None 8 demo_r1).2)).1 =
    Err "same plugin runtime revision contains different content"%string.
Proof.
  intros t2.
  refine (proj2 (proj2 (proj2 (unconditional_replace_reuses_revision (TO := binary_collation) demo_r1 (mkRuntimeCatalogRow 2 5) "agent-a"
    (Some 5) (Some 6) [demo_stored_runtime 8] [demo_stored_runtime 9] 3 (demo_replace_runtime None 8 demo_r1).2 3 t2 demo_runtime_inventory _ _ _ _))) _).
  - vm_compute. reflexivity.
  - vm_compute. reflexivity.
  - vm_compute. reflexivity.
  - vm_compute. reflexivity.
  - vm_compute. discriminate.
Defined.
