(* ===== verification/PluginCatalog.v ===== *)
(** * The plugins installed on an Agent

    [crates/smalux-plus/smalux-plus-core/src/manifest.rs] and
    [crates/smalux-agent/src/plugins/catalog.rs]: the manifest of a plugin version, the
    discovery of the installed versions below a directory, and the inventory the Agent sends
    to the Server.

    The file system is a record of what its calls answer while the discovery runs; a path is
    the list of its components, as [Path::components] gives them on Unix.  The JSON parser
    of [plugin.json] is the class [ManifestJson]. *)

From Stdlib Require Import Ascii.
From stdpp Require Import base gmap strings list pretty sorting.
From S2P Require Import Prelude Rotation Catalog Paging Policy Reports WebStore WebGate WebMetrics WebOps RemoteJobs RemoteTheorems WebLife Session SessionDemo PlusSchema SchemaStore WorkerFrames.

(** ** The manifest *)

(** [PluginVersion], its order and its [Display]. *)
Record PluginVersion : Type := mkPluginVersion { pv_major : Z; pv_minor : Z; pv_patch : Z }.
#[export] Instance PluginVersion_eq_dec : EqDecision PluginVersion.
Proof. solve_decision. Defined.
Definition version_lt (a b : PluginVersion) : bool :=
  bool_decide (pv_major a < pv_major b)
  || (bool_decide (pv_major a = pv_major b)
      && (bool_decide (pv_minor a < pv_minor b)
          || (bool_decide (pv_minor a = pv_minor b) && bool_decide (pv_patch a < pv_patch b)))).
Definition version_text (v : PluginVersion) : string :=
  (pretty (pv_major v) +:+ "." +:+ pretty (pv_minor v) +:+ "." +:+ pretty (pv_patch v))%string.

Inductive PluginPlatform : Type := Windows | Linux | Macos.
#[export] Instance PluginPlatform_eq_dec : EqDecision PluginPlatform.
Proof. solve_decision. Defined.

(** [PluginManifest]. *)
Record PluginManifest : Type := mkManifest {
  mf_plugin_id : string;
  mf_display_name : string;
  mf_version : PluginVersion;
  mf_platform : PluginPlatform;
  mf_entrypoint : string;
  mf_protocol_version : Z;
  mf_schema_file : string;
  mf_task_types : list string;
}.
Definition supports_task (m : PluginManifest) (task_type : string) : bool :=
  existsb (λ item, String.eqb item task_type) (mf_task_types m).

(** [str::split] at the bytes that satisfy [sep]. *)
Fixpoint split_at (sep : Ascii.ascii → bool) (s : string) : list string :=
  match s with
  | EmptyString => [EmptyString]
  | String c rest =>
      if sep c then EmptyString :: split_at sep rest
      else match split_at sep rest with
           | part :: parts => String c part :: parts
           | [] => [String c EmptyString]
           end
  end.

Definition slash (c : Ascii.ascii) : bool := bool_decide (c = "/"%char).
Definition any_slash (c : Ascii.ascii) : bool := bool_decide (c = "/"%char) || bool_decide (c = "\"%char).

(** [Path::is_absolute] on Unix. *)
Definition is_absolute (s : string) : bool := match s with String c _ => slash c | EmptyString => false end.

(** The condition on [entrypoint] and [schema_file]. *)
Definition relative_file (s : string) : bool :=
  negb (String.eqb s "") && negb (has_control_character s) && negb (is_absolute s)
  && negb (existsb (String.eqb "..") (split_at any_slash s)).

(** [PluginManifest::validate]; [is_safe_component] and [has_control_character] are the
    functions of [schema.rs] again. *)
Definition bad_task_type (kind : string) : bool :=
  String.eqb kind "" || bool_decide (256 < text_len kind) || has_control_character kind.
Definition manifest_validate (m : PluginManifest) : result PluginError unit :=
  if negb (is_safe_component (mf_plugin_id m))
  then Err (InvalidManifest "plugin_id must be a safe 1..=256 byte identifier")
  else if String.eqb (mf_display_name m) "" || bool_decide (256 < text_len (mf_display_name m))
          || has_control_character (mf_display_name m)
  then Err (InvalidManifest "display_name must contain 1..=256 bytes and no control characters")
  else if negb (relative_file (mf_entrypoint m))
  then Err (InvalidManifest "entrypoint must be a relative path without parent traversal")
  else if bool_decide (mf_protocol_version m = 0)
  then Err (InvalidManifest "protocol_version must be greater than zero")
  else if negb (relative_file (mf_schema_file m))
  then Err (InvalidManifest "schema_file must be a relative path without parent traversal")
  else if bool_decide (mf_task_types m = []) || existsb bad_task_type (mf_task_types m)
          || windows_any string_ge (mf_task_types m)
  then Err (InvalidManifest "task_types must be sorted, unique and non-empty")
  else Ok tt.

(** ** The file system *)

Definition path : Type := list string.

(** [Path::components] of a relative or absolute text, and [Path::join]. *)
Definition components (s : string) : path :=
  filter (λ c, c ≠ ""%string ∧ c ≠ "."%string) (split_at slash s).
Definition join (directory : path) (relative : string) : path :=
  if is_absolute relative then components relative else directory ++ components relative.

Inductive FileKind : Type := Directory | Regular | Special.

Record FileSystem : Type := mkFileSystem {
  fs_metadata : path → option FileKind;
  fs_read_dir : path → option (list (option path));
  fs_read : path → option bytes;
  fs_canonicalize : path → option path;
}.
Definition is_dir (fs : FileSystem) (p : path) : bool := match fs_metadata fs p with Some Directory => true | _ => false end.
Definition is_file (fs : FileSystem) (p : path) : bool := match fs_metadata fs p with Some Regular => true | _ => false end.

Class ManifestJson : Type := parse_manifest : bytes → option PluginManifest.

(** ** Discovery *)

(** [PluginCatalogError]. *)
Inductive PluginCatalogError : Type :=
| ReadDirectory (p : path)
| ReadManifest (p : path)
| ParseManifest (p : path)
| InvalidPluginManifest (p : path) (message : string)
| ReadSchema (p : path)
| InvalidSchema (p : path) (message : string)
| DuplicatePlugin (plugin_id version : string).

(** [InstalledPlugin]. *)
Record InstalledPlugin : Type := mkInstalled {
  ip_directory : path;
  ip_manifest : PluginManifest;
  ip_schema_bytes : bytes;
  ip_schema_hash : bytes;
}.

Definition WORKER_PROTOCOL_VERSION : Z := 2.

(** [BTreeMap<(String, PluginVersion), InstalledPlugin>]: the entries in the order of their
    keys. *)
Definition PluginKey : Type := string * PluginVersion.
Definition key_lt (a b : PluginKey) : bool :=
  negb (string_ge a.1 b.1) || (bool_decide (a.1 = b.1) && version_lt a.2 b.2).
Fixpoint btree_insert {V} (k : PluginKey) (v : V) (l : list (PluginKey * V)) : list (PluginKey * V) :=
  match l with
  | [] => [(k, v)]
  | (k', v') :: l' =>
      if bool_decide (k = k') then (k, v) :: l'
      else if key_lt k k' then (k, v) :: l
      else (k', v') :: btree_insert k v l'
  end.
Definition btree_get {V} (k : PluginKey) (l : list (PluginKey * V)) : option V :=
  snd <$> List.find (λ e, bool_decide (e.1 = k)) l.

(** [PluginCatalog]. *)
Record PluginCatalog : Type := mkPluginCatalog {
  pc_root : path;
  pc_plugins : list (PluginKey * InstalledPlugin);
}.

Section Discover.
Context `{FT : FloatText} `{SCC : SchemaCodec} `{H256 : Sha256} `{MJ : ManifestJson} (current_platform : PluginPlatform).

(** [canonical_plugin_file]. *)
Definition canonical_plugin_file (fs : FileSystem) (directory : path) (relative label : string) : result string path :=
  canonical_directory ← ok_or "failed to canonicalize plugin directory"%string (fs_canonicalize fs directory);
  let p := join directory relative in
  kind ← ok_or ("failed to read " +:+ label)%string (fs_metadata fs p);
  match kind with
  | Regular =>
      canonical ← ok_or ("failed to canonicalize " +:+ label)%string (fs_canonicalize fs p);
      if bool_decide (canonical_directory `prefix_of` canonical) then Ok canonical
      else Err (label +:+ " resolves outside its plugin version directory")%string
  | _ => Err (label +:+ " must be a regular file")%string
  end.

(** [validate_worker_manifest]. *)
Definition validate_worker_manifest (fs : FileSystem) (directory : path) (m : PluginManifest) : result string unit :=
  if negb (bool_decide (mf_platform m = current_platform)) then Err "plugin platform does not match current platform"%string
  else if negb (bool_decide (mf_protocol_version m = WORKER_PROTOCOL_VERSION))
  then Err "plugin Worker protocol version does not match Agent version"%string
  else
    directory ← ok_or "failed to canonicalize plugin directory"%string (fs_canonicalize fs directory);
    _ ← canonical_plugin_file fs directory (mf_entrypoint m) "Worker entrypoint";
    Ok tt.

Definition plugin_error_text (e : PluginError) : string :=
  match e with
  | InvalidManifest m => ("invalid plugin manifest: " +:+ m)%string
  | IdentityMismatch expected actual => ("plugin identity mismatch: expected " +:+ expected +:+ ", actual " +:+ actual)%string
  | ExecutionFailed m => ("Plus Worker failed: " +:+ m)%string
  end.

(** The body of the inner loop of [discover] for a directory with a manifest. *)
Definition load_plugin (fs : FileSystem) (directory : path) : result PluginCatalogError (PluginKey * InstalledPlugin) :=
  let manifest_path := join directory "plugin.json" in
  bs ← ok_or (ReadManifest manifest_path) (fs_read fs manifest_path);
  manifest ← ok_or (ParseManifest manifest_path) (parse_manifest bs);
  _ ← map_err (λ e, InvalidPluginManifest manifest_path (plugin_error_text e)) (manifest_validate manifest);
  _ ← map_err (InvalidPluginManifest manifest_path) (validate_worker_manifest fs directory manifest);
  schema_path ← map_err (InvalidSchema (join directory (mf_schema_file manifest)))
                  (canonical_plugin_file fs directory (mf_schema_file manifest) "Schema");
  schema_bytes ← ok_or (ReadSchema schema_path) (fs_read fs schema_path);
  schema ← map_err (λ _, InvalidSchema schema_path "schema") (decode_checked schema_bytes);
  if negb (bool_decide (sb_plugin_id schema = mf_plugin_id manifest)
           && bool_decide (sb_plugin_version schema = version_text (mf_version manifest))
           && bool_decide ((ts_task_kind <$> sb_tasks schema) = mf_task_types manifest))
  then Err (InvalidSchema schema_path "schema identity or task kinds do not match manifest")
  else
    hash ← map_err (λ _, InvalidSchema schema_path "schema") (bundle_hash schema);
    Ok ((mf_plugin_id manifest, mf_version manifest), mkInstalled directory manifest schema_bytes hash).

(** The two loops of [discover]. *)
Definition add_plugin (e : PluginKey * InstalledPlugin) (plugins : list (PluginKey * InstalledPlugin)) :
    result PluginCatalogError (list (PluginKey * InstalledPlugin)) :=
  match btree_get e.1 plugins with
  | Some _ => Err (DuplicatePlugin e.1.1 (version_text e.1.2))
  | None => Ok (btree_insert e.1 e.2 plugins)
  end.
Fixpoint discover_versions (fs : FileSystem) (parent : path) (entries : list (option path))
    (plugins : list (PluginKey * InstalledPlugin)) : result PluginCatalogError (list (PluginKey * InstalledPlugin)) :=
  match entries with
  | [] => Ok plugins
  | None :: _ => Err (ReadDirectory parent)
  | Some directory :: entries =>
      if negb (is_dir fs directory) || negb (is_file fs (join directory "plugin.json"))
      then discover_versions fs parent entries plugins
      else
        plugin ← load_plugin fs directory;
        plugins ← add_plugin plugin plugins;
        discover_versions fs parent entries plugins
  end.
Fixpoint discover_plugins (fs : FileSystem) (root : path) (entries : list (option path))
    (plugins : list (PluginKey * InstalledPlugin)) : result PluginCatalogError (list (PluginKey * InstalledPlugin)) :=
  match entries with
  | [] => Ok plugins
  | None :: _ => Err (ReadDirectory root)
  | Some parent :: entries =>
      if negb (is_dir fs parent) then discover_plugins fs root entries plugins
      else
        versions ← ok_or (ReadDirectory parent) (fs_read_dir fs parent);
        plugins ← discover_versions fs parent versions plugins;
        discover_plugins fs root entries plugins
  end.
Definition discover (fs : FileSystem) (root : path) : result PluginCatalogError PluginCatalog :=
  match fs_metadata fs root with
  | None => Ok (mkPluginCatalog root [])
  | Some _ =>
      entries ← ok_or (ReadDirectory root) (fs_read_dir fs root);
      plugins ← discover_plugins fs root entries [];
      Ok (mkPluginCatalog root plugins)
  end.

End Discover.

(** [plugins], [get], [schema_bytes], [to_protocol] and [inventory]. *)
Definition catalog_plugins (c : PluginCatalog) : list InstalledPlugin := (pc_plugins c).*2.
Definition catalog_get (c : PluginCatalog) (plugin_id : string) (version : PluginVersion) : option InstalledPlugin :=
  btree_get (plugin_id, version) (pc_plugins c).
Definition catalog_schema_bytes (c : PluginCatalog) (hash : bytes) : option bytes :=
  ip_schema_bytes <$> List.find (λ p, bool_decide (ip_schema_hash p = hash)) (catalog_plugins c).
Definition to_protocol (p : InstalledPlugin) : PluginInventoryEntry :=
  mkInventoryEntry (mf_plugin_id (ip_manifest p)) (version_text (mf_version (ip_manifest p)))
    (merge_sort string_le (mf_task_types (ip_manifest p))) (ip_schema_hash p) SCHEMA_FORMAT_VERSION.
Definition inventory (c : PluginCatalog) : AgentPluginInventory := mkInventory 1 (to_protocol <$> catalog_plugins c).

(** ** The order of the keys *)

Definition string_lt (a b : string) : Prop := ¬ string_le b a.

Lemma string_ge_false a b : string_ge a b = false ↔ string_lt a b.
Proof. unfold string_ge, string_lt. by rewrite bool_decide_eq_false. Qed.

Lemma string_le_refl a : string_le a a.
Proof. apply bytes_le_refl. Qed.

Lemma string_lt_trans a b c : string_lt a b → string_lt b c → string_lt a c.
Proof.
  unfold string_lt. intros Hab Hbc Hca. apply Hab. destruct (total string_le b c) as [|Hcb]; [by etrans|by destruct Hbc].
Qed.

Lemma string_lt_irrefl a : ¬ string_lt a a.
Proof. intros H. apply H, string_le_refl. Qed.

Lemma string_trichotomy a b : string_lt a b ∨ a = b ∨ string_lt b a.
Proof.
  unfold string_lt. destruct (decide (string_le b a)), (decide (string_le a b)); [|by auto..].
  right. left. by apply (anti_symm string_le).
Qed.

Lemma version_lt_spec a b :
  version_lt a b = true ↔ pv_major a < pv_major b ∨ (pv_major a = pv_major b ∧
    (pv_minor a < pv_minor b ∨ (pv_minor a = pv_minor b ∧ pv_patch a < pv_patch b))).
Proof. unfold version_lt. by rewrite !orb_true_iff, !andb_true_iff, !orb_true_iff, !andb_true_iff, !bool_decide_eq_true. Qed.

Lemma key_lt_spec a b : key_lt a b = true ↔ string_lt a.1 b.1 ∨ (a.1 = b.1 ∧ version_lt a.2 b.2 = true).
Proof. unfold key_lt. by rewrite orb_true_iff, andb_true_iff, negb_true_iff, string_ge_false, bool_decide_eq_true. Qed.

Definition key_before (a b : PluginKey) : Prop := key_lt a b = true.

#[export] Instance key_before_trans : Transitive key_before.
Proof.
  intros a b c. unfold key_before. rewrite !key_lt_spec. intros [H1|[E1 V1]] [H2|[E2 V2]].
  - left. by eapply string_lt_trans.
  - left. by rewrite <-E2.
  - left. by rewrite E1.
  - right. split; [congruence|]. rewrite version_lt_spec in *. lia.
Qed.

Lemma key_before_irrefl a : ¬ key_before a a.
Proof. unfold key_before. rewrite key_lt_spec. intros [H|[_ H]]; [by apply string_lt_irrefl in H|]. rewrite version_lt_spec in H. lia. Qed.

Lemma key_trichotomy a b : a ≠ b → key_lt a b = false → key_before b a.
Proof.
  intros Hne Hf. unfold key_before. rewrite key_lt_spec. apply not_true_iff_false in Hf. rewrite key_lt_spec in Hf.
  destruct (string_trichotomy a.1 b.1) as [H|[H|H]]; [naive_solver| |by left].
  right. split; [done|]. assert (¬ version_lt a.2 b.2 = true) as Hv by auto. clear Hf. rewrite version_lt_spec in *. destruct a as [a [x y z]], b as [b [x' y' z']]. cbn in *. subst b.
  destruct (decide (x = x' ∧ y = y' ∧ z = z')) as [(-> & -> & ->)|]; [done|lia].
Qed.

(** ** The tree *)

Section Tree.
Context {V : Type}.
Implicit Types l : list (PluginKey * V).

Lemma btree_get_None k l : btree_get k l = None → k ∉ l.*1.
Proof.
  unfold btree_get. induction l as [|[k' v] l IH]; cbn; [set_solver|]. case_bool_decide as E; [done|]. intros H. cbn in E.
  apply IH in H. set_solver.
Qed.

Lemma btree_insert_elem k v l e : k ∉ l.*1 → e ∈ btree_insert k v l ↔ e = (k, v) ∨ e ∈ l.
Proof.
  induction l as [|[k' v'] l IH]; cbn; intros Hk; [set_solver|]. rewrite bool_decide_eq_false_2 by set_solver.
  destruct (key_lt k k'); [set_solver|]. rewrite elem_of_cons, IH by set_solver. set_solver.
Qed.

Lemma btree_insert_sorted k v l : k ∉ l.*1 → StronglySorted key_before l.*1 → StronglySorted key_before (btree_insert k v l).*1.
Proof.
  induction l as [|[k' v'] l IH]; cbn; intros Hk Hs; [by repeat constructor|]. inversion Hs as [|? ? Hs' Hf]; subst.
  rewrite bool_decide_eq_false_2 by set_solver. destruct (key_lt k k') eqn:E; cbn.
  - constructor; [done|]. constructor; [done|]. eapply Forall_impl; [done|]. intros x Hx. by etrans.
  - constructor; [apply IH; set_solver|]. apply Forall_forall. intros x Hx. apply list_elem_of_fmap in Hx as (e & -> & He).
    apply btree_insert_elem in He as [->|He]; [|rewrite Forall_forall in Hf; apply Hf, list_elem_of_fmap; eauto|set_solver].
    apply key_trichotomy; [set_solver|done].
Qed.

Lemma sorted_keys_NoDup l : StronglySorted key_before l.*1 → NoDup l.*1.
Proof.
  induction l as [|[k v] l IH]; cbn; intros H; [constructor|]. inversion H as [|? ? Hs Hf]; subst.
  constructor; [|by apply IH]. intros Hin. rewrite Forall_forall in Hf. by apply (key_before_irrefl k), Hf.
Qed.

Lemma btree_get_elem k v l : NoDup l.*1 → btree_get k l = Some v ↔ (k, v) ∈ l.
Proof.
  unfold btree_get. induction l as [|[k' v'] l IH]; cbn; intros Hnd; [set_solver|]. inversion Hnd as [|? ? Hni Hnd']; subst.
  case_bool_decide as E; cbn in *.
  - subst k'. split; [intros [= ->]; left|]. intros [[= ->]|Hin]%elem_of_cons; [done|]. destruct Hni.
    apply list_elem_of_fmap. by exists (k, v).
  - rewrite (IH Hnd'). set_solver.
Qed.

End Tree.

(** ** Discovered plugins *)

Section Sound.
Context `{FT : FloatText} `{SCC : SchemaCodec} `{H256 : Sha256} `{MJ : ManifestJson} (platform : PluginPlatform).

(** What the discovery has checked of an entry of the catalog. *)
Record plugin_sound (fs : FileSystem) (e : PluginKey * InstalledPlugin) : Prop := {
  so_key : e.1 = (mf_plugin_id (ip_manifest e.2), mf_version (ip_manifest e.2));
  so_manifest : manifest_validate (ip_manifest e.2) = Ok tt;
  so_platform : mf_platform (ip_manifest e.2) = platform ∧ mf_protocol_version (ip_manifest e.2) = WORKER_PROTOCOL_VERSION;
  so_entrypoint : ∃ directory canonical program, fs_canonicalize fs (ip_directory e.2) = Some directory ∧
    fs_canonicalize fs directory = Some canonical ∧
    fs_metadata fs (join directory (mf_entrypoint (ip_manifest e.2))) = Some Regular ∧
    fs_canonicalize fs (join directory (mf_entrypoint (ip_manifest e.2))) = Some program ∧ canonical `prefix_of` program;
  so_schema : ∃ b, decode_checked (ip_schema_bytes e.2) = Ok b ∧ bundle_hash b = Ok (ip_schema_hash e.2) ∧
    sb_plugin_id b = mf_plugin_id (ip_manifest e.2) ∧ sb_plugin_version b = version_text (mf_version (ip_manifest e.2)) ∧
    (ts_task_kind <$> sb_tasks b) = mf_task_types (ip_manifest e.2);
}.

Lemma canonical_plugin_file_Ok fs directory relative label p :
  canonical_plugin_file fs directory relative label = Ok p →
  ∃ canonical, fs_canonicalize fs directory = Some canonical ∧ fs_metadata fs (join directory relative) = Some Regular ∧
    fs_canonicalize fs (join directory relative) = Some p ∧ canonical `prefix_of` p.
Proof.
  unfold canonical_plugin_file. intros H. apply result_bind_Ok in H as (canonical & Hc & H). apply ok_or_Ok in Hc.
  apply result_bind_Ok in H as (kind & Hk & H). apply ok_or_Ok in Hk. destruct kind; try done.
  apply result_bind_Ok in H as (q & Hq & H). apply ok_or_Ok in Hq. case_bool_decide; [|done]. injection H as ->. eauto.
Qed.

Lemma load_plugin_sound fs d e : load_plugin platform fs d = Ok e → plugin_sound fs e ∧ ip_directory e.2 = d.
Proof.
  unfold load_plugin. intros H. apply result_bind_Ok in H as (bs & _ & H). apply result_bind_Ok in H as (m & _ & H).
  apply result_bind_Ok in H as ([] & Hm & H). apply map_err_Ok in Hm.
  apply result_bind_Ok in H as ([] & Hw & H). apply map_err_Ok in Hw.
  apply result_bind_Ok in H as (sp & _ & H). apply result_bind_Ok in H as (sbs & _ & H).
  apply result_bind_Ok in H as (schema & Hs & H). apply map_err_Ok in Hs.
  destruct (negb _) eqn:Hid in H; [done|]. apply negb_false_iff in Hid. rewrite !andb_true_iff, !bool_decide_eq_true in Hid.
  apply result_bind_Ok in H as (hash & Hh & H). apply map_err_Ok in Hh. injection H as <-. split; [|done].
  unfold validate_worker_manifest in Hw. destruct (bool_decide (_ = platform)) eqn:Hp in Hw; [|done].
  destruct (bool_decide (_ = WORKER_PROTOCOL_VERSION)) eqn:Hv in Hw; [|done]. apply bool_decide_eq_true in Hp, Hv. cbn in Hw. apply result_bind_Ok in Hw as (dir & Hd & Hw). apply ok_or_Ok in Hd.
  apply result_bind_Ok in Hw as (program & Hw & _). apply canonical_plugin_file_Ok in Hw as (c & ? & ? & ? & ?).
  constructor; cbn; [done|done|done|by exists dir, c, program|]. destruct Hid as [[? ?] ?]. by exists schema.
Qed.

Definition catalog_ok (fs : FileSystem) (l : list (PluginKey * InstalledPlugin)) : Prop :=
  (∀ e, e ∈ l → plugin_sound fs e) ∧ StronglySorted key_before l.*1.

Lemma add_plugin_ok fs e l l' :
  catalog_ok fs l → plugin_sound fs e → add_plugin e l = Ok l' → catalog_ok fs l' ∧ ∀ x, x ∈ l' ↔ x = e ∨ x ∈ l.
Proof.
  unfold add_plugin. intros [Hs Ho] He H. destruct (btree_get e.1 l) eqn:Hg; [done|]. injection H as <-.
  apply btree_get_None in Hg. assert (∀ x, x ∈ btree_insert e.1 e.2 l ↔ x = e ∨ x ∈ l) as Hin.
  { intros x. rewrite btree_insert_elem by done. by destruct e. }
  split; [split|done]; [|by apply btree_insert_sorted]. intros x [->|Hx]%Hin; auto.
Qed.

(** The directories the loops take for installed versions. *)
Definition version_dir (fs : FileSystem) (d : path) : Prop :=
  is_dir fs d = true ∧ is_file fs (join d "plugin.json") = true.

Lemma discover_versions_ok fs parent entries l l' :
  catalog_ok fs l → discover_versions platform fs parent entries l = Ok l' →
  catalog_ok fs l' ∧ ∀ e, e ∈ l' ↔ e ∈ l ∨ ∃ d, Some d ∈ entries ∧ version_dir fs d ∧ load_plugin platform fs d = Ok e.
Proof.
  revert l. induction entries as [|[d|] entries IH]; intros l Hok H; cbn in H; [|destruct (_ || _) eqn:Hd in H|done].
  - injection H as <-. split; [done|]. set_solver.
  - destruct (IH _ Hok H) as [Hok' Hin]. split; [done|]. intros e. rewrite Hin.
    assert (¬ version_dir fs d) as Hno.
    { intros [H1 H2]. by rewrite H1, H2 in Hd. }
    set_solver.
  - apply orb_false_iff in Hd as [Hd Hf]. apply negb_false_iff in Hd, Hf.
    apply result_bind_Ok in H as (p & Hp & H). apply result_bind_Ok in H as (l2 & Hadd & H).
    destruct (load_plugin_sound _ _ _ Hp) as [Hs _]. destruct (add_plugin_ok _ _ _ _ Hok Hs Hadd) as [Hok2 Hin2].
    destruct (IH _ Hok2 H) as [Hok' Hin]. split; [done|]. intros e. rewrite Hin, Hin2.
    assert (version_dir fs d) by done. split; [|intros [?|(d' & [[= ->]|Hd']%elem_of_cons & Hv & Hl)]]; [|by auto|left; left; congruence|by eauto].
    intros [[->|?]|(d' & ? & ? & ?)]; [right; exists d; set_solver|by auto|right; exists d'; set_solver].
Qed.

(** The version directories below the root. *)
Definition below (fs : FileSystem) (entries : list (option path)) (d : path) : Prop :=
  ∃ parent versions, Some parent ∈ entries ∧ is_dir fs parent = true ∧ fs_read_dir fs parent = Some versions ∧
    Some d ∈ versions ∧ version_dir fs d.

Lemma discover_plugins_ok fs root entries l l' :
  catalog_ok fs l → discover_plugins platform fs root entries l = Ok l' →
  catalog_ok fs l' ∧ ∀ e, e ∈ l' ↔ e ∈ l ∨ ∃ d, below fs entries d ∧ load_plugin platform fs d = Ok e.
Proof.
  unfold below. revert l. induction entries as [|[parent|] entries IH]; intros l Hok H; cbn in H; [|destruct (negb _) eqn:Hd in H|done].
  - injection H as <-. split; [done|]. set_solver.
  - destruct (IH _ Hok H) as [Hok' Hin]. split; [done|]. intros e. rewrite Hin. apply negb_true_iff in Hd.
    split; (intros [?|(d & (pa & vs & Hpa & Hdir & Hrest) & Hl)]; [by auto|right; exists d; split; [|done]; exists pa, vs]).
    + split_and!; [by right|done|by destruct Hrest as (? & ? & ?)..].
    + apply elem_of_cons in Hpa as [[= ->]|Hpa]; [congruence|]. by destruct Hrest as (? & ? & ?).
  - apply negb_false_iff in Hd. apply result_bind_Ok in H as (vs & Hvs & H). apply ok_or_Ok in Hvs.
    apply result_bind_Ok in H as (l2 & Hl2 & H). destruct (discover_versions_ok _ _ _ _ _ Hok Hl2) as [Hok2 Hin2].
    destruct (IH _ Hok2 H) as [Hok' Hin]. split; [done|]. intros e. rewrite Hin, Hin2. split.
    + intros [[?|(d & ? & ? & ?)]|(d & (pa & vs' & ? & ? & ? & ? & ?) & ?)]; [by auto|right; exists d..];
        (split; [|done]); [exists parent, vs|exists pa, vs']; split_and!; try done; [by left|by right].
    + intros [?|(d & (pa & vs' & [[= ->]|Hpa]%elem_of_cons & Hdir & Hrd & Hin' & Hv) & Hl)]; [by auto|..].
      * left. right. exists d. split_and!; [congruence|done|done].
      * right. exists d. split; [|done]. by exists pa, vs'.
Qed.

Lemma discover_ok fs root c :
  discover platform fs root = Ok c → catalog_ok fs (pc_plugins c) ∧ pc_root c = root ∧
    ∀ e, e ∈ pc_plugins c ↔ ∃ entries d, fs_metadata fs root ≠ None ∧ fs_read_dir fs root = Some entries ∧
      below fs entries d ∧ load_plugin platform fs d = Ok e.
Proof.
  unfold discover. assert (catalog_ok fs []) as Hnil by (split; [set_solver|constructor]).
  destruct (fs_metadata fs root) eqn:Hm; [|intros [= <-]; split_and!; [done|done|]; cbn; set_solver]. intros H.
  apply result_bind_Ok in H as (entries & He & H). apply ok_or_Ok in He. apply result_bind_Ok in H as (l & Hl & H). injection H as <-.
  destruct (discover_plugins_ok _ _ _ _ _ Hnil Hl) as [Hok Hin]. split_and!; [done|done|]. intros e. cbn. rewrite Hin. split.
  - intros [?|(d & Hb & Hlo)]; [set_solver|]. by exists entries, d.
  - intros (entries' & d & _ & E & Hb & Hlo). right. exists d. split; [congruence|done].
Qed.

End Sound.

(** ** What the Server checks *)

Lemma windows_any_sorted {A} (p : A → A → bool) (l : list A) : (∀ a b c, p a b = false → p b c = false → p a c = false) →
  windows_any p l = false ↔ StronglySorted (λ a b, p a b = false) l.
Proof.
  intros Htr. induction l as [|a [|b l] IH]; [by split; [constructor|]|by split; [repeat constructor|]|].
  cbn [windows_any]. rewrite orb_false_iff, IH. split.
  - intros [Hab Hs]. constructor; [done|]. inversion Hs as [|? ? _ Hf]; subst. constructor; [done|].
    eapply Forall_impl; [done|]. intros c Hc. by eapply Htr.
  - intros Hs. inversion Hs as [|? ? Hs' Hf]; subst. by inversion Hf.
Qed.

Lemma string_ge_trans a b c : string_ge a b = false → string_ge b c = false → string_ge a c = false.
Proof. rewrite !string_ge_false. apply string_lt_trans. Qed.

Lemma sorted_kinds l : windows_any string_ge l = false → merge_sort string_le l = l.
Proof.
  intros H. apply (windows_any_sorted _ _ string_ge_trans) in H.
  apply (StronglySorted_unique string_le); [apply StronglySorted_merge_sort; apply _| |apply merge_sort_Permutation].
  induction H as [|a l Hs IH Hf]; constructor; [done|]. eapply Forall_impl; [done|]. intros b Hb. cbn in Hb.
  apply string_ge_false in Hb. destruct (total string_le a b); [done|]. by destruct Hb.
Qed.

(** [plugin_ge] on two entries of a plugin compares the texts of the versions. *)
Definition entry_lt (a b : PluginInventoryEntry) : Prop :=
  string_lt (pie_plugin_id a) (pie_plugin_id b) ∨ (pie_plugin_id a = pie_plugin_id b ∧ string_lt (pie_version a) (pie_version b)).

Lemma plugin_ge_false a b : plugin_ge a b = false ↔ entry_lt a b.
Proof.
  unfold plugin_ge, entry_lt. case_bool_decide as E; rewrite string_ge_false; [|naive_solver].
  split; [by auto|]. intros [H|[_ H]]; [|done]. rewrite E in H. by apply string_lt_irrefl in H.
Qed.

Lemma plugin_ge_trans a b c : plugin_ge a b = false → plugin_ge b c = false → plugin_ge a c = false.
Proof.
  rewrite !plugin_ge_false. unfold entry_lt. intros [H1|[E1 H1]] [H2|[E2 H2]].
  - left. by eapply string_lt_trans.
  - left. by rewrite <-E2.
  - left. by rewrite E1.
  - right. split; [congruence|by eapply string_lt_trans].
Qed.

Lemma string_length_bytes s : length (text_bytes s) = String.length s.
Proof. unfold text_bytes. rewrite length_fmap. induction s as [|c s IH]; cbn; [done|]. by rewrite IH. Qed.

Lemma sized_text (n : nat) s : s ≠ ""%string → text_len s ≤ Z.of_nat n → sized n s = true.
Proof.
  unfold text_len, zlen, sized. rewrite string_length_bytes. intros Hne Hle. apply andb_true_iff. split; apply bool_decide_eq_true; [|lia].
  destruct s; cbn; [done|lia].
Qed.

Section Accepted.
Context `{FT : FloatText} `{SCC : SchemaCodec} `{H256 : Sha256} `{MJ : ManifestJson} (platform : PluginPlatform).

Lemma decoded_bundle_valid bs b : decode_checked bs = Ok b → sb_format_version b = SCHEMA_FORMAT_VERSION ∧
  sb_plugin_version b ≠ ""%string ∧ text_len (sb_plugin_version b) ≤ 64.
Proof.
  unfold decode_checked. case_bool_decide as Hbig; [done|]. intros H. apply result_bind_Ok in H as (b' & _ & H).
  apply result_bind_Ok in H as ([] & Hv & H). injection H as ->. unfold validate in Hv.
  apply result_bind_Ok in Hv as ([] & Hf & Hv). apply ensure_Ok, bool_decide_eq_true in Hf.
  apply result_bind_Ok in Hv as ([] & Hid & _). apply ensure_Ok in Hid. rewrite !andb_true_iff in Hid.
  destruct Hid as [[[_ Hne] Hlen] _]. apply bool_decide_eq_true in Hlen. split_and!; [done| |done].
  intros E. by rewrite E in Hne.
Qed.

Lemma manifest_validate_Ok m : manifest_validate m = Ok tt →
  is_safe_component (mf_plugin_id m) = true ∧ relative_file (mf_entrypoint m) = true ∧ relative_file (mf_schema_file m) = true ∧
  mf_task_types m ≠ [] ∧ existsb bad_task_type (mf_task_types m) = false ∧ windows_any string_ge (mf_task_types m) = false.
Proof.
  unfold manifest_validate. destruct (is_safe_component _); [|done]. cbn.
  destruct (_ || has_control_character _); [done|]. destruct (relative_file _); [|done]. cbn.
  case_bool_decide; [done|]. destruct (relative_file (mf_schema_file m)); [|done]. cbn.
  case_bool_decide; [done|]. destruct (existsb _ _); [done|]. by destruct (windows_any _ _).
Qed.

Lemma task_type_kind kind : bad_task_type kind = false → bad_kind kind = false.
Proof.
  unfold bad_task_type, bad_kind. rewrite !orb_false_iff, bool_decide_eq_false. intros [[Hne Hl] _]. apply negb_false_iff.
  apply sized_text; [by apply String.eqb_neq|]. unfold MAX_TASK_KIND_BYTES. lia.
Qed.

Lemma entry_sound fs e : (∀ bs, length (sha256 bs) = 32%nat) → plugin_sound platform fs e → bad_plugin (to_protocol e.2) = false.
Proof.
  intros Hlen Hs. destruct (so_schema _ _ _ Hs) as (b & Hd & Hh & _ & Hv & _).
  destruct (manifest_validate_Ok _ (so_manifest _ _ _ Hs)) as (Hid & _ & _ & Hne & Hk & Hw).
  destruct (decoded_bundle_valid _ _ Hd) as (_ & Hvne & Hvl). rewrite Hv in Hvne, Hvl.
  unfold bad_plugin, to_protocol. cbn. rewrite (sorted_kinds _ Hw), Hw. unfold is_safe_component in Hid.
  rewrite !andb_true_iff, negb_true_iff, bool_decide_eq_false, bool_decide_eq_true in Hid. destruct Hid as [[Hi1 Hi2] _].
  rewrite !sized_text by done. unfold bundle_hash in Hh. destruct (encode_checked b); [|done]. injection Hh as <-. cbn.
  rewrite Hlen. rewrite (bool_decide_eq_false_2 (mf_task_types _ = [])) by done. cbn. rewrite orb_false_r.
  apply not_true_iff_false. intros (kind & Hin & Hb)%existsb_exists. apply (not_true_iff_false (bad_kind kind)); [|done].
  apply task_type_kind. apply not_true_iff_false. intros Hbad. apply not_true_iff_false in Hk. apply Hk, existsb_exists. eauto.
Qed.

(** The order of the inventory is that of the numbers of the versions. *)
Lemma inventory_order fs l : catalog_ok platform fs l →
  StronglySorted (λ a b, plugin_ge a b = false) (to_protocol <$> l.*2) ↔
  ∀ p q, p ∈ l.*2 → q ∈ l.*2 → mf_plugin_id (ip_manifest p) = mf_plugin_id (ip_manifest q) →
    version_lt (mf_version (ip_manifest p)) (mf_version (ip_manifest q)) = true →
    string_lt (version_text (mf_version (ip_manifest p))) (version_text (mf_version (ip_manifest q))).
Proof.
  intros [Hs Ho]. induction l as [|e l IH]; [split; [set_solver|constructor]|]. cbn in Ho. inversion Ho as [|? ? Ho' Hf]; subst.
  assert (∀ x, x ∈ l → key_before e.1 x.1) as Hlt.
  { intros x Hx. rewrite Forall_forall in Hf. apply Hf, list_elem_of_fmap. eauto. }
  pose proof (Hs e (list_elem_of_here _ _)) as He. destruct IH as [IH1 IH2]; [intros x Hx; apply Hs; by right|done|].
  assert (∀ x, x ∈ l → key_before (mf_plugin_id (ip_manifest e.2), mf_version (ip_manifest e.2))
            (mf_plugin_id (ip_manifest x.2), mf_version (ip_manifest x.2))) as Hm.
  { intros x Hx. rewrite <-(so_key _ _ _ He). rewrite <-(so_key _ _ _ (Hs x (list_elem_of_further _ _ _ Hx))). auto. }
  split.
  - cbn. intros H. inversion H as [|? ? H' Hall]; subst. specialize (IH1 H'). intros p q Hp Hq Hid Hver.
    apply elem_of_cons in Hp as [->|Hp], Hq as [->|Hq].
    + rewrite version_lt_spec in Hver. lia.
    + rewrite Forall_forall in Hall. specialize (Hall (to_protocol q) (list_elem_of_fmap_2 _ _ _ Hq)).
      apply plugin_ge_false in Hall as [Hl|[_ Hl]]; [cbn in Hl; rewrite Hid in Hl; by apply string_lt_irrefl in Hl|done].
    + apply list_elem_of_fmap in Hp as (x & -> & Hx). specialize (Hm x Hx). unfold key_before in Hm. rewrite key_lt_spec in Hm.
      destruct Hm as [Hm|[_ Hm]]; cbn in Hm; [rewrite Hid in Hm; by apply string_lt_irrefl in Hm|].
      rewrite version_lt_spec in *. lia.
    + by apply IH1.
  - intros H. cbn. constructor; [apply IH2; intros p q Hp Hq; apply H; by right|].
    apply Forall_forall. intros y Hy. apply list_elem_of_fmap in Hy as (q & -> & Hq). apply plugin_ge_false. unfold entry_lt. cbn.
    pose proof Hq as Hq'. apply list_elem_of_fmap in Hq as (x & -> & Hx). specialize (Hm x Hx). unfold key_before in Hm.
    rewrite key_lt_spec in Hm. destruct Hm as [Hm|[E Hv]]; [by left|]. right. split; [done|]. apply H; [by left|by right|done|done].
Qed.

Lemma inventory_accepted_lemma fs root c :
  discover platform fs root = Ok c → (∀ bs, length (sha256 bs) = 32%nat) →
  validate_plugin_inventory (inventory c) = Ok tt ↔
    (length (catalog_plugins c) ≤ MAX_INSTALLED_PLUGINS)%nat ∧
    ∀ p q, p ∈ catalog_plugins c → q ∈ catalog_plugins c → mf_plugin_id (ip_manifest p) = mf_plugin_id (ip_manifest q) →
      version_lt (mf_version (ip_manifest p)) (mf_version (ip_manifest q)) = true →
      string_lt (version_text (mf_version (ip_manifest p))) (version_text (mf_version (ip_manifest q))).
Proof.
  intros Hd Hlen. destruct (discover_ok _ _ _ _ Hd) as (Hok & _ & _). unfold catalog_plugins. rewrite <-(inventory_order _ _ Hok).
  unfold validate_plugin_inventory, inventory, catalog_plugins. cbn [inv_revision inv_plugins]. rewrite length_fmap.
  rewrite (bool_decide_eq_false_2 (1 = 0)) by done. cbn [orb].
  assert (existsb bad_plugin (to_protocol <$> (pc_plugins c).*2) = false) as ->.
  { apply not_true_iff_false. intros (x & Hx & Hb)%existsb_exists. apply list_elem_of_In in Hx. rewrite <-list_fmap_compose in Hx.
    apply list_elem_of_fmap in Hx as (e & -> & He). cbn in Hb. rewrite (entry_sound fs e) in Hb; [done|done|]. by apply Hok. }
  rewrite <-(windows_any_sorted _ _ plugin_ge_trans). case_bool_decide; [split; [done|lia]|].
  destruct (windows_any _ _); [split; [done|by intros [_ ?]]|]. split; [intros _; split; [lia|done]|done].
Qed.

End Accepted.

(** ** Theorems *)

(** The discovery is exact: when it succeeds, the catalog holds one entry for each
    directory with a manifest two levels below the root, and nothing else; no plugin
    version is there twice, [get] finds every one of them, and of each the manifest is
    valid and for this platform, the program is a regular file inside the version
    directory also after symbolic links are followed, and the schema is the one the
    hash stands for and describes this plugin version and its tasks. *)
Theorem discovered_plugins_exact `{FT : FloatText} `{SCC : SchemaCodec} `{H256 : Sha256} `{MJ : ManifestJson} platform fs root c :
  discover platform fs root = Ok c →
  (∀ p, p ∈ catalog_plugins c ↔ ∃ entries d k, fs_metadata fs root ≠ None ∧ fs_read_dir fs root = Some entries ∧
     below fs entries d ∧ load_plugin platform fs d = Ok (k, p)) ∧
  (∀ p, p ∈ catalog_plugins c → plugin_sound platform fs ((mf_plugin_id (ip_manifest p), mf_version (ip_manifest p)), p)) ∧
  ∀ id v p, catalog_get c id v = Some p ↔
    p ∈ catalog_plugins c ∧ mf_plugin_id (ip_manifest p) = id ∧ mf_version (ip_manifest p) = v.
Proof.
  intros H. destruct (discover_ok _ _ _ _ H) as ([Hs Ho] & _ & Hin). unfold catalog_plugins.
  assert (∀ p, p ∈ (pc_plugins c).*2 ↔ ((mf_plugin_id (ip_manifest p), mf_version (ip_manifest p)), p) ∈ pc_plugins c) as Hp.
  { intros p. rewrite list_elem_of_fmap. split; [|intros Hx; by eexists (_, p)]. intros ([k q] & -> & He).
    pose proof (so_key _ _ _ (Hs _ He)) as E. cbn in E. cbn. by rewrite <-E. }
  split_and!.
  - intros p. rewrite list_elem_of_fmap. setoid_rewrite Hin. split.
    + intros ([k q] & -> & entries & d & ?). by exists entries, d, k.
    + intros (entries & d & k & ?). exists (k, p). split; [done|]. by exists entries, d.
  - intros p ?%Hp. auto.
  - intros id v p. unfold catalog_get. rewrite btree_get_elem by by apply sorted_keys_NoDup. rewrite Hp. split.
    + intros He. pose proof (so_key _ _ _ (Hs _ He)) as E. cbn in E. injection E as -> ->. done.
    + by intros (? & <- & <-).
Qed.

(** C22. An Agent can always answer the Server about its own inventory: for every schema
    hash the inventory declares the catalog has the payload, and the Server finds in it
    the hash it asked for and the plugin version and tasks the inventory names. If the
    schema was made from the output of [protoc] (no message is described twice) and the
    Server has no row of that hash or that plugin version, the payload is then stored: the
    answer is the hash, and the table has a new row under it, which restores to a bundle of
    this plugin version and these tasks. (If it has one, the upload is refused:
    [second_upload_refused].) *)
Theorem agent_schema_answer_stored `{FT : FloatText} `{SCC : SchemaCodec} `{SCL : !SchemaCodecLaws SCC} `{H256 : Sha256}
    `{MJ : ManifestJson} platform fs root c h t cache now :
  discover platform fs root = Ok c → (∀ bs, length (sha256 bs) = 32%nat) →
  h ∈ pie_schema_hash <$> inv_plugins (inventory c) →
  ∃ payload b, catalog_schema_bytes c h = Some payload ∧ check_response (inventory c) h payload = Ok (b, h) ∧
    (wf_upload payload →
     (∀ h' row, t !! h' = Some row → h' ≠ h ∧ ¬ (sw_plugin_id row = sb_plugin_id b ∧ sw_plugin_version row = sb_plugin_version b)) →
     ∃ row n, store_response now (inventory c) h payload t cache = (Ok h, <[h := row]> t, cache_if_room h b cache) ∧
       row_bundle (<[h := row]> t) h n ∧ same_identity b n).
Proof.
  intros Hd Hlen Hh. destruct (discover_ok _ _ _ _ Hd) as ([Hs _] & _ & _).
  assert (∃ p, List.find (λ p, bool_decide (ip_schema_hash p = h)) (catalog_plugins c) = Some p) as [p Hp].
  { destruct (List.find _ _) eqn:Hf; [by eauto|]. unfold inventory in Hh. cbn in Hh. rewrite <-list_fmap_compose in Hh.
    apply list_elem_of_fmap in Hh as (p & -> & Hp). apply list_elem_of_In in Hp. pose proof (List.find_none _ _ Hf p Hp) as E.
    cbn in E. by rewrite bool_decide_eq_true_2 in E. }
  pose proof (List.find_some _ _ Hp) as [Hin E]. apply bool_decide_eq_true in E. apply list_elem_of_In in Hin.
  unfold catalog_plugins in Hin. apply list_elem_of_fmap in Hin as (e & -> & He). specialize (Hs e He).
  destruct (so_schema _ _ _ Hs) as (b & Hdec & Hhash & Hid & Hver & Hkinds). rewrite E in Hhash.
  destruct (manifest_validate_Ok _ (so_manifest _ _ _ Hs)) as (_ & _ & _ & _ & _ & Hw).
  assert (length h = 32%nat) as Hl.
  { unfold bundle_hash in Hhash. destruct (encode_checked b); [|done]. by injection Hhash as <-. }
  assert (check_response (inventory c) h (ip_schema_bytes e.2) = Ok (b, h)) as Hcheck.
  { unfold check_response, schema_hash. rewrite bool_decide_eq_true_2 by done. cbn [mbind result_bind]. rewrite Hdec. cbn [map_err mbind result_bind].
    rewrite Hhash. cbn [map_err mbind result_bind]. rewrite bool_decide_eq_false_2 by auto. cbn [mbind result_bind].
    assert (List.find (λ plugin, bool_decide (pie_schema_hash plugin = h)) (inv_plugins (inventory c)) = Some (to_protocol e.2)) as ->.
    { unfold inventory. cbn [inv_plugins]. clear -Hp. induction (catalog_plugins c) as [|q l IH]; cbn in *; [done|].
      case_bool_decide; [by injection Hp as ->|by apply IH]. }
    cbn [ok_or mbind result_bind]. unfold validate_identity, identity_matches, to_protocol. cbn.
    destruct (decoded_bundle_valid _ _ Hdec) as (Hfmt & _). rewrite (sorted_kinds _ Hw), Hid, Hver, Hfmt, Hkinds.
    by rewrite !bool_decide_eq_true_2. }
  exists (ip_schema_bytes e.2), b. split_and!; [unfold catalog_schema_bytes; by rewrite Hp|done|]. intros Hwf Hfree.
  unfold store_response. rewrite Hcheck.
  destruct (insert_schema_cases now b h t Hhash Hl (λ files, upload_unique _ b files Hwf Hdec))
    as [[_ (h' & row & Hrow & Hocc)]|(row & n & -> & _ & Hrow & Hid' & _)]; [destruct (Hfree _ _ Hrow); by destruct Hocc|].
  by exists row, n.
Qed.

(** When the Server accepts the inventory: exactly when there are not too many plugins
    and, of two versions of a plugin, the text of the smaller one is the smaller text.
    Every other condition holds for whatever is installed. *)
Theorem inventory_accepted_iff `{FT : FloatText} `{SCC : SchemaCodec} `{H256 : Sha256} `{MJ : ManifestJson} platform fs root c :
  discover platform fs root = Ok c → (∀ bs, length (sha256 bs) = 32%nat) →
  validate_plugin_inventory (inventory c) = Ok tt ↔
    (length (catalog_plugins c) ≤ MAX_INSTALLED_PLUGINS)%nat ∧
    ∀ p q, p ∈ catalog_plugins c → q ∈ catalog_plugins c → mf_plugin_id (ip_manifest p) = mf_plugin_id (ip_manifest q) →
      version_lt (mf_version (ip_manifest p)) (mf_version (ip_manifest q)) = true →
      string_lt (version_text (mf_version (ip_manifest p))) (version_text (mf_version (ip_manifest q))).
Proof. apply inventory_accepted_lemma. Qed.

(** Defect: the Agent orders the versions of a plugin by their numbers, the Server asks
    for the order of their texts. While versions such as 9.0.0 and 10.0.0 of a plugin are
    installed together, the Server refuses every inventory of the Agent and keeps what it
    knew of the Agent's plugins: nothing, in a new session, so that it sends neither a
    runtime nor a job. *)
Theorem installed_versions_lock_out `{D : DefinitionCodec} `{W : WebCodecs} `{E : CatalogEncoding} `{RE : RuntimeEncoding} `{B2 : Blake2s}
    `{FT : FloatText} `{SCC : SchemaCodec} `{H256 : Sha256} `{MJ : ManifestJson} platform fs root c p q db_error_text agent_id ans w :
  discover platform fs root = Ok c → (∀ bs, length (sha256 bs) = 32%nat) →
  p ∈ catalog_plugins c → q ∈ catalog_plugins c → mf_plugin_id (ip_manifest p) = mf_plugin_id (ip_manifest q) →
  version_lt (mf_version (ip_manifest p)) (mf_version (ip_manifest q)) = true →
  ¬ string_lt (version_text (mf_version (ip_manifest p))) (version_text (mf_version (ip_manifest q))) →
  ∃ reason, on_inventory db_error_text agent_id ans (inventory c) w = send_message ans (MsgInvalid reason) w.
Proof.
  intros Hd Hlen Hp Hq Hid Hv Hlt. unfold on_inventory. destruct (validate_plugin_inventory (inventory c)) as [[]|reason] eqn:Hval.
  - destruct Hlt. apply (inventory_accepted_lemma platform fs root c Hd Hlen); done.
  - by exists reason.
Qed.

(** ** A plugin directory *)

Definition demo_version (x : Z) : PluginVersion := mkPluginVersion x 0 0.
Definition demo_schema (x : Z) : PluginSchemaBundle :=
  let b := demo_bundle demo_files in
  mkBundle (sb_format_version b) (sb_plugin_id b) (version_text (demo_version x)) (sb_descriptor_set b) (sb_tasks b) (sb_runtime b).
Definition demo_payload_of (x : Z) : bytes :=
  match encode_checked (FT := demo_floats) (SCC := code_codec) (demo_schema x) with Ok bs => bs | Err _ => [] end.
(** A manifest is written as the major number of its version. *)
Definition demo_manifests : ManifestJson := λ bs,
  match bs with
  | [x] => Some (mkManifest "smalux.plus.echo" "Echo" (demo_version x) Linux "bin/worker" 2 "schema.pb" ["smalux.plus.echo.v1"%string])
  | _ => None
  end.
Definition demo_dir (x : Z) : path := ["plus"; "echo"; pretty x]%string.
Definition demo_fs (versions : list Z) : FileSystem :=
  let file (p : path) (x : Z) : option bytes :=
    if bool_decide (p = join (demo_dir x) "plugin.json") then Some [x]
    else if bool_decide (p = join (demo_dir x) "schema.pb") then Some (demo_payload_of x)
    else if bool_decide (p = join (demo_dir x) "bin/worker") then Some [] else None in
  let find (p : path) := foldr (λ x r, match file p x with Some bs => Some bs | None => r end) None versions in
  {| fs_metadata p :=
       if bool_decide (p ∈ [["plus"]; ["plus"; "echo"]]%string) || existsb (λ x, bool_decide (p = demo_dir x)) versions
       then Some Directory else match find p with Some _ => Some Regular | None => None end;
     fs_read_dir p :=
       if bool_decide (p = ["plus"]%string) then Some [Some ["plus"; "echo"]%string]
       else if bool_decide (p = ["plus"; "echo"]%string) then Some (Some ∘ demo_dir <$> versions) else None;
     fs_read := find;
     fs_canonicalize := Some |}.
Definition demo_discover (versions : list Z) :=
  discover (FT := demo_floats) (SCC := code_codec) (H256 := demo_digest) (MJ := demo_manifests) Linux (demo_fs versions) ["plus"%string].
Definition demo_catalog (versions : list Z) : PluginCatalog :=
  match demo_discover versions with Ok c => c | Err _ => mkPluginCatalog [] [] end.

Lemma demo_discovered : demo_discover [9; 10] = Ok (demo_catalog [9; 10]).
Proof. vm_compute. reflexivity. Qed.

Lemma demo_digest_length bs : length (demo_digest bs) = 32%nat.
Proof. unfold demo_digest. rewrite length_take, length_app, length_replicate. lia. Qed.

Definition demo_plugin (x : Z) : InstalledPlugin :=
  mkInstalled (demo_dir x)
    (mkManifest "smalux.plus.echo" "Echo" (demo_version x) Linux "bin/worker" 2 "schema.pb" ["smalux.plus.echo.v1"%string])
    (demo_payload_of x) (demo_digest (demo_payload_of x)).
Lemma demo_catalog_plugins : catalog_plugins (demo_catalog [9; 10]) = [demo_plugin 9; demo_plugin 10].
Proof. vm_compute. reflexivity. Qed.

Lemma demo_catalog_payload :
  catalog_schema_bytes (demo_catalog [9; 10]) (ip_schema_hash (demo_plugin 9)) = Some (demo_payload_of 9).
Proof. vm_compute. reflexivity. Qed.

Lemma discovered_plugins_exact_witness :
  catalog_get (demo_catalog [9; 10]) "smalux.plus.echo" (demo_version 10) = Some (demo_plugin 10).
Proof.
  apply (discovered_plugins_exact Linux (demo_fs [9; 10]) ["plus"%string] (demo_catalog [9; 10]) demo_discovered).
  split; [|split; reflexivity]. rewrite demo_catalog_plugins. right. left.
Defined.

Lemma agent_schema_answer_stored_witness :
  (store_response (FT := demo_floats) (SCC := code_codec) (H256 := demo_digest) 5 (inventory (demo_catalog [9; 10]))
     (ip_schema_hash (demo_plugin 9)) (demo_payload_of 9) ∅ ∅).1.1 = Ok (ip_schema_hash (demo_plugin 9)).
Proof.
  destruct (agent_schema_answer_stored (SCL := code_codec_laws) Linux (demo_fs [9; 10]) ["plus"%string] (demo_catalog [9; 10])
    (ip_schema_hash (demo_plugin 9)) ∅ ∅ 5 demo_discovered demo_digest_length) as (payload & b & Hp & _ & Hst).
  { unfold inventory. rewrite demo_catalog_plugins. left. }
  rewrite demo_catalog_payload in Hp. apply (inj Some) in Hp. rewrite <-Hp in Hst.
  destruct Hst as (row & n & Hst & _); [apply wf_upload_decide; vm_compute; reflexivity| |by rewrite Hst].
  intros h row Hr. cbn in Hr. rewrite lookup_empty in Hr. discriminate Hr.
Defined.

Lemma inventory_accepted_iff_witness : validate_plugin_inventory (inventory (demo_catalog [9; 10])) ≠ Ok tt.
Proof.
  intros H. apply (inventory_accepted_iff Linux (demo_fs [9; 10]) ["plus"%string] (demo_catalog [9; 10]) demo_discovered demo_digest_length) in H.
  destruct H as [_ H]. rewrite demo_catalog_plugins in H.
  apply (H (demo_plugin 9) (demo_plugin 10)); [left|right; left|reflexivity|reflexivity|].
  apply (bool_decide_eq_true_1 (string_le _ _)). vm_compute. reflexivity.
Defined.

Lemma installed_versions_lock_out_witness :
  ∃ reason, on_inventory (W := demo_web_codecs) (E := demo_catalog_encoding) demo_db_error "agent-a" (demo_answers 1) (inventory (demo_catalog [9; 10])) demo_session_world =
    send_message (demo_answers 1) (MsgInvalid reason) demo_session_world.
Proof.
  apply (installed_versions_lock_out Linux (demo_fs [9; 10]) ["plus"%string] (demo_catalog [9; 10]) (demo_plugin 9) (demo_plugin 10)
    demo_db_error "agent-a" (demo_answers 1) demo_session_world demo_discovered demo_digest_length).
  - rewrite demo_catalog_plugins. left.
  - rewrite demo_catalog_plugins. right. left.
  - reflexivity.
  - reflexivity.
  - intros H. apply H. apply (bool_decide_eq_true_1 (string_le _ _)). vm_compute. reflexivity.
Defined.
