(* ===== verification/WorkerProtocol.v ===== *)
(** * The protocol between an Agent and a plugin worker

    [crates/smalux-plus/smalux-plus-core/src/protocol.rs], [task.rs] and the beginning of
    [worker.rs] (the worker up to [Ready]), and the start of a worker in
    [crates/smalux-agent/src/plugins/worker.rs].  A frame is what [read_frame] of
    [WorkerFrames.v] returns; the tasks of a plugin are the functions the plugin
    registers, so their answers are arguments.  The Agent and a worker are programs of their
    own: each has the [WORKER_PROTOCOL_VERSION] it was built with, the argument [version]. *)

From stdpp Require Import base gmap strings list sorting.
From S2P Require Import Prelude Rotation Policy WorkerFrames PluginCatalog.

(** ** Messages *)

Record Hello : Type := mkHello { hl_protocol_version : Z; hl_expected_plugin_id : string }.

(** [AgentContextMessage] and [AgentContext] have the same fields. *)
Record AgentContext : Type := mkAgentContext {
  ax_agent_version : string;
  ax_operating_system : string;
  ax_architecture : string;
  ax_agent_id : option string;
  ax_data_dir : string;
  ax_config_dir : string;
  ax_plugin_dir : string;
  ax_plugin_data_dir : string;
}.
Definition default_agent_context : AgentContext := mkAgentContext "" "" "" None "" "" "" "".

Record InitializeWorker : Type := mkInitialize {
  iw_protocol_version : Z;
  iw_plugin_id : string;
  iw_config_revision : Z;
  iw_runtime_config_version : Z;
  iw_runtime_config : bytes;
  iw_max_concurrency : Z;
  iw_agent_context : option AgentContext;
}.
Record ExecuteTask : Type := mkExecute {
  xt_request_id : string;
  xt_run_id : bytes;
  xt_task_kind : string;
  xt_schema_version : Z;
  xt_config : bytes;
  xt_deadline_unix_millis : Z;
}.
Record CancelTask : Type := mkCancel { cx_request_id : string; cx_reason : string }.
Record WorkerReady : Type := mkReady {
  rdy_protocol_version : Z;
  rdy_plugin_id : string;
  rdy_config_revision : Z;
  rdy_task_kinds : list string;
  rdy_effective_max_concurrency : Z;
}.
(** [Metric]: the name and the bits of the [double]. *)
Definition Metric : Type := string * Z.
Record WorkerResult : Type := mkWorkerResult {
  wt_request_id : string;
  wt_run_id : bytes;
  wt_status : Z;
  wt_summary : string;
  wt_metrics : list Metric;
  wt_payload : bytes;
  wt_error : option string;
}.
Record ErrorResponse : Type := mkErrorResponse { er_request_id : string; er_code : string; er_message : string }.

(** [TaskStatus] and its numbers. *)
Inductive TaskStatus : Type := StUnspecified | StSucceeded | StFailed | StCancelled | StInvalidConfig.
Definition status_number (s : TaskStatus) : Z :=
  match s with StUnspecified => 0 | StSucceeded => 1 | StFailed => 2 | StCancelled => 3 | StInvalidConfig => 4 end.
Definition task_status (n : Z) : option TaskStatus :=
  match n with
  | 0 => Some StUnspecified | 1 => Some StSucceeded | 2 => Some StFailed | 3 => Some StCancelled | 4 => Some StInvalidConfig
  | _ => None
  end.

(** [worker_request::Body], [worker_response::Body] and [WorkerFrame]; every [oneof] may be
    absent. *)
Inductive RequestBody : Type :=
| RHello (h : Hello)
| RInitialize (i : InitializeWorker)
| RExecute (e : ExecuteTask)
| RCancel (c : CancelTask)
| RShutdown (reason : string).
Inductive ResponseBody : Type :=
| SReady (r : WorkerReady)
| SResult (r : WorkerResult)
| SError (e : ErrorResponse)
| SStopped (reason : string).
Inductive FrameBody : Type := FRequest (body : option RequestBody) | FResponse (body : option ResponseBody).
Definition Frame : Type := option FrameBody.
Definition request (b : RequestBody) : Frame := Some (FRequest (Some b)).
Definition response (b : ResponseBody) : Frame := Some (FResponse (Some b)).

(** [PlusTaskError] and [PlusTaskOutput]. *)
Inductive PlusTaskError : Type :=
| PInvalidConfig (message : string)
| PTimeout
| PCancelled (message : string)
| PFailed (message : string).
Definition task_error_text (e : PlusTaskError) : string :=
  match e with
  | PInvalidConfig m => ("invalid task configuration: " +:+ m)%string
  | PTimeout => "task timed out"%string
  | PCancelled m => ("task was cancelled: " +:+ m)%string
  | PFailed m => ("task failed: " +:+ m)%string
  end.
Record PlusTaskOutput : Type := mkOutput { po_summary : string; po_metrics : list Metric; po_payload : bytes }.

(** ** The worker up to [Ready] *)

(** [PlusWorker] and its builder; [register] of a kind that is there replaces the task. *)
Record PlusWorker : Type := mkPlusWorker {
  pw_plugin_id : string;
  pw_tasks : gset string;
  pw_max_concurrency : Z;
}.
Definition builder (plugin_id : string) : PlusWorker := mkPlusWorker plugin_id ∅ 1.
Definition set_max_concurrency (value : Z) (w : PlusWorker) : PlusWorker :=
  mkPlusWorker (pw_plugin_id w) (pw_tasks w) (Z.max value 1).
Definition register (kind : string) (w : PlusWorker) : PlusWorker :=
  mkPlusWorker (pw_plugin_id w) ({[kind]} ∪ pw_tasks w) (pw_max_concurrency w).

Definition sorted_task_kinds (tasks : gset string) : list string := merge_sort string_le (elements tasks).

Definition ready_frame (version : Z) (plugin_id : string) (task_kinds : list string) (config_revision effective : Z) : Frame :=
  response (SReady (mkReady version plugin_id config_revision task_kinds (Z.min effective u32_max))).
Definition error_frame (request_id code message : string) : Frame := response (SError (mkErrorResponse request_id code message)).

(** [run_stream] up to the answer to [Hello]. *)
Definition worker_hello (version : Z) (w : PlusWorker) (first : result PluginError (option Frame)) : result PluginError Frame :=
  if bool_decide (pw_plugin_id w = ""%string) || bool_decide (pw_tasks w = ∅)
  then Err (ExecutionFailed "Worker plugin_id and at least one Task are required")
  else
    frame ← first;
    frame ← ok_or (ExecutionFailed "Worker input closed before Hello") frame;
    match frame with
    | Some (FRequest (Some (RHello hello))) =>
        if negb (bool_decide (hl_protocol_version hello = version))
           || negb (bool_decide (hl_expected_plugin_id hello = pw_plugin_id w))
        then Err (IdentityMismatch (pw_plugin_id w) (hl_expected_plugin_id hello))
        else Ok (ready_frame version (pw_plugin_id w) (sorted_task_kinds (pw_tasks w)) 0 (pw_max_concurrency w))
    | _ => Err (ExecutionFailed "Worker must receive Hello as its first message")
    end.

(** What the worker serves with. *)
Record WorkerSetup : Type := mkSetup {
  su_task_kinds : list string;
  su_context : AgentContext;
  su_effective : Z;
}.

(** The checks of [Initialize]. *)
Definition check_initialize (version : Z) (w : PlusWorker) (second : result PluginError (option Frame)) : result PluginError InitializeWorker :=
  frame ← second;
  frame ← ok_or (ExecutionFailed "Worker input closed before Initialize") frame;
  match frame with
  | Some (FRequest (Some (RInitialize i))) =>
      if negb (bool_decide (iw_plugin_id i = pw_plugin_id w)) then Err (IdentityMismatch (pw_plugin_id w) (iw_plugin_id i))
      else if negb (bool_decide (iw_protocol_version i = version))
      then Err (ExecutionFailed "unsupported Worker protocol version")
      else if bool_decide (iw_runtime_config_version i = 0)
      then Err (ExecutionFailed "Agent must initialize Worker with non-zero runtime_config_version")
      else if bool_decide (iw_max_concurrency i = 0)
      then Err (ExecutionFailed "Agent must initialize Worker with non-zero max_concurrency")
      else Ok i
  | _ => Err (ExecutionFailed "Worker must receive Initialize after Hello")
  end.

(** The loop that initializes the tasks; a task that refuses, and those before it in reverse
    order, are shut down.  The last component lists these calls. *)
Fixpoint init_tasks (initialize : string → AgentContext → bytes → Z → result PlusTaskError unit) (context : AgentContext)
    (config : bytes) (version : Z) (initialized kinds : list string) : result (string * PlusTaskError) unit * list string :=
  match kinds with
  | [] => (Ok tt, [])
  | kind :: kinds =>
      match initialize kind context config version with
      | Ok _ => init_tasks initialize context config version (initialized ++ [kind]) kinds
      | Err e => (Err (kind, e), reverse (initialized ++ [kind]))
      end
  end.

(** [run_stream] from [Initialize] to the second answer: how it ends, the frame it sends, and
    the tasks it shuts down. *)
Definition worker_initialize (version : Z) (initialize : string → AgentContext → bytes → Z → result PlusTaskError unit) (w : PlusWorker)
    (second : result PluginError (option Frame)) : result PluginError WorkerSetup * option Frame * list string :=
  match check_initialize version w second with
  | Err e => (Err e, None, [])
  | Ok i =>
      let context := default default_agent_context (iw_agent_context i) in
      let effective := Z.min (pw_max_concurrency w) (iw_max_concurrency i) in
      let kinds := sorted_task_kinds (pw_tasks w) in
      match init_tasks initialize context (iw_runtime_config i) (iw_runtime_config_version i) [] kinds with
      | (Err (kind, error), shut_down) =>
          let message := ("task " +:+ kind +:+ " rejected Worker runtime configuration: " +:+ task_error_text error)%string in
          (Err (ExecutionFailed message), Some (error_frame "" "initialization_failed" message), shut_down)
      | (Ok _, _) =>
          (Ok (mkSetup kinds context effective), Some (ready_frame version (pw_plugin_id w) kinds (iw_config_revision i) effective), [])
      end
  end.

(** ** The Agent starts a worker *)

Inductive PluginWorkerError : Type :=
| WStart
| WProtocol (e : PluginError)
| WInvalidHandshake (plugin_id : string)
| WCancelled
| WInvalidTaskConfig (message : string)
| WClosed
| WTaskFailed (message : string)
| WInitializationFailed (message : string)
| WTimeout (phase : string).
Definition worker_error_text (e : PluginWorkerError) : string :=
  match e with
  | WStart => "failed to start Plus Worker"
  | WProtocol e => "Plus Worker protocol failure: " +:+ plugin_error_text e
  | WInvalidHandshake id => "Plus Worker " +:+ id +:+ " returned an invalid handshake response"
  | WCancelled => "Plus Worker request was cancelled"
  | WInvalidTaskConfig m => "Plus Worker rejected task configuration: " +:+ m
  | WClosed => "Plus Worker request channel closed"
  | WTaskFailed m => "Plus Worker task failed: " +:+ m
  | WInitializationFailed m => "Plus Worker rejected runtime initialization: " +:+ m
  | WTimeout phase => "Plus Worker timed out during " +:+ phase
  end%string.

Record WorkerStartOptions : Type := mkStartOptions {
  wo_config_revision : Z;
  wo_runtime_config : bytes;
  wo_runtime_config_version : Z;
  wo_max_concurrency : Z;
  wo_agent_context : AgentContext;
}.

(** What the calls that leave the Agent answer: [None] for a [timeout]. *)
Record StartAnswers : Type := mkStartAnswers {
  sa_spawn : bool;
  sa_stdin : bool;
  sa_stdout : bool;
  sa_hello_write : option (result PluginError unit);
  sa_hello_read : option (result PluginError (option Frame));
  sa_initialize_write : option (result PluginError unit);
  sa_initialize_read : option (result PluginError (option Frame));
}.

(** [timeout(limit, future).await.map_err(..)??]. *)
Definition timed {A} (phase : string) (r : option (result PluginError A)) : result PluginWorkerError A :=
  match r with None => Err (WTimeout phase) | Some r => map_err WProtocol r end.

(** [read_ready]. *)
Definition read_ready (version : Z) (frame : option Frame) (expected_plugin_id : string) (expected_task_kinds : list string) :
    result PluginWorkerError WorkerReady :=
  frame ← ok_or WClosed frame;
  match frame with
  | Some (FResponse body) =>
      ready ← match body with
              | Some (SReady ready) => Ok ready
              | Some (SError error) =>
                  if bool_decide (er_code error = "initialization_failed"%string) then Err (WInitializationFailed (er_message error))
                  else Err (WTaskFailed (er_message error))
              | _ => Err (WInvalidHandshake expected_plugin_id)
              end;
      if negb (bool_decide (rdy_protocol_version ready = version))
         || negb (bool_decide (rdy_plugin_id ready = expected_plugin_id))
      then Err (WInvalidHandshake expected_plugin_id)
      else if negb (bool_decide (rdy_task_kinds ready = expected_task_kinds)) then Err (WInvalidHandshake expected_plugin_id)
      else Ok ready
  | _ => Err (WInvalidHandshake expected_plugin_id)
  end.

Definition hello_request (version : Z) (m : PluginManifest) : Frame := request (RHello (mkHello version (mf_plugin_id m))).
Definition initialize_request (version : Z) (m : PluginManifest) (o : WorkerStartOptions) : Frame :=
  request (RInitialize (mkInitialize version (mf_plugin_id m) (wo_config_revision o) (wo_runtime_config_version o)
    (wo_runtime_config o) (wo_max_concurrency o) (Some (wo_agent_context o)))).

(** The [handshake] block. *)
Definition handshake (version : Z) (m : PluginManifest) (o : WorkerStartOptions) (a : StartAnswers) : result PluginWorkerError (list string * Z) :=
  _ ← timed "Hello write" (sa_hello_write a);
  first ← timed "Hello" (sa_hello_read a);
  first_ready ← read_ready version first (mf_plugin_id m) (mf_task_types m);
  _ ← timed "Initialize write" (sa_initialize_write a);
  second ← timed "Initialize" (sa_initialize_read a);
  ready ← read_ready version second (mf_plugin_id m) (mf_task_types m);
  if negb (bool_decide (rdy_config_revision ready = wo_config_revision o))
     || negb (bool_decide (rdy_task_kinds ready = rdy_task_kinds first_ready))
  then Err (WInvalidHandshake (mf_plugin_id m))
  else if bool_decide (rdy_effective_max_concurrency ready = 0)
          || bool_decide (wo_max_concurrency o < rdy_effective_max_concurrency ready)
  then Err (WInvalidHandshake (mf_plugin_id m))
  else Ok (rdy_task_kinds ready, rdy_effective_max_concurrency ready).

(** [spawn_and_initialize]: the client, or the error; [true] if a child process was started
    and then terminated. *)
Record PluginWorkerClient : Type := mkClient { wc_task_kinds : list string; wc_effective_concurrency : Z }.
Definition spawn_and_initialize (version : Z) (m : PluginManifest) (o : WorkerStartOptions) (a : StartAnswers) :
    result PluginWorkerError PluginWorkerClient * bool :=
  if negb (sa_spawn a) then (Err WStart, false)
  else if negb (sa_stdin a) || negb (sa_stdout a) then (Err WClosed, true)
  else match handshake version m o a with
       | Ok (kinds, effective) => (Ok (mkClient kinds effective), false)
       | Err e => (Err e, true)
       end.

(** ** Both sides together *)

Section Exchange.
Context (initialize : string → AgentContext → bytes → Z → result PlusTaskError unit).

(** The answers the Agent gets when the child process is worker [w] and the pipes are
    intact: a worker that returns closes its output.  [agent] and [worker] are the protocol
    versions of the two sides. *)
Definition exchange (agent worker : Z) (w : PlusWorker) (m : PluginManifest) (o : WorkerStartOptions) : StartAnswers :=
  let first := to_option (worker_hello worker w (Ok (Some (hello_request agent m)))) in
  let second := (worker_initialize worker initialize w (Ok (Some (initialize_request agent m o)))).1.2 in
  mkStartAnswers true true true (Some (Ok tt)) (Some (Ok first)) (Some (Ok tt)) (Some (Ok second)).

Lemma init_tasks_Ok context config version initialized kinds :
  (init_tasks initialize context config version initialized kinds).1 = Ok tt ↔
  ∀ kind, kind ∈ kinds → initialize kind context config version = Ok tt.
Proof.
  revert initialized. induction kinds as [|kind kinds IH]; intros initialized; cbn; [set_solver|].
  destruct (initialize kind context config version) as [[]|e] eqn:E; [rewrite IH|cbn]; split.
  - intros H k [->|Hk]%elem_of_cons; auto.
  - intros H k Hk. apply H. by right.
  - done.
  - intros H. specialize (H kind (list_elem_of_here _ _)). congruence.
Qed.

Lemma init_tasks_Err context config version initialized kinds kind e shut_down :
  init_tasks initialize context config version initialized kinds = (Err (kind, e), shut_down) →
  ∃ before after, kinds = before ++ kind :: after ∧ shut_down = reverse (initialized ++ before ++ [kind]) ∧
    initialize kind context config version = Err e ∧ ∀ k, k ∈ before → initialize k context config version = Ok tt.
Proof.
  revert initialized. induction kinds as [|k kinds IH]; intros initialized H; cbn in H; [done|].
  destruct (initialize k context config version) as [[]|e'] eqn:E.
  - destruct (IH _ H) as (before & after & -> & -> & He & Hb). exists (k :: before), after. split_and!; [done| |done|].
    + by rewrite <-app_assoc.
    + intros k' [->|?]%elem_of_cons; auto.
  - injection H as <- <- <-. exists [], kinds. split_and!; [done|done|done|set_solver].
Qed.

Lemma elem_sorted_kinds tasks kind : kind ∈ sorted_task_kinds tasks ↔ kind ∈ tasks.
Proof. unfold sorted_task_kinds. rewrite merge_sort_Permutation. apply elem_of_elements. Qed.

(** What the worker answers to the requests of the Agent. *)
Lemma worker_hello_answer version w m :
  pw_plugin_id w ≠ ""%string → pw_tasks w ≠ ∅ → pw_plugin_id w = mf_plugin_id m →
  worker_hello version w (Ok (Some (hello_request version m))) =
    Ok (ready_frame version (mf_plugin_id m) (sorted_task_kinds (pw_tasks w)) 0 (pw_max_concurrency w)).
Proof.
  intros H1 H2 H3. unfold worker_hello. rewrite !bool_decide_eq_false_2 by done. cbn. rewrite H3.
  by rewrite !bool_decide_eq_true_2.
Qed.

Lemma worker_hello_refuses version w first f :
  worker_hello version w first = Ok f →
  pw_plugin_id w ≠ ""%string ∧ pw_tasks w ≠ ∅ ∧ first = Ok (Some (request (RHello (mkHello version (pw_plugin_id w))))).
Proof.
  unfold worker_hello. destruct (bool_decide (pw_plugin_id w = _)) eqn:E1; [done|].
  destruct (bool_decide (pw_tasks w = ∅)) eqn:E2; [done|]. cbn [orb]. apply bool_decide_eq_false in E1, E2. intros H.
  apply result_bind_Ok in H as (fr & -> & H). apply result_bind_Ok in H as (fr' & Hfr & H). apply ok_or_Ok in Hfr as ->.
  destruct fr' as [[[[[v i]| | | |]|]|]|]; try done. cbn in H. case_bool_decide; [|done]. case_bool_decide; [|done]. subst. done.
Qed.

Lemma read_ready_Ok version frame id kinds ready : read_ready version frame id kinds = Ok ready →
  frame = Some (response (SReady ready)) ∧ rdy_protocol_version ready = version ∧ rdy_plugin_id ready = id ∧ rdy_task_kinds ready = kinds.
Proof.
  unfold read_ready. intros H. apply result_bind_Ok in H as (f & Hf & H). apply ok_or_Ok in Hf. subst frame.
  destruct f as [[|body]|]; [done| |done]. apply result_bind_Ok in H as (r & Hr & H).
  destruct body as [[]|]; try done; [injection Hr as ->|by destruct (bool_decide _)].
  destruct (bool_decide (rdy_protocol_version r = _)) eqn:E0; [|done]. apply bool_decide_eq_true in E0. cbn [negb orb] in H.
  destruct (bool_decide (rdy_plugin_id r = id)) eqn:E; [|done]. apply bool_decide_eq_true in E. cbn [negb] in H.
  destruct (bool_decide (rdy_task_kinds r = kinds)) eqn:E'; [|done]. apply bool_decide_eq_true in E'. cbn in H. by injection H as ->.
Qed.

Lemma read_own_ready version id kinds revision effective :
  read_ready version (Some (ready_frame version id kinds revision effective)) id kinds =
    Ok (mkReady version id revision kinds (Z.min effective u32_max)).
Proof. unfold read_ready. cbn. by rewrite !bool_decide_eq_true_2. Qed.

(** The conditions under which a worker serves an Agent. *)
Definition fitting (agent worker : Z) (w : PlusWorker) (m : PluginManifest) (o : WorkerStartOptions) : Prop :=
  agent = worker ∧ pw_plugin_id w ≠ ""%string ∧ pw_tasks w ≠ ∅ ∧ pw_plugin_id w = mf_plugin_id m ∧
  sorted_task_kinds (pw_tasks w) = mf_task_types m ∧ wo_runtime_config_version o ≠ 0 ∧ wo_max_concurrency o ≠ 0 ∧
  ∀ kind, kind ∈ pw_tasks w →
    initialize kind (wo_agent_context o) (wo_runtime_config o) (wo_runtime_config_version o) = Ok tt.

Definition setup_of (w : PlusWorker) (o : WorkerStartOptions) : WorkerSetup :=
  mkSetup (sorted_task_kinds (pw_tasks w)) (wo_agent_context o) (Z.min (pw_max_concurrency w) (wo_max_concurrency o)).

Lemma check_own_initialize version w m o :
  check_initialize version w (Ok (Some (initialize_request version m o))) =
    (if negb (bool_decide (mf_plugin_id m = pw_plugin_id w)) then Err (IdentityMismatch (pw_plugin_id w) (mf_plugin_id m))
     else if bool_decide (wo_runtime_config_version o = 0)
     then Err (ExecutionFailed "Agent must initialize Worker with non-zero runtime_config_version")
     else if bool_decide (wo_max_concurrency o = 0)
     then Err (ExecutionFailed "Agent must initialize Worker with non-zero max_concurrency")
     else Ok (mkInitialize version (mf_plugin_id m) (wo_config_revision o) (wo_runtime_config_version o)
                (wo_runtime_config o) (wo_max_concurrency o) (Some (wo_agent_context o)))).
Proof. unfold check_initialize, initialize_request. cbn. by rewrite (bool_decide_eq_true_2 (version = _)). Qed.

Lemma check_initialize_Ok version w second i : check_initialize version w second = Ok i →
  second = Ok (Some (request (RInitialize i))) ∧ iw_protocol_version i = version ∧ iw_plugin_id i = pw_plugin_id w ∧
  iw_runtime_config_version i ≠ 0 ∧ iw_max_concurrency i ≠ 0.
Proof.
  unfold check_initialize. intros H. apply result_bind_Ok in H as (fr & -> & H). apply result_bind_Ok in H as (fr' & Hfr & H).
  apply ok_or_Ok in Hfr as ->. destruct fr' as [[[[]|]|]|]; try done.
  repeat (case_bool_decide; cbn [negb] in H; try done). by injection H as <-.
Qed.

Lemma fitting_initialize agent worker w m o : fitting agent worker w m o →
  worker_initialize worker initialize w (Ok (Some (initialize_request agent m o))) =
    (Ok (setup_of w o), Some (ready_frame agent (mf_plugin_id m) (mf_task_types m) (wo_config_revision o) (su_effective (setup_of w o))), []).
Proof.
  intros (<- & _ & _ & Hid & Hk & Hv & Hc & Hinit). unfold worker_initialize. rewrite check_own_initialize.
  rewrite (bool_decide_eq_true_2 (mf_plugin_id m = _)), !(bool_decide_eq_false_2 (_ = 0)) by done. cbn.
  pose proof (init_tasks_Ok (wo_agent_context o) (wo_runtime_config o) (wo_runtime_config_version o) []
    (sorted_task_kinds (pw_tasks w))) as [_ Hi].
  destruct (init_tasks _ _ _ _ _ _) as [[[]|e] sd]; cbn in Hi.
  - unfold setup_of. by rewrite Hk, Hid.
  - exfalso. by specialize (Hi (λ k Hk, Hinit k (proj1 (elem_sorted_kinds _ _) Hk))).
Qed.

Lemma ready_initialize version w m o ready :
  (worker_initialize version initialize w (Ok (Some (initialize_request version m o)))).1.2 = Some (response (SReady ready)) →
  wo_runtime_config_version o ≠ 0 ∧ wo_max_concurrency o ≠ 0 ∧
  ∀ kind, kind ∈ pw_tasks w → initialize kind (wo_agent_context o) (wo_runtime_config o) (wo_runtime_config_version o) = Ok tt.
Proof.
  unfold worker_initialize. rewrite check_own_initialize. destruct (negb _); [done|]. case_bool_decide; [done|]. case_bool_decide; [done|].
  cbn. pose proof (init_tasks_Ok (wo_agent_context o) (wo_runtime_config o) (wo_runtime_config_version o) []
    (sorted_task_kinds (pw_tasks w))) as [Hi _].
  destruct (init_tasks _ _ _ _ _ _) as [[[]|[k e]] sd]; [|done]. intros _. split_and!; [done|done|].
  intros kind Hkind. apply Hi; [done|]. by apply elem_sorted_kinds.
Qed.

End Exchange.

(** What the Agent has seen of a process it takes into service. *)
Definition ready_answers (version : Z) (m : PluginManifest) (o : WorkerStartOptions) (a : StartAnswers) (client : PluginWorkerClient) : Prop :=
  ∃ ready1 ready2,
    sa_hello_read a = Some (Ok (Some (response (SReady ready1)))) ∧
    sa_initialize_read a = Some (Ok (Some (response (SReady ready2)))) ∧
    (∀ r, r = ready1 ∨ r = ready2 →
       rdy_protocol_version r = version ∧ rdy_plugin_id r = mf_plugin_id m ∧ rdy_task_kinds r = mf_task_types m) ∧
    rdy_config_revision ready2 = wo_config_revision o ∧
    rdy_effective_max_concurrency ready2 ≠ 0 ∧ rdy_effective_max_concurrency ready2 ≤ wo_max_concurrency o ∧
    client = mkClient (rdy_task_kinds ready2) (rdy_effective_max_concurrency ready2).

Lemma timed_Ok {A} phase (r : option (result PluginError A)) x : timed phase r = Ok x → r = Some (Ok x).
Proof. destruct r as [[y|e]|]; cbn; [|done..]. by intros [= ->]. Qed.

Lemma spawn_ready_answers version m o a client b : spawn_and_initialize version m o a = (Ok client, b) → ready_answers version m o a client.
Proof.
  unfold spawn_and_initialize. destruct (negb _); [done|]. destruct (_ || _); [done|].
  destruct (handshake version m o a) as [[kinds eff]|e] eqn:Hh; [|done]. intros [= <- _]. unfold handshake in Hh.
  apply result_bind_Ok in Hh as (? & _ & Hh). apply result_bind_Ok in Hh as (first & Hr1 & Hh).
  apply timed_Ok in Hr1. apply result_bind_Ok in Hh as (ready1 & (-> & ? & ? & ?)%read_ready_Ok & Hh).
  apply result_bind_Ok in Hh as (? & _ & Hh). apply result_bind_Ok in Hh as (second & Hr2%timed_Ok & Hh).
  apply result_bind_Ok in Hh as (ready2 & (-> & ? & ? & ?)%read_ready_Ok & Hh).
  destruct (_ || _) eqn:E1; [done|]. destruct (_ || _) eqn:E2 in Hh; [done|]. injection Hh as <- <-.
  rewrite orb_false_iff, !negb_false_iff, !bool_decide_eq_true in E1. rewrite orb_false_iff, !bool_decide_eq_false in E2.
  exists ready1, ready2. split_and!; [done|done|naive_solver|naive_solver|naive_solver|lia|done].
Qed.

(** C33. A worker is used exactly when it fits: over intact pipes the start of a worker
    succeeds if and only if both programs were built for the same protocol version, the
    program is the plugin the manifest names, registers exactly the tasks of the manifest,
    and accepts the configuration in every task; then both sides agree on the tasks and on
    the concurrency, the smaller of the two limits, which is at least one, and the worker
    has the configuration of the Agent. In every other case the Agent gets an error and the
    process is terminated. Each side checks by itself: a worker answers [Hello] and
    [Initialize] only with its own version and plugin id, and the Agent takes no process,
    whatever it answers, but one that answered twice with the Agent's version, the plugin
    id and the tasks of the manifest, and at last the revision and a concurrency within
    the limit. *)
Theorem worker_start_exact agent worker initialize w m o :
  1 ≤ pw_max_concurrency w → 0 ≤ wo_max_concurrency o ≤ u32_max →
  let answers := exchange initialize agent worker w m o in
  let served := worker_initialize worker initialize w (Ok (Some (initialize_request agent m o))) in
  (fitting initialize agent worker w m o →
     spawn_and_initialize agent m o answers = (Ok (mkClient (mf_task_types m) (su_effective (setup_of w o))), false) ∧
     served.1.1 = Ok (setup_of w o) ∧ 1 ≤ su_effective (setup_of w o) ≤ wo_max_concurrency o) ∧
  (¬ fitting initialize agent worker w m o → ∃ e, spawn_and_initialize agent m o answers = (Err e, true)) ∧
  (∀ first f, worker_hello worker w first = Ok f → first = Ok (Some (request (RHello (mkHello worker (pw_plugin_id w)))))) ∧
  (∀ second setup frame calls, worker_initialize worker initialize w second = (Ok setup, frame, calls) →
     ∃ i, second = Ok (Some (request (RInitialize i))) ∧ iw_protocol_version i = worker ∧ iw_plugin_id i = pw_plugin_id w) ∧
  (∀ a client b, spawn_and_initialize agent m o a = (Ok client, b) → ready_answers agent m o a client).
Proof.
  intros Hmax Hu answers served. split_and!;
    [| |by intros first f (_ & _ & ?)%worker_hello_refuses| |by intros; eapply spawn_ready_answers].
  3: { intros second setup frame calls Hs. unfold worker_initialize in Hs. destruct (check_initialize worker w second) as [i|] eqn:Hi; [|done].
       apply check_initialize_Ok in Hi as (? & ? & ? & _). by exists i. }
  all: unfold spawn_and_initialize, answers, exchange; cbn [sa_spawn sa_stdin sa_stdout negb orb].
  - intros Hfit. unfold served. rewrite (fitting_initialize _ _ _ _ _ _ Hfit). destruct Hfit as (<- & H1 & H2 & Hid & Hk & Hv & Hc & Hinit).
    assert (1 ≤ su_effective (setup_of w o) ≤ wo_max_concurrency o) as Heff by (cbn; lia).
    split_and!; [|done|lia|lia]. unfold handshake. cbn [sa_hello_write sa_hello_read sa_initialize_write sa_initialize_read timed map_err mbind result_bind].
    rewrite worker_hello_answer by done. cbn [to_option mbind result_bind fst snd]. rewrite Hk, read_own_ready. cbn [mbind result_bind].
    rewrite read_own_ready. cbn [mbind result_bind rdy_config_revision rdy_task_kinds rdy_effective_max_concurrency].
    rewrite !(bool_decide_eq_true_2 (_ = _)) by done. cbn [negb orb]. rewrite Z.min_l by lia.
    rewrite !bool_decide_eq_false_2 by lia. done.
  - intros Hno. destruct (handshake _ _ _) as [[kinds eff]|e] eqn:Hh; [|by exists e]. destruct Hno.
    unfold handshake in Hh. cbn [sa_hello_write sa_hello_read sa_initialize_write sa_initialize_read timed map_err mbind result_bind] in Hh.
    apply result_bind_Ok in Hh as (ready1 & H1 & Hh). apply read_ready_Ok in H1 as (H1 & _ & _ & Hk1).
    apply result_bind_Ok in Hh as (ready2 & H2 & Hh). apply read_ready_Ok in H2 as (H2 & _ & _ & Hk2).
    destruct (worker_hello _ _ _) as [f|e] eqn:Hw; [|done]. cbn in H1. injection H1 as ->.
    destruct (worker_hello_refuses _ _ _ _ Hw) as (? & ? & Hid). injection Hid as -> Hid.
    destruct (ready_initialize _ _ _ _ _ _ H2) as (? & ? & ?).
    rewrite worker_hello_answer in Hw by done. injection Hw as <-. cbn in Hk1. by split_and!.
Qed.

Definition demo_echo : PlusWorker := set_max_concurrency 8 (register "echo.v1" (builder "echo")).
Definition demo_echo_manifest : PluginManifest :=
  mkManifest "echo" "Echo" (mkPluginVersion 1 0 0) Linux "worker" 2 "schema.pb" ["echo.v1"%string].
Definition demo_echo_options : WorkerStartOptions := mkStartOptions 7 [1] 1 4 default_agent_context.

Lemma worker_start_exact_witness :
  spawn_and_initialize 2 demo_echo_manifest demo_echo_options
    (exchange (λ _ _ _ _, Ok tt) 2 2 demo_echo demo_echo_manifest demo_echo_options) = (Ok (mkClient ["echo.v1"%string] 4), false).
Proof.
  refine (proj1 (proj1 (worker_start_exact 2 2 (λ _ _ _ _, Ok tt) demo_echo demo_echo_manifest demo_echo_options _ _) _)).
  - vm_compute. discriminate.
  - split; vm_compute; discriminate.
  - split_and!; vm_compute; congruence.
Defined.
