(* ===== verification/WorkerLoop.v ===== *)
(** * A plugin worker at work

    The loop of [run_stream] in [crates/smalux-plus/smalux-plus-core/src/worker.rs] and the
    client side of [crates/smalux-agent/src/plugins/worker.rs] and [task.rs].

    The loop, the spawned executions and [shutdown_executions] run concurrently; a step of
    the model is what one of them does between two waits.  Whether a frame fits into the
    limit of [write_frame] is the function [fits]; how a task ends is part of the event. *)

From stdpp Require Import base gmap strings list sorting.
From S2P Require Import Prelude SchedModel Rotation Proto Policy Reports WorkerFrames PluginCatalog WorkerProtocol.

(** ** Executions *)

(** A spawned execution waits for a permit, runs its task, and sends the result. *)
Inductive ExecPhase : Type := Waiting | Executing | Reporting (r : result PlusTaskError PlusTaskOutput).
Record Execution : Type := mkExecution {
  ex_request_id : string;
  ex_run_id : bytes;
  ex_task_kind : string;
  ex_config : bytes;
  ex_deadline : option Z;
  ex_phase : ExecPhase;
}.
Definition set_ex_phase (p : ExecPhase) (x : Execution) : Execution :=
  mkExecution (ex_request_id x) (ex_run_id x) (ex_task_kind x) (ex_config x) (ex_deadline x) p.

(** The loop reads frames, waits for the executions to end, or has returned. *)
Inductive RunPhase : Type :=
| Serving
| Draining (reason : string) (last : option Frame) (r : result PluginError unit)
| Ended (r : result PluginError unit).

Record WorkerRun : Type := mkRun {
  run_executions : list Execution;
  run_cancellations : gmap string bool;
  run_permits : Z;
  run_out : list Frame;
  run_broken : bool;
  run_shutdowns : list (string * string);
  run_phase : RunPhase;
}.
Definition set_executions (l : list Execution) (s : WorkerRun) : WorkerRun :=
  mkRun l (run_cancellations s) (run_permits s) (run_out s) (run_broken s) (run_shutdowns s) (run_phase s).
Definition set_cancellations (m : gmap string bool) (s : WorkerRun) : WorkerRun :=
  mkRun (run_executions s) m (run_permits s) (run_out s) (run_broken s) (run_shutdowns s) (run_phase s).
Definition set_permits (n : Z) (s : WorkerRun) : WorkerRun :=
  mkRun (run_executions s) (run_cancellations s) n (run_out s) (run_broken s) (run_shutdowns s) (run_phase s).
Definition set_run_phase (p : RunPhase) (s : WorkerRun) : WorkerRun :=
  mkRun (run_executions s) (run_cancellations s) (run_permits s) (run_out s) (run_broken s) (run_shutdowns s) p.

(** The state after [Ready]. *)
Definition run_start (su : WorkerSetup) : WorkerRun := mkRun [] ∅ (su_effective su) [] false [] Serving.

(** [deadline_duration]; [now] is [None] for a clock before 1970. *)
Definition deadline_duration (now : option Z) (deadline_unix_millis : Z) : option Z :=
  if bool_decide (deadline_unix_millis = 0) then None else saturating_sub deadline_unix_millis <$> now.

(** [task_result]. *)
Definition task_result (request_id : string) (run_id : bytes) (r : result PlusTaskError PlusTaskOutput) : WorkerResult :=
  match r with
  | Ok o => mkWorkerResult request_id run_id (status_number StSucceeded) (po_summary o) (po_metrics o) (po_payload o) None
  | Err e =>
      let status := match e with PCancelled _ => StCancelled | PInvalidConfig _ => StInvalidConfig | _ => StFailed end in
      mkWorkerResult request_id run_id (status_number status) "" [] [] (Some (task_error_text e))
  end.

(** How the future of a task ends, and the result made of it. *)
Inductive TaskEnd : Type :=
| TaskReturned (r : result PlusTaskError PlusTaskOutput)
| TaskPanicked
| TaskDeadline.
Definition end_result (e : TaskEnd) : result PlusTaskError PlusTaskOutput :=
  match e with
  | TaskReturned r => r
  | TaskPanicked => Err (PFailed "Plus Task panicked")
  | TaskDeadline => Err PTimeout
  end.
(** Only the deadline ends an execution that has no permit yet. *)
Definition may_end (x : Execution) (e : TaskEnd) : bool :=
  match ex_phase x, e with
  | Executing, TaskDeadline | Waiting, TaskDeadline => bool_decide (is_Some (ex_deadline x))
  | Executing, _ => true
  | _, _ => false
  end.

Section Loop.
Context (su : WorkerSetup) (fits : Frame → bool).

(** [send_response]. *)
Definition send_response (f : Frame) (s : WorkerRun) : result PluginError unit * WorkerRun :=
  if run_broken s then (Err (ExecutionFailed "broken pipe"), s)
  else if negb (fits f) then (Err (ExecutionFailed "Worker frame exceeds the limit"), s)
  else (Ok tt, mkRun (run_executions s) (run_cancellations s) (run_permits s) (run_out s ++ [f]) (run_broken s)
                 (run_shutdowns s) (run_phase s)).

(** Returning from the loop drops the [JoinSet], which aborts what is still running. *)
Definition stop (r : result PluginError unit) (s : WorkerRun) : WorkerRun := set_run_phase (Ended r) (set_executions [] s).

(** [send_response(..).await?] in the loop. *)
Definition reply (f : Frame) (s : WorkerRun) : WorkerRun :=
  match send_response f s with (Ok _, s) => s | (Err e, s) => stop (Err e) s end.

(** The beginning of [shutdown_executions]: every token is cancelled. *)
Definition drain (reason : string) (last : option Frame) (r : result PluginError unit) (s : WorkerRun) : WorkerRun :=
  set_run_phase (Draining reason last r) (set_cancellations ((λ _, true) <$> run_cancellations s) s).

(** The branch for [Execute]. *)
Definition on_execute (e : ExecuteTask) (now : option Z) (s : WorkerRun) : WorkerRun :=
  let id := xt_request_id e in
  if bool_decide (id = ""%string) then reply (error_frame "" "invalid_request" "Execute request_id must not be empty") s
  else if negb (bool_decide (xt_task_kind e ∈ su_task_kinds su))
  then reply (error_frame id "unknown_task" "task kind is not registered") s
  else match run_cancellations s !! id with
       | Some _ => reply (error_frame id "duplicate_request" "request_id is already running") s
       | None =>
           set_executions (run_executions s ++
               [mkExecution id (xt_run_id e) (xt_task_kind e) (xt_config e) (deadline_duration now (xt_deadline_unix_millis e)) Waiting])
             (set_cancellations (<[id := false]> (run_cancellations s)) s)
       end.

(** The branch for [Cancel]. *)
Definition on_cancel (c : CancelTask) (s : WorkerRun) : WorkerRun :=
  match run_cancellations s !! cx_request_id c with
  | Some _ => set_cancellations (<[cx_request_id c := true]> (run_cancellations s)) s
  | None => reply (error_frame (cx_request_id c) "unknown_request" "request_id is not running") s
  end.

(** One turn of the loop, with what [read_frame] returned. *)
Definition on_read (r : result PluginError (option Frame)) (now : option Z) (s : WorkerRun) : WorkerRun :=
  match r with
  | Err e => drain "Worker input frame failed" None (Err e) s
  | Ok None => drain "Worker input closed" None (Ok tt) s
  | Ok (Some (Some (FRequest body))) =>
      match body with
      | Some (RInitialize _) => stop (Err (ExecutionFailed "Worker may only be initialized once")) s
      | Some (RExecute e) => on_execute e now s
      | Some (RCancel c) => on_cancel c s
      | Some (RShutdown reason) => drain reason (Some (response (SStopped reason))) (Ok tt) s
      | Some (RHello _) | None =>
          drain "Worker protocol error" None (Err (ExecutionFailed "Worker received an unexpected protocol frame")) s
      end
  | Ok (Some _) => s
  end.

(** The end of a task: the permit is dropped and the token removed. *)
Definition finish (i : nat) (x : Execution) (e : TaskEnd) (s : WorkerRun) : WorkerRun :=
  let permits := match ex_phase x with Executing => run_permits s + 1 | _ => run_permits s end in
  set_executions (<[i := set_ex_phase (Reporting (end_result e)) x]> (run_executions s))
    (set_cancellations (delete (ex_request_id x) (run_cancellations s)) (set_permits permits s)).

(** The result is sent, or a small error frame in its place. *)
Definition report (i : nat) (x : Execution) (r : result PlusTaskError PlusTaskOutput) (s : WorkerRun) : WorkerRun :=
  let s := set_executions (delete i (run_executions s)) s in
  match send_response (response (SResult (task_result (ex_request_id x) (ex_run_id x) r))) s with
  | (Ok _, s) => s
  | (Err _, s) =>
      (send_response (error_frame (ex_request_id x) "result_delivery_failed" "Worker could not send the task result") s).2
  end.

(** The end of [shutdown_executions] and what follows it. *)
Definition shut_down (reason : string) (last : option Frame) (r : result PluginError unit) (s : WorkerRun) : WorkerRun :=
  let s := mkRun (run_executions s) (run_cancellations s) (run_permits s) (run_out s) (run_broken s)
             (run_shutdowns s ++ ((λ kind, (kind, reason)) <$> su_task_kinds su)) (run_phase s) in
  match last with
  | None => stop r s
  | Some f => match send_response f s with (Ok _, s) => stop r s | (Err e, s) => stop (Err e) s end
  end.

Inductive WorkerEvent : Type :=
| WRead (r : result PluginError (option Frame)) (now : option Z)
| WAcquire (i : nat)
| WFinish (i : nat) (e : TaskEnd)
| WReport (i : nat)
| WBreak
| WDrained.

Definition worker_event (ev : WorkerEvent) (s : WorkerRun) : option WorkerRun :=
  match ev with
  | WRead r now => match run_phase s with Serving => Some (on_read r now s) | _ => None end
  | WAcquire i =>
      x ← run_executions s !! i;
      match ex_phase x with
      | Waiting =>
          if bool_decide (0 < run_permits s)
          then Some (set_executions (<[i := set_ex_phase Executing x]> (run_executions s)) (set_permits (run_permits s - 1) s))
          else None
      | _ => None
      end
  | WFinish i e => x ← run_executions s !! i; if may_end x e then Some (finish i x e s) else None
  | WReport i => x ← run_executions s !! i; match ex_phase x with Reporting r => Some (report i x r s) | _ => None end
  | WBreak => Some (mkRun (run_executions s) (run_cancellations s) (run_permits s) (run_out s) true (run_shutdowns s) (run_phase s))
  | WDrained =>
      match run_phase s, run_executions s with
      | Draining reason last r, [] => Some (shut_down reason last r s)
      | _, _ => None
      end
  end.

Fixpoint worker_run (evs : list WorkerEvent) (s : WorkerRun) : option WorkerRun :=
  match evs with [] => Some s | ev :: evs => s ← worker_event ev s; worker_run evs s end.

End Loop.

(** ** The client in the Agent *)

(** [WorkerTaskOutput]. *)
Definition WorkerTaskOutput : Type := PlusTaskOutput.
Definition Answer : Type := result PluginWorkerError WorkerTaskOutput.

Record ClientState : Type := mkClientState {
  cl_pending : gset string;
  cl_delivered : list (string * Answer);
  cl_closed : bool;
}.

(** The answer a response carries, and for which request. *)
Definition response_answer (b : ResponseBody) : option (string * Answer) :=
  match b with
  | SResult r =>
      Some (wt_request_id r,
        match task_status (wt_status r) with
        | Some StSucceeded => Ok (mkOutput (wt_summary r) (wt_metrics r) (wt_payload r))
        | Some StCancelled => Err WCancelled
        | Some StInvalidConfig => Err (WInvalidTaskConfig (default "Worker rejected task configuration"%string (wt_error r)))
        | _ => Err (WTaskFailed (default "Worker task did not succeed"%string (wt_error r)))
        end)
  | SError e => Some (er_request_id e, Err (WTaskFailed (er_message e)))
  | _ => None
  end.

Definition deliver (id : string) (a : Answer) (s : ClientState) : ClientState :=
  if bool_decide (id ∈ cl_pending s) then mkClientState (cl_pending s ∖ {[id]}) (cl_delivered s ++ [(id, a)]) (cl_closed s) else s.

(** A frame in the reader task, and the end of the reader task. *)
Definition reader_frame (f : Frame) (s : ClientState) : ClientState :=
  match f with
  | Some (FResponse (Some body)) => match response_answer body with Some (id, a) => deliver id a s | None => s end
  | _ => s
  end.
Definition reader_end (s : ClientState) : ClientState :=
  mkClientState ∅ (cl_delivered s ++ ((λ id, (id, Err WClosed)) <$> elements (cl_pending s))) true.

(** What happens to the client while its reader runs: a call registers its request, a frame
    arrives, a call gives up. *)
Inductive ClientEvent : Type := CRequest (id : string) | CFrame (f : Frame) | CForget (id : string).

(** What a receiver gets: the answer, or the sender was dropped. *)
Inductive Received : Type := RAnswer (a : Answer) | RSenderGone.

Definition forget (id : string) (s : ClientState) : ClientState :=
  mkClientState (cl_pending s ∖ {[id]}) (cl_delivered s) (cl_closed s).

Definition register (id : string) (s : ClientState) : ClientState :=
  mkClientState (cl_pending s ∪ {[id]}) (cl_delivered s) (cl_closed s).
Definition client_event (s : ClientState) (ev : ClientEvent) : ClientState :=
  match ev with CRequest id => register id s | CFrame f => reader_frame f s | CForget id => forget id s end.
(** The life of a client, from its start to the end of its reader. *)
Definition client_run (evs : list ClientEvent) : ClientState :=
  reader_end (foldl client_event (mkClientState ∅ [] false) evs).
Definition frames_read (evs : list ClientEvent) : list Frame :=
  omap (λ ev, match ev with CFrame f => Some f | _ => None end) evs.

(** [cancel_and_wait]: [write] is how [write_request] ended, [wait] how the wait for the
    receiver did, each [None] after its time-out. *)
Definition cancel_and_wait (id : string) (write : option (result PluginError unit)) (wait : option Received) (s : ClientState) :
    Answer * ClientState :=
  match timed "IPC write" write with
  | Err e => (Err e, forget id s)
  | Ok _ =>
      match wait with
      | Some (RAnswer _) => (Err WCancelled, s)
      | Some RSenderGone => (Err WClosed, s)
      | None => (Err (WTimeout "Cancel"), forget id s)
      end
  end.

(** What ends the [select!] of [execute]. *)
Inductive Selected : Type :=
| SelReceived (r : Received)
| SelCancelled (write : option (result PluginError unit)) (wait : option Received)
| SelDeadline (write : option (result PluginError unit)) (wait : option Received).

(** [execute] of the client; [true] if the process was terminated. *)
Definition execute (c : PluginWorkerClient) (id task_kind : string) (write : option (result PluginError unit)) (sel : Selected)
    (s : ClientState) : Answer * ClientState * bool :=
  if negb (existsb (String.eqb task_kind) (wc_task_kinds c))
  then (Err (WTaskFailed "Worker does not declare requested Task kind"), s, false)
  else
    let s := register id s in
    match write with
    | None => (Err (WTimeout "Execute write"), forget id s, true)
    | Some (Err e) => (Err (WProtocol e), forget id s, false)
    | Some (Ok _) =>
        match sel with
        | SelReceived (RAnswer a) => (a, s, false)
        | SelReceived RSenderGone => (Err WClosed, s, false)
        | SelCancelled write wait => (cancel_and_wait id write wait s, false)
        | SelDeadline write wait =>
            let '(r, s) := cancel_and_wait id write wait s in
            (Err (WTimeout "Execute"), s, match r with Err (WTimeout _) => true | _ => false end)
        end
    end.

(** [PluginReportingTask::run]: what the scheduler gets. *)
Definition plugin_task_run (config : PluginTaskConfig) (sample : bytes) (a : Answer) : result TaskError TaskResult :=
  match a with
  | Err (WInvalidTaskConfig message) => Err (TaskErrPermanent message)
  | Err e => Err (TaskErrTransient (worker_error_text e))
  | Ok output =>
      Ok (mkTaskResult (Some sample) (Some (Result_Plugin (mkPluginTaskResult (ptc_plugin_id config) (ptc_plugin_version config)
        (ptc_task_kind config) (ptc_schema_version config) (po_summary output) (po_metrics output) (po_payload output)))))
  end.

(** ** Lists *)

Lemma index_split {A} (l : list A) i x : l !! i = Some x →
  ∃ l1 l2, l = l1 ++ x :: l2 ∧ (∀ y, <[i := y]> l = l1 ++ y :: l2) ∧ delete i l = l1 ++ l2.
Proof.
  intros H. exists (take i l), (drop (S i) l). split_and!.
  - by rewrite take_drop_middle.
  - intros y. apply insert_take_drop. by eapply lookup_lt_Some.
  - apply delete_take_drop.
Qed.

Section Counts.
Context (su : WorkerSetup) (fits : Frame → bool).

Definition is_executing (x : Execution) : bool := match ex_phase x with Executing => true | _ => false end.
Definition is_reporting (x : Execution) : bool := match ex_phase x with Reporting _ => true | _ => false end.
Definition executing (l : list Execution) : Z := zlen (filter (λ x, is_executing x = true) l).
(** The requests that have a token: those that are not reporting yet. *)
Definition token_ids (l : list Execution) : list string := ex_request_id <$> filter (λ x, is_reporting x = false) l.

#[local] Arguments executing : simpl never.
#[local] Arguments token_ids : simpl never.

Lemma executing_app l1 l2 : executing (l1 ++ l2) = executing l1 + executing l2.
Proof. unfold executing, zlen. rewrite filter_app, length_app. lia. Qed.
Lemma executing_cons x l : executing (x :: l) = (if is_executing x then 1 else 0) + executing l.
Proof. unfold executing, zlen. rewrite filter_cons. destruct (is_executing x); cbn [decide]; case_decide; cbn [length]; try done; lia. Qed.
Lemma executing_nonneg l : 0 ≤ executing l.
Proof. unfold executing, zlen. lia. Qed.
Lemma token_ids_app l1 l2 : token_ids (l1 ++ l2) = token_ids l1 ++ token_ids l2.
Proof. unfold token_ids. by rewrite filter_app, fmap_app. Qed.
Lemma token_ids_cons x l : token_ids (x :: l) = (if is_reporting x then [] else [ex_request_id x]) ++ token_ids l.
Proof. unfold token_ids. rewrite filter_cons. by destruct (is_reporting x); case_decide. Qed.

(** Permits are neither lost nor made, and tokens belong to executions, while the loop has
    not returned. *)
Record run_ok (s : WorkerRun) : Prop := {
  ok_permits : 0 ≤ run_permits s ∧ run_permits s + executing (run_executions s) = su_effective su;
  ok_tokens : NoDup (token_ids (run_executions s)) ∧ ∀ id, is_Some (run_cancellations s !! id) ↔ id ∈ token_ids (run_executions s);
}.
Definition run_inv (s : WorkerRun) : Prop := match run_phase s with Ended _ => run_executions s = [] | _ => run_ok s end.

Lemma send_response_same f s r s' : send_response fits f s = (r, s') →
  run_executions s' = run_executions s ∧ run_cancellations s' = run_cancellations s ∧ run_permits s' = run_permits s ∧
  run_phase s' = run_phase s ∧ run_broken s' = run_broken s ∧ run_shutdowns s' = run_shutdowns s.
Proof. unfold send_response. destruct (run_broken s) eqn:E; [by intros [= <- <-]|]. destruct (negb _); intros [= <- <-]; cbn; split_and!; done. Qed.

Lemma run_ok_same s s' : run_executions s' = run_executions s → run_cancellations s' = run_cancellations s →
  run_permits s' = run_permits s → run_ok s → run_ok s'.
Proof. intros E1 E2 E3 [Hp Ht]. constructor; by rewrite ?E1, ?E2, ?E3. Qed.

Lemma reply_inv f s : run_ok s → run_phase s = Serving → run_inv (reply fits f s).
Proof.
  intros Hok Hph. unfold reply. destruct (send_response fits f s) as [[[]|e] s'] eqn:Hs; [|done].
  apply send_response_same in Hs as (E1 & E2 & E3 & E4 & _). unfold run_inv. rewrite E4, Hph. by eapply run_ok_same.
Qed.

Lemma drain_inv reason last r s : run_ok s → run_inv (drain reason last r s).
Proof.
  intros [Hp [Hn Ht]]. constructor; cbn; [done|]. split; [done|]. intros id. rewrite <-Ht, lookup_fmap.
  by destruct (run_cancellations s !! id).
Qed.

Lemma on_execute_inv e now s : run_ok s → run_phase s = Serving → run_inv (on_execute su fits e now s).
Proof.
  intros Hok Hph. unfold on_execute. case_bool_decide; [by apply reply_inv|]. destruct (negb _); [by apply reply_inv|].
  destruct (run_cancellations s !! xt_request_id e) eqn:Hc; [by apply reply_inv|].
  destruct Hok as [Hp [Hn Ht]]. unfold run_inv. cbn. rewrite Hph. constructor; cbn.
  - rewrite executing_app, executing_cons. change (executing []) with 0. cbn [is_executing ex_phase]. lia.
  - rewrite token_ids_app, token_ids_cons. change (token_ids []) with (@nil string). cbn [is_reporting ex_phase app ex_request_id]. assert (xt_request_id e ∉ token_ids (run_executions s)) as Hno.
    { rewrite <-Ht, Hc. by intros [? ?]. }
    split.
    + apply NoDup_app. split_and!; [done| |apply NoDup_singleton]. intros id Hid. intros ->%list_elem_of_singleton. done.
    + intros id. rewrite elem_of_app, list_elem_of_singleton, <-Ht. destruct (decide (id = xt_request_id e)) as [->|Hne].
      * rewrite lookup_insert_eq. naive_solver.
      * rewrite lookup_insert_ne by done. naive_solver.
Qed.

Lemma on_cancel_inv c s : run_ok s → run_phase s = Serving → run_inv (on_cancel fits c s).
Proof.
  intros Hok Hph. unfold on_cancel. destruct (run_cancellations s !! cx_request_id c) eqn:Hc; [|by apply reply_inv].
  destruct Hok as [Hp [Hn Ht]]. unfold run_inv. cbn. rewrite Hph. constructor; cbn; [done|]. split; [done|].
  intros id. rewrite <-Ht. destruct (decide (id = cx_request_id c)) as [->|Hne]; [rewrite lookup_insert_eq, Hc; naive_solver|].
  by rewrite lookup_insert_ne.
Qed.

Lemma on_read_inv r now s : run_ok s → run_phase s = Serving → run_inv (on_read su fits r now s).
Proof.
  intros Hok Hph. unfold on_read. assert (run_inv s) as Hs by (unfold run_inv; by rewrite Hph).
  destruct r as [[[[[[]|]|]|]|]|]; auto using drain_inv, on_execute_inv, on_cancel_inv. done.
Qed.

Lemma run_inv_live s : run_inv s → run_executions s ≠ [] → run_ok s.
Proof. unfold run_inv. by destruct (run_phase s). Qed.

Lemma acquire_inv i x s : run_ok s → run_executions s !! i = Some x → ex_phase x = Waiting → 0 < run_permits s →
  run_ok (set_executions (<[i := set_ex_phase Executing x]> (run_executions s)) (set_permits (run_permits s - 1) s)).
Proof.
  intros [Hp [Hn Ht]] Hx Hph Hpos. destruct (index_split _ _ _ Hx) as (l1 & l2 & El & Ei & _).
  constructor; cbn; rewrite Ei; rewrite El in *.
  - rewrite !executing_app, !executing_cons in *. unfold is_executing in *. cbn. rewrite Hph in Hp. lia.
  - rewrite !token_ids_app, !token_ids_cons in *. unfold is_reporting in *. cbn. rewrite Hph in Hn, Ht. done.
Qed.

Lemma finish_inv i x e s : run_ok s → run_executions s !! i = Some x → may_end x e = true → run_ok (finish i x e s).
Proof.
  intros [Hp [Hn Ht]] Hx He. destruct (index_split _ _ _ Hx) as (l1 & l2 & El & Ei & _).
  assert (is_reporting x = false) as Hr by (unfold may_end, is_reporting in *; by destruct (ex_phase x)).
  constructor; cbn; rewrite Ei; rewrite El in *.
  - rewrite !executing_app, !executing_cons in *. cbn [is_executing set_ex_phase ex_phase]. unfold is_executing in Hp.
    unfold may_end in He. destruct (ex_phase x); [lia..|done].
  - rewrite !token_ids_app, !token_ids_cons in *. cbn [is_reporting set_ex_phase ex_phase app]. rewrite Hr in Hn, Ht.
    cbn [app] in Hn, Ht. apply NoDup_app in Hn as (Hn1 & Hd & Hn2). apply NoDup_cons in Hn2 as [Hni Hn2]. split.
    + apply NoDup_app. split_and!; [done| |done]. intros id H1 H2. apply (Hd id H1). by right.
    + intros id. rewrite lookup_delete_is_Some, Ht. rewrite !elem_of_app, elem_of_cons. split.
      * intros [Hne [?|[E|?]]]; [by left|by destruct Hne|by right].
      * intros [Hin|Hin]; (split; [intros E; subst id|by auto]); [|done]. apply (Hd _ Hin). left.
Qed.

Lemma report_inv i x r s : run_ok s → run_executions s !! i = Some x → ex_phase x = Reporting r →
  run_ok (report fits i x r s).
Proof.
  intros [Hp [Hn Ht]] Hx Hph. destruct (index_split _ _ _ Hx) as (l1 & l2 & El & _ & Ed).
  assert (run_ok (set_executions (delete i (run_executions s)) s)) as Hok.
  { constructor; cbn; rewrite Ed; rewrite El in *.
    - rewrite !executing_app, !executing_cons in *. unfold is_executing in Hp. rewrite Hph in Hp. lia.
    - rewrite !token_ids_app, !token_ids_cons in *. unfold is_reporting in Hn, Ht. by rewrite Hph in Hn, Ht. }
  unfold report. destruct (send_response _ _ _) as [[[]|] s1] eqn:H1; apply send_response_same in H1 as (A1 & A2 & A3 & _).
  - by eapply run_ok_same.
  - destruct (send_response fits (error_frame _ _ _) s1) as [r2 s2] eqn:H2. cbn [snd].
    apply send_response_same in H2 as (B1 & B2 & B3 & _). eapply run_ok_same; [..|exact Hok]; congruence.
Qed.

Lemma report_phase i x r s : run_phase (report fits i x r s) = run_phase s.
Proof.
  unfold report. destruct (send_response _ _ _) as [[[]|] s1] eqn:H1; apply send_response_same in H1 as (_ & _ & _ & A & _); [by rewrite A|].
  destruct (send_response fits (error_frame _ _ _) s1) as [r2 s2] eqn:H2. cbn [snd].
  apply send_response_same in H2 as (_ & _ & _ & B & _). by rewrite B, A.
Qed.

Lemma shut_down_ended reason last r s : ∃ r', run_phase (shut_down su fits reason last r s) = Ended r' ∧
  run_executions (shut_down su fits reason last r s) = [].
Proof. unfold shut_down. destruct last; [|by eexists]. destruct (send_response _ _ _) as [[[]|] ?]; by eexists. Qed.

Lemma worker_event_inv ev s s' : run_inv s → worker_event su fits ev s = Some s' → run_inv s'.
Proof.
  intros Hinv H. assert (∀ i x, run_executions s !! i = Some x → run_ok s ∧ ∀ p, run_phase s ≠ Ended p) as Hlive.
  { intros i x Hx. assert (run_executions s ≠ []) as Hne by (intros E; by rewrite E in Hx). split; [by apply run_inv_live|].
    intros p Hp. unfold run_inv in Hinv. by rewrite Hp in Hinv. }
  destruct ev as [r now|i|i e|i| |]; cbn in H.
  - destruct (run_phase s) eqn:Hph; [|done..]. injection H as <-. unfold run_inv in Hinv. rewrite Hph in Hinv. by apply on_read_inv.
  - destruct (run_executions s !! i) as [x|] eqn:Hx; [|done]. cbn in H. destruct (Hlive _ _ Hx) as [Hok Hne].
    destruct (ex_phase x) eqn:Hp; [|done..]. case_bool_decide; [|done]. injection H as <-.
    pose proof (acquire_inv _ _ _ Hok Hx Hp) as Ha. unfold run_inv. cbn. destruct (run_phase s) eqn:E; [by auto..|by destruct (Hne _ eq_refl)].
  - destruct (run_executions s !! i) as [x|] eqn:Hx; [|done]. cbn in H. destruct (Hlive _ _ Hx) as [Hok Hne].
    destruct (may_end x e) eqn:He; [|done]. injection H as <-. pose proof (finish_inv _ _ _ _ Hok Hx He) as Ha.
    unfold run_inv. cbn. destruct (run_phase s) eqn:E; [by auto..|by destruct (Hne _ eq_refl)].
  - destruct (run_executions s !! i) as [x|] eqn:Hx; [|done]. cbn in H. destruct (Hlive _ _ Hx) as [Hok Hne].
    destruct (ex_phase x) as [| |r] eqn:Hp; [done..|]. injection H as <-. pose proof (report_inv _ _ _ _ Hok Hx Hp) as Ha.
    unfold run_inv. rewrite report_phase. destruct (run_phase s) eqn:E; [by auto..|by destruct (Hne _ eq_refl)].
  - injection H as <-. unfold run_inv in *. cbn. destruct (run_phase s); [by eapply (run_ok_same s)..|done].
  - destruct (run_phase s) as [|reason last0 r|]; [done| |done]. destruct (run_executions s); [|done]. injection H as <-.
    destruct (shut_down_ended reason last0 r s) as (r' & E & E'). unfold run_inv. by rewrite E.
Qed.

Lemma worker_run_inv evs s s' : run_inv s → worker_run su fits evs s = Some s' → run_inv s'.
Proof.
  revert s. induction evs as [|ev evs IH]; intros s Hinv H; cbn in H; [by injection H as <-|].
  apply bind_Some in H as (s1 & H1 & H). eapply IH; [|done]. by eapply worker_event_inv.
Qed.

Lemma run_start_inv : 0 ≤ su_effective su → run_inv (run_start su).
Proof.
  intros Hs. constructor; cbn; [change (executing []) with 0; lia|]. split; [constructor|]. intros id. rewrite lookup_empty.
  split; [by intros [? ?]|]. by intros ?%elem_of_nil.
Qed.

End Counts.

(** ** Requests and answers *)

Section Answers.
Context (su : WorkerSetup) (fits : Frame → bool).

(** The request a response belongs to. *)
Definition answer_id (f : Frame) : option string :=
  match f with Some (FResponse (Some b)) => fst <$> response_answer b | _ => None end.
Definition answers (id : string) (out : list Frame) : Z := zlen (filter (λ f, answer_id f = Some id) out).
Definition active (id : string) (l : list Execution) : Z := zlen (filter (λ x, ex_request_id x = id) l).
(** The requests an event makes the worker owe an answer for: each [Execute], and each
    [Cancel] of a request that is not running. *)
Definition owed (ev : WorkerEvent) (s : WorkerRun) : list string :=
  match ev with
  | WRead (Ok (Some (Some (FRequest (Some (RExecute e)))))) _ => [xt_request_id e]
  | WRead (Ok (Some (Some (FRequest (Some (RCancel c)))))) _ =>
      match run_cancellations s !! cx_request_id c with Some _ => [] | None => [cx_request_id c] end
  | _ => []
  end.
Definition count (id : string) (l : list string) : Z := zlen (filter (λ x, x = id) l).
Fixpoint owed_along (evs : list WorkerEvent) (s : WorkerRun) : list string :=
  match evs with
  | [] => []
  | ev :: evs => owed ev s ++ match worker_event su fits ev s with Some s' => owed_along evs s' | None => [] end
  end.

(** The frames of an Agent: it initializes a worker once, and its request ids are UUIDs.  The
    pipe is intact. *)
Definition short (id : string) : Prop := (String.length id ≤ 36)%nat.
Definition proper_event (ev : WorkerEvent) : Prop :=
  match ev with
  | WRead (Ok (Some (Some (FRequest (Some (RInitialize _)))))) _ => False
  | WRead (Ok (Some (Some (FRequest (Some (RExecute e)))))) _ => short (xt_request_id e)
  | WRead (Ok (Some (Some (FRequest (Some (RCancel c)))))) _ => short (cx_request_id c)
  | WBreak => False
  | _ => True
  end.

(** Error frames for such ids are small. *)
Context (Hfits : ∀ id code message, short id → code ∈ ["invalid_request"; "unknown_task"; "duplicate_request"; "unknown_request";
    "result_delivery_failed"]%string → fits (error_frame id code message) = true).

Lemma answers_snoc id out f : answers id (out ++ [f]) = answers id out + (if decide (answer_id f = Some id) then 1 else 0).
Proof. unfold answers, zlen. rewrite filter_app, length_app, filter_cons. destruct (decide _); cbn; lia. Qed.
Lemma active_app id l1 l2 : active id (l1 ++ l2) = active id l1 + active id l2.
Proof. unfold active, zlen. rewrite filter_app, length_app. lia. Qed.
Lemma active_cons id x l : active id (x :: l) = (if decide (ex_request_id x = id) then 1 else 0) + active id l.
Proof. unfold active, zlen. rewrite filter_cons. destruct (decide _); cbn [length]; lia. Qed.
Lemma count_app id l1 l2 : count id (l1 ++ l2) = count id l1 + count id l2.
Proof. unfold count, zlen. rewrite filter_app, length_app. lia. Qed.
Lemma count_one id x : count id [x] = if decide (x = id) then 1 else 0.
Proof. unfold count, zlen. rewrite filter_cons. by destruct (decide _). Qed.

#[local] Arguments answers : simpl never.
#[local] Arguments active : simpl never.
#[local] Arguments count : simpl never.

(** What is answered and what is under way. *)
Definition ledger (id : string) (s : WorkerRun) : Z := answers id (run_out s) + active id (run_executions s).
(** The pipe is intact and the ids of the executions are short. *)
Definition sound_pipe (s : WorkerRun) : Prop := run_broken s = false ∧ Forall (λ x, short (ex_request_id x)) (run_executions s).

Lemma reply_error id code message s : sound_pipe s → short id →
  code ∈ ["invalid_request"; "unknown_task"; "duplicate_request"; "unknown_request"; "result_delivery_failed"]%string →
  sound_pipe (reply fits (error_frame id code message) s) ∧ run_phase (reply fits (error_frame id code message) s) = run_phase s ∧
  ∀ r, ledger r (reply fits (error_frame id code message) s) = ledger r s + count r [id].
Proof.
  intros [Hb Hx] Hs Hc. unfold reply, send_response. rewrite Hb, (Hfits _ _ _ Hs Hc). cbn [negb]. split_and!; [done|done|].
  intros r. unfold ledger. cbn. rewrite answers_snoc, count_one. change (answer_id _) with (Some id).
  destruct (decide (Some id = Some r)), (decide (id = r)); try congruence; lia.
Qed.

Lemma on_execute_ledger e now s : sound_pipe s → short (xt_request_id e) →
  sound_pipe (on_execute su fits e now s) ∧ run_phase (on_execute su fits e now s) = run_phase s ∧
  ∀ r, ledger r (on_execute su fits e now s) = ledger r s + count r [xt_request_id e].
Proof.
  intros Hp Hs. unfold on_execute. case_bool_decide as E; [rewrite E; apply reply_error; [done|cbv; lia|set_solver]|].
  destruct (negb _); [apply reply_error; [done|done|set_solver]|].
  destruct (run_cancellations s !! xt_request_id e); [apply reply_error; [done|done|set_solver]|].
  destruct Hp as [Hb Hx]. split_and!; [split; [done|]; cbn; apply Forall_app; by split; [|constructor]|done|].
  intros r. unfold ledger. cbn. rewrite active_app, active_cons, count_one. change (active r []) with 0. cbn. lia.
Qed.

Lemma on_cancel_ledger c s : sound_pipe s → short (cx_request_id c) →
  sound_pipe (on_cancel fits c s) ∧ run_phase (on_cancel fits c s) = run_phase s ∧
  ∀ r, ledger r (on_cancel fits c s) = ledger r s + count r (match run_cancellations s !! cx_request_id c with Some _ => [] | None => [cx_request_id c] end).
Proof.
  intros Hp Hs. unfold on_cancel. destruct (run_cancellations s !! cx_request_id c); [|apply reply_error; [done|done|set_solver]].
  split_and!; [done|done|]. intros r. change (count r []) with 0. unfold ledger. cbn. lia.
Qed.

Lemma send_out f s r s' : send_response fits f s = (r, s') → run_out s' = run_out s ++ (if is_ok r then [f] else []).
Proof. unfold send_response. destruct (run_broken s); [|destruct (negb _)]; intros [= <- <-]; cbn; by rewrite ?app_nil_r. Qed.

Lemma report_ledger i x r s : sound_pipe s → run_executions s !! i = Some x →
  sound_pipe (report fits i x r s) ∧ ∀ id, ledger id (report fits i x r s) = ledger id s.
Proof.
  intros [Hb Hx] Hi. destruct (index_split _ _ _ Hi) as (l1 & l2 & El & _ & Ed).
  assert (short (ex_request_id x)) as Hs by (rewrite Forall_forall in Hx; apply Hx; by eapply list_elem_of_lookup_2).
  assert (Forall (λ x, short (ex_request_id x)) (l1 ++ l2)) as Hx'.
  { rewrite El in Hx. apply Forall_app in Hx as [? Hc]. apply Forall_cons in Hc as [_ ?]. by apply Forall_app. }
  assert (∀ f id (out : list Frame), answer_id f = Some (ex_request_id x) →
            answers id (out ++ [f]) + active id (l1 ++ l2) = answers id out + active id (l1 ++ x :: l2)) as Hcount.
  { intros f id out Hf. rewrite answers_snoc, Hf, !active_app, active_cons.
    destruct (decide (Some (ex_request_id x) = Some id)), (decide (ex_request_id x = id)); try congruence; lia. }
  unfold report, send_response. cbn [run_broken set_executions]. rewrite Hb. rewrite Ed. destruct (fits (response _)); cbn [negb].
  - split; [by split|]. intros id. unfold ledger. cbn. rewrite El. apply Hcount. unfold task_result. by destruct r.
  - rewrite Hfits by (done || set_solver). cbn [negb run_broken set_executions]. rewrite Hb. cbn [snd]. split; [by split|]. intros id. unfold ledger. cbn. rewrite El. by apply Hcount.
Qed.

(** The frame sent after the executions have ended answers no request. *)
Definition last_silent (s : WorkerRun) : Prop :=
  match run_phase s with Draining _ (Some f) _ => answer_id f = None | _ => True end.

Lemma reply_silent f s : last_silent s → last_silent (reply fits f s).
Proof.
  intros H. unfold reply. destruct (send_response fits f s) as [[[]|] s'] eqn:E; [|done].
  apply send_response_same in E as (_ & _ & _ & Hp & _). unfold last_silent. by rewrite Hp.
Qed.

Lemma worker_event_silent ev s s' : last_silent s → worker_event su fits ev s = Some s' → last_silent s'.
Proof.
  intros Hs H. destruct ev as [r now|i|i e|i| |]; cbn in H.
  - destruct (run_phase s); [|done..]. injection H as <-. unfold on_read, on_execute, on_cancel.
    destruct r as [[[[[[]|]|]|]|]|]; try done; repeat (case_bool_decide || case_match); try apply reply_silent; done.
  - apply bind_Some in H as (x & _ & H). destruct (ex_phase x); [|done..]. case_bool_decide; [|done]. by injection H as <-.
  - apply bind_Some in H as (x & _ & H). destruct (may_end x e); [|done]. by injection H as <-.
  - apply bind_Some in H as (x & _ & H). destruct (ex_phase x); [done..|]. injection H as <-. unfold last_silent. by rewrite report_phase.
  - by injection H as <-.
  - destruct (run_phase s) as [|reason last0 r|]; [done| |done]. destruct (run_executions s); [|done]. injection H as <-.
    destruct (shut_down_ended su fits reason last0 r s) as (r' & E & _). unfold last_silent. by rewrite E.
Qed.

Lemma same_ids_ledger i x y s : run_executions s !! i = Some x → ex_request_id y = ex_request_id x → sound_pipe s →
  Forall (λ x, short (ex_request_id x)) (<[i := y]> (run_executions s)) ∧
  ∀ id, active id (<[i := y]> (run_executions s)) = active id (run_executions s).
Proof.
  intros Hi Hy [_ Hx]. destruct (index_split _ _ _ Hi) as (l1 & l2 & El & Ei & _). rewrite Ei. rewrite El in Hx |- *. split.
  - apply Forall_app in Hx as [? Hc]. apply Forall_cons in Hc as [? ?]. apply Forall_app. split; [done|]. constructor; [by rewrite Hy|done].
  - intros id. by rewrite !active_app, !active_cons, Hy.
Qed.

Lemma shut_down_ledger reason last0 r s : sound_pipe s → run_executions s = [] → (∀ f, last0 = Some f → answer_id f = None) →
  sound_pipe (shut_down su fits reason last0 r s) ∧ ∀ id, ledger id (shut_down su fits reason last0 r s) = ledger id s.
Proof.
  intros [Hb Hx] He Hl. unfold shut_down. destruct last0 as [f|]; [|by split; [split; [|constructor]|intros id; unfold ledger; cbn; rewrite He]].
  unfold send_response. cbn [run_broken]. rewrite Hb. destruct (negb (fits f)); cbn.
  - split; [split; [done|constructor]|]. intros id. unfold ledger. cbn. by rewrite He.
  - split; [split; [done|constructor]|]. intros id. unfold ledger. cbn. rewrite answers_snoc, (Hl _ eq_refl), He.
    destruct (decide (None = Some id)); [done|lia].
Qed.

Lemma worker_event_ledger ev s s' : proper_event ev → sound_pipe s → last_silent s → worker_event su fits ev s = Some s' →
  sound_pipe s' ∧ ∀ id, ledger id s' = ledger id s + count id (owed ev s).
Proof.
  intros Hev Hp Hl H. assert (∀ s1, sound_pipe s1 → (∀ id, ledger id s1 = ledger id s) →
    sound_pipe s1 ∧ ∀ id, ledger id s1 = ledger id s + count id []) as Hsame.
  { intros s1 H1 H2. split; [done|]. intros id. change (count id []) with 0. rewrite H2. lia. }
  destruct ev as [r now|i|i e|i| |]; cbn in H; try (change (owed _ s) with (@nil string)).
  - destruct (run_phase s); [|done..]. injection H as <-. destruct r as [[[[[[]|]|]|]|]|]; cbn in Hev |- *; try done; try by apply Hsame.
    + destruct (on_execute_ledger e now s Hp Hev) as (? & _ & ?). done.
    + destruct (on_cancel_ledger c s Hp Hev) as (? & _ & ?). done.
  - apply bind_Some in H as (x & Hx & H). destruct (ex_phase x); [|done..]. case_bool_decide; [|done]. injection H as <-.
    destruct (same_ids_ledger i x (set_ex_phase Executing x) s Hx eq_refl Hp) as [Hf Ha]. destruct Hp as [Hb _].
    apply Hsame; [by split|]. intros id. unfold ledger. cbn. by rewrite Ha.
  - apply bind_Some in H as (x & Hx & H). destruct (may_end x e); [|done]. injection H as <-.
    destruct (same_ids_ledger i x (set_ex_phase (Reporting (end_result e)) x) s Hx eq_refl Hp) as [Hf Ha]. destruct Hp as [Hb _].
    apply Hsame; [by split|]. intros id. unfold ledger. cbn. by rewrite Ha.
  - apply bind_Some in H as (x & Hx & H). destruct (ex_phase x) as [| |r]; [done..|]. injection H as <-.
    destruct (report_ledger i x r s Hp Hx) as [? ?]. by apply Hsame.
  - done.
  - unfold last_silent in Hl. destruct (run_phase s) as [|reason last0 r|]; [done| |done]. destruct (run_executions s) eqn:E; [|done].
    injection H as <-. destruct (shut_down_ledger reason last0 r s Hp E) as [? ?]; [|by apply Hsame]. intros f ->. done.
Qed.

Lemma worker_run_ledger evs s s' : Forall proper_event evs → sound_pipe s → last_silent s → worker_run su fits evs s = Some s' →
  sound_pipe s' ∧ last_silent s' ∧ ∀ id, ledger id s' = ledger id s + count id (owed_along evs s).
Proof.
  revert s. induction evs as [|ev evs IH]; intros s Hev Hp Hl H; cbn in H |- *.
  - injection H as <-. split_and!; [done|done|]. intros id. change (count id []) with 0. lia.
  - apply Forall_cons in Hev as [He Hev]. apply bind_Some in H as (s1 & H1 & H). rewrite H1.
    destruct (worker_event_ledger _ _ _ He Hp Hl H1) as [Hp1 Hc1]. pose proof (worker_event_silent _ _ _ Hl H1) as Hl1.
    destruct (IH _ Hev Hp1 Hl1 H) as (? & ? & Hc). split_and!; [done|done|]. intros id. rewrite Hc, Hc1, count_app. lia.
Qed.

Lemma run_start_sound : sound_pipe (run_start su) ∧ last_silent (run_start su) ∧ ∀ id, ledger id (run_start su) = 0.
Proof. split_and!; [split; [done|constructor]|done|]. intros id. reflexivity. Qed.

End Answers.

(** ** Draining *)

Section Drain.
Context (su : WorkerSetup) (fits : Frame → bool).

Definition phase_weight (x : Execution) : nat := match ex_phase x with Waiting => 3 | Executing => 2 | Reporting _ => 1 end.
Definition weight (s : WorkerRun) : nat :=
  sum_list_with phase_weight (run_executions s) + match run_phase s with Ended _ => 0 | _ => 1 end.
(** The shutdown of the tasks is still to come, or has been done once. *)
Definition draining (reason : string) (before : list (string * string)) (s : WorkerRun) : Prop :=
  match run_phase s with
  | Serving => False
  | Draining reason' _ _ => reason' = reason ∧ run_shutdowns s = before
  | Ended _ => run_executions s = [] ∧ run_shutdowns s = before ++ ((λ kind, (kind, reason)) <$> su_task_kinds su)
  end.

Lemma weight_insert l i x y : l !! i = Some x → (phase_weight y < phase_weight x)%nat →
  (sum_list_with phase_weight (<[i := y]> l) < sum_list_with phase_weight l)%nat.
Proof.
  intros Hi Hw. destruct (index_split _ _ _ Hi) as (l1 & l2 & El & Ei & _). rewrite Ei, El, !sum_list_with_app. cbn. lia.
Qed.

Lemma report_weight i x r s : run_executions s !! i = Some x →
  (sum_list_with phase_weight (run_executions (report fits i x r s)) < sum_list_with phase_weight (run_executions s))%nat ∧
  run_shutdowns (report fits i x r s) = run_shutdowns s.
Proof.
  intros Hi. destruct (index_split _ _ _ Hi) as (l1 & l2 & El & _ & Ed).
  assert (sum_list_with phase_weight (delete i (run_executions s)) < sum_list_with phase_weight (run_executions s))%nat as Hlt.
  { rewrite Ed, El, !sum_list_with_app. cbn. assert (0 < phase_weight x)%nat by (unfold phase_weight; destruct (ex_phase x); lia). lia. }
  unfold report. destruct (send_response _ _ _) as [[[]|] s1] eqn:H1; apply send_response_same in H1 as (A1 & _ & _ & _ & _ & A2).
  - rewrite A1, A2. done.
  - destruct (send_response fits (error_frame _ _ _) s1) as [r2 s2] eqn:H2. cbn [snd].
    apply send_response_same in H2 as (B1 & _ & _ & _ & _ & B2). rewrite B1, A1, B2, A2. done.
Qed.

Lemma drain_step reason before ev s s' : draining reason before s → ev ≠ WBreak → worker_event su fits ev s = Some s' →
  draining reason before s' ∧ (weight s' < weight s)%nat.
Proof.
  intros Hd Hev H. unfold draining, weight in *. destruct ev as [r now|i|i e|i| |]; cbn in H; [| | | |done|].
  - by destruct (run_phase s).
  - apply bind_Some in H as (x & Hx & H). destruct (ex_phase x) eqn:Hp; [|done..]. case_bool_decide; [|done]. injection H as <-. cbn.
    pose proof (weight_insert _ _ _ (set_ex_phase Executing x) Hx) as Hw. unfold phase_weight in Hw at 1 2. cbn in Hw. rewrite Hp in Hw.
    specialize (Hw ltac:(lia)). destruct (run_phase s); [done|by split; [|lia]|]. destruct Hd as [Hd _]. by rewrite Hd in Hx.
  - apply bind_Some in H as (x & Hx & H). destruct (may_end x e) eqn:He; [|done]. injection H as <-. cbn.
    pose proof (weight_insert _ _ _ (set_ex_phase (Reporting (end_result e)) x) Hx) as Hw. unfold phase_weight in Hw at 1 2. cbn in Hw.
    assert (1 < match ex_phase x with Waiting => 3 | Executing => 2 | Reporting _ => 1 end)%nat as Hlt
      by (unfold may_end in He; destruct (ex_phase x); [lia..|done]).
    specialize (Hw Hlt). destruct (run_phase s); [done|by split; [|lia]|]. destruct Hd as [Hd _]. by rewrite Hd in Hx.
  - apply bind_Some in H as (x & Hx & H). destruct (ex_phase x) as [| |r]; [done..|]. injection H as <-.
    destruct (report_weight i x r s Hx) as [Hw Hsh]. rewrite report_phase, Hsh.
    destruct (run_phase s); [done|by split; [|lia]|]. destruct Hd as [Hd _]. by rewrite Hd in Hx.
  - destruct (run_phase s) as [|reason' last0 r|]; [done| |done]. destruct (run_executions s) eqn:E; [|done]. destruct Hd as [-> Hd].
    injection H as <-. destruct (shut_down_ended su fits reason last0 r s) as (r' & E1 & E2). rewrite E1, E2. cbn. split; [|lia].
    split; [done|]. unfold shut_down. destruct last0; [|cbn; by rewrite Hd].
    destruct (send_response _ _ _) as [[[]|] s1] eqn:H1; apply send_response_same in H1 as (_ & _ & _ & _ & _ & A); cbn in *; by rewrite A, Hd.
Qed.

Lemma drain_steps reason before evs s s' : draining reason before s → Forall (λ ev, ev ≠ WBreak) evs →
  worker_run su fits evs s = Some s' → draining reason before s' ∧ (length evs + weight s' ≤ weight s)%nat.
Proof.
  revert s. induction evs as [|ev evs IH]; intros s Hd Hev H; cbn in H |- *; [injection H as <-; by split; [|lia]|].
  apply Forall_cons in Hev as [He Hev]. apply bind_Some in H as (s1 & H1 & H). destruct (drain_step _ _ _ _ _ Hd He H1) as [Hd1 Hw].
  destruct (IH _ Hd1 Hev H) as [? ?]. split; [done|lia].
Qed.

(** Something can always happen before the end, if every running task returns. *)
Lemma drain_progress s : 1 ≤ su_effective su → run_inv su s → run_phase s ≠ Serving → (∀ r, run_phase s ≠ Ended r) →
  ∃ ev s', ev ≠ WBreak ∧ worker_event su fits ev s = Some s'.
Proof.
  intros Heff Hinv Hs He. destruct (run_executions s) as [|x l] eqn:El.
  - destruct (run_phase s) as [|reason last0 r|r] eqn:Hp; [done| |by destruct (He r)]. exists WDrained. cbn. rewrite Hp, El. eauto.
  - assert (run_executions s !! 0%nat = Some x) as Hx by by rewrite El. destruct (ex_phase x) as [| |r] eqn:Hp.
    + assert (run_ok su s) as [[Hp0 Hp1] _] by (apply run_inv_live; [done|by rewrite El]). destruct (decide (0 < run_permits s)) as [Hpos|Hpos].
      * exists (WAcquire 0). cbn. rewrite Hx. cbn. rewrite Hp, bool_decide_eq_true_2 by done. eauto.
      * assert (∃ y, y ∈ run_executions s ∧ is_executing y = true) as (y & Hy & Hye).
        { destruct (filter (λ y, is_executing y = true) (run_executions s)) as [|y ys] eqn:Hf; [unfold executing, zlen in Hp1; rewrite Hf in Hp1; cbn in Hp1; lia|].
          exists y. assert (y ∈ filter (λ y, is_executing y = true) (run_executions s)) as Hy by (rewrite Hf; left).
          by apply list_elem_of_filter in Hy as [? ?]. }
        apply list_elem_of_lookup_1 in Hy as [j Hj]. exists (WFinish j TaskPanicked). cbn. rewrite Hj. cbn. unfold may_end.
        unfold is_executing in Hye. destruct (ex_phase y); [done| |done]. eauto.
    + exists (WFinish 0 TaskPanicked). cbn. rewrite Hx. cbn. unfold may_end. rewrite Hp. eauto.
    + exists (WReport 0). cbn. rewrite Hx. cbn. rewrite Hp. eauto.
Qed.

(** A worker that drains has cancelled every token. *)
Definition all_cancelled (s : WorkerRun) : Prop :=
  match run_phase s with Draining _ _ _ => map_Forall (λ _ b, b = true) (run_cancellations s) | _ => True end.

Lemma reply_cancelled f s : run_phase s = Serving → all_cancelled (reply fits f s).
Proof.
  intros Hp. unfold reply. destruct (send_response fits f s) as [[[]|] s'] eqn:E; [|done].
  apply send_response_same in E as (_ & _ & _ & E & _). unfold all_cancelled. by rewrite E, Hp.
Qed.

Lemma drain_cancelled reason last r s : all_cancelled (drain reason last r s).
Proof. intros id b. cbn. rewrite lookup_fmap. destruct (run_cancellations s !! id); cbn; by intros [= <-]. Qed.

Lemma worker_event_cancelled ev s s' : all_cancelled s → worker_event su fits ev s = Some s' → all_cancelled s'.
Proof.
  intros Hs H. destruct ev as [r now|i|i e|i| |]; cbn in H.
  - destruct (run_phase s) eqn:Hp; [|done..]. injection H as <-. unfold on_read, on_execute, on_cancel.
    destruct r as [[[[[[]|]|]|]|]|]; try apply drain_cancelled; repeat (case_bool_decide || case_match);
      try (by apply reply_cancelled); unfold all_cancelled; cbn; by rewrite ?Hp.
  - apply bind_Some in H as (x & _ & H). destruct (ex_phase x); [|done..]. case_bool_decide; [|done]. by injection H as <-.
  - apply bind_Some in H as (x & _ & H). destruct (may_end x e); [|done]. injection H as <-. unfold all_cancelled in *. cbn.
    destruct (run_phase s); [done| |done]. by apply map_Forall_delete.
  - apply bind_Some in H as (x & _ & H). destruct (ex_phase x) as [| |r]; [done..|]. injection H as <-. unfold all_cancelled in *.
    rewrite report_phase. destruct (run_phase s); [done| |done]. unfold report.
    destruct (send_response _ _ _) as [[[]|] s1] eqn:H1; apply send_response_same in H1 as (_ & A & _); [by rewrite A|].
    destruct (send_response fits (error_frame _ _ _) s1) as [r2 s2] eqn:H2. apply send_response_same in H2 as (_ & B & _). cbn [snd].
    by rewrite B, A.
  - by injection H as <-.
  - destruct (run_phase s) as [|reason last0 r|]; [done| |done]. destruct (run_executions s); [|done]. injection H as <-.
    destruct (shut_down_ended su fits reason last0 r s) as (r' & E & _). unfold all_cancelled. by rewrite E.
Qed.

Lemma worker_run_cancelled evs s s' : all_cancelled s → worker_run su fits evs s = Some s' → all_cancelled s'.
Proof.
  revert s. induction evs as [|ev evs IH]; intros s Hs H; cbn in H; [by injection H as <-|].
  apply bind_Some in H as (s1 & H1 & H). eapply IH; [|done]. by eapply worker_event_cancelled.
Qed.

Lemma weight_bound s : (weight s ≤ 3 * length (run_executions s) + 1)%nat.
Proof.
  unfold weight. assert (∀ l, sum_list_with phase_weight l ≤ 3 * length l)%nat as Hl.
  { induction l as [|x l IH]; cbn; [lia|]. unfold phase_weight at 1. destruct (ex_phase x); lia. }
  specialize (Hl (run_executions s)). destruct (run_phase s); lia.
Qed.

(** What is answered by the end, before the last frame. *)
Context (Hfits : ∀ id code message, short id → code ∈ ["invalid_request"; "unknown_task"; "duplicate_request"; "unknown_request";
    "result_delivery_failed"]%string → fits (error_frame id code message) = true).

Definition closing (last0 : option Frame) (base : string → Z) (s : WorkerRun) : Prop :=
  match run_phase s with
  | Serving => False
  | Draining _ l _ => l = last0 ∧ sound_pipe s ∧ last_silent s ∧ ∀ id, ledger id s = base id
  | Ended _ => run_executions s = [] ∧ ∃ out, run_out s = out ++ option_list last0 ∧ ∀ id, answers id out = base id
  end.

Lemma shut_down_out reason last0 r s : run_broken s = false → (∀ f, last0 = Some f → fits f = true) →
  run_out (shut_down su fits reason last0 r s) = run_out s ++ option_list last0.
Proof.
  intros Hb Hl. unfold shut_down. destruct last0 as [f|]; [|cbn; by rewrite app_nil_r].
  unfold send_response. cbn [run_broken]. by rewrite Hb, (Hl f eq_refl).
Qed.

Lemma closing_step last0 base ev s s' : (∀ f, last0 = Some f → fits f = true) → closing last0 base s → ev ≠ WBreak →
  worker_event su fits ev s = Some s' → closing last0 base s'.
Proof.
  intros Hlast Hc Hev H. unfold closing in Hc. destruct (run_phase s) as [|reason l r|r] eqn:Hp; [done| |].
  - destruct Hc as (-> & Hs & Hl & Hb).
    assert (proper_event ev ∧ owed ev s = []) as [Hpr Ho] by (destruct ev; try done; cbn in H; by rewrite Hp in H).
    destruct (worker_event_ledger su fits Hfits _ _ _ Hpr Hs Hl H) as [Hs' Hled].
    pose proof (worker_event_silent su fits _ _ _ Hl H) as Hl'.
    assert (∀ id, ledger id s' = base id) as Hb'
      by (intros id; rewrite Hled, Ho, Hb; change (count id []) with 0; lia).
    unfold closing. destruct ev as [r' now|i|i e|i| |]; cbn in H; [by rewrite Hp in H|..|done|].
    + apply bind_Some in H as (x & _ & H). destruct (ex_phase x); [|done..]. case_bool_decide; [|done]. injection H as <-.
      cbn [run_phase set_executions set_permits]. by rewrite Hp.
    + apply bind_Some in H as (x & _ & H). destruct (may_end x e); [|done]. injection H as <-.
      cbn [run_phase finish set_executions set_permits set_cancellations]. by rewrite Hp.
    + apply bind_Some in H as (x & _ & H). destruct (ex_phase x); [done..|]. injection H as <-. rewrite report_phase. by rewrite Hp.
    + rewrite Hp in H. destruct (run_executions s) eqn:E; [|done]. injection H as <-.
      destruct (shut_down_ended su fits reason last0 r s) as (r' & E1 & E2). rewrite E1. split; [done|].
      exists (run_out s). destruct Hs as [Hbr _]. split; [by apply shut_down_out|]. intros id. rewrite <-Hb. unfold ledger.
      rewrite E. change (active id []) with 0. lia.
  - destruct Hc as [E _]. destruct ev; cbn in H; rewrite ?Hp, ?E in H; done.
Qed.

Lemma closing_run last0 base evs s s' : (∀ f, last0 = Some f → fits f = true) → closing last0 base s →
  Forall (λ ev, ev ≠ WBreak) evs → worker_run su fits evs s = Some s' → closing last0 base s'.
Proof.
  intros Hl. revert s. induction evs as [|ev evs IH]; intros s Hc Hev H; cbn in H; [by injection H as <-|].
  apply Forall_cons in Hev as [He Hev]. apply bind_Some in H as (s1 & H1 & H). eapply IH; [|done|done]. by eapply closing_step.
Qed.

End Drain.

(** ** The reader of the Agent *)

(** The first answer for a request among the frames. *)
Definition frame_answer (f : Frame) : option (string * Answer) :=
  match f with Some (FResponse (Some b)) => response_answer b | _ => None end.
Fixpoint first_answer (id : string) (frames : list Frame) : option Answer :=
  match frames with
  | [] => None
  | f :: frames =>
      match frame_answer f with
      | Some (id', a) => if decide (id' = id) then Some a else first_answer id frames
      | None => first_answer id frames
      end
  end.
Definition delivered_for (id : string) (s : ClientState) : list Answer := (filter (λ d, d.1 = id) (cl_delivered s)).*2.

Lemma reader_frame_answer f s : reader_frame f s = match frame_answer f with Some (id, a) => deliver id a s | None => s end.
Proof. unfold reader_frame, frame_answer. by destruct f as [[|[]]|]. Qed.

Lemma deliver_for id id' a s :
  delivered_for id (deliver id' a s) = delivered_for id s ++ (if decide (id' = id ∧ id ∈ cl_pending s) then [a] else []) ∧
  (id ∈ cl_pending (deliver id' a s) ↔ id ∈ cl_pending s ∧ id' ≠ id).
Proof.
  unfold deliver, delivered_for. case_bool_decide as Hin; cbn.
  - rewrite filter_app, fmap_app, filter_cons. cbn. split; [|set_solver]. f_equal.
    destruct (decide (id' = id)) as [->|]; [rewrite decide_True by done|rewrite decide_False by naive_solver]; done.
  - split; [|set_solver]. rewrite decide_False, app_nil_r; [done|]. intros [-> ?]. done.
Qed.

(** A request that is not registered is not answered. *)
Lemma client_absent id evs s : id ∉ cl_pending s → CRequest id ∉ evs →
  id ∉ cl_pending (foldl client_event s evs) ∧ delivered_for id (foldl client_event s evs) = delivered_for id s.
Proof.
  revert s. induction evs as [|ev evs IH]; intros s Hs Hev; [done|].
  apply not_elem_of_cons in Hev as [Hne Hev]. cbn [foldl].
  assert (id ∉ cl_pending (client_event s ev) ∧ delivered_for id (client_event s ev) = delivered_for id s) as [H1 H2].
  { destruct ev as [id'|f|id']; cbn; [|rewrite reader_frame_answer|].
    - split; [set_solver|done].
    - destruct (frame_answer f) as [[id' a]|]; [|done]. destruct (deliver_for id id' a s) as [-> ->].
      rewrite decide_False by naive_solver. rewrite app_nil_r. naive_solver.
    - split; [set_solver|done]. }
  destruct (IH _ H1 Hev) as [? ->]. done.
Qed.

(** A registered request gets the first answer that arrives for it. *)
Lemma client_registered id evs s : id ∈ cl_pending s → CRequest id ∉ evs → CForget id ∉ evs →
  let s' := foldl client_event s evs in
  delivered_for id s' = delivered_for id s ++ option_list (first_answer id (frames_read evs)) ∧
  (id ∈ cl_pending s' ↔ first_answer id (frames_read evs) = None).
Proof.
  revert s. induction evs as [|ev evs IH]; intros s Hs Hev Hfo.
  { cbn. by rewrite app_nil_r. }
  apply not_elem_of_cons in Hev as [Hne Hev]. apply not_elem_of_cons in Hfo as [Hnf Hfo].
  destruct ev as [id'|f|id']; cbn [foldl].
  - apply (IH (register id' s)); [cbn; set_solver|done..].
  - change (frames_read (CFrame f :: evs)) with (f :: frames_read evs). cbn [first_answer client_event].
    rewrite reader_frame_answer. destruct (frame_answer f) as [[id' a]|]; [|by apply IH].
    destruct (deliver_for id id' a s) as [D1 D2]. destruct (decide (id' = id)) as [->|Hne'].
    + rewrite decide_True in D1 by done. assert (id ∉ cl_pending (deliver id a s)) as Hno by naive_solver.
      destruct (client_absent id evs _ Hno Hev) as [A1 A2]. cbn. rewrite A2, D1. naive_solver.
    + rewrite decide_False, app_nil_r in D1 by naive_solver. rewrite <-D1. apply IH; [naive_solver|done..].
  - apply (IH (forget id' s)); [cbn; set_solver|done..].
Qed.

(** The end of the reader tells those that still wait. *)
Lemma reader_end_for id s :
  delivered_for id (reader_end s) = delivered_for id s ++ (if decide (id ∈ cl_pending s) then [Err WClosed] else []).
Proof.
  unfold reader_end, delivered_for. cbn. rewrite filter_app, fmap_app. f_equal.
  assert (∀ l : list string, NoDup l → (filter (λ d : string * Answer, d.1 = id) ((λ i, (i, Err WClosed)) <$> l)).*2 =
    if decide (id ∈ l) then [Err WClosed] else []) as Hrest.
  { induction l as [|i l IHl]; intros Hnd; [done|]. apply NoDup_cons in Hnd as [Hni Hnd]. specialize (IHl Hnd). rewrite fmap_cons, filter_cons. cbn [fst].
    destruct (decide (i = id)) as [->|Hne].
    - rewrite fmap_cons, (decide_True (P := id ∈ id :: l)) by left. f_equal. etrans; [exact IHl|]. by rewrite decide_False.
    - etrans; [exact IHl|]. destruct (decide (id ∈ l)); [rewrite decide_True by (by right)|rewrite decide_False by set_solver]; done. }
  rewrite Hrest by apply NoDup_elements. apply decide_ext. apply elem_of_elements.
Qed.

(** A request of the life of a client: registered once, not given up, and not answered
    before it was made. *)
Record awaited (id : string) (evs : list ClientEvent) : Prop := mkAwaited {
  aw_split : ∃ before after, evs = before ++ CRequest id :: after ∧ CRequest id ∉ before ∧ CRequest id ∉ after ∧
    CForget id ∉ after ∧ first_answer id (frames_read before) = None;
}.

Lemma first_answer_app id l1 l2 : first_answer id l1 = None → first_answer id (l1 ++ l2) = first_answer id l2.
Proof.
  induction l1 as [|f l1 IH]; [done|]. cbn. destruct (frame_answer f) as [[id' a]|]; [|done]. by destruct (decide _).
Qed.

Lemma client_run_for id evs : awaited id evs →
  delivered_for id (client_run evs) = [default (Err WClosed) (first_answer id (frames_read evs))].
Proof.
  intros [(before & after & -> & Hb & Ha & Hf & Hn)]. unfold client_run. rewrite reader_end_for, foldl_app. cbn [foldl].
  destruct (client_absent id before (mkClientState ∅ [] false)) as [B1 B2]; [set_solver|done|].
  set (s := foldl client_event _ before) in *.
  destruct (client_registered id after (register id s)) as [A1 A2]; [cbn; set_solver|done..|].
  change (client_event s (CRequest id)) with (register id s). rewrite A1.
  change (delivered_for id (register id s)) with (delivered_for id s). rewrite B2.
  assert (frames_read (before ++ CRequest id :: after) = frames_read before ++ frames_read after) as ->
    by (unfold frames_read; by rewrite omap_app).
  rewrite first_answer_app by done. destruct (first_answer id (frames_read after)); cbn.
  - rewrite decide_False; [done|]. rewrite A2. done.
  - rewrite decide_True; [done|]. by apply A2.
Qed.

(** ** Theorems *)

(** A request has a first answer if and only if it has one. *)
Lemma first_answer_count id frames : is_Some (first_answer id frames) ↔ 0 < answers id frames.
Proof.
  assert (∀ g, answer_id g = fst <$> frame_answer g) as Hid by (by intros [[|[]]|]).
  unfold answers, zlen. induction frames as [|g frames IH]; [split; [by intros [? ?]|cbn; lia]|]. rewrite filter_cons, Hid. cbn [first_answer].
  destruct (frame_answer g) as [[id' a]|]; cbn; [|by rewrite decide_False].
  destruct (decide (id' = id)) as [->|Hne]; [rewrite decide_True by done|rewrite decide_False by congruence]; [|done].
  split; [cbn; lia|by eexists].
Qed.

(** C37. A worker never runs more tasks at once than were agreed, whatever it is sent and
    however tasks and pipes fail; while it is at work no permit is lost, a request id
    belongs to at most one execution, and exactly the requests that have not ended can be
    cancelled. *)
Theorem worker_concurrency_bounded su fits evs s :
  0 ≤ su_effective su → worker_run su fits evs (run_start su) = Some s →
  executing (run_executions s) ≤ su_effective su ∧
  ((∀ r, run_phase s ≠ Ended r) →
     run_permits s + executing (run_executions s) = su_effective su ∧ NoDup (token_ids (run_executions s)) ∧
     ∀ id, is_Some (run_cancellations s !! id) ↔ id ∈ token_ids (run_executions s)).
Proof.
  intros Heff H. pose proof (worker_run_inv su fits _ _ _ (run_start_inv su Heff) H) as Hinv. unfold run_inv in Hinv.
  destruct (run_phase s) as [| |r] eqn:Hp.
  - destruct Hinv as [[? ?] [? ?]]. split; [lia|]. done.
  - destruct Hinv as [[? ?] [? ?]]. split; [lia|]. done.
  - rewrite Hinv. split; [done|]. intros Hne. by destruct (Hne r).
Qed.



(** The result of a task reaches the scheduler: what the task returned, a configuration error
    as permanent, and every other error as one to try again. *)
Lemma task_result_reaches_scheduler config sample id run r :
  ∃ a, response_answer (SResult (task_result id run r)) = Some (id, a) ∧
  match r with
  | Ok o => ∃ v, plugin_task_run config sample a = Ok v ∧ tr_result v = Some (Result_Plugin (mkPluginTaskResult (ptc_plugin_id config)
      (ptc_plugin_version config) (ptc_task_kind config) (ptc_schema_version config) (po_summary o) (po_metrics o) (po_payload o)))
  | Err (PInvalidConfig _) => ∃ m, plugin_task_run config sample a = Err (TaskErrPermanent m)
  | Err _ => ∃ m, plugin_task_run config sample a = Err (TaskErrTransient m)
  end.
Proof. destruct r as [o|[]]; (eexists; split; [reflexivity|]); cbn; eauto. Qed.

(** ** A run *)

Definition demo_setup : WorkerSetup := mkSetup ["echo.v1"%string] default_agent_context 1.
Definition demo_fits (f : Frame) : bool := match f with Some (FResponse (Some (SResult r))) => bool_decide (zlen (wt_payload r) ≤ 3) | _ => true end.
Definition demo_execute (id : string) (kind : string) : WorkerEvent :=
  WRead (Ok (Some (request (RExecute (mkExecute id [1] kind 1 [] 0))))) None.
Definition demo_output (n : nat) : TaskEnd := TaskReturned (Ok (mkOutput "done" [] (replicate n 0))).
(** Two tasks, the second with a result that is too large, then the shutdown. *)
Definition demo_worker_events : list WorkerEvent :=
  [demo_execute "a" "echo.v1"; demo_execute "b" "echo.v1"; demo_execute "a" "echo.v1"; WAcquire 0;
   WRead (Ok (Some (request (RShutdown "replaced")))) None; WFinish 0 (demo_output 2); WReport 0; WAcquire 0;
   WFinish 0 (demo_output 9); WReport 0; WDrained].
Definition demo_ended : WorkerRun := default (run_start demo_setup) (worker_run demo_setup demo_fits demo_worker_events (run_start demo_setup)).

Lemma demo_worker_ended : worker_run demo_setup demo_fits demo_worker_events (run_start demo_setup) = Some demo_ended.
Proof. vm_compute. reflexivity. Qed.

Lemma worker_concurrency_bounded_witness : executing (run_executions demo_ended) ≤ 1.
Proof.
  refine (proj1 (worker_concurrency_bounded demo_setup demo_fits demo_worker_events demo_ended _ demo_worker_ended)).
  vm_compute. discriminate.
Defined.

(** The request "a" is made first, and the request "b" after the first frame arrived. *)
Definition demo_client : list ClientEvent :=
  CRequest "a" :: (CFrame <$> take 1 (run_out demo_ended)) ++ CRequest "b" :: (CFrame <$> drop 1 (run_out demo_ended)).
Lemma only_frames ev (frames : list Frame) : (∀ f, ev ≠ CFrame f) → ev ∉ CFrame <$> frames.
Proof. intros H (f & -> & _)%list_elem_of_fmap. by destruct (H f). Qed.

Definition demo_draining : WorkerRun :=
  default (run_start demo_setup) (worker_run demo_setup demo_fits (take 5 demo_worker_events) (run_start demo_setup)).
