(* ===== verification/PluginManager.v ===== *)
(** * The plugin manager of the Agent

    [crates/smalux-agent/src/plugins/manager.rs]: the workers of the plugins the Server
    configures, their restart after a crash, and the pause after repeated crashes.

    The manager is driven by the event loop of the Agent, one operation at a time; tasks
    only read it.  A worker is the number of its process.  What leaves the manager is
    answered by arguments: how the start of a process goes ([StartAnswers] of
    [WorkerProtocol.v], by the number of the attempt), what [try_wait] finds, and the
    clocks.  [pm_children] are the processes that were started and neither ended on their
    own nor were shut down. *)

From stdpp Require Import base gmap strings list pretty sorting.
From S2P Require Import Prelude Rotation Proto Catalog Paging Policy Reports WebStore WebMetrics Session PlusSchema SchemaStore WorkerFrames PluginCatalog WorkerProtocol.

(** ** State *)

Record PluginRuntimeLimits : Type := mkLimits {
  lm_max_workers : Z;
  lm_max_concurrency : Z;
  lm_task_timeout : Z;
  lm_shutdown_timeout : Z;
  lm_startup_timeout : Z;
  lm_restart_max_attempts : Z;
  lm_restart_window : Z;
}.

Inductive WorkerState : Type := Running | Restarting | Paused.
#[export] Instance WorkerState_eq_dec : EqDecision WorkerState.
Proof. solve_decision. Defined.

(** [ManagedWorker]; instants are in nanoseconds. *)
Record ManagedWorker : Type := mkManaged {
  mw_worker : option nat;
  mw_config : bytes;
  mw_runtime_config_version : Z;
  mw_requested_concurrency : Z;
  mw_effective_concurrency : Z;
  mw_config_revision : Z;
  mw_state : WorkerState;
  mw_failures : list Z;
  mw_failure_window_started : option Z;
  mw_failure_window_started_at_ms : option Z;
  mw_next_restart : option Z;
  mw_paused_at_ms : option Z;
  mw_last_exit_reason : option string;
  mw_last_error : option string;
  mw_server_pause_acknowledged : bool;
  mw_generation : Z;
}.

Notation Key := (string * string)%type.
Record PluginManager : Type := mkManager {
  pm_catalog : PluginCatalog;
  pm_agent_context : AgentContext;
  pm_limits : PluginRuntimeLimits;
  pm_workers : gmap Key ManagedWorker;
  pm_pause_notices : gmap Key PluginPauseNotice;
  pm_pause_notice_sent : gset Key;
  pm_next_generation : Z;
  pm_started : nat;
  pm_children : gset nat;
}.
Definition set_workers (m : gmap Key ManagedWorker) (s : PluginManager) : PluginManager :=
  mkManager (pm_catalog s) (pm_agent_context s) (pm_limits s) m (pm_pause_notices s) (pm_pause_notice_sent s)
    (pm_next_generation s) (pm_started s) (pm_children s).
Definition set_notices (m : gmap Key PluginPauseNotice) (sent : gset Key) (s : PluginManager) : PluginManager :=
  mkManager (pm_catalog s) (pm_agent_context s) (pm_limits s) (pm_workers s) m sent
    (pm_next_generation s) (pm_started s) (pm_children s).
Definition set_children (started : nat) (children : gset nat) (s : PluginManager) : PluginManager :=
  mkManager (pm_catalog s) (pm_agent_context s) (pm_limits s) (pm_workers s) (pm_pause_notices s) (pm_pause_notice_sent s)
    (pm_next_generation s) started children.
Definition set_next_generation (n : Z) (s : PluginManager) : PluginManager :=
  mkManager (pm_catalog s) (pm_agent_context s) (pm_limits s) (pm_workers s) (pm_pause_notices s) (pm_pause_notice_sent s)
    n (pm_started s) (pm_children s).

(** [new] and [set_agent_id]. *)
Definition manager_new (catalog : PluginCatalog) (context : AgentContext) (limits : PluginRuntimeLimits) : PluginManager :=
  mkManager catalog context limits ∅ ∅ ∅ 1 0 ∅.
Definition set_agent_id (agent_id : option string) (s : PluginManager) : PluginManager :=
  let c := pm_agent_context s in
  mkManager (pm_catalog s)
    (mkAgentContext (ax_agent_version c) (ax_operating_system c) (ax_architecture c) agent_id (ax_data_dir c) (ax_config_dir c)
       (ax_plugin_dir c) (ax_plugin_data_dir c))
    (pm_limits s) (pm_workers s) (pm_pause_notices s) (pm_pause_notice_sent s) (pm_next_generation s) (pm_started s) (pm_children s).

(** [worker.shutdown()]: the process is gone afterwards, by itself or killed. *)
Definition shutdown_worker (n : nat) (s : PluginManager) : PluginManager := set_children (pm_started s) (pm_children s ∖ {[n]}) s.
Definition shutdown_workers (ns : list nat) (s : PluginManager) : PluginManager :=
  set_children (pm_started s) (pm_children s ∖ list_to_set ns) s.

(** ** Starting workers *)

(** [find_installed]. *)
Definition find_installed (plugin_id version : string) (s : PluginManager) : option InstalledPlugin :=
  List.find (λ p, String.eqb (mf_plugin_id (ip_manifest p)) plugin_id && String.eqb (version_text (mf_version (ip_manifest p))) version)
    (catalog_plugins (pm_catalog s)).
Definition not_installed (plugin_id version : string) : string :=
  ("Plus plugin " +:+ plugin_id +:+ " " +:+ version +:+ " is not installed")%string.

(** [PathBuf::push] on the text of a path. *)
Fixpoint ends_with_slash (s : string) : bool :=
  match s with
  | EmptyString => false
  | String c EmptyString => slash c
  | String _ s => ends_with_slash s
  end.
Definition path_join (base part : string) : string :=
  if is_absolute part then part
  else if String.eqb base "" || ends_with_slash base then (base +:+ part)%string
  else (base +:+ "/" +:+ part)%string.

(** [agent_context_for_plugin]. *)
Definition agent_context_for_plugin (plugin_id version : string) (s : PluginManager) : AgentContext :=
  let c := pm_agent_context s in
  mkAgentContext (ax_agent_version c) (ax_operating_system c) (ax_architecture c) (ax_agent_id c) (ax_data_dir c) (ax_config_dir c)
    (ax_plugin_dir c) (path_join (path_join (path_join (ax_data_dir c) "plus") plugin_id) version).

(** [start_worker]; the answers are those of the attempt with this number. *)
Definition start_worker (start : nat → StartAnswers) (config : PluginRuntimeConfig) (revision concurrency : Z) (s : PluginManager) :
    result PluginWorkerError (nat * Z) * PluginManager :=
  match find_installed (prc_plugin_id config) (prc_version config) s with
  | None => (Err (WTaskFailed (not_installed (prc_plugin_id config) (prc_version config))), s)
  | Some plugin =>
      let n := pm_started s in
      let options := mkStartOptions revision (prc_config config) (prc_schema_version config) concurrency
                       (agent_context_for_plugin (prc_plugin_id config) (prc_version config) s) in
      match (spawn_and_initialize WORKER_PROTOCOL_VERSION (ip_manifest plugin) options (start n)).1 with
      | Ok client => (Ok (n, wc_effective_concurrency client), set_children (S n) (pm_children s ∪ {[n]}) s)
      | Err e => (Err e, set_children (S n) (pm_children s) s)
      end
  end.

(** [terminate] of a client: the process is killed and reaped; the manager is not told. *)
Definition terminate_worker (n : nat) (s : PluginManager) : PluginManager :=
  set_children (pm_started s) (pm_children s ∖ {[n]}) s.

(** ** Snapshots *)

(** A worker that runs a configuration without failures. *)
Definition fresh_worker (n : nat) (config : bytes) (version concurrency effective revision generation : Z) : ManagedWorker :=
  mkManaged (Some n) config version concurrency effective revision Running [] None None None None None None false generation.

(** The test whether a running worker is kept. *)
Definition reusable (existing : ManagedWorker) (config : PluginRuntimeConfig) (concurrency : Z) : option nat :=
  n ← mw_worker existing;
  if bool_decide (mw_state existing = Running) && bool_decide (mw_config existing = prc_config config)
     && bool_decide (mw_runtime_config_version existing = prc_schema_version config)
     && bool_decide (mw_requested_concurrency existing = concurrency)
  then Some n else None.

(** The loop of [apply_snapshot]; [fetch_add] wraps around. *)
Fixpoint apply_configs (start : nat → StartAnswers) (revision : Z) (current : gmap Key ManagedWorker) (configs : list PluginRuntimeConfig)
    (workers : gmap Key ManagedWorker) (started : list nat) (s : PluginManager) : result string (gmap Key ManagedWorker) * PluginManager :=
  match configs with
  | [] => (Ok workers, s)
  | config :: configs =>
      let key := (prc_plugin_id config, prc_version config) in
      if bool_decide (is_Some (workers !! key)) then (Err "duplicate Plus runtime configuration"%string, s)
      else if bool_decide (prc_schema_version config = 0) then (Err "runtime schema_version must be greater than zero"%string, s)
      else if bool_decide (prc_requested_concurrency config = 0) then (Err "requested_concurrency must be greater than zero"%string, s)
      else
        let concurrency := Z.min (prc_requested_concurrency config) (lm_max_concurrency (pm_limits s)) in
        match x ← current !! key; n ← reusable x config concurrency; Some (x, n) with
        | Some (existing, n) =>
            let worker := fresh_worker n (mw_config existing) (prc_schema_version config) concurrency
                            (mw_effective_concurrency existing) revision (mw_generation existing) in
            apply_configs start revision current configs (<[key := worker]> workers) started s
        | None =>
            match start_worker start config revision concurrency s with
            | (Err e, s) => (Err (worker_error_text e), shutdown_workers started s)
            | (Ok (n, effective), s) =>
                let worker := fresh_worker n (prc_config config) (prc_schema_version config) concurrency effective revision
                                (pm_next_generation s) in
                apply_configs start revision current configs (<[key := worker]> workers) (started ++ [n])
                  (set_next_generation (wrapping_add_u64 (pm_next_generation s) 1) s)
            end
        end
  end.

(** The processes of the old workers that the new ones do not use. *)
Definition replaced_workers (old active : gmap Key ManagedWorker) : list nat :=
  omap (λ kv, n ← mw_worker kv.2; if bool_decide (active !! kv.1 ≫= mw_worker = Some n) then None else Some n) (map_to_list old).

(** [apply_snapshot]. *)
Definition apply_snapshot (start : nat → StartAnswers) (snapshot : PluginRuntimeSnapshot) (s : PluginManager) :
    result string unit * PluginManager :=
  if bool_decide (prs_revision snapshot = 0) then (Err "Plus runtime snapshot revision must be greater than zero"%string, s)
  else if bool_decide (lm_max_workers (pm_limits s) < zlen (prs_plugins snapshot))
  then (Err "Plus Worker count exceeds local limit"%string, s)
  else
    match apply_configs start (prs_revision snapshot) (pm_workers s) (prs_plugins snapshot) ∅ [] s with
    | (Err e, s) => (Err e, s)
    | (Ok workers, s1) =>
        let s2 := shutdown_workers (replaced_workers (pm_workers s1) workers) (set_workers workers s1) in
        (Ok tt, set_notices ∅ ∅ s2)
    end.

(** ** Failures *)

(** [record_failure] at instant [now] and time [unix]. *)
Definition pause_notice (key : Key) (unix : Z) (w : ManagedWorker) : PluginPauseNotice :=
  mkPauseNotice key.1 key.2 (mw_config_revision w) (zlen (mw_failures w) `mod` 2 ^ 32)
    (default unix (mw_failure_window_started_at_ms w)) (default unix (mw_paused_at_ms w))
    (default ""%string (mw_last_exit_reason w)) (default ""%string (mw_last_error w)).
Definition failed_worker (limits : PluginRuntimeLimits) (now unix : Z) (reason : string) (error : option string) (w : ManagedWorker) :
    ManagedWorker :=
  let kept := filter (λ failure, saturating_sub now failure ≤ lm_restart_window limits) (mw_failures w) in
  let started := if bool_decide (kept = []) then None else mw_failure_window_started w in
  let started_ms := if bool_decide (kept = []) then None else mw_failure_window_started_at_ms w in
  let '(started, started_ms) := match started with None => (Some now, Some unix) | Some _ => (started, started_ms) end in
  let failures := kept ++ [now] in
  let paused := bool_decide (Z.max (lm_restart_max_attempts limits) 1 ≤ zlen failures) in
  mkManaged None (mw_config w) (mw_runtime_config_version w) (mw_requested_concurrency w) (mw_effective_concurrency w)
    (mw_config_revision w) (if paused then Paused else Restarting) failures started started_ms
    (if paused then None else Some (now + 1000000000 * 2 ^ Z.min (saturating_sub (zlen failures) 1) 10))
    (if paused then Some unix else mw_paused_at_ms w)
    (Some reason) error (mw_server_pause_acknowledged w) (mw_generation w).
Definition record_failure (now unix : Z) (key : Key) (generation : Z) (reason : string) (error : option string) (s : PluginManager) :
    PluginManager :=
  match pm_workers s !! key with
  | None => s
  | Some w =>
      if negb (bool_decide (mw_generation w = generation)) then s
      else
        let w := failed_worker (pm_limits s) now unix reason error w in
        let s := set_workers (<[key := w]> (pm_workers s)) s in
        match mw_state w with
        | Paused => set_notices (<[key := pause_notice key unix w]> (pm_pause_notices s)) (pm_pause_notice_sent s ∖ {[key]}) s
        | _ => s
        end
  end.

(** [restart]. *)
Definition recovered (n : nat) (effective : Z) (w : ManagedWorker) : ManagedWorker :=
  mkManaged (Some n) (mw_config w) (mw_runtime_config_version w) (mw_requested_concurrency w) effective
    (mw_config_revision w) Running (mw_failures w) (mw_failure_window_started w) (mw_failure_window_started_at_ms w)
    (mw_next_restart w) (mw_paused_at_ms w) (mw_last_exit_reason w) None (mw_server_pause_acknowledged w) (mw_generation w).
Definition clear_next_restart (w : ManagedWorker) : ManagedWorker :=
  mkManaged (mw_worker w) (mw_config w) (mw_runtime_config_version w) (mw_requested_concurrency w) (mw_effective_concurrency w)
    (mw_config_revision w) (mw_state w) (mw_failures w) (mw_failure_window_started w) (mw_failure_window_started_at_ms w)
    None (mw_paused_at_ms w) (mw_last_exit_reason w) (mw_last_error w) (mw_server_pause_acknowledged w) (mw_generation w).
Definition awaits_restart (generation : Z) (w : ManagedWorker) : bool :=
  bool_decide (mw_generation w = generation) && bool_decide (mw_state w = Restarting).
Definition restart (start : nat → StartAnswers) (now unix : Z) (key : Key) (generation : Z) (s : PluginManager) : PluginManager :=
  match pm_workers s !! key with
  | None => s
  | Some w =>
      if negb (awaits_restart generation w) then s
      else
        let s := set_workers (<[key := clear_next_restart w]> (pm_workers s)) s in
        let config := mkRuntimeConfig key.1 key.2 (mw_runtime_config_version w) (mw_config w) (mw_requested_concurrency w) in
        match start_worker start config (mw_config_revision w) (mw_requested_concurrency w) s with
        | (Ok (n, effective), s) =>
            match pm_workers s !! key with
            | Some current =>
                if awaits_restart generation current then set_workers (<[key := recovered n effective current]> (pm_workers s)) s
                else shutdown_worker n s
            | None => shutdown_worker n s
            end
        | (Err e, s) => record_failure now unix key generation "restart failed" (Some (worker_error_text e)) s
        end
  end.

(** [poll_health]: what [try_wait] and [reader_closed] answer for a process. *)
Inductive WaitResult : Type := Exited (reason : string) | ReaderClosed | Alive | WaitFailed.
Record PollAnswers : Type := mkPollAnswers {
  pa_wait : nat → WaitResult;
  pa_start : nat → StartAnswers;
  pa_now : Key → Z;
  pa_unix : Key → Z;
}.
Definition poll_worker (a : PollAnswers) (key : Key) (entry : ManagedWorker) (s : PluginManager) : PluginManager :=
  let now := pa_now a key in
  let unix := pa_unix a key in
  match mw_worker entry with
  | Some n =>
      match pa_wait a n with
      | Exited reason => record_failure now unix key (mw_generation entry) reason None (shutdown_worker n s)
      | ReaderClosed =>
          record_failure now unix key (mw_generation entry) "Worker protocol reader closed"
            (Some "Worker stdout closed before Shutdown"%string) (shutdown_worker n s)
      | Alive | WaitFailed => s
      end
  | None =>
      match mw_state entry, mw_next_restart entry with
      | Restarting, Some time =>
          if bool_decide (time ≤ now) then restart (pa_start a) now unix key (mw_generation entry) s else s
      | _, _ => s
      end
  end.

(** The order in which a [HashMap] is iterated. *)
Class WorkerOrder : Type := worker_order : gmap Key ManagedWorker → list (Key * ManagedWorker).
Class WorkerOrderLaws (WO : WorkerOrder) : Prop := worker_order_perm m : worker_order m ≡ₚ map_to_list m.
Definition poll_health `{WO : WorkerOrder} (a : PollAnswers) (s : PluginManager) : PluginManager :=
  foldl (λ s kv, poll_worker a kv.1 kv.2 s) s (worker_order (pm_workers s)).

(** ** Pauses, shutdown and queries *)

Definition is_paused (plugin_id version : string) (s : PluginManager) : bool :=
  match pm_workers s !! (plugin_id, version) with Some w => bool_decide (mw_state w = Paused) | None => false end.
Definition pending_pause_notices (s : PluginManager) : list PluginPauseNotice :=
  snd <$> filter (λ kv, kv.1 ∉ pm_pause_notice_sent s) (map_to_list (pm_pause_notices s)).
Definition mark_pause_notices_sent (notices : list PluginPauseNotice) (s : PluginManager) : PluginManager :=
  set_notices (pm_pause_notices s)
    (pm_pause_notice_sent s ∪ list_to_set ((λ n, (ppn_plugin_id n, ppn_plugin_version n)) <$> notices)) s.
Definition reset_pause_notice_delivery (s : PluginManager) : PluginManager := set_notices (pm_pause_notices s) ∅ s.
Definition acknowledged (w : ManagedWorker) : ManagedWorker :=
  mkManaged (mw_worker w) (mw_config w) (mw_runtime_config_version w) (mw_requested_concurrency w) (mw_effective_concurrency w)
    (mw_config_revision w) (mw_state w) (mw_failures w) (mw_failure_window_started w) (mw_failure_window_started_at_ms w)
    (mw_next_restart w) (mw_paused_at_ms w) (mw_last_exit_reason w) (mw_last_error w) true (mw_generation w).
Definition acknowledge_pause (ack : PluginPauseAck) (s : PluginManager) : PluginManager :=
  if negb (ppa_accepted ack) then s
  else
    let key := (ppa_plugin_id ack, ppa_plugin_version ack) in
    let s := set_notices (delete key (pm_pause_notices s)) (pm_pause_notice_sent s ∖ {[key]}) s in
    match pm_workers s !! key with
    | Some w =>
        if bool_decide (mw_config_revision w = ppa_runtime_revision ack)
        then set_workers (<[key := acknowledged w]> (pm_workers s)) s else s
    | None => s
    end.

(** [shutdown_all]. *)
Definition worker_processes (m : gmap Key ManagedWorker) : list nat := omap (λ kv, mw_worker kv.2) (map_to_list m).
Definition shutdown_all (s : PluginManager) : PluginManager :=
  shutdown_workers (worker_processes (pm_workers s)) (set_workers ∅ s).

(** The worker [execute] uses. *)
Definition execution_worker (plugin_id version : string) (s : PluginManager) : result PluginWorkerError nat :=
  ok_or (WTaskFailed "Plugin Worker is not active in this session") (pm_workers s !! (plugin_id, version) ≫= mw_worker).

(** [validate_task_config]. *)
Definition validate_task_config `{FT : FloatText} `{SCC : SchemaCodec} (config : PluginTaskConfig) (s : PluginManager) : result string unit :=
  let id := ptc_plugin_id config in
  let version := ptc_plugin_version config in
  if String.eqb id "" || String.eqb version "" || String.eqb (ptc_task_kind config) "" || bool_decide (ptc_schema_version config = 0)
  then Err "plugin task identity and schema_version are required"%string
  else if is_paused id version s then Err "Plus plugin is paused after repeated Worker failures"%string
  else
    plugin ← ok_or (not_installed id version) (find_installed id version s);
    if negb (supports_task (ip_manifest plugin) (ptc_task_kind config)) then Err "Plus plugin does not declare task"%string
    else
      schema ← map_err (λ _, "failed to load Plus plugin schema"%string) (decode_checked (ip_schema_bytes plugin));
      task ← ok_or "Plus plugin schema does not contain task"%string
               (List.find (λ task, String.eqb (ts_task_kind task) (ptc_task_kind config)) (sb_tasks schema));
      if negb (bool_decide (ts_schema_version task = ptc_schema_version config))
      then Err "Plus task schema version is not supported"%string
      else match pm_workers s !! (id, version) with
           | Some w =>
               if bool_decide (mw_state w = Running) && bool_decide (is_Some (mw_worker w)) then Ok tt
               else Err "Plus plugin Worker is not active"%string
           | None => Err "Plus plugin Worker is not active"%string
           end.

(** ** Invariant *)

Definition max_attempts (limits : PluginRuntimeLimits) : Z := Z.max (lm_restart_max_attempts limits) 1.

Record worker_ok (limits : PluginRuntimeLimits) (w : ManagedWorker) : Prop := {
  wk_running : mw_state w = Running ↔ is_Some (mw_worker w);
  wk_restarting : mw_state w = Restarting ↔ is_Some (mw_next_restart w);
  wk_paused : mw_state w = Paused ↔ max_attempts limits ≤ zlen (mw_failures w);
  wk_limits : mw_effective_concurrency w ≠ 0 ∧ mw_effective_concurrency w ≤ mw_requested_concurrency w ≤ lm_max_concurrency limits;
}.

(** The processes of a map of workers. *)
Definition runs (m : gmap Key ManagedWorker) (k : Key) (n : nat) : Prop := ∃ w, m !! k = Some w ∧ mw_worker w = Some n.

(** The invariant.  [stray] tells whether a malformed snapshot was refused, which can
    leave processes behind, and [dead] which processes a task execution has killed. *)
Record manager_ok (stray : Prop) (dead : nat → Prop) (s : PluginManager) : Prop := {
  mo_workers k w : pm_workers s !! k = Some w → worker_ok (pm_limits s) w;
  mo_children n : n ∈ pm_children s → (∃ k, runs (pm_workers s) k n) ∨ stray;
  mo_alive k n : runs (pm_workers s) k n → n ∈ pm_children s ∨ dead n;
  mo_distinct k k' n : runs (pm_workers s) k n → runs (pm_workers s) k' n → k = k';
  mo_runs k n : runs (pm_workers s) k n → (n < pm_started s)%nat;
  mo_started n : n ∈ pm_children s → (n < pm_started s)%nat;
  mo_size : Z.of_nat (size (pm_workers s)) ≤ Z.max 0 (lm_max_workers (pm_limits s));
}.

Lemma runs_insert m k w k' n : runs (<[k := w]> m) k' n ↔ (k' = k ∧ mw_worker w = Some n) ∨ (k' ≠ k ∧ runs m k' n).
Proof.
  unfold runs. destruct (decide (k' = k)) as [->|Hne].
  - setoid_rewrite lookup_insert_eq. naive_solver.
  - setoid_rewrite lookup_insert_ne; [|done]. naive_solver.
Qed.

(** The parts of the state that starting and stopping workers leave alone. *)
Record same_settings (s s' : PluginManager) : Prop := {
  ss_catalog : pm_catalog s' = pm_catalog s;
  ss_limits : pm_limits s' = pm_limits s;
  ss_workers : pm_workers s' = pm_workers s;
  ss_notices : pm_pause_notices s' = pm_pause_notices s ∧ pm_pause_notice_sent s' = pm_pause_notice_sent s;
}.
#[export] Instance same_settings_refl : Reflexive same_settings.
Proof. intros s. by constructor. Qed.
#[export] Instance same_settings_trans : Transitive same_settings.
Proof. intros a b c [? ? ? [? ?]] [? ? ? [? ?]]. constructor; [congruence..|split; congruence]. Qed.

Lemma handshake_effective version m o a kinds effective : handshake version m o a = Ok (kinds, effective) → effective ≠ 0 ∧ effective ≤ wo_max_concurrency o.
Proof.
  unfold handshake. intros H. do 6 (apply result_bind_Ok in H as (? & _ & H)). destruct (_ || _); [done|].
  destruct (_ || _) eqn:E in H; [done|]. injection H as _ <-. apply orb_false_iff in E as [E1%bool_decide_eq_false E2%bool_decide_eq_false]. lia.
Qed.

(** How a start ends. *)
Lemma start_worker_cases start config revision concurrency s r s' : start_worker start config revision concurrency s = (r, s') →
  same_settings s s' ∧
  match r with
  | Ok (n, effective) => n = pm_started s ∧ effective ≠ 0 ∧ effective ≤ concurrency ∧ pm_started s' = S n ∧
      pm_children s' = pm_children s ∪ {[n]}
  | Err _ => pm_children s' = pm_children s ∧ (pm_started s ≤ pm_started s')%nat
  end.
Proof.
  unfold start_worker. destruct (find_installed _ _ s) as [plugin|]; [|intros [= <- <-]; done].
  destruct (spawn_and_initialize _ _ _ _) as [[client|e] b] eqn:Hs; intros [= <- <-]; (split; [by constructor|]); [|by cbn; split; [|lia]].
  unfold spawn_and_initialize in Hs. destruct (negb _); [done|]. destruct (_ || _); [done|].
  destruct (handshake _ _ _ _) as [[kinds eff]|] eqn:Hh; [|done]. injection Hs as <- _. apply handshake_effective in Hh. cbn in *. by destruct Hh.
Qed.

Lemma fresh_worker_ok limits n config version concurrency effective revision generation :
  effective ≠ 0 → effective ≤ concurrency → concurrency ≤ lm_max_concurrency limits →
  worker_ok limits (fresh_worker n config version concurrency effective revision generation).
Proof.
  intros H1 H2 H3. constructor; cbn; [by split|split; [done|by intros [? ?]]| |done]. split; [done|]. unfold max_attempts, zlen. cbn. lia.
Qed.

Section Accounting.
Context {stray : Prop} {dead : nat → Prop}.
Local Notation manager_ok := (manager_ok stray dead).

(** ** Applying a snapshot *)

(** Snapshots as the Server stores them. *)
Definition snapshot_wf (l : list PluginRuntimeConfig) : Prop :=
  NoDup ((λ c, (prc_plugin_id c, prc_version c)) <$> l) ∧
  Forall (λ c, prc_schema_version c ≠ 0 ∧ prc_requested_concurrency c ≠ 0) l.
#[export] Instance snapshot_wf_dec l : Decision (snapshot_wf l).
Proof. unfold snapshot_wf. apply _. Defined.

Record loop_ok (s0 : PluginManager) (workers : gmap Key ManagedWorker) (started : list nat) (s : PluginManager) : Prop := {
  lo_same : same_settings s0 s;
  lo_children : pm_children s = pm_children s0 ∪ list_to_set started;
  lo_grows : (pm_started s0 ≤ pm_started s)%nat;
  lo_started n : n ∈ started → (pm_started s0 ≤ n < pm_started s)%nat ∧ ∃ k, runs workers k n;
  lo_workers k w : workers !! k = Some w → worker_ok (pm_limits s0) w ∧
    ∃ n, mw_worker w = Some n ∧ (n ∈ started ∨ runs (pm_workers s0) k n);
  lo_distinct k k' n : runs workers k n → runs workers k' n → k = k';
}.

Lemma reusable_Some x config concurrency n : reusable x config concurrency = Some n → mw_worker x = Some n ∧ mw_requested_concurrency x = concurrency.
Proof.
  unfold reusable. destruct (mw_worker x); [|done]. cbn. destruct (_ && _) eqn:E; [|done]. intros [= ->].
  rewrite !andb_true_iff, !bool_decide_eq_true in E. naive_solver.
Qed.

Lemma loop_insert s0 workers started s key w n started' s' :
  manager_ok s0 → loop_ok s0 workers started s → workers !! key = None → worker_ok (pm_limits s0) w → mw_worker w = Some n →
  same_settings s s' →
  (started' = started ∧ runs (pm_workers s0) key n ∧ pm_children s' = pm_children s ∧ pm_started s' = pm_started s) ∨
  (started' = started ++ [n] ∧ n = pm_started s ∧ pm_children s' = pm_children s ∪ {[n]} ∧ pm_started s' = S n) →
  loop_ok s0 (<[key := w]> workers) started' s'.
Proof.
  intros Hok [Hs Hch Hgr Hst Hw Hd] Hkey Hwok Hn Hs' Hcase.
  assert (∀ m, m ∈ started → ∃ k, runs (<[key := w]> workers) k m) as Hkeep.
  { intros m Hm. destruct (Hst m Hm) as [_ [k Hk]]. exists k. apply runs_insert. right. split; [|done]. intros ->.
    destruct Hk as (w' & Hw' & _). congruence. }
  assert (∀ k m, runs workers k m → (m < pm_started s)%nat ∧ (runs (pm_workers s0) k m ∨ (pm_started s0 ≤ m)%nat)) as Hold.
  { intros k m (w' & Hl & Hm). destruct (Hw _ _ Hl) as [_ (m' & Hm' & Hin)]. assert (m' = m) as -> by congruence. destruct Hin as [Hin|Hr].
    - destruct (Hst m Hin) as [[? ?] _]. by split; [|right].
    - pose proof (mo_runs _ _ _ Hok _ _ Hr). split; [lia|by left]. }
  assert (∀ k, runs workers k n → k = key) as Hnew.
  { intros k Hk. destruct Hcase as [(_ & Hr & _)|(_ & -> & _)]; [|destruct (Hold _ _ Hk); lia].
    destruct (Hold _ _ Hk) as [_ [Hr'|Hge]]; [by eapply (mo_distinct _ _ _ Hok)|].
    pose proof (mo_runs _ _ _ Hok _ _ Hr). lia. }
  constructor.
  - by etrans.
  - destruct Hcase as [(-> & _ & -> & _)|(-> & _ & -> & _)]; [done|]. rewrite Hch, list_to_set_app_L. cbn. set_solver.
  - destruct Hcase as [(_ & _ & _ & ->)|(_ & -> & _ & ->)]; lia.
  - intros m Hm. destruct Hcase as [(-> & _ & _ & ->)|(-> & -> & _ & ->)].
    + split; [by apply Hst|by apply Hkeep].
    + apply elem_of_app in Hm as [Hm| ->%list_elem_of_singleton]; [split; [destruct (Hst m Hm); lia|by apply Hkeep]|].
      split; [lia|]. exists key. apply runs_insert. by left.
  - intros k w' Hl. apply lookup_insert_Some in Hl as [[<- <-]|[Hne Hl]].
    + split; [done|]. exists n. split; [done|]. destruct Hcase as [(-> & Hr & _)|(-> & _)]; [by right|left; set_solver].
    + destruct (Hw _ _ Hl) as [? (m & ? & Hm)]. split; [done|]. exists m. split; [done|].
      destruct Hcase as [(-> & _)|(-> & _)], Hm; [by left|by right|left; set_solver|by right].
  - intros k k' m. rewrite !runs_insert. intros [[-> E]|[Hne H1]] [[-> E']|[Hne' H2]]; [done|..].
    + assert (m = n) as -> by congruence. symmetry. by apply Hnew.
    + assert (m = n) as -> by congruence. by apply Hnew.
    + by eapply Hd.
Qed.

Definition config_key (c : PluginRuntimeConfig) : Key := (prc_plugin_id c, prc_version c).

(** What a refused snapshot can do to the processes: it may leave new ones. *)
Record refused_children (s0 s' : PluginManager) : Prop := {
  rc_started : (pm_started s0 ≤ pm_started s')%nat;
  rc_kept : pm_children s0 ⊆ pm_children s';
  rc_bound n : n ∈ pm_children s' → (n < pm_started s')%nat;
}.

Lemma loop_refused s0 workers started s :
  manager_ok s0 → loop_ok s0 workers started s → same_settings s0 s ∧ refused_children s0 s.
Proof.
  intros Hok Hlo. split; [by apply lo_same in Hlo|]. split.
  - by apply lo_grows in Hlo.
  - rewrite (lo_children _ _ _ _ Hlo). set_solver.
  - intros n. rewrite (lo_children _ _ _ _ Hlo), elem_of_union, elem_of_list_to_set. pose proof (lo_grows _ _ _ _ Hlo).
    intros [Hn%(mo_started _ _ _ Hok)|Hn%(lo_started _ _ _ _ Hlo)]; lia.
Qed.

#[local] Instance ManagedWorker_inhabited : Inhabited ManagedWorker := populate (fresh_worker 0 [] 0 0 0 0 0).

Lemma apply_configs_ok start revision configs s0 workers started s r s' :
  manager_ok s0 → loop_ok s0 workers started s →
  apply_configs start revision (pm_workers s0) configs workers started s = (r, s') →
  match r with
  | Ok ws => (∃ started', loop_ok s0 ws started' s') ∧ size ws = (size workers + length configs)%nat
  | Err _ => same_settings s0 s' ∧ refused_children s0 s' ∧
      (snapshot_wf configs → (∀ c, c ∈ configs → workers !! config_key c = None) → pm_children s' = pm_children s0)
  end.
Proof.
  intros Hok. revert workers started s. induction configs as [|c configs IH]; intros workers started s Hlo H; cbn in H.
  { injection H as <- <-. split; [by exists started|cbn; lia]. }
  change (prc_plugin_id c, prc_version c) with (config_key c) in H.
  case_bool_decide as Hc.
  { injection H as <- <-. destruct (loop_refused _ _ _ _ Hok Hlo) as [? ?]. split_and!; [done..|].
    intros _ Hnone. rewrite Hnone in Hc by left. by destruct Hc. }
  apply eq_None_not_Some in Hc.
  case_bool_decide as Hv.
  { injection H as <- <-. destruct (loop_refused _ _ _ _ Hok Hlo) as [? ?]. split_and!; [done..|].
    intros [_ [[? _] _]%Forall_cons]. done. }
  case_bool_decide as Hr.
  { injection H as <- <-. destruct (loop_refused _ _ _ _ Hok Hlo) as [? ?]. split_and!; [done..|].
    intros [_ [[_ ?] _]%Forall_cons]. done. }
  rewrite (ss_limits _ _ (lo_same _ _ _ _ Hlo)) in H.
  set (concurrency := Z.min _ _) in H. assert (concurrency ≤ lm_max_concurrency (pm_limits s0)) as Hmax by lia.
  assert (∀ w, snapshot_wf (c :: configs) → (∀ c', c' ∈ c :: configs → workers !! config_key c' = None) →
    snapshot_wf configs ∧ ∀ c', c' ∈ configs → <[config_key c := w]> workers !! config_key c' = None) as Hnone'.
  { intros w [[Hni Hnd]%NoDup_cons [_ Hall]%Forall_cons] Hnone. split; [done|]. intros c' Hc'.
    rewrite lookup_insert_ne; [apply Hnone; by right|]. intros E. apply Hni. apply list_elem_of_fmap. by exists c'. }
  assert (∀ w, size (<[config_key c := w]> workers) = S (size workers)) as Hsize by (intros w; by apply map_size_insert_None).
  destruct (pm_workers s0 !! config_key c ≫= _) as [[x n]|] eqn:Hreuse.
  - apply bind_Some in Hreuse as (x' & Hx & Hreuse). apply bind_Some in Hreuse as (n' & Hn & [= -> ->]).
    apply reusable_Some in Hn as [Hn Hreq]. apply IH in H; [|eapply (loop_insert _ _ _ _ _ _ n); try done].
    + destruct r; [|destruct H as (? & ? & Hall); split_and!; [done..|]; intros W N; destruct (Hnone' inhabitant W N); apply Hall; [done|]; by apply Hnone'].
      rewrite Hsize in H. destruct H as [? ->]. split; [done|]. cbn. lia.
    + destruct (wk_limits _ _ (mo_workers _ _ _ Hok _ _ Hx)) as [? ?]. apply fresh_worker_ok; [done|lia|done].
    + left. split_and!; [done| |done|done]. by exists x.
  - destruct (start_worker start c revision concurrency s) as [[[n eff]|e] s1] eqn:Hs; apply start_worker_cases in Hs as [Hsame Hs].
    + destruct Hs as (Hn & He1 & He2 & Hst & Hch). apply IH in H; [|eapply (loop_insert _ _ _ _ _ _ n); try done].
      * destruct r; [|destruct H as (? & ? & Hall); split_and!; [done..|]; intros W N; destruct (Hnone' inhabitant W N); apply Hall; [done|]; by apply Hnone'].
        rewrite Hsize in H. destruct H as [? ->]. split; [done|]. cbn. lia.
      * by apply fresh_worker_ok.
      * destruct Hsame. by constructor.
      * by right.
    + injection H as <- <-. destruct Hs as [Hch Hgr]. pose proof (lo_same _ _ _ _ Hlo) as Hsame0. pose proof (lo_grows _ _ _ _ Hlo).
      assert (pm_children (shutdown_workers started s1) = pm_children s0) as E.
      { cbn. rewrite Hch, (lo_children _ _ _ _ Hlo).
        apply set_eq. intros m. rewrite elem_of_difference, elem_of_union, elem_of_list_to_set. split; [naive_solver|].
        intros Hm. split; [by left|]. intros Hin. destruct (lo_started _ _ _ _ Hlo m Hin) as [? _].
        pose proof (mo_started _ _ _ Hok m Hm). lia. }
      split_and!; [etrans; [done|]; etrans; [done|]; by constructor| |done]. split; [cbn; lia|by rewrite E|].
      intros m. rewrite E. intros Hm. pose proof (mo_started _ _ _ Hok m Hm). cbn. lia.
Qed.

Lemma replaced_elem old active n : n ∈ replaced_workers old active ↔ ∃ k, runs old k n ∧ ¬ runs active k n.
Proof.
  unfold replaced_workers, runs. rewrite list_elem_of_omap. split.
  - intros ([k w] & Hin & H). apply elem_of_map_to_list in Hin. cbn in H. apply bind_Some in H as (m & Hm & H).
    case_bool_decide as E; [done|]. injection H as ->. exists k. split; [by eauto|]. intros (w' & Hw' & Hn). apply E. by rewrite Hw'.
  - intros (k & (w & Hw & Hn) & Hno). exists (k, w). split; [by apply elem_of_map_to_list|]. cbn. rewrite Hn. cbn.
    rewrite bool_decide_eq_false_2; [done|]. intros E. apply bind_Some in E as (w' & Hw' & Hn'). apply Hno. eauto.
Qed.

Lemma loop_start s : loop_ok s ∅ [] s.
Proof.
  constructor; [done|cbn; by rewrite union_empty_r_L|done|by intros n ?%elem_of_nil|intros k w H; by rewrite lookup_empty in H|].
  intros k k' n (w & H & _). by rewrite lookup_empty in H.
Qed.

(** What a snapshot leaves behind: all or nothing, but for the processes of a malformed one. *)
Lemma apply_snapshot_cases start snapshot s r s' :
  manager_ok s → snapshot_wf (prs_plugins snapshot) ∨ stray → apply_snapshot start snapshot s = (r, s') →
  manager_ok s' ∧ pm_limits s' = pm_limits s ∧
  match r with
  | Ok _ => ∀ k w, pm_workers s' !! k = Some w → mw_state w = Running
  | Err _ => same_settings s s'
  end.
Proof.
  intros Hok Hwf H. unfold apply_snapshot in H. case_bool_decide; [by injection H as <- <-|]. case_bool_decide as Hmax; [by injection H as <- <-|].
  destruct (apply_configs _ _ _ _ _ _ _) as [[ws|e] s1] eqn:Ha; injection H as <- <-.
  - apply apply_configs_ok in Ha as [[started Hlo] Hsize]; [|done|apply loop_start].
    destruct Hlo as [[Hcat Hlim Hw _] Hch Hgr Hst Hws Hd]. rewrite map_size_empty in Hsize.
    assert (∀ k w, ws !! k = Some w → mw_state w = Running) as Hrun.
    { intros k w Hk. destruct (Hws _ _ Hk) as [Hwok (n & Hn & _)]. apply (wk_running _ _ Hwok). eauto. }
    split_and!; [|done|done]. constructor; cbn; rewrite ?Hlim.
    + intros k w Hk. by apply (Hws k w).
    + intros n. rewrite Hch, elem_of_difference, elem_of_union, !elem_of_list_to_set, replaced_elem, Hw.
      intros [[Hn|Hn] Hno]; [|by left; destruct (Hst n Hn)]. apply (mo_children _ _ _ Hok) in Hn as [[k Hk]|]; [left; exists k|by right].
      destruct (decide (ws !! k ≫= mw_worker = Some n)) as [E|E]; [by apply bind_Some in E as (w & ? & ?); exists w|].
      destruct Hno. exists k. split; [done|]. intros (w & Hl & Hn). apply E. by rewrite Hl.
    + intros k n Hk. rewrite Hch, elem_of_difference, elem_of_union, !elem_of_list_to_set, replaced_elem, Hw.
      pose proof Hk as (w & Hl & Hn). destruct (Hws _ _ Hl) as [_ (m & Hm & Hin)]. assert (m = n) as -> by congruence.
      assert (¬ ∃ k', runs (pm_workers s) k' n ∧ ¬ runs ws k' n) as Hno.
      { intros (k' & Hr & Hno). apply Hno. destruct Hin as [Hin|Hr']; [|by rewrite (mo_distinct _ _ _ Hok k' k n)].
        pose proof (mo_runs _ _ _ Hok _ _ Hr). destruct (Hst n Hin). lia. }
      destruct Hin as [Hin|[Hr|]%(mo_alive _ _ _ Hok)]; [left; split; [by right|done]|left; split; [by left|done]|by right].
    + done.
    + intros k n (w & Hl & Hn). destruct (Hws _ _ Hl) as [_ (m & Hm & Hin)]. assert (m = n) as -> by congruence.
      destruct Hin as [Hin%Hst|Hr%(mo_runs _ _ _ Hok)]; lia.
    + intros n. rewrite elem_of_difference, Hch, elem_of_union, elem_of_list_to_set. intros [[Hn|Hn] _]; [|destruct (Hst n Hn); lia].
      pose proof (mo_started _ _ _ Hok n Hn). lia.
    + unfold zlen in Hmax. lia.
  - apply apply_configs_ok in Ha as (Hsame & [Hgr Hsub Hbd] & Hch); [|done|apply loop_start].
    pose proof Hsame as [Hcat Hlim Hw _]. split_and!; [|done|done]. destruct Hok as [H1 H2 H3 H4 H5 H6 H7].
    constructor; rewrite ?Hw, ?Hlim; [done| | |done| |done|done].
    + intros n Hn. destruct Hwf as [Hwf|]; [|by right]. rewrite Hch in Hn; [by apply H2|done|intros; apply lookup_empty].
    + intros k n [?|?]%H3; [left; by apply Hsub|by right].
    + intros k n Hk%H5. lia.
Qed.

(** ** Failures and restarts *)

Lemma failed_worker_ok limits now unix reason error w :
  worker_ok limits w → worker_ok limits (failed_worker limits now unix reason error w) ∧
  mw_worker (failed_worker limits now unix reason error w) = None.
Proof.
  intros [_ _ _ Hl]. unfold failed_worker. set (kept := filter _ _). destruct (match _ with None => _ | Some _ => _ end) as [st stm].
  split; [|done]. constructor; cbn; [| | |done]; unfold max_attempts; case_bool_decide; (split; [|by intros ?]); try done; try by intros [? ?].
Qed.

Lemma recovered_ok limits n effective w : worker_ok limits w → mw_state w = Restarting → effective ≠ 0 → effective ≤ mw_requested_concurrency w →
  worker_ok limits (recovered n effective (clear_next_restart w)).
Proof.
  intros [H1 H2 H3 H4] Hs He Hle. constructor; cbn; [by split|split; [done|by intros [? ?]]| |split; [done|lia]].
  rewrite <-H3, Hs. by split.
Qed.

(** A worker is replaced by one without a process, or one without by one with a new process. *)
Lemma replace_none s s' key w w' :
  manager_ok s → pm_workers s !! key = Some w → pm_workers s' = <[key := w']> (pm_workers s) → pm_limits s' = pm_limits s →
  worker_ok (pm_limits s) w' → mw_worker w' = None → (∀ n, n ∈ pm_children s' ↔ n ∈ pm_children s ∧ mw_worker w ≠ Some n) →
  (pm_started s ≤ pm_started s')%nat → manager_ok s'.
Proof.
  intros Hok Hw Hws Hlim Hwok Hn Hch Hst. constructor; rewrite ?Hlim, ?Hws.
  - intros k x [[<- <-]|[? ?]]%lookup_insert_Some; [done|by eapply (mo_workers _ _ _ Hok)].
  - intros n. rewrite Hch. setoid_rewrite runs_insert. intros [[[k Hk]|]%(mo_children _ _ _ Hok) Hne]; [left|by right].
    exists k. right. split; [|done]. intros ->. apply Hne. destruct Hk as (x & Hx & ?). congruence.
  - intros k n. rewrite runs_insert, Hch. intros [[-> E]|[Hne Hk]]; [congruence|].
    destruct (mo_alive _ _ _ Hok _ _ Hk); [left|by right]. split; [done|]. intros E. apply Hne.
    eapply (mo_distinct _ _ _ Hok); [done|]. by exists w.
  - intros k k' n. rewrite !runs_insert. intros [[_ E]|[_ H1]] [[_ E']|[_ H2]]; [congruence..|]. by eapply (mo_distinct _ _ _ Hok).
  - intros k n. rewrite runs_insert. intros [[-> E]|[_ Hk%(mo_runs _ _ _ Hok)]]; [congruence|lia].
  - intros n Hin. apply Hch in Hin as [Hin _]. pose proof (mo_started _ _ _ Hok n Hin). lia.
  - rewrite map_size_insert_Some; [by apply (mo_size _ _ _ Hok)|by eexists].
Qed.

Lemma replace_fresh s s' key w w' :
  manager_ok s → pm_workers s !! key = Some w → pm_workers s' = <[key := w']> (pm_workers s) → pm_limits s' = pm_limits s →
  worker_ok (pm_limits s) w' → mw_worker w = None → mw_worker w' = Some (pm_started s) → pm_children s' = pm_children s ∪ {[pm_started s]} →
  pm_started s' = S (pm_started s) → manager_ok s'.
Proof.
  intros Hok Hw Hws Hlim Hwok Hn Hn' Hch Hst.
  assert (∀ k, ¬ runs (pm_workers s) k (pm_started s)) as Hnew.
  { intros k Hk%(mo_runs _ _ _ Hok). lia. }
  constructor; rewrite ?Hlim, ?Hws.
  - intros k x [[<- <-]|[? ?]]%lookup_insert_Some; [done|by eapply (mo_workers _ _ _ Hok)].
  - intros n. rewrite Hch, elem_of_union, elem_of_singleton. setoid_rewrite runs_insert.
    intros [[[k Hk]|]%(mo_children _ _ _ Hok)| ->]; [left; exists k; right|by right|left; exists key; by left].
    split; [|done]. intros ->. destruct Hk as (x & Hx & ?). congruence.
  - intros k n. rewrite runs_insert, Hch, elem_of_union, elem_of_singleton.
    intros [[-> E]|[_ Hk]]; [left; right; congruence|]. destruct (mo_alive _ _ _ Hok _ _ Hk); [left; by left|by right].
  - intros k k' n. rewrite !runs_insert. intros [[-> E]|[_ H1]] [[-> E']|[_ H2]]; [done|..|by eapply (mo_distinct _ _ _ Hok)].
    + replace n with (pm_started s) in H2 by congruence. by destruct (Hnew k').
    + replace n with (pm_started s) in H1 by congruence. by destruct (Hnew k).
  - intros k n. rewrite runs_insert, Hst. intros [[-> E]|[_ Hk%(mo_runs _ _ _ Hok)]]; [|lia]. assert (n = pm_started s) as -> by congruence. lia.
  - intros n. rewrite Hch, elem_of_union, elem_of_singleton, Hst. intros [Hin| ->]; [|lia]. pose proof (mo_started _ _ _ Hok n Hin). lia.
  - rewrite map_size_insert_Some; [by apply (mo_size _ _ _ Hok)|by eexists].
Qed.

(** [record_failure] for a worker of the map, in a state that differs in its processes. *)
Lemma record_failure_workers now unix key reason error s w : pm_workers s !! key = Some w →
  let s' := record_failure now unix key (mw_generation w) reason error s in
  pm_workers s' = <[key := failed_worker (pm_limits s) now unix reason error w]> (pm_workers s) ∧ pm_limits s' = pm_limits s ∧
  pm_children s' = pm_children s ∧ pm_started s' = pm_started s.
Proof.
  intros Hw. unfold record_failure. rewrite Hw. rewrite bool_decide_eq_true_2 by done. cbn [negb]. by destruct (mw_state _).
Qed.

Lemma record_failure_ok now unix key reason error s w : manager_ok s → pm_workers s !! key = Some w →
  manager_ok (record_failure now unix key (mw_generation w) reason error
    (match mw_worker w with Some n => shutdown_worker n s | None => s end)).
Proof.
  intros Hok Hw. set (s1 := match _ with Some _ => _ | None => _ end).
  assert (pm_workers s1 = pm_workers s ∧ pm_limits s1 = pm_limits s ∧ pm_started s1 = pm_started s) as (E1 & E2 & E3)
    by (unfold s1; by destruct (mw_worker w)).
  destruct (record_failure_workers now unix key reason error s1 w) as (R1 & R2 & R3 & R4); [by rewrite E1|].
  destruct (failed_worker_ok (pm_limits s) now unix reason error w (mo_workers _ _ _ Hok _ _ Hw)) as [Fok Fn].
  eapply (replace_none s _ key w); [done|done|rewrite R1, E1, E2; done|by rewrite R2, E2|done|done| |by rewrite R4, E3].
  intros n. rewrite R3. unfold s1. destruct (mw_worker w) as [m|]; cbn; [|naive_solver]. rewrite elem_of_difference, elem_of_singleton. naive_solver.
Qed.

Lemma restart_ok start now unix key s w : manager_ok s → pm_workers s !! key = Some w →
  manager_ok (restart start now unix key (mw_generation w) s).
Proof.
  intros Hok Hw. unfold restart. rewrite Hw. destruct (awaits_restart (mw_generation w) w) eqn:Haw; [|done]. cbn [negb].
  unfold awaits_restart in Haw. apply andb_true_iff in Haw as [_ Hr%bool_decide_eq_true].
  pose proof (mo_workers _ _ _ Hok _ _ Hw) as Hwok. assert (mw_worker w = None) as Hnone.
  { apply eq_None_not_Some. intros H. apply (wk_running _ _ Hwok) in H. congruence. }
  set (s0 := set_workers _ s). set (config := mkRuntimeConfig _ _ _ _ _).
  destruct (start_worker start config (mw_config_revision w) (mw_requested_concurrency w) s0) as [[[n eff]|e] s1] eqn:Hs;
    apply start_worker_cases in Hs as [[_ Hlim Hws _] Hs].
  - destruct Hs as (-> & He1 & He2 & Hst & Hch). cbn in Hst, Hch, He1, He2, Hws, Hlim. rewrite Hws, lookup_insert_eq.
    unfold awaits_restart. cbn [mw_generation clear_next_restart mw_state]. rewrite Hr, !bool_decide_eq_true_2 by done. cbn [andb].
    eapply (replace_fresh s _ key w); [done|done|cbn; by rewrite insert_insert_eq|done|by apply recovered_ok|done|done|done|done].
  - destruct Hs as [Hch Hst]. cbn in Hst, Hch, Hws, Hlim.
    destruct (record_failure_workers now unix key "restart failed" (Some (worker_error_text e)) s1 (clear_next_restart w))
      as (R1 & R2 & R3 & R4); [by rewrite Hws, lookup_insert_eq|]. cbn [mw_generation clear_next_restart] in R1, R2, R3, R4.
    rewrite Hws, Hlim, insert_insert_eq in R1. destruct (failed_worker_ok (pm_limits s) now unix "restart failed" (Some (worker_error_text e)) w Hwok) as [Fok Fn].
    eapply (replace_none s _ key w); [done|done|exact R1|by rewrite R2| | | |by rewrite R4].
    + exact Fok.
    + exact Fn.
    + intros m. rewrite R3, Hch, Hnone. naive_solver.
Qed.

(** ** The health check *)

(** What happens to one plugin leaves the others alone. *)
Definition only_at (key : Key) (s s' : PluginManager) : Prop :=
  pm_limits s' = pm_limits s ∧ pm_catalog s' = pm_catalog s ∧ (∀ k, k ≠ key → pm_workers s' !! k = pm_workers s !! k) ∧
  ∀ k, k ≠ key → pm_pause_notices s' !! k = pm_pause_notices s !! k ∧ (k ∈ pm_pause_notice_sent s' ↔ k ∈ pm_pause_notice_sent s).

Lemma only_at_trans key a b c : only_at key a b → only_at key b c → only_at key a c.
Proof.
  intros (A1 & A2 & A3 & A4) (B1 & B2 & B3 & B4). split_and!; [congruence..| |].
  - intros k Hk. by rewrite B3, A3.
  - intros k Hk. destruct (A4 k Hk) as [A5 A6], (B4 k Hk) as [B5 B6]. split; [congruence|by rewrite B6].
Qed.

Lemma same_settings_only_at key s s' : same_settings s s' → only_at key s s'.
Proof. intros [? ? E [E1 E2]]. split_and!; [done..| |]; intros; rewrite ?E, ?E1, ?E2; done. Qed.

Lemma record_failure_only now unix key generation reason error s : only_at key s (record_failure now unix key generation reason error s).
Proof.
  unfold record_failure. destruct (pm_workers s !! key) as [w|]; [|done]. destruct (negb _); [done|].
  split_and!; [by destruct (mw_state _)..| |]; intros k Hk; destruct (mw_state _); cbn; rewrite ?lookup_insert_ne; try done. set_solver.
Qed.

Lemma restart_only start now unix key generation s : only_at key s (restart start now unix key generation s).
Proof.
  unfold restart. destruct (pm_workers s !! key) as [w|]; [|done]. destruct (negb _); [done|].
  assert (∀ x s, only_at key s (set_workers (<[key := x]> (pm_workers s)) s)) as Hset.
  { intros x s1. split_and!; [done..| |done]. intros k Hk. cbn. by rewrite lookup_insert_ne. }
  eapply only_at_trans; [apply Hset|]. destruct (start_worker _ _ _ _ _) as [[[n eff]|e] s1] eqn:Hs;
    apply start_worker_cases in Hs as [Hs _]; (eapply only_at_trans; [by apply same_settings_only_at|]); [|apply record_failure_only].
  destruct (pm_workers s1 !! key) as [current|]; [|done]. destruct (awaits_restart _ _); [apply Hset|done].
Qed.

Lemma poll_worker_only a key entry s : only_at key s (poll_worker a key entry s).
Proof.
  unfold poll_worker. destruct (mw_worker entry) as [n|].
  - assert (only_at key s (shutdown_worker n s)) as Hs by done.
    destruct (pa_wait a n); [eapply only_at_trans; [exact Hs|apply record_failure_only]..|done|done].
  - destruct (mw_state entry), (mw_next_restart entry); try done. case_bool_decide; [apply restart_only|done].
Qed.

Lemma poll_worker_ok a key entry s : manager_ok s → pm_workers s !! key = Some entry → manager_ok (poll_worker a key entry s).
Proof.
  intros Hok Hw. unfold poll_worker. pose proof (record_failure_ok (pa_now a key) (pa_unix a key) key) as Hf.
  destruct (mw_worker entry) as [n|] eqn:Hn.
  - destruct (pa_wait a n); [|..|done|done]; specialize (Hf) as Hf'; eapply Hf in Hok as Hf''; try done; rewrite Hn in Hf''; exact Hf''.
  - destruct (mw_state entry), (mw_next_restart entry); try done. case_bool_decide; [by apply restart_ok|done].
Qed.

(** The whole check, by induction over the plugins still to be looked at. *)
Lemma poll_ok (P : PluginManager → Prop) a l s :
  P s → NoDup l.*1 → (∀ k w, (k, w) ∈ l → pm_workers s !! k = Some w) →
  (∀ k w s, P s → pm_workers s !! k = Some w → P (poll_worker a k w s)) →
  P (foldl (λ s kv, poll_worker a kv.1 kv.2 s) s l).
Proof.
  revert s. induction l as [|[k w] l IH]; intros s Hs Hnd Hin Hstep; [done|]. cbn in Hnd |- *. apply NoDup_cons in Hnd as [Hni Hnd].
  apply IH; [apply Hstep; [done|apply Hin; left]|done| |done]. intros k' w' Hin'. destruct (poll_worker_only a k w s) as (_ & _ & Hw & _).
  rewrite Hw; [apply Hin; by right|]. intros ->. apply Hni. apply list_elem_of_fmap. by exists (k, w').
Qed.

Lemma poll_health_ind `{WO : WorkerOrder} `{WL : !WorkerOrderLaws WO} (P : PluginManager → Prop) a s :
  P s → (∀ k w s, P s → pm_workers s !! k = Some w → P (poll_worker a k w s)) → P (poll_health a s).
Proof.
  intros Hs Hstep. unfold poll_health. apply poll_ok; [done| | |done].
  - rewrite (worker_order_perm (pm_workers s)). apply NoDup_fst_map_to_list.
  - intros k w Hin. rewrite worker_order_perm in Hin. by apply elem_of_map_to_list.
Qed.

(** ** Histories *)

End Accounting.

(** What happens to a manager: the operations of the event loop, with any snapshot, and the
    [terminate] of a task execution, which kills the process it was given and waits for it. *)
Inductive ManagerEvent : Type :=
| MSnapshot (start : nat → StartAnswers) (snapshot : PluginRuntimeSnapshot)
| MPoll (a : PollAnswers)
| MSent (notices : list PluginPauseNotice)
| MReset
| MAck (ack : PluginPauseAck)
| MAgentId (agent_id : option string)
| MTerminate (n : nat)
| MShutdown.

Section History.
Context `{WO : WorkerOrder} `{WL : !WorkerOrderLaws WO}.

Definition manager_step (s : PluginManager) (e : ManagerEvent) : PluginManager :=
  match e with
  | MSnapshot start snapshot => (apply_snapshot start snapshot s).2
  | MPoll a => poll_health a s
  | MSent notices => mark_pause_notices_sent notices s
  | MReset => reset_pause_notice_delivery s
  | MAck ack => acknowledge_pause ack s
  | MAgentId agent_id => set_agent_id agent_id s
  | MTerminate n => terminate_worker n s
  | MShutdown => shutdown_all s
  end.
Definition manager_run : PluginManager → list ManagerEvent → PluginManager := foldl manager_step.

Section Steps.
Context {stray : Prop} {dead : nat → Prop}.
Local Notation manager_ok := (manager_ok stray dead).

(** An event of a history in which only [stray] and [dead] are out of order. *)
Definition event_ok (e : ManagerEvent) : Prop :=
  match e with
  | MSnapshot _ snapshot => snapshot_wf (prs_plugins snapshot) ∨ stray
  | MTerminate n => dead n
  | _ => True
  end.

Lemma manager_ok_same s s' : pm_workers s' = pm_workers s → pm_limits s' = pm_limits s → pm_children s' = pm_children s →
  pm_started s' = pm_started s → manager_ok s → manager_ok s'.
Proof. intros E1 E2 E3 E4 [H1 H2 H3 H4 H5 H6 H7]. by constructor; rewrite ?E1, ?E2, ?E3, ?E4. Qed.

Lemma processes_elem m n : n ∈ worker_processes m ↔ ∃ k, runs m k n.
Proof.
  unfold worker_processes, runs. rewrite list_elem_of_omap. split.
  - intros ([k w] & Hin & H). apply elem_of_map_to_list in Hin. eauto.
  - intros (k & w & Hw & Hn). exists (k, w). split; [by apply elem_of_map_to_list|done].
Qed.

Lemma shutdown_all_ok s : manager_ok s → manager_ok (shutdown_all s) ∧ (¬ stray → pm_children (shutdown_all s) = ∅).
Proof.
  intros Hok. assert (∀ n, n ∈ pm_children (shutdown_all s) → stray) as E.
  { intros n. cbn. rewrite elem_of_difference, elem_of_list_to_set, processes_elem. intros [[?|?]%(mo_children _ _ _ Hok) ?]; done. }
  split; [|intros Hno; apply elem_of_equiv_empty_L; intros n ?%E; done]. constructor.
  - intros k w H. cbn in H. by rewrite lookup_empty in H.
  - intros n ?%E. by right.
  - intros k n (w & H & _). cbn in H. by rewrite lookup_empty in H.
  - intros k k' n (w & H & _). cbn in H. by rewrite lookup_empty in H.
  - intros k n (w & H & _). cbn in H. by rewrite lookup_empty in H.
  - intros n. cbn. rewrite elem_of_difference. intros [Hn _]. by apply (mo_started _ _ _ Hok).
  - cbn. rewrite map_size_empty. lia.
Qed.

Lemma acknowledge_pause_ok ack s : manager_ok s → manager_ok (acknowledge_pause ack s).
Proof.
  intros Hok. unfold acknowledge_pause. destruct (negb _); [done|]. set (key := (_, _)). set (s1 := set_notices _ _ s).
  assert (manager_ok s1) as Hok1 by by apply (manager_ok_same s). destruct (pm_workers s1 !! key) as [w|] eqn:Hw; [|done].
  case_bool_decide; [|done]. assert (∀ k n, runs (<[key := acknowledged w]> (pm_workers s1)) k n ↔ runs (pm_workers s1) k n) as Hruns.
  { intros k n. rewrite runs_insert. unfold runs. cbn. split.
    - intros [[-> E]|[_ ?]]; [by exists w|done].
    - intros (x & Hx & Hn). destruct (decide (k = key)) as [->|]; [|right; eauto].
      left. split; [done|]. assert (Some w = Some x) as [= ->] by (rewrite <-Hw; exact Hx). exact Hn. }
  destruct Hok1 as [H1 H2 H2' H3 H4' H4 H5]. constructor; cbn [pm_workers pm_limits pm_children pm_started set_workers].
  - intros k x [[<- <-]|[? ?]]%lookup_insert_Some; [|by eapply H1]. destruct (H1 _ _ Hw). by constructor.
  - intros n Hn. setoid_rewrite Hruns. by apply H2.
  - intros k n. rewrite Hruns. apply H2'.
  - intros k k' n. rewrite !Hruns. apply H3.
  - intros k n. rewrite Hruns. apply H4'.
  - done.
  - rewrite map_size_insert_Some; [done|by eexists].
Qed.

Lemma terminate_worker_ok n s : dead n → manager_ok s → manager_ok (terminate_worker n s).
Proof.
  intros Hd [H1 H2 H3 H4 H5 H6 H7]. constructor; cbn; [done| | |done..| |done].
  - intros m [Hm _]%elem_of_difference. by apply H2.
  - intros k m Hk. rewrite elem_of_difference, elem_of_singleton. destruct (decide (m = n)) as [->|]; [by right|].
    destruct (H3 _ _ Hk); [by left|by right].
  - intros m [Hm _]%elem_of_difference. by apply H6.
Qed.

Lemma manager_step_ok s e : event_ok e → manager_ok s → manager_ok (manager_step s e).
Proof.
  intros He Hok. destruct e as [start snapshot|a|notices| |ack|id|n|]; cbn in *.
  - destruct (apply_snapshot start snapshot s) as [r s'] eqn:E. by apply (apply_snapshot_cases _ _ _ _ _ Hok) in E as [? _].
  - apply poll_health_ind; [done|]. intros k w s1 H1 Hw. by apply poll_worker_ok.
  - by apply (manager_ok_same s).
  - by apply (manager_ok_same s).
  - by apply acknowledge_pause_ok.
  - by apply (manager_ok_same s).
  - by apply terminate_worker_ok.
  - by apply shutdown_all_ok.
Qed.

Lemma manager_new_ok catalog context limits : manager_ok (manager_new catalog context limits).
Proof.
  constructor; cbn.
  - intros k w H. by rewrite lookup_empty in H.
  - set_solver.
  - intros k n (w & H & _). by rewrite lookup_empty in H.
  - intros k k' n (w & H & _). by rewrite lookup_empty in H.
  - intros k n (w & H & _). by rewrite lookup_empty in H.
  - set_solver.
  - rewrite map_size_empty. lia.
Qed.

Lemma manager_run_ok s events : Forall event_ok events → manager_ok s → manager_ok (manager_run s events).
Proof. intros H. revert s. induction H as [|e events He _ IH]; intros s Hok; [done|]. by apply IH, manager_step_ok. Qed.

End Steps.

Lemma poll_health_settings a s : pm_limits (poll_health a s) = pm_limits s ∧ pm_catalog (poll_health a s) = pm_catalog s.
Proof.
  apply (poll_health_ind (λ s1, pm_limits s1 = pm_limits s ∧ pm_catalog s1 = pm_catalog s)); [done|].
  intros k w s1 [E1 E2] _. destruct (poll_worker_only a k w s1) as (E3 & E4 & _). split; congruence.
Qed.

(** The processes that task executions of a history killed, and whether a snapshot was malformed. *)
Definition terminated (events : list ManagerEvent) (n : nat) : Prop := MTerminate n ∈ events.
Definition malformed (events : list ManagerEvent) : Prop :=
  ∃ start snapshot, MSnapshot start snapshot ∈ events ∧ ¬ snapshot_wf (prs_plugins snapshot).

Lemma history_events_ok events : Forall (@event_ok (malformed events) (terminated events)) events.
Proof.
  apply Forall_forall. intros [start snapshot| | | | | |n|] Hin; try done. unfold event_ok.
  destruct (decide (snapshot_wf (prs_plugins snapshot))) as [|Hwf]; [by left|right]. by exists start, snapshot.
Qed.

Lemma manager_history_ok catalog context limits events :
  manager_ok (malformed events) (terminated events) (manager_run (manager_new catalog context limits) events).
Proof. apply manager_run_ok; [apply history_events_ok|apply manager_new_ok]. Qed.

Lemma manager_step_limits stray dead s e : @event_ok stray dead e → manager_ok stray dead s → pm_limits (manager_step s e) = pm_limits s.
Proof.
  intros He Hok. destruct e as [start snapshot|a|notices| |ack|id|n|]; try done; cbn in *.
  - destruct (apply_snapshot start snapshot s) as [r s'] eqn:E. by apply (apply_snapshot_cases _ _ _ _ _ Hok) in E as (_ & ? & _).
  - apply poll_health_settings.
  - unfold acknowledge_pause. destruct (negb _); [done|]. destruct (pm_workers _ !! _); [|done]. by case_bool_decide.
Qed.

Lemma manager_run_limits stray dead s events : Forall (@event_ok stray dead) events → manager_ok stray dead s → pm_limits (manager_run s events) = pm_limits s.
Proof.
  intros H. revert s. induction H as [|e events He _ IH]; intros s Hok; [done|]. cbn. rewrite IH by by apply manager_step_ok.
  by apply (manager_step_limits stray dead).
Qed.

(** ** One plugin in a health check *)

(** Processes are numbered in the order of their starts: one that runs after a check ran
    before it or is new. *)
Lemma record_failure_runs now unix key generation reason error s k n :
  runs (pm_workers (record_failure now unix key generation reason error s)) k n → runs (pm_workers s) k n.
Proof.
  unfold record_failure. destruct (pm_workers s !! key) as [w|]; [|done]. destruct (negb _); [done|].
  assert (∀ m, runs (<[key := failed_worker (pm_limits s) now unix reason error w]> m) k n → runs m k n) as H.
  { intros m [[_ H]|[_ ?]]%runs_insert; [|done]. unfold failed_worker in H. by repeat case_match. }
  destruct (mw_state _); cbn; apply H.
Qed.

Lemma restart_runs start now unix key generation s k n :
  runs (pm_workers (restart start now unix key generation s)) k n → runs (pm_workers s) k n ∨ n = pm_started s.
Proof.
  unfold restart. destruct (pm_workers s !! key) as [w|] eqn:Hw; [|by left]. destruct (negb _); [by left|].
  destruct (start_worker _ _ _ _ _) as [[[m eff]|e] s1] eqn:Hs; apply start_worker_cases in Hs as [[_ _ Hw1 _] Hs]; cbn in Hs, Hw1.
  - intros H. assert (runs (pm_workers s1) k n ∨ n = pm_started s) as [Hr|]; [|left|by right].
    + destruct (pm_workers s1 !! key) as [c|]; [|by left]. destruct (awaits_restart _ _); [|by left].
      apply runs_insert in H as [[_ [= ->]]|[_ ?]]; [by right; destruct Hs|by left].
    + rewrite Hw1 in Hr. apply runs_insert in Hr as [[-> H']|[_ ?]]; [by exists w|done].
  - intros H%record_failure_runs. left. rewrite Hw1 in H. apply runs_insert in H as [[-> H']|[_ ?]]; [by exists w|done].
Qed.

Lemma poll_worker_runs a key w s k n : runs (pm_workers (poll_worker a key w s)) k n → runs (pm_workers s) k n ∨ n = pm_started s.
Proof.
  unfold poll_worker. destruct (mw_worker w) as [m|].
  - destruct (pa_wait a m); intros H; left; try done; by apply record_failure_runs in H.
  - destruct (mw_state w), (mw_next_restart w); try by left. case_bool_decide; [apply restart_runs|by left].
Qed.

Lemma poll_worker_started a key w s : (pm_started s ≤ pm_started (poll_worker a key w s))%nat.
Proof.
  assert (∀ now unix g reason error s, pm_started (record_failure now unix key g reason error s) = pm_started s) as Hf.
  { intros. unfold record_failure. destruct (pm_workers _ !! _); [|done]. destruct (negb _); [done|]. by destruct (mw_state _). }
  unfold poll_worker. destruct (mw_worker w) as [m|].
  - destruct (pa_wait a m); rewrite ?Hf; done.
  - destruct (mw_state w), (mw_next_restart w); try done. case_bool_decide; [|done]. unfold restart.
    destruct (pm_workers s !! key) as [x|]; [|done]. destruct (negb _); [done|].
    destruct (start_worker _ _ _ _ _) as [[[n eff]|e] s1] eqn:Hs; apply start_worker_cases in Hs as [_ Hs]; cbn in Hs; [|rewrite Hf; tauto].
    assert (pm_started s ≤ pm_started s1)%nat by lia. destruct (pm_workers s1 !! key); [|done]. by destruct (awaits_restart _ _).
Qed.

Lemma poll_health_runs a s k n : runs (pm_workers (poll_health a s)) k n → runs (pm_workers s) k n ∨ (pm_started s ≤ n)%nat.
Proof.
  revert k n. apply (poll_health_ind (λ s1, (pm_started s ≤ pm_started s1)%nat ∧
    ∀ k n, runs (pm_workers s1) k n → runs (pm_workers s) k n ∨ (pm_started s ≤ n)%nat)); [split; [done|by left]|].
  intros k w s1 [Hle IH] _. pose proof (poll_worker_started a k w s1). split; [lia|].
  intros k' n [?| ->]%poll_worker_runs; [by apply IH|by right].
Qed.

(** What a check does to one plugin is what the check of this plugin does to it. *)
Lemma poll_others a key l s : key ∉ l.*1 →
  let s' := foldl (λ s kv, poll_worker a kv.1 kv.2 s) s l in
  pm_limits s' = pm_limits s ∧ pm_workers s' !! key = pm_workers s !! key ∧ pm_pause_notices s' !! key = pm_pause_notices s !! key ∧
  (key ∈ pm_pause_notice_sent s' ↔ key ∈ pm_pause_notice_sent s).
Proof.
  revert s. induction l as [|[k w] l IH]; intros s Hni; [done|]. cbn in Hni |- *. apply not_elem_of_cons in Hni as [Hne Hni].
  destruct (IH (poll_worker a k w s) Hni) as (-> & -> & -> & ->). destruct (poll_worker_only a k w s) as (-> & _ & Hw & Hnt).
  rewrite Hw by done. destruct (Hnt key) as [-> Hs]; done.
Qed.

Lemma poll_health_at a s key w : pm_workers s !! key = Some w → ∃ s1,
  pm_limits s1 = pm_limits s ∧ pm_workers s1 !! key = Some w ∧ pm_pause_notices s1 !! key = pm_pause_notices s !! key ∧
  let s2 := poll_worker a key w s1 in
  pm_workers (poll_health a s) !! key = pm_workers s2 !! key ∧
  pm_pause_notices (poll_health a s) !! key = pm_pause_notices s2 !! key ∧
  (key ∈ pm_pause_notice_sent (poll_health a s) ↔ key ∈ pm_pause_notice_sent s2).
Proof.
  intros Hw. assert ((key, w) ∈ worker_order (pm_workers s)) as Hin by (rewrite worker_order_perm; by apply elem_of_map_to_list).
  assert (NoDup (worker_order (pm_workers s)).*1) as Hnd by (rewrite worker_order_perm; apply NoDup_fst_map_to_list).
  unfold poll_health. apply list_elem_of_split in Hin as (l1 & l2 & E). rewrite E in Hnd |- *. rewrite fmap_app in Hnd. cbn in Hnd.
  apply NoDup_app in Hnd as (_ & H1 & H2). apply NoDup_cons in H2 as [H2 _].
  assert (key ∉ l1.*1) as H1' by (intros ?%H1; apply H; left). rewrite foldl_app. cbn.
  set (s1 := foldl _ s l1). destruct (poll_others a key l1 s H1') as (? & ? & ? & ?). exists s1.
  destruct (poll_others a key l2 (poll_worker a key w s1) H2) as (_ & ? & ? & ?). split_and!; try done. by subst s1; etrans.
Qed.

End History.

(** What [record_failure] makes of a worker. *)
Lemma failed_worker_spec limits now unix reason error w :
  let f := failed_worker limits now unix reason error w in
  let recent := filter (λ failure, saturating_sub now failure ≤ lm_restart_window limits) (mw_failures w) in
  let count := zlen recent + 1 in
  let paused := bool_decide (max_attempts limits ≤ count) in
  mw_worker f = None ∧ mw_failures f = recent ++ [now] ∧ mw_config_revision f = mw_config_revision w ∧ mw_last_exit_reason f = Some reason ∧
  mw_state f = (if paused then Paused else Restarting) ∧
  mw_next_restart f = (if paused then None else Some (now + 1000000000 * 2 ^ Z.min (count - 1) 10)).
Proof.
  intros f recent count paused. subst f paused. unfold failed_worker. fold recent.
  assert (zlen (recent ++ [now]) = count) as -> by (unfold count, zlen; rewrite length_app; cbn; lia).
  assert (saturating_sub count 1 = count - 1) as -> by (unfold saturating_sub, count, zlen; lia).
  fold (max_attempts limits). by destruct (if bool_decide (recent = []) then None else mw_failure_window_started w).
Qed.

(** ** Theorems *)

Section Theorems.
Context `{WO : WorkerOrder} `{WL : !WorkerOrderLaws WO}.


(** The steps that are not the Server's word: everything but an applied snapshot and the
    end of the Agent. *)
Inductive local_step : PluginManager → PluginManager → Prop :=
| ls_refused start snapshot s e s' : apply_snapshot start snapshot s = (Err e, s') → local_step s s'
| ls_poll a s : local_step s (poll_health a s)
| ls_sent notices s : local_step s (mark_pause_notices_sent notices s)
| ls_reset s : local_step s (reset_pause_notice_delivery s)
| ls_ack ack s : local_step s (acknowledge_pause ack s)
| ls_agent_id id s : local_step s (set_agent_id id s)
| ls_terminate n s : local_step s (terminate_worker n s).

Definition same_pause (w w' : ManagedWorker) : Prop := w' = w ∨ w' = acknowledged w.

(** The invariant that holds whatever happened before. *)
Definition some_ok : PluginManager → Prop := manager_ok True (λ _, True).
Lemma some_ok_intro stray dead s : manager_ok stray dead s → some_ok s.
Proof. intros [H1 H2 H3 H4 H5 H6 H7]. by constructor; try done; [intros; right|right]. Qed.

(** What a local step leaves of a paused plugin. *)
Lemma local_step_paused s s' key w : some_ok s → local_step s s' → pm_workers s !! key = Some w → mw_state w = Paused →
  some_ok s' ∧ (∃ w', pm_workers s' !! key = Some w' ∧ same_pause w w') ∧
  (pm_pause_notices s' !! key = pm_pause_notices s !! key ∨ pm_pause_notices s' !! key = None).
Proof.
  intros Hok Hstep Hw Hp. destruct Hstep as [start snapshot s e s' E|a s|notices s|s|ack s|id s|n s].
  - apply (apply_snapshot_cases _ _ _ _ _ Hok) in E as (? & _ & [_ _ Hsame [Hn _]]); [|by right]. rewrite Hsame, Hn. split_and!; [done| |by left].
    exists w. by split; [|left].
  - split; [by apply (manager_step_ok s (MPoll a))|].
    destruct (poll_health_at a s key w Hw) as (s1 & _ & Hw1 & Hn1 & -> & -> & _). rewrite <-Hn1.
    assert (mw_worker w = None) as Hnone.
    { destruct (mo_workers _ _ _ Hok _ _ Hw) as [Hr _ _ _]. destruct (mw_worker w); [|done]. destruct Hr as [_ Hr]. by rewrite Hr in Hp. }
    unfold poll_worker. rewrite Hnone, Hp. split; [exists w; by split; [|left]|by left].
  - split; [by apply (manager_ok_same s)|]. split; [exists w; by split; [|left]|by left].
  - split; [by apply (manager_ok_same s)|]. split; [exists w; by split; [|left]|by left].
  - split; [by apply acknowledge_pause_ok|]. unfold acknowledge_pause. destruct (negb _); [split; [exists w; by split; [|left]|by left]|].
    set (k := (_, _)). assert (pm_pause_notices s !! key = delete k (pm_pause_notices s) !! key ∨ delete k (pm_pause_notices s) !! key = None) as Hd.
    { destruct (decide (k = key)) as [->|]; [right; apply lookup_delete_eq|left; by rewrite lookup_delete_ne]. }
    cbn. destruct (pm_workers s !! k) as [x|] eqn:Hx; [case_bool_decide|]; cbn; (split; [|by destruct Hd; [left|right]]); [|exists w; by split; [|left]..].
    destruct (decide (k = key)) as [->|]; [exists (acknowledged w); rewrite lookup_insert_eq; split; [congruence|by right]|].
    exists w. rewrite lookup_insert_ne by done. by split; [|left].
  - split; [by apply (manager_ok_same s)|]. split; [exists w; by split; [|left]|by left].
  - split; [by apply terminate_worker_ok|]. split; [exists w; by split; [|left]|by left].
Qed.

Lemma local_steps_paused s s' key w : rtc local_step s s' → some_ok s → pm_workers s !! key = Some w → mw_state w = Paused →
  (∃ w', pm_workers s' !! key = Some w' ∧ mw_state w' = Paused ∧ mw_worker w' = None) ∧
  (pm_pause_notices s' !! key = pm_pause_notices s !! key ∨ pm_pause_notices s' !! key = None).
Proof.
  intros H. revert w. induction H as [s|s1 s2 s3 Hstep _ IH]; intros w Hok Hw Hp.
  - split; [|by left]. exists w. split_and!; [done..|]. destruct (mo_workers _ _ _ Hok _ _ Hw) as [Hr _ _ _].
    destruct (mw_worker w); [|done]. destruct Hr as [_ Hr]. by rewrite Hr in Hp.
  - destruct (local_step_paused _ _ _ _ Hok Hstep Hw Hp) as (Hok2 & (w2 & Hw2 & Hsame) & Hn).
    assert (mw_state w2 = Paused) as Hp2 by (destruct Hsame; by subst). destruct (IH _ Hok2 Hw2 Hp2) as [? Hn2]. split; [done|].
    destruct Hn2 as [->|]; [done|by right].
Qed.

Lemma is_paused_inv id version s : is_paused id version s = true → ∃ w, pm_workers s !! (id, version) = Some w ∧ mw_state w = Paused.
Proof. unfold is_paused. destruct (pm_workers s !! _) as [w|]; [|done]. intros H%bool_decide_eq_true. eauto. Qed.

(** A pause holds.  A plugin that was paused after repeated crashes stays paused, with no
    process, through any number of health checks, refused snapshots, acknowledgements and
    reconnections: only a snapshot that is applied (or the end of the Agent) ends the pause.
    Until then no task of the plugin is accepted and none is executed. *)
Theorem paused_until_new_snapshot `{FT : FloatText} `{SCC : SchemaCodec} catalog context limits events s' id version task :
  let s := manager_run (manager_new catalog context limits) events in
  is_paused id version s = true → rtc local_step s s' →
  is_paused id version s' = true ∧ (¬ ∃ n, runs (pm_workers s') (id, version) n) ∧
  execution_worker id version s' = Err (WTaskFailed "Plugin Worker is not active in this session") ∧
  (ptc_plugin_id task = id → ptc_plugin_version task = version → validate_task_config task s' ≠ Ok tt).
Proof.
  intros s (w & Hw & Hp)%is_paused_inv Hl. pose proof (some_ok_intro _ _ _ (manager_history_ok catalog context limits events)) as Hok.
  destruct (local_steps_paused _ _ _ _ Hl Hok Hw Hp) as [(w' & Hw' & Hp' & Hnone) _].
  assert (is_paused id version s' = true) as Hpaused by (unfold is_paused; rewrite Hw'; by apply bool_decide_eq_true). split_and!.
  - done.
  - intros (n & x & Hx & Hn). congruence.
  - unfold execution_worker. rewrite Hw'. cbn. by rewrite Hnone.
  - intros <- <-. unfold validate_task_config. destruct (_ || _); [done|]. by rewrite Hpaused.
Qed.

(** A crash is answered by a restart with a growing delay, or by a pause.  When a health
    check finds that the process of a running plugin ended, the process is given up, and the
    failures of the last [restart_window] and this one are counted.  Below the limit the next
    attempt is due after [2 ^ (count - 1)] seconds, at most 1024; at the limit the plugin is
    paused and a notice with the revision, the count and the reason waits to be sent. *)
Theorem crash_answered stray dead a s id version w n reason :
  manager_ok stray dead s → pm_workers s !! (id, version) = Some w → mw_worker w = Some n → pa_wait a n = Exited reason →
  let s' := poll_health a s in
  let now := pa_now a (id, version) in
  let recent := filter (λ failure, saturating_sub now failure ≤ lm_restart_window (pm_limits s)) (mw_failures w) in
  let count := zlen recent + 1 in
  (¬ stray → n ∉ pm_children s') ∧
  (count < max_attempts (pm_limits s) → ∃ w', pm_workers s' !! (id, version) = Some w' ∧ mw_state w' = Restarting ∧
     mw_failures w' = recent ++ [now] ∧ mw_next_restart w' = Some (now + 1000000000 * 2 ^ Z.min (count - 1) 10)) ∧
  (max_attempts (pm_limits s) ≤ count → is_paused id version s' = true ∧
     ∃ notice, notice ∈ pending_pause_notices s' ∧ ppn_plugin_id notice = id ∧ ppn_plugin_version notice = version ∧
       ppn_runtime_revision notice = mw_config_revision w ∧ ppn_failure_count notice = count `mod` 2 ^ 32 ∧
       ppn_last_exit_reason notice = reason).
Proof.
  intros Hok Hw Hn Hexit s' now recent count. destruct (poll_health_at a s _ w Hw) as (s1 & Hlim & Hw1 & _ & HW & HN & HS).
  fold s' in HW, HN, HS. unfold poll_worker in HW, HN, HS. rewrite Hn, Hexit in HW, HN, HS.
  unfold record_failure in HW, HN, HS. cbn [pm_workers shutdown_worker set_children] in HW, HN, HS. rewrite Hw1 in HW, HN, HS.
  rewrite bool_decide_eq_true_2 in HW, HN, HS by done. cbn [negb pm_limits shutdown_worker set_children] in HW, HN, HS. rewrite Hlim in HW, HN, HS.
  set (f := failed_worker _ _ _ _ _ w) in *.
  destruct (failed_worker_spec (pm_limits s) (pa_now a (id, version)) (pa_unix a (id, version)) reason None w) as (F1 & F2 & F3 & F4 & F5 & F6).
  fold f in F1, F2, F3, F4, F5, F6. fold now in F2, F5, F6. fold recent in F2, F5, F6. fold count in F5, F6.
  assert (pm_workers s' !! (id, version) = Some f) as Hf.
  { rewrite HW. destruct (mw_state f); cbn; by rewrite lookup_insert_eq. }
  split_and!.
  - assert (manager_ok stray dead s') as Hok' by by apply (manager_step_ok s (MPoll a)). intros Hno [[k Hk]|?]%(mo_children _ _ _ Hok'); [|done].
    assert (runs (pm_workers s) (id, version) n) as Hrun by by exists w.
    pose proof (mo_runs _ _ _ Hok _ _ Hrun) as Hlt.
    destruct (poll_health_runs a s k n Hk) as [Hk'|]; [|lia]. rewrite (mo_distinct _ _ _ Hok _ _ _ Hk' Hrun) in Hk.
    destruct Hk as (x & Hx & Hxn). congruence.
  - intros Hlt. rewrite bool_decide_eq_false_2 in F5, F6 by lia. eauto 10.
  - intros Hle. rewrite bool_decide_eq_true_2 in F5, F6 by done. split; [unfold is_paused; rewrite Hf, F5; done|].
    rewrite F5 in HN, HS. cbn in HN, HS. rewrite lookup_insert_eq in HN. eexists. split_and!.
    + apply list_elem_of_fmap. eexists (_, _). split; [done|]. apply list_elem_of_filter. split; [|by apply elem_of_map_to_list]. set_solver.
    + done.
    + done.
    + cbn. by rewrite F3.
    + cbn. rewrite F2. f_equal. unfold count, zlen. rewrite length_app. cbn. lia.
    + cbn. by rewrite F4.
Qed.

(** An acknowledgement of an older revision takes the notice of the newer pause with it:
    the plugin stays paused and the Server is never told (until the next snapshot). *)
Theorem stale_ack_loses_notice s s' w ack :
  some_ok s → let key := (ppa_plugin_id ack, ppa_plugin_version ack) in
  pm_workers s !! key = Some w → mw_state w = Paused → ppa_accepted ack = true → ppa_runtime_revision ack ≠ mw_config_revision w →
  rtc local_step (acknowledge_pause ack s) s' →
  pm_workers (acknowledge_pause ack s) !! key = Some w ∧ pm_pause_notices s' !! key = None ∧
  is_paused (ppa_plugin_id ack) (ppa_plugin_version ack) s' = true.
Proof.
  intros Hok key Hw Hp Ha Hrev Hl.
  assert (pm_workers (acknowledge_pause ack s) !! key = Some w ∧ pm_pause_notices (acknowledge_pause ack s) !! key = None) as [Hw1 Hn1].
  { unfold acknowledge_pause. rewrite Ha. cbn. fold key. rewrite Hw, bool_decide_eq_false_2 by done. cbn. by rewrite lookup_delete_eq. }
  destruct (local_steps_paused _ _ _ _ Hl (acknowledge_pause_ok _ _ Hok) Hw1 Hp) as [(w' & Hw' & Hp' & _) Hn].
  split_and!; [done|by destruct Hn as [->|]|]. unfold is_paused. fold key. rewrite Hw'. by apply bool_decide_eq_true.
Qed.

End Theorems.

(** ** Instances *)

#[local] Instance map_order : WorkerOrder := map_to_list.
#[local] Instance map_order_laws : WorkerOrderLaws map_order := λ m, reflexivity _.

Definition demo_installed : PluginCatalog :=
  mkPluginCatalog [] [(("echo"%string, mkPluginVersion 1 0 0), mkInstalled [] demo_echo_manifest [] [])].
Definition demo_limits : PluginRuntimeLimits := mkLimits 4 8 1 1 1 2 60000000000.
Definition demo_manager : PluginManager := manager_new demo_installed default_agent_context demo_limits.
Definition demo_runtime (concurrency : Z) : PluginRuntimeConfig := mkRuntimeConfig "echo" "1.0.0" 1 [1] concurrency.
Definition demo_answers : nat → StartAnswers := λ _,
  exchange (λ _ _ _ _, Ok tt) WORKER_PROTOCOL_VERSION WORKER_PROTOCOL_VERSION demo_echo demo_echo_manifest (mkStartOptions 7 [1] 1 4 default_agent_context).
Definition demo_crash (t : Z) : PollAnswers := mkPollAnswers (λ _, Exited "exit code 1") demo_answers (λ _, t) (λ _, t).
Definition demo_running : PluginManager := (apply_snapshot demo_answers (mkRuntimeSnapshot 7 [demo_runtime 4]) demo_manager).2.
Definition demo_waiting : PluginManager := poll_health (demo_crash 1000000000) demo_running.
Definition demo_again : PluginManager := poll_health (demo_crash 2000000000) demo_waiting.
Definition demo_paused : PluginManager := poll_health (demo_crash 3000000000) demo_again.

Definition demo_start : ManagerEvent := MSnapshot demo_answers (mkRuntimeSnapshot 7 [demo_runtime 4]).
Definition demo_history : list ManagerEvent :=
  [demo_start; MPoll (demo_crash 1000000000); MPoll (demo_crash 2000000000); MPoll (demo_crash 3000000000)].
Lemma demo_running_ok : manager_ok False (λ _, False) demo_running.
Proof. apply (manager_step_ok demo_manager demo_start); [left; vm_compute; by repeat constructor; set_solver|apply manager_new_ok]. Qed.


Lemma paused_until_new_snapshot_witness :
  is_paused "echo" "1.0.0" (poll_health (demo_crash 9000000000) (reset_pause_notice_delivery demo_paused)) = true.
Proof.
  refine (proj1 (paused_until_new_snapshot (FT := demo_floats) (SCC := code_codec) demo_installed default_agent_context demo_limits demo_history _
    "echo" "1.0.0" (mkPluginTaskConfig "echo" "1.0.0" "echo.v1" 1 []) _ _)).
  - vm_compute. reflexivity.
  - apply (rtc_l _ _ (reset_pause_notice_delivery demo_paused)); [exact (ls_reset demo_paused)|].
    apply rtc_once. exact (ls_poll (demo_crash 9000000000) (reset_pause_notice_delivery demo_paused)).
Defined.

Lemma crash_answered_witness : ∃ w', pm_workers demo_waiting !! ("echo"%string, "1.0.0"%string) = Some w' ∧ mw_next_restart w' = Some 2000000000.
Proof.
  destruct (crash_answered False (λ _, False) (demo_crash 1000000000) demo_running "echo" "1.0.0" (fresh_worker 0 [1] 1 4 4 7 1) 0 "exit code 1"
    demo_running_ok) as (_ & H & _); [vm_compute; reflexivity..|].
  destruct H as (w' & H1 & _ & _ & H2); [vm_compute; reflexivity|]. exists w'. split; [exact H1|exact H2].
Defined.

(** Snapshots the manager refuses half way: the processes it started for the earlier entries
    stay, and no worker of the map has them. *)
Lemma refused_snapshot_leaves_process :
  let '(r, s) := apply_snapshot demo_answers (mkRuntimeSnapshot 7 [demo_runtime 4; demo_runtime 4]) demo_manager in
  r = Err "duplicate Plus runtime configuration"%string ∧ pm_workers s = ∅ ∧ pm_children s = {[0%nat]} ∧ pm_children (shutdown_all s) = {[0%nat]}.
Proof. vm_compute. done. Qed.
