(* ===== verification/NoiseSession.v ===== *)
(** * The encrypted session

    [crates/smalux-protocol/src/noise/session.rs] and [tonic_transport/session.rs] with its
    modules [control.rs], [driver_loop.rs] and [policy.rs], [tonic_transport/driver.rs].

    A session turns messages into ciphertext frames, answers heartbeats, and changes the
    keys of both directions while it runs (rekey).  [snow] and [prost] are classes; what a
    method meets outside (the clocks, how the channel takes a frame) is the argument
    [Env].  A method that waits for the acknowledgement of a rekey returns [Suspend], and
    the caller goes on when it arrives.  The Agent drives its session by the loop of
    [run_driver], the Server calls [receive] and [send] itself. *)

From stdpp Require Import base gmap strings list.
From S2P Require Import Prelude Rotation Credential.

(** ** Messages *)

(** [SessionControl]. *)
Inductive ControlBody : Type :=
| CPing (nonce sent_at : Z)
| CPong (nonce echoed received sent : Z)
| CRekeyRequired (next_generation : Z)
| CRekeyRequest (generation : Z)
| CRekeyAck (generation : Z).

(** The bodies of [SecureMessage] that belong to the callers; the session does not look into
    their content. *)
Inductive BusinessKind : Type :=
| KRegistration | KDiagnostic | KKeyRotation | KJobCommand | KJobCommandResult | KTaskReport
| KAgentJobPolicy | KAgentCapability | KAgentPlugin | KJobEvent | KReconcileSummary.
Inductive MessageBody : Type :=
| BBusiness (kind : BusinessKind) (content : bytes)
| BError (code : Z) (message : string)
| BControl (body : option ControlBody).
Definition SecureMessage : Type := option MessageBody.
Definition control_message (b : ControlBody) : SecureMessage := Some (BControl (Some b)).

(** [NoiseHandshake], [ProtocolError] and [ProtocolFrame]. *)
Record NoiseHandshake : Type := mkHandshake {
  nh_type : Z;
  nh_responder_key_id : bytes;
  nh_payload : bytes;
  nh_registration_token_id : bytes;
}.
Inductive ProtocolFrame : Type :=
| FHandshake (h : NoiseHandshake)
| FCiphertext (c : bytes)
| FProtocolError (code : Z) (message : string)
| FEmpty.

(** [SessionEvent] and its conversion; [SecureErrorCode::try_from]. *)
Definition SessionEvent : Type := BusinessKind * bytes.
Definition secure_error_code (code : Z) : SecureErrorCode :=
  match code with
  | 1 => InvalidToken | 2 => TokenAlreadyUsed | 3 => AgentNotAuthorized | 4 => AgentAlreadyRegistered | 5 => InvalidMessage
  | 6 => RotationConflict | 7 => RotationIdMismatchCode | 8 => InvalidRotationState | 9 => Internal | 10 => ResourceExhausted
  | _ => Unspecified
  end.
Definition try_from (m : SecureMessage) : result TransportError SessionEvent :=
  match m with
  | Some (BBusiness kind content) => Ok (kind, content)
  | Some (BError code message) => Err (TRemoteSecure (secure_error_code code) message)
  | Some (BControl _) => Err (TProtocol "session control escaped the transport state machine")
  | None => Err (TProtocol "SecureMessage body is required")
  end.

(** ** [SecureSession] *)

(** [prost] on [SecureMessage]. *)
Class MessageCodec : Type := { encode_message : SecureMessage → bytes; decode_message : bytes → option SecureMessage }.
Class MessageCodecLaws (MC : MessageCodec) : Prop := decode_encode m : decode_message (encode_message m) = Some m.

(** One direction of a [snow::TransportState]: key and nonce.  [write_message] and
    [read_message] advance it, a failure leaves it as it is. *)
Class Snow : Type := {
  Cipher : Type;
  snow_write : Cipher → bytes → option (bytes * Cipher);
  snow_read : Cipher → bytes → option (bytes * Cipher);
  snow_rekey : Cipher → Cipher;
}.
(** Documented behaviour: the other side reads what was written with the same key and nonce,
    ciphertexts are 16 bytes longer, and a Noise message has at most 65535 bytes. *)
Definition NOISE_MAX_MESSAGE : Z := 65535.
Class SnowLaws (SN : Snow) : Prop := {
  read_write h p c h' : snow_write h p = Some (c, h') → snow_read h c = Some (p, h');
  write_length h p c h' : snow_write h p = Some (c, h') → zlen c = zlen p + 16;
  write_limit h p : NOISE_MAX_MESSAGE < zlen p + 16 → snow_write h p = None;
}.
(** Ideal authenticated encryption: a ciphertext is read only with the key and nonce it was
    written with, and keys and nonces do not repeat. *)
Class SnowIdeal (SN : Snow) : Prop := {
  read_authentic h0 p0 c h0' h : snow_write h0 p0 = Some (c, h0') → is_Some (snow_read h c) → h = h0;
  rekey_fresh h : snow_rekey h ≠ h;
  nonce_fresh h p c h' : snow_write h p = Some (c, h') → h' ≠ h;
}.

Definition MAX_NOISE_PLAINTEXT_BYTES : Z := 1024 * 1024 - 4096.

Section Session.
Context `{MC : MessageCodec} `{SN : Snow}.

Record SecureSession : Type := mkSecure {
  ss_send : Cipher;
  ss_recv : Cipher;
  ss_generation : Z;
  ss_frames : Z;
}.
Definition secure_new (send recv : Cipher) : SecureSession := mkSecure send recv 0 0.

Definition encrypt (m : SecureMessage) (s : SecureSession) : result NoiseError ProtocolFrame * SecureSession :=
  let plaintext := encode_message m in
  if bool_decide (MAX_NOISE_PLAINTEXT_BYTES < zlen plaintext) then (Err MessageTooLarge, s)
  else match snow_write (ss_send s) plaintext with
       | None => (Err (Crypto "write_message"), s)
       | Some (c, h) => (Ok (FCiphertext c), mkSecure h (ss_recv s) (ss_generation s) (saturating_add u64_max (ss_frames s) 1))
       end.
Definition decrypt (f : ProtocolFrame) (s : SecureSession) : result NoiseError SecureMessage * SecureSession :=
  match f with
  | FCiphertext c =>
      if bool_decide (MAX_NOISE_PLAINTEXT_BYTES + 16 < zlen c) then (Err MessageTooLarge, s)
      else match snow_read (ss_recv s) c with
           | None => (Err (Crypto "read_message"), s)
           | Some (p, h) =>
               (ok_or (Encode "SecureMessage") (decode_message p),
                mkSecure (ss_send s) h (ss_generation s) (saturating_add u64_max (ss_frames s) 1))
           end
  | _ => (Err InvalidFrame, s)
  end.
Definition rekey_incoming (s : SecureSession) : SecureSession :=
  mkSecure (ss_send s) (snow_rekey (ss_recv s)) (ss_generation s) (ss_frames s).
Definition rekey_outgoing (s : SecureSession) : SecureSession :=
  mkSecure (snow_rekey (ss_send s)) (ss_recv s) (ss_generation s) (ss_frames s).
Definition finish_rekey (generation : Z) (s : SecureSession) : SecureSession := mkSecure (ss_send s) (ss_recv s) generation 0.

(** ** [TonicNoiseSession] *)

Inductive NoiseSessionRole : Type := Initiator | Responder.
#[global] Instance NoiseSessionRole_eq_dec : EqDecision NoiseSessionRole.
Proof. solve_decision. Defined.

Record HeartbeatPolicy : Type := mkHeartbeat { hb_interval : Z; hb_timeout : Z }.
Record RekeyPolicy : Type := mkRekey { rk_max_age : Z; rk_max_frames : Z; rk_automatic : bool }.
Record HeartbeatSample : Type := mkSample {
  hs_nonce : Z;
  hs_rtt : Z;
  hs_sent_at : Z;
  hs_responder_received : Z;
  hs_responder_sent : Z;
  hs_received : Z;
}.
Record HeartbeatStats : Type := mkStats {
  st_sent : Z;
  st_received : Z;
  st_lost : Z;
  st_consecutive : Z;
  st_last : option HeartbeatSample;
  st_min_rtt : option Z;
  st_max_rtt : option Z;
}.
(** Durations are in nanoseconds. *)
Definition default_heartbeat : HeartbeatPolicy := mkHeartbeat (30 * 10 ^ 9) (90 * 10 ^ 9).
Definition default_rekey : RekeyPolicy := mkRekey (3600 * 10 ^ 9) (2 ^ 20) true.
Definition default_stats : HeartbeatStats := mkStats 0 0 0 0 None None None.

Record TonicNoiseSession : Type := mkSession {
  se_secure : SecureSession;
  se_role : NoiseSessionRole;
  se_established_at : Z;
  se_last_received : Z;
  se_next_ping_nonce : Z;
  se_pending_pings : gmap Z Z;
  se_stats : HeartbeatStats;
  se_heartbeat : HeartbeatPolicy;
  se_rekey : RekeyPolicy;
  se_buffered : list SecureMessage;
  se_outbound : list ProtocolFrame;
}.
(** [new]: [se_outbound] are the frames the channel has taken. *)
Definition session_new (secure : SecureSession) (role : NoiseSessionRole) (now : Z) : TonicNoiseSession :=
  mkSession secure role now now 1 ∅ default_stats default_heartbeat default_rekey [] [].

Definition set_secure (x : SecureSession) (s : TonicNoiseSession) : TonicNoiseSession :=
  mkSession x (se_role s) (se_established_at s) (se_last_received s) (se_next_ping_nonce s) (se_pending_pings s) (se_stats s)
    (se_heartbeat s) (se_rekey s) (se_buffered s) (se_outbound s).
Definition set_established (now : Z) (s : TonicNoiseSession) : TonicNoiseSession :=
  mkSession (se_secure s) (se_role s) now (se_last_received s) (se_next_ping_nonce s) (se_pending_pings s) (se_stats s)
    (se_heartbeat s) (se_rekey s) (se_buffered s) (se_outbound s).
Definition set_last_received (now : Z) (s : TonicNoiseSession) : TonicNoiseSession :=
  mkSession (se_secure s) (se_role s) (se_established_at s) now (se_next_ping_nonce s) (se_pending_pings s) (se_stats s)
    (se_heartbeat s) (se_rekey s) (se_buffered s) (se_outbound s).
Definition set_pings (next : Z) (pending : gmap Z Z) (stats : HeartbeatStats) (s : TonicNoiseSession) : TonicNoiseSession :=
  mkSession (se_secure s) (se_role s) (se_established_at s) (se_last_received s) next pending stats
    (se_heartbeat s) (se_rekey s) (se_buffered s) (se_outbound s).
Definition set_policies (heartbeat : HeartbeatPolicy) (rekey : RekeyPolicy) (s : TonicNoiseSession) : TonicNoiseSession :=
  mkSession (se_secure s) (se_role s) (se_established_at s) (se_last_received s) (se_next_ping_nonce s) (se_pending_pings s)
    (se_stats s) heartbeat rekey (se_buffered s) (se_outbound s).
Definition set_queues (buffered : list SecureMessage) (outbound : list ProtocolFrame) (s : TonicNoiseSession) : TonicNoiseSession :=
  mkSession (se_secure s) (se_role s) (se_established_at s) (se_last_received s) (se_next_ping_nonce s) (se_pending_pings s)
    (se_stats s) (se_heartbeat s) (se_rekey s) buffered outbound.

Definition set_heartbeat_policy (p : HeartbeatPolicy) (s : TonicNoiseSession) : TonicNoiseSession := set_policies p (se_rekey s) s.
Definition set_rekey_policy (p : RekeyPolicy) (s : TonicNoiseSession) : TonicNoiseSession := set_policies (se_heartbeat s) p s.

(** ** Methods *)

(** What a method meets: the monotonic clock, Unix microseconds, whether the channel takes
    the frame it sends (or is closed, or the caller drops the future while the channel is
    full), and whether the receiver of events still exists. *)
Inductive SendOutcome : Type := Sent | SendClosed | SendDropped.
Record Env : Type := mkEnv { en_now : Z; en_unix : Z; en_send : SendOutcome; en_listening : bool }.

Inductive Flow (A : Type) : Type :=
| Ret (a : A)
| Fail (e : TransportError)
| Suspend (generation : Z)
| Gone.
Arguments Ret {A}.
Arguments Fail {A}.
Arguments Suspend {A}.
Arguments Gone {A}.
Definition M (A : Type) : Type := TonicNoiseSession → Flow A * TonicNoiseSession.
#[global] Instance M_ret : MRet M := λ A a s, (Ret a, s).
#[global] Instance M_bind : MBind M := λ A B f m s,
  match m s with
  | (Ret a, s) => f a s
  | (Fail e, s) => (Fail e, s)
  | (Suspend g, s) => (Suspend g, s)
  | (Gone, s) => (Gone, s)
  end.
Definition get {A} (f : TonicNoiseSession → A) : M A := λ s, (Ret (f s), s).
Definition modify (f : TonicNoiseSession → TonicNoiseSession) : M unit := λ s, (Ret tt, f s).
Definition fail {A} (e : TransportError) : M A := λ s, (Fail e, s).
Definition suspend {A} (generation : Z) : M A := λ s, (Suspend generation, s).

(** [send] and [send_frame]. *)
Definition send (env : Env) (m : SecureMessage) : M unit := λ s,
  match encrypt m (se_secure s) with
  | (Err e, secure) => (Fail (TNoise e), set_secure secure s)
  | (Ok f, secure) =>
      let s := set_secure secure s in
      match en_send env with
      | Sent => (Ret tt, set_queues (se_buffered s) (se_outbound s ++ [f]) s)
      | SendClosed => (Fail TClosed, s)
      | SendDropped => (Gone, s)
      end
  end.

(** [should_ping], [heartbeat_expired], [should_rekey] and [maintenance_status]. *)
Definition elapsed_since (now last duration : Z) : bool := bool_decide (duration ≤ saturating_sub now last).
Definition should_ping (now : Z) (s : TonicNoiseSession) : bool := elapsed_since now (se_last_received s) (hb_interval (se_heartbeat s)).
Definition heartbeat_expired (now : Z) (s : TonicNoiseSession) : bool :=
  elapsed_since now (se_last_received s) (hb_timeout (se_heartbeat s)).
Definition should_rekey (now : Z) (s : TonicNoiseSession) : bool :=
  rk_automatic (se_rekey s)
  && (elapsed_since now (se_established_at s) (rk_max_age (se_rekey s))
      || bool_decide (rk_max_frames (se_rekey s) ≤ ss_frames (se_secure s))).
Definition rekey_due (now : Z) (s : TonicNoiseSession) : bool := bool_decide (se_role s = Initiator) && should_rekey now s.

(** [record_heartbeat_timeout] and [record_heartbeat_sample]. *)
Definition record_heartbeat_timeout (s : TonicNoiseSession) : TonicNoiseSession :=
  let st := se_stats s in
  let lost := Z.max (Z.of_nat (size (se_pending_pings s))) 1 in
  set_pings (se_next_ping_nonce s) ∅
    (mkStats (st_sent st) (st_received st) (saturating_add u64_max (st_lost st) lost) (saturating_add u64_max (st_consecutive st) 1)
       (st_last st) (st_min_rtt st) (st_max_rtt st)) s.
Definition record_heartbeat_sample (x : HeartbeatSample) (s : TonicNoiseSession) : TonicNoiseSession :=
  let st := se_stats s in
  set_pings (se_next_ping_nonce s) (se_pending_pings s)
    (mkStats (st_sent st) (saturating_add u64_max (st_received st) 1) (st_lost st) 0 (Some x)
       (Some (from_option (λ v, Z.min v (hs_rtt x)) (hs_rtt x) (st_min_rtt st)))
       (Some (from_option (λ v, Z.max v (hs_rtt x)) (hs_rtt x) (st_max_rtt st)))) s.

(** [ping]. *)
Definition ping (env : Env) (nonce : Z) : M unit := λ s,
  if bool_decide (is_Some (se_pending_pings s !! nonce)) then (Fail (TProtocol "heartbeat nonce is already pending"), s)
  else
    let s := set_pings (se_next_ping_nonce s) (<[nonce := en_now env]> (se_pending_pings s)) (se_stats s) s in
    match send env (control_message (CPing nonce (en_unix env))) s with
    | (Fail e, s) => (Fail e, set_pings (se_next_ping_nonce s) (delete nonce (se_pending_pings s)) (se_stats s) s)
    | (Ret _, s) =>
        let st := se_stats s in
        (Ret tt, set_pings (se_next_ping_nonce s) (se_pending_pings s)
           (mkStats (saturating_add u64_max (st_sent st) 1) (st_received st) (st_lost st) (st_consecutive st) (st_last st)
              (st_min_rtt st) (st_max_rtt st)) s)
    | r => r
    end.

(** [allocate_ping_nonce]: the first of the next numbers that is not pending, and the
    number after it. *)
Fixpoint nonce_loop (fuel : nat) (next : Z) (pending : gmap Z Z) : Z * Z :=
  match fuel with
  | O => (next, wrapping_add_u64 next 1)
  | S fuel =>
      if bool_decide (is_Some (pending !! next)) then nonce_loop fuel (wrapping_add_u64 next 1) pending
      else (next, wrapping_add_u64 next 1)
  end.
Definition allocate_ping_nonce : M Z := λ s,
  let '(nonce, next) := nonce_loop (size (se_pending_pings s)) (se_next_ping_nonce s) (se_pending_pings s) in
  (Ret nonce, set_pings next (se_pending_pings s) (se_stats s) s).

(** [require_rekey] and [request_rekey] up to the wait for the acknowledgement. *)
Definition next_generation (s : TonicNoiseSession) : Z := saturating_add u64_max (ss_generation (se_secure s)) 1.
Definition require_rekey (env : Env) : M Z :=
  role ← get se_role;
  if bool_decide (role = Initiator) then fail (TProtocol "only the Noise responder may require rekey")
  else
    generation ← get next_generation;
    _ ← send env (control_message (CRekeyRequired generation));
    mret generation.
Definition request_rekey {A} (env : Env) : M A :=
  role ← get se_role;
  if negb (bool_decide (role = Initiator)) then fail (TProtocol "only the Noise initiator may request rekey")
  else
    generation ← get next_generation;
    _ ← send env (control_message (CRekeyRequest generation));
    suspend generation.

(** [handle_control]. *)
Definition handle_control (env : Env) (control : option ControlBody) : M unit :=
  role ← get se_role;
  match control with
  | Some (CPing nonce sent_at) => send env (control_message (CPong nonce sent_at (en_unix env) (en_unix env)))
  | Some (CPong nonce echoed received sent) => λ s,
      match se_pending_pings s !! nonce with
      | None => (Ret tt, s)
      | Some sent_at =>
          let s := set_pings (se_next_ping_nonce s) (delete nonce (se_pending_pings s)) (se_stats s) s in
          (Ret tt, record_heartbeat_sample (mkSample nonce (saturating_sub (en_now env) sent_at) echoed received sent (en_unix env)) s)
      end
  | Some (CRekeyRequest generation) =>
      if bool_decide (role = Initiator) then fail (TProtocol "invalid session control message")
      else
        expected ← get next_generation;
        if negb (bool_decide (generation = expected)) then fail (TProtocol "unexpected rekey generation")
        else
          _ ← modify (λ s, set_secure (rekey_incoming (se_secure s)) s);
          _ ← send env (control_message (CRekeyAck generation));
          modify (λ s, set_established (en_now env) (set_secure (finish_rekey generation (rekey_outgoing (se_secure s))) s))
  | Some (CRekeyRequired _) =>
      if bool_decide (role = Initiator) then fail TRekeyRequired else fail (TProtocol "invalid session control message")
  | Some (CRekeyAck _) => fail (TProtocol "unexpected rekey acknowledgement")
  | None => fail (TProtocol "invalid session control message")
  end.

(** [self.secure.decrypt(frame)?]. *)
Definition decrypt_frame (f : ProtocolFrame) : M SecureMessage := λ s,
  match decrypt f (se_secure s) with
  | (Ok m, secure) => (Ret m, set_secure secure s)
  | (Err e, secure) => (Fail (TNoise e), set_secure secure s)
  end.

(** [process_inbound_frame]. *)
Definition process_control (env : Env) (control : option ControlBody) : M (option SecureMessage) := λ s,
  match handle_control env control s with
  | (Fail TRekeyRequired, s) => if bool_decide (se_role s = Initiator) then request_rekey env s else (Fail TRekeyRequired, s)
  | (Ret _, s) => (Ret None, s)
  | (Fail e, s) => (Fail e, s)
  | (Suspend g, s) => (Suspend g, s)
  | (Gone, s) => (Gone, s)
  end.
Definition process_inbound_frame (env : Env) (f : ProtocolFrame) : M (option SecureMessage) :=
  m ← decrypt_frame f;
  _ ← modify (set_last_received (en_now env));
  match m with
  | Some (BControl control) => process_control env control
  | m => mret (Some m)
  end.

(** A turn of the loop of [request_rekey]: [true] when the acknowledgement has come. *)
Definition await_ack (env : Env) (generation : Z) (f : ProtocolFrame) : M bool :=
  m ← decrypt_frame f;
  match m with
  | Some (BControl (Some (CRekeyAck g))) =>
      if bool_decide (g = generation) then
        _ ← modify (λ s, set_last_received (en_now env) (set_established (en_now env)
              (set_secure (finish_rekey generation (rekey_outgoing (rekey_incoming (se_secure s)))) s)));
        mret true
      else _ ← handle_control env (Some (CRekeyAck g)); mret false
  | Some (BControl (Some (CRekeyRequired g))) =>
      if bool_decide (g = generation) then mret false
      else _ ← handle_control env (Some (CRekeyRequired g)); mret false
  | Some (BControl control) => _ ← handle_control env control; mret false
  | m => _ ← modify (λ s, set_queues (se_buffered s ++ [m]) (se_outbound s) s); mret false
  end.

(** ** [receive] and [receive_event] *)

(** What [inbound.message()] gives, or nothing within the time the caller waits. *)
Inductive Inbound : Type := InFrame (f : ProtocolFrame) | InEnd | InError (code : GrpcCode) | InIdle.

Inductive Received : Type := Delivered (m : SecureMessage) | StreamEnd | Again.

(** A turn of the loop of [receive] before it reads the stream, if it does not come that far. *)
Definition receive_ready (env : Env) (s : TonicNoiseSession) : option (Flow Received * TonicNoiseSession) :=
  match se_buffered s with
  | m :: rest => Some (Ret (Delivered m), set_queues rest (se_outbound s) s)
  | [] =>
      if rekey_due (en_now env) s then Some (request_rekey env s)
      else if heartbeat_expired (en_now env) s then Some (Fail THeartbeatTimeout, record_heartbeat_timeout s)
      else None
  end.
Definition receive_read (env : Env) (i : Inbound) : M Received :=
  match i with
  | InFrame f => m ← process_inbound_frame env f; mret (match m with Some m => Delivered m | None => Again end)
  | InEnd => mret StreamEnd
  | InError code => fail (TStatus code)
  | InIdle => nonce ← allocate_ping_nonce; _ ← ping env nonce; mret Again
  end.

(** ** An end of the connection

    The session, what its owner is doing, what it has given to the business code, and the
    answers to commands. *)
Inductive After : Type := AfterFrame | AfterCommand | AfterMaintenance (ping_due : bool) | AfterReceive.
Inductive Phase : Type := Serving | AwaitAck (generation : Z) (after : After) | Stopped.
Inductive Reply : Type := Done | Generation (g : Z) | Stats (st : HeartbeatStats).
Record Endpoint : Type := mkEndpoint {
  ep_session : TonicNoiseSession;
  ep_phase : Phase;
  ep_events : list (result TransportError SessionEvent);
  ep_replies : list (result TransportError Reply);
}.
Definition endpoint_new (s : TonicNoiseSession) : Endpoint := mkEndpoint s Serving [] [].
Definition set_endpoint (s : TonicNoiseSession) (p : Phase) (e : Endpoint) : Endpoint := mkEndpoint s p (ep_events e) (ep_replies e).
Definition push_event (r : result TransportError SessionEvent) (e : Endpoint) : Endpoint :=
  mkEndpoint (ep_session e) (ep_phase e) (ep_events e ++ [r]) (ep_replies e).
Definition answer (r : result TransportError Reply) (e : Endpoint) : Endpoint :=
  mkEndpoint (ep_session e) (ep_phase e) (ep_events e) (ep_replies e ++ [r]).

(** The Server: [receive_event] in its loop, and [send] between two calls.  An error ends the
    session; a call that is dropped is made again. *)
Definition after_receive (r : Flow Received * TonicNoiseSession) (e : Endpoint) : Endpoint :=
  match r with
  | (Ret (Delivered m), s) =>
      match try_from m with
      | Ok ev => push_event (Ok ev) (set_endpoint s Serving e)
      | Err x => push_event (Err x) (set_endpoint s Stopped e)
      end
  | (Ret StreamEnd, s) => set_endpoint s Stopped e
  | (Ret Again, s) => set_endpoint s Serving e
  | (Fail x, s) => push_event (Err x) (set_endpoint s Stopped e)
  | (Suspend g, s) => set_endpoint s (AwaitAck g AfterReceive) e
  | (Gone, s) => set_endpoint s Serving e
  end.
Definition manual_receive (env : Env) (i : Inbound) (e : Endpoint) : Endpoint :=
  after_receive (default (receive_read env i (ep_session e)) (receive_ready env (ep_session e))) e.
Definition manual_send (env : Env) (m : SecureMessage) (e : Endpoint) : Endpoint :=
  match send env m (ep_session e) with
  | (Ret _, s) => set_endpoint s Serving e
  | (_, s) => set_endpoint s Stopped e
  end.

(** ** The driver *)

Inductive DriverCommand : Type :=
| DSend (m : SecureMessage)
| DShutdown
| DPing (nonce : Z)
| DRequestRekey
| DRequireRekey
| DHeartbeatStats.

(** The driver stops, with an error for the business code. *)
Definition stop_with (x : TransportError) (s : TonicNoiseSession) (e : Endpoint) : Endpoint := push_event (Err x) (set_endpoint s Stopped e).

(** [flush_buffered_events]. *)
Definition flush_buffered_events (env : Env) (s : TonicNoiseSession) (e : Endpoint) : Endpoint :=
  match se_buffered s with
  | [] => set_endpoint s Serving e
  | _ :: rest =>
      if en_listening env
      then mkEndpoint (set_queues [] (se_outbound s) s) Serving (ep_events e ++ (try_from <$> se_buffered s)) (ep_replies e)
      else set_endpoint (set_queues rest (se_outbound s) s) Stopped e
  end.

(** [handle_driver_inbound] with [process_driver_frame]. *)
Definition handle_driver_inbound (env : Env) (i : Inbound) (e : Endpoint) : Endpoint :=
  let s := ep_session e in
  match i with
  | InEnd => stop_with TClosed s e
  | InError code => stop_with (TStatus code) s e
  | InIdle => e
  | InFrame f =>
      match process_inbound_frame env f s with
      | (Ret (Some m), s) =>
          match try_from m with
          | Ok ev => if en_listening env then flush_buffered_events env s (push_event (Ok ev) e) else set_endpoint s Stopped e
          | Err x => stop_with x s e
          end
      | (Ret None, s) => flush_buffered_events env s e
      | (Fail x, s) => stop_with x s e
      | (Suspend g, s) => set_endpoint s (AwaitAck g AfterFrame) e
      | (Gone, s) => set_endpoint s Stopped e
      end
  end.

(** [handle_driver_command]; [None] when all handles are gone. *)
Definition after_command (r : Flow Reply * TonicNoiseSession) (e : Endpoint) : Endpoint :=
  match r with
  | (Ret a, s) => answer (Ok a) (set_endpoint s Serving e)
  | (Fail x, s) => answer (Err x) (set_endpoint s Stopped e)
  | (Suspend g, s) => set_endpoint s (AwaitAck g AfterCommand) e
  | (Gone, s) => set_endpoint s Stopped e
  end.
Definition handle_driver_command (env : Env) (c : option DriverCommand) (e : Endpoint) : Endpoint :=
  let s := ep_session e in
  match c with
  | Some (DSend m) => after_command ((_ ← send env m; mret Done) s) e
  | Some DShutdown => answer (Ok Done) (set_endpoint s Stopped e)
  | Some (DPing nonce) => after_command ((_ ← ping env nonce; mret Done) s) e
  | Some DRequestRekey => after_command (request_rekey env s) e
  | Some DRequireRekey => after_command ((g ← require_rekey env; mret (Generation g)) s) e
  | Some DHeartbeatStats => answer (Ok (Stats (se_stats s))) e
  | None => set_endpoint s Stopped e
  end.

(** [perform_maintenance] and [handle_driver_maintenance]. *)
Definition maintenance_ping (env : Env) (due : bool) (s : TonicNoiseSession) (e : Endpoint) : Endpoint :=
  if due then
    match (nonce ← allocate_ping_nonce; ping env nonce) s with
    | (Ret _, s) => flush_buffered_events env s e
    | (Fail x, s) => stop_with x s e
    | (_, s) => set_endpoint s Stopped e
    end
  else flush_buffered_events env s e.
Definition handle_driver_maintenance (env : Env) (e : Endpoint) : Endpoint :=
  let s := ep_session e in
  if heartbeat_expired (en_now env) s then stop_with THeartbeatTimeout (record_heartbeat_timeout s) e
  else if rekey_due (en_now env) s then
    match request_rekey (A := unit) env s with
    | (Suspend g, s) => set_endpoint s (AwaitAck g (AfterMaintenance (should_ping (en_now env) (ep_session e)))) e
    | (Fail x, s) => stop_with x s e
    | (_, s) => set_endpoint s Stopped e
    end
  else maintenance_ping env (should_ping (en_now env) s) s e.

(** What follows the acknowledgement, and an error while waiting for it. *)
Definition rekey_done (env : Env) (g : Z) (after : After) (s : TonicNoiseSession) (e : Endpoint) : Endpoint :=
  match after with
  | AfterFrame => flush_buffered_events env s e
  | AfterCommand => flush_buffered_events env s (answer (Ok (Generation g)) e)
  | AfterMaintenance due => maintenance_ping env due s e
  | AfterReceive => set_endpoint s Serving e
  end.
Definition rekey_failed (after : After) (x : TransportError) (s : TonicNoiseSession) (e : Endpoint) : Endpoint :=
  match after with
  | AfterCommand => answer (Err x) (set_endpoint s Stopped e)
  | _ => stop_with x s e
  end.
Definition handle_await (env : Env) (g : Z) (after : After) (i : Inbound) (e : Endpoint) : Endpoint :=
  let s := ep_session e in
  match i with
  | InIdle => rekey_failed after (TTimeout "waiting for Noise rekey acknowledgement") s e
  | InError code => rekey_failed after (TStatus code) s e
  | InEnd => rekey_failed after TClosed s e
  | InFrame f =>
      match await_ack env g f s with
      | (Ret true, s) => rekey_done env g after s e
      | (Ret false, s) => set_endpoint s (AwaitAck g after) e
      | (Fail x, s) => rekey_failed after x s e
      | (_, s) => set_endpoint s Stopped e
      end
  end.

(** The turns of [run_driver]. *)
Inductive DriverEvent : Type :=
| DInbound (i : Inbound)
| DCommand (c : option DriverCommand)
| DTick.
Definition driver_event (env : Env) (ev : DriverEvent) (e : Endpoint) : option Endpoint :=
  match ep_phase e, ev with
  | Serving, DInbound i => Some (handle_driver_inbound env i e)
  | Serving, DCommand c => Some (handle_driver_command env c e)
  | Serving, DTick => Some (handle_driver_maintenance env e)
  | AwaitAck g after, DInbound i => Some (handle_await env g after i e)
  | _, _ => None
  end.

End Session.
Arguments Ret {A}.
Arguments Fail {A}.
Arguments Suspend {A}.
Arguments Gone {A}.
