(* ===== verification/NoiseSync.v ===== *)
(** * Both ends of an encrypted session

    The Agent with its driver and the Server with its own loop, connected by two channels
    that keep the order of frames.  The theorems are about every interleaving of what the
    two ends do: no frame becomes unreadable while keys are changed, messages arrive once
    and in order, and both ends agree on the generation of the keys. *)

From stdpp Require Import base gmap strings list.
From S2P Require Import Prelude Rotation Credential Outbox NoiseSession.

(** ** Reading a channel *)

Section Sync.
Context `{MC : MessageCodec} `{ML : !MessageCodecLaws MC} `{SN : Snow} `{SL : !SnowLaws SN}.

(** The messages that change the key of the direction they travel. *)
Definition flips (m : SecureMessage) : bool :=
  match m with Some (BControl (Some (CRekeyRequest _ | CRekeyAck _))) => true | _ => false end.
Definition turn (m : SecureMessage) (h : Cipher) : Cipher := if flips m then snow_rekey h else h.

(** Frame [f] is read with [h] as [m]. *)
Definition reads (h : Cipher) (f : ProtocolFrame) (m : SecureMessage) (h' : Cipher) : Prop :=
  ∃ c p, f = FCiphertext c ∧ zlen c ≤ MAX_NOISE_PLAINTEXT_BYTES + 16 ∧ snow_read h c = Some (p, h') ∧ decode_message p = Some m.

Inductive chain : Cipher → list ProtocolFrame → list SecureMessage → Cipher → Prop :=
| chain_nil h : chain h [] [] h
| chain_cons h f m h1 fs ms h2 : reads h f m h1 → chain (turn m h1) fs ms h2 → chain h (f :: fs) (m :: ms) h2.

Lemma chain_app h fs ms h1 fs' ms' h2 : chain h fs ms h1 → chain h1 fs' ms' h2 → chain h (fs ++ fs') (ms ++ ms') h2.
Proof. induction 1; [done|]. intros H2. cbn. econstructor; eauto. Qed.

Lemma chain_length h fs ms h' : chain h fs ms h' → length fs = length ms.
Proof. induction 1; cbn; congruence. Qed.

Lemma chain_snoc h fs ms h1 f m h2 : chain h fs ms h1 → reads h1 f m h2 → chain h (fs ++ [f]) (ms ++ [m]) (turn m h2).
Proof. intros H1 H2. eapply chain_app; [done|]. econstructor; [done|constructor]. Qed.

Lemma reads_det h f m h1 m' h1' : reads h f m h1 → reads h f m' h1' → m = m' ∧ h1 = h1'.
Proof. intros (c & p & -> & _ & Hr & Hd) (c' & p' & [= <-] & _ & Hr' & Hd'). split; congruence. Qed.

Lemma chain_take h fs ms h' n : chain h fs ms h' → ∃ h1, chain h (take n fs) (take n ms) h1 ∧ chain h1 (drop n fs) (drop n ms) h'.
Proof.
  intros H. revert n. induction H as [h|h f m h1 fs ms h2 Hr Hc IH]; intros n.
  - rewrite !take_nil, !drop_nil. eauto using chain_nil.
  - destruct n as [|n]; cbn; [eauto using chain_nil, chain_cons|]. destruct (IH n) as (hx & ? & ?). eauto using chain_cons.
Qed.

Lemma chain_det h fs ms h1 ms' h1' : chain h fs ms h1 → chain h fs ms' h1' → ms = ms' ∧ h1 = h1'.
Proof.
  intros H. revert ms' h1'. induction H as [h|h f m h1 fs ms h2 Hr _ IH]; inversion 1; subst; [done|].
  match goal with Hx : reads h f _ _ |- _ => destruct (reads_det _ _ _ _ _ _ Hr Hx) as [<- <-] end.
  match goal with Hx : chain _ fs _ _ |- _ => by destruct (IH _ _ Hx) as [<- <-] end.
Qed.

(** ** What the methods do to the channel *)

(** What is written is read. *)
Lemma encrypt_reads m s f s' : encrypt m s = (Ok f, s') →
  reads (ss_send s) f m (ss_send s') ∧ ss_recv s' = ss_recv s ∧ ss_generation s' = ss_generation s.
Proof.
  unfold encrypt. case_bool_decide as Hmax; [done|]. destruct (snow_write _ _) as [[c h]|] eqn:Hw; [|done]. intros [= <- <-]. cbn.
  split; [|done]. exists c, (encode_message m). split_and!; [done| |by apply read_write|apply decode_encode].
  rewrite (write_length _ _ _ _ Hw). lia.
Qed.
Lemma encrypt_Err m s e s' : encrypt m s = (Err e, s') → s' = s.
Proof. unfold encrypt. case_bool_decide; [by intros [= _ <-]|]. destruct (snow_write _ _) as [[c h]|]; [done|by intros [= _ <-]]. Qed.
Lemma decrypt_reads f s m h : reads (ss_recv s) f m h → ∃ n, decrypt f s = (Ok m, mkSecure (ss_send s) h (ss_generation s) n).
Proof.
  intros (c & p & -> & Hlen & Hr & Hd). unfold decrypt. rewrite bool_decide_eq_false_2 by lia. rewrite Hr, Hd. cbn. eauto.
Qed.

(** The parts of a session that sending leaves alone. *)
Record same_reading (s s' : TonicNoiseSession) : Prop := {
  sr_recv : ss_recv (se_secure s') = ss_recv (se_secure s);
  sr_role : se_role s' = se_role s;
  sr_buffered : se_buffered s' = se_buffered s;
  sr_generation : ss_generation (se_secure s') = ss_generation (se_secure s);
}.
#[global] Instance same_reading_refl : Reflexive same_reading.
Proof. by constructor. Qed.
#[global] Instance same_reading_trans : Transitive same_reading.
Proof. intros a b c [] []. constructor; congruence. Qed.

(** Session [s'] has sent [ms] more than [s]. *)
Definition has_sent (ms : list SecureMessage) (s s' : TonicNoiseSession) : Prop :=
  ∃ fs, se_outbound s' = se_outbound s ++ fs ∧ chain (ss_send (se_secure s)) fs ms (ss_send (se_secure s')).
Definition has_requested (ms : list SecureMessage) (s s' : TonicNoiseSession) : Prop :=
  ∃ fs, se_outbound s' = se_outbound s ++ fs ∧ chain (ss_send (se_secure s)) fs ms (snow_rekey (ss_send (se_secure s'))).

Lemma send_cases env m s r s' : send env m s = (r, s') → same_reading s s' ∧
  se_pending_pings s' = se_pending_pings s ∧
  match r with
  | Ret _ => ∃ f h, se_outbound s' = se_outbound s ++ [f] ∧ reads (ss_send (se_secure s)) f m h ∧ ss_send (se_secure s') = h
  | Gone => en_send env = SendDropped
  | Fail e => se_outbound s' = se_outbound s ∧ e ≠ TRekeyRequired
  | Suspend _ => False
  end.
Proof.
  unfold send. destruct (encrypt m (se_secure s)) as [[f|e] sec] eqn:He.
  - apply encrypt_reads in He as (Hr & Hrecv & Hgen). destruct (en_send env) eqn:Ho; intros [= <- <-]; (split; [by constructor|]); cbn; eauto 10.
  - apply encrypt_Err in He as ->. intros [= <- <-]. split; [by constructor|done].
Qed.

Lemma has_sent_one m s s' : flips m = false →
  (∃ f h, se_outbound s' = se_outbound s ++ [f] ∧ reads (ss_send (se_secure s)) f m h ∧ ss_send (se_secure s') = h) → has_sent [m] s s'.
Proof.
  intros Hm (f & h & Ho & Hr & Hs). exists [f]. split; [done|]. econstructor; [done|]. unfold turn. rewrite Hm, Hs. constructor.
Qed.
Lemma has_requested_one m s s' : flips m = true →
  (∃ f h, se_outbound s' = se_outbound s ++ [f] ∧ reads (ss_send (se_secure s)) f m h ∧ ss_send (se_secure s') = h) → has_requested [m] s s'.
Proof.
  intros Hm (f & h & Ho & Hr & Hs). exists [f]. split; [done|]. econstructor; [done|]. unfold turn. rewrite Hm, Hs. constructor.
Qed.
Lemma has_sent_nil s s' : se_outbound s' = se_outbound s → ss_send (se_secure s') = ss_send (se_secure s) → has_sent [] s s'.
Proof. intros Ho Hs. exists []. rewrite app_nil_r, Hs. by split; [|constructor]. Qed.

Lemma ping_cases env nonce s r s' : ping env nonce s = (r, s') → same_reading s s' ∧
  match r with
  | Ret _ => has_sent [control_message (CPing nonce (en_unix env))] s s'
  | Gone => en_send env = SendDropped
  | Fail _ => se_outbound s' = se_outbound s
  | Suspend _ => False
  end.
Proof.
  unfold ping. case_bool_decide; [by intros [= <- <-]|]. set (s1 := set_pings _ _ _ s).
  destruct (send env _ s1) as [r1 s2] eqn:Hs. apply send_cases in Hs as ([R1 R2 R3 R4] & _ & Hs).
  destruct r1; intros [= <- <-]; (split; [by constructor|]); try done; [by apply (has_sent_one _ s1) in Hs|by destruct Hs].
Qed.

Lemma allocate_cases s r s' : allocate_ping_nonce s = (r, s') → same_reading s s' ∧ has_sent [] s s' ∧ ∃ n, r = Ret n.
Proof.
  unfold allocate_ping_nonce. destruct (nonce_loop _ _ _) as [n next]. intros [= <- <-]. split_and!; [done|by apply has_sent_nil|eauto].
Qed.

(** The search for a free number ends: there are fewer pending heartbeats than numbers. *)
Lemma nonce_loop_pending fuel next pending : in_u64 next → is_Some (pending !! (nonce_loop fuel next pending).1) →
  ∀ i : nat, (i ≤ fuel)%nat → is_Some ((pending : gmap Z Z) !! ((next + Z.of_nat i) `mod` 2 ^ 64)).
Proof.
  revert next. induction fuel as [|fuel IH]; intros next Hu H i Hi; cbn in H.
  - replace i with 0%nat by lia. rewrite Z.add_0_r, Z.mod_small; [done|]. unfold in_u64, u64_max in Hu. lia.
  - case_bool_decide as Hd; [|done]. destruct i as [|i]; [rewrite Z.add_0_r, Z.mod_small; [done|unfold in_u64, u64_max in Hu; lia]|].
    assert (in_u64 (wrapping_add_u64 next 1)) as Hu'.
    { unfold in_u64, u64_max, wrapping_add_u64. pose proof (Z.mod_pos_bound (next + 1) (2 ^ 64)). lia. }
    specialize (IH _ Hu' H i ltac:(lia)). unfold wrapping_add_u64 in IH. rewrite Zplus_mod_idemp_l in IH.
    by replace (next + Z.of_nat (S i)) with (next + 1 + Z.of_nat i) by lia.
Qed.
Lemma ping_nonce_free next (pending : gmap Z Z) : in_u64 next → Z.of_nat (size pending) < 2 ^ 64 →
  pending !! (nonce_loop (size pending) next pending).1 = None.
Proof.
  intros Hu Hs. destruct (pending !! _) as [t|] eqn:E; [|done]. exfalso.
  pose proof (nonce_loop_pending (size pending) next pending Hu ltac:(eauto)) as Hall.
  set (l := (λ i : nat, (next + Z.of_nat i) `mod` 2 ^ 64) <$> seq 0 (S (size pending))).
  assert (NoDup l) as Hnd.
  { apply NoDup_fmap_2_strong; [|apply NoDup_seq]. intros i j Hi%elem_of_seq Hj%elem_of_seq Heq.
    assert ((Z.of_nat i - Z.of_nat j) `mod` 2 ^ 64 = 0) as H0.
    { replace (Z.of_nat i - Z.of_nat j) with ((next + Z.of_nat i) - (next + Z.of_nat j)) by lia. rewrite Zminus_mod, Heq, Z.sub_diag. done. }
    apply Z.mod_divide in H0 as [q Hq]; [|done]. nia. }
  assert (list_to_set l ⊆ dom pending) as Hsub.
  { intros x. rewrite elem_of_list_to_set. intros (i & -> & Hi%elem_of_seq)%list_elem_of_fmap. apply elem_of_dom, Hall. lia. }
  apply subseteq_size in Hsub. rewrite size_list_to_set, size_dom in Hsub by done. unfold l in Hsub. rewrite length_fmap, length_seq in Hsub. lia.
Qed.

(** The outcome of [handle_control]. *)
Lemma handle_control_cases env control s r s' : handle_control env control s = (r, s') →
  match r with
  | Ret _ =>
      match control with
      | Some (CPing nonce sent_at) => has_sent [control_message (CPong nonce sent_at (en_unix env) (en_unix env))] s s' ∧ same_reading s s'
      | Some (CPong _ _ _ _) => has_sent [] s s' ∧ same_reading s s'
      | Some (CRekeyRequest g) => se_role s = Responder ∧ g = next_generation s ∧ has_sent [control_message (CRekeyAck g)] s s' ∧
          ss_recv (se_secure s') = snow_rekey (ss_recv (se_secure s)) ∧ se_role s' = se_role s ∧ se_buffered s' = se_buffered s ∧
          ss_generation (se_secure s') = g
      | _ => False
      end
  | Fail e => se_outbound s' = se_outbound s ∧ se_buffered s' = se_buffered s ∧ se_role s' = se_role s ∧
      (e = TRekeyRequired → s' = s ∧ se_role s = Initiator ∧ ∃ g, control = Some (CRekeyRequired g))
  | Gone => en_send env = SendDropped ∧ se_buffered s' = se_buffered s ∧ se_role s' = se_role s
  | Suspend _ => False
  end.
Proof.
  unfold handle_control. cbv [mbind M_bind get]. destruct control as [[nonce sent_at|nonce a b c|g|g|g]|].
  - intros Hs. apply send_cases in Hs as (Hsame & _ & Hs). destruct r; [|destruct Hsame| |]; try done.
    + split; [|done]. by apply has_sent_one in Hs.
    + destruct Hs. by split_and!.
    + by destruct Hsame.
  - destruct (se_pending_pings s !! nonce); intros [= <- <-]; (split; [by apply has_sent_nil|by constructor]).
  - case_bool_decide; intros [= <- <-]; split_and!; eauto; done.
  - case_bool_decide as Hrole; [by intros [= <- <-]|]. case_bool_decide as Hg; cbn [negb]; [|by intros [= <- <-]]. cbv [modify].
    set (s1 := set_secure _ s). destruct (send env _ s1) as [r1 s2] eqn:Hs. apply send_cases in Hs as ([R1 R2 R3 R4] & _ & Hs).
    destruct r1; intros [= <- <-]; try done.
    + split_and!; try done; [by destruct (se_role s)|]. destruct Hs as (f & h & Ho & Hr & Hh). exists [f]. split; [done|].
      econstructor; [done|]. cbn. rewrite Hh. constructor.
    + destruct Hs. by split_and!.
  - by intros [= <- <-].
  - by intros [= <- <-].
Qed.

Lemma request_rekey_cases {A} env s (r : Flow A) s' : request_rekey env s = (r, s') → same_reading s s' ∧
  match r with
  | Suspend g => se_role s = Initiator ∧ g = next_generation s ∧ has_requested [control_message (CRekeyRequest g)] s s'
  | Fail _ => se_outbound s' = se_outbound s
  | Gone => en_send env = SendDropped
  | Ret _ => False
  end.
Proof.
  unfold request_rekey. cbv [mbind M_bind get]. case_bool_decide as Hrole; cbn [negb]; [|by intros [= <- <-]].
  destruct (send env _ s) as [r1 s1] eqn:Hs. apply send_cases in Hs as (Hsame & _ & Hs).
  destruct r1; intros [= <- <-]; (split; [done|]); try done; [|by destruct Hs]. by apply has_requested_one in Hs.
Qed.

Definition is_control (m : SecureMessage) : bool := match m with Some (BControl _) => true | _ => false end.

(** What a message other than a rekey request leaves of the generation. *)
Definition keeps_generation (m : SecureMessage) (ms : list SecureMessage) (s s' : TonicNoiseSession) : Prop :=
  match m with
  | Some (BControl (Some (CRekeyRequest g))) => se_role s = Responder ∧ g = next_generation s ∧ ms = [control_message (CRekeyAck g)] ∧
      ss_generation (se_secure s') = g
  | _ => flips m = false ∧ Forall (λ x, flips x = false) ms ∧ ss_generation (se_secure s') = ss_generation (se_secure s)
  end.

Lemma process_control_cases env control s r s' : process_control env control s = (r, s') → let m := Some (BControl control) in
  se_role s' = se_role s ∧ se_buffered s' = se_buffered s ∧
  match r with
  | Ret None => ss_recv (se_secure s') = turn m (ss_recv (se_secure s)) ∧ ∃ ms, has_sent ms s s' ∧ keeps_generation m ms s s'
  | Ret (Some _) => False
  | Suspend g => flips m = false ∧ same_reading s s' ∧ se_role s = Initiator ∧ g = next_generation s ∧
      has_requested [control_message (CRekeyRequest g)] s s'
  | Fail _ => se_outbound s' = se_outbound s
  | Gone => en_send env = SendDropped
  end.
Proof.
  unfold process_control. destruct (handle_control env control s) as [r1 s1] eqn:Hc. apply handle_control_cases in Hc. destruct r1 as [[]|e| |].
  - intros [= <- <-]. cbn [turn]. destruct control as [[nonce sent_at|nonce a b c|g|g|g]|]; try done.
    + destruct Hc as [Hs [R1 R2 R3 R4]]. split_and!; try done. eexists. split; [done|]. by repeat constructor.
    + destruct Hc as [Hs [R1 R2 R3 R4]]. split_and!; try done. eexists. split; [done|]. by repeat constructor.
    + destruct Hc as (? & ? & ? & ? & ? & ? & ?). split_and!; try done. eexists. by split.
  - destruct Hc as (Ho & Hb & Hr & Hreq). destruct e; try by intros [= <- <-].
    destruct Hreq as (-> & Hrole & g & ->); [done|]. rewrite bool_decide_eq_true_2 by done. intros Hq.
    apply request_rekey_cases in Hq as ([R1 R2 R3 R4] & Hq). split_and!; [done..|]. by destruct r as [| |g'|].
  - done.
  - intros [= <- <-]. by destruct Hc as (? & ? & ?).
Qed.

(** The outcome of [process_inbound_frame] on a frame that is read as [m]. *)
Lemma process_inbound_cases env f s m h r s' : reads (ss_recv (se_secure s)) f m h → process_inbound_frame env f s = (r, s') →
  se_role s' = se_role s ∧ se_buffered s' = se_buffered s ∧
  match r with
  | Ret (Some m') => m' = m ∧ is_control m = false ∧ ss_recv (se_secure s') = turn m h ∧ has_sent [] s s' ∧ keeps_generation m [] s s'
  | Ret None => is_control m = true ∧ ss_recv (se_secure s') = turn m h ∧ ∃ ms, has_sent ms s s' ∧ keeps_generation m ms s s'
  | Suspend g => is_control m = true ∧ flips m = false ∧ ss_recv (se_secure s') = turn m h ∧ se_role s = Initiator ∧ g = next_generation s ∧
      ss_generation (se_secure s') = ss_generation (se_secure s) ∧ has_requested [control_message (CRekeyRequest g)] s s'
  | Fail _ => se_outbound s' = se_outbound s
  | Gone => en_send env = SendDropped
  end.
Proof.
  intros Hr. unfold process_inbound_frame, decrypt_frame. cbv [mbind M_bind modify].
  destruct (decrypt_reads _ _ _ _ Hr) as [n ->]. set (s1 := set_last_received _ _).
  destruct m as [[kind content|code text|control]|]; [| |intros Hc|].
  4: cbv [mret M_ret]; intros [= <- <-]; split_and!; try done; try (by apply has_sent_nil); by repeat constructor.
  1,2: cbv [mret M_ret]; intros [= <- <-]; split_and!; try done; try (by apply has_sent_nil); by repeat constructor.
  apply process_control_cases in Hc as (Hrole & Hbuf & Hc). split_and!; [done..|]. destruct r as [[m'|]|e|g|]; try done.
  destruct Hc as (Hf & [R1 R2 R3 R4] & Hi & Hg & Hreq). split_and!; try done. unfold turn. by rewrite Hf.
Qed.

(** The outcome of a turn of the loop of [request_rekey]; a heartbeat is answered at once. *)
Definition is_ping (m : SecureMessage) : bool := match m with Some (BControl (Some (CPing _ _))) => true | _ => false end.
Lemma await_ack_cases env g f s m h r s' : se_role s = Initiator → reads (ss_recv (se_secure s)) f m h → await_ack env g f s = (r, s') →
  se_role s' = se_role s ∧
  match r with
  | Ret true => m = control_message (CRekeyAck g) ∧ se_outbound s' = se_outbound s ∧ se_buffered s' = se_buffered s ∧
      ss_send (se_secure s') = snow_rekey (ss_send (se_secure s)) ∧ ss_recv (se_secure s') = turn m h ∧ ss_generation (se_secure s') = g
  | Ret false => flips m = false ∧ ss_recv (se_secure s') = turn m h ∧ ss_generation (se_secure s') = ss_generation (se_secure s) ∧
      se_buffered s' = se_buffered s ++ (if is_control m then [] else [m]) ∧
      (is_ping m = false → se_outbound s' = se_outbound s ∧ ss_send (se_secure s') = ss_send (se_secure s))
  | Fail _ => se_outbound s' = se_outbound s ∧ se_buffered s' = se_buffered s ∧ is_control m = true
  | Gone => is_ping m = true
  | Suspend _ => False
  end.
Proof.
  intros Hi Hr. unfold await_ack, decrypt_frame. cbv [mbind M_bind modify mret M_ret].
  destruct (decrypt_reads _ _ _ _ Hr) as [n ->]. set (s1 := set_secure _ s).
  assert (∀ c, (∀ x, flips (Some (BControl c)) = true → handle_control env c s1 ≠ (Ret tt, x)) → m = Some (BControl c) →
    match handle_control env c s1 with
    | (Ret _, s2) => (Ret false, s2) | (Fail e, s2) => (Fail e, s2) | (Suspend g, s2) => (Suspend g, s2) | (Gone, s2) => (Gone, s2)
    end = (r, s') → se_role s' = se_role s ∧
    match r with
    | Ret true => False
    | Ret false => flips m = false ∧ ss_recv (se_secure s') = turn m h ∧ ss_generation (se_secure s') = ss_generation (se_secure s) ∧
        se_buffered s' = se_buffered s ++ [] ∧
        (is_ping m = false → se_outbound s' = se_outbound s ∧ ss_send (se_secure s') = ss_send (se_secure s))
    | Fail _ => se_outbound s' = se_outbound s ∧ se_buffered s' = se_buffered s ∧ is_control m = true
    | Gone => is_ping m = true
    | Suspend _ => False
    end) as Hctl.
  { intros c Hno -> Hc. destruct (handle_control env c s1) as [r1 s2] eqn:Hh. apply handle_control_cases in Hh as Hh'.
    destruct r1 as [[]|e|g'|]; [|injection Hc as <- <-; by destruct Hh' as (? & ? & ? & _)|done|].
    - injection Hc as <- <-. destruct c as [[nonce sent_at|nonce a b c|g'|g'|g']|]; try done.
      + destruct Hh' as [_ [R1 R2 R3 R4]]. split_and!; try done. by rewrite R3, app_nil_r.
      + destruct Hh' as [(fs & Ho & Hch) [R1 R2 R3 R4]]. inversion Hch; subst. rewrite app_nil_r in Ho.
        split_and!; try done. by rewrite R3, app_nil_r.
      + destruct Hh' as (Hrole & _). cbn in Hrole. congruence.
    - injection Hc as <- <-. destruct Hh' as (_ & ? & ?). split; [done|]. unfold handle_control in Hh. cbv [mbind M_bind get] in Hh.
      destruct c as [[nonce sent_at|nonce a b c|g'|g'|g']|]; try done.
      + by destruct (se_pending_pings s1 !! nonce).
      + by case_bool_decide.
      + rewrite bool_decide_eq_true_2 in Hh by done. done. }
  destruct m as [[kind content|code text|[[nonce sent_at|nonce a b c|g'|g'|g']|]]|].
  all: cbv beta; try (intros [= <- <-]; by split_and!).
  all: try (intros Hc; apply Hctl in Hc; [|done..]; destruct Hc; (split; [done|]); by destruct r as [[]| | |]).
  - case_bool_decide as Hg; [intros [= <- <-]; split_and!; try done; by rewrite app_nil_r|].
    intros Hc; apply Hctl in Hc; [|done..]; destruct Hc; (split; [done|]); by destruct r as [[]| | |].
  - intros Hc. apply Hctl in Hc; [destruct Hc; (split; [done|]); by destruct r as [[]| | |]| |done]. intros x _ Hx. apply handle_control_cases in Hx as (Hx & _). cbn in Hx. congruence.
  - case_bool_decide as Hg; [subst g'; intros [= <- <-]; by split_and!|].
    intros Hc; apply Hctl in Hc; [destruct Hc; (split; [done|]); by destruct r as [[]| | |]| |done]. intros x _ Hx. by apply handle_control_cases in Hx.
Qed.

(** ** One end *)

Definition running (e : Endpoint) : Prop := ep_phase e ≠ Stopped.
Definition out (e : Endpoint) : list ProtocolFrame := se_outbound (ep_session e).
Definition send_key (e : Endpoint) : Cipher := ss_send (se_secure (ep_session e)).
Definition recv_key (e : Endpoint) : Cipher := ss_recv (se_secure (ep_session e)).
Definition generation (e : Endpoint) : Z := ss_generation (se_secure (ep_session e)).
Definition role (e : Endpoint) : NoiseSessionRole := se_role (ep_session e).

(** The key with which the peer reads the next frame, once it has read the earlier ones. *)
Definition expected (e : Endpoint) : Cipher := match ep_phase e with AwaitAck _ _ => snow_rekey (send_key e) | _ => send_key e end.

(** What the business code was given, and what is kept for it. *)
Definition deliverable (m : SecureMessage) : option SessionEvent := to_option (try_from m).
Definition handed (e : Endpoint) : list SessionEvent := omap to_option (ep_events e).
Definition held (e : Endpoint) : list SessionEvent := omap deliverable (se_buffered (ep_session e)).
Definition tidy (e : Endpoint) : Prop :=
  match ep_phase e with Serving => se_buffered (ep_session e) = [] | AwaitAck _ AfterReceive => False | _ => True end.

(** A step that reads [rd] and sends [new], with [h] as the key for what comes next. *)
Record progress (rd new : list SecureMessage) (h : Cipher) (e e' : Endpoint) : Prop := {
  pg_out : ∃ fs k, out e' = out e ++ fs ∧ chain (expected e) fs new k ∧ (running e' → k = expected e');
  pg_recv : running e' → recv_key e' = h;
  pg_role : role e' = role e;
  pg_tidy : tidy e';
  pg_events : running e' → handed e' ++ held e' = handed e ++ held e ++ omap deliverable rd;
  pg_prefix : handed e' `prefix_of` handed e ++ held e ++ omap deliverable rd;
}.

(** Session [s] has sent [new] since [e]. *)
Definition sent_from (e : Endpoint) (new : list SecureMessage) (s : TonicNoiseSession) : Prop :=
  ∃ fs, se_outbound s = out e ++ fs ∧ chain (expected e) fs new (ss_send (se_secure s)).

Lemma sent_from_has_sent e new s : ep_phase e = Serving → has_sent new (ep_session e) s → sent_from e new s.
Proof. intros Hp (fs & Ho & Hc). exists fs. unfold expected. by rewrite Hp. Qed.

Lemma sent_from_app e new1 new2 s s' : sent_from e new1 s → has_sent new2 s s' → sent_from e (new1 ++ new2) s'.
Proof.
  intros (fs1 & Ho1 & Hc1) (fs2 & Ho2 & Hc2). exists (fs1 ++ fs2). split; [by rewrite Ho2, Ho1, app_assoc|]. by eapply chain_app.
Qed.

(** The end is given up: what was sent stays readable. *)
Lemma progress_stop e s e' rd h : out e = se_outbound s → ep_session e' = s → ep_phase e' = Stopped → role e = se_role s →
  handed e' = handed e → progress rd [] h e e'.
Proof.
  intros Ho <- Hp Hr Hh. constructor.
  - exists [], (expected e). rewrite app_nil_r. split_and!; [done|constructor|]. intros Hrun. by destruct Hrun.
  - intros Hrun. by destruct Hrun.
  - done.
  - unfold tidy. by rewrite Hp.
  - intros Hrun. by destruct Hrun.
  - rewrite Hh. by apply prefix_app_r.
Qed.

(** The last step of most handlers: what is buffered is handed over. *)
Lemma progress_flush env s e e1 new rd evs : sent_from e new s → role e = se_role s →
  ep_events e1 = ep_events e ++ evs →
  omap to_option evs ++ omap deliverable (se_buffered s) = held e ++ omap deliverable rd →
  progress rd new (ss_recv (se_secure s)) e (flush_buffered_events env s e1).
Proof.
  intros (fs & Ho & Hc) Hr Hev Hb.
  assert (∀ l : list SecureMessage, omap to_option (try_from <$> l) = omap deliverable l) as Htry.
  { induction l as [|x l IH]; [done|]. cbn. unfold deliverable at 1. destruct (to_option (try_from x)); by rewrite IH. }
  assert (handed e ++ held e ++ omap deliverable rd = omap to_option (ep_events e1) ++ omap deliverable (se_buffered s)) as Hall.
  { rewrite Hev, omap_app, <-app_assoc. unfold handed. by rewrite Hb. }
  unfold flush_buffered_events. destruct (se_buffered s) as [|m rest] eqn:Hbuf; [|destruct (en_listening env)].
  - constructor; [|done|by rewrite Hr|by unfold tidy; cbn; rewrite ?Hbuf| |].
    + exists fs, (ss_send (se_secure s)). by split_and!.
    + intros _. rewrite Hall. unfold held. cbn [ep_session set_endpoint]. by rewrite Hbuf.
    + rewrite Hall. by apply prefix_app_r.
  - constructor; [|done|by rewrite Hr|by unfold tidy; cbn; rewrite ?Hbuf| |].
    + exists fs, (ss_send (se_secure s)). by split_and!.
    + intros _. rewrite Hall. unfold handed, held. cbn [ep_events ep_session se_buffered set_queues].
      rewrite omap_app, Htry. apply app_nil_r.
    + rewrite Hall. unfold handed. cbn [ep_events]. by rewrite omap_app, Htry.
  - constructor; [|by intros []|by rewrite Hr|done|by intros []|].
    + exists fs, (ss_send (se_secure s)). split_and!; [done..|]. by intros [].
    + rewrite Hall. by apply prefix_app_r.
Qed.

(** What a step of the Agent has to do with the keys. *)
Definition noflips (l : list SecureMessage) : Prop := Forall (λ m, flips m = false) l.
Definition agent_ledger (rd new : list SecureMessage) (e e' : Endpoint) : Prop :=
  match ep_phase e, ep_phase e' with
  | Serving, Serving => noflips rd ∧ noflips new ∧ generation e' = generation e
  | Serving, AwaitAck g _ => noflips rd ∧ new = [control_message (CRekeyRequest g)] ∧ g = next_generation (ep_session e) ∧ generation e' = generation e
  | AwaitAck g _, AwaitAck g' _ => g' = g ∧ noflips rd ∧ new = [] ∧ generation e' = generation e
  | AwaitAck g _, Serving => rd = [control_message (CRekeyAck g)] ∧ noflips new ∧ generation e' = g
  | _, _ => True
  end.

Lemma flush_phase env s e : ep_session (flush_buffered_events env s e) = s ∧ ep_phase (flush_buffered_events env s e) = Serving ∨
  (∃ b, ep_session (flush_buffered_events env s e) = set_queues b (se_outbound s) s) ∧
  (ep_phase (flush_buffered_events env s e) = Serving ∨ ep_phase (flush_buffered_events env s e) = Stopped).
Proof. unfold flush_buffered_events. destruct (se_buffered s); [by left|]. right. destruct (en_listening env); eauto. Qed.

Lemma flush_ledger env s e e1 rd new : (match ep_phase e with Serving => noflips rd ∧ noflips new ∧ ss_generation (se_secure s) = generation e
    | AwaitAck g _ => rd = [control_message (CRekeyAck g)] ∧ noflips new ∧ ss_generation (se_secure s) = g | Stopped => True end) →
  agent_ledger rd new e (flush_buffered_events env s e1).
Proof.
  intros H. unfold agent_ledger, generation in *. destruct (flush_phase env s e1) as [[-> ->]|[[b ->] [-> | ->]]]; by destruct (ep_phase e).
Qed.

Lemma maintenance_ping_progress env due s e e1 new rd : en_send env ≠ SendDropped → sent_from e new s → role e = se_role s →
  ep_events e1 = ep_events e → omap deliverable (se_buffered s) = held e ++ omap deliverable rd → noflips new →
  (match ep_phase e with Serving => noflips rd ∧ ss_generation (se_secure s) = generation e
    | AwaitAck g _ => rd = [control_message (CRekeyAck g)] ∧ ss_generation (se_secure s) = g | Stopped => True end) →
  ∃ new', progress rd new' (ss_recv (se_secure s)) e (maintenance_ping env due s e1) ∧ agent_ledger rd new' e (maintenance_ping env due s e1).
Proof.
  intros Henv Hsent Hrole Hev Hbuf Hnf Hgen. unfold maintenance_ping. destruct due.
  - cbv [mbind M_bind]. destruct (allocate_ping_nonce s) as [r s1] eqn:Ha. apply allocate_cases in Ha as ([A1 A2 A3 A4] & Ha & n & ->).
    destruct (ping env n s1) as [r2 s2] eqn:Hp. apply ping_cases in Hp as ([P1 P2 P3 P4] & Hp).
    pose proof (sent_from_app _ _ _ _ _ Hsent Ha) as Hs1. rewrite app_nil_r in Hs1. destruct r2 as [[]|x|g|]; [| |done..].
    + exists (new ++ [control_message (CPing n (en_unix env))]). rewrite <-A1, <-P1. split.
      * apply (progress_flush _ _ _ _ _ _ []); [by eapply sent_from_app|congruence|by rewrite app_nil_r|]. cbn. by rewrite P3, A3.
      * apply flush_ledger. assert (noflips (new ++ [control_message (CPing n (en_unix env))])) by (apply Forall_app; by repeat constructor).
        rewrite P4, A4. destruct (ep_phase e); naive_solver.
    + exists new. destruct Hs1 as (fs & Ho & Hc). split.
      * constructor; [|by intros []|unfold role in *; cbn; congruence|done|by intros []|].
        -- exists fs, (ss_send (se_secure s1)). unfold out at 1. cbn. rewrite Hp. split_and!; [done..|]. by intros [].
        -- unfold handed. cbn. rewrite Hev, omap_app. cbn. rewrite app_nil_r. by apply prefix_app_r.
      * unfold agent_ledger. cbn. by destruct (ep_phase e).
  - exists new. split.
    + apply (progress_flush _ _ _ _ _ _ []); [done|done|by rewrite app_nil_r|done].
    + apply flush_ledger. destruct (ep_phase e); naive_solver.
Qed.

Lemma handed_push_Err x e : handed (push_event (Err x) e) = handed e.
Proof. unfold handed. cbn. rewrite omap_app. apply app_nil_r. Qed.
Lemma progress_stop_with x s e rd h : out e = se_outbound s → role e = se_role s → progress rd [] h e (stop_with x s e).
Proof. intros Ho Hr. apply (progress_stop _ s); try done. unfold stop_with. by rewrite handed_push_Err. Qed.
Lemma stopped_ledger rd new e e' : ep_phase e' = Stopped → agent_ledger rd new e e'.
Proof. intros H. unfold agent_ledger. rewrite H. by destruct (ep_phase e). Qed.

(** A frame in the driver of the Agent, outside and during a rekey. *)
Lemma driver_serving_read env f m h e : tidy e → ep_phase e = Serving → role e = Initiator → en_send env ≠ SendDropped →
  reads (recv_key e) f m h → ∃ new, progress [m] new (turn m h) e (handle_driver_inbound env (InFrame f) e) ∧
    agent_ledger [m] new e (handle_driver_inbound env (InFrame f) e).
Proof.
  intros Htidy Hp Hi Henv Hr. assert (se_buffered (ep_session e) = []) as Hnil by (unfold tidy in Htidy; by rewrite Hp in Htidy).
  unfold handle_driver_inbound. destruct (process_inbound_frame env f (ep_session e)) as [r s'] eqn:Hproc.
  apply (process_inbound_cases _ _ _ _ _ _ _ Hr) in Hproc as (Hrole & Hbuf & Hc). rewrite Hnil in Hbuf.
  assert (held e = []) as Hheld by (unfold held; by rewrite Hnil).
  assert (∀ ms, keeps_generation m ms (ep_session e) s' → noflips [m] ∧ noflips ms ∧ ss_generation (se_secure s') = generation e) as Hkeep.
  { intros ms Hk. unfold keeps_generation in Hk. destruct m as [[| |[[]|]]|]; try (destruct Hk as (? & ? & ?); split_and!; by repeat constructor).
    destruct Hk as (Hk & _). unfold role in Hi. congruence. }
  destruct r as [[m'|]|x|g|]; [| | | |done].
  - destruct Hc as (-> & Hctl & Hrecv & Hsent & Hgen). destruct (try_from m) as [ev|x] eqn:Ht; [destruct (en_listening env)|].
    + exists []. rewrite <-Hrecv. split.
      * apply (progress_flush _ _ _ _ _ _ [Ok ev]); [by apply sent_from_has_sent|by symmetry|done|]. rewrite Hbuf, Hheld. cbn. unfold deliverable. by rewrite Ht.
      * apply flush_ledger. rewrite Hp. by apply Hkeep.
    + exists []. destruct Hsent as (fs & Ho & Hch). inversion Hch; subst. rewrite app_nil_r in Ho.
      split; [by eapply progress_stop|by apply stopped_ledger].
    + exists []. destruct Hsent as (fs & Ho & Hch). inversion Hch; subst. rewrite app_nil_r in Ho.
      split; [by apply progress_stop_with|by apply stopped_ledger].
  - destruct Hc as (Hctl & Hrecv & ms & Hsent & Hgen). exists ms. rewrite <-Hrecv. split.
    + apply (progress_flush _ _ _ _ _ _ []); [by apply sent_from_has_sent|by symmetry|by rewrite app_nil_r|]. rewrite Hbuf, Hheld. cbn.
      destruct m as [[]|]; done.
    + apply flush_ledger. rewrite Hp. by apply Hkeep.
  - exists []. split; [by apply progress_stop_with|by apply stopped_ledger].
  - destruct Hc as (Hctl & Hf & Hrecv & _ & Hg & Hgen & fs & Ho & Hch). exists [control_message (CRekeyRequest g)]. split.
    + constructor; [|done|done|done| |].
      * exists fs, (snow_rekey (ss_send (se_secure s'))). unfold expected at 1. rewrite Hp. by split_and!.
      * intros _. rewrite Hheld. unfold handed, held. cbn [ep_events ep_session set_endpoint]. rewrite Hbuf. by destruct m as [[]|].
      * unfold handed at 1. cbn [ep_events set_endpoint]. by apply prefix_app_r.
    + unfold agent_ledger. rewrite Hp. cbn. split_and!; [by repeat constructor|done..].
Qed.

Lemma rekey_failed_progress after x s e rd h : out e = se_outbound s → role e = se_role s →
  progress rd [] h e (rekey_failed after x s e) ∧ agent_ledger rd [] e (rekey_failed after x s e).
Proof.
  intros Ho Hr. unfold rekey_failed. destruct after; (split; [|by apply stopped_ledger]); try by apply progress_stop_with.
  by apply (progress_stop _ s).
Qed.

Lemma driver_await_read env g after f m h e : tidy e → ep_phase e = AwaitAck g after → role e = Initiator → en_send env ≠ SendDropped →
  reads (recv_key e) f m h → is_ping m = false → ∃ new, progress [m] new (turn m h) e (handle_await env g after (InFrame f) e) ∧
    agent_ledger [m] new e (handle_await env g after (InFrame f) e).
Proof.
  intros Htidy Hp Hi Henv Hr Hping. unfold handle_await. destruct (await_ack env g f (ep_session e)) as [r s'] eqn:Ha.
  apply (await_ack_cases _ _ _ _ _ _ _ _ Hi Hr) in Ha as (Hrole & Hc). destruct r as [[]|x|?|]; [| | |done|congruence].
  - destruct Hc as (-> & Ho & Hbuf & Hsend & Hrecv & Hgen).
    assert (sent_from e [] s') as Hsent.
    { exists []. rewrite app_nil_r. split; [done|]. unfold expected. rewrite Hp, Hsend. constructor. }
    assert (omap deliverable (se_buffered s') = held e ++ omap deliverable [control_message (CRekeyAck g)]) as Hb.
    { rewrite Hbuf. cbn. by rewrite app_nil_r. }
    unfold rekey_done. rewrite <-Hrecv. destruct after.
    + exists []. split; [apply (progress_flush _ _ _ _ _ _ []); [done|by symmetry|by rewrite app_nil_r|done]|].
      apply flush_ledger. rewrite Hp. by repeat constructor.
    + exists []. split; [apply (progress_flush _ _ _ _ _ _ []); [done|by symmetry|cbn; by rewrite app_nil_r|done]|].
      apply flush_ledger. rewrite Hp. by repeat constructor.
    + eapply maintenance_ping_progress; [done|done|by symmetry|done|done|constructor|by rewrite Hp].
    + unfold tidy in Htidy. by rewrite Hp in Htidy.
  - destruct Hc as (Hf & Hrecv & Hgen & Hbuf & Ho). destruct (Ho Hping) as [Ho1 Ho2]. exists []. split.
    + assert (held e ++ omap deliverable [m] = omap deliverable (se_buffered s')) as Hb.
      { rewrite Hbuf, omap_app. unfold held. f_equal. by destruct m as [[]|]. }
      constructor; [|done|done| | |].
      * exists [], (expected e). rewrite app_nil_r. split_and!; [done|constructor|]. intros _. unfold expected, send_key. rewrite Hp. cbn. by rewrite Ho2.
      * unfold tidy in *. rewrite Hp in Htidy. by destruct after.
      * intros _. by rewrite Hb.
      * unfold handed at 1. cbn [ep_events set_endpoint]. by apply prefix_app_r.
    + unfold agent_ledger. rewrite Hp. cbn. split_and!; by repeat constructor.
  - destruct Hc as (Ho & Hbuf & _). exists []. by apply rekey_failed_progress.
Qed.

(** The other steps of the driver; commands carry no control messages. *)
Definition proper_command (c : option DriverCommand) : Prop := match c with Some (DSend m) => flips m = false | _ => True end.
Definition local_event (ev : DriverEvent) : Prop :=
  match ev with DInbound (InFrame _) => False | DCommand c => proper_command c | _ => True end.

Lemma suspend_progress s e g after rd h : tidy e → ep_phase e = Serving → rd = [] → after ≠ AfterReceive → g = next_generation (ep_session e) →
  same_reading (ep_session e) s → has_requested [control_message (CRekeyRequest g)] (ep_session e) s → h = recv_key e →
  progress rd [control_message (CRekeyRequest g)] h e (set_endpoint s (AwaitAck g after) e) ∧
  agent_ledger rd [control_message (CRekeyRequest g)] e (set_endpoint s (AwaitAck g after) e).
Proof.
  intros Htidy Hp -> Hafter Hg [R1 R2 R3 R4] (fs & Ho & Hch) ->. split.
  - constructor; [|done|done| | |].
    + exists fs, (snow_rekey (ss_send (se_secure s))). unfold expected at 1. rewrite Hp. by split_and!.
    + unfold tidy. cbn. by destruct after.
    + intros _. unfold handed, held. cbn. by rewrite R3, app_nil_r.
    + unfold handed at 1. cbn [ep_events set_endpoint]. by apply prefix_app_r.
  - unfold agent_ledger. rewrite Hp. cbn. split_and!; [constructor|done..].
Qed.

Lemma serving_progress s e e' new : tidy e → ep_phase e = Serving → same_reading (ep_session e) s → has_sent new (ep_session e) s → noflips new →
  ep_session e' = s → ep_phase e' = Serving → ep_events e' = ep_events e →
  progress [] new (recv_key e) e e' ∧ agent_ledger [] new e e'.
Proof.
  intros Htidy Hp [R1 R2 R3 R4] (fs & Ho & Hch) Hnf <- Hp' Hev. split.
  - constructor; [|done|done| | |].
    + exists fs, (send_key e'). unfold expected. rewrite Hp, Hp'. by split_and!.
    + unfold tidy in *. rewrite Hp in Htidy. by rewrite Hp', R3.
    + intros _. unfold handed, held. by rewrite R3, Hev, app_nil_r.
    + unfold handed at 1. rewrite Hev. by apply prefix_app_r.
  - unfold agent_ledger. rewrite Hp, Hp'. by split_and!; [constructor|..].
Qed.

Lemma answer_stop_progress r s e rd h : out e = se_outbound s → role e = se_role s →
  progress rd [] h e (answer r (set_endpoint s Stopped e)) ∧ agent_ledger rd [] e (answer r (set_endpoint s Stopped e)).
Proof. intros Ho Hr. split; [by apply (progress_stop _ s)|by apply stopped_ledger]. Qed.

Lemma driver_command_progress env c e : tidy e → ep_phase e = Serving → role e = Initiator → en_send env ≠ SendDropped → proper_command c →
  ∃ new, progress [] new (recv_key e) e (handle_driver_command env c e) ∧ agent_ledger [] new e (handle_driver_command env c e).
Proof.
  intros Htidy Hp Hi Henv Hc. unfold handle_driver_command. destruct c as [[m| |nonce| | |]|]; cbv [mbind M_bind mret M_ret].
  - destruct (send env m (ep_session e)) as [r s] eqn:Hs. apply send_cases in Hs as (Hsame & _ & Hs). destruct r as [[]|x|?|]; [| |done..].
    + exists [m]. apply (serving_progress s); try done; [by apply has_sent_one|by repeat constructor].
    + exists []. destruct Hs as [Ho _], Hsame. by apply answer_stop_progress.
  - exists []. by apply answer_stop_progress.
  - destruct (ping env nonce (ep_session e)) as [r s] eqn:Hs. apply ping_cases in Hs as (Hsame & Hs). destruct r as [[]|x|?|]; [| |done..].
    + eexists. apply (serving_progress s); try done. by repeat constructor.
    + exists []. destruct Hsame. by apply answer_stop_progress.
  - destruct (request_rekey env (ep_session e)) as [r s] eqn:Hs. apply request_rekey_cases in Hs as (Hsame & Hs). destruct r as [|x|g|]; [done| | |done].
    + exists []. destruct Hsame. by apply answer_stop_progress.
    + destruct Hs as (_ & Hg & Hs). eexists. by apply suspend_progress.
  - unfold require_rekey. cbv [mbind M_bind get fail]. rewrite bool_decide_eq_true_2 by done. exists []. by apply answer_stop_progress.
  - exists []. apply (serving_progress (ep_session e)); try done; [by apply has_sent_nil|constructor].
  - exists []. split; [by apply (progress_stop _ (ep_session e))|by apply stopped_ledger].
Qed.

Lemma driver_tick_progress env e : tidy e → ep_phase e = Serving → en_send env ≠ SendDropped →
  ∃ new, progress [] new (recv_key e) e (handle_driver_maintenance env e) ∧ agent_ledger [] new e (handle_driver_maintenance env e).
Proof.
  intros Htidy Hp Henv. unfold handle_driver_maintenance. destruct (heartbeat_expired _ _); [|destruct (rekey_due _ _)].
  - exists []. split; [by apply progress_stop_with|by apply stopped_ledger].
  - destruct (request_rekey env (ep_session e)) as [r s] eqn:Hs. apply request_rekey_cases in Hs as (Hsame & Hs). destruct r as [|x|g|]; [done| | |done].
    + exists []. destruct Hsame. split; [by apply progress_stop_with|by apply stopped_ledger].
    + destruct Hs as (_ & Hg & Hs). eexists. by apply suspend_progress.
  - apply (maintenance_ping_progress _ _ _ _ _ []); try done; [|by rewrite app_nil_r|constructor|by rewrite Hp; split; [constructor|]].
    apply sent_from_has_sent; [done|]. by apply has_sent_nil.
Qed.

(** ** A step of the Agent *)

Lemma driver_local_progress env ev e e' : tidy e → role e = Initiator → en_send env ≠ SendDropped → local_event ev →
  driver_event env ev e = Some e' → ∃ new, progress [] new (recv_key e) e e' ∧ agent_ledger [] new e e'.
Proof.
  intros Htidy Hi Henv Hev H. unfold driver_event in H. destruct (ep_phase e) as [|g after|] eqn:Hp; [| |done].
  - destruct ev as [[f| |code|]|c|]; [done|..]; injection H as <-.
    + exists []. split; [by apply progress_stop_with|by apply stopped_ledger].
    + exists []. split; [by apply progress_stop_with|by apply stopped_ledger].
    + exists []. apply (serving_progress (ep_session e)); try done; [by apply has_sent_nil|constructor].
    + by apply driver_command_progress.
    + by apply driver_tick_progress.
  - destruct ev as [[f| |code|]| |]; try done; injection H as <-; exists []; by apply rekey_failed_progress.
Qed.

(** The Server does not ask for a heartbeat while the Agent waits for an acknowledgement. *)
Definition crossing (e : Endpoint) (m : SecureMessage) : Prop := is_ping m = true ∧ ∃ g after, ep_phase e = AwaitAck g after.

Lemma driver_read_progress env f m h e e' : tidy e → role e = Initiator → en_send env ≠ SendDropped → reads (recv_key e) f m h → ¬ crossing e m →
  driver_event env (DInbound (InFrame f)) e = Some e' → ∃ new, progress [m] new (turn m h) e e' ∧ agent_ledger [m] new e e'.
Proof.
  intros Htidy Hi Henv Hr Hx H. unfold driver_event in H. destruct (ep_phase e) as [|g after|] eqn:Hp; [| |done]; injection H as <-.
  - by apply driver_serving_read.
  - apply driver_await_read; try done. destruct (is_ping m) eqn:Hm; [|done]. destruct Hx. split; eauto.
Qed.

(** ** A step of the Server *)

Definition server_ledger (rd new : list SecureMessage) (e e' : Endpoint) : Prop :=
  running e' → ep_phase e' = Serving ∧
  ((noflips rd ∧ noflips new ∧ generation e' = generation e) ∨
   ∃ g, rd = [control_message (CRekeyRequest g)] ∧ new = [control_message (CRekeyAck g)] ∧ g = next_generation (ep_session e) ∧ generation e' = g).

Lemma stopped_server_ledger rd new e e' : ep_phase e' = Stopped → server_ledger rd new e e'.
Proof. intros H Hr. by destruct Hr. Qed.

Lemma server_read_progress env f m h e : tidy e → ep_phase e = Serving → role e = Responder → en_send env ≠ SendDropped →
  reads (recv_key e) f m h → receive_ready env (ep_session e) = None →
  ∃ new, progress [m] new (turn m h) e (manual_receive env (InFrame f) e) ∧
    server_ledger [m] new e (manual_receive env (InFrame f) e).
Proof.
  intros Htidy Hp Hi Henv Hr Hready. unfold manual_receive. rewrite Hready. cbn [default].
  assert (se_buffered (ep_session e) = []) as Hnil by (unfold tidy in Htidy; by rewrite Hp in Htidy).
  unfold receive_read. cbv [mbind M_bind mret M_ret]. destruct (process_inbound_frame env f (ep_session e)) as [r s'] eqn:Hproc.
  apply (process_inbound_cases _ _ _ _ _ _ _ Hr) in Hproc as (Hrole & Hbuf & Hc).
  assert (∀ e' new evs, has_sent new (ep_session e) s' → ss_recv (se_secure s') = turn m h → ep_session e' = s' → ep_phase e' = Serving →
    ep_events e' = ep_events e ++ evs → omap to_option evs = omap deliverable [m] → progress [m] new (turn m h) e e') as Hprog.
  { intros e' new evs (fs & Ho & Hch) Hrecv <- Hp' Hev Hd. constructor; [|done|done| | |].
    - exists fs, (send_key e'). unfold expected. rewrite Hp, Hp'. by split_and!.
    - unfold tidy. by rewrite Hp', Hbuf.
    - intros _. unfold handed, held. by rewrite Hbuf, Hnil, Hev, omap_app, Hd, app_nil_r.
    - unfold handed, held. by rewrite Hnil, Hev, omap_app, Hd. }
  assert (∀ ms e', keeps_generation m ms (ep_session e) s' → ep_session e' = s' → ep_phase e' = Serving → server_ledger [m] ms e e') as Hled.
  { intros ms e' Hk <- Hs _. split; [done|]. unfold keeps_generation in Hk. destruct m as [[| |[[]|]]|]; try (left; destruct Hk as (? & ? & ?); by split_and!; repeat constructor).
    right. destruct Hk as (_ & ? & ? & ?). eauto. }
  destruct r as [[m'|]|x|g|]; cbn [after_receive]; [| | | |done].
  - destruct Hc as (-> & Hctl & Hrecv & Hsent & Hgen). destruct (try_from m) as [ev|x] eqn:Ht.
    + exists []. split_and!; [by apply (Hprog _ _ [Ok ev]); try done; cbn; unfold deliverable; rewrite Ht|by apply Hled].
    + exists []. destruct Hsent as (fs & Ho & Hch). inversion Hch; subst. rewrite app_nil_r in Ho.
      split; [by apply progress_stop_with|by apply stopped_server_ledger].
  - destruct Hc as (Hctl & Hrecv & ms & Hsent & Hgen). exists ms. split; [|by apply Hled].
    apply (Hprog _ _ []); try done; [cbn; by rewrite app_nil_r|]. by destruct m as [[]|].
  - exists []. split; [by apply progress_stop_with|by apply stopped_server_ledger].
  - destruct Hc as (_ & _ & _ & Hrole' & _). unfold role in Hi. congruence.
Qed.

(** The steps of the Server that do not read. *)
Lemma serving_server_progress s e e' new : tidy e → ep_phase e = Serving → same_reading (ep_session e) s → has_sent new (ep_session e) s →
  noflips new → ep_session e' = s → ep_phase e' = Serving → ep_events e' = ep_events e →
  progress [] new (recv_key e) e e' ∧ server_ledger [] new e e'.
Proof.
  intros Htidy Hp Hsame Hs Hnf He' Hp' Hev. destruct (serving_progress s e e' new) as [H _]; try done. split; [done|].
  intros _. split; [done|]. left. destruct Hsame. subst s. split_and!; [constructor|done..].
Qed.

Lemma server_local_progress env i e : tidy e → ep_phase e = Serving → role e = Responder → en_send env ≠ SendDropped →
  (is_Some (receive_ready env (ep_session e)) ∨ ∀ f, i ≠ InFrame f) →
  ∃ new, progress [] new (recv_key e) e (manual_receive env i e) ∧ server_ledger [] new e (manual_receive env i e).
Proof.
  intros Htidy Hp Hi Henv Hin. unfold manual_receive. assert (se_buffered (ep_session e) = []) as Hnil by (unfold tidy in Htidy; by rewrite Hp in Htidy).
  destruct (receive_ready env (ep_session e)) as [[r s]|] eqn:Hready; cbn [default].
  - unfold receive_ready in Hready. rewrite Hnil in Hready. unfold rekey_due in Hready.
    rewrite bool_decide_eq_false_2 in Hready by (unfold role in Hi; congruence). cbn in Hready.
    destruct (heartbeat_expired _ _); [|done]. injection Hready as <- <-. exists []. split; [by apply progress_stop_with|by apply stopped_server_ledger].
  - destruct Hin as [[? ?]|Hin]; [done|]. destruct i as [f| |code|]; [by destruct (Hin f)|..].
    + exists []. split; [by apply (progress_stop _ (ep_session e))|by apply stopped_server_ledger].
    + exists []. split; [by apply progress_stop_with|by apply stopped_server_ledger].
    + unfold receive_read. cbv [mbind M_bind mret M_ret]. destruct (allocate_ping_nonce (ep_session e)) as [r s1] eqn:Ha.
      apply allocate_cases in Ha as ([A1 A2 A3 A4] & (fs & Ho & Hch) & n & ->).
      assert (fs = [] ∧ ss_send (se_secure s1) = ss_send (se_secure (ep_session e))) as [-> E] by by inversion Hch. rewrite app_nil_r in Ho.
      destruct (ping env n s1) as [r2 s2] eqn:Hping. apply ping_cases in Hping as ([P1 P2 P3 P4] & Hping). destruct r2 as [[]|x|?|]; [| |done..].
      * destruct Hping as (fs & Ho2 & Hch2). exists [control_message (CPing n (en_unix env))]. apply (serving_server_progress s2); try done; [constructor; congruence| |by repeat constructor].
        exists fs. split; [congruence|]. by rewrite <-E.
      * exists []. split; [|by apply stopped_server_ledger]. apply progress_stop_with; unfold out, role; congruence.
Qed.

Lemma manual_send_progress env m e : tidy e → ep_phase e = Serving → en_send env ≠ SendDropped → flips m = false →
  ∃ new, progress [] new (recv_key e) e (manual_send env m e) ∧ server_ledger [] new e (manual_send env m e).
Proof.
  intros Htidy Hp Henv Hm. unfold manual_send. destruct (send env m (ep_session e)) as [r s] eqn:Hs. apply send_cases in Hs as (Hsame & _ & Hs).
  destruct r as [[]|x|?|]; [| |done..].
  - exists [m]. apply (serving_server_progress s); try done; [by apply has_sent_one|by repeat constructor].
  - exists []. destruct Hs as [Ho _], Hsame. split; [by apply (progress_stop _ s)|by apply stopped_server_ledger].
Qed.

(** ** One direction

    End [e] has sent the messages [all] (starting with key [k]) and end [r] has read the
    first [n] of them. *)
Record direction (k : Cipher) (e r : Endpoint) (n : nat) (all : list SecureMessage) : Prop := {
  di_sent : ∃ k', chain k (out e) all k' ∧ (running e → k' = expected e);
  di_bound : (n ≤ length all)%nat;
  di_read : running r → chain k (take n (out e)) (take n all) (recv_key r);
  di_events : running r → handed r ++ held r = omap deliverable (take n all);
  di_prefix : handed r `prefix_of` omap deliverable (take n all);
}.

Lemma direction_sender k e r n all e' rd new h : direction k e r n all → running e → progress rd new h e e' → direction k e' r n (all ++ new).
Proof.
  intros [(k' & Hc & Hk) Hb Hr He Hpre] Hrun Hp. destruct (pg_out _ _ _ _ _ Hp) as (fs & k'' & Ho & Hc2 & Hk2).
  assert (length (out e) = length all) as Hlen by by eapply chain_length.
  assert (take n (all ++ new) = take n all) as Et by (apply take_app_le; lia). constructor.
  - exists k''. split; [|done]. rewrite Ho. eapply chain_app; [done|]. by rewrite (Hk Hrun).
  - rewrite length_app. lia.
  - rewrite Ho, Et, take_app_le by lia. done.
  - by rewrite Et.
  - by rewrite Et.
Qed.

Lemma direction_next k e r n all f rest : direction k e r n all → running r → drop n (out e) = f :: rest →
  ∃ m h, reads (recv_key r) f m h ∧ take (S n) all = take n all ++ [m] ∧ drop n all = m :: drop (S n) all ∧
    take (S n) (out e) = take n (out e) ++ [f].
Proof.
  intros [(k' & Hc & _) Hb Hr _ _] Hrun Hd. destruct (chain_take _ _ _ _ n Hc) as (k1 & H1 & H2).
  destruct (chain_det _ _ _ _ _ _ H1 (Hr Hrun)) as [_ ->]. rewrite Hd in H2. inversion H2 as [|? ? m h1 ? ms ? Hreads Hrest]; subst.
  exists m, h1. assert (∀ A (l : list A) x t, drop n l = x :: t → take (S n) l = take n l ++ [x] ∧ t = drop (S n) l) as Htake.
  { intros A l x t Hl. assert (l !! n = Some x) as Hx by (rewrite <-(Nat.add_0_r n), <-lookup_drop, Hl; done).
    split; [by apply take_S_r|]. rewrite (drop_S _ _ _ Hx) in Hl. congruence. }
  match goal with Hx : _ :: _ = drop n all |- _ => destruct (Htake _ _ _ _ (eq_sym Hx)) as [E1 E2] end.
  destruct (Htake _ _ _ _ Hd) as [E3 _]. split_and!; try done. congruence.
Qed.

Lemma direction_receiver k e r n all r' rd new h n' : direction k e r n all → running r → progress rd new h r r' →
  (running r' → chain k (take n' (out e)) (take n' all) h) → take n' all = take n all ++ rd → (n' ≤ length all)%nat →
  direction k e r' n' all.
Proof.
  intros [Hs Hb Hr He Hpre] Hrun Hp Hc Et Hn'. constructor; [done|done| | |].
  - intros Hrun'. rewrite (pg_recv _ _ _ _ _ Hp Hrun'). by apply Hc.
  - intros Hrun'. by rewrite (pg_events _ _ _ _ _ Hp Hrun'), app_assoc, (He Hrun), Et, omap_app.
  - pose proof (pg_prefix _ _ _ _ _ Hp) as Hpr. by rewrite app_assoc, (He Hrun), <-omap_app, <-Et in Hpr.
Qed.

Lemma direction_local k e r n all r' new : direction k e r n all → running r → progress [] new (recv_key r) r r' → direction k e r' n all.
Proof.
  intros H Hrun Hp. eapply direction_receiver; try done; [intros _; by apply (di_read _ _ _ _ _ H)|by rewrite app_nil_r|by eapply di_bound].
Qed.

Lemma direction_read k e r n all f rest m h r' new : direction k e r n all → running r → drop n (out e) = f :: rest → reads (recv_key r) f m h →
  progress [m] new (turn m h) r r' → direction k e r' (S n) all ∧ drop n all = m :: drop (S n) all.
Proof.
  intros H Hrun Hd Hr Hp. destruct (direction_next _ _ _ _ _ _ _ H Hrun Hd) as (m' & h' & Hr' & Et & Ed & Eo).
  destruct (reads_det _ _ _ _ _ _ Hr Hr') as [<- <-]. split; [|done]. eapply direction_receiver; try done.
  - intros _. rewrite Eo, Et. eapply chain_snoc; [by apply (di_read _ _ _ _ _ H)|done].
  - apply (f_equal length) in Ed. rewrite length_drop in Ed. cbn in Ed. lia.
Qed.

(** ** Keys and generations

    [a] are the messages on the way to the Server, [b] those on the way to the Agent. *)
Definition in_step (agent server : Endpoint) (a b : list SecureMessage) : Prop :=
  match ep_phase agent with
  | Serving => noflips a ∧ noflips b ∧ generation server = generation agent
  | AwaitAck g _ => g = next_generation (ep_session agent) ∧
      ((∃ pre, a = pre ++ [control_message (CRekeyRequest g)] ∧ noflips pre ∧ noflips b ∧ generation server = generation agent) ∨
       (∃ pre post, b = pre ++ control_message (CRekeyAck g) :: post ∧ noflips a ∧ noflips pre ∧ noflips post ∧ generation server = g))
  | Stopped => True
  end.

Lemma next_generation_same (e e' : Endpoint) : generation e' = generation e → next_generation (ep_session e') = next_generation (ep_session e).
Proof. unfold next_generation, generation. by intros ->. Qed.

(** Splitting off what was read. *)
Lemma noflips_rest (rd l l' : list SecureMessage) : l = rd ++ l' → noflips l → noflips rd ∧ noflips l'.
Proof. intros -> [? ?]%Forall_app. done. Qed.
Lemma read_before_flip (rd l' pre post : list SecureMessage) x : rd = [] ∨ (∃ m, rd = [m]) → noflips rd → flips x = true → pre ++ x :: post = rd ++ l' →
  ∃ pre', pre = rd ++ pre' ∧ l' = pre' ++ x :: post.
Proof.
  intros [->|[m ->]] Hn Hx E; [by exists pre|]. destruct pre as [|y pre]; cbn in E; [|injection E as -> E; exists pre; by split].
  injection E as -> _. apply Forall_cons_1 in Hn as [Hn _]. congruence.
Qed.

Lemma agent_in_step A A' S a a' b b' rd new : in_step A S a b → agent_ledger rd new A A' → running A → running A' →
  a' = a ++ new → b = rd ++ b' → rd = [] ∨ (∃ m, rd = [m]) → in_step A' S a' b'.
Proof.
  unfold in_step, agent_ledger. intros Hin Hled Hrun0 Hrun -> Hb Hrd. unfold running in Hrun0, Hrun. destruct (ep_phase A) as [|g after|] eqn:Hp; [| |done].
  - destruct Hin as (Ha & Hnb & Hg). apply (noflips_rest _ _ _ Hb) in Hnb as [_ Hnb]. destruct (ep_phase A') as [|g' after'|]; [| |done].
    + destruct Hled as (_ & Hn & Hg'). split_and!; [by apply Forall_app|done|congruence].
    + destruct Hled as (_ & -> & Hg1 & Hg'). split; [by rewrite (next_generation_same A A')|]. left. exists a. split_and!; [done..|congruence].
  - destruct Hin as (Hg & Hcase). destruct (ep_phase A') as [|g' after'|]; [| |done].
    + destruct Hled as (-> & Hn & Hg'). destruct Hcase as [(pre & _ & _ & Hnb & _)|(pre & post & Hb2 & Ha & Hpre & Hpost & HgS)].
      * rewrite Hb in Hnb. apply Forall_cons_1 in Hnb as [? _]. done.
      * rewrite Hb2 in Hb. destruct pre as [|x pre]; cbn in Hb.
        -- injection Hb as <-. split_and!; [by apply Forall_app|done|congruence].
        -- injection Hb as -> _. apply Forall_cons_1 in Hpre as [? _]. done.
    + destruct Hled as (-> & Hnrd & -> & Hg'). rewrite app_nil_r. split; [by rewrite (next_generation_same A A')|].
      destruct Hcase as [(pre & -> & Hpre & Hnb & HgS)|(pre & post & Hb2 & Ha & Hpre & Hpost & HgS)].
      * left. exists pre. apply (noflips_rest _ _ _ Hb) in Hnb as [_ ?]. split_and!; [done..|congruence].
      * right. rewrite Hb2 in Hb. apply read_before_flip in Hb as (pre' & -> & ->); [|done..]. apply Forall_app in Hpre as [_ ?].
        exists pre', post. by split_and!.
Qed.

Lemma server_in_step A S S' a a' b b' rd new : in_step A S a b → server_ledger rd new S S' → running S' → running A →
  b' = b ++ new → a = rd ++ a' → rd = [] ∨ (∃ m, rd = [m]) → in_step A S' a' b'.
Proof.
  unfold in_step. intros Hin Hled Hrun HrunA -> Ha Hrd. destruct (Hled Hrun) as (_ & [(Hnrd & Hn & Hg)|(g' & Erd & Enew & Hg' & HgS')]).
  - destruct (ep_phase A) as [|g after|]; [| |done].
    + destruct Hin as (Hna & Hnb & HgS). apply (noflips_rest _ _ _ Ha) in Hna as [_ ?]. split_and!; [done|by apply Forall_app|congruence].
    + destruct Hin as (Hg1 & Hcase). split; [done|]. destruct Hcase as [(pre & -> & Hpre & Hnb & HgS)|(pre & post & -> & Hna & Hpre & Hpost & HgS)].
      * left. apply read_before_flip in Ha as (pre' & -> & ->); [|done..]. apply Forall_app in Hpre as [_ ?].
        exists pre'. split_and!; [done|done|by apply Forall_app|congruence].
      * right. exists pre, (post ++ new). apply (noflips_rest _ _ _ Ha) in Hna as [_ ?].
        split_and!; [by rewrite <-app_assoc|done|done|by apply Forall_app|congruence].
  - subst rd new. destruct (ep_phase A) as [|g after|]; [| |done].
    + destruct Hin as (Hna & _). rewrite Ha in Hna. apply Forall_cons_1 in Hna as [? _]. done.
    + destruct Hin as (Hg1 & Hcase). split; [done|]. destruct Hcase as [(pre & -> & Hpre & Hnb & HgS)|(pre & post & -> & Hna & _)].
      * right. destruct pre as [|x pre]; cbn in Ha; injection Ha as ? Ha.
        -- subst. exists b, []. split_and!; [done|by repeat constructor|done|constructor|done].
        -- subst x. apply Forall_cons_1 in Hpre as [? _]. done.
      * rewrite Ha in Hna. apply Forall_cons_1 in Hna as [? _]. done.
Qed.

(** ** Both ends *)

Record System : Type := mkSystem { sy_agent : Endpoint; sy_server : Endpoint; sy_at_server : nat; sy_at_agent : nat }.
Definition to_server (y : System) : list ProtocolFrame := drop (sy_at_server y) (out (sy_agent y)).
Definition to_agent (y : System) : list ProtocolFrame := drop (sy_at_agent y) (out (sy_server y)).

(** After the handshake each end has the key the other one reads with. *)
Definition system_start (ka ks : Cipher) (ta ts : Z) (ha hs : HeartbeatPolicy) (ra rs : RekeyPolicy) : System :=
  mkSystem (endpoint_new (set_policies ha ra (session_new (secure_new ka ks) Initiator ta)))
    (endpoint_new (set_policies hs rs (session_new (secure_new ks ka) Responder ts))) 0 0.

Inductive system_step : System → System → Prop :=
| agent_reads env f rest e y : en_send env ≠ SendDropped → to_agent y = f :: rest →
    (∀ m h, reads (recv_key (sy_agent y)) f m h → ¬ crossing (sy_agent y) m) →
    driver_event env (DInbound (InFrame f)) (sy_agent y) = Some e →
    system_step y (mkSystem e (sy_server y) (sy_at_server y) (S (sy_at_agent y)))
| agent_acts env ev e y : en_send env ≠ SendDropped → local_event ev → driver_event env ev (sy_agent y) = Some e →
    system_step y (mkSystem e (sy_server y) (sy_at_server y) (sy_at_agent y))
| server_reads env f rest y : en_send env ≠ SendDropped → ep_phase (sy_server y) = Serving → to_server y = f :: rest →
    receive_ready env (ep_session (sy_server y)) = None →
    system_step y (mkSystem (sy_agent y) (manual_receive env (InFrame f) (sy_server y)) (S (sy_at_server y)) (sy_at_agent y))
| server_acts env i y : en_send env ≠ SendDropped → ep_phase (sy_server y) = Serving →
    (is_Some (receive_ready env (ep_session (sy_server y))) ∨ ∀ f, i ≠ InFrame f) →
    system_step y (mkSystem (sy_agent y) (manual_receive env i (sy_server y)) (sy_at_server y) (sy_at_agent y))
| server_sends env m y : en_send env ≠ SendDropped → ep_phase (sy_server y) = Serving → flips m = false →
    system_step y (mkSystem (sy_agent y) (manual_send env m (sy_server y)) (sy_at_server y) (sy_at_agent y)).

Record sync (ka ks : Cipher) (y : System) (a b : list SecureMessage) : Prop := {
  sn_up : direction ka (sy_agent y) (sy_server y) (sy_at_server y) a;
  sn_down : direction ks (sy_server y) (sy_agent y) (sy_at_agent y) b;
  sn_roles : role (sy_agent y) = Initiator ∧ role (sy_server y) = Responder;
  sn_tidy : tidy (sy_agent y) ∧ tidy (sy_server y);
  sn_server : running (sy_server y) → ep_phase (sy_server y) = Serving;
  sn_keys : running (sy_agent y) → running (sy_server y) →
    in_step (sy_agent y) (sy_server y) (drop (sy_at_server y) a) (drop (sy_at_agent y) b);
}.

Lemma sync_agent ka ks y a b e rd new h n : sync ka ks y a b → running (sy_agent y) → progress rd new h (sy_agent y) e →
  agent_ledger rd new (sy_agent y) e → direction ks (sy_server y) e n b → drop (sy_at_agent y) b = rd ++ drop n b →
  rd = [] ∨ (∃ m, rd = [m]) → sync ka ks (mkSystem e (sy_server y) (sy_at_server y) n) (a ++ new) b.
Proof.
  intros [Hup Hdown [Hr1 Hr2] [Ht1 Ht2] Hs Hk] Hrun Hp Hl Hd Hb Hrd. constructor; cbn.
  - by eapply direction_sender.
  - done.
  - by rewrite (pg_role _ _ _ _ _ Hp).
  - split; [by eapply pg_tidy|done].
  - done.
  - intros Hrun' HrunS. rewrite drop_app_le by by eapply di_bound. by eapply agent_in_step; [by apply Hk|..].
Qed.

Lemma sync_server ka ks y a b e rd new h n : sync ka ks y a b → ep_phase (sy_server y) = Serving → progress rd new h (sy_server y) e →
  server_ledger rd new (sy_server y) e → direction ka (sy_agent y) e n a → drop (sy_at_server y) a = rd ++ drop n a →
  rd = [] ∨ (∃ m, rd = [m]) → sync ka ks (mkSystem (sy_agent y) e n (sy_at_agent y)) a (b ++ new).
Proof.
  intros [Hup Hdown [Hr1 Hr2] [Ht1 Ht2] Hs Hk] Hrun Hp Hl Hd Ha Hrd. assert (running (sy_server y)) as HrunS by (unfold running; by rewrite Hrun).
  constructor; cbn.
  - done.
  - by eapply direction_sender.
  - by rewrite (pg_role _ _ _ _ _ Hp).
  - split; [done|by eapply pg_tidy].
  - intros H. by apply Hl.
  - intros HrunA Hrun'. rewrite drop_app_le by by eapply di_bound. by eapply server_in_step; [by apply Hk|..].
Qed.

Lemma driver_event_running env ev e e' : driver_event env ev e = Some e' → running e.
Proof. unfold driver_event, running. by destruct (ep_phase e). Qed.

Lemma sync_step ka ks y y' a b : sync ka ks y a b → system_step y y' → ∃ a' b', sync ka ks y' (a ++ a') (b ++ b').
Proof.
  intros Hy Hstep. destruct (Hy) as [Hup Hdown [Hr1 Hr2] [Ht1 Ht2] Hs _].
  destruct Hstep as [env f rest e y Henv Hf Hx Hev|env ev e y Henv Hl Hev|env f rest y Henv Hp Hf Hready|env i y Henv Hp Hi|env m y Henv Hp Hm].
  - pose proof (driver_event_running _ _ _ _ Hev) as Hrun. destruct (direction_next _ _ _ _ _ _ _ Hdown Hrun Hf) as (m & h & Hr & _).
    destruct (driver_read_progress env f m h (sy_agent y) e) as (new & Hpg & Hled); try done; [by eapply Hx|].
    destruct (direction_read _ _ _ _ _ _ _ _ _ _ _ Hdown Hrun Hf Hr Hpg) as [Hd Hb]. exists new, []. rewrite app_nil_r. eapply sync_agent; eauto.
  - pose proof (driver_event_running _ _ _ _ Hev) as Hrun.
    destruct (driver_local_progress env ev (sy_agent y) e) as (new & Hpg & Hled); try done. exists new, []. rewrite app_nil_r.
    eapply sync_agent; eauto. by eapply direction_local.
  - assert (running (sy_server y)) as Hrun by (unfold running; by rewrite Hp).
    destruct (direction_next _ _ _ _ _ _ _ Hup Hrun Hf) as (m & h & Hr & _).
    destruct (server_read_progress env f m h (sy_server y)) as (new & Hpg & Hled); try done.
    destruct (direction_read _ _ _ _ _ _ _ _ _ _ _ Hup Hrun Hf Hr Hpg) as [Hd Ha]. exists [], new. rewrite app_nil_r. eapply sync_server; eauto.
  - assert (running (sy_server y)) as Hrun by (unfold running; by rewrite Hp).
    destruct (server_local_progress env i (sy_server y)) as (new & Hpg & Hled); try done. exists [], new. rewrite app_nil_r.
    eapply sync_server; eauto. by eapply direction_local.
  - assert (running (sy_server y)) as Hrun by (unfold running; by rewrite Hp).
    destruct (manual_send_progress env m (sy_server y)) as (new & Hpg & Hled); try done. exists [], new. rewrite app_nil_r.
    eapply sync_server; eauto. by eapply direction_local.
Qed.

Lemma sync_start ka ks ta ts ha hs ra rs : sync ka ks (system_start ka ks ta ts ha hs ra rs) [] [].
Proof.
  assert (∀ k e r, out e = [] → expected e = k → recv_key r = k → handed r = [] → held r = [] → direction k e r 0 []) as Hd.
  { intros k e r Ho He Hr Hh Hb. constructor; [|cbn; lia|..].
    - exists k. rewrite Ho. split; [constructor|done].
    - intros _. rewrite Ho, Hr. constructor.
    - by rewrite Hh, Hb.
    - by rewrite Hh. }
  constructor; [by apply Hd..|done|done|done|]. intros _ _. split_and!; [constructor|constructor|done].
Qed.

Lemma sync_steps ka ks ta ts ha hs ra rs y : rtc system_step (system_start ka ks ta ts ha hs ra rs) y → ∃ a b, sync ka ks y a b.
Proof.
  intros H. assert (∃ a b, sync ka ks (system_start ka ks ta ts ha hs ra rs) a b) as Hs by (exists [], []; apply sync_start).
  induction H as [y|y1 y2 y3 H12 _ IH]; [done|]. destruct Hs as (a & b & Hs). destruct (sync_step _ _ _ _ _ _ Hs H12) as (a' & b' & ?). eauto.
Qed.

(** ** Theorems *)

(** C13. A session stays readable.  Whatever the Agent and the Server send, however the steps
    of the two ends interleave and whenever keys are changed (by age, by number of frames, on
    demand of either side), every frame on the way to a running end can be read with the key
    that end has, messages are handed to the business code once and in the order in which
    they were sent (those that arrive during a rekey after it), and while both ends run they
    have the same generation unless a request or an acknowledgement is under way; with
    nothing under way each end has exactly the key the other one reads with.  Two things are
    excluded from the steps, and each of them does break a session: a heartbeat that reaches
    the Agent while it waits for an acknowledgement
    ([heartbeat_during_rekey_breaks_session]), and a call that is dropped after it encrypted
    a frame and before the frame was in the channel ([en_send env = SendDropped],
    [dropped_answer_breaks_session]); a channel that is closed is not excluded. *)
Theorem session_stays_readable ka ks ta ts ha hs ra rs y : rtc system_step (system_start ka ks ta ts ha hs ra rs) y →
  let A := sy_agent y in let S := sy_server y in
  (∀ f rest, running S → to_server y = f :: rest → ∃ m h, reads (recv_key S) f m h) ∧
  (∀ f rest, running A → to_agent y = f :: rest → ∃ m h, reads (recv_key A) f m h) ∧
  (∃ a b ea eb, chain ka (out A) a ea ∧ chain ks (out S) b eb ∧
     handed S `prefix_of` omap deliverable (take (sy_at_server y) a) ∧ handed A `prefix_of` omap deliverable (take (sy_at_agent y) b) ∧
     (running S → handed S = omap deliverable (take (sy_at_server y) a)) ∧
     (running A → handed A ++ held A = omap deliverable (take (sy_at_agent y) b))) ∧
  (running S → ep_phase A = Serving → generation S = generation A ∧
     (to_server y = [] → send_key A = recv_key S) ∧ (to_agent y = [] → send_key S = recv_key A)) ∧
  (∀ g after, running S → ep_phase A = AwaitAck g after → g = next_generation (ep_session A) ∧ (to_server y ≠ [] ∨ to_agent y ≠ [])).
Proof.
  intros H A S. destruct (sync_steps _ _ _ _ _ _ _ _ _ H) as (a & b & [Hup Hdown _ [HtA HtS] Hs Hk]).
  fold A in Hup, Hdown, HtA, Hk. fold S in Hup, Hdown, HtS, Hs, Hk.
  assert (length (out A) = length a) as La by (destruct (di_sent _ _ _ _ _ Hup) as (? & ? & _); by eapply chain_length).
  assert (length (out S) = length b) as Lb by (destruct (di_sent _ _ _ _ _ Hdown) as (? & ? & _); by eapply chain_length).
  assert (∀ k e r n l, direction k e r n l → running e → running r → drop n (out e) = [] → expected e = recv_key r) as Hsame.
  { intros k e r n l [(k' & Hc & Hk') Hb Hr _ _] He Hrun Hnil. destruct (chain_take _ _ _ _ n Hc) as (k1 & H1 & H2). rewrite Hnil in H2.
    destruct (chain_det _ _ _ _ _ _ H1 (Hr Hrun)) as [_ ->]. rewrite <-(Hk' He). by inversion H2. }
  split_and!.
  - intros f rest HrunS Hf. destruct (direction_next _ _ _ _ _ _ _ Hup HrunS Hf) as (m & h & ? & _). eauto.
  - intros f rest HrunA Hf. destruct (direction_next _ _ _ _ _ _ _ Hdown HrunA Hf) as (m & h & ? & _). eauto.
  - destruct (di_sent _ _ _ _ _ Hup) as (ea & Hca & _), (di_sent _ _ _ _ _ Hdown) as (eb & Hcb & _). exists a, b, ea, eb.
    split_and!; [done|done|by eapply di_prefix|by eapply di_prefix| |by eapply di_events].
    intros HrunS. rewrite <-(di_events _ _ _ _ _ Hup HrunS). unfold tidy in HtS. rewrite (Hs HrunS) in HtS. unfold held. rewrite HtS.
    by rewrite app_nil_r.
  - intros HrunS Hp. assert (running A) as HrunA by (unfold running; by rewrite Hp). pose proof (Hk HrunA HrunS) as Hin.
    unfold in_step in Hin. rewrite Hp in Hin. destruct Hin as (_ & _ & Hg). split_and!; [done| |]; intros Hnil.
    + rewrite <-(Hsame _ _ _ _ _ Hup HrunA HrunS Hnil). unfold expected. by rewrite Hp.
    + rewrite <-(Hsame _ _ _ _ _ Hdown HrunS HrunA Hnil). unfold expected. by rewrite (Hs HrunS).
  - intros g after HrunS Hp. assert (running A) as HrunA by (unfold running; by rewrite Hp). pose proof (Hk HrunA HrunS) as Hin.
    unfold in_step in Hin. rewrite Hp in Hin. destruct Hin as (Hg & Hcase). split; [done|].
    assert (∀ n (l : list SecureMessage) (fs : list ProtocolFrame), length fs = length l → drop n l ≠ [] → drop n fs ≠ []) as Hne.
    { intros n l fs Hl Hd Hnil. apply Hd. apply (f_equal length) in Hnil. rewrite length_drop in Hnil. cbn in Hnil.
      apply length_zero_iff_nil. rewrite length_drop. lia. }
    destruct Hcase as [(pre & Ha & _)|(pre & post & Hb & _)]; [left|right]; (eapply Hne; [eassumption|]).
    + rewrite Ha. by destruct pre.
    + rewrite Hb. by destruct pre.
Qed.

(** C40. Defect: the Agent answers a heartbeat also while it waits for the acknowledgement of a
    rekey, still with the old key, although it has already asked the Server to change the key
    for what the Agent sends.  Once the Server has read the frames before it, it cannot
    decrypt that answer, and it gives the session up. *)
Theorem heartbeat_during_rekey_breaks_session `{SI : !SnowIdeal SN} ka ks ta ts ha hs ra rs y env f rest m h e :
  rtc system_step (system_start ka ks ta ts ha hs ra rs) y → running (sy_server y) →
  to_agent y = f :: rest → reads (recv_key (sy_agent y)) f m h → crossing (sy_agent y) m →
  driver_event env (DInbound (InFrame f)) (sy_agent y) = Some e → running e →
  ∃ pong k ms, out e = out (sy_agent y) ++ [pong] ∧ chain (recv_key (sy_server y)) (to_server y) ms k ∧
    ∀ env' S, ep_phase S = Serving → recv_key S = k → receive_ready env' (ep_session S) = None →
      ep_phase (manual_receive env' (InFrame pong) S) = Stopped.
Proof.
  intros H HrunS Hf Hr [Hm (g & after & Hp)] Hev Hrun. destruct (sync_steps _ _ _ _ _ _ _ _ _ H) as (a & b & [Hup _ _ _ _ _]).
  assert (running (sy_agent y)) as HrunA by (unfold running; by rewrite Hp).
  destruct (di_sent _ _ _ _ _ Hup) as (k & Hc & Hk). specialize (Hk HrunA). unfold expected in Hk. rewrite Hp in Hk.
  destruct (chain_take _ _ _ _ (sy_at_server y) Hc) as (k1 & H1 & H2).
  destruct (chain_det _ _ _ _ _ _ H1 (di_read _ _ _ _ _ Hup HrunS)) as [_ ->].
  destruct m as [[| |[[nonce sent_at| | | |]|]]|]; try done. unfold driver_event in Hev. rewrite Hp in Hev. injection Hev as <-.
  unfold handle_await, await_ack, decrypt_frame in Hrun |- *. cbv [mbind M_bind mret M_ret] in Hrun |- *.
  destruct (decrypt_reads _ _ _ _ Hr) as [n En]. rewrite En in Hrun |- *. set (s1 := set_secure _ _) in *.
  unfold handle_control in Hrun |- *. cbv [mbind M_bind get] in Hrun |- *. unfold send in Hrun |- *.
  destruct (encrypt _ _) as [[pong|x] sec] eqn:He; [|by destruct after; destruct Hrun].
  destruct (en_send env); [|by destruct after; destruct Hrun|by destruct Hrun].
  exists pong, k. eexists. split_and!; [done|exact H2|]. intros env' S HpS HrS Hready. unfold encrypt in He.
  case_bool_decide; [done|]. destruct (snow_write _ _) as [[c h']|] eqn:Hw; [|done]. injection He as <- _.
  unfold manual_receive. rewrite Hready. cbn [default]. unfold receive_read, process_inbound_frame, decrypt_frame, decrypt. cbv [mbind M_bind].
  case_bool_decide; [done|]. destruct (snow_read (ss_recv _) c) as [[p h2]|] eqn:Hread; [|done]. exfalso.
  assert (k = send_key (sy_agent y)) as Ek.
  { eapply read_authentic; [exact Hw|]. rewrite <-HrS. unfold recv_key. eauto. }
  rewrite Hk in Ek. by apply rekey_fresh in Ek.
Qed.

(** The Server calls [receive_event] in a [select!] and drops the call when a catalog or a
    runtime changes.  If the channel was full just when an answer to a heartbeat was to be
    sent, the answer is encrypted and lost: the nonce has moved on, and the Agent, which has
    read everything before, cannot read what the Server sends next. *)
Lemma dropped_answer_breaks_session `{SI : !SnowIdeal SN} env nonce t f h e :
  ep_phase e = Serving → reads (recv_key e) f (control_message (CPing nonce t)) h → receive_ready env (ep_session e) = None →
  en_send env = SendDropped → let e1 := manual_receive env (InFrame f) e in
  ep_phase e1 = Serving →
  out e1 = out e ∧ ∀ env' m e2, en_send env' = Sent → e2 = manual_send env' m e1 → running e2 →
    ∃ g, out e2 = out e ++ [g] ∧ ∀ m' h', ¬ reads (send_key e) g m' h'.
Proof.
  intros Hp Hr Hready Hdrop e1 Hp1. unfold e1, manual_receive in *. rewrite Hready in *. cbn [default] in *. clear e1.
  unfold receive_read, process_inbound_frame, decrypt_frame in *. cbv [mbind M_bind modify] in *. destruct (decrypt_reads _ _ _ _ Hr) as [n En].
  rewrite En in *. set (s1 := set_last_received _ _) in *. cbn in Hp1 |- *. unfold process_control, handle_control in *. cbv [mbind M_bind get] in *.
  unfold send in *. destruct (encrypt _ _) as [[pong|x] sec] eqn:He; [|done]. rewrite Hdrop in *. split; [done|].
  intros env' m e2 Hsent -> Hrun. unfold manual_send, send in *. cbn in Hrun |- *.
  assert (ss_send sec ≠ send_key e) as Hne.
  { unfold encrypt in He. case_bool_decide; [done|]. destruct (snow_write _ _) as [[c h']|] eqn:Hw; [|done]. injection He as _ <-. cbn.
    by apply nonce_fresh in Hw. }
  destruct (encrypt m sec) as [[g|x] sec2] eqn:He2; [|by destruct Hrun]. rewrite Hsent in *. exists g. split; [done|].
  intros m' h' (c & p & -> & _ & Hread & _). unfold encrypt in He2. case_bool_decide; [done|].
  destruct (snow_write _ _) as [[c' h2]|] eqn:Hw; [|done]. injection He2 as -> _. apply Hne. symmetry. eapply read_authentic; [exact Hw|eauto].
Qed.

(** Defect: the session takes messages up to [MAX_NOISE_PLAINTEXT_BYTES] (about 1 MiB), but a
    Noise message has at most 65535 bytes.  A message in between passes the check and fails
    in [snow]: the driver stops, the error is not one that is retried, and an outbox with such
    a message in front keeps it for ever and ends the event loop with the error. *)
Theorem large_message_ends_session {R} env (m : SecureMessage) e (p : Port R) x rest :
  ep_phase e = Serving → NOISE_MAX_MESSAGE - 16 < zlen (encode_message m) ≤ MAX_NOISE_PLAINTEXT_BYTES →
  ob_pending (pt_outbox p) = x :: rest →
  ∃ error, let e' := handle_driver_command env (Some (DSend m)) e in
    ep_phase e' = Stopped ∧ ep_replies e' = ep_replies e ++ [Err error] ∧ is_retryable (CTransport error) = false ∧
    ∃ p', flush (λ _, Err (CTransport error)) p = Some (Err (CTransport error), p') ∧ pt_outbox p' = pt_outbox p.
Proof.
  intros Hp [H1 H2] Hob. exists (TNoise (Crypto "write_message")).
  assert (encrypt m (se_secure (ep_session e)) = (Err (Crypto "write_message"), se_secure (ep_session e))) as He.
  { unfold encrypt. rewrite bool_decide_eq_false_2 by lia. by rewrite write_limit by lia. }
  cbn. cbv [mbind M_bind]. unfold NoiseSession.send. rewrite He. split_and!; try done.
  unfold flush. rewrite Hob. cbn. rewrite Hob. eexists. split; [reflexivity|done].
Qed.

End Sync.

(** ** An instance *)

(** A codec over numbers, and ciphertexts that carry key and nonce. *)
Definition kind_number (k : BusinessKind) : Z :=
  match k with
  | KRegistration => 1 | KDiagnostic => 2 | KKeyRotation => 3 | KJobCommand => 4 | KJobCommandResult => 5 | KTaskReport => 6
  | KAgentJobPolicy => 7 | KAgentCapability => 8 | KAgentPlugin => 9 | KJobEvent => 10 | KReconcileSummary => 11
  end.
Definition number_kind (n : Z) : option BusinessKind :=
  List.find (λ k, bool_decide (kind_number k = n))
    [KRegistration; KDiagnostic; KKeyRotation; KJobCommand; KJobCommandResult; KTaskReport; KAgentJobPolicy; KAgentCapability;
     KAgentPlugin; KJobEvent; KReconcileSummary].
Definition text_numbers (s : string) : bytes := (λ c, Z.of_N (Ascii.N_of_ascii c)) <$> String.list_ascii_of_string s.
Definition numbers_text (l : bytes) : string := String.string_of_list_ascii ((λ z, Ascii.ascii_of_N (Z.to_N z)) <$> l).
#[local] Instance demo_codec : MessageCodec := {|
  encode_message m :=
    match m with
    | None => []
    | Some (BBusiness k content) => 1 :: kind_number k :: content
    | Some (BError code text) => 2 :: code :: text_numbers text
    | Some (BControl None) => [3]
    | Some (BControl (Some (CPing n t))) => [4; n; t]
    | Some (BControl (Some (CPong n a b c))) => [5; n; a; b; c]
    | Some (BControl (Some (CRekeyRequired g))) => [6; g]
    | Some (BControl (Some (CRekeyRequest g))) => [7; g]
    | Some (BControl (Some (CRekeyAck g))) => [8; g]
    end;
  decode_message bs :=
    match bs with
    | [] => Some None
    | 1 :: k :: content => (λ k, Some (BBusiness k content)) <$> number_kind k
    | 2 :: code :: text => Some (Some (BError code (numbers_text text)))
    | [3] => Some (Some (BControl None))
    | [4; n; t] => Some (control_message (CPing n t))
    | [5; n; a; b; c] => Some (control_message (CPong n a b c))
    | [6; g] => Some (control_message (CRekeyRequired g))
    | [7; g] => Some (control_message (CRekeyRequest g))
    | [8; g] => Some (control_message (CRekeyAck g))
    | _ => None
    end
|}.
#[local] Instance demo_codec_laws : MessageCodecLaws demo_codec.
Proof.
  intros m. destruct m as [[k content|code text|[[]|]]|]; try done; [by destruct k|]. cbn. do 3 f_equal.
  unfold numbers_text, text_numbers. rewrite <-list_fmap_compose. induction text as [|c text IH]; [done|]. cbn. rewrite N2Z.id, Ascii.ascii_N_embedding.
  f_equal. exact IH.
Qed.

#[local] Instance demo_snow : Snow := {|
  Cipher := Z * Z;
  snow_write h p := if bool_decide (zlen p + 16 ≤ NOISE_MAX_MESSAGE) then Some (h.1 :: h.2 :: replicate 14 0 ++ p, (h.1, h.2 + 1)) else None;
  snow_read h c :=
    match c with
    | k :: n :: rest => if bool_decide (k = h.1 ∧ n = h.2) then Some (drop 14 rest, (h.1, h.2 + 1)) else None
    | _ => None
    end;
  snow_rekey h := (h.1 + 1, h.2);
|}.
#[local] Instance demo_snow_laws : SnowLaws demo_snow.
Proof.
  constructor; cbn; intros [k n] p.
  - intros c h' H. case_bool_decide; [|done]. injection H as <- <-. cbn. by rewrite bool_decide_eq_true_2.
  - intros c h' H. case_bool_decide; [|done]. injection H as <- <-. unfold zlen. cbn. lia.
  - intros H. by rewrite bool_decide_eq_false_2 by lia.
Qed.
#[local] Instance demo_snow_ideal : SnowIdeal demo_snow.
Proof.
  constructor; cbn.
  - intros [k0 n0] p0 c h0' [k n] H. case_bool_decide; [|done]. injection H as <- <-. cbn. intros [? Hr]. case_bool_decide as E; [|done].
    destruct E. congruence.
  - intros [k n] [=]. lia.
  - intros [k n] p c h'. case_bool_decide; [|done]. intros [= <- <-] [=]. lia.
Qed.

Definition demo_env : Env := mkEnv 5 5 Sent true.
Definition demo_start : System :=
  system_start (1, 0) (100, 0) 0 0 default_heartbeat default_heartbeat default_rekey default_rekey.
Definition agent_does (ev : DriverEvent) (y : System) : System :=
  mkSystem (default (sy_agent y) (driver_event demo_env ev (sy_agent y))) (sy_server y) (sy_at_server y) (sy_at_agent y).
Definition server_takes (y : System) : System :=
  mkSystem (sy_agent y) (manual_receive demo_env (from_option InFrame InIdle (head (to_server y))) (sy_server y)) (S (sy_at_server y)) (sy_at_agent y).
Definition agent_takes (y : System) : System :=
  mkSystem (default (sy_agent y) (driver_event demo_env (DInbound (from_option InFrame InIdle (head (to_agent y)))) (sy_agent y)))
    (sy_server y) (sy_at_server y) (S (sy_at_agent y)).

(** A message, a rekey and a message with the new keys. *)
Definition demo_message (n : Z) : SecureMessage := Some (BBusiness KTaskReport [n]).
Definition demo_sent : System := agent_does (DCommand (Some (DSend (demo_message 1)))) demo_start.
Definition demo_asked : System := agent_does (DCommand (Some DRequestRekey)) demo_sent.
Definition demo_first : System := server_takes demo_asked.
Definition demo_changed : System := server_takes demo_first.
Definition demo_renewed : System := agent_takes demo_changed.
Definition demo_resent : System := agent_does (DCommand (Some (DSend (demo_message 2)))) demo_renewed.
Definition demo_second : System := server_takes demo_resent.

Lemma agent_does_step y ev : rtc system_step demo_start y → local_event ev → ep_phase (sy_agent y) = Serving →
  rtc system_step demo_start (agent_does ev y).
Proof.
  intros H Hev Hp. eapply rtc_r; [exact H|]. apply (agent_acts demo_env ev); [done|done|]. unfold driver_event. rewrite Hp. by destruct ev.
Qed.
Lemma server_takes_step y : rtc system_step demo_start y → ep_phase (sy_server y) = Serving → to_server y ≠ [] →
  from_option (λ _, false) true (receive_ready demo_env (ep_session (sy_server y))) = true → rtc system_step demo_start (server_takes y).
Proof.
  intros H Hp Hf Hr. eapply rtc_r; [exact H|]. unfold server_takes. destruct (to_server y) as [|f rest] eqn:E; [done|].
  apply (server_reads demo_env f rest); [done|done|exact E|]. by destruct (receive_ready _ _).
Qed.
Definition not_ping (h : Cipher) (f : ProtocolFrame) : bool :=
  match f with
  | FCiphertext c => from_option (λ r, from_option (λ m, negb (is_ping m)) true (decode_message r.1)) true (snow_read h c)
  | _ => true
  end.
Lemma agent_takes_event y f rest : to_agent y = f :: rest → ep_phase (sy_agent y) ≠ Stopped →
  driver_event demo_env (DInbound (InFrame f)) (sy_agent y) = Some (sy_agent (agent_takes y)).
Proof. intros Hf Hp. unfold agent_takes. rewrite Hf. cbn. unfold driver_event. by destruct (ep_phase (sy_agent y)). Qed.
Lemma agent_takes_step y : rtc system_step demo_start y → ep_phase (sy_agent y) ≠ Stopped → to_agent y ≠ [] →
  from_option (not_ping (recv_key (sy_agent y))) false (head (to_agent y)) = true → rtc system_step demo_start (agent_takes y).
Proof.
  intros H Hp Hf Hn. eapply rtc_r; [exact H|]. destruct (to_agent y) as [|f rest] eqn:E; [done|]. cbn in Hn.
  apply (agent_reads demo_env f rest); [done|exact E| |by apply (agent_takes_event _ _ rest)].
  intros m h (c & p & -> & _ & Hread & Hd) [Hm _]. unfold not_ping in Hn. rewrite Hread in Hn. cbn [from_option fst] in Hn. rewrite Hd in Hn. cbn [from_option] in Hn.
  by rewrite Hm in Hn.
Qed.

Lemma demo_run : rtc system_step demo_start demo_second.
Proof.
  apply server_takes_step; [|vm_compute; congruence..]. apply agent_does_step; [|done|vm_compute; reflexivity].
  apply agent_takes_step; [|vm_compute; congruence..].
  do 2 (apply server_takes_step; [|vm_compute; congruence..]).
  do 2 (apply agent_does_step; [|done|vm_compute; reflexivity]). apply rtc_refl.
Qed.

Lemma session_stays_readable_witness :
  generation (sy_server demo_second) = 1 ∧ send_key (sy_agent demo_second) = (2, 3) ∧ send_key (sy_agent demo_second) = recv_key (sy_server demo_second) ∧
  handed (sy_server demo_second) = [(KTaskReport, [1]); (KTaskReport, [2])].
Proof.
  destruct (session_stays_readable (SN := demo_snow) (1, 0) (100, 0) 0 0 default_heartbeat default_heartbeat default_rekey default_rekey demo_second demo_run)
    as (_ & _ & _ & H & _). split; [vm_compute; reflexivity|]. split; [vm_compute; reflexivity|]. split; [|vm_compute; reflexivity].
  apply H; [vm_compute; discriminate|vm_compute; reflexivity|vm_compute; reflexivity].
Defined.

(** A heartbeat of the Server crosses the request. *)
Definition demo_pinged : System :=
  mkSystem (sy_agent demo_start) (manual_receive demo_env InIdle (sy_server demo_start)) 0 0.
Definition demo_crossing : System := agent_does (DCommand (Some DRequestRekey)) demo_pinged.
Lemma demo_crossing_run : rtc system_step demo_start demo_crossing.
Proof.
  apply agent_does_step; [|done|reflexivity]. apply rtc_once. apply (server_acts demo_env InIdle); [done|done|]. by right.
Qed.

Lemma heartbeat_during_rekey_breaks_session_witness :
  ∃ pong, out (sy_agent (agent_takes demo_crossing)) = out (sy_agent demo_crossing) ++ [pong] ∧
    ep_phase (sy_server (server_takes (server_takes (agent_takes demo_crossing)))) = Stopped.
Proof.
  destruct (heartbeat_during_rekey_breaks_session (SN := demo_snow) (1, 0) (100, 0) 0 0 default_heartbeat default_heartbeat default_rekey default_rekey demo_crossing
    demo_env (FCiphertext (100 :: 0 :: replicate 14 0 ++ [4; 1; 5])) [] (control_message (CPing 1 5)) (100, 1) (sy_agent (agent_takes demo_crossing))
    demo_crossing_run) as (pong & k & ms & Ho & _).
  - vm_compute. discriminate.
  - vm_compute. reflexivity.
  - do 2 eexists. split; [reflexivity|]. split; [vm_compute; discriminate|]. split; vm_compute; reflexivity.
  - split; [reflexivity|]. do 2 eexists. vm_compute. reflexivity.
  - apply (agent_takes_event _ _ []); [vm_compute; reflexivity|vm_compute; discriminate].
  - vm_compute. discriminate.
  - exists pong. split; [exact Ho|vm_compute; reflexivity].
Defined.

Definition demo_large : SecureMessage := Some (BBusiness KTaskReport (replicate 65536 0)).
Lemma large_message_ends_session_witness :
  ∃ error, ep_phase (handle_driver_command demo_env (Some (DSend demo_large)) (sy_agent demo_start)) = Stopped ∧
    is_retryable (CTransport error) = false.
Proof.
  destruct (large_message_ends_session demo_env demo_large (sy_agent demo_start) (mkPort (mkOutbox [tt] 8 0 None) 0 []) tt []) as (error & H1 & _ & H2 & _).
  - reflexivity.
  - vm_compute. split; congruence.
  - reflexivity.
  - exists error. split; [exact H1|exact H2].
Defined.
