(* ===== verification/Handshake.v ===== *)
(** * Opening a session

    [crates/smalux-protocol/src/noise/client.rs], [noise/server.rs] and the frame helpers of
    [noise.rs]; the Server's acceptor in [tonic_transport/server.rs] and the two ways an Agent
    opens a session in [tonic_transport/client.rs] (XXpsk3 for the first registration, IK
    with a pinned Server key afterwards).

    The handshake machine of [snow] is a class: [snow_build] is the [Builder], with the
    ephemeral secret its random generator draws as the last argument.  What the stream yields
    is an [Inbound] ([InIdle]: nothing before the deadline).  A function that waits for the
    peer in the middle is two definitions, before and after the wait. *)

From stdpp Require Import base gmap strings list.
From S2P Require Import Prelude Rotation Credential AgentState KeyRotation NoiseSession NoiseSync.

(** ** Frames *)

Inductive HandshakeType : Type := HUnspecified | HXxPsk3 | HIk.
#[global] Instance HandshakeType_eq_dec : EqDecision HandshakeType.
Proof. solve_decision. Defined.
Definition handshake_type_number (k : HandshakeType) : Z := match k with HUnspecified => 0 | HXxPsk3 => 1 | HIk => 2 end.
Definition handshake_type_try_from (n : Z) : option HandshakeType :=
  match n with 0 => Some HUnspecified | 1 => Some HXxPsk3 | 2 => Some HIk | _ => None end.

Inductive HandshakeMode : Type := ModeRegistrationXxPsk3 | ModeAuthenticatedIk.
#[global] Instance HandshakeMode_eq_dec : EqDecision HandshakeMode.
Proof. solve_decision. Defined.

Definition noise_frame (kind : HandshakeType) (key_id : option KeyId) (payload : bytes) : NoiseHandshake :=
  mkHandshake (handshake_type_number kind) (default [] key_id) payload [].
Definition validate_handshake (frame : NoiseHandshake) (expected : HandshakeType) : result NoiseError unit :=
  actual ← ok_or InvalidHandshakeType (handshake_type_try_from (nh_type frame));
  if bool_decide (actual = expected) then Ok tt else Err InvalidHandshakeType.

(** ** [snow::HandshakeState] *)

Inductive HandshakePattern : Type := NOISE_XX_PSK3 | NOISE_IK.
Class SnowHandshake (SN : Snow) : Type := {
  HandshakeState : Type;
  dh_public : bytes → bytes;
  snow_build : NoiseSessionRole → HandshakePattern → bytes → option bytes → option bytes → bytes → option HandshakeState;
  hs_write : HandshakeState → option (bytes * HandshakeState);
  hs_read : HandshakeState → bytes → option HandshakeState;
  hs_remote_static : HandshakeState → option bytes;
  hs_split : HandshakeState → option (Cipher * Cipher);
}.

(** The messages of the two patterns, as the Noise specification composes them. *)
Section Runs.
Context {SN : Snow} {SH : SnowHandshake SN}.
Definition ik_first (sk remote e : bytes) : option (bytes * HandshakeState) :=
  h ← snow_build Initiator NOISE_IK sk (Some remote) None e; hs_write h.
Definition ik_second (sk e m1 : bytes) : option (bytes * HandshakeState) :=
  h ← snow_build Responder NOISE_IK sk None None e; h ← hs_read h m1; hs_write h.
Definition xx_first (sk psk e : bytes) : option (bytes * HandshakeState) :=
  h ← snow_build Initiator NOISE_XX_PSK3 sk None (Some psk) e; hs_write h.
Definition xx_second (sk psk e m1 : bytes) : option (bytes * HandshakeState) :=
  h ← snow_build Responder NOISE_XX_PSK3 sk None (Some psk) e; h ← hs_read h m1; hs_write h.
Definition xx_third (h : HandshakeState) (m2 : bytes) : option (bytes * HandshakeState) := h ← hs_read h m2; hs_write h.
End Runs.

(** What the Noise specification promises of them.  A handshake between two parties that
    follow it completes: each learns the static key of the other and the sending key of
    one is the receiving key of the other; the pre-shared key of XXpsk3 enters with the third
    message.  The first message of IK is readable with the pinned key only, and a
    message is readable only by a party with the same transcript and pre-shared key. *)
Definition is_key (b : bytes) : Prop := length b = KEY_LEN.
Class SnowHandshakeLaws {SN : Snow} (SH : SnowHandshake SN) : Prop := {
  dh_public_key sk : is_key sk → is_key (dh_public sk);
  ik_starts sk k e : is_key sk → is_key k → is_key e → is_Some (ik_first sk k e);
  ik_completes ski skr ei er m1 hi : ik_first ski (dh_public skr) ei = Some (m1, hi) → is_key skr → is_key er →
    ∃ m2 hr hi' a b, ik_second skr er m1 = Some (m2, hr) ∧ hs_read hi m2 = Some hi' ∧
      hs_remote_static hr = Some (dh_public ski) ∧ hs_split hi' = Some (a, b) ∧ hs_split hr = Some (b, a);
  ik_pinned ski skr k ei er m1 hi r : ik_first ski k ei = Some (m1, hi) → ik_second skr er m1 = Some r → dh_public skr = k;
  ik_transcript ski skr k ei er m1 m1' m2 hi hr hi' : ik_first ski k ei = Some (m1, hi) →
    ik_second skr er m1' = Some (m2, hr) → hs_read hi m2 = Some hi' → m1' = m1;
  xx_starts sk psk e : is_key sk → is_key psk → is_key e → is_Some (xx_first sk psk e);
  xx_completes ski skr pski pskr ei er m1 hi : xx_first ski pski ei = Some (m1, hi) → is_key skr → is_key pskr → is_key er →
    ∃ m2 hr hi1 m3 hi' a b, xx_second skr pskr er m1 = Some (m2, hr) ∧
      hs_read hi m2 = Some hi1 ∧ hs_remote_static hi1 = Some (dh_public skr) ∧ hs_write hi1 = Some (m3, hi') ∧
      hs_split hi' = Some (a, b) ∧
      (pski = pskr → ∃ hr', hs_read hr m3 = Some hr' ∧ hs_remote_static hr' = Some (dh_public ski) ∧ hs_split hr' = Some (b, a));
  xx_transcript ski skr pski pskr ei er m1 m1' m2 m2' m3 hi hr hi' : xx_first ski pski ei = Some (m1, hi) →
    xx_second skr pskr er m1' = Some (m2, hr) → xx_third hi m2' = Some (m3, hi') → is_Some (hs_read hr m3) →
    pski = pskr ∧ m1' = m1 ∧ m2' = m2;
}.

Section Handshake.
Context `{B : Blake2s} `{MC : MessageCodec} {SN : Snow} {SH : SnowHandshake SN}.

(** ** The Noise core *)

Record EstablishedNoise : Type := mkEstablished {
  es_session : SecureSession;
  es_mode : HandshakeMode;
  es_remote : NoisePublicKey;
  es_responder_key_id : KeyId;
}.

Definition write_handshake (h : HandshakeState) (kind : HandshakeType) (key_id : option KeyId) :
    result NoiseError (NoiseHandshake * HandshakeState) :=
  '(output, h) ← ok_or (Crypto "write_message") (hs_write h);
  Ok (noise_frame kind key_id output, h).
Definition read_handshake (h : HandshakeState) (payload : bytes) : result NoiseError HandshakeState :=
  ok_or (Crypto "read_message") (hs_read h payload).
Definition snow_state (r : NoiseSessionRole) (p : HandshakePattern) (sk : bytes) (remote psk : option bytes) (e : bytes) :
    result NoiseError HandshakeState := ok_or (Crypto "build") (snow_build r p sk remote psk e).
Definition into_transport_mode (h : HandshakeState) : result NoiseError SecureSession :=
  '(send, recv) ← ok_or (Crypto "into_transport_mode") (hs_split h);
  Ok (secure_new send recv).
Definition remote_key (h : HandshakeState) : result NoiseError NoisePublicKey :=
  remote ← ok_or MissingRemoteKey (hs_remote_static h); public_key_from_bytes remote.
Definition check_psk (psk : bytes) : result NoiseError unit :=
  if bool_decide (length psk = REGISTRATION_PSK_BYTES) then Ok tt else Err InvalidPskLength.

(** [ClientXxHandshake::start] and [ClientXxAwaitMessage2::receive_message2]. *)
Definition client_xx_start (i : NoiseIdentity) (psk e : bytes) : result NoiseError (HandshakeState * NoiseHandshake) :=
  _ ← check_psk psk;
  h ← snow_state Initiator NOISE_XX_PSK3 (private_key i) None (Some psk) e;
  '(first, h) ← write_handshake h HXxPsk3 None;
  Ok (h, first).
Definition client_xx_message2 (h : HandshakeState) (frame : NoiseHandshake) : result NoiseError (EstablishedNoise * NoiseHandshake) :=
  _ ← validate_handshake frame HXxPsk3;
  h ← read_handshake h (nh_payload frame);
  remote ← remote_key h;
  _ ← (if bool_decide (nh_responder_key_id frame = []) then Ok tt
       else id ← key_id_from_bytes (nh_responder_key_id frame);
            if bool_decide (id ≠ key_id remote) then Err AuthenticationFailed else Ok tt);
  '(third, h) ← write_handshake h HXxPsk3 (Some (key_id remote));
  session ← into_transport_mode h;
  Ok (mkEstablished session ModeRegistrationXxPsk3 remote (key_id remote), third).

(** [ClientIkHandshake::start] and [ClientIkAwaitMessage2::receive_message2]. *)
Record ClientIkAwaitMessage2 : Type := mkIkAwait { iw_handshake : HandshakeState; iw_server_key : NoisePublicKey }.
Definition client_ik_start (i : NoiseIdentity) (server_key : NoisePublicKey) (e : bytes) :
    result NoiseError (ClientIkAwaitMessage2 * NoiseHandshake) :=
  h ← snow_state Initiator NOISE_IK (private_key i) (Some server_key) None e;
  '(first, h) ← write_handshake h HIk (Some (key_id server_key));
  Ok (mkIkAwait h server_key, first).
Definition client_ik_message2 (w : ClientIkAwaitMessage2) (frame : NoiseHandshake) : result NoiseError EstablishedNoise :=
  _ ← validate_handshake frame HIk;
  id ← key_id_from_bytes (nh_responder_key_id frame);
  if bool_decide (id ≠ key_id (iw_server_key w)) then Err UnknownKeyId else
  h ← read_handshake (iw_handshake w) (nh_payload frame);
  session ← into_transport_mode h;
  Ok (mkEstablished session ModeAuthenticatedIk (iw_server_key w) (key_id (iw_server_key w))).

(** The responder: [finish], [ServerXxHandshake], [ServerXxAwaitMessage3] and [ServerIkHandshake]. *)
Definition finish (h : HandshakeState) (mode : HandshakeMode) (responder_key_id : KeyId) : result NoiseError EstablishedNoise :=
  remote ← remote_key h;
  session ← into_transport_mode h;
  Ok (mkEstablished session mode remote responder_key_id).
Record ServerXxAwaitMessage3 : Type := mkXxAwait { xw_handshake : HandshakeState; xw_responder_key_id : KeyId }.
Definition server_xx_message1 (i : NoiseIdentity) (psk e : bytes) (frame : NoiseHandshake) :
    result NoiseError (ServerXxAwaitMessage3 * NoiseHandshake) :=
  _ ← check_psk psk;
  _ ← validate_handshake frame HXxPsk3;
  h ← snow_state Responder NOISE_XX_PSK3 (private_key i) None (Some psk) e;
  h ← read_handshake h (nh_payload frame);
  '(second, h) ← write_handshake h HXxPsk3 (Some (identity_key_id i));
  Ok (mkXxAwait h (identity_key_id i), second).
Definition server_xx_message3 (w : ServerXxAwaitMessage3) (frame : NoiseHandshake) : result NoiseError EstablishedNoise :=
  _ ← validate_handshake frame HXxPsk3;
  h ← map_err (λ _, AuthenticationFailed) (read_handshake (xw_handshake w) (nh_payload frame));
  finish h ModeRegistrationXxPsk3 (xw_responder_key_id w).
Definition server_ik_message1 (i : NoiseIdentity) (e : bytes) (frame : NoiseHandshake) :
    result NoiseError (EstablishedNoise * NoiseHandshake) :=
  _ ← validate_handshake frame HIk;
  if bool_decide (nh_responder_key_id frame ≠ identity_key_id i) then Err UnknownKeyId else
  h ← snow_state Responder NOISE_IK (private_key i) None None e;
  h ← read_handshake h (nh_payload frame);
  '(second, h) ← write_handshake h HIk (Some (identity_key_id i));
  established ← finish h ModeAuthenticatedIk (identity_key_id i);
  Ok (established, second).

(** ** The acceptor of the Server *)

(** [TransportError::protocol_error]: code and text of the error sent outside the session. *)
Definition protocol_error (x : TransportError) : Z * string :=
  match x with
  | TTimeout _ => (3, "Noise handshake timed out")
  | TClosed => (1, "Noise handshake ended before completion")
  | TUnknownKeyId => (5, "Server key ID is not active")
  | TNoise (AuthenticationFailed | Crypto _) => (4, "Noise authentication failed")
  | TProtocol _ | TNoise _ => (1, "Noise protocol failed")
  | _ => (0, "Noise protocol failed")
  end%string.

Definition server_next_handshake (i : Inbound) : result TransportError NoiseHandshake :=
  match i with
  | InIdle => Err (TTimeout "waiting for handshake frame")
  | InError code => Err (TStatus code)
  | InEnd => Err TClosed
  | InFrame (FHandshake h) => Ok h
  | InFrame _ => Err (TProtocol "expected handshake frame")
  end.

Record ServerPendingSession : Type := mkPendingSession {
  pg_mode : HandshakeMode;
  pg_registration_token_id : option bytes;
  pg_peer_public_key : NoisePublicKey;
  pg_session : TonicNoiseSession;
}.
Inductive IncomingSession : Type :=
| Registration (token_id : bytes) (peer : NoisePublicKey) (session : TonicNoiseSession)
| Authentication (peer : NoisePublicKey) (session : TonicNoiseSession).
Definition into_incoming (p : ServerPendingSession) : result TransportError IncomingSession :=
  match pg_mode p with
  | ModeRegistrationXxPsk3 =>
      token_id ← ok_or (TProtocol "registration Token ID is missing") (pg_registration_token_id p);
      Ok (Registration token_id (pg_peer_public_key p) (pg_session p))
  | ModeAuthenticatedIk => Ok (Authentication (pg_peer_public_key p) (pg_session p))
  end.

(** What the acceptor has: its keys, the resolver of pre-shared keys ([None]: not before the
    deadline), the drawn ephemeral secret, whether the stream takes a frame, the clock. *)
Record Acceptor : Type := mkAcceptor {
  ac_ring : ServerKeyRingSnapshot;
  ac_resolve : bytes → option (result TransportError bytes);
  ac_ephemeral : bytes;
  ac_open : bool;
  ac_now : Z;
}.
Definition send_handshake (ac : Acceptor) (h : NoiseHandshake) : result TransportError ProtocolFrame :=
  if ac_open ac then Ok (FHandshake h) else Err TClosed.

(** [accept_xxpsk3] up to its wait for the third message, and [accept_ik]. *)
Definition accept_xxpsk3 (ac : Acceptor) (first : NoiseHandshake) : result TransportError (ServerXxAwaitMessage3 * ProtocolFrame) :=
  _ ← validate_registration_token_id (nh_registration_token_id first);
  resolved ← ok_or (TTimeout "resolving registration PSK") (ac_resolve ac (nh_registration_token_id first));
  psk ← resolved;
  i ← ok_or (TProtocol "Server keyring is empty") (head (ring_active_keys (ac_ring ac)));
  '(waiting, second) ← map_err TNoise (server_xx_message1 i psk (ac_ephemeral ac) first);
  sent ← send_handshake ac second;
  Ok (waiting, sent).
Definition accept_ik (ac : Acceptor) (first : NoiseHandshake) : result TransportError (EstablishedNoise * ProtocolFrame) :=
  id ← map_err TNoise (key_id_from_bytes (nh_responder_key_id first));
  i ← ok_or TUnknownKeyId (ring_find_active id (ac_ring ac));
  '(established, second) ← map_err TNoise (server_ik_message1 i (ac_ephemeral ac) first);
  sent ← send_handshake ac second;
  Ok (established, sent).

(** The end of [accept_session_with_psk_resolver]. *)
Definition pending_session (ac : Acceptor) (token_id : bytes) (x : EstablishedNoise) : ServerPendingSession :=
  mkPendingSession (es_mode x) (if bool_decide (es_mode x = ModeRegistrationXxPsk3) then Some token_id else None)
    (es_remote x) (session_new (es_session x) Responder (ac_now ac)).

(** [accept_session_with_psk_resolver]: from the first frame to a session or to the wait
    for the third message; the frame is what the Agent receives. *)
Inductive Accepting : Type :=
| AcceptDone (p : ServerPendingSession)
| AwaitMessage3 (w : ServerXxAwaitMessage3) (token_id : bytes).
Definition accept_first (ac : Acceptor) (i : Inbound) : result TransportError (Accepting * ProtocolFrame) :=
  first ← server_next_handshake i;
  kind ← ok_or (TProtocol "unknown handshake type") (handshake_type_try_from (nh_type first));
  match kind with
  | HXxPsk3 => '(waiting, second) ← accept_xxpsk3 ac first;
      Ok (AwaitMessage3 waiting (nh_registration_token_id first), second)
  | HIk => '(established, second) ← accept_ik ac first;
      Ok (AcceptDone (pending_session ac (nh_registration_token_id first) established), second)
  | HUnspecified => Err (TProtocol "handshake type is required")
  end.
Definition accept_third (ac : Acceptor) (w : ServerXxAwaitMessage3) (token_id : bytes) (i : Inbound) :
    result TransportError ServerPendingSession :=
  third ← server_next_handshake i;
  established ← map_err TNoise (server_xx_message3 w third);
  Ok (pending_session ac token_id established).

(** [run_session_worker]: a failed handshake is answered outside the session. *)
Definition refusal (x : TransportError) : ProtocolFrame := FProtocolError (protocol_error x).1 (protocol_error x).2.
Definition worker_reply (ac : Acceptor) (i : Inbound) : Inbound :=
  match accept_first ac i with
  | Ok (_, second) => InFrame second
  | Err x => InFrame (refusal x)
  end.

(** ** The Agent *)

Definition client_next_handshake (i : Inbound) : result TransportError NoiseHandshake :=
  match i with
  | InIdle => Err (TTimeout "waiting for handshake frame")
  | InError code => Err (TStatus code)
  | InEnd => Err TClosed
  | InFrame (FHandshake h) => Ok h
  | InFrame (FProtocolError _ message) => Err (TRemoteProtocol message)
  | InFrame _ => Err (TProtocol "expected handshake frame")
  end.

(** [AgentProtocolClient::connect_ik] and [open_registration_session]; [peer] is the RPC that
    [open] makes with its first frame and what arrives on it, [taken] whether the request
    stream takes the third message. *)
Definition connect_ik (peer : NoiseHandshake → result TransportError Inbound) (now : Z) (i : NoiseIdentity)
    (server_key : NoisePublicKey) (e : bytes) : result TransportError TonicNoiseSession :=
  '(waiting, first) ← map_err TNoise (client_ik_start i server_key e);
  inbound ← peer first;
  second ← client_next_handshake inbound;
  established ← map_err TNoise (client_ik_message2 waiting second);
  Ok (session_new (es_session established) Initiator now).
Definition open_registration_session (peer : NoiseHandshake → result TransportError Inbound) (taken : bool) (now : Z)
    (i : NoiseIdentity) (psk token_id e : bytes) : result TransportError (TonicNoiseSession * NoisePublicKey * NoiseHandshake) :=
  '(waiting, first) ← map_err TNoise (client_xx_start i psk e);
  let first := mkHandshake (nh_type first) (nh_responder_key_id first) (nh_payload first) token_id in
  inbound ← peer first;
  second ← client_next_handshake inbound;
  '(established, third) ← map_err TNoise (client_xx_message2 waiting second);
  if (taken : bool) then Ok (session_new (es_session established) Initiator now, es_remote established, third) else Err TClosed.

(** ** IK *)

#[local] Arguments ring_find_active : simpl never.

Context `{HB : !Blake2sLaws B} `{HL : !SnowHandshakeLaws SH}.

(** An identity as [NoiseIdentity::generate] makes it. *)
Record well_keyed (i : NoiseIdentity) : Prop := {
  wk_private : is_key (private_key i);
  wk_public : public_key i = dh_public (private_key i);
  wk_id : is_key (identity_key_id i);
}.
Record well_equipped (ac : Acceptor) : Prop := {
  we_ring j : j ∈ ring_active_keys (ac_ring ac) → well_keyed j;
  we_ephemeral : is_key (ac_ephemeral ac);
  we_open : ac_open ac = true;
}.

Lemma validate_noise_frame k id m : validate_handshake (noise_frame k id m) k = Ok tt.
Proof. destruct k; unfold validate_handshake; cbn; by decide_true. Qed.
Lemma validate_Ok frame k : validate_handshake frame k = Ok tt → handshake_type_try_from (nh_type frame) = Some k.
Proof. unfold validate_handshake. intros H. inv_result. by case_bool_decide; subst. Qed.
Lemma key_id_32 b : is_key b → key_id_from_bytes b = Ok b.
Proof. intros. unfold key_id_from_bytes. by decide_true. Qed.
Lemma public_key_32 b : is_key b → public_key_from_bytes b = Ok b.
Proof. intros. unfold public_key_from_bytes. by decide_true. Qed.
Lemma well_keyed_public i : well_keyed i → is_key (public_key i).
Proof. intros [H1 H2 _]. rewrite H2. by apply dh_public_key. Qed.

Lemma client_ik_start_eq i key e m1 h : ik_first (private_key i) key e = Some (m1, h) →
  client_ik_start i key e = Ok (mkIkAwait h key, noise_frame HIk (Some (key_id key)) m1).
Proof.
  unfold ik_first, client_ik_start, snow_state, write_handshake. destruct (snow_build _ _ _ _ _ _) as [h0|]; [|done].
  cbn. intros ->. done.
Qed.
Lemma client_ik_start_Ok i key e w first : client_ik_start i key e = Ok (w, first) →
  ∃ m1 h, ik_first (private_key i) key e = Some (m1, h) ∧ w = mkIkAwait h key ∧ first = noise_frame HIk (Some (key_id key)) m1.
Proof.
  unfold ik_first, client_ik_start, snow_state, write_handshake. destruct (snow_build _ _ _ _ _ _) as [h0|]; [|done].
  cbn. destruct (hs_write h0) as [[m h]|]; [|done]. cbn. intros [= <- <-]. eauto.
Qed.
Lemma finish_Ok h mode id x : finish h mode id = Ok x → ∃ k a b, hs_remote_static h = Some k ∧ is_key k ∧ hs_split h = Some (a, b) ∧
  x = mkEstablished (secure_new a b) mode k id.
Proof.
  unfold finish, remote_key, into_transport_mode, public_key_from_bytes. destruct (hs_remote_static h) as [k|]; [|done]. cbn.
  case_bool_decide; [|done]. cbn. destruct (hs_split h) as [[a b]|]; [|done]. cbn. intros [= <-]. eauto 10.
Qed.
Lemma server_ik_Ok i e frame x second : server_ik_message1 i e frame = Ok (x, second) →
  ∃ m2 h, ik_second (private_key i) e (nh_payload frame) = Some (m2, h) ∧ nh_responder_key_id frame = identity_key_id i ∧
    handshake_type_try_from (nh_type frame) = Some HIk ∧
    finish h ModeAuthenticatedIk (identity_key_id i) = Ok x ∧ second = noise_frame HIk (Some (identity_key_id i)) m2.
Proof.
  unfold server_ik_message1, snow_state, read_handshake, write_handshake, ik_second. destruct (validate_handshake _ _) as [[]|] eqn:Ev; [|done].
  apply validate_Ok in Ev. cbn. case_bool_decide as Hid; [done|]. destruct (decide (nh_responder_key_id frame = identity_key_id i)); [|done].
  destruct (snow_build _ _ _ _ _ _) as [h0|]; [|done]. cbn. destruct (hs_read h0 _) as [h1|]; [|done]. cbn.
  destruct (hs_write h1) as [[m2 h2]|]; [|done]. cbn. destruct (finish _ _ _) as [y|] eqn:Ef; [|done]. cbn. intros [= <- <-].
  exists m2, h2. by rewrite Ef.
Qed.
Lemma server_ik_eq i e m1 m2 h k a b : ik_second (private_key i) e m1 = Some (m2, h) → hs_remote_static h = Some k → is_key k →
  hs_split h = Some (a, b) → server_ik_message1 i e (noise_frame HIk (Some (identity_key_id i)) m1) =
  Ok (mkEstablished (secure_new a b) ModeAuthenticatedIk k (identity_key_id i), noise_frame HIk (Some (identity_key_id i)) m2).
Proof.
  unfold server_ik_message1, snow_state, read_handshake, write_handshake, ik_second. intros H Hk Hlen Hs. rewrite validate_noise_frame. cbn.
  rewrite bool_decide_eq_false_2 by tauto. destruct (snow_build _ _ _ _ _ _) as [h0|]; [|done]. cbn in *.
  destruct (hs_read h0 _) as [h1|]; [|done]. cbn in *. rewrite H. cbn. unfold finish, remote_key, into_transport_mode.
  by rewrite Hk, Hs; cbn; rewrite public_key_32.
Qed.

(** Both ends of a session: the keys cross, and the Server knows whose it is. *)
Definition opened (ac : Acceptor) (now : Z) (mode : HandshakeMode) (token_id : option bytes) (peer : NoisePublicKey)
    (s : TonicNoiseSession) (p : ServerPendingSession) : Prop :=
  ∃ a b, s = session_new (secure_new a b) Initiator now ∧
    p = mkPendingSession mode token_id peer (session_new (secure_new b a) Responder (ac_now ac)).

(** The Server behind the network that delivers every frame. *)
Definition direct (ac : Acceptor) : NoiseHandshake → result TransportError Inbound :=
  λ f, Ok (worker_reply ac (InFrame (FHandshake f))).

Lemma ring_find_public ring key i : ring_find_active (key_id key) ring = Some i → i ∈ ring_active_keys ring ∧ public_key i = key.
Proof. intros [Hin H]%find_decide_Some. unfold identity_key_id, key_id in H. by apply blake2s_inj in H. Qed.

Lemma accept_ik_eq ac first i x second : handshake_type_try_from (nh_type first) = Some HIk → is_key (nh_responder_key_id first) →
  ring_find_active (nh_responder_key_id first) (ac_ring ac) = Some i → server_ik_message1 i (ac_ephemeral ac) first = Ok (x, second) →
  ac_open ac = true →
  accept_first ac (InFrame (FHandshake first)) = Ok (AcceptDone (pending_session ac (nh_registration_token_id first) x), FHandshake second).
Proof.
  intros Hk Hid Hf Hs Ho. unfold accept_first. cbn. rewrite Hk. cbn. unfold accept_ik, send_handshake.
  rewrite key_id_32 by done. cbn. rewrite Hf. cbn. by rewrite Hs; cbn; rewrite Ho.
Qed.

(** Every way the acceptor answers a first frame with a handshake frame. *)
Lemma accept_first_Ok ac f acc reply : accept_first ac (InFrame f) = Ok (acc, reply) → ∃ h second, f = FHandshake h ∧ reply = FHandshake second ∧
  ((∃ j psk w, validate_registration_token_id (nh_registration_token_id h) = Ok tt ∧ ac_resolve ac (nh_registration_token_id h) = Some (Ok psk) ∧
      head (ring_active_keys (ac_ring ac)) = Some j ∧ server_xx_message1 j psk (ac_ephemeral ac) h = Ok (w, second) ∧
      acc = AwaitMessage3 w (nh_registration_token_id h)) ∨
   (∃ j x, j ∈ ring_active_keys (ac_ring ac) ∧ server_ik_message1 j (ac_ephemeral ac) h = Ok (x, second) ∧
      acc = AcceptDone (pending_session ac (nh_registration_token_id h) x))).
Proof.
  unfold accept_first, accept_xxpsk3, accept_ik, send_handshake. destruct f as [h| | |]; [|done..]. cbn.
  destruct (handshake_type_try_from (nh_type h)) as [[]|]; [done| | |done]; cbn.
  - destruct (validate_registration_token_id _) as [[]|] eqn:Ev; [|done]. cbn. destruct (ac_resolve ac _) as [[psk|]|] eqn:Er; [|done..]. cbn.
    destruct (server_xx_message1 _ _ _ _) as [[w second]|] eqn:Es; [|done]. cbn. destruct (ac_open ac); [|done]. cbn. intros [= <- <-].
    exists h, second. split; [done|]. split; [done|]. left. eauto 10.
  - destruct (key_id_from_bytes _) as [id|]; [|done]. cbn. destruct (ring_find_active _ _) as [j|] eqn:Ef; [|done]. cbn.
    apply find_decide_Some in Ef as [Hj _].
    destruct (server_ik_message1 _ _ _) as [[x second]|] eqn:Es; [|done]. cbn. destruct (ac_open ac); [|done]. cbn. intros [= <- <-].
    exists h, second. split; [done|]. split; [done|]. right. eauto 10.
Qed.

Lemma server_xx_Ok i psk e frame w second : server_xx_message1 i psk e frame = Ok (w, second) → ∃ m2 h,
  xx_second (private_key i) psk e (nh_payload frame) = Some (m2, h) ∧ w = mkXxAwait h (identity_key_id i) ∧
  second = noise_frame HXxPsk3 (Some (identity_key_id i)) m2.
Proof.
  unfold server_xx_message1, check_psk, snow_state, read_handshake, write_handshake, xx_second. case_bool_decide; [|done]. cbn.
  destruct (validate_handshake _ _); [|done]. cbn. destruct (snow_build _ _ _ _ _ _) as [h0|]; [|done]. cbn.
  destruct (hs_read h0 _) as [h1|]; [|done]. cbn. destruct (hs_write h1) as [[m2 h]|]; [|done]. cbn. intros [= <- <-]. eauto.
Qed.
Lemma client_ik_message2_Ok w frame x : client_ik_message2 w frame = Ok x → handshake_type_try_from (nh_type frame) = Some HIk ∧
  ∃ h a b, hs_read (iw_handshake w) (nh_payload frame) = Some h ∧ hs_split h = Some (a, b) ∧ es_session x = secure_new a b.
Proof.
  unfold client_ik_message2, read_handshake, into_transport_mode. destruct (validate_handshake _ _) as [[]|] eqn:Ev; [|done].
  apply validate_Ok in Ev. cbn. destruct (key_id_from_bytes _) as [id|]; [|done]. cbn. case_bool_decide; [done|].
  destruct (hs_read _ _) as [h|]; [|done]. cbn. destruct (hs_split h) as [[a b]|] eqn:Es; [|done]. cbn. intros [= <-].
  split; [done|]. by exists h, a, b.
Qed.

Lemma client_ik_message2_eq h key m2 h' a b : is_key (key_id key) → hs_read h m2 = Some h' → hs_split h' = Some (a, b) →
  client_ik_message2 (mkIkAwait h key) (noise_frame HIk (Some (key_id key)) m2) =
  Ok (mkEstablished (secure_new a b) ModeAuthenticatedIk key (key_id key)).
Proof.
  intros Hid Hread Hs. unfold client_ik_message2. rewrite validate_noise_frame. cbn. rewrite key_id_32 by done. cbn.
  rewrite bool_decide_eq_false_2 by tauto. unfold read_handshake. rewrite Hread. cbn. unfold into_transport_mode. by rewrite Hs.
Qed.

(** C10. An Agent that connects with a pinned Server key gets a session exactly when the
    Server's key ring has that key among its active keys: [serve], the answer the key
    rotation protocol is proved against, is what client, acceptor and ring do together.  On
    success the two sessions have crossing keys and generation 0, and the Server holds
    the public key of this Agent; otherwise the Agent reports the refusal of the Server. *)
Theorem ik_connection_refines_serve ac now i key e : well_equipped ac → well_keyed i → is_key key → is_key (key_id key) → is_key e →
  ∃ w first, client_ik_start i key e = Ok (w, first) ∧
  match serve (ac_ring ac) key with
  | Ok _ => ∃ s p second, connect_ik (direct ac) now i key e = Ok s ∧
      accept_first ac (InFrame (FHandshake first)) = Ok (AcceptDone p, second) ∧
      opened ac now ModeAuthenticatedIk None (public_key i) s p ∧ into_incoming p = Ok (Authentication (public_key i) (pg_session p))
  | Err x => connect_ik (direct ac) now i key e = Err x
  end.
Proof.
  intros [Hring He Ho] Hi Hkey Hid He'. destruct (ik_starts (private_key i) key e) as [[m1 hi] Hfirst]; [apply Hi|done|done|].
  pose proof (client_ik_start_eq _ _ _ _ _ Hfirst) as Hstart. eexists _, _. split; [exact Hstart|].
  unfold connect_ik. rewrite Hstart. cbn [map_err mbind result_bind direct]. unfold direct, worker_reply, serve.
  destruct (ring_find_active (key_id key) (ac_ring ac)) as [j|] eqn:Ef.
  - destruct (ring_find_public _ _ _ Ef) as [Hj Hpub]. decide_true. specialize (Hring j Hj).
    assert (key = dh_public (private_key j)) as Hdh by (rewrite <-Hpub; apply Hring).
    rewrite Hdh in Hfirst. destruct (ik_completes _ _ _ _ _ _ Hfirst (wk_private _ Hring) He) as (m2 & hr & hi' & a & b & Hsec & Hread & Hrs & Hsi & Hsr).
    assert (is_key (public_key i)) as Hpi by by apply well_keyed_public. rewrite <-(wk_public _ Hi) in Hrs.
    pose proof (server_ik_eq j _ _ _ _ _ _ _ Hsec Hrs Hpi Hsr) as Hserver. unfold identity_key_id in Hserver. rewrite Hpub in Hserver.
    pose proof (accept_ik_eq ac (noise_frame HIk (Some (key_id key)) m1) j _ _ eq_refl Hid Ef Hserver Ho) as Hacc. rewrite Hacc.
    cbn [mbind result_bind client_next_handshake]. erewrite client_ik_message2_eq by done. cbn. do 3 eexists. split; [done|]. split; [done|].
    split; [|done]. exists a, b. done.
  - unfold accept_first, accept_ik. cbn. rewrite key_id_32 by done. cbn. by rewrite Ef.
Qed.

(** C11. An Agent that completes an IK handshake has a partner.  Suppose the frame that
    answered it was made by some Server, with any key ring and out of any first frame that
    the network showed it (replayed, or of another Agent).  If the Agent accepts
    it, then the Server had this Agent's own first message, its ring has the pinned key active, it
    holds a session of this Agent's public key, and the keys of the two sessions cross. *)
Theorem ik_agreement ac now i key e w first f' acc reply s :
  well_keyed i → (∀ j, j ∈ ring_active_keys (ac_ring ac) → well_keyed j) → is_key (ac_ephemeral ac) →
  client_ik_start i key e = Ok (w, first) → accept_first ac (InFrame f') = Ok (acc, reply) →
  connect_ik (λ _, Ok (InFrame reply)) now i key e = Ok s →
  ∃ h p, f' = FHandshake h ∧ nh_payload h = nh_payload first ∧ acc = AcceptDone p ∧ key ∈ active (ac_ring ac) ∧
    opened ac now ModeAuthenticatedIk None (public_key i) s p.
Proof.
  intros Hi Hring He Hstart Hacc. unfold connect_ik. rewrite Hstart. cbn. intros Hc.
  destruct (client_ik_start_Ok _ _ _ _ _ Hstart) as (m1 & hi & Hfirst & -> & ->). clear Hstart.
  destruct (accept_first_Ok _ _ _ _ Hacc) as (h & second & -> & -> & [(j & psk & w & _ & _ & _ & Hx & ->)|(j & x & Hj & Hx & ->)]).
  { apply server_xx_Ok in Hx as (m2 & hr & _ & _ & ->). cbn in Hc. by inv_result. }
  destruct (server_ik_Ok _ _ _ _ _ Hx) as (m2 & hr & Hsec & _ & _ & Hfin & ->). cbn [mbind result_bind client_next_handshake] in Hc.
  destruct (client_ik_message2 _ _) as [y|] eqn:Ey; [|done]. injection Hc as <-.
  apply client_ik_message2_Ok in Ey as (_ & hi' & a & b & Hread & Hsi & ->). cbn in Hread.
  pose proof (ik_transcript _ _ _ _ _ _ _ _ _ _ _ Hfirst Hsec Hread) as Hm. rewrite Hm in Hsec.
  assert (dh_public (private_key j) = key) as Hdh by (eapply ik_pinned; [exact Hfirst|exact Hsec]). rewrite <-Hdh in Hfirst.
  destruct (ik_completes _ _ _ _ _ _ Hfirst (wk_private _ (Hring j Hj)) He) as (m2' & hr' & hi'' & a' & b' & Hsec' & Hread' & Hrs & Hsi' & Hsr).
  rewrite Hsec' in Hsec. simplify_eq. exists h. eexists. split; [done|]. split; [done|]. split; [done|]. split.
  { rewrite <-(wk_public _ (Hring j Hj)). exact (list_elem_of_fmap_2 public_key _ _ Hj). }
  apply finish_Ok in Hfin as (k & b' & a' & Hk & _ & Hs & ->). exists a, b. rewrite Hrs in Hk. rewrite Hsr in Hs. simplify_eq. split; [done|].
  unfold pending_session. cbn. by rewrite (wk_public _ Hi).
Qed.

(** ** XXpsk3 *)

(** The first frame of a registration: message 1 with the public id of the token. *)
Definition registration_frame (token_id m1 : bytes) : NoiseHandshake :=
  mkHandshake (handshake_type_number HXxPsk3) [] m1 token_id.

Lemma check_psk_32 psk : is_key psk → check_psk psk = Ok tt.
Proof. intros H. unfold check_psk. by decide_true. Qed.
Lemma client_xx_start_eq i psk e m1 h : is_key psk → xx_first (private_key i) psk e = Some (m1, h) →
  client_xx_start i psk e = Ok (h, noise_frame HXxPsk3 None m1).
Proof.
  intros Hpsk. unfold xx_first, client_xx_start, snow_state, write_handshake. rewrite check_psk_32 by done.
  destruct (snow_build _ _ _ _ _ _) as [h0|]; [|done]. cbn. intros ->. done.
Qed.
Lemma server_xx_eq i psk e m1 token_id m2 h : is_key psk → xx_second (private_key i) psk e m1 = Some (m2, h) →
  server_xx_message1 i psk e (registration_frame token_id m1) =
  Ok (mkXxAwait h (identity_key_id i), noise_frame HXxPsk3 (Some (identity_key_id i)) m2).
Proof.
  intros Hpsk. unfold server_xx_message1, snow_state, read_handshake, write_handshake, xx_second. rewrite check_psk_32 by done. cbn.
  destruct (snow_build _ _ _ _ _ _) as [h0|]; [|done]. cbn. destruct (hs_read h0 m1) as [h1|]; [|done]. cbn. intros ->. done.
Qed.
Lemma client_xx_message2_eq h m2 h1 k m3 h2 a b : is_key k → is_key (key_id k) → hs_read h m2 = Some h1 → hs_remote_static h1 = Some k →
  hs_write h1 = Some (m3, h2) → hs_split h2 = Some (a, b) →
  client_xx_message2 h (noise_frame HXxPsk3 (Some (key_id k)) m2) =
  Ok (mkEstablished (secure_new a b) ModeRegistrationXxPsk3 k (key_id k), noise_frame HXxPsk3 (Some (key_id k)) m3).
Proof.
  intros Hk Hid Hread Hrs Hw Hs. unfold client_xx_message2, read_handshake, remote_key, write_handshake, into_transport_mode.
  rewrite validate_noise_frame. cbn. rewrite Hread. cbn. rewrite Hrs. cbn. rewrite public_key_32 by done. cbn.
  assert (key_id k ≠ []) by (intros E; rewrite E in Hid; done). rewrite bool_decide_eq_false_2 by done.
  rewrite key_id_32 by done. cbn. rewrite bool_decide_eq_false_2 by tauto. cbn. rewrite Hw. cbn. by rewrite Hs.
Qed.
Lemma server_xx_message3_Ok w frame x : server_xx_message3 w frame = Ok x → ∃ h, hs_read (xw_handshake w) (nh_payload frame) = Some h ∧
  finish h ModeRegistrationXxPsk3 (xw_responder_key_id w) = Ok x.
Proof.
  unfold server_xx_message3, read_handshake. destruct (validate_handshake _ _); [|done]. cbn. destruct (hs_read _ _) as [h|]; [|done].
  cbn. eauto.
Qed.


(** The third message at the Server: it opens the session when it can be read. *)
Lemma accept_third_eq ac w token_id m3 k : accept_third ac w token_id (InFrame (FHandshake (noise_frame HXxPsk3 (Some k) m3))) =
  match hs_read (xw_handshake w) m3 with
  | None => Err (TNoise AuthenticationFailed)
  | Some h => x ← map_err TNoise (finish h ModeRegistrationXxPsk3 (xw_responder_key_id w)); Ok (pending_session ac token_id x)
  end.
Proof.
  unfold accept_third, server_xx_message3, read_handshake. cbn [server_next_handshake mbind result_bind].
  rewrite validate_noise_frame. cbn. by destruct (hs_read _ _).
Qed.

(** The first registration.  The stream opens for the Agent exactly when its token id is
    well formed and the Server has a pre-shared key for it, and the Agent then holds
    the current key of the Server's ring.  The Server completes when the two pre-shared keys are
    the same, with crossing keys, the Agent's public key and the token id of the first
    frame; with another key it stops at the third message.  Every other outcome is
    a remote protocol error at the Agent, which it does not retry, also when the Server
    was only late or its database failed. *)
Theorem registration_session_opens ac now i psk token_id e :
  well_equipped ac → well_keyed i → is_key psk → is_key e → (∀ p, ac_resolve ac token_id = Some (Ok p) → is_key p) →
  let r := open_registration_session (direct ac) true now i psk token_id e in
  match validate_registration_token_id token_id, ac_resolve ac token_id with
  | Ok _, Some (Ok psk') => ∃ h first w second s third,
      client_xx_start i psk e = Ok (h, first) ∧
      accept_first ac (InFrame (FHandshake (registration_frame token_id (nh_payload first)))) = Ok (AwaitMessage3 w token_id, second) ∧
      r = Ok (s, public_key (kr_current (ac_ring ac)), third) ∧
      if decide (psk = psk') then ∃ p, accept_third ac w token_id (InFrame (FHandshake third)) = Ok p ∧
        opened ac now ModeRegistrationXxPsk3 (Some token_id) (public_key i) s p ∧
        into_incoming p = Ok (Registration token_id (public_key i) (pg_session p))
      else accept_third ac w token_id (InFrame (FHandshake third)) = Err (TNoise AuthenticationFailed)
  | _, _ => ∃ message, r = Err (TRemoteProtocol message) ∧ is_retryable (CTransport (TRemoteProtocol message)) = false
  end.
Proof.
  intros [Hring He Ho] Hi Hpsk He' Hres r. subst r. destruct (xx_starts (private_key i) psk e) as [[m1 hi] Hfirst]; [apply Hi|done|done|].
  pose proof (client_xx_start_eq _ _ _ _ _ Hpsk Hfirst) as Hstart. unfold open_registration_session. rewrite Hstart.
  cbn [map_err mbind result_bind]. unfold direct, worker_reply.
  change (mkHandshake _ _ _ _) with (registration_frame token_id m1).
  destruct (validate_registration_token_id token_id) as [[]|x] eqn:Ev.
  2: { unfold accept_first, accept_xxpsk3. cbn. rewrite Ev. cbn. eexists. split; [reflexivity|done]. }
  destruct (ac_resolve ac token_id) as [[psk'|x]|] eqn:Er.
  2,3: unfold accept_first, accept_xxpsk3; cbn; rewrite Ev; cbn; rewrite Er; cbn; eexists; split; [reflexivity|done].
  set (j := kr_current (ac_ring ac)). assert (well_keyed j) as Hj by (apply Hring, list_elem_of_here).
  destruct (xx_completes _ _ _ _ _ _ _ _ Hfirst (wk_private _ Hj) (Hres _ eq_refl) He)
    as (m2 & hr & hi1 & m3 & hi' & a & b & Hsec & Hread & Hrs & Hw & Hs & Hfin).
  rewrite <-(wk_public _ Hj) in Hrs.
  assert (accept_first ac (InFrame (FHandshake (registration_frame token_id m1))) = Ok (AwaitMessage3 (mkXxAwait hr (identity_key_id j)) token_id,
      FHandshake (noise_frame HXxPsk3 (Some (identity_key_id j)) m2))) as Hacc.
  { unfold accept_first, accept_xxpsk3, send_handshake. cbn. rewrite Ev. cbn. rewrite Er. cbn. fold j.
    rewrite (server_xx_eq _ _ _ _ _ _ _ (Hres _ eq_refl) Hsec). cbn. by rewrite Ho. }
  rewrite Hacc. cbn [mbind result_bind client_next_handshake]. unfold identity_key_id at 1.
  erewrite client_xx_message2_eq by (done || (by apply well_keyed_public) || apply (wk_id _ Hj)). cbn [map_err].
  do 6 eexists. split; [done|]. split; [exact Hacc|]. split; [done|]. rewrite accept_third_eq. cbn [xw_handshake xw_responder_key_id].
  destruct (decide (psk = psk')) as [->|Hne].
  - destruct (Hfin eq_refl) as (hr' & Hr & Hk & Hs'). rewrite Hr. unfold finish, remote_key, into_transport_mode. rewrite Hk, Hs'. cbn.
    rewrite <-(wk_public _ Hi), public_key_32 by (by apply well_keyed_public). cbn. eexists. split; [done|]. split; [|done]. by exists a, b.
  - destruct (hs_read hr m3) as [hr'|] eqn:Er3; [|done]. destruct Hne.
    assert (xx_third hi m2 = Some (m3, hi')) as Hthird by (unfold xx_third; by rewrite Hread).
    by destruct (xx_transcript _ _ _ _ _ _ _ _ _ _ _ _ _ _ Hfirst Hsec Hthird ltac:(by eexists)).
Qed.

(** C12. Only a holder of the token's pre-shared key gets a registration session.  Suppose
    the third message was made by some client, with any identity and pre-shared key and after any
    second message the network showed it.  If the Server accepts it, the client had
    the pre-shared key the Server has for the token, its handshake was with this
    Server run, and the session is bound to its public key and to the token id. *)
Theorem registration_session_authentic ac first w token_id second i psk e h m1 m2' m3 h' k p :
  (∀ j, j ∈ ring_active_keys (ac_ring ac) → well_keyed j) → is_key (ac_ephemeral ac) → well_keyed i →
  (∀ q, ac_resolve ac token_id = Some (Ok q) → is_key q) →
  accept_first ac (InFrame (FHandshake first)) = Ok (AwaitMessage3 w token_id, FHandshake second) →
  xx_first (private_key i) psk e = Some (m1, h) → xx_third h m2' = Some (m3, h') →
  accept_third ac w token_id (InFrame (FHandshake (noise_frame HXxPsk3 (Some k) m3))) = Ok p →
  ac_resolve ac token_id = Some (Ok psk) ∧ validate_registration_token_id token_id = Ok tt ∧
  nh_payload first = m1 ∧ nh_payload second = m2' ∧ pg_peer_public_key p = public_key i ∧ pg_registration_token_id p = Some token_id.
Proof.
  intros Hring He Hi Hres Hacc Hfirst Hthird Hp. destruct (accept_first_Ok _ _ _ _ Hacc) as (f & s' & [= <-] & [= <-] & [(j & q & w' & Hv & Hr & Hj & Hx & [= <- ->])|(j & x & _ & _ & [=])]).
  assert (j ∈ ring_active_keys (ac_ring ac)) as Hin by (cbn in Hj; injection Hj as <-; apply list_elem_of_here).
  destruct (server_xx_Ok _ _ _ _ _ _ Hx) as (m2 & hr & Hsec & -> & ->). rewrite accept_third_eq in Hp. cbn [xw_handshake xw_responder_key_id] in Hp.
  destruct (hs_read hr m3) as [hr'|] eqn:Er3; [|done].
  destruct (xx_transcript _ _ _ _ _ _ _ _ _ _ _ _ _ _ Hfirst Hsec Hthird ltac:(by eexists)) as (<- & Hm1 & ->). rewrite Hm1 in *.
  destruct (xx_completes _ _ _ _ _ _ _ _ Hfirst (wk_private _ (Hring j Hin)) (Hres _ Hr) He)
    as (m2b & hrb & hi1 & m3b & hib & a & b & Hsecb & Hread & _ & Hw & _ & Hfin).
  rewrite Hsecb in Hsec. injection Hsec as -> ->. unfold xx_third in Hthird. rewrite Hread in Hthird. cbn in Hthird. rewrite Hw in Hthird.
  injection Hthird as -> ->. destruct (Hfin eq_refl) as (hrc & Hrc & Hk & _). rewrite Er3 in Hrc. injection Hrc as ->.
  destruct (finish _ _ _) as [y|] eqn:Ef; [|done]. apply finish_Ok in Ef as (k' & c & d & Hk' & _ & _ & ->). rewrite Hk in Hk'. injection Hk' as <-.
  cbn in Hp. injection Hp as <-. cbn. rewrite (wk_public _ Hi). done.
Qed.

End Handshake.

(** ** A concrete handshake *)

(** Messages are lists of parts with their lengths; nothing is hidden, but a message names the
    key it is meant for, the messages before it and the pre-shared key, and is refused
    where they differ. *)
Fixpoint parts (l : list bytes) : bytes := match l with [] => [] | b :: l => zlen b :: b ++ parts l end.
Fixpoint unparts (n : nat) (b : bytes) : option (list bytes) :=
  match n, b with
  | O, [] => Some []
  | S n, l :: rest => cons (take (Z.to_nat l) rest) <$> unparts n (drop (Z.to_nat l) rest)
  | _, _ => None
  end.
Lemma unparts_parts l : unparts (length l) (parts l) = Some l.
Proof.
  induction l as [|b l IH]; [done|]. cbn. unfold zlen. rewrite Nat2Z.id, take_app_length, drop_app_length, IH. done.
Qed.

Record DemoState : Type := mkDemo {
  d_role : NoiseSessionRole;
  d_pattern : HandshakePattern;
  d_sk : bytes;
  d_psk : bytes;
  d_e : bytes;
  d_remote : option bytes;
  d_peer_e : bytes;
  d_log : list bytes;
}.
Definition demo_dh (sk : bytes) : bytes := (λ z, z - 128) <$> sk.
Definition demo_write (d : DemoState) : option (bytes * DemoState) :=
  let put m := Some (m, mkDemo (d_role d) (d_pattern d) (d_sk d) (d_psk d) (d_e d) (d_remote d) (d_peer_e d) (m :: d_log d)) in
  match d_role d, d_pattern d, d_log d with
  | Initiator, NOISE_IK, [] => put (parts [default [] (d_remote d); demo_dh (d_sk d); d_e d])
  | Responder, NOISE_IK, [m1] => put (parts [m1; d_e d])
  | Initiator, NOISE_XX_PSK3, [] => put (parts [d_e d])
  | Responder, NOISE_XX_PSK3, [m1] => put (parts [m1; demo_dh (d_sk d); d_e d])
  | Initiator, NOISE_XX_PSK3, [m2; m1] => put (parts [m2; demo_dh (d_sk d); d_psk d])
  | _, _, _ => None
  end.
Definition demo_read (d : DemoState) (c : bytes) : option DemoState :=
  let take remote e := Some (mkDemo (d_role d) (d_pattern d) (d_sk d) (d_psk d) (d_e d) remote e (c :: d_log d)) in
  match d_role d, d_pattern d, d_log d with
  | Responder, NOISE_IK, [] =>
      match unparts 3 c with
      | Some [k; s; e] => if decide (k = demo_dh (d_sk d)) then take (Some s) e else None
      | _ => None
      end
  | Initiator, NOISE_IK, [m1] =>
      match unparts 2 c with Some [m; e] => if decide (m = m1) then take (d_remote d) e else None | _ => None end
  | Responder, NOISE_XX_PSK3, [] => match unparts 1 c with Some [e] => take None e | _ => None end
  | Initiator, NOISE_XX_PSK3, [m1] =>
      match unparts 3 c with Some [m; s; e] => if decide (m = m1) then take (Some s) e else None | _ => None end
  | Responder, NOISE_XX_PSK3, [m2; _] =>
      match unparts 3 c with
      | Some [m; s; psk] => if decide (m = m2 ∧ psk = d_psk d) then take (Some s) (d_peer_e d) else None
      | _ => None
      end
  | _, _, _ => None
  end.
Definition demo_split (d : DemoState) : (Z * Z) * (Z * Z) := ((hd 0 (d_e d), 0), (hd 0 (d_peer_e d), 0)).

#[local] Existing Instance demo_snow.
#[local] Instance demo_handshake : SnowHandshake demo_snow := {|
  HandshakeState := DemoState;
  dh_public := demo_dh;
  snow_build role pattern sk remote psk e := Some (mkDemo role pattern sk (default [] psk) e remote [] []);
  hs_write := demo_write;
  hs_read := demo_read;
  hs_remote_static := d_remote;
  hs_split d := Some (demo_split d);
|}.
#[local] Arguments parts : simpl never.
#[local] Arguments unparts : simpl never.
#[local] Arguments demo_dh : simpl never.
Lemma unparts_1 a : unparts 1 (parts [a]) = Some [a].
Proof. apply (unparts_parts [a]). Qed.
Lemma unparts_2 a b : unparts 2 (parts [a; b]) = Some [a; b].
Proof. apply (unparts_parts [a; b]). Qed.
Lemma unparts_3 a b c : unparts 3 (parts [a; b; c]) = Some [a; b; c].
Proof. apply (unparts_parts [a; b; c]). Qed.
Ltac run_demo :=
  repeat (cbn in *; unfold demo_write, demo_read in *; rewrite ?unparts_1, ?unparts_2, ?unparts_3 in *; simplify_option_eq).
#[local] Instance demo_handshake_laws : SnowHandshakeLaws demo_handshake.
Proof.
  constructor; unfold ik_first, ik_second, xx_first, xx_second, xx_third.
  - intros sk H. unfold is_key, dh_public, demo_handshake, demo_dh. by rewrite length_fmap.
  - intros. eexists. reflexivity.
  - intros ski skr ei er m1 hi H _ _. run_demo. do 5 eexists. repeat (split; [run_demo; done|]). done.
  - intros ski skr k ei er m1 hi r H Hr. run_demo. done.
  - intros ski skr k ei er m1 m1' m2 hi hr hi' H Hr Hi. cbn in H. injection H as <- <-.
    cbn in Hr. unfold demo_read in Hr. cbn in Hr. destruct (unparts 3 m1') as [[|k' [|s [|e []]]]|]; try done. destruct (decide _) in Hr; [|done].
    cbn in Hr. injection Hr as <- <-. cbn in Hi. unfold demo_read in Hi. cbn in Hi. rewrite unparts_2 in Hi. by destruct (decide _).
  - intros. eexists. reflexivity.
  - intros ski skr pski pskr ei er m1 hi H _ _ _. run_demo. do 7 eexists. repeat (split; [run_demo; done|]). intros ->. run_demo. eauto 10.
  - intros ski skr pski pskr ei er m1 m1' m2 m2' m3 hi hr hi' H H2 H3 [hr' H4]. cbn in H. injection H as <- <-.
    cbn in H2. unfold demo_read in H2. cbn in H2. destruct (unparts 1 m1') as [[|e []]|]; try done. cbn in H2. injection H2 as <- <-.
    cbn in H3. unfold demo_read in H3. cbn in H3. destruct (unparts 3 m2') as [[|m [|s [|e' []]]]|] eqn:E2; try done.
    destruct (decide _) as [->|]; [|done]. cbn in H3. injection H3 as <- <-. cbn in H4. unfold demo_read in H4. cbn in H4.
    rewrite unparts_3 in H4. destruct (decide _) as [[-> ->]|]; [|done]. rewrite unparts_3 in E2. by simplify_eq.
Qed.

(** ** The theorems on concrete identities *)

(** An equation between closed terms, by evaluation in the kernel's virtual machine. *)
Ltac evaluate := lazymatch goal with |- ?a = ?b => exact (@eq_refl _ b <: a = b) end.

Definition demo_e (n : Z) : bytes := replicate KEY_LEN n.
(** A Server in the middle of a rotation that knows one token. *)
Definition demo_acceptor : Acceptor := {|
  ac_ring := mkKeyRing (demo_identity 2) (Some (demo_identity 3)) None (Some (demo_rotation_id 1));
  ac_resolve id := if decide (id = [97; 98]) then Some (Ok (demo_e 7)) else Some (Err (TProtocol "registration token is invalid"));
  ac_ephemeral := demo_e 200;
  ac_open := true;
  ac_now := 0;
|}.
Definition demo_ik_frame : NoiseHandshake :=
  noise_frame HIk (Some (demo_key 3)) (parts [demo_key 3; demo_key 1; demo_e 100]).
Definition demo_ik_reply : ProtocolFrame :=
  match accept_first demo_acceptor (InFrame (FHandshake demo_ik_frame)) with Ok (_, f) => f | Err _ => FEmpty end.

Lemma demo_well_keyed n : well_keyed (demo_identity n).
Proof.
  split; [done| |done]. change (demo_key n = (λ z, z - 128) <$> replicate KEY_LEN (n + 128)). rewrite fmap_replicate.
  unfold demo_key. f_equal. lia.
Qed.
Lemma demo_equipped : well_equipped demo_acceptor.
Proof. split; [|done|done]. intros j Hj. cbn in Hj. rewrite !elem_of_cons, elem_of_nil in Hj. destruct Hj as [->|[->|[]]]; apply demo_well_keyed. Qed.

Lemma demo_ik_start : snd <$> client_ik_start (demo_identity 1) (demo_key 3) (demo_e 100) = Ok demo_ik_frame.
Proof. evaluate. Qed.

Lemma ik_connection_refines_serve_witness : serve (ac_ring demo_acceptor) (demo_key 3) = Ok tt ∧
  serve (ac_ring demo_acceptor) (demo_key 9) ≠ Ok tt ∧
  (∃ s p second, connect_ik (direct demo_acceptor) 0 (demo_identity 1) (demo_key 3) (demo_e 100) = Ok s ∧
     accept_first demo_acceptor (InFrame (FHandshake demo_ik_frame)) = Ok (AcceptDone p, second) ∧
     opened demo_acceptor 0 ModeAuthenticatedIk None (demo_key 1) s p) ∧
  ∃ x, connect_ik (direct demo_acceptor) 0 (demo_identity 1) (demo_key 9) (demo_e 100) = Err x.
Proof.
  split; [evaluate|]. split; [vm_compute; done|]. split.
  - destruct (ik_connection_refines_serve (HB := demo_hash_laws) demo_acceptor 0 (demo_identity 1) (demo_key 3) (demo_e 100)
      demo_equipped (demo_well_keyed 1) eq_refl eq_refl eq_refl) as (w & first & Hs & Hm).
    pose proof demo_ik_start as Hd. rewrite Hs in Hd. injection Hd as ->.
    replace (serve _ _) with (Ok tt : result TransportError unit) in Hm by evaluate.
    destruct Hm as (s & p & second & H1 & H2 & H3 & _). exists s, p, second. done.
  - destruct (ik_connection_refines_serve (HB := demo_hash_laws) demo_acceptor 0 (demo_identity 1) (demo_key 9) (demo_e 100)
      demo_equipped (demo_well_keyed 1) eq_refl eq_refl eq_refl) as (w & first & _ & Hm).
    destruct (serve _ _) as [|x] eqn:E; [vm_compute in E; discriminate|]. exists x. exact Hm.
Defined.

Definition demo_state0 : DemoState := mkDemo Initiator NOISE_IK [] [] [] None [] [].
Definition demo_ik_accepting : Accepting :=
  match accept_first demo_acceptor (InFrame (FHandshake demo_ik_frame)) with Ok (a, _) => a | Err _ => AwaitMessage3 (mkXxAwait demo_state0 []) [] end.
Definition demo_ik_waiting : ClientIkAwaitMessage2 :=
  match client_ik_start (demo_identity 1) (demo_key 3) (demo_e 100) with Ok (w, _) => w | Err _ => mkIkAwait demo_state0 [] end.
Definition demo_ik_session : TonicNoiseSession := session_new (secure_new (100, 0) (200, 0)) Initiator 0.

Lemma demo_ik_connects :
  connect_ik (λ _, Ok (InFrame demo_ik_reply)) 0 (demo_identity 1) (demo_key 3) (demo_e 100) = Ok demo_ik_session.
Proof. evaluate. Qed.
Lemma demo_ik_starts : client_ik_start (demo_identity 1) (demo_key 3) (demo_e 100) = Ok (demo_ik_waiting, demo_ik_frame).
Proof. evaluate. Qed.
Lemma demo_ik_accepts : accept_first demo_acceptor (InFrame (FHandshake demo_ik_frame)) = Ok (demo_ik_accepting, demo_ik_reply).
Proof. evaluate. Qed.

Lemma ik_agreement_witness : connect_ik (λ _, Ok (InFrame demo_ik_reply)) 0 (demo_identity 1) (demo_key 3) (demo_e 100) = Ok demo_ik_session ∧
  ∃ p, demo_ik_accepting = AcceptDone p ∧ demo_key 3 ∈ active (ac_ring demo_acceptor) ∧
    opened demo_acceptor 0 ModeAuthenticatedIk None (public_key (demo_identity 1)) demo_ik_session p.
Proof.
  split; [exact demo_ik_connects|].
  destruct (ik_agreement demo_acceptor 0 _ _ _ _ _ _ _ _ _ (demo_well_keyed 1) (we_ring _ demo_equipped) eq_refl demo_ik_starts demo_ik_accepts demo_ik_connects)
    as (h & p & _ & _ & Hp & Hk & Ho).
  exists p. split; [exact Hp|]. split; [exact Hk|exact Ho].
Defined.

Lemma demo_psk_key id p : ac_resolve demo_acceptor id = Some (Ok p) → is_key p.
Proof. cbn. destruct (decide _); [|done]. intros [= <-]. done. Qed.

Lemma registration_session_opens_witness : ∃ s third w p,
  open_registration_session (direct demo_acceptor) true 0 (demo_identity 1) (demo_e 7) [97; 98] (demo_e 100) = Ok (s, demo_key 2, third) ∧
  accept_third demo_acceptor w [97; 98] (InFrame (FHandshake third)) = Ok p ∧
  opened demo_acceptor 0 ModeRegistrationXxPsk3 (Some [97; 98]) (demo_key 1) s p.
Proof.
  pose proof (registration_session_opens demo_acceptor 0 (demo_identity 1) (demo_e 7) [97; 98] (demo_e 100)
    demo_equipped (demo_well_keyed 1) eq_refl eq_refl (demo_psk_key _)) as H. cbv zeta in H.
  replace (validate_registration_token_id _) with (Ok tt : result TransportError unit) in H by evaluate.
  change (ac_resolve demo_acceptor [97; 98]) with (Some (Ok (demo_e 7) : result TransportError bytes)) in H.
  destruct H as (h & first & w & second & s & third & _ & _ & Hr & Hp). rewrite decide_True in Hp by done.
  destruct Hp as (p & Hp & Ho & _). exists s, third, w, p. split; [exact Hr|]. split; [exact Hp|exact Ho].
Defined.

Definition demo_xx : bytes * DemoState := default ([], demo_state0) (xx_first (private_key (demo_identity 1)) (demo_e 7) (demo_e 100)).
Definition demo_xx_accepted : ServerXxAwaitMessage3 * NoiseHandshake :=
  match accept_first demo_acceptor (InFrame (FHandshake (registration_frame [97; 98] demo_xx.1))) with
  | Ok (AwaitMessage3 w _, FHandshake second) => (w, second)
  | _ => (mkXxAwait demo_state0 [], demo_ik_frame)
  end.
Definition demo_xx_third : bytes * DemoState := default ([], demo_state0) (xx_third demo_xx.2 (nh_payload demo_xx_accepted.2)).
Definition demo_xx_pending : ServerPendingSession :=
  mkPendingSession ModeRegistrationXxPsk3 (Some [97; 98]) (demo_key 1) (session_new (secure_new (200, 0) (100, 0)) Responder 0).

Lemma registration_session_authentic_witness :
  accept_third demo_acceptor demo_xx_accepted.1 [97; 98] (InFrame (FHandshake (noise_frame HXxPsk3 (Some []) demo_xx_third.1))) = Ok demo_xx_pending ∧
  ac_resolve demo_acceptor [97; 98] = Some (Ok (demo_e 7)) ∧ pg_peer_public_key demo_xx_pending = demo_key 1.
Proof.
  assert (accept_third demo_acceptor demo_xx_accepted.1 [97; 98] (InFrame (FHandshake (noise_frame HXxPsk3 (Some []) demo_xx_third.1)))
    = Ok demo_xx_pending) as Hp by evaluate.
  split; [exact Hp|].
  assert (accept_first demo_acceptor (InFrame (FHandshake (registration_frame [97; 98] demo_xx.1))) =
    Ok (AwaitMessage3 demo_xx_accepted.1 [97; 98], FHandshake demo_xx_accepted.2)) as Ha by evaluate.
  assert (xx_first (private_key (demo_identity 1)) (demo_e 7) (demo_e 100) = Some (demo_xx.1, demo_xx.2)) as Hf by evaluate.
  assert (xx_third demo_xx.2 (nh_payload demo_xx_accepted.2) = Some (demo_xx_third.1, demo_xx_third.2)) as Ht by evaluate.
  destruct (registration_session_authentic demo_acceptor _ _ _ _ _ _ _ _ _ _ _ _ _ _ (we_ring _ demo_equipped) eq_refl (demo_well_keyed 1)
    (demo_psk_key _) Ha Hf Ht Hp) as (H1 & _ & _ & _ & H2 & _).
  split; [exact H1|exact H2].
Defined.
