(* ===== verification/Enrollment.v ===== *)
(** * The first registration over its session

    The four messages that register an Agent: [receive_registration_request] to
    [send_registration_committed] of [tonic_transport/server.rs], the Agent's
    [send_registration_request] and [send_registration_commit_and_receive_committed] of
    [tonic_transport/client.rs], and [handle_registration_session] of the Server's
    [service/agent/transport/session/registration.rs], with [handle_authorization_session]
    of [authorization.rs] for the sessions that follow.

    A handler that waits for a message is cut at its waits: each part takes what
    [session.receive()] returned and gives the message sent and where the handler goes on.
    The two ends run in a world of many sessions of many Agents over the tables of
    [Registration]; [NoiseSync] and [Handshake] give what is assumed of a session here,
    ordered messages and a peer that is who its public key says. *)

From stdpp Require Import base gmap strings list.
From S2P Require Import Prelude Rotation Credential AgentState Registration NoiseSession.

(** ** Messages *)

Inductive RegistrationMessage : Type :=
| RRequest (token : bytes)
| RPrepared (registration_id agent_id : bytes)
| RCommit (registration_id : bytes)
| RCommitted (registration_id : bytes).

(** [prost] on [RegistrationMessage]. *)
Class RegistrationCodec : Type := {
  encode_registration : RegistrationMessage → bytes;
  decode_registration : bytes → option RegistrationMessage;
}.
Class RegistrationCodecLaws (RC : RegistrationCodec) : Prop :=
  decode_registration_encode m : decode_registration (encode_registration m) = Some m.

(** [SecureErrorCode as i32]. *)
Definition secure_code (c : SecureErrorCode) : Z :=
  match c with
  | Unspecified => 0 | InvalidToken => 1 | TokenAlreadyUsed => 2 | AgentNotAuthorized => 3 | AgentAlreadyRegistered => 4
  | InvalidMessage => 5 | RotationConflict => 6 | RotationIdMismatchCode => 7 | InvalidRotationState => 8 | Internal => 9
  | ResourceExhausted => 10
  end.
Definition secure_error (c : SecureErrorCode) (text : string) : SecureMessage := Some (BError (secure_code c) text).

(** What [session.receive()] returned; [None]: nothing before the deadline. *)
Definition Arrival : Type := option (result TransportError (option SecureMessage)).

Section Messages.
Context `{RC : RegistrationCodec}.

(** [registration] and the patterns that take a message apart. *)
Definition registration (b : RegistrationMessage) : SecureMessage := Some (BBusiness KRegistration (encode_registration b)).
Definition registration_body (m : SecureMessage) : option RegistrationMessage :=
  match m with Some (BBusiness KRegistration content) => decode_registration content | _ => None end.

(** ** The Server *)

Definition receive_registration_request (r : result TransportError (option SecureMessage)) : result TransportError bytes :=
  received ← r;
  message ← ok_or TClosed received;
  match registration_body message with
  | Some (RRequest token) => Ok token
  | _ => Err (TProtocol "XXpsk3 session requires RegistrationRequest")
  end.
Definition receive_registration_commit (expected : bytes) (a : Arrival) : result TransportError unit :=
  r ← ok_or (TTimeout "waiting for registration commit") a;
  received ← r;
  message ← ok_or TClosed received;
  match registration_body message with
  | Some (RCommit id) => if bool_decide (id = expected) then Ok tt else Err (TProtocol "expected matching RegistrationCommit")
  | _ => Err (TProtocol "expected matching RegistrationCommit")
  end.

(** Where [handle_registration_session] is. *)
Inductive ServerPhase : Type :=
| SvAwaitRequest
| SvAwaitCommit (pending : PendingAgentRegistration)
| SvRegistered (pending : PendingAgentRegistration)
| SvRejected
| SvFailed (x : TransportError).

(** A message is sent and the handler goes on, or the session is closed and the error is returned. *)
Definition send_or_fail {P} (failed : TransportError → P) (sent : option TransportError) (m : SecureMessage) (next : P) : list SecureMessage * P :=
  match sent with None => ([m], next) | Some x => ([], failed x) end.

(** Up to the first wait: a registration needs a permit. *)
Definition server_start (permit : bool) (sent : option TransportError) : list SecureMessage * ServerPhase :=
  if permit then ([], SvAwaitRequest)
  else send_or_fail SvFailed sent (secure_error ResourceExhausted "registration capacity is temporarily exhausted") SvRejected.

Definition prepare_error_text (e : PrepareError) : string :=
  match e with
  | PInvalidToken => "registration token is invalid"
  | PTokenAlreadyUsed => "registration token is already used"
  | PAgentAlreadyRegistered => "Agent identity is already registered"
  | PDatabase _ => "registration service is unavailable"
  end.

(** [receive_and_prepare_registration], and the answer. *)
Definition server_request (now : Z) (uuid agent_uuid : bytes) (sent : option TransportError) (token_id : bytes) (peer : NoisePublicKey)
    (r : result TransportError (option SecureMessage)) (t : Tables) : list SecureMessage * ServerPhase * Tables :=
  match receive_registration_request r with
  | Err _ => (send_or_fail SvFailed sent (secure_error InvalidMessage "registration request is invalid") SvRejected, t)
  | Ok token =>
      match prepare_registration now uuid agent_uuid token_id token peer t with
      | (Err e, t) => (send_or_fail SvFailed sent (secure_error (map_registration_prepare_error e) (prepare_error_text e)) SvRejected, t)
      | (Ok p, t) => (send_or_fail SvFailed sent (registration (RPrepared (pd_registration_id p) (pd_agent_id p))) (SvAwaitCommit p), t)
      end
  end.

(** [receive_and_commit_registration], and the answer. *)
Definition server_commit (now : Z) (sent : option TransportError) (pending : PendingAgentRegistration) (a : Arrival) (t : Tables) :
    list SecureMessage * ServerPhase * Tables :=
  match receive_registration_commit (pd_registration_id pending) a with
  | Err _ => (send_or_fail SvFailed sent (secure_error InvalidMessage "registration commit was not completed") SvRejected, t)
  | Ok _ =>
      match commit_agent_registration now pending t with
      | (Err _, t) => (send_or_fail SvFailed sent (secure_error Internal "registration service is unavailable") SvRejected, t)
      | (Ok _, t) => (send_or_fail SvFailed sent (registration (RCommitted (pd_registration_id pending))) (SvRegistered pending), t)
      end
  end.

(** [handle_authorization_session]; [reachable]: the database answered. *)
Definition handle_authorization_session (reachable : bool) (sent : option TransportError) (peer : NoisePublicKey) (t : Tables) :
    list SecureMessage * result TransportError (option bytes) :=
  let reject code text := send_or_fail Err sent (secure_error code text) (Ok None) in
  if negb reachable then reject Internal "authorization service is unavailable"%string
  else match find_agent_authorization peer t with
       | Authorized agent_id => ([], Ok (Some agent_id))
       | AuthRevoked | Unauthorized => reject AgentNotAuthorized "agent is not authorized"%string
       end.

(** ** The Agent *)

(** [send_registration_request] after its message, with the check of the id. *)
Definition client_prepared (a : Arrival) : result TransportError PendingAgentRegistration :=
  r ← ok_or (TTimeout "waiting for registration preparation") a;
  received ← r;
  message ← ok_or TClosed received;
  match message with
  | Some (BError code text) => Err (TRemoteSecure (secure_error_code code) text)
  | _ =>
      match registration_body message with
      | Some (RPrepared id agent_id) =>
          if bool_decide (length id = 16%nat) then Ok (mkPendingReg id agent_id)
          else Err (TProtocol "registration ID must contain exactly 16 bytes")
      | _ => Err (TProtocol "expected encrypted RegistrationPrepared")
      end
  end.

(** [validate_registration_committed] behind its wait. *)
Definition client_committed (expected : bytes) (a : Arrival) : result TransportError unit :=
  r ← ok_or (TTimeout "waiting for registration commit") a;
  received ← r;
  message ← ok_or TClosed received;
  match message with
  | Some (BError code text) => Err (TRemoteSecure (secure_error_code code) text)
  | _ =>
      match registration_body message with
      | Some (RCommitted id) =>
          if bool_decide (id = expected) then Ok tt else Err (TProtocol "expected matching encrypted RegistrationCommitted")
      | _ => Err (TProtocol "expected matching encrypted RegistrationCommitted")
      end
  end.

(** Where the Agent is; between [AgentPendingRegistration] and its commit the caller saves. *)
Inductive ClientPhase : Type :=
| ClAwaitPrepared
| ClPrepared (p : PendingAgentRegistration)
| ClStored (p : PendingAgentRegistration)
| ClAwaitCommitted (p : PendingAgentRegistration)
| ClRegistered (p : PendingAgentRegistration)
| ClFailed (x : TransportError).
Definition client_start (sent : option TransportError) (token : bytes) : list SecureMessage * ClientPhase :=
  send_or_fail ClFailed sent (registration (RRequest token)) ClAwaitPrepared.
Definition client_commit (sent : option TransportError) (p : PendingAgentRegistration) : list SecureMessage * ClientPhase :=
  send_or_fail ClFailed sent (registration (RCommit (pd_registration_id p))) (ClAwaitCommitted p).
Definition client_receive (a : Arrival) (c : ClientPhase) : option ClientPhase :=
  match c with
  | ClAwaitPrepared => Some (match client_prepared a with Ok p => ClPrepared p | Err x => ClFailed x end)
  | ClAwaitCommitted p => Some (match client_committed (pd_registration_id p) a with Ok _ => ClRegistered p | Err x => ClFailed x end)
  | _ => None
  end.

(** ** Sessions over shared tables *)

Record RegSession : Type := mkRegSession {
  rs_peer : NoisePublicKey;
  rs_token_id : bytes;
  rs_client : ClientPhase;
  rs_server : ServerPhase;
  rs_up : list SecureMessage;
  rs_down : list SecureMessage;
}.
Record Enroll : Type := mkEnroll {
  en_tables : Tables;
  en_sessions : gmap nat RegSession;
  en_saved : list PendingAgentRegistration;
  en_used : gset bytes;
}.

(** What the Server does with a message or a fault. *)
Definition server_receive (now : Z) (uuid agent_uuid : bytes) (sent : option TransportError) (a : Arrival) (s : RegSession) (t : Tables) :
    option (list SecureMessage * ServerPhase * Tables) :=
  match rs_server s, a with
  | SvAwaitRequest, Some r => Some (server_request now uuid agent_uuid sent (rs_token_id s) (rs_peer s) r t)
  | SvAwaitCommit p, a => Some (server_commit now sent p a t)
  | _, _ => None
  end.
(** What arrives is the next message under way, or no message at all. *)
Inductive arrives (queue : list SecureMessage) : Arrival → list SecureMessage → Prop :=
| arrives_next m rest : queue = m :: rest → arrives queue (Some (Ok (Some m))) rest
| arrives_end : arrives queue (Some (Ok None)) queue
| arrives_error x : arrives queue (Some (Err x)) queue
| arrives_late : arrives queue None queue.

(** The management of tokens and Agents beside the sessions. *)
Inductive manages (t : Tables) : Tables → Prop :=
| manage_issue now id psk name valid_for : manages t (insert_registration_token now id psk name valid_for t).2
| manage_cleanup now : manages t (cleanup_expired_agent_registrations now t).2
| manage_revoke_token now id : manages t (revoke_registration_token now id t).2
| manage_revoke_agent now id : manages t (revoke_agent now id t).2
| manage_rename now id name : manages t (rename_agent now id name t).2.

(** The steps of a world with one Agent of key [me], which follows its program with the
    credential [token], and others, who send what they like over sessions of their own
    keys.  Generated registration ids are new. *)
Inductive enroll_step (me : NoisePublicKey) (token : bytes) : Enroll → Enroll → Prop :=
| step_open k peer token_id permit sent sent' w : en_sessions w !! k = None →
    let client := if decide (peer = me) then client_start sent token else ([], ClFailed TClosed) in
    let server := server_start permit sent' in
    enroll_step me token w (mkEnroll (en_tables w)
      (<[k := mkRegSession peer token_id client.2 server.2 client.1 server.1]> (en_sessions w)) (en_saved w) (en_used w))
| step_foreign k s m w : en_sessions w !! k = Some s → rs_peer s ≠ me →
    enroll_step me token w (mkEnroll (en_tables w)
      (<[k := mkRegSession (rs_peer s) (rs_token_id s) (rs_client s) (rs_server s) (rs_up s ++ [m]) (rs_down s)]> (en_sessions w))
      (en_saved w) (en_used w))
| step_server k s now uuid agent_uuid sent a rest out phase t w : en_sessions w !! k = Some s → uuid ∉ en_used w →
    arrives (rs_up s) a rest → server_receive now uuid agent_uuid sent a s (en_tables w) = Some (out, phase, t) →
    enroll_step me token w (mkEnroll t
      (<[k := mkRegSession (rs_peer s) (rs_token_id s) (rs_client s) phase rest (rs_down s ++ out)]> (en_sessions w))
      (en_saved w) ({[uuid]} ∪ en_used w))
| step_client k s a rest phase w : en_sessions w !! k = Some s → rs_peer s = me → arrives (rs_down s) a rest →
    client_receive a (rs_client s) = Some phase →
    enroll_step me token w (mkEnroll (en_tables w)
      (<[k := mkRegSession (rs_peer s) (rs_token_id s) phase (rs_server s) (rs_up s) rest]> (en_sessions w)) (en_saved w) (en_used w))
| step_save k s p w : en_sessions w !! k = Some s → rs_peer s = me → rs_client s = ClPrepared p →
    enroll_step me token w (mkEnroll (en_tables w)
      (<[k := mkRegSession (rs_peer s) (rs_token_id s) (ClStored p) (rs_server s) (rs_up s) (rs_down s)]> (en_sessions w))
      (p :: en_saved w) (en_used w))
| step_commit k s p sent w : en_sessions w !! k = Some s → rs_peer s = me → rs_client s = ClStored p →
    enroll_step me token w (mkEnroll (en_tables w)
      (<[k := mkRegSession (rs_peer s) (rs_token_id s) (client_commit sent p).2 (rs_server s) (rs_up s ++ (client_commit sent p).1) (rs_down s)]>
        (en_sessions w)) (en_saved w) (en_used w))
| step_manage t w : manages (en_tables w) t →
    enroll_step me token w (mkEnroll t (en_sessions w) (en_saved w) (en_used w)).

Definition enroll_start : Enroll := mkEnroll no_tables ∅ [] ∅.

(** ** Rows of the registration table *)

(** What a step may do to the rows: their key and Agent id stay, completed rows stay as they
    are, and a new row has the new id and is in progress. *)
Record rows_kept (uuid : option bytes) (t t' : Tables) : Prop := {
  rk_old id r' : registrations t' !! id = Some r' →
    (∃ r, registrations t !! id = Some r ∧ rg_agent_public_key r' = rg_agent_public_key r ∧ rg_reserved_agent_id r' = rg_reserved_agent_id r)
    ∨ uuid = Some id;
  rk_done id r : registrations t !! id = Some r → rg_status r = "committed"%string → registrations t' !! id = Some r;
}.
Definition done_rows (t t' : Tables) : Prop := ∀ id r', registrations t' !! id = Some r' → rg_status r' = "committed"%string →
  registrations t !! id = Some r'.

Lemma rows_kept_eq u t t' : registrations t' = registrations t → rows_kept u t t' ∧ done_rows t t'.
Proof. intros E. split; [split|]; intros id r; rewrite E; eauto. Qed.

Lemma delete_expired_rows now id r t : registrations t !! id = Some r → registration_is_expired r now = true →
  ∀ i x, registrations (delete_registration id t) !! i = Some x ↔ registrations t !! i = Some x ∧ i ≠ id.
Proof. intros _ _ i x. cbn. rewrite lookup_delete_Some. naive_solver. Qed.

Lemma new_registration_rows now uuid au tid pk tok t p t' : new_registration now uuid au tid pk tok t = Ok (p, t') →
  rows_kept (Some uuid) t t' ∧ done_rows t t'.
Proof.
  unfold new_registration. intros H. apply result_bind_Ok in H as (t2 & H2 & H). apply result_bind_Ok in H as (t3 & H3 & H).
  apply map_err_Ok in H3. injection H as _ <-.
  assert (∀ i x, registrations t2 !! i = Some x → registrations t !! i = Some x) as Hsub.
  { destruct (find_row _ _) as [[id r]|]; [|by injection H2 as <-]. unfold delete_registration_if_expired in H2.
    destruct (registration_is_expired r now); [|done]. injection H2 as <-. cbn. intros i x Hx. by apply lookup_delete_Some in Hx as [_ ?]. }
  assert (∀ i x, registrations t !! i = Some x → rg_status x = "committed"%string → registrations t2 !! i = Some x) as Hkeep.
  { destruct (find_row _ _) as [[id r]|] eqn:Ef; [|by injection H2 as <-]. apply find_row_Some in Ef as [Ef _].
    unfold delete_registration_if_expired in H2. destruct (registration_is_expired r now) eqn:He; [|done]. injection H2 as <-. cbn.
    intros i x Hx Hc. rewrite lookup_delete_ne; [done|]. intros <-. rewrite Hx in Ef. injection Ef as ->. by eapply expired_not_committed. }
  clear H2. unfold insert_registration in H3. destruct (registrations t2 !! uuid) eqn:Eu; [done|]. repeat case_match; try done. injection H3 as <-.
  split; [split|]; cbn.
  - intros id r' Hr. apply lookup_insert_Some in Hr as [[<- <-]|[_ Hr]]; [by right|left]. eauto.
  - intros id r Hr Hc. rewrite lookup_insert_ne; [by apply Hkeep|]. intros <-. by rewrite (Hkeep _ _ Hr Hc) in Eu.
  - intros id r' Hr Hc. cbn in Hr. apply lookup_insert_Some in Hr as [[<- <-]|[_ Hr]]; [done|]. auto.
Qed.

Lemma prepare_rows now uuid au tid tok pk t : rows_kept (Some uuid) t (prepare_registration now uuid au tid tok pk t).2 ∧
  done_rows t (prepare_registration now uuid au tid tok pk t).2.
Proof.
  unfold prepare_registration. destruct (parse_registration_credential tok) as [[tid' psk]|]; [|by apply rows_kept_eq].
  case_bool_decide; [by apply rows_kept_eq|]. unfold prepare_agent_registration. destruct (mbind _ _) as [[p t']|] eqn:E; [|by apply rows_kept_eq].
  cbn [snd]. apply result_bind_Ok in E as (token & _ & E). destruct (find_row _ _) as [[id r]|] eqn:Ef; [|by eapply new_registration_rows].
  apply find_row_Some in Ef as [Ef _]. unfold delete_registration_if_expired in E. destruct (registration_is_expired r now) eqn:He.
  2: { destruct (_ && _); [|done]. injection E as _ <-. by apply rows_kept_eq. }
  destruct (new_registration_rows _ _ _ _ _ _ _ _ _ E) as [[H1 H2] H3]. split; [split|].
  - intros i x Hx. destruct (H1 i x Hx) as [(y & Hy & ?)|?]; [|by right]. apply (delete_expired_rows _ _ _ _ Ef He) in Hy as [Hy _]. eauto.
  - intros i x Hx Hc. apply H2; [|done]. apply (delete_expired_rows _ _ _ _ Ef He). split; [done|]. intros ->. rewrite Hx in Ef. injection Ef as ->.
    by eapply expired_not_committed.
  - intros i x Hx Hc. specialize (H3 i x Hx Hc). by apply (delete_expired_rows _ _ _ _ Ef He) in H3 as [? _].
Qed.

(** A commit completes its own row and no other. *)
Lemma commit_rows now p t res t' u : commit_agent_registration now p t = (res, t') → rows_kept u t t' ∧
  (∀ id r', registrations t' !! id = Some r' → rg_status r' = "committed"%string → registrations t !! id = Some r' ∨ id = pd_registration_id p) ∧
  (is_ok res = true → ∃ r, registrations t' !! pd_registration_id p = Some r ∧ rg_status r = "committed"%string ∧ rg_reserved_agent_id r = pd_agent_id p) ∧
  (is_ok res = false → t' = t).
Proof.
  intros H. destruct (commit_outcome _ _ _ _ _ H) as [[-> Hr]|[(-> & -> & r & a & row & Hr & Hag & Hs & _)|(r & tok & Hc & -> & ->)]].
  - split; [by apply rows_kept_eq|]. split; [eauto|]. split; [by rewrite Hr|done].
  - split; [by apply rows_kept_eq|]. split; [eauto|]. split; [eauto|done].
  - destruct Hc as [H1 H2 H3 _ _ _ _ _ _ _]. split; [split|]; cbn.
    + intros id r' Hr. apply lookup_insert_Some in Hr as [[<- <-]|[_ Hr]]; left; eauto.
    + intros id x Hx Hc. rewrite lookup_insert_ne; [done|]. intros <-. rewrite H1 in Hx. injection Hx as ->. by rewrite Hc in H3.
    + split; [|split; [|done]].
      * intros id r' Hr _. apply lookup_insert_Some in Hr as [[<- <-]|[_ Hr]]; eauto.
      * intros _. eexists. by rewrite lookup_insert_eq.
Qed.

Lemma manage_rows t t' u : manages t t' → rows_kept u t t' ∧ done_rows t t'.
Proof.
  intros [now id psk name vf|now|now id|now id|now id name].
  - unfold insert_registration_token. destruct (mbind _ _) as [[e t1]|] eqn:E; [|by apply rows_kept_eq]. cbn.
    apply result_bind_Ok in E as (ex & _ & E). apply result_bind_Ok in E as (t2 & Hi & E). injection E as _ <-.
    unfold insert_token in Hi. case_match; [done|]. injection Hi as <-. by apply rows_kept_eq.
  - cbn. split; [split|]; cbn.
    + intros i r Hr. apply map_lookup_filter_Some in Hr as [Hr _]. left. eauto.
    + intros i r Hr Hc. apply map_lookup_filter_Some. split; [done|]. cbn. unfold cleaned. rewrite Hc. by rewrite andb_false_r.
    + intros i r Hr _. cbn in Hr. by apply map_lookup_filter_Some in Hr as [Hr _].
  - unfold revoke_registration_token. repeat case_match; by apply rows_kept_eq.
  - unfold revoke_agent. repeat case_match; by apply rows_kept_eq.
  - unfold rename_agent. repeat case_match; by apply rows_kept_eq.
Qed.

Lemma manages_reg_step t t' : manages t t' → reg_step t t'.
Proof. intros []; constructor. Qed.

(** ** The invariant *)

Context `{RL : !RegistrationCodecLaws RC}.
Variables (me : NoisePublicKey) (token : bytes).

(** A registration the Server has told the holder of [pk] about, and one it has completed. *)
Definition bound (w : Enroll) (p : PendingAgentRegistration) (pk : NoisePublicKey) : Prop :=
  pd_registration_id p ∈ en_used w ∧ ∀ r, registrations (en_tables w) !! pd_registration_id p = Some r →
    rg_agent_public_key r = pk ∧ rg_reserved_agent_id r = pd_agent_id p.
Definition completed (w : Enroll) (id : bytes) (pk : NoisePublicKey) (r : RegistrationRow) : Prop :=
  registrations (en_tables w) !! id = Some r ∧ rg_status r = "committed"%string ∧ rg_agent_public_key r = pk.
Definition activated (w : Enroll) (p : PendingAgentRegistration) (pk : NoisePublicKey) : Prop :=
  ∃ r, completed w (pd_registration_id p) pk r ∧ rg_reserved_agent_id r = pd_agent_id p.

Definition down_ok (w : Enroll) (pk : NoisePublicKey) (m : SecureMessage) : Prop :=
  match registration_body m with
  | Some (RPrepared id agent_id) => bound w (mkPendingReg id agent_id) pk
  | Some (RCommitted id) => ∃ r, completed w id pk r
  | _ => True
  end.
Definition up_ok (w : Enroll) (m : SecureMessage) : Prop :=
  match registration_body m with
  | Some (RCommit id) => ∃ agent_id, mkPendingReg id agent_id ∈ en_saved w
  | _ => True
  end.
Definition server_ok (w : Enroll) (pk : NoisePublicKey) (x : ServerPhase) : Prop :=
  match x with SvAwaitCommit p => bound w p pk | SvRegistered p => activated w p pk | _ => True end.
Definition client_ok (w : Enroll) (c : ClientPhase) : Prop :=
  match c with
  | ClPrepared p => bound w p me
  | ClStored p | ClAwaitCommitted p => bound w p me ∧ p ∈ en_saved w
  | ClRegistered p => activated w p me
  | _ => True
  end.
Record session_ok (w : Enroll) (s : RegSession) : Prop := {
  so_server : server_ok w (rs_peer s) (rs_server s);
  so_down : Forall (down_ok w (rs_peer s)) (rs_down s);
  so_up : rs_peer s = me → Forall (up_ok w) (rs_up s);
  so_client : rs_peer s = me → client_ok w (rs_client s);
}.
Record enroll_ok (w : Enroll) : Prop := {
  eo_tables : tables_ok (en_tables w);
  eo_used id r : registrations (en_tables w) !! id = Some r → id ∈ en_used w;
  eo_sessions k s : en_sessions w !! k = Some s → session_ok w s;
  eo_saved p : p ∈ en_saved w → bound w p me;
  eo_completed id r : completed w id me r → mkPendingReg id (rg_reserved_agent_id r) ∈ en_saved w;
}.

(** Later worlds keep what a session was told. *)
Record later (w w' : Enroll) : Prop := {
  lt_used : en_used w ⊆ en_used w';
  lt_saved p : p ∈ en_saved w → p ∈ en_saved w';
  lt_rows : ∃ u, (∀ id, u = Some id → id ∉ en_used w) ∧ rows_kept u (en_tables w) (en_tables w');
}.
Lemma bound_later w w' p pk : later w w' → bound w p pk → bound w' p pk.
Proof.
  intros [Hu _ (u & Hnew & [Hold _])] [Hin Hb]. split; [by apply Hu|]. intros r' Hr'.
  destruct (Hold _ _ Hr') as [(r & Hr & -> & ->)|E]; [by apply Hb|]. by destruct (Hnew _ E).
Qed.
Lemma completed_later w w' id pk r : later w w' → completed w id pk r → completed w' id pk r.
Proof. intros [_ _ (u & _ & [_ Hd])] (H1 & H2 & H3). split; [by apply Hd|done]. Qed.
Lemma activated_later w w' p pk : later w w' → activated w p pk → activated w' p pk.
Proof. intros Hl (r & Hr & ?). exists r. eauto using completed_later. Qed.
#[local] Hint Resolve bound_later completed_later activated_later : core.
Lemma down_later w w' pk m : later w w' → down_ok w pk m → down_ok w' pk m.
Proof. unfold down_ok. intros Hl. destruct (registration_body m) as [[]|]; eauto. intros [r ?]. eauto. Qed.
Lemma up_later w w' m : later w w' → up_ok w m → up_ok w' m.
Proof. unfold up_ok. intros [_ Hs _]. destruct (registration_body m) as [[]|]; eauto. intros [a ?]. eauto. Qed.
Lemma server_later w w' pk x : later w w' → server_ok w pk x → server_ok w' pk x.
Proof. destruct x; cbn; eauto. Qed.
Lemma client_later w w' c : later w w' → client_ok w c → client_ok w' c.
Proof. intros Hl. destruct c; cbn; eauto; intros [? ?]; split; eauto using lt_saved. Qed.
Lemma session_later w w' s : later w w' → session_ok w s → session_ok w' s.
Proof.
  intros Hl [H1 H2 H3 H4]. split; [by eapply server_later| | |].
  - eapply Forall_impl; [exact H2|]. eauto using down_later.
  - intros Hp. eapply Forall_impl; [by apply H3|]. eauto using up_later.
  - intros Hp. eapply client_later; eauto.
Qed.

(** A step that changes one session. *)
Lemma sessions_insert w w' k s' : later w w' → (∀ j s, en_sessions w !! j = Some s → session_ok w s) → session_ok w' s' →
  en_sessions w' = <[k := s']> (en_sessions w) → ∀ j s, en_sessions w' !! j = Some s → session_ok w' s.
Proof.
  intros Hl Hs Hs' E j s. rewrite E. intros [[<- <-]|[_ H]]%lookup_insert_Some; [done|]. eauto using session_later.
Qed.

Lemma later_same w ss saved used : (∀ p, p ∈ en_saved w → p ∈ saved) → en_used w ⊆ used → later w (mkEnroll (en_tables w) ss saved used).
Proof. intros Hs Hu. split; [done|done|]. exists None. split; [done|]. by apply (rows_kept_eq None). Qed.

(** A world with the same tables stays in order when the changed session and the saved registrations are. *)
Lemma enroll_ok_same w k s' saved : enroll_ok w → (∀ p, p ∈ en_saved w → p ∈ saved) → (∀ p, p ∈ saved → bound w p me) →
  (let w' := mkEnroll (en_tables w) (<[k := s']> (en_sessions w)) saved (en_used w) in later w w' → session_ok w' s') →
  enroll_ok (mkEnroll (en_tables w) (<[k := s']> (en_sessions w)) saved (en_used w)).
Proof.
  intros [H1 H2 H3 H4 H5] Hsub Hb Hs'. assert (later w (mkEnroll (en_tables w) (<[k := s']> (en_sessions w)) saved (en_used w))) as Hl
    by by apply later_same. specialize (Hs' Hl). split; cbn; [done|done| | |].
  - refine (sessions_insert _ _ k s' Hl H3 Hs' eq_refl).
  - intros p Hp. eapply bound_later; eauto.
  - intros id r Hr. apply Hsub, H5. exact Hr.
Qed.

(** ** Its preservation *)

(** What was taken from a queue came from it. *)
Lemma arrives_Forall P queue a rest : arrives queue a rest → Forall P queue → Forall P rest ∧ ∀ m, a = Some (Ok (Some m)) → P m.
Proof. intros [m r ->| | |] H; [|by split..]. apply Forall_cons in H as [Hm Hr]. split; [done|]. by intros ? [= <-]. Qed.

Lemma client_prepared_Ok a p : client_prepared a = Ok p → ∃ m, a = Some (Ok (Some m)) ∧
  registration_body m = Some (RPrepared (pd_registration_id p) (pd_agent_id p)).
Proof.
  unfold client_prepared. destruct a as [[[m|]|]|]; [|done..]. cbn. intros H. exists m. split; [done|]. destruct m as [[k c|c text|b]|]; try done.
  destruct (registration_body _) as [[]|]; try done. case_bool_decide; [|done]. by injection H as <-.
Qed.
Lemma client_committed_Ok id a : client_committed id a = Ok tt → ∃ m, a = Some (Ok (Some m)) ∧ registration_body m = Some (RCommitted id).
Proof.
  unfold client_committed. destruct a as [[[m|]|]|]; [|done..]. cbn. intros H. exists m. split; [done|]. destruct m as [[k c|c text|b]|]; try done.
  destruct (registration_body _) as [[]|]; try done. case_bool_decide as E; [|done]. by subst.
Qed.
Lemma receive_commit_Ok id a : receive_registration_commit id a = Ok tt → ∃ m, a = Some (Ok (Some m)) ∧ registration_body m = Some (RCommit id).
Proof.
  unfold receive_registration_commit. destruct a as [[[m|]|]|]; [|done..]. cbn. intros H. exists m. split; [done|].
  destruct (registration_body _) as [[]|]; try done. case_bool_decide as E; [|done]. by subst.
Qed.

(** A completed registration of a bound pair is that pair. *)
Lemma completed_activated w p pk r : bound w p pk → completed w (pd_registration_id p) pk r → activated w p pk.
Proof. intros [_ Hb] Hc. exists r. split; [done|]. destruct Hc as (Hr & _). by apply Hb. Qed.

Lemma client_receive_ok w a rest s phase : session_ok w s → rs_peer s = me → arrives (rs_down s) a rest →
  client_receive a (rs_client s) = Some phase → client_ok w phase ∧ Forall (down_ok w (rs_peer s)) rest.
Proof.
  intros [_ Hd _ Hc] Hme Ha H. destruct (arrives_Forall _ _ _ _ Ha Hd) as [Hrest Hm]. split; [|done]. specialize (Hc Hme). rewrite Hme in Hm.
  unfold client_receive in H. destruct (rs_client s) as [| | |p| |]; try done; injection H as <-.
  - destruct (client_prepared a) as [p|] eqn:E; [|done]. apply client_prepared_Ok in E as (m & -> & Hb). specialize (Hm m eq_refl).
    unfold down_ok in Hm. rewrite Hb in Hm. by destruct p.
  - destruct (client_committed _ a) as [[]|] eqn:E; [|done]. apply client_committed_Ok in E as (m & -> & Hb). specialize (Hm m eq_refl).
    unfold down_ok in Hm. rewrite Hb in Hm. destruct Hm as [r Hr], Hc as [Hbound _]. cbn. by eapply completed_activated.
Qed.

Lemma body_registration m : registration_body (registration m) = Some m.
Proof. cbn. apply decode_registration_encode. Qed.
Lemma body_error c text : registration_body (secure_error c text) = None.
Proof. done. Qed.
Lemma send_or_fail_ok {P} (failed : TransportError → P) sent m next (Q : SecureMessage → Prop) (R : P → Prop) :
  Q m → R next → (∀ x, R (failed x)) → Forall Q (send_or_fail failed sent m next).1 ∧ R (send_or_fail failed sent m next).2.
Proof. intros. destruct sent; cbn; [by split|]. split; [|done]. by constructor. Qed.

(** A rejection says nothing about registrations. *)
Lemma rejection_ok w peer sent c text : Forall (down_ok w peer) (send_or_fail SvFailed sent (secure_error c text) SvRejected).1 ∧
  server_ok w peer (send_or_fail SvFailed sent (secure_error c text) SvRejected).2.
Proof. by apply (send_or_fail_ok SvFailed sent _ SvRejected (down_ok w peer) (server_ok w peer)). Qed.

(** What [prepare_registration] leaves for the peer: a row with its key. *)
Lemma prepare_registration_row now uuid au tid tok peer t p t' : prepare_registration now uuid au tid tok peer t = (Ok p, t') →
  ∃ r, registrations t' !! pd_registration_id p = Some r ∧ rg_agent_public_key r = peer ∧ rg_reserved_agent_id r = pd_agent_id p.
Proof.
  unfold prepare_registration. destruct (parse_registration_credential tok) as [[tid' psk]|]; [|done]. destruct (bool_decide _); [done|]. intros H.
  destruct (prepare_pending _ _ _ _ _ _ _ _ _ H) as [_ (r & ? & _ & ? & ? & _)]. eauto.
Qed.

(** A step of the Server on behalf of [peer]: what it leaves in the tables and what it says is in order. *)
Definition served (w : Enroll) (peer : NoisePublicKey) (w' : Enroll) (out : list SecureMessage) (phase : ServerPhase) : Prop :=
  later w w' ∧ tables_ok (en_tables w') ∧ Forall (down_ok w' peer) out ∧ server_ok w' peer phase ∧
  (∀ id r, registrations (en_tables w') !! id = Some r → id ∈ en_used w').

Lemma rows_used w t uuid : enroll_ok w → rows_kept (Some uuid) (en_tables w) t →
  ∀ id r, registrations t !! id = Some r → id ∈ {[uuid]} ∪ en_used w.
Proof. intros H [Hk _] id r Hr. destruct (Hk id r Hr) as [(r0 & Hr0 & _)|[= ->]]; [|set_solver]. apply (eo_used _ H) in Hr0. set_solver. Qed.
Lemma later_tables w t ss uuid : uuid ∉ en_used w → rows_kept (Some uuid) (en_tables w) t →
  later w (mkEnroll t ss (en_saved w) ({[uuid]} ∪ en_used w)).
Proof. intros Hu Hk. split; cbn; [set_solver|done|]. exists (Some uuid). split; [by intros ? [= <-]|done]. Qed.

Lemma server_request_ok w ss now uuid au sent tid peer r out phase t : enroll_ok w → uuid ∉ en_used w →
  server_request now uuid au sent tid peer r (en_tables w) = (out, phase, t) →
  served w peer (mkEnroll t ss (en_saved w) ({[uuid]} ∪ en_used w)) out phase ∧ done_rows (en_tables w) t.
Proof.
  intros Hw Hu H. set (w' := mkEnroll t ss (en_saved w) ({[uuid]} ∪ en_used w)). unfold server_request in H.
  assert (rows_kept (Some uuid) (en_tables w) t ∧ done_rows (en_tables w) t ∧ tables_ok t ∧ Forall (down_ok w' peer) out ∧ server_ok w' peer phase)
    as (Hk & Hd & Hok & Ho & Hp).
  2: { split; [|done]. split; [by apply later_tables|]. split; [done|]. split; [done|]. split; [done|]. by apply rows_used. }
  destruct (receive_registration_request r) as [tok|].
  2: { injection H as H <-. destruct (rows_kept_eq (Some uuid) (en_tables w) (en_tables w) eq_refl). split_and!; [done|done|apply Hw|..];
       pose proof (rejection_ok w' peer sent InvalidMessage "registration request is invalid") as [? ?]; by rewrite H in *. }
  destruct (prepare_rows now uuid au tid tok peer (en_tables w)) as [Hk Hd].
  assert (tables_ok (prepare_registration now uuid au tid tok peer (en_tables w)).2) as Hok.
  { pose proof (eo_tables _ Hw). unfold prepare_registration. destruct (parse_registration_credential tok) as [[tid' psk]|]; [|done].
    destruct (bool_decide _); [done|]. by apply prepare_ok. }
  destruct (prepare_registration now uuid au tid tok peer (en_tables w)) as [[p|e] t1] eqn:E; cbn in Hk, Hd, Hok; injection H as H ->.
  2: { split; [done|]. split; [done|]. split; [done|].
       pose proof (rejection_ok w' peer sent (map_registration_prepare_error e) (prepare_error_text e)) as [? ?]. by rewrite H in *. }
  split; [done|]. split; [done|]. split; [done|]. apply prepare_registration_row in E as (row & Hrow & Hpk & Hres).
  assert (bound w' p peer) as Hb.
  { split; [by eapply rows_used|]. intros r' Hr'. cbn in Hr'. rewrite Hrow in Hr'. by injection Hr' as <-. }
  pose proof (send_or_fail_ok SvFailed sent (registration (RPrepared (pd_registration_id p) (pd_agent_id p))) (SvAwaitCommit p) (down_ok w' peer) (server_ok w' peer))
    as Hem. rewrite H in Hem. apply Hem; [|done|done]. unfold down_ok. rewrite body_registration. by destruct p.
Qed.

Lemma server_commit_ok w ss now uuid sent p a peer out phase t : enroll_ok w → uuid ∉ en_used w → bound w p peer →
  server_commit now sent p a (en_tables w) = (out, phase, t) →
  served w peer (mkEnroll t ss (en_saved w) ({[uuid]} ∪ en_used w)) out phase ∧
  (done_rows (en_tables w) t ∨ receive_registration_commit (pd_registration_id p) a = Ok tt ∧
     ∀ id r, registrations t !! id = Some r → rg_status r = "committed"%string → registrations (en_tables w) !! id = Some r ∨ id = pd_registration_id p).
Proof.
  intros Hw Hu Hb H. set (w' := mkEnroll t ss (en_saved w) ({[uuid]} ∪ en_used w)). unfold server_commit in H.
  assert (rows_kept (Some uuid) (en_tables w) t ∧ tables_ok t ∧ (later w w' → Forall (down_ok w' peer) out ∧ server_ok w' peer phase) ∧
    (done_rows (en_tables w) t ∨ receive_registration_commit (pd_registration_id p) a = Ok tt ∧
     ∀ id r, registrations t !! id = Some r → rg_status r = "committed"%string → registrations (en_tables w) !! id = Some r ∨ id = pd_registration_id p))
    as (Hk & Hok & Ho & Hd).
  2: { assert (later w w') as Hl by by apply later_tables. destruct (Ho Hl). split; [|done]. do 4 (split; [done|]). by apply rows_used. }
  destruct (receive_registration_commit _ a) as [[]|].
  2: { injection H as H <-. destruct (rows_kept_eq (Some uuid) (en_tables w) (en_tables w) eq_refl). split_and!; [done|apply Hw|intros _|by left].
       pose proof (rejection_ok w' peer sent InvalidMessage "registration commit was not completed") as Hr. by rewrite H in Hr. }
  destruct (commit_agent_registration now p (en_tables w)) as [res t1] eqn:E.
  destruct (commit_rows _ _ _ _ _ (Some uuid) E) as (Hk & Hc & Hyes & Hno).
  assert (tables_ok t1) as Hok. { replace t1 with (commit_agent_registration now p (en_tables w)).2 by by rewrite E. eapply reg_step_ok; [apply Hw|constructor]. }
  destruct res as [[]|e]; injection H as H ->; (split; [done|]; split; [done|]; split; [|by right]); intros Hl.
  - destruct (Hyes eq_refl) as (r & Hr & Hs & Hres). apply (bound_later _ w') in Hb; [|done]. destruct (proj2 Hb r Hr) as [Hpk _].
    assert (completed w' (pd_registration_id p) peer r) as Hcomp by done.
    pose proof (send_or_fail_ok SvFailed sent (registration (RCommitted (pd_registration_id p))) (SvRegistered p) (down_ok w' peer) (server_ok w' peer)) as Hem.
    rewrite H in Hem. apply Hem; [|by exists r|done]. unfold down_ok. rewrite body_registration. by exists r.
  - pose proof (rejection_ok w' peer sent Internal "registration service is unavailable") as Hr. by rewrite H in Hr.
Qed.

(** A step of the Server keeps the invariant when every own registration it completes was saved. *)
Lemma served_step w k s now uuid au sent a rest out phase t : enroll_ok w → en_sessions w !! k = Some s → uuid ∉ en_used w →
  arrives (rs_up s) a rest → server_receive now uuid au sent a s (en_tables w) = Some (out, phase, t) →
  enroll_ok (mkEnroll t (<[k := mkRegSession (rs_peer s) (rs_token_id s) (rs_client s) phase rest (rs_down s ++ out)]> (en_sessions w))
    (en_saved w) ({[uuid]} ∪ en_used w)).
Proof.
  intros Hw Hs Hu Ha H. pose proof (eo_sessions _ Hw _ _ Hs) as [Hsv Hdn Hup Hcl].
  set (ss := <[k := mkRegSession (rs_peer s) (rs_token_id s) (rs_client s) phase rest (rs_down s ++ out)]> (en_sessions w)).
  set (w' := mkEnroll t ss (en_saved w) ({[uuid]} ∪ en_used w)).
  assert (served w (rs_peer s) w' out phase ∧ ∀ id r, completed w' id me r → mkPendingReg id (rg_reserved_agent_id r) ∈ en_saved w)
    as [(Hl & Hok & Hout & Hph & Hused) Hdone].
  2: { split; [done|exact Hused| | |exact Hdone].
       - refine (sessions_insert w w' k _ Hl (eo_sessions _ Hw) _ eq_refl). split; cbn; [done| | |].
         + apply Forall_app. split; [|done]. eapply Forall_impl; [exact Hdn|]. eauto using down_later.
         + intros Hp. destruct (arrives_Forall _ _ _ _ Ha (Hup Hp)) as [Hr _]. eapply Forall_impl; [exact Hr|]. eauto using up_later.
         + intros Hp. eapply client_later; eauto.
       - intros p Hp. eapply bound_later; [done|]. by apply (eo_saved _ Hw). }
  assert (∀ id r, completed w id me r → mkPendingReg id (rg_reserved_agent_id r) ∈ en_saved w) as Hcw by apply Hw.
  unfold server_receive in H. destruct (rs_server s) as [|p| | |]; [destruct a as [r|]; [|done]| |done..]; injection H as H.
  - destruct (server_request_ok w ss _ _ _ _ _ _ _ _ _ _ Hw Hu H) as [Hserved Hd]. split; [exact Hserved|].
    intros id x (Hx & Hst & Hpk). apply Hcw. split; [|done]. by apply Hd.
  - destruct (server_commit_ok w ss _ uuid _ _ _ _ _ _ _ Hw Hu Hsv H) as [Hserved [Hd|[Hc Hnew]]]; (split; [exact Hserved|]);
      intros id x (Hx & Hst & Hpk); [apply Hcw; split; [by apply Hd|done]|].
    destruct (Hnew id x Hx Hst) as [Hold| ->]; [by apply Hcw|]. apply (bound_later _ w') in Hsv; [|apply Hserved].
    destruct (proj2 Hsv x Hx) as [Hpeer Hres]. rewrite Hpk in Hpeer. destruct (arrives_Forall _ _ _ _ Ha (Hup (eq_sym Hpeer))) as [_ Hm].
    apply receive_commit_Ok in Hc as (m & -> & Hb). specialize (Hm m eq_refl). unfold up_ok in Hm. rewrite Hb in Hm. destruct Hm as [a' Hin].
    destruct (bound_later _ w' _ _ (proj1 Hserved) (eo_saved _ Hw _ Hin)) as [_ Hb']. destruct (Hb' x Hx) as [_ ->]. done.
Qed.

Lemma enroll_start_ok : enroll_ok enroll_start.
Proof.
  split; cbn; [apply no_tables_ok|by intros ?? ?%lookup_empty_Some|by intros ?? ?%lookup_empty_Some|by intros ? ?%elem_of_nil|].
  intros id r (H & _). cbn in H. by apply lookup_empty_Some in H.
Qed.

Lemma session_open_ok w peer tid permit sent sent' : let client := if decide (peer = me) then client_start sent token else ([], ClFailed TClosed) in
  let server := server_start permit sent' in session_ok w (mkRegSession peer tid client.2 server.2 client.1 server.1).
Proof.
  intros client server. subst client server. split; cbn.
  - destruct permit; [done|]. apply rejection_ok.
  - destruct permit; [constructor|]. apply rejection_ok.
  - intros ->. rewrite decide_True by done.
    refine (proj1 (send_or_fail_ok ClFailed sent _ ClAwaitPrepared (up_ok w) (λ _, True) _ I (λ _, I))). unfold up_ok. by rewrite body_registration.
  - intros ->. rewrite decide_True by done. by destruct sent.
Qed.

Lemma enroll_step_ok w w' : enroll_ok w → enroll_step me token w w' → enroll_ok w'.
Proof.
  intros Hw Hstep. destruct Hstep as [k peer tid permit sent sent' w Hk client server|k s m w Hk Hp|k s now uuid au sent a rest out phase t w Hk Hu Ha H
    |k s a rest phase w Hk Hp Ha H|k s p w Hk Hp Hc|k s p sent w Hk Hp Hc|t w Hm].
  - apply enroll_ok_same; [done|done|apply Hw|]. intros w' _. apply session_open_ok.
  - apply enroll_ok_same; [done|done|apply Hw|]. intros w' Hl. destruct (session_later _ _ _ Hl (eo_sessions _ Hw _ _ Hk)) as [H1 H2 H3 H4]. by split.
  - by eapply served_step.
  - apply enroll_ok_same; [done|done|apply Hw|]. intros w' Hl. pose proof (session_later _ _ _ Hl (eo_sessions _ Hw _ _ Hk)) as Hs.
    destruct (client_receive_ok _ _ _ _ _ Hs Hp Ha H) as [Hc Hd]. destruct Hs as [H1 _ H3 _]. by split.
  - pose proof (so_client _ _ (eo_sessions _ Hw _ _ Hk) Hp) as Hb. rewrite Hc in Hb. cbn in Hb. apply enroll_ok_same; [done|by right| |].
    + intros q [->|Hq]%elem_of_cons; [done|]. by apply (eo_saved _ Hw).
    + intros w' Hl. destruct (session_later _ _ _ Hl (eo_sessions _ Hw _ _ Hk)) as [H1 H2 H3 _]. split; cbn; try done. intros _.
      split; [eauto|left].
  - pose proof (so_client _ _ (eo_sessions _ Hw _ _ Hk) Hp) as Hb. rewrite Hc in Hb. destruct Hb as [Hb Hin]. apply enroll_ok_same; [done|done|apply Hw|].
    intros w' Hl. destruct (session_later _ _ _ Hl (eo_sessions _ Hw _ _ Hk)) as [H1 H2 H3 _].
    destruct (send_or_fail_ok ClFailed sent (registration (RCommit (pd_registration_id p))) (ClAwaitCommitted p) (up_ok w') (client_ok w')) as [Hu Hcl];
      [unfold up_ok; rewrite body_registration; exists (pd_agent_id p); by destruct p|split; eauto|done|].
    split; cbn; [done|done| |done]. intros Hpe. apply Forall_app. split; [by apply H3|done].
  - destruct (manage_rows _ _ None Hm) as [Hk Hd]. assert (later w (mkEnroll t (en_sessions w) (en_saved w) (en_used w))) as Hl
      by (split; [done|done|]; exists None; by split).
    split; cbn; [by eapply reg_step_ok; [apply Hw|apply manages_reg_step]| |intros; eapply session_later; [done|by eapply Hw]|intros; eapply bound_later; [done|by apply (eo_saved _ Hw)]|].
    + intros id r Hr. destruct (rk_old _ _ _ Hk _ _ Hr) as [(r0 & Hr0 & _)|[=]]. by apply (eo_used _ Hw) in Hr0.
    + intros id r (Hr & Hs & Hpk). apply (eo_completed _ Hw). split; [by apply Hd|done].
Qed.

Lemma enroll_reachable_ok w : rtc (enroll_step me token) enroll_start w → enroll_ok w.
Proof. intros H. pose proof enroll_start_ok as H0. revert H0. induction H; eauto using enroll_step_ok. Qed.

(** ** Theorems *)

Lemma activated_agent w p pk : enroll_ok w → activated w p pk → ∃ row, agents (en_tables w) !! pd_agent_id p = Some row ∧ ag_public_key row = pk ∧
  ∃ r, registrations (en_tables w) !! pd_registration_id p = Some r ∧ token_used (en_tables w) (rg_token_id r).
Proof.
  intros Hw (r & (Hr & Hs & Hpk) & Hres). destruct (ok_registration _ (eo_tables _ Hw) _ _ Hr) as [[E _]|(_ & _ & Hu & row & Hrow & Hk)]; [congruence|].
  exists row. rewrite <-Hres. split; [done|]. split; [congruence|]. eauto.
Qed.
Lemma active_authorized t a row sent : tables_ok t → agents t !! a = Some row → is_agent_active a t = true →
  handle_authorization_session true sent (ag_public_key row) t = ([], Ok (Some a)).
Proof.
  intros Hok Ha Hact. unfold is_agent_active in Hact. rewrite Ha in Hact. apply andb_true_iff in Hact as [Hs Hr]. apply String.eqb_eq in Hs. bools.
  unfold handle_authorization_session, find_agent_authorization. cbn [negb]. rewrite (find_row_unique _ _ a row Ha).
  - by rewrite Hs, Hr.
  - by apply bool_decide_eq_true_2.
  - intros k' a' Hk' E. bools. by eapply (ok_agent_key _ Hok).
Qed.

(** C9. The registration of an Agent over its encrypted session, in a world where the Agent
    tries again over any number of sessions, messages and sessions get lost at any point,
    others register with whatever messages they like over sessions of their own keys, and
    tokens and Agents are managed meanwhile.  An Agent that was told its registration is committed exists on
    the Server under its id and its key, its token is consumed, and as long as it is
    active its next session is authorized as that Agent; a session the Server
    hands to the business code as registered belongs to the holder of that Agent's key; and
    the Server never has an Agent with this key that the Agent itself has not stored. *)
Theorem enrollment_agreement w : rtc (enroll_step me token) enroll_start w →
  (∀ k s p, en_sessions w !! k = Some s → rs_peer s = me → rs_client s = ClRegistered p →
     ∃ row, agents (en_tables w) !! pd_agent_id p = Some row ∧ ag_public_key row = me ∧
       (∃ r, registrations (en_tables w) !! pd_registration_id p = Some r ∧ token_used (en_tables w) (rg_token_id r)) ∧
       (is_agent_active (pd_agent_id p) (en_tables w) = true →
          ∀ sent, handle_authorization_session true sent me (en_tables w) = ([], Ok (Some (pd_agent_id p))))) ∧
  (∀ k s p, en_sessions w !! k = Some s → rs_server s = SvRegistered p →
     ∃ row, agents (en_tables w) !! pd_agent_id p = Some row ∧ ag_public_key row = rs_peer s) ∧
  (∀ a row, agents (en_tables w) !! a = Some row → ag_public_key row = me → ∃ id, mkPendingReg id a ∈ en_saved w).
Proof.
  intros Hw%enroll_reachable_ok. split; [|split].
  - intros k s p Hs Hp Hc. pose proof (so_client _ _ (eo_sessions _ Hw _ _ Hs) Hp) as Ha. rewrite Hc in Ha.
    destruct (activated_agent _ _ _ Hw Ha) as (row & Hrow & Hk & Hu). exists row. split; [done|]. split; [done|]. split; [done|].
    intros Hact sent. rewrite <-Hk. by eapply active_authorized; [apply Hw|..].
  - intros k s p Hs Hc. pose proof (so_server _ _ (eo_sessions _ Hw _ _ Hs)) as Ha. rewrite Hc in Ha.
    destruct (activated_agent _ _ _ Hw Ha) as (row & Hrow & Hk & _). eauto.
  - intros a row Ha Hk. destruct (ok_agent _ (eo_tables _ Hw) _ _ Ha) as (id & r & Hr & Hst & Hag).
    destruct (ok_registration _ (eo_tables _ Hw) _ _ Hr) as [[E _]|(_ & Hres & _ & row' & Hrow' & Hpk)]; [congruence|].
    rewrite Hres in Hag. injection Hag as <-. rewrite Ha in Hrow'. injection Hrow' as ->. exists id. apply (eo_completed _ Hw).
    split; [done|]. split; [done|]. congruence.
Qed.

(** The way without faults, from any world: request, preparation, storing, commit, confirmation. *)
Lemma enrollment_path w k tid now uuid au p t1 now' uuid' t2 : en_sessions w !! k = None → uuid ∉ en_used w → uuid' ∉ {[uuid]} ∪ en_used w →
  prepare_registration now uuid au tid token me (en_tables w) = (Ok p, t1) → length (pd_registration_id p) = 16%nat →
  commit_agent_registration now' p t1 = (Ok tt, t2) →
  rtc (enroll_step me token) w (mkEnroll t2
    (<[k := mkRegSession me tid (ClRegistered p) (SvRegistered p) [] []]> (en_sessions w)) (p :: en_saved w) ({[uuid']} ∪ ({[uuid]} ∪ en_used w))).
Proof.
  intros Hk Hu Hu' Hprep Hlen Hcommit.
  eapply rtc_l; [apply (step_open me token k me tid true None None w Hk)|]. rewrite decide_True by done. cbn.
  eapply rtc_l; [eapply (step_server me token k _ now uuid au None (Some (Ok (Some (registration (RRequest token))))));
    [apply lookup_insert_eq|done|by apply arrives_next|]|].
  { cbn. unfold server_request, receive_registration_request. cbn [mbind result_bind ok_or]. rewrite body_registration. by rewrite Hprep. }
  cbn. rewrite insert_insert_eq.
  eapply rtc_l; [eapply (step_client me token k _ (Some (Ok (Some (registration (RPrepared (pd_registration_id p) (pd_agent_id p)))))));
    [apply lookup_insert_eq|done|by apply arrives_next|]|].
  { cbn [client_receive rs_client]. unfold client_prepared. cbn [mbind result_bind ok_or registration].
    change (Some (BBusiness _ _)) with (registration (RPrepared (pd_registration_id p) (pd_agent_id p))). rewrite body_registration. by decide_true. }
  cbn. rewrite insert_insert_eq. replace (mkPendingReg (pd_registration_id p) (pd_agent_id p)) with p by by destruct p.
  eapply rtc_l; [eapply (step_save me token k _ p); [apply lookup_insert_eq|done|done]|]. cbn. rewrite insert_insert_eq.
  eapply rtc_l; [eapply (step_commit me token k _ p None); [apply lookup_insert_eq|done|done]|]. cbn. rewrite insert_insert_eq.
  eapply rtc_l; [eapply (step_server me token k _ now' uuid' [] None (Some (Ok (Some (registration (RCommit (pd_registration_id p)))))));
    [apply lookup_insert_eq|done|by apply arrives_next|]|].
  { cbn [server_receive rs_server]. unfold server_commit, receive_registration_commit. cbn [mbind result_bind ok_or]. rewrite body_registration.
    decide_true. cbn [en_tables]. by rewrite Hcommit. }
  cbn. rewrite insert_insert_eq.
  eapply rtc_l; [eapply (step_client me token k _ (Some (Ok (Some (registration (RCommitted (pd_registration_id p)))))));
    [apply lookup_insert_eq|done|by apply arrives_next|]|].
  { cbn [client_receive rs_client]. unfold client_committed. cbn [mbind result_bind ok_or registration].
    change (Some (BBusiness _ _)) with (registration (RCommitted (pd_registration_id p))). rewrite body_registration. by decide_true. }
  cbn. rewrite insert_insert_eq. constructor.
Qed.

End Messages.

(** ** A concrete registration *)

#[local] Instance demo_registration_codec : RegistrationCodec := {|
  encode_registration m :=
    match m with
    | RRequest token => 1 :: token
    | RPrepared id agent_id => 2 :: zlen id :: id ++ agent_id
    | RCommit id => 3 :: id
    | RCommitted id => 4 :: id
    end;
  decode_registration b :=
    match b with
    | 1 :: token => Some (RRequest token)
    | 2 :: n :: rest => Some (RPrepared (take (Z.to_nat n) rest) (drop (Z.to_nat n) rest))
    | 3 :: id => Some (RCommit id)
    | 4 :: id => Some (RCommitted id)
    | _ => None
    end;
|}.
#[local] Instance demo_registration_codec_laws : RegistrationCodecLaws demo_registration_codec.
Proof.
  intros [token|id agent_id|id|id]; cbn; try done. unfold zlen. by rewrite Nat2Z.id, take_app_length, drop_app_length.
Qed.

Definition demo_credential : bytes := issued_credential (replicate 16 171) demo_psk.
Definition demo_enrolled : Enroll :=
  mkEnroll demo_committed
    (<[0%nat := mkRegSession (demo_key 1) demo_token_id (ClRegistered demo_pending_registration) (SvRegistered demo_pending_registration) [] []]> ∅)
    [demo_pending_registration] ({[demo_uuid 9]} ∪ ({[demo_uuid 1]} ∪ ∅)).
Lemma demo_enrolled_reachable : rtc (enroll_step (demo_key 1) demo_credential) enroll_start demo_enrolled.
Proof.
  eapply rtc_l; [apply step_manage, (manage_issue _ 5 demo_token_id demo_psk None None)|].
  apply (enrollment_path (demo_key 1) demo_credential (mkEnroll demo_issued ∅ [] ∅) 0 demo_token_id 1000 (demo_uuid 1) (demo_uuid 2)
    demo_pending_registration demo_prepared 2000 (demo_uuid 9) demo_committed); [done|set_solver| | |done|].
  - rewrite elem_of_union, elem_of_singleton. intros [E|E]; [vm_compute in E; discriminate|set_solver].
  - vm_compute. reflexivity.
  - vm_compute. reflexivity.
Qed.

Lemma enrollment_agreement_witness : ∃ row, agents demo_committed !! demo_uuid 2 = Some row ∧ ag_public_key row = demo_key 1 ∧
  handle_authorization_session true None (demo_key 1) demo_committed = ([], Ok (Some (demo_uuid 2))) ∧
  ∃ id, mkPendingReg id (demo_uuid 2) ∈ en_saved demo_enrolled.
Proof.
  destruct (enrollment_agreement (demo_key 1) demo_credential demo_enrolled demo_enrolled_reachable) as (H1 & _ & H3).
  destruct (H1 0%nat _ demo_pending_registration (lookup_insert_eq _ _ _) eq_refl eq_refl) as (row & Hrow & Hk & _ & Ha).
  exists row. split; [exact Hrow|]. split; [exact Hk|]. split; [apply Ha; vm_compute; reflexivity|]. exact (H3 _ _ Hrow Hk).
Defined.
