(* ===== verification/WebStream.v ===== *)
(** * The web socket streams

    [crates/smalux-server/src/web_auth/ws.rs]: the directory of open web sockets, the upgrade of
    a request, and the life of a connection, in which a browser subscribes to metrics and
    gets a snapshot and then the changes.

    A connection is three tasks that share a cancellation token and a close code: the loop
    that reads requests and pushes changes every two seconds, the writer that takes messages
    out of a queue of 32, and the guard that checks the session every second.  Each turn of a
    task is an event.  What a turn reads of the Server is a [Glance]: the tables at that
    moment, the clock, and whether the database answered in time. *)

From Stdlib Require Import SpecFloat.
From stdpp Require Import base gmap strings list.
From S2P Require Import Prelude StLogic Rotation Credential Registration Proto Catalog JobEvents Paging Reports WebStore WebGate WebMetrics WebJson WebApi.

(** ** Data *)

Definition CONNECTION_LIMIT : Z := 32.
Definition SUBSCRIPTION_LIMIT : Z := 16.
Definition AGENT_LIMIT : Z := 100.
Definition QUEUE_LIMIT : Z := 32.
Definition OUTPUT_LIMIT : Z := 1024 * 1024.
Definition RECENT_LIMIT : Z := 128.
Definition CONTROL_LIMIT : Z := 120.
Definition CONTROL_WINDOW : Z := 60 * 1000000000.

Record Subscription : Type := mkSubscription {
  sb_epoch : string;
  sb_sequence : Z;
  sb_params : LatestParams;
  sb_snapshot : list MetricsLatest;
}.

(** The answers and notifications; [fault], [success] and [notice] put them into JSON. *)
Inductive Notice : Type :=
| NFault (id : Json) (code : Z) (kind message : string)
| NAlive (id : Json) (server_time : Z) (epoch : string)
| NUnsubscribed (id : Json) (key epoch : string) (matched : bool)
| NSubscribed (id : Json) (key epoch : string) (snapshot : list MetricsLatest)
| NResync (key epoch : string) (sequence : Z)
| NUpdate (key epoch : string) (sequence : Z) (items : list MetricsLatest).
(** [serde_json::to_string] of the message. *)
Class StreamText : Type := notice_text : Notice → option bytes.

Inductive Message : Type := MText (n : Notice) | MPong (data : bytes).

(** The derived [PartialEq] of [MetricsLatest]; numbers compare as IEEE 754 does. *)
Definition same_option {A} (same : A → A → bool) (x y : option A) : bool :=
  match x, y with Some x, Some y => same x y | None, None => true | _, _ => false end.
Definition same_text (x y : option string) : bool := bool_decide (x = y).
Definition same_number (x y : option Z) : bool := bool_decide (x = y).
Definition same_quality (x y : MetricQuality) : bool :=
  String.eqb (mq_state x) (mq_state y) && same_text (mq_reason x) (mq_reason y).
Definition same_sample {T} (same : T → T → bool) (x y : MetricSample T) : bool :=
  same_option same (ms_value x) (ms_value y) && same_number (ms_sampled_at_ms x) (ms_sampled_at_ms y)
  && same_number (ms_received_at_ms x) (ms_received_at_ms y) && same_quality (ms_quality x) (ms_quality y)
  && same_text (ms_source_job_id x) (ms_source_job_id y) && same_text (ms_source_job_revision x) (ms_source_job_revision y).
Definition same_cpu (x y : CpuMetrics) : bool :=
  SFeqb (cm_cpu_usage_percent x) (cm_cpu_usage_percent y) && same_number (cm_logical_cores x) (cm_logical_cores y).
Definition same_memory (x y : MemoryMetrics) : bool :=
  same_number (mm_used_bytes x) (mm_used_bytes y) && same_number (mm_total_bytes x) (mm_total_bytes y)
  && same_option SFeqb (mm_used_percent x) (mm_used_percent y).
Definition same_latest (x y : MetricsLatest) : bool :=
  String.eqb (ml_agent_id x) (ml_agent_id y) && same_option (same_sample same_cpu) (ml_cpu x) (ml_cpu y)
  && same_option (same_sample same_memory) (ml_memory x) (ml_memory y) && String.eqb (ml_binding_revision x) (ml_binding_revision y).
Fixpoint same_metrics (x y : list MetricsLatest) : bool :=
  match x, y with
  | [], [] => true
  | a :: x, b :: y => same_latest a b && same_metrics x y
  | _, _ => false
  end.

(** ** The directory of connections *)

(** [WsHub]: free slots, and for each connection the digest of its secret and whether its
    token is cancelled. *)
Record WsHub : Type := mkHub { wh_slots : Z; wh_connections : gmap string (string * bool) }.
Definition hub_new : WsHub := mkHub CONNECTION_LIMIT ∅.

Section Hub.
Context `{H256 : Sha256}.
Definition hub_revoke (secret : bytes) (h : WsHub) : WsHub :=
  mkHub (wh_slots h) ((λ e : string * bool, (e.1, e.2 || String.eqb e.1 (secret_digest secret))) <$> wh_connections h).
(** [acquire]; [id] is the generated uuid. *)
Definition hub_acquire (id : string) (secret : bytes) (h : WsHub) : result HttpError WsHub :=
  if bool_decide (wh_slots h ≤ 0) then Err (rate_limited "1")
  else Ok (mkHub (wh_slots h - 1) (<[id := (secret_digest secret, false)]> (wh_connections h))).
(** [Drop] of a lease. *)
Definition hub_drop (id : string) (h : WsHub) : WsHub := mkHub (wh_slots h + 1) (delete id (wh_connections h)).
End Hub.

(** ** A connection *)

Record Glance : Type := mkGlance {
  gl_answers : bool;
  gl_now : Z;
  gl_now_us : option Z;
  gl_web : WebTables;
  gl_agents : Tables;
  gl_jobs : JobTables;
  gl_reports : list TaskReportRecord;
}.

Record Conn : Type := mkConn {
  cn_subs : gmap string Subscription;
  cn_recent : list bytes;
  cn_controls : list Z;
  cn_queue : list Message;
  cn_sending : option Message;
  cn_written : list Message;
  cn_cancelled : bool;
  cn_close_code : Z;
  cn_running : bool;
}.
Definition conn_new : Conn := mkConn ∅ [] [] [] None [] false 1008 true.
Definition set_subs subs (c : Conn) : Conn :=
  mkConn subs (cn_recent c) (cn_controls c) (cn_queue c) (cn_sending c) (cn_written c) (cn_cancelled c) (cn_close_code c) (cn_running c).
Definition set_requests recent controls (c : Conn) : Conn :=
  mkConn (cn_subs c) recent controls (cn_queue c) (cn_sending c) (cn_written c) (cn_cancelled c) (cn_close_code c) (cn_running c).
Definition set_messages queue sending written (c : Conn) : Conn :=
  mkConn (cn_subs c) (cn_recent c) (cn_controls c) queue sending written (cn_cancelled c) (cn_close_code c) (cn_running c).
(** The end of the loop: the close code is set, if a branch sets it, and the token cancelled. *)
Definition stop_stream (code : option Z) (c : Conn) : Conn :=
  mkConn (cn_subs c) (cn_recent c) (cn_controls c) (cn_queue c) (cn_sending c) (cn_written c) true (default (cn_close_code c) code) false.
(** The guard or the directory cancels the token. *)
Definition cancel_stream (c : Conn) : Conn :=
  mkConn (cn_subs c) (cn_recent c) (cn_controls c) (cn_queue c) (cn_sending c) (cn_written c) true (cn_close_code c) (cn_running c).

(** [subscription_agents]. *)
Definition subscription_agents (subs : gmap string Subscription) : gset string :=
  ⋃ ((λ kv : string * Subscription, list_to_set (lp_agent_ids (sb_params kv.2))) <$> map_to_list subs).

(** The parameters of the requests. *)
Record Subscribe : Type := mkSubscribe {
  sc_topic : string;
  sc_agent_ids : list string;
  sc_metrics : option (list MetricName);
  sc_since_cursor : option string;
}.
Definition decode_subscribe (v : Json) : option Subscribe :=
  fields ← decode_struct false [("topic", false); ("agentIds", false); ("metrics", true); ("sinceCursor", true)] v;
  match fields with
  | [topic; ids; metrics; cursor] =>
      topic ← as_string topic; ids ← as_strings ids; metrics ← as_option as_metrics metrics; cursor ← as_option as_string cursor;
      Some (mkSubscribe topic ids metrics cursor)
  | _ => None
  end.
Definition decode_unsubscribe (v : Json) : option (string * string) :=
  fields ← decode_struct false [("subscriptionId", false); ("streamEpoch", false)] v;
  match fields with [key; epoch] => key ← as_string key; epoch ← as_string epoch; Some (key, epoch) | _ => None end.

(** [metric_problem]. *)
Definition metric_fault (id : Json) (e : MetricsError) : Notice :=
  match e with
  | MInvalidParams => NFault id (-32602) "VALIDATION_FAILED" "Invalid metric parameters"
  | MForbidden => NFault id (-32002) "FORBIDDEN" "Metric scope is not available"
  | MInternal => NFault id (-32018) "INTERNAL_ERROR" "Metric query failed"
  end.

(** A request object and its id. *)
Definition stream_request (v : Json) : option (Json * string * Json) :=
  match v with
  | JObject members =>
      let id := default JNull (json_get "id" members) in
      let valid_id := match id with
                      | JString s => negb (String.eqb s "") && bool_decide (Z.of_nat (String.length s) ≤ 128)
                      | JInt n => bool_decide (is_Some (checked_i64 n)) && bool_decide (Z.abs n ≤ 9007199254740991)
                      | _ => false
                      end in
      method ← json_get "method" members ≫= as_string;
      if bool_decide (json_get "jsonrpc" members ≫= as_string = Some "2.0") && valid_id
         && forallb (λ k, bool_decide (k ∈ ["id"; "jsonrpc"; "method"; "params"])) (json_keys members)
      then Some (id, method, default JNull (json_get "params" members)) else None
  | _ => None
  end.

Section Stream.
Context `{D : DefinitionCodec} `{H256 : Sha256} `{TO : TextOrder} `{MC : MetricsCodec} `{WE : WebExternals} `{SX : StreamText}.
Context (a : WebAuth) (secret : bytes).

(** [authorized]: a live session, and active Agents that are bound to jobs. *)
Definition authorized (g : Glance) (ids : list string) : bool :=
  gl_answers g
  && match (session (gl_now g) secret false (wc_idle_ms (wa_config a)) (wc_absolute_ms (wa_config a)) (λ t, t) (gl_web g)).1 with
     | Ok (Some _) => true
     | _ => false
     end
  && (bool_decide (ids = []) || is_ok (authorize_agents (wa_metrics a) (gl_agents g) ids)).
(** [web_metrics::latest]. *)
Definition latest_at (g : Glance) (params : LatestParams) : result MetricsError (list MetricsLatest) :=
  if gl_answers g then metrics_latest (wa_metrics a) (gl_agents g) (gl_jobs g) (gl_reports g) (gl_now_us g) params else Err MInternal.

(** [upgrade]: the connection that is registered, or the refusal; the query has a deadline. *)
Definition upgrade (headers : HeaderMap) (g : Glance) (id : string) (h : WsHub) : result HttpError WsHub :=
  _ ← read_gate headers (wa_config a);
  if bool_decide (header_str "origin" headers ≠ Some (wc_origin (wa_config a))) then Err forbidden else
  match cookie_secret headers with
  | None => Err unauthenticated
  | Some s =>
      if negb (gl_answers g) then Err internal else
      match (session (gl_now g) s false (wc_idle_ms (wa_config a)) (wc_absolute_ms (wa_config a)) (λ t, t) (gl_web g)).1 with
      | Ok (Some _) => hub_acquire id s h
      | Ok None => Err unauthenticated
      | Err _ => Err internal
      end
  end.

(** [enqueue]: a message that cannot be put into the queue ends the connection. *)
Definition enqueue (n : Notice) (c : Conn) : Conn :=
  match notice_text n with
  | None => stop_stream (Some 1011) c
  | Some text =>
      if bool_decide (OUTPUT_LIMIT < zlen text) || bool_decide (QUEUE_LIMIT ≤ zlen (cn_queue c)) then stop_stream (Some 1013) c
      else set_messages (cn_queue c ++ [MText n]) (cn_sending c) (cn_written c) c
  end.
(** The replies to a request, until one cannot be queued. *)
Fixpoint enqueue_all (ns : list Notice) (c : Conn) : Conn :=
  match ns with
  | [] => c
  | n :: ns => let c := enqueue n c in if cn_running c then enqueue_all ns c else c
  end.

(** What a request meets: the glance of its check of the session and that of its query, the
    generated ids and the clocks. *)
Record RequestSight : Type := mkSight {
  rq_session : Glance;
  rq_query : Glance;
  rq_key : string;
  rq_epoch : string;
  rq_now_ms : Z;
}.

(** [stream.subscribe]. *)
Definition subscribe (e : RequestSight) (id params : Json) (subs : gmap string Subscription) : list Notice * gmap string Subscription :=
  match decode_subscribe params with
  | None => ([NFault id (-32602) "VALIDATION_FAILED" "Invalid params"], subs)
  | Some p =>
      if negb (String.eqb (sc_topic p) "metrics")
      then ([NFault id (-32017) "UNSUPPORTED_FEATURE" "Only metrics subscriptions are available"], subs)
      else if match sc_since_cursor p with
              | Some c => String.eqb c "" || bool_decide (256 < Z.of_nat (String.length c))
              | None => false
              end
      then ([NFault id (-32602) "VALIDATION_FAILED" "Invalid cursor"], subs)
      else
        let params := mkLatestParams (sc_agent_ids p) (default [Cpu; Memory] (sc_metrics p)) in
        match validate_latest params with
        | Err x => ([metric_fault id x], subs)
        | Ok _ =>
            let union := subscription_agents subs ∪ list_to_set (lp_agent_ids params) in
            if bool_decide (SUBSCRIPTION_LIMIT ≤ Z.of_nat (size subs)) || bool_decide (AGENT_LIMIT < Z.of_nat (size union))
            then ([NFault id (-32013) "RATE_LIMITED" "Subscription limit exceeded"], subs)
            else match latest_at (rq_query e) params with
                 | Err x => ([metric_fault id x], subs)
                 | Ok snapshot =>
                     let resync := bool_decide (is_Some (sc_since_cursor p)) in
                     (NSubscribed id (rq_key e) (rq_epoch e) snapshot :: (if resync then [NResync (rq_key e) (rq_epoch e) 1] else []),
                      <[rq_key e := mkSubscription (rq_epoch e) (if resync then 1 else 0) params snapshot]> subs)
                 end
        end
  end.

(** [stream.unsubscribe]. *)
Definition unsubscribe (id params : Json) (subs : gmap string Subscription) : list Notice * gmap string Subscription :=
  match decode_unsubscribe params with
  | None => ([NFault id (-32602) "VALIDATION_FAILED" "Invalid params"], subs)
  | Some (key, epoch) =>
      let matched := match subs !! key with Some s => String.eqb (sb_epoch s) epoch | None => false end in
      ([NUnsubscribed id key epoch matched], if matched then delete key subs else subs)
  end.

(** [handle]. *)
Definition handle (e : RequestSight) (connection_epoch : string) (text : bytes) (recent : list bytes) (subs : gmap string Subscription) :
    list Notice * list bytes * gmap string Subscription :=
  match parse_json text with
  | None => ([NFault JNull (-32700) "VALIDATION_FAILED" "Parse error"], recent, subs)
  | Some v =>
      match stream_request v with
      | None => ([NFault JNull (-32600) "VALIDATION_FAILED" "Invalid request"], recent, subs)
      | Some (id, method, params) =>
          if bool_decide (json_bytes id ∈ recent) then ([NFault id (-32600) "VALIDATION_FAILED" "Repeated request id"], recent, subs)
          else
            let recent := recent ++ [json_bytes id] in
            let recent := if bool_decide (RECENT_LIMIT < zlen recent) then tail recent else recent in
            let '(replies, subs) :=
              if negb (authorized (rq_session e) []) then ([NFault id (-32001) "UNAUTHENTICATED" "Authentication required"], subs)
              else if String.eqb method "stream.ping" then
                match decode_struct false [] params with
                | None => ([NFault id (-32602) "VALIDATION_FAILED" "Invalid params"], subs)
                | Some _ => ([NAlive id (rq_now_ms e) connection_epoch], subs)
                end
              else if String.eqb method "stream.unsubscribe" then unsubscribe id params subs
              else if String.eqb method "stream.subscribe" then subscribe e id params subs
              else ([NFault id (-32601) "NOT_FOUND" "Only stream control methods are accepted"], subs) in
            (replies, recent, subs)
      end
  end.

(** How the wait for an answer ends: it comes, the deadline passes, or the token is cancelled. *)
Inductive Wait : Type := Answered | TimedOut | Interrupted.

Definition on_text (e : RequestSight) (w : Wait) (connection_epoch : string) (instant : Z) (text : bytes) (c : Conn) : Conn :=
  let controls := filter (λ t, instant - t < CONTROL_WINDOW) (cn_controls c) in
  if bool_decide (CONTROL_LIMIT ≤ zlen controls) then stop_stream (Some 1008) (set_requests (cn_recent c) controls c)
  else
    let c := set_requests (cn_recent c) (controls ++ [instant]) c in
    match w with
    | Interrupted => stop_stream None c
    | TimedOut => stop_stream (Some 1013) c
    | Answered =>
        let '(replies, recent, subs) := handle e connection_epoch text (cn_recent c) (cn_subs c) in
        enqueue_all replies (set_subs subs (set_requests recent (cn_controls c) c))
    end.

(** One subscription of a push: the check, the query, and the change if there is one. *)
Record PushSight : Type := mkPushSight { ps_session : Glance; ps_query : Glance; ps_wait : Wait }.
Definition push_one (e : PushSight) (key : string) (c : Conn) : Conn :=
  match cn_subs c !! key with
  | None => c
  | Some s =>
      match ps_wait e with
      | Interrupted => stop_stream None c
      | TimedOut => stop_stream (Some 1008) c
      | Answered =>
          match (if authorized (ps_session e) (lp_agent_ids (sb_params s)) then latest_at (ps_query e) (sb_params s) else Err MForbidden) with
          | Err _ => stop_stream (Some 1008) c
          | Ok next =>
              if same_metrics next (sb_snapshot s) then c
              else if bool_decide (u64_max < sb_sequence s + 1) then stop_stream (Some 1013) c
              else
                let s := mkSubscription (sb_epoch s) (sb_sequence s + 1) (sb_params s) next in
                enqueue (NUpdate key (sb_epoch s) (sb_sequence s) next) (set_subs (<[key := s]> (cn_subs c)) c)
          end
      end
  end.
Fixpoint push_all (sight : string → PushSight) (keys : list string) (c : Conn) : Conn :=
  match keys with
  | [] => c
  | key :: keys => let c := push_one (sight key) key c in if cn_running c then push_all sight keys c else c
  end.

(** The turns of the three tasks of [serve].  The writer takes a message and sends it; the
    close frame of a cancelled connection flushes the message being sent, if it was given to
    the socket before.  [EvRevoked]: a logout cancels the token, or the guard at the shutdown. *)
Inductive StreamEvent : Type :=
| EvText (e : RequestSight) (w : Wait) (instant : Z) (text : bytes)
| EvPing (data : bytes)
| EvPong
| EvClose
| EvBinary
| EvSourceEnd
| EvPush (sight : string → PushSight) (order : list string)
| EvShutdown
| EvTake
| EvSent (delivered : bool)
| EvFlush
| EvGuard (g : Glance)
| EvRevoked
| EvCancelSeen.
Definition stream_event (connection_epoch : string) (ev : StreamEvent) (c : Conn) : Conn :=
  let turn (f : Conn → Conn) := if cn_running c && negb (cn_cancelled c) then f c else c in
  match ev with
  | EvText e w instant text => turn (on_text e w connection_epoch instant text)
  | EvPing data =>
      turn (λ c, if bool_decide (QUEUE_LIMIT ≤ zlen (cn_queue c)) then stop_stream (Some 1013) c
                 else set_messages (cn_queue c ++ [MPong data]) (cn_sending c) (cn_written c) c)
  | EvPong => c
  | EvClose => turn (stop_stream (Some 1000))
  | EvBinary => turn (stop_stream (Some 1003))
  | EvSourceEnd => turn (stop_stream None)
  | EvPush sight order => turn (push_all sight order)
  | EvShutdown => turn (stop_stream (Some 1001))
  | EvTake =>
      match cn_sending c, cn_queue c with
      | None, m :: rest => if cn_cancelled c then c else set_messages rest (Some m) (cn_written c) c
      | _, _ => c
      end
  | EvSent delivered =>
      match cn_sending c with
      | Some m =>
          if cn_cancelled c then c
          else if (delivered : bool) then set_messages (cn_queue c) None (cn_written c ++ [m]) c
          else mkConn (cn_subs c) (cn_recent c) (cn_controls c) (cn_queue c) None (cn_written c) true 1013 (cn_running c)
      | None => c
      end
  | EvFlush =>
      match cn_sending c with
      | Some m => if cn_cancelled c then set_messages (cn_queue c) None (cn_written c ++ [m]) c else c
      | None => c
      end
  | EvGuard g => if cn_cancelled c then c
                 else if authorized g (elements (subscription_agents (cn_subs c))) then c else cancel_stream c
  | EvRevoked => cancel_stream c
  | EvCancelSeen => if cn_running c && cn_cancelled c then stop_stream None c else c
  end.

(** ** What the browser sees *)

(** The notices handed to the connection: those written, sent and in the queue. *)
Definition notice_of (m : Message) : option Notice := match m with MText n => Some n | MPong _ => None end.
Definition messages (c : Conn) : list Message := cn_written c ++ option_list (cn_sending c) ++ cn_queue c.
Definition notices_of (c : Conn) : list Notice := omap notice_of (messages c).
Definition notice_key (n : Notice) : option string :=
  match n with NSubscribed _ k _ _ | NResync k _ _ | NUpdate k _ _ _ => Some k | _ => None end.
Definition carried (n : Notice) : option (list MetricsLatest) :=
  match n with NSubscribed _ _ _ items | NUpdate _ _ _ items => Some items | _ => None end.

(** A browser that follows a subscription: it takes the snapshot, and then only notices of the
    same epoch with the next sequence number. *)
Inductive Seen : Type := Unseen | Following (epoch : string) (sequence : Z) (items : list MetricsLatest) | Broken.
Definition see (key : string) (x : Seen) (n : Notice) : Seen :=
  if bool_decide (notice_key n = Some key) then
    match n, x with
    | NSubscribed _ _ e items, Unseen => Following e 0 items
    | NResync _ e s, Following e' s' items => if bool_decide (e = e' ∧ s = s' + 1) then Following e s items else Broken
    | NUpdate _ e s items, Following e' s' _ => if bool_decide (e = e' ∧ s = s' + 1) then Following e s items else Broken
    | _, _ => Broken
    end
  else x.
Definition browse (key : string) (ns : list Notice) : Seen := foldl (see key) Unseen ns.

Lemma replay_app key l l' : browse key (l ++ l') = foldl (see key) (browse key l) l'.
Proof. apply foldl_app. Qed.
Lemma see_other key x n : notice_key n ≠ Some key → see key x n = x.
Proof. intros H. unfold see. by rewrite bool_decide_eq_false_2. Qed.
Lemma foldl_see_other key x ns : Forall (λ n, notice_key n ≠ Some key) ns → foldl (see key) x ns = x.
Proof. intros H. induction H as [|n ns Hn _ IH] in x |- *; cbn; [done|]. by rewrite see_other. Qed.

(** ** Steps *)

Lemma enqueue_cases n c : (∃ code, enqueue n c = stop_stream (Some code) c) ∨
  enqueue n c = set_messages (cn_queue c ++ [MText n]) (cn_sending c) (cn_written c) c ∧ zlen (cn_queue c) < QUEUE_LIMIT.
Proof.
  unfold enqueue. destruct (notice_text n); [|eauto]. destruct (_ || _) eqn:E; [eauto|]. bools. right. split; [done|lia].
Qed.
Lemma notices_enqueued n c : notices_of (set_messages (cn_queue c ++ [MText n]) (cn_sending c) (cn_written c) c) = notices_of c ++ [n].
Proof. unfold notices_of, messages. cbn. by rewrite !app_assoc, omap_app. Qed.
Lemma notices_stop code c : notices_of (stop_stream code c) = notices_of c.
Proof. done. Qed.

Lemma enqueue_all_cases ns c : ∃ pre suf, ns = pre ++ suf ∧ notices_of (enqueue_all ns c) = notices_of c ++ pre ∧
  cn_subs (enqueue_all ns c) = cn_subs c ∧ cn_recent (enqueue_all ns c) = cn_recent c ∧ cn_controls (enqueue_all ns c) = cn_controls c ∧
  (zlen (cn_queue c) ≤ QUEUE_LIMIT → zlen (cn_queue (enqueue_all ns c)) ≤ QUEUE_LIMIT) ∧
  (cn_cancelled (enqueue_all ns c) = false → cn_running c = true → suf = [] ∧ cn_running (enqueue_all ns c) = true).
Proof.
  induction ns as [|n ns IH] in c |- *; cbn.
  { exists [], []. rewrite (app_nil_r (notices_of c)). split_and!; done. }
  destruct (enqueue_cases n c) as [(code & ->)|[-> Hq]].
  { exists [], (n :: ns). rewrite (app_nil_r (notices_of c)). split_and!; done. }
  cbn [cn_running set_messages]. destruct (cn_running c) eqn:Er.
  2: { exists [n], ns. rewrite notices_enqueued. cbn. unfold zlen in *. rewrite length_app. cbn. split_and!; try done. lia. }
  destruct (IH (set_messages (cn_queue c ++ [MText n]) (cn_sending c) (cn_written c) c)) as (pre & suf & -> & Ho & Hs & Hr & Hc & Hz & Hd).
  exists (n :: pre), suf. rewrite Ho, notices_enqueued, Hs, Hr, Hc, <-app_assoc. cbn in *. split_and!; try done.
  - intros _. apply Hz. unfold zlen in *. rewrite length_app. cbn. lia.
  - intros Hf _. by apply Hd.
Qed.

(** The outcomes of a request. *)
Inductive handled (e : RequestSight) (subs : gmap string Subscription) : list Notice → gmap string Subscription → Prop :=
| handled_plain ns : Forall (λ n, notice_key n = None ∧ carried n = None) ns → handled e subs ns subs
| handled_delete ns key : Forall (λ n, notice_key n = None ∧ carried n = None) ns → handled e subs ns (delete key subs)
| handled_subscribe id params snapshot (resync : bool) : authorized (rq_session e) [] = true → latest_at (rq_query e) params = Ok snapshot →
    Z.of_nat (size subs) < SUBSCRIPTION_LIMIT →
    Z.of_nat (size (subscription_agents subs ∪ list_to_set (lp_agent_ids params))) ≤ AGENT_LIMIT →
    handled e subs (NSubscribed id (rq_key e) (rq_epoch e) snapshot :: (if resync then [NResync (rq_key e) (rq_epoch e) 1] else []))
      (<[rq_key e := mkSubscription (rq_epoch e) (if resync then 1 else 0) params snapshot]> subs).

Lemma plain_fault e subs id code kind message : handled e subs [NFault id code kind message] subs.
Proof. constructor. by repeat constructor. Qed.
#[local] Hint Resolve plain_fault : core.

Lemma subscribe_handled e id params subs : authorized (rq_session e) [] = true →
  handled e subs (subscribe e id params subs).1 (subscribe e id params subs).2.
Proof.
  intros Ha. unfold subscribe. destruct (decode_subscribe params) as [p|]; [|apply plain_fault]. destruct (negb _); [apply plain_fault|].
  destruct (match sc_since_cursor p with Some _ => _ | None => _ end); [apply plain_fault|].
  set (lp := mkLatestParams _ _). assert (∀ x, handled e subs [metric_fault id x] subs) as Hx by (intros []; apply plain_fault).
  destruct (validate_latest lp); [|by apply Hx]. destruct (_ || _) eqn:E; [apply plain_fault|]. bools.
  destruct (latest_at (rq_query e) lp) as [snapshot|] eqn:El; [|by apply Hx]. cbn. apply handled_subscribe; try done; lia.
Qed.
Lemma handle_handled e epoch text recent subs replies recent' subs' : handle e epoch text recent subs = (replies, recent', subs') →
  handled e subs replies subs' ∧ (zlen recent ≤ RECENT_LIMIT → zlen recent' ≤ RECENT_LIMIT).
Proof.
  unfold handle. destruct (parse_json text) as [v|]; [|intros [= <- <- <-]; split; [apply plain_fault|done]].
  destruct (stream_request v) as [[[id method] params]|]; [|intros [= <- <- <-]; split; [apply plain_fault|done]].
  case_bool_decide; [intros [= <- <- <-]; split; [apply plain_fault|done]|].
  set (r := recent ++ [json_bytes id]). set (r' := if bool_decide (RECENT_LIMIT < zlen r) then tail r else r).
  intros Hh. assert (recent' = r' ∧ handled e subs replies subs') as [-> Hd].
  2: { split; [done|]. intros Hr. subst r r'. unfold RECENT_LIMIT, zlen in *. rewrite length_app in *. cbn in *.
       case_bool_decide as Hl; [|rewrite length_app; cbn; lia]. destruct recent; cbn in *; [lia|]. rewrite length_app. cbn. lia. }
  destruct (negb (authorized (rq_session e) [])) eqn:Ea; [injection Hh as <- <- <-; split; [done|apply plain_fault]|]. apply negb_false_iff in Ea.
  destruct (String.eqb method "stream.ping").
  { destruct (decode_struct false [] params); injection Hh as <- <- <-; (split; [done|]); [constructor; by repeat constructor|apply plain_fault]. }
  destruct (String.eqb method "stream.unsubscribe").
  { unfold unsubscribe in Hh. destruct (decode_unsubscribe params) as [[key ep]|]; injection Hh as <- <- <-; (split; [done|]); [|apply plain_fault].
    destruct (match subs !! key with Some _ => _ | None => _ end); constructor; by repeat constructor. }
  destruct (String.eqb method "stream.subscribe"); [|injection Hh as <- <- <-; split; [done|apply plain_fault]].
  pose proof (subscribe_handled e id params subs Ea) as Hs. destruct (subscribe e id params subs) as [ns subs1]. injection Hh as <- <- <-. done.
Qed.

(** ** The invariant of a connection *)

Definition conn_follows (c : Conn) : Prop := ∀ key s, cn_subs c !! key = Some s →
  browse key (notices_of c) = Following (sb_epoch s) (sb_sequence s) (sb_snapshot s).
Record conn_ok (c : Conn) : Prop := {
  co_subs : Z.of_nat (size (cn_subs c)) ≤ SUBSCRIPTION_LIMIT;
  co_agents : Z.of_nat (size (subscription_agents (cn_subs c))) ≤ AGENT_LIMIT;
  co_queue : zlen (cn_queue c) ≤ QUEUE_LIMIT;
  co_recent : zlen (cn_recent c) ≤ RECENT_LIMIT;
  co_controls : zlen (cn_controls c) ≤ CONTROL_LIMIT;
  co_follows : cn_cancelled c = false → cn_running c = true ∧ conn_follows c;
}.

Lemma subscription_agents_elem subs x : x ∈ subscription_agents subs ↔ ∃ k s, subs !! k = Some s ∧ x ∈ lp_agent_ids (sb_params s).
Proof.
  unfold subscription_agents. rewrite elem_of_union_list. setoid_rewrite list_elem_of_fmap. split.
  - intros (X & ([k s] & -> & Hin) & Hx). apply elem_of_map_to_list in Hin. exists k, s. split; [done|]. by apply elem_of_list_to_set in Hx.
  - intros (k & s & Hk & Hx). eexists. split; [exists (k, s); split; [done|by apply elem_of_map_to_list]|]. by apply elem_of_list_to_set.
Qed.
Lemma agents_insert key s subs : subscription_agents (<[key := s]> subs) ⊆ subscription_agents subs ∪ list_to_set (lp_agent_ids (sb_params s)).
Proof.
  intros x (k & s' & Hk & Hx)%subscription_agents_elem. apply elem_of_union.
  apply lookup_insert_Some in Hk as [[<- <-]|[_ Hk]]; [right; by apply elem_of_list_to_set|left]. apply subscription_agents_elem. eauto.
Qed.
Lemma agents_delete key subs : subscription_agents (delete key subs) ⊆ subscription_agents subs.
Proof. intros x (k & s & [_ Hk]%lookup_delete_Some & Hx)%subscription_agents_elem. apply subscription_agents_elem. eauto. Qed.
Lemma agents_update key s s' subs : subs !! key = Some s → sb_params s' = sb_params s →
  subscription_agents (<[key := s']> subs) ⊆ subscription_agents subs.
Proof.
  intros Hs Hp x Hx. apply agents_insert, elem_of_union in Hx as [Hx|Hx]; [done|]. apply elem_of_list_to_set in Hx.
  apply subscription_agents_elem. exists key, s. by rewrite <-Hp.
Qed.
Lemma size_le_trans (X Y : gset string) n : Z.of_nat (size Y) ≤ n → X ⊆ Y → Z.of_nat (size X) ≤ n.
Proof. intros Hy Hs%subseteq_size. lia. Qed.

Lemma conn_ok_stop code c : conn_ok c → conn_ok (stop_stream code c).
Proof. intros [? ? ? ? ? _]. by split. Qed.
Lemma conn_ok_cancel c : conn_ok c → conn_ok (cancel_stream c).
Proof. intros [? ? ? ? ? _]. by split. Qed.
Lemma conn_new_ok : conn_ok conn_new.
Proof. split; [done..|]. intros _. split; [done|]. intros key s H. cbn in H. by apply lookup_empty_Some in H. Qed.

(** A subscription that goes on with the next notice. *)
Lemma follows_update c key s next : conn_follows c → cn_subs c !! key = Some s →
  let s' := mkSubscription (sb_epoch s) (sb_sequence s + 1) (sb_params s) next in
  ∀ k x, <[key := s']> (cn_subs c) !! k = Some x → browse k (notices_of c ++ [NUpdate key (sb_epoch s) (sb_sequence s + 1) next]) = Following (sb_epoch x) (sb_sequence x) (sb_snapshot x).
Proof.
  intros Hf Hs s' k x Hx. rewrite replay_app. cbn [foldl]. apply lookup_insert_Some in Hx as [[<- <-]|[Hne Hx]].
  - rewrite (Hf _ _ Hs). unfold see. cbn [notice_key]. rewrite !bool_decide_eq_true_2 by done. done.
  - rewrite see_other by (cbn; congruence). by apply Hf.
Qed.

Lemma push_one_ok e key c : conn_ok c → conn_ok (push_one e key c).
Proof.
  intros Hc. unfold push_one. destruct (cn_subs c !! key) as [s|] eqn:Es; [|done]. destruct (ps_wait e); [|by apply conn_ok_stop..].
  destruct (if authorized _ _ then _ else _) as [next|]; [|by apply conn_ok_stop]. destruct (same_metrics _ _); [done|].
  case_bool_decide; [by apply conn_ok_stop|]. cbv zeta. cbn [sb_epoch sb_sequence].
  set (s' := mkSubscription _ _ _ _). set (c1 := set_subs _ c). destruct Hc as [H1 H2 H3 H4 H5 H6].
  assert (Z.of_nat (size (cn_subs c1)) ≤ SUBSCRIPTION_LIMIT) as Hn1 by (cbn; by rewrite map_size_insert_Some).
  assert (Z.of_nat (size (subscription_agents (cn_subs c1))) ≤ AGENT_LIMIT) as Hn2.
  { eapply size_le_trans; [exact H2|]. by apply (agents_update key s). }
  destruct (enqueue_cases (NUpdate key (sb_epoch s) (sb_sequence s + 1) next) c1) as [(code & ->)|[-> Hq]]; [by split|].
  split; try done; [cbn in *; unfold zlen in *; rewrite length_app; cbn; lia|]. intros Hcan. destruct (H6 Hcan) as [Hr Hf]. split; [done|].
  intros k x Hx. rewrite notices_enqueued. by apply (follows_update c key s next).
Qed.
Lemma push_all_ok sight keys c : conn_ok c → conn_ok (push_all sight keys c).
Proof.
  revert c. induction keys as [|key keys IH]; intros c Hc; cbn; [done|]. pose proof (push_one_ok (sight key) key c Hc).
  destruct (cn_running _); [by apply IH|done].
Qed.

(** The subscriptions after a request, and what follows for the browser. *)
Lemma handled_follows e c replies subs' : handled e (cn_subs c) replies subs' → conn_follows c → Forall (λ n, notice_key n ≠ Some (rq_key e)) (notices_of c) →
  ∀ key s, subs' !! key = Some s → browse key (notices_of c ++ replies) = Following (sb_epoch s) (sb_sequence s) (sb_snapshot s).
Proof.
  intros Hh Hf Hfresh key s Hs. rewrite replay_app.
  destruct Hh as [ns Hn|ns k Hn|id params snapshot resync _ _ _ _].
  - rewrite foldl_see_other; [by apply Hf|]. eapply Forall_impl; [exact Hn|]. cbn. intros n [-> _]. done.
  - apply lookup_delete_Some in Hs as [_ Hs]. rewrite foldl_see_other; [by apply Hf|]. eapply Forall_impl; [exact Hn|]. cbn. intros n [-> _]. done.
  - apply lookup_insert_Some in Hs as [[<- <-]|[Hne Hs]].
    + unfold browse at 1. rewrite (foldl_see_other _ _ _ Hfresh). cbn [foldl]. unfold see at 2. cbn [notice_key].
      rewrite bool_decide_eq_true_2 by done. destruct resync; [|done]. cbn. unfold see. cbn [notice_key]. by rewrite !bool_decide_eq_true_2.
    + rewrite foldl_see_other; [by apply Hf|]. repeat constructor; [cbn; congruence|]. destruct resync; repeat constructor. cbn. congruence.
Qed.
Lemma handled_bounds e subs replies subs' : handled e subs replies subs' → Z.of_nat (size subs) ≤ SUBSCRIPTION_LIMIT →
  Z.of_nat (size (subscription_agents subs)) ≤ AGENT_LIMIT →
  Z.of_nat (size subs') ≤ SUBSCRIPTION_LIMIT ∧ Z.of_nat (size (subscription_agents subs')) ≤ AGENT_LIMIT.
Proof.
  intros [ns _|ns k _|id params snapshot resync _ _ Hn Hu] H1 H2; [done| |].
  - split; [|eapply size_le_trans; [exact H2|apply agents_delete]]. rewrite map_size_delete. destruct (subs !! k); unfold Datatypes.id; lia.
  - split; [|eapply size_le_trans; [exact Hu|apply agents_insert]]. rewrite map_size_insert. destruct (subs !! _); unfold Datatypes.id; lia.
Qed.

Lemma on_text_ok e w epoch instant text c : conn_ok c → cn_cancelled c = false → Forall (λ n, notice_key n ≠ Some (rq_key e)) (notices_of c) →
  conn_ok (on_text e w epoch instant text c).
Proof.
  intros [H1 H2 H3 H4 H5 H6] Hcan Hfresh. unfold on_text. destruct (H6 Hcan) as [Hrun Hf].
  set (controls := filter _ (cn_controls c)).
  assert (zlen controls ≤ CONTROL_LIMIT) as Hz by (pose proof (length_filter (λ t, instant - t < CONTROL_WINDOW) (cn_controls c)); unfold zlen in *; fold controls in H; lia).
  case_bool_decide as Hlim; [by split|].
  assert (zlen (controls ++ [instant]) ≤ CONTROL_LIMIT) as Hz' by (unfold zlen in *; rewrite length_app; cbn; lia).
  destruct w; [|by split..]. cbn [cn_recent cn_subs cn_controls set_requests].
  destruct (handle e epoch text (cn_recent c) (cn_subs c)) as [[replies recent] subs'] eqn:Eh.
  apply handle_handled in Eh as [Hh Hr]. destruct (handled_bounds _ _ _ _ Hh H1 H2) as [B1 B2].
  set (c1 := set_subs subs' _). destruct (enqueue_all_cases replies c1) as (pre & suf & Heq & Ho & Es & Er & Ec & Hq & Hd).
  split; rewrite ?Es, ?Er, ?Ec; [done|done|by apply Hq|by apply Hr|done|]. intros Hcan'. destruct (Hd Hcan' Hrun) as [-> Hrun']. split; [done|].
  rewrite app_nil_r in Heq. subst pre. intros key s Hs. rewrite Ho. rewrite Es in Hs. by eapply (handled_follows e c).
Qed.

(** What makes an event one that happens: ids are generated anew, a push visits every subscription. *)
Definition fits (ev : StreamEvent) (c : Conn) : Prop :=
  match ev with
  | EvText e _ _ _ => Forall (λ n, notice_key n ≠ Some (rq_key e)) (notices_of c)
  | EvPush _ order => order ≡ₚ (map_to_list (cn_subs c)).*1
  | _ => True
  end.
Inductive stream_step (epoch : string) (c : Conn) : Conn → Prop :=
| stream_turn ev : fits ev c → stream_step epoch c (stream_event epoch ev c).

(** A turn of the writer moves messages along. *)
Lemma conn_ok_moved c c' : conn_ok c → cn_subs c' = cn_subs c → cn_recent c' = cn_recent c → cn_controls c' = cn_controls c →
  zlen (cn_queue c') ≤ zlen (cn_queue c) → (cn_cancelled c' = false → cn_cancelled c = false ∧ cn_running c' = cn_running c ∧ notices_of c' = notices_of c) →
  conn_ok c'.
Proof.
  intros [K1 K2 K3 K4 K5 K6] Es Er Ec Hq Hm. split; rewrite ?Es, ?Er, ?Ec; try done; [lia|]. intros Hcan. destruct (Hm Hcan) as (Hc & -> & Ho).
  destruct (K6 Hc) as [Hr Hf]. split; [done|]. intros key s Hs. rewrite Ho. apply Hf. by rewrite <-Es.
Qed.

Lemma stream_event_ok epoch ev c : conn_ok c → fits ev c → conn_ok (stream_event epoch ev c).
Proof.
  intros Hc Hfit. destruct ev; cbn [stream_event]; try (destruct (cn_running c && negb (cn_cancelled c)) eqn:E; [|done]; bools);
    try done; try (by apply conn_ok_stop).
  - by apply on_text_ok.
  - case_bool_decide; [by apply conn_ok_stop|]. destruct Hc as [K1 K2 K3 K4 K5 K6]. split; try done.
    + cbn. unfold zlen in *. rewrite length_app. cbn. lia.
    + intros Hcan. destruct (K6 Hcan) as [Hr Hf]. split; [done|]. intros key s Hs. rewrite <-(Hf key s Hs). f_equal. unfold notices_of, messages. cbn.
      by rewrite !app_assoc, omap_app, app_nil_r.
  - by apply push_all_ok.
  - destruct (cn_sending c) eqn:Es; [done|]. destruct (cn_queue c) as [|m rest] eqn:Eq; [done|]. destruct (cn_cancelled c) eqn:Ecan; [done|].
    apply (conn_ok_moved c); try done; [cbn; rewrite Eq; unfold zlen; cbn; lia|]. intros _. split_and!; [done..|]. unfold notices_of, messages. cbn. by rewrite Es, Eq.
  - destruct (cn_sending c) as [m|] eqn:Es; [|done]. destruct (cn_cancelled c) eqn:Ecan; [done|].
    destruct delivered; apply (conn_ok_moved c); try done. intros _. split_and!; [done..|]. unfold notices_of, messages. cbn. by rewrite Es, <-app_assoc.
  - destruct (cn_sending c) as [m|] eqn:Es; [|done]. destruct (cn_cancelled c) eqn:Ecan; [|done]. apply (conn_ok_moved c); try done. cbn. congruence.
  - destruct (cn_cancelled c); [done|]. destruct (authorized _ _); [done|]. by apply conn_ok_cancel.
  - by apply conn_ok_cancel.
  - destruct (cn_running c && cn_cancelled c); [|done]. by apply conn_ok_stop.
Qed.

(** ** Theorems *)

(** C23. A web socket keeps its browser up to date.  In every state of a connection, whatever
    requests, pushes, writes, checks and failures there were: as long as the connection is not
    cancelled, a browser that follows a subscription through the notices given to the
    connection (the snapshot of the answer, then the changes in the order of their numbers, none
    missing) has exactly the epoch, number and items the Server holds for it; and the
    connection stays within its limits of subscriptions, Agents, queued messages, remembered
    request ids and requests per minute. *)
Theorem stream_follows epoch c : rtc (stream_step epoch) conn_new c →
  (cn_cancelled c = false → ∀ key s, cn_subs c !! key = Some s →
     browse key (omap notice_of (messages c)) = Following (sb_epoch s) (sb_sequence s) (sb_snapshot s)) ∧
  Z.of_nat (size (cn_subs c)) ≤ 16 ∧ Z.of_nat (size (subscription_agents (cn_subs c))) ≤ 100 ∧
  zlen (cn_queue c) ≤ 32 ∧ zlen (cn_recent c) ≤ 128 ∧ zlen (cn_controls c) ≤ 120.
Proof.
  intros H. assert (conn_ok c) as [H1 H2 H3 H4 H5 H6].
  { pose proof conn_new_ok as H0. revert H0. induction H as [|x y z [ev Hfit] _ IH]; [done|]. intros Hx. apply IH. by apply stream_event_ok. }
  split; [intros Hcan; by apply H6|done].
Qed.

(** ** Who sees measurements *)

(** What [authorized] and the queries promise, in terms of the tables: the session of the
    cookie is stored, not revoked and not over, and its user is enabled; an Agent is bound to
    jobs and has an active row. *)
Definition session_alive (g : Glance) : Prop := gl_answers g = true ∧ ∃ row user,
  wt_sessions (gl_web g) !! secret_digest secret = Some row ∧ wt_users (gl_web g) !! wr_user_id row = Some user ∧
  wr_revoked_at row = None ∧ wu_enabled user = true ∧
  gl_now g < wr_expires_at row ∧ gl_now g < wr_idle_expires_at row ∧
  gl_now g < saturating_add_i64 (wr_created_at row) (wc_absolute_ms (wa_config a)).
Definition agent_visible (g : Glance) (id : string) : Prop := is_Some (mc_bindings (wa_metrics a) !! id) ∧ ∃ row,
  agents (gl_agents g) !! text_bytes id = Some row ∧ ag_status row = "active"%string ∧ ag_revoked_at row = None.

(** What an event sees for a subscription: the database at its check of the session and at
    its query. *)
Definition event_sees (ev : StreamEvent) (key : string) : option (Glance * Glance) :=
  match ev with
  | EvText e _ _ _ => Some (rq_session e, rq_query e)
  | EvPush sight _ => Some (ps_session (sight key), ps_query (sight key))
  | _ => None
  end.
(** Measurements that the event read for this very subscription, after it found the session
    alive, of Agents that could be seen then. *)
Definition justified (ev : StreamEvent) (m : Message) : Prop := ∀ n items, notice_of m = Some n → carried n = Some items →
  ∃ key g1 g2 p, notice_key n = Some key ∧ event_sees ev key = Some (g1, g2) ∧ session_alive g1 ∧
    latest_at g2 p = Ok items ∧ Forall (λ item, agent_visible g2 (ml_agent_id item)) items.

Lemma authorized_live g ids : authorized g ids = true → session_alive g.
Proof.
  unfold authorized, session. intros [[Hg Hs]%andb_true_iff _]%andb_true_iff. split; [done|].
  destruct (live_session _ _) as [[row user]|] eqn:El; [|done]. unfold live_session in El.
  destruct (wt_sessions (gl_web g) !! secret_digest secret) as [row'|]; [|done]. cbn in El.
  destruct (wt_users (gl_web g) !! wr_user_id row') as [user'|] eqn:Eu; [|done]. cbn in El.
  destruct (bool_decide (wr_revoked_at row' = None) && wu_enabled user') eqn:Er; [|done]. injection El as -> ->. bools.
  exists row, user. destruct (bool_decide _ || bool_decide _) eqn:E; [done|]. bools. split_and!; try done; lia.
Qed.
Lemma authorize_visible g ids : authorize_agents (wa_metrics a) (gl_agents g) ids = Ok tt → Forall (agent_visible g) ids.
Proof.
  unfold authorize_agents. destruct (_ || _ || _) eqn:E; [done|]. apply orb_false_iff in E as [_ Eb].
  set (rows := filter _ _). destruct (bool_decide (zlen rows ≠ zlen ids)) eqn:El; [done|]. intros _. bools.
  assert (rows.*1 ≡ₚ text_bytes <$> ids) as Hp.
  { apply submseteq_length_Permutation; [|unfold zlen in *; rewrite !length_fmap; lia]. apply NoDup_submseteq.
    - apply NoDup_fmap_fst; [|apply NoDup_filter, NoDup_map_to_list]. intros k x y [_ Hx]%list_elem_of_filter [_ Hy]%list_elem_of_filter.
      eapply (map_to_list_unique (agents (gl_agents g))); [exact Hx|exact Hy].
    - intros k ([k' row] & -> & [[Hk _] _]%list_elem_of_filter)%list_elem_of_fmap. exact Hk. }
  rewrite Forall_forall. intros id Hid. split.
  - destruct (mc_bindings (wa_metrics a) !! id) eqn:Em; [eauto|]. exfalso. assert (existsb (λ id, bool_decide (mc_bindings (wa_metrics a) !! id = None)) ids = true) as Hx; [|congruence].
    apply existsb_exists. exists id. split; [by apply list_elem_of_In|by apply bool_decide_eq_true_2].
  - assert (text_bytes id ∈ rows.*1) as ([k row] & -> & [[_ Hr] Hm]%list_elem_of_filter)%list_elem_of_fmap by (rewrite Hp; by apply list_elem_of_fmap_2).
    exists row. split; [by apply elem_of_map_to_list|exact Hr].
Qed.
Lemma latest_items_ids config jobs reports now_us metrics ids items :
  latest_items config jobs reports now_us metrics ids = Ok items → ml_agent_id <$> items = ids.
Proof.
  induction ids as [|id ids IH] in items |- *; cbn [latest_items]; intros H; [by injection H as <-|]. inv_result. cbn. f_equal. by apply IH.
Qed.
Lemma latest_visible g p items : latest_at g p = Ok items → Forall (λ item, agent_visible g (ml_agent_id item)) items.
Proof.
  unfold latest_at, metrics_latest. destruct (gl_answers g); [|done]. intros H. inv_result. repeat match goal with x : unit |- _ => destruct x end.
  apply (Forall_fmap ml_agent_id (agent_visible g)). erewrite latest_items_ids by done. by apply authorize_visible.
Qed.

(** The guard does not pass a dead session, or an Agent that is gone. *)
Lemma authorized_dead g subs : ¬ session_alive g ∨ (∃ id, id ∈ subscription_agents subs ∧ ¬ agent_visible g id) →
  authorized g (elements (subscription_agents subs)) = true → False.
Proof.
  intros [Hg|(id & Hid & Hg)] Ha; apply Hg; [by eapply authorized_live|].
  unfold authorized in Ha. apply andb_true_iff in Ha as [_ [He|Ha]%orb_true_iff].
  - bools. apply elem_of_elements in Hid. rewrite He in Hid. by apply elem_of_nil in Hid.
  - destruct (authorize_agents _ _ _) as [[]|] eqn:E; [|done]. apply authorize_visible in E. rewrite Forall_forall in E. by apply E, elem_of_elements.
Qed.

(** What is added to the queue. *)
Definition queues (P : Message → Prop) (c c' : Conn) : Prop :=
  ∃ rest new, rest `suffix_of` cn_queue c ∧ cn_queue c' = rest ++ new ∧ Forall P new.
Lemma queues_same P c c' : cn_queue c' = cn_queue c → queues P c c'.
Proof. intros E. exists (cn_queue c), []. by rewrite app_nil_r, E. Qed.
Lemma queues_add P c c' c'' m : queues P c c' → P m → cn_queue c'' = cn_queue c' ++ [m] → queues P c c''.
Proof.
  intros (rest & new & Hs & E & Hn) Hm E2. exists rest, (new ++ [m]). rewrite E2, E, <-app_assoc. split; [done|]. split; [done|]. by apply Forall_app_2; [|constructor].
Qed.
Lemma queues_enqueue P n c c' : P (MText n) → queues P c c' → queues P c (enqueue n c').
Proof.
  intros HP Hq. destruct (enqueue_cases n c') as [(code & ->)|[-> _]]; [exact Hq|]. by eapply queues_add.
Qed.
Lemma queues_enqueue_all P ns c c' : Forall (λ n, P (MText n)) ns → queues P c c' → queues P c (enqueue_all ns c').
Proof.
  intros H. induction H as [|n ns Hn _ IH] in c' |- *; cbn; [done|]. intros Hq. pose proof (queues_enqueue P n c c' Hn Hq).
  destruct (cn_running _); [by apply IH|done].
Qed.
Lemma queues_push_one sight order key c c' : queues (justified (EvPush sight order)) c c' →
  queues (justified (EvPush sight order)) c (push_one (sight key) key c').
Proof.
  intros Hq. unfold push_one. destruct (cn_subs c' !! key) as [s|]; [|done]. destruct (ps_wait (sight key)); [|exact Hq..].
  destruct (authorized _ _) eqn:Ea; [|exact Hq]. destruct (latest_at _ _) as [next|] eqn:El; [|exact Hq]. destruct (same_metrics _ _); [done|].
  case_bool_decide; [exact Hq|]. apply queues_enqueue; [|exact Hq]. intros n items [= <-] [= <-].
  exists key. do 3 eexists. split; [done|]. split; [done|]. split; [by eapply authorized_live|]. split; [exact El|by eapply latest_visible].
Qed.
Lemma queues_push_all sight order keys c c' : queues (justified (EvPush sight order)) c c' →
  queues (justified (EvPush sight order)) c (push_all sight keys c').
Proof.
  induction keys as [|key keys IH] in c' |- *; cbn; [done|]. intros Hq. pose proof (queues_push_one sight order key c c' Hq).
  destruct (cn_running _); [by apply IH|done].
Qed.
Lemma plain_justified ev n : carried n = None → justified ev (MText n).
Proof. intros E n' items [= <-]. congruence. Qed.
Lemma handled_justified e w instant text subs ns subs' : handled e subs ns subs' → Forall (λ n, justified (EvText e w instant text) (MText n)) ns.
Proof.
  intros [ns' Hp|ns' k Hp|id p snapshot resync Ha Hl _ _]; [eapply Forall_impl; [exact Hp|]; intros n [_ Hc]; by apply plain_justified..|].
  constructor; [|destruct resync; [constructor; [by apply plain_justified|]|]; constructor]. intros n items [= <-] [= <-].
  exists (rq_key e). do 3 eexists. split; [done|]. split; [done|]. split; [by eapply authorized_live|]. split; [exact Hl|by eapply latest_visible].
Qed.

(** What a turn puts into the queue was read for the session. *)
Lemma stream_event_queue epoch ev c : queues (justified ev) c (stream_event epoch ev c).
Proof.
  assert (∀ x, cn_queue x = cn_queue c → queues (justified ev) c x) as same by (intros x; apply queues_same).
  destruct ev as [e w instant text|data| | | | |sight order| | |delivered| |g| |]; cbn [stream_event];
    try (destruct (cn_running c && negb (cn_cancelled c)); [|by apply same]); try (by apply same).
  - unfold on_text. case_bool_decide; [by apply same|]. destruct w; [|by apply same..]. cbn [cn_recent cn_subs cn_controls set_requests].
    destruct (handle e epoch text (cn_recent c) (cn_subs c)) as [[replies recent] subs'] eqn:Eh. apply handle_handled in Eh as [Hh _].
    apply queues_enqueue_all; [by eapply handled_justified|by apply same].
  - case_bool_decide; [by apply same|]. eapply queues_add; [by apply same| |reflexivity]. intros n items [=].
  - by apply queues_push_all, same.
  - destruct (cn_sending c); [by apply same|]. destruct (cn_queue c) as [|x rest] eqn:Eq; [by apply same|].
    destruct (cn_cancelled c); [by apply same|]. exists rest, []. rewrite Eq, app_nil_r. split; [by exists [x]|done].
  - destruct (cn_sending c); [|by apply same]. destruct (cn_cancelled c); [by apply same|]. destruct delivered; by apply same.
  - destruct (cn_sending c); [|by apply same]. destruct (cn_cancelled c); by apply same.
  - destruct (cn_cancelled c); [by apply same|]. destruct (authorized _ _); by apply same.
  - destruct (cn_running c && cn_cancelled c); by apply same.
Qed.

Definition wire (c : Conn) : list Message * option Message := (cn_written c, cn_sending c).
Lemma enqueue_wire n c : wire (enqueue n c) = wire c.
Proof. by destruct (enqueue_cases n c) as [(code & ->)|[-> _]]. Qed.
Lemma enqueue_all_wire ns c : wire (enqueue_all ns c) = wire c.
Proof. induction ns as [|n ns IH] in c |- *; cbn; [done|]. destruct (cn_running _); [rewrite IH|]; apply enqueue_wire. Qed.
Lemma push_one_wire e key c : wire (push_one e key c) = wire c.
Proof.
  unfold push_one. destruct (cn_subs c !! key); [|done]. destruct (ps_wait e); [|done..]. destruct (if authorized _ _ then _ else _); [|done].
  destruct (same_metrics _ _); [done|]. case_bool_decide; [done|]. cbv zeta. by rewrite enqueue_wire.
Qed.
Lemma push_all_wire sight keys c : wire (push_all sight keys c) = wire c.
Proof. induction keys as [|k keys IH] in c |- *; cbn; [done|]. destruct (cn_running _); [rewrite IH|]; apply push_one_wire. Qed.

(** What a turn does at the wire. *)
Inductive wire_step (c : Conn) : list Message * option Message → Prop :=
| wire_same : wire_step c (wire c)
| wire_take m : cn_cancelled c = false → m ∈ cn_queue c → wire_step c (cn_written c, Some m)
| wire_sent m : cn_sending c = Some m → wire_step c (cn_written c ++ [m], None)
| wire_failed : cn_cancelled c = false → wire_step c (cn_written c, None).
Lemma wire_step_same c x : x = wire c → wire_step c x.
Proof. intros ->. constructor. Qed.
Lemma stream_event_wire epoch ev c : wire_step c (wire (stream_event epoch ev c)).
Proof.
  assert (∀ x, wire x = wire c → wire_step c (wire x)) as same by (intros x; apply wire_step_same).
  destruct ev as [e w instant text|data| | | | |sight order| | |delivered| |g| |]; cbn [stream_event];
    try (destruct (cn_running c && negb (cn_cancelled c)); [|by apply same]); try (by apply same).
  - apply same. unfold on_text. case_bool_decide; [done|]. destruct w; [|done..].
    destruct (handle _ _ _ _ _) as [[replies recent] subs']. by rewrite enqueue_all_wire.
  - case_bool_decide; by apply same.
  - apply same, push_all_wire.
  - destruct (cn_sending c) eqn:Es; [by apply same|]. destruct (cn_queue c) as [|x rest] eqn:Eq; [by apply same|].
    destruct (cn_cancelled c) eqn:Ec; [by apply same|]. change (wire_step c (cn_written c, Some x)). apply wire_take; [done|]. rewrite Eq. left.
  - destruct (cn_sending c) eqn:Es; [|by apply same]. destruct (cn_cancelled c) eqn:Ec; [by apply same|].
    destruct delivered; [by apply wire_sent|by apply wire_failed].
  - destruct (cn_sending c) eqn:Es; [|by apply same]. destruct (cn_cancelled c); [by apply wire_sent|by apply same].
  - destruct (cn_cancelled c); [by apply same|]. destruct (authorized _ _); by apply same.
  - destruct (cn_running c && cn_cancelled c); by apply same.
Qed.
Lemma stream_event_cancelled epoch ev c : cn_cancelled c = true → cn_cancelled (stream_event epoch ev c) = true.
Proof.
  intros H. destruct ev; cbn [stream_event]; rewrite ?H, ?andb_false_r, ?andb_true_r; try done; repeat (case_match; try done).
Qed.

(** After the cancellation only the message being sent can still go out. *)
Lemma cancelled_wire epoch c c' : cn_cancelled c = true → rtc (stream_step epoch) c c' →
  wire c' = wire c ∨ ∃ m, cn_sending c = Some m ∧ wire c' = (cn_written c ++ [m], None).
Proof.
  intros Hcan H. induction H as [x|x y z [ev _] _ IH]; [by left|]. specialize (IH (stream_event_cancelled epoch ev x Hcan)).
  pose proof (stream_event_wire epoch ev x) as Hw. remember (wire (stream_event epoch ev x)) as w eqn:Ew.
  destruct Hw as [|m Hc _|m Hm|Hc]; [|congruence| |congruence]; injection Ew as Ew1 Ew2; rewrite <-?Ew1, <-?Ew2 in IH; unfold wire in *; cbn in *.
  - destruct IH as [IH|(m & Hm & IH)]; [by left; rewrite IH, Ew1, Ew2|right]. exists m. by rewrite IH, Ew1.
  - right. exists m. split; [done|]. destruct IH as [IH|(m' & Hm' & IH)]; [|congruence]. by rewrite IH, Ew1, Ew2.
Qed.

(** C24. A web socket shows measurements only to a live session, and stops when the guard finds
    the session dead or at a logout.  Whatever happens to a connection in one turn, the queue
    afterwards is a rest of the queue before and the messages the turn added, and the
    measurements of an added message are what the turn itself read for the subscription of
    that message, after its own check had found the session stored, not revoked, not over and
    its user enabled, and only of Agents that are bound to jobs and active at the query.  The
    writer takes messages from the queue only, and only while the connection is not
    cancelled.  And after a turn of the guard that finds the session dead, or an Agent of a
    subscription no longer visible, and after a logout, at most the one message that was being
    sent at that moment is still written, whatever happens afterwards. *)
Theorem stream_authorized epoch ev c :
  (∃ rest new, rest `suffix_of` cn_queue c ∧ cn_queue (stream_event epoch ev c) = rest ++ new ∧ Forall (justified ev) new) ∧
  wire_step c (wire (stream_event epoch ev c)) ∧
  (ev = EvRevoked ∨ (∃ g, ev = EvGuard g ∧ (¬ session_alive g ∨ ∃ id, id ∈ subscription_agents (cn_subs c) ∧ ¬ agent_visible g id)) →
   ∀ c'', rtc (stream_step epoch) (stream_event epoch ev c) c'' →
     cn_written c'' = cn_written c ∨ ∃ m, cn_sending c = Some m ∧ cn_written c'' = cn_written c ++ [m]).
Proof.
  split; [apply stream_event_queue|]. split; [apply stream_event_wire|]. intros Hev c'' Hrun.
  assert (cn_cancelled (stream_event epoch ev c) = true ∧ wire (stream_event epoch ev c) = wire c) as [Hcan Hw].
  { destruct Hev as [->|(g & -> & Hg)]; cbn [stream_event]; [by split|]. destruct (cn_cancelled c) eqn:E; [done|].
    destruct (authorized g (elements _)) eqn:Ea; [|by split]. exfalso. by apply (authorized_dead g (cn_subs c)). }
  apply cancelled_wire in Hrun; [|done]. unfold wire in *. injection Hw as Hw1 Hw2. rewrite Hw1, Hw2 in Hrun.
  destruct Hrun as [Hr|(m & Hm & Hr)]; [left|right; exists m]; injection Hr as -> _; done.
Qed.

End Stream.

(** ** The directory *)

Section HubFacts.
Context `{H256 : Sha256}.
Inductive hub_step (h : WsHub) : WsHub → Prop :=
| hub_opens id secret h' : wh_connections h !! id = None → hub_acquire id secret h = Ok h' → hub_step h h'
| hub_closes id : is_Some (wh_connections h !! id) → hub_step h (hub_drop id h)
| hub_revokes secret : hub_step h (hub_revoke secret h).

(** The slots and the connections add up, so that there are never more than 32 of them. *)
Lemma hub_slots h : rtc hub_step hub_new h → wh_slots h + Z.of_nat (size (wh_connections h)) = CONNECTION_LIMIT ∧ 0 ≤ wh_slots h.
Proof.
  intros H. assert (wh_slots hub_new + Z.of_nat (size (wh_connections hub_new)) = CONNECTION_LIMIT ∧ 0 ≤ wh_slots hub_new) as H0 by done.
  revert H0. induction H as [|x y z Hs _ IH]; [done|]. intros [Hx Hp]. apply IH. destruct Hs as [id secret h' Hn Ha|id [e He]|secret]; cbn.
  - unfold hub_acquire in Ha. case_bool_decide; [done|]. injection Ha as <-. cbn. rewrite map_size_insert_None by done. lia.
  - rewrite map_size_delete, He. unfold Datatypes.id. cbn. assert (size (wh_connections x) ≠ 0%nat) by (intros E%map_size_empty_inv; by rewrite E in He). lia.
  - rewrite map_size_fmap. done.
Qed.
(** A logout cancels exactly the connections of its session, and those already cancelled stay so. *)
Lemma hub_revoke_spec secret h id digest cancelled : wh_connections h !! id = Some (digest, cancelled) →
  wh_connections (hub_revoke secret h) !! id = Some (digest, cancelled || bool_decide (digest = secret_digest secret)).
Proof. intros E. cbn. rewrite lookup_fmap, E. cbn. do 3 f_equal. destruct (String.eqb_spec digest (secret_digest secret)); case_bool_decide; done. Qed.
End HubFacts.

(** ** Examples *)

(** A browser subscribes to the processor usage of one Agent; two seconds later there is a
    newer sample, and the writer writes the answer. *)
Definition demo_stream_request : Json :=
  JObject [("jsonrpc", JString "2.0"); ("id", JInt 1); ("method", JString "stream.subscribe");
           ("params", JObject [("topic", JString "metrics"); ("agentIds", JArray [JString "agent-a"]); ("metrics", JArray [JString "cpu"])])]%string.
Definition demo_stream_externals : WebExternals := {|
  parse_json _ := Some demo_stream_request; parse_stored _ := None; json_bytes _ := []; operation_json _ := ""%string;
  verify_password _ _ := false; text_contains _ _ := false;
|}.
Definition demo_stream_text : StreamText := λ _, Some [].
Definition demo_stream_auth : WebAuth :=
  mkWebAuth (mkWebAuthConfig true [] 60000 10000 5 true) "phc"
    (mkMetricsConfig {["agent-a"%string := mkBinding "agent-a" (Some demo_metric_id) None]} "rev" 5000).
Definition demo_glance (reports : list TaskReportRecord) : Glance :=
  mkGlance true 2000 (Some 10000000) demo_web2 (mkTables ∅ ∅ {[text_bytes "agent-a" := demo_agent_row]}) demo_metric_tables reports.
Definition demo_stream_step := stream_event (D := demo_metric_codec) (H256 := demo_sha) (TO := binary_collation) (MC := demo_metrics)
  (WE := demo_stream_externals) (SX := demo_stream_text) demo_stream_auth demo_secret "epoch".
Definition demo_before : Glance := demo_glance [demo_sample_row 3 9000000].
Definition demo_newer : Glance := demo_glance [demo_sample_row 9 9500000; demo_sample_row 3 9000000].
Definition demo_subscribed : Conn := demo_stream_step (EvText (mkSight demo_before demo_before "k" "e" 0) Answered 0 [1]) conn_new.
Definition demo_push : StreamEvent := EvPush (λ _, mkPushSight demo_newer demo_newer Answered) ["k"%string].
Definition demo_pushed : Conn := demo_stream_step demo_push demo_subscribed.
Definition demo_taken : Conn := demo_stream_step EvTake demo_pushed.

Example demo_stream_run :
  (length (cn_queue demo_subscribed), length (cn_queue demo_pushed), sb_sequence <$> cn_subs demo_pushed !! "k"%string, cn_cancelled demo_taken) =
  (1%nat, 2%nat, Some 1, false).
Proof. vm_compute. reflexivity. Qed.

Lemma demo_push_fits : fits demo_push demo_subscribed.
Proof. unfold fits, demo_push. replace ((map_to_list (cn_subs demo_subscribed)).*1) with ["k"%string] by (vm_compute; reflexivity). done. Qed.
Notation demo_stream_steps := (rtc (stream_step (D := demo_metric_codec) (H256 := demo_sha) (TO := binary_collation) (MC := demo_metrics)
  (WE := demo_stream_externals) (SX := demo_stream_text) demo_stream_auth demo_secret "epoch")) (only parsing).
Lemma demo_stream_reached : demo_stream_steps conn_new demo_taken.
Proof.
  eapply rtc_l; [apply (stream_turn _ _ _ _ (EvText (mkSight demo_before demo_before "k" "e" 0) Answered 0 [1])); constructor|].
  eapply rtc_l; [apply (stream_turn _ _ _ _ demo_push); exact demo_push_fits|]. apply rtc_once. by apply (stream_turn _ _ _ _ EvTake).
Qed.

Lemma stream_follows_witness :
  ∃ s, cn_subs demo_taken !! "k"%string = Some s ∧ sb_sequence s = 1 ∧
    browse "k" (omap notice_of (messages demo_taken)) = Following (sb_epoch s) (sb_sequence s) (sb_snapshot s) ∧
    Z.of_nat (size (cn_subs demo_taken)) ≤ 16.
Proof.
  destruct (stream_follows (D := demo_metric_codec) (H256 := demo_sha) (TO := binary_collation) (MC := demo_metrics)
    (WE := demo_stream_externals) (SX := demo_stream_text) demo_stream_auth demo_secret "epoch" demo_taken demo_stream_reached) as [Hf [Hs _]].
  destruct (cn_subs demo_taken !! "k"%string) as [s|] eqn:E; [|exfalso; vm_compute in E; discriminate].
  exists s. split; [reflexivity|]. split; [vm_compute in E; injection E as <-; reflexivity|]. split; [|exact Hs]. apply Hf; [vm_compute; reflexivity|exact E].
Defined.

Definition newest_items (queue : list Message) : option (list MetricsLatest) := m ← last queue; n ← notice_of m; carried n.
(** A push adds one change to the queue, of an Agent that can be seen, for a live session;
    and a logout while the answer is being sent. *)
Lemma stream_authorized_witness :
  (∃ rest m n items, cn_queue demo_pushed = rest ++ [m] ∧ notice_of m = Some n ∧ carried n = Some items ∧ items ≠ [] ∧
     session_alive (H256 := demo_sha) demo_stream_auth demo_secret demo_newer ∧
     Forall (λ item, agent_visible demo_stream_auth demo_newer (ml_agent_id item)) items) ∧
  ∃ m, cn_sending demo_taken = Some m ∧
    (cn_written (demo_stream_step EvFlush (demo_stream_step EvRevoked demo_taken)) = cn_written demo_taken ∨
     ∃ m', cn_sending demo_taken = Some m' ∧
       cn_written (demo_stream_step EvFlush (demo_stream_step EvRevoked demo_taken)) = cn_written demo_taken ++ [m']).
Proof.
  pose proof (stream_authorized (D := demo_metric_codec) (H256 := demo_sha) (TO := binary_collation) (MC := demo_metrics)
    (WE := demo_stream_externals) (SX := demo_stream_text) demo_stream_auth demo_secret "epoch") as H.
  split.
  - destruct (H demo_push demo_subscribed) as ((rest & new & Hs & Hq & Hn) & _ & _). change (cn_queue demo_pushed = rest ++ new) in Hq.
    assert (length (cn_queue demo_pushed) = 2%nat) as L2 by (vm_compute; reflexivity).
    assert (length (cn_queue demo_subscribed) = 1%nat) as L1 by (vm_compute; reflexivity).
    assert (newest_items (cn_queue demo_pushed) ≠ Some []) as Hne by (vm_compute; discriminate).
    assert (is_Some (newest_items (cn_queue demo_pushed))) as [items Hi] by (vm_compute; eexists; reflexivity).
    apply suffix_length in Hs. rewrite Hq, length_app in L2. destruct new as [|m new _] using rev_ind; [cbn in L2; lia|].
    rewrite app_assoc in Hq. unfold newest_items in Hi, Hne. rewrite Hq, last_snoc in Hi, Hne. apply Forall_app in Hn as [_ Hm]. apply Forall_cons in Hm as [Hm _]. cbn in Hi, Hne.
    destruct (notice_of m) as [n|] eqn:En; [|discriminate]. cbn in Hi, Hne. destruct (Hm n items En Hi) as (key & g1 & g2 & p & _ & Hg & Ha & _ & Hv).
    injection Hg as <- <-. exists (rest ++ new), m, n, items. split; [exact Hq|]. split; [exact En|]. split; [exact Hi|]. split; [congruence|]. split; [exact Ha|exact Hv].
  - destruct (cn_sending demo_taken) as [m|] eqn:E; [|exfalso; vm_compute in E; discriminate]. exists m. split; [reflexivity|].
    rewrite <-E. apply (H EvRevoked demo_taken); [by left|]. apply rtc_once. by apply (stream_turn _ _ _ _ EvFlush).
Defined.
